(* ===== verification/_CoqProject ===== *)
-Q . S2P
Prelude.v
Fuel.v
Bytes.v
Json.v
Values.v
Snapshots.v
Capability.v
Interaction.v
Event.v
Aggregate.v
AggregateSpec.v
Routing.v
Bridge.v
BridgeSpec.v
Runtime.v
RuntimeSpec.v
Dto.v
Net.v
Platform.v
Convert.v
ConvertSpec.v
NativeProtocol.v
Native.v
NativeSpec.v
Examples.v
CoreTheorems.v
BridgeTheorems.v
RuntimeTheorems.v
ProtocolTheorems.v
NativeRuns.v
NativeTheorems.v
RelayProtocol.v
RelaySpec.v
Tunnel.v
RelayServer.v
RelayServerSpec.v
RelayClient.v
RelayConfig.v
RelayClientSpec.v
RelayRuns.v
RelayTheorems.v
CodexMapper.v
CodexMapperSpec.v
CodexProtocol.v
CodexApproval.v
CodexApprovalSpec.v
CodexInteractions.v
CodexInteractionsSpec.v
CodexRuns.v
CodexTheorems.v
CodexHost.v
CodexControl.v
CodexWorker.v
CodexWorkerSpec.v
CodexControlTheorems.v
CodexProxy.v
CodexProxySpec.v
CodexSource.v
CodexSourceSpec.v
CodexConfig.v
CodexProcess.v
CodexProcessSpec.v
CodexConnectionTheorems.v
Transport.v
NativeWorker.v
NativeWorkerSpec.v
NativeWorkerTheorems.v
PairingProtocol.v
PairingStore.v
PairingStoreSpec.v
PairingServer.v
PairingServerSpec.v
PairingRuns.v
PairingTheorems.v
HostRelay.v
HostRelaySpec.v
AdminSocket.v
HostCommands.v
HostCommandsSpec.v
HostTheorems.v
