(* ===== verification/Prelude.v ===== *)
(** * AgentPulse: a verification library

    AgentPulse connects coding agents (Providers) with the places where people
    watch and answer them (Channels).  A Provider publishes normalized events
    about its sessions; the Bridge reduces them into one aggregate per session
    and hands them to the subscribed Channels; a Channel sends back responses
    and commands, which the Bridge validates and hands to the owning Provider.
    A Runtime Host owns the Bridge and the lifecycle of the adapters, and a
    versioned wire protocol carries the domain objects as JSON.  Around this
    foundation the library models a Channel (the Native channel, through which
    phones connect), a Provider (Codex, whose app server reports threads, turns
    and approval requests), the Relay that joins the two ends of a connection
    between a phone and a host behind firewalls, the pairing that gives a phone
    its credential, the private files and TLS listeners this rests on, and the
    two programs: the relay, and the host with its commands.

    ** Files

    - [Prelude], [Bytes], [Json]: results and the state-and-error monad ([result], [act]),
      values with a validity check ([Refined]), 64-bit integers with their
      overflow checks, ordered maps and sets as the source iterates them
      ([btree_values], [btree_elements]), strings as lists of Unicode scalar
      values and their UTF-8 bytes and order, big-endian integers, JSON values
      as [serde_json::Value] has them, duplicate detection, tactics and hint
      databases.  [Fuel]: loops that end once the clock has passed their
      deadline.
    - [Values], [Snapshots], [Capability], [Interaction], [Event]: the data of
      [agentpulse-core/src] ([id.rs], [value.rs], [error.rs]; [plan.rs],
      [progress.rs]; [capability.rs], [endpoint.rs], [command.rs];
      [interaction.rs]; [session.rs], [event.rs]) with every validating
      constructor.  A type the source can only build through a validating
      constructor is a [Refined] type where the check is on one value, and a
      record with a well-formedness predicate ([plan_wf], [request_wf],
      [event_wf], ...) where it relates several fields; the predicate is proved
      to be what the constructor establishes.
    - [Aggregate]: [aggregate.rs].  [AggregateSpec]: the histories an aggregate
      can have ([history]) and its state as a function of the history.
    - [Routing]: [routing.rs].
    - [Bridge]: [agentpulse-bridge/src/bridge.rs], [port.rs], [registry.rs].  An
      adapter is an arbitrary function of the calls made to it so far, and the
      calls are recorded in the registry.  [BridgeSpec]: the effects of each
      operation, the invariant [bridge_inv], executions ([bridge_step],
      [reachable_bridge]) and the catch-up of a client.
    - [Runtime]: [runtime.rs].  Ingress permits are cells of a heap shared by
      reference.  A Source callback is an argument: its result, and the calls
      that arrive through issued handles until it returns.  [RuntimeSpec]: the
      lifecycle loops, the invariant [host_inv] and executions ([host_step],
      [reachable_host]).
    - [Dto], [Convert]: [agentpulse-protocol/src] ([v2/scalar.rs], [v2/dto.rs];
      [v2/convert.rs], [message.rs], [error.rs], [codec.rs]).  [ConvertSpec]:
      round trips, soundness and totality of the conversions.
    - [NativeProtocol], [Native]: [agentpulse-channels/native/src]
      ([protocol.rs], [config.rs]; [state.rs], [port.rs], [runtime.rs]): the
      messages of a client and their codec, the delivery state shared by the
      Port and the worker, and the handling of every client message, over the
      model of the Bridge.  At the end of the first: round trips.  [NativeSpec]:
      the bounded queue, and the steps of a connection.
    - [RelayProtocol], [Tunnel], [RelayServer], [RelayClient], [RelayConfig]:
      [agentpulse-relay/src] ([protocol.rs], [framing.rs], [endpoint.rs],
      [crypto.rs], [error.rs]; [tunnel.rs]; [server.rs]; [client.rs];
      [config.rs], the listener of [server.rs] and the commands of [main.rs]).  A
      connection of the server is a state machine whose steps are the regions
      between locks and messages ([relay_step]); a world is the shared state
      with all connections.  [RelaySpec], [RelayServerSpec], [RelayClientSpec]:
      framing, proofs, the invariant of all interleavings, the waiting loop.
    - [CodexMapper], [CodexProtocol], [CodexApproval], [CodexInteractions]:
      [agentpulse-providers/codex/src] ([mapper.rs]; [protocol.rs];
      [approval.rs]; the interaction functions of [runtime.rs],
      [local_interaction.rs] and [port.rs]).  [CodexMapperSpec] relates the
      mapper's threads to the committed events, the end of [CodexProtocol] the
      requests to their answers, [CodexApprovalSpec] the options and questions to
      the decisions they stand for, and [CodexInteractionsSpec] composes them.
      [CodexHost] runs the mapper over the model of the Runtime Host.
    - [CodexControl], [CodexWorker]: [control.rs], [port.rs], the worker of
      [runtime.rs] ([run_worker] to [process_live_frame]) and
      [runtime/local.rs]: the bounded queues of commands and prompts, the
      requests they become, and the responses.  At the end of [CodexControl]: bounds
      and order of the queues.  [CodexWorkerSpec]: requests and the commands they
      belong to ([correlated]), with other threads at work between the turns
      ([reaches]).
    - [CodexProxy]: the client proxy of [runtime.rs] ([ProxyControl],
      [run_client_proxy], [run_proxy_connection]): a connection as a loop over
      what its two sockets read, and the acceptor, the connections and the
      thread that stops them as interleaved steps ([proxy_act]).
      [CodexProxySpec]: what passes through ([transparent]) and the streams a
      stop reaches.
    - [CodexSource]: [CodexProviderSource] of [runtime.rs] with
      [initialize_connection], [wait_for_response] and [start_client_proxy].
      [CodexSourceSpec]: what is held at each step of a start ([balanced],
      [idle], [ready]), histories ([source_reaches]) and the end of the waiting.
    - [CodexConfig], [CodexProcess]: [config.rs], [lib.rs], [executable.rs] and
      [status.rs]; [ManagedCodexRuntime], [ManagedProcess] and the version check of
      [runtime.rs] and the local sockets of [transport.rs], on Unix.  Processes,
      sockets and the clock are given by what the system answers
      ([RuntimeEnvironment]); what was launched, signalled, waited for, created
      and removed is recorded.  At the end of the first: accepted configurations
      ([configured_well]).  [CodexProcessSpec]: children and files over any starts
      and stops ([runtime_reaches], [children_inv], [files_inv]), and their end.
    - [Net]: the parts of [std::net] and [str] the following files use.
    - [Transport]: [agentpulse-transport/src], up to its sockets: an accept, a
      read or a close is a function of what the system and the libraries answer.
      At its end: upgrades and close reasons.
    - [NativeWorker]: the polling loop of the Native channel's [runtime.rs] and
      its Source.  The worker is a program counter and a state; the answers of
      the system are arguments of its steps ([worker_act]), between which other
      threads act ([serve_step]).  [NativeWorkerSpec]: the invariant
      ([worker_inv]) and the order of the frames ([stream]).
    - [Platform]: [agentpulse-platform/src/lib.rs] on Unix, over a disk whose
      operations may fail at any point ([DiskFaults]).  At its end: what a failing
      replacement leaves behind.
    - [PairingProtocol], [PairingStore], [PairingServer]:
      [agentpulse-pairing/src] ([protocol.rs], [error.rs]; [store.rs];
      [server.rs]).  At the end of the first: validation and round trips.
      [PairingStoreSpec]: the store as a map from clients to token digests
      ([refined]).  [PairingServerSpec]: the conversation as an automaton
      ([phase_step]), what was received, approved and read from the clock before a
      credential changed ([served]), and its end.
    - [HostRelay]: [agentpulse-host/src] ([direct.rs] and the relay half of
      [main.rs]): settings, routes of the paired devices, and the supervisor of
      the relay connections, whose threads are interleaved steps
      ([supervisor_act]).  [HostRelaySpec]: their invariant ([supervised]).
    - [AdminSocket]: [agentpulse-platform/src/unix.rs], the endpoint of a running
      host and the messages sent to it, with their correctness.
    - [HostCommands]: the commands of [main.rs] and [direct.rs]: the private
      configuration, the address that is served and what the adapters are built
      from ([serve_plan]), the administration loop ([admin_turn]) and its clients,
      the launch of Codex, and the parts of a pairing.  [HostCommandsSpec]: which
      files a command leaves alone, the stored threads, and what a turn of the
      loop does ([went_on]).
    - [Examples], [NativeRuns], [RelayRuns], [CodexRuns],
      [PairingRuns]: concrete third-party functions, sessions and runs, on which the theorems
      are instantiated.
    - [CoreTheorems], [BridgeTheorems], [RuntimeTheorems], [ProtocolTheorems],
      [NativeTheorems], [NativeWorkerTheorems], [RelayTheorems], [CodexTheorems],
      [CodexControlTheorems], [CodexConnectionTheorems], [PairingTheorems],
      [HostTheorems] and the end of [CodexHost]: the properties.

    ** What the theorems show

    - Core: applying an event is atomic and follows the sequence protocol; the
      aggregate is a function of its history; the window and its pages are
      exactly the latest events; a complete history can be replayed; responses
      validate exactly when they answer the request, and a request is offered
      as answerable exactly when an acceptable answer exists.
    - Bridge: the invariant of all reachable states; rejected and repeated
      events have no effect; the fan-out reaches every subscriber once, in
      order, whatever others do; responses and commands reach only the owning
      Provider and only when allowed; subscriptions are exact; a client that
      follows the pages receives the whole history and ends up subscribed.
    - Runtime: the Bridge inside a Host is a reachable Bridge; exactly the
      latest handles of running adapters are active; a revoked handle stays
      revoked; what start, stop, registration and drop do and report.
    - Protocol: encoding and decoding are inverse on valid messages, encoding
      fails only on timestamps outside RFC 3339, decoding builds only valid
      messages, and integers and capability lists have one accepted form.
    - Native channel: the client protocol survives encoding and decoding; the
      output queue is bounded; a subscription delivers its page in one piece;
      what a connection did not subscribe to is out of its reach; a disconnect
      withdraws its subscriptions, except in the case [native_subscription_leak]
      describes.  In every interleaving of its worker with other threads, the
      frames of a connection are sent in order, nothing is written to a closed
      socket, a connection that ends takes its subscriptions with it while the
      handle is active, and no connection is left when the worker returns.
    - Relay: messages are read as they were written; a proof binds the whole
      handshake unless the two transcripts in question have the same MAC; in every interleaving a Host is joined only to a Client that
      proved a key of its routes, and to one at most; honest peers succeed;
      waiting and tunnels end; a tunnel changes no byte, though what is buffered
      when a side closes is lost ([tunnel_close_discards]).  The configuration the
      relay program creates is complete, valid and private, and belongs to the
      token it prints, and nothing else on the disk is changed
      ([relay_enrollment]); the listener is bounded.
    - Codex provider: the events of a session are numbered as the aggregate
      expects and agree with the thread's state; notifications are mapped once;
      answers are matched with requests; an approval is shown as what it is;
      every response the core admits is accepted and translated into the exact
      decision or answers of the request received, and is reported as given only
      after Codex was told.  With the Runtime Host as
      its ingress and other endpoints at work on the Bridge, the Bridge's
      aggregate of a session is the replay of what the mapper published.
    - Codex commands: the queues are bounded and keep the order of the prompts;
      every response belongs to the command it answers; clearing a queue while
      its first prompt is being started ends the worker
      ([clear_fails_pending_turn]).
    - Codex connections: the provider holds the app server and its threads
      exactly while it is started, and a start returns; the client proxy changes
      and loses no message, and a stop reaches every registered stream (an upstream
      handshake in progress is left to its timeout; its connection never forwards).  Configurations
      that are accepted name each thread once and sockets of their own; a stop of
      the managed process leaves no child and no process group behind.
    - Pairing, transport and platform: the QR code and the messages survive
      encoding and decoding; a private file is replaced or kept; whatever fails,
      the credential store is the map its operations describe; the listener
      admits exactly the clients whose last token stands; a pairing session
      changes the credential of one client at most, one that sent the secret and was
      approved in time, follows its protocol and ends.
    - Host program: saved settings are loaded as they were; the routes of the
      host are those of its devices; the relay supervisor reports a route as
      ready only while the relay has confirmed the worker's present connection; the endpoint is served at a private
      address unless direct settings say otherwise; a running host keeps its
      credentials and relay settings; the thread commands change exactly the
      stored set; requests to a running host are answered with its current
      status, and the loop ends when it is told to; a message on the
      administration socket arrives complete and bounded or not at all.

    ** Modelling choices

    - Every operation is total.  Recursion is structural; the only fuels are
      the twenty digits of a 64-bit integer ([digits_from], enough because
      [u64_max < 10 ^ 20]), the number of pages a client asks for ([catch_up],
      for which one page per missing event is proved enough) and the rounds of
      [flush_loop] (one per queued response and one more, proved enough).
      The loops of a pairing session, of the start of the Codex provider and of
      the start and stop of its process have a fuel; [pairing_terminates],
      [source_lifecycle] and [managed_runtime] show that some fuel suffices when
      the clock advances, and every other theorem about them holds for any fuel.
      [reap] has one turn per worker, which is proved enough ([reap_spec]).
      Loops that poll sockets run over a list of what the sockets and the clock
      answered ([pump], [wait_loop]); that they end is a theorem.
    - An operation through a handle is one step: its permit guard and the
      Bridge's mutex are held from the first check to the end, and revocation
      takes the same lock.  Interleavings of threads are sequences of such
      steps.
    - Third-party code is a parameter: UUID versions and texts, timestamp range
      and RFC 3339 ([Externals], with the documented inverses in
      [ExternalsOk]); JSON ([SerdeJson], [NativeJson], [CodexLibrary]); HMAC,
      base64 and the JSON of Relay messages ([RelayExternals]); the validators
      of Codex's schema; the JSON of pairing messages and settings
      ([PairingJson], [HostJson]); SHA-256, X.509 and the JSON of the store
      ([StoreLibrary]); whether [rustls] accepts an identity ([TlsLibrary]); PEM and
      X.509 parsing of the relay ([RelayLibrary]); the JSON of the
      administration messages ([AdminJson]).  Adapter ports are arbitrary functions, and errors of
      adapters are opaque strings.
    - The Codex mapper publishes through an arbitrary ingress ([EventSink]) that
      may commit or reject each event; [host_sink] is the instance for the
      Runtime Host.  Generated identities and clock readings
      are functions of how often they were asked for ([Draws], [ApprovalDraws]);
      identities are assumed distinct up to [draw_horizon] draws.  The
      operations of [CodexInteractions] run one after another, while those of
      the approval state keep its invariant in any order.  That a thread
      document lists its turns, which Codex's schema requires, is a hypothesis
      ([turns_listed]).
    - Other threads act between the turns of the Codex worker and during its read
      ([Meanwhile]); the answers that other threads queue for a proxied connection
      while its loop runs are not modelled.  Calls to the system return; on Unix
      this includes the version probe of Codex, which the source gives no
      deadline.
    - Paths are absolute and a list of their components.  An entry of the disk is
      a file, a directory or something else ([Fs_Other]); links are not followed.
    - Accessors are record projections, and clones are the values themselves.

    ** Not modelled

    Error messages ([Display], [source]) beyond those a command prints; recovery
    from poisoned locks and panics in adapters; the field names and defaults that
    [serde] derives for the data transfer objects; the parsing of the command
    lines by [clap].  The code for Windows (named pipes, job objects, access
    control lists, the search for the Codex executable): it is another
    implementation of the Unix half against system calls whose behaviour is not
    in the sources.  Sockets, TLS, WebSocket framing, the terminal rendering of
    the QR code and the mDNS daemon are calls into the system and third-party
    libraries.  Of the host program, [serve] and [pair] are modelled in parts (the
    plan, the administration loop, the supervisor, the Runtime Host; the pairing
    session, the connector of its route, the wait for the device's route), but not
    as one run with all their threads. *)

From stdpp Require Import base sorting strings numbers gmap list.

#[export] Set Warnings "-clear-no-such-hyp".

(** ** Rust results

    [Result<A, E>] with the error type first, so that [result E] is a monad:
    the [?] operator of the source is the bind [x ← m; k]. *)

Inductive result (E A : Type) : Type :=
| Ok (a : A)
| Err (e : E).
Arguments Ok {E A} a.
Arguments Err {E A} e.

#[export] Instance result_ret E : MRet (result E) := λ A a, Ok a.
#[export] Instance result_bind E : MBind (result E) := λ A B f m,
  match m with Ok a => f a | Err e => Err e end.
#[export] Instance result_fmap E : FMap (result E) := λ A B f m,
  match m with Ok a => Ok (f a) | Err e => Err e end.
#[export] Instance result_eq_dec E A `{EqDecision E, EqDecision A} :
  EqDecision (result E A).
Proof. solve_decision. Defined.

(** [Option::ok_or] and [Result::map_err]. *)
Definition ok_or {E A} (e : E) (o : option A) : result E A :=
  match o with Some a => Ok a | None => Err e end.

Definition map_err {E F A} (f : E → F) (m : result E A) : result F A :=
  match m with Ok a => Ok a | Err e => Err (f e) end.

Definition is_ok {E A} (m : result E A) : bool :=
  match m with Ok _ => true | Err _ => false end.

(** [iter.map(f).collect::<Result<Vec<_>, _>>()]: stops at the first error. *)
Fixpoint try_collect {E A B} (f : A → result E B) (l : list A) : result E (list B) :=
  match l with
  | [] => Ok []
  | a :: l' => b ← f a; bs ← try_collect f l'; Ok (b :: bs)
  end.

(** [Option<Result<T, E>>::transpose] after a map. *)
Definition transpose_map {E A B} (f : A → result E B) (o : option A) :
    result E (option B) :=
  match o with None => Ok None | Some a => Some <$> f a end.

Lemma Ok_inj {E A} (a b : A) : (Ok a : result E A) = Ok b → a = b.
Proof. congruence. Qed.

Lemma bind_Ok {E A B} (m : result E A) (f : A → result E B) b :
  (m ≫= f) = Ok b ↔ ∃ a, m = Ok a ∧ f a = Ok b.
Proof. destruct m; naive_solver. Qed.

Lemma bind_Err {E A B} (m : result E A) (f : A → result E B) e :
  (m ≫= f) = Err e ↔ m = Err e ∨ ∃ a, m = Ok a ∧ f a = Err e.
Proof. destruct m; naive_solver. Qed.

Lemma fmap_Ok {E A B} (m : result E A) (f : A → B) b :
  f <$> m = Ok b ↔ ∃ a, m = Ok a ∧ b = f a.
Proof. destruct m; naive_solver. Qed.

Lemma ok_or_Ok {E A} (e : E) (o : option A) a : ok_or e o = Ok a ↔ o = Some a.
Proof. destruct o; naive_solver. Qed.

Lemma ok_or_Err {E A} (e e' : E) (o : option A) :
  ok_or e o = Err e' ↔ o = None ∧ e' = e.
Proof. destruct o; naive_solver. Qed.

Lemma map_err_Ok {E F A} (f : E → F) (m : result E A) a :
  map_err f m = Ok a ↔ m = Ok a.
Proof. destruct m; naive_solver. Qed.

Lemma map_err_Err {E F A} (f : E → F) (m : result E A) e :
  map_err f m = Err e ↔ ∃ e', m = Err e' ∧ e = f e'.
Proof. destruct m; naive_solver. Qed.

Lemma try_collect_Ok {E A B} (f : A → result E B) l bs :
  try_collect f l = Ok bs ↔ Forall2 (λ a b, f a = Ok b) l bs.
Proof.
  revert bs. induction l as [|a l IH]; intros bs; simpl.
  - split; [intros [= <-]; constructor | by inversion 1].
  - rewrite bind_Ok. setoid_rewrite bind_Ok. setoid_rewrite IH. split.
    + intros (b & Hb & bs' & Hbs & [= <-]). by constructor.
    + inversion 1; naive_solver.
Qed.

Lemma try_collect_all_ok {E A B} (f : A → result E B) l :
  Forall (λ a, is_ok (f a)) l → ∃ bs, try_collect f l = Ok bs.
Proof.
  induction 1 as [|a l Ha _ [bs Hbs]]; simpl; [eauto|].
  destruct (f a) as [b|]; [|done]. exists (b :: bs). simpl.
  by rewrite Hbs.
Qed.

Lemma length_try_collect {E A B} (f : A → result E B) l bs :
  try_collect f l = Ok bs → length bs = length l.
Proof. rewrite try_collect_Ok. intros ?%Forall2_length. lia. Qed.

(** A left inverse through [try_collect]: the decoding of an encoded list. *)
Lemma try_collect_roundtrip {E F A B} (f : A → result E B) (g : B → result F A)
    (l : list A) (bs : list B) :
  (∀ a b, a ∈ l → f a = Ok b → g b = Ok a) →
  try_collect f l = Ok bs → try_collect g bs = Ok l.
Proof.
  rewrite !try_collect_Ok. intros Hfg Hf.
  induction Hf as [|a b l bs Hab Hf IH]; constructor.
  - apply Hfg; [left|done].
  - apply IH. intros a' b' Ha'. apply Hfg. by right.
Qed.

Lemma try_collect_map_roundtrip {F A B} (f : A → B) (g : B → result F A) (l : list A) :
  (∀ a, a ∈ l → g (f a) = Ok a) → try_collect g (f <$> l) = Ok l.
Proof.
  intros Hl. apply try_collect_Ok, Forall2_fmap_l, Forall_Forall2_diag.
  by apply Forall_forall.
Qed.

(** ** Mutating operations

    A method [fn op(&mut self, ..) -> Result<A, E>] is an [act S E A]: it
    returns the state it leaves behind on every path, the error paths too, so
    that atomicity is a theorem and not a modelling choice. *)

Definition act (S E A : Type) : Type := S → S * result E A.

#[export] Instance act_ret S E : MRet (act S E) := λ A a s, (s, Ok a).
#[export] Instance act_bind S E : MBind (act S E) := λ A B f m s,
  match m s with
  | (s', Ok a) => f a s'
  | (s', Err e) => (s', Err e)
  end.

Definition throw {S E A} (e : E) : act S E A := λ s, (s, Err e).
Definition gets {S E A} (f : S → A) : act S E A := λ s, (s, Ok (f s)).
Definition modify {S E} (f : S → S) : act S E unit := λ s, (f s, Ok tt).
Definition lift {S E A} (m : result E A) : act S E A := λ s, (s, m).

(** [m] never changes the state when it fails. *)
Definition atomic {S E A} (m : act S E A) : Prop :=
  ∀ s s' e, m s = (s', Err e) → s' = s.

(** [m] only reads the state. *)
Definition readonly {S E A} (m : act S E A) : Prop :=
  ∀ s, fst (m s) = s.

Lemma readonly_atomic {S E A} (m : act S E A) : readonly m → atomic m.
Proof. intros Hm s s' e Heq. specialize (Hm s). by rewrite Heq in Hm. Qed.

Lemma readonly_lift {S E A} (m : result E A) : readonly (S:=S) (lift m).
Proof. done. Qed.

Lemma readonly_gets {S E A} (f : S → A) : readonly (E:=E) (gets f).
Proof. done. Qed.

Lemma readonly_bind {S E A B} (m : act S E A) (f : A → act S E B) :
  readonly m → (∀ a, readonly (f a)) → readonly (m ≫= f).
Proof.
  intros Hm Hf s. unfold mbind, act_bind. specialize (Hm s).
  destruct (m s) as [s' [a|e]]; simpl in *; subst; [apply Hf|done].
Qed.

(** A read-only prefix followed by an atomic rest is atomic. *)
Lemma atomic_bind {S E A B} (m : act S E A) (f : A → act S E B) :
  readonly m → (∀ a, atomic (f a)) → atomic (m ≫= f).
Proof.
  intros Hm Hf s s' e. unfold mbind, act_bind. specialize (Hm s).
  destruct (m s) as [s1 [a|e1]]; simpl in *; subst; [apply Hf|naive_solver].
Qed.

Lemma act_bind_Ok {S E A B} (m : act S E A) (f : A → act S E B) s s' b :
  (m ≫= f) s = (s', Ok b) ↔ ∃ s1 a, m s = (s1, Ok a) ∧ f a s1 = (s', Ok b).
Proof. unfold mbind, act_bind. destruct (m s) as [? []]; naive_solver. Qed.

Lemma act_bind_inv {S E A B} (m : act S E A) (f : A → act S E B) s s' r :
  (m ≫= f) s = (s', r) → (∃ s1 a, m s = (s1, Ok a) ∧ f a s1 = (s', r)) ∨ (∃ e, m s = (s', Err e) ∧ r = Err e).
Proof. unfold mbind, act_bind. destruct (m s) as [? []]; naive_solver. Qed.

(** *** Triples *)

Definition triple {S E A} (P : S → Prop) (a : act S E A) (Q : S → result E A → Prop) : Prop :=
  ∀ s s' r, P s → a s = (s', r) → Q s' r.

Lemma triple_bind {S E A B} P (R : A → S → Prop) Q (a : act S E A) (f : A → act S E B) :
  triple P a (λ s r, match r with Ok x => R x s | Err e => Q s (Err e) end) → (∀ x, triple (R x) (f x) Q) →
  triple P (x ← a; f x) Q.
Proof.
  intros Ha Hf s s' r Hs [(s1 & x & E1 & E2)|(e & E1 & ->)]%act_bind_inv; pose proof (Ha _ _ _ Hs E1) as H1; [exact (Hf x s1 s' r H1 E2)|done].
Qed.
Lemma triple_pre {S E A} (P P' : S → Prop) (a : act S E A) Q : (∀ s, P s → P' s) → triple P' a Q → triple P a Q.
Proof. intros HP Ha s s' r Hs. apply Ha. auto. Qed.
Lemma triple_post {S E A} P (a : act S E A) (Q Q' : S → result E A → Prop) :
  (∀ s r, Q s r → Q' s r) → triple P a Q → triple P a Q'.
Proof. intros HQ Ha s s' r Hs E1. eapply HQ, Ha; eauto. Qed.

(** ** Refinement newtypes

    A Rust newtype with a private field and a validating constructor: its
    values satisfy the predicate the constructor checks.  [Is_true] makes the
    proof component irrelevant, so equality is equality of the raw values. *)

Record Refined {A : Type} (P : A → bool) : Type := Refine {
  raw : A;
  raw_ok : Is_true (P raw)
}.
Arguments Refine {A P} & raw raw_ok.
Arguments raw {A P} r.
Arguments raw_ok {A P} r.

Definition of_raw {A} {P : A → bool} (a : A) : option (Refined P) :=
  match decide (Is_true (P a)) with
  | left H => Some (Refine a H)
  | right _ => None
  end.

Section refined.
Context {A : Type} {P : A → bool}.

Lemma refined_eq (x y : Refined P) : raw x = raw y → x = y.
Proof.
  destruct x as [a Ha], y as [b Hb]; simpl; intros ->.
  f_equal. apply proof_irrel.
Qed.

Lemma of_raw_Some (a : A) (x : Refined P) : of_raw a = Some x ↔ raw x = a.
Proof.
  unfold of_raw. destruct (decide _) as [H|H]; split.
  - by intros [= <-].
  - intros <-. f_equal. by apply refined_eq.
  - done.
  - intros <-. by destruct H; apply raw_ok.
Qed.

Lemma of_raw_None (a : A) : of_raw (P:=P) a = None ↔ P a = false.
Proof.
  rewrite <-not_true_iff_false, <-Is_true_true.
  unfold of_raw. by destruct (decide _); split.
Qed.

Lemma of_raw_raw (x : Refined P) : of_raw (raw x) = Some x.
Proof. by apply of_raw_Some. Qed.

#[global] Instance refined_eq_dec `{EqDecision A} : EqDecision (Refined P).
Proof.
  intros x y. destruct (decide (raw x = raw y)) as [H|H].
  - left. by apply refined_eq.
  - right. by intros ->.
Defined.

#[global] Instance refined_countable `{Countable A} : Countable (Refined P) :=
  inj_countable raw of_raw of_raw_raw.
End refined.

(** ** Machine integers

    [u64] and [NonZeroU64] keep their width; [usize] is 64 bits wide here and
    is an [N] below [2^64]. *)

Definition u64_max : N := 18446744073709551615.

Abbreviation u64 := (Refined (λ n : N, (n <=? u64_max)%N)).
Abbreviation NonZeroU64 :=
  (Refined (λ n : N, ((1 <=? n) && (n <=? u64_max))%N)).

(** [NonZeroU64::new], [NonZeroU64::get] and [NonZeroU64::checked_add(1)]. *)
Definition nonzero_new (v : u64) : option NonZeroU64 := of_raw (raw v).

Lemma nonzero_get_ok (v : NonZeroU64) : Is_true (raw v <=? u64_max)%N.
Proof. pose proof (raw_ok v) as H. apply andb_prop_elim in H. tauto. Qed.

Definition nonzero_get (v : NonZeroU64) : u64 := Refine (raw v) (nonzero_get_ok v).

Definition nonzero_checked_succ (v : NonZeroU64) : option NonZeroU64 :=
  of_raw (raw v + 1)%N.

Lemma raw_nonzero_get (v : NonZeroU64) : raw (nonzero_get v) = raw v.
Proof. done. Qed.

Lemma u64_bound (v : u64) : (raw v ≤ u64_max)%N.
Proof. pose proof (raw_ok v) as H. by apply Is_true_true, N.leb_le in H. Qed.

Lemma nonzero_bound (v : NonZeroU64) : (1 ≤ raw v ≤ u64_max)%N.
Proof.
  pose proof (raw_ok v) as H. apply Is_true_true, andb_true_iff in H as [H1 H2].
  by apply N.leb_le in H1, H2.
Qed.

Lemma nonzero_new_get (v : NonZeroU64) : nonzero_new (nonzero_get v) = Some v.
Proof. by apply of_raw_Some. Qed.

Lemma nonzero_new_None (v : u64) : nonzero_new v = None ↔ raw v = 0%N.
Proof.
  unfold nonzero_new. rewrite of_raw_None, andb_false_iff, !N.leb_gt.
  pose proof (u64_bound v). lia.
Qed.

Lemma nonzero_succ_Some (v w : NonZeroU64) :
  nonzero_checked_succ v = Some w ↔ raw w = (raw v + 1)%N.
Proof. apply of_raw_Some. Qed.

Lemma nonzero_succ_None (v : NonZeroU64) :
  nonzero_checked_succ v = None ↔ raw v = u64_max.
Proof.
  unfold nonzero_checked_succ. rewrite of_raw_None, andb_false_iff, !N.leb_gt.
  pose proof (nonzero_bound v). lia.
Qed.

(** Addition on [u64] that returns [None] on overflow. *)
Definition u64_checked_add (a : u64) (n : N) : option u64 := of_raw (raw a + n)%N.

(** [iter.take(n)] for a [usize] bound. *)
Fixpoint ntake {A} (n : N) (l : list A) : list A :=
  match l with
  | [] => []
  | x :: l' => if (n =? 0)%N then [] else x :: ntake (N.pred n) l'
  end.

Lemma ntake_take {A} (n : N) (l : list A) : ntake n l = take (N.to_nat n) l.
Proof.
  revert n. induction l as [|x l IH]; intros n; simpl.
  - by rewrite take_nil.
  - destruct (N.eqb_spec n 0) as [->|Hn]; [done|].
    rewrite IH. rewrite N2Nat.inj_pred.
    destruct (N.to_nat n) eqn:E; [lia|done].
Qed.

(** The loop [while queue.len() > capacity { queue.pop_front(); }]. *)
Fixpoint trim_front {A} (capacity : N) (l : list A) : list A :=
  match l with
  | [] => []
  | _ :: l' => if (capacity <? N.of_nat (length l))%N then trim_front capacity l' else l
  end.

(** The loop keeps exactly the newest [capacity] entries. *)
Lemma trim_front_drop {A} (capacity : N) (l : list A) :
  trim_front capacity l = drop (length l - N.to_nat capacity) l.
Proof.
  induction l as [|x l IH]; [done|].
  cbn [trim_front]. destruct (N.ltb_spec capacity (N.of_nat (length (x :: l)))) as [H|H];
    simpl in *.
  - rewrite IH. by replace (S (length l) - N.to_nat capacity)
      with (S (length l - N.to_nat capacity)) by lia.
  - by replace (S (length l) - N.to_nat capacity) with 0 by lia.
Qed.

(** ** Updates of a list by position *)

Lemma list_alter_insert_same {A} (f : A → A) (l : list A) i x :
  alter f i (<[i := x]> l) = <[i := f x]> l.
Proof. revert i. induction l as [|y l IH]; intros [|i]; [done..|]. simpl. f_equal. apply IH. Qed.

Lemma take_S_insert {A} (l : list A) i x :
  i < length l → take (S i) (<[i := x]> l) = take i l ++ [x].
Proof.
  intros Hi. rewrite insert_take_drop by done.
  rewrite take_app, take_take, length_take. replace (S i `min` i) with i by lia.
  by replace (S i - i `min` length l) with 1 by lia.
Qed.

(** Extending a sorted list after its last element. *)
Lemma sorted_snoc {A} (R : A → A → Prop) l x :
  Transitive R → StronglySorted R l → (∀ y, last l = Some y → R y x) → StronglySorted R (l ++ [x]).
Proof.
  intros Htr Hs Hlast. induction Hs as [|y l Hs IH Hy]; simpl; [by repeat constructor|].
  assert (∀ z, last l = Some z → R z x) as Hl.
  { intros z Hz. apply Hlast. destruct l; [done|]. by rewrite last_cons_cons. }
  constructor; [by apply IH|]. apply Forall_app. split; [done|]. apply Forall_singleton.
  destruct (last l) as [z|] eqn:Ez.
  - transitivity z; [|by apply Hl]. rewrite Forall_forall in Hy.
    by apply Hy, last_Some_elem_of.
  - apply last_None in Ez as ->. by apply Hlast.
Qed.

(** ** Hash-set uniqueness loops

    The source rejects duplicates with
    [for x in items { if !set.insert(key(x)) { return Err(..x..) } }]; the
    function returns the element at which the loop stops. *)
Fixpoint first_duplicate {A K} `{Countable K} (key : A → K) (seen : gset K)
    (l : list A) : option A :=
  match l with
  | [] => None
  | x :: l' =>
      if decide (key x ∈ seen) then Some x
      else first_duplicate key ({[key x]} ∪ seen) l'
  end.

Section duplicates.
Context {A K : Type} `{Countable K} (key : A → K).

Lemma first_duplicate_None_seen (seen : gset K) (l : list A) :
  first_duplicate key seen l = None ↔
  NoDup (key <$> l) ∧ ∀ x, x ∈ l → key x ∉ seen.
Proof.
  revert seen. induction l as [|x l IH]; intros seen; simpl.
  - split; [|done]. intros _. split; [constructor|set_solver].
  - destruct (decide (key x ∈ seen)) as [Hx|Hx].
    + split; [done|]. intros [_ Hl]. destruct (Hl x); [left|done].
    + rewrite IH, NoDup_cons, list_elem_of_fmap. set_solver.
Qed.

Lemma first_duplicate_None (l : list A) :
  first_duplicate key ∅ l = None ↔ NoDup (key <$> l).
Proof. rewrite first_duplicate_None_seen. set_solver. Qed.

(** The reported element is the first one whose key was already seen. *)
Lemma first_duplicate_Some_seen (seen : gset K) (l : list A) x :
  first_duplicate key seen l = Some x →
  ∃ l1 l2, l = l1 ++ x :: l2 ∧ NoDup (key <$> l1) ∧
           (∀ y, y ∈ l1 → key y ∉ seen) ∧
           (key x ∈ seen ∨ key x ∈ key <$> l1).
Proof.
  revert seen. induction l as [|y l IH]; intros seen; simpl; [done|].
  destruct (decide (key y ∈ seen)) as [Hy|Hy].
  - intros [= <-]. exists [], l. split; [done|].
    split; [constructor|]. set_solver.
  - intros (l1 & l2 & -> & Hnd & Hseen & Hx)%IH.
    exists (y :: l1), l2. split; [done|]. split.
    + rewrite fmap_cons, NoDup_cons, list_elem_of_fmap. set_solver.
    + set_solver.
Qed.

Lemma first_duplicate_Some (l : list A) x :
  first_duplicate key ∅ l = Some x →
  ∃ l1 l2, l = l1 ++ x :: l2 ∧ NoDup (key <$> l1) ∧ key x ∈ key <$> l1.
Proof.
  intros (l1 & l2 & ? & ? & _ & ?)%first_duplicate_Some_seen.
  exists l1, l2. set_solver.
Qed.

(** [iter().find(|x| x.key == k)] on a collection with unique keys. *)
Lemma find_key (l : list A) (k : K) x :
  NoDup (key <$> l) →
  List.find (λ y, bool_decide (key y = k)) l = Some x ↔ x ∈ l ∧ key x = k.
Proof.
  induction l as [|y l IH]; [set_solver|].
  rewrite fmap_cons, NoDup_cons. intros [Hy Hnd]. cbn [List.find].
  destruct (bool_decide_reflect (key y = k)) as [Hk|Hk]; [|rewrite IH by done; set_solver].
  split; [intros [= <-]; set_solver|]. intros [[->|Hx]%elem_of_cons Hk']; [done|].
  destruct Hy. rewrite Hk, <-Hk'. by apply list_elem_of_fmap_2.
Qed.

Lemma find_key_None (l : list A) (k : K) :
  List.find (λ y, bool_decide (key y = k)) l = None ↔ k ∉ key <$> l.
Proof.
  induction l as [|y l IH]; [set_solver|]. rewrite fmap_cons. cbn [List.find].
  destruct (bool_decide_reflect (key y = k)); [set_solver|]. rewrite IH. set_solver.
Qed.

(** Equally many unique keys, one set contained in the other: a permutation. *)
Lemma unique_keys_Permutation (l1 l2 : list K) :
  NoDup l1 → (∀ k, k ∈ l1 → k ∈ l2) → length l2 ≤ length l1 → l1 ≡ₚ l2.
Proof.
  intros Hnd Hsub Hlen. apply submseteq_length_Permutation; [|done].
  by apply NoDup_submseteq.
Qed.
End duplicates.

(** ** Ordered containers

    [BTreeMap] and [BTreeSet] are [gmap] and [gset]; their iterators follow the
    key order, given by an injective rank into [N]. *)

Class Ranked (K : Type) : Type := {
  rank : K → N;
  rank_inj :: Inj (=) (=) rank
}.

Definition rank_le {K} `{Ranked K} (x y : K) : Prop := (rank x ≤ rank y)%N.
Definition rank_lt {K} `{Ranked K} (x y : K) : Prop := (rank x < rank y)%N.

#[export] Instance rank_le_dec {K} `{Ranked K} : RelDecision rank_le.
Proof. intros x y. unfold rank_le. apply _. Defined.
#[export] Instance rank_le_trans {K} `{Ranked K} : Transitive rank_le.
Proof. intros x y z. unfold rank_le. lia. Qed.
#[export] Instance rank_le_total {K} `{Ranked K} : Total rank_le.
Proof. intros x y. unfold rank_le. lia. Qed.

(** [BTreeSet::iter] *)
Definition btree_elements {K} `{Countable K, Ranked K} (s : gset K) : list K :=
  merge_sort rank_le (elements s).

(** [BTreeMap::keys] and [BTreeMap::values] *)
Definition btree_keys {K V} `{Countable K, Ranked K} (m : gmap K V) : list K :=
  btree_elements (dom m).

Definition btree_values {K V} `{Countable K, Ranked K} (m : gmap K V) : list V :=
  omap (λ k, m !! k) (btree_keys m).

Section ordered.
Context {K : Type} `{Countable K, Ranked K}.

Lemma elem_of_btree_elements (s : gset K) k : k ∈ btree_elements s ↔ k ∈ s.
Proof. unfold btree_elements. by rewrite merge_sort_Permutation, elem_of_elements. Qed.

Lemma NoDup_btree_elements (s : gset K) : NoDup (btree_elements s).
Proof. unfold btree_elements. rewrite merge_sort_Permutation. apply NoDup_elements. Qed.

Lemma btree_elements_sorted (s : gset K) : StronglySorted rank_lt (btree_elements s).
Proof.
  pose proof (NoDup_btree_elements s) as Hnd.
  assert (StronglySorted rank_le (btree_elements s)) as Hs
    by (apply StronglySorted_merge_sort; apply _).
  induction Hs as [|k l Hs IH Hk]; constructor.
  - apply IH. by apply NoDup_cons in Hnd as [_ ?].
  - apply Forall_forall. intros k' Hk'. rewrite Forall_forall in Hk.
    apply NoDup_cons in Hnd as [Hnk _].
    assert (rank k ≠ rank k') by (intros ?%(inj rank); set_solver).
    specialize (Hk _ Hk'). unfold rank_le, rank_lt in *. lia.
Qed.

Lemma length_btree_elements (s : gset K) : length (btree_elements s) = size s.
Proof. unfold btree_elements. by rewrite merge_sort_Permutation. Qed.

Lemma elem_of_btree_values {V} (m : gmap K V) v :
  v ∈ btree_values m ↔ ∃ k, m !! k = Some v.
Proof.
  unfold btree_values, btree_keys. rewrite list_elem_of_omap.
  setoid_rewrite elem_of_btree_elements. setoid_rewrite elem_of_dom.
  split; [naive_solver|]. intros [k Hk]. exists k. eauto.
Qed.

Lemma length_btree_values {V} (m : gmap K V) : length (btree_values m) = size m.
Proof.
  unfold btree_values, btree_keys.
  rewrite <-(size_dom (D:=gset K) m), <-(length_btree_elements (dom m)).
  assert (∀ k, k ∈ btree_elements (dom m) → is_Some (m !! k)) as Hl.
  { intros k. by rewrite elem_of_btree_elements, elem_of_dom. }
  induction (btree_elements (dom m)) as [|k l IH]; [done|]. simpl.
  destruct (Hl k) as [v Hv]; [left|]. rewrite Hv. simpl. f_equal. apply IH.
  intros. apply Hl. by right.
Qed.
End ordered.

(** ** Text

    A Rust [String] is the list of its Unicode scalar values; literals are
    embedded from ASCII. *)

Abbreviation rstring := (list N).

Definition lit (s : string) : rstring :=
  (λ a, Ascii.N_of_ascii a) <$> String.list_ascii_of_string s.

(** [char::is_whitespace]: the Unicode [White_Space] property. *)
Definition is_whitespace (c : N) : bool :=
  ((9 <=? c) && (c <=? 13) || (c =? 32) || (c =? 133) || (c =? 160) ||
   (c =? 5760) || ((8192 <=? c) && (c <=? 8202)) || (c =? 8232) ||
   (c =? 8233) || (c =? 8239) || (c =? 8287) || (c =? 12288))%N.

Definition is_ascii_lowercase (c : N) : bool := ((97 <=? c) && (c <=? 122))%N.
Definition is_ascii_digit (c : N) : bool := ((48 <=? c) && (c <=? 57))%N.

(** [str::trim] *)
Fixpoint trim_start (s : rstring) : rstring :=
  match s with
  | [] => []
  | c :: s' => if is_whitespace c then trim_start s' else s
  end.
Definition trim_end (s : rstring) : rstring := reverse (trim_start (reverse s)).
Definition trim (s : rstring) : rstring := trim_end (trim_start s).

Definition is_empty {A} (l : list A) : bool := match l with [] => true | _ => false end.

Lemma trim_start_nil (s : rstring) : trim_start s = [] ↔ forallb is_whitespace s.
Proof.
  induction s as [|c s IH]; simpl; [done|]. destruct (is_whitespace c); simpl; [done|].
  by split.
Qed.

Lemma trim_start_head (s : rstring) c s' : trim_start s = c :: s' → is_whitespace c = false.
Proof.
  induction s as [|d s IH]; simpl; [done|]. destruct (is_whitespace d) eqn:E; [done|].
  by intros [= -> _].
Qed.

(** Trimming leaves nothing exactly when every character is white space. *)
Lemma trim_is_empty (s : rstring) : is_empty (trim s) = forallb is_whitespace s.
Proof.
  unfold trim, trim_end. destruct (trim_start s) as [|c s'] eqn:E.
  - apply trim_start_nil, Is_true_true in E. by rewrite E.
  - assert (forallb is_whitespace s = false) as ->.
    { apply not_true_iff_false. intros Hs%Is_true_true%trim_start_nil. congruence. }
    apply trim_start_head in E. rewrite reverse_cons.
    assert (trim_start (reverse s' ++ [c]) ≠ []) as Hne.
    { rewrite trim_start_nil, forallb_app. simpl. rewrite E, andb_false_r. naive_solver. }
    destruct (trim_start (reverse s' ++ [c])) as [|d l] eqn:Ed; [done|].
    rewrite reverse_cons. by destruct (reverse l).
Qed.

(** ** Shared automation *)

Create HintDb agentpulse.
Create Rewrite HintDb agentpulse.
#[export] Hint Resolve readonly_atomic readonly_lift readonly_gets : agentpulse.

(** Case analysis on the innermost [match] scrutinee, remembering it. *)
Ltac case_all :=
  repeat (case_match; simplify_eq/=).

(** Inverts hypotheses of the form [m = Ok _] built from the result monad. *)
Ltac invert_ok :=
  repeat match goal with
  | H : mbind _ _ = Ok _ |- _ => apply bind_Ok in H; destruct H as (? & ? & ?)
  | H : fmap _ _ = Ok _ |- _ => apply fmap_Ok in H; destruct H as (? & ? & ?)
  | H : ok_or _ _ = Ok _ |- _ => apply ok_or_Ok in H
  | H : map_err _ _ = Ok _ |- _ => apply map_err_Ok in H
  | H : Ok _ = Ok _ |- _ => injection H as H
  | H : Err _ = Ok _ |- _ => discriminate H
  end; simplify_eq/=.
