(* ===== verification/Fuel.v ===== *)
(** * Actions with fuel

    An action that polls takes a fuel and stops with the error [running] when it
    runs out.  [ends] says that some fuel is enough and that more fuel changes
    nothing; a loop that asks a clock in every turn ends if the clock passes
    every instant. *)

From stdpp Require Import base numbers.
From Stdlib Require Import Wellfounded.
From S2P Require Import Prelude.

Section fuel.
Context {W E : Type} {running : E}.
Implicit Types (w : W).

Definition ends {A} (a : nat → act W E A) w : Prop :=
  ∃ fuel w' r, r ≠ Err running ∧ ∀ more, fuel ≤ more → a more w = (w', r).

Lemma ends_bind {A B} (a : nat → act W E A) (f : nat → A → act W E B) w :
  ends a w → (∀ fuel w1 x, a fuel w = (w1, Ok x) → ends (λ fuel, f fuel x) w1) → ends (λ fuel, a fuel ≫= f fuel) w.
Proof.
  intros (n1 & w1 & r1 & Hr1 & Ha) Hf. destruct r1 as [x|e].
  - destruct (Hf n1 w1 x (Ha n1 ltac:(lia))) as (n2 & w2 & r2 & Hr2 & Hb). exists (n1 + n2), w2, r2. split; [done|].
    intros more Hm. unfold mbind, act_bind. rewrite Ha by lia. apply Hb. lia.
  - exists n1, w1, (Err e). split; [naive_solver|]. intros more Hm. unfold mbind, act_bind. by rewrite Ha.
Qed.

Lemma ends_now {A} (a : act W E A) w : (a w).2 ≠ Err running → ends (λ _, a) w.
Proof. intros Ha. exists 0, (a w).1, (a w).2. split; [done|]. intros _ _. by destruct (a w). Qed.

Lemma ends_step {A} (a : nat → act W E A) w :
  (∃ fuel w' r, r ≠ Err running ∧ ∀ more, fuel ≤ more → a (S more) w = (w', r)) → ends a w.
Proof.
  intros (n & w' & r & Hr & Ha). exists (S n), w', r. split; [done|]. intros [|more] Hm; [lia|]. apply Ha. lia.
Qed.

Lemma ends_mret {A} (m : result E A) w : m ≠ Err running → ends (λ _, lift m) w.
Proof. apply (ends_now (lift m)). Qed.

(** An action whose failure is a value. *)
Lemma ends_then {A B} (a : nat → act W E A) (f : nat → result E A → act W E B) w :
  ends a w → (∀ w1 r, r ≠ Err running → ends (λ fuel, f fuel r) w1) →
  ends (λ fuel w, let '(w1, r) := a fuel w in f fuel r w1) w.
Proof.
  intros (n1 & w1 & r1 & Hr1 & Ha) Hf. destruct (Hf w1 r1 Hr1) as (n2 & w2 & r2 & Hr2 & Hb). exists (n1 + n2), w2, r2.
  split; [done|]. intros more Hm. rewrite Ha by lia. apply Hb. lia.
Qed.

(** ** Clocks *)

Context (asked : W → nat) (now : nat → N).

(** The clock passes every instant. *)
Definition passes_every_instant : Prop := ∀ limit, ∃ n, ∀ k, n ≤ k → (limit <= now k)%N.

(** Loops that ask for the time in every turn, whenever in it. *)
Lemma ends_within_later {I A} (a : I → nat → act W E A) (limit : N) :
  passes_every_instant →
  (∀ i w, (∀ k, asked w ≤ k → (limit <= now k)%N) ∨ (∀ j w', asked w < asked w' → ends (a j) w') → ends (a i) w) →
  ∀ i w, ends (a i) w.
Proof.
  intros advances Hstep. destruct (advances limit) as [n Hn]. intros i w. revert i.
  induction w as [w IH] using (well_founded_induction (well_founded_ltof _ (λ w, n - asked w))). intros i.
  apply Hstep. destruct (decide (n ≤ asked w)) as [|Hlt]; [left; intros k Hk; apply Hn; lia|].
  right. intros j w' Hw. apply IH. unfold ltof. lia.
Qed.

(** Loops that ask for the time first. *)
Lemma ends_within {I A} (a : I → nat → act W E A) (limit : N) :
  passes_every_instant →
  (∀ i w, (limit <= now (asked w))%N ∨ (∀ j w', asked w < asked w' → ends (a j) w') → ends (a i) w) →
  ∀ i w, ends (a i) w.
Proof. intros advances Hstep. apply (ends_within_later a limit advances). intros i w [Hl|Hr]; apply Hstep; auto. Qed.
End fuel.
Arguments ends {W E} running {A}.
