(* ===== verification/Bytes.v ===== *)
(** * Bytes and texts

    Big-endian integers, as [to_be_bytes] and [from_be_bytes] convert them, and
    UTF-8, as [str::as_bytes] and [String::from_utf8] do. *)

From stdpp Require Import base strings numbers sorting gmap list.
From S2P Require Import Prelude.

(** ** Big-endian integers *)

#[export] Instance byte_eq_dec : EqDecision Byte.byte := Byte.byte_eq_dec.

Definition byte_of_N (n : N) : Byte.byte := default Byte.x00 (Byte.of_N (n mod 256)).

(** The low [k] bytes of [v], most significant first. *)
Fixpoint be_bytes (k : nat) (v : N) : list Byte.byte :=
  match k with
  | 0 => []
  | S k' => be_bytes k' (v / 256) ++ [byte_of_N v]
  end.

Definition be_value (l : list Byte.byte) : N :=
  foldl (λ acc b, (acc * 256 + Byte.to_N b)%N) 0%N l.

(** [i64::to_be_bytes]: two's complement. *)
Definition i64_be_bytes (z : Z) : list Byte.byte := be_bytes 8 (Z.to_N (z mod 2 ^ 64)).

Lemma byte_to_N_lt (b : Byte.byte) : (Byte.to_N b < 256)%N.
Proof. pose proof (Byte.to_N_bounded b). lia. Qed.

Lemma byte_to_of_N n : Byte.to_N (byte_of_N n) = (n mod 256)%N.
Proof.
  unfold byte_of_N. destruct (Byte.of_N (n mod 256)) as [b|] eqn:Eb; simpl.
  - by apply Byte.to_of_N.
  - apply Byte.of_N_None_iff in Eb. pose proof (N.mod_lt n 256). lia.
Qed.

Lemma byte_of_to_N b : byte_of_N (Byte.to_N b) = b.
Proof.
  unfold byte_of_N. pose proof (byte_to_N_lt b). rewrite N.mod_small by done.
  by rewrite Byte.of_to_N.
Qed.

Lemma byte_to_N_inj b b' : Byte.to_N b = Byte.to_N b' → b = b'.
Proof. intros Hb. by rewrite <-(byte_of_to_N b), Hb, byte_of_to_N. Qed.

Lemma length_be_bytes k v : length (be_bytes k v) = k.
Proof. revert v. induction k as [|k IH]; intros v; simpl; [done|]. rewrite length_app, IH. simpl. lia. Qed.

Lemma be_value_snoc l b : be_value (l ++ [b]) = (be_value l * 256 + Byte.to_N b)%N.
Proof. unfold be_value. by rewrite foldl_app. Qed.

Lemma be_value_bytes k v : be_value (be_bytes k v) = (v mod 256 ^ N.of_nat k)%N.
Proof.
  revert v. induction k as [|k IH]; intros v; [by rewrite N.mod_1_r|].
  cbn [be_bytes]. rewrite be_value_snoc, IH, byte_to_of_N.
  rewrite Nat2N.inj_succ, N.pow_succ_r', N.Div0.mod_mul_r. lia.
Qed.

Lemma be_bytes_value l : be_bytes (length l) (be_value l) = l.
Proof.
  induction l as [|b l IH] using rev_ind; [done|].
  rewrite length_app, be_value_snoc. simpl. rewrite Nat.add_1_r. cbn [be_bytes].
  pose proof (byte_to_N_lt b). f_equal.
  - rewrite N.div_add_l, N.div_small by lia. by rewrite N.add_0_r.
  - f_equal. rewrite <-(byte_of_to_N b) at 2. apply byte_to_N_inj. rewrite !byte_to_of_N.
    rewrite N.add_comm, N.Div0.mod_add. done.
Qed.

Lemma be_bytes_inj k v w :
  (v < 256 ^ N.of_nat k)%N → (w < 256 ^ N.of_nat k)%N → be_bytes k v = be_bytes k w → v = w.
Proof.
  intros Hv Hw Heq. pose proof (be_value_bytes k v) as H1. pose proof (be_value_bytes k w) as H2.
  rewrite Heq in H1. rewrite H1 in H2. by rewrite !N.mod_small in H2.
Qed.

Lemma be_value_lt l : (be_value l < 256 ^ N.of_nat (length l))%N.
Proof.
  rewrite <-(be_bytes_value l) at 1. rewrite be_value_bytes. apply N.mod_lt. by apply N.pow_nonzero.
Qed.

Definition i64_range (z : Z) : Prop := (- 2 ^ 63 ≤ z < 2 ^ 63)%Z.

Lemma i64_be_bytes_inj z w :
  i64_range z → i64_range w → i64_be_bytes z = i64_be_bytes w → z = w.
Proof.
  unfold i64_range, i64_be_bytes. intros Hz Hw Heq%be_bytes_inj.
  - apply Z2N.inj in Heq; [|apply Z.mod_pos_bound; lia..].
    pose proof (Z.div_mod z (2 ^ 64)). pose proof (Z.div_mod w (2 ^ 64)).
    pose proof (Z.mod_pos_bound z (2 ^ 64)). pose proof (Z.mod_pos_bound w (2 ^ 64)). nia.
  - pose proof (Z.mod_pos_bound z (2 ^ 64)). change (256 ^ N.of_nat 8)%N with (Z.to_N (2 ^ 64)). lia.
  - pose proof (Z.mod_pos_bound w (2 ^ 64)). change (256 ^ N.of_nat 8)%N with (Z.to_N (2 ^ 64)). lia.
Qed.

(** ** UTF-8 *)

Definition continuation (b : N) : bool := ((128 <=? b) && (b <=? 191))%N.

(** [String::from_utf8], on the values of the bytes. *)
Fixpoint utf8_decode (l : list N) : option rstring :=
  match l with
  | [] => Some []
  | (b0 :: l0)%N =>
      if (b0 <? 128)%N then cons b0 <$> utf8_decode l0
      else if ((194 <=? b0) && (b0 <=? 223))%N then
        match l0 with
        | b1 :: l1 =>
            if continuation b1
            then cons ((b0 - 192) * 64 + (b1 - 128))%N <$> utf8_decode l1 else None
        | _ => None
        end
      else if ((224 <=? b0) && (b0 <=? 239))%N then
        match l0 with
        | b1 :: b2 :: l2 =>
            let c := ((b0 - 224) * 4096 + (b1 - 128) * 64 + (b2 - 128))%N in
            if continuation b1 && continuation b2 && (2048 <=? c)%N
               && negb ((55296 <=? c) && (c <=? 57343))%N
            then cons c <$> utf8_decode l2 else None
        | _ => None
        end
      else if ((240 <=? b0) && (b0 <=? 244))%N then
        match l0 with
        | b1 :: b2 :: b3 :: l3 =>
            let c := ((b0 - 240) * 262144 + (b1 - 128) * 4096 + (b2 - 128) * 64 + (b3 - 128))%N in
            if continuation b1 && continuation b2 && continuation b3
               && (65536 <=? c)%N && (c <=? 1114111)%N
            then cons c <$> utf8_decode l3 else None
        | _ => None
        end
      else None
  end.

Definition from_utf8 (bytes : list Byte.byte) : option rstring :=
  utf8_decode (Byte.to_N <$> bytes).


(** [str::as_bytes]: the bytes of one scalar value. *)
Definition utf8_char (c : N) : list N :=
  if (c <? 128)%N then [c]
  else if (c <? 2048)%N then [192 + c / 64; 128 + c mod 64]%N
  else if (c <? 65536)%N then [224 + c / 4096; 128 + (c / 64) mod 64; 128 + c mod 64]%N
  else [240 + c / 262144; 128 + (c / 4096) mod 64; 128 + (c / 64) mod 64; 128 + c mod 64]%N.

Definition as_bytes (s : rstring) : list Byte.byte := byte_of_N <$> (s ≫= utf8_char).

(** [str::len] *)
Definition byte_len (s : rstring) : nat := length (as_bytes s).

Lemma byte_len_app s t : byte_len (s ++ t) = (byte_len s + byte_len t)%nat.
Proof. unfold byte_len, as_bytes. by rewrite bind_app, fmap_app, length_app. Qed.

(** Unicode scalar values, the only characters a Rust string holds. *)
Definition is_scalar (c : N) : bool :=
  ((c <? 55296) || ((57344 <=? c) && (c <=? 1114111)))%N.

#[local] Ltac Zify.zify_post_hook ::= Z.to_euclidean_division_equations.

(** Decides the comparisons of a decoding step. *)
Local Ltac decide_comparisons :=
  repeat match goal with
  | |- context [(?a <? ?b)%N] => destruct (N.ltb_spec a b); [|try (exfalso; lia)]; try (exfalso; lia)
  | |- context [(?a <=? ?b)%N] => destruct (N.leb_spec a b); [|try (exfalso; lia)]; try (exfalso; lia)
  end; simpl.

Lemma utf8_decode_char c l :
  is_scalar c = true → utf8_decode (utf8_char c ++ l) = cons c <$> utf8_decode l.
Proof.
  unfold is_scalar. rewrite orb_true_iff, andb_true_iff, N.ltb_lt, !N.leb_le. intros Hc.
  unfold utf8_char. destruct (N.ltb_spec c 128) as [H1|H1].
  { simpl. by destruct (N.ltb_spec c 128); [|lia]. }
  destruct (N.ltb_spec c 2048) as [H2|H2]; [|destruct (N.ltb_spec c 65536) as [H3|H3]];
    cbn [app utf8_decode]; unfold continuation; decide_comparisons; do 2 f_equal; lia.
Qed.

Lemma utf8_decode_encode s :
  Forall (λ c, is_scalar c = true) s → utf8_decode (s ≫= utf8_char) = Some s.
Proof.
  induction 1 as [|c s Hc _ IH]; [done|]. cbn [mbind list_bind].
  rewrite utf8_decode_char by done. change (list_bind _ _ utf8_char s) with (s ≫= utf8_char).
  by rewrite IH.
Qed.

Lemma utf8_char_lt c : is_scalar c = true → Forall (λ b, (b < 256)%N) (utf8_char c).
Proof.
  unfold is_scalar. rewrite orb_true_iff, andb_true_iff, N.ltb_lt, !N.leb_le. intros Hc.
  unfold utf8_char. repeat case_match; repeat constructor; rewrite ?N.ltb_lt, ?N.ltb_ge in *; lia.
Qed.

(** Decoding the bytes of a string gives the string back. *)
Lemma from_utf8_as_bytes s : Forall (λ c, is_scalar c = true) s → from_utf8 (as_bytes s) = Some s.
Proof.
  intros Hs. unfold from_utf8, as_bytes. rewrite <-list_fmap_compose.
  rewrite <-(utf8_decode_encode s Hs). f_equal.
  assert (Forall (λ b, (b < 256)%N) (s ≫= utf8_char)) as Hb.
  { induction Hs as [|c s Hc _ IH]; [constructor|]. cbn [mbind list_bind].
    apply Forall_app. split; [by apply utf8_char_lt|done]. }
  induction Hb as [|b l Hb _ IH]; [done|]. cbn [fmap list_fmap]. f_equal; [|done].
  unfold compose. rewrite byte_to_of_N. by apply N.mod_small.
Qed.

Lemma as_bytes_inj s s' :
  Forall (λ c, is_scalar c = true) s → Forall (λ c, is_scalar c = true) s' →
  as_bytes s = as_bytes s' → s = s'.
Proof.
  intros Hs Hs' Heq. apply (f_equal from_utf8) in Heq.
  rewrite !from_utf8_as_bytes in Heq by done. congruence.
Qed.

Local Ltac char_shape :=
  repeat match goal with |- context [(?a <? ?b)%N] => destruct (N.ltb_spec a b); [try (exfalso; lia)|try (exfalso; lia)] end.

(** Only the bytes of a string decode to it. *)
Lemma utf8_decode_bytes l s : utf8_decode l = Some s → s ≫= utf8_char = l.
Proof.
  revert s. induction l as [l IH] using (induction_ltof1 _ length). unfold ltof in IH. intros s.
  destruct l as [|b0 l0]; [by intros [= <-]|]. cbn [utf8_decode].
  assert (∀ c l1 chars, length l1 < length (b0 :: l0) → cons c <$> utf8_decode l1 = Some s →
            utf8_char c ++ l1 = chars → s ≫= utf8_char = chars) as Hstep.
  { intros c l1 chars Hl (s1 & E & ->)%fmap_Some <-. cbn [mbind list_bind]. f_equal. by apply IH. }
  destruct (N.ltb_spec b0 128) as [H0|H0].
  { intros E. eapply Hstep; [|exact E|]; [simpl; lia|]. unfold utf8_char. by char_shape. }
  unfold continuation. repeat case_match; try discriminate 1; intros E; 
    repeat match goal with H : _ && _ = true |- _ => apply andb_true_iff in H as [? ?]
      | H : (_ <=? _)%N = true |- _ => apply N.leb_le in H end.
  all: eapply Hstep; [|exact E|]; [simpl; lia|]. all: unfold utf8_char; char_shape; cbn [app]; repeat f_equal; lia.
Qed.

Lemma from_utf8_bytes bytes s : from_utf8 bytes = Some s → as_bytes s = bytes.
Proof.
  intros E%utf8_decode_bytes. unfold as_bytes. rewrite E, <-list_fmap_compose.
  rewrite <-(list_fmap_id bytes) at 2. apply list_fmap_ext. intros _ b _. apply byte_of_to_N.
Qed.

(** ** The order of strings *)

(** The order of strings: by bytes, which is the order of scalar values. *)
Fixpoint str_ltb (s t : rstring) : bool :=
  match s, t with
  | [], [] => false
  | [], _ :: _ => true
  | _ :: _, [] => false
  | c :: s', d :: t' => (c <? d)%N || ((c =? d)%N && str_ltb s' t')
  end.
Definition str_lt (s t : rstring) : Prop := str_ltb s t = true.
Definition str_le (s t : rstring) : Prop := str_ltb t s = false.
#[export] Instance str_le_dec : RelDecision str_le.
Proof. intros s t. unfold str_le. apply _. Defined.

Lemma str_ltb_irrefl s : str_ltb s s = false.
Proof. induction s as [|c s IH]; [done|]. simpl. by rewrite N.ltb_irrefl, N.eqb_refl. Qed.

Lemma str_ltb_trans s t u : str_ltb s t = true → str_ltb t u = true → str_ltb s u = true.
Proof.
  revert t u. induction s as [|c s IH]; intros [|d t] [|e u]; simpl; try done.
  rewrite !orb_true_iff, !andb_true_iff, !N.ltb_lt, !N.eqb_eq.
  intros [?|[-> ?]] [?|[-> ?]]; [left; lia|by left|by left|right; eauto].
Qed.

Lemma str_ltb_total s t : str_ltb s t = true ∨ s = t ∨ str_ltb t s = true.
Proof.
  revert t. induction s as [|c s IH]; intros [|d t]; simpl; try by eauto.
  rewrite !orb_true_iff, !andb_true_iff, !N.ltb_lt, !N.eqb_eq.
  destruct (N.lt_trichotomy c d) as [?|[->|?]]; [naive_solver| |naive_solver].
  destruct (IH t) as [?|[->|?]]; naive_solver.
Qed.

#[export] Instance str_lt_trans : Transitive str_lt.
Proof. intros s t u. apply str_ltb_trans. Qed.
#[export] Instance str_le_trans : Transitive str_le.
Proof.
  intros s t u Hst Htu. unfold str_le in *. apply not_true_iff_false. intros Hus.
  destruct (str_ltb_total s t) as [Hlt|[->|Hlt]]; [|congruence|congruence].
  pose proof (str_ltb_trans _ _ _ Hus Hlt). congruence.
Qed.
#[export] Instance str_le_total : Total str_le.
Proof.
  intros s t. unfold str_le. destruct (str_ltb_total s t) as [Hlt|[->|Hlt]].
  - left. apply not_true_iff_false. intros Hts. pose proof (str_ltb_trans _ _ _ Hlt Hts) as Hs.
    by rewrite str_ltb_irrefl in Hs.
  - left. apply str_ltb_irrefl.
  - right. apply not_true_iff_false. intros Hts. pose proof (str_ltb_trans _ _ _ Hlt Hts) as Hs.
    by rewrite str_ltb_irrefl in Hs.
Qed.

(** The keys of a [BTreeMap<String, _>], in order. *)
Definition str_keys {V} (m : gmap rstring V) : list rstring := merge_sort str_le (elements (dom m)).

Lemma elem_of_str_keys {V} (m : gmap rstring V) k : k ∈ str_keys m ↔ is_Some (m !! k).
Proof. unfold str_keys. by rewrite merge_sort_Permutation, elem_of_elements, elem_of_dom. Qed.

Lemma NoDup_str_keys {V} (m : gmap rstring V) : NoDup (str_keys m).
Proof. unfold str_keys. rewrite merge_sort_Permutation. apply NoDup_elements. Qed.
