(* ===== verification/Json.v ===== *)
(** * JSON values

    Models what the code uses of [serde_json::Value]: values, their accessors
    and object updates.  Parsing and printing are third-party code. *)

From stdpp Require Import base strings numbers sorting gmap list.
From S2P Require Import Prelude Bytes.

(** A number is a [u64], a negative [i64] or a float, by its bits. *)
Inductive JsonNumber : Type :=
| PosInt (n : u64)
| NegInt (z : Refined (λ z : Z, ((- 2 ^ 63 <=? z) && (z <? 0))%Z))
| Float (bits : N).

(** An object is a [BTreeMap]: its entries in the order of their keys. *)
Inductive Value : Type :=
| Null
| Bool (b : bool)
| Number (n : JsonNumber)
| VString (s : rstring)
| Array (values : list Value)
| Object (entries : list (rstring * Value)).

#[export] Instance JsonNumber_eq_dec : EqDecision JsonNumber.
Proof. solve_decision. Defined.

Definition Value_eq_dec_fix : ∀ v w : Value, Decision (v = w).
Proof.
  fix IH 1. intros [|b|n|s|vs|es] [|b'|n'|s'|vs'|es']; try (right; discriminate).
  - by left.
  - destruct (decide (b = b')) as [->|Hb]; [by left|right; congruence].
  - destruct (decide (n = n')) as [->|Hn]; [by left|right; congruence].
  - destruct (decide (s = s')) as [->|Hs]; [by left|right; congruence].
  - assert (Decision (vs = vs')) as [->|Hvs].
    { clear - IH. revert vs'. induction vs as [|v vs IHvs]; intros [|w vs']; try (right; discriminate); [by left|].
      destruct (IH v w) as [->|Hv]; [|right; congruence].
      destruct (IHvs vs') as [->|Hvs]; [by left|right; congruence]. }
    + by left.
    + right. congruence.
  - assert (Decision (es = es')) as [->|Hes].
    { clear - IH. revert es'. induction es as [|[k v] es IHes]; intros [|[k' w] es'];
        try (right; discriminate); [by left|].
      destruct (decide (k = k')) as [->|Hk]; [|right; congruence].
      destruct (IH v w) as [->|Hv]; [|right; congruence].
      destruct (IHes es') as [->|Hes]; [by left|right; congruence]. }
    + by left.
    + right. congruence.
Defined.
#[export] Instance Value_eq_dec : EqDecision Value := Value_eq_dec_fix.

(** ** Objects *)

Fixpoint entries_get (key : rstring) (entries : list (rstring * Value)) : option Value :=
  match entries with
  | [] => None
  | (k, v) :: entries' => if decide (k = key) then Some v else entries_get key entries'
  end.

(** [Map::insert] *)
Fixpoint entries_insert (key : rstring) (value : Value) (entries : list (rstring * Value)) :
    list (rstring * Value) :=
  match entries with
  | [] => [(key, value)]
  | (k, v) :: entries' =>
      if decide (k = key) then (key, value) :: entries'
      else if str_ltb key k then (key, value) :: entries
      else (k, v) :: entries_insert key value entries'
  end.

(** [json!({..})] with literal keys. *)
Definition object (fields : list (string * Value)) : Value :=
  Object (foldl (λ entries '(k, v), entries_insert (lit k) v entries) [] fields).

(** ** Accessors *)

(** [Value::get] with a string index: a field of an object. *)
Definition get (field : string) (v : Value) : option Value :=
  match v with Object entries => entries_get (lit field) entries | _ => None end.

Definition as_str (v : Value) : option rstring := match v with VString s => Some s | _ => None end.
Definition as_bool (v : Value) : option bool := match v with Bool b => Some b | _ => None end.
Definition as_array (v : Value) : option (list Value) :=
  match v with Array values => Some values | _ => None end.
Definition is_object (v : Value) : bool := match v with Object _ => true | _ => false end.
Definition is_array (v : Value) : bool := match v with Array _ => true | _ => false end.

(** [v.get(field).and_then(Value::as_str)], and the same one level down. *)
Definition get_str (field : string) (v : Value) : option rstring := get field v ≫= as_str.
Definition get_str_in (outer field : string) (v : Value) : option rstring := get outer v ≫= get_str field.

Definition as_i64 (v : Value) : option Z :=
  match v with
  | Number (PosInt n) => if (raw n <? 2 ^ 63)%N then Some (Z.of_N (raw n)) else None
  | Number (NegInt z) => Some (raw z)
  | _ => None
  end.

(** [Value::from(i64)] *)
Definition from_i64 (z : Z) : Value :=
  match of_raw z with
  | Some neg => Number (NegInt neg)
  | None => match of_raw (Z.to_N z) with Some n => Number (PosInt n) | None => Null end
  end.

(** ** Laws *)

Lemma entries_get_insert key value entries :
  entries_get key (entries_insert key value entries) = Some value.
Proof.
  induction entries as [|[k v] entries IH]; simpl; [by rewrite decide_True|].
  destruct (decide (k = key)) as [->|Hk]; simpl; [by rewrite decide_True|].
  destruct (str_ltb key k); simpl; [by rewrite decide_True|]. by rewrite decide_False.
Qed.

Lemma entries_get_insert_ne key key' value entries :
  key ≠ key' → entries_get key (entries_insert key' value entries) = entries_get key entries.
Proof.
  intros Hne. induction entries as [|[k v] entries IH]; simpl; [by rewrite decide_False|].
  destruct (decide (k = key')) as [->|Hk]; simpl; [by rewrite !decide_False by done|].
  destruct (str_ltb key' k); simpl; [by rewrite decide_False|]. by rewrite IH.
Qed.

Lemma as_i64_range v z : as_i64 v = Some z → i64_range z.
Proof.
  unfold i64_range. destruct v as [| |[n|n|]| | |]; try done; simpl.
  - destruct (N.ltb_spec (raw n) (2 ^ 63)); [|done]. intros [= <-].
    change (2 ^ 63)%N with 9223372036854775808%N in *. change (2 ^ 63)%Z with 9223372036854775808%Z. lia.
  - intros [= <-]. pose proof (raw_ok n) as Hn. apply Is_true_true, andb_true_iff in Hn as [H1 H2].
    apply Z.leb_le in H1. apply Z.ltb_lt in H2. lia.
Qed.

(** [as_i64] reads back what [Value::from] makes. *)
Lemma as_i64_from z : i64_range z → as_i64 (from_i64 z) = Some z.
Proof.
  unfold i64_range, from_i64. intros Hz. destruct (of_raw z) as [neg|] eqn:En.
  - apply of_raw_Some in En. simpl. by rewrite En.
  - apply of_raw_None, andb_false_iff in En. rewrite Z.leb_gt, Z.ltb_ge in En.
    destruct (of_raw (Z.to_N z)) as [n|] eqn:Ep.
    + apply of_raw_Some in Ep. simpl. rewrite Ep.
      destruct (N.ltb_spec (Z.to_N z) (2 ^ 63)); [f_equal; lia|].
      change (2 ^ 63)%N with 9223372036854775808%N in *. change (2 ^ 63)%Z with 9223372036854775808%Z in *. lia.
    + apply of_raw_None, N.leb_gt in Ep. unfold u64_max in Ep.
      change (2 ^ 63)%Z with 9223372036854775808%Z in *. lia.
Qed.
