(* ===== verification/Values.v ===== *)
(** * Identifiers, value objects and domain errors

    Models [agentpulse-core/src/id.rs], [value.rs] and [error.rs].  The [uuid]
    and [time] crates are parameters: the class [Externals] lists the functions
    the code calls and [ExternalsOk] what it relies on. *)

From stdpp Require Import base strings numbers gmap list.
From S2P Require Import Prelude.

(** ** Third-party functions *)

(** A [uuid::Uuid] is its 128-bit value; the derived order is numeric. *)
Abbreviation Uuid := (Refined (λ n : N, (n <? 2 ^ 128)%N)).

Class Externals : Type := {
  (** [Uuid::get_version_num], [Uuid]'s [Display] and [Uuid::parse_str]. *)
  get_version_num : Uuid → N;
  uuid_to_string : Uuid → rstring;
  uuid_parse_str : rstring → option Uuid;
  (** Whether [OffsetDateTime::from_unix_timestamp_nanos] accepts a value. *)
  timestamp_in_range : Z → bool;
  (** [OffsetDateTime::format] and [parse] at [Rfc3339], on UTC instants; the
      error is its rendered text. *)
  rfc3339_format : Refined timestamp_in_range → result rstring rstring;
  rfc3339_parse : rstring → result rstring (Refined timestamp_in_range)
}.

(** Printing a UUID and parsing it back gives the same UUID, and so does an
    instant the RFC 3339 formatter accepts. *)
Class ExternalsOk `{Externals} : Prop := {
  uuid_parse_to_string : ∀ u, uuid_parse_str (uuid_to_string u) = Some u;
  rfc3339_parse_format : ∀ t s, rfc3339_format t = Ok s → rfc3339_parse s = Ok t
}.

(** ** Domain errors (error.rs) *)

Inductive DomainError : Type :=
| BlankText (field : string)
| InvalidKind (field : string) (value : rstring)
| InvalidId (entity : string) (value : rstring)
| InvalidTimestamp (value : Z)
| ZeroValue (field : string)
| InvalidTimeOrder (earlier_field later_field : string)
| EmptyCollection (field : string)
| DuplicateId (field : string) (value : rstring)
| DuplicateValue (field value : string)
| InvalidProgress (completed total : u64)
| InvalidChoiceSelection (reason : string)
| CorrelationMismatch (field : string) (expected actual : rstring)
| InteractionTypeMismatch
| InteractionExpired
| ApprovalUnavailable
| UnknownApprovalOption (option : rstring)
| UnknownChoiceOption (option : rstring).

#[export] Instance DomainError_eq_dec : EqDecision DomainError.
Proof. solve_decision. Defined.

(** ** Identifiers (id.rs)

    The macro [define_id!] generates one newtype per entity; [Id] is that
    macro, indexed by the entity. *)

Inductive Entity : Type :=
| ProviderEntity | ChannelEntity | SessionEntity | EventEntity
| InteractionEntity | CommandEntity | PlanItemEntity | ChoiceOptionEntity
| FormFieldEntity | ApprovalOptionEntity | ToolCallEntity.

Definition entity_name (e : Entity) : string :=
  match e with
  | ProviderEntity => "provider ID"
  | ChannelEntity => "channel ID"
  | SessionEntity => "session ID"
  | EventEntity => "event ID"
  | InteractionEntity => "interaction ID"
  | CommandEntity => "command ID"
  | PlanItemEntity => "plan item ID"
  | ChoiceOptionEntity => "choice option ID"
  | FormFieldEntity => "form field ID"
  | ApprovalOptionEntity => "approval option ID"
  | ToolCallEntity => "tool call ID"
  end.

Section ids.
Context `{Externals}.

Definition is_v7 (u : Uuid) : bool := (get_version_num u =? 7)%N.

Record Id (e : Entity) : Type := MkId { into_uuid : Refined is_v7 }.
Arguments MkId {e} into_uuid.
Arguments into_uuid {e} i.

Definition as_uuid {e} (i : Id e) : Uuid := raw (into_uuid i).

Definition try_from_uuid (e : Entity) (value : Uuid) : result DomainError (Id e) :=
  match of_raw value with
  | Some u => Ok (MkId u)
  | None => Err (InvalidId (entity_name e) (uuid_to_string value))
  end.

Definition id_to_string {e} (i : Id e) : rstring := uuid_to_string (as_uuid i).

Definition id_from_str (e : Entity) (value : rstring) : result DomainError (Id e) :=
  uuid ← ok_or (InvalidId (entity_name e) value) (uuid_parse_str value);
  try_from_uuid e uuid.

Lemma id_eq {e} (i j : Id e) : as_uuid i = as_uuid j → i = j.
Proof.
  destruct i as [u], j as [v]. unfold as_uuid. simpl. intros Huv.
  f_equal. by apply refined_eq.
Qed.

#[global] Instance id_eq_dec e : EqDecision (Id e).
Proof. solve_decision. Defined.

#[global] Instance id_countable e : Countable (Id e) :=
  inj_countable' into_uuid MkId (λ '(MkId _), eq_refl).

(** The derived order on identifiers is the order of the UUIDs. *)
#[global] Program Instance id_ranked e : Ranked (Id e) :=
  {| rank i := raw (as_uuid i) |}.
Next Obligation. intros e i j Hij. by apply id_eq, refined_eq. Qed.

(** Only version-7 values are accepted, and the rejected value is reported. *)
Lemma try_from_uuid_spec e (value : Uuid) :
  match try_from_uuid e value with
  | Ok i => as_uuid i = value ∧ get_version_num value = 7%N
  | Err err => err = InvalidId (entity_name e) (uuid_to_string value) ∧
               get_version_num value ≠ 7%N
  end.
Proof.
  unfold try_from_uuid. destruct (of_raw value) as [u|] eqn:E.
  - apply of_raw_Some in E as <-. split; [done|].
    by apply N.eqb_eq, Is_true_true, (raw_ok u).
  - apply of_raw_None in E. split; [done|]. by apply N.eqb_neq.
Qed.

Lemma try_from_uuid_as_uuid {e} (i : Id e) : try_from_uuid e (as_uuid i) = Ok i.
Proof.
  unfold try_from_uuid, as_uuid. rewrite of_raw_raw. by destruct i.
Qed.

Lemma id_from_to_string `{!ExternalsOk} {e} (i : Id e) :
  id_from_str e (id_to_string i) = Ok i.
Proof.
  unfold id_from_str, id_to_string. rewrite uuid_parse_to_string. simpl.
  apply try_from_uuid_as_uuid.
Qed.
End ids.
Arguments MkId {_ e} into_uuid.
Arguments into_uuid {_ e} i.

Abbreviation ProviderId := (Id ProviderEntity).
Abbreviation ChannelId := (Id ChannelEntity).
Abbreviation SessionId := (Id SessionEntity).
Abbreviation EventId := (Id EventEntity).
Abbreviation InteractionId := (Id InteractionEntity).
Abbreviation CommandId := (Id CommandEntity).
Abbreviation PlanItemId := (Id PlanItemEntity).
Abbreviation ChoiceOptionId := (Id ChoiceOptionEntity).
Abbreviation FormFieldId := (Id FormFieldEntity).
Abbreviation ApprovalOptionId := (Id ApprovalOptionEntity).
Abbreviation ToolCallId := (Id ToolCallEntity).

(** ** Value objects (value.rs) *)

Definition nonblank (s : rstring) : bool := negb (is_empty (trim s)).

Abbreviation NonEmptyText := (Refined nonblank).

(** The check shared by [NonEmptyText::new] and [ExternalId::new]. *)
Definition nonblank_new (field : string) (value : rstring) : result DomainError NonEmptyText :=
  ok_or (BlankText field) (of_raw value).

Definition NonEmptyText_new (value : rstring) : result DomainError NonEmptyText :=
  nonblank_new "text" value.

Record ExternalId : Type := MkExternalId { external_id_text : NonEmptyText }.

Definition ExternalId_new (value : rstring) : result DomainError ExternalId :=
  MkExternalId <$> nonblank_new "external ID" value.

#[export] Instance ExternalId_eq_dec : EqDecision ExternalId.
Proof. solve_decision. Defined.

(** [define_kind!] is instantiated for Provider and Channel kinds. *)
Inductive KindFamily : Type := ProviderKindFamily | ChannelKindFamily.

Definition kind_field (k : KindFamily) : string :=
  match k with ProviderKindFamily => "provider kind" | ChannelKindFamily => "channel kind" end.

Definition valid_kind (value : rstring) : bool :=
  let valid_first :=
    match value with
    | [] => false
    | character :: _ => is_ascii_lowercase character || is_ascii_digit character
    end in
  let valid_rest :=
    forallb (λ character, is_ascii_lowercase character || is_ascii_digit character
               || (character =? 45) || (character =? 95) || (character =? 46))%N
      (tail value) in
  valid_first && valid_rest.

Record Kind (k : KindFamily) : Type := MkKind { kind_slug : Refined valid_kind }.
Arguments MkKind {k} kind_slug.
Arguments kind_slug {k} _.
Abbreviation ProviderKind := (Kind ProviderKindFamily).
Abbreviation ChannelKind := (Kind ChannelKindFamily).

Definition Kind_new (k : KindFamily) (value : rstring) : result DomainError (Kind k) :=
  match of_raw value with
  | Some slug => Ok (MkKind slug)
  | None => Err (InvalidKind (kind_field k) value)
  end.

Definition kind_as_str {k} (kind : Kind k) : rstring := raw (kind_slug kind).

#[export] Instance Kind_eq_dec k : EqDecision (Kind k).
Proof. solve_decision. Defined.

(** [define_positive_counter!] is instantiated for revisions and sequences. *)
Inductive CounterFamily : Type := RevisionFamily | EventSequenceFamily.

Definition counter_field (c : CounterFamily) : string :=
  match c with RevisionFamily => "revision" | EventSequenceFamily => "event sequence" end.

Record Counter (c : CounterFamily) : Type := MkCounter { counter_nonzero : NonZeroU64 }.
Arguments MkCounter {c} counter_nonzero.
Arguments counter_nonzero {c} _.
Abbreviation Revision := (Counter RevisionFamily).
Abbreviation EventSequence := (Counter EventSequenceFamily).

Definition counter_FIRST {c} : Counter c := MkCounter (Refine 1%N I : NonZeroU64).

Definition Counter_new (c : CounterFamily) (value : u64) : result DomainError (Counter c) :=
  ok_or (ZeroValue (counter_field c)) (MkCounter <$> nonzero_new value).

Definition counter_get {c} (n : Counter c) : u64 := nonzero_get (counter_nonzero n).

Definition checked_next {c} (n : Counter c) : option (Counter c) :=
  MkCounter <$> nonzero_checked_succ (counter_nonzero n).

(** The derived order compares the wrapped numbers. *)
Definition counter_num {c} (n : Counter c) : N := raw (counter_nonzero n).

#[export] Instance Counter_eq_dec c : EqDecision (Counter c).
Proof. solve_decision. Defined.

Section timestamps.
Context `{Externals}.

(** A timestamp is normalized to UTC, so it is its instant: Unix nanoseconds
    in the range the [time] crate supports. *)
Definition Timestamp_from_unix_nanos (value : Z) :
    result DomainError (Refined timestamp_in_range) :=
  ok_or (InvalidTimestamp value) (of_raw value).
End timestamps.
Abbreviation Timestamp := (Refined timestamp_in_range).

Record WorkspaceRef : Type := MkWorkspaceRef {
  workspace_path : NonEmptyText;
  workspace_display_name : option NonEmptyText
}.

Definition WorkspaceRef_new (path : NonEmptyText) : WorkspaceRef :=
  {| workspace_path := path; workspace_display_name := None |}.

Definition with_display_name (w : WorkspaceRef) (display_name : NonEmptyText) : WorkspaceRef :=
  {| workspace_path := workspace_path w; workspace_display_name := Some display_name |}.

#[export] Instance WorkspaceRef_eq_dec : EqDecision WorkspaceRef.
Proof. solve_decision. Defined.

(** ** Lemmas on value objects *)

Lemma NonEmptyText_new_raw (t : NonEmptyText) : NonEmptyText_new (raw t) = Ok t.
Proof. unfold NonEmptyText_new, nonblank_new. by rewrite of_raw_raw. Qed.

Lemma ExternalId_new_raw (x : ExternalId) :
  ExternalId_new (raw (external_id_text x)) = Ok x.
Proof. unfold ExternalId_new, nonblank_new. rewrite of_raw_raw. by destruct x. Qed.

Lemma Kind_new_as_str {k} (x : Kind k) : Kind_new k (kind_as_str x) = Ok x.
Proof. unfold Kind_new, kind_as_str. rewrite of_raw_raw. by destruct x. Qed.

Lemma Counter_new_get {c} (n : Counter c) : Counter_new c (counter_get n) = Ok n.
Proof. unfold Counter_new, counter_get. rewrite nonzero_new_get. by destruct n. Qed.

Lemma counter_eq {c} (m n : Counter c) : counter_num m = counter_num n → m = n.
Proof. destruct m, n. unfold counter_num. simpl. intros. f_equal. by apply refined_eq. Qed.

Lemma raw_counter_get {c} (n : Counter c) : raw (counter_get n) = counter_num n.
Proof. done. Qed.

Lemma counter_bound {c} (n : Counter c) : (1 ≤ counter_num n ≤ u64_max)%N.
Proof. apply nonzero_bound. Qed.

Lemma checked_next_Some {c} (m n : Counter c) :
  checked_next m = Some n ↔ counter_num n = (counter_num m + 1)%N.
Proof.
  unfold checked_next, counter_num. rewrite fmap_Some. setoid_rewrite nonzero_succ_Some.
  split; [naive_solver|]. intros Hn. exists (counter_nonzero n). by destruct n.
Qed.

Lemma checked_next_None {c} (n : Counter c) :
  checked_next n = None ↔ counter_num n = u64_max.
Proof. unfold checked_next. rewrite fmap_None. apply nonzero_succ_None. Qed.

Lemma nonblank_new_spec field (value : rstring) :
  match nonblank_new field value with
  | Ok t => raw t = value ∧ forallb is_whitespace value = false
  | Err e => e = BlankText field ∧ forallb is_whitespace value = true
  end.
Proof.
  unfold nonblank_new. destruct (of_raw value) as [t|] eqn:E; simpl.
  - apply of_raw_Some in E as <-. split; [done|].
    rewrite <-trim_is_empty, <-not_true_iff_false. pose proof (raw_ok t) as Ht.
    unfold nonblank in Ht. by destruct (is_empty _).
  - apply of_raw_None in E. split; [done|]. rewrite <-trim_is_empty.
    unfold nonblank in E. by destruct (is_empty _).
Qed.

#[export] Hint Rewrite @NonEmptyText_new_raw @ExternalId_new_raw @Kind_new_as_str
  @Counter_new_get @raw_counter_get : agentpulse.
