(* ===== verification/Snapshots.v ===== *)
(** * Plan and progress snapshots

    Models [agentpulse-core/src/progress.rs] and [plan.rs]: complete,
    replace-on-newer-revision snapshots and the checks of their constructors. *)

From stdpp Require Import base strings numbers gmap list.
From S2P Require Import Prelude Values.

(** ** Progress (progress.rs) *)

Record DeterminateProgress : Type := MkDeterminateProgress {
  progress_completed : u64;
  progress_total : NonZeroU64
}.

Definition DeterminateProgress_new (completed total : u64) :
    result DomainError DeterminateProgress :=
  total ← ok_or (ZeroValue "progress total") (nonzero_new total);
  if (raw (nonzero_get total) <? raw completed)%N
  then Err (InvalidProgress completed (nonzero_get total))
  else Ok {| progress_completed := completed; progress_total := total |}.

Inductive ProgressValue : Type :=
| Indeterminate
| Determinate (progress : DeterminateProgress).

Record ProgressSnapshot : Type := MkProgressSnapshot {
  progress_revision : Revision;
  progress_value : ProgressValue;
  progress_message : option NonEmptyText
}.

Definition ProgressSnapshot_new (revision : Revision) (value : ProgressValue) : ProgressSnapshot :=
  {| progress_revision := revision; progress_value := value; progress_message := None |}.

Definition with_message (p : ProgressSnapshot) (message : NonEmptyText) : ProgressSnapshot :=
  {| progress_revision := progress_revision p; progress_value := progress_value p;
     progress_message := Some message |}.

#[export] Instance DeterminateProgress_eq_dec : EqDecision DeterminateProgress.
Proof. solve_decision. Defined.
#[export] Instance ProgressValue_eq_dec : EqDecision ProgressValue.
Proof. solve_decision. Defined.
#[export] Instance ProgressSnapshot_eq_dec : EqDecision ProgressSnapshot.
Proof. solve_decision. Defined.

(** ** Plans (plan.rs) *)

Inductive PlanItemStatus : Type :=
| Plan_Pending | Plan_InProgress | Plan_Completed | Plan_Blocked | Plan_Skipped.

#[export] Instance PlanItemStatus_eq_dec : EqDecision PlanItemStatus.
Proof. solve_decision. Defined.

Section plans.
Context `{Externals}.

Record PlanItem : Type := MkPlanItem {
  plan_item_id : PlanItemId;
  plan_item_content : NonEmptyText;
  plan_item_status : PlanItemStatus
}.

Record PlanSnapshot : Type := MkPlanSnapshot {
  plan_revision : Revision;
  plan_explanation : option NonEmptyText;
  plan_items : list PlanItem
}.

Definition PlanSnapshot_new (revision : Revision) (items : list PlanItem) :
    result DomainError PlanSnapshot :=
  match first_duplicate plan_item_id ∅ items with
  | Some item => Err (DuplicateId "plan items" (id_to_string (plan_item_id item)))
  | None => Ok {| plan_revision := revision; plan_explanation := None; plan_items := items |}
  end.

Definition with_explanation (p : PlanSnapshot) (explanation : NonEmptyText) : PlanSnapshot :=
  {| plan_revision := plan_revision p; plan_explanation := Some explanation;
     plan_items := plan_items p |}.

#[global] Instance PlanItem_eq_dec : EqDecision PlanItem.
Proof. solve_decision. Defined.
#[global] Instance PlanSnapshot_eq_dec : EqDecision PlanSnapshot.
Proof. solve_decision. Defined.

(** ** Invariants established by the constructors *)

Definition progress_wf (p : DeterminateProgress) : Prop :=
  (raw (progress_completed p) ≤ raw (progress_total p))%N.

Definition progress_value_wf (v : ProgressValue) : Prop :=
  match v with Indeterminate => True | Determinate p => progress_wf p end.

Definition plan_wf (p : PlanSnapshot) : Prop := NoDup (plan_item_id <$> plan_items p).

Lemma DeterminateProgress_new_spec (completed total : u64) :
  match DeterminateProgress_new completed total with
  | Ok p => progress_completed p = completed ∧ raw (progress_total p) = raw total ∧ progress_wf p
  | Err (ZeroValue field) => field = "progress total" ∧ raw total = 0%N
  | Err (InvalidProgress c t) => c = completed ∧ raw t = raw total ∧ (raw total < raw completed)%N
  | Err _ => False
  end.
Proof.
  unfold DeterminateProgress_new. destruct (nonzero_new total) as [t|] eqn:E; simpl.
  - apply of_raw_Some in E.
    destruct (N.ltb_spec (raw t) (raw completed)); simpl; [naive_solver lia|].
    by repeat split.
  - by apply nonzero_new_None in E.
Qed.

Lemma DeterminateProgress_new_wf (p : DeterminateProgress) :
  progress_wf p →
  DeterminateProgress_new (progress_completed p) (nonzero_get (progress_total p)) = Ok p.
Proof.
  intros Hp. unfold DeterminateProgress_new. rewrite nonzero_new_get. simpl.
  destruct (N.ltb_spec (raw (progress_total p)) (raw (progress_completed p))) as [Hlt|Hge].
  - unfold progress_wf in Hp. lia.
  - by destruct p.
Qed.

Lemma PlanSnapshot_new_Ok revision items p :
  PlanSnapshot_new revision items = Ok p ↔
  p = MkPlanSnapshot revision None items ∧ NoDup (plan_item_id <$> items).
Proof.
  rewrite <-(first_duplicate_None plan_item_id). unfold PlanSnapshot_new.
  destruct (first_duplicate _ _ _); naive_solver.
Qed.

Lemma plan_wf_with_explanation p explanation :
  plan_wf p → plan_wf (with_explanation p explanation).
Proof. done. Qed.
End plans.
