(* ===== verification/Capability.v ===== *)
(** * Capabilities, endpoint descriptors and commands

    Models [agentpulse-core/src/capability.rs], [endpoint.rs] and [command.rs].
    A capability set is a [u16] bit mask, as in the source. *)

From stdpp Require Import base strings numbers gmap list.
From S2P Require Import Prelude Values.

(** ** Bit masks (capability.rs)

    [bitflags] over [u16]: the declared flags are bits [0 .. n-1], and the
    public API only builds unions of them. *)

Inductive CapabilityFamily : Type := ProviderFamily | ChannelFamily.

(** The number of flags each [bitflags!] block declares. *)
Definition flag_count (f : CapabilityFamily) : N :=
  match f with ProviderFamily => 11 | ChannelFamily => 12 end.

Definition declared_bits (f : CapabilityFamily) (bits : N) : bool :=
  (N.land bits (N.ones (flag_count f)) =? bits)%N.

Record Capabilities (f : CapabilityFamily) : Type := MkCapabilities {
  capability_bits : Refined (declared_bits f)
}.
Arguments MkCapabilities {f} capability_bits.
Arguments capability_bits {f} _.
Abbreviation ProviderCapabilities := (Capabilities ProviderFamily).
Abbreviation ChannelCapabilities := (Capabilities ChannelFamily).

Definition bits {f} (c : Capabilities f) : N := raw (capability_bits c).

Lemma union_declared {f} (a b : Capabilities f) :
  Is_true (declared_bits f (N.lor (bits a) (bits b))).
Proof.
  unfold declared_bits. apply Is_true_true, N.eqb_eq.
  pose proof (raw_ok (capability_bits a)) as Ha.
  pose proof (raw_ok (capability_bits b)) as Hb.
  apply Is_true_true, N.eqb_eq in Ha, Hb. unfold bits.
  by rewrite N.land_lor_distr_l, Ha, Hb.
Qed.

(** [contains], [intersects], [is_empty] and [union] (also [BitOr] and
    [BitOrAssign]). *)
Definition contains {f} (self other : Capabilities f) : bool :=
  (N.land (bits self) (bits other) =? bits other)%N.

Definition intersects {f} (self other : Capabilities f) : bool :=
  negb (N.land (bits self) (bits other) =? 0)%N.

Definition capabilities_is_empty {f} (self : Capabilities f) : bool := (bits self =? 0)%N.

Definition union {f} (self other : Capabilities f) : Capabilities f :=
  MkCapabilities (Refine (N.lor (bits self) (bits other)) (union_declared self other)).

Definition NONE {f} : Capabilities f :=
  MkCapabilities (Refine 0%N I : Refined (declared_bits f)).

(** A single declared flag [1 << i]. *)
Definition flag (f : CapabilityFamily) (i : N) (H : Is_true (declared_bits f (N.shiftl 1 i))) :
    Capabilities f :=
  MkCapabilities (Refine (N.shiftl 1 i) H).

Module ProviderCaps.
Definition SESSION_STATE : ProviderCapabilities := flag ProviderFamily 0 I.
Definition TOOL_EVENTS : ProviderCapabilities := flag ProviderFamily 1 I.
Definition PLAN : ProviderCapabilities := flag ProviderFamily 2 I.
Definition PROGRESS : ProviderCapabilities := flag ProviderFamily 3 I.
Definition APPROVAL_REQUEST : ProviderCapabilities := flag ProviderFamily 4 I.
Definition APPROVAL_RESPONSE : ProviderCapabilities := flag ProviderFamily 5 I.
Definition USER_INPUT_REQUEST : ProviderCapabilities := flag ProviderFamily 6 I.
Definition USER_INPUT_RESPONSE : ProviderCapabilities := flag ProviderFamily 7 I.
Definition PROMPT_SUBMIT : ProviderCapabilities := flag ProviderFamily 8 I.
Definition CANCEL : ProviderCapabilities := flag ProviderFamily 9 I.
Definition CONTROL : ProviderCapabilities := flag ProviderFamily 10 I.
End ProviderCaps.

Module ChannelCaps.
Definition NOTIFICATION : ChannelCapabilities := flag ChannelFamily 0 I.
Definition SESSION_VIEW : ChannelCapabilities := flag ChannelFamily 1 I.
Definition TOOL_VIEW : ChannelCapabilities := flag ChannelFamily 2 I.
Definition PLAN_VIEW : ChannelCapabilities := flag ChannelFamily 3 I.
Definition PROGRESS_VIEW : ChannelCapabilities := flag ChannelFamily 4 I.
Definition RICH_MESSAGE : ChannelCapabilities := flag ChannelFamily 5 I.
Definition APPROVAL : ChannelCapabilities := flag ChannelFamily 6 I.
Definition CHOICE_INPUT : ChannelCapabilities := flag ChannelFamily 7 I.
Definition TEXT_INPUT : ChannelCapabilities := flag ChannelFamily 8 I.
Definition FORM_INPUT : ChannelCapabilities := flag ChannelFamily 9 I.
Definition REALTIME_SYNC : ChannelCapabilities := flag ChannelFamily 10 I.
Definition REMOTE_COMMAND : ChannelCapabilities := flag ChannelFamily 11 I.
End ChannelCaps.

#[export] Instance Capabilities_eq_dec f : EqDecision (Capabilities f).
Proof. solve_decision. Defined.

(** *** The algebra of capability sets *)

Lemma capabilities_eq {f} (a b : Capabilities f) : bits a = bits b → a = b.
Proof. destruct a, b. unfold bits. simpl. intros. f_equal. by apply refined_eq. Qed.

Lemma declared_bits_high {f} (c : Capabilities f) i :
  (flag_count f ≤ i)%N → N.testbit (bits c) i = false.
Proof.
  intros Hi. pose proof (raw_ok (capability_bits c)) as Hc.
  apply Is_true_true, N.eqb_eq in Hc. unfold bits. rewrite <-Hc.
  by rewrite N.land_spec, N.ones_spec_high, andb_false_r by lia.
Qed.

(** [contains] is the subset order on the flags. *)
Lemma contains_testbit {f} (a b : Capabilities f) :
  contains a b = true ↔
  ∀ i, (i < flag_count f)%N → N.testbit (bits b) i = true → N.testbit (bits a) i = true.
Proof.
  unfold contains. rewrite N.eqb_eq. split.
  - intros Hab i _ Hb. rewrite <-Hab, N.land_spec, andb_true_iff in Hb. tauto.
  - intros Hab. apply N.bits_inj. intros i. rewrite N.land_spec.
    destruct (N.testbit (bits b) i) eqn:Eb; [|by rewrite andb_false_r].
    rewrite Hab; [done| |done]. apply N.lt_nge. intros Hge.
    by rewrite declared_bits_high in Eb.
Qed.

Lemma contains_union_r {f} (a b c : Capabilities f) :
  contains a (union b c) = contains a b && contains a c.
Proof.
  apply eq_true_iff_eq. rewrite andb_true_iff, !contains_testbit. unfold union, bits; simpl.
  setoid_rewrite N.lor_spec. setoid_rewrite orb_true_iff. naive_solver.
Qed.

Lemma contains_refl {f} (a : Capabilities f) : contains a a = true.
Proof. unfold contains. by rewrite N.land_diag, N.eqb_refl. Qed.

Lemma contains_NONE {f} (a : Capabilities f) : contains a NONE = true.
Proof. unfold contains. simpl. by rewrite N.land_0_r. Qed.

Lemma contains_union_l {f} (a b c : Capabilities f) :
  contains a c = true → contains (union a b) c = true.
Proof.
  rewrite !contains_testbit. unfold union, bits; simpl. setoid_rewrite N.lor_spec.
  intros Ha i Hi Hc. by rewrite Ha.
Qed.

#[export] Instance union_comm f : Comm (=) (@union f).
Proof. intros a b. apply capabilities_eq. unfold union, bits; simpl. apply N.lor_comm. Qed.
#[export] Instance union_assoc f : Assoc (=) (@union f).
Proof. intros a b c. apply capabilities_eq. unfold union, bits; simpl. apply N.lor_assoc. Qed.
#[export] Instance contains_trans f : Transitive (λ a b : Capabilities f, contains a b = true).
Proof. intros a b c. rewrite !contains_testbit. naive_solver. Qed.

#[export] Hint Rewrite @contains_union_r @contains_NONE @contains_refl : agentpulse.

(** ** Endpoint descriptors (endpoint.rs) *)

Section endpoints.
Context `{Externals}.

Record ProviderDescriptor : Type := MkProviderDescriptor {
  provider_id : ProviderId;
  provider_kind : ProviderKind;
  provider_display_name : NonEmptyText;
  provider_version : option NonEmptyText;
  provider_capabilities : ProviderCapabilities
}.

Definition ProviderDescriptor_new (id : ProviderId) (kind : ProviderKind)
    (display_name : NonEmptyText) (capabilities : ProviderCapabilities) : ProviderDescriptor :=
  {| provider_id := id; provider_kind := kind; provider_display_name := display_name;
     provider_version := None; provider_capabilities := capabilities |}.

Definition provider_with_version (d : ProviderDescriptor) (version : NonEmptyText) :
    ProviderDescriptor :=
  {| provider_id := provider_id d; provider_kind := provider_kind d;
     provider_display_name := provider_display_name d;
     provider_version := Some version; provider_capabilities := provider_capabilities d |}.

Record ChannelDescriptor : Type := MkChannelDescriptor {
  channel_id : ChannelId;
  channel_kind : ChannelKind;
  channel_display_name : NonEmptyText;
  channel_version : option NonEmptyText;
  channel_capabilities : ChannelCapabilities
}.

Definition ChannelDescriptor_new (id : ChannelId) (kind : ChannelKind)
    (display_name : NonEmptyText) (capabilities : ChannelCapabilities) : ChannelDescriptor :=
  {| channel_id := id; channel_kind := kind; channel_display_name := display_name;
     channel_version := None; channel_capabilities := capabilities |}.

Definition channel_with_version (d : ChannelDescriptor) (version : NonEmptyText) :
    ChannelDescriptor :=
  {| channel_id := channel_id d; channel_kind := channel_kind d;
     channel_display_name := channel_display_name d;
     channel_version := Some version; channel_capabilities := channel_capabilities d |}.

#[global] Instance ProviderDescriptor_eq_dec : EqDecision ProviderDescriptor.
Proof. solve_decision. Defined.
#[global] Instance ChannelDescriptor_eq_dec : EqDecision ChannelDescriptor.
Proof. solve_decision. Defined.
End endpoints.

(** ** Commands (command.rs) *)

Inductive PromptDelivery : Type := Delivery_Queue | Delivery_Steer.
Inductive QueueAction : Type := Queue_Pause | Queue_Resume | Queue_Clear.

Inductive AgentCommandPayload : Type :=
| SubmitPrompt (text : NonEmptyText) (delivery : PromptDelivery)
| CancelSession (reason : option NonEmptyText)
| ListModels
| SelectModel (model : NonEmptyText) (effort : option NonEmptyText)
| SetPlanMode (enabled : bool)
| ListThreads (cursor : option NonEmptyText)
| ResumeThread (thread_id : NonEmptyText)
| StartThread (cwd : NonEmptyText)
| Compact
| Review (instructions : option NonEmptyText)
| Rename (name : NonEmptyText)
| Fork
| Status
| ListPermissionProfiles
| SelectPermissionProfile (profile : NonEmptyText)
| Queue (action : QueueAction).

#[export] Instance PromptDelivery_eq_dec : EqDecision PromptDelivery.
Proof. solve_decision. Defined.
#[export] Instance QueueAction_eq_dec : EqDecision QueueAction.
Proof. solve_decision. Defined.
#[export] Instance AgentCommandPayload_eq_dec : EqDecision AgentCommandPayload.
Proof. solve_decision. Defined.

Definition command_provider_capability (p : AgentCommandPayload) : ProviderCapabilities :=
  match p with
  | SubmitPrompt _ _ => ProviderCaps.PROMPT_SUBMIT
  | CancelSession _ => ProviderCaps.CANCEL
  | ListModels | SelectModel _ _ | SetPlanMode _ | ListThreads _ | ResumeThread _
  | StartThread _ | Compact | Review _ | Rename _ | Fork | Status
  | ListPermissionProfiles | SelectPermissionProfile _ | Queue _ => ProviderCaps.CONTROL
  end.

Definition command_channel_capabilities (p : AgentCommandPayload) : ChannelCapabilities :=
  match p with
  | SubmitPrompt _ _ | SelectModel _ _ | ListThreads _ | ResumeThread _ | StartThread _
  | Review _ | Rename _ | SelectPermissionProfile _ =>
      union ChannelCaps.REMOTE_COMMAND ChannelCaps.TEXT_INPUT
  | CancelSession _ | ListModels | SetPlanMode _ | Compact | Fork | Status
  | ListPermissionProfiles | Queue _ => ChannelCaps.REMOTE_COMMAND
  end.

Section commands.
Context `{Externals}.

Record AgentCommand : Type := MkAgentCommand {
  command_id : CommandId;
  command_session_id : SessionId;
  command_channel_id : ChannelId;
  command_issued_at : Timestamp;
  command_payload : AgentCommandPayload
}.

#[global] Instance AgentCommand_eq_dec : EqDecision AgentCommand.
Proof. solve_decision. Defined.
End commands.

(** Every command needs at least the remote-command surface. *)
Lemma command_needs_remote p :
  contains (command_channel_capabilities p) ChannelCaps.REMOTE_COMMAND = true.
Proof. by destruct p. Qed.
