(* ===== verification/Interaction.v ===== *)
(** * Interaction requests and responses

    Models [agentpulse-core/src/interaction.rs]: the approval, choice, text and
    form requests a Provider publishes, the responses a Channel sends back, the
    constructors' checks, and [InteractionRequest::validate_response]. *)

From stdpp Require Import base strings numbers gmap list.
From S2P Require Import Prelude Values Capability.

Inductive ApprovalDisposition : Type :=
| Disposition_Approve | Disposition_Reject | Disposition_Cancel.
Inductive ApprovalCommandKind : Type := CommandKind_Command | CommandKind_WriteStdin.
Inductive ApprovalFileChangeKind : Type := FileChange_Add | FileChange_Delete | FileChange_Update.

Record ApprovalNetworkContext : Type := MkApprovalNetworkContext {
  network_host : NonEmptyText;
  network_protocol : NonEmptyText
}.

Record ApprovalFileChange : Type := MkApprovalFileChange {
  change_path : NonEmptyText;
  change_kind : ApprovalFileChangeKind;
  change_diff : rstring
}.

Inductive ApprovalSubject : Type :=
| CommandSubject (kind : ApprovalCommandKind) (command cwd reason : option NonEmptyText)
    (network : option ApprovalNetworkContext)
| FileChangeSubject (changes : list ApprovalFileChange) (grant_root reason : option NonEmptyText).

Record TextInputRequest : Type := MkTextInputRequest {
  text_placeholder : option NonEmptyText;
  text_multiline : bool
}.

Inductive InteractionCloseReason : Type := ResolvedElsewhere | ProviderCancelled.

#[export] Instance ApprovalDisposition_eq_dec : EqDecision ApprovalDisposition.
Proof. solve_decision. Defined.
#[export] Instance ApprovalCommandKind_eq_dec : EqDecision ApprovalCommandKind.
Proof. solve_decision. Defined.
#[export] Instance ApprovalFileChangeKind_eq_dec : EqDecision ApprovalFileChangeKind.
Proof. solve_decision. Defined.
#[export] Instance ApprovalNetworkContext_eq_dec : EqDecision ApprovalNetworkContext.
Proof. solve_decision. Defined.
#[export] Instance ApprovalFileChange_eq_dec : EqDecision ApprovalFileChange.
Proof. solve_decision. Defined.
#[export] Instance ApprovalSubject_eq_dec : EqDecision ApprovalSubject.
Proof. solve_decision. Defined.
#[export] Instance TextInputRequest_eq_dec : EqDecision TextInputRequest.
Proof. solve_decision. Defined.
#[export] Instance InteractionCloseReason_eq_dec : EqDecision InteractionCloseReason.
Proof. solve_decision. Defined.

Definition TextInputRequest_new (multiline : bool) : TextInputRequest :=
  {| text_placeholder := None; text_multiline := multiline |}.

Definition with_placeholder (r : TextInputRequest) (placeholder : NonEmptyText) : TextInputRequest :=
  {| text_placeholder := Some placeholder; text_multiline := text_multiline r |}.

Section interactions.
Context `{Externals}.

(** ** Approval requests *)

Record ApprovalOption : Type := MkApprovalOption {
  approval_option_id : ApprovalOptionId;
  approval_disposition : ApprovalDisposition;
  approval_label : NonEmptyText;
  approval_description : option NonEmptyText
}.

Definition ApprovalOption_new (id : ApprovalOptionId) (disposition : ApprovalDisposition)
    (label : NonEmptyText) : ApprovalOption :=
  MkApprovalOption id disposition label None.

Definition approval_with_description (o : ApprovalOption) (description : NonEmptyText) :
    ApprovalOption :=
  MkApprovalOption (approval_option_id o) (approval_disposition o) (approval_label o)
    (Some description).

Record ApprovalRequest : Type := MkApprovalRequest {
  approval_subject : ApprovalSubject;
  approval_options : list ApprovalOption;
  approval_unavailable_reason : option NonEmptyText
}.

Definition ApprovalRequest_actionable (subject : ApprovalSubject)
    (options : list ApprovalOption) : result DomainError ApprovalRequest :=
  if is_empty options then Err (EmptyCollection "approval options")
  else match first_duplicate approval_option_id ∅ options with
       | Some option =>
           Err (DuplicateId "approval options" (id_to_string (approval_option_id option)))
       | None => Ok (MkApprovalRequest subject options None)
       end.

Definition ApprovalRequest_unavailable (subject : ApprovalSubject) (reason : NonEmptyText) :
    ApprovalRequest :=
  MkApprovalRequest subject [] (Some reason).

Definition approval_is_actionable (r : ApprovalRequest) : bool :=
  negb (is_empty (approval_options r)).

Definition approval_contains (r : ApprovalRequest) (option_id : ApprovalOptionId) : bool :=
  existsb (λ option, bool_decide (approval_option_id option = option_id)) (approval_options r).

(** ** Choice requests *)

Record ChoiceOption : Type := MkChoiceOption {
  choice_option_id : ChoiceOptionId;
  choice_label : NonEmptyText;
  choice_description : option NonEmptyText
}.

Definition ChoiceOption_new (id : ChoiceOptionId) (label : NonEmptyText) : ChoiceOption :=
  MkChoiceOption id label None.

Definition choice_with_description (o : ChoiceOption) (description : NonEmptyText) :
    ChoiceOption :=
  MkChoiceOption (choice_option_id o) (choice_label o) (Some description).

Record ChoiceRequest : Type := MkChoiceRequest {
  choice_options : list ChoiceOption;
  choice_multiple : bool
}.

Definition ChoiceRequest_new (options : list ChoiceOption) (multiple : bool) :
    result DomainError ChoiceRequest :=
  if is_empty options then Err (EmptyCollection "choice options")
  else match first_duplicate choice_option_id ∅ options with
       | Some option =>
           Err (DuplicateId "choice options" (id_to_string (choice_option_id option)))
       | None => Ok (MkChoiceRequest options multiple)
       end.

(** The membership test of [ChoiceRequest] and of [FormField]. *)
Definition choice_contains (options : list ChoiceOption) (option_id : ChoiceOptionId) : bool :=
  existsb (λ option, bool_decide (choice_option_id option = option_id)) options.

(** ** Form requests *)

Record FormField : Type := MkFormField {
  field_id : FormFieldId;
  field_header : NonEmptyText;
  field_prompt : NonEmptyText;
  field_options : list ChoiceOption;
  field_allows_other : bool;
  field_sensitive : bool
}.

Definition FormField_new (id : FormFieldId) (header prompt : NonEmptyText)
    (options : list ChoiceOption) (allows_other sensitive : bool) :
    result DomainError FormField :=
  match first_duplicate choice_option_id ∅ options with
  | Some option =>
      Err (DuplicateId "form field options" (id_to_string (choice_option_id option)))
  | None =>
      if is_empty options && negb allows_other then
        Err (InvalidChoiceSelection "a text form field must allow a custom answer")
      else Ok (MkFormField id header prompt options allows_other sensitive)
  end.

Record FormRequest : Type := MkFormRequest {
  form_fields : list FormField;
  form_blocking : bool
}.

Definition FormRequest_new (fields : list FormField) (blocking : bool) :
    result DomainError FormRequest :=
  if is_empty fields then Err (EmptyCollection "form fields")
  else match first_duplicate field_id ∅ fields with
       | Some field => Err (DuplicateId "form fields" (id_to_string (field_id field)))
       | None => Ok (MkFormRequest fields blocking)
       end.

Inductive FormAnswerValue : Type :=
| Answer_Choice (option_id : ChoiceOptionId)
| Answer_Text (text : NonEmptyText).

Record FormAnswer : Type := MkFormAnswer {
  answer_field_id : FormFieldId;
  answer_value : FormAnswerValue
}.

Record FormResponse : Type := MkFormResponse { form_answers : list FormAnswer }.

Definition FormResponse_new (answers : list FormAnswer) : result DomainError FormResponse :=
  if is_empty answers then Err (EmptyCollection "form answers")
  else match first_duplicate answer_field_id ∅ answers with
       | Some answer => Err (DuplicateId "form answers" (id_to_string (answer_field_id answer)))
       | None => Ok (MkFormResponse answers)
       end.

(** ** Requests *)

Inductive InteractionRequestPayload : Type :=
| Request_Approval (request : ApprovalRequest)
| Request_Choice (request : ChoiceRequest)
| Request_Text (request : TextInputRequest)
| Request_Form (request : FormRequest).

Definition request_provider_request_capability (p : InteractionRequestPayload) :
    ProviderCapabilities :=
  match p with
  | Request_Approval _ => ProviderCaps.APPROVAL_REQUEST
  | Request_Choice _ | Request_Text _ | Request_Form _ => ProviderCaps.USER_INPUT_REQUEST
  end.

Definition request_provider_response_capability (p : InteractionRequestPayload) :
    ProviderCapabilities :=
  match p with
  | Request_Approval _ => ProviderCaps.APPROVAL_RESPONSE
  | Request_Choice _ | Request_Text _ | Request_Form _ => ProviderCaps.USER_INPUT_RESPONSE
  end.

Definition request_channel_response_capability (p : InteractionRequestPayload) :
    ChannelCapabilities :=
  match p with
  | Request_Approval _ => ChannelCaps.APPROVAL
  | Request_Choice _ => ChannelCaps.CHOICE_INPUT
  | Request_Text _ => ChannelCaps.TEXT_INPUT
  | Request_Form _ => ChannelCaps.FORM_INPUT
  end.

Definition request_is_actionable (p : InteractionRequestPayload) : bool :=
  match p with
  | Request_Approval request => approval_is_actionable request
  | Request_Choice _ | Request_Text _ | Request_Form _ => true
  end.

Record InteractionRequest : Type := MkInteractionRequest {
  request_id : InteractionId;
  request_session_id : SessionId;
  request_requested_at : Timestamp;
  request_expires_at : option Timestamp;
  request_prompt : NonEmptyText;
  request_payload : InteractionRequestPayload
}.

Definition InteractionRequest_new (id : InteractionId) (session_id : SessionId)
    (requested_at : Timestamp) (prompt : NonEmptyText)
    (payload : InteractionRequestPayload) : InteractionRequest :=
  MkInteractionRequest id session_id requested_at None prompt payload.

Definition with_expiration (r : InteractionRequest) (expires_at : Timestamp) :
    result DomainError InteractionRequest :=
  if (raw expires_at <=? raw (request_requested_at r))%Z then
    Err (InvalidTimeOrder "interaction requested_at" "interaction expires_at")
  else Ok (MkInteractionRequest (request_id r) (request_session_id r)
             (request_requested_at r) (Some expires_at) (request_prompt r)
             (request_payload r)).

(** ** Responses and closures *)

Record InteractionClosed : Type := MkInteractionClosed {
  closed_request_id : InteractionId;
  closed_session_id : SessionId;
  closed_reason : InteractionCloseReason
}.

Record ApprovalSelection : Type := MkApprovalSelection {
  selection_option_id : ApprovalOptionId
}.

Record ChoiceSelection : Type := MkChoiceSelection {
  selection_option_ids : list ChoiceOptionId
}.

Definition ChoiceSelection_new (option_ids : list ChoiceOptionId) :
    result DomainError ChoiceSelection :=
  if is_empty option_ids then Err (EmptyCollection "selected choice options")
  else match first_duplicate id ∅ option_ids with
       | Some option_id => Err (DuplicateId "selected choice options" (id_to_string option_id))
       | None => Ok (MkChoiceSelection option_ids)
       end.

Inductive InteractionResponsePayload : Type :=
| Response_Approval (selection : ApprovalSelection)
| Response_Choice (selection : ChoiceSelection)
| Response_Text (text : NonEmptyText)
| Response_Form (response : FormResponse).

Definition response_provider_capability (p : InteractionResponsePayload) : ProviderCapabilities :=
  match p with
  | Response_Approval _ => ProviderCaps.APPROVAL_RESPONSE
  | Response_Choice _ | Response_Text _ | Response_Form _ => ProviderCaps.USER_INPUT_RESPONSE
  end.

Definition response_channel_capability (p : InteractionResponsePayload) : ChannelCapabilities :=
  match p with
  | Response_Approval _ => ChannelCaps.APPROVAL
  | Response_Choice _ => ChannelCaps.CHOICE_INPUT
  | Response_Text _ => ChannelCaps.TEXT_INPUT
  | Response_Form _ => ChannelCaps.FORM_INPUT
  end.

Record InteractionResponse : Type := MkInteractionResponse {
  response_request_id : InteractionId;
  response_session_id : SessionId;
  response_channel_id : ChannelId;
  response_responded_at : Timestamp;
  response_payload : InteractionResponsePayload
}.

(** ** Validation *)

Definition every_field : DomainError :=
  InvalidChoiceSelection "form responses must answer every field exactly once".

(** The loop body over the fields of a form request. *)
Definition validate_form_field (answers : list FormAnswer) (field : FormField) :
    result DomainError unit :=
  answer ← ok_or every_field
    (List.find (λ answer, bool_decide (answer_field_id answer = field_id field)) answers);
  match answer_value answer with
  | Answer_Choice option_id =>
      if choice_contains (field_options field) option_id then Ok ()
      else Err (InvalidChoiceSelection "form answer selected an unknown option")
  | Answer_Text _ =>
      if field_allows_other field then Ok ()
      else Err (InvalidChoiceSelection "form field does not allow a custom answer")
  end.

Fixpoint validate_form_fields (answers : list FormAnswer) (fields : list FormField) :
    result DomainError unit :=
  match fields with
  | [] => Ok ()
  | field :: fields' =>
      _ ← validate_form_field answers field; validate_form_fields answers fields'
  end.

(** The loop over the selected options of a choice response. *)
Fixpoint validate_choice_options (options : list ChoiceOption)
    (option_ids : list ChoiceOptionId) : result DomainError unit :=
  match option_ids with
  | [] => Ok ()
  | option_id :: option_ids' =>
      if choice_contains options option_id then validate_choice_options options option_ids'
      else Err (UnknownChoiceOption (id_to_string option_id))
  end.

(** The payload match at the end of [validate_response]. *)
Definition validate_payload (request : InteractionRequestPayload)
    (response : InteractionResponsePayload) : result DomainError unit :=
  match request, response with
  | Request_Approval request, Response_Approval selection =>
      if negb (approval_is_actionable request) then Err ApprovalUnavailable
      else if negb (approval_contains request (selection_option_id selection)) then
        Err (UnknownApprovalOption (id_to_string (selection_option_id selection)))
      else Ok ()
  | Request_Text _, Response_Text _ => Ok ()
  | Request_Choice request, Response_Choice selection =>
      if negb (choice_multiple request) &&
         negb (length (selection_option_ids selection) =? 1)%nat then
        Err (InvalidChoiceSelection "single-choice requests require exactly one selected option")
      else validate_choice_options (choice_options request) (selection_option_ids selection)
  | Request_Form request, Response_Form response =>
      if negb (length (form_answers response) =? length (form_fields request))%nat then
        Err every_field
      else validate_form_fields (form_answers response) (form_fields request)
  | _, _ => Err InteractionTypeMismatch
  end.

Definition validate_response (request : InteractionRequest) (response : InteractionResponse) :
    result DomainError unit :=
  if negb (bool_decide (response_request_id response = request_id request)) then
    Err (CorrelationMismatch "interaction request ID" (id_to_string (request_id request))
           (id_to_string (response_request_id response)))
  else if negb (bool_decide (response_session_id response = request_session_id request)) then
    Err (CorrelationMismatch "interaction session ID"
           (id_to_string (request_session_id request))
           (id_to_string (response_session_id response)))
  else if (raw (response_responded_at response) <? raw (request_requested_at request))%Z then
    Err (InvalidTimeOrder "interaction requested_at" "interaction responded_at")
  else if match request_expires_at request with
          | Some expires_at => (raw expires_at <? raw (response_responded_at response))%Z
          | None => false
          end then
    Err InteractionExpired
  else validate_payload (request_payload request) (response_payload response).

#[global] Instance ApprovalOption_eq_dec : EqDecision ApprovalOption.
Proof. solve_decision. Defined.
#[global] Instance ApprovalRequest_eq_dec : EqDecision ApprovalRequest.
Proof. solve_decision. Defined.
#[global] Instance ChoiceOption_eq_dec : EqDecision ChoiceOption.
Proof. solve_decision. Defined.
#[global] Instance ChoiceRequest_eq_dec : EqDecision ChoiceRequest.
Proof. solve_decision. Defined.
#[global] Instance FormField_eq_dec : EqDecision FormField.
Proof. solve_decision. Defined.
#[global] Instance FormRequest_eq_dec : EqDecision FormRequest.
Proof. solve_decision. Defined.
#[global] Instance FormAnswerValue_eq_dec : EqDecision FormAnswerValue.
Proof. solve_decision. Defined.
#[global] Instance FormAnswer_eq_dec : EqDecision FormAnswer.
Proof. solve_decision. Defined.
#[global] Instance FormResponse_eq_dec : EqDecision FormResponse.
Proof. solve_decision. Defined.
#[global] Instance InteractionRequestPayload_eq_dec : EqDecision InteractionRequestPayload.
Proof. solve_decision. Defined.
#[global] Instance InteractionRequest_eq_dec : EqDecision InteractionRequest.
Proof. solve_decision. Defined.
#[global] Instance InteractionClosed_eq_dec : EqDecision InteractionClosed.
Proof. solve_decision. Defined.
#[global] Instance ApprovalSelection_eq_dec : EqDecision ApprovalSelection.
Proof. solve_decision. Defined.
#[global] Instance ChoiceSelection_eq_dec : EqDecision ChoiceSelection.
Proof. solve_decision. Defined.
#[global] Instance InteractionResponsePayload_eq_dec : EqDecision InteractionResponsePayload.
Proof. solve_decision. Defined.
#[global] Instance InteractionResponse_eq_dec : EqDecision InteractionResponse.
Proof. solve_decision. Defined.
End interactions.

(** ** Invariants of the constructors

    The fields are private, so every value is built by the constructors above
    and satisfies these predicates. *)

Section wellformed.
Context `{Externals}.

Definition approval_request_wf (r : ApprovalRequest) : Prop :=
  match approval_unavailable_reason r with
  | None => approval_options r ≠ [] ∧ NoDup (approval_option_id <$> approval_options r)
  | Some _ => approval_options r = []
  end.

Definition choice_request_wf (r : ChoiceRequest) : Prop :=
  choice_options r ≠ [] ∧ NoDup (choice_option_id <$> choice_options r).

Definition form_field_wf (f : FormField) : Prop :=
  NoDup (choice_option_id <$> field_options f) ∧
  (field_options f = [] → field_allows_other f = true).

Definition form_request_wf (r : FormRequest) : Prop :=
  form_fields r ≠ [] ∧ NoDup (field_id <$> form_fields r) ∧
  Forall form_field_wf (form_fields r).

Definition form_response_wf (r : FormResponse) : Prop :=
  form_answers r ≠ [] ∧ NoDup (answer_field_id <$> form_answers r).

Definition choice_selection_wf (s : ChoiceSelection) : Prop :=
  selection_option_ids s ≠ [] ∧ NoDup (selection_option_ids s).

Definition request_payload_wf (p : InteractionRequestPayload) : Prop :=
  match p with
  | Request_Approval r => approval_request_wf r
  | Request_Choice r => choice_request_wf r
  | Request_Text _ => True
  | Request_Form r => form_request_wf r
  end.

Definition request_wf (r : InteractionRequest) : Prop :=
  request_payload_wf (request_payload r) ∧
  (∀ t, request_expires_at r = Some t → (raw (request_requested_at r) < raw t)%Z).

Definition response_payload_wf (p : InteractionResponsePayload) : Prop :=
  match p with
  | Response_Approval _ | Response_Text _ => True
  | Response_Choice s => choice_selection_wf s
  | Response_Form r => form_response_wf r
  end.

Definition response_wf (r : InteractionResponse) : Prop :=
  response_payload_wf (response_payload r).

Lemma is_empty_spec {A} (l : list A) : is_empty l = true ↔ l = [].
Proof. by destruct l. Qed.

(** Closes the equivalence between a constructor and its invariant. *)
Ltac constructor_spec :=
  split;
  [ intros; simplify_eq/=; repeat split; try congruence; intros; simpl in *; congruence
  | intros [-> ?]; destruct_and?; simpl in *; first [done | congruence | naive_solver congruence] ].

Lemma ApprovalRequest_actionable_Ok subject options r :
  ApprovalRequest_actionable subject options = Ok r ↔
  r = MkApprovalRequest subject options None ∧ options ≠ [] ∧
  NoDup (approval_option_id <$> options).
Proof.
  rewrite <-(first_duplicate_None approval_option_id), <-is_empty_spec.
  unfold ApprovalRequest_actionable.
  destruct (is_empty options), (first_duplicate _ _ _); constructor_spec.
Qed.

Lemma ChoiceRequest_new_Ok options multiple r :
  ChoiceRequest_new options multiple = Ok r ↔
  r = MkChoiceRequest options multiple ∧ choice_request_wf r.
Proof.
  unfold choice_request_wf.
  rewrite <-(first_duplicate_None choice_option_id), <-is_empty_spec.
  unfold ChoiceRequest_new.
  destruct (is_empty options) eqn:?, (first_duplicate choice_option_id ∅ options) eqn:?; constructor_spec.
Qed.

Lemma FormField_new_Ok id header prompt options allows_other sensitive f :
  FormField_new id header prompt options allows_other sensitive = Ok f ↔
  f = MkFormField id header prompt options allows_other sensitive ∧ form_field_wf f.
Proof.
  unfold form_field_wf.
  rewrite <-(first_duplicate_None choice_option_id), <-is_empty_spec.
  unfold FormField_new.
  destruct (is_empty options) eqn:?, (first_duplicate choice_option_id ∅ options) eqn:?, allows_other; constructor_spec.
Qed.

Lemma FormRequest_new_Ok fields blocking r :
  FormRequest_new fields blocking = Ok r ↔
  r = MkFormRequest fields blocking ∧ fields ≠ [] ∧ NoDup (field_id <$> fields).
Proof.
  rewrite <-(first_duplicate_None field_id), <-is_empty_spec. unfold FormRequest_new.
  destruct (is_empty fields), (first_duplicate _ _ _); constructor_spec.
Qed.

Lemma FormResponse_new_Ok answers r :
  FormResponse_new answers = Ok r ↔ r = MkFormResponse answers ∧ form_response_wf r.
Proof.
  unfold form_response_wf.
  rewrite <-(first_duplicate_None answer_field_id), <-is_empty_spec.
  unfold FormResponse_new.
  destruct (is_empty answers) eqn:?, (first_duplicate answer_field_id ∅ answers) eqn:?; constructor_spec.
Qed.

Lemma ChoiceSelection_new_Ok option_ids s :
  ChoiceSelection_new option_ids = Ok s ↔
  s = MkChoiceSelection option_ids ∧ choice_selection_wf s.
Proof.
  unfold choice_selection_wf.
  rewrite <-(list_fmap_id (selection_option_ids s)).
  rewrite <-(first_duplicate_None id), <-is_empty_spec.
  rewrite (list_fmap_id (selection_option_ids s)). unfold ChoiceSelection_new.
  destruct (is_empty option_ids) eqn:?, (first_duplicate id ∅ option_ids) eqn:?; constructor_spec.
Qed.

Lemma with_expiration_Ok r t r' :
  with_expiration r t = Ok r' ↔
  (raw (request_requested_at r) < raw t)%Z ∧
  r' = MkInteractionRequest (request_id r) (request_session_id r) (request_requested_at r)
         (Some t) (request_prompt r) (request_payload r).
Proof. unfold with_expiration. destruct (Z.leb_spec (raw t) (raw (request_requested_at r))); naive_solver lia. Qed.

Lemma approval_contains_spec r option_id :
  approval_contains r option_id = true ↔
  option_id ∈ approval_option_id <$> approval_options r.
Proof.
  unfold approval_contains. rewrite existsb_exists, list_elem_of_fmap.
  setoid_rewrite <-list_elem_of_In. setoid_rewrite bool_decide_eq_true. naive_solver.
Qed.

Lemma choice_contains_spec options option_id :
  choice_contains options option_id = true ↔ option_id ∈ choice_option_id <$> options.
Proof.
  unfold choice_contains. rewrite existsb_exists, list_elem_of_fmap.
  setoid_rewrite <-list_elem_of_In. setoid_rewrite bool_decide_eq_true. naive_solver.
Qed.
End wellformed.

(** ** What a valid response is *)

Section validation.
Context `{Externals}.

Definition answer_acceptable (field : FormField) (value : FormAnswerValue) : Prop :=
  match value with
  | Answer_Choice option_id => option_id ∈ choice_option_id <$> field_options field
  | Answer_Text _ => field_allows_other field = true
  end.

(** The declarative contract between a request payload and its response. *)
Definition answers_payload (request : InteractionRequestPayload)
    (response : InteractionResponsePayload) : Prop :=
  match request, response with
  | Request_Approval r, Response_Approval s =>
      selection_option_id s ∈ approval_option_id <$> approval_options r
  | Request_Text _, Response_Text _ => True
  | Request_Choice r, Response_Choice s =>
      (choice_multiple r = false → length (selection_option_ids s) = 1) ∧
      ∀ o, o ∈ selection_option_ids s → o ∈ choice_option_id <$> choice_options r
  | Request_Form r, Response_Form f =>
      answer_field_id <$> form_answers f ≡ₚ field_id <$> form_fields r ∧
      ∀ field answer, field ∈ form_fields r → answer ∈ form_answers f →
        answer_field_id answer = field_id field → answer_acceptable field (answer_value answer)
  | _, _ => False
  end.

Definition answers_request (request : InteractionRequest) (response : InteractionResponse) :
    Prop :=
  response_request_id response = request_id request ∧
  response_session_id response = request_session_id request ∧
  (raw (request_requested_at request) ≤ raw (response_responded_at response))%Z ∧
  (∀ t, request_expires_at request = Some t → (raw (response_responded_at response) ≤ raw t)%Z) ∧
  answers_payload (request_payload request) (response_payload response).

Lemma validate_choice_options_Ok options option_ids :
  validate_choice_options options option_ids = Ok () ↔
  ∀ o, o ∈ option_ids → o ∈ choice_option_id <$> options.
Proof.
  induction option_ids as [|o option_ids IH]; simpl; [set_solver|].
  destruct (choice_contains options o) eqn:E.
  - apply choice_contains_spec in E. rewrite IH. set_solver.
  - split; [done|]. intros Ho. apply not_true_iff_false in E. destruct E.
    apply choice_contains_spec, Ho. left.
Qed.

Lemma validate_form_field_Ok answers field :
  NoDup (answer_field_id <$> answers) →
  validate_form_field answers field = Ok () ↔
  ∃ answer, answer ∈ answers ∧ answer_field_id answer = field_id field ∧
            answer_acceptable field (answer_value answer).
Proof.
  intros Hnd. unfold validate_form_field. rewrite bind_Ok. setoid_rewrite ok_or_Ok.
  split.
  - intros (answer & [??]%find_key & Hv); [|done]. exists answer. split_and!; [done..|].
    destruct (answer_value answer); simpl.
    + apply choice_contains_spec. by destruct (choice_contains _ _).
    + by destruct (field_allows_other field).
  - intros (answer & Ha & Hid & Hv). exists answer. split; [by apply find_key|].
    destruct (answer_value answer); simpl in Hv.
    + apply choice_contains_spec in Hv. by rewrite Hv.
    + by rewrite Hv.
Qed.

Lemma validate_form_fields_Ok answers fields :
  validate_form_fields answers fields = Ok () ↔
  Forall (λ field, validate_form_field answers field = Ok ()) fields.
Proof.
  induction fields as [|field fields IH]; simpl; [by split; constructor|].
  rewrite Forall_cons, <-IH. destruct (validate_form_field answers field) as [[]|]; naive_solver.
Qed.

Lemma validate_form_Ok (r : FormRequest) (f : FormResponse) :
  form_request_wf r → form_response_wf f →
  length (form_answers f) = length (form_fields r) ∧
  validate_form_fields (form_answers f) (form_fields r) = Ok () ↔
  answers_payload (Request_Form r) (Response_Form f).
Proof.
  intros (_ & Hfields & _) [_ Hanswers]. simpl. rewrite validate_form_fields_Ok, Forall_forall.
  split.
  - intros [Hlen Hall]. split.
    + symmetry. apply unique_keys_Permutation; [done| |rewrite !length_fmap; lia].
      intros k (field & -> & Hf)%list_elem_of_fmap.
      apply Hall, validate_form_field_Ok in Hf as (answer & Ha & <- & _); [|done].
      by apply list_elem_of_fmap_2.
    + intros field answer Hf Ha Hid.
      apply Hall, validate_form_field_Ok in Hf as (answer' & Ha' & Hid' & Hacc); [|done].
      assert (List.find (λ y, bool_decide (answer_field_id y = field_id field))
                (form_answers f) = Some answer) as E1 by by apply find_key.
      assert (List.find (λ y, bool_decide (answer_field_id y = field_id field))
                (form_answers f) = Some answer') as E2 by by apply find_key.
      congruence.
  - intros [Hperm Hacc]. split.
    + apply Permutation_length in Hperm. by rewrite !length_fmap in Hperm.
    + intros field Hf. apply validate_form_field_Ok; [done|].
      assert (field_id field ∈ answer_field_id <$> form_answers f) as Hin
        by (rewrite Hperm; by apply list_elem_of_fmap_2).
      apply list_elem_of_fmap in Hin as (answer & Hid & Ha). eauto.
Qed.

Lemma validate_payload_Ok request response :
  request_payload_wf request → response_payload_wf response →
  validate_payload request response = Ok () ↔ answers_payload request response.
Proof.
  intros Hreq Hresp. destruct request as [r|r|r|r], response as [s|s|s|s];
    try (by split); cbn [validate_payload].
  - simpl. rewrite <-approval_contains_spec. unfold approval_is_actionable.
    destruct (approval_options r) eqn:E.
    + simpl. unfold approval_contains. rewrite E. done.
    + simpl. by destruct (approval_contains _ _).
  - simpl. rewrite <-validate_choice_options_Ok.
    destruct (choice_multiple r); simpl; [naive_solver|].
    destruct (Nat.eqb_spec (length (selection_option_ids s)) 1); simpl; naive_solver.
  - rewrite <-validate_form_Ok by done.
    destruct (Nat.eqb_spec (length (form_answers s)) (length (form_fields r))); simpl;
      naive_solver.
Qed.

Lemma validate_response_Ok request response :
  request_wf request → response_wf response →
  validate_response request response = Ok () ↔ answers_request request response.
Proof.
  intros [Hreq _] Hresp. unfold answers_request.
  rewrite <-validate_payload_Ok by done. unfold validate_response.
  repeat case_bool_decide; simpl; [|naive_solver..].
  destruct (Z.ltb_spec (raw (response_responded_at response))
              (raw (request_requested_at request))); [naive_solver lia|].
  destruct (request_expires_at request) as [t|]; [|naive_solver].
  destruct (Z.ltb_spec (raw t) (raw (response_responded_at response))).
  - split; [done|]. intros (_ & _ & _ & Ht & _). specialize (Ht t eq_refl). lia.
  - naive_solver.
Qed.

(** A response that validates needs the very capabilities its request does. *)
Lemma validate_payload_capabilities request response :
  validate_payload request response = Ok () →
  response_provider_capability response = request_provider_response_capability request ∧
  response_channel_capability response = request_channel_response_capability request.
Proof. by destruct request, response. Qed.

(** Nothing can answer a request that is not actionable. *)
Lemma validate_payload_actionable request response :
  validate_payload request response = Ok () → request_is_actionable request = true.
Proof.
  destruct request, response; try done; simpl. by destruct (approval_is_actionable _).
Qed.
End validation.
