(* ===== verification/Event.v ===== *)
(** * Sessions and events

    Models [agentpulse-core/src/session.rs] (the session snapshot, its builder
    and the two observation updates) and [event.rs] (the normalized event and
    its correlation check). *)

From stdpp Require Import base strings numbers gmap list.
From S2P Require Import Prelude Values Snapshots Capability Interaction.

(** ** Sessions (session.rs) *)

Inductive AgentState : Type :=
| State_Initializing | State_Idle | State_Running | State_WaitingForInteraction
| State_Completed | State_Failed | State_Cancelled.

Inductive ConnectionState : Type :=
| Conn_Connected | Conn_Reconnecting | Conn_Disconnected.

#[export] Instance AgentState_eq_dec : EqDecision AgentState.
Proof. solve_decision. Defined.
#[export] Instance ConnectionState_eq_dec : EqDecision ConnectionState.
Proof. solve_decision. Defined.

Section sessions.
Context `{Externals}.

Record AgentSession : Type := MkAgentSession {
  session_id : SessionId;
  session_provider_id : ProviderId;
  session_external_id : option ExternalId;
  session_title : option NonEmptyText;
  session_workspace : option WorkspaceRef;
  session_state : AgentState;
  session_connection_state : ConnectionState;
  session_revision : Revision;
  session_created_at : Timestamp;
  session_updated_at : Timestamp
}.

Record AgentSessionBuilder : Type := MkAgentSessionBuilder {
  builder_id : SessionId;
  builder_provider_id : ProviderId;
  builder_external_id : option ExternalId;
  builder_title : option NonEmptyText;
  builder_workspace : option WorkspaceRef;
  builder_state : AgentState;
  builder_connection_state : ConnectionState;
  builder_revision : Revision;
  builder_created_at : Timestamp;
  builder_updated_at : Timestamp
}.

Definition AgentSession_builder (id : SessionId) (provider_id : ProviderId)
    (created_at : Timestamp) : AgentSessionBuilder :=
  MkAgentSessionBuilder id provider_id None None None State_Initializing Conn_Connected
    counter_FIRST created_at created_at.

Definition set_external_id (b : AgentSessionBuilder) (external_id : ExternalId) :=
  MkAgentSessionBuilder (builder_id b) (builder_provider_id b) (Some external_id)
    (builder_title b) (builder_workspace b) (builder_state b) (builder_connection_state b)
    (builder_revision b) (builder_created_at b) (builder_updated_at b).

Definition set_title (b : AgentSessionBuilder) (title : NonEmptyText) :=
  MkAgentSessionBuilder (builder_id b) (builder_provider_id b) (builder_external_id b)
    (Some title) (builder_workspace b) (builder_state b) (builder_connection_state b)
    (builder_revision b) (builder_created_at b) (builder_updated_at b).

Definition set_workspace (b : AgentSessionBuilder) (workspace : WorkspaceRef) :=
  MkAgentSessionBuilder (builder_id b) (builder_provider_id b) (builder_external_id b)
    (builder_title b) (Some workspace) (builder_state b) (builder_connection_state b)
    (builder_revision b) (builder_created_at b) (builder_updated_at b).

Definition set_state (b : AgentSessionBuilder) (state : AgentState) :=
  MkAgentSessionBuilder (builder_id b) (builder_provider_id b) (builder_external_id b)
    (builder_title b) (builder_workspace b) state (builder_connection_state b)
    (builder_revision b) (builder_created_at b) (builder_updated_at b).

Definition set_connection_state (b : AgentSessionBuilder) (connection_state : ConnectionState) :=
  MkAgentSessionBuilder (builder_id b) (builder_provider_id b) (builder_external_id b)
    (builder_title b) (builder_workspace b) (builder_state b) connection_state
    (builder_revision b) (builder_created_at b) (builder_updated_at b).

Definition set_revision (b : AgentSessionBuilder) (revision : Revision)
    (updated_at : Timestamp) :=
  MkAgentSessionBuilder (builder_id b) (builder_provider_id b) (builder_external_id b)
    (builder_title b) (builder_workspace b) (builder_state b) (builder_connection_state b)
    revision (builder_created_at b) updated_at.

Definition build (b : AgentSessionBuilder) : result DomainError AgentSession :=
  if (raw (builder_updated_at b) <? raw (builder_created_at b))%Z then
    Err (InvalidTimeOrder "session created_at" "session updated_at")
  else Ok (MkAgentSession (builder_id b) (builder_provider_id b) (builder_external_id b)
             (builder_title b) (builder_workspace b) (builder_state b)
             (builder_connection_state b) (builder_revision b) (builder_created_at b)
             (builder_updated_at b)).

(** [if observed_at > self.updated_at { self.updated_at = observed_at; }] *)
Definition later (updated_at observed_at : Timestamp) : Timestamp :=
  if (raw updated_at <? raw observed_at)%Z then observed_at else updated_at.

Definition observe_state (s : AgentSession) (state : AgentState) (revision : Revision)
    (observed_at : Timestamp) : AgentSession :=
  MkAgentSession (session_id s) (session_provider_id s) (session_external_id s)
    (session_title s) (session_workspace s) state (session_connection_state s) revision
    (session_created_at s) (later (session_updated_at s) observed_at).

Definition observe_connection_state (s : AgentSession) (connection_state : ConnectionState)
    (revision : Revision) (observed_at : Timestamp) : AgentSession :=
  MkAgentSession (session_id s) (session_provider_id s) (session_external_id s)
    (session_title s) (session_workspace s) (session_state s) connection_state revision
    (session_created_at s) (later (session_updated_at s) observed_at).

#[global] Instance AgentSession_eq_dec : EqDecision AgentSession.
Proof. solve_decision. Defined.

(** The invariant [build] establishes. *)
Definition session_wf (s : AgentSession) : Prop :=
  (raw (session_created_at s) ≤ raw (session_updated_at s))%Z.

Lemma build_wf b s : build b = Ok s → session_wf s.
Proof.
  unfold build, session_wf. destruct (Z.ltb_spec (raw (builder_updated_at b))
    (raw (builder_created_at b))); [done|]. intros [= <-]. done.
Qed.

Lemma later_ge t u : (raw t ≤ raw (later t u))%Z ∧ (raw u ≤ raw (later t u))%Z.
Proof. unfold later. destruct (Z.ltb_spec (raw t) (raw u)); lia. Qed.

Lemma observe_state_wf s state revision t :
  session_wf s → session_wf (observe_state s state revision t).
Proof. unfold session_wf. simpl. pose proof (later_ge (session_updated_at s) t). lia. Qed.

Lemma observe_connection_state_wf s state revision t :
  session_wf s → session_wf (observe_connection_state s state revision t).
Proof. unfold session_wf. simpl. pose proof (later_ge (session_updated_at s) t). lia. Qed.
End sessions.
#[export] Hint Resolve observe_state_wf observe_connection_state_wf : agentpulse.

(** ** Events (event.rs) *)

Inductive AgentMessageLevel : Type := Level_Info | Level_Warning | Level_Error.
Inductive AgentMessageRole : Type := Role_User | Role_Assistant | Role_System.
Inductive ToolOutcome : Type := Tool_Succeeded | Tool_Failed | Tool_Cancelled.

Record AgentMessage : Type := MkAgentMessage {
  message_role : AgentMessageRole;
  message_level : AgentMessageLevel;
  message_content : NonEmptyText
}.

Definition AgentMessage_new (level : AgentMessageLevel) (content : NonEmptyText) : AgentMessage :=
  MkAgentMessage Role_Assistant level content.

Inductive SessionOutcome : Type :=
| Outcome_Completed (summary : option NonEmptyText)
| Outcome_Failed (error : NonEmptyText)
| Outcome_Cancelled (reason : option NonEmptyText).

#[export] Instance AgentMessageLevel_eq_dec : EqDecision AgentMessageLevel.
Proof. solve_decision. Defined.
#[export] Instance AgentMessageRole_eq_dec : EqDecision AgentMessageRole.
Proof. solve_decision. Defined.
#[export] Instance ToolOutcome_eq_dec : EqDecision ToolOutcome.
Proof. solve_decision. Defined.
#[export] Instance AgentMessage_eq_dec : EqDecision AgentMessage.
Proof. solve_decision. Defined.
#[export] Instance SessionOutcome_eq_dec : EqDecision SessionOutcome.
Proof. solve_decision. Defined.

Section events.
Context `{Externals}.

Inductive ToolActivity : Type :=
| Tool_Started (call_id : ToolCallId) (name : NonEmptyText) (summary : option NonEmptyText)
| Tool_Finished (call_id : ToolCallId) (outcome : ToolOutcome) (summary : option NonEmptyText).

Inductive AgentEventPayload : Type :=
| SessionStarted (session : AgentSession)
| StateChanged (state : AgentState)
| ConnectionChanged (connection_state : ConnectionState)
| Message (message : AgentMessage)
| ToolActivityPayload (activity : ToolActivity)
| PlanUpdated (plan : PlanSnapshot)
| ProgressUpdated (progress : ProgressSnapshot)
| InteractionRequested (request : InteractionRequest)
| InteractionResponded (response : InteractionResponse)
| InteractionClosedPayload (closed : InteractionClosed)
| CommandIssued (command : AgentCommand)
| SessionEnded (outcome : SessionOutcome).

Definition event_payload_capability (p : AgentEventPayload) : ProviderCapabilities :=
  match p with
  | SessionStarted _ | StateChanged _ | ConnectionChanged _ | SessionEnded _ =>
      ProviderCaps.SESSION_STATE
  | Message _ => NONE
  | ToolActivityPayload _ => ProviderCaps.TOOL_EVENTS
  | PlanUpdated _ => ProviderCaps.PLAN
  | ProgressUpdated _ => ProviderCaps.PROGRESS
  | InteractionRequested request => request_provider_request_capability (request_payload request)
  | InteractionResponded response => response_provider_capability (response_payload response)
  | InteractionClosedPayload _ => ProviderCaps.APPROVAL_REQUEST
  | CommandIssued command => command_provider_capability (command_payload command)
  end.

Record AgentEvent : Type := MkAgentEvent {
  event_id : EventId;
  event_session_id : SessionId;
  event_sequence : EventSequence;
  event_occurred_at : Timestamp;
  event_payload : AgentEventPayload
}.

Definition embedded_session_id (p : AgentEventPayload) : option SessionId :=
  match p with
  | SessionStarted session => Some (session_id session)
  | InteractionRequested request => Some (request_session_id request)
  | InteractionResponded response => Some (response_session_id response)
  | InteractionClosedPayload closed => Some (closed_session_id closed)
  | CommandIssued command => Some (command_session_id command)
  | _ => None
  end.

Definition AgentEvent_new (id : EventId) (session : SessionId) (sequence : EventSequence)
    (occurred_at : Timestamp) (payload : AgentEventPayload) : result DomainError AgentEvent :=
  match embedded_session_id payload with
  | Some embedded =>
      if negb (bool_decide (embedded = session)) then
        Err (CorrelationMismatch "event session ID" (id_to_string session)
               (id_to_string embedded))
      else Ok (MkAgentEvent id session sequence occurred_at payload)
  | None => Ok (MkAgentEvent id session sequence occurred_at payload)
  end.

#[global] Instance ToolActivity_eq_dec : EqDecision ToolActivity.
Proof. solve_decision. Defined.
#[global] Instance AgentEventPayload_eq_dec : EqDecision AgentEventPayload.
Proof. solve_decision. Defined.
#[global] Instance AgentEvent_eq_dec : EqDecision AgentEvent.
Proof. solve_decision. Defined.

(** ** Invariants *)

Definition event_payload_wf (p : AgentEventPayload) : Prop :=
  match p with
  | SessionStarted s => session_wf s
  | PlanUpdated p => plan_wf p
  | ProgressUpdated p => progress_value_wf (progress_value p)
  | InteractionRequested r => request_wf r
  | InteractionResponded r => response_wf r
  | _ => True
  end.

(** Built from well-formed parts by [AgentEvent::new]. *)
Definition event_wf (e : AgentEvent) : Prop :=
  event_payload_wf (event_payload e) ∧
  ∀ s, embedded_session_id (event_payload e) = Some s → s = event_session_id e.

Lemma AgentEvent_new_Ok id session sequence occurred_at payload e :
  AgentEvent_new id session sequence occurred_at payload = Ok e ↔
  e = MkAgentEvent id session sequence occurred_at payload ∧
  ∀ s, embedded_session_id payload = Some s → s = session.
Proof.
  unfold AgentEvent_new. destruct (embedded_session_id payload) as [s|]; [|naive_solver].
  case_bool_decide; simpl; naive_solver.
Qed.
End events.
