(* ===== verification/Aggregate.v ===== *)
(** * The session aggregate

    Models [agentpulse-core/src/aggregate.rs]: the reduction of a session's
    event stream into its current state, with the cursor rules (stale,
    conflicting, skipped and repeated sequences), the revision rules of plan
    and progress snapshots, the lifecycle of tool calls and interactions, and
    the bounded window of retained events.  Every method that takes
    [&mut self] is an [act], so the state on the error paths is the model's. *)

From stdpp Require Import base strings numbers gmap list.
From S2P Require Import Prelude Values Snapshots Capability Interaction Event.

Inductive SnapshotKind : Type := Snapshot_Plan | Snapshot_Progress.
Inductive ApplyOutcome : Type := Applied | AlreadyApplied.

#[export] Instance SnapshotKind_eq_dec : EqDecision SnapshotKind.
Proof. solve_decision. Defined.
#[export] Instance ApplyOutcome_eq_dec : EqDecision ApplyOutcome.
Proof. solve_decision. Defined.

Record SessionAggregateConfig : Type := MkConfig {
  recent_event_capacity : N;
  retain_all_events : bool
}.

Definition DEFAULT_RECENT_EVENT_CAPACITY : N := 256.
Definition SessionAggregateConfig_new (capacity : N) : SessionAggregateConfig :=
  {| recent_event_capacity := capacity; retain_all_events := false |}.
Definition SessionAggregateConfig_retain_all : SessionAggregateConfig :=
  {| recent_event_capacity := 0; retain_all_events := true |}.
Definition SessionAggregateConfig_default : SessionAggregateConfig :=
  SessionAggregateConfig_new DEFAULT_RECENT_EVENT_CAPACITY.

Section aggregate.
Context `{Externals}.

Inductive ReduceError : Type :=
| EmptyReplay
| InvalidInitialSequence (actual : EventSequence)
| InitialEventNotSessionStarted
| SessionMismatch (expected actual : SessionId)
| StaleSequence (last actual : EventSequence)
| SequenceConflict (sequence : EventSequence) (expected_event_id actual_event_id : EventId)
| SequenceGap (expected actual : EventSequence)
| SequenceExhausted
| UnexpectedSessionStarted
| StaleRevision (snapshot : SnapshotKind) (current incoming : Revision)
| SessionRevisionExhausted
| ToolAlreadyActive (call_id : ToolCallId)
| ToolNotActive (call_id : ToolCallId)
| InteractionAlreadyPending (interaction_id : InteractionId)
| InteractionNotPending (interaction_id : InteractionId)
| InvalidInteractionResponse (interaction_id : InteractionId) (source : DomainError).

#[global] Instance ReduceError_eq_dec : EqDecision ReduceError.
Proof. solve_decision. Defined.

Record ActiveToolCall : Type := MkActiveToolCall {
  tool_id : ToolCallId;
  tool_name : NonEmptyText;
  tool_summary : option NonEmptyText;
  tool_started_at : Timestamp
}.

#[global] Instance ActiveToolCall_eq_dec : EqDecision ActiveToolCall.
Proof. solve_decision. Defined.

Record SessionAggregate : Type := MkAggregate {
  config : SessionAggregateConfig;
  session : AgentSession;
  plan : option PlanSnapshot;
  progress : option ProgressSnapshot;
  active_tool_calls : gmap ToolCallId ActiveToolCall;
  pending_interactions : gmap InteractionId InteractionRequest;
  latest_outcome : option SessionOutcome;
  last_event : AgentEvent;
  recent_events : list AgentEvent
}.

Definition last_sequence (a : SessionAggregate) : EventSequence := event_sequence (last_event a).
Definition last_event_id (a : SessionAggregate) : EventId := event_id (last_event a).

(** Field updates. *)
Definition set_session (s : AgentSession) (a : SessionAggregate) : SessionAggregate :=
  MkAggregate (config a) s (plan a) (progress a) (active_tool_calls a)
    (pending_interactions a) (latest_outcome a) (last_event a) (recent_events a).
Definition set_plan (p : PlanSnapshot) (a : SessionAggregate) : SessionAggregate :=
  MkAggregate (config a) (session a) (Some p) (progress a) (active_tool_calls a)
    (pending_interactions a) (latest_outcome a) (last_event a) (recent_events a).
Definition set_progress (p : ProgressSnapshot) (a : SessionAggregate) : SessionAggregate :=
  MkAggregate (config a) (session a) (plan a) (Some p) (active_tool_calls a)
    (pending_interactions a) (latest_outcome a) (last_event a) (recent_events a).
Definition set_tools (t : gmap ToolCallId ActiveToolCall) (a : SessionAggregate) :
    SessionAggregate :=
  MkAggregate (config a) (session a) (plan a) (progress a) t
    (pending_interactions a) (latest_outcome a) (last_event a) (recent_events a).
Definition set_pending (p : gmap InteractionId InteractionRequest) (a : SessionAggregate) :
    SessionAggregate :=
  MkAggregate (config a) (session a) (plan a) (progress a) (active_tool_calls a)
    p (latest_outcome a) (last_event a) (recent_events a).
Definition set_outcome (o : SessionOutcome) (a : SessionAggregate) : SessionAggregate :=
  MkAggregate (config a) (session a) (plan a) (progress a) (active_tool_calls a)
    (pending_interactions a) (Some o) (last_event a) (recent_events a).
Definition set_last_event (e : AgentEvent) (a : SessionAggregate) : SessionAggregate :=
  MkAggregate (config a) (session a) (plan a) (progress a) (active_tool_calls a)
    (pending_interactions a) (latest_outcome a) e (recent_events a).
Definition set_recent (l : list AgentEvent) (a : SessionAggregate) : SessionAggregate :=
  MkAggregate (config a) (session a) (plan a) (progress a) (active_tool_calls a)
    (pending_interactions a) (latest_outcome a) (last_event a) l.

(** ** Construction *)

Definition from_initial_event_with_config (initial_event : AgentEvent)
    (cfg : SessionAggregateConfig) : result ReduceError SessionAggregate :=
  if negb (bool_decide (event_sequence initial_event = counter_FIRST)) then
    Err (InvalidInitialSequence (event_sequence initial_event))
  else
    match event_payload initial_event with
    | SessionStarted s =>
        let recent :=
          if retain_all_events cfg || (0 <? recent_event_capacity cfg)%N
          then [initial_event] else [] in
        Ok (MkAggregate cfg s None None ∅ ∅ None initial_event recent)
    | _ => Err InitialEventNotSessionStarted
    end.

Definition from_initial_event (initial_event : AgentEvent) :
    result ReduceError SessionAggregate :=
  from_initial_event_with_config initial_event SessionAggregateConfig_default.

(** ** Applying one event *)

Definition validate_cursor (a : SessionAggregate) (event : AgentEvent) :
    result ReduceError bool :=
  if negb (bool_decide (event_session_id event = session_id (session a))) then
    Err (SessionMismatch (session_id (session a)) (event_session_id event))
  else if (counter_num (event_sequence event) <? counter_num (last_sequence a))%N then
    Err (StaleSequence (last_sequence a) (event_sequence event))
  else if bool_decide (event_sequence event = last_sequence a) then
    if bool_decide (event = last_event a) then Ok true
    else Err (SequenceConflict (event_sequence event) (last_event_id a) (event_id event))
  else
    expected ← ok_or SequenceExhausted (checked_next (last_sequence a));
    if negb (bool_decide (event_sequence event = expected)) then
      Err (SequenceGap expected (event_sequence event))
    else Ok false.

Definition next_session_revision (a : SessionAggregate) : result ReduceError Revision :=
  ok_or SessionRevisionExhausted (checked_next (session_revision (session a))).

Definition validate_snapshot_revision (snapshot : SnapshotKind) (current : option Revision)
    (incoming : Revision) : result ReduceError unit :=
  match current with
  | Some current =>
      if (counter_num incoming <=? counter_num current)%N
      then Err (StaleRevision snapshot current incoming) else Ok ()
  | None => Ok ()
  end.

Definition apply_tool_activity (activity : ToolActivity) (occurred_at : Timestamp) :
    act SessionAggregate ReduceError unit :=
  match activity with
  | Tool_Started call_id name summary =>
      tools ← gets active_tool_calls;
      if bool_decide (is_Some (tools !! call_id)) then throw (ToolAlreadyActive call_id)
      else modify (λ a, set_tools
             (<[call_id := MkActiveToolCall call_id name summary occurred_at]>
                (active_tool_calls a)) a)
  | Tool_Finished call_id _ _ =>
      tools ← gets active_tool_calls;
      if negb (bool_decide (is_Some (tools !! call_id))) then throw (ToolNotActive call_id)
      else modify (λ a, set_tools (delete call_id (active_tool_calls a)) a)
  end.

Definition record_event (event : AgentEvent) : act SessionAggregate ReduceError unit :=
  _ ← modify (set_last_event event);
  cfg ← gets config;
  if negb (retain_all_events cfg) && (recent_event_capacity cfg =? 0)%N then mret ()
  else
    _ ← modify (λ a, set_recent (recent_events a ++ [event]) a);
    if negb (retain_all_events cfg) then
      modify (λ a, set_recent (trim_front (recent_event_capacity cfg) (recent_events a)) a)
    else mret ().

Definition outcome_agent_state (outcome : SessionOutcome) : AgentState :=
  match outcome with
  | Outcome_Completed _ => State_Completed
  | Outcome_Failed _ => State_Failed
  | Outcome_Cancelled _ => State_Cancelled
  end.

(** The payload match in the middle of [apply]. *)
Definition apply_payload (event : AgentEvent) : act SessionAggregate ReduceError unit :=
  match event_payload event with
  | SessionStarted _ => throw UnexpectedSessionStarted
  | StateChanged state =>
      a ← gets id;
      revision ← lift (next_session_revision a);
      modify (set_session (observe_state (session a) state revision (event_occurred_at event)))
  | ConnectionChanged connection_state =>
      a ← gets id;
      revision ← lift (next_session_revision a);
      modify (set_session (observe_connection_state (session a) connection_state revision
                             (event_occurred_at event)))
  | Message _ | CommandIssued _ => mret ()
  | ToolActivityPayload activity => apply_tool_activity activity (event_occurred_at event)
  | PlanUpdated p =>
      current ← gets plan;
      _ ← lift (validate_snapshot_revision Snapshot_Plan (plan_revision <$> current)
                  (plan_revision p));
      modify (set_plan p)
  | ProgressUpdated p =>
      current ← gets progress;
      _ ← lift (validate_snapshot_revision Snapshot_Progress (progress_revision <$> current)
                  (progress_revision p));
      modify (set_progress p)
  | InteractionRequested request =>
      pending ← gets pending_interactions;
      if bool_decide (is_Some (pending !! request_id request)) then
        throw (InteractionAlreadyPending (request_id request))
      else modify (λ a, set_pending (<[request_id request := request]> (pending_interactions a)) a)
  | InteractionResponded response =>
      let interaction_id := response_request_id response in
      pending ← gets pending_interactions;
      request ← lift (ok_or (InteractionNotPending interaction_id) (pending !! interaction_id));
      _ ← lift (map_err (InvalidInteractionResponse interaction_id)
                  (validate_response request response));
      modify (λ a, set_pending (delete interaction_id (pending_interactions a)) a)
  | InteractionClosedPayload closed =>
      let interaction_id := closed_request_id closed in
      removed ← gets (λ a, pending_interactions a !! interaction_id);
      _ ← modify (λ a, set_pending (delete interaction_id (pending_interactions a)) a);
      if bool_decide (removed = None) then throw (InteractionNotPending interaction_id)
      else mret ()
  | SessionEnded outcome =>
      a ← gets id;
      revision ← lift (next_session_revision a);
      _ ← modify (set_session (observe_state (session a) (outcome_agent_state outcome) revision
                                 (event_occurred_at event)));
      _ ← modify (set_outcome outcome);
      _ ← modify (set_tools ∅);
      modify (set_pending ∅)
  end.

Definition apply (event : AgentEvent) : act SessionAggregate ReduceError ApplyOutcome :=
  a ← gets id;
  already ← lift (validate_cursor a event);
  if (already : bool) then mret AlreadyApplied
  else
    _ ← apply_payload event;
    _ ← record_event event;
    mret Applied.

(** ** Replay *)

(** [for event in events { aggregate.apply(event)?; }] *)
Fixpoint apply_all (events : list AgentEvent) (a : SessionAggregate) :
    result ReduceError SessionAggregate :=
  match events with
  | [] => Ok a
  | event :: events' =>
      match apply event a with
      | (a', Ok _) => apply_all events' a'
      | (_, Err e) => Err e
      end
  end.

Definition replay_with_config (events : list AgentEvent) (cfg : SessionAggregateConfig) :
    result ReduceError SessionAggregate :=
  match events with
  | [] => Err EmptyReplay
  | initial_event :: events' =>
      a ← from_initial_event_with_config initial_event cfg;
      apply_all events' a
  end.

Definition replay (events : list AgentEvent) : result ReduceError SessionAggregate :=
  replay_with_config events SessionAggregateConfig_default.

(** ** Retained history *)

Definition event_num (e : AgentEvent) : N := counter_num (event_sequence e).

Definition retained_event_page_after (a : SessionAggregate) (after_sequence : u64)
    (max_events : N) : option (list AgentEvent) :=
  if (counter_num (last_sequence a) <? raw after_sequence)%N then None
  else if (raw after_sequence =? counter_num (last_sequence a))%N then Some []
  else
    expected ← u64_checked_add after_sequence 1;
    if match recent_events a with
       | [] => true
       | event :: _ => (raw expected <? event_num event)%N
       end then None
    else Some (ntake max_events
                 (List.filter (λ event, raw after_sequence <? event_num event)%N
                    (recent_events a))).

Definition retained_events_after (a : SessionAggregate) (after_sequence : u64) :
    option (list AgentEvent) :=
  retained_event_page_after a after_sequence u64_max.
End aggregate.
