(* ===== verification/AggregateSpec.v ===== *)
(** * Correctness of the session aggregate

    Atomicity, the cursor protocol, the invariant of every reachable
    aggregate, and the refinement of the aggregate to its event history: each
    field of the state is a function of the list of applied events, written
    declaratively, and so is every page of retained events. *)

From stdpp Require Import base strings numbers gmap list.
From S2P Require Import Prelude Values Snapshots Capability Interaction Event Aggregate.

(** Runs an [act] of the aggregate symbolically. *)
Ltac unfold_act :=
  unfold mbind, act_bind, gets, lift, modify, throw, mret, act_ret in *; simpl in *.

Section basic.
Context `{Externals}.
Implicit Types (a : SessionAggregate) (e : AgentEvent).

(** ** Recording an event *)

(** What [record_event] leaves in the retained window. *)
Definition record_window (cfg : SessionAggregateConfig) (recent : list AgentEvent) e :
    list AgentEvent :=
  if retain_all_events cfg then recent ++ [e]
  else if (recent_event_capacity cfg =? 0)%N then recent
  else trim_front (recent_event_capacity cfg) (recent ++ [e]).

Lemma record_event_eq e a :
  record_event e a =
  (set_recent (record_window (config a) (recent_events a) e) (set_last_event e a), Ok ()).
Proof.
  unfold record_event, record_window. unfold_act.
  destruct (retain_all_events (config a)), (recent_event_capacity (config a) =? 0)%N; done.
Qed.

(** ** Payload effects *)

Lemma apply_payload_error e a a' err : apply_payload e a = (a', Err err) → a' = a.
Proof.
  unfold apply_payload, apply_tool_activity. unfold_act.
  destruct (event_payload e); intros; unfold_act; repeat case_match; simplify_eq/=; try done.
  case_bool_decide; [|done]. rewrite delete_id by done. by destruct a.
Qed.

(** The payload errors are disjoint from the cursor's. *)
Lemma apply_payload_not_exhausted e a a' err :
  apply_payload e a = (a', Err err) → err ≠ SequenceExhausted.
Proof.
  intros Hp ->. unfold apply_payload, apply_tool_activity in Hp.
  destruct (event_payload e); unfold_act; unfold next_session_revision, validate_snapshot_revision in *;
    repeat case_match; simplify_eq/=;
    repeat match goal with
    | E : ok_or _ _ = Err _ |- _ => apply ok_or_Err in E as [_ ?]
    | E : map_err _ _ = Err _ |- _ => apply map_err_Err in E as (? & _ & ?)
    end; done.
Qed.

Lemma apply_payload_frame e a a' r :
  apply_payload e a = (a', r) →
  config a' = config a ∧ last_event a' = last_event a ∧ recent_events a' = recent_events a ∧
  session_id (session a') = session_id (session a) ∧
  session_provider_id (session a') = session_provider_id (session a).
Proof.
  unfold apply_payload, apply_tool_activity. unfold_act.
  destruct (event_payload e); intros; unfold_act; repeat case_match; simplify_eq/=; done.
Qed.

Lemma apply_inv e a a' r :
  apply e a = (a', r) →
  (∃ err, validate_cursor a e = Err err ∧ r = Err err ∧ a' = a) ∨
  (validate_cursor a e = Ok true ∧ r = Ok AlreadyApplied ∧ a' = a) ∨
  (validate_cursor a e = Ok false ∧ ∃ err, apply_payload e a = (a, Err err) ∧ r = Err err ∧ a' = a) ∨
  (validate_cursor a e = Ok false ∧ ∃ a1, apply_payload e a = (a1, Ok ()) ∧ r = Ok Applied ∧
     a' = set_recent (record_window (config a) (recent_events a) e) (set_last_event e a1)).
Proof.
  unfold apply. unfold_act. destruct (validate_cursor a e) as [[|]|err]; [naive_solver| |naive_solver].
  destruct (apply_payload e a) as [a1 [[]|err]] eqn:E.
  - rewrite record_event_eq. intros [= <- <-]. do 3 right. split; [done|].
    exists a1. split_and!; try done.
    by apply apply_payload_frame in E as (-> & _ & -> & _).
  - intros [= <- <-]. pose proof (apply_payload_error _ _ _ _ E) as ->. naive_solver.
Qed.

Lemma apply_Applied e a a' :
  apply e a = (a', Ok Applied) ↔
  validate_cursor a e = Ok false ∧ ∃ a1, apply_payload e a = (a1, Ok ()) ∧
    a' = set_recent (record_window (config a) (recent_events a) e) (set_last_event e a1).
Proof.
  split.
  - intros Happ. apply apply_inv in Happ. naive_solver.
  - intros (Hc & a1 & Hp & ->). unfold apply. unfold_act. rewrite Hc. simpl. rewrite Hp.
    rewrite record_event_eq. apply apply_payload_frame in Hp as (-> & _ & -> & _). done.
Qed.

(** ** The cursor *)

(** What the cursor check decides, case by case. *)
Lemma validate_cursor_spec a e :
  match validate_cursor a e with
  | Ok true => e = last_event a ∧ event_session_id e = session_id (session a)
  | Ok false => event_session_id e = session_id (session a) ∧
                event_num e = (event_num (last_event a) + 1)%N
  | Err (SessionMismatch expected actual) =>
      expected = session_id (session a) ∧ actual = event_session_id e ∧ expected ≠ actual
  | Err (StaleSequence last actual) =>
      last = last_sequence a ∧ actual = event_sequence e ∧
      (counter_num actual < counter_num last)%N
  | Err (SequenceConflict sequence expected actual) =>
      sequence = event_sequence e ∧ sequence = last_sequence a ∧ e ≠ last_event a ∧
      expected = last_event_id a ∧ actual = event_id e
  | Err (SequenceGap expected actual) =>
      counter_num expected = (counter_num (last_sequence a) + 1)%N ∧
      actual = event_sequence e ∧ (counter_num expected < counter_num actual)%N
  | Err _ => False
  end.
Proof.
  unfold validate_cursor, event_num, last_sequence.
  case_bool_decide as Hs; simpl; [|done].
  destruct (N.ltb_spec (counter_num (event_sequence e))
    (counter_num (event_sequence (last_event a)))) as [Hlt|Hge]; [done|].
  case_bool_decide as Heq.
  { case_bool_decide as He; simpl; done. }
  assert (counter_num (event_sequence e) ≠ counter_num (event_sequence (last_event a))) as Hne.
  { by intros ?%counter_eq. }
  destruct (checked_next (event_sequence (last_event a))) as [expected|] eqn:En; simpl.
  - apply checked_next_Some in En. case_bool_decide as He; simpl.
    + by rewrite He.
    + assert (counter_num (event_sequence e) ≠ counter_num expected) by by intros ?%counter_eq.
      split_and!; [lia|done|lia].
  - apply checked_next_None in En. pose proof (counter_bound (event_sequence e)). lia.
Qed.

Lemma validate_cursor_false a e :
  validate_cursor a e = Ok false ↔
  event_session_id e = session_id (session a) ∧
  event_num e = (event_num (last_event a) + 1)%N.
Proof.
  split.
  - intros Hc. pose proof (validate_cursor_spec a e) as Hs. by rewrite Hc in Hs.
  - intros [Hid Hnum]. unfold validate_cursor, last_sequence, event_num in *.
    rewrite Hid. rewrite bool_decide_eq_true_2 by done. simpl.
    destruct (N.ltb_spec (counter_num (event_sequence e))
      (counter_num (event_sequence (last_event a)))); [lia|].
    rewrite bool_decide_eq_false_2 by (intros Heq; rewrite Heq in Hnum; lia).
    apply checked_next_Some in Hnum. rewrite Hnum. simpl.
    by rewrite bool_decide_eq_true_2.
Qed.

Lemma validate_cursor_true a e :
  validate_cursor a e = Ok true ↔
  e = last_event a ∧ event_session_id e = session_id (session a).
Proof.
  split.
  - intros Hc. pose proof (validate_cursor_spec a e) as Hs. by rewrite Hc in Hs.
  - intros [-> Hid]. unfold validate_cursor, last_sequence.
    rewrite Hid, bool_decide_eq_true_2, N.ltb_irrefl by done. simpl.
    by rewrite !bool_decide_eq_true_2.
Qed.
End basic.

(** ** Reachable aggregates and their history *)

Section history.
Context `{Externals}.
Implicit Types (a : SessionAggregate) (e : AgentEvent) (h : list AgentEvent).

(** [history cfg h a]: the aggregate [a] was built by applying exactly the
    events [h], in order, none of them a retry. *)
Inductive history (cfg : SessionAggregateConfig) : list AgentEvent → SessionAggregate → Prop :=
| history_init e a :
    event_wf e → from_initial_event_with_config e cfg = Ok a → history cfg [e] a
| history_step h a e a' :
    history cfg h a → event_wf e → apply e a = (a', Ok Applied) → history cfg (h ++ [e]) a'.

Lemma from_initial_Ok e cfg a :
  from_initial_event_with_config e cfg = Ok a →
  event_num e = 1%N ∧ ∃ s, event_payload e = SessionStarted s ∧
    a = MkAggregate cfg s None None ∅ ∅ None e
          (if retain_all_events cfg || (0 <? recent_event_capacity cfg)%N then [e] else []).
Proof.
  unfold from_initial_event_with_config. case_bool_decide as Hseq; simpl; [|done].
  intros Ha. split; [unfold event_num; by rewrite Hseq|].
  destruct (event_payload e); simplify_eq; eauto.
Qed.

(** The events of a list carry consecutive sequence numbers from [start + 1]. *)
Definition numbered (start : nat) (l : list AgentEvent) : Prop :=
  ∀ i e, l !! i = Some e → event_num e = N.of_nat (start + i + 1).

(** The retained part of a history. *)
Definition window (cfg : SessionAggregateConfig) h : list AgentEvent :=
  if retain_all_events cfg then h
  else drop (length h - N.to_nat (recent_event_capacity cfg)) h.

Lemma numbered_snoc start l e :
  numbered start l → event_num e = N.of_nat (start + length l + 1) → numbered start (l ++ [e]).
Proof.
  intros Hl He i e' [Hi|[Hi Hn]]%lookup_app_Some; [by apply Hl|].
  apply list_lookup_singleton_Some in Hn as [? ->].
  rewrite He. f_equal. lia.
Qed.

Lemma history_nonempty cfg h a : history cfg h a → h ≠ [].
Proof. destruct 1; [done|]. by destruct h. Qed.

(** Sequence numbers count the events, and the last event is the cursor. *)
Lemma history_cursor cfg h a :
  history cfg h a →
  numbered 0 h ∧ last h = Some (last_event a) ∧
  event_num (last_event a) = N.of_nat (length h) ∧ config a = cfg.
Proof.
  induction 1 as [e a Hwf Hinit|h a e a' Hh (Hnum & Hlast & Hlen & Hcfg) Hwf Happ].
  - apply from_initial_Ok in Hinit as (Hnum & s & _ & ->). simpl. split_and!; try done.
    intros i e' Hi. by apply list_lookup_singleton_Some in Hi as [-> ->].
  - apply apply_Applied in Happ as (Hc & a1 & Hp & ->).
    apply validate_cursor_false in Hc as [_ Hnum'].
    apply apply_payload_frame in Hp as (Hcfg1 & _). simpl. split_and!.
    + apply numbered_snoc; [done|]. rewrite Hnum', Hlen. lia.
    + by rewrite last_snoc.
    + rewrite Hnum', Hlen, length_app. simpl. lia.
    + congruence.
Qed.

Lemma record_window_window cfg h e :
  record_window cfg (window cfg h) e = window cfg (h ++ [e]).
Proof.
  unfold record_window, window. destruct (retain_all_events cfg); [done|].
  rewrite length_app. simpl.
  destruct (N.eqb_spec (recent_event_capacity cfg) 0) as [->|Hcap].
  - rewrite !drop_ge; [done|rewrite length_app; simpl; lia|lia].
  - rewrite trim_front_drop, length_app, length_drop. simpl.
    set (c := N.to_nat (recent_event_capacity cfg)). assert (0 < c) by lia.
    rewrite <-(drop_app_le h [e] (length h - c)) by lia.
    rewrite drop_drop. f_equal. lia.
Qed.

(** The retained window is a suffix of the history. *)
Lemma history_window cfg h a : history cfg h a → recent_events a = window cfg h.
Proof.
  induction 1 as [e a Hwf Hinit|h a e a' Hh IH Hwf Happ].
  - apply from_initial_Ok in Hinit as (_ & s & _ & ->). simpl. unfold window. simpl.
    destruct (retain_all_events cfg); [done|].
    destruct (N.ltb_spec 0 (recent_event_capacity cfg)) as [Hcap|Hcap]; simpl.
    + by replace (1 - N.to_nat (recent_event_capacity cfg)) with 0 by lia.
    + by replace (1 - N.to_nat (recent_event_capacity cfg)) with 1 by lia.
  - apply apply_Applied in Happ as (_ & a1 & _ & ->). simpl.
    apply history_cursor in Hh as (_ & _ & _ & ->). rewrite IH. apply record_window_window.
Qed.

(** Replaying the history rebuilds the aggregate. *)
Lemma apply_all_app l1 l2 a :
  apply_all (l1 ++ l2) a = (a' ← apply_all l1 a; apply_all l2 a').
Proof.
  revert a. induction l1 as [|e l1 IH]; intros a; simpl; [done|].
  destruct (apply e a) as [a' [o|err]]; [apply IH|done].
Qed.

Lemma history_replay cfg h a : history cfg h a → replay_with_config h cfg = Ok a.
Proof.
  induction 1 as [e a Hwf Hinit|h a e a' Hh IH Hwf Happ].
  - simpl. by rewrite Hinit.
  - destruct h as [|e0 h]; [by apply history_nonempty in Hh|]. simpl in *.
    destruct (from_initial_event_with_config e0 cfg) as [a0|]; [|done]. simpl in *.
    rewrite apply_all_app, IH. simpl. by rewrite Happ.
Qed.

(** Any successful replay is the history of its distinct events. *)
Lemma replay_history cfg events a :
  Forall event_wf events → replay_with_config events cfg = Ok a →
  ∃ h, history cfg h a ∧ h `sublist_of` events.
Proof.
  intros Hwf. destruct events as [|e0 events]; [done|]. simpl.
  apply Forall_cons in Hwf as [Hwf0 Hwf].
  destruct (from_initial_event_with_config e0 cfg) as [a0|] eqn:E0; [simpl|done].
  assert (∀ es l a1, history cfg (l : list AgentEvent) a1 → Forall event_wf es →
    apply_all es a1 = Ok a → ∃ h, history cfg (l ++ h) a ∧ h `sublist_of` es) as Hgen.
  { induction es as [|e es IH]; intros l a1 Hl Hes Hall; simpl in Hall.
    - simplify_eq. exists []. by rewrite app_nil_r.
    - apply Forall_cons in Hes as [Hwfe Hes].
      destruct (apply e a1) as [a2 [[]|]] eqn:Ea; [| |done].
      + destruct (IH (l ++ [e]) a2) as (h & Hh & Hsub); [by econstructor|done|done|].
        exists (e :: h). rewrite <-app_assoc in Hh. split; [done|]. by constructor.
      + apply apply_inv in Ea as [?|[(_ & _ & ->)|[?|?]]]; [naive_solver| |naive_solver..].
        destruct (IH l a1) as (h & ? & ?); [done..|]. exists h. split; [done|]. by constructor. }
  intros Hall. destruct (Hgen events [e0] a0) as (h & Hh & Hsub); [|done|done|].
  - by constructor.
  - exists (e0 :: h). split; [done|]. by constructor.
Qed.
End history.

(** ** The state as a function of the history *)

Section refinement.
Context `{Externals}.
Implicit Types (a : SessionAggregate) (e : AgentEvent) (h : list AgentEvent).

Definition plan_of e : option PlanSnapshot :=
  match event_payload e with PlanUpdated p => Some p | _ => None end.
Definition progress_of e : option ProgressSnapshot :=
  match event_payload e with ProgressUpdated p => Some p | _ => None end.
Definition outcome_of e : option SessionOutcome :=
  match event_payload e with SessionEnded o => Some o | _ => None end.
Definition request_of e : option InteractionRequest :=
  match event_payload e with InteractionRequested r => Some r | _ => None end.
Definition tool_start_of e : option ActiveToolCall :=
  match event_payload e with
  | ToolActivityPayload (Tool_Started id name summary) =>
      Some (MkActiveToolCall id name summary (event_occurred_at e))
  | _ => None
  end.

(** The events that end an interaction or a tool call. *)
Definition ends_interaction (id : InteractionId) e : bool :=
  match event_payload e with
  | InteractionResponded r => bool_decide (response_request_id r = id)
  | InteractionClosedPayload c => bool_decide (closed_request_id c = id)
  | SessionEnded _ => true
  | _ => false
  end.
Definition ends_tool (id : ToolCallId) e : bool :=
  match event_payload e with
  | ToolActivityPayload (Tool_Finished call_id _ _) => bool_decide (call_id = id)
  | SessionEnded _ => true
  | _ => false
  end.

(** The value opened by an event of [h] and not ended by a later one. *)
Definition open_in {V} (opens : AgentEvent → option V) (ends : AgentEvent → bool) h (v : V) :
    Prop :=
  ∃ h1 e h2, h = h1 ++ e :: h2 ∧ opens e = Some v ∧ Forall (λ e', ends e' = false) h2.

Lemma open_in_snoc {V} (opens : AgentEvent → option V) ends h e v :
  open_in opens ends (h ++ [e]) v ↔
  (opens e = Some v) ∨ (open_in opens ends h v ∧ ends e = false).
Proof.
  split.
  - intros (h1 & e1 & h2 & Heq & Hop & Hends). destruct h2 as [|e2 h2 _] using rev_ind.
    + apply app_inj_tail in Heq as [_ ->]. by left.
    + rewrite app_comm_cons, app_assoc in Heq. apply app_inj_tail in Heq as [-> ->].
      apply Forall_app in Hends as [Hends He]. apply Forall_cons in He as [He _].
      right. split; [by exists h1, e1, h2|done].
  - intros [Hop|[(h1 & e1 & h2 & -> & Hop & Hends) He]].
    + exists h, e, []. split_and!; [done..|constructor].
    + exists h1, e1, (h2 ++ [e]). split; [by rewrite <-app_assoc|]. split; [done|].
      apply Forall_app. split; [done|]. by apply Forall_singleton.
Qed.

(** One successful payload application, in terms of the fields it replaces. *)
Lemma apply_payload_fields e a a' :
  apply_payload e a = (a', Ok ()) →
  plan a' = from_option Some (plan a) (plan_of e) ∧
  progress a' = from_option Some (progress a) (progress_of e) ∧
  latest_outcome a' = from_option Some (latest_outcome a) (outcome_of e) ∧
  (∀ p p', plan_of e = Some p → plan a = Some p' →
     (counter_num (plan_revision p') < counter_num (plan_revision p))%N) ∧
  (∀ p p', progress_of e = Some p → progress a = Some p' →
     (counter_num (progress_revision p') < counter_num (progress_revision p))%N).
Proof.
  unfold apply_payload, apply_tool_activity, plan_of, progress_of, outcome_of.
  destruct (event_payload e); intros Hp; unfold_act; repeat case_match; simplify_eq/=;
    try (split_and!; naive_solver);
    unfold validate_snapshot_revision in *; split_and!; try naive_solver.
  - intros p p' [= <-] Hp'. rewrite Hp' in *. simpl in *. case_match; [done|].
    by apply N.leb_gt.
  - intros p p' [= <-] Hp'. rewrite Hp' in *. simpl in *. case_match; [done|].
    by apply N.leb_gt.
Qed.

Lemma apply_payload_pending e a a' id r :
  apply_payload e a = (a', Ok ()) →
  pending_interactions a' !! id = Some r ↔
  (request_of e = Some r ∧ request_id r = id) ∨
  (pending_interactions a !! id = Some r ∧ ends_interaction id e = false).
Proof.
  unfold apply_payload, apply_tool_activity, request_of, ends_interaction.
  destruct (event_payload e); intros Hp; unfold_act; repeat case_match; simplify_eq/=;
    try naive_solver.
  - repeat case_bool_decide; simplify_eq. rewrite lookup_insert_Some.
    split; [naive_solver|]. intros [[[= <-] <-]|[Hid _]]; [naive_solver|].
    right. split; [|done]. intros Heq. rewrite <-Heq in Hid. naive_solver.
  - rewrite lookup_delete_Some, bool_decide_eq_false. naive_solver.
  - rewrite lookup_delete_Some, bool_decide_eq_false. naive_solver.
Qed.

Lemma apply_payload_tools e a a' id t :
  apply_payload e a = (a', Ok ()) →
  active_tool_calls a' !! id = Some t ↔
  (tool_start_of e = Some t ∧ tool_id t = id) ∨
  (active_tool_calls a !! id = Some t ∧ ends_tool id e = false).
Proof.
  unfold apply_payload, apply_tool_activity, tool_start_of, ends_tool.
  destruct (event_payload e); intros Hp; unfold_act; repeat case_match; simplify_eq/=;
    try naive_solver.
  - repeat case_bool_decide; simplify_eq. rewrite lookup_insert_Some.
    split; [naive_solver|]. intros [[[= <-] <-]|[Hid _]]; [naive_solver|].
    right. split; [|done]. intros Heq. rewrite <-Heq in Hid. naive_solver.
  - rewrite lookup_delete_Some, bool_decide_eq_false. naive_solver.
Qed.

(** Each "latest value" field holds the last such value of the history. *)
Lemma history_latest cfg h a :
  history cfg h a →
  plan a = last (omap plan_of h) ∧ progress a = last (omap progress_of h) ∧
  latest_outcome a = last (omap outcome_of h).
Proof.
  induction 1 as [e a Hwf Hinit|h a e a' Hh (IHp & IHg & IHo) Hwf Happ].
  - apply from_initial_Ok in Hinit as (_ & s & Hs & ->). simpl.
    unfold plan_of, progress_of, outcome_of. by rewrite Hs.
  - apply apply_Applied in Happ as (_ & a1 & Hp & ->). simpl.
    apply apply_payload_fields in Hp as (-> & -> & -> & _).
    rewrite !omap_app, IHp, IHg, IHo. simpl.
    by destruct (plan_of e), (progress_of e), (outcome_of e); simpl;
      rewrite ?app_nil_r, ?last_snoc.
Qed.

(** An interaction is pending exactly when it was requested and neither
    answered, closed nor swept away by the end of a run since. *)
Lemma history_pending cfg h a id r :
  history cfg h a →
  pending_interactions a !! id = Some r ↔
  open_in (λ e, match request_of e with
                | Some r' => if bool_decide (request_id r' = id) then Some r' else None
                | None => None end) (ends_interaction id) h r.
Proof.
  induction 1 as [e a Hwf Hinit|h a e a' Hh IH Hwf Happ].
  - apply from_initial_Ok in Hinit as (_ & s & Hs & ->). simpl. rewrite lookup_empty.
    split; [done|]. intros (h1 & e1 & h2 & Heq & Hop & _).
    symmetry in Heq. apply app_singleton in Heq as [[-> [= -> ->]]|[_ ?]]; [|done].
    unfold request_of in Hop. by rewrite Hs in Hop.
  - apply apply_Applied in Happ as (_ & a1 & Hp & ->). simpl.
    rewrite (apply_payload_pending _ _ _ _ _ Hp), open_in_snoc, IH.
    destruct (request_of e) as [r'|]; [|naive_solver]. case_bool_decide; naive_solver.
Qed.

Lemma history_tools cfg h a id t :
  history cfg h a →
  active_tool_calls a !! id = Some t ↔
  open_in (λ e, match tool_start_of e with
                | Some t' => if bool_decide (tool_id t' = id) then Some t' else None
                | None => None end) (ends_tool id) h t.
Proof.
  induction 1 as [e a Hwf Hinit|h a e a' Hh IH Hwf Happ].
  - apply from_initial_Ok in Hinit as (_ & s & Hs & ->). simpl. rewrite lookup_empty.
    split; [done|]. intros (h1 & e1 & h2 & Heq & Hop & _).
    symmetry in Heq. apply app_singleton in Heq as [[-> [= -> ->]]|[_ ?]]; [|done].
    unfold tool_start_of in Hop. by rewrite Hs in Hop.
  - apply apply_Applied in Happ as (_ & a1 & Hp & ->). simpl.
    rewrite (apply_payload_tools _ _ _ _ _ Hp), open_in_snoc, IH.
    destruct (tool_start_of e) as [t'|]; [|naive_solver]. case_bool_decide; naive_solver.
Qed.
End refinement.

(** ** The invariant and the session snapshot *)

Section invariant.
Context `{Externals}.
Implicit Types (a : SessionAggregate) (e : AgentEvent) (h : list AgentEvent).

Definition aggregate_inv a : Prop :=
  session_wf (session a) ∧
  event_session_id (last_event a) = session_id (session a) ∧
  (∀ id r, pending_interactions a !! id = Some r →
     request_id r = id ∧ request_session_id r = session_id (session a) ∧ request_wf r) ∧
  (∀ id t, active_tool_calls a !! id = Some t → tool_id t = id) ∧
  (∀ p, plan a = Some p → plan_wf p) ∧
  (retain_all_events (config a) = false →
     (N.of_nat (length (recent_events a)) ≤ recent_event_capacity (config a))%N).

Lemma from_initial_inv e cfg a :
  event_wf e → from_initial_event_with_config e cfg = Ok a → aggregate_inv a.
Proof.
  intros [Hwf Hid] (_ & s & Hs & ->)%from_initial_Ok. rewrite Hs in *. simpl in *.
  split_and!; simpl; try (by intros ?? ?%lookup_empty_Some || done).
  - by rewrite (Hid _ eq_refl).
  - intros Hr. rewrite Hr. simpl. destruct (N.ltb_spec 0 (recent_event_capacity cfg)); simpl; lia.
Qed.

Lemma record_window_length cfg l e :
  retain_all_events cfg = false →
  (N.of_nat (length l) ≤ recent_event_capacity cfg)%N →
  (N.of_nat (length (record_window cfg l e)) ≤ recent_event_capacity cfg)%N.
Proof.
  intros Hr Hl. unfold record_window. rewrite Hr.
  destruct (N.eqb_spec (recent_event_capacity cfg) 0); [done|].
  rewrite trim_front_drop, length_drop, length_app. simpl. lia.
Qed.

Lemma apply_payload_session_wf e a a' :
  session_wf (session a) → apply_payload e a = (a', Ok ()) → session_wf (session a').
Proof.
  intros Hs. unfold apply_payload, apply_tool_activity.
  destruct (event_payload e); intros; unfold_act; repeat case_match; simplify_eq/=;
    auto with agentpulse.
Qed.

Lemma apply_inv_preserved e a a' :
  aggregate_inv a → event_wf e → apply e a = (a', Ok Applied) → aggregate_inv a'.
Proof.
  intros (Hs & Hlast & Hpend & Htool & Hplan & Hcap) [Hwf Hemb] Happ.
  apply apply_Applied in Happ as (Hc & a1 & Hp & ->).
  apply validate_cursor_false in Hc as [Hid _].
  pose proof (apply_payload_frame _ _ _ _ Hp) as (Hcfg & _ & _ & Hsid & _).
  pose proof (apply_payload_fields _ _ _ Hp) as (Hplan' & _).
  split_and!; simpl.
  - by eapply apply_payload_session_wf.
  - congruence.
  - intros id r Hr. rewrite Hsid.
    apply (apply_payload_pending _ _ _ _ _ Hp) in Hr as [[Hreq <-]|[Hr _]]; [|by apply Hpend].
    unfold request_of in Hreq. destruct (event_payload e) eqn:Ee; simplify_eq.
    split_and!; [done| |by apply Hwf]. rewrite <-Hid. by apply Hemb.
  - intros id t Ht. apply (apply_payload_tools _ _ _ _ _ Hp) in Ht as [[_ ?]|[Ht _]]; [done|].
    by apply Htool.
  - intros p Hp'. rewrite Hplan' in Hp'. unfold plan_of in Hp'.
    destruct (event_payload e) eqn:Ee; simplify_eq/=; by auto.
  - intros Hr. rewrite Hcfg in *. by apply record_window_length; auto.
Qed.

Lemma history_inv cfg h a : history cfg h a → aggregate_inv a.
Proof.
  induction 1 as [e a Hwf Hinit|h a e a' Hh IH Hwf Happ].
  - by eapply from_initial_inv.
  - by eapply apply_inv_preserved.
Qed.

(** *** The session snapshot as a function of the history *)

Definition state_of e : option AgentState :=
  match event_payload e with
  | StateChanged s => Some s
  | SessionEnded o => Some (outcome_agent_state o)
  | _ => None
  end.
Definition connection_of e : option ConnectionState :=
  match event_payload e with ConnectionChanged c => Some c | _ => None end.

(** The events that advance the session revision. *)
Definition advances_session e : bool :=
  match event_payload e with
  | StateChanged _ | ConnectionChanged _ | SessionEnded _ => true | _ => false end.

Lemma apply_payload_session e a a' :
  apply_payload e a = (a', Ok ()) →
  session_state (session a') = default (session_state (session a)) (state_of e) ∧
  session_connection_state (session a') =
    default (session_connection_state (session a)) (connection_of e) ∧
  counter_num (session_revision (session a')) =
    (counter_num (session_revision (session a)) + if advances_session e then 1 else 0)%N ∧
  session_created_at (session a') = session_created_at (session a) ∧
  raw (session_updated_at (session a')) =
    (if advances_session e
     then Z.max (raw (session_updated_at (session a))) (raw (event_occurred_at e))
     else raw (session_updated_at (session a))).
Proof.
  unfold apply_payload, apply_tool_activity, state_of, connection_of, advances_session.
  destruct (event_payload e); intros; unfold_act; unfold next_session_revision in *;
    repeat case_match; simplify_eq/=; split_and!; try done; try lia;
    try (by apply checked_next_Some; apply ok_or_Ok with SessionRevisionExhausted);
    unfold later; case_match; lia.
Qed.
End invariant.

Section snapshot_and_pages.
Context `{Externals}.
Implicit Types (a : SessionAggregate) (e : AgentEvent) (h : list AgentEvent).

Lemma default_last_snoc {A} (d : A) (f : AgentEvent → option A) h e :
  default d (last (omap f (h ++ [e]))) = default (default d (last (omap f h))) (f e).
Proof.
  rewrite omap_app. simpl. destruct (f e); simpl; by rewrite ?app_nil_r, ?last_snoc.
Qed.

Definition count_advances h : N := N.of_nat (length (List.filter advances_session h)).

Lemma count_advances_snoc h e :
  count_advances (h ++ [e]) = (count_advances h + if advances_session e then 1 else 0)%N.
Proof.
  unfold count_advances. rewrite List.filter_app, length_app. simpl.
  destruct (advances_session e); simpl; lia.
Qed.

(** State and connectivity are the latest ones observed, and the revision
    counts the observations since the initial snapshot. *)
Lemma history_session cfg h a s e0 h' :
  history cfg h a → h = e0 :: h' → event_payload e0 = SessionStarted s →
  session_id (session a) = session_id s ∧
  session_provider_id (session a) = session_provider_id s ∧
  session_state (session a) = default (session_state s) (last (omap state_of h)) ∧
  session_connection_state (session a) =
    default (session_connection_state s) (last (omap connection_of h)) ∧
  counter_num (session_revision (session a)) =
    (counter_num (session_revision s) + count_advances h)%N.
Proof.
  intros Hh. revert h'. induction Hh as [e a Hwf Hinit|h a e a' Hh IH Hwf Happ]; intros h' Heq Hs.
  - simplify_eq. apply from_initial_Ok in Hinit as (_ & s' & Hs' & ->). simplify_eq/=.
    unfold state_of, connection_of, count_advances, advances_session. simpl.
    rewrite Hs in Hs'. simplify_eq. rewrite Hs. simpl. split_and!; try done. lia.
  - destruct h as [|e1 h]; [by apply history_nonempty in Hh|].
    simpl in Heq. injection Heq as -> _.
    destruct (IH h eq_refl Hs) as (IH1 & IH2 & IH3 & IH4 & IH5).
    apply apply_Applied in Happ as (_ & a1 & Hp & ->). cbn [session set_recent set_last_event].
    pose proof (apply_payload_frame _ _ _ _ Hp) as (_ & _ & _ & -> & ->).
    apply apply_payload_session in Hp as (-> & -> & -> & _).
    rewrite !default_last_snoc, count_advances_snoc.
    rewrite IH3, IH4, IH5. split_and!; try done. lia.
Qed.

(** *** Pages of retained events *)

Lemma numbered_cons start e l :
  numbered start (e :: l) → event_num e = N.of_nat (start + 1) ∧ numbered (S start) l.
Proof.
  intros Hl. split.
  - rewrite (Hl 0 e eq_refl). f_equal. lia.
  - intros i e' Hi. rewrite (Hl (S i) e' Hi). f_equal. lia.
Qed.

Lemma numbered_drop start k l : numbered start l → numbered (start + k) (drop k l).
Proof.
  intros Hl i e Hi. rewrite lookup_drop in Hi. rewrite (Hl _ _ Hi). f_equal. lia.
Qed.

Lemma filter_numbered start (n : N) l :
  numbered start l →
  List.filter (λ e, n <? event_num e)%N l = drop (N.to_nat n - start) l.
Proof.
  revert start. induction l as [|e l IH]; intros start Hl; [by rewrite drop_nil|].
  apply numbered_cons in Hl as [He Hl]. cbn [List.filter].
  destruct (N.ltb_spec n (event_num e)) as [Hlt|Hge]; rewrite (IH _ Hl).
  - replace (N.to_nat n - start) with 0 by lia. replace (N.to_nat n - S start) with 0 by lia.
    done.
  - by replace (N.to_nat n - start) with (S (N.to_nat n - S start)) by lia.
Qed.

(** The first sequence number the window no longer needs: everything after
    this cursor is retained. *)
Definition retained_from cfg h : nat :=
  if retain_all_events cfg then 0 else length h - N.to_nat (recent_event_capacity cfg).

Lemma window_drop cfg h : window cfg h = drop (retained_from cfg h) h.
Proof. unfold window, retained_from. by destruct (retain_all_events cfg). Qed.

Lemma retained_page cfg h a (n : u64) max :
  history cfg h a →
  retained_event_page_after a n max =
    if decide (length h < N.to_nat (raw n)) then None
    else if decide (N.to_nat (raw n) = length h) then Some []
    else if decide (retained_from cfg h ≤ N.to_nat (raw n))
    then Some (take (N.to_nat max) (drop (N.to_nat (raw n)) h))
    else None.
Proof.
  intros Hh. pose proof (history_cursor _ _ _ Hh) as (Hnum & _ & Hlen & _).
  pose proof (history_window _ _ _ Hh) as Hwin. rewrite window_drop in Hwin.
  unfold retained_event_page_after, last_sequence. unfold event_num in Hlen. rewrite Hlen.
  destruct (N.ltb_spec (N.of_nat (length h)) (raw n)) as [Hn|Hn];
    destruct (decide (length h < N.to_nat (raw n))); try lia; [done|].
  destruct (N.eqb_spec (raw n) (N.of_nat (length h))) as [Hn'|Hn'];
    destruct (decide (N.to_nat (raw n) = length h)); try lia; [done|].
  assert (∃ expected, u64_checked_add n 1 = Some expected ∧ raw expected = (raw n + 1)%N)
    as (expected & -> & Hexp).
  { unfold u64_checked_add. destruct (of_raw (raw n + 1)%N) as [x|] eqn:E.
    - apply of_raw_Some in E. eauto.
    - apply of_raw_None, N.leb_gt in E.
      pose proof (counter_bound (event_sequence (last_event a))). lia. }
  cbn [mbind option_bind]. rewrite Hwin, Hexp.
  destruct (drop (retained_from cfg h) h) as [|e l] eqn:Ed.
  - assert (length h ≤ retained_from cfg h).
    { pose proof (length_drop h (retained_from cfg h)) as Hl. rewrite Ed in Hl. simpl in Hl. lia. }
    by destruct (decide _); [lia|].
  - pose proof (numbered_drop 0 (retained_from cfg h) h Hnum) as Hnd. rewrite Ed in Hnd.
    pose proof (numbered_cons _ _ _ Hnd) as [He _].
    destruct (N.ltb_spec (raw n + 1) (event_num e)) as [Hc|Hc]; destruct (decide _); try lia; [done|].
    f_equal. rewrite ntake_take, (filter_numbered _ _ _ Hnd), <-Ed, drop_drop.
    do 2 f_equal. lia.
Qed.
End snapshot_and_pages.
