(* ===== verification/Routing.v ===== *)
(** * Capability routing

    Models [agentpulse-core/src/routing.rs]: the stateless policy that decides
    which events a Provider may publish, which interactions a Channel may
    answer, and which responses and commands may reach a Provider. *)

From stdpp Require Import base strings numbers gmap list.
From S2P Require Import Prelude Values Snapshots Capability Interaction Event.

Inductive InteractionRoute : Type := ReadOnly | Interactive.
Inductive ChannelEventRoute : Type := ObserveOnly | InteractionRouted (route : InteractionRoute).

#[export] Instance InteractionRoute_eq_dec : EqDecision InteractionRoute.
Proof. solve_decision. Defined.
#[export] Instance ChannelEventRoute_eq_dec : EqDecision ChannelEventRoute.
Proof. solve_decision. Defined.

Section routing.
Context `{Externals}.

Inductive CapabilityRouteError : Type :=
| ProviderMismatch (expected actual : ProviderId)
| ChannelMismatch (expected actual : ChannelId)
| RouteSessionMismatch (expected actual : SessionId)
| MissingProviderCapabilities (required declared : ProviderCapabilities)
| MissingChannelCapabilities (required declared : ChannelCapabilities)
| RouteInvalidInteractionResponse (source : DomainError).

#[global] Instance CapabilityRouteError_eq_dec : EqDecision CapabilityRouteError.
Proof. solve_decision. Defined.

Definition validate_provider_session (provider : ProviderDescriptor) (session : AgentSession) :
    result CapabilityRouteError unit :=
  if negb (bool_decide (provider_id provider = session_provider_id session)) then
    Err (ProviderMismatch (provider_id provider) (session_provider_id session))
  else Ok ().

Definition validate_session_id (expected actual : SessionId) :
    result CapabilityRouteError unit :=
  if negb (bool_decide (expected = actual)) then Err (RouteSessionMismatch expected actual)
  else Ok ().

Definition validate_channel_id (expected actual : ChannelId) :
    result CapabilityRouteError unit :=
  if negb (bool_decide (expected = actual)) then Err (ChannelMismatch expected actual)
  else Ok ().

Definition validate_provider_capabilities (provider : ProviderDescriptor)
    (required : ProviderCapabilities) : result CapabilityRouteError unit :=
  let declared := provider_capabilities provider in
  if negb (contains declared required) then Err (MissingProviderCapabilities required declared)
  else Ok ().

Definition validate_channel_capabilities (channel : ChannelDescriptor)
    (required : ChannelCapabilities) : result CapabilityRouteError unit :=
  let declared := channel_capabilities channel in
  if negb (contains declared required) then Err (MissingChannelCapabilities required declared)
  else Ok ().

Definition validate_provider_event (provider : ProviderDescriptor) (session : AgentSession)
    (event : AgentEvent) : result CapabilityRouteError unit :=
  _ ← validate_provider_session provider session;
  _ ← validate_session_id (session_id session) (event_session_id event);
  _ ← match event_payload event with
      | SessionStarted event_session => validate_provider_session provider event_session
      | _ => Ok ()
      end;
  validate_provider_capabilities provider (event_payload_capability (event_payload event)).

Definition interaction_route (provider : ProviderDescriptor) (channel : ChannelDescriptor)
    (session : AgentSession) (request : InteractionRequest) :
    result CapabilityRouteError InteractionRoute :=
  _ ← validate_provider_session provider session;
  _ ← validate_session_id (session_id session) (request_session_id request);
  _ ← validate_provider_capabilities provider
        (request_provider_request_capability (request_payload request));
  let provider_accepts_response :=
    contains (provider_capabilities provider)
      (request_provider_response_capability (request_payload request)) in
  let channel_collects_response :=
    contains (channel_capabilities channel)
      (request_channel_response_capability (request_payload request)) in
  if request_is_actionable (request_payload request) && provider_accepts_response
     && channel_collects_response
  then Ok Interactive else Ok ReadOnly.

Definition channel_event_route (provider : ProviderDescriptor) (channel : ChannelDescriptor)
    (session : AgentSession) (event : AgentEvent) :
    result CapabilityRouteError ChannelEventRoute :=
  _ ← validate_provider_event provider session event;
  match event_payload event with
  | InteractionRequested request =>
      InteractionRouted <$> interaction_route provider channel session request
  | _ => Ok ObserveOnly
  end.

Definition validate_interaction_response (provider : ProviderDescriptor)
    (channel : ChannelDescriptor) (session : AgentSession) (request : InteractionRequest)
    (response : InteractionResponse) : result CapabilityRouteError unit :=
  _ ← validate_provider_session provider session;
  _ ← validate_session_id (session_id session) (request_session_id request);
  _ ← validate_session_id (session_id session) (response_session_id response);
  _ ← validate_channel_id (channel_id channel) (response_channel_id response);
  _ ← map_err RouteInvalidInteractionResponse (validate_response request response);
  _ ← validate_provider_capabilities provider
        (request_provider_request_capability (request_payload request));
  _ ← validate_provider_capabilities provider
        (request_provider_response_capability (request_payload request));
  validate_channel_capabilities channel
    (request_channel_response_capability (request_payload request)).

Definition validate_command (provider : ProviderDescriptor) (channel : ChannelDescriptor)
    (session : AgentSession) (command : AgentCommand) : result CapabilityRouteError unit :=
  _ ← validate_provider_session provider session;
  _ ← validate_session_id (session_id session) (command_session_id command);
  _ ← validate_channel_id (channel_id channel) (command_channel_id command);
  _ ← validate_provider_capabilities provider
        (command_provider_capability (command_payload command));
  validate_channel_capabilities channel
    (command_channel_capabilities (command_payload command)).
End routing.

(** ** Characterizations *)

Section routing_facts.
Context `{Externals}.

Lemma validate_provider_session_Ok provider session :
  validate_provider_session provider session = Ok () ↔
  provider_id provider = session_provider_id session.
Proof. unfold validate_provider_session. case_bool_decide; naive_solver. Qed.

Lemma validate_session_id_Ok expected actual :
  validate_session_id expected actual = Ok () ↔ expected = actual.
Proof. unfold validate_session_id. case_bool_decide; naive_solver. Qed.

Lemma validate_channel_id_Ok expected actual :
  validate_channel_id expected actual = Ok () ↔ expected = actual.
Proof. unfold validate_channel_id. case_bool_decide; naive_solver. Qed.

Lemma validate_provider_capabilities_Ok provider required :
  validate_provider_capabilities provider required = Ok () ↔
  contains (provider_capabilities provider) required = true.
Proof. unfold validate_provider_capabilities. destruct (contains _ _); naive_solver. Qed.

Lemma validate_channel_capabilities_Ok channel required :
  validate_channel_capabilities channel required = Ok () ↔
  contains (channel_capabilities channel) required = true.
Proof. unfold validate_channel_capabilities. destruct (contains _ _); naive_solver. Qed.

(** Sequencing of unit validations is conjunction. *)
Lemma and_then_Ok {E A} (m : result E unit) (k : result E A) a :
  (_ ← m; k) = Ok a ↔ m = Ok () ∧ k = Ok a.
Proof. destruct m as [[]|]; naive_solver. Qed.

Lemma validate_provider_event_Ok provider session event :
  validate_provider_event provider session event = Ok () ↔
  provider_id provider = session_provider_id session ∧
  session_id session = event_session_id event ∧
  (∀ s, event_payload event = SessionStarted s →
     provider_id provider = session_provider_id s) ∧
  contains (provider_capabilities provider)
    (event_payload_capability (event_payload event)) = true.
Proof.
  unfold validate_provider_event. rewrite !and_then_Ok, validate_provider_session_Ok,
    validate_session_id_Ok, validate_provider_capabilities_Ok.
  destruct (event_payload event); rewrite ?validate_provider_session_Ok; naive_solver.
Qed.

Lemma interaction_route_Ok provider channel session request route :
  interaction_route provider channel session request = Ok route ↔
  provider_id provider = session_provider_id session ∧
  session_id session = request_session_id request ∧
  contains (provider_capabilities provider)
    (request_provider_request_capability (request_payload request)) = true ∧
  route = if request_is_actionable (request_payload request)
             && contains (provider_capabilities provider)
                  (request_provider_response_capability (request_payload request))
             && contains (channel_capabilities channel)
                  (request_channel_response_capability (request_payload request))
          then Interactive else ReadOnly.
Proof.
  unfold interaction_route. rewrite !and_then_Ok, validate_provider_session_Ok,
    validate_session_id_Ok, validate_provider_capabilities_Ok.
  destruct (_ && _); naive_solver.
Qed.

Lemma channel_event_route_Ok provider channel session event route :
  channel_event_route provider channel session event = Ok route →
  validate_provider_event provider session event = Ok ().
Proof. unfold channel_event_route. by intros [? ?]%and_then_Ok. Qed.

(** After the Provider event is validated, every subscriber has a route. *)
Lemma channel_event_route_total provider channel session event :
  event_wf event → validate_provider_event provider session event = Ok () →
  ∃ route, channel_event_route provider channel session event = Ok route.
Proof.
  intros [_ Hemb] Hv. unfold channel_event_route. rewrite Hv. simpl.
  apply validate_provider_event_Ok in Hv as (Hp & Hs & _ & Hcap).
  destruct (event_payload event) as [| | | | | | |request| | | |] eqn:Ep; eauto.
  simpl in Hcap.
  assert (∃ route, interaction_route provider channel session request = Ok route)
    as [route Hroute].
  { eexists. apply interaction_route_Ok. split_and!; [done| |done|reflexivity].
    rewrite Hs. symmetry. by apply Hemb. }
  rewrite Hroute. simpl. eauto.
Qed.

Lemma validate_interaction_response_Ok provider channel session request response :
  validate_interaction_response provider channel session request response = Ok () ↔
  provider_id provider = session_provider_id session ∧
  session_id session = request_session_id request ∧
  session_id session = response_session_id response ∧
  channel_id channel = response_channel_id response ∧
  validate_response request response = Ok () ∧
  contains (provider_capabilities provider)
    (request_provider_request_capability (request_payload request)) = true ∧
  contains (provider_capabilities provider)
    (request_provider_response_capability (request_payload request)) = true ∧
  contains (channel_capabilities channel)
    (request_channel_response_capability (request_payload request)) = true.
Proof.
  unfold validate_interaction_response.
  by rewrite !and_then_Ok, validate_provider_session_Ok, !validate_session_id_Ok,
    validate_channel_id_Ok, map_err_Ok, !validate_provider_capabilities_Ok,
    validate_channel_capabilities_Ok.
Qed.

Lemma validate_command_Ok provider channel session command :
  validate_command provider channel session command = Ok () ↔
  provider_id provider = session_provider_id session ∧
  session_id session = command_session_id command ∧
  channel_id channel = command_channel_id command ∧
  contains (provider_capabilities provider)
    (command_provider_capability (command_payload command)) = true ∧
  contains (channel_capabilities channel)
    (command_channel_capabilities (command_payload command)) = true.
Proof.
  unfold validate_command.
  by rewrite !and_then_Ok, validate_provider_session_Ok, validate_session_id_Ok,
    validate_channel_id_Ok, validate_provider_capabilities_Ok,
    validate_channel_capabilities_Ok.
Qed.

Lemma validate_response_payload request response :
  validate_response request response = Ok () →
  response_request_id response = request_id request ∧
  response_session_id response = request_session_id request ∧
  validate_payload (request_payload request) (response_payload response) = Ok ().
Proof.
  unfold validate_response. intros Hv. repeat (case_match; simplify_eq/=).
  all: repeat match goal with
    | E : negb (bool_decide _) = false |- _ => apply negb_false_iff, bool_decide_eq_true in E
    end; done.
Qed.
End routing_facts.
