(* ===== verification/Bridge.v ===== *)
(** * The Bridge

    Models [agentpulse-bridge/src/bridge.rs] with the ports of [port.rs] and
    the registry of [registry.rs]: registration, subscriptions, catch-up
    synchronization, event fan-out and the reverse path of responses and
    commands.

    Adapters are code outside the Bridge.  A port is an arbitrary function
    from the calls it has received so far and the new call to the adapter's
    answer, and the registry keeps the list of calls: the theorems hold for
    every adapter and speak about exactly what each adapter was handed. *)

From stdpp Require Import base strings numbers gmap list.
From S2P Require Import Prelude Values Snapshots Capability Interaction Event Aggregate Routing.

(** An adapter-defined error, by its rendered text. *)
Definition AdapterError : Type := rstring.

Inductive ChannelDeliveryKind : Type := Delivery_Event | Delivery_Session.
Inductive ProviderHandoffKind : Type := Handoff_InteractionResponse | Handoff_Command.
Inductive ProviderEventOutcome : Type := Event_Applied | Event_AlreadyApplied.
Inductive UnsubscribeOutcome : Type := Unsubscribed | NotSubscribed.

#[export] Instance AdapterError_eq_dec : EqDecision AdapterError.
Proof. unfold AdapterError. solve_decision. Defined.
#[export] Instance ChannelDeliveryKind_eq_dec : EqDecision ChannelDeliveryKind.
Proof. solve_decision. Defined.
#[export] Instance ProviderHandoffKind_eq_dec : EqDecision ProviderHandoffKind.
Proof. solve_decision. Defined.
#[export] Instance ProviderEventOutcome_eq_dec : EqDecision ProviderEventOutcome.
Proof. solve_decision. Defined.
#[export] Instance UnsubscribeOutcome_eq_dec : EqDecision UnsubscribeOutcome.
Proof. solve_decision. Defined.

Section ports.
Context `{Externals}.

(** ** Messages handed to adapters *)

Record RoutedAgentEvent : Type := MkRoutedAgentEvent {
  routed_event : AgentEvent;
  routed_event_route : ChannelEventRoute
}.

Record RoutedInteractionRequest : Type := MkRoutedInteractionRequest {
  routed_request : InteractionRequest;
  routed_request_route : InteractionRoute
}.

Record ChannelSessionBaseline : Type := MkBaseline {
  baseline_session : AgentSession;
  baseline_sequence : EventSequence;
  baseline_pending_interactions : list RoutedInteractionRequest
}.

Record ChannelSessionSync : Type := MkSessionSync {
  sync_after_sequence : u64;
  sync_through_sequence : u64;
  sync_reset : bool;
  sync_events : list RoutedAgentEvent;
  sync_baseline : option ChannelSessionBaseline
}.

Definition sync_is_final (s : ChannelSessionSync) : bool := bool_decide (is_Some (sync_baseline s)).

Inductive ProviderCall : Type :=
| AcceptInteractionResponse (response : InteractionResponse)
| AcceptCommand (command : AgentCommand).

Inductive ChannelCall : Type :=
| DeliverEvent (event : AgentEvent) (route : ChannelEventRoute)
| DeliverSession (session : AgentSession)
| DeliverSessionBaseline (baseline : ChannelSessionBaseline)
| DeliverSessionSync (sync : ChannelSessionSync).

#[global] Instance RoutedAgentEvent_eq_dec : EqDecision RoutedAgentEvent.
Proof. solve_decision. Defined.
#[global] Instance RoutedInteractionRequest_eq_dec : EqDecision RoutedInteractionRequest.
Proof. solve_decision. Defined.
#[global] Instance ChannelSessionBaseline_eq_dec : EqDecision ChannelSessionBaseline.
Proof. solve_decision. Defined.
#[global] Instance ChannelSessionSync_eq_dec : EqDecision ChannelSessionSync.
Proof. solve_decision. Defined.
#[global] Instance ProviderCall_eq_dec : EqDecision ProviderCall.
Proof. solve_decision. Defined.
#[global] Instance ChannelCall_eq_dec : EqDecision ChannelCall.
Proof. solve_decision. Defined.

(** ** Ports (port.rs) and registered endpoints (registry.rs) *)

Record ProviderPort : Type := MkProviderPort {
  provider_port_descriptor : ProviderDescriptor;
  provider_port_accept : list ProviderCall → ProviderCall → result AdapterError unit
}.

Record ChannelPort : Type := MkChannelPort {
  channel_port_descriptor : ChannelDescriptor;
  channel_port_accept : list ChannelCall → ChannelCall → result AdapterError unit
}.

Record RegisteredProvider : Type := MkRegisteredProvider {
  registered_provider_descriptor : ProviderDescriptor;
  registered_provider_port : ProviderPort;
  registered_provider_calls : list ProviderCall
}.

Record RegisteredChannel : Type := MkRegisteredChannel {
  registered_channel_descriptor : ChannelDescriptor;
  registered_channel_port : ChannelPort;
  registered_channel_calls : list ChannelCall
}.

(** [self.port.accept_*(..)] and [self.port.deliver_*(..)]. *)
Definition provider_handoff (p : RegisteredProvider) (call : ProviderCall) :
    RegisteredProvider * result AdapterError unit :=
  (MkRegisteredProvider (registered_provider_descriptor p) (registered_provider_port p)
     (registered_provider_calls p ++ [call]),
   provider_port_accept (registered_provider_port p) (registered_provider_calls p) call).

Definition channel_handoff (c : RegisteredChannel) (call : ChannelCall) :
    RegisteredChannel * result AdapterError unit :=
  (MkRegisteredChannel (registered_channel_descriptor c) (registered_channel_port c)
     (registered_channel_calls c ++ [call]),
   channel_port_accept (registered_channel_port c) (registered_channel_calls c) call).

(** The default bodies of [ChannelPort::deliver_session_baseline] and
    [ChannelPort::deliver_session_sync]: the calls an adapter that does not
    override them receives instead. *)
Definition default_deliver_session_baseline (c : RegisteredChannel)
    (baseline : ChannelSessionBaseline) : RegisteredChannel * result AdapterError unit :=
  channel_handoff c (DeliverSession (baseline_session baseline)).

Fixpoint default_deliver_events (c : RegisteredChannel) (events : list RoutedAgentEvent) :
    RegisteredChannel * result AdapterError unit :=
  match events with
  | [] => (c, Ok ())
  | routed :: events' =>
      match channel_handoff c (DeliverEvent (routed_event routed) (routed_event_route routed)) with
      | (c', Ok _) => default_deliver_events c' events'
      | (c', Err e) => (c', Err e)
      end
  end.

Definition default_deliver_session_sync (c : RegisteredChannel) (sync : ChannelSessionSync) :
    RegisteredChannel * result AdapterError unit :=
  match default_deliver_events c (sync_events sync) with
  | (c', Ok _) =>
      match sync_baseline sync with
      | Some baseline => default_deliver_session_baseline c' baseline
      | None => (c', Ok ())
      end
  | (c', Err e) => (c', Err e)
  end.

(** ** Results and errors *)

Record ChannelDeliveryError : Type := MkChannelDeliveryError {
  delivery_error_channel : ChannelId;
  delivery_error_kind : ChannelDeliveryKind;
  delivery_error_source : AdapterError
}.

Inductive ChannelDeliveryResult : Type :=
| Delivered (channel_id : ChannelId)
| Failed (error : ChannelDeliveryError).

Definition delivery_channel_id (r : ChannelDeliveryResult) : ChannelId :=
  match r with Delivered c => c | Failed e => delivery_error_channel e end.
Definition is_delivered (r : ChannelDeliveryResult) : bool :=
  match r with Delivered _ => true | Failed _ => false end.

Record ProviderEventReport : Type := MkReport {
  report_outcome : ProviderEventOutcome;
  report_deliveries : list ChannelDeliveryResult
}.

Definition has_failures (r : ProviderEventReport) : bool :=
  existsb (λ d, negb (is_delivered d)) (report_deliveries r).

Inductive EndpointRegistrationError : Type :=
| ProviderAlreadyRegistered (provider_id : ProviderId)
| ChannelAlreadyRegistered (channel_id : ChannelId).

Inductive SubscribeOutcome : Type :=
| Subscribed (session_view_delivered : bool) (baseline_sequence : EventSequence)
    (pending_interaction_count : nat)
| AlreadySubscribed (current_sequence : EventSequence).

Record SessionSyncOutcome : Type := MkSyncOutcome {
  outcome_through_sequence : u64;
  outcome_event_count : nat;
  outcome_reset : bool;
  outcome_subscribed : bool;
  outcome_pending_interaction_count : nat
}.

Inductive SubscriptionError : Type :=
| Sub_ChannelNotFound (channel_id : ChannelId)
| Sub_SessionNotFound (session_id : SessionId)
| InitialSessionHandoff (error : ChannelDeliveryError)
| BaselineRoute (error : CapabilityRouteError)
| InvalidPageSize.

Inductive ProviderEventError : Type :=
| Event_ProviderNotFound (provider_id : ProviderId)
| Event_ChannelNotFound (channel_id : ChannelId)
| SessionNotStarted (session_id : SessionId)
| Event_CapabilityRoute (error : CapabilityRouteError)
| Event_Reduce (error : ReduceError)
| ChannelHandoffs (report : ProviderEventReport).

Inductive ChannelActionError : Type :=
| Action_ChannelNotFound (channel_id : ChannelId)
| Action_SessionNotFound (session_id : SessionId)
| ChannelNotSubscribed (channel_id : ChannelId) (session_id : SessionId)
| Action_ProviderNotFound (provider_id : ProviderId)
| Action_InteractionNotPending (session_id : SessionId) (interaction_id : InteractionId)
| Action_CapabilityRoute (error : CapabilityRouteError)
| ProviderHandoff (provider_id : ProviderId) (handoff : ProviderHandoffKind)
    (source : AdapterError).

Record DiscoveredSession : Type := MkDiscovered {
  discovered_session : AgentSession;
  discovered_last_sequence : EventSequence
}.

Record ChannelDiscoverySnapshot : Type := MkDiscovery {
  discovery_providers : list ProviderDescriptor;
  discovery_sessions : list DiscoveredSession
}.
End ports.

(** ** The Bridge state and its operations (bridge.rs) *)

Section bridge.
Context `{Externals}.

Record Bridge : Type := MkBridge {
  providers : gmap ProviderId RegisteredProvider;
  channels : gmap ChannelId RegisteredChannel;
  session_config : SessionAggregateConfig;
  sessions : gmap SessionId SessionAggregate;
  subscriptions : gmap SessionId (gset ChannelId)
}.

Definition set_providers (p : gmap ProviderId RegisteredProvider) (b : Bridge) : Bridge :=
  MkBridge p (channels b) (session_config b) (sessions b) (subscriptions b).
Definition set_channels (c : gmap ChannelId RegisteredChannel) (b : Bridge) : Bridge :=
  MkBridge (providers b) c (session_config b) (sessions b) (subscriptions b).
Definition set_sessions (s : gmap SessionId SessionAggregate) (b : Bridge) : Bridge :=
  MkBridge (providers b) (channels b) (session_config b) s (subscriptions b).
Definition set_subscriptions (s : gmap SessionId (gset ChannelId)) (b : Bridge) : Bridge :=
  MkBridge (providers b) (channels b) (session_config b) (sessions b) s.

Definition Bridge_with_session_config (cfg : SessionAggregateConfig) : Bridge :=
  MkBridge ∅ ∅ cfg ∅ ∅.
Definition Bridge_new : Bridge := Bridge_with_session_config SessionAggregateConfig_default.

(** *** Registration *)

Definition register_provider (port : ProviderPort) :
    act Bridge EndpointRegistrationError unit :=
  let descriptor := provider_port_descriptor port in
  let pid := provider_id descriptor in
  existing ← gets providers;
  if bool_decide (is_Some (existing !! pid)) then throw (ProviderAlreadyRegistered pid)
  else modify (λ b, set_providers (<[pid := MkRegisteredProvider descriptor port []]>
                                     (providers b)) b).

Definition register_channel (port : ChannelPort) :
    act Bridge EndpointRegistrationError unit :=
  let descriptor := channel_port_descriptor port in
  let cid := channel_id descriptor in
  existing ← gets channels;
  if bool_decide (is_Some (existing !! cid)) then throw (ChannelAlreadyRegistered cid)
  else modify (λ b, set_channels (<[cid := MkRegisteredChannel descriptor port []]>
                                    (channels b)) b).

(** *** Queries *)

Definition bridge_provider_descriptor (b : Bridge) (pid : ProviderId) :
    option ProviderDescriptor := registered_provider_descriptor <$> providers b !! pid.
Definition bridge_channel_descriptor (b : Bridge) (cid : ChannelId) :
    option ChannelDescriptor := registered_channel_descriptor <$> channels b !! cid.

Definition discovery_snapshot (b : Bridge) : ChannelDiscoverySnapshot :=
  MkDiscovery (registered_provider_descriptor <$> btree_values (providers b))
    ((λ a, MkDiscovered (session a) (last_sequence a)) <$> btree_values (sessions b)).

Definition is_subscribed (b : Bridge) (cid : ChannelId) (sid : SessionId) : bool :=
  match subscriptions b !! sid with
  | Some subscribers => bool_decide (cid ∈ subscribers)
  | None => false
  end.

Definition session_subscribers (b : Bridge) (sid : SessionId) : list ChannelId :=
  match subscriptions b !! sid with
  | Some subscribers => btree_elements subscribers
  | None => []
  end.

(** [self.subscriptions.entry(session_id).or_default().insert(channel_id)] *)
Definition add_subscription (sid : SessionId) (cid : ChannelId) (b : Bridge) : Bridge :=
  set_subscriptions
    (<[sid := {[cid]} ∪ default ∅ (subscriptions b !! sid)]> (subscriptions b)) b.

(** The pending interactions of a baseline, each with its route. *)
Definition route_pending (provider : ProviderDescriptor) (channel : ChannelDescriptor)
    (s : AgentSession) (a : SessionAggregate) :
    result SubscriptionError (list RoutedInteractionRequest) :=
  try_collect (λ request,
      map_err BaselineRoute
        (MkRoutedInteractionRequest request <$> interaction_route provider channel s request))
    (btree_values (pending_interactions a)).

(** *** Catch-up synchronization *)

Definition history_unavailable (cid : ChannelId) : SubscriptionError :=
  InitialSessionHandoff (MkChannelDeliveryError cid Delivery_Event
    (lit "complete in-memory Session history is unavailable")).

Definition u64_zero : u64 := Refine 0%N I.

(** The page and whether the client has to start over. *)
Definition select_page (a : SessionAggregate) (cid : ChannelId) (requested_after : u64)
    (max_events : N) : result SubscriptionError (u64 * bool * list AgentEvent) :=
  match retained_event_page_after a requested_after max_events with
  | Some events => Ok (requested_after, false, events)
  | None =>
      events ← ok_or (history_unavailable cid) (retained_event_page_after a u64_zero max_events);
      Ok (u64_zero, true, events)
  end.

(** The part of [sync_session] that only reads: the page to deliver. *)
Definition prepare_sync (cid : ChannelId) (a : SessionAggregate)
    (channel : ChannelDescriptor) (provider : ProviderDescriptor) (requested_after : u64)
    (max_events : N) : result SubscriptionError ChannelSessionSync :=
  '(after_sequence, reset, page_events) ← select_page a cid requested_after max_events;
  let through_sequence :=
    match last page_events with
    | Some event => counter_get (event_sequence event)
    | None => after_sequence
    end in
  let final_page := bool_decide (through_sequence = counter_get (last_sequence a)) in
  routed_events ← try_collect (λ event,
      map_err BaselineRoute
        (MkRoutedAgentEvent event <$> channel_event_route provider channel (session a) event))
    page_events;
  baseline ←
    (if final_page then
       pending ← route_pending provider channel (session a) a;
       Ok (Some (MkBaseline (session a) (last_sequence a) pending))
     else Ok None);
  Ok (MkSessionSync after_sequence through_sequence reset routed_events baseline).

Definition sync_session (cid : ChannelId) (sid : SessionId) (requested_after : u64)
    (max_events : N) : act Bridge SubscriptionError SessionSyncOutcome :=
  if (max_events =? 0)%N then throw InvalidPageSize
  else
    b ← gets id;
    channel ← lift (ok_or (Sub_ChannelNotFound cid) (channels b !! cid));
    a ← lift (ok_or (Sub_SessionNotFound sid) (sessions b !! sid));
    if is_subscribed b cid sid then
      mret (MkSyncOutcome (counter_get (last_sequence a)) 0 false true 0)
    else
      provider ← lift (ok_or (Sub_SessionNotFound sid)
                         (providers b !! session_provider_id (session a)));
      sync ← lift (prepare_sync cid a (registered_channel_descriptor channel)
                     (registered_provider_descriptor provider) requested_after max_events);
      let '(channel', handoff) := channel_handoff channel (DeliverSessionSync sync) in
      _ ← modify (λ b, set_channels (<[cid := channel']> (channels b)) b);
      _ ← lift (map_err (λ source, InitialSessionHandoff
                   (MkChannelDeliveryError cid Delivery_Session source)) handoff);
      _ ← (if sync_is_final sync then modify (add_subscription sid cid) else mret ());
      mret (MkSyncOutcome (sync_through_sequence sync) (length (sync_events sync))
              (sync_reset sync) (sync_is_final sync)
              match sync_baseline sync with
              | Some baseline => length (baseline_pending_interactions baseline)
              | None => 0
              end).

(** *** Subscriptions *)

Definition subscribe (cid : ChannelId) (sid : SessionId) :
    act Bridge SubscriptionError SubscribeOutcome :=
  b ← gets id;
  channel ← lift (ok_or (Sub_ChannelNotFound cid) (channels b !! cid));
  a ← lift (ok_or (Sub_SessionNotFound sid) (sessions b !! sid));
  if is_subscribed b cid sid then mret (AlreadySubscribed (last_sequence a))
  else
    provider ← lift (ok_or (Sub_SessionNotFound sid)
                       (providers b !! session_provider_id (session a)));
    pending ← lift (route_pending (registered_provider_descriptor provider)
                      (registered_channel_descriptor channel) (session a) a);
    let baseline := MkBaseline (session a) (last_sequence a) pending in
    let session_view_delivered :=
      contains (channel_capabilities (registered_channel_descriptor channel))
        ChannelCaps.SESSION_VIEW in
    _ ← (if session_view_delivered then
           let '(channel', handoff) :=
             channel_handoff channel (DeliverSessionBaseline baseline) in
           _ ← modify (λ b, set_channels (<[cid := channel']> (channels b)) b);
           lift (map_err (λ source, InitialSessionHandoff
                    (MkChannelDeliveryError cid Delivery_Session source)) handoff)
         else mret ());
    _ ← modify (add_subscription sid cid);
    mret (Subscribed session_view_delivered (last_sequence a) (length pending)).

Definition unsubscribe (cid : ChannelId) (sid : SessionId) :
    act Bridge SubscriptionError UnsubscribeOutcome :=
  b ← gets id;
  if negb (bool_decide (is_Some (channels b !! cid))) then throw (Sub_ChannelNotFound cid)
  else if negb (bool_decide (is_Some (sessions b !! sid))) then throw (Sub_SessionNotFound sid)
  else
    let removed := is_subscribed b cid sid in
    _ ← modify (λ b, set_subscriptions (alter (λ s, s ∖ {[cid]}) sid (subscriptions b)) b);
    b' ← gets id;
    _ ← (if bool_decide (subscriptions b' !! sid = Some ∅)
         then modify (λ b, set_subscriptions (delete sid (subscriptions b)) b)
         else mret ());
    mret (if (removed : bool) then Unsubscribed else NotSubscribed).

(** [self.subscriptions.retain(..)] with its counter. *)
Definition unsubscribe_channel (cid : ChannelId) : act Bridge SubscriptionError nat :=
  b ← gets id;
  if negb (bool_decide (is_Some (channels b !! cid))) then throw (Sub_ChannelNotFound cid)
  else
    let removed := size (filter (λ '(_, s), cid ∈ s) (subscriptions b)) in
    _ ← modify (λ b, set_subscriptions
          (omap (λ s, if bool_decide (s ∖ {[cid]} = ∅) then None else Some (s ∖ {[cid]}))
             (subscriptions b)) b);
    mret removed.

(** *** Provider events *)

Definition event_updates_session_view (event : AgentEvent) : bool :=
  match event_payload event with
  | SessionStarted _ | StateChanged _ | ConnectionChanged _ | SessionEnded _ => true
  | _ => false
  end.

(** The loop that computes every route before the reduction. *)
Definition compute_routes (b : Bridge) (provider : ProviderDescriptor)
    (routing_session : AgentSession) (event : AgentEvent) (subscriber_ids : list ChannelId) :
    result ProviderEventError (list (ChannelId * ChannelEventRoute * bool)) :=
  try_collect (λ cid,
      channel ← ok_or (Event_ChannelNotFound cid) (channels b !! cid);
      let descriptor := registered_channel_descriptor channel in
      route ← map_err Event_CapabilityRoute
                (channel_event_route provider descriptor routing_session event);
      let deliver_session :=
        contains (channel_capabilities descriptor) ChannelCaps.SESSION_VIEW
        && event_updates_session_view event in
      Ok (cid, route, deliver_session))
    subscriber_ids.

(** One iteration of the fan-out loop, on the borrowed channel. *)
Definition deliver_one (event : AgentEvent) (session_view : option AgentSession)
    (cid : ChannelId) (route : ChannelEventRoute) (deliver_session : bool)
    (channel : RegisteredChannel) : RegisteredChannel * ChannelDeliveryResult :=
  let '(channel1, handoff) := channel_handoff channel (DeliverEvent event route) in
  match handoff with
  | Err source => (channel1, Failed (MkChannelDeliveryError cid Delivery_Event source))
  | Ok _ =>
      match deliver_session, session_view with
      | true, Some s =>
          let '(channel2, handoff2) := channel_handoff channel1 (DeliverSession s) in
          match handoff2 with
          | Err source => (channel2, Failed (MkChannelDeliveryError cid Delivery_Session source))
          | Ok _ => (channel2, Delivered cid)
          end
      | _, _ => (channel1, Delivered cid)
      end
  end.

Fixpoint deliver_routes (event : AgentEvent) (session_view : option AgentSession)
    (routes : list (ChannelId * ChannelEventRoute * bool)) :
    act Bridge ProviderEventError (list ChannelDeliveryResult) :=
  match routes with
  | [] => mret []
  | (cid, route, deliver_session) :: routes' =>
      b ← gets id;
      channel ← lift (ok_or (Event_ChannelNotFound cid) (channels b !! cid));
      let '(channel', delivery) :=
        deliver_one event session_view cid route deliver_session channel in
      _ ← modify (λ b, set_channels (<[cid := channel']> (channels b)) b);
      deliveries ← deliver_routes event session_view routes';
      mret (delivery :: deliveries)
  end.

(** [routes.iter().any(..).then(|| aggregate.session().clone())] *)
Definition session_view_for (routes : list (ChannelId * ChannelEventRoute * bool))
    (a : SessionAggregate) : option AgentSession :=
  if existsb snd routes then Some (session a) else None.

(** The reduction step: [None] reports an exact retry. *)
Definition reduce_event (event : AgentEvent)
    (routes : list (ChannelId * ChannelEventRoute * bool)) :
    act Bridge ProviderEventError (option (option AgentSession)) :=
  let sid := event_session_id event in
  b ← gets id;
  match sessions b !! sid with
  | Some a =>
      let '(a', outcome) := apply event a in
      _ ← modify (λ b, set_sessions (<[sid := a']> (sessions b)) b);
      outcome ← lift (map_err Event_Reduce outcome);
      match outcome with
      | AlreadyApplied => mret None
      | Applied => mret (Some (session_view_for routes a'))
      end
  | None =>
      a ← lift (map_err Event_Reduce (from_initial_event_with_config event (session_config b)));
      _ ← modify (λ b, set_sessions (<[sid := a]> (sessions b)) b);
      mret (Some (session_view_for routes a))
  end.

(** The session an event is validated against: the stored one, or the one
    that the event starts. *)
Definition routing_session_of (b : Bridge) (event : AgentEvent) :
    result ProviderEventError AgentSession :=
  match sessions b !! event_session_id event with
  | Some a => Ok (session a)
  | None =>
      match event_payload event with
      | SessionStarted s => Ok s
      | _ => Err (SessionNotStarted (event_session_id event))
      end
  end.

Definition handle_provider_event (pid : ProviderId) (event : AgentEvent) :
    act Bridge ProviderEventError ProviderEventReport :=
  b ← gets id;
  provider ← lift (ok_or (Event_ProviderNotFound pid) (providers b !! pid));
  let descriptor := registered_provider_descriptor provider in
  let sid := event_session_id event in
  routing_session ← lift (routing_session_of b event);
  _ ← lift (map_err Event_CapabilityRoute
              (validate_provider_event descriptor routing_session event));
  routes ← lift (compute_routes b descriptor routing_session event (session_subscribers b sid));
  reduced ← reduce_event event routes;
  match reduced with
  | None => mret (MkReport Event_AlreadyApplied [])
  | Some session_view =>
      deliveries ← deliver_routes event session_view routes;
      let report := MkReport Event_Applied deliveries in
      if has_failures report then throw (ChannelHandoffs report) else mret report
  end.

(** *** Channel actions *)

Definition action_channel_descriptor (b : Bridge) (cid : ChannelId) :
    result ChannelActionError ChannelDescriptor :=
  registered_channel_descriptor <$> ok_or (Action_ChannelNotFound cid) (channels b !! cid).

Definition validate_action_subscription (b : Bridge) (cid : ChannelId) (sid : SessionId) :
    result ChannelActionError unit :=
  if negb (bool_decide (is_Some (sessions b !! sid))) then Err (Action_SessionNotFound sid)
  else if negb (is_subscribed b cid sid) then Err (ChannelNotSubscribed cid sid)
  else Ok ().

(** [self.providers.get_mut(..)?.accept_*(..).map_err(..)] *)
Definition hand_to_provider (pid : ProviderId) (kind : ProviderHandoffKind)
    (call : ProviderCall) : act Bridge ChannelActionError unit :=
  b ← gets id;
  provider ← lift (ok_or (Action_ProviderNotFound pid) (providers b !! pid));
  let '(provider', handoff) := provider_handoff provider call in
  _ ← modify (λ b, set_providers (<[pid := provider']> (providers b)) b);
  lift (map_err (ProviderHandoff pid kind) handoff).

Definition handle_interaction_response (cid : ChannelId) (response : InteractionResponse) :
    act Bridge ChannelActionError unit :=
  b ← gets id;
  channel ← lift (action_channel_descriptor b cid);
  let sid := response_session_id response in
  _ ← lift (validate_action_subscription b cid sid);
  a ← lift (ok_or (Action_SessionNotFound sid) (sessions b !! sid));
  let pid := session_provider_id (session a) in
  provider ← lift (ok_or (Action_ProviderNotFound pid) (providers b !! pid));
  let interaction_id := response_request_id response in
  request ← lift (ok_or (Action_InteractionNotPending sid interaction_id)
                    (pending_interactions a !! interaction_id));
  _ ← lift (map_err Action_CapabilityRoute
              (validate_interaction_response (registered_provider_descriptor provider) channel
                 (session a) request response));
  hand_to_provider pid Handoff_InteractionResponse (AcceptInteractionResponse response).

Definition handle_command (cid : ChannelId) (command : AgentCommand) :
    act Bridge ChannelActionError unit :=
  b ← gets id;
  channel ← lift (action_channel_descriptor b cid);
  let sid := command_session_id command in
  _ ← lift (validate_action_subscription b cid sid);
  a ← lift (ok_or (Action_SessionNotFound sid) (sessions b !! sid));
  let pid := session_provider_id (session a) in
  provider ← lift (ok_or (Action_ProviderNotFound pid) (providers b !! pid));
  _ ← lift (map_err Action_CapabilityRoute
              (validate_command (registered_provider_descriptor provider) channel
                 (session a) command));
  hand_to_provider pid Handoff_Command (AcceptCommand command).
End bridge.
