(* ===== verification/BridgeSpec.v ===== *)
(** * Correctness of the Bridge

    The invariant of every reachable Bridge, the atomicity of its operations,
    the fan-out contract, the reverse path, and the catch-up protocol. *)

From stdpp Require Import base strings numbers sorting relations gmap list.
From S2P Require Import Prelude Values Snapshots Capability Interaction Event Aggregate.
From S2P Require Import AggregateSpec Routing Bridge.

Section effects.
Context `{Externals}.
Implicit Types (b : Bridge) (e : AgentEvent).

Lemma set_sessions_id b : set_sessions (sessions b) b = b.
Proof. by destruct b. Qed.
Lemma set_channels_id b : set_channels (channels b) b = b.
Proof. by destruct b. Qed.

(** ** Reduction *)

Lemma reduce_event_inv e routes b b' r :
  reduce_event e routes b = (b', r) →
  (∃ err, r = Err (Event_Reduce err) ∧ b' = b) ∨
  (r = Ok None ∧ b' = b ∧ ∃ a, sessions b !! event_session_id e = Some a ∧
     apply e a = (a, Ok AlreadyApplied)) ∨
  (∃ a', r = Ok (Some (session_view_for routes a')) ∧
     b' = set_sessions (<[event_session_id e := a']> (sessions b)) b ∧
     ((∃ a, sessions b !! event_session_id e = Some a ∧ apply e a = (a', Ok Applied)) ∨
      (sessions b !! event_session_id e = None ∧
       from_initial_event_with_config e (session_config b) = Ok a'))).
Proof.
  unfold reduce_event. unfold_act.
  destruct (sessions b !! event_session_id e) as [a|] eqn:Ea.
  - destruct (apply e a) as [a' out] eqn:Eapp.
    pose proof (apply_inv _ _ _ _ Eapp) as Hinv.
    destruct out as [[]|err]; simpl; intros [= <- <-].
    + right; right. exists a'. eauto 6.
    + assert (a' = a) as -> by naive_solver.
      rewrite insert_id, set_sessions_id by done. right; left. eauto.
    + assert (a' = a) as -> by naive_solver.
      rewrite insert_id, set_sessions_id by done. left. eauto.
  - destruct (from_initial_event_with_config e (session_config b)) as [a'|err] eqn:Ei; simpl;
      intros [= <- <-]; [|by eauto].
    right; right. exists a'. eauto.
Qed.

(** ** Fan-out *)

(** The loop as a pure function of the channel map. *)
Definition deliver_channel e view (route : ChannelId * ChannelEventRoute * bool)
    (c : RegisteredChannel) : RegisteredChannel * ChannelDeliveryResult :=
  deliver_one e view route.1.1 route.1.2 route.2 c.

(** The channels after delivering along [routes]. *)
Definition after_delivery e view (routes : list (ChannelId * ChannelEventRoute * bool))
    (m : gmap ChannelId RegisteredChannel) : gmap ChannelId RegisteredChannel :=
  foldl (λ m route, alter (λ c, (deliver_channel e view route c).1) route.1.1 m) m routes.

Lemma deliver_routes_cons e view cid route flag routes b c :
  channels b !! cid = Some c →
  deliver_routes e view ((cid, route, flag) :: routes) b =
  match deliver_routes e view routes
          (set_channels (<[cid := (deliver_one e view cid route flag c).1]> (channels b)) b) with
  | (b', Ok ds) => (b', Ok ((deliver_one e view cid route flag c).2 :: ds))
  | (b', Err err) => (b', Err err)
  end.
Proof.
  intros Hc. cbn [deliver_routes]. unfold_act. rewrite Hc. simpl.
  destruct (deliver_one e view cid route flag c) as [c' d]. simpl.
  by destruct (deliver_routes _ _ _ _) as [? []].
Qed.

(** With every target registered and no channel targeted twice, the loop
    attempts every target, reports one result per target in order, and only
    changes the targets. *)
Lemma deliver_routes_spec e view routes b :
  (∀ r, r ∈ routes → is_Some (channels b !! r.1.1)) →
  NoDup ((λ r, r.1.1) <$> routes) →
  deliver_routes e view routes b =
  (set_channels (after_delivery e view routes (channels b)) b,
   Ok (omap (λ r, (λ c, (deliver_channel e view r c).2) <$> channels b !! r.1.1) routes)).
Proof.
  revert b. induction routes as [|[[cid route] flag] routes IH]; intros b Hreg Hnd.
  - simpl. unfold_act. by rewrite set_channels_id.
  - apply NoDup_cons in Hnd as [Hfresh Hnd]. simpl in Hfresh.
    destruct (Hreg (cid, route, flag)) as [c Hc]; [left|]. simpl in Hc.
    rewrite (deliver_routes_cons _ _ _ _ _ _ _ c) by done.
    rewrite IH; [|intros r Hr; simpl|done].
    + unfold after_delivery at 2. cbn [foldl]. simpl. rewrite Hc. simpl.
      assert (alter (λ c0, (deliver_channel e view (cid, route, flag) c0).1) cid (channels b) =
              <[cid := (deliver_one e view cid route flag c).1]> (channels b)) as ->.
      { apply map_eq. intros i. destruct (decide (i = cid)) as [->|Hi].
        - by rewrite lookup_alter_eq, lookup_insert_eq, Hc.
        - by rewrite lookup_alter_ne, lookup_insert_ne. }
      do 3 f_equal. apply list_omap_ext. apply Forall_Forall2_diag, Forall_forall.
      intros r Hr. rewrite lookup_insert_ne; [done|]. intros ->.
      destruct Hfresh. by apply (list_elem_of_fmap_2 (λ r, r.1.1)).
    + rewrite lookup_insert_is_Some'. right. apply Hreg. by right.
Qed.

Lemma after_delivery_lookup e view routes m cid :
  NoDup ((λ r, r.1.1) <$> routes) →
  after_delivery e view routes m !! cid =
  match List.find (λ r, bool_decide (r.1.1 = cid)) routes with
  | Some r => (λ c, (deliver_channel e view r c).1) <$> m !! cid
  | None => m !! cid
  end.
Proof.
  revert m. induction routes as [|r routes IH]; intros m Hnd; [done|].
  apply NoDup_cons in Hnd as [Hfresh Hnd]. unfold after_delivery. cbn [foldl List.find].
  fold (after_delivery e view routes
    (alter (λ c, (deliver_channel e view r c).1) r.1.1 m)).
  rewrite IH by done. case_bool_decide as Hr.
  - assert (List.find (λ r', bool_decide (r'.1.1 = cid)) routes = None) as ->.
    { apply (find_key_None (λ r', r'.1.1)). by rewrite <-Hr. }
    subst cid. by rewrite lookup_alter_eq.
  - by rewrite lookup_alter_ne.
Qed.
End effects.

(** ** What each operation does, branch by branch *)

Section inversions.
Context `{Externals}.
Implicit Types (b : Bridge) (e : AgentEvent).

(** The Bridge after one more call was handed to a channel or a provider. *)
Definition hand_channel cid (c : RegisteredChannel) (call : ChannelCall) b : Bridge :=
  set_channels (<[cid := (channel_handoff c call).1]> (channels b)) b.
Definition hand_provider pid (p : RegisteredProvider) (call : ProviderCall) b : Bridge :=
  set_providers (<[pid := (provider_handoff p call).1]> (providers b)) b.

Lemma sync_session_inv cid sid after max b b' r :
  sync_session cid sid after max b = (b', r) →
  (b' = b ∧ ∃ err, r = Err err) ∨
  (b' = b ∧ is_subscribed b cid sid = true ∧ ∃ a, sessions b !! sid = Some a ∧
     r = Ok (MkSyncOutcome (counter_get (last_sequence a)) 0 false true 0)) ∨
  (∃ c a p sync, channels b !! cid = Some c ∧ sessions b !! sid = Some a ∧
     providers b !! session_provider_id (session a) = Some p ∧
     is_subscribed b cid sid = false ∧
     prepare_sync cid a (registered_channel_descriptor c) (registered_provider_descriptor p)
       after max = Ok sync ∧
     let b1 := hand_channel cid c (DeliverSessionSync sync) b in
     match (channel_handoff c (DeliverSessionSync sync)).2 with
     | Err source => b' = b1 ∧
         r = Err (InitialSessionHandoff (MkChannelDeliveryError cid Delivery_Session source))
     | Ok _ => b' = (if sync_is_final sync then add_subscription sid cid b1 else b1) ∧
         r = Ok (MkSyncOutcome (sync_through_sequence sync) (length (sync_events sync))
                   (sync_reset sync) (sync_is_final sync)
                   match sync_baseline sync with
                   | Some baseline => length (baseline_pending_interactions baseline)
                   | None => 0
                   end)
     end).
Proof.
  unfold sync_session. destruct (max =? 0)%N; [unfold_act; naive_solver|]. unfold_act.
  destruct (channels b !! cid) as [c|] eqn:Ec; simpl; [|naive_solver].
  destruct (sessions b !! sid) as [a|] eqn:Ea; simpl; [|naive_solver].
  destruct (is_subscribed b cid sid) eqn:Es; [naive_solver|].
  destruct (providers b !! session_provider_id (session a)) as [p|] eqn:Ep; simpl; [|naive_solver].
  destruct (prepare_sync _ _ _ _ _ _) as [sync|] eqn:Esync; simpl; [|naive_solver].
  intros Hr. right; right. exists c, a, p, sync. split_and!; try done.
  destruct (channel_port_accept _ _ _) as [[]|source]; simpl in *; [|naive_solver].
  by destruct (sync_is_final sync); naive_solver.
Qed.

Lemma subscribe_inv cid sid b b' r :
  subscribe cid sid b = (b', r) →
  (b' = b ∧ ∃ err, r = Err err) ∨
  (b' = b ∧ is_subscribed b cid sid = true ∧ ∃ a, sessions b !! sid = Some a ∧
     r = Ok (AlreadySubscribed (last_sequence a))) ∨
  (∃ c a p pending, channels b !! cid = Some c ∧ sessions b !! sid = Some a ∧
     providers b !! session_provider_id (session a) = Some p ∧
     is_subscribed b cid sid = false ∧
     route_pending (registered_provider_descriptor p) (registered_channel_descriptor c)
       (session a) a = Ok pending ∧
     let baseline := MkBaseline (session a) (last_sequence a) pending in
     if contains (channel_capabilities (registered_channel_descriptor c))
          ChannelCaps.SESSION_VIEW
     then
       let b1 := hand_channel cid c (DeliverSessionBaseline baseline) b in
       match (channel_handoff c (DeliverSessionBaseline baseline)).2 with
       | Err source => b' = b1 ∧
           r = Err (InitialSessionHandoff (MkChannelDeliveryError cid Delivery_Session source))
       | Ok _ => b' = add_subscription sid cid b1 ∧
           r = Ok (Subscribed true (last_sequence a) (length pending))
       end
     else b' = add_subscription sid cid b ∧
          r = Ok (Subscribed false (last_sequence a) (length pending))).
Proof.
  unfold subscribe. unfold_act.
  destruct (channels b !! cid) as [c|] eqn:Ec; simpl; [|naive_solver].
  destruct (sessions b !! sid) as [a|] eqn:Ea; simpl; [|naive_solver].
  destruct (is_subscribed b cid sid) eqn:Es; [naive_solver|].
  destruct (providers b !! session_provider_id (session a)) as [p|] eqn:Ep; simpl; [|naive_solver].
  destruct (route_pending _ _ _ _) as [pending|] eqn:Epend; simpl; [|naive_solver].
  intros Hr. right; right. exists c, a, p, pending. split_and!; try done.
  destruct (contains _ _); simpl in *; [|naive_solver].
  destruct (channel_port_accept _ _ _) as [[]|source]; simpl in *; naive_solver.
Qed.

Lemma unsubscribe_inv cid sid b b' r :
  unsubscribe cid sid b = (b', r) →
  (b' = b ∧ ∃ err, r = Err err) ∨
  (is_Some (channels b !! cid) ∧ is_Some (sessions b !! sid) ∧
   r = Ok (if is_subscribed b cid sid then Unsubscribed else NotSubscribed) ∧
   ∃ subs, b' = set_subscriptions subs b ∧ ∀ sid',
     subs !! sid' =
       if decide (sid' = sid) then
         s ← subscriptions b !! sid;
         if bool_decide (s ∖ {[cid]} = ∅) then None else Some (s ∖ {[cid]})
       else subscriptions b !! sid').
Proof.
  unfold unsubscribe. unfold_act.
  case_bool_decide as Hc; simpl; [|naive_solver].
  case_bool_decide as Hs; simpl; [|naive_solver].
  intros Hr. right. split_and!; [done..| |].
  - revert Hr. case_bool_decide; simpl; naive_solver.
  - revert Hr. case_bool_decide as Hempty; simpl; intros [= <- _]; eexists;
      (split; [reflexivity|]); intros sid'; simpl; destruct (decide (sid' = sid)) as [->|Hne].
    + rewrite lookup_alter_eq in Hempty. rewrite lookup_delete_eq.
      destruct (subscriptions b !! sid) as [s|]; simpl in *; [|done].
      injection Hempty as ->. by rewrite bool_decide_eq_true_2.
    + by rewrite lookup_delete_ne, lookup_alter_ne.
    + rewrite lookup_alter_eq in *.
      destruct (subscriptions b !! sid) as [s|]; simpl in *; [|done].
      rewrite bool_decide_eq_false_2; [done|]. intros Heq. by rewrite Heq in Hempty.
    + by rewrite lookup_alter_ne.
Qed.

(** A response reaches the Provider only from a subscribed Channel, for a
    pending request, and after validation; nothing else changes. *)
Lemma handle_interaction_response_inv cid response b b' r :
  handle_interaction_response cid response b = (b', r) →
  (b' = b ∧ ∃ err, r = Err err) ∨
  (∃ c a p request, channels b !! cid = Some c ∧
     sessions b !! response_session_id response = Some a ∧
     providers b !! session_provider_id (session a) = Some p ∧
     is_subscribed b cid (response_session_id response) = true ∧
     pending_interactions a !! response_request_id response = Some request ∧
     validate_interaction_response (registered_provider_descriptor p)
       (registered_channel_descriptor c) (session a) request response = Ok () ∧
     b' = hand_provider (session_provider_id (session a)) p
            (AcceptInteractionResponse response) b ∧
     r = map_err (ProviderHandoff (session_provider_id (session a)) Handoff_InteractionResponse)
           (provider_handoff p (AcceptInteractionResponse response)).2).
Proof.
  unfold handle_interaction_response, action_channel_descriptor,
    validate_action_subscription, hand_to_provider. unfold_act.
  destruct (channels b !! cid) as [c|] eqn:Ec; simpl; [|naive_solver].
  case_bool_decide as Hs; simpl; [|naive_solver].
  destruct (is_subscribed _ _ _) eqn:Esub; simpl; [|naive_solver].
  destruct (sessions b !! _) as [a|] eqn:Ea; simpl; [|naive_solver].
  destruct (providers b !! _) as [p|] eqn:Ep; simpl; [|naive_solver].
  destruct (pending_interactions a !! _) as [request|] eqn:Er; simpl; [|naive_solver].
  destruct (validate_interaction_response _ _ _ _ _) as [[]|] eqn:Ev; simpl; [|naive_solver].
  intros [= <- <-]. right. exists c, a, p, request. done.
Qed.

Lemma handle_command_inv cid command b b' r :
  handle_command cid command b = (b', r) →
  (b' = b ∧ ∃ err, r = Err err) ∨
  (∃ c a p, channels b !! cid = Some c ∧
     sessions b !! command_session_id command = Some a ∧
     providers b !! session_provider_id (session a) = Some p ∧
     is_subscribed b cid (command_session_id command) = true ∧
     validate_command (registered_provider_descriptor p)
       (registered_channel_descriptor c) (session a) command = Ok () ∧
     b' = hand_provider (session_provider_id (session a)) p (AcceptCommand command) b ∧
     r = map_err (ProviderHandoff (session_provider_id (session a)) Handoff_Command)
           (provider_handoff p (AcceptCommand command)).2).
Proof.
  unfold handle_command, action_channel_descriptor,
    validate_action_subscription, hand_to_provider. unfold_act.
  destruct (channels b !! cid) as [c|] eqn:Ec; simpl; [|naive_solver].
  case_bool_decide as Hs; simpl; [|naive_solver].
  destruct (is_subscribed _ _ _) eqn:Esub; simpl; [|naive_solver].
  destruct (sessions b !! _) as [a|] eqn:Ea; simpl; [|naive_solver].
  destruct (providers b !! _) as [p|] eqn:Ep; simpl; [|naive_solver].
  destruct (validate_command _ _ _ _) as [[]|] eqn:Ev; simpl; [|naive_solver].
  intros [= <- <-]. right. exists c, a, p. done.
Qed.
End inversions.

(** ** The invariant of a Bridge *)

Section invariant.
Context `{Externals}.
Implicit Types (b : Bridge) (e : AgentEvent).

(** A session is reduced from a history that its Provider, still registered,
    was entitled to publish. *)
Definition session_history b (a : SessionAggregate) (h : list AgentEvent)
    (p : RegisteredProvider) : Prop :=
  history (session_config b) h a ∧
  providers b !! session_provider_id (session a) = Some p ∧
  Forall (λ e, validate_provider_event (registered_provider_descriptor p) (session a) e
               = Ok ()) h.

Definition session_entry_wf b (sid : SessionId) (a : SessionAggregate) : Prop :=
  session_id (session a) = sid ∧ ∃ h p, session_history b a h p.

Record bridge_inv b : Prop := {
  inv_providers : ∀ pid p, providers b !! pid = Some p →
    provider_id (registered_provider_descriptor p) = pid;
  inv_channels : ∀ cid c, channels b !! cid = Some c →
    channel_id (registered_channel_descriptor c) = cid;
  inv_sessions : ∀ sid a, sessions b !! sid = Some a → session_entry_wf b sid a;
  inv_subscriptions : ∀ sid s, subscriptions b !! sid = Some s →
    s ≠ ∅ ∧ is_Some (sessions b !! sid) ∧ ∀ cid, cid ∈ s → is_Some (channels b !! cid)
}.

(** *** Subscribers *)

Lemma elem_of_session_subscribers b sid cid :
  cid ∈ session_subscribers b sid ↔ is_subscribed b cid sid = true.
Proof.
  unfold session_subscribers, is_subscribed. destruct (subscriptions b !! sid) as [s|].
  - by rewrite elem_of_btree_elements, bool_decide_eq_true.
  - by rewrite elem_of_nil.
Qed.

Lemma session_subscribers_sorted b sid : StronglySorted rank_lt (session_subscribers b sid).
Proof.
  unfold session_subscribers. case_match; [apply btree_elements_sorted|constructor].
Qed.

Lemma NoDup_session_subscribers b sid : NoDup (session_subscribers b sid).
Proof.
  unfold session_subscribers. case_match; [apply NoDup_btree_elements|constructor].
Qed.

Lemma is_subscribed_registered b cid sid :
  bridge_inv b → is_subscribed b cid sid = true →
  is_Some (channels b !! cid) ∧ is_Some (sessions b !! sid).
Proof.
  intros Hinv. unfold is_subscribed. destruct (subscriptions b !! sid) as [s|] eqn:Es; [|done].
  intros Hc%bool_decide_eq_true. by destruct (inv_subscriptions _ Hinv _ _ Es) as (_ & ? & ?); auto.
Qed.

(** *** Routes *)

Lemma compute_routes_targets b provider s e ids routes :
  compute_routes b provider s e ids = Ok routes → (λ r, r.1.1) <$> routes = ids.
Proof.
  unfold compute_routes. rewrite try_collect_Ok.
  induction 1 as [|cid r ids routes Hr _ IH]; [done|]. rewrite fmap_cons, IH. f_equal.
  destruct (channels b !! cid) as [c|]; [simpl in Hr|done].
  destruct (channel_event_route _ _ _ _); naive_solver.
Qed.

Lemma compute_routes_total b provider s e ids :
  event_wf e → validate_provider_event provider s e = Ok () →
  (∀ cid, cid ∈ ids → is_Some (channels b !! cid)) →
  ∃ routes, compute_routes b provider s e ids = Ok routes.
Proof.
  intros Hwf Hv Hreg. apply try_collect_all_ok, Forall_forall. intros cid [c ->]%Hreg. simpl.
  destruct (channel_event_route_total provider (registered_channel_descriptor c) s e Hwf Hv)
    as [route ->]. done.
Qed.

(** The targets of an event are distinct registered channels. *)
Lemma channel_target_registered b provider s e routes sid :
  bridge_inv b → compute_routes b provider s e (session_subscribers b sid) = Ok routes →
  (∀ r, r ∈ routes → is_Some (channels b !! r.1.1)) ∧ NoDup ((λ r, r.1.1) <$> routes).
Proof.
  intros Hinv Hroutes. apply compute_routes_targets in Hroutes. rewrite Hroutes.
  split; [|apply NoDup_session_subscribers]. intros r Hr.
  apply (is_subscribed_registered _ _ sid Hinv), elem_of_session_subscribers.
  rewrite <-Hroutes. by apply (list_elem_of_fmap_2 (λ r, r.1.1)).
Qed.
End invariant.

(** ** Provider events *)

Section provider_events.
Context `{Externals}.
Implicit Types (b : Bridge) (e : AgentEvent).

(** Why an event is turned away before anything happens. *)
Definition rejection (err : ProviderEventError) : Prop :=
  match err with
  | Event_ProviderNotFound _ | SessionNotStarted _ | Event_CapabilityRoute _
  | Event_Reduce _ => True
  | Event_ChannelNotFound _ | ChannelHandoffs _ => False
  end.

(** The aggregate after an accepted event. *)
Definition reduces b e (a' : SessionAggregate) : Prop :=
  (∃ a, sessions b !! event_session_id e = Some a ∧ apply e a = (a', Ok Applied)) ∨
  (sessions b !! event_session_id e = None ∧
   from_initial_event_with_config e (session_config b) = Ok a').

(** Delivery results of a fan-out, in target order. *)
Definition delivery_results e view (routes : list (ChannelId * ChannelEventRoute * bool)) b :
    list ChannelDeliveryResult :=
  omap (λ r, (λ c, (deliver_channel e view r c).2) <$> channels b !! r.1.1) routes.

Definition report_result (report : ProviderEventReport) :
    result ProviderEventError ProviderEventReport :=
  if has_failures report then Err (ChannelHandoffs report) else Ok report.

Lemma handle_provider_event_inv pid e b b' r :
  bridge_inv b → event_wf e → handle_provider_event pid e b = (b', r) →
  (b' = b ∧ ∃ err, r = Err err ∧ rejection err) ∨
  (b' = b ∧ r = Ok (MkReport Event_AlreadyApplied []) ∧
     ∃ a, sessions b !! event_session_id e = Some a ∧ e = last_event a) ∨
  (∃ p s routes a', providers b !! pid = Some p ∧ routing_session_of b e = Ok s ∧
     validate_provider_event (registered_provider_descriptor p) s e = Ok () ∧
     compute_routes b (registered_provider_descriptor p) s e
       (session_subscribers b (event_session_id e)) = Ok routes ∧
     reduces b e a' ∧
     let view := session_view_for routes a' in
     b' = set_channels (after_delivery e view routes (channels b))
            (set_sessions (<[event_session_id e := a']> (sessions b)) b) ∧
     r = report_result (MkReport Event_Applied (delivery_results e view routes b))).
Proof.
  intros Hinv Hwf. unfold handle_provider_event. unfold_act.
  destruct (providers b !! pid) as [p|] eqn:Ep; simpl; [|naive_solver].
  destruct (routing_session_of b e) as [s|err] eqn:Es; simpl.
  2:{ intros [= <- <-]. left. split; [done|]. exists err. split; [done|].
      unfold routing_session_of in Es. by repeat case_match; simplify_eq. }
  destruct (validate_provider_event _ s e) as [[]|] eqn:Ev; simpl; [|naive_solver].
  destruct (compute_routes_total b (registered_provider_descriptor p) s e
    (session_subscribers b (event_session_id e)) Hwf Ev) as [routes Hroutes].
  { intros cid Hc%elem_of_session_subscribers. by eapply is_subscribed_registered. }
  rewrite Hroutes. simpl.
  destruct (channel_target_registered _ _ _ _ _ _ Hinv Hroutes) as [Hreg Hnd].
  destruct (reduce_event e routes b) as [b1 red] eqn:Ered.
  apply reduce_event_inv in Ered as [(err & -> & ->)|[(-> & -> & a & Ha & Happ)|(a' & -> & -> & Hred)]].
  - intros [= <- <-]. left. split; [done|]. by exists (Event_Reduce err).
  - intros [= <- <-]. right; left. split_and!; [done..|]. exists a. split; [done|].
    apply apply_inv in Happ as [?|[[Hc%validate_cursor_true _]|?]]; naive_solver.
  - rewrite deliver_routes_spec by done. intros Hr. right; right. exists p, s, routes, a'.
    do 5 (split; [done|]). unfold report_result, delivery_results.
    by destruct (has_failures _); simplify_eq/=.
Qed.
End provider_events.

(** ** Preservation of the invariant *)

Section preservation.
Context `{Externals}.
Implicit Types (b : Bridge) (e : AgentEvent).

(** Endpoints may be added and may log calls; none is dropped or replaced. *)
Lemma bridge_inv_set_channels b m :
  bridge_inv b →
  (∀ cid c, m !! cid = Some c → channel_id (registered_channel_descriptor c) = cid) →
  (∀ cid, is_Some (channels b !! cid) → is_Some (m !! cid)) →
  bridge_inv (set_channels m b).
Proof.
  intros [Hp Hc Hs Hsub] Hm Hdom. constructor; [done..|]. intros sid s Hs'.
  destruct (Hsub sid s Hs') as (? & ? & ?). naive_solver.
Qed.

Lemma bridge_inv_set_providers b m :
  bridge_inv b →
  (∀ pid p, m !! pid = Some p → provider_id (registered_provider_descriptor p) = pid) →
  (∀ pid p, providers b !! pid = Some p → ∃ p', m !! pid = Some p' ∧
     registered_provider_descriptor p' = registered_provider_descriptor p) →
  bridge_inv (set_providers m b).
Proof.
  intros [Hp Hc Hs Hsub] Hm Hdom. constructor; [done..| |done].
  intros sid a (Hid & h & p & Hh & Hp' & Hall)%Hs. split; [done|].
  destruct (Hdom _ _ Hp') as (p' & Hp'' & Hd). exists h, p'. unfold session_history. by rewrite Hd.
Qed.

Lemma hand_channel_inv cid c call b :
  bridge_inv b → channels b !! cid = Some c → bridge_inv (hand_channel cid c call b).
Proof.
  intros Hinv Hc. apply bridge_inv_set_channels; [done| |].
  - intros cid' c' [[<- <-]|[_ ?]]%lookup_insert_Some; simpl; by apply (inv_channels _ Hinv).
  - intros cid' ?. rewrite lookup_insert_is_Some'. by right.
Qed.

Lemma hand_provider_inv pid p call b :
  bridge_inv b → providers b !! pid = Some p → bridge_inv (hand_provider pid p call b).
Proof.
  intros Hinv Hp. apply bridge_inv_set_providers; [done| |].
  - intros pid' p' [[<- <-]|[_ ?]]%lookup_insert_Some; simpl; by apply (inv_providers _ Hinv).
  - intros pid' p' Hp'. destruct (decide (pid = pid')) as [<-|Hne].
    + rewrite lookup_insert_eq. simplify_eq. eauto.
    + rewrite lookup_insert_ne by done. eauto.
Qed.

Lemma add_subscription_inv sid cid b :
  bridge_inv b → is_Some (channels b !! cid) → is_Some (sessions b !! sid) →
  bridge_inv (add_subscription sid cid b).
Proof.
  intros [Hp Hc Hs Hsub] Hcid Hsid. constructor; [done..|]. intros sid' s.
  simpl. intros [[<- <-]|[_ ?]]%lookup_insert_Some; [|by apply Hsub].
  split; [set_solver|]. split; [done|]. intros cid' [->%elem_of_singleton|Hin]%elem_of_union; [done|].
  destruct (subscriptions b !! sid) as [s|] eqn:Es; simpl in Hin; [|set_solver].
  by apply (Hsub _ _ Es).
Qed.

Lemma bridge_inv_set_subscriptions b m :
  bridge_inv b →
  (∀ sid s, m !! sid = Some s → ∃ s', subscriptions b !! sid = Some s' ∧ s ≠ ∅ ∧ s ⊆ s') →
  bridge_inv (set_subscriptions m b).
Proof.
  intros [Hp Hc Hs Hsub] Hm. constructor; [done..|].
  intros sid s (s' & Hs' & ? & ?)%Hm. destruct (Hsub _ _ Hs') as (_ & ? & ?).
  split_and!; [done..|]. set_solver.
Qed.

Lemma register_provider_inv port b b' r :
  bridge_inv b → register_provider port b = (b', r) → bridge_inv b'.
Proof.
  intros Hinv. unfold register_provider. unfold_act. case_bool_decide as Hnone; simpl;
    intros [= <- <-]; [done|]. apply bridge_inv_set_providers; [done| |].
  - intros pid p [[<- <-]|[_ ?]]%lookup_insert_Some; [done|by apply (inv_providers _ Hinv)].
  - intros pid p Hp. rewrite lookup_insert_ne; [eauto|]. intros <-. by rewrite Hp in Hnone; eauto.
Qed.

Lemma register_channel_inv port b b' r :
  bridge_inv b → register_channel port b = (b', r) → bridge_inv b'.
Proof.
  intros Hinv. unfold register_channel. unfold_act. case_bool_decide as Hnone; simpl;
    intros [= <- <-]; [done|]. apply bridge_inv_set_channels; [done| |].
  - intros cid c [[<- <-]|[_ ?]]%lookup_insert_Some; [done|by apply (inv_channels _ Hinv)].
  - intros cid ?. rewrite lookup_insert_is_Some'. by right.
Qed.

Lemma sync_session_preserves cid sid after max b b' r :
  bridge_inv b → sync_session cid sid after max b = (b', r) → bridge_inv b'.
Proof.
  intros Hinv [[-> _]|[[-> _]|(c & a & p & sync & Hc & Ha & _ & _ & _ & Hr)]]%sync_session_inv;
    [done..|].
  assert (bridge_inv (hand_channel cid c (DeliverSessionSync sync) b)) by by apply hand_channel_inv.
  destruct (channel_handoff c (DeliverSessionSync sync)).2; destruct Hr as [-> _]; [|done].
  destruct (sync_is_final sync); [|done]. apply add_subscription_inv; [done| |by eauto].
  simpl. rewrite lookup_insert_eq. eauto.
Qed.

Lemma subscribe_preserves cid sid b b' r :
  bridge_inv b → subscribe cid sid b = (b', r) → bridge_inv b'.
Proof.
  intros Hinv [[-> _]|[[-> _]|(c & a & p & pending & Hc & Ha & _ & _ & _ & Hr)]]%subscribe_inv;
    [done..|]. destruct (contains _ _); [|destruct Hr as [-> _]; apply add_subscription_inv; eauto].
  pose proof (hand_channel_inv cid c
    (DeliverSessionBaseline (MkBaseline (session a) (last_sequence a) pending)) b Hinv Hc) as Hb.
  cbv zeta in Hr. destruct (snd (channel_handoff c
    (DeliverSessionBaseline (MkBaseline (session a) (last_sequence a) pending))));
    destruct Hr as [-> _]; [|done].
  apply add_subscription_inv; [done| |by eauto]. simpl. rewrite lookup_insert_eq. eauto.
Qed.

(** A successful [unsubscribe] removes the one subscription. *)
Lemma unsubscribe_removes cid sid b b' o :
  unsubscribe cid sid b = (b', Ok o) →
  ∀ c s, is_subscribed b' c s =
    is_subscribed b c s && negb (bool_decide (c = cid) && bool_decide (s = sid)).
Proof.
  intros [[_ [err ?]]|(_ & _ & _ & subs & -> & Hsubs)]%unsubscribe_inv c s; [done|].
  unfold is_subscribed. simpl. rewrite Hsubs. destruct (decide (s = sid)) as [->|Hne].
  - rewrite (bool_decide_eq_true_2 (sid = sid)), andb_true_r by done.
    destruct (subscriptions b !! sid) as [subs0|]; simpl; [|done].
    case_bool_decide as Hempty; simpl; apply eq_true_iff_eq;
      rewrite andb_true_iff, negb_true_iff, ?bool_decide_eq_true, bool_decide_eq_false; set_solver.
  - by rewrite (bool_decide_eq_false_2 (s = sid)), andb_false_r, andb_true_r.
Qed.

Lemma unsubscribe_preserves cid sid b b' r :
  bridge_inv b → unsubscribe cid sid b = (b', r) → bridge_inv b'.
Proof.
  intros Hinv [[-> _]|(_ & _ & _ & subs & -> & Hsubs)]%unsubscribe_inv; [done|].
  apply bridge_inv_set_subscriptions; [done|]. intros sid' s. rewrite Hsubs.
  destruct (decide (sid' = sid)) as [->|].
  - destruct (subscriptions b !! sid) as [s'|] eqn:Es; [simpl|done].
    case_bool_decide; intros; simplify_eq. exists s'. set_solver.
  - intros Hs. destruct (inv_subscriptions _ Hinv _ _ Hs). eauto.
Qed.

Lemma unsubscribe_channel_preserves cid b b' r :
  bridge_inv b → unsubscribe_channel cid b = (b', r) → bridge_inv b'.
Proof.
  intros Hinv. unfold unsubscribe_channel. unfold_act. case_bool_decide; simpl;
    intros [= <- <-]; [|done]. apply bridge_inv_set_subscriptions; [done|]. intros sid s.
  rewrite lookup_omap. destruct (subscriptions b !! sid) as [s'|]; [simpl|done].
  case_bool_decide; intros; simplify_eq. exists s'. set_solver.
Qed.
End preservation.

Section event_preservation.
Context `{Externals}.
Implicit Types (b : Bridge) (e : AgentEvent).

Lemma deliver_channel_descriptor e view route c :
  registered_channel_descriptor (deliver_channel e view route c).1 =
  registered_channel_descriptor c.
Proof.
  unfold deliver_channel, deliver_one. simpl. by repeat (case_match; simplify_eq/=).
Qed.

Lemma after_delivery_descriptor e view routes m cid :
  NoDup ((λ r, r.1.1) <$> routes) →
  registered_channel_descriptor <$> after_delivery e view routes m !! cid =
  registered_channel_descriptor <$> m !! cid.
Proof.
  intros Hnd. rewrite after_delivery_lookup by done. case_match; [|done].
  destruct (m !! cid); simpl; [by rewrite deliver_channel_descriptor|done].
Qed.

Lemma bridge_inv_after_delivery e view routes b :
  bridge_inv b → NoDup ((λ r, r.1.1) <$> routes) →
  bridge_inv (set_channels (after_delivery e view routes (channels b)) b).
Proof.
  intros Hinv Hnd.
  pose proof (λ cid, after_delivery_descriptor e view routes (channels b) cid Hnd) as Hd.
  apply bridge_inv_set_channels; [done| |].
  - intros cid c Hc. specialize (Hd cid). rewrite Hc in Hd. simpl in Hd.
    destruct (channels b !! cid) as [c'|] eqn:Ec; [|done].
    injection Hd as ->. by apply (inv_channels _ Hinv).
  - intros cid [c Hc]. specialize (Hd cid). rewrite Hc in Hd.
    by destruct (after_delivery e view routes (channels b) !! cid); [eauto|].
Qed.

Lemma apply_frame e a a' :
  apply e a = (a', Ok Applied) →
  session_id (session a') = session_id (session a) ∧
  session_provider_id (session a') = session_provider_id (session a).
Proof.
  intros (_ & a1 & Hp & ->)%apply_Applied. by apply apply_payload_frame in Hp as (_ & _ & _ & ? & ?).
Qed.

(** Validation only looks at the identity of the session. *)
Lemma validate_provider_event_session p s s' e :
  session_id s' = session_id s → session_provider_id s' = session_provider_id s →
  validate_provider_event p s' e = validate_provider_event p s e.
Proof.
  intros Hid Hpid. unfold validate_provider_event, validate_provider_session.
  by rewrite Hid, Hpid.
Qed.

(** The aggregate of an accepted event is again a well-formed entry. *)
Lemma reduces_entry_wf b pid p s e a' :
  bridge_inv b → event_wf e → providers b !! pid = Some p →
  routing_session_of b e = Ok s →
  validate_provider_event (registered_provider_descriptor p) s e = Ok () →
  reduces b e a' → session_entry_wf b (event_session_id e) a'.
Proof.
  intros Hinv Hwf Hp Hs Hv Hred.
  pose proof (proj1 (validate_provider_event_Ok _ _ _) Hv) as (Hpid & Hsid & _ & _).
  rewrite (inv_providers _ Hinv _ _ Hp) in Hpid. unfold routing_session_of in Hs.
  destruct Hred as [(a & Ha & Happ)|[Hnone Hinit]].
  - rewrite Ha in Hs. simplify_eq.
    destruct (inv_sessions _ Hinv _ _ Ha) as (Hid & h & p' & Hh & Hp' & Hall).
    destruct (apply_frame _ _ _ Happ) as [Hid' Hpid']. simplify_eq.
    split; [congruence|]. exists (h ++ [e]), p. unfold session_history. rewrite Hpid'. split; [by econstructor|].
    split; [done|]. apply Forall_app. split; [|apply Forall_cons; split; [|constructor]].
    + apply (Forall_impl _ _ _ Hall). intros e'.
      by rewrite (validate_provider_event_session _ (session a) (session a')).
    + by rewrite (validate_provider_event_session _ (session a) (session a')).
  - rewrite Hnone in Hs. pose proof (from_initial_Ok _ _ _ Hinit) as (_ & s' & Hs' & ->).
    rewrite Hs' in Hs. simplify_eq. split; [done|]. exists [e], p. split; [by constructor|].
    split; [done|]. by repeat constructor.
Qed.

Lemma bridge_inv_set_session sid a' b :
  bridge_inv b → session_entry_wf b sid a' →
  bridge_inv (set_sessions (<[sid := a']> (sessions b)) b).
Proof.
  intros [Hp Hc Hs Hsub] Ha. constructor; [done..| |].
  - intros sid' a. simpl. intros [[<- <-]|[_ ?]]%lookup_insert_Some; [done|by apply Hs].
  - intros sid' s (? & ? & ?)%Hsub. simpl. rewrite lookup_insert_is_Some'. naive_solver.
Qed.

Lemma handle_provider_event_preserves pid e b b' r :
  bridge_inv b → event_wf e → handle_provider_event pid e b = (b', r) → bridge_inv b'.
Proof.
  intros Hinv Hwf Hr.
  apply handle_provider_event_inv in Hr
    as [[-> _]|[[-> _]|(p & s & routes & a' & Hp & Hs & Hv & Hroutes & Hred & -> & _)]]; [done..| |done|done].
  apply (bridge_inv_after_delivery e (session_view_for routes a') routes
    (set_sessions (<[event_session_id e := a']> (sessions b)) b)).
  - apply bridge_inv_set_session; [done|]. by eapply reduces_entry_wf.
  - by destruct (channel_target_registered _ _ _ _ _ _ Hinv Hroutes).
Qed.

Lemma handle_interaction_response_preserves cid response b b' r :
  bridge_inv b → handle_interaction_response cid response b = (b', r) → bridge_inv b'.
Proof.
  intros Hinv [[-> _]|(c & a & p & request & _ & _ & Hp & _ & _ & _ & -> & _)]
    %handle_interaction_response_inv; [done|]. by apply hand_provider_inv.
Qed.

Lemma handle_command_preserves cid command b b' r :
  bridge_inv b → handle_command cid command b = (b', r) → bridge_inv b'.
Proof.
  intros Hinv [[-> _]|(c & a & p & _ & _ & Hp & _ & _ & -> & _)]
    %handle_command_inv; [done|]. by apply hand_provider_inv.
Qed.
End event_preservation.

(** ** Executions of a Bridge *)

Section executions.
Context `{Externals}.
Implicit Types (b : Bridge).

(** The operations the runtime performs on its Bridge. *)
Inductive BridgeOp : Type :=
| Op_RegisterProvider (port : ProviderPort)
| Op_RegisterChannel (port : ChannelPort)
| Op_Subscribe (cid : ChannelId) (sid : SessionId)
| Op_SyncSession (cid : ChannelId) (sid : SessionId) (requested_after : u64) (max_events : N)
| Op_Unsubscribe (cid : ChannelId) (sid : SessionId)
| Op_UnsubscribeChannel (cid : ChannelId)
| Op_ProviderEvent (pid : ProviderId) (event : AgentEvent)
| Op_InteractionResponse (cid : ChannelId) (response : InteractionResponse)
| Op_Command (cid : ChannelId) (command : AgentCommand).

(** Events are values of [AgentEvent], which only its constructor builds. *)
Definition op_wf (op : BridgeOp) : Prop :=
  match op with Op_ProviderEvent _ e => event_wf e | _ => True end.

(** The state an operation leaves, whatever it returns. *)
Definition run_op (op : BridgeOp) b : Bridge :=
  match op with
  | Op_RegisterProvider port => (register_provider port b).1
  | Op_RegisterChannel port => (register_channel port b).1
  | Op_Subscribe cid sid => (subscribe cid sid b).1
  | Op_SyncSession cid sid after max => (sync_session cid sid after max b).1
  | Op_Unsubscribe cid sid => (unsubscribe cid sid b).1
  | Op_UnsubscribeChannel cid => (unsubscribe_channel cid b).1
  | Op_ProviderEvent pid e => (handle_provider_event pid e b).1
  | Op_InteractionResponse cid response => (handle_interaction_response cid response b).1
  | Op_Command cid command => (handle_command cid command b).1
  end.

Inductive bridge_step : Bridge → Bridge → Prop :=
| bridge_step_op op b : op_wf op → bridge_step b (run_op op b).

Definition reachable_bridge (cfg : SessionAggregateConfig) b : Prop :=
  rtc bridge_step (Bridge_with_session_config cfg) b.

Lemma bridge_inv_empty cfg : bridge_inv (Bridge_with_session_config cfg).
Proof. constructor; simpl; intros ??; by rewrite lookup_empty. Qed.

Lemma run_op_inv op b : bridge_inv b → op_wf op → bridge_inv (run_op op b).
Proof.
  intros Hinv Hwf. destruct op; simpl in *.
  - by eapply register_provider_inv, surjective_pairing.
  - by eapply register_channel_inv, surjective_pairing.
  - by eapply subscribe_preserves, surjective_pairing.
  - by eapply sync_session_preserves, surjective_pairing.
  - by eapply unsubscribe_preserves, surjective_pairing.
  - by eapply unsubscribe_channel_preserves, surjective_pairing.
  - by eapply handle_provider_event_preserves, surjective_pairing.
  - by eapply handle_interaction_response_preserves, surjective_pairing.
  - by eapply handle_command_preserves, surjective_pairing.
Qed.

Lemma reachable_bridge_inv cfg b : reachable_bridge cfg b → bridge_inv b.
Proof.
  unfold reachable_bridge. intros Hb.
  assert (∀ b0 b1, rtc bridge_step b0 b1 → bridge_inv b0 → bridge_inv b1) as Hstep.
  { induction 1 as [|? ? ? [op b2 Hwf] _ IH]; [done|]. intros Hinv. by apply IH, run_op_inv. }
  apply (Hstep _ _ Hb), bridge_inv_empty.
Qed.
End executions.

(** ** Catch-up synchronization *)

Section catch_up.
Context `{Externals}.
Implicit Types (b : Bridge) (e : AgentEvent) (a : SessionAggregate).

(** Every pending request of a stored session has a route for every channel. *)
Lemma route_pending_total cfg h a p channel :
  history cfg h a →
  provider_id p = session_provider_id (session a) →
  Forall (λ e, validate_provider_event p (session a) e = Ok ()) h →
  ∃ pending, route_pending p channel (session a) a = Ok pending ∧
    routed_request <$> pending = btree_values (pending_interactions a).
Proof.
  intros Hh Hp Hall.
  assert (∃ pending, route_pending p channel (session a) a = Ok pending) as [pending Hpend].
  { apply try_collect_all_ok, Forall_forall. intros r [id Hr]%elem_of_btree_values.
    destruct (history_inv _ _ _ Hh) as (_ & _ & Hpending & _).
    destruct (Hpending id r Hr) as (_ & Hsid & _).
    apply (history_pending _ _ _ id r Hh) in Hr as (h1 & e & h2 & -> & Hop & _).
    apply Forall_app in Hall as [_ Hall]. apply Forall_cons in Hall as [Hv _].
    apply validate_provider_event_Ok in Hv as (_ & _ & _ & Hcap).
    unfold request_of in Hop.
    destruct (event_payload e) as [| | | | | | |r'| | | |]; try done.
    case_bool_decide; simplify_eq/=.
    assert (∃ route, interaction_route p channel (session a) r = Ok route) as [route ->]; [|done].
    eexists. by apply interaction_route_Ok. }
  exists pending. split; [done|]. unfold route_pending in Hpend. rewrite try_collect_Ok in Hpend.
  induction Hpend as [|r routed l pending' Hr _ IH]; [done|]. rewrite fmap_cons, IH. f_equal.
  by destruct (interaction_route _ _ _ r); simplify_eq/=.
Qed.

Lemma route_events_total p channel s events :
  Forall event_wf events →
  Forall (λ e, validate_provider_event p s e = Ok ()) events →
  ∃ routed, try_collect (λ e, map_err BaselineRoute
      (MkRoutedAgentEvent e <$> channel_event_route p channel s e)) events = Ok routed ∧
    routed_event <$> routed = events.
Proof.
  induction 1 as [|e events Hwf _ IH]; intros Hall; [by exists []|].
  apply Forall_cons in Hall as [Hv Hall]. destruct (IH Hall) as (routed & Hr & Heq).
  destruct (channel_event_route_total p channel s e Hwf Hv) as [route Hroute].
  exists (MkRoutedAgentEvent e route :: routed). cbn [try_collect]. rewrite Hr, Hroute. simpl.
  split; [done|]. by rewrite <-Heq.
Qed.

Lemma history_wf cfg h a : history cfg h a → Forall event_wf h.
Proof.
  induction 1; [by apply Forall_singleton|]. apply Forall_app. split; [done|].
  by apply Forall_singleton.
Qed.
(** The page a client asking for [after] gets from the history [h]: where it
    starts, and whether the client has to start over. *)
Definition page_start cfg (h : list AgentEvent) (after : u64) : option (u64 * bool) :=
  if decide (retained_from cfg h ≤ N.to_nat (raw after) ≤ length h) then Some (after, false)
  else if decide (retained_from cfg h = 0) then Some (u64_zero, true)
  else None.

Lemma select_page_spec cfg h a cid after max :
  history cfg h a →
  select_page a cid after max =
  match page_start cfg h after with
  | Some (from, reset) => Ok (from, reset, take (N.to_nat max) (drop (N.to_nat (raw from)) h))
  | None => Err (history_unavailable cid)
  end.
Proof.
  intros Hh. assert (h ≠ []) as Hne by by eapply history_nonempty.
  assert (length h ≠ 0) by by destruct h. unfold select_page, page_start.
  rewrite !(retained_page _ _ _ _ _ Hh). unfold u64_zero. cbn [raw].
  assert (retained_from cfg h ≤ length h) by (unfold retained_from; case_match; lia).
  repeat case_decide; try lia; simpl; try done.
  rewrite drop_ge, take_nil by lia. done.
Qed.

(** The last sequence of a page. *)
Lemma page_through cfg h a n k :
  history cfg h a → n ≤ length h →
  match last (take k (drop n h)) with
  | Some e => event_num e
  | None => N.of_nat n
  end = N.of_nat (min (n + k) (length h)).
Proof.
  intros Hh Hn. destruct (history_cursor _ _ _ Hh) as (Hnum & _).
  destruct (decide (min k (length h - n) = 0)) as [H0|H0].
  - assert (take k (drop n h) = []) as ->; [|simpl; lia].
    apply nil_length_inv. rewrite length_take, length_drop. lia.
  - rewrite last_lookup, length_take, length_drop, lookup_take_lt, lookup_drop by lia.
    destruct (lookup_lt_is_Some_2 h (n + pred (min k (length h - n)))) as [e He]; [lia|].
    rewrite He, (Hnum _ _ He). f_equal. lia.
Qed.

(** What [prepare_sync] produces for a stored session. *)
Definition sync_of_page h a (from : u64) (reset : bool) (max : N) (sync : ChannelSessionSync) :
    Prop :=
  sync_after_sequence sync = from ∧ sync_reset sync = reset ∧
  routed_event <$> sync_events sync = take (N.to_nat max) (drop (N.to_nat (raw from)) h) ∧
  N.to_nat (raw (sync_through_sequence sync)) =
    min (N.to_nat (raw from) + N.to_nat max) (length h) ∧
  match sync_baseline sync with
  | Some baseline =>
      N.to_nat (raw (sync_through_sequence sync)) = length h ∧
      baseline_session baseline = session a ∧ baseline_sequence baseline = last_sequence a ∧
      routed_request <$> baseline_pending_interactions baseline =
        btree_values (pending_interactions a)
  | None => N.to_nat (raw (sync_through_sequence sync)) < length h
  end.

Lemma prepare_sync_spec cfg h a cid channel p after max :
  history cfg h a →
  provider_id p = session_provider_id (session a) →
  Forall (λ e, validate_provider_event p (session a) e = Ok ()) h →
  match page_start cfg h after with
  | Some (from, reset) => ∃ sync, prepare_sync cid a channel p after max = Ok sync ∧
      sync_of_page h a from reset max sync
  | None => prepare_sync cid a channel p after max = Err (history_unavailable cid)
  end.
Proof.
  intros Hh Hp Hall. unfold prepare_sync. rewrite (select_page_spec _ _ _ _ _ _ Hh).
  destruct (page_start cfg h after) as [[from reset]|] eqn:Epage; [simpl|done].
  assert (N.to_nat (raw from) ≤ length h) as Hfrom.
  { unfold page_start in Epage. repeat case_decide; simplify_eq; simpl; lia. }
  set (page := take (N.to_nat max) (drop (N.to_nat (raw from)) h)).
  assert (∀ P : AgentEvent → Prop, Forall P h → Forall P page) as Hpage.
  { intros P HP. by apply Forall_take, Forall_drop. }
  destruct (route_events_total p channel (session a) page) as (routed & -> & Hrouted);
    [by eapply Hpage, history_wf|by apply Hpage|]. simpl.
  set (through := match last page with
                  | Some e => counter_get (event_sequence e) | None => from end).
  assert (N.to_nat (raw through) =
    min (N.to_nat (raw from) + N.to_nat max) (length h)) as Hthrough.
  { pose proof (page_through _ _ _ (N.to_nat (raw from)) (N.to_nat max) Hh Hfrom) as Ht.
    fold page in Ht. subst through. unfold event_num, counter_num in Ht.
    destruct (last page); unfold counter_get; rewrite ?raw_nonzero_get; lia. }
  assert (length h = N.to_nat (raw (counter_get (last_sequence a)))) as Hlen.
  { destruct (history_cursor _ _ _ Hh) as (_ & _ & Hn & _).
    unfold event_num, counter_num, last_sequence, counter_get in *. rewrite raw_nonzero_get. lia. }
  destruct (route_pending_total _ _ _ p channel Hh Hp Hall) as (pending & Hpend & Hreq).
  case_bool_decide as Hfin.
  - rewrite Hpend. simpl. eexists. split; [reflexivity|]. unfold sync_of_page; simpl.
    split_and!; try done. by rewrite Hfin.
  - simpl. eexists. split; [reflexivity|]. unfold sync_of_page; simpl.
    split_and!; try done.
    assert (N.to_nat (raw through) ≠ length h); [|lia].
    intros Heq. apply Hfin, refined_eq. lia.
Qed.
End catch_up.

(** ** A client that pages through the history *)

Section paging.
Context `{Externals}.
Implicit Types (b : Bridge) (a : SessionAggregate).

(** A client resumes from where the previous page ended until it is
    subscribed; [fuel] bounds the number of further pages. *)
Fixpoint catch_up (fuel : nat) (cid : ChannelId) (sid : SessionId) (after : u64) (max : N) :
    act Bridge SubscriptionError bool :=
  outcome ← sync_session cid sid after max;
  if outcome_subscribed outcome then mret true
  else match fuel with
       | 0 => mret false
       | S fuel' => catch_up fuel' cid sid (outcome_through_sequence outcome) max
       end.

Definition accepts_all (c : RegisteredChannel) : Prop :=
  ∀ log call, channel_port_accept (registered_channel_port c) log call = Ok ().

Lemma sync_session_page b cid sid c a h p after max from reset :
  bridge_inv b → channels b !! cid = Some c → accepts_all c →
  sessions b !! sid = Some a → session_history b a h p →
  is_subscribed b cid sid = false → max ≠ 0%N →
  page_start (session_config b) h after = Some (from, reset) →
  ∃ sync, sync_of_page h a from reset max sync ∧
    let b1 := hand_channel cid c (DeliverSessionSync sync) b in
    sync_session cid sid after max b =
    (if sync_is_final sync then add_subscription sid cid b1 else b1,
     Ok (MkSyncOutcome (sync_through_sequence sync) (length (sync_events sync)) reset
           (sync_is_final sync)
           match sync_baseline sync with
           | Some baseline => length (baseline_pending_interactions baseline)
           | None => 0
           end)).
Proof.
  intros Hinv Hc Hacc Ha (Hh & Hp & Hall) Hsub Hmax Hpage.
  pose proof (prepare_sync_spec _ _ _ cid (registered_channel_descriptor c)
    (registered_provider_descriptor p) after max Hh (inv_providers _ Hinv _ _ Hp) Hall) as Hprep.
  rewrite Hpage in Hprep. destruct Hprep as (sync & Hsync & Hof).
  exists sync. split; [done|]. unfold sync_session.
  destruct (N.eqb_spec max 0); [done|]. unfold_act. rewrite Hc. simpl. rewrite Ha. simpl.
  rewrite Hsub, Hp. simpl. rewrite Hsync. simpl. rewrite Hacc. simpl.
  destruct Hof as (_ & -> & _). by destruct (sync_is_final sync).
Qed.

(** The pages in the order they were handed over. *)
Definition pages_of (calls : list ChannelCall) : list AgentEvent :=
  calls ≫= λ call, match call with
                   | DeliverSessionSync sync => routed_event <$> sync_events sync
                   | _ => []
                   end.

Lemma page_start_resume cfg h (n : u64) :
  retained_from cfg h ≤ N.to_nat (raw n) ≤ length h → page_start cfg h n = Some (n, false).
Proof. intros. unfold page_start. by rewrite decide_True. Qed.

Lemma page_start_bound cfg h after from reset :
  page_start cfg h after = Some (from, reset) →
  retained_from cfg h ≤ N.to_nat (raw from) ≤ length h.
Proof. unfold page_start. repeat case_decide; intros; simplify_eq; simpl; lia. Qed.

Lemma sync_not_final sync : sync_is_final sync = false → sync_baseline sync = None.
Proof. unfold sync_is_final. destruct (sync_baseline sync); [done|by intros]. Qed.

Lemma is_subscribed_add sid cid b : is_subscribed (add_subscription sid cid b) cid sid = true.
Proof.
  unfold is_subscribed, add_subscription. simpl. rewrite lookup_insert_eq.
  apply bool_decide_eq_true. set_solver.
Qed.

(** The last page completes the history and subscribes. *)
Lemma final_page b cid sid c a h from reset max sync :
  sync_of_page h a from reset max sync → sync_is_final sync = true →
  ∃ b' c' pages,
    (add_subscription sid cid (hand_channel cid c (DeliverSessionSync sync) b), Ok true) =
      (b', Ok true : result SubscriptionError bool) ∧
    channels b' !! cid = Some c' ∧
    registered_channel_calls c' = registered_channel_calls c ++ pages ∧
    pages_of pages = drop (N.to_nat (raw from)) h ∧
    is_subscribed b' cid sid = true ∧ sessions b' = sessions b ∧ providers b' = providers b.
Proof.
  intros (_ & _ & Hev & Hthrough & Hbase) Hfin.
  eexists _, (channel_handoff c (DeliverSessionSync sync)).1, [_].
  split; [reflexivity|]. split; [simpl; by rewrite lookup_insert_eq|]. split; [done|].
  split; [|split; [apply is_subscribed_add|done]].
  unfold sync_is_final in Hfin. unfold pages_of. cbn [mbind list_bind]. rewrite app_nil_r, Hev.
  apply take_ge. rewrite length_drop.
  destruct (sync_baseline sync); [|by apply bool_decide_eq_true in Hfin as [??]]. lia.
Qed.

(** Paging from an available cursor hands over the rest of the history, each
    event once and in order, and ends with the subscription, in at most one
    page per missing event and one more. *)
Lemma catch_up_spec fuel b cid sid c a h p after max from reset :
  bridge_inv b → channels b !! cid = Some c → accepts_all c →
  sessions b !! sid = Some a → session_history b a h p →
  is_subscribed b cid sid = false → max ≠ 0%N →
  page_start (session_config b) h after = Some (from, reset) →
  length h - N.to_nat (raw from) ≤ fuel →
  ∃ b' c' pages, catch_up fuel cid sid after max b = (b', Ok true) ∧
    channels b' !! cid = Some c' ∧
    registered_channel_calls c' = registered_channel_calls c ++ pages ∧
    pages_of pages = drop (N.to_nat (raw from)) h ∧
    is_subscribed b' cid sid = true ∧ sessions b' = sessions b ∧ providers b' = providers b.
Proof.
  revert b c after from reset.
  induction fuel as [|fuel IH]; intros b c after from reset Hinv Hc Hacc Ha Hh Hsub Hmax Hpage Hfuel;
    destruct (sync_session_page b cid sid c a h p after max from reset) as (sync & Hof & Hsync);
    try done; cbn [catch_up]; unfold mbind, act_bind; rewrite Hsync; cbn [outcome_subscribed];
    pose proof (page_start_bound _ _ _ _ _ Hpage) as Hfrom;
    pose proof Hof as (_ & _ & Hev & Hthrough & Hbase);
    destruct (sync_is_final sync) eqn:Hfin.
  - by eapply final_page.
  - apply sync_not_final in Hfin. rewrite Hfin in Hbase. lia.
  - by eapply final_page.
  - apply sync_not_final in Hfin. rewrite Hfin in Hbase. cbn [outcome_through_sequence].
    set (c1 := (channel_handoff c (DeliverSessionSync sync)).1).
    destruct (IH (hand_channel cid c (DeliverSessionSync sync) b) c1
      (sync_through_sequence sync) (sync_through_sequence sync) false)
      as (b' & c' & pages & Hrun & Hc' & Hcalls & Hpages & Hrest); try done.
    + by apply hand_channel_inv.
    + unfold hand_channel. simpl. by rewrite lookup_insert_eq.
    + apply page_start_resume. simpl. lia.
    + lia.
    + exists b', c', (DeliverSessionSync sync :: pages). split; [done|]. split; [done|].
      split; [by rewrite Hcalls; simpl; rewrite <-app_assoc|]. split; [|done].
      unfold pages_of. cbn [mbind list_bind]. fold (pages_of pages). rewrite Hpages, Hev.
      replace (N.to_nat (raw (sync_through_sequence sync))) with
        (N.to_nat (raw from) + N.to_nat max) by lia.
      by rewrite <-drop_drop, take_drop.
Qed.
End paging.

(** ** The fan-out, per channel *)

Section fanout.
Context `{Externals}.
Implicit Types (b : Bridge) (e : AgentEvent) (c : RegisteredChannel).

Lemma compute_routes_elem b p s e ids routes r :
  compute_routes b p s e ids = Ok routes → r ∈ routes →
  ∃ c, channels b !! r.1.1 = Some c ∧
    channel_event_route p (registered_channel_descriptor c) s e = Ok r.1.2 ∧
    r.2 = contains (channel_capabilities (registered_channel_descriptor c)) ChannelCaps.SESSION_VIEW
          && event_updates_session_view e.
Proof.
  unfold compute_routes. rewrite try_collect_Ok. intros Hall Hr.
  apply (Forall2_flip _ _ _) in Hall.
  apply list_elem_of_lookup in Hr as [i Hi].
  destruct (Forall2_lookup_l _ _ _ _ _ Hall Hi) as (cid & _ & Hcid). simpl in Hcid.
  destruct (channels b !! cid) as [c|] eqn:Ec; [simpl in Hcid|done].
  destruct (channel_event_route _ _ _ _) as [route|] eqn:Er; simplify_eq/=. eauto.
Qed.

(** What one subscriber is handed: the event, and the session view after it
    when the channel shows sessions and took the event. *)
Definition fanout_calls e (route : ChannelEventRoute) (view : AgentSession) c : list ChannelCall :=
  DeliverEvent e route ::
    (if is_ok (channel_handoff c (DeliverEvent e route)).2
        && contains (channel_capabilities (registered_channel_descriptor c)) ChannelCaps.SESSION_VIEW
        && event_updates_session_view e
     then [DeliverSession view] else []).

Lemma deliver_channel_calls e view cid route flag c :
  flag = contains (channel_capabilities (registered_channel_descriptor c)) ChannelCaps.SESSION_VIEW
         && event_updates_session_view e →
  let c' := (deliver_channel e (Some view) (cid, route, flag) c).1 in
  registered_channel_calls c' = registered_channel_calls c ++ fanout_calls e route view c ∧
  delivery_channel_id (deliver_channel e (Some view) (cid, route, flag) c).2 = cid.
Proof.
  intros ->. unfold deliver_channel, deliver_one, fanout_calls. simpl.
  destruct (channel_port_accept _ _ _) as [[]|err]; simpl; [|done].
  destruct (_ && _); simpl; [|done].
  destruct (channel_port_accept _ _ _) as [[]|err2]; simpl; by rewrite <-app_assoc.
Qed.

(** A view that is not needed is not used. *)
Lemma deliver_channel_view e routes a' r c :
  r ∈ routes →
  deliver_channel e (session_view_for routes a') r c = deliver_channel e (Some (session a')) r c.
Proof.
  intros Hr. unfold session_view_for. destruct (existsb snd routes) eqn:Ex; [done|].
  assert (r.2 = false) as Hf.
  { apply not_true_is_false. intros Ht. apply not_true_iff_false in Ex. apply Ex, existsb_exists.
    exists r. split; [by apply list_elem_of_In|done]. }
  unfold deliver_channel, deliver_one. by rewrite Hf.
Qed.

Lemma deliveries_ids e view routes b :
  (∀ r, r ∈ routes → is_Some (channels b !! r.1.1)) →
  (∀ r c, r ∈ routes → channels b !! r.1.1 = Some c →
     delivery_channel_id (deliver_channel e view r c).2 = r.1.1) →
  delivery_channel_id <$> delivery_results e view routes b = (λ r, r.1.1) <$> routes.
Proof.
  unfold delivery_results. induction routes as [|r routes IH]; intros Hreg Hid; [done|].
  cbn [omap list_omap]. destruct (Hreg r) as [c Hc]; [left|]. rewrite Hc.
  cbn [fmap option_fmap option_map]. rewrite !fmap_cons. f_equal.
  - apply Hid; [left|done].
  - apply IH; [intros r' Hr'; apply Hreg; by right|]. intros r' c' Hr'. apply Hid. by right.
Qed.

Lemma accepted_event_fanout b p s e routes a' :
  bridge_inv b →
  compute_routes b p s e (session_subscribers b (event_session_id e)) = Ok routes →
  let view := session_view_for routes a' in
  delivery_channel_id <$> delivery_results e view routes b =
    session_subscribers b (event_session_id e) ∧
  ∀ cid c, channels b !! cid = Some c →
    ∃ c', after_delivery e view routes (channels b) !! cid = Some c' ∧
      registered_channel_descriptor c' = registered_channel_descriptor c ∧
      if is_subscribed b cid (event_session_id e) then
        ∃ route, channel_event_route p (registered_channel_descriptor c) s e = Ok route ∧
          registered_channel_calls c' =
            registered_channel_calls c ++ fanout_calls e route (session a') c
      else c' = c.
Proof.
  intros Hinv Hroutes view.
  destruct (channel_target_registered _ _ _ _ _ _ Hinv Hroutes) as [Hreg Hnd].
  pose proof (compute_routes_targets _ _ _ _ _ _ Hroutes) as Htargets.
  assert (∀ r c, r ∈ routes → channels b !! r.1.1 = Some c →
    registered_channel_calls (deliver_channel e view r c).1 =
      registered_channel_calls c ++ fanout_calls e r.1.2 (session a') c ∧
    delivery_channel_id (deliver_channel e view r c).2 = r.1.1 ∧
    channel_event_route p (registered_channel_descriptor c) s e = Ok r.1.2) as Hone.
  { intros r c Hr Hc. destruct (compute_routes_elem _ _ _ _ _ _ _ Hroutes Hr) as (c0 & Hc0 & Hroute & Hf).
    rewrite Hc in Hc0. injection Hc0 as <-. subst view. rewrite deliver_channel_view by done.
    destruct r as [[cid route] flag]. simpl in *.
    destruct (deliver_channel_calls e (session a') cid route flag c Hf). done. }
  split.
  { rewrite <-Htargets. apply deliveries_ids; [done|]. intros r c Hr Hc. by apply (Hone r c). }
  intros cid c Hc. rewrite after_delivery_lookup by done.
  destruct (List.find (λ r, bool_decide (r.1.1 = cid)) routes) as [r|] eqn:Ef.
  - apply find_some in Ef as [Hr%list_elem_of_In Hcid%bool_decide_eq_true]. subst cid.
    rewrite Hc. simpl. eexists. split; [done|]. split; [apply deliver_channel_descriptor|].
    assert (is_subscribed b r.1.1 (event_session_id e) = true) as ->.
    { apply elem_of_session_subscribers. rewrite <-Htargets.
      by apply (list_elem_of_fmap_2 (λ r, r.1.1)). }
    destruct (Hone r c Hr Hc) as (Hcalls & _ & Hroute). eauto.
  - exists c. split; [done|]. split; [done|].
    destruct (is_subscribed b cid (event_session_id e)) eqn:Es; [|done]. exfalso.
    apply elem_of_session_subscribers in Es. rewrite <-Htargets in Es.
    apply (find_key_None (λ r, r.1.1)) in Ef. done.
Qed.
End fanout.
