(* ===== verification/Runtime.v ===== *)
(** * The Runtime Host

    Models [agentpulse-bridge/src/runtime.rs]: the owner of the Bridge and of
    the adapters' lifecycle.  Ingress permits are shared by reference, so they
    are cells of a heap ([permits]) and a handle holds the address of its
    cell; [Arc::new(IngressPermit::active())] allocates a cell.

    An adapter's Source is code outside the Host.  Each lifecycle callback is
    an argument of the operation that makes it: what the callback returns, and
    the calls that reach the Host through issued handles, from any thread, until
    it returns.  An operation through a handle is one step: the permit's guard
    and the Bridge's mutex are held from its first check to its end, and
    [revoke] takes the same lock. *)

From stdpp Require Import base strings numbers gmap list.
From S2P Require Import Prelude Values Snapshots Capability Interaction Event Aggregate Routing.
From S2P Require Import Bridge.

Abbreviation ThreadId := nat.
Abbreviation PermitRef := nat.

Inductive ChannelSubscriptionScope : Type := Persistent | SourceGeneration.
Inductive RuntimeHostState : Type := Host_Stopped | Host_Started | Host_StopFailed.
Inductive AdapterLifecycleState : Type :=
| Adapter_Stopped | Adapter_Running | Adapter_StartFailed | Adapter_StopFailed.
Inductive AdapterLifecyclePhase : Type := Phase_Start | Phase_Stop.
Inductive RuntimeLifecycleOperation : Type := Lifecycle_Start | Lifecycle_Stop.
Inductive RuntimeLifecycleOutcome : Type :=
| Outcome_Started | Outcome_AlreadyStarted | Outcome_Stopped | Outcome_AlreadyStopped
| Outcome_StopFailed.
Inductive RuntimeAccessError : Type := ReentrantBridgeAccess.

#[export] Instance ChannelSubscriptionScope_eq_dec : EqDecision ChannelSubscriptionScope.
Proof. solve_decision. Defined.
#[export] Instance RuntimeHostState_eq_dec : EqDecision RuntimeHostState.
Proof. solve_decision. Defined.
#[export] Instance AdapterLifecycleState_eq_dec : EqDecision AdapterLifecycleState.
Proof. solve_decision. Defined.

Section runtime.
Context `{Externals}.

Inductive RuntimeEndpointId : Type :=
| Endpoint_Provider (provider_id : ProviderId)
| Endpoint_Channel (channel_id : ChannelId).

#[global] Instance RuntimeEndpointId_eq_dec : EqDecision RuntimeEndpointId.
Proof. solve_decision. Defined.

Record AdapterLifecycleError : Type := MkLifecycleError {
  lifecycle_endpoint : RuntimeEndpointId;
  lifecycle_phase : AdapterLifecyclePhase;
  lifecycle_source : AdapterError
}.

Inductive AdapterLifecycleResult : Type :=
| Lifecycle_Succeeded (endpoint : RuntimeEndpointId)
| Lifecycle_Skipped (endpoint : RuntimeEndpointId) (state : AdapterLifecycleState)
| Lifecycle_Failed (error : AdapterLifecycleError).

Definition result_endpoint (r : AdapterLifecycleResult) : RuntimeEndpointId :=
  match r with
  | Lifecycle_Succeeded endpoint | Lifecycle_Skipped endpoint _ => endpoint
  | Lifecycle_Failed error => lifecycle_endpoint error
  end.
Definition is_success (r : AdapterLifecycleResult) : bool :=
  match r with Lifecycle_Failed _ => false | _ => true end.

Record RuntimeLifecycleReport : Type := MkLifecycleReport {
  report_operation : RuntimeLifecycleOperation;
  lifecycle_outcome : RuntimeLifecycleOutcome;
  report_adapters : list AdapterLifecycleResult
}.

Definition lifecycle_has_failures (r : RuntimeLifecycleReport) : bool :=
  existsb (λ result, negb (is_success result)) (report_adapters r).

Inductive RuntimeLifecycleError : Type :=
| CleanupRequired
| Lifecycle_BridgeAccess (source : RuntimeAccessError)
| AdapterFailures (report : RuntimeLifecycleReport).

Inductive RuntimeRegistrationError : Type :=
| HostNotStopped (state : RuntimeHostState)
| Registration_Endpoint (source : EndpointRegistrationError)
| Registration_BridgeAccess (source : RuntimeAccessError).

Inductive RuntimeSubscriptionError : Type :=
| Subscription_BridgeAccess (source : RuntimeAccessError)
| Subscription_Bridge (source : SubscriptionError).

Inductive ProviderEventIngressError : Type :=
| Ingress_ProviderMismatch (expected actual : ProviderId)
| Provider_Inactive (provider_id : ProviderId)
| Provider_HostDropped (provider_id : ProviderId)
| Provider_BridgeAccess (source : RuntimeAccessError)
| Provider_Bridge (source : ProviderEventError).

Inductive ChannelActionIngressError : Type :=
| Ingress_ChannelMismatch (expected actual : ChannelId)
| Channel_Inactive (channel_id : ChannelId)
| Channel_HostDropped (channel_id : ChannelId)
| Channel_BridgeAccess (source : RuntimeAccessError)
| Channel_Bridge (source : ChannelActionError)
| Channel_Subscription (source : SubscriptionError).

(** ** State *)

Record ProviderEventHandle : Type := MkProviderEventHandle {
  handle_provider_id : ProviderId;
  provider_permit : PermitRef
}.

Record ChannelActionHandle : Type := MkChannelActionHandle {
  handle_channel_id : ChannelId;
  channel_permit : PermitRef
}.

Inductive Handle : Type :=
| Handle_Provider (h : ProviderEventHandle)
| Handle_Channel (h : ChannelActionHandle).

Definition handle_permit (h : Handle) : PermitRef :=
  match h with Handle_Provider h => provider_permit h | Handle_Channel h => channel_permit h end.
Definition handle_endpoint (h : Handle) : RuntimeEndpointId :=
  match h with
  | Handle_Provider h => Endpoint_Provider (handle_provider_id h)
  | Handle_Channel h => Endpoint_Channel (handle_channel_id h)
  end.

Inductive RegisteredSource : Type :=
| Source_Provider (provider_id : ProviderId)
| Source_Channel (channel_id : ChannelId) (subscription_scope : ChannelSubscriptionScope).

Definition source_endpoint (s : RegisteredSource) : RuntimeEndpointId :=
  match s with
  | Source_Provider pid => Endpoint_Provider pid
  | Source_Channel cid _ => Endpoint_Channel cid
  end.

Definition source_generation_channel (s : RegisteredSource) : option ChannelId :=
  match s with
  | Source_Channel cid SourceGeneration => Some cid
  | Source_Provider _ | Source_Channel _ Persistent => None
  end.

(** The handle [RegisteredSource::start] passes to the Source. *)
Definition source_handle (s : RegisteredSource) (permit : PermitRef) : Handle :=
  match s with
  | Source_Provider pid => Handle_Provider (MkProviderEventHandle pid permit)
  | Source_Channel cid _ => Handle_Channel (MkChannelActionHandle cid permit)
  end.

Record RegisteredAdapter : Type := MkAdapter {
  adapter_source : RegisteredSource;
  adapter_state : AdapterLifecycleState;
  adapter_permit : option PermitRef
}.

Definition adapter_endpoint (a : RegisteredAdapter) : RuntimeEndpointId :=
  source_endpoint (adapter_source a).
Definition set_adapter_state (st : AdapterLifecycleState) (a : RegisteredAdapter) :
    RegisteredAdapter := MkAdapter (adapter_source a) st (adapter_permit a).

(** [SharedBridge]: the Bridge and the thread that owns it. *)
Record SharedBridge : Type := MkSharedBridge {
  shared_bridge : Bridge;
  shared_owner : option ThreadId
}.

(** The Host, the permit heap and the handles issued so far.  [host_alive] is
    whether a [Weak<SharedBridge>] still upgrades. *)
Record RuntimeHost : Type := MkHost {
  host_state : RuntimeHostState;
  adapters : list RegisteredAdapter;
  bridge : SharedBridge;
  permits : list bool;
  handles : list Handle;
  host_alive : bool
}.

Definition set_host_state (st : RuntimeHostState) (w : RuntimeHost) : RuntimeHost :=
  MkHost st (adapters w) (bridge w) (permits w) (handles w) (host_alive w).
Definition set_adapters (l : list RegisteredAdapter) (w : RuntimeHost) : RuntimeHost :=
  MkHost (host_state w) l (bridge w) (permits w) (handles w) (host_alive w).
Definition set_bridge (b : SharedBridge) (w : RuntimeHost) : RuntimeHost :=
  MkHost (host_state w) (adapters w) b (permits w) (handles w) (host_alive w).
Definition set_permits (p : list bool) (w : RuntimeHost) : RuntimeHost :=
  MkHost (host_state w) (adapters w) (bridge w) p (handles w) (host_alive w).

Definition RuntimeHost_with_session_config (cfg : SessionAggregateConfig) : RuntimeHost :=
  MkHost Host_Stopped [] (MkSharedBridge (Bridge_with_session_config cfg) None) [] [] true.
Definition RuntimeHost_new : RuntimeHost :=
  RuntimeHost_with_session_config SessionAggregateConfig_default.

(** ** Permits and serialized Bridge access *)

(** [IngressPermit::enter] and [revoke]. *)
Definition permit_enter (w : RuntimeHost) (p : PermitRef) : bool :=
  default false (permits w !! p).
Definition permit_revoke (p : PermitRef) (w : RuntimeHost) : RuntimeHost :=
  set_permits (<[p := false]> (permits w)) w.

(** [self.bridge.access()?] followed by an operation on the guard, which is
    dropped at the end and clears the owner. *)
Definition with_access {E A} (thread : ThreadId) (on_access : RuntimeAccessError → E)
    (operation : act Bridge E A) : act RuntimeHost E A := λ w,
  if bool_decide (shared_owner (bridge w) = Some thread)
  then (w, Err (on_access ReentrantBridgeAccess))
  else let '(b', r) := operation (shared_bridge (bridge w)) in
       (set_bridge (MkSharedBridge b' None) w, r).

(** A Bridge operation with its error wrapped. *)
Definition wrap {E F A} (f : E → F) (m : act Bridge E A) : act Bridge F A := λ b,
  let '(b', r) := m b in (b', map_err f r).

(** ** Ingress handles *)

Definition publish_event (thread : ThreadId) (h : ProviderEventHandle) (event : AgentEvent) :
    act RuntimeHost ProviderEventIngressError ProviderEventReport :=
  w ← gets id;
  if negb (host_alive w) then throw (Provider_HostDropped (handle_provider_id h))
  else if negb (permit_enter w (provider_permit h))
  then throw (Provider_Inactive (handle_provider_id h))
  else with_access thread Provider_BridgeAccess
         (wrap Provider_Bridge (handle_provider_event (handle_provider_id h) event)).

(** [impl ProviderEventSink for ProviderEventHandle] *)
Definition sink_publish_event (thread : ThreadId) (h : ProviderEventHandle)
    (provider_id : ProviderId) (event : AgentEvent) :
    act RuntimeHost ProviderEventIngressError unit :=
  if negb (bool_decide (provider_id = handle_provider_id h)) then
    throw (Ingress_ProviderMismatch (handle_provider_id h) provider_id)
  else _ ← publish_event thread h event; mret ().

Definition with_bridge_access {A} (thread : ThreadId) (h : ChannelActionHandle)
    (operation : act Bridge ChannelActionIngressError A) :
    act RuntimeHost ChannelActionIngressError A :=
  w ← gets id;
  if negb (host_alive w) then throw (Channel_HostDropped (handle_channel_id h))
  else if negb (permit_enter w (channel_permit h))
  then throw (Channel_Inactive (handle_channel_id h))
  else with_access thread Channel_BridgeAccess operation.

Definition handle_discovery_snapshot (thread : ThreadId) (h : ChannelActionHandle) :
    act RuntimeHost ChannelActionIngressError ChannelDiscoverySnapshot :=
  with_bridge_access thread h (gets discovery_snapshot).
Definition handle_subscribe (thread : ThreadId) (h : ChannelActionHandle) (sid : SessionId) :
    act RuntimeHost ChannelActionIngressError SubscribeOutcome :=
  with_bridge_access thread h (wrap Channel_Subscription (subscribe (handle_channel_id h) sid)).
Definition handle_sync_session (thread : ThreadId) (h : ChannelActionHandle) (sid : SessionId)
    (after_sequence : u64) (max_events : N) :
    act RuntimeHost ChannelActionIngressError SessionSyncOutcome :=
  with_bridge_access thread h
    (wrap Channel_Subscription (sync_session (handle_channel_id h) sid after_sequence max_events)).
Definition handle_unsubscribe (thread : ThreadId) (h : ChannelActionHandle) (sid : SessionId) :
    act RuntimeHost ChannelActionIngressError UnsubscribeOutcome :=
  with_bridge_access thread h (wrap Channel_Subscription (unsubscribe (handle_channel_id h) sid)).
Definition submit_interaction_response (thread : ThreadId) (h : ChannelActionHandle)
    (response : InteractionResponse) : act RuntimeHost ChannelActionIngressError unit :=
  with_bridge_access thread h
    (wrap Channel_Bridge (handle_interaction_response (handle_channel_id h) response)).
Definition submit_command (thread : ThreadId) (h : ChannelActionHandle)
    (command : AgentCommand) : act RuntimeHost ChannelActionIngressError unit :=
  with_bridge_access thread h
    (wrap Channel_Bridge (handle_command (handle_channel_id h) command)).

(** [impl ChannelActionSink for ChannelActionHandle] *)
Definition sink_submit_interaction_response (thread : ThreadId) (h : ChannelActionHandle)
    (channel_id : ChannelId) (response : InteractionResponse) :
    act RuntimeHost ChannelActionIngressError unit :=
  if negb (bool_decide (channel_id = handle_channel_id h)) then
    throw (Ingress_ChannelMismatch (handle_channel_id h) channel_id)
  else submit_interaction_response thread h response.
Definition sink_submit_command (thread : ThreadId) (h : ChannelActionHandle)
    (channel_id : ChannelId) (command : AgentCommand) :
    act RuntimeHost ChannelActionIngressError unit :=
  if negb (bool_decide (channel_id = handle_channel_id h)) then
    throw (Ingress_ChannelMismatch (handle_channel_id h) channel_id)
  else submit_command thread h command.

(** What can be done through an issued handle. *)
Inductive IngressOp : Type :=
| Ingress_Publish (event : AgentEvent)
| Ingress_Discovery
| Ingress_Subscribe (sid : SessionId)
| Ingress_Sync (sid : SessionId) (after_sequence : u64) (max_events : N)
| Ingress_Unsubscribe (sid : SessionId)
| Ingress_Respond (response : InteractionResponse)
| Ingress_Command (command : AgentCommand).

(** A thread uses the handle issued as number [call_handle]. *)
Record IngressCall : Type := MkCall {
  call_thread : ThreadId;
  call_handle : nat;
  call_op : IngressOp
}.

(** The Host after a call; a handle that was never issued cannot be used, and
    a Provider handle has no Channel operations, nor the reverse. *)
Definition run_call (call : IngressCall) (w : RuntimeHost) : RuntimeHost :=
  let t := call_thread call in
  match handles w !! call_handle call, call_op call with
  | Some (Handle_Provider h), Ingress_Publish event => (publish_event t h event w).1
  | Some (Handle_Channel h), Ingress_Discovery => (handle_discovery_snapshot t h w).1
  | Some (Handle_Channel h), Ingress_Subscribe sid => (handle_subscribe t h sid w).1
  | Some (Handle_Channel h), Ingress_Sync sid after max =>
      (handle_sync_session t h sid after max w).1
  | Some (Handle_Channel h), Ingress_Unsubscribe sid => (handle_unsubscribe t h sid w).1
  | Some (Handle_Channel h), Ingress_Respond response =>
      (submit_interaction_response t h response w).1
  | Some (Handle_Channel h), Ingress_Command command => (submit_command t h command w).1
  | _, _ => w
  end.

Definition run_calls (calls : list IngressCall) (w : RuntimeHost) : RuntimeHost :=
  foldl (λ w call, run_call call w) w calls.

(** ** Registration and Host subscriptions *)

Definition host_register_provider (thread : ThreadId) (port : ProviderPort) :
    act RuntimeHost RuntimeRegistrationError unit :=
  w ← gets id;
  if negb (bool_decide (host_state w = Host_Stopped)) then throw (HostNotStopped (host_state w))
  else
    let pid := provider_id (provider_port_descriptor port) in
    _ ← with_access thread Registration_BridgeAccess
          (wrap Registration_Endpoint (register_provider port));
    modify (λ w, set_adapters
      (adapters w ++ [MkAdapter (Source_Provider pid) Adapter_Stopped None]) w).

Definition host_register_channel (thread : ThreadId) (port : ChannelPort)
    (subscription_scope : ChannelSubscriptionScope) :
    act RuntimeHost RuntimeRegistrationError unit :=
  w ← gets id;
  if negb (bool_decide (host_state w = Host_Stopped)) then throw (HostNotStopped (host_state w))
  else
    let cid := channel_id (channel_port_descriptor port) in
    _ ← with_access thread Registration_BridgeAccess
          (wrap Registration_Endpoint (register_channel port));
    modify (λ w, set_adapters
      (adapters w ++ [MkAdapter (Source_Channel cid subscription_scope) Adapter_Stopped None]) w).

Definition host_subscribe (thread : ThreadId) (cid : ChannelId) (sid : SessionId) :
    act RuntimeHost RuntimeSubscriptionError SubscribeOutcome :=
  with_access thread Subscription_BridgeAccess (wrap Subscription_Bridge (subscribe cid sid)).
Definition host_unsubscribe (thread : ThreadId) (cid : ChannelId) (sid : SessionId) :
    act RuntimeHost RuntimeSubscriptionError UnsubscribeOutcome :=
  with_access thread Subscription_BridgeAccess (wrap Subscription_Bridge (unsubscribe cid sid)).

(** ** Lifecycle *)

(** A Source callback: the calls that arrive until it returns, and its result. *)
Record Callback : Type := MkCallback {
  callback_calls : list IngressCall;
  callback_result : result AdapterError unit
}.

Definition update_adapter (i : nat) (f : RegisteredAdapter → RegisteredAdapter)
    (w : RuntimeHost) : RuntimeHost := set_adapters (alter f i (adapters w)) w.

Definition lifecycle_result (endpoint : RuntimeEndpointId) (phase : AdapterLifecyclePhase)
    (r : result AdapterError unit) : AdapterLifecycleResult :=
  match r with
  | Ok _ => Lifecycle_Succeeded endpoint
  | Err source => Lifecycle_Failed (MkLifecycleError endpoint phase source)
  end.

(** [RegisteredAdapter::start]: allocate a permit, pass its handle to the
    Source, and revoke it unless the Source started. *)
Definition adapter_start (i : nat) (a : RegisteredAdapter) (cb : Callback) (w : RuntimeHost) :
    RuntimeHost * AdapterLifecycleResult :=
  let permit := length (permits w) in
  let w1 := MkHost (host_state w)
              (<[i := MkAdapter (adapter_source a) Adapter_StartFailed (Some permit)]> (adapters w))
              (bridge w) (permits w ++ [true])
              (handles w ++ [source_handle (adapter_source a) permit]) (host_alive w) in
  let w2 := run_calls (callback_calls cb) w1 in
  let w3 := match callback_result cb with
            | Ok _ => update_adapter i (set_adapter_state Adapter_Running) w2
            | Err _ => permit_revoke permit w2
            end in
  (w3, lifecycle_result (adapter_endpoint a) Phase_Start (callback_result cb)).

(** [for adapter in &mut self.adapters]; an adapter without a callback in the
    list has a Source that returns at once. *)
Fixpoint start_loop (i : nat) (todo : list RegisteredAdapter) (cbs : list Callback)
    (w : RuntimeHost) : RuntimeHost * list AdapterLifecycleResult :=
  match todo with
  | [] => (w, [])
  | a :: todo' =>
      let cb := default (MkCallback [] (Ok ())) (head cbs) in
      let '(w', r) := adapter_start i a cb w in
      let '(w'', rs) := start_loop (S i) todo' (tail cbs) w' in
      (w'', r :: rs)
  end.

Definition start (cbs : list Callback) :
    act RuntimeHost RuntimeLifecycleError RuntimeLifecycleReport := λ w,
  match host_state w with
  | Host_Started => (w, Ok (MkLifecycleReport Lifecycle_Start Outcome_AlreadyStarted []))
  | Host_StopFailed => (w, Err CleanupRequired)
  | Host_Stopped =>
      let '(w', results) := start_loop 0 (adapters w) cbs w in
      let report := MkLifecycleReport Lifecycle_Start Outcome_Started results in
      (set_host_state Host_Started w',
       if lifecycle_has_failures report then Err (AdapterFailures report) else Ok report)
  end.

Definition adapter_revoke_ingress (a : RegisteredAdapter) (w : RuntimeHost) : RuntimeHost :=
  match adapter_permit a with Some p => permit_revoke p w | None => w end.

Definition revoke_all_ingress (w : RuntimeHost) : RuntimeHost :=
  foldl (λ w a, adapter_revoke_ingress a w) w (adapters w).

Definition source_generation_channels (w : RuntimeHost) : list ChannelId :=
  omap (λ a, source_generation_channel (adapter_source a)) (adapters w).

(** [let _ = bridge.unsubscribe_channel(channel_id);] for each channel. *)
Definition clear_channels (cids : list ChannelId) (b : Bridge) : Bridge :=
  foldl (λ b cid, (unsubscribe_channel cid b).1) b cids.

Definition clear_source_generation_subscriptions (thread : ThreadId) :
    act RuntimeHost RuntimeAccessError unit :=
  w ← gets id;
  let channel_ids := source_generation_channels w in
  if is_empty channel_ids then mret ()
  else with_access thread id (λ b, (clear_channels channel_ids b, Ok ())).

(** [RegisteredAdapter::stop] *)
Definition adapter_stop (i : nat) (a : RegisteredAdapter) (cb : Callback) (w : RuntimeHost) :
    RuntimeHost * AdapterLifecycleResult :=
  let w1 := update_adapter i (set_adapter_state Adapter_StopFailed) (adapter_revoke_ingress a w) in
  let w2 := run_calls (callback_calls cb) w1 in
  let w3 := match callback_result cb with
            | Ok _ => update_adapter i (set_adapter_state Adapter_Stopped) w2
            | Err _ => w2
            end in
  (w3, lifecycle_result (adapter_endpoint a) Phase_Stop (callback_result cb)).

(** [for adapter in self.adapters.iter_mut().rev()], with the position of
    each adapter; only adapters that are not stopped use up a callback. *)
Fixpoint stop_loop (todo : list (nat * RegisteredAdapter)) (cbs : list Callback)
    (w : RuntimeHost) : RuntimeHost * list AdapterLifecycleResult :=
  match todo with
  | [] => (w, [])
  | (i, a) :: todo' =>
      if bool_decide (adapter_state a = Adapter_Stopped) then
        let '(w', rs) := stop_loop todo' cbs w in
        (w', Lifecycle_Skipped (adapter_endpoint a) Adapter_Stopped :: rs)
      else
        let cb := default (MkCallback [] (Ok ())) (head cbs) in
        let '(w', r) := adapter_stop i a cb w in
        let '(w'', rs) := stop_loop todo' (tail cbs) w' in
        (w'', r :: rs)
  end.

Definition stop_order (w : RuntimeHost) : list (nat * RegisteredAdapter) :=
  reverse (imap pair (adapters w)).

Definition stop (thread : ThreadId) (cbs : list Callback) :
    act RuntimeHost RuntimeLifecycleError RuntimeLifecycleReport := λ w,
  if bool_decide (host_state w = Host_Stopped) then
    (w, Ok (MkLifecycleReport Lifecycle_Stop Outcome_AlreadyStopped []))
  else
    let w1 := revoke_all_ingress w in
    match clear_source_generation_subscriptions thread w1 with
    | (w2, Err source) => (w2, Err (Lifecycle_BridgeAccess source))
    | (w2, Ok _) =>
        let '(w3, results) := stop_loop (stop_order w2) cbs w2 in
        let has_failures := existsb (λ result, negb (is_success result)) results in
        let st := if has_failures then Host_StopFailed else Host_Stopped in
        let outcome := if has_failures then Outcome_StopFailed else Outcome_Stopped in
        let report := MkLifecycleReport Lifecycle_Stop outcome results in
        (set_host_state st w3,
         if has_failures then Err (AdapterFailures report) else Ok report)
    end.

(** [impl Drop for RuntimeHost]: afterwards no handle upgrades its reference. *)
Definition host_drop (thread : ThreadId) (cbs : list Callback) (w : RuntimeHost) : RuntimeHost :=
  let w1 := revoke_all_ingress w in
  let w2 := (clear_source_generation_subscriptions thread w1).1 in
  let w3 := (stop_loop (stop_order w2) cbs w2).1 in
  MkHost (host_state w3) [] (bridge w3) (permits w3) (handles w3) false.
End runtime.
