(* ===== verification/RuntimeSpec.v ===== *)
(** * Correctness of the Runtime Host

    Every step of a Host is a sequence of Bridge operations, exactly the
    handles of running adapters are active, a revoked handle stays revoked, and
    start and stop do what their reports say, whatever the Sources do and
    however their calls interleave. *)

From stdpp Require Import base strings numbers sorting relations gmap list.
From S2P Require Import Prelude Values Snapshots Capability Interaction Event Aggregate.
From S2P Require Import AggregateSpec Routing Bridge BridgeSpec Runtime.

Section calls.
Context `{Externals}.
Implicit Types (w : RuntimeHost) (b : Bridge).

Definition call_wf (call : IngressCall) : Prop :=
  match call_op call with Ingress_Publish e => event_wf e | _ => True end.

Definition callback_wf (cb : Callback) : Prop := Forall call_wf (callback_calls cb).

(** Only the Bridge changed, by Bridge operations, and nobody owns it. *)
Definition only_bridge w w' : Prop :=
  w' = set_bridge (MkSharedBridge (shared_bridge (bridge w')) None) w ∧
  rtc bridge_step (shared_bridge (bridge w)) (shared_bridge (bridge w')).

Lemma set_bridge_id w : shared_owner (bridge w) = None →
  set_bridge (MkSharedBridge (shared_bridge (bridge w)) None) w = w.
Proof. destruct w as [? ? [? ?] ? ? ?]. simpl. by intros ->. Qed.

Lemma only_bridge_refl w : shared_owner (bridge w) = None → only_bridge w w.
Proof. intros Ho. split; [by rewrite set_bridge_id|done]. Qed.

Lemma only_bridge_trans w1 w2 w3 : only_bridge w1 w2 → only_bridge w2 w3 → only_bridge w1 w3.
Proof.
  intros [E1 R1] [E2 R2]. split; [|by etrans].
  rewrite E2. simpl. rewrite E1 at 1. done.
Qed.

Lemma only_bridge_owner w w' : only_bridge w w' → shared_owner (bridge w') = None.
Proof. intros [-> _]. done. Qed.

Lemma only_bridge_frame w w' : only_bridge w w' →
  host_state w' = host_state w ∧ adapters w' = adapters w ∧ permits w' = permits w ∧
  handles w' = handles w ∧ host_alive w' = host_alive w.
Proof. intros [-> _]. done. Qed.

Lemma with_access_step {E A} t (f : RuntimeAccessError → E) (m : act Bridge E A) w :
  shared_owner (bridge w) = None →
  (with_access t f m w).1 = set_bridge (MkSharedBridge (m (shared_bridge (bridge w))).1 None) w.
Proof.
  intros Ho. unfold with_access. rewrite Ho, bool_decide_eq_false_2 by done.
  by destruct (m _) as [b' r].
Qed.

Lemma wrap_fst {E F A} (f : E → F) (m : act Bridge E A) b : (wrap f m b).1 = (m b).1.
Proof. unfold wrap. by destruct (m b). Qed.

Lemma with_access_op {E A} t (f : RuntimeAccessError → E) (m : act Bridge E A) op w :
  shared_owner (bridge w) = None → op_wf op →
  (m (shared_bridge (bridge w))).1 = run_op op (shared_bridge (bridge w)) →
  only_bridge w (with_access t f m w).1.
Proof.
  intros Ho Hwf Hm. rewrite with_access_step, Hm by done. split; [done|].
  apply rtc_once. by constructor.
Qed.

(** A channel operation is refused or is the Bridge operation it wraps. *)
Lemma with_bridge_access_op {A} t h (m : act Bridge ChannelActionIngressError A) op w :
  shared_owner (bridge w) = None → op_wf op →
  (m (shared_bridge (bridge w))).1 = run_op op (shared_bridge (bridge w)) →
  only_bridge w (with_bridge_access t h m w).1.
Proof.
  intros Ho Hwf Hm. unfold with_bridge_access. unfold_act.
  destruct (host_alive w); simpl; [|by apply only_bridge_refl].
  destruct (permit_enter w _); simpl; [|by apply only_bridge_refl].
  by eapply with_access_op.
Qed.

Lemma run_call_only_bridge call w :
  shared_owner (bridge w) = None → call_wf call → only_bridge w (run_call call w).
Proof.
  intros Ho Hwf. unfold run_call, call_wf in *.
  destruct (handles w !! call_handle call) as [[h|h]|]; destruct (call_op call);
    try by apply only_bridge_refl.
  - unfold publish_event. unfold_act. destruct (host_alive w); simpl; [|by apply only_bridge_refl].
    destruct (permit_enter w _); simpl; [|by apply only_bridge_refl].
    eapply (with_access_op _ _ _ (Op_ProviderEvent _ _)); [done..|by rewrite wrap_fst].
  - unfold handle_discovery_snapshot, with_bridge_access. unfold_act.
    destruct (host_alive w); simpl; [|by apply only_bridge_refl].
    destruct (permit_enter w _); simpl; [|by apply only_bridge_refl].
    rewrite with_access_step by done. simpl. rewrite set_bridge_id by done.
    by apply only_bridge_refl.
  - eapply (with_bridge_access_op _ _ _ (Op_Subscribe _ _)); [done..|by rewrite wrap_fst].
  - eapply (with_bridge_access_op _ _ _ (Op_SyncSession _ _ _ _)); [done..|by rewrite wrap_fst].
  - eapply (with_bridge_access_op _ _ _ (Op_Unsubscribe _ _)); [done..|by rewrite wrap_fst].
  - eapply (with_bridge_access_op _ _ _ (Op_InteractionResponse _ _)); [done..|by rewrite wrap_fst].
  - eapply (with_bridge_access_op _ _ _ (Op_Command _ _)); [done..|by rewrite wrap_fst].
Qed.

Lemma run_calls_only_bridge calls w :
  shared_owner (bridge w) = None → Forall call_wf calls → only_bridge w (run_calls calls w).
Proof.
  intros Ho Hwf. revert w Ho. induction Hwf as [|call calls Hc _ IH]; intros w Ho;
    [by apply only_bridge_refl|]. unfold run_calls. cbn [foldl].
  pose proof (run_call_only_bridge call w Ho Hc) as Hstep.
  eapply only_bridge_trans; [exact Hstep|]. apply IH. by eapply only_bridge_owner.
Qed.

(** A call through a handle whose permit is not active does nothing. *)
Lemma run_call_inactive call w :
  (∀ h, handles w !! call_handle call = Some h → permit_enter w (handle_permit h) = false) →
  run_call call w = w.
Proof.
  intros Hin. unfold run_call. destruct (handles w !! call_handle call) as [[h|h]|] eqn:Eh; [..|done];
    specialize (Hin _ eq_refl); simpl in Hin;
    destruct (call_op call); try done;
    unfold publish_event, handle_discovery_snapshot, handle_subscribe, handle_sync_session,
      handle_unsubscribe, submit_interaction_response, submit_command, with_bridge_access;
    unfold_act; destruct (host_alive w); simpl; try done; by rewrite Hin.
Qed.

Definition all_inactive w : Prop := ∀ p, permit_enter w p = false.

Lemma run_calls_inactive calls w : all_inactive w → run_calls calls w = w.
Proof.
  intros Hin. induction calls as [|call calls IH]; [done|]. unfold run_calls. cbn [foldl].
  rewrite run_call_inactive by (intros; apply Hin). apply IH.
Qed.
End calls.

(** ** The lifecycle loops *)

Section loops.
Context `{Externals}.
Implicit Types (w : RuntimeHost) (a : RegisteredAdapter).

Definition default_callback : Callback := MkCallback [] (Ok ()).
(** The callback of the [j]th adapter started. *)
Definition nth_callback (cbs : list Callback) (j : nat) : Callback :=
  default default_callback (cbs !! j).
Definition started_ok cbs j : bool := is_ok (callback_result (nth_callback cbs j)).

Lemma nth_callback_tail cbs j : nth_callback (tail cbs) j = nth_callback cbs (S j).
Proof. by destruct cbs. Qed.

(** The adapter, the permit, the handle and the result of each start. *)
Definition started_adapter cbs (base : nat) (j : nat) a : RegisteredAdapter :=
  MkAdapter (adapter_source a)
    (if started_ok cbs j then Adapter_Running else Adapter_StartFailed) (Some (base + j)).
Definition started_handle (base : nat) (j : nat) a : Handle :=
  source_handle (adapter_source a) (base + j).
Definition started_result cbs (j : nat) a : AdapterLifecycleResult :=
  lifecycle_result (adapter_endpoint a) Phase_Start (callback_result (nth_callback cbs j)).

(** What starting leaves of the Host, up to the Bridge. *)
Record started_from cbs (i : nat) (todo : list RegisteredAdapter) w w'
    (rs : list AdapterLifecycleResult) : Prop := {
  started_adapters : adapters w' =
    take i (adapters w) ++ imap (started_adapter cbs (length (permits w))) todo;
  started_permits : permits w' = permits w ++ imap (λ j _, started_ok cbs j) todo;
  started_handles : handles w' = handles w ++ imap (started_handle (length (permits w))) todo;
  started_results : rs = imap (started_result cbs) todo;
  started_host : host_state w' = host_state w ∧ host_alive w' = host_alive w;
  started_owner : shared_owner (bridge w') = None;
  started_bridge : rtc bridge_step (shared_bridge (bridge w)) (shared_bridge (bridge w'))
}.

Lemma adapter_start_spec i a cb w :
  shared_owner (bridge w) = None → callback_wf cb → i < length (adapters w) →
  let w' := (adapter_start i a cb w).1 in
  let ok := is_ok (callback_result cb) in
  adapters w' = <[i := MkAdapter (adapter_source a)
                         (if ok then Adapter_Running else Adapter_StartFailed)
                         (Some (length (permits w)))]> (adapters w) ∧
  permits w' = permits w ++ [ok] ∧
  handles w' = handles w ++ [source_handle (adapter_source a) (length (permits w))] ∧
  (host_state w' = host_state w ∧ host_alive w' = host_alive w) ∧
  shared_owner (bridge w') = None ∧
  rtc bridge_step (shared_bridge (bridge w)) (shared_bridge (bridge w')).
Proof.
  intros Ho Hwf Hi. unfold adapter_start. cbv zeta. cbn [fst].
  set (w1 := MkHost (host_state w) _ (bridge w) _ _ (host_alive w)).
  destruct (run_calls_only_bridge (callback_calls cb) w1 Ho Hwf) as [Ew Hr].
  set (w2 := run_calls (callback_calls cb) w1) in *. rewrite Ew. rewrite Ew in Hr. simpl in Hr.
  destruct (callback_result cb) as [[]|err]; cbn [is_ok].
  - split_and!; try done. simpl. by rewrite list_alter_insert_same.
  - split_and!; try done. simpl.
    by rewrite insert_app_r_alt, Nat.sub_diag by lia.
Qed.

Lemma start_loop_spec i todo cbs w w' rs :
  shared_owner (bridge w) = None → Forall callback_wf cbs →
  drop i (adapters w) = todo → start_loop i todo cbs w = (w', rs) →
  started_from cbs i todo w w' rs.
Proof.
  revert i cbs w w' rs. induction todo as [|a todo IH]; intros i cbs w w' rs Ho Hwf Hdrop Hloop.
  - injection Hloop as <- <-. constructor; simpl; rewrite ?app_nil_r; try done.
    rewrite <-(take_drop i (adapters w)) at 1. by rewrite Hdrop, app_nil_r.
  - cbn [start_loop] in Hloop.
    assert (i < length (adapters w)) as Hi.
    { apply (f_equal length) in Hdrop. rewrite length_drop in Hdrop. simpl in Hdrop. lia. }
    assert (default (MkCallback [] (Ok ())) (head cbs) = nth_callback cbs 0) as Hcb by by destruct cbs.
    rewrite Hcb in Hloop.
    assert (callback_wf (nth_callback cbs 0)) as Hwf0.
    { destruct Hwf; [by constructor|done]. }
    pose proof (adapter_start_spec i a (nth_callback cbs 0) w Ho Hwf0 Hi) as Hs. cbv zeta in Hs.
    destruct (adapter_start i a (nth_callback cbs 0) w) as [w1 r1] eqn:E1. cbn [fst] in Hs.
    assert (r1 = started_result cbs 0 a) as -> by (unfold adapter_start in E1; by injection E1).
    destruct Hs as (Ea & Ep & Eh & Est & Eo & Er).
    destruct (start_loop (S i) todo (tail cbs) w1) as [w2 rs2] eqn:E2.
    injection Hloop as <- <-.
    apply IH in E2 as [Ea2 Ep2 Eh2 Ers2 Est2 Eo2 Er2]; [|done| |].
    + constructor.
      * rewrite Ea2, Ea, Ep, take_S_insert, <-app_assoc by done. f_equal. simpl.
        unfold started_adapter at 2. rewrite Nat.add_0_r. f_equal. apply imap_ext. intros j ? _.
        unfold started_adapter, started_ok. simpl. rewrite nth_callback_tail, length_app. simpl.
        do 2 f_equal. lia.
      * rewrite Ep2, Ep, <-app_assoc. f_equal. simpl. f_equal. apply imap_ext.
        intros j ? _. unfold started_ok. by rewrite nth_callback_tail.
      * rewrite Eh2, Eh, Ep, <-app_assoc. f_equal. simpl. unfold started_handle at 2.
        rewrite Nat.add_0_r. f_equal. apply imap_ext. intros j ? _. unfold started_handle. simpl.
        rewrite length_app. simpl. f_equal. lia.
      * simpl. f_equal. rewrite Ers2. apply imap_ext. intros j ? _. unfold started_result. simpl.
        by rewrite nth_callback_tail.
      * destruct Est, Est2. split; congruence.
      * done.
      * by etrans.
    + by destruct Hwf.
    + rewrite Ea, drop_insert_lt by lia. rewrite <-Nat.add_1_r, <-drop_drop. by rewrite Hdrop.
Qed.

(** *** Stopping *)

(** The state a stop result leaves an adapter in. *)
Definition stopped_adapter a (r : AdapterLifecycleResult) : RegisteredAdapter :=
  match r with
  | Lifecycle_Skipped _ _ => a
  | Lifecycle_Succeeded _ => set_adapter_state Adapter_Stopped a
  | Lifecycle_Failed _ => set_adapter_state Adapter_StopFailed a
  end.

(** The result matches the adapter: skipped exactly if it was stopped. *)
Definition stop_result_of a (r : AdapterLifecycleResult) : Prop :=
  result_endpoint r = adapter_endpoint a ∧
  (adapter_state a = Adapter_Stopped ↔ ∃ e s, r = Lifecycle_Skipped e s).

Lemma permit_enter_revoke p q w : permit_enter (permit_revoke p w) q = true →
  permit_enter w q = true ∧ p ≠ q.
Proof.
  unfold permit_enter, permit_revoke. simpl. destruct (decide (p = q)) as [->|Hne].
  - destruct (decide (q < length (permits w))).
    + by rewrite list_lookup_insert_eq.
    + rewrite list_insert_ge by lia. intros Hq. by rewrite lookup_ge_None_2 in Hq by lia.
  - by rewrite list_lookup_insert_ne.
Qed.

Lemma all_inactive_revoke p w : all_inactive w → permit_revoke p w = w.
Proof.
  intros Hin. unfold permit_revoke. rewrite list_insert_id'; [by destruct w|].
  intros Hp. destruct (lookup_lt_is_Some_2 (permits w) p Hp) as [x Hx].
  specialize (Hin p). unfold permit_enter in Hin. rewrite Hx in *. simpl in Hin. by subst.
Qed.

(** With every permit revoked, the callbacks of a stop change nothing else. *)
Lemma adapter_stop_spec i a cb w pre post :
  all_inactive w → adapters w = pre ++ a :: post → i = length pre →
  adapter_state a ≠ Adapter_Stopped →
  ∃ r, adapter_stop i a cb w = (set_adapters (pre ++ stopped_adapter a r :: post) w, r) ∧
       stop_result_of a r.
Proof.
  intros Hin Ha -> Hst. unfold adapter_stop. cbv zeta.
  assert (adapter_revoke_ingress a w = w) as ->.
  { unfold adapter_revoke_ingress. case_match; [by apply all_inactive_revoke|done]. }
  rewrite run_calls_inactive by done. unfold update_adapter. simpl.
  assert (∀ f x, alter f (length pre) (pre ++ x :: post) = pre ++ f x :: post) as Halter.
  { intros f x. rewrite <-(Nat.add_0_r (length pre)). by rewrite alter_app_r. }
  rewrite Ha, Halter. exists (lifecycle_result (adapter_endpoint a) Phase_Stop (callback_result cb)).
  destruct (callback_result cb) as [[]|err]; simpl; unfold stop_result_of; simpl.
  - rewrite Halter. split; [done|]. split; [done|]. naive_solver.
  - split; [done|]. split; [done|]. naive_solver.
Qed.

Lemma stop_order_snoc pre a :
  reverse (imap pair (pre ++ [a])) = (length pre, a) :: reverse (imap pair pre).
Proof. rewrite imap_app, reverse_app. simpl. by rewrite Nat.add_0_r. Qed.

Lemma stop_loop_spec pre post cbs w w' rs :
  all_inactive w → adapters w = pre ++ post →
  stop_loop (reverse (imap pair pre)) cbs w = (w', rs) →
  Forall2 stop_result_of pre (reverse rs) ∧
  w' = set_adapters (zip_with stopped_adapter pre (reverse rs) ++ post) w.
Proof.
  revert post cbs w w' rs. induction pre as [|a pre IH] using rev_ind;
    intros post cbs w w' rs Hin Ha Hloop.
  - injection Hloop as <- <-. rewrite reverse_nil. split; [constructor|]. simpl in *. subst.
    by destruct w.
  - rewrite stop_order_snoc in Hloop. cbn [stop_loop] in Hloop.
    rewrite <-app_assoc in Ha. simpl in Ha.
    assert (∀ w1 r1 rs1, all_inactive w1 → w1 = set_adapters (pre ++ stopped_adapter a r1 :: post) w →
      stop_result_of a r1 → ∀ cbs1, stop_loop (reverse (imap pair pre)) cbs1 w1 = (w', rs1) →
      Forall2 stop_result_of (pre ++ [a]) (reverse (r1 :: rs1)) ∧
      w' = set_adapters (zip_with stopped_adapter (pre ++ [a]) (reverse (r1 :: rs1)) ++ post) w) as Hgen.
    { intros w1 r1 rs1 Hin1 -> Hr1 cbs1 Hl. apply IH with (post := stopped_adapter a r1 :: post) in Hl
        as [Hrs ->]; [|done..]. rewrite reverse_cons. split.
      - apply Forall2_app; [done|]. constructor; [done|constructor].
      - simpl. rewrite zip_with_app by by apply Forall2_length in Hrs.
        simpl. by rewrite <-app_assoc. }
    case_bool_decide as Hst.
    + destruct (stop_loop _ cbs w) as [w1 rs1] eqn:E. injection Hloop as <- <-.
      eapply Hgen; [exact Hin| | |exact E].
      * simpl. rewrite <-Ha. by destruct w.
      * split; [done|]. naive_solver.
    + destruct (adapter_stop_spec (length pre) a (default (MkCallback [] (Ok ())) (head cbs)) w pre post)
        as (r & Es & Hr); [done..|]. rewrite Es in Hloop.
      destruct (stop_loop _ (tail cbs) _) as [w1 rs1] eqn:E. injection Hloop as <- <-.
      eapply Hgen; [|done|done|exact E]. exact Hin.
Qed.

(** The stops that reached a Source: in reverse registration order, each with
    the outcome of its callback. *)
Definition is_skipped (r : AdapterLifecycleResult) : bool :=
  match r with Lifecycle_Skipped _ _ => true | _ => false end.
Definition stop_outcomes cbs (called : list RegisteredAdapter) : list AdapterLifecycleResult :=
  imap (λ j a, lifecycle_result (adapter_endpoint a) Phase_Stop (callback_result (nth_callback cbs j)))
    called.

Lemma stop_loop_outcomes todo cbs w :
  filter (λ r, is_skipped r = false) (stop_loop todo cbs w).2 =
  stop_outcomes cbs (filter (λ a, adapter_state a ≠ Adapter_Stopped) (snd <$> todo)).
Proof.
  revert cbs w. induction todo as [|[i a] todo IH]; intros cbs w; [done|].
  rewrite fmap_cons. cbn [stop_loop snd]. case_bool_decide as Hst.
  - rewrite (filter_cons_False (λ a, adapter_state a ≠ Adapter_Stopped)) by (by intros []).
    specialize (IH cbs w). destruct (stop_loop todo cbs w) as [w' rs]. simpl in *.
    by rewrite filter_cons_False.
  - rewrite (filter_cons_True (λ a, adapter_state a ≠ Adapter_Stopped)) by done.
    destruct (adapter_stop i a _ w) as [w1 r1] eqn:E1.
    specialize (IH (tail cbs) w1). destruct (stop_loop todo (tail cbs) w1) as [w2 rs]. simpl in IH.
    assert (r1 = lifecycle_result (adapter_endpoint a) Phase_Stop
                   (callback_result (nth_callback cbs 0))) as ->.
    { unfold adapter_stop in E1. injection E1 as _ <-. by destruct cbs. }
    cbn [snd]. rewrite filter_cons_True by by destruct (callback_result _).
    rewrite IH. unfold stop_outcomes. rewrite imap_cons. f_equal.
    apply imap_ext. intros j x _. by rewrite nth_callback_tail.
Qed.
End loops.

(** ** Revocation and subscription clearing *)

Section revocation.
Context `{Externals}.
Implicit Types (w : RuntimeHost) (a : RegisteredAdapter) (b : Bridge).

(** Permits were only switched off. *)
Definition only_revokes (ps ps' : list bool) : Prop :=
  length ps' = length ps ∧ ∀ p, ps' !! p = Some true → ps !! p = Some true.

Lemma only_revokes_refl ps : only_revokes ps ps.
Proof. done. Qed.

Lemma only_revokes_insert ps ps' p :
  only_revokes ps ps' → only_revokes ps (<[p := false]> ps').
Proof.
  intros [Hlen Htrue]. split; [by rewrite length_insert|]. intros q Hq.
  destruct (decide (p = q)) as [->|Hne].
  - apply list_lookup_insert_Some in Hq as [(_ & ? & _)|(Hne & _)]; done.
  - rewrite list_lookup_insert_ne in Hq by done. by apply Htrue.
Qed.

Lemma revoke_loop l w :
  let w' := foldl (λ w a, adapter_revoke_ingress a w) w l in
  w' = set_permits (permits w') w ∧ only_revokes (permits w) (permits w') ∧
  ∀ a p, a ∈ l → adapter_permit a = Some p → permit_enter w' p = false.
Proof.
  induction l as [|a l IH] using rev_ind; cbv zeta in *.
  - split_and!; [by destruct w|apply only_revokes_refl|]. by intros ? ? ?%elem_of_nil.
  - rewrite foldl_app. cbn [foldl]. set (w1 := foldl _ w l) in *. destruct IH as (E & Hrev & Hall).
    unfold adapter_revoke_ingress. destruct (adapter_permit a) as [p|] eqn:Ep.
    + split_and!.
      * unfold permit_revoke. rewrite E. done.
      * by apply only_revokes_insert.
      * intros a' q Ha' Hq. apply not_true_is_false. intros [Hen Hne]%permit_enter_revoke.
        apply elem_of_app in Ha' as [Ha'| ->%list_elem_of_singleton]; [|congruence].
        rewrite (Hall _ _ Ha' Hq) in Hen. done.
    + split_and!; [done..|]. intros a' q [Ha'| ->%list_elem_of_singleton]%elem_of_app Hq;
        [by eapply Hall|congruence].
Qed.

Lemma unsubscribe_channel_subscribed b cid c s :
  bridge_inv b →
  is_subscribed (unsubscribe_channel cid b).1 c s =
  is_subscribed b c s && negb (bool_decide (c = cid)).
Proof.
  intros Hinv. unfold unsubscribe_channel. unfold_act. case_bool_decide as Hreg; simpl.
  - unfold is_subscribed. simpl. rewrite lookup_omap.
    destruct (subscriptions b !! s) as [subs|]; [|done]. simpl.
    case_bool_decide as Hempty; simpl; apply eq_true_iff_eq;
      rewrite andb_true_iff, negb_true_iff, ?bool_decide_eq_true, bool_decide_eq_false; [|set_solver].
    split; [done|]. intros [Hc Hne]. assert (c ∈ subs ∖ {[cid]}) by set_solver. set_solver.
  - apply eq_true_iff_eq. rewrite andb_true_iff, negb_true_iff, bool_decide_eq_false.
    split; [|tauto]. intros Hsub. split; [done|]. intros ->. destruct Hreg.
    by destruct (is_subscribed_registered _ _ _ Hinv Hsub).
Qed.

Lemma unsubscribe_channel_frame b cid :
  (unsubscribe_channel cid b).1 = set_subscriptions (subscriptions (unsubscribe_channel cid b).1) b.
Proof.
  unfold unsubscribe_channel. unfold_act. case_bool_decide; simpl; [done|]. by destruct b.
Qed.

Lemma clear_channels_spec cids b :
  bridge_inv b →
  rtc bridge_step b (clear_channels cids b) ∧
  clear_channels cids b = set_subscriptions (subscriptions (clear_channels cids b)) b ∧
  ∀ c s, is_subscribed (clear_channels cids b) c s =
         is_subscribed b c s && negb (bool_decide (c ∈ cids)).
Proof.
  revert b. induction cids as [|cid cids IH]; intros b Hinv; cbn [clear_channels foldl].
  - split_and!; [done|by destruct b|]. intros c s. by rewrite andb_true_r.
  - fold (clear_channels cids (unsubscribe_channel cid b).1).
    assert (bridge_step b (unsubscribe_channel cid b).1) as Hstep.
    { by apply (bridge_step_op (Op_UnsubscribeChannel cid)). }
    destruct (IH (unsubscribe_channel cid b).1) as (Hr & Hf & Hs).
    { by apply (run_op_inv (Op_UnsubscribeChannel cid)). }
    split_and!; [by eapply rtc_l| |].
    + etrans; [exact Hf|]. generalize (subscriptions (clear_channels cids (unsubscribe_channel cid b).1)).
      intros m. by rewrite unsubscribe_channel_frame.
    + intros c s. rewrite Hs, unsubscribe_channel_subscribed by done.
      rewrite <-andb_assoc. f_equal. apply eq_true_iff_eq.
      rewrite andb_true_iff, !negb_true_iff, !bool_decide_eq_false. set_solver.
Qed.

Lemma clear_generation_spec t w :
  shared_owner (bridge w) = None → bridge_inv (shared_bridge (bridge w)) →
  clear_source_generation_subscriptions t w =
  (set_bridge (MkSharedBridge (clear_channels (source_generation_channels w)
                                 (shared_bridge (bridge w))) None) w, Ok ()).
Proof.
  intros Ho Hinv. unfold clear_source_generation_subscriptions. unfold_act.
  destruct (source_generation_channels w) as [|cid cids] eqn:E; simpl.
  - by rewrite set_bridge_id.
  - unfold with_access. by rewrite Ho, bool_decide_eq_false_2.
Qed.
End revocation.

(** ** The invariant *)

Section host_invariant.
Context `{Externals}.
Implicit Types (w : RuntimeHost) (a : RegisteredAdapter) (b : Bridge).

(** Whether an endpoint is registered in a Bridge. *)
Definition registered b (e : RuntimeEndpointId) : Prop :=
  match e with
  | Endpoint_Provider pid => is_Some (providers b !! pid)
  | Endpoint_Channel cid => is_Some (channels b !! cid)
  end.

Lemma hand_channel_registered cid c call b e :
  registered b e → registered (hand_channel cid c call b) e.
Proof. destruct e; simpl; [done|]. rewrite lookup_insert_is_Some'. by right. Qed.
Lemma hand_provider_registered pid p call b e :
  registered b e → registered (hand_provider pid p call b) e.
Proof. destruct e; simpl; [|done]. rewrite lookup_insert_is_Some'. by right. Qed.
Lemma add_subscription_registered sid cid b e :
  registered b e → registered (add_subscription sid cid b) e.
Proof. by destruct e. Qed.

Lemma register_provider_registered port b e :
  registered b e → registered (register_provider port b).1 e.
Proof.
  unfold register_provider. unfold_act. case_bool_decide; simpl; [done|].
  destruct e; simpl; [|done]. rewrite lookup_insert_is_Some'. by right.
Qed.
Lemma register_channel_registered port b e :
  registered b e → registered (register_channel port b).1 e.
Proof.
  unfold register_channel. unfold_act. case_bool_decide; simpl; [done|].
  destruct e; simpl; [done|]. rewrite lookup_insert_is_Some'. by right.
Qed.
Lemma subscribe_registered cid sid b e : registered b e → registered (subscribe cid sid b).1 e.
Proof.
  intros Hr. destruct (subscribe_inv cid sid b _ _ (surjective_pairing _))
    as [[-> _]|[[-> _]|(c & a & p & pending & _ & _ & _ & _ & _ & Hres)]]; [done..|].
  cbv zeta in Hres. destruct (contains _ _); [|by destruct Hres as [-> _]].
  destruct (snd (channel_handoff c
    (DeliverSessionBaseline (MkBaseline (session a) (last_sequence a) pending))));
    destruct Hres as [-> _]; [apply add_subscription_registered|]; by apply hand_channel_registered.
Qed.
Lemma sync_session_registered cid sid after max b e :
  registered b e → registered (sync_session cid sid after max b).1 e.
Proof.
  intros Hr. destruct (sync_session_inv cid sid after max b _ _ (surjective_pairing _))
    as [[-> _]|[[-> _]|(c & a & p & sync & _ & _ & _ & _ & _ & Hres)]]; [done..|].
  cbv zeta in Hres. destruct (snd (channel_handoff c (DeliverSessionSync sync)));
    destruct Hres as [-> _]; [destruct (sync_is_final sync)|];
    try apply add_subscription_registered; by apply hand_channel_registered.
Qed.

Lemma handle_provider_event_registered pid ev b e :
  bridge_inv b → event_wf ev → registered b e → registered (handle_provider_event pid ev b).1 e.
Proof.
  intros Hinv Hwf Hr.
  destruct (handle_provider_event_inv pid ev b _ _ Hinv Hwf (surjective_pairing _))
    as [[-> _]|[[-> _]|(p & s & routes & a' & _ & _ & _ & Hroutes & _ & -> & _)]]; [done..|].
  destruct e as [pid'|cid]; simpl; [done|].
  destruct (channel_target_registered _ _ _ _ _ _ Hinv Hroutes) as [_ Hnd].
  pose proof (after_delivery_descriptor ev (session_view_for routes a') routes (channels b) cid Hnd)
    as Hd. destruct Hr as [c Hc]. rewrite Hc in Hd.
  by destruct (after_delivery _ _ _ _ !! cid); [eauto|].
Qed.

Lemma run_op_registered op b e :
  bridge_inv b → op_wf op → registered b e → registered (run_op op b) e.
Proof.
  intros Hinv Hwf Hr. destruct op; simpl in *.
  - by apply register_provider_registered.
  - by apply register_channel_registered.
  - by apply subscribe_registered.
  - by apply sync_session_registered.
  - destruct (unsubscribe_inv cid sid b _ _ (surjective_pairing _)) as [[-> _]|(_ & _ & _ & ? & -> & _)];
      [done|]. by destruct e.
  - rewrite unsubscribe_channel_frame. by destruct e.
  - by apply handle_provider_event_registered.
  - destruct (handle_interaction_response_inv cid response b _ _ (surjective_pairing _))
      as [[-> _]|(? & ? & ? & ? & _ & _ & _ & _ & _ & _ & -> & _)]; [done|].
    by apply hand_provider_registered.
  - destruct (handle_command_inv cid command b _ _ (surjective_pairing _))
      as [[-> _]|(? & ? & ? & _ & _ & _ & _ & _ & -> & _)]; [done|].
    by apply hand_provider_registered.
Qed.

Lemma steps_registered b b' e :
  bridge_inv b → rtc bridge_step b b' → registered b e → registered b' e.
Proof.
  intros Hinv Hr. revert Hinv. induction Hr as [|b1 b2 b3 Hstep _ IH]; [done|].
  intros Hinv He. destruct Hstep as [op b1 Hwf]. apply IH; [by apply run_op_inv|].
  by apply run_op_registered.
Qed.

Definition states_match (st : RuntimeHostState) (l : list RegisteredAdapter) : Prop :=
  match st with
  | Host_Stopped => Forall (λ a, adapter_state a = Adapter_Stopped) l
  | Host_Started =>
      Forall (λ a, adapter_state a = Adapter_Running ∨ adapter_state a = Adapter_StartFailed) l
  | Host_StopFailed =>
      Forall (λ a, adapter_state a = Adapter_Stopped ∨ adapter_state a = Adapter_StopFailed) l ∧
      Exists (λ a, adapter_state a = Adapter_StopFailed) l
  end.

Record host_inv (cfg : SessionAggregateConfig) w : Prop := {
  hi_reach : reachable_bridge cfg (shared_bridge (bridge w));
  hi_owner : shared_owner (bridge w) = None;
  hi_length : length (handles w) = length (permits w);
  hi_handles : ∀ n h, handles w !! n = Some h → handle_permit h = n;
  hi_permits : ∀ a p, a ∈ adapters w → adapter_permit a = Some p →
    ∃ h, handles w !! p = Some h ∧ handle_endpoint h = adapter_endpoint a;
  hi_active : ∀ p, permit_enter w p = true ↔
    ∃ a, a ∈ adapters w ∧ adapter_permit a = Some p ∧ adapter_state a = Adapter_Running;
  hi_states : host_alive w = true → states_match (host_state w) (adapters w);
  hi_endpoints : NoDup (adapter_endpoint <$> adapters w) ∧
    ∀ a, a ∈ adapters w → registered (shared_bridge (bridge w)) (adapter_endpoint a)
}.

Lemma host_inv_bridge cfg w : host_inv cfg w → bridge_inv (shared_bridge (bridge w)).
Proof. intros Hi. by eapply reachable_bridge_inv, hi_reach. Qed.

Lemma host_inv_empty cfg : host_inv cfg (RuntimeHost_with_session_config cfg).
Proof.
  constructor; simpl; try done.
  - by apply rtc_refl.
  - by intros a p ?%elem_of_nil.
  - intros p. split; [by destruct p|]. by intros (a & ?%elem_of_nil & _).
  - split; [constructor|]. by intros a ?%elem_of_nil.
Qed.

Lemma host_inv_only_bridge cfg w w' : host_inv cfg w → only_bridge w w' → host_inv cfg w'.
Proof.
  intros Hi [E Hr]. pose proof (host_inv_bridge _ _ Hi) as Hb.
  destruct Hi as [Hreach Ho Hlen Hh Hp Ha Hs [Hnd Hreg]]. rewrite E.
  constructor; simpl; [|done|done|exact Hh|exact Hp|exact Ha|exact Hs|].
  - unfold reachable_bridge in *. by etrans.
  - split; [done|]. intros a Hin. by eapply steps_registered, Hreg.
Qed.

(** No permit is active while no adapter runs. *)
Lemma host_inv_inactive cfg w :
  host_inv cfg w → (∀ a, a ∈ adapters w → adapter_state a ≠ Adapter_Running) → all_inactive w.
Proof.
  intros Hi Hnone p. apply not_true_is_false. intros (a & Hin & _ & Hrun)%(hi_active _ _ Hi).
  by eapply Hnone.
Qed.
End host_invariant.

Section host_steps.
Context `{Externals}.
Implicit Types (w : RuntimeHost) (a : RegisteredAdapter) (b : Bridge).

(** Registration adds a stopped adapter for a new endpoint. *)
Lemma host_inv_add_adapter cfg w source :
  host_inv cfg w → host_state w = Host_Stopped →
  source_endpoint source ∉ adapter_endpoint <$> adapters w →
  registered (shared_bridge (bridge w)) (source_endpoint source) →
  host_inv cfg (set_adapters (adapters w ++ [MkAdapter source Adapter_Stopped None]) w).
Proof.
  intros [Hreach Ho Hlen Hh Hp Ha Hs [Hnd Hreg]] Hst Hfresh Hnew.
  constructor; simpl; [done|done|done|exact Hh| | | |].
  - intros a p [Hin| ->%list_elem_of_singleton]%elem_of_app; [by apply Hp|done].
  - intros p. unfold permit_enter. simpl. rewrite (Ha p). setoid_rewrite elem_of_app.
    setoid_rewrite list_elem_of_singleton. naive_solver.
  - intros Hal. specialize (Hs Hal). rewrite Hst in *. apply Forall_app. by repeat constructor.
  - split.
    + rewrite fmap_app. apply NoDup_app. split_and!; [done| |apply NoDup_singleton].
      intros x Hx ->%list_elem_of_singleton. done.
    + intros a [Hin| ->%list_elem_of_singleton]%elem_of_app; [by apply Hreg|done].
Qed.

Lemma host_register_provider_inv cfg t port w :
  host_inv cfg w → host_inv cfg (host_register_provider t port w).1.
Proof.
  intros Hi. unfold host_register_provider. unfold_act. case_bool_decide as Hst; simpl; [|done].
  unfold with_access. rewrite (hi_owner _ _ Hi), bool_decide_eq_false_2 by done.
  destruct (wrap Registration_Endpoint (register_provider port) (shared_bridge (bridge w)))
    as [b' r] eqn:E.
  assert (b' = run_op (Op_RegisterProvider port) (shared_bridge (bridge w))) as Hb'.
  { simpl. rewrite <-(wrap_fst Registration_Endpoint), E. done. }
  assert (host_inv cfg (set_bridge (MkSharedBridge b' None) w)) as Hi'.
  { eapply host_inv_only_bridge; [done|]. split; [done|]. simpl. rewrite Hb'.
    apply rtc_once. by constructor. }
  unfold wrap, register_provider in E. unfold_act.
  case_bool_decide as Hnone; simpl in E; injection E as E1 <-; simpl; [done|].
  apply (host_inv_add_adapter cfg (set_bridge (MkSharedBridge b' None) w) (Source_Provider _)); [done..| |].
  - intros (a & Heq & Hin)%list_elem_of_fmap. apply Hnone.
    destruct (hi_endpoints _ _ Hi) as [_ Hreg]. specialize (Hreg a Hin).
    rewrite <-Heq in Hreg. exact Hreg.
  - simpl. subst b'. simpl. rewrite lookup_insert_eq. eauto.
Qed.

Lemma host_register_channel_inv cfg t port scope w :
  host_inv cfg w → host_inv cfg (host_register_channel t port scope w).1.
Proof.
  intros Hi. unfold host_register_channel. unfold_act. case_bool_decide as Hst; simpl; [|done].
  unfold with_access. rewrite (hi_owner _ _ Hi), bool_decide_eq_false_2 by done.
  destruct (wrap Registration_Endpoint (register_channel port) (shared_bridge (bridge w)))
    as [b' r] eqn:E.
  assert (b' = run_op (Op_RegisterChannel port) (shared_bridge (bridge w))) as Hb'.
  { simpl. rewrite <-(wrap_fst Registration_Endpoint), E. done. }
  assert (host_inv cfg (set_bridge (MkSharedBridge b' None) w)) as Hi'.
  { eapply host_inv_only_bridge; [done|]. split; [done|]. simpl. rewrite Hb'.
    apply rtc_once. by constructor. }
  unfold wrap, register_channel in E. unfold_act.
  case_bool_decide as Hnone; simpl in E; injection E as E1 <-; simpl; [done|].
  apply (host_inv_add_adapter cfg (set_bridge (MkSharedBridge b' None) w) (Source_Channel _ _)); [done..| |].
  - intros (a & Heq & Hin)%list_elem_of_fmap. apply Hnone.
    destruct (hi_endpoints _ _ Hi) as [_ Hreg]. specialize (Hreg a Hin).
    rewrite <-Heq in Hreg. exact Hreg.
  - simpl. subst b'. simpl. rewrite lookup_insert_eq. eauto.
Qed.

(** *** Start *)

Lemma elem_of_imap {A B} (f : nat → A → B) l y :
  y ∈ imap f l ↔ ∃ j x, l !! j = Some x ∧ y = f j x.
Proof.
  rewrite list_elem_of_lookup. setoid_rewrite list_lookup_imap. setoid_rewrite fmap_Some.
  naive_solver.
Qed.

Lemma fmap_imap_endpoint cbs base l :
  adapter_endpoint <$> imap (started_adapter cbs base) l = adapter_endpoint <$> l.
Proof.
  revert cbs base. induction l as [|a l IH]; intros cbs base; [done|].
  rewrite imap_cons, !fmap_cons. f_equal. rewrite <-(IH (tail cbs) (S base)). f_equal. apply imap_ext. intros j a' _.
  unfold started_adapter, started_ok. simpl. rewrite nth_callback_tail. do 2 f_equal. lia.
Qed.

Lemma source_handle_spec s p :
  handle_permit (source_handle s p) = p ∧ handle_endpoint (source_handle s p) = source_endpoint s.
Proof. by destruct s. Qed.

Lemma start_inv cfg cbs w :
  host_inv cfg w → Forall callback_wf cbs → host_alive w = true →
  host_inv cfg (start cbs w).1.
Proof.
  intros Hi Hwf Hal. unfold start. destruct (host_state w) eqn:Hst; [|done..].
  destruct (start_loop 0 (adapters w) cbs w) as [w' rs] eqn:E. simpl.
  pose proof (host_inv_bridge _ _ Hi) as Hb.
  pose proof Hi as [Hreach Ho Hlen Hh Hp Ha Hs [Hnd Hreg]].
  assert (all_inactive w) as Hoff.
  { apply (host_inv_inactive cfg); [done|]. specialize (Hs Hal). rewrite Hst in Hs.
    intros a Hin Hrun. cbn [states_match] in Hs. rewrite Forall_forall in Hs. specialize (Hs a Hin). congruence. }
  apply start_loop_spec in E as [Ea Ep Eh Ers Est Eo Er]; [|done..].
  simpl in Ea. constructor; simpl.
  - unfold reachable_bridge in *. by etrans.
  - done.
  - rewrite Eh, Ep, !length_app, !length_imap. lia.
  - intros n h. rewrite Eh. intros [Hn|[Hn Hn']]%lookup_app_Some; [by apply Hh|].
    rewrite list_lookup_imap in Hn'. apply fmap_Some in Hn' as (a & _ & ->).
    unfold started_handle. rewrite (proj1 (source_handle_spec _ _)). lia.
  - intros a p. rewrite Ea. intros (j & a0 & Hj & ->)%elem_of_imap. simpl. intros [= <-].
    exists (started_handle (length (permits w)) j a0). split.
    + rewrite Eh, lookup_app_r by lia. rewrite Hlen, list_lookup_imap.
      replace (length (permits w) + j - length (permits w)) with j by lia. by rewrite Hj.
    + unfold started_handle. by rewrite (proj2 (source_handle_spec _ _)).
  - intros p. unfold permit_enter. simpl. rewrite Ep, Ea. split.
    + destruct (decide (p < length (permits w))).
      { rewrite lookup_app_l by done. specialize (Hoff p). unfold permit_enter in Hoff. congruence. }
      rewrite lookup_app_r, list_lookup_imap by lia.
      destruct (adapters w !! (p - length (permits w))) as [a0|] eqn:E0; [simpl|done]. intros Hok.
      exists (started_adapter cbs (length (permits w)) (p - length (permits w)) a0).
      split; [apply elem_of_imap; eauto|]. unfold started_adapter. simpl. rewrite Hok.
      split; [f_equal; lia|done].
    + intros (a & (j & a0 & Hj & ->)%elem_of_imap & [= <-] & Hrun). simpl in Hrun.
      rewrite lookup_app_r, list_lookup_imap by lia.
      replace (length (permits w) + j - length (permits w)) with j by lia. rewrite Hj. simpl.
      by destruct (started_ok cbs j).
  - intros _. rewrite Ea. apply Forall_forall. intros a (j & a0 & _ & ->)%elem_of_imap. simpl.
    destruct (started_ok cbs j); auto.
  - rewrite Ea, fmap_imap_endpoint. split; [done|].
    intros a (j & a0 & Hj & ->)%elem_of_imap. eapply steps_registered; [done|done|].
    apply (Hreg a0). by eapply list_elem_of_lookup_2.
Qed.
End host_steps.

(** *** Stop *)

Section host_stop.
Context `{Externals}.
Implicit Types (w : RuntimeHost) (a : RegisteredAdapter) (b : Bridge).

Lemma revoke_all_spec cfg w :
  host_inv cfg w →
  revoke_all_ingress w = set_permits (permits (revoke_all_ingress w)) w ∧
  only_revokes (permits w) (permits (revoke_all_ingress w)) ∧ all_inactive (revoke_all_ingress w).
Proof.
  intros Hi. destruct (revoke_loop (adapters w) w) as (E & Hrev & Hall).
  fold (revoke_all_ingress w) in *. split_and!; [done..|]. intros p.
  destruct (permit_enter (revoke_all_ingress w) p) eqn:Ep; [|done].
  assert (permit_enter w p = true) as Hp.
  { unfold permit_enter in *. destruct (permits (revoke_all_ingress w) !! p) as [[]|] eqn:Eq; try done.
    by rewrite (proj2 Hrev p Eq). }
  apply (hi_active _ _ Hi) in Hp as (a & Hin & Ha & _). by rewrite (Hall a p Hin Ha) in Ep.
Qed.

(** Revocation, subscription clearing and the reverse loop. *)
Lemma stop_phases cfg t cbs w :
  host_inv cfg w →
  let w1 := revoke_all_ingress w in
  let w2 := (clear_source_generation_subscriptions t w1).1 in
  ∃ rs ps, clear_source_generation_subscriptions t w1 = (w2, Ok ()) ∧
    stop_loop (stop_order w2) cbs w2 =
      (MkHost (host_state w) (zip_with stopped_adapter (adapters w) (reverse rs))
         (MkSharedBridge (clear_channels (source_generation_channels w)
                            (shared_bridge (bridge w))) None) ps (handles w) (host_alive w), rs) ∧
    Forall2 stop_result_of (adapters w) (reverse rs) ∧
    filter (λ result, is_skipped result = false) rs =
      stop_outcomes cbs (filter (λ a, adapter_state a ≠ Adapter_Stopped) (reverse (adapters w))) ∧
    only_revokes (permits w) ps ∧ (∀ p, default false (ps !! p) = false).
Proof.
  intros Hi w1 w2. destruct (revoke_all_spec _ _ Hi) as (E & Hrev & Hoff). fold w1 in E, Hrev, Hoff.
  assert (clear_source_generation_subscriptions t w1 =
    (set_bridge (MkSharedBridge (clear_channels (source_generation_channels w)
       (shared_bridge (bridge w))) None) w1, Ok ())) as Hclear.
  { rewrite clear_generation_spec.
    - rewrite E. done.
    - rewrite E. simpl. by apply hi_owner with cfg.
    - rewrite E. simpl. by eapply host_inv_bridge. }
  subst w2. rewrite Hclear. simpl. set (w2 := set_bridge _ w1).
  assert (adapters w2 = adapters w) as Had by (subst w2; simpl; by rewrite E).
  assert (all_inactive w2) as Hoff2 by exact Hoff.
  destruct (stop_loop (stop_order w2) cbs w2) as [w3 rs] eqn:Eloop. unfold stop_order in Eloop.
  assert (filter (λ result, is_skipped result = false) rs =
    stop_outcomes cbs (filter (λ a, adapter_state a ≠ Adapter_Stopped) (reverse (adapters w)))) as Hout.
  { pose proof (stop_loop_outcomes (stop_order w2) cbs w2) as Hout. unfold stop_order in Hout.
    rewrite Eloop in Hout. rewrite <-Had. etrans; [exact Hout|]. f_equal.
    rewrite fmap_reverse, fmap_imap. do 2 f_equal. etrans; [exact (imap_const id _)|apply list_fmap_id]. }
  apply (stop_loop_spec (adapters w2) []) in Eloop as [Hrs ->]; [|done|by rewrite app_nil_r].
  rewrite app_nil_r, Had in *. exists rs, (permits w1). split_and!; try done.
  f_equal. subst w2. rewrite E. done.
Qed.

Lemma existsb_reverse {A} (f : A → bool) l : existsb f (reverse l) = existsb f l.
Proof.
  apply eq_true_iff_eq. rewrite !existsb_exists. setoid_rewrite <-list_elem_of_In.
  by setoid_rewrite elem_of_reverse.
Qed.

Lemma stop_spec cfg t cbs w :
  host_inv cfg w → host_state w ≠ Host_Stopped →
  ∃ rs ps,
    let failed := existsb (λ r, negb (is_success r)) rs in
    let report := MkLifecycleReport Lifecycle_Stop
                    (if failed then Outcome_StopFailed else Outcome_Stopped) rs in
    stop t cbs w =
      (MkHost (if failed then Host_StopFailed else Host_Stopped)
         (zip_with stopped_adapter (adapters w) (reverse rs))
         (MkSharedBridge (clear_channels (source_generation_channels w)
                            (shared_bridge (bridge w))) None) ps (handles w) (host_alive w),
       if failed then Err (AdapterFailures report) else Ok report) ∧
    Forall2 stop_result_of (adapters w) (reverse rs) ∧
    filter (λ result, is_skipped result = false) rs =
      stop_outcomes cbs (filter (λ a, adapter_state a ≠ Adapter_Stopped) (reverse (adapters w))) ∧
    only_revokes (permits w) ps ∧ (∀ p, default false (ps !! p) = false).
Proof.
  intros Hi Hst. destruct (stop_phases cfg t cbs w Hi) as (rs & ps & Hclear & Hloop & Hrs & Hout & Hps & Hoff).
  exists rs, ps. cbv zeta in *. split_and!; try done.
  unfold stop. rewrite bool_decide_eq_false_2 by done. cbv zeta. rewrite Hclear.
  rewrite Hloop. by destruct (existsb _ rs).
Qed.

Lemma stopped_adapter_endpoint l rs :
  Forall2 stop_result_of l rs →
  adapter_endpoint <$> zip_with stopped_adapter l rs = adapter_endpoint <$> l.
Proof.
  induction 1 as [|a r l rs _ _ IH]; [done|]. cbn [zip_with]. rewrite !fmap_cons, IH. f_equal.
  by destruct r.
Qed.

Lemma stopped_adapter_elem l rs a :
  a ∈ zip_with stopped_adapter l rs →
  ∃ a0, a0 ∈ l ∧ adapter_permit a = adapter_permit a0 ∧ adapter_endpoint a = adapter_endpoint a0.
Proof.
  intros (j & Hj)%list_elem_of_lookup. apply lookup_zip_with_Some in Hj as (a0 & r & -> & Ha & _).
  exists a0. split; [by eapply list_elem_of_lookup_2|]. by destruct r.
Qed.

(** The states after a stop, from the results. *)
Lemma stopped_states l rs :
  Forall2 stop_result_of l rs →
  states_match (if existsb (λ r, negb (is_success r)) rs then Host_StopFailed else Host_Stopped)
    (zip_with stopped_adapter l rs).
Proof.
  intros Hl.
  assert (Forall (λ a, adapter_state a = Adapter_Stopped ∨ adapter_state a = Adapter_StopFailed)
            (zip_with stopped_adapter l rs) ∧
          (Exists (λ a, adapter_state a = Adapter_StopFailed) (zip_with stopped_adapter l rs) ↔
           existsb (λ r, negb (is_success r)) rs = true)) as [Hall Hex].
  { induction Hl as [|a r l rs [_ Hr] _ [IH1 IH2]]; [by split; [constructor|rewrite Exists_nil]|].
    cbn [zip_with existsb]. rewrite Forall_cons, Exists_cons, orb_true_iff, <-IH2.
    destruct r as [e|e st|err]; simpl.
    - split; [split; [by left|done]|]. split; (intros [?|?]; [done|by right]).
    - assert (adapter_state a = Adapter_Stopped) as -> by (apply Hr; eauto).
      split; [split; [by left|done]|]. split; (intros [?|?]; [done|by right]).
    - split; [split; [by right|done]|]. split; intros _; by left. }
  destruct (existsb _ rs); simpl; [split; [done|]; by apply Hex|].
  apply Forall_forall. intros a Hin. rewrite Forall_forall in Hall.
  destruct (Hall a Hin) as [|Hsf]; [done|]. exfalso.
  assert (false = true) as ?; [|done]. apply Hex, Exists_exists. eauto.
Qed.

Lemma stopped_no_running l rs a :
  Forall2 stop_result_of l rs → a ∈ zip_with stopped_adapter l rs →
  adapter_state a ≠ Adapter_Running.
Proof.
  intros Hl Hin Hrun. apply stopped_states in Hl.
  destruct (existsb _ rs); simpl in Hl; [destruct Hl as [Hl _]|]; rewrite Forall_forall in Hl;
    specialize (Hl a Hin); simpl in Hl; intuition congruence.
Qed.

(** The Host after a stop, whatever the results. *)
Lemma stopped_inv cfg w st rs ps alive :
  host_inv cfg w → Forall2 stop_result_of (adapters w) rs →
  only_revokes (permits w) ps → (∀ p, default false (ps !! p) = false) →
  (alive = true → states_match st (zip_with stopped_adapter (adapters w) rs)) →
  host_inv cfg (MkHost st (zip_with stopped_adapter (adapters w) rs)
    (MkSharedBridge (clear_channels (source_generation_channels w)
                       (shared_bridge (bridge w))) None) ps (handles w) alive).
Proof.
  intros Hi Hrs [Hlen Htrue] Hoff Hst. pose proof (host_inv_bridge _ _ Hi) as Hb.
  destruct (clear_channels_spec (source_generation_channels w) _ Hb) as (Hsteps & _ & _).
  pose proof Hi as [Hreach Ho Hl Hh Hp Ha Hs [Hnd Hreg]].
  constructor; simpl; [|done| |exact Hh| | |done|].
  - unfold reachable_bridge in *. by etrans.
  - congruence.
  - intros a p (a0 & Hin & -> & ->)%stopped_adapter_elem. by apply Hp.
  - intros p. split.
    + unfold permit_enter. simpl. by rewrite Hoff.
    + intros (a & Hin & _ & Hrun). by destruct (stopped_no_running _ _ _ Hrs Hin).
  - rewrite stopped_adapter_endpoint by done. split; [done|].
    intros a (a0 & Hin & _ & ->)%stopped_adapter_elem. by eapply steps_registered, Hreg.
Qed.

Lemma stop_inv cfg t cbs w : host_inv cfg w → host_inv cfg (stop t cbs w).1.
Proof.
  intros Hi. destruct (decide (host_state w = Host_Stopped)) as [Hst|Hst].
  - unfold stop. by rewrite bool_decide_eq_true_2.
  - destruct (stop_spec cfg t cbs w Hi Hst) as (rs & ps & -> & Hrs & Hout & Hps & Hoff). cbn [fst].
    apply stopped_inv; try done. intros _. rewrite <-(existsb_reverse _ rs). by apply stopped_states.
Qed.

Lemma drop_inv cfg t cbs w : host_inv cfg w → host_inv cfg (host_drop t cbs w).
Proof.
  intros Hi. destruct (stop_phases cfg t cbs w Hi) as (rs & ps & Hclear & Hloop & Hrs & Hout & Hps & Hoff).
  unfold host_drop. cbv zeta in *. rewrite Hloop. cbn [fst].
  pose proof (stopped_inv cfg w (host_state w) (reverse rs) ps false Hi Hrs Hps Hoff ltac:(done))
    as [Hreach Ho Hl Hh Hp Ha Hs [Hnd Hreg]].
  constructor; simpl in *; [done|done|done|exact Hh| | |done|].
  - by intros a p ?%elem_of_nil.
  - intros p. split; [|by intros (a & ?%elem_of_nil & _)].
    unfold permit_enter. simpl. by rewrite Hoff.
  - split; [constructor|]. by intros a ?%elem_of_nil.
Qed.
End host_stop.

(** ** Executions of a Host *)

Section host_executions.
Context `{Externals}.
Implicit Types (w : RuntimeHost).

Inductive HostOp : Type :=
| HostOp_Call (call : IngressCall)
| HostOp_RegisterProvider (t : ThreadId) (port : ProviderPort)
| HostOp_RegisterChannel (t : ThreadId) (port : ChannelPort) (scope : ChannelSubscriptionScope)
| HostOp_Subscribe (t : ThreadId) (cid : ChannelId) (sid : SessionId)
| HostOp_Unsubscribe (t : ThreadId) (cid : ChannelId) (sid : SessionId)
| HostOp_Start (cbs : list Callback)
| HostOp_Stop (t : ThreadId) (cbs : list Callback)
| HostOp_Drop (t : ThreadId) (cbs : list Callback).

(** The state an operation leaves, whatever it returns. *)
Definition run_host_op (op : HostOp) w : RuntimeHost :=
  match op with
  | HostOp_Call call => run_call call w
  | HostOp_RegisterProvider t port => (host_register_provider t port w).1
  | HostOp_RegisterChannel t port scope => (host_register_channel t port scope w).1
  | HostOp_Subscribe t cid sid => (host_subscribe t cid sid w).1
  | HostOp_Unsubscribe t cid sid => (host_unsubscribe t cid sid w).1
  | HostOp_Start cbs => (start cbs w).1
  | HostOp_Stop t cbs => (stop t cbs w).1
  | HostOp_Drop t cbs => host_drop t cbs w
  end.

(** Events are well formed, and a dropped Host has no operations of its own. *)
Definition host_op_wf (op : HostOp) w : Prop :=
  match op with
  | HostOp_Call call => call_wf call
  | HostOp_Start cbs => Forall callback_wf cbs ∧ host_alive w = true
  | HostOp_RegisterProvider _ _ | HostOp_RegisterChannel _ _ _ | HostOp_Subscribe _ _ _
  | HostOp_Unsubscribe _ _ _ | HostOp_Stop _ _ | HostOp_Drop _ _ => host_alive w = true
  end.

Inductive host_step : RuntimeHost → RuntimeHost → Prop :=
| host_step_op op w : host_op_wf op w → host_step w (run_host_op op w).

Definition reachable_host (cfg : SessionAggregateConfig) w : Prop :=
  rtc host_step (RuntimeHost_with_session_config cfg) w.

Lemma host_access_inv {A} cfg t (m : act Bridge RuntimeSubscriptionError A) op w :
  host_inv cfg w → op_wf op →
  (m (shared_bridge (bridge w))).1 = run_op op (shared_bridge (bridge w)) →
  host_inv cfg (with_access t Subscription_BridgeAccess m w).1.
Proof.
  intros Hi Hwf Hm. eapply host_inv_only_bridge; [done|].
  eapply with_access_op; [by eapply hi_owner|done|done].
Qed.

Lemma run_host_op_inv cfg op w :
  host_inv cfg w → host_op_wf op w → host_inv cfg (run_host_op op w).
Proof.
  intros Hi Hwf. destruct op; simpl in *.
  - eapply host_inv_only_bridge; [done|]. apply run_call_only_bridge; [by eapply hi_owner|done].
  - by apply host_register_provider_inv.
  - by apply host_register_channel_inv.
  - eapply (host_access_inv _ _ _ (Op_Subscribe cid sid)); [done..|by rewrite wrap_fst].
  - eapply (host_access_inv _ _ _ (Op_Unsubscribe cid sid)); [done..|by rewrite wrap_fst].
  - by apply start_inv; destruct Hwf.
  - by apply stop_inv.
  - by apply drop_inv.
Qed.

Lemma reachable_host_inv cfg w : reachable_host cfg w → host_inv cfg w.
Proof.
  unfold reachable_host. intros Hr.
  assert (∀ w0 w1, rtc host_step w0 w1 → host_inv cfg w0 → host_inv cfg w1) as Hstep.
  { induction 1 as [|? ? ? [op w2 Hwf] _ IH]; [done|]. intros Hi. by apply IH, run_host_op_inv. }
  apply (Hstep _ _ Hr), host_inv_empty.
Qed.

(** Permits issued so far are never switched on again. *)
Definition permits_extend (ps ps' : list bool) : Prop :=
  ∀ p, ps !! p = Some false → ps' !! p = Some false.

Lemma only_revokes_extend ps ps' : only_revokes ps ps' → permits_extend ps ps'.
Proof.
  intros [Hlen Htrue] p Hp.
  destruct (ps' !! p) as [[]|] eqn:E; [|done|].
  - rewrite (Htrue p E) in Hp. done.
  - apply lookup_ge_None_1 in E. apply lookup_lt_Some in Hp. lia.
Qed.

Lemma with_access_permits {E A} t (f : RuntimeAccessError → E) (m : act Bridge E A) w :
  permits (with_access t f m w).1 = permits w.
Proof. unfold with_access. case_bool_decide; [done|]. by destruct (m _). Qed.

Lemma register_permits_provider t port w :
  permits (host_register_provider t port w).1 = permits w.
Proof.
  unfold host_register_provider. unfold_act. case_bool_decide; simpl; [|done].
  match goal with |- context [with_access ?t ?f ?m w] =>
    pose proof (with_access_permits t f m w) as Hp; destruct (with_access t f m w) as [w' [[]|]] end;
    done.
Qed.

Lemma register_permits_channel t port scope w :
  permits (host_register_channel t port scope w).1 = permits w.
Proof.
  unfold host_register_channel. unfold_act. case_bool_decide; simpl; [|done].
  match goal with |- context [with_access ?t ?f ?m w] =>
    pose proof (with_access_permits t f m w) as Hp; destruct (with_access t f m w) as [w' [[]|]] end;
    done.
Qed.

Lemma run_host_op_permits cfg op w :
  host_inv cfg w → host_op_wf op w → permits_extend (permits w) (permits (run_host_op op w)).
Proof.
  intros Hi Hwf p Hp. destruct op; simpl in *.
  - destruct (run_call_only_bridge call w (hi_owner _ _ Hi) Hwf) as [-> _]. done.
  - by rewrite register_permits_provider.
  - by rewrite register_permits_channel.
  - unfold host_subscribe. by rewrite with_access_permits.
  - unfold host_unsubscribe. by rewrite with_access_permits.
  - unfold start. destruct (host_state w) eqn:Hst; [|done..].
    destruct (start_loop 0 (adapters w) cbs w) as [w' rs] eqn:E. simpl.
    apply start_loop_spec in E as [_ -> _ _ _ _ _]; [|by eapply hi_owner|by destruct Hwf|done].
    rewrite lookup_app_l; [done|]. by apply lookup_lt_Some in Hp.
  - destruct (decide (host_state w = Host_Stopped)) as [Hst|Hst].
    + unfold stop. by rewrite bool_decide_eq_true_2.
    + destruct (stop_spec cfg t cbs w Hi Hst) as (rs & ps & -> & _ & _ & Hps & _). simpl.
      by apply only_revokes_extend in Hps; apply Hps.
  - destruct (stop_phases cfg t cbs w Hi) as (rs & ps & Hclear & Hloop & _ & _ & Hps & _).
    unfold host_drop. cbv zeta in *. rewrite Hloop. simpl.
    by apply only_revokes_extend in Hps; apply Hps.
Qed.

Lemma host_steps_permits cfg w w' :
  host_inv cfg w → rtc host_step w w' → permits_extend (permits w) (permits w').
Proof.
  intros Hi Hr. revert Hi. induction Hr as [|w1 w2 w3 [op w1' Hwf] _ IH]; intros Hi p Hp; [done|].
  apply IH; [by apply run_host_op_inv|]. by eapply run_host_op_permits.
Qed.
End host_executions.
