(* ===== verification/Dto.v ===== *)
(** * The wire format: scalars and data transfer objects

    Models [agentpulse-protocol/src/v2/scalar.rs] (64-bit integers as decimal
    strings) and [dto.rs] (the strict JSON v2 structures).  A DTO mirrors the
    JSON object: identifiers, texts and timestamps are unvalidated strings
    here, and become domain values in the conversion. *)

From stdpp Require Import base strings numbers gmap list.
From S2P Require Import Prelude.

(** ** Decimal strings (scalar.rs) *)

Section decimal.
Local Open Scope N_scope.

Record DecimalU64 : Type := MkDecimalU64 { decimal_get : u64 }.

#[global] Instance DecimalU64_eq_dec : EqDecision DecimalU64.
Proof. solve_decision. Defined.

(** [u64]'s [Display]: the digits of a number, most significant first.  A
    [u64] has at most twenty of them. *)
Fixpoint digits_from (fuel : nat) (n : N) (acc : rstring) : rstring :=
  match fuel with
  | O => acc
  | S fuel' =>
      let acc' := (48 + n mod 10) :: acc in
      if (n / 10 =? 0) then acc' else digits_from fuel' (n / 10) acc'
  end.

Definition display_u64 (n : N) : rstring := digits_from 20 n [].
Definition display_i64 (z : Z) : rstring :=
  if (z <? 0)%Z then lit "-" ++ display_u64 (Z.to_N (- z)) else display_u64 (Z.to_N z).

(** [serializer.collect_str(&self.0)] *)
Definition DecimalU64_serialize (d : DecimalU64) : rstring := display_u64 (raw (decimal_get d)).

(** The value of a string of decimal digits. *)
Definition digits_value (s : rstring) : N := foldl (λ acc c, 10 * acc + (c - 48)) 0 s.

(** [str::parse::<u64>] on a non-empty string of digits: it fails on overflow. *)
Definition parse_u64_digits (s : rstring) : option u64 := of_raw (digits_value s).

Inductive DecimalError : Type := NotCanonicalDecimal | DecimalOverflow.

(** [DecimalU64Visitor::visit_str]; the bytes of a string are all ASCII
    digits exactly when its characters are. *)
Definition DecimalU64_visit_str (value : rstring) : result DecimalError DecimalU64 :=
  if is_empty value || negb (forallb is_ascii_digit value)
     || ((1 <? N.of_nat (length value)) && bool_decide (head value = Some 48))
  then Err NotCanonicalDecimal
  else ok_or DecimalOverflow (MkDecimalU64 <$> parse_u64_digits value).

(** *** Printing and parsing *)

Lemma digits_value_snoc s c : digits_value (s ++ [c]) = 10 * digits_value s + (c - 48).
Proof. unfold digits_value. by rewrite foldl_app. Qed.

Lemma digits_from_app fuel n acc : digits_from fuel n acc = digits_from fuel n [] ++ acc.
Proof.
  revert n acc. induction fuel as [|fuel IH]; intros n acc; [done|]. cbn [digits_from].
  destruct (n / 10 =? 0); [done|]. rewrite IH, (IH _ [_]), <-app_assoc. done.
Qed.

(** The digits, as a list: the last one and, before it, those of the quotient. *)
Lemma digits_from_spec fuel n :
  n < 10 ^ N.of_nat fuel → fuel ≠ O →
  let s := digits_from fuel n [] in
  digits_value s = n ∧ forallb is_ascii_digit s = true ∧ s ≠ [] ∧
  (head s = Some 48 → s = [48]).
Proof.
  revert n. induction fuel as [|fuel IH]; intros n Hn Hfuel; [done|]. cbn [digits_from].
  assert (n mod 10 < 10) as Hmod by by apply N.mod_lt.
  pose proof (N.div_mod n 10 ltac:(done)) as Hdiv.
  generalize dependent (n mod 10). intros r Hr Hdiv.
  assert (is_ascii_digit (48 + r) = true) as Hdig.
  { unfold is_ascii_digit. apply andb_true_iff. split; apply N.leb_le; lia. }
  destruct (N.eqb_spec (n / 10) 0) as [H0|H0].
  - rewrite H0 in Hdiv. unfold digits_value. cbn [foldl forallb head]. rewrite Hdig.
    split_and!; [lia|done|done|]. intros [= Heq]. by rewrite Heq.
  - destruct fuel as [|fuel]; [simpl in Hn; lia|].
    assert (n / 10 < 10 ^ N.of_nat (S fuel)) as Hlt.
    { apply N.Div0.div_lt_upper_bound. rewrite <-N.pow_succ_r'.
      by replace (N.succ (N.of_nat (S fuel))) with (N.of_nat (S (S fuel))) by lia. }
    destruct (IH (n / 10) Hlt ltac:(done)) as (Hval & Hall & Hne & Hhead). cbv zeta in *.
    rewrite digits_from_app. set (q := digits_from (S fuel) (n / 10) []) in *.
    rewrite digits_value_snoc, Hval, forallb_app, Hall. cbn [forallb]. rewrite Hdig.
    split_and!; [lia|done|by destruct q|]. destruct q as [|c q]; [done|]. intros Hh.
    specialize (Hhead Hh). by simplify_eq.
Qed.

(** The strings the parser accepts: digits without leading zeroes. *)
Definition canonical (s : rstring) : Prop :=
  forallb is_ascii_digit s = true ∧ s ≠ [] ∧ (head s = Some 48 → s = [48]).

Lemma is_ascii_digit_spec c : is_ascii_digit c = true ↔ 48 ≤ c ≤ 57.
Proof. unfold is_ascii_digit. rewrite andb_true_iff, !N.leb_le. lia. Qed.

Lemma digits_value_pos c s :
  forallb is_ascii_digit (c :: s) = true → c ≠ 48 → 0 < digits_value (c :: s).
Proof.
  intros Hs Hc. induction s as [|d s IH] using rev_ind.
  - cbn [forallb] in Hs. rewrite andb_true_r, is_ascii_digit_spec in Hs.
    unfold digits_value. simpl. lia.
  - rewrite app_comm_cons, forallb_app, andb_true_iff in Hs. destruct Hs as [Hs _].
    rewrite app_comm_cons, digits_value_snoc. specialize (IH Hs). lia.
Qed.

Lemma canonical_snoc s c :
  canonical (s ++ [c]) → 48 ≤ c ≤ 57 ∧ (s = [] ∨ (canonical s ∧ 0 < digits_value s)).
Proof.
  intros (Hall & _ & Hhead). rewrite forallb_app, andb_true_iff in Hall.
  destruct Hall as [Hs Hc]. cbn [forallb] in Hc. rewrite andb_true_r, is_ascii_digit_spec in Hc.
  split; [done|]. destruct s as [|d s]; [by left|]. right.
  assert (d ≠ 48) as Hd by (intros ->; by specialize (Hhead eq_refl) as [= ?]; destruct s).
  split; [|by apply digits_value_pos]. split_and!; [done..|]. by intros [= ->].
Qed.

(** A canonical string is determined by its value. *)
Lemma canonical_inj s s' :
  canonical s → canonical s' → digits_value s = digits_value s' → s = s'.
Proof.
  revert s'. induction s as [|c s IH] using rev_ind; intros s' Hs Hs' Hv; [by destruct Hs as (_ & ? & _)|].
  destruct s' as [|c' s' _] using rev_ind; [by destruct Hs' as (_ & ? & _)|].
  apply canonical_snoc in Hs as [Hc Hs], Hs' as [Hc' Hs']. rewrite !digits_value_snoc in Hv.
  destruct Hs as [->|[Hs Hpos]], Hs' as [->|[Hs' Hpos']];
    try change (digits_value []) with 0 in *; try lia.
  - do 2 f_equal. lia.
  - assert (digits_value s = digits_value s' ∧ c = c') as [Hq ->]; [lia|].
    by rewrite (IH s' Hs Hs' Hq).
Qed.

Lemma DecimalU64_serialize_canonical d :
  canonical (DecimalU64_serialize d) ∧
  digits_value (DecimalU64_serialize d) = raw (decimal_get d).
Proof.
  unfold DecimalU64_serialize, display_u64.
  destruct (digits_from_spec 20 (raw (decimal_get d))) as (Hv & Hall & Hne & Hh); [|done|].
  - pose proof (u64_bound (decimal_get d)). unfold u64_max in *.
    change (10 ^ N.of_nat 20) with 100000000000000000000. lia.
  - done.
Qed.

(** The guard of [visit_str] is canonicity. *)
Lemma visit_str_guard value :
  is_empty value || negb (forallb is_ascii_digit value)
    || ((1 <? N.of_nat (length value)) && bool_decide (head value = Some 48)) = false ↔
  canonical value.
Proof.
  unfold canonical. rewrite !orb_false_iff, negb_false_iff, andb_false_iff, N.ltb_ge,
    bool_decide_eq_false.
  destruct value as [|c [|d value]]; simpl; split; intros; destruct_and?; split_and?;
    try done; try (by left; lia); try (by intros [= ->]).
  - naive_solver lia.
  - right. naive_solver.
Qed.

(** Parsing inverts printing, and accepts nothing else. *)
Lemma visit_str_serialize value d :
  DecimalU64_visit_str value = Ok d ↔ value = DecimalU64_serialize d.
Proof.
  destruct (DecimalU64_serialize_canonical d) as [Hcan Hval].
  unfold DecimalU64_visit_str. destruct (_ || _) eqn:Eguard.
  - split; [done|]. intros ->. apply visit_str_guard in Hcan. congruence.
  - apply visit_str_guard in Eguard. rewrite ok_or_Ok, fmap_Some. split.
    + intros (v & Hv%of_raw_Some & ->). apply canonical_inj; [done..|]. by rewrite Hval.
    + intros ->. exists (decimal_get d). split; [|by destruct d].
      apply of_raw_Some. by rewrite Hval.
Qed.
End decimal.

(** [str::parse::<u64>]: an optional plus sign and decimal digits. *)
Definition u64_from_str (s : rstring) : option u64 :=
  let digits := match s with 43%N :: (_ :: _) as rest => tail s | _ => s end in
  if is_empty digits || negb (forallb is_ascii_digit digits) then None
  else parse_u64_digits digits.

Lemma u64_from_str_digits s :
  s ≠ [] → forallb is_ascii_digit s = true → u64_from_str s = parse_u64_digits s.
Proof.
  intros Hne Hd. unfold u64_from_str.
  assert (match s with 43%N :: _ :: _ as rest => tail s | _ => s end = s) as ->.
  { destruct s as [|c s]; [done|]. cbn [forallb] in Hd. apply andb_true_iff in Hd as [Hc _].
    apply is_ascii_digit_spec in Hc. destruct (decide (c = 43%N)) as [->|]; [lia|].
    by repeat case_match; simplify_eq. }
  rewrite Hd. by destruct s.
Qed.

(** What [u64] prints is read back. *)
Lemma display_canonical (v : u64) :
  canonical (display_u64 (raw v)) ∧ digits_value (display_u64 (raw v)) = raw v.
Proof. exact (DecimalU64_serialize_canonical (MkDecimalU64 v)). Qed.

Lemma u64_from_display (v : u64) : u64_from_str (display_u64 (raw v)) = Some v.
Proof.
  destruct (display_canonical v) as [(Hd & Hne & _) Hv]. rewrite u64_from_str_digits by done.
  unfold parse_u64_digits. rewrite Hv. apply of_raw_raw.
Qed.

(** ** Structures (dto.rs) *)

(** *** Endpoints *)

Inductive ProviderCapabilityDto : Type :=
| PDto_SessionState | PDto_ToolEvents | PDto_Plan | PDto_Progress | PDto_ApprovalRequest
| PDto_ApprovalResponse | PDto_UserInputRequest | PDto_UserInputResponse | PDto_PromptSubmit
| PDto_Cancel | PDto_Control.

Inductive ChannelCapabilityDto : Type :=
| CDto_Notification | CDto_SessionView | CDto_ToolView | CDto_PlanView | CDto_ProgressView
| CDto_RichMessage | CDto_Approval | CDto_ChoiceInput | CDto_TextInput | CDto_FormInput
| CDto_RealtimeSync | CDto_RemoteCommand.

Record ProviderDescriptorDto : Type := MkProviderDescriptorDto {
  provider_dto_id : rstring;
  provider_dto_kind : rstring;
  provider_dto_display_name : rstring;
  provider_dto_version : option rstring;
  provider_dto_capabilities : list ProviderCapabilityDto
}.

Record ChannelDescriptorDto : Type := MkChannelDescriptorDto {
  channel_dto_id : rstring;
  channel_dto_kind : rstring;
  channel_dto_display_name : rstring;
  channel_dto_version : option rstring;
  channel_dto_capabilities : list ChannelCapabilityDto
}.

(** *** Sessions *)

Record WorkspaceRefDto : Type := MkWorkspaceRefDto {
  workspace_dto_path : rstring;
  workspace_dto_display_name : option rstring
}.

Inductive AgentStateDto : Type :=
| SDto_Initializing | SDto_Idle | SDto_Running | SDto_WaitingForInteraction
| SDto_Completed | SDto_Failed | SDto_Cancelled.

Inductive ConnectionStateDto : Type := KDto_Connected | KDto_Reconnecting | KDto_Disconnected.

Record AgentSessionDto : Type := MkAgentSessionDto {
  session_dto_id : rstring;
  session_dto_provider_id : rstring;
  session_dto_external_id : option rstring;
  session_dto_title : option rstring;
  session_dto_workspace : option WorkspaceRefDto;
  session_dto_state : AgentStateDto;
  session_dto_connection_state : ConnectionStateDto;
  session_dto_revision : DecimalU64;
  session_dto_created_at : rstring;
  session_dto_updated_at : rstring
}.

(** *** Messages, tools, outcomes, plans and progress *)

Inductive AgentMessageRoleDto : Type := RDto_User | RDto_Assistant | RDto_System.
Inductive AgentMessageLevelDto : Type := LDto_Info | LDto_Warning | LDto_Error.

Record AgentMessageDto : Type := MkAgentMessageDto {
  message_dto_role : AgentMessageRoleDto;
  message_dto_level : AgentMessageLevelDto;
  message_dto_content : rstring
}.

Inductive ToolOutcomeDto : Type := TDto_Succeeded | TDto_Failed | TDto_Cancelled.

Inductive ToolActivityDto : Type :=
| TDto_Started (call_id name : rstring) (summary : option rstring)
| TDto_Finished (call_id : rstring) (outcome : ToolOutcomeDto) (summary : option rstring).

Inductive SessionOutcomeDto : Type :=
| ODto_Completed (summary : option rstring)
| ODto_Failed (error : rstring)
| ODto_Cancelled (reason : option rstring).

Inductive PlanItemStatusDto : Type :=
| IDto_Pending | IDto_InProgress | IDto_Completed | IDto_Blocked | IDto_Skipped.

Record PlanItemDto : Type := MkPlanItemDto {
  item_dto_id : rstring;
  item_dto_content : rstring;
  item_dto_status : PlanItemStatusDto
}.

Record PlanSnapshotDto : Type := MkPlanSnapshotDto {
  plan_dto_revision : DecimalU64;
  plan_dto_explanation : option rstring;
  plan_dto_items : list PlanItemDto
}.

Inductive ProgressValueDto : Type :=
| VDto_Indeterminate
| VDto_Determinate (completed total : DecimalU64).

Record ProgressSnapshotDto : Type := MkProgressSnapshotDto {
  progress_dto_revision : DecimalU64;
  progress_dto_value : ProgressValueDto;
  progress_dto_message : option rstring
}.

(** *** Interactions *)

Inductive ApprovalCommandKindDto : Type := CKDto_Command | CKDto_WriteStdin.
Inductive ApprovalFileChangeKindDto : Type := FDto_Add | FDto_Delete | FDto_Update.
Inductive ApprovalDispositionDto : Type := DDto_Approve | DDto_Reject | DDto_Cancel.

Record ApprovalNetworkContextDto : Type := MkApprovalNetworkContextDto {
  network_dto_host : rstring;
  network_dto_protocol : rstring
}.

Record ApprovalFileChangeDto : Type := MkApprovalFileChangeDto {
  change_dto_path : rstring;
  change_dto_kind : ApprovalFileChangeKindDto;
  change_dto_diff : rstring
}.

Inductive ApprovalSubjectDto : Type :=
| SubjectDto_Command (kind : ApprovalCommandKindDto) (command cwd reason : option rstring)
    (network : option ApprovalNetworkContextDto)
| SubjectDto_FileChange (changes : list ApprovalFileChangeDto)
    (grant_root reason : option rstring).

Record ApprovalOptionDto : Type := MkApprovalOptionDto {
  approval_dto_id : rstring;
  approval_dto_disposition : ApprovalDispositionDto;
  approval_dto_label : rstring;
  approval_dto_description : option rstring
}.

Record ChoiceOptionDto : Type := MkChoiceOptionDto {
  choice_dto_id : rstring;
  choice_dto_label : rstring;
  choice_dto_description : option rstring
}.

Record FormFieldDto : Type := MkFormFieldDto {
  field_dto_id : rstring;
  field_dto_header : rstring;
  field_dto_prompt : rstring;
  field_dto_options : list ChoiceOptionDto;
  field_dto_allows_other : bool;
  field_dto_sensitive : bool
}.

Inductive InteractionRequestPayloadDto : Type :=
| RequestDto_Approval (subject : ApprovalSubjectDto) (options : list ApprovalOptionDto)
    (unavailable_reason : option rstring)
| RequestDto_Choice (options : list ChoiceOptionDto) (multiple : bool)
| RequestDto_Text (placeholder : option rstring) (multiline : bool)
| RequestDto_Form (fields : list FormFieldDto) (blocking : bool).

Record InteractionRequestDto : Type := MkInteractionRequestDto {
  request_dto_id : rstring;
  request_dto_session_id : rstring;
  request_dto_requested_at : rstring;
  request_dto_expires_at : option rstring;
  request_dto_prompt : rstring;
  request_dto_payload : InteractionRequestPayloadDto
}.

Inductive FormAnswerValueDto : Type :=
| AnswerDto_Choice (option_id : rstring)
| AnswerDto_Text (text : rstring).

Record FormAnswerDto : Type := MkFormAnswerDto {
  answer_dto_field_id : rstring;
  answer_dto_value : FormAnswerValueDto
}.

Inductive InteractionResponsePayloadDto : Type :=
| ResponseDto_Approval (option_id : rstring)
| ResponseDto_Choice (option_ids : list rstring)
| ResponseDto_Text (text : rstring)
| ResponseDto_Form (answers : list FormAnswerDto).

Record InteractionResponseDto : Type := MkInteractionResponseDto {
  response_dto_request_id : rstring;
  response_dto_session_id : rstring;
  response_dto_channel_id : rstring;
  response_dto_responded_at : rstring;
  response_dto_payload : InteractionResponsePayloadDto
}.

Inductive InteractionCloseReasonDto : Type := XDto_ResolvedElsewhere | XDto_ProviderCancelled.

Record InteractionClosedDto : Type := MkInteractionClosedDto {
  closed_dto_request_id : rstring;
  closed_dto_session_id : rstring;
  closed_dto_reason : InteractionCloseReasonDto
}.

(** *** Commands *)

Inductive PromptDeliveryDto : Type := PDDto_Queue | PDDto_Steer.
Inductive QueueActionDto : Type := QDto_Pause | QDto_Resume | QDto_Clear.

Inductive AgentCommandPayloadDto : Type :=
| CommandDto_SubmitPrompt (text : rstring) (delivery : PromptDeliveryDto)
| CommandDto_CancelSession (reason : option rstring)
| CommandDto_ListModels
| CommandDto_SelectModel (model : rstring) (effort : option rstring)
| CommandDto_SetPlanMode (enabled : bool)
| CommandDto_ListThreads (cursor : option rstring)
| CommandDto_ResumeThread (thread_id : rstring)
| CommandDto_StartThread (cwd : rstring)
| CommandDto_Compact
| CommandDto_Review (instructions : option rstring)
| CommandDto_Rename (name : rstring)
| CommandDto_Fork
| CommandDto_Status
| CommandDto_ListPermissionProfiles
| CommandDto_SelectPermissionProfile (profile : rstring)
| CommandDto_Queue (action : QueueActionDto).

Record AgentCommandDto : Type := MkAgentCommandDto {
  command_dto_id : rstring;
  command_dto_session_id : rstring;
  command_dto_channel_id : rstring;
  command_dto_issued_at : rstring;
  command_dto_payload : AgentCommandPayloadDto
}.

(** *** Events and the envelope *)

Inductive AgentEventPayloadDto : Type :=
| EventDto_SessionStarted (session : AgentSessionDto)
| EventDto_StateChanged (state : AgentStateDto)
| EventDto_ConnectionChanged (connection_state : ConnectionStateDto)
| EventDto_Message (message : AgentMessageDto)
| EventDto_ToolActivity (activity : ToolActivityDto)
| EventDto_PlanUpdated (plan : PlanSnapshotDto)
| EventDto_ProgressUpdated (progress : ProgressSnapshotDto)
| EventDto_InteractionRequested (request : InteractionRequestDto)
| EventDto_InteractionResponded (response : InteractionResponseDto)
| EventDto_InteractionClosed (interaction : InteractionClosedDto)
| EventDto_CommandIssued (command : AgentCommandDto)
| EventDto_SessionEnded (outcome : SessionOutcomeDto).

Record AgentEventDto : Type := MkAgentEventDto {
  event_dto_id : rstring;
  event_dto_session_id : rstring;
  event_dto_sequence : DecimalU64;
  event_dto_occurred_at : rstring;
  event_dto_payload : AgentEventPayloadDto
}.

Inductive MessageDto : Type :=
| MessageDto_ProviderDescriptor (descriptor : ProviderDescriptorDto)
| MessageDto_ChannelDescriptor (descriptor : ChannelDescriptorDto)
| MessageDto_AgentSession (session : AgentSessionDto)
| MessageDto_AgentEvent (event : AgentEventDto)
| MessageDto_InteractionRequest (request : InteractionRequestDto)
| MessageDto_InteractionResponse (response : InteractionResponseDto)
| MessageDto_AgentCommand (command : AgentCommandDto).

(** [protocol_version] is a [u16]. *)
Record EnvelopeDto : Type := MkEnvelopeDto {
  envelope_protocol_version : Refined (λ n : N, (n <? 65536)%N);
  envelope_message : MessageDto
}.

(** *** Decidable equality (the derived [Eq] of every DTO) *)

#[export] Instance ProviderCapabilityDto_eq_dec : EqDecision ProviderCapabilityDto.
Proof. solve_decision. Defined.
#[export] Instance ChannelCapabilityDto_eq_dec : EqDecision ChannelCapabilityDto.
Proof. solve_decision. Defined.
#[export] Instance ProviderDescriptorDto_eq_dec : EqDecision ProviderDescriptorDto.
Proof. solve_decision. Defined.
#[export] Instance ChannelDescriptorDto_eq_dec : EqDecision ChannelDescriptorDto.
Proof. solve_decision. Defined.
#[export] Instance WorkspaceRefDto_eq_dec : EqDecision WorkspaceRefDto.
Proof. solve_decision. Defined.
#[export] Instance AgentStateDto_eq_dec : EqDecision AgentStateDto.
Proof. solve_decision. Defined.
#[export] Instance ConnectionStateDto_eq_dec : EqDecision ConnectionStateDto.
Proof. solve_decision. Defined.
#[export] Instance AgentSessionDto_eq_dec : EqDecision AgentSessionDto.
Proof. solve_decision. Defined.
#[export] Instance AgentMessageRoleDto_eq_dec : EqDecision AgentMessageRoleDto.
Proof. solve_decision. Defined.
#[export] Instance AgentMessageLevelDto_eq_dec : EqDecision AgentMessageLevelDto.
Proof. solve_decision. Defined.
#[export] Instance AgentMessageDto_eq_dec : EqDecision AgentMessageDto.
Proof. solve_decision. Defined.
#[export] Instance ToolOutcomeDto_eq_dec : EqDecision ToolOutcomeDto.
Proof. solve_decision. Defined.
#[export] Instance ToolActivityDto_eq_dec : EqDecision ToolActivityDto.
Proof. solve_decision. Defined.
#[export] Instance SessionOutcomeDto_eq_dec : EqDecision SessionOutcomeDto.
Proof. solve_decision. Defined.
#[export] Instance PlanItemStatusDto_eq_dec : EqDecision PlanItemStatusDto.
Proof. solve_decision. Defined.
#[export] Instance PlanItemDto_eq_dec : EqDecision PlanItemDto.
Proof. solve_decision. Defined.
#[export] Instance PlanSnapshotDto_eq_dec : EqDecision PlanSnapshotDto.
Proof. solve_decision. Defined.
#[export] Instance ProgressValueDto_eq_dec : EqDecision ProgressValueDto.
Proof. solve_decision. Defined.
#[export] Instance ProgressSnapshotDto_eq_dec : EqDecision ProgressSnapshotDto.
Proof. solve_decision. Defined.
#[export] Instance ApprovalCommandKindDto_eq_dec : EqDecision ApprovalCommandKindDto.
Proof. solve_decision. Defined.
#[export] Instance ApprovalFileChangeKindDto_eq_dec : EqDecision ApprovalFileChangeKindDto.
Proof. solve_decision. Defined.
#[export] Instance ApprovalDispositionDto_eq_dec : EqDecision ApprovalDispositionDto.
Proof. solve_decision. Defined.
#[export] Instance ApprovalNetworkContextDto_eq_dec : EqDecision ApprovalNetworkContextDto.
Proof. solve_decision. Defined.
#[export] Instance ApprovalFileChangeDto_eq_dec : EqDecision ApprovalFileChangeDto.
Proof. solve_decision. Defined.
#[export] Instance ApprovalSubjectDto_eq_dec : EqDecision ApprovalSubjectDto.
Proof. solve_decision. Defined.
#[export] Instance ApprovalOptionDto_eq_dec : EqDecision ApprovalOptionDto.
Proof. solve_decision. Defined.
#[export] Instance ChoiceOptionDto_eq_dec : EqDecision ChoiceOptionDto.
Proof. solve_decision. Defined.
#[export] Instance FormFieldDto_eq_dec : EqDecision FormFieldDto.
Proof. solve_decision. Defined.
#[export] Instance InteractionRequestPayloadDto_eq_dec : EqDecision InteractionRequestPayloadDto.
Proof. solve_decision. Defined.
#[export] Instance InteractionRequestDto_eq_dec : EqDecision InteractionRequestDto.
Proof. solve_decision. Defined.
#[export] Instance FormAnswerValueDto_eq_dec : EqDecision FormAnswerValueDto.
Proof. solve_decision. Defined.
#[export] Instance FormAnswerDto_eq_dec : EqDecision FormAnswerDto.
Proof. solve_decision. Defined.
#[export] Instance InteractionResponsePayloadDto_eq_dec : EqDecision InteractionResponsePayloadDto.
Proof. solve_decision. Defined.
#[export] Instance InteractionResponseDto_eq_dec : EqDecision InteractionResponseDto.
Proof. solve_decision. Defined.
#[export] Instance InteractionCloseReasonDto_eq_dec : EqDecision InteractionCloseReasonDto.
Proof. solve_decision. Defined.
#[export] Instance InteractionClosedDto_eq_dec : EqDecision InteractionClosedDto.
Proof. solve_decision. Defined.
#[export] Instance PromptDeliveryDto_eq_dec : EqDecision PromptDeliveryDto.
Proof. solve_decision. Defined.
#[export] Instance QueueActionDto_eq_dec : EqDecision QueueActionDto.
Proof. solve_decision. Defined.
#[export] Instance AgentCommandPayloadDto_eq_dec : EqDecision AgentCommandPayloadDto.
Proof. solve_decision. Defined.
#[export] Instance AgentCommandDto_eq_dec : EqDecision AgentCommandDto.
Proof. solve_decision. Defined.
#[export] Instance AgentEventPayloadDto_eq_dec : EqDecision AgentEventPayloadDto.
Proof. solve_decision. Defined.
#[export] Instance AgentEventDto_eq_dec : EqDecision AgentEventDto.
Proof. solve_decision. Defined.
#[export] Instance MessageDto_eq_dec : EqDecision MessageDto.
Proof. solve_decision. Defined.
#[export] Instance EnvelopeDto_eq_dec : EqDecision EnvelopeDto.
Proof. solve_decision. Defined.

#[export] Instance ProviderCapabilityDto_countable : Countable ProviderCapabilityDto.
Proof.
  refine (inj_countable'
    (λ c, match c with
          | PDto_SessionState => 0 | PDto_ToolEvents => 1 | PDto_Plan => 2 | PDto_Progress => 3
          | PDto_ApprovalRequest => 4 | PDto_ApprovalResponse => 5 | PDto_UserInputRequest => 6
          | PDto_UserInputResponse => 7 | PDto_PromptSubmit => 8 | PDto_Cancel => 9
          | PDto_Control => 10
          end)
    (λ n, match n with
          | 0 => PDto_SessionState | 1 => PDto_ToolEvents | 2 => PDto_Plan | 3 => PDto_Progress
          | 4 => PDto_ApprovalRequest | 5 => PDto_ApprovalResponse | 6 => PDto_UserInputRequest
          | 7 => PDto_UserInputResponse | 8 => PDto_PromptSubmit | 9 => PDto_Cancel
          | _ => PDto_Control
          end) _).
  by intros [].
Defined.

#[export] Instance ChannelCapabilityDto_countable : Countable ChannelCapabilityDto.
Proof.
  refine (inj_countable'
    (λ c, match c with
          | CDto_Notification => 0 | CDto_SessionView => 1 | CDto_ToolView => 2
          | CDto_PlanView => 3 | CDto_ProgressView => 4 | CDto_RichMessage => 5
          | CDto_Approval => 6 | CDto_ChoiceInput => 7 | CDto_TextInput => 8
          | CDto_FormInput => 9 | CDto_RealtimeSync => 10 | CDto_RemoteCommand => 11
          end)
    (λ n, match n with
          | 0 => CDto_Notification | 1 => CDto_SessionView | 2 => CDto_ToolView
          | 3 => CDto_PlanView | 4 => CDto_ProgressView | 5 => CDto_RichMessage
          | 6 => CDto_Approval | 7 => CDto_ChoiceInput | 8 => CDto_TextInput
          | 9 => CDto_FormInput | 10 => CDto_RealtimeSync | _ => CDto_RemoteCommand
          end) _).
  by intros [].
Defined.
