(* ===== verification/Net.v ===== *)
(** * Names, addresses and durations

    What the program uses of the standard library on host names, ports and IP
    addresses: splitting of strings, [u16], [IpAddr] with its parser, its
    printer and its classification, and [Duration]. *)

From stdpp Require Import base strings numbers sorting gmap list.
From S2P Require Import Prelude Bytes Dto.

(** ** Strings *)

Abbreviation u16 := (Refined (λ n : N, (n <? 65536)%N)).

Definition to_ascii_lowercase (s : rstring) : rstring :=
  (λ c, if ((65 <=? c) && (c <=? 90))%N then (c + 32)%N else c) <$> s.

Definition is_ascii (s : rstring) : bool := forallb (λ c, (c <? 128)%N) s.

(** [str::split(c)] *)
Fixpoint split_on (c : N) (s : rstring) : list rstring :=
  match s with
  | [] => [[]]
  | d :: s' =>
      if (d =? c)%N then [] :: split_on c s'
      else match split_on c s' with
           | label :: labels => (d :: label) :: labels
           | [] => [[d]]
           end
  end.

(** [str::rsplit_once(c)] *)
Fixpoint rsplit_once (c : N) (s : rstring) : option (rstring * rstring) :=
  match s with
  | [] => None
  | d :: s' =>
      match rsplit_once c s' with
      | Some (before, after) => Some (d :: before, after)
      | None => if (d =? c)%N then Some ([], s') else None
      end
  end.

(** [str::strip_prefix] *)
Fixpoint strip_prefix (prefix s : rstring) : option rstring :=
  match prefix, s with
  | [], _ => Some s
  | c :: prefix', d :: s' => if (c =? d)%N then strip_prefix prefix' s' else None
  | _ :: _, [] => None
  end.
Definition starts_with (prefix s : rstring) : bool := bool_decide (is_Some (strip_prefix prefix s)).

(** [str::contains] of a string. *)
Fixpoint contains_str (needle s : rstring) : bool :=
  starts_with needle s || match s with [] => false | _ :: s' => contains_str needle s' end.

(** [str::split_once] at a string. *)
Fixpoint split_once (separator s : rstring) : option (rstring * rstring) :=
  match strip_prefix separator s with
  | Some rest => Some ([], rest)
  | None =>
      match s with
      | [] => None
      | c :: s' => '(before, after) ← split_once separator s'; Some (c :: before, after)
      end
  end.

(** [str::parse::<u16>] *)
Definition u16_from_str (s : rstring) : option u16 := v ← u64_from_str s; of_raw (raw v).

(** ** Durations *)

(** [std::time::Duration]: whole seconds and the nanoseconds beyond them. *)
Record Duration : Type := MkDuration {
  as_secs : u64;
  subsec_nanos : Refined (λ n : N, (n <? 1000000000)%N)
}.
Definition as_nanos (d : Duration) : N := (raw (as_secs d) * 1000000000 + raw (subsec_nanos d))%N.

(** ** IP addresses *)

(** An address as its octets or its 16-bit segments. *)
Inductive IpAddr : Type :=
| V4 (a b c d : N)
| V6 (segments : list N).

Record SocketAddr : Type := MkSocketAddr { socket_ip : IpAddr; socket_port : u16 }.

#[export] Instance IpAddr_eq_dec : EqDecision IpAddr.
Proof. solve_decision. Defined.
#[export] Instance SocketAddr_eq_dec : EqDecision SocketAddr.
Proof. solve_decision. Defined.

(** *** [IpAddr::from_str]

    The parser of the standard library: each reader returns a value and what is
    left. *)

Definition hex_digit (c : N) : bool :=
  is_ascii_digit c || ((97 <=? c) && (c <=? 102))%N || ((65 <=? c) && (c <=? 70))%N.
Definition hex_digit_value (c : N) : N :=
  if is_ascii_digit c then (c - 48)%N else if (97 <=? c)%N then (c - 87)%N else (c - 55)%N.
Definition hex_value (s : rstring) : N := foldl (λ acc c, (16 * acc + hex_digit_value c)%N) 0%N s.

(** The longest run of digits, and what follows it. *)
Fixpoint digit_run (digit : N → bool) (s : rstring) : rstring * rstring :=
  match s with
  | c :: s' => if digit c then let '(run, rest) := digit_run digit s' in (c :: run, rest)
               else ([], s)
  | [] => ([], [])
  end.

Definition read_char (c : N) (s : rstring) : option rstring :=
  match s with d :: s' => if (d =? c)%N then Some s' else None | [] => None end.

(** A decimal byte without leading zeros, of at most three digits. *)
Definition read_octet (s : rstring) : option (N * rstring) :=
  let '(run, rest) := digit_run is_ascii_digit s in
  if is_empty run || (3 <? length run)%nat
     || ((1 <? length run)%nat && bool_decide (head run = Some 48%N))
     || (255 <? digits_value run)%N
  then None else Some (digits_value run, rest).

Definition read_ipv4 (s : rstring) : option (N * N * N * N * rstring) :=
  '(a, s) ← read_octet s;
  '(b, s) ← read_char 46 s ≫= read_octet;
  '(c, s) ← read_char 46 s ≫= read_octet;
  '(d, s) ← read_char 46 s ≫= read_octet;
  Some (a, b, c, d, s).

Definition read_h16 (s : rstring) : option (N * rstring) :=
  let '(run, rest) := digit_run hex_digit s in
  if is_empty run || (4 <? length run)%nat then None else Some (hex_value run, rest).

(** Groups [i], [i + 1], ... of at most [limit] in all: the groups read, whether
    the last two came from an embedded IPv4 address, and what is left.  [fuel]
    is the number of groups that may follow. *)
Fixpoint read_groups (fuel i limit : nat) (s : rstring) : list N * bool * rstring :=
  match fuel with
  | 0 => ([], false, s)
  | S fuel' =>
      let separated := if (i =? 0)%nat then Some s else read_char 58 s in
      match (if (i <? limit - 1)%nat then separated ≫= read_ipv4 else None) with
      | Some (a, b, c, d, rest) => ([256 * a + b; 256 * c + d]%N, true, rest)
      | None =>
          match separated ≫= read_h16 with
          | Some (group, rest) =>
              let '(groups, ipv4, rest) := read_groups fuel' (S i) limit rest in (group :: groups, ipv4, rest)
          | None => ([], false, s)
          end
      end
  end.

Definition read_ipv6 (s : rstring) : option (list N * rstring) :=
  let '(head, head_ipv4, rest) := read_groups 8 0 8 s in
  if (length head =? 8)%nat then Some (head, rest)
  else if head_ipv4 then None
  else
    rest ← read_char 58 rest ≫= read_char 58;
    let limit := (8 - (length head + 1))%nat in
    let '(tail, _, rest) := read_groups limit 0 limit rest in
    Some (head ++ replicate (8 - length head - length tail) 0%N ++ tail, rest).

Definition parse_ip_addr (s : rstring) : option IpAddr :=
  match read_ipv4 s with
  | Some (a, b, c, d, rest) => if is_empty rest then Some (V4 a b c d) else None
  | None =>
      '(segments, rest) ← read_ipv6 s;
      if is_empty rest then Some (V6 segments) else None
  end.

Definition is_ip_address (s : rstring) : bool := bool_decide (is_Some (parse_ip_addr s)).

(** *** Classification *)

Definition segment (i : nat) (segments : list N) : N := default 0%N (segments !! i).

Definition is_unspecified (ip : IpAddr) : bool :=
  match ip with
  | V4 a b c d => bool_decide ([a; b; c; d] = [0; 0; 0; 0]%N)
  | V6 segments => forallb (λ g, (g =? 0)%N) segments
  end.

Definition is_multicast (ip : IpAddr) : bool :=
  match ip with
  | V4 a _ _ _ => ((224 <=? a) && (a <=? 239))%N
  | V6 segments => (N.land (segment 0 segments) 65280 =? 65280)%N
  end.

Definition is_loopback (ip : IpAddr) : bool :=
  match ip with
  | V4 a _ _ _ => (a =? 127)%N
  | V6 segments => bool_decide (segments = [0; 0; 0; 0; 0; 0; 0; 1]%N)
  end.

(** [Ipv4Addr::is_private], [is_link_local]. *)
Definition ipv4_is_private (a b : N) : bool :=
  ((a =? 10) || ((a =? 172) && (16 <=? b) && (b <=? 31)) || ((a =? 192) && (b =? 168)))%N.
Definition ipv4_is_link_local (a b : N) : bool := ((a =? 169) && (b =? 254))%N.

(** [Ipv6Addr::is_unique_local], [is_unicast_link_local]. *)
Definition ipv6_is_unique_local (segments : list N) : bool :=
  (N.land (segment 0 segments) 65024 =? 64512)%N.
Definition ipv6_is_unicast_link_local (segments : list N) : bool :=
  (N.land (segment 0 segments) 65472 =? 65152)%N.

(** *** [Display] *)

Definition display_ipv4 (a b c d : N) : rstring :=
  display_u64 a ++ lit "." ++ display_u64 b ++ lit "." ++ display_u64 c ++ lit "." ++ display_u64 d.

Definition hex_char (n : N) : N := if (n <? 10)%N then (48 + n)%N else (87 + n)%N.

(** [{:x}] of a segment: at most four digits. *)
Fixpoint display_hex_from (fuel : nat) (n : N) (acc : rstring) : rstring :=
  match fuel with
  | 0 => acc
  | S fuel' =>
      let acc' := hex_char (n mod 16) :: acc in
      if (n / 16 =? 0)%N then acc' else display_hex_from fuel' (n / 16) acc'
  end.
Definition display_hex (n : N) : rstring := display_hex_from 4 n [].

(** The longest run of zero segments, the first of equal ones: start and length. *)
Fixpoint zero_span (i start len best_start best_len : nat) (segments : list N) : nat * nat :=
  match segments with
  | [] => (best_start, best_len)
  | g :: segments' =>
      if (g =? 0)%N then
        let start := if (len =? 0)%nat then i else start in
        let '(best_start, best_len) :=
          if (best_len <? S len)%nat then (start, S len) else (best_start, best_len) in
        zero_span (S i) start (S len) best_start best_len segments'
      else zero_span (S i) 0 0 best_start best_len segments'
  end.

Fixpoint display_segments (segments : list N) : rstring :=
  match segments with
  | [] => []
  | [g] => display_hex g
  | g :: segments' => display_hex g ++ lit ":" ++ display_segments segments'
  end.

Definition display_ip (ip : IpAddr) : rstring :=
  match ip with
  | V4 a b c d => display_ipv4 a b c d
  | V6 segments =>
      if bool_decide (take 6 segments = [0; 0; 0; 0; 0; 65535]%N) then
        lit "::ffff:" ++ display_ipv4 (segment 6 segments / 256) (segment 6 segments mod 256)
          (segment 7 segments / 256) (segment 7 segments mod 256)
      else
        let '(start, len) := zero_span 0 0 0 0 0 segments in
        if (1 <? len)%nat
        then display_segments (take start segments) ++ lit "::" ++ display_segments (drop (start + len) segments)
        else display_segments segments
  end.

(** [Display] of a socket address. *)
Definition display_socket (a : SocketAddr) : rstring :=
  match socket_ip a with
  | V4 _ _ _ _ => display_ip (socket_ip a)
  | V6 _ => lit "[" ++ display_ip (socket_ip a) ++ lit "]"
  end ++ lit ":" ++ display_u64 (raw (socket_port a)).

(** *** Examples *)

Example parse_v4 : parse_ip_addr (lit "192.168.0.1") = Some (V4 192 168 0 1).
Proof. reflexivity. Qed.
Example parse_v4_bad : parse_ip_addr (lit "192.168.00.1") = None ∧ parse_ip_addr (lit "1.2.3.256") = None.
Proof. split; reflexivity. Qed.
Example parse_v6 :
  parse_ip_addr (lit "fe80::1:2") = Some (V6 [65152; 0; 0; 0; 0; 0; 1; 2]%N) ∧
  parse_ip_addr (lit "::ffff:1.2.3.4") = Some (V6 [0; 0; 0; 0; 0; 65535; 258; 772]%N) ∧
  parse_ip_addr (lit "1:2:3:4:5:6:7") = None.
Proof. split_and!; reflexivity. Qed.
Example display_v6 :
  display_ip (V6 [65152; 0; 0; 0; 0; 0; 1; 2]%N) = lit "fe80::1:2" ∧
  display_ip (V6 [0; 0; 0; 0; 0; 0; 0; 1]%N) = lit "::1" ∧
  display_ip (V6 [1; 0; 0; 2; 0; 0; 0; 3]%N) = lit "1:0:0:2::3" ∧
  display_ip (V6 [0; 0; 0; 0; 0; 65535; 258; 772]%N) = lit "::ffff:1.2.3.4".
Proof. split_and!; reflexivity. Qed.
