(* ===== verification/Platform.v ===== *)
(** * Private files

    Models the file functions of [agentpulse-platform/src/lib.rs] on Unix: a
    file system of entries with permission bits, in which every operation may
    fail. *)

From stdpp Require Import base strings numbers sorting gmap list.
From S2P Require Import Prelude Bytes.

(** A path is the list of its components from the root, which is the empty list;
    so the parent that [atomic_write_private] refuses as empty, that of a relative
    path of one component, is not among them. *)
Abbreviation Path := (list rstring).

(** [Path::parent] *)
Definition parent (path : Path) : option Path :=
  match path with [] => None | _ => Some (removelast path) end.

(** Anything that is neither a file nor a directory is a link or a device.  Links
    are entries of their own and are not followed. *)
Inductive FsEntry : Type :=
| Fs_File (content : list Byte.byte) (mode : N)
| Fs_Dir (mode : N)
| Fs_Other.

#[export] Instance FsEntry_eq_dec : EqDecision FsEntry.
Proof. solve_decision. Defined.

Record Disk : Type := MkDisk { entries : gmap Path FsEntry; io_count : nat }.

(** Which operations fail and with which error, how much of a failing write
    reaches the file, the mode of new directories, and the random part of the
    name of a temporary file. *)
Class DiskFaults : Type := {
  fault : nat → option rstring;
  partial_write : nat → nat;
  new_dir_mode : N;
  temporary_name : nat → rstring
}.

Definition private_dir_mode : N := 448.   (* 0o700 *)
Definition private_file_mode : N := 384.  (* 0o600 *)

Section platform.
Context `{DiskFaults}.
Implicit Types (d : Disk) (path : Path).

Abbreviation io A := (act Disk rstring A).

(** ** File-system calls *)

(** One call: it fails without effect, or does [f]. *)
Definition call {A} (f : gmap Path FsEntry → gmap Path FsEntry * result rstring A) : io A := λ d,
  match fault (io_count d) with
  | Some e => (MkDisk (entries d) (S (io_count d)), Err e)
  | None => let '(m, r) := f (entries d) in (MkDisk m (S (io_count d)), r)
  end.

Definition not_found : rstring := lit "not found".
Definition not_permitted : rstring := lit "wrong kind of file".

Definition symlink_metadata path : io FsEntry := call (λ m, (m, ok_or not_found (m !! path))).

(** The missing ancestors of a path, itself included, become directories. *)
Fixpoint create_prefixes (base rest : Path) (m : gmap Path FsEntry) : gmap Path FsEntry * result rstring unit :=
  match rest with
  | [] => (m, Ok ())
  | c :: rest' =>
      let path := base ++ [c] in
      match m !! path with
      | Some (Fs_Dir _) => create_prefixes path rest' m
      | Some _ => (m, Err not_permitted)
      | None => create_prefixes path rest' (<[path := Fs_Dir new_dir_mode]> m)
      end
  end.
Definition create_dir_all path : io unit := call (create_prefixes [] path).

Definition set_permissions path (mode : N) : io unit := call (λ m,
  match m !! path with
  | Some (Fs_File content _) => (<[path := Fs_File content mode]> m, Ok ())
  | Some (Fs_Dir _) => (<[path := Fs_Dir mode]> m, Ok ())
  | Some Fs_Other => (m, Ok ())
  | None => (m, Err not_found)
  end).

(** [OpenOptions::create_new(true)] and [create(true)], with mode [0o600]. *)
Definition open_new path : io unit := call (λ m,
  match m !! path with
  | Some _ => (m, Err (lit "already exists"))
  | None => (<[path := Fs_File [] private_file_mode]> m, Ok ())
  end).
Definition open_or_create path : io unit := call (λ m,
  match m !! path with
  | Some (Fs_File _ _) | Some Fs_Other => (m, Ok ())
  | Some (Fs_Dir _) => (m, Err not_permitted)
  | None => (<[path := Fs_File [] private_file_mode]> m, Ok ())
  end).

(** [write_all] on a file opened empty: a failure may leave a part. *)
Definition fs_write path (bytes : list Byte.byte) : io unit := λ d,
  let put content m := match m !! path with
                       | Some (Fs_File _ mode) => <[path := Fs_File content mode]> m
                       | _ => m
                       end in
  match fault (io_count d) with
  | Some e => (MkDisk (put (take (partial_write (io_count d)) bytes) (entries d)) (S (io_count d)), Err e)
  | None => (MkDisk (put bytes (entries d)) (S (io_count d)), Ok ())
  end.

Definition sync_all : io unit := call (λ m, (m, Ok ())).

Definition rename (from to : Path) : io unit := call (λ m,
  match m !! from, m !! to with
  | Some (Fs_Dir _), Some _ | Some _, Some (Fs_Dir _) => (m, Err not_permitted)
  | Some entry, _ => (<[to := entry]> (delete from m), Ok ())
  | None, _ => (m, Err not_found)
  end).

Definition remove_file path : io unit := call (λ m,
  match m !! path with
  | Some (Fs_Dir _) => (m, Err not_permitted)
  | Some _ => (delete path m, Ok ())
  | None => (m, Err not_found)
  end).

Definition fs_read path : io (list Byte.byte) := call (λ m,
  match m !! path with
  | Some (Fs_File content _) => (m, Ok content)
  | Some _ => (m, Err not_permitted)
  | None => (m, Err not_found)
  end).

(** [symlink_metadata(..).is_ok()], and [Path::exists], which would say of a link
    whether its target exists: a failing call counts as absence. *)
Definition exists_path path : act Disk rstring bool := λ d,
  let '(d', r) := symlink_metadata path d in (d', Ok (is_ok r)).

(** ** Private files (lib.rs) *)

Definition protect path (directory : bool) : io unit :=
  set_permissions path (if directory then private_dir_mode else private_file_mode).

Definition ensure_private_dir path : io unit :=
  _ ← create_dir_all path;
  entry ← symlink_metadata path;
  match entry with
  | Fs_Dir _ => protect path true
  | _ => throw (lit "private directory is not a real directory")
  end.

Definition protect_file path : io unit :=
  entry ← symlink_metadata path;
  match entry with
  | Fs_File _ _ => protect path false
  | _ => throw (lit "private file is not a regular file")
  end.

Definition open_private_lock path : io unit :=
  existed ← exists_path path;
  _ ← (if existed : bool then protect_file path else mret ());
  _ ← open_or_create path;
  protect_file path.

(** The closure of [atomic_write_private]. *)
Definition write_temporary (parent temporary path : Path) (bytes : list Byte.byte) : io unit :=
  _ ← open_new temporary;
  _ ← protect_file temporary;
  _ ← fs_write temporary bytes;
  _ ← sync_all;
  _ ← rename temporary path;
  _ ← call (λ m, (m, Ok ()));
  sync_all.

(** [if result.is_err() { let _ = fs::remove_file(&temporary); } result] *)
Definition removing_on_failure (temporary : Path) (a : io unit) : io unit := λ d,
  let '(d', result) := a d in
  match result with
  | Ok _ => (d', Ok ())
  | Err e => ((remove_file temporary d').1, Err e)
  end.

Definition atomic_write_private path (bytes : list Byte.byte) : io unit :=
  match parent path with
  | None => throw (lit "private file requires a parent directory")
  | Some dir =>
      _ ← ensure_private_dir dir;
      existed ← exists_path path;
      _ ← (if existed : bool then protect_file path else mret ());
      name ← gets (λ d, temporary_name (io_count d));
      let temporary := dir ++ [lit ".agentpulse-" ++ name ++ lit ".tmp"] in
      removing_on_failure temporary (write_temporary dir temporary path bytes)
  end.
End platform.

(** ** Correctness

    Whatever fails, a file is either untouched or completely replaced, and no
    other file is affected. *)

(** The content of a regular file. *)
Definition entry_content (e : FsEntry) : option (list Byte.byte) :=
  match e with Fs_File content _ => Some content | _ => None end.
Definition file_at (path : Path) (d : Disk) : option (list Byte.byte) := entries d !! path ≫= entry_content.

Section platform.
Context `{DiskFaults}.
Implicit Types (d : Disk) (path q : Path).

Definition temporary_of (dir : Path) (n : nat) : Path := dir ++ [lit ".agentpulse-" ++ temporary_name n ++ lit ".tmp"].

(** An operation leaves the content of a file alone. *)
Definition keeps {A} q (a : act Disk rstring A) : Prop := ∀ d, file_at q (a d).1 = file_at q d.

Lemma disk_keeps_bind {A B} q (a : act Disk rstring A) (f : A → act Disk rstring B) :
  keeps q a → (∀ x, keeps q (f x)) → keeps q (x ← a; f x).
Proof.
  intros Ha Hf d. specialize (Ha d). unfold mbind, act_bind. destruct (a d) as [d1 [x|e]]; [|done].
  by rewrite Hf.
Qed.

Lemma keeps_call {A} q (f : gmap Path FsEntry → gmap Path FsEntry * result rstring A) :
  (∀ m, (f m).1 !! q ≫= entry_content = m !! q ≫= entry_content) → keeps q (call f).
Proof.
  intros Hf d. unfold call. destruct (fault _); [done|]. specialize (Hf (entries d)). by destruct (f (entries d)).
Qed.

Lemma keeps_readonly {A} q (f : gmap Path FsEntry → result rstring A) : keeps q (call (λ m, (m, f m))).
Proof. by apply keeps_call. Qed.

(** Changing an entry without changing its content. *)
Lemma content_insert_same q path (e : FsEntry) (m : gmap Path FsEntry) :
  entry_content e = (m !! path ≫= entry_content) → (<[path := e]> m !! q ≫= entry_content) = (m !! q ≫= entry_content).
Proof.
  intros He. destruct (decide (path = q)) as [->|Hne].
  - rewrite lookup_insert_eq. simpl. by rewrite He.
  - by rewrite lookup_insert_ne.
Qed.

Lemma create_prefixes_content q base rest m :
  (create_prefixes base rest m).1 !! q ≫= entry_content = m !! q ≫= entry_content.
Proof.
  revert base m. induction rest as [|c rest IH]; intros base m; [done|]. cbn [create_prefixes].
  destruct (m !! (base ++ [c])) as [[]|] eqn:E; [done|apply IH|done|]. rewrite IH.
  apply content_insert_same. by rewrite E.
Qed.

Lemma keeps_create_dir_all q path : keeps q (create_dir_all path).
Proof. apply keeps_call. intros m. apply create_prefixes_content. Qed.

Lemma keeps_set_permissions q path mode : keeps q (set_permissions path mode).
Proof.
  apply keeps_call. intros m. destruct (m !! path) as [[]|] eqn:E; simpl; try done;
    apply content_insert_same; by rewrite E.
Qed.

Lemma keeps_symlink_metadata q path : keeps q (symlink_metadata path).
Proof. apply keeps_readonly. Qed.
Lemma keeps_protect_file q path : keeps q (protect_file path).
Proof.
  apply disk_keeps_bind; [apply keeps_readonly|]. intros []; [apply keeps_set_permissions|done..].
Qed.
Lemma keeps_ensure_private_dir q path : keeps q (ensure_private_dir path).
Proof.
  apply disk_keeps_bind; [apply keeps_create_dir_all|intros _]. apply disk_keeps_bind; [apply keeps_readonly|].
  intros []; [done|apply keeps_set_permissions|done].
Qed.
Lemma keeps_exists_path q path : keeps q (exists_path path).
Proof.
  intros d. unfold exists_path. pose proof (keeps_symlink_metadata q path d) as Hd.
  by destruct (symlink_metadata path d).
Qed.
Lemma keeps_open_new q path : q ≠ path → keeps q (open_new path).
Proof. intros Hne. apply keeps_call. intros m. destruct (m !! path); [done|]. simpl. by rewrite lookup_insert_ne. Qed.
Lemma keeps_open_or_create q path : q ≠ path → keeps q (open_or_create path).
Proof.
  intros Hne. apply keeps_call. intros m. destruct (m !! path) as [[]|]; try done. simpl. by rewrite lookup_insert_ne.
Qed.
Lemma keeps_fs_write q path bytes : q ≠ path → keeps q (fs_write path bytes).
Proof.
  intros Hne d. unfold fs_write, file_at.
  destruct (fault _); simpl; destruct (entries d !! path) as [[]|]; try done; by rewrite lookup_insert_ne.
Qed.
Lemma keeps_sync_all q : keeps q sync_all.
Proof. apply keeps_readonly. Qed.
Lemma keeps_rename q from to : q ≠ from → q ≠ to → keeps q (rename from to).
Proof.
  intros Hf Ht. apply keeps_call. intros m. destruct (m !! from) as [[]|], (m !! to) as [[]|]; simpl; try done;
    by rewrite lookup_insert_ne, lookup_delete_ne.
Qed.
Lemma keeps_remove_file q path : q ≠ path → keeps q (remove_file path).
Proof. intros Hne. apply keeps_call. intros m. destruct (m !! path) as [[]|]; simpl; try done; by rewrite lookup_delete_ne. Qed.
Lemma keeps_if_existed q (b : bool) path : keeps q (if b then protect_file path else mret ()).
Proof. destruct b; [apply keeps_protect_file|done]. Qed.
Lemma keeps_open_private_lock q path : q ≠ path → keeps q (open_private_lock path).
Proof.
  intros Hne. apply disk_keeps_bind; [apply keeps_exists_path|intros existed].
  apply disk_keeps_bind; [apply keeps_if_existed|intros _]. apply disk_keeps_bind; [by apply keeps_open_or_create|intros _].
  apply keeps_protect_file.
Qed.

(** *** The replacement *)

Lemma act_bind_step {A B} (a : act Disk rstring A) (f : A → act Disk rstring B) d :
  (x ← a; f x) d = match a d with (d', Ok x) => f x d' | (d', Err e) => (d', Err e) end.
Proof. done. Qed.

Lemma open_new_Ok path d d' :
  open_new path d = (d', Ok ()) → entries d' !! path = Some (Fs_File [] private_file_mode).
Proof.
  unfold open_new, call. destruct (fault _); [done|]. destruct (entries d !! path); [done|].
  intros [= <-]. simpl. by rewrite lookup_insert_eq.
Qed.

Lemma protect_file_Ok path content mode d d' :
  entries d !! path = Some (Fs_File content mode) → protect_file path d = (d', Ok ()) →
  entries d' !! path = Some (Fs_File content private_file_mode).
Proof.
  intros He. unfold protect_file. rewrite act_bind_step. unfold symlink_metadata at 1, call at 1.
  destruct (fault _); [done|]. rewrite He. simpl. unfold protect, set_permissions, call. simpl.
  destruct (fault _); [done|]. rewrite He. intros [= <-]. simpl. by rewrite lookup_insert_eq.
Qed.

Lemma fs_write_Ok path bytes mode content d d' :
  entries d !! path = Some (Fs_File content mode) → fs_write path bytes d = (d', Ok ()) →
  entries d' !! path = Some (Fs_File bytes mode).
Proof.
  intros He. unfold fs_write. destruct (fault _); [done|]. rewrite He. intros [= <-]. simpl. by rewrite lookup_insert_eq.
Qed.

(** The destination is untouched until the rename, and complete after it. *)
Lemma write_temporary_cases dir temporary path bytes d :
  path ≠ temporary →
  let '(d', r) := write_temporary dir temporary path bytes d in
  (is_ok r = false ∧ file_at path d' = file_at path d) ∨
  (entries d' !! path = Some (Fs_File bytes private_file_mode) ∧ entries d' !! temporary = None).
Proof.
  intros Hne. unfold write_temporary. rewrite act_bind_step. pose proof (keeps_open_new path temporary Hne d) as K1.
  destruct (open_new temporary d) as [d1 [[]|]] eqn:E1; [|by left]. apply open_new_Ok in E1.
  rewrite act_bind_step. pose proof (keeps_protect_file path temporary d1) as K2.
  destruct (protect_file temporary d1) as [d2 [[]|]] eqn:E2; cbn [fst] in K1, K2; [|left; split; [done|congruence]].
  eapply protect_file_Ok in E2; [|done].
  rewrite act_bind_step. pose proof (keeps_fs_write path temporary bytes Hne d2) as K3.
  destruct (fs_write temporary bytes d2) as [d3 [[]|]] eqn:E3; cbn [fst] in K3; [|left; split; [done|congruence]].
  eapply fs_write_Ok in E3; [|done].
  assert (file_at path d3 = file_at path d) as K by congruence.
  unfold sync_all, rename, mbind, act_bind, call. simpl.
  destruct (fault (io_count d3)); simpl; [by left|].
  destruct (fault (S (io_count d3))); simpl; [by left|]. rewrite E3. simpl.
  destruct (entries d3 !! path) as [[]|]; simpl; [|by left|..];
  (destruct (fault (S (S (io_count d3)))); simpl; [|destruct (fault (S (S (S (io_count d3))))); simpl]; right;
    by rewrite lookup_insert_eq, lookup_insert_ne, lookup_delete_eq by done).
Qed.

Lemma keeps_write_temporary q dir temporary path bytes :
  q ≠ temporary → q ≠ path → keeps q (write_temporary dir temporary path bytes).
Proof.
  intros Ht Hp. unfold write_temporary.
  repeat (apply disk_keeps_bind; [|intros _]); auto using keeps_open_new, keeps_protect_file, keeps_fs_write, keeps_rename,
    keeps_sync_all, keeps_readonly.
Qed.

Lemma keeps_removing q temporary a : q ≠ temporary → keeps q a → keeps q (removing_on_failure temporary a).
Proof.
  intros Hq Ha d. unfold removing_on_failure. specialize (Ha d). destruct (a d) as [d' [[]|e]]; [done|].
  simpl in *. by rewrite keeps_remove_file.
Qed.

(** Every file but the destination and the temporary one keeps its content. *)
Lemma keeps_atomic_write q path bytes :
  q ≠ path → (∀ n, q ≠ temporary_of (removelast path) n) → keeps q (atomic_write_private path bytes).
Proof.
  intros Hp Ht. unfold atomic_write_private. destruct (parent path) as [dir|] eqn:Ed; [|done].
  assert (dir = removelast path) as -> by (by destruct path; [|injection Ed as <-]).
  apply disk_keeps_bind; [apply keeps_ensure_private_dir|intros _]. apply disk_keeps_bind; [apply keeps_exists_path|intros b].
  apply disk_keeps_bind; [apply keeps_if_existed|intros _]. intros d. unfold mbind, act_bind, gets.
  apply keeps_removing; [apply (Ht (io_count d))|]. apply keeps_write_temporary; [apply (Ht (io_count d))|done].
Qed.

(** The destination is untouched or complete, and complete on success; the
    temporary file is gone after a success. *)
Lemma atomic_write_cases path bytes d d' r :
  (∀ n, path ≠ temporary_of (removelast path) n) → atomic_write_private path bytes d = (d', r) →
  (is_ok r = false ∧ file_at path d' = file_at path d) ∨ entries d' !! path = Some (Fs_File bytes private_file_mode).
Proof.
  intros Ht. unfold atomic_write_private. destruct (parent path) as [dir|] eqn:Ed; [|intros [= <- <-]; by left].
  assert (dir = removelast path) as -> by (by destruct path; [|injection Ed as <-]).
  rewrite act_bind_step. pose proof (keeps_ensure_private_dir path (removelast path) d) as K1.
  destruct (ensure_private_dir _ d) as [d1 [[]|]]; cbn [fst] in K1; [|intros [= <- <-]; by left].
  rewrite act_bind_step. pose proof (keeps_exists_path path path d1) as K2.
  destruct (exists_path path d1) as [d2 [b|]]; cbn [fst] in K2; [|intros [= <- <-]; left; split; [done|congruence]].
  rewrite act_bind_step. pose proof (keeps_if_existed path b path d2) as K3.
  destruct ((if b then protect_file path else mret ()) d2) as [d3 [[]|]]; cbn [fst] in K3; [|intros [= <- <-]; left; split; [done|congruence]].
  unfold mbind, act_bind, gets, removing_on_failure. fold (temporary_of (removelast path) (io_count d3)).
  pose proof (write_temporary_cases (removelast path) (temporary_of (removelast path) (io_count d3)) path bytes d3
    (Ht (io_count d3))) as Hw.
  destruct (write_temporary _ _ _ _ d3) as [d4 [[]|e]]; [destruct Hw as [[Hf _]|[Hp _]]; [done|]|].
  { intros [= <- <-]. by right. }
  pose proof (keeps_remove_file path _ (Ht (io_count d3)) d4) as K4.
  destruct Hw as [[_ Hf]|[Hp _]]; intros [= <- <-]; [left; split; [done|congruence]|]. right.
  unfold remove_file, call. destruct (fault _); [done|]. cbn [fst]. destruct (entries d4 !! temporary_of (removelast path) (io_count d3)) as [[]|]; simpl;
    try done; by rewrite lookup_delete_ne.
Qed.
End platform.
