(* ===== verification/Convert.v ===== *)
(** * Conversions between the wire format and the domain

    Models [agentpulse-protocol/src/v2/convert.rs], [message.rs], [error.rs]
    and the version dispatch of [codec.rs].  Encoding reads a validated domain
    value into a DTO; decoding rebuilds every part through the domain's own
    constructors.  The source's catch-all arms for future enum variants have no
    counterpart: the enums here have the variants the domain has today. *)

From stdpp Require Import base strings numbers gmap list.
From S2P Require Import Prelude Values Snapshots Capability Interaction Event Dto.

Inductive ProtocolError : Type :=
| JsonEncode (source : rstring)
| JsonDecode (source : rstring)
| UnsupportedProtocolVersion (received supported : N)
| InvalidWireValue (field : string) (reason : rstring)
| Domain (source : DomainError).

#[export] Instance ProtocolError_eq_dec : EqDecision ProtocolError.
Proof. solve_decision. Defined.

Definition V2_PROTOCOL_VERSION : N := 2.

(** ** Enumerations *)

Definition encode_agent_state (value : AgentState) : result ProtocolError AgentStateDto :=
  match value with
  | State_Initializing => Ok SDto_Initializing
  | State_Idle => Ok SDto_Idle
  | State_Running => Ok SDto_Running
  | State_WaitingForInteraction => Ok SDto_WaitingForInteraction
  | State_Completed => Ok SDto_Completed
  | State_Failed => Ok SDto_Failed
  | State_Cancelled => Ok SDto_Cancelled
  end.

Definition decode_agent_state (value : AgentStateDto) : AgentState :=
  match value with
  | SDto_Initializing => State_Initializing
  | SDto_Idle => State_Idle
  | SDto_Running => State_Running
  | SDto_WaitingForInteraction => State_WaitingForInteraction
  | SDto_Completed => State_Completed
  | SDto_Failed => State_Failed
  | SDto_Cancelled => State_Cancelled
  end.

Definition encode_connection_state (value : ConnectionState) :
    result ProtocolError ConnectionStateDto :=
  match value with
  | Conn_Connected => Ok KDto_Connected
  | Conn_Reconnecting => Ok KDto_Reconnecting
  | Conn_Disconnected => Ok KDto_Disconnected
  end.

Definition decode_connection_state (value : ConnectionStateDto) : ConnectionState :=
  match value with
  | KDto_Connected => Conn_Connected
  | KDto_Reconnecting => Conn_Reconnecting
  | KDto_Disconnected => Conn_Disconnected
  end.

Definition encode_message_role (value : AgentMessageRole) :
    result ProtocolError AgentMessageRoleDto :=
  match value with
  | Role_User => Ok RDto_User
  | Role_Assistant => Ok RDto_Assistant
  | Role_System => Ok RDto_System
  end.

Definition decode_message_role (value : AgentMessageRoleDto) : AgentMessageRole :=
  match value with
  | RDto_User => Role_User
  | RDto_Assistant => Role_Assistant
  | RDto_System => Role_System
  end.

Definition encode_message_level (value : AgentMessageLevel) :
    result ProtocolError AgentMessageLevelDto :=
  match value with
  | Level_Info => Ok LDto_Info
  | Level_Warning => Ok LDto_Warning
  | Level_Error => Ok LDto_Error
  end.

Definition decode_message_level (value : AgentMessageLevelDto) : AgentMessageLevel :=
  match value with
  | LDto_Info => Level_Info
  | LDto_Warning => Level_Warning
  | LDto_Error => Level_Error
  end.

Definition encode_tool_outcome (value : ToolOutcome) : result ProtocolError ToolOutcomeDto :=
  match value with
  | Tool_Succeeded => Ok TDto_Succeeded
  | Tool_Failed => Ok TDto_Failed
  | Tool_Cancelled => Ok TDto_Cancelled
  end.

Definition decode_tool_outcome (value : ToolOutcomeDto) : ToolOutcome :=
  match value with
  | TDto_Succeeded => Tool_Succeeded
  | TDto_Failed => Tool_Failed
  | TDto_Cancelled => Tool_Cancelled
  end.

Definition encode_plan_item_status (value : PlanItemStatus) :
    result ProtocolError PlanItemStatusDto :=
  match value with
  | Plan_Pending => Ok IDto_Pending
  | Plan_InProgress => Ok IDto_InProgress
  | Plan_Completed => Ok IDto_Completed
  | Plan_Blocked => Ok IDto_Blocked
  | Plan_Skipped => Ok IDto_Skipped
  end.

Definition decode_plan_item_status (value : PlanItemStatusDto) : PlanItemStatus :=
  match value with
  | IDto_Pending => Plan_Pending
  | IDto_InProgress => Plan_InProgress
  | IDto_Completed => Plan_Completed
  | IDto_Blocked => Plan_Blocked
  | IDto_Skipped => Plan_Skipped
  end.

Definition encode_approval_command_kind (value : ApprovalCommandKind) :
    result ProtocolError ApprovalCommandKindDto :=
  match value with
  | CommandKind_Command => Ok CKDto_Command
  | CommandKind_WriteStdin => Ok CKDto_WriteStdin
  end.

Definition decode_approval_command_kind (value : ApprovalCommandKindDto) : ApprovalCommandKind :=
  match value with
  | CKDto_Command => CommandKind_Command
  | CKDto_WriteStdin => CommandKind_WriteStdin
  end.

Definition encode_approval_file_change_kind (value : ApprovalFileChangeKind) :
    result ProtocolError ApprovalFileChangeKindDto :=
  match value with
  | FileChange_Add => Ok FDto_Add
  | FileChange_Delete => Ok FDto_Delete
  | FileChange_Update => Ok FDto_Update
  end.

Definition decode_approval_file_change_kind (value : ApprovalFileChangeKindDto) :
    ApprovalFileChangeKind :=
  match value with
  | FDto_Add => FileChange_Add
  | FDto_Delete => FileChange_Delete
  | FDto_Update => FileChange_Update
  end.

Definition encode_approval_disposition (value : ApprovalDisposition) :
    result ProtocolError ApprovalDispositionDto :=
  match value with
  | Disposition_Approve => Ok DDto_Approve
  | Disposition_Reject => Ok DDto_Reject
  | Disposition_Cancel => Ok DDto_Cancel
  end.

Definition decode_approval_disposition (value : ApprovalDispositionDto) : ApprovalDisposition :=
  match value with
  | DDto_Approve => Disposition_Approve
  | DDto_Reject => Disposition_Reject
  | DDto_Cancel => Disposition_Cancel
  end.

(** ** Capability sets *)

Definition provider_capability_name (value : ProviderCapabilityDto) : string :=
  match value with
  | PDto_SessionState => "session_state"
  | PDto_ToolEvents => "tool_events"
  | PDto_Plan => "plan"
  | PDto_Progress => "progress"
  | PDto_ApprovalRequest => "approval_request"
  | PDto_ApprovalResponse => "approval_response"
  | PDto_UserInputRequest => "user_input_request"
  | PDto_UserInputResponse => "user_input_response"
  | PDto_PromptSubmit => "prompt_submit"
  | PDto_Cancel => "cancel"
  | PDto_Control => "control"
  end.

Definition channel_capability_name (value : ChannelCapabilityDto) : string :=
  match value with
  | CDto_Notification => "notification"
  | CDto_SessionView => "session_view"
  | CDto_ToolView => "tool_view"
  | CDto_PlanView => "plan_view"
  | CDto_ProgressView => "progress_view"
  | CDto_RichMessage => "rich_message"
  | CDto_Approval => "approval"
  | CDto_ChoiceInput => "choice_input"
  | CDto_TextInput => "text_input"
  | CDto_FormInput => "form_input"
  | CDto_RealtimeSync => "realtime_sync"
  | CDto_RemoteCommand => "remote_command"
  end.

Definition duplicate_capability (field capability : string) : ProtocolError :=
  InvalidWireValue field (lit ("duplicate capability `" +:+ capability +:+ "`")).

(** The match of each decoder from the wire name to the flag. *)
Definition provider_capability_flag (value : ProviderCapabilityDto) : ProviderCapabilities :=
  match value with
  | PDto_SessionState => ProviderCaps.SESSION_STATE
  | PDto_ToolEvents => ProviderCaps.TOOL_EVENTS
  | PDto_Plan => ProviderCaps.PLAN
  | PDto_Progress => ProviderCaps.PROGRESS
  | PDto_ApprovalRequest => ProviderCaps.APPROVAL_REQUEST
  | PDto_ApprovalResponse => ProviderCaps.APPROVAL_RESPONSE
  | PDto_UserInputRequest => ProviderCaps.USER_INPUT_REQUEST
  | PDto_UserInputResponse => ProviderCaps.USER_INPUT_RESPONSE
  | PDto_PromptSubmit => ProviderCaps.PROMPT_SUBMIT
  | PDto_Cancel => ProviderCaps.CANCEL
  | PDto_Control => ProviderCaps.CONTROL
  end.

Definition channel_capability_flag (value : ChannelCapabilityDto) : ChannelCapabilities :=
  match value with
  | CDto_Notification => ChannelCaps.NOTIFICATION
  | CDto_SessionView => ChannelCaps.SESSION_VIEW
  | CDto_ToolView => ChannelCaps.TOOL_VIEW
  | CDto_PlanView => ChannelCaps.PLAN_VIEW
  | CDto_ProgressView => ChannelCaps.PROGRESS_VIEW
  | CDto_RichMessage => ChannelCaps.RICH_MESSAGE
  | CDto_Approval => ChannelCaps.APPROVAL
  | CDto_ChoiceInput => ChannelCaps.CHOICE_INPUT
  | CDto_TextInput => ChannelCaps.TEXT_INPUT
  | CDto_FormInput => ChannelCaps.FORM_INPUT
  | CDto_RealtimeSync => ChannelCaps.REALTIME_SYNC
  | CDto_RemoteCommand => ChannelCaps.REMOTE_COMMAND
  end.

(** The table [known], in its order. *)
Definition known_provider_capabilities : list (ProviderCapabilities * ProviderCapabilityDto) :=
  [(ProviderCaps.SESSION_STATE, PDto_SessionState);
   (ProviderCaps.TOOL_EVENTS, PDto_ToolEvents);
   (ProviderCaps.PLAN, PDto_Plan);
   (ProviderCaps.PROGRESS, PDto_Progress);
   (ProviderCaps.APPROVAL_REQUEST, PDto_ApprovalRequest);
   (ProviderCaps.APPROVAL_RESPONSE, PDto_ApprovalResponse);
   (ProviderCaps.USER_INPUT_REQUEST, PDto_UserInputRequest);
   (ProviderCaps.USER_INPUT_RESPONSE, PDto_UserInputResponse);
   (ProviderCaps.PROMPT_SUBMIT, PDto_PromptSubmit);
   (ProviderCaps.CANCEL, PDto_Cancel);
   (ProviderCaps.CONTROL, PDto_Control)].

Definition known_channel_capabilities : list (ChannelCapabilities * ChannelCapabilityDto) :=
  [(ChannelCaps.NOTIFICATION, CDto_Notification);
   (ChannelCaps.SESSION_VIEW, CDto_SessionView);
   (ChannelCaps.TOOL_VIEW, CDto_ToolView);
   (ChannelCaps.PLAN_VIEW, CDto_PlanView);
   (ChannelCaps.PROGRESS_VIEW, CDto_ProgressView);
   (ChannelCaps.RICH_MESSAGE, CDto_RichMessage);
   (ChannelCaps.APPROVAL, CDto_Approval);
   (ChannelCaps.CHOICE_INPUT, CDto_ChoiceInput);
   (ChannelCaps.TEXT_INPUT, CDto_TextInput);
   (ChannelCaps.FORM_INPUT, CDto_FormInput);
   (ChannelCaps.REALTIME_SYNC, CDto_RealtimeSync);
   (ChannelCaps.REMOTE_COMMAND, CDto_RemoteCommand)].

Definition encode_known {f D} (known : list (Capabilities f * D)) (value : Capabilities f) : list D :=
  omap (λ '(capability, dto), if contains value capability then Some dto else None) known.

Definition encode_provider_capabilities (value : ProviderCapabilities) :
    list ProviderCapabilityDto := encode_known known_provider_capabilities value.
Definition encode_channel_capabilities (value : ChannelCapabilities) :
    list ChannelCapabilityDto := encode_known known_channel_capabilities value.

(** The decoding loop with its [HashSet] of seen values. *)
Fixpoint decode_capability_loop {f D} `{Countable D} (flag_of : D → Capabilities f)
    (duplicate : D → ProtocolError) (seen : gset D) (capabilities : Capabilities f)
    (values : list D) : result ProtocolError (Capabilities f) :=
  match values with
  | [] => Ok capabilities
  | value :: values' =>
      if bool_decide (value ∈ seen) then Err (duplicate value)
      else decode_capability_loop flag_of duplicate ({[value]} ∪ seen)
             (union capabilities (flag_of value)) values'
  end.

Definition decode_provider_capabilities (values : list ProviderCapabilityDto) :
    result ProtocolError ProviderCapabilities :=
  decode_capability_loop provider_capability_flag
    (λ value, duplicate_capability "provider capabilities" (provider_capability_name value))
    ∅ NONE values.

Definition decode_channel_capabilities (values : list ChannelCapabilityDto) :
    result ProtocolError ChannelCapabilities :=
  decode_capability_loop channel_capability_flag
    (λ value, duplicate_capability "channel capabilities" (channel_capability_name value))
    ∅ NONE values.

Section convert.
Context `{Externals}.

(** The [?] on a domain result: [impl From<DomainError> for ProtocolError]. *)
Definition domain {A} (m : result DomainError A) : result ProtocolError A := map_err Domain m.

(** ** Scalars *)

Definition encode_timestamp (value : Timestamp) (field : string) :
    result ProtocolError rstring :=
  map_err (InvalidWireValue field) (rfc3339_format value).

Definition decode_timestamp (value : rstring) (field : string) :
    result ProtocolError Timestamp :=
  map_err (InvalidWireValue field) (rfc3339_parse value).

Definition parse_id (e : Entity) (value : rstring) : result ProtocolError (Id e) :=
  domain (id_from_str e value).

Definition decode_text (value : rstring) : result ProtocolError NonEmptyText :=
  domain (NonEmptyText_new value).

Definition decode_optional_text (value : option rstring) :
    result ProtocolError (option NonEmptyText) :=
  domain (transpose_map NonEmptyText_new value).

Definition encode_text (t : NonEmptyText) : rstring := raw t.

(** ** Endpoint descriptors *)

Definition encode_provider_descriptor (d : ProviderDescriptor) : ProviderDescriptorDto :=
  MkProviderDescriptorDto (id_to_string (provider_id d)) (kind_as_str (provider_kind d))
    (encode_text (provider_display_name d)) (encode_text <$> provider_version d)
    (encode_provider_capabilities (provider_capabilities d)).

Definition decode_provider_descriptor (dto : ProviderDescriptorDto) :
    result ProtocolError ProviderDescriptor :=
  id ← parse_id ProviderEntity (provider_dto_id dto);
  kind ← domain (Kind_new ProviderKindFamily (provider_dto_kind dto));
  display_name ← decode_text (provider_dto_display_name dto);
  capabilities ← decode_provider_capabilities (provider_dto_capabilities dto);
  let descriptor := ProviderDescriptor_new id kind display_name capabilities in
  match provider_dto_version dto with
  | Some version => provider_with_version descriptor <$> decode_text version
  | None => Ok descriptor
  end.

Definition encode_channel_descriptor (d : ChannelDescriptor) : ChannelDescriptorDto :=
  MkChannelDescriptorDto (id_to_string (channel_id d)) (kind_as_str (channel_kind d))
    (encode_text (channel_display_name d)) (encode_text <$> channel_version d)
    (encode_channel_capabilities (channel_capabilities d)).

Definition decode_channel_descriptor (dto : ChannelDescriptorDto) :
    result ProtocolError ChannelDescriptor :=
  id ← parse_id ChannelEntity (channel_dto_id dto);
  kind ← domain (Kind_new ChannelKindFamily (channel_dto_kind dto));
  display_name ← decode_text (channel_dto_display_name dto);
  capabilities ← decode_channel_capabilities (channel_dto_capabilities dto);
  let descriptor := ChannelDescriptor_new id kind display_name capabilities in
  match channel_dto_version dto with
  | Some version => channel_with_version descriptor <$> decode_text version
  | None => Ok descriptor
  end.

(** ** Sessions *)

Definition encode_workspace (w : WorkspaceRef) : WorkspaceRefDto :=
  MkWorkspaceRefDto (encode_text (workspace_path w)) (encode_text <$> workspace_display_name w).

Definition decode_workspace (dto : WorkspaceRefDto) : result ProtocolError WorkspaceRef :=
  path ← decode_text (workspace_dto_path dto);
  let workspace := WorkspaceRef_new path in
  match workspace_dto_display_name dto with
  | Some display_name => with_display_name workspace <$> decode_text display_name
  | None => Ok workspace
  end.

Definition encode_session (s : AgentSession) : result ProtocolError AgentSessionDto :=
  state ← encode_agent_state (session_state s);
  connection_state ← encode_connection_state (session_connection_state s);
  created_at ← encode_timestamp (session_created_at s) "session created_at";
  updated_at ← encode_timestamp (session_updated_at s) "session updated_at";
  Ok (MkAgentSessionDto (id_to_string (session_id s)) (id_to_string (session_provider_id s))
        ((λ x, encode_text (external_id_text x)) <$> session_external_id s)
        (encode_text <$> session_title s) (encode_workspace <$> session_workspace s)
        state connection_state (MkDecimalU64 (counter_get (session_revision s)))
        created_at updated_at).

Definition decode_session (dto : AgentSessionDto) : result ProtocolError AgentSession :=
  created_at ← decode_timestamp (session_dto_created_at dto) "session created_at";
  updated_at ← decode_timestamp (session_dto_updated_at dto) "session updated_at";
  id ← parse_id SessionEntity (session_dto_id dto);
  provider_id ← parse_id ProviderEntity (session_dto_provider_id dto);
  revision ← domain (Counter_new RevisionFamily (decimal_get (session_dto_revision dto)));
  let builder :=
    set_revision
      (set_connection_state
         (set_state (AgentSession_builder id provider_id created_at)
            (decode_agent_state (session_dto_state dto)))
         (decode_connection_state (session_dto_connection_state dto)))
      revision updated_at in
  builder ← match session_dto_external_id dto with
            | Some external_id => set_external_id builder <$> domain (ExternalId_new external_id)
            | None => Ok builder
            end;
  builder ← match session_dto_title dto with
            | Some title => set_title builder <$> decode_text title
            | None => Ok builder
            end;
  builder ← match session_dto_workspace dto with
            | Some workspace => set_workspace builder <$> decode_workspace workspace
            | None => Ok builder
            end;
  domain (build builder).

(** ** Messages, tools, outcomes, plans and progress *)

Definition encode_message (m : AgentMessage) : result ProtocolError AgentMessageDto :=
  role ← encode_message_role (message_role m);
  level ← encode_message_level (message_level m);
  Ok (MkAgentMessageDto role level (encode_text (message_content m))).

Definition decode_message (dto : AgentMessageDto) : result ProtocolError AgentMessage :=
  content ← decode_text (message_dto_content dto);
  Ok (MkAgentMessage (decode_message_role (message_dto_role dto))
        (decode_message_level (message_dto_level dto)) content).

Definition encode_tool_activity (activity : ToolActivity) :
    result ProtocolError ToolActivityDto :=
  match activity with
  | Tool_Started call_id name summary =>
      Ok (TDto_Started (id_to_string call_id) (encode_text name) (encode_text <$> summary))
  | Tool_Finished call_id outcome summary =>
      outcome ← encode_tool_outcome outcome;
      Ok (TDto_Finished (id_to_string call_id) outcome (encode_text <$> summary))
  end.

Definition decode_tool_activity (dto : ToolActivityDto) : result ProtocolError ToolActivity :=
  match dto with
  | TDto_Started call_id name summary =>
      call_id ← parse_id ToolCallEntity call_id;
      name ← decode_text name;
      summary ← decode_optional_text summary;
      Ok (Tool_Started call_id name summary)
  | TDto_Finished call_id outcome summary =>
      call_id ← parse_id ToolCallEntity call_id;
      summary ← decode_optional_text summary;
      Ok (Tool_Finished call_id (decode_tool_outcome outcome) summary)
  end.

Definition encode_session_outcome (outcome : SessionOutcome) :
    result ProtocolError SessionOutcomeDto :=
  match outcome with
  | Outcome_Completed summary => Ok (ODto_Completed (encode_text <$> summary))
  | Outcome_Failed error => Ok (ODto_Failed (encode_text error))
  | Outcome_Cancelled reason => Ok (ODto_Cancelled (encode_text <$> reason))
  end.

Definition decode_session_outcome (dto : SessionOutcomeDto) :
    result ProtocolError SessionOutcome :=
  match dto with
  | ODto_Completed summary => Outcome_Completed <$> decode_optional_text summary
  | ODto_Failed error => Outcome_Failed <$> decode_text error
  | ODto_Cancelled reason => Outcome_Cancelled <$> decode_optional_text reason
  end.

Definition encode_plan_item (item : PlanItem) : result ProtocolError PlanItemDto :=
  status ← encode_plan_item_status (plan_item_status item);
  Ok (MkPlanItemDto (id_to_string (plan_item_id item)) (encode_text (plan_item_content item))
        status).

Definition decode_plan_item (dto : PlanItemDto) : result ProtocolError PlanItem :=
  id ← parse_id PlanItemEntity (item_dto_id dto);
  content ← decode_text (item_dto_content dto);
  Ok (MkPlanItem id content (decode_plan_item_status (item_dto_status dto))).

Definition encode_plan (p : PlanSnapshot) : result ProtocolError PlanSnapshotDto :=
  items ← try_collect encode_plan_item (plan_items p);
  Ok (MkPlanSnapshotDto (MkDecimalU64 (counter_get (plan_revision p)))
        (encode_text <$> plan_explanation p) items).

Definition decode_plan (dto : PlanSnapshotDto) : result ProtocolError PlanSnapshot :=
  items ← try_collect decode_plan_item (plan_dto_items dto);
  revision ← domain (Counter_new RevisionFamily (decimal_get (plan_dto_revision dto)));
  plan ← domain (PlanSnapshot_new revision items);
  match plan_dto_explanation dto with
  | Some explanation => with_explanation plan <$> decode_text explanation
  | None => Ok plan
  end.

Definition encode_progress_value (value : ProgressValue) :
    result ProtocolError ProgressValueDto :=
  match value with
  | Indeterminate => Ok VDto_Indeterminate
  | Determinate progress =>
      Ok (VDto_Determinate (MkDecimalU64 (progress_completed progress))
            (MkDecimalU64 (nonzero_get (progress_total progress))))
  end.

Definition decode_progress_value (dto : ProgressValueDto) :
    result ProtocolError ProgressValue :=
  match dto with
  | VDto_Indeterminate => Ok Indeterminate
  | VDto_Determinate completed total =>
      domain (Determinate <$> DeterminateProgress_new (decimal_get completed) (decimal_get total))
  end.

Definition encode_progress (p : ProgressSnapshot) : result ProtocolError ProgressSnapshotDto :=
  value ← encode_progress_value (progress_value p);
  Ok (MkProgressSnapshotDto (MkDecimalU64 (counter_get (progress_revision p))) value
        (encode_text <$> progress_message p)).

Definition decode_progress (dto : ProgressSnapshotDto) : result ProtocolError ProgressSnapshot :=
  revision ← domain (Counter_new RevisionFamily (decimal_get (progress_dto_revision dto)));
  value ← decode_progress_value (progress_dto_value dto);
  let progress := ProgressSnapshot_new revision value in
  match progress_dto_message dto with
  | Some message => with_message progress <$> decode_text message
  | None => Ok progress
  end.
End convert.

(** ** Interactions *)

Section convert_interactions.
Context `{Externals}.

Definition encode_choice_option (o : ChoiceOption) : result ProtocolError ChoiceOptionDto :=
  Ok (MkChoiceOptionDto (id_to_string (choice_option_id o)) (encode_text (choice_label o))
        (encode_text <$> choice_description o)).

Definition decode_choice_option (dto : ChoiceOptionDto) : result ProtocolError ChoiceOption :=
  id ← parse_id ChoiceOptionEntity (choice_dto_id dto);
  label ← decode_text (choice_dto_label dto);
  let option := ChoiceOption_new id label in
  match choice_dto_description dto with
  | Some description => choice_with_description option <$> decode_text description
  | None => Ok option
  end.

Definition encode_network (context : ApprovalNetworkContext) : ApprovalNetworkContextDto :=
  MkApprovalNetworkContextDto (encode_text (network_host context))
    (encode_text (network_protocol context)).

Definition decode_network (context : ApprovalNetworkContextDto) :
    result ProtocolError ApprovalNetworkContext :=
  host ← decode_text (network_dto_host context);
  protocol ← decode_text (network_dto_protocol context);
  Ok (MkApprovalNetworkContext host protocol).

Definition encode_file_change (change : ApprovalFileChange) :
    result ProtocolError ApprovalFileChangeDto :=
  kind ← encode_approval_file_change_kind (change_kind change);
  Ok (MkApprovalFileChangeDto (encode_text (change_path change)) kind (change_diff change)).

Definition decode_file_change (change : ApprovalFileChangeDto) :
    result ProtocolError ApprovalFileChange :=
  path ← decode_text (change_dto_path change);
  Ok (MkApprovalFileChange path (decode_approval_file_change_kind (change_dto_kind change))
        (change_dto_diff change)).

Definition encode_approval_subject (subject : ApprovalSubject) :
    result ProtocolError ApprovalSubjectDto :=
  match subject with
  | CommandSubject kind command cwd reason network =>
      kind ← encode_approval_command_kind kind;
      Ok (SubjectDto_Command kind (encode_text <$> command) (encode_text <$> cwd)
            (encode_text <$> reason) (encode_network <$> network))
  | FileChangeSubject changes grant_root reason =>
      changes ← try_collect encode_file_change changes;
      Ok (SubjectDto_FileChange changes (encode_text <$> grant_root) (encode_text <$> reason))
  end.

Definition decode_approval_subject (dto : ApprovalSubjectDto) :
    result ProtocolError ApprovalSubject :=
  match dto with
  | SubjectDto_Command kind command cwd reason network =>
      command ← decode_optional_text command;
      cwd ← decode_optional_text cwd;
      reason ← decode_optional_text reason;
      network ← transpose_map decode_network network;
      Ok (CommandSubject (decode_approval_command_kind kind) command cwd reason network)
  | SubjectDto_FileChange changes grant_root reason =>
      changes ← try_collect decode_file_change changes;
      grant_root ← decode_optional_text grant_root;
      reason ← decode_optional_text reason;
      Ok (FileChangeSubject changes grant_root reason)
  end.

Definition encode_approval_option (o : ApprovalOption) : result ProtocolError ApprovalOptionDto :=
  disposition ← encode_approval_disposition (approval_disposition o);
  Ok (MkApprovalOptionDto (id_to_string (approval_option_id o)) disposition
        (encode_text (approval_label o)) (encode_text <$> approval_description o)).

Definition decode_approval_option (dto : ApprovalOptionDto) :
    result ProtocolError ApprovalOption :=
  id ← parse_id ApprovalOptionEntity (approval_dto_id dto);
  label ← decode_text (approval_dto_label dto);
  let option :=
    ApprovalOption_new id (decode_approval_disposition (approval_dto_disposition dto)) label in
  match approval_dto_description dto with
  | Some description => approval_with_description option <$> decode_text description
  | None => Ok option
  end.

Definition encode_form_field (field : FormField) : result ProtocolError FormFieldDto :=
  options ← try_collect encode_choice_option (field_options field);
  Ok (MkFormFieldDto (id_to_string (field_id field)) (encode_text (field_header field))
        (encode_text (field_prompt field)) options (field_allows_other field)
        (field_sensitive field)).

Definition decode_form_field (dto : FormFieldDto) : result ProtocolError FormField :=
  id ← parse_id FormFieldEntity (field_dto_id dto);
  header ← decode_text (field_dto_header dto);
  prompt ← decode_text (field_dto_prompt dto);
  options ← try_collect decode_choice_option (field_dto_options dto);
  domain (FormField_new id header prompt options (field_dto_allows_other dto)
            (field_dto_sensitive dto)).

Definition encode_interaction_request_payload (payload : InteractionRequestPayload) :
    result ProtocolError InteractionRequestPayloadDto :=
  match payload with
  | Request_Approval request =>
      subject ← encode_approval_subject (approval_subject request);
      options ← try_collect encode_approval_option (approval_options request);
      Ok (RequestDto_Approval subject options
            (encode_text <$> approval_unavailable_reason request))
  | Request_Choice request =>
      options ← try_collect encode_choice_option (choice_options request);
      Ok (RequestDto_Choice options (choice_multiple request))
  | Request_Text request =>
      Ok (RequestDto_Text (encode_text <$> text_placeholder request) (text_multiline request))
  | Request_Form request =>
      fields ← try_collect encode_form_field (form_fields request);
      Ok (RequestDto_Form fields (form_blocking request))
  end.

Definition decode_interaction_request_payload (dto : InteractionRequestPayloadDto) :
    result ProtocolError InteractionRequestPayload :=
  match dto with
  | RequestDto_Approval subject options unavailable_reason =>
      subject ← decode_approval_subject subject;
      options ← try_collect decode_approval_option options;
      request ←
        match is_empty options, unavailable_reason with
        | false, None => domain (ApprovalRequest_actionable subject options)
        | true, Some reason => ApprovalRequest_unavailable subject <$> decode_text reason
        | true, None =>
            Err (InvalidWireValue "approval"
                   (lit "an approval without options requires unavailable_reason"))
        | false, Some _ =>
            Err (InvalidWireValue "approval"
                   (lit "an actionable approval cannot carry unavailable_reason"))
        end;
      Ok (Request_Approval request)
  | RequestDto_Choice options multiple =>
      options ← try_collect decode_choice_option options;
      domain (Request_Choice <$> ChoiceRequest_new options multiple)
  | RequestDto_Text placeholder multiline =>
      let request := TextInputRequest_new multiline in
      match placeholder with
      | Some placeholder =>
          (λ p, Request_Text (with_placeholder request p)) <$> decode_text placeholder
      | None => Ok (Request_Text request)
      end
  | RequestDto_Form fields blocking =>
      fields ← try_collect decode_form_field fields;
      Request_Form <$> domain (FormRequest_new fields blocking)
  end.

Definition encode_interaction_request (r : InteractionRequest) :
    result ProtocolError InteractionRequestDto :=
  requested_at ← encode_timestamp (request_requested_at r) "interaction requested_at";
  expires_at ← transpose_map (λ value, encode_timestamp value "interaction expires_at")
                 (request_expires_at r);
  payload ← encode_interaction_request_payload (request_payload r);
  Ok (MkInteractionRequestDto (id_to_string (request_id r))
        (id_to_string (request_session_id r)) requested_at expires_at
        (encode_text (request_prompt r)) payload).

Definition decode_interaction_request (dto : InteractionRequestDto) :
    result ProtocolError InteractionRequest :=
  id ← parse_id InteractionEntity (request_dto_id dto);
  session_id ← parse_id SessionEntity (request_dto_session_id dto);
  requested_at ← decode_timestamp (request_dto_requested_at dto) "interaction requested_at";
  prompt ← decode_text (request_dto_prompt dto);
  payload ← decode_interaction_request_payload (request_dto_payload dto);
  let request := InteractionRequest_new id session_id requested_at prompt payload in
  match request_dto_expires_at dto with
  | Some expires_at =>
      expires_at ← decode_timestamp expires_at "interaction expires_at";
      domain (with_expiration request expires_at)
  | None => Ok request
  end.

Definition encode_form_answer (answer : FormAnswer) : FormAnswerDto :=
  MkFormAnswerDto (id_to_string (answer_field_id answer))
    match answer_value answer with
    | Answer_Choice option_id => AnswerDto_Choice (id_to_string option_id)
    | Answer_Text text => AnswerDto_Text (encode_text text)
    end.

Definition decode_form_answer (answer : FormAnswerDto) : result ProtocolError FormAnswer :=
  value ← match answer_dto_value answer with
          | AnswerDto_Choice option_id => Answer_Choice <$> parse_id ChoiceOptionEntity option_id
          | AnswerDto_Text text => Answer_Text <$> decode_text text
          end;
  field_id ← parse_id FormFieldEntity (answer_dto_field_id answer);
  Ok (MkFormAnswer field_id value).

Definition encode_interaction_response_payload (payload : InteractionResponsePayload) :
    result ProtocolError InteractionResponsePayloadDto :=
  match payload with
  | Response_Approval selection =>
      Ok (ResponseDto_Approval (id_to_string (selection_option_id selection)))
  | Response_Choice selection =>
      Ok (ResponseDto_Choice (id_to_string <$> selection_option_ids selection))
  | Response_Text text => Ok (ResponseDto_Text (encode_text text))
  | Response_Form response => Ok (ResponseDto_Form (encode_form_answer <$> form_answers response))
  end.

Definition decode_interaction_response_payload (dto : InteractionResponsePayloadDto) :
    result ProtocolError InteractionResponsePayload :=
  match dto with
  | ResponseDto_Approval option_id =>
      (λ id, Response_Approval (MkApprovalSelection id)) <$>
        parse_id ApprovalOptionEntity option_id
  | ResponseDto_Choice option_ids =>
      ids ← try_collect (parse_id ChoiceOptionEntity) option_ids;
      Response_Choice <$> domain (ChoiceSelection_new ids)
  | ResponseDto_Text text => Response_Text <$> decode_text text
  | ResponseDto_Form answers =>
      answers ← try_collect decode_form_answer answers;
      Response_Form <$> domain (FormResponse_new answers)
  end.

Definition encode_interaction_response (r : InteractionResponse) :
    result ProtocolError InteractionResponseDto :=
  responded_at ← encode_timestamp (response_responded_at r) "interaction responded_at";
  payload ← encode_interaction_response_payload (response_payload r);
  Ok (MkInteractionResponseDto (id_to_string (response_request_id r))
        (id_to_string (response_session_id r)) (id_to_string (response_channel_id r))
        responded_at payload).

Definition decode_interaction_response (dto : InteractionResponseDto) :
    result ProtocolError InteractionResponse :=
  request_id ← parse_id InteractionEntity (response_dto_request_id dto);
  session_id ← parse_id SessionEntity (response_dto_session_id dto);
  channel_id ← parse_id ChannelEntity (response_dto_channel_id dto);
  responded_at ← decode_timestamp (response_dto_responded_at dto) "interaction responded_at";
  payload ← decode_interaction_response_payload (response_dto_payload dto);
  Ok (MkInteractionResponse request_id session_id channel_id responded_at payload).

Definition encode_interaction_closed (c : InteractionClosed) :
    result ProtocolError InteractionClosedDto :=
  Ok (MkInteractionClosedDto (id_to_string (closed_request_id c))
        (id_to_string (closed_session_id c))
        match closed_reason c with
        | ResolvedElsewhere => XDto_ResolvedElsewhere
        | ProviderCancelled => XDto_ProviderCancelled
        end).

Definition decode_interaction_closed (dto : InteractionClosedDto) :
    result ProtocolError InteractionClosed :=
  request_id ← parse_id InteractionEntity (closed_dto_request_id dto);
  session_id ← parse_id SessionEntity (closed_dto_session_id dto);
  Ok (MkInteractionClosed request_id session_id
        match closed_dto_reason dto with
        | XDto_ResolvedElsewhere => ResolvedElsewhere
        | XDto_ProviderCancelled => ProviderCancelled
        end).
End convert_interactions.

(** ** Commands, events and the envelope *)

Section convert_messages.
Context `{Externals}.

Definition encode_command_payload (payload : AgentCommandPayload) :
    result ProtocolError AgentCommandPayloadDto :=
  match payload with
  | SubmitPrompt text delivery =>
      Ok (CommandDto_SubmitPrompt (encode_text text)
            match delivery with Delivery_Queue => PDDto_Queue | Delivery_Steer => PDDto_Steer end)
  | CancelSession reason => Ok (CommandDto_CancelSession (encode_text <$> reason))
  | ListModels => Ok CommandDto_ListModels
  | SelectModel model effort =>
      Ok (CommandDto_SelectModel (encode_text model) (encode_text <$> effort))
  | SetPlanMode enabled => Ok (CommandDto_SetPlanMode enabled)
  | ListThreads cursor => Ok (CommandDto_ListThreads (encode_text <$> cursor))
  | ResumeThread thread_id => Ok (CommandDto_ResumeThread (encode_text thread_id))
  | StartThread cwd => Ok (CommandDto_StartThread (encode_text cwd))
  | Compact => Ok CommandDto_Compact
  | Review instructions => Ok (CommandDto_Review (encode_text <$> instructions))
  | Rename name => Ok (CommandDto_Rename (encode_text name))
  | Fork => Ok CommandDto_Fork
  | Status => Ok CommandDto_Status
  | ListPermissionProfiles => Ok CommandDto_ListPermissionProfiles
  | SelectPermissionProfile profile => Ok (CommandDto_SelectPermissionProfile (encode_text profile))
  | Queue action =>
      Ok (CommandDto_Queue
            match action with
            | Queue_Pause => QDto_Pause | Queue_Resume => QDto_Resume | Queue_Clear => QDto_Clear
            end)
  end.

Definition decode_command_payload (dto : AgentCommandPayloadDto) :
    result ProtocolError AgentCommandPayload :=
  match dto with
  | CommandDto_SubmitPrompt text delivery =>
      text ← decode_text text;
      Ok (SubmitPrompt text
            match delivery with PDDto_Queue => Delivery_Queue | PDDto_Steer => Delivery_Steer end)
  | CommandDto_CancelSession reason => CancelSession <$> decode_optional_text reason
  | CommandDto_ListModels => Ok ListModels
  | CommandDto_SelectModel model effort =>
      model ← decode_text model;
      effort ← decode_optional_text effort;
      Ok (SelectModel model effort)
  | CommandDto_SetPlanMode enabled => Ok (SetPlanMode enabled)
  | CommandDto_ListThreads cursor => ListThreads <$> decode_optional_text cursor
  | CommandDto_ResumeThread thread_id => ResumeThread <$> decode_text thread_id
  | CommandDto_StartThread cwd => StartThread <$> decode_text cwd
  | CommandDto_Compact => Ok Compact
  | CommandDto_Review instructions => Review <$> decode_optional_text instructions
  | CommandDto_Rename name => Rename <$> decode_text name
  | CommandDto_Fork => Ok Fork
  | CommandDto_Status => Ok Status
  | CommandDto_ListPermissionProfiles => Ok ListPermissionProfiles
  | CommandDto_SelectPermissionProfile profile => SelectPermissionProfile <$> decode_text profile
  | CommandDto_Queue action =>
      Ok (Queue
            match action with
            | QDto_Pause => Queue_Pause | QDto_Resume => Queue_Resume | QDto_Clear => Queue_Clear
            end)
  end.

Definition encode_command (c : AgentCommand) : result ProtocolError AgentCommandDto :=
  issued_at ← encode_timestamp (command_issued_at c) "command issued_at";
  payload ← encode_command_payload (command_payload c);
  Ok (MkAgentCommandDto (id_to_string (command_id c)) (id_to_string (command_session_id c))
        (id_to_string (command_channel_id c)) issued_at payload).

Definition decode_command (dto : AgentCommandDto) : result ProtocolError AgentCommand :=
  id ← parse_id CommandEntity (command_dto_id dto);
  session_id ← parse_id SessionEntity (command_dto_session_id dto);
  channel_id ← parse_id ChannelEntity (command_dto_channel_id dto);
  issued_at ← decode_timestamp (command_dto_issued_at dto) "command issued_at";
  payload ← decode_command_payload (command_dto_payload dto);
  Ok (MkAgentCommand id session_id channel_id issued_at payload).

Definition encode_event_payload (payload : AgentEventPayload) :
    result ProtocolError AgentEventPayloadDto :=
  match payload with
  | SessionStarted session => EventDto_SessionStarted <$> encode_session session
  | StateChanged state => EventDto_StateChanged <$> encode_agent_state state
  | ConnectionChanged state => EventDto_ConnectionChanged <$> encode_connection_state state
  | Message message => EventDto_Message <$> encode_message message
  | ToolActivityPayload activity => EventDto_ToolActivity <$> encode_tool_activity activity
  | PlanUpdated plan => EventDto_PlanUpdated <$> encode_plan plan
  | ProgressUpdated progress => EventDto_ProgressUpdated <$> encode_progress progress
  | InteractionRequested request =>
      EventDto_InteractionRequested <$> encode_interaction_request request
  | InteractionResponded response =>
      EventDto_InteractionResponded <$> encode_interaction_response response
  | InteractionClosedPayload closed =>
      EventDto_InteractionClosed <$> encode_interaction_closed closed
  | CommandIssued command => EventDto_CommandIssued <$> encode_command command
  | SessionEnded outcome => EventDto_SessionEnded <$> encode_session_outcome outcome
  end.

Definition decode_event_payload (dto : AgentEventPayloadDto) :
    result ProtocolError AgentEventPayload :=
  match dto with
  | EventDto_SessionStarted session => SessionStarted <$> decode_session session
  | EventDto_StateChanged state => Ok (StateChanged (decode_agent_state state))
  | EventDto_ConnectionChanged state => Ok (ConnectionChanged (decode_connection_state state))
  | EventDto_Message message => Message <$> decode_message message
  | EventDto_ToolActivity activity => ToolActivityPayload <$> decode_tool_activity activity
  | EventDto_PlanUpdated plan => PlanUpdated <$> decode_plan plan
  | EventDto_ProgressUpdated progress => ProgressUpdated <$> decode_progress progress
  | EventDto_InteractionRequested request =>
      InteractionRequested <$> decode_interaction_request request
  | EventDto_InteractionResponded response =>
      InteractionResponded <$> decode_interaction_response response
  | EventDto_InteractionClosed closed =>
      InteractionClosedPayload <$> decode_interaction_closed closed
  | EventDto_CommandIssued command => CommandIssued <$> decode_command command
  | EventDto_SessionEnded outcome => SessionEnded <$> decode_session_outcome outcome
  end.

Definition encode_event (e : AgentEvent) : result ProtocolError AgentEventDto :=
  occurred_at ← encode_timestamp (event_occurred_at e) "event occurred_at";
  payload ← encode_event_payload (event_payload e);
  Ok (MkAgentEventDto (id_to_string (event_id e)) (id_to_string (event_session_id e))
        (MkDecimalU64 (counter_get (event_sequence e))) occurred_at payload).

Definition decode_event (dto : AgentEventDto) : result ProtocolError AgentEvent :=
  id ← parse_id EventEntity (event_dto_id dto);
  session_id ← parse_id SessionEntity (event_dto_session_id dto);
  sequence ← domain (Counter_new EventSequenceFamily (decimal_get (event_dto_sequence dto)));
  occurred_at ← decode_timestamp (event_dto_occurred_at dto) "event occurred_at";
  payload ← decode_event_payload (event_dto_payload dto);
  domain (AgentEvent_new id session_id sequence occurred_at payload).

(** The semantic messages (message.rs). *)
Inductive ProtocolMessage : Type :=
| Message_ProviderDescriptor (descriptor : ProviderDescriptor)
| Message_ChannelDescriptor (descriptor : ChannelDescriptor)
| Message_AgentSession (session : AgentSession)
| Message_AgentEvent (event : AgentEvent)
| Message_InteractionRequest (request : InteractionRequest)
| Message_InteractionResponse (response : InteractionResponse)
| Message_AgentCommand (command : AgentCommand).

#[global] Instance ProtocolMessage_eq_dec : EqDecision ProtocolMessage.
Proof. solve_decision. Defined.

Definition envelope_version : Refined (λ n : N, (n <? 65536)%N) := Refine V2_PROTOCOL_VERSION I.

Definition encode_envelope (message : ProtocolMessage) : result ProtocolError EnvelopeDto :=
  message ← match message with
            | Message_ProviderDescriptor d =>
                Ok (MessageDto_ProviderDescriptor (encode_provider_descriptor d))
            | Message_ChannelDescriptor d =>
                Ok (MessageDto_ChannelDescriptor (encode_channel_descriptor d))
            | Message_AgentSession s => MessageDto_AgentSession <$> encode_session s
            | Message_AgentEvent e => MessageDto_AgentEvent <$> encode_event e
            | Message_InteractionRequest r =>
                MessageDto_InteractionRequest <$> encode_interaction_request r
            | Message_InteractionResponse r =>
                MessageDto_InteractionResponse <$> encode_interaction_response r
            | Message_AgentCommand c => MessageDto_AgentCommand <$> encode_command c
            end;
  Ok (MkEnvelopeDto envelope_version message).

Definition decode_envelope (envelope : EnvelopeDto) : result ProtocolError ProtocolMessage :=
  if negb (raw (envelope_protocol_version envelope) =? V2_PROTOCOL_VERSION)%N then
    Err (UnsupportedProtocolVersion (raw (envelope_protocol_version envelope))
           V2_PROTOCOL_VERSION)
  else
    match envelope_message envelope with
    | MessageDto_ProviderDescriptor d =>
        Message_ProviderDescriptor <$> decode_provider_descriptor d
    | MessageDto_ChannelDescriptor d => Message_ChannelDescriptor <$> decode_channel_descriptor d
    | MessageDto_AgentSession s => Message_AgentSession <$> decode_session s
    | MessageDto_AgentEvent e => Message_AgentEvent <$> decode_event e
    | MessageDto_InteractionRequest r =>
        Message_InteractionRequest <$> decode_interaction_request r
    | MessageDto_InteractionResponse r =>
        Message_InteractionResponse <$> decode_interaction_response r
    | MessageDto_AgentCommand c => Message_AgentCommand <$> decode_command c
    end.
End convert_messages.

(** ** The JSON codec (codec.rs)

    [serde_json] is a parameter: printing an envelope, parsing bytes into a
    JSON value, reading an unsigned integer field and deserializing a value. *)

Class SerdeJson : Type := {
  json_value : Type;
  json_to_vec : EnvelopeDto → result rstring (list Byte.byte);
  json_from_slice : list Byte.byte → result rstring json_value;
  json_get_u64 : string → json_value → option u64;
  json_from_value : json_value → result rstring EnvelopeDto
}.

(** Bytes written by [serde_json::to_vec] parse back: the value has the
    envelope's version as an integer field and deserializes to the envelope. *)
Class SerdeJsonOk `{SerdeJson} : Prop := {
  json_roundtrip : ∀ envelope bytes, json_to_vec envelope = Ok bytes →
    ∃ value v, json_from_slice bytes = Ok value ∧
      json_get_u64 "protocol_version" value = Some v ∧
      raw v = raw (envelope_protocol_version envelope) ∧
      json_from_value value = Ok envelope
}.

Section codec.
Context `{Externals} `{SerdeJson}.

Definition encode_json (message : ProtocolMessage) : result ProtocolError (list Byte.byte) :=
  envelope ← encode_envelope message;
  map_err JsonEncode (json_to_vec envelope).

Definition decode_json (input : list Byte.byte) : result ProtocolError ProtocolMessage :=
  value ← map_err JsonDecode (json_from_slice input);
  received ← ok_or (InvalidWireValue "protocol_version" (lit "expected an unsigned JSON integer"))
               (json_get_u64 "protocol_version" value);
  if negb (raw received =? V2_PROTOCOL_VERSION)%N then
    Err (UnsupportedProtocolVersion (raw received) V2_PROTOCOL_VERSION)
  else
    envelope ← map_err JsonDecode (json_from_value value);
    decode_envelope envelope.
End codec.
