(* ===== verification/ConvertSpec.v ===== *)
(** * Correctness of the wire conversions

    Decoding an encoded message gives the message back, every decoded message
    satisfies the invariants of the domain's constructors, encoding fails only
    on a timestamp outside RFC 3339, and capability sets survive the trip
    through their lists. *)

From stdpp Require Import base strings numbers gmap list.
From S2P Require Import Prelude Values Snapshots Capability Interaction Event Dto Convert.

Create Rewrite HintDb roundtrip.

(** ** Capability sets *)

Section capabilities.
Context {f : CapabilityFamily} {D : Type} `{Countable D}.
Variable flag_of : D → Capabilities f.

(** The union of the flags of a list. *)
Definition union_flags (acc : Capabilities f) (values : list D) : Capabilities f :=
  foldl (λ acc value, union acc (flag_of value)) acc values.

Lemma decode_loop_spec duplicate seen acc values :
  match first_duplicate id seen values with
  | Some value => decode_capability_loop flag_of duplicate seen acc values = Err (duplicate value)
  | None => decode_capability_loop flag_of duplicate seen acc values = Ok (union_flags acc values)
  end.
Proof.
  revert seen acc. induction values as [|value values IH]; intros seen acc; [done|].
  cbn [first_duplicate decode_capability_loop]. unfold id at 1 2.
  destruct (decide (value ∈ seen)) as [Hin|Hout].
  - by rewrite !bool_decide_eq_true_2.
  - rewrite !bool_decide_eq_false_2 by done. apply IH.
Qed.

Lemma testbit_union_flags acc values i :
  N.testbit (bits (union_flags acc values)) i = true ↔
  N.testbit (bits acc) i = true ∨ ∃ v, v ∈ values ∧ N.testbit (bits (flag_of v)) i = true.
Proof.
  revert acc. induction values as [|v values IH]; intros acc; [set_solver|].
  cbn [union_flags foldl]. fold (union_flags (union acc (flag_of v)) values).
  rewrite IH. unfold union, bits at 1; simpl. rewrite N.lor_spec, orb_true_iff.
  set_solver.
Qed.
End capabilities.

(** A table that lists every flag once, in bit order. *)
Definition complete_table {f D} (known : list (Capabilities f * D))
    (flag_of : D → Capabilities f) : Prop :=
  known.*1 = flag_of <$> known.*2 ∧ NoDup known.*2 ∧
  (bits <$> known.*1) = (λ i, N.shiftl 1 (N.of_nat i)) <$> seq 0 (N.to_nat (flag_count f)).

Lemma provider_table_complete :
  complete_table known_provider_capabilities provider_capability_flag.
Proof. split_and!; [done| |done]. by apply (bool_decide_unpack _). Qed.

Lemma channel_table_complete :
  complete_table known_channel_capabilities channel_capability_flag.
Proof. split_and!; [done| |done]. by apply (bool_decide_unpack _). Qed.

Lemma provider_table_all d : d ∈ known_provider_capabilities.*2.
Proof. destruct d; by apply (bool_decide_unpack _). Qed.
Lemma channel_table_all d : d ∈ known_channel_capabilities.*2.
Proof. destruct d; by apply (bool_decide_unpack _). Qed.

Section tables.
Context {f : CapabilityFamily} {D : Type} `{Countable D}.
Variables (known : list (Capabilities f * D)) (flag_of : D → Capabilities f).
Hypothesis Hknown : complete_table known flag_of.

Lemma elem_of_encode_known value d :
  d ∈ encode_known known value ↔ ∃ c, (c, d) ∈ known ∧ contains value c = true.
Proof.
  unfold encode_known. rewrite list_elem_of_omap. split.
  - intros ([c d'] & Hin & Hc). destruct (contains value c) eqn:E; simplify_eq. eauto.
  - intros (c & Hin & Hc). exists (c, d). by rewrite Hc.
Qed.

Lemma NoDup_encode_known value : NoDup (encode_known known value).
Proof.
  destruct Hknown as (_ & Hnd & _). revert Hnd. clear Hknown. unfold encode_known.
  induction known as [|[c d] l IH]; [constructor|]. cbn [omap list_omap fmap list_fmap snd].
  intros [Hd Hnd]%NoDup_cons. destruct (contains value c); [|by apply IH].
  constructor; [|by apply IH]. intros Hin. apply Hd.
  apply list_elem_of_omap in Hin as ([c' d'] & Hin & Hc).
  destruct (contains value c'); simplify_eq. by apply (list_elem_of_fmap_2 snd _ (c', d)).
Qed.

Lemma table_entry c d :
  (c, d) ∈ known → c = flag_of d ∧ ∃ i, (i < flag_count f)%N ∧ bits c = N.shiftl 1 i.
Proof.
  destruct Hknown as (Hflag & _ & Hbits). intros [k Hk]%list_elem_of_lookup. split.
  - assert (known.*1 !! k = Some c) as Hc by by rewrite list_lookup_fmap, Hk.
    rewrite Hflag, !list_lookup_fmap, Hk in Hc. by injection Hc.
  - assert ((bits <$> known.*1) !! k = Some (bits c)) as Hc by by rewrite !list_lookup_fmap, Hk.
    rewrite Hbits, list_lookup_fmap in Hc. apply fmap_Some in Hc as (i & Hi & ->).
    apply lookup_seq in Hi as [-> Hi]. exists (N.of_nat (0 + k)). split; [lia|done].
Qed.

Lemma table_bit i :
  (i < flag_count f)%N → ∃ c d, (c, d) ∈ known ∧ bits c = N.shiftl 1 i.
Proof.
  destruct Hknown as (_ & _ & Hbits). intros Hi.
  assert ((bits <$> known.*1) !! N.to_nat i = Some (N.shiftl 1 i)) as Hl.
  { rewrite Hbits, list_lookup_fmap, lookup_seq_lt by lia. simpl. by rewrite N2Nat.id. }
  rewrite !list_lookup_fmap in Hl. destruct (known !! N.to_nat i) as [[c d]|] eqn:E; [|done].
  injection Hl as Hc. exists c, d. split; [by eapply list_elem_of_lookup_2|done].
Qed.

Lemma testbit_flag i j : N.testbit (N.shiftl 1 i) j = true ↔ i = j.
Proof.
  rewrite N.shiftl_1_l, N.pow2_bits_eqb. apply N.eqb_eq.
Qed.

Lemma contains_flag (value c : Capabilities f) i :
  bits c = N.shiftl 1 i → (i < flag_count f)%N →
  contains value c = true ↔ N.testbit (bits value) i = true.
Proof.
  intros Hc Hi. rewrite contains_testbit, Hc. setoid_rewrite testbit_flag. naive_solver.
Qed.

(** Encoding a set and decoding the list gives the set. *)
Lemma decode_encode_known duplicate value :
  decode_capability_loop flag_of duplicate ∅ NONE (encode_known known value) = Ok value.
Proof.
  pose proof (decode_loop_spec flag_of duplicate ∅ NONE (encode_known known value)) as Hspec.
  assert (first_duplicate id ∅ (encode_known known value) = None) as Hnd.
  { apply first_duplicate_None. rewrite list_fmap_id. apply NoDup_encode_known. }
  rewrite Hnd in Hspec. rewrite Hspec. f_equal. apply capabilities_eq, N.bits_inj. intros i.
  destruct (N.lt_ge_cases i (flag_count f)) as [Hi|Hi]; [|by rewrite !declared_bits_high].
  apply eq_true_iff_eq. rewrite testbit_union_flags. setoid_rewrite elem_of_encode_known.
  split.
  - intros [Hz|(d & (c & Hin & Hc) & Hbit)].
    { change (bits NONE) with 0%N in Hz. by rewrite N.bits_0 in Hz. }
    destruct (table_entry c d Hin) as (-> & j & Hj & Hbits). rewrite Hbits in Hbit.
    apply testbit_flag in Hbit as ->. by apply (contains_flag value (flag_of d) i).
  - intros Hbit. right. destruct (table_bit i Hi) as (c & d & Hin & Hc). exists d.
    destruct (table_entry c d Hin) as (Hflag & _). split.
    + exists c. split; [done|]. by apply (contains_flag value c i).
    + rewrite <-Hflag, Hc. by apply testbit_flag.
Qed.

(** Distinct entries have distinct flags. *)
Lemma table_flag_inj d d' i :
  d ∈ known.*2 → d' ∈ known.*2 → bits (flag_of d) = N.shiftl 1 i →
  N.testbit (bits (flag_of d')) i = true → d = d'.
Proof.
  destruct Hknown as (Hflag & _ & Hbits).
  assert (∀ x, x ∈ known.*2 → ∃ k, known.*2 !! k = Some x ∧
    bits (flag_of x) = N.shiftl 1 (N.of_nat k)) as Hpos.
  { intros x [k Hk]%list_elem_of_lookup. exists k. split; [done|].
    assert ((bits <$> known.*1) !! k = Some (bits (flag_of x))) as Hb
      by by rewrite Hflag, !list_lookup_fmap, <-list_lookup_fmap, Hk.
    rewrite Hbits, list_lookup_fmap in Hb. apply fmap_Some in Hb as (j & Hj & ->).
    by apply lookup_seq in Hj as [-> _]. }
  intros (k & Hk & Hd)%Hpos (k' & Hk' & Hd')%Hpos Hi Hbit. rewrite Hd' in Hbit.
  apply testbit_flag in Hbit.
  assert (N.testbit (bits (flag_of d)) i = true) as Hk2 by (rewrite Hi; by apply testbit_flag).
  rewrite Hd in Hk2. apply testbit_flag in Hk2. assert (k = k') as -> by lia. congruence.
Qed.

(** Decoding succeeds exactly on a list without repetitions, and then gives
    the set of its flags; otherwise it reports the first repeated entry. *)
Lemma decode_known_exact duplicate values :
  (∀ d, d ∈ known.*2) →
  match decode_capability_loop flag_of duplicate ∅ NONE values with
  | Ok c => NoDup values ∧ ∀ d, d ∈ values ↔ contains c (flag_of d) = true
  | Err err => ∃ l1 d l2, values = l1 ++ d :: l2 ∧ NoDup l1 ∧ d ∈ l1 ∧ err = duplicate d
  end.
Proof.
  intros Hall. pose proof (decode_loop_spec flag_of duplicate ∅ NONE values) as Hspec.
  destruct (first_duplicate id ∅ values) as [d|] eqn:Ed; rewrite Hspec.
  - apply first_duplicate_Some in Ed as (l1 & l2 & -> & Hnd & Hin).
    rewrite !list_fmap_id in *. eauto 10.
  - apply first_duplicate_None in Ed. rewrite list_fmap_id in Ed. split; [done|]. intros d.
    destruct (proj1 (list_elem_of_fmap _ _ _) (Hall d)) as ([c d'] & -> & Hin).
    destruct (table_entry c d' Hin) as (-> & i & Hi & Hbits). simpl.
    rewrite (contains_flag _ _ i Hbits Hi), testbit_union_flags. split.
    + intros Hv. right. exists d'. split; [done|]. rewrite Hbits. by apply testbit_flag.
    + intros [Hz|(v & Hv & Hbit)]; [change (bits NONE) with 0%N in Hz; by rewrite N.bits_0 in Hz|].
      by rewrite (table_flag_inj d' v i (Hall _) (Hall _) Hbits Hbit).
Qed.
End tables.

(** ** Round trips *)

Section scalars.
Context `{Externals} `{!ExternalsOk}.

Lemma parse_id_to_string {e} (i : Id e) : parse_id e (id_to_string i) = Ok i.
Proof. unfold parse_id, domain. by rewrite id_from_to_string. Qed.

Lemma decode_text_encode t : decode_text (encode_text t) = Ok t.
Proof. unfold decode_text, encode_text, domain. by rewrite NonEmptyText_new_raw. Qed.

Lemma decode_optional_text_encode (o : option NonEmptyText) :
  decode_optional_text (encode_text <$> o) = Ok o.
Proof.
  unfold decode_optional_text, domain, encode_text. destruct o; simpl; [|done].
  by rewrite NonEmptyText_new_raw.
Qed.

Lemma decode_revision (c : CounterFamily) (n : Counter c) :
  domain (Counter_new c (counter_get n)) = Ok n.
Proof. unfold domain. by rewrite Counter_new_get. Qed.

Lemma decode_encode_timestamp t field s :
  encode_timestamp t field = Ok s → decode_timestamp s field = Ok t.
Proof.
  unfold encode_timestamp, decode_timestamp. intros Hs%map_err_Ok.
  by rewrite (rfc3339_parse_format _ _ Hs).
Qed.

Lemma decode_encode_agent_state s d : encode_agent_state s = Ok d → decode_agent_state d = s.
Proof. destruct s; by intros [= <-]. Qed.
Lemma decode_encode_connection_state s d :
  encode_connection_state s = Ok d → decode_connection_state d = s.
Proof. destruct s; by intros [= <-]. Qed.
Lemma decode_encode_message_role s d : encode_message_role s = Ok d → decode_message_role d = s.
Proof. destruct s; by intros [= <-]. Qed.
Lemma decode_encode_message_level s d :
  encode_message_level s = Ok d → decode_message_level d = s.
Proof. destruct s; by intros [= <-]. Qed.
Lemma decode_encode_tool_outcome s d : encode_tool_outcome s = Ok d → decode_tool_outcome d = s.
Proof. destruct s; by intros [= <-]. Qed.
Lemma decode_encode_plan_item_status s d :
  encode_plan_item_status s = Ok d → decode_plan_item_status d = s.
Proof. destruct s; by intros [= <-]. Qed.
Lemma decode_encode_command_kind s d :
  encode_approval_command_kind s = Ok d → decode_approval_command_kind d = s.
Proof. destruct s; by intros [= <-]. Qed.
Lemma decode_encode_file_change_kind s d :
  encode_approval_file_change_kind s = Ok d → decode_approval_file_change_kind d = s.
Proof. destruct s; by intros [= <-]. Qed.
Lemma decode_encode_disposition s d :
  encode_approval_disposition s = Ok d → decode_approval_disposition d = s.
Proof. destruct s; by intros [= <-]. Qed.
End scalars.

#[export] Hint Rewrite @parse_id_to_string @decode_text_encode @decode_optional_text_encode
  @decode_revision using typeclasses eauto : roundtrip.

(** Rewrites a decoding with the encodings that succeeded. *)
Ltac use_encodings :=
  repeat match goal with
  | E : encode_timestamp _ _ = Ok _ |- _ =>
      apply decode_encode_timestamp in E
  | E : encode_agent_state _ = Ok _ |- _ => apply decode_encode_agent_state in E
  | E : encode_connection_state _ = Ok _ |- _ => apply decode_encode_connection_state in E
  | E : encode_message_role _ = Ok _ |- _ => apply decode_encode_message_role in E
  | E : encode_message_level _ = Ok _ |- _ => apply decode_encode_message_level in E
  | E : encode_tool_outcome _ = Ok _ |- _ => apply decode_encode_tool_outcome in E
  | E : encode_plan_item_status _ = Ok _ |- _ => apply decode_encode_plan_item_status in E
  | E : encode_approval_command_kind _ = Ok _ |- _ => apply decode_encode_command_kind in E
  | E : encode_approval_file_change_kind _ = Ok _ |- _ => apply decode_encode_file_change_kind in E
  | E : encode_approval_disposition _ = Ok _ |- _ => apply decode_encode_disposition in E
  end.

(** One step of a decoding: a scalar just encoded, or a rewriting. *)
Ltac decode_steps :=
  repeat (progress (autorewrite with roundtrip; simpl) ||
          match goal with
          | E : ?d = _ |- context [?d] =>
              lazymatch d with
              | decode_timestamp _ _ => rewrite E; simpl
              end
          end).

Section roundtrip.
Context `{Externals} `{!ExternalsOk}.

Lemma decode_encode_provider_descriptor d :
  decode_provider_descriptor (encode_provider_descriptor d) = Ok d.
Proof.
  unfold decode_provider_descriptor, encode_provider_descriptor. simpl. decode_steps.
  unfold domain. rewrite Kind_new_as_str. decode_steps.
  unfold decode_provider_capabilities, encode_provider_capabilities.
  rewrite (decode_encode_known _ _ provider_table_complete). simpl.
  destruct d as [? ? ? [v|] ?]; simpl; decode_steps; done.
Qed.

Lemma decode_encode_channel_descriptor d :
  decode_channel_descriptor (encode_channel_descriptor d) = Ok d.
Proof.
  unfold decode_channel_descriptor, encode_channel_descriptor. simpl. decode_steps.
  unfold domain. rewrite Kind_new_as_str. decode_steps.
  unfold decode_channel_capabilities, encode_channel_capabilities.
  rewrite (decode_encode_known _ _ channel_table_complete). simpl.
  destruct d as [? ? ? [v|] ?]; simpl; decode_steps; done.
Qed.

Lemma decode_encode_workspace w : decode_workspace (encode_workspace w) = Ok w.
Proof.
  unfold decode_workspace, encode_workspace. destruct w as [path [name|]]; simpl;
    by decode_steps.
Qed.

Lemma decode_encode_session s dto :
  session_wf s → encode_session s = Ok dto → decode_session dto = Ok s.
Proof.
  intros Hwf He. unfold encode_session in He. invert_ok. use_encodings.
  unfold decode_session. simpl. decode_steps. subst.
  destruct s as [sid pid [xid|] [title|] [w|] st cs rev c u]; simpl in *; subst;
    rewrite ?decode_text_encode, ?decode_encode_workspace; unfold encode_text, domain;
    rewrite ?ExternalId_new_raw; simpl; unfold build; simpl;
    destruct (Z.ltb_spec (raw u) (raw c)) as [Hlt|]; try done;
    unfold session_wf in Hwf; simpl in Hwf; lia.
Qed.

Lemma decode_encode_message m dto : encode_message m = Ok dto → decode_message dto = Ok m.
Proof.
  intros He. unfold encode_message in He. invert_ok. use_encodings. unfold decode_message. simpl.
  decode_steps. destruct m; simpl in *; by subst.
Qed.

Lemma decode_encode_tool_activity t dto :
  encode_tool_activity t = Ok dto → decode_tool_activity dto = Ok t.
Proof.
  intros He. unfold encode_tool_activity in He. destruct t; invert_ok; use_encodings;
    unfold decode_tool_activity; decode_steps; by subst.
Qed.

Lemma decode_encode_session_outcome o dto :
  encode_session_outcome o = Ok dto → decode_session_outcome dto = Ok o.
Proof.
  intros He. unfold encode_session_outcome in He. destruct o; invert_ok;
    unfold decode_session_outcome; by decode_steps.
Qed.

Lemma decode_encode_plan_item i dto :
  encode_plan_item i = Ok dto → decode_plan_item dto = Ok i.
Proof.
  intros He. unfold encode_plan_item in He. invert_ok. use_encodings. unfold decode_plan_item.
  simpl. decode_steps. destruct i; simpl in *; by subst.
Qed.

Lemma decode_encode_plan p dto :
  plan_wf p → encode_plan p = Ok dto → decode_plan dto = Ok p.
Proof.
  intros Hwf (items & Hitems & [= <-])%bind_Ok. unfold decode_plan. simpl.
  rewrite (try_collect_roundtrip _ decode_plan_item _ _ (λ i d _, decode_encode_plan_item i d) Hitems).
  simpl. decode_steps. unfold domain.
  rewrite (proj2 (PlanSnapshot_new_Ok (plan_revision p) (plan_items p) _) (conj eq_refl Hwf)).
  destruct p as [rev [ex|] its]; simpl; by decode_steps.
Qed.

Lemma decode_encode_progress p dto :
  progress_value_wf (progress_value p) → encode_progress p = Ok dto → decode_progress dto = Ok p.
Proof.
  intros Hwf He. unfold encode_progress in He. invert_ok. unfold decode_progress. simpl.
  decode_steps. destruct p as [rev [|v] m]; simpl in *; simplify_eq; simpl.
  - destruct m; simpl; by decode_steps.
  - unfold domain. rewrite DeterminateProgress_new_wf by done. simpl.
    destruct m; simpl; by decode_steps.
Qed.
End roundtrip.

Section roundtrip_interactions.
Context `{Externals} `{!ExternalsOk}.

Lemma decode_encode_choice_option o dto :
  encode_choice_option o = Ok dto → decode_choice_option dto = Ok o.
Proof.
  intros [= <-]. unfold decode_choice_option. simpl. decode_steps.
  destruct o as [? ? [?|]]; simpl; by decode_steps.
Qed.

Lemma decode_encode_approval_option o dto :
  encode_approval_option o = Ok dto → decode_approval_option dto = Ok o.
Proof.
  intros He. unfold encode_approval_option in He. invert_ok. use_encodings.
  unfold decode_approval_option. simpl. decode_steps.
  destruct o as [? ? ? [?|]]; simpl in *; subst; by decode_steps.
Qed.

Lemma decode_encode_file_change c dto :
  encode_file_change c = Ok dto → decode_file_change dto = Ok c.
Proof.
  intros He. unfold encode_file_change in He. invert_ok. use_encodings.
  unfold decode_file_change. simpl. decode_steps. destruct c; simpl in *; by subst.
Qed.

Lemma decode_encode_approval_subject s dto :
  encode_approval_subject s = Ok dto → decode_approval_subject dto = Ok s.
Proof.
  destruct s as [kind command cwd reason network|changes root reason].
  - intros He. unfold encode_approval_subject in He. invert_ok. use_encodings.
    unfold decode_approval_subject. decode_steps.
    destruct network as [[host proto]|]; unfold encode_network, decode_network; simpl;
      decode_steps; by subst.
  - intros (ds & Hds & [= <-])%bind_Ok. cbn [decode_approval_subject].
    rewrite (try_collect_roundtrip _ decode_file_change _ _
               (λ c d _, decode_encode_file_change c d) Hds). simpl. by decode_steps.
Qed.

Lemma decode_encode_choice_options os ds :
  try_collect encode_choice_option os = Ok ds → try_collect decode_choice_option ds = Ok os.
Proof. apply try_collect_roundtrip. intros o d _. apply decode_encode_choice_option. Qed.

Lemma decode_encode_form_field fld dto :
  form_field_wf fld → encode_form_field fld = Ok dto → decode_form_field dto = Ok fld.
Proof.
  intros Hwf (ds & Hds & [= <-])%bind_Ok. unfold decode_form_field. simpl. decode_steps.
  rewrite (decode_encode_choice_options _ _ Hds). simpl. unfold domain.
  rewrite (proj2 (FormField_new_Ok _ _ _ _ _ _ fld)); [done|]. split; [by destruct fld|done].
Qed.

Lemma decode_encode_approval_request r dto :
  approval_request_wf r →
  encode_interaction_request_payload (Request_Approval r) = Ok dto →
  decode_interaction_request_payload dto = Ok (Request_Approval r).
Proof.
  intros Hwf (sd & Hs & (od & Ho & [= <-])%bind_Ok)%bind_Ok.
  cbn [decode_interaction_request_payload].
  rewrite (decode_encode_approval_subject _ _ Hs). simpl.
  rewrite (try_collect_roundtrip _ decode_approval_option _ _
             (λ o d _, decode_encode_approval_option o d) Ho). simpl.
  unfold approval_request_wf in Hwf. destruct r as [s os [reason|]]; simpl in *.
  - subst. simpl. by decode_steps.
  - destruct (is_empty os) eqn:E; [by apply is_empty_spec in E as ->; destruct Hwf|].
    unfold domain. by rewrite (proj2 (ApprovalRequest_actionable_Ok s os _) (conj eq_refl Hwf)).
Qed.

Lemma decode_encode_request_payload p dto :
  request_payload_wf p → encode_interaction_request_payload p = Ok dto →
  decode_interaction_request_payload dto = Ok p.
Proof.
  destruct p as [r|r|r|r]; intros Hwf.
  - by apply decode_encode_approval_request.
  - intros (ds & Hds & [= <-])%bind_Ok. cbn [decode_interaction_request_payload].
    rewrite (decode_encode_choice_options _ _ Hds). simpl. unfold domain.
    rewrite (proj2 (ChoiceRequest_new_Ok _ _ r)); [done|]. split; [by destruct r|done].
  - intros [= <-]. destruct r as [[?|] ?]; simpl; by decode_steps.
  - intros (ds & Hds & [= <-])%bind_Ok. cbn [decode_interaction_request_payload].
    destruct Hwf as (Hne & Hnd & Hall). rewrite Forall_forall in Hall.
    rewrite (try_collect_roundtrip _ decode_form_field _ _
               (λ fld d Hin, decode_encode_form_field fld d (Hall fld Hin)) Hds). simpl.
    unfold domain. rewrite (proj2 (FormRequest_new_Ok _ _ r)); [done|]. split_and!; [|done..].
    by destruct r.
Qed.

Lemma decode_encode_interaction_request r dto :
  request_wf r → encode_interaction_request r = Ok dto → decode_interaction_request dto = Ok r.
Proof.
  intros [Hp Hexp] (rq & Hrq & (ex & Hex & (pd & Hpd & [= <-])%bind_Ok)%bind_Ok)%bind_Ok.
  unfold decode_interaction_request. simpl. decode_steps.
  rewrite (decode_encode_timestamp _ _ _ Hrq). simpl. decode_steps.
  rewrite (decode_encode_request_payload _ _ Hp Hpd). simpl.
  destruct r as [rid sid rat [t|] prompt payload]; simpl in *; [|by simplify_eq].
  apply bind_Ok in Hex as (ts & Hts & [= <-]).
  rewrite (decode_encode_timestamp _ _ _ Hts). simpl. unfold domain.
  rewrite (proj2 (with_expiration_Ok (InteractionRequest_new rid sid rat prompt payload) t _)
             (conj (Hexp t eq_refl) eq_refl)). done.
Qed.

Lemma decode_encode_form_answer a : decode_form_answer (encode_form_answer a) = Ok a.
Proof.
  unfold decode_form_answer, encode_form_answer. destruct a as [fid [o|t]]; simpl; by decode_steps.
Qed.

Lemma decode_encode_response_payload p dto :
  response_payload_wf p → encode_interaction_response_payload p = Ok dto →
  decode_interaction_response_payload dto = Ok p.
Proof.
  intros Hwf He. destruct p as [s|s|t|fr]; injection He as <-;
    cbn [decode_interaction_response_payload]; decode_steps.
  - by destruct s.
  - rewrite (try_collect_map_roundtrip id_to_string) by (intros; apply parse_id_to_string).
    simpl. unfold domain. rewrite (proj2 (ChoiceSelection_new_Ok _ s)); [done|].
    split; [by destruct s|done].
  - done.
  - rewrite (try_collect_map_roundtrip encode_form_answer) by
      (intros; apply decode_encode_form_answer).
    simpl. unfold domain. rewrite (proj2 (FormResponse_new_Ok _ fr)); [done|].
    split; [by destruct fr|done].
Qed.

Lemma decode_encode_interaction_response r dto :
  response_wf r → encode_interaction_response r = Ok dto → decode_interaction_response dto = Ok r.
Proof.
  intros Hwf (ts & Hts & (pd & Hpd & [= <-])%bind_Ok)%bind_Ok.
  unfold decode_interaction_response. simpl. decode_steps.
  rewrite (decode_encode_timestamp _ _ _ Hts). simpl.
  rewrite (decode_encode_response_payload _ _ Hwf Hpd). simpl. by destruct r.
Qed.

Lemma decode_encode_interaction_closed c dto :
  encode_interaction_closed c = Ok dto → decode_interaction_closed dto = Ok c.
Proof.
  intros [= <-]. unfold decode_interaction_closed. simpl. decode_steps.
  by destruct c as [? ? []].
Qed.
End roundtrip_interactions.

(** ** Messages *)

Section roundtrip_messages.
Context `{Externals} `{!ExternalsOk}.

Lemma decode_encode_command c dto : encode_command c = Ok dto → decode_command dto = Ok c.
Proof.
  intros (ts & Hts & (pd & Hpd & [= <-])%bind_Ok)%bind_Ok.
  unfold decode_command. simpl. decode_steps. rewrite (decode_encode_timestamp _ _ _ Hts). simpl.
  assert (decode_command_payload pd = Ok (command_payload c)) as ->; [|by destruct c].
  destruct (command_payload c); injection Hpd as <-; cbn [decode_command_payload]; decode_steps;
    try done; by repeat case_match; simplify_eq.
Qed.

Lemma decode_encode_event_payload p dto :
  event_payload_wf p → encode_event_payload p = Ok dto → decode_event_payload dto = Ok p.
Proof.
  intros Hwf He. destruct p; cbn [encode_event_payload] in He; apply fmap_Ok in He as (d & Hd & ->);
    cbn [decode_event_payload].
  - by rewrite (decode_encode_session _ _ Hwf Hd).
  - by rewrite (decode_encode_agent_state _ _ Hd).
  - by rewrite (decode_encode_connection_state _ _ Hd).
  - by rewrite (decode_encode_message _ _ Hd).
  - by rewrite (decode_encode_tool_activity _ _ Hd).
  - by rewrite (decode_encode_plan _ _ Hwf Hd).
  - by rewrite (decode_encode_progress _ _ Hwf Hd).
  - by rewrite (decode_encode_interaction_request _ _ Hwf Hd).
  - by rewrite (decode_encode_interaction_response _ _ Hwf Hd).
  - by rewrite (decode_encode_interaction_closed _ _ Hd).
  - by rewrite (decode_encode_command _ _ Hd).
  - by rewrite (decode_encode_session_outcome _ _ Hd).
Qed.

Lemma decode_encode_event e dto :
  event_wf e → encode_event e = Ok dto → decode_event dto = Ok e.
Proof.
  intros [Hwf Hemb] (ts & Hts & (pd & Hpd & [= <-])%bind_Ok)%bind_Ok.
  unfold decode_event. simpl. decode_steps. rewrite (decode_encode_timestamp _ _ _ Hts). simpl.
  rewrite (decode_encode_event_payload _ _ Hwf Hpd). simpl. unfold domain.
  rewrite (proj2 (AgentEvent_new_Ok _ _ _ _ _ e)); [done|]. split; [by destruct e|done].
Qed.

(** The invariants of a message, those of its constructors. *)
Definition message_wf (m : ProtocolMessage) : Prop :=
  match m with
  | Message_ProviderDescriptor _ | Message_ChannelDescriptor _ | Message_AgentCommand _ => True
  | Message_AgentSession s => session_wf s
  | Message_AgentEvent e => event_wf e
  | Message_InteractionRequest r => request_wf r
  | Message_InteractionResponse r => response_wf r
  end.

Lemma decode_encode_envelope m envelope :
  message_wf m → encode_envelope m = Ok envelope → decode_envelope envelope = Ok m.
Proof.
  intros Hwf (d & Hd & [= <-])%bind_Ok. unfold decode_envelope. simpl.
  destruct m; try (apply fmap_Ok in Hd as (x & Hx & ->)); try injection Hd as <-; cbn.
  - by rewrite decode_encode_provider_descriptor.
  - by rewrite decode_encode_channel_descriptor.
  - by rewrite (decode_encode_session _ _ Hwf Hx).
  - by rewrite (decode_encode_event _ _ Hwf Hx).
  - by rewrite (decode_encode_interaction_request _ _ Hwf Hx).
  - by rewrite (decode_encode_interaction_response _ _ Hwf Hx).
  - by rewrite (decode_encode_command _ _ Hx).
Qed.
End roundtrip_messages.

(** ** Decoding only builds valid values *)

Section soundness.
Context `{Externals}.

Lemma domain_Ok {A} (m : result DomainError A) a : domain m = Ok a ↔ m = Ok a.
Proof. apply map_err_Ok. Qed.

Lemma decode_session_wf dto s : decode_session dto = Ok s → session_wf s.
Proof.
  intros Hd. unfold decode_session in Hd.
  repeat match type of Hd with mbind _ _ = Ok _ => apply bind_Ok in Hd as (? & _ & Hd) end.
  by eapply build_wf, domain_Ok.
Qed.

Lemma decode_plan_wf dto p : decode_plan dto = Ok p → plan_wf p.
Proof.
  intros (items & _ & (rev & _ & (p0 & Hp & Hd)%bind_Ok)%bind_Ok)%bind_Ok.
  apply domain_Ok, PlanSnapshot_new_Ok in Hp as [-> Hnd].
  destruct (plan_dto_explanation dto); invert_ok; done.
Qed.

Lemma decode_progress_wf dto p : decode_progress dto = Ok p → progress_value_wf (progress_value p).
Proof.
  intros (rev & _ & (v & Hv & Hd)%bind_Ok)%bind_Ok.
  assert (progress_value p = v) as ->.
  { destruct (progress_dto_message dto); [apply fmap_Ok in Hd as (t & _ & ->)|injection Hd as <-]; done. }
  destruct (progress_dto_value dto) as [|completed total]; [by injection Hv as <-|].
  apply domain_Ok, fmap_Ok in Hv as (p' & Hp & ->).
  pose proof (DeterminateProgress_new_spec (decimal_get completed) (decimal_get total)) as Hs.
  rewrite Hp in Hs. by destruct Hs as (_ & _ & ?).
Qed.

Lemma decode_form_field_wf dto fld : decode_form_field dto = Ok fld → form_field_wf fld.
Proof.
  intros Hd. unfold decode_form_field in Hd.
  repeat match type of Hd with mbind _ _ = Ok _ => apply bind_Ok in Hd as (? & _ & Hd) end.
  by apply domain_Ok, FormField_new_Ok in Hd as [_ ?].
Qed.

Lemma decode_request_payload_wf dto p :
  decode_interaction_request_payload dto = Ok p → request_payload_wf p.
Proof.
  destruct dto as [subject options reason|options multiple|placeholder multiline|fields blocking];
    cbn [decode_interaction_request_payload].
  - intros (s & _ & (os & _ & (r & Hr & [= <-])%bind_Ok)%bind_Ok)%bind_Ok. simpl.
    unfold approval_request_wf. destruct (is_empty os), reason; try done.
    + by apply fmap_Ok in Hr as (t & _ & ->).
    + by apply domain_Ok, ApprovalRequest_actionable_Ok in Hr as [-> ?].
  - intros (os & _ & Hd)%bind_Ok. apply domain_Ok, fmap_Ok in Hd as (r & Hr & ->).
    by apply ChoiceRequest_new_Ok in Hr as [_ ?].
  - destruct placeholder; intros; invert_ok; done.
  - intros (fs & Hfs & (r & Hr & ->)%fmap_Ok)%bind_Ok.
    apply domain_Ok, FormRequest_new_Ok in Hr as (-> & Hne & Hnd). split_and!; [done..|]. simpl.
    rewrite try_collect_Ok in Hfs. clear -Hfs. induction Hfs; constructor; eauto using decode_form_field_wf.
Qed.

Lemma decode_interaction_request_wf dto r :
  decode_interaction_request dto = Ok r → request_wf r.
Proof.
  intros Hd. unfold decode_interaction_request in Hd.
  do 4 (apply bind_Ok in Hd as (? & _ & Hd)). apply bind_Ok in Hd as (p & Hp & Hd).
  apply decode_request_payload_wf in Hp. destruct (request_dto_expires_at dto).
  - apply bind_Ok in Hd as (t & _ & Hd). apply domain_Ok, with_expiration_Ok in Hd as [Ht ->].
    split; [done|]. by intros ? [= <-].
  - injection Hd as <-. by split.
Qed.

Lemma decode_response_payload_wf dto p :
  decode_interaction_response_payload dto = Ok p → response_payload_wf p.
Proof.
  destruct dto; cbn [decode_interaction_response_payload].
  - by intros (? & _ & ->)%fmap_Ok.
  - intros (ids & _ & (s & Hs & ->)%fmap_Ok)%bind_Ok.
    by apply domain_Ok, ChoiceSelection_new_Ok in Hs as [_ ?].
  - by intros (? & _ & ->)%fmap_Ok.
  - intros (anss & _ & (s & Hs & ->)%fmap_Ok)%bind_Ok.
    by apply domain_Ok, FormResponse_new_Ok in Hs as [_ ?].
Qed.

Lemma decode_interaction_response_wf dto r :
  decode_interaction_response dto = Ok r → response_wf r.
Proof.
  intros Hd. unfold decode_interaction_response in Hd.
  do 4 (apply bind_Ok in Hd as (? & _ & Hd)). apply bind_Ok in Hd as (p & Hp & [= <-]).
  by apply decode_response_payload_wf in Hp.
Qed.

Lemma decode_event_wf dto e : decode_event dto = Ok e → event_wf e.
Proof.
  intros Hd. unfold decode_event in Hd.
  do 4 (apply bind_Ok in Hd as (? & _ & Hd)). apply bind_Ok in Hd as (p & Hp & Hd).
  apply domain_Ok, AgentEvent_new_Ok in Hd as [-> Hemb]. split; [simpl|done].
  destruct (event_dto_payload dto); cbn [decode_event_payload] in Hp; invert_ok;
    eauto using decode_session_wf, decode_plan_wf, decode_progress_wf,
      decode_interaction_request_wf, decode_interaction_response_wf.
Qed.

Lemma decode_envelope_wf envelope m : decode_envelope envelope = Ok m → message_wf m.
Proof.
  unfold decode_envelope. case_match; [done|]. intros Hd.
  destruct (envelope_message envelope); apply fmap_Ok in Hd as (x & Hx & ->); simpl;
    eauto using decode_session_wf, decode_event_wf, decode_interaction_request_wf,
      decode_interaction_response_wf.
Qed.
End soundness.

(** ** When encoding fails *)

Section totality.
Context `{Externals}.

Definition request_timestamps (r : InteractionRequest) : list Timestamp :=
  request_requested_at r :: option_list (request_expires_at r).
Definition session_timestamps (s : AgentSession) : list Timestamp :=
  [session_created_at s; session_updated_at s].
Definition payload_timestamps (p : AgentEventPayload) : list Timestamp :=
  match p with
  | SessionStarted s => session_timestamps s
  | InteractionRequested r => request_timestamps r
  | InteractionResponded r => [response_responded_at r]
  | CommandIssued c => [command_issued_at c]
  | _ => []
  end.
Definition message_timestamps (m : ProtocolMessage) : list Timestamp :=
  match m with
  | Message_ProviderDescriptor _ | Message_ChannelDescriptor _ => []
  | Message_AgentSession s => session_timestamps s
  | Message_AgentEvent e => event_occurred_at e :: payload_timestamps (event_payload e)
  | Message_InteractionRequest r => request_timestamps r
  | Message_InteractionResponse r => [response_responded_at r]
  | Message_AgentCommand c => [command_issued_at c]
  end.

Definition formattable (t : Timestamp) : Prop := is_ok (rfc3339_format t) = true.

Lemma is_ok_fmap {E A B} (f : A → B) (m : result E A) : is_ok (f <$> m) = is_ok m.
Proof. by destruct m. Qed.

(** A fallible step followed by one whose success does not depend on it. *)
Lemma is_ok_then {E A B} (m : result E A) (k : A → result E B) (P Q : Prop) :
  (is_ok m = true ↔ P) → (∀ a, is_ok (k a) = true ↔ Q) → is_ok (m ≫= k) = true ↔ P ∧ Q.
Proof. intros Hm Hk. destruct m as [a|]; simpl in *; [rewrite Hk|]; naive_solver. Qed.

Lemma is_ok_total {E A B} (m : result E A) (k : A → result E B) (Q : Prop) :
  is_ok m = true → (∀ a, is_ok (k a) = true ↔ Q) → is_ok (m ≫= k) = true ↔ Q.
Proof. intros Hm Hk. destruct m as [a|]; [apply Hk|done]. Qed.

Lemma is_ok_encode_timestamp t field : is_ok (encode_timestamp t field) = true ↔ formattable t.
Proof. unfold encode_timestamp, formattable. by destruct (rfc3339_format t). Qed.

Lemma is_ok_try_collect {E A B} (f : A → result E B) l :
  (∀ a, is_ok (f a) = true) → is_ok (try_collect f l) = true.
Proof.
  intros Hf. destruct (try_collect_all_ok f l) as [bs ->]; [|done].
  apply Forall_forall. intros a _. by rewrite Hf.
Qed.

Lemma is_ok_encode_session s :
  is_ok (encode_session s) = true ↔ Forall formattable (session_timestamps s).
Proof.
  unfold session_timestamps. rewrite !Forall_cons. unfold encode_session.
  apply is_ok_total; [by destruct (session_state s)|intros state].
  apply is_ok_total; [by destruct (session_connection_state s)|intros conn].
  apply is_ok_then; [apply is_ok_encode_timestamp|intros created].
  apply is_ok_then; [apply is_ok_encode_timestamp|intros updated]. by rewrite Forall_nil.
Qed.

Lemma is_ok_encode_approval_subject s : is_ok (encode_approval_subject s) = true.
Proof.
  destruct s as [[]|]; try done. cbn [encode_approval_subject].
  apply (is_ok_total _ _ True); [|done..]. apply is_ok_try_collect. by intros [? []].
Qed.

Lemma is_ok_encode_request_payload p : is_ok (encode_interaction_request_payload p) = true.
Proof.
  destruct p as [r|r|r|r]; try done; cbn [encode_interaction_request_payload].
  - apply (is_ok_total _ _ True); [apply is_ok_encode_approval_subject| |done]. intros.
    apply is_ok_total; [|done]. apply is_ok_try_collect. by intros [? []].
  - apply (is_ok_total _ _ True); [|done..]. by apply is_ok_try_collect.
  - apply (is_ok_total _ _ True); [|done..]. apply is_ok_try_collect. intros fld.
    apply (is_ok_total _ _ True); [|done..]. by apply is_ok_try_collect.
Qed.

Lemma is_ok_encode_interaction_request r :
  is_ok (encode_interaction_request r) = true ↔ Forall formattable (request_timestamps r).
Proof.
  unfold request_timestamps. rewrite Forall_cons. unfold encode_interaction_request.
  apply is_ok_then; [apply is_ok_encode_timestamp|intros at_].
  etransitivity; [apply (is_ok_then _ _ (Forall formattable (option_list (request_expires_at r))) True)|tauto].
  - destruct (request_expires_at r) as [t|]; simpl; [|by rewrite Forall_nil].
    rewrite Forall_singleton, <-(is_ok_encode_timestamp t "interaction expires_at").
    by destruct (encode_timestamp t _).
  - intros ex. apply is_ok_total; [apply is_ok_encode_request_payload|done].
Qed.

Lemma is_ok_encode_interaction_response r :
  is_ok (encode_interaction_response r) = true ↔ Forall formattable [response_responded_at r].
Proof.
  rewrite Forall_cons, Forall_nil. unfold encode_interaction_response.
  apply is_ok_then; [apply is_ok_encode_timestamp|intros ?].
  apply is_ok_total; [by destruct (response_payload r)|done].
Qed.

Lemma is_ok_encode_command c :
  is_ok (encode_command c) = true ↔ Forall formattable [command_issued_at c].
Proof.
  rewrite Forall_cons, Forall_nil. unfold encode_command.
  apply is_ok_then; [apply is_ok_encode_timestamp|intros ?].
  apply is_ok_total; [by destruct (command_payload c)|done].
Qed.

Lemma is_ok_encode_event_payload p :
  is_ok (encode_event_payload p) = true ↔ Forall formattable (payload_timestamps p).
Proof.
  destruct p as [s|st|cs|m|t|pl|pr|r|r|c|c|o]; cbn [encode_event_payload payload_timestamps];
    rewrite is_ok_fmap, ?Forall_nil.
  - apply is_ok_encode_session.
  - by destruct st.
  - by destruct cs.
  - by destruct m as [[] []].
  - by destruct t as [|? []].
  - apply is_ok_total; [|done]. apply is_ok_try_collect. by intros [? ? []].
  - by destruct pr as [? []].
  - apply is_ok_encode_interaction_request.
  - apply is_ok_encode_interaction_response.
  - done.
  - apply is_ok_encode_command.
  - by destruct o.
Qed.

Lemma is_ok_encode_event e :
  is_ok (encode_event e) = true ↔
  Forall formattable (event_occurred_at e :: payload_timestamps (event_payload e)).
Proof.
  rewrite Forall_cons. unfold encode_event.
  apply is_ok_then; [apply is_ok_encode_timestamp|intros ?].
  rewrite <-is_ok_encode_event_payload. by destruct (encode_event_payload _).
Qed.

Lemma is_ok_encode_envelope m :
  is_ok (encode_envelope m) = true ↔ Forall formattable (message_timestamps m).
Proof.
  assert (∀ r : result ProtocolError MessageDto,
    is_ok (d ← r; Ok (MkEnvelopeDto envelope_version d)) = is_ok r) as Hr by by intros [].
  unfold encode_envelope. rewrite Hr.
  destruct m; cbn [message_timestamps]; rewrite ?is_ok_fmap, ?Forall_nil; try done.
  - apply is_ok_encode_session.
  - apply is_ok_encode_event.
  - apply is_ok_encode_interaction_request.
  - apply is_ok_encode_interaction_response.
  - apply is_ok_encode_command.
Qed.
End totality.
