(* ===== verification/NativeProtocol.v ===== *)
(** * The Native Transport protocol

    Models [agentpulse-channels/native/src/protocol.rs] and the protocol error
    of [error.rs]: the control messages between a Native client and the
    Channel, their validation, and the strict JSON envelope around them.  A
    domain message is nested as the JSON value of its own envelope.  An error
    that is rendered into a reason is kept as itself. *)

From stdpp Require Import base strings numbers sorting gmap list.
From S2P Require Import Prelude Values Snapshots Capability Interaction Event Routing Dto Net Convert ConvertSpec.

Abbreviation usize := u64.

Definition NATIVE_TRANSPORT_VERSION : u16 := Refine 3%N I.

Inductive NativeEventRoute : Type :=
| Native_ObserveOnly | Native_InteractionReadOnly | Native_InteractionInteractive.
Inductive NativeSubscriptionStatus : Type :=
| Status_CatchingUp | Status_Subscribed | Status_AlreadySubscribed.
Inductive NativeUnsubscriptionStatus : Type := Status_Unsubscribed | Status_NotSubscribed.
Inductive NativeErrorCode : Type :=
| Code_ConnectionBusy | Code_InvalidHandshake | Code_InvalidRequest | Code_SessionNotDiscovered
| Code_SessionNotFound | Code_Internal | Code_CapabilityUnavailable | Code_InteractionNotPending
| Code_SessionNotSubscribed | Code_ProviderRejected.

#[export] Instance NativeEventRoute_eq_dec : EqDecision NativeEventRoute.
Proof. solve_decision. Defined.
#[export] Instance NativeSubscriptionStatus_eq_dec : EqDecision NativeSubscriptionStatus.
Proof. solve_decision. Defined.
#[export] Instance NativeUnsubscriptionStatus_eq_dec : EqDecision NativeUnsubscriptionStatus.
Proof. solve_decision. Defined.
#[export] Instance NativeErrorCode_eq_dec : EqDecision NativeErrorCode.
Proof. solve_decision. Defined.

(** [NativeEventRoute::from_core]; every route of the core has an image. *)
Definition from_core (route : ChannelEventRoute) : NativeEventRoute :=
  match route with
  | ObserveOnly => Native_ObserveOnly
  | InteractionRouted ReadOnly => Native_InteractionReadOnly
  | InteractionRouted Interactive => Native_InteractionInteractive
  end.

(** The wire enumerations and their conversions. *)
Inductive EventRouteDto : Type :=
| RDto_ObserveOnly | RDto_InteractionReadOnly | RDto_InteractionInteractive.
Inductive SubscriptionStatusDto : Type :=
| SDto_CatchingUp | SDto_Subscribed | SDto_AlreadySubscribed.
Inductive UnsubscriptionStatusDto : Type := UDto_Unsubscribed | UDto_NotSubscribed.
Inductive ErrorCodeDto : Type :=
| EDto_ConnectionBusy | EDto_InvalidHandshake | EDto_InvalidRequest | EDto_SessionNotDiscovered
| EDto_SessionNotFound | EDto_Internal | EDto_CapabilityUnavailable | EDto_InteractionNotPending
| EDto_SessionNotSubscribed | EDto_ProviderRejected.

Definition route_to_dto (value : NativeEventRoute) : EventRouteDto :=
  match value with
  | Native_ObserveOnly => RDto_ObserveOnly
  | Native_InteractionReadOnly => RDto_InteractionReadOnly
  | Native_InteractionInteractive => RDto_InteractionInteractive
  end.
Definition route_from_dto (value : EventRouteDto) : NativeEventRoute :=
  match value with
  | RDto_ObserveOnly => Native_ObserveOnly
  | RDto_InteractionReadOnly => Native_InteractionReadOnly
  | RDto_InteractionInteractive => Native_InteractionInteractive
  end.
Definition status_to_dto (value : NativeSubscriptionStatus) : SubscriptionStatusDto :=
  match value with
  | Status_CatchingUp => SDto_CatchingUp
  | Status_Subscribed => SDto_Subscribed
  | Status_AlreadySubscribed => SDto_AlreadySubscribed
  end.
Definition status_from_dto (value : SubscriptionStatusDto) : NativeSubscriptionStatus :=
  match value with
  | SDto_CatchingUp => Status_CatchingUp
  | SDto_Subscribed => Status_Subscribed
  | SDto_AlreadySubscribed => Status_AlreadySubscribed
  end.
Definition unstatus_to_dto (value : NativeUnsubscriptionStatus) : UnsubscriptionStatusDto :=
  match value with
  | Status_Unsubscribed => UDto_Unsubscribed
  | Status_NotSubscribed => UDto_NotSubscribed
  end.
Definition unstatus_from_dto (value : UnsubscriptionStatusDto) : NativeUnsubscriptionStatus :=
  match value with
  | UDto_Unsubscribed => Status_Unsubscribed
  | UDto_NotSubscribed => Status_NotSubscribed
  end.
Definition code_to_dto (value : NativeErrorCode) : ErrorCodeDto :=
  match value with
  | Code_ConnectionBusy => EDto_ConnectionBusy
  | Code_InvalidHandshake => EDto_InvalidHandshake
  | Code_InvalidRequest => EDto_InvalidRequest
  | Code_SessionNotDiscovered => EDto_SessionNotDiscovered
  | Code_SessionNotFound => EDto_SessionNotFound
  | Code_Internal => EDto_Internal
  | Code_CapabilityUnavailable => EDto_CapabilityUnavailable
  | Code_InteractionNotPending => EDto_InteractionNotPending
  | Code_SessionNotSubscribed => EDto_SessionNotSubscribed
  | Code_ProviderRejected => EDto_ProviderRejected
  end.
Definition code_from_dto (value : ErrorCodeDto) : NativeErrorCode :=
  match value with
  | EDto_ConnectionBusy => Code_ConnectionBusy
  | EDto_InvalidHandshake => Code_InvalidHandshake
  | EDto_InvalidRequest => Code_InvalidRequest
  | EDto_SessionNotDiscovered => Code_SessionNotDiscovered
  | EDto_SessionNotFound => Code_SessionNotFound
  | EDto_Internal => Code_Internal
  | EDto_CapabilityUnavailable => Code_CapabilityUnavailable
  | EDto_InteractionNotPending => Code_InteractionNotPending
  | EDto_SessionNotSubscribed => Code_SessionNotSubscribed
  | EDto_ProviderRejected => Code_ProviderRejected
  end.

(** ** Messages *)

Section messages.
Context `{Externals}.

Inductive NativeClientMessage : Type :=
| Client_Hello (client_id display_name : rstring) (version : option rstring)
    (supported_protocol_versions : list u16) (host_run_id : option rstring)
    (session_cursors : gmap SessionId u64)
| Client_Discover (request_id : rstring)
| Client_Subscribe (request_id : rstring) (session_id : SessionId)
| Client_Unsubscribe (request_id : rstring) (session_id : SessionId)
| Client_SubmitInteractionResponse (request_id : rstring) (response : InteractionResponse)
| Client_SubmitCommand (request_id : rstring) (command : AgentCommand).

Inductive NativeDeliveryContext : Type :=
| Ctx_DiscoveryProvider (request_id : rstring)
| Ctx_DiscoverySession (request_id : rstring) (last_sequence : EventSequence)
| Ctx_SubscriptionSession (request_id : rstring)
| Ctx_SubscriptionInteraction (request_id : rstring) (route : NativeEventRoute)
| Ctx_LiveEvent (route : NativeEventRoute)
| Ctx_LiveSession.

Inductive NativeServerMessage : Type :=
| Server_Hello (connection_id : rstring) (channel : ChannelDescriptor) (protocol_version : u16)
    (max_frame_bytes : usize) (ping_interval_seconds idle_timeout_seconds : u64)
    (host_run_id : rstring) (resume_accepted : bool)
| Server_SyncStarted (request_id : rstring) (provider_count session_count : nat)
| Server_Domain (context : NativeDeliveryContext) (message : ProtocolMessage)
| Server_SyncCompleted (request_id : rstring)
| Server_SubscriptionResult (request_id : rstring) (session_id : SessionId)
    (status : NativeSubscriptionStatus) (baseline_sequence : EventSequence)
    (pending_interaction_count event_count : nat) (reset : bool)
| Server_UnsubscriptionResult (request_id : rstring) (session_id : SessionId)
    (status : NativeUnsubscriptionStatus)
| Server_InteractionResponseResult (request_id : rstring) (session_id : SessionId)
    (interaction_id : rstring)
| Server_CommandResult (request_id : rstring) (session_id : SessionId) (command_id : rstring)
| Server_Error (request_id : option rstring) (code : NativeErrorCode) (message : rstring)
    (recoverable : bool).

(** Why a field is invalid: a fixed text, or the error whose text is shown. *)
Inductive FieldReason : Type :=
| Reason (text : rstring)
| Reason_Domain (error : DomainError)
| Reason_Uuid
| Reason_Overflow
| Reason_Utf8.

Inductive NativeProtocolError : Type :=
| Native_Json (source : rstring)
| Native_UnsupportedVersion (received : u64) (supported : u16)
| Native_InvalidField (field : string) (reason : FieldReason)
| Native_DomainProtocol (source : ProtocolError)
| Native_InvalidDomainContext (context actual : string).

Definition invalid {A} (field : string) (reason : string) : result NativeProtocolError A :=
  Err (Native_InvalidField field (Reason (lit reason))).

(** ** Validation *)

Definition validate_uuid_v7 (field : string) (value : rstring) : result NativeProtocolError unit :=
  parsed ← ok_or (Native_InvalidField field Reason_Uuid) (uuid_parse_str value);
  if negb (get_version_num parsed =? 7)%N || negb (bool_decide (uuid_to_string parsed = value))
  then invalid field "expected a canonical lowercase UUIDv7 string"
  else Ok ().

Definition validate_nonblank (field : string) (value : rstring) : result NativeProtocolError unit :=
  if is_empty (trim value) then invalid field "must not be blank" else Ok ().

Definition validate_client_message (message : NativeClientMessage) :
    result NativeProtocolError unit :=
  match message with
  | Client_Hello client_id display_name version versions host_run_id session_cursors =>
      _ ← validate_uuid_v7 "client_id" client_id;
      _ ← validate_nonblank "display_name" display_name;
      _ ← (if version is Some version then validate_nonblank "version" version else Ok ());
      _ ← (if host_run_id is Some id then validate_uuid_v7 "host_run_id" id else Ok ());
      if bool_decide (host_run_id = None) && negb (bool_decide (session_cursors = ∅))
      then invalid "session_cursors" "stored Session cursors require host_run_id"
      else if existsb (λ sequence : u64, (raw sequence =? 0)%N) (btree_values session_cursors)
      then invalid "session_cursors" "stored Session cursors must be positive"
      else if is_empty versions then invalid "supported_protocol_versions" "must not be empty"
      else if negb (bool_decide (NoDup versions))
      then invalid "supported_protocol_versions" "must not contain duplicates"
      else Ok ()
  | Client_Discover request_id | Client_Subscribe request_id _ | Client_Unsubscribe request_id _
  | Client_SubmitInteractionResponse request_id _ | Client_SubmitCommand request_id _ =>
      validate_uuid_v7 "request_id" request_id
  end.

Definition protocol_message_type (message : ProtocolMessage) : string :=
  match message with
  | Message_ProviderDescriptor _ => "provider_descriptor"
  | Message_ChannelDescriptor _ => "channel_descriptor"
  | Message_AgentSession _ => "agent_session"
  | Message_AgentEvent _ => "agent_event"
  | Message_InteractionRequest _ => "interaction_request"
  | Message_InteractionResponse _ => "interaction_response"
  | Message_AgentCommand _ => "agent_command"
  end.

Definition validate_delivery_context (context : NativeDeliveryContext) (message : ProtocolMessage) :
    result NativeProtocolError unit :=
  '(context_name, valid) ←
    match context with
    | Ctx_DiscoveryProvider request_id =>
        _ ← validate_uuid_v7 "request_id" request_id;
        Ok ("discovery_provider",
            match message with Message_ProviderDescriptor _ => true | _ => false end)
    | Ctx_DiscoverySession request_id _ =>
        _ ← validate_uuid_v7 "request_id" request_id;
        Ok ("discovery_session",
            match message with Message_AgentSession _ => true | _ => false end)
    | Ctx_SubscriptionSession request_id =>
        _ ← validate_uuid_v7 "request_id" request_id;
        Ok ("subscription_session",
            match message with Message_AgentSession _ => true | _ => false end)
    | Ctx_SubscriptionInteraction request_id _ =>
        _ ← validate_uuid_v7 "request_id" request_id;
        Ok ("subscription_interaction",
            match message with Message_InteractionRequest _ => true | _ => false end)
    | Ctx_LiveEvent _ =>
        Ok ("live_event", match message with Message_AgentEvent _ => true | _ => false end)
    | Ctx_LiveSession =>
        Ok ("live_session", match message with Message_AgentSession _ => true | _ => false end)
    end;
  if (valid : bool) then Ok ()
  else Err (Native_InvalidDomainContext context_name (protocol_message_type message)).

Definition native_capabilities : ChannelCapabilities :=
  union (union (union (union (union (union ChannelCaps.NOTIFICATION ChannelCaps.SESSION_VIEW)
    ChannelCaps.REALTIME_SYNC) ChannelCaps.APPROVAL) ChannelCaps.FORM_INPUT)
    ChannelCaps.TEXT_INPUT) ChannelCaps.REMOTE_COMMAND.

Definition validate_server_message (message : NativeServerMessage) :
    result NativeProtocolError unit :=
  match message with
  | Server_Hello connection_id channel protocol_version max_frame ping idle host_run_id _ =>
      _ ← validate_uuid_v7 "connection_id" connection_id;
      _ ← validate_uuid_v7 "host_run_id" host_run_id;
      if negb (bool_decide (kind_as_str (channel_kind channel) = lit "native"))
      then invalid "channel.kind" "server must identify a native Channel"
      else if negb (bool_decide (channel_capabilities channel = native_capabilities))
      then invalid "channel.capabilities"
             "Native v3 requires its complete interactive command capability set"
      else if negb (raw protocol_version =? V2_PROTOCOL_VERSION)%N
      then invalid "protocol_version" "server must select AgentPulse JSON v2"
      else if (raw max_frame =? 0)%N || (raw ping =? 0)%N || (raw idle =? 0)%N
      then invalid "server_hello limits" "all limits must be greater than zero"
      else Ok ()
  | Server_SyncStarted request_id _ _ | Server_SyncCompleted request_id
  | Server_SubscriptionResult request_id _ _ _ _ _ _
  | Server_UnsubscriptionResult request_id _ _ => validate_uuid_v7 "request_id" request_id
  | Server_InteractionResponseResult request_id _ interaction_id =>
      _ ← validate_uuid_v7 "request_id" request_id;
      validate_uuid_v7 "interaction_id" interaction_id
  | Server_CommandResult request_id _ command_id =>
      _ ← validate_uuid_v7 "request_id" request_id;
      validate_uuid_v7 "command_id" command_id
  | Server_Domain context message => validate_delivery_context context message
  | Server_Error request_id _ message _ =>
      _ ← (if request_id is Some id then validate_uuid_v7 "request_id" id else Ok ());
      validate_nonblank "error.message" message
  end.
End messages.

(** ** Data transfer objects *)

Record SessionCursorDto : Type := MkSessionCursorDto {
  cursor_session_id : rstring;
  cursor_last_sequence : rstring
}.

Inductive DeliveryContextDto : Type :=
| CtxDto_DiscoveryProvider (request_id : rstring)
| CtxDto_DiscoverySession (request_id last_sequence : rstring)
| CtxDto_SubscriptionSession (request_id : rstring)
| CtxDto_SubscriptionInteraction (request_id : rstring) (route : EventRouteDto)
| CtxDto_LiveEvent (route : EventRouteDto)
| CtxDto_LiveSession.

(** [V] is the type of JSON values. *)
Inductive ClientMessageDto (V : Type) : Type :=
| CMDto_ClientHello (client_id display_name : rstring) (version : option rstring)
    (supported_protocol_versions : list u16) (host_run_id : option rstring)
    (session_cursors : list SessionCursorDto)
| CMDto_DiscoverSessions (request_id : rstring)
| CMDto_SubscribeSession (request_id session_id : rstring)
| CMDto_UnsubscribeSession (request_id session_id : rstring)
| CMDto_SubmitInteractionResponse (request_id : rstring) (response : V)
| CMDto_SubmitCommand (request_id : rstring) (command : V).
Arguments CMDto_ClientHello {V}.
Arguments CMDto_DiscoverSessions {V}.
Arguments CMDto_SubscribeSession {V}.
Arguments CMDto_UnsubscribeSession {V}.
Arguments CMDto_SubmitInteractionResponse {V}.
Arguments CMDto_SubmitCommand {V}.

Inductive ServerMessageDto (V : Type) : Type :=
| SMDto_ServerHello (connection_id : rstring) (channel : V) (protocol_version : u16)
    (max_frame_bytes : usize) (ping_interval_seconds idle_timeout_seconds : u64)
    (host_run_id : rstring) (resume_accepted : bool)
| SMDto_SyncStarted (request_id : rstring) (provider_count session_count : nat)
| SMDto_DomainMessage (context : DeliveryContextDto) (domain : V)
| SMDto_SyncCompleted (request_id : rstring)
| SMDto_SubscriptionResult (request_id session_id : rstring) (status : SubscriptionStatusDto)
    (baseline_sequence : rstring) (pending_interaction_count event_count : nat) (reset : bool)
| SMDto_UnsubscriptionResult (request_id session_id : rstring) (status : UnsubscriptionStatusDto)
| SMDto_InteractionResponseResult (request_id session_id interaction_id : rstring)
| SMDto_CommandResult (request_id session_id command_id : rstring)
| SMDto_Error (request_id : option rstring) (code : ErrorCodeDto) (message : rstring)
    (recoverable : bool).
Arguments SMDto_ServerHello {V}.
Arguments SMDto_SyncStarted {V}.
Arguments SMDto_DomainMessage {V}.
Arguments SMDto_SyncCompleted {V}.
Arguments SMDto_SubscriptionResult {V}.
Arguments SMDto_UnsubscriptionResult {V}.
Arguments SMDto_InteractionResponseResult {V}.
Arguments SMDto_CommandResult {V}.
Arguments SMDto_Error {V}.

Record Envelope (T : Type) : Type := MkEnvelope {
  native_transport_version : u16;
  envelope_body : T
}.
Arguments MkEnvelope {T}.
Arguments native_transport_version {T}.
Arguments envelope_body {T}.

(** What the codec uses of [serde_json] beyond the domain protocol. *)
Class NativeJson `{SerdeJson} : Type := {
  value_to_vec : json_value → result rstring (list Byte.byte);
  client_to_vec : Envelope (ClientMessageDto json_value) → result rstring (list Byte.byte);
  client_from_value : json_value → result rstring (Envelope (ClientMessageDto json_value));
  server_to_vec : Envelope (ServerMessageDto json_value) → result rstring (list Byte.byte);
  server_from_value : json_value → result rstring (Envelope (ServerMessageDto json_value))
}.

(** Written documents are read back as what they were, also after they were
    parsed and printed as nested values. *)
Class NativeJsonOk `{NativeJson} : Prop := {
  nested_roundtrip : ∀ envelope bytes value, json_to_vec envelope = Ok bytes →
    json_from_slice bytes = Ok value →
    ∃ bytes', value_to_vec value = Ok bytes' ∧ json_from_slice bytes' = Ok value;
  client_roundtrip : ∀ envelope bytes, client_to_vec envelope = Ok bytes →
    ∃ value v, json_from_slice bytes = Ok value ∧
      json_get_u64 "native_transport_version" value = Some v ∧
      raw v = raw (native_transport_version envelope) ∧ client_from_value value = Ok envelope;
  server_roundtrip : ∀ envelope bytes, server_to_vec envelope = Ok bytes →
    ∃ value v, json_from_slice bytes = Ok value ∧
      json_get_u64 "native_transport_version" value = Some v ∧
      raw v = raw (native_transport_version envelope) ∧ server_from_value value = Ok envelope
}.

(** [BTreeMap::iter] *)
Definition btree_items {K V} `{Countable K, Ranked K} (m : gmap K V) : list (K * V) :=
  omap (λ k, v ← m !! k; Some (k, v)) (btree_keys m).

Section codec.
Context `{Externals} `{NativeJson}.

Definition parse_session_id (value : rstring) : result NativeProtocolError SessionId :=
  map_err (λ error, Native_InvalidField "session_id" (Reason_Domain error))
    (id_from_str SessionEntity value).

Definition canonical_positive : string := "expected a canonical positive decimal u64".

(** The loop of [parse_session_cursors] over the cursors parsed so far. *)
Fixpoint parse_session_cursors_from (parsed : gmap SessionId u64) (cursors : list SessionCursorDto) :
    result NativeProtocolError (gmap SessionId u64) :=
  match cursors with
  | [] => Ok parsed
  | cursor :: cursors' =>
      sid ← parse_session_id (cursor_session_id cursor);
      sequence ← ok_or (Native_InvalidField "last_sequence" (Reason (lit canonical_positive)))
                   (u64_from_str (cursor_last_sequence cursor));
      if (raw sequence =? 0)%N
         || negb (bool_decide (cursor_last_sequence cursor = display_u64 (raw sequence)))
      then invalid "last_sequence" canonical_positive
      else if bool_decide (is_Some (parsed !! sid))
      then invalid "session_cursors" "must not contain duplicate Session IDs"
      else parse_session_cursors_from (<[sid := sequence]> parsed) cursors'
  end.

Definition parse_session_cursors (cursors : list SessionCursorDto) :
    result NativeProtocolError (gmap SessionId u64) := parse_session_cursors_from ∅ cursors.

Definition parse_sequence (value : rstring) : result NativeProtocolError EventSequence :=
  if is_empty value || negb (forallb is_ascii_digit value)
     || ((1 <? N.of_nat (length value))%N && bool_decide (head value = Some 48%N))
  then invalid "event sequence" "expected a canonical unsigned decimal string"
  else
    parsed ← ok_or (Native_InvalidField "event sequence" Reason_Overflow) (u64_from_str value);
    map_err (λ error, Native_InvalidField "event sequence" (Reason_Domain error))
      (Counter_new EventSequenceFamily parsed).

Definition encode_domain_value (message : ProtocolMessage) : result NativeProtocolError json_value :=
  bytes ← map_err Native_DomainProtocol (encode_json message);
  map_err Native_Json (json_from_slice bytes).

Definition decode_domain_value (value : json_value) : result NativeProtocolError ProtocolMessage :=
  bytes ← map_err Native_Json (value_to_vec value);
  map_err Native_DomainProtocol (decode_json bytes).

Definition context_to_dto (context : NativeDeliveryContext) : DeliveryContextDto :=
  match context with
  | Ctx_DiscoveryProvider request_id => CtxDto_DiscoveryProvider request_id
  | Ctx_DiscoverySession request_id last_sequence =>
      CtxDto_DiscoverySession request_id (display_u64 (counter_num last_sequence))
  | Ctx_SubscriptionSession request_id => CtxDto_SubscriptionSession request_id
  | Ctx_SubscriptionInteraction request_id route =>
      CtxDto_SubscriptionInteraction request_id (route_to_dto route)
  | Ctx_LiveEvent route => CtxDto_LiveEvent (route_to_dto route)
  | Ctx_LiveSession => CtxDto_LiveSession
  end.

Definition context_from_dto (context : DeliveryContextDto) :
    result NativeProtocolError NativeDeliveryContext :=
  match context with
  | CtxDto_DiscoveryProvider request_id => Ok (Ctx_DiscoveryProvider request_id)
  | CtxDto_DiscoverySession request_id last_sequence =>
      Ctx_DiscoverySession request_id <$> parse_sequence last_sequence
  | CtxDto_SubscriptionSession request_id => Ok (Ctx_SubscriptionSession request_id)
  | CtxDto_SubscriptionInteraction request_id route =>
      Ok (Ctx_SubscriptionInteraction request_id (route_from_dto route))
  | CtxDto_LiveEvent route => Ok (Ctx_LiveEvent (route_from_dto route))
  | CtxDto_LiveSession => Ok Ctx_LiveSession
  end.

(** [ClientMessageDto::from_semantic] *)
Definition client_to_dto (message : NativeClientMessage) :
    result NativeProtocolError (ClientMessageDto json_value) :=
  match message with
  | Client_Hello client_id display_name version versions host_run_id session_cursors =>
      Ok (CMDto_ClientHello client_id display_name version versions host_run_id
            ((λ '(sid, sequence), MkSessionCursorDto (id_to_string sid) (display_u64 (raw sequence)))
               <$> btree_items session_cursors))
  | Client_Discover request_id => Ok (CMDto_DiscoverSessions request_id)
  | Client_Subscribe request_id sid => Ok (CMDto_SubscribeSession request_id (id_to_string sid))
  | Client_Unsubscribe request_id sid => Ok (CMDto_UnsubscribeSession request_id (id_to_string sid))
  | Client_SubmitInteractionResponse request_id response =>
      CMDto_SubmitInteractionResponse request_id <$>
        encode_domain_value (Message_InteractionResponse response)
  | Client_SubmitCommand request_id command =>
      CMDto_SubmitCommand request_id <$> encode_domain_value (Message_AgentCommand command)
  end.

(** [ClientMessageDto::into_semantic] *)
Definition client_from_dto (dto : ClientMessageDto json_value) :
    result NativeProtocolError NativeClientMessage :=
  match dto with
  | CMDto_ClientHello client_id display_name version versions host_run_id session_cursors =>
      Client_Hello client_id display_name version versions host_run_id <$>
        parse_session_cursors session_cursors
  | CMDto_DiscoverSessions request_id => Ok (Client_Discover request_id)
  | CMDto_SubscribeSession request_id sid => Client_Subscribe request_id <$> parse_session_id sid
  | CMDto_UnsubscribeSession request_id sid => Client_Unsubscribe request_id <$> parse_session_id sid
  | CMDto_SubmitInteractionResponse request_id response =>
      message ← decode_domain_value response;
      match message with
      | Message_InteractionResponse response =>
          Ok (Client_SubmitInteractionResponse request_id response)
      | _ => Err (Native_InvalidDomainContext "submit_interaction_response"
                    "non-interaction_response")
      end
  | CMDto_SubmitCommand request_id command =>
      message ← decode_domain_value command;
      match message with
      | Message_AgentCommand command => Ok (Client_SubmitCommand request_id command)
      | _ => Err (Native_InvalidDomainContext "submit_command" "non-agent_command")
      end
  end.

(** [ServerMessageDto::from_semantic] *)
Definition server_to_dto (message : NativeServerMessage) :
    result NativeProtocolError (ServerMessageDto json_value) :=
  match message with
  | Server_Hello connection_id channel protocol_version max_frame ping idle host_run_id resume =>
      value ← encode_domain_value (Message_ChannelDescriptor channel);
      Ok (SMDto_ServerHello connection_id value protocol_version max_frame ping idle host_run_id resume)
  | Server_SyncStarted request_id provider_count session_count =>
      Ok (SMDto_SyncStarted request_id provider_count session_count)
  | Server_Domain context message =>
      SMDto_DomainMessage (context_to_dto context) <$> encode_domain_value message
  | Server_SyncCompleted request_id => Ok (SMDto_SyncCompleted request_id)
  | Server_SubscriptionResult request_id sid status baseline pending events reset =>
      Ok (SMDto_SubscriptionResult request_id (id_to_string sid) (status_to_dto status)
            (display_u64 (counter_num baseline)) pending events reset)
  | Server_UnsubscriptionResult request_id sid status =>
      Ok (SMDto_UnsubscriptionResult request_id (id_to_string sid) (unstatus_to_dto status))
  | Server_InteractionResponseResult request_id sid interaction_id =>
      Ok (SMDto_InteractionResponseResult request_id (id_to_string sid) interaction_id)
  | Server_CommandResult request_id sid command_id =>
      Ok (SMDto_CommandResult request_id (id_to_string sid) command_id)
  | Server_Error request_id code message recoverable =>
      Ok (SMDto_Error request_id (code_to_dto code) message recoverable)
  end.

(** [ServerMessageDto::into_semantic] *)
Definition server_from_dto (dto : ServerMessageDto json_value) :
    result NativeProtocolError NativeServerMessage :=
  match dto with
  | SMDto_ServerHello connection_id channel protocol_version max_frame ping idle host_run_id resume =>
      message ← decode_domain_value channel;
      match message with
      | Message_ChannelDescriptor channel =>
          Ok (Server_Hello connection_id channel protocol_version max_frame ping idle host_run_id
                resume)
      | _ => Err (Native_InvalidDomainContext "server_hello" "non-channel_descriptor")
      end
  | SMDto_SyncStarted request_id provider_count session_count =>
      Ok (Server_SyncStarted request_id provider_count session_count)
  | SMDto_DomainMessage context domain =>
      context ← context_from_dto context;
      Server_Domain context <$> decode_domain_value domain
  | SMDto_SyncCompleted request_id => Ok (Server_SyncCompleted request_id)
  | SMDto_SubscriptionResult request_id sid status baseline pending events reset =>
      sid ← parse_session_id sid;
      baseline ← parse_sequence baseline;
      Ok (Server_SubscriptionResult request_id sid (status_from_dto status) baseline pending events
            reset)
  | SMDto_UnsubscriptionResult request_id sid status =>
      sid ← parse_session_id sid;
      Ok (Server_UnsubscriptionResult request_id sid (unstatus_from_dto status))
  | SMDto_InteractionResponseResult request_id sid interaction_id =>
      sid ← parse_session_id sid;
      Ok (Server_InteractionResponseResult request_id sid interaction_id)
  | SMDto_CommandResult request_id sid command_id =>
      sid ← parse_session_id sid;
      Ok (Server_CommandResult request_id sid command_id)
  | SMDto_Error request_id code message recoverable =>
      Ok (Server_Error request_id (code_from_dto code) message recoverable)
  end.

(** ** The codec *)

(** [decode_envelope], for the deserializer of either direction. *)
Definition native_decode_envelope {T} (from_value : json_value → result rstring (Envelope T))
    (input : list Byte.byte) : result NativeProtocolError (Envelope T) :=
  value ← map_err Native_Json (json_from_slice input);
  received ← ok_or (Native_InvalidField "native_transport_version"
                      (Reason (lit "expected an unsigned JSON integer")))
               (json_get_u64 "native_transport_version" value);
  if negb (raw received =? raw NATIVE_TRANSPORT_VERSION)%N
  then Err (Native_UnsupportedVersion received NATIVE_TRANSPORT_VERSION)
  else map_err Native_Json (from_value value).

Definition encode_client_message (message : NativeClientMessage) :
    result NativeProtocolError (list Byte.byte) :=
  _ ← validate_client_message message;
  dto ← client_to_dto message;
  map_err Native_Json (client_to_vec (MkEnvelope NATIVE_TRANSPORT_VERSION dto)).

Definition decode_client_message (input : list Byte.byte) :
    result NativeProtocolError NativeClientMessage :=
  dto ← native_decode_envelope client_from_value input;
  message ← client_from_dto (envelope_body dto);
  _ ← validate_client_message message;
  Ok message.

Definition encode_server_message (message : NativeServerMessage) :
    result NativeProtocolError (list Byte.byte) :=
  _ ← validate_server_message message;
  dto ← server_to_dto message;
  map_err Native_Json (server_to_vec (MkEnvelope NATIVE_TRANSPORT_VERSION dto)).

Definition decode_server_message (input : list Byte.byte) :
    result NativeProtocolError NativeServerMessage :=
  dto ← native_decode_envelope server_from_value input;
  message ← server_from_dto (envelope_body dto);
  _ ← validate_server_message message;
  Ok message.
End codec.

(** ** Correctness

    Every message that can be encoded decodes to itself, and decoding accepts
    only valid messages. *)

Section items.
Context {K : Type} `{Countable K, Ranked K} {V : Type}.
Implicit Types (m : gmap K V).

Lemma elem_of_btree_items m k v : (k, v) ∈ btree_items m ↔ m !! k = Some v.
Proof.
  unfold btree_items, btree_keys. rewrite list_elem_of_omap. split.
  - intros (k' & _ & Hk). by destruct (m !! k') eqn:E; simplify_eq/=.
  - intros Hk. exists k. rewrite elem_of_btree_elements, elem_of_dom, Hk. simpl. eauto.
Qed.

Lemma btree_items_keys m : (btree_items m).*1 = btree_keys m.
Proof.
  unfold btree_items, btree_keys.
  assert (∀ k, k ∈ btree_elements (dom m) → is_Some (m !! k)) as Hl.
  { intros k. by rewrite elem_of_btree_elements, elem_of_dom. }
  induction (btree_elements (dom m)) as [|k l IH]; [done|]. cbn [omap list_omap].
  destruct (Hl k) as [v Hv]; [left|]. rewrite Hv. simpl. f_equal. apply IH.
  intros. apply Hl. by right.
Qed.

Lemma NoDup_btree_items m : NoDup (btree_items m).*1.
Proof. rewrite btree_items_keys. apply NoDup_btree_elements. Qed.

Lemma list_to_map_btree_items m : list_to_map (btree_items m) = m.
Proof.
  apply map_eq. intros k. apply option_eq. intros v.
  rewrite <-elem_of_list_to_map by apply NoDup_btree_items. apply elem_of_btree_items.
Qed.
End items.

Section native_codec.
Context `{Externals} `{!ExternalsOk} `{NativeJson} `{!SerdeJsonOk} `{!NativeJsonOk}.

Lemma parse_session_id_to_string (sid : SessionId) : parse_session_id (id_to_string sid) = Ok sid.
Proof. unfold parse_session_id. by rewrite id_from_to_string. Qed.

Lemma parse_sequence_display (n : EventSequence) :
  parse_sequence (display_u64 (counter_num n)) = Ok n.
Proof.
  unfold parse_sequence. rewrite <-raw_counter_get.
  destruct (display_canonical (counter_get n)) as [Hcan _].
  pose proof (proj2 (visit_str_guard _) Hcan) as ->. rewrite u64_from_display. simpl.
  by rewrite Counter_new_get.
Qed.

Lemma decode_encode_domain_value m value :
  message_wf m → encode_domain_value m = Ok value → decode_domain_value value = Ok m.
Proof.
  intros Hwf (bytes & Hb & Hv)%bind_Ok. apply map_err_Ok in Hb, Hv.
  apply bind_Ok in Hb as (envelope & He & Hto). apply map_err_Ok in Hto.
  destruct (nested_roundtrip _ _ _ Hto Hv) as (bytes' & Hb' & Hs').
  destruct (json_roundtrip _ _ Hto) as (value' & v & Hs & Hver & Hraw & Hval).
  rewrite Hv in Hs. injection Hs as <-. pose proof (decode_encode_envelope _ _ Hwf He) as Hdec.
  unfold decode_domain_value. rewrite Hb'. simpl. unfold decode_json. rewrite Hs'. simpl.
  rewrite Hver. simpl. apply bind_Ok in He as (d & _ & [= <-]). simpl in Hraw.
  by rewrite Hraw, Hval; simpl; rewrite Hdec.
Qed.

(** Cursors are positive, so their texts are accepted. *)
Lemma parse_cursors_items parsed (l : list (SessionId * u64)) :
  NoDup l.*1 → (∀ sid, sid ∈ l.*1 → parsed !! sid = None) →
  Forall (λ p, raw p.2 ≠ 0%N) l →
  parse_session_cursors_from parsed
    ((λ '(sid, sequence), MkSessionCursorDto (id_to_string sid) (display_u64 (raw sequence))) <$> l) =
  Ok (list_to_map l ∪ parsed).
Proof.
  revert parsed. induction l as [|[sid sequence] l IH]; intros parsed Hnd Hfresh Hpos.
  - simpl. by rewrite (left_id_L ∅ (∪)).
  - rewrite fmap_cons. cbn [parse_session_cursors_from cursor_session_id cursor_last_sequence].
    rewrite parse_session_id_to_string. simpl. rewrite u64_from_display. simpl.
    apply Forall_cons in Hpos as [Hp Hpos]. simpl in Hp.
    rewrite (proj2 (N.eqb_neq _ _) Hp), bool_decide_eq_true_2 by done. simpl.
    rewrite fmap_cons in Hnd, Hfresh. apply NoDup_cons in Hnd as [Hnot Hnd]. simpl in Hnot.
    rewrite bool_decide_eq_false_2 by (rewrite (Hfresh sid) by left; by intros []).
    rewrite IH; [|done| |done].
    + f_equal. rewrite <-insert_union_r; [by rewrite <-insert_union_l|].
      by apply not_elem_of_list_to_map_1.
    + intros sid' Hin. rewrite lookup_insert_ne by set_solver. apply Hfresh. by right.
Qed.

Lemma positive_cursors (m : gmap SessionId u64) :
  existsb (λ sequence : u64, (raw sequence =? 0)%N) (btree_values m) = false →
  Forall (λ p, raw p.2 ≠ 0%N) (btree_items m).
Proof.
  intros Hex. apply Forall_forall. intros [sid v] Hin%elem_of_btree_items. simpl. intros Hz.
  assert (existsb (λ sequence : u64, (raw sequence =? 0)%N) (btree_values m) = true) as Ht;
    [|congruence].
  apply existsb_exists. exists v. split; [|by apply N.eqb_eq].
  apply list_elem_of_In, elem_of_btree_values. eauto.
Qed.

Definition client_message_wf (m : NativeClientMessage) : Prop :=
  match m with
  | Client_SubmitInteractionResponse _ response => response_wf response
  | _ => True
  end.

Definition server_message_wf (m : NativeServerMessage) : Prop :=
  match m with Server_Domain _ m => message_wf m | _ => True end.

Lemma client_from_to_dto m dto :
  client_message_wf m → validate_client_message m = Ok () →
  client_to_dto m = Ok dto → client_from_dto dto = Ok m.
Proof.
  intros Hwf Hv Hd. destruct m as [client name version versions run cursors| | | |rid response|rid command];
    cbn [client_to_dto] in Hd; try (apply fmap_Ok in Hd as (value & Hval & ->));
    try (injection Hd as <-); cbn [client_from_dto]; rewrite ?parse_session_id_to_string; try done.
  - unfold parse_session_cursors. rewrite parse_cursors_items; [| |done|].
    + rewrite list_to_map_btree_items, (right_id_L ∅ (∪)). done.
    + apply NoDup_btree_items.
    + apply positive_cursors. cbn [validate_client_message] in Hv.
      do 4 (apply bind_Ok in Hv as ([] & _ & Hv)).
      by destruct (_ && _), (existsb _ _).
  - by rewrite (decode_encode_domain_value (Message_InteractionResponse response) _ Hwf Hval).
  - by rewrite (decode_encode_domain_value (Message_AgentCommand command) _ I Hval).
Qed.

Lemma context_from_to_dto c : context_from_dto (context_to_dto c) = Ok c.
Proof.
  destruct c as [| | |? []|[]|]; try done. cbn [context_to_dto context_from_dto].
  by rewrite parse_sequence_display.
Qed.

Lemma server_from_to_dto m dto :
  server_message_wf m → server_to_dto m = Ok dto → server_from_dto dto = Ok m.
Proof.
  intros Hwf Hd. destruct m as [? channel| |context m| |rid sid []|rid sid []| | |rid []];
    cbn [server_to_dto] in Hd; try (injection Hd as <-); cbn [server_from_dto];
    rewrite ?parse_session_id_to_string; simpl; rewrite ?parse_sequence_display; try done.
  - apply bind_Ok in Hd as (value & Hval & [= <-]). cbn [server_from_dto].
    by rewrite (decode_encode_domain_value (Message_ChannelDescriptor channel) _ I Hval).
  - apply fmap_Ok in Hd as (value & Hval & ->). cbn [server_from_dto].
    rewrite context_from_to_dto. simpl. by rewrite (decode_encode_domain_value _ _ Hwf Hval).
Qed.

(** A written envelope has the supported version and is read back. *)
Lemma native_decode_encoded {T} (from_value : json_value → result rstring (Envelope T)) body bytes :
  (∃ value v, json_from_slice bytes = Ok value ∧
     json_get_u64 "native_transport_version" value = Some v ∧
     raw v = raw NATIVE_TRANSPORT_VERSION ∧
     from_value value = Ok (MkEnvelope NATIVE_TRANSPORT_VERSION body)) →
  native_decode_envelope from_value bytes = Ok (MkEnvelope NATIVE_TRANSPORT_VERSION body).
Proof.
  intros (value & v & Hs & Hv & Hraw & Hval). unfold native_decode_envelope.
  rewrite Hs. simpl. rewrite Hv. simpl. by rewrite Hraw, Hval.
Qed.

Lemma decode_encode_client m bytes :
  client_message_wf m → encode_client_message m = Ok bytes → decode_client_message bytes = Ok m.
Proof.
  intros Hwf ([] & Hv & (dto & Hd & Hb)%bind_Ok)%bind_Ok. apply map_err_Ok in Hb.
  unfold decode_client_message. rewrite (native_decode_encoded _ dto) by exact (client_roundtrip _ _ Hb).
  simpl. rewrite (client_from_to_dto _ _ Hwf Hv Hd). simpl. by rewrite Hv.
Qed.

Lemma decode_encode_server m bytes :
  server_message_wf m → encode_server_message m = Ok bytes → decode_server_message bytes = Ok m.
Proof.
  intros Hwf ([] & Hv & (dto & Hd & Hb)%bind_Ok)%bind_Ok. apply map_err_Ok in Hb.
  unfold decode_server_message. rewrite (native_decode_encoded _ dto) by exact (server_roundtrip _ _ Hb).
  simpl. rewrite (server_from_to_dto _ _ Hwf Hd). simpl. by rewrite Hv.
Qed.
End native_codec.
