(* ===== verification/Native.v ===== *)
(** * The Native Channel

    Models [agentpulse-channels/native/src] without its sockets: the delivery
    state ([state.rs], [status.rs]), the Channel Port ([port.rs]), the
    configuration ([config.rs]) and the connection state machine of the worker
    ([runtime.rs]).

    The delivery state is shared between the Port, which the Bridge calls, and
    the worker.  [with_port] runs a Host operation with the Port answering from
    the delivery state as it is, and returns the state after the calls made to
    the Port meanwhile. *)

From stdpp Require Import base strings numbers gmap list.
From S2P Require Import Prelude Values Snapshots Capability Interaction Event Aggregate Routing.
From S2P Require Import Bytes Bridge Runtime Dto Net Convert NativeProtocol.

(** A fallible part with its error converted. *)
Definition failing {S E F A} (f : E → F) (m : act S E A) : act S F A := λ s,
  let '(s', r) := m s in (s', map_err f r).

(** ** Configuration (config.rs) *)

(** The certificate and the authorizer of a LAN transport are not modelled. *)
Inductive NativeTransportConfig : Type := Transport_Loopback | Transport_AuthenticatedLan.

#[export] Instance NativeTransportConfig_eq_dec : EqDecision NativeTransportConfig.
Proof. solve_decision. Defined.

Section config.
Context `{Externals}.

Record NativeChannelConfig : Type := MkNativeConfig {
  config_channel_id : ChannelId;
  bind_address : SocketAddr;
  allow_public : bool;
  transport : NativeTransportConfig;
  handshake_timeout : Duration;
  io_poll_interval : Duration;
  ping_interval : Duration;
  idle_timeout : Duration;
  shutdown_timeout : Duration;
  config_max_frame_bytes : usize;
  outbound_capacity : nat;
  config_host_run_id : rstring
}.

Inductive NativeChannelBuildError : Type :=
| Build_Domain (source : DomainError)
| InvalidSetting (field reason : string)
| NonLoopbackAddress (address : SocketAddr)
| NonPrivateLanAddress (address : SocketAddr).

Fixpoint first_zero (settings : list (string * Duration)) : option string :=
  match settings with
  | [] => None
  | (field, value) :: settings' => if (as_nanos value =? 0)%N then Some field else first_zero settings'
  end.

Definition config_validate (c : NativeChannelConfig) : result NativeChannelBuildError unit :=
  if bool_decide (transport c = Transport_Loopback) && negb (is_loopback (socket_ip (bind_address c)))
  then Err (NonLoopbackAddress (bind_address c))
  else match first_zero [("handshake timeout", handshake_timeout c);
                         ("I/O poll interval", io_poll_interval c);
                         ("Ping interval", ping_interval c);
                         ("idle timeout", idle_timeout c);
                         ("shutdown timeout", shutdown_timeout c)] with
  | Some field => Err (InvalidSetting field "must be greater than zero")
  | None =>
      if (as_nanos (idle_timeout c) <=? as_nanos (ping_interval c))%N
      then Err (InvalidSetting "idle timeout" "must be greater than the Ping interval")
      else if (raw (config_max_frame_bytes c) =? 0)%N
      then Err (InvalidSetting "maximum frame bytes" "must be greater than zero")
      else if (outbound_capacity c <? 3)%nat
      then Err (InvalidSetting "outbound capacity" "must hold at least three frames")
      else Ok ()
  end.

(** The builder methods [with_bind_address], [with_ping_interval] and so on. *)
Definition with_bind_address (address : SocketAddr) (c : NativeChannelConfig) : NativeChannelConfig :=
  MkNativeConfig (config_channel_id c) address (allow_public c) Transport_Loopback
    (handshake_timeout c) (io_poll_interval c) (ping_interval c) (idle_timeout c)
    (shutdown_timeout c) (config_max_frame_bytes c) (outbound_capacity c) (config_host_run_id c).
Definition with_handshake_timeout (d : Duration) (c : NativeChannelConfig) : NativeChannelConfig :=
  MkNativeConfig (config_channel_id c) (bind_address c) (allow_public c) (transport c)
    d (io_poll_interval c) (ping_interval c) (idle_timeout c)
    (shutdown_timeout c) (config_max_frame_bytes c) (outbound_capacity c) (config_host_run_id c).
Definition with_io_poll_interval (d : Duration) (c : NativeChannelConfig) : NativeChannelConfig :=
  MkNativeConfig (config_channel_id c) (bind_address c) (allow_public c) (transport c)
    (handshake_timeout c) d (ping_interval c) (idle_timeout c)
    (shutdown_timeout c) (config_max_frame_bytes c) (outbound_capacity c) (config_host_run_id c).
Definition with_ping_interval (d : Duration) (c : NativeChannelConfig) : NativeChannelConfig :=
  MkNativeConfig (config_channel_id c) (bind_address c) (allow_public c) (transport c)
    (handshake_timeout c) (io_poll_interval c) d (idle_timeout c)
    (shutdown_timeout c) (config_max_frame_bytes c) (outbound_capacity c) (config_host_run_id c).
Definition with_idle_timeout (d : Duration) (c : NativeChannelConfig) : NativeChannelConfig :=
  MkNativeConfig (config_channel_id c) (bind_address c) (allow_public c) (transport c)
    (handshake_timeout c) (io_poll_interval c) (ping_interval c) d
    (shutdown_timeout c) (config_max_frame_bytes c) (outbound_capacity c) (config_host_run_id c).
Definition with_shutdown_timeout (d : Duration) (c : NativeChannelConfig) : NativeChannelConfig :=
  MkNativeConfig (config_channel_id c) (bind_address c) (allow_public c) (transport c)
    (handshake_timeout c) (io_poll_interval c) (ping_interval c) (idle_timeout c)
    d (config_max_frame_bytes c) (outbound_capacity c) (config_host_run_id c).
Definition with_max_frame_bytes (maximum : usize) (c : NativeChannelConfig) : NativeChannelConfig :=
  MkNativeConfig (config_channel_id c) (bind_address c) (allow_public c) (transport c)
    (handshake_timeout c) (io_poll_interval c) (ping_interval c) (idle_timeout c)
    (shutdown_timeout c) maximum (outbound_capacity c) (config_host_run_id c).
Definition with_outbound_capacity (capacity : nat) (c : NativeChannelConfig) : NativeChannelConfig :=
  MkNativeConfig (config_channel_id c) (bind_address c) (allow_public c) (transport c)
    (handshake_timeout c) (io_poll_interval c) (ping_interval c) (idle_timeout c)
    (shutdown_timeout c) (config_max_frame_bytes c) capacity (config_host_run_id c).

Definition DEFAULT_OUTBOUND_CAPACITY : nat := 256.

Definition duration_secs (n : N) (H : Is_true (n <=? u64_max)%N) : Duration :=
  MkDuration (Refine n H) (Refine 0%N I).

(** [NativeChannelConfig::new]; [DEFAULT_MAX_MESSAGE_BYTES] of the transport is
    one mebibyte, and [host_run_id] is the fresh identifier it generates. *)
Definition NativeChannelConfig_new (cid : ChannelId) (host_run_id : rstring) : NativeChannelConfig :=
  MkNativeConfig cid (MkSocketAddr (V4 127 0 0 1) (Refine 0%N I)) false Transport_Loopback
    (duration_secs 5 I) (MkDuration (Refine 0%N I) (Refine 100000000%N I)) (duration_secs 15 I)
    (duration_secs 45 I) (duration_secs 5 I) (Refine 1048576%N I) DEFAULT_OUTBOUND_CAPACITY
    host_run_id.

Definition authenticated_lan (cid : ChannelId) (host_run_id : rstring) (address : SocketAddr) :
    result NativeChannelBuildError NativeChannelConfig :=
  let base := NativeChannelConfig_new cid host_run_id in
  let c := MkNativeConfig (config_channel_id base) address (allow_public base)
             Transport_AuthenticatedLan (handshake_timeout base) (io_poll_interval base)
             (ping_interval base) (idle_timeout base) (shutdown_timeout base)
             (config_max_frame_bytes base) (outbound_capacity base) (config_host_run_id base) in
  _ ← config_validate c; Ok c.

Definition authenticated_public (cid : ChannelId) (host_run_id : rstring) (address : SocketAddr) :
    result NativeChannelBuildError NativeChannelConfig :=
  c ← authenticated_lan cid host_run_id address;
  Ok (MkNativeConfig (config_channel_id c) (bind_address c) true (transport c)
        (handshake_timeout c) (io_poll_interval c) (ping_interval c) (idle_timeout c)
        (shutdown_timeout c) (config_max_frame_bytes c) (outbound_capacity c) (config_host_run_id c)).
End config.

Definition SESSION_SYNC_PAGE_EVENTS : N := 128.

(** ** Delivery state (state.rs, status.rs) *)

Inductive NativeChannelHealth : Type :=
| Health_Stopped | Health_Listening | Health_Connected | Health_Failed.

#[export] Instance NativeChannelHealth_eq_dec : EqDecision NativeChannelHealth.
Proof. solve_decision. Defined.

(** The monitoring counters are unbounded here. *)
Record NativeChannelSnapshot : Type := MkSnapshot {
  health : NativeChannelHealth;
  snapshot_client_id : option rstring;
  connections : N;
  discoveries : N;
  subscription_count : N;
  domain_frames : N;
  disconnects : N
}.

Definition add_domain_frames (n : nat) (s : NativeChannelSnapshot) : NativeChannelSnapshot :=
  MkSnapshot (health s) (snapshot_client_id s) (connections s) (discoveries s)
    (subscription_count s) (domain_frames s + N.of_nat n)%N (disconnects s).
Definition add_discovery (s : NativeChannelSnapshot) : NativeChannelSnapshot :=
  MkSnapshot (health s) (snapshot_client_id s) (connections s) (discoveries s + 1)%N
    (subscription_count s) (domain_frames s) (disconnects s).
Definition add_subscription_count (s : NativeChannelSnapshot) : NativeChannelSnapshot :=
  MkSnapshot (health s) (snapshot_client_id s) (connections s) (discoveries s)
    (subscription_count s + 1)%N (domain_frames s) (disconnects s).
Definition set_connected (client_id : rstring) (s : NativeChannelSnapshot) : NativeChannelSnapshot :=
  MkSnapshot Health_Connected (Some client_id) (connections s + 1)%N (discoveries s)
    (subscription_count s) (domain_frames s) (disconnects s).
Definition set_disconnected (s : NativeChannelSnapshot) : NativeChannelSnapshot :=
  MkSnapshot Health_Listening None (connections s) (discoveries s) (subscription_count s)
    (domain_frames s)
    (if bool_decide (health s = Health_Connected) then disconnects s + 1 else disconnects s)%N.

Section delivery.
Context `{Externals}.

Record PendingSubscription : Type := MkPending {
  pending_request_id : rstring;
  pending_session_id : SessionId;
  pending_frames : list rstring;
  trailing_frames : list rstring;
  sync_delivered : bool
}.

Record ActiveClient : Type := MkClient {
  discovered : gset SessionId;
  client_subscriptions : gset SessionId;
  client_pending : option PendingSubscription;
  session_cursors : gmap SessionId u64
}.

Record DeliveryState : Type := MkDelivery {
  client : option ActiveClient;
  outgoing : list rstring;
  abort_reason : option rstring;
  capacity : nat;
  status : NativeChannelSnapshot
}.

Definition set_client (c : option ActiveClient) (d : DeliveryState) : DeliveryState :=
  MkDelivery c (outgoing d) (abort_reason d) (capacity d) (status d).
Definition set_outgoing (l : list rstring) (d : DeliveryState) : DeliveryState :=
  MkDelivery (client d) l (abort_reason d) (capacity d) (status d).
Definition set_abort (reason : rstring) (d : DeliveryState) : DeliveryState :=
  MkDelivery (client d) (outgoing d) (Some reason) (capacity d) (status d).
Definition set_status (s : NativeChannelSnapshot) (d : DeliveryState) : DeliveryState :=
  MkDelivery (client d) (outgoing d) (abort_reason d) (capacity d) s.
Definition update_client (f : ActiveClient → ActiveClient) (d : DeliveryState) : DeliveryState :=
  set_client (f <$> client d) d.
Definition set_pending_subscription (p : option PendingSubscription) (c : ActiveClient) :
    ActiveClient := MkClient (discovered c) (client_subscriptions c) p (session_cursors c).

Definition DeliveryState_new (cap : nat) (s : NativeChannelSnapshot) : DeliveryState :=
  MkDelivery None [] None cap s.

Definition pending_len (p : PendingSubscription) : nat :=
  length (pending_frames p) + length (trailing_frames p).

Definition queued_len (d : DeliveryState) : nat :=
  length (outgoing d) + from_option pending_len 0 (client d ≫= client_pending).

Definition queue_limit_text (cap : nat) : rstring :=
  lit "Native client output queue reached its " ++ display_u64 (N.of_nat cap) ++ lit "-frame limit".

Definition enqueue (frame : rstring) : act DeliveryState nat unit :=
  d ← gets id;
  if (capacity d <=? queued_len d)%nat then
    _ ← modify (set_abort (queue_limit_text (capacity d))); throw (capacity d)
  else modify (λ d, set_outgoing (outgoing d ++ [frame]) d).

Definition enqueue_batch (frames : list rstring) : act DeliveryState nat unit :=
  d ← gets id;
  if (capacity d <? queued_len d + length frames)%nat then
    _ ← modify (set_abort (queue_limit_text (capacity d))); throw (capacity d)
  else modify (λ d, set_outgoing (outgoing d ++ frames) d).

Definition clear_connection (d : DeliveryState) : DeliveryState :=
  MkDelivery None [] None (capacity d) (status d).
End delivery.

(** ** The Channel Port (port.rs) *)

Section port.
Context `{Externals} `{NativeJson}.

Inductive NativeChannelPortError : Type :=
| NoActiveClient
| Port_SessionNotSubscribed (session_id : SessionId)
| UnsupportedEventRoute
| Port_Protocol (source : NativeProtocolError)
| QueueFull (capacity : nat).

(** [encoded_text] of the Port and [server_text] of the worker. *)
Definition server_text (message : NativeServerMessage) : result NativeProtocolError rstring :=
  bytes ← encode_server_message message;
  ok_or (Native_InvalidField "encoded server frame" Reason_Utf8) (from_utf8 bytes).

Definition encoded_text (message : NativeServerMessage) : result NativeChannelPortError rstring :=
  map_err Port_Protocol (server_text message).

(** The pending subscription of a session, if it is the one synchronizing. *)
Definition pending_for (sid : SessionId) (c : ActiveClient) : option PendingSubscription :=
  p ← client_pending c; if bool_decide (pending_session_id p = sid) then Some p else None.

(** [NativeChannelPort::deliver] *)
Definition deliver (sid : SessionId) (message : ProtocolMessage)
    (event_route : option ChannelEventRoute) : act DeliveryState NativeChannelPortError unit :=
  d ← gets id;
  c ← lift (ok_or NoActiveClient (client d));
  context ← lift
    match pending_for sid c with
    | Some p =>
        match event_route with
        | Some route => Ok (Ctx_LiveEvent (from_core route))
        | None => if is_empty (pending_frames p)
                  then Ok (Ctx_SubscriptionSession (pending_request_id p)) else Ok Ctx_LiveSession
        end
    | None =>
        if bool_decide (sid ∈ client_subscriptions c) then
          match event_route with
          | Some route => Ok (Ctx_LiveEvent (from_core route))
          | None => Ok Ctx_LiveSession
          end
        else Err (Port_SessionNotSubscribed sid)
    end;
  frame ← lift (encoded_text (Server_Domain context message));
  _ ← match pending_for sid c with
      | Some p =>
          if (capacity d <=? queued_len d)%nat then
            _ ← modify (set_abort (queue_limit_text (capacity d))); throw (QueueFull (capacity d))
          else
            let p' := if sync_delivered p
              then MkPending (pending_request_id p) (pending_session_id p) (pending_frames p)
                     (trailing_frames p ++ [frame]) (sync_delivered p)
              else MkPending (pending_request_id p) (pending_session_id p)
                     (pending_frames p ++ [frame]) (trailing_frames p) (sync_delivered p) in
            modify (update_client (set_pending_subscription (Some p')))
      | None => failing QueueFull (enqueue frame)
      end;
  modify (λ d, set_status (add_domain_frames 1 (status d)) d).

(** The frames of a baseline: the session and its pending interactions. *)
Definition baseline_messages (request_id : rstring) (baseline : ChannelSessionBaseline) :
    list NativeServerMessage :=
  Server_Domain (Ctx_SubscriptionSession request_id)
    (Message_AgentSession (baseline_session baseline)) ::
  ((λ interaction,
      Server_Domain
        (Ctx_SubscriptionInteraction request_id
           (from_core (InteractionRouted (routed_request_route interaction))))
        (Message_InteractionRequest (routed_request interaction)))
     <$> baseline_pending_interactions baseline).

(** The end of [deliver_session_baseline] and [deliver_session_sync]: the
    frames join the pending subscription if they fit. *)
Definition extend_pending (sid : SessionId) (request_id : rstring) (frames : list rstring) :
    act DeliveryState NativeChannelPortError unit :=
  d ← gets id;
  if (capacity d <? queued_len d + length frames)%nat then
    _ ← modify (set_abort (queue_limit_text (capacity d))); throw (QueueFull (capacity d))
  else
    p ← lift (ok_or NoActiveClient
          (p ← (client d ≫= client_pending);
           if bool_decide (pending_session_id p = sid ∧ pending_request_id p = request_id)
           then Some p else None));
    _ ← modify (update_client (set_pending_subscription
          (Some (MkPending (pending_request_id p) (pending_session_id p)
                   (pending_frames p ++ frames) (trailing_frames p) true))));
    modify (λ d, set_status (add_domain_frames (length frames) (status d)) d).

Definition deliver_session_baseline (baseline : ChannelSessionBaseline) :
    act DeliveryState NativeChannelPortError unit :=
  let sid := session_id (baseline_session baseline) in
  d ← gets id;
  p ← lift (ok_or NoActiveClient (client d ≫= client_pending));
  if negb (bool_decide (pending_session_id p = sid)) then throw (Port_SessionNotSubscribed sid)
  else
    frames ← lift (try_collect encoded_text
                     (baseline_messages (pending_request_id p) baseline));
    extend_pending sid (pending_request_id p) frames.

(** An event of a page is encoded only if it belongs to the session. *)
Definition sync_event_frame (sid : SessionId) (routed : RoutedAgentEvent) :
    result NativeChannelPortError rstring :=
  if negb (bool_decide (event_session_id (routed_event routed) = sid))
  then Err (Port_SessionNotSubscribed sid)
  else encoded_text (Server_Domain (Ctx_LiveEvent (from_core (routed_event_route routed)))
                       (Message_AgentEvent (routed_event routed))).

Definition deliver_session_sync (sync : ChannelSessionSync) :
    act DeliveryState NativeChannelPortError unit :=
  d ← gets id;
  p ← lift (ok_or NoActiveClient (client d ≫= client_pending));
  let sid := pending_session_id p in
  let request_id := pending_request_id p in
  events ← lift (try_collect (sync_event_frame sid) (sync_events sync));
  baseline ← lift match sync_baseline sync with
                  | Some baseline => try_collect encoded_text (baseline_messages request_id baseline)
                  | None => Ok []
                  end;
  extend_pending sid request_id (events ++ baseline).

(** [impl ChannelPort for NativeChannelPort] *)
Definition port_call (call : ChannelCall) : act DeliveryState NativeChannelPortError unit :=
  match call with
  | DeliverEvent event route => deliver (event_session_id event) (Message_AgentEvent event) (Some route)
  | DeliverSession s => deliver (session_id s) (Message_AgentSession s) None
  | DeliverSessionBaseline baseline => deliver_session_baseline baseline
  | DeliverSessionSync sync => deliver_session_sync sync
  end.

(** The delivery state after a sequence of Port calls. *)
Definition after_calls (d : DeliveryState) (calls : list ChannelCall) : DeliveryState :=
  foldl (λ d call, (port_call call d).1) d calls.
End port.

(** ** The worker (runtime.rs) *)

(** Texts of errors, as the source's [Display] renders them. *)
Class ErrorTexts `{Externals} : Type := {
  show_port_error : NativeChannelPortError → AdapterError;
  show_ingress_error : ChannelActionIngressError → rstring
}.

Section worker.
Context `{Externals} `{NativeJson} `{!ErrorTexts}.

(** The Host, the delivery state and the open connection with its
    [handshaken] flag. *)
Record NativeWorld : Type := MkNative {
  native_host : RuntimeHost;
  native_delivery : DeliveryState;
  native_connection : option bool
}.

Definition set_native_delivery (d : DeliveryState) (n : NativeWorld) : NativeWorld :=
  MkNative (native_host n) d (native_connection n).
Definition set_connection (c : option bool) (n : NativeWorld) : NativeWorld :=
  MkNative (native_host n) (native_delivery n) c.

(** The Port as the Bridge sees it from a delivery state on, [base] being the
    number of calls it has received before. *)
Definition native_port (descriptor : ChannelDescriptor) (d : DeliveryState) (base : nat) :
    ChannelPort :=
  MkChannelPort descriptor (λ calls call,
    map_err show_port_error (port_call call (after_calls d (drop base calls))).2).

Definition install_port (cid : ChannelId) (d : DeliveryState) (b : Bridge) : Bridge :=
  set_channels
    (alter (λ c, MkRegisteredChannel (registered_channel_descriptor c)
                   (native_port (registered_channel_descriptor c) d
                      (length (registered_channel_calls c)))
                   (registered_channel_calls c)) cid (channels b)) b.

Definition calls_of (cid : ChannelId) (b : Bridge) : list ChannelCall :=
  from_option registered_channel_calls [] (channels b !! cid).

(** A Host operation with the Port attached. *)
Definition with_port {E A} (cid : ChannelId) (m : act RuntimeHost E A) : act NativeWorld E A := λ n,
  let w := native_host n in
  let b := shared_bridge (bridge w) in
  let '(w', r) := m (set_bridge (MkSharedBridge (install_port cid (native_delivery n) b)
                                   (shared_owner (bridge w))) w) in
  (MkNative w'
     (after_calls (native_delivery n)
        (drop (length (calls_of cid b)) (calls_of cid (shared_bridge (bridge w')))))
     (native_connection n), r).

Definition on_delivery {E A} (m : act DeliveryState E A) : act NativeWorld E A := λ n,
  let '(d, r) := m (native_delivery n) in (set_native_delivery d n, r).

Inductive ConnectionFailure : Type :=
| Recoverable (message : NativeServerMessage)
| Fatal (error : NativeProtocolError).

Definition protocol_error (request_id : option rstring) (code : NativeErrorCode)
    (message : rstring) (recoverable : bool) : NativeServerMessage :=
  Server_Error request_id code message recoverable.

Definition internal_error (request_id : option rstring) (message : string) : ConnectionFailure :=
  Recoverable (protocol_error request_id Code_Internal (lit message) true).

Definition runtime_failure (request_id : option rstring) (error : ChannelActionIngressError) :
    ConnectionFailure :=
  let code := match error with
              | Channel_Subscription (Sub_SessionNotFound _) => Code_SessionNotFound
              | _ => Code_Internal
              end in
  Recoverable (protocol_error request_id code (show_ingress_error error) true).

Definition interaction_response_failure (request_id : rstring) (error : ChannelActionIngressError) :
    ConnectionFailure :=
  let code := match error with
              | Channel_Bridge (Action_InteractionNotPending _ _) => Code_InteractionNotPending
              | Channel_Bridge (ChannelNotSubscribed _ _) => Code_SessionNotSubscribed
              | Channel_Bridge (Action_CapabilityRoute _) => Code_CapabilityUnavailable
              | Channel_Bridge (ProviderHandoff _ _ _) => Code_ProviderRejected
              | _ => Code_Internal
              end in
  Recoverable (protocol_error (Some request_id) code (show_ingress_error error) true).

Definition queue_error (cap : nat) : NativeProtocolError :=
  Native_InvalidField "outbound queue"
    (Reason (lit "reached its " ++ display_u64 (N.of_nat cap) ++ lit "-frame limit")).

Definition enqueue_control (message : NativeServerMessage) :
    act DeliveryState NativeProtocolError unit :=
  text ← lift (server_text message);
  failing queue_error (enqueue text).

(** ** Requests of a client *)

(** [connection_id] is the fresh identifier the worker generates. *)
Definition process_hello (config : NativeChannelConfig) (descriptor : ChannelDescriptor)
    (connection_id : rstring) (authenticated_client_id : option rstring)
    (message : NativeClientMessage) : act DeliveryState ConnectionFailure unit :=
  match message with
  | Client_Hello client_id _ _ versions host_run_id cursors =>
      if match authenticated_client_id with
         | Some id => negb (bool_decide (id = client_id)) | None => false end
      then throw (Fatal (Native_InvalidField "client_id" (Reason (lit
             "client hello identity does not match the authenticated upgrade"))))
      else if negb (existsb (λ v : u16, (raw v =? V2_PROTOCOL_VERSION)%N) versions)
      then throw (Fatal (Native_InvalidField "supported_protocol_versions" (Reason (lit
             "AgentPulse JSON protocol v2 is required"))))
      else
        let resume_accepted := bool_decide (host_run_id = Some (config_host_run_id config)) in
        _ ← modify (λ d, set_client
              (Some (MkClient ∅ ∅ None (if resume_accepted then cursors else ∅)))
              (clear_connection d));
        _ ← failing Fatal (enqueue_control
              (Server_Hello connection_id descriptor envelope_version
                 (config_max_frame_bytes config) (as_secs (ping_interval config))
                 (as_secs (idle_timeout config)) (config_host_run_id config) resume_accepted));
        modify (λ d, set_status (set_connected client_id (status d)) d)
  | _ => throw (Fatal (Native_InvalidField "first client message"
           (Reason (lit "expected client_hello"))))
  end.

Definition discovery_messages (request_id : rstring) (snapshot : ChannelDiscoverySnapshot) :
    list NativeServerMessage :=
  [Server_SyncStarted request_id (length (discovery_providers snapshot))
     (length (discovery_sessions snapshot))] ++
  ((λ provider, Server_Domain (Ctx_DiscoveryProvider request_id) (Message_ProviderDescriptor provider))
     <$> discovery_providers snapshot) ++
  ((λ entry, Server_Domain
      (Ctx_DiscoverySession request_id (discovered_last_sequence entry))
      (Message_AgentSession (discovered_session entry))) <$> discovery_sessions snapshot) ++
  [Server_SyncCompleted request_id].

Definition process_discover (thread : ThreadId) (h : ChannelActionHandle) (request_id : rstring) :
    act NativeWorld ConnectionFailure unit :=
  n ← gets id;
  match client (native_delivery n) with
  | None => throw (internal_error (Some request_id) "client state is unavailable")
  | Some c =>
      if bool_decide (is_Some (client_pending c)) then
        throw (Recoverable (protocol_error (Some request_id) Code_InvalidRequest
          (lit "wait for the active subscription baseline before discovery") true))
      else
        snapshot ← failing (runtime_failure (Some request_id))
          (with_port (handle_channel_id h) (handle_discovery_snapshot thread h));
        frames ← lift (map_err Fatal (try_collect server_text
                         (discovery_messages request_id snapshot)));
        _ ← failing (λ cap, Fatal (queue_error cap)) (on_delivery (enqueue_batch frames));
        _ ← on_delivery (modify (update_client (λ c,
              MkClient (list_to_set ((λ entry, session_id (discovered_session entry))
                                       <$> discovery_sessions snapshot))
                (client_subscriptions c) (client_pending c) (session_cursors c))));
        on_delivery (modify (λ d, set_status (add_discovery (status d)) d))
  end.

(** The answer to a repeated subscription. *)
Definition already_subscribed (request_id : rstring) (sid : SessionId) (c : ActiveClient) :
    act DeliveryState ConnectionFailure unit :=
  baseline ← lift (ok_or (internal_error (Some request_id)
                            "active subscription cursor is unavailable")
      (sequence ← session_cursors c !! sid;
       match Counter_new EventSequenceFamily sequence with Ok n => Some n | Err _ => None end));
  frame ← lift (map_err Fatal (server_text
            (Server_SubscriptionResult request_id sid Status_AlreadySubscribed baseline 0 0 false)));
  failing (λ cap, Fatal (queue_error cap)) (enqueue frame).

(** The part of [process_subscribe] after the Bridge answered: the result, the
    synchronized frames, the end marker and what was delivered meanwhile. *)
Definition complete_subscription (request_id : rstring) (sid : SessionId)
    (outcome : SessionSyncOutcome) : act DeliveryState ConnectionFailure unit :=
  let subscription_status :=
    if outcome_subscribed outcome then Status_Subscribed else Status_CatchingUp in
  baseline ← lift (map_err (λ _, internal_error (Some request_id) "invalid synchronized Event cursor")
                     (Counter_new EventSequenceFamily (outcome_through_sequence outcome)));
  result_frame ← lift (map_err Fatal (server_text
      (Server_SubscriptionResult request_id sid subscription_status baseline
         (outcome_pending_interaction_count outcome) (outcome_event_count outcome)
         (outcome_reset outcome))));
  d ← gets id;
  c ← lift (ok_or (internal_error None "client disconnected during subscription") (client d));
  p ← lift (ok_or (internal_error None "subscription synchronization state disappeared")
              (client_pending c));
  _ ← modify (update_client (set_pending_subscription None));
  completed ← lift (map_err Fatal (server_text (Server_SyncCompleted request_id)));
  _ ← failing (λ cap, Fatal (queue_error cap))
        (enqueue_batch ([result_frame] ++ pending_frames p ++ [completed] ++ trailing_frames p));
  _ ← modify (update_client (λ c,
        MkClient (discovered c)
          (if outcome_subscribed outcome then {[sid]} ∪ client_subscriptions c
           else client_subscriptions c)
          (client_pending c) (<[sid := outcome_through_sequence outcome]> (session_cursors c))));
  if outcome_subscribed outcome
  then modify (λ d, set_status (add_subscription_count (status d)) d) else mret ().

(** [match actions.sync_session(..)]: a failure ends the pending subscription. *)
Definition synchronize (thread : ThreadId) (h : ChannelActionHandle) (request_id : rstring)
    (sid : SessionId) (after_sequence : u64) :
    act NativeWorld ConnectionFailure SessionSyncOutcome := λ n,
  match with_port (handle_channel_id h)
          (handle_sync_session thread h sid after_sequence SESSION_SYNC_PAGE_EVENTS) n with
  | (n', Ok outcome) => (n', Ok outcome)
  | (n', Err error) =>
      (set_native_delivery (update_client (set_pending_subscription None) (native_delivery n')) n',
       Err (runtime_failure (Some request_id) error))
  end.

Definition process_subscribe (thread : ThreadId) (h : ChannelActionHandle) (request_id : rstring)
    (sid : SessionId) : act NativeWorld ConnectionFailure unit :=
  n ← gets id;
  match client (native_delivery n) with
  | None => throw (internal_error (Some request_id) "client state is unavailable")
  | Some c =>
      if negb (bool_decide (sid ∈ discovered c)) then
        throw (Recoverable (protocol_error (Some request_id) Code_SessionNotDiscovered
          (lit "Session was not present in the latest discovery snapshot") true))
      else if bool_decide (is_Some (client_pending c)) then
        throw (Recoverable (protocol_error (Some request_id) Code_InvalidRequest
          (lit "another subscription is being synchronized") true))
      else if bool_decide (sid ∈ client_subscriptions c) then
        on_delivery (already_subscribed request_id sid c)
      else
        _ ← on_delivery (modify (update_client (set_pending_subscription
              (Some (MkPending request_id sid [] [] false)))));
        outcome ← synchronize thread h request_id sid
                    (default u64_zero (session_cursors c !! sid));
        on_delivery (complete_subscription request_id sid outcome)
  end.

Definition client_subscribed (sid : SessionId) (d : DeliveryState) : bool :=
  from_option (λ c, bool_decide (sid ∈ client_subscriptions c)) false (client d).

Definition process_interaction_response (thread : ThreadId) (h : ChannelActionHandle)
    (request_id : rstring) (response : InteractionResponse) : act NativeWorld ConnectionFailure unit :=
  let sid := response_session_id response in
  n ← gets id;
  if negb (client_subscribed sid (native_delivery n)) then
    throw (Recoverable (protocol_error (Some request_id) Code_SessionNotSubscribed
      (lit "the current Native connection is not subscribed to the response Session") true))
  else
    _ ← failing (interaction_response_failure request_id)
          (with_port (handle_channel_id h) (submit_interaction_response thread h response));
    on_delivery (failing Fatal (enqueue_control (Server_InteractionResponseResult request_id sid
      (id_to_string (response_request_id response))))).

Definition process_command (thread : ThreadId) (h : ChannelActionHandle) (request_id : rstring)
    (command : AgentCommand) : act NativeWorld ConnectionFailure unit :=
  let sid := command_session_id command in
  n ← gets id;
  if negb (client_subscribed sid (native_delivery n)) then
    throw (Recoverable (protocol_error (Some request_id) Code_SessionNotSubscribed
      (lit "the current Native connection is not subscribed to the command Session") true))
  else
    _ ← failing (interaction_response_failure request_id)
          (with_port (handle_channel_id h) (submit_command thread h command));
    on_delivery (failing Fatal (enqueue_control (Server_CommandResult request_id sid
      (id_to_string (command_id command))))).

Definition process_unsubscribe (thread : ThreadId) (h : ChannelActionHandle) (request_id : rstring)
    (sid : SessionId) : act NativeWorld ConnectionFailure unit :=
  outcome ← failing (runtime_failure (Some request_id))
              (with_port (handle_channel_id h) (handle_unsubscribe thread h sid));
  let unsubscription_status := match outcome with
                               | Unsubscribed => Status_Unsubscribed
                               | NotSubscribed => Status_NotSubscribed
                               end in
  _ ← on_delivery (modify (update_client (λ c,
        MkClient (discovered c) (client_subscriptions c ∖ {[sid]}) (client_pending c)
          (session_cursors c))));
  on_delivery (failing Fatal (enqueue_control
    (Server_UnsubscriptionResult request_id sid unsubscription_status))).

Definition process_ready_message (thread : ThreadId) (h : ChannelActionHandle)
    (message : NativeClientMessage) : act NativeWorld ConnectionFailure unit :=
  match message with
  | Client_Hello _ _ _ _ _ _ =>
      throw (Fatal (Native_InvalidField "client_hello"
        (Reason (lit "client hello may only be sent once"))))
  | Client_Discover request_id => process_discover thread h request_id
  | Client_Subscribe request_id sid => process_subscribe thread h request_id sid
  | Client_Unsubscribe request_id sid => process_unsubscribe thread h request_id sid
  | Client_SubmitInteractionResponse request_id response =>
      process_interaction_response thread h request_id response
  | Client_SubmitCommand request_id command => process_command thread h request_id command
  end.

(** ** Connections *)

(** [for session_id in subscriptions { let _ = actions.unsubscribe(session_id); }] *)
Fixpoint unsubscribe_all (thread : ThreadId) (h : ChannelActionHandle) (sids : list SessionId)
    (n : NativeWorld) : NativeWorld :=
  match sids with
  | [] => n
  | sid :: sids' =>
      unsubscribe_all thread h sids'
        (with_port (handle_channel_id h) (handle_unsubscribe thread h sid) n).1
  end.

(** The worker also drops its connection. *)
Definition disconnect (thread : ThreadId) (h : ChannelActionHandle) (n : NativeWorld) : NativeWorld :=
  let sids := from_option (λ c, btree_elements (client_subscriptions c)) []
                (client (native_delivery n)) in
  let n' := unsubscribe_all thread h sids n in
  let d := clear_connection (native_delivery n') in
  MkNative (native_host n') (set_status (set_disconnected (status d)) d) None.

(** A text frame from the client: the arm [TransportRead::Text] of the worker. *)
Definition receive_text (config : NativeChannelConfig) (descriptor : ChannelDescriptor)
    (thread : ThreadId) (h : ChannelActionHandle) (connection_id : rstring)
    (authenticated_client_id : option rstring) (text : list Byte.byte) (n : NativeWorld) :
    NativeWorld :=
  match native_connection n with
  | None => n
  | Some handshaken =>
      match decode_client_message text with
      | Err _ => disconnect thread h n
      | Ok message =>
          let '(n', r) :=
            if handshaken then process_ready_message thread h message n
            else on_delivery (process_hello config descriptor connection_id
                                authenticated_client_id message) n in
          match r with
          | Ok _ => set_connection (Some true) n'
          | Err (Recoverable error) => (on_delivery (enqueue_control error) n').1
          | Err (Fatal _) => disconnect thread h n'
          end
      end
  end.
End worker.
