(* ===== verification/NativeSpec.v ===== *)
(** * Correctness of the Native Channel

    The output queue is bounded in every reachable state, a subscription request
    queues exactly the page the Bridge handed over between its result and its
    end marker, and what happens when the queue has room for the page but not
    for those two frames. *)

From stdpp Require Import base strings numbers sorting relations gmap list.
From S2P Require Import Prelude Values Snapshots Capability Interaction Event Aggregate.
From S2P Require Import AggregateSpec Routing Bridge BridgeSpec Runtime RuntimeSpec Dto Net Convert.
From S2P Require Import NativeProtocol Native.

(** ** The output queue *)

Section queue.
Context `{Externals} `{NativeJson} `{!ErrorTexts}.
Implicit Types (d : DeliveryState) (n : NativeWorld).

(** The queue of a fixed capacity is within it. *)
Definition fits (cap : nat) d : Prop := capacity d = cap ∧ queued_len d ≤ cap.

(** [m] keeps the queue bounded, whatever it returns. *)
Definition keeps {E A} (m : act DeliveryState E A) : Prop :=
  ∀ cap d, fits cap d → fits cap (m d).1.

Lemma keeps_ret {E A} (a : A) : keeps (mret a : act DeliveryState E A).
Proof. by intros cap d. Qed.
Lemma keeps_throw {E A} (e : E) : keeps (throw e : act DeliveryState E A).
Proof. by intros cap d. Qed.
Lemma keeps_lift {E A} (r : result E A) : keeps (lift r : act DeliveryState E A).
Proof. by intros cap d. Qed.
Lemma keeps_gets {E A} (f : DeliveryState → A) : keeps (gets f : act DeliveryState E A).
Proof. by intros cap d. Qed.
Lemma keeps_bind {E A B} (m : act DeliveryState E A) (k : A → act DeliveryState E B) :
  keeps m → (∀ a, keeps (k a)) → keeps (m ≫= k).
Proof.
  intros Hm Hk cap d Hd. specialize (Hm cap d Hd). unfold mbind, act_bind.
  destruct (m d) as [d' [a|e]]; [by apply Hk|done].
Qed.
Lemma keeps_failing {E F A} (f : E → F) (m : act DeliveryState E A) : keeps m → keeps (failing f m).
Proof. intros Hm cap d Hd. specialize (Hm cap d Hd). unfold failing. by destruct (m d). Qed.

(** Changes that do not lengthen the queue. *)
Lemma keeps_modify {E} (f : DeliveryState → DeliveryState) :
  (∀ d, capacity (f d) = capacity d ∧ queued_len (f d) ≤ queued_len d) →
  keeps (modify f : act DeliveryState E unit).
Proof. intros Hf cap d [Hc Hq]. simpl. destruct (Hf d) as [Hc' Hq']. split; [congruence|lia]. Qed.

Lemma queued_len_update f d :
  (∀ c, from_option pending_len 0 (client_pending (f c)) ≤ from_option pending_len 0 (client_pending c)) →
  queued_len (update_client f d) ≤ queued_len d.
Proof.
  intros Hf. unfold queued_len, update_client. simpl. destruct (client d) as [c|]; simpl; [|lia].
  specialize (Hf c). lia.
Qed.

Lemma keeps_update {E} f :
  (∀ c, from_option pending_len 0 (client_pending (f c)) ≤ from_option pending_len 0 (client_pending c)) →
  keeps (modify (update_client f) : act DeliveryState E unit).
Proof. intros Hf. apply keeps_modify. intros d. split; [done|]. by apply queued_len_update. Qed.

Lemma enqueue_keeps frame : keeps (enqueue frame).
Proof.
  intros cap d [Hc Hq]. unfold enqueue. unfold_act. destruct (Nat.leb_spec (capacity d) (queued_len d)).
  - done.
  - split; [done|]. unfold queued_len in *. simpl in *. rewrite length_app. simpl. lia.
Qed.

Lemma enqueue_batch_keeps frames : keeps (enqueue_batch frames).
Proof.
  intros cap d [Hc Hq]. unfold enqueue_batch. unfold_act.
  destruct (Nat.ltb_spec (capacity d) (queued_len d + length frames)).
  - done.
  - split; [done|]. unfold queued_len in *. simpl in *. rewrite length_app. lia.
Qed.

Lemma queued_len_pending d c p :
  client d = Some c → client_pending c = Some p →
  queued_len d = length (outgoing d) + pending_len p.
Proof. intros Hc Hp. unfold queued_len. rewrite Hc. simpl. by rewrite Hp. Qed.

Lemma queued_len_set_pending d c p :
  client d = Some c →
  queued_len (update_client (set_pending_subscription (Some p)) d) = length (outgoing d) + pending_len p.
Proof. intros Hc. unfold queued_len, update_client. simpl. by rewrite Hc. Qed.

Lemma keeps_status {E} f : keeps (modify (λ d, set_status (f (status d)) d) : act DeliveryState E unit).
Proof. apply keeps_modify. by intros d. Qed.

Lemma pending_for_Some sid c p :
  pending_for sid c = Some p → client_pending c = Some p ∧ pending_session_id p = sid.
Proof.
  unfold pending_for. destruct (client_pending c); simpl; [|done]. by case_bool_decide; intros [= <-].
Qed.

Lemma deliver_keeps sid message route : keeps (deliver sid message route).
Proof.
  intros cap d Hd. unfold deliver. unfold_act. destruct (client d) as [c|] eqn:Ec; simpl; [|done].
  match goal with |- context [match ?x with Ok _ => _ | Err _ => _ end] => destruct x as [ctx|]; [simpl|done] end.
  destruct (encoded_text _) as [frame|]; simpl; [|done].
  destruct (pending_for sid c) as [p|] eqn:Ep.
  - apply pending_for_Some in Ep as [Ep _]. destruct Hd as [Hc Hq].
    pose proof (queued_len_pending _ _ _ Ec Ep) as Hlen.
    destruct (Nat.leb_spec (capacity d) (queued_len d)); simpl; [done|].
    split; [done|].
    set (p' := if sync_delivered p then _ else _).
    change (queued_len (set_status _ _)) with (queued_len (update_client (set_pending_subscription (Some p')) d)).
    rewrite (queued_len_set_pending _ _ _ Ec).
    assert (pending_len p' = S (pending_len p)) as ->.
    { unfold p', pending_len. destruct (sync_delivered p); simpl; rewrite length_app; simpl; lia. }
    lia.
  - pose proof (keeps_failing QueueFull _ (enqueue_keeps frame) cap d Hd) as He.
    destruct (failing QueueFull (enqueue frame) d) as [d' [[]|]]; simpl in *; done.
Qed.

Lemma extend_pending_keeps sid rid frames : keeps (extend_pending sid rid frames).
Proof.
  intros cap d [Hc Hq]. unfold extend_pending. unfold_act.
  destruct (Nat.ltb_spec (capacity d) (queued_len d + length frames)); simpl; [done|].
  destruct (client d) as [c|] eqn:Ec; simpl; [|done].
  destruct (client_pending c) as [p|] eqn:Ep; simpl; [|done].
  case_bool_decide; simpl; [|done]. split; [done|].
  pose proof (queued_len_pending _ _ _ Ec Ep) as Hlen.
  set (p' := MkPending _ _ _ _ true).
  change (queued_len (set_status _ _)) with (queued_len (update_client (set_pending_subscription (Some p')) d)).
  rewrite (queued_len_set_pending _ _ _ Ec). unfold p', pending_len in *. simpl.
  rewrite length_app. lia.
Qed.

Lemma port_call_keeps call : keeps (port_call call).
Proof.
  destruct call; cbn [port_call]; [apply deliver_keeps..| |].
  - unfold deliver_session_baseline. apply keeps_bind; [apply keeps_gets|intros d].
    apply keeps_bind; [apply keeps_lift|intros p]. destruct (negb _); [apply keeps_throw|].
    apply keeps_bind; [apply keeps_lift|intros]. apply extend_pending_keeps.
  - unfold deliver_session_sync. apply keeps_bind; [apply keeps_gets|intros d].
    apply keeps_bind; [apply keeps_lift|intros p].
    apply keeps_bind; [apply keeps_lift|intros]. apply keeps_bind; [apply keeps_lift|intros].
    apply extend_pending_keeps.
Qed.

Lemma after_calls_fits cap d calls : fits cap d → fits cap (after_calls d calls).
Proof.
  revert d. induction calls as [|call calls IH]; intros d Hd; [done|].
  apply IH. by apply port_call_keeps.
Qed.

(** Operations of the worker. *)
Definition native_keeps {E A} (m : act NativeWorld E A) : Prop :=
  ∀ cap n, fits cap (native_delivery n) → fits cap (native_delivery (m n).1).

Lemma native_keeps_bind {E A B} (m : act NativeWorld E A) (k : A → act NativeWorld E B) :
  native_keeps m → (∀ a, native_keeps (k a)) → native_keeps (m ≫= k).
Proof.
  intros Hm Hk cap n Hn. specialize (Hm cap n Hn). unfold mbind, act_bind.
  destruct (m n) as [n' [a|e]]; [by apply Hk|done].
Qed.
Lemma native_keeps_same {E A} (m : act NativeWorld E A) : (∀ n, (m n).1 = n) → native_keeps m.
Proof. intros Hm cap n. by rewrite Hm. Qed.
Lemma native_keeps_failing {E F A} (f : E → F) (m : act NativeWorld E A) :
  native_keeps m → native_keeps (failing f m).
Proof. intros Hm cap n Hn. specialize (Hm cap n Hn). unfold failing. by destruct (m n). Qed.
Lemma with_port_keeps {E A} cid (m : act RuntimeHost E A) : native_keeps (with_port cid m).
Proof.
  intros cap n Hn. unfold with_port. destruct (m _) as [w' r]. simpl. by apply after_calls_fits.
Qed.
Lemma on_delivery_keeps {E A} (m : act DeliveryState E A) : keeps m → native_keeps (on_delivery m).
Proof.
  intros Hm cap n Hn. specialize (Hm cap _ Hn). unfold on_delivery.
  by destruct (m (native_delivery n)).
Qed.

Create HintDb native.
Hint Resolve keeps_ret keeps_throw keeps_lift keeps_gets keeps_failing keeps_status enqueue_keeps
  enqueue_batch_keeps : native.

Lemma enqueue_control_keeps message : keeps (enqueue_control message).
Proof. unfold enqueue_control. apply keeps_bind; eauto with native. Qed.

Lemma process_hello_keeps config descriptor cid auth message :
  keeps (process_hello config descriptor cid auth message).
Proof.
  destruct message; cbn [process_hello]; try apply keeps_throw.
  match goal with |- keeps (if ?b then _ else _) => destruct b; [apply keeps_throw|] end.
  destruct (negb _); [apply keeps_throw|].
  apply keeps_bind; [apply keeps_modify; intros d; split; [done|unfold queued_len; simpl; lia]|].
  intros []. apply keeps_bind; [apply keeps_failing, enqueue_control_keeps|]. intros [].
  apply (keeps_status (set_connected client_id)).
Qed.

Lemma already_subscribed_keeps rid sid c : keeps (already_subscribed rid sid c).
Proof.
  unfold already_subscribed. apply keeps_bind; [apply keeps_lift|intros].
  apply keeps_bind; eauto with native.
Qed.

Lemma complete_subscription_keeps rid sid outcome : keeps (complete_subscription rid sid outcome).
Proof.
  unfold complete_subscription. cbv zeta.
  apply keeps_bind; [apply keeps_lift|intros baseline].
  apply keeps_bind; [apply keeps_lift|intros frame].
  apply keeps_bind; [apply keeps_gets|intros d].
  apply keeps_bind; [apply keeps_lift|intros c].
  apply keeps_bind; [apply keeps_lift|intros p].
  apply keeps_bind; [apply keeps_update; intros; simpl; lia|intros []].
  apply keeps_bind; [apply keeps_lift|intros completed].
  apply keeps_bind; [apply keeps_failing, enqueue_batch_keeps|intros []].
  apply keeps_bind; [by apply keeps_update|intros []].
  destruct (outcome_subscribed outcome); [|apply keeps_ret].
  apply (keeps_status add_subscription_count).
Qed.

Lemma process_discover_keeps t h rid : native_keeps (process_discover t h rid).
Proof.
  unfold process_discover. apply native_keeps_bind; [by apply native_keeps_same|intros n0].
  destruct (client _) as [c|]; [|by apply native_keeps_same].
  case_bool_decide; [by apply native_keeps_same|].
  apply native_keeps_bind; [apply native_keeps_failing, with_port_keeps|intros snapshot].
  apply native_keeps_bind; [by apply native_keeps_same|intros frames].
  apply native_keeps_bind; [apply native_keeps_failing, on_delivery_keeps, enqueue_batch_keeps|intros []].
  apply native_keeps_bind; [apply on_delivery_keeps; by apply keeps_update|intros []].
  apply on_delivery_keeps. apply (keeps_status add_discovery).
Qed.

Lemma synchronize_keeps t h rid sid after : native_keeps (synchronize t h rid sid after).
Proof.
  intros cap n Hn. unfold synchronize.
  pose proof (with_port_keeps (handle_channel_id h)
    (handle_sync_session t h sid after SESSION_SYNC_PAGE_EVENTS) cap n Hn) as Hp.
  destruct (with_port _ _ n) as [n' [outcome|error]]; simpl in *; [done|].
  apply (keeps_update (E:=unit) (set_pending_subscription None)); [simpl; lia|done].
Qed.

Lemma process_subscribe_keeps t h rid sid : native_keeps (process_subscribe t h rid sid).
Proof.
  unfold process_subscribe. apply native_keeps_bind; [by apply native_keeps_same|intros n0].
  destruct (client _) as [c|]; [|by apply native_keeps_same].
  destruct (negb _); [by apply native_keeps_same|].
  case_bool_decide; [by apply native_keeps_same|].
  case_bool_decide; [apply on_delivery_keeps, already_subscribed_keeps|].
  apply native_keeps_bind; [|intros []].
  { apply on_delivery_keeps, keeps_update. intros. simpl. unfold pending_len. simpl. lia. }
  apply native_keeps_bind; [apply synchronize_keeps|intros outcome].
  apply on_delivery_keeps, complete_subscription_keeps.
Qed.

Lemma process_ready_message_keeps t h message : native_keeps (process_ready_message t h message).
Proof.
  destruct message as [|rid|rid sid|rid sid|rid response|rid command]; cbn [process_ready_message].
  - by apply native_keeps_same.
  - apply process_discover_keeps.
  - apply process_subscribe_keeps.
  - unfold process_unsubscribe.
    apply native_keeps_bind; [apply native_keeps_failing, with_port_keeps|intros outcome].
    apply native_keeps_bind; [apply on_delivery_keeps; by apply keeps_update|intros []].
    apply on_delivery_keeps, keeps_failing, enqueue_control_keeps.
  - unfold process_interaction_response. apply native_keeps_bind; [by apply native_keeps_same|intros n0].
    destruct (negb _); [by apply native_keeps_same|].
    apply native_keeps_bind; [apply native_keeps_failing, with_port_keeps|intros []].
    apply on_delivery_keeps, keeps_failing, enqueue_control_keeps.
  - unfold process_command. apply native_keeps_bind; [by apply native_keeps_same|intros n0].
    destruct (negb _); [by apply native_keeps_same|].
    apply native_keeps_bind; [apply native_keeps_failing, with_port_keeps|intros []].
    apply on_delivery_keeps, keeps_failing, enqueue_control_keeps.
Qed.

Lemma disconnect_fits cap t h n : capacity (native_delivery n) = cap → fits cap (native_delivery n) →
  fits cap (native_delivery (disconnect t h n)).
Proof.
  intros _ Hn. unfold disconnect. set (sids := from_option _ _ _). clearbody sids.
  assert (fits cap (native_delivery (unsubscribe_all t h sids n))) as [Hc _].
  { revert n Hn. induction sids as [|sid sids IH]; intros n Hn; [done|]. simpl.
    apply IH. by apply with_port_keeps. }
  split; [done|]. unfold queued_len. simpl. lia.
Qed.

(** ** Executions *)

(** What happens around one worker: connections, frames in and out, and Host
    operations of others, during which the Bridge may call the Port. *)
Inductive native_step (config : NativeChannelConfig) (descriptor : ChannelDescriptor)
    (h : ChannelActionHandle) : NativeWorld → NativeWorld → Prop :=
| native_accept n :
    native_connection n = None → native_step config descriptor h n (set_connection (Some false) n)
| native_text t connection_id auth text n :
    native_step config descriptor h n (receive_text config descriptor t h connection_id auth text n)
| native_sent n frame rest :
    outgoing (native_delivery n) = frame :: rest →
    native_step config descriptor h n (set_native_delivery (set_outgoing rest (native_delivery n)) n)
| native_lost t n : native_step config descriptor h n (disconnect t h n)
| native_other op n :
    host_op_wf op (native_host n) →
    native_step config descriptor h n
      (with_port (E:=unit) (handle_channel_id h) (λ w, (run_host_op op w, Ok tt)) n).1.

Lemma receive_text_fits cap config descriptor t h connection_id auth text n :
  fits cap (native_delivery n) →
  fits cap (native_delivery (receive_text config descriptor t h connection_id auth text n)).
Proof.
  intros Hn. unfold receive_text. destruct (native_connection n) as [handshaken|]; [|done].
  destruct (decode_client_message text) as [message|]; [|apply disconnect_fits; [apply Hn|done]].
  assert (fits cap (native_delivery (if handshaken then process_ready_message t h message n
    else on_delivery (process_hello config descriptor connection_id auth message) n).1)) as Hm.
  { destruct handshaken; [by apply process_ready_message_keeps|].
    apply on_delivery_keeps; [apply process_hello_keeps|done]. }
  destruct (if handshaken then _ else _) as [n' [|[error|]]]; simpl in Hm |- *; [done| |].
  - apply (on_delivery_keeps (enqueue_control error)); [apply enqueue_control_keeps|done].
  - apply disconnect_fits; [apply Hm|done].
Qed.

Lemma native_step_fits cap config descriptor h n n' :
  native_step config descriptor h n n' → fits cap (native_delivery n) → fits cap (native_delivery n').
Proof.
  intros [n1 _|t cid auth text n1|n1 frame rest Hout|t n1|op n1 _] Hn.
  - done.
  - by apply receive_text_fits.
  - destruct Hn as [Hc Hq]. split; [done|]. unfold queued_len in *. simpl in *.
    rewrite Hout in Hq. simpl in Hq. lia.
  - apply disconnect_fits; [apply Hn|done].
  - by apply with_port_keeps.
Qed.
End queue.

(** ** Subscriptions *)

Section subscription.
Context `{Externals} `{NativeJson} `{!ErrorTexts}.
Implicit Types (d : DeliveryState) (n : NativeWorld) (b : Bridge).

Lemma try_collect_app {E A B} (f : A → result E B) l1 l2 bs :
  try_collect f (l1 ++ l2) = Ok bs →
  ∃ bs1 bs2, bs = bs1 ++ bs2 ∧ try_collect f l1 = Ok bs1 ∧ try_collect f l2 = Ok bs2.
Proof.
  rewrite try_collect_Ok. intros (bs1 & bs2 & Hl1 & Hl2 & ->)%Forall2_app_inv_l.
  exists bs1, bs2. by rewrite !try_collect_Ok.
Qed.

Lemma try_collect_encoded l frames :
  try_collect server_text l = Ok frames → try_collect encoded_text l = Ok frames.
Proof.
  rewrite !try_collect_Ok. intros Hl. eapply Forall2_impl; [exact Hl|].
  intros m f Hm. unfold encoded_text. simpl in Hm. by rewrite Hm.
Qed.

Definition event_message (routed : RoutedAgentEvent) : NativeServerMessage :=
  Server_Domain (Ctx_LiveEvent (from_core (routed_event_route routed)))
    (Message_AgentEvent (routed_event routed)).

(** The domain frames of a page. *)
Definition page_messages (request_id : rstring) (sync : ChannelSessionSync) :
    list NativeServerMessage :=
  (event_message <$> sync_events sync) ++ from_option (baseline_messages request_id) [] (sync_baseline sync).

Lemma sync_event_frames sid events frames :
  Forall (λ e, event_session_id e = sid) (routed_event <$> events) →
  try_collect server_text (event_message <$> events) = Ok frames →
  try_collect (sync_event_frame sid) events = Ok frames.
Proof.
  rewrite !try_collect_Ok, Forall2_fmap_l, Forall_fmap. intros Hsid Hf.
  induction Hf as [|routed f events frames Hr _ IH]; [constructor|].
  apply Forall_cons in Hsid as [He Hsid]. constructor; [|by apply IH]. simpl in *.
  unfold sync_event_frame, encoded_text. rewrite bool_decide_eq_true_2 by done. simpl.
  unfold event_message in Hr. by rewrite Hr.
Qed.

Lemma deliver_sync_spec d c rid sid sync frames :
  client d = Some c → client_pending c = Some (MkPending rid sid [] [] false) →
  Forall (λ e, event_session_id e = sid) (routed_event <$> sync_events sync) →
  try_collect server_text (page_messages rid sync) = Ok frames →
  deliver_session_sync sync d =
    if (capacity d <? length (outgoing d) + length frames)%nat
    then (set_abort (queue_limit_text (capacity d)) d, Err (QueueFull (capacity d)))
    else (set_status (add_domain_frames (length frames) (status d))
            (update_client (set_pending_subscription (Some (MkPending rid sid frames [] true))) d),
          Ok ()).
Proof.
  intros Hc Hp Hsid (fe & fb & -> & He & Hb)%try_collect_app.
  assert (match sync_baseline sync with
          | Some baseline => try_collect encoded_text (baseline_messages rid baseline)
          | None => Ok []
          end = Ok fb) as Hbl.
  { destruct (sync_baseline sync); [by apply try_collect_encoded|by simplify_eq/=]. }
  unfold deliver_session_sync. unfold_act. rewrite Hc. simpl option_bind. rewrite Hp.
  cbn [ok_or pending_session_id pending_request_id].
  rewrite (sync_event_frames _ _ _ Hsid He), Hbl.
  simpl. unfold extend_pending. unfold_act. unfold queued_len. rewrite Hc. simpl. rewrite Hp. simpl.
  rewrite Nat.add_0_r. destruct (_ <? _)%nat; [done|]. by rewrite bool_decide_eq_true_2.
Qed.

Lemma complete_subscription_spec d c rid sid frames synced outcome baseline rf cf :
  client d = Some c → client_pending c = Some (MkPending rid sid frames [] synced) →
  Counter_new EventSequenceFamily (outcome_through_sequence outcome) = Ok baseline →
  server_text (Server_SubscriptionResult rid sid
    (if outcome_subscribed outcome then Status_Subscribed else Status_CatchingUp) baseline
    (outcome_pending_interaction_count outcome) (outcome_event_count outcome)
    (outcome_reset outcome)) = Ok rf →
  server_text (Server_SyncCompleted rid) = Ok cf →
  let d1 := update_client (set_pending_subscription None) d in
  (complete_subscription rid sid outcome d).2 =
    (if (capacity d <? length (outgoing d) + (2 + length frames))%nat
     then Err (Fatal (queue_error (capacity d))) else Ok ()) ∧
  let d' := (complete_subscription rid sid outcome d).1 in
  if (capacity d <? length (outgoing d) + (2 + length frames))%nat
  then d' = set_abort (queue_limit_text (capacity d)) d1
  else outgoing d' = outgoing d ++ rf :: frames ++ [cf] ∧ abort_reason d' = abort_reason d ∧
       client d' = Some (MkClient (discovered c)
         (if outcome_subscribed outcome then {[sid]} ∪ client_subscriptions c
          else client_subscriptions c)
         None (<[sid := outcome_through_sequence outcome]> (session_cursors c))).
Proof.
  intros Hc Hp Hn Hr Hcf d1. unfold complete_subscription. unfold_act. rewrite Hn. simpl.
  rewrite Hr. simpl. rewrite Hc. simpl. rewrite Hp. simpl. rewrite Hcf. simpl.
  unfold failing, enqueue_batch. unfold_act. cbn [capacity update_client set_client outgoing].
  assert (queued_len (update_client (set_pending_subscription None) d) = length (outgoing d)) as Hq.
  { unfold queued_len. simpl. rewrite Hc. simpl. lia. }
  rewrite Hq. cbn [length]. rewrite length_app. cbn [length].
  replace (length (outgoing d) + S (length frames + 1))
    with (length (outgoing d) + (2 + length frames)) by lia.
  destruct (_ <? _)%nat; [done|]. cbn [map_err fst snd].
  destruct (outcome_subscribed outcome); (split; [done|]); (split; [done|]); (split; [done|]);
    simpl; by rewrite Hc.
Qed.
End subscription.

(** ** Requests through the Bridge *)

Section attached.
Context `{Externals} `{NativeJson} `{!ErrorTexts}.
Implicit Types (d : DeliveryState) (n : NativeWorld) (b : Bridge).

Definition native_bridge n : Bridge := shared_bridge (bridge (native_host n)).

(** The handle of a running Channel, used by a thread that is not inside the
    Bridge. *)
Definition attached (t : ThreadId) (h : ChannelActionHandle) n : Prop :=
  host_alive (native_host n) = true ∧
  permit_enter (native_host n) (channel_permit h) = true ∧
  shared_owner (bridge (native_host n)) ≠ Some t.

Lemma with_port_run {E A} t h (f : E → ChannelActionIngressError) (m : act Bridge E A) n :
  attached t h n →
  let cid := handle_channel_id h in
  let '(b', r) := m (install_port cid (native_delivery n) (native_bridge n)) in
  with_port cid (with_bridge_access t h (wrap f m)) n =
    (MkNative (set_bridge (MkSharedBridge b' None) (native_host n))
       (after_calls (native_delivery n)
          (drop (length (calls_of cid (native_bridge n))) (calls_of cid b')))
       (native_connection n),
     map_err f r).
Proof.
  intros (Hal & Hpe & Ho) cid. unfold with_port, with_bridge_access. unfold_act.
  cbn [set_bridge host_alive]. rewrite Hal.
  change (permit_enter (set_bridge ?x ?w)) with (permit_enter w). rewrite Hpe.
  unfold with_access. cbn [negb bridge set_bridge shared_owner shared_bridge].
  rewrite bool_decide_eq_false_2 by done. unfold wrap, native_bridge.
  by destruct (m _) as [b' r].
Qed.

Lemma install_port_channel cid d b c :
  channels b !! cid = Some c →
  channels (install_port cid d b) !! cid =
    Some (MkRegisteredChannel (registered_channel_descriptor c)
            (native_port (registered_channel_descriptor c) d (length (registered_channel_calls c)))
            (registered_channel_calls c)).
Proof. intros Hc. unfold install_port. simpl. by rewrite lookup_alter_eq, Hc. Qed.

Lemma install_port_inv cid d b : bridge_inv b → bridge_inv (install_port cid d b).
Proof.
  intros Hinv. unfold install_port. apply bridge_inv_set_channels; [done| |].
  - intros cid' c. destruct (decide (cid' = cid)) as [->|Hne].
    + rewrite lookup_alter_eq. destruct (channels b !! cid) as [c0|] eqn:Ec; [|done].
      simpl. intros [= <-]. simpl. by apply (inv_channels _ Hinv).
    + rewrite lookup_alter_ne by done. by apply (inv_channels _ Hinv).
  - intros cid'. rewrite lookup_alter_is_Some. done.
Qed.

(** [sync_session] when there is a page to hand over. *)
Lemma sync_session_run b cid sid c a p after max sync :
  channels b !! cid = Some c → sessions b !! sid = Some a →
  providers b !! session_provider_id (session a) = Some p →
  is_subscribed b cid sid = false → max ≠ 0%N →
  prepare_sync cid a (registered_channel_descriptor c) (registered_provider_descriptor p) after max
    = Ok sync →
  let b1 := hand_channel cid c (DeliverSessionSync sync) b in
  sync_session cid sid after max b =
    match (channel_handoff c (DeliverSessionSync sync)).2 with
    | Err source =>
        (b1, Err (InitialSessionHandoff (MkChannelDeliveryError cid Delivery_Session source)))
    | Ok _ => (if sync_is_final sync then add_subscription sid cid b1 else b1,
         Ok (MkSyncOutcome (sync_through_sequence sync) (length (sync_events sync))
                   (sync_reset sync) (sync_is_final sync)
                   match sync_baseline sync with
                   | Some baseline => length (baseline_pending_interactions baseline)
                   | None => 0
                   end))
    end.
Proof.
  intros Hc Ha Hp Hsub Hmax Hsync b1. unfold sync_session. destruct (N.eqb_spec max 0); [done|].
  unfold_act. rewrite Hc. simpl. rewrite Ha. simpl. rewrite Hsub, Hp. simpl. rewrite Hsync. simpl.
  destruct (channel_port_accept _ _ _); simpl; [|done]. by destruct (sync_is_final sync).
Qed.

(** What the Bridge hands to the Port when a client asks for a session. *)
Record sync_request (t : ThreadId) (h : ChannelActionHandle) n (sid : SessionId) (after : u64)
    (a : SessionAggregate) (sync : ChannelSessionSync) : Prop := {
  request_attached : attached t h n;
  request_unsubscribed : is_subscribed (native_bridge n) (handle_channel_id h) sid = false;
  request_session : sessions (native_bridge n) !! sid = Some a;
  request_page : ∃ c p, channels (native_bridge n) !! handle_channel_id h = Some c ∧
    providers (native_bridge n) !! session_provider_id (session a) = Some p ∧
    prepare_sync (handle_channel_id h) a (registered_channel_descriptor c)
      (registered_provider_descriptor p) after SESSION_SYNC_PAGE_EVENTS = Ok sync
}.

Lemma calls_of_channel cid b c : channels b !! cid = Some c → calls_of cid b = registered_channel_calls c.
Proof. unfold calls_of. by intros ->. Qed.

Lemma is_subscribed_add_same sid cid b b1 :
  subscriptions b1 = subscriptions b →
  is_subscribed b cid sid = false →
  ∀ final : bool, is_subscribed (if final then add_subscription sid cid b1 else b1) cid sid = final.
Proof.
  intros Hs Hb [|]; [apply is_subscribed_add|]. unfold is_subscribed in *. by rewrite Hs.
Qed.

Lemma sync_through_port t h n sid after a sync :
  sync_request t h n sid after a sync →
  let d := native_delivery n in
  let '(d', r) := deliver_session_sync sync d in
  ∃ w', with_port (handle_channel_id h)
          (handle_sync_session t h sid after SESSION_SYNC_PAGE_EVENTS) n =
    (MkNative w' d' (native_connection n),
     match r with
     | Ok _ => Ok (MkSyncOutcome (sync_through_sequence sync) (length (sync_events sync))
                   (sync_reset sync) (sync_is_final sync)
                   match sync_baseline sync with
                   | Some baseline => length (baseline_pending_interactions baseline)
                   | None => 0
                   end)
     | Err source => Err (Channel_Subscription (InitialSessionHandoff
         (MkChannelDeliveryError (handle_channel_id h) Delivery_Session (show_port_error source))))
     end) ∧
    attached t h (MkNative w' d' (native_connection n)) ∧
    (bridge_inv (native_bridge n) → bridge_inv (shared_bridge (bridge w'))) ∧
    is_subscribed (shared_bridge (bridge w')) (handle_channel_id h) sid =
      match r with Ok _ => sync_is_final sync | Err _ => false end.
Proof.
  intros [Hatt Hsub Ha (c & p & Hc & Hp & Hsync)] d.
  destruct (deliver_session_sync sync d) as [d' r] eqn:Ed.
  pose proof (with_port_run t h Channel_Subscription
    (sync_session (handle_channel_id h) sid after SESSION_SYNC_PAGE_EVENTS) n Hatt) as Hrun.
  cbv zeta in Hrun. set (b1 := install_port _ _ _) in Hrun. fold d in b1.
  pose proof (install_port_channel _ d _ _ Hc) as Hc1. fold b1 in Hc1.
  assert (bridge_inv (native_bridge n) → bridge_inv (sync_session (handle_channel_id h) sid after
    SESSION_SYNC_PAGE_EVENTS b1).1) as Hpres.
  { intros Hinv. eapply sync_session_preserves; [by apply (install_port_inv (handle_channel_id h) d)|].
    apply surjective_pairing. }
  erewrite (sync_session_run b1) in Hrun, Hpres by (done || apply Hsync).
  cbn [channel_handoff snd channel_port_accept registered_channel_port native_port
       registered_channel_calls port_call] in Hrun, Hpres.
  rewrite drop_all in Hrun, Hpres. cbn [after_calls foldl] in Hrun, Hpres. rewrite Ed in Hrun, Hpres.
  cbn [snd] in Hrun, Hpres.
  unfold handle_sync_session.
  assert (∀ b2, channels b2 = channels (hand_channel (handle_channel_id h)
      (MkRegisteredChannel (registered_channel_descriptor c)
        (native_port (registered_channel_descriptor c) d (length (registered_channel_calls c)))
        (registered_channel_calls c)) (DeliverSessionSync sync) b1) →
    after_calls d (drop (length (calls_of (handle_channel_id h) (native_bridge n)))
      (calls_of (handle_channel_id h) b2)) = d') as Hcalls.
  { intros b2 Hb2. rewrite (calls_of_channel _ _ _ Hc). unfold calls_of. rewrite Hb2. simpl.
    rewrite lookup_insert_eq. simpl. rewrite drop_app_length. simpl. by rewrite Ed. }
  destruct r as [[]|source]; cbn [map_err] in Hrun; fold d in Hrun; rewrite Hrun, Hcalls;
    try (by destruct (sync_is_final sync)).
  - eexists. split; [done|]. split; [destruct Hatt as (? & ? & ?); by split_and!|].
    split; [done|]. by apply (is_subscribed_add_same sid _ (native_bridge n)).
  - eexists. split; [done|]. split; [destruct Hatt as (? & ? & ?); by split_and!|]. done.
Qed.
End attached.

(** ** A subscription request *)

Section subscribe.
Context `{Externals} `{NativeJson} `{!ErrorTexts}.
Implicit Types (d : DeliveryState) (n : NativeWorld) (b : Bridge).

Lemma validate_event_session p s e :
  validate_provider_event p s e = Ok () → event_session_id e = session_id s.
Proof.
  unfold validate_provider_event. destruct (validate_provider_session p s); simpl; [|done].
  unfold validate_session_id. case_bool_decide; simpl; [by intros|done].
Qed.

Lemma Counter_new_pos (fam : CounterFamily) (v : u64) :
  (0 < raw v)%N → ∃ c, Counter_new fam v = Ok c.
Proof.
  intros Hv. unfold Counter_new. destruct (nonzero_new v) as [c|] eqn:En; [by eexists|].
  apply nonzero_new_None in En. lia.
Qed.

Lemma sync_request_page t h n sid after a sync :
  bridge_inv (native_bridge n) → sync_request t h n sid after a sync →
  (∃ es from reset p, session_history (native_bridge n) a es p ∧
     page_start (session_config (native_bridge n)) es after = Some (from, reset) ∧
     sync_of_page es a from reset SESSION_SYNC_PAGE_EVENTS sync) ∧
  Forall (λ e, event_session_id e = sid) (routed_event <$> sync_events sync) ∧
  ∃ baseline, Counter_new EventSequenceFamily (sync_through_sequence sync) = Ok baseline.
Proof.
  intros Hinv [Hatt Hsub Ha (c & p & Hc & Hp & Hsync)].
  destruct (inv_sessions _ Hinv _ _ Ha) as [Hsid (es & p' & Hsh)].
  pose proof Hsh as (Hh & Hp' & Hall). assert (p' = p) as -> by congruence.
  pose proof (prepare_sync_spec _ _ _ (handle_channel_id h) (registered_channel_descriptor c)
    (registered_provider_descriptor p) after SESSION_SYNC_PAGE_EVENTS Hh
    (inv_providers _ Hinv _ _ Hp) Hall) as Hprep.
  destruct (page_start _ _ _) as [[from reset]|] eqn:Epage; [|congruence].
  destruct Hprep as (sync' & Hsync' & Hof). assert (sync' = sync) as -> by congruence.
  split; [by exists es, from, reset, p|].
  destruct Hof as (_ & _ & Hev & Hthrough & _). split.
  - rewrite Hev. apply Forall_take, Forall_drop. eapply Forall_impl; [done|].
    intros e He. rewrite <-Hsid. exact (validate_event_session _ _ _ He).
  - apply Counter_new_pos.
    assert (0 < length es) by (destruct Hh; rewrite ?length_app; simpl; lia).
    unfold SESSION_SYNC_PAGE_EVENTS in *. lia.
Qed.

Definition sync_outcome (sync : ChannelSessionSync) : SessionSyncOutcome :=
  MkSyncOutcome (sync_through_sequence sync) (length (sync_events sync))
    (sync_reset sync) (sync_is_final sync)
    match sync_baseline sync with
    | Some baseline => length (baseline_pending_interactions baseline)
    | None => 0
    end.

Definition result_message (request_id : rstring) (sid : SessionId) (baseline : EventSequence)
    (outcome : SessionSyncOutcome) : NativeServerMessage :=
  Server_SubscriptionResult request_id sid
    (if outcome_subscribed outcome then Status_Subscribed else Status_CatchingUp) baseline
    (outcome_pending_interaction_count outcome) (outcome_event_count outcome) (outcome_reset outcome).

(** A client may ask for the session. *)
Definition may_subscribe (c : ActiveClient) (sid : SessionId) : Prop :=
  sid ∈ discovered c ∧ client_pending c = None ∧ sid ∉ client_subscriptions c.

Lemma set_pending_none c : client_pending c = None → set_pending_subscription None c = c.
Proof. destruct c. simpl. by intros ->. Qed.

(** A subscription request that is admitted, by the room left in the queue. *)
Lemma process_subscribe_spec t h rid sid n c a sync frames baseline rf cf :
  bridge_inv (native_bridge n) →
  client (native_delivery n) = Some c → may_subscribe c sid →
  sync_request t h n sid (default u64_zero (session_cursors c !! sid)) a sync →
  try_collect server_text (page_messages rid sync) = Ok frames →
  Counter_new EventSequenceFamily (sync_through_sequence sync) = Ok baseline →
  server_text (result_message rid sid baseline (sync_outcome sync)) = Ok rf →
  server_text (Server_SyncCompleted rid) = Ok cf →
  let d := native_delivery n in
  let total := length (outgoing d) + length frames in
  let '(n', r) := process_subscribe t h rid sid n in
  let d' := native_delivery n' in
  attached t h n' ∧ bridge_inv (native_bridge n') ∧
  if (capacity d <? total)%nat then
    r = Err (runtime_failure (Some rid) (Channel_Subscription (InitialSessionHandoff
          (MkChannelDeliveryError (handle_channel_id h) Delivery_Session
             (show_port_error (QueueFull (capacity d))))))) ∧
    outgoing d' = outgoing d ∧ client d' = Some c ∧
    abort_reason d' = Some (queue_limit_text (capacity d)) ∧
    is_subscribed (native_bridge n') (handle_channel_id h) sid = false
  else is_subscribed (native_bridge n') (handle_channel_id h) sid = sync_is_final sync ∧
  if (capacity d <? total + 2)%nat then
    r = Err (Fatal (queue_error (capacity d))) ∧ outgoing d' = outgoing d ∧ client d' = Some c
  else
    r = Ok () ∧ outgoing d' = outgoing d ++ rf :: frames ++ [cf] ∧
    client d' = Some (MkClient (discovered c)
      (if sync_is_final sync then {[sid]} ∪ client_subscriptions c else client_subscriptions c)
      None (<[sid := sync_through_sequence sync]> (session_cursors c))).
Proof.
  intros Hinv Hc (Hdisc & Hpend & Hnot) Hreq Hframes Hbase Hrf Hcf d total. fold d in Hc.
  destruct (sync_request_page _ _ _ _ _ _ _ Hinv Hreq) as (_ & Hsids & _).
  set (pending := MkPending rid sid [] [] false).
  set (d1 := update_client (set_pending_subscription (Some pending)) d).
  assert (client d1 = Some (set_pending_subscription (Some pending) c)) as Hc1
    by (unfold d1, update_client; simpl; by rewrite Hc).
  unfold process_subscribe. unfold_act. fold d. rewrite Hc, Hpend.
  rewrite (bool_decide_eq_true_2 (sid ∈ _)) by done.
  rewrite (bool_decide_eq_false_2 (is_Some None)) by (by intros []).
  rewrite (bool_decide_eq_false_2 (sid ∈ _)) by done. cbn [negb].
  unfold on_delivery at 1. cbn [modify fst snd]. fold pending d d1.
  set (n1 := set_native_delivery d1 n).
  assert (sync_request t h n1 sid (default u64_zero (session_cursors c !! sid)) a sync) as Hreq1
    by (destruct Hreq; by split).
  pose proof (sync_through_port _ _ _ _ _ _ _ Hreq1) as Hport. cbv zeta in Hport.
  change (native_delivery n1) with d1 in Hport.
  rewrite (deliver_sync_spec d1 _ rid sid _ _ Hc1 eq_refl Hsids Hframes) in Hport.
  cbn [capacity d1 update_client set_client outgoing native_delivery n1 set_native_delivery] in Hport.
  fold d in Hport. fold total in Hport. unfold synchronize.
  destruct (capacity d <? total)%nat.
  - destruct Hport as (w' & -> & Hatt & Hpres & Hsub). split; [done|]. split; [by apply Hpres|].
    split; [done|]. split; [done|].
    split; [|done]. simpl. rewrite Hc. simpl. apply (f_equal Some), (set_pending_none c Hpend).
  - destruct Hport as (w' & -> & Hatt & Hpres & Hsub).
    set (d2 := set_status _ _) in *.
    assert (client d2 = Some (set_pending_subscription (Some (MkPending rid sid frames [] true)) c))
      as Hc2 by (simpl; by rewrite Hc).
    unfold on_delivery. cbn [native_delivery].
    pose proof (complete_subscription_spec d2 _ rid sid frames true (sync_outcome sync) baseline rf cf
      Hc2 eq_refl Hbase Hrf Hcf) as [Hr Hd]. cbv zeta in Hd.
    cbn [capacity d2 set_status update_client set_client outgoing d1] in Hr, Hd.
    replace (length (outgoing d) + (2 + length frames)) with (total + 2) in Hr, Hd by (unfold total; lia).
    change (MkSyncOutcome _ _ _ _ _) with (sync_outcome sync).
    destruct (complete_subscription rid sid (sync_outcome sync) d2) as [d3 r]. simpl in Hr, Hd. subst r.
    split; [by destruct Hatt|]. split; [by apply Hpres|]. split; [done|].
    destruct (capacity d <? total + 2)%nat.
    + subst d3. split_and!; try done. simpl. rewrite Hc. simpl. apply (f_equal Some), (set_pending_none c Hpend).
    + destruct Hd as (Hout & _ & Hcl). by split_and!.
Qed.
End subscribe.

(** ** Disconnecting *)

Section disconnecting.
Context `{Externals} `{NativeJson} `{!ErrorTexts}.
Implicit Types (d : DeliveryState) (n : NativeWorld) (b : Bridge).

Lemma calls_of_install cid d b : calls_of cid (install_port cid d b) = calls_of cid b.
Proof.
  unfold calls_of, install_port. simpl. rewrite lookup_alter_eq. by destruct (channels b !! cid).
Qed.

(** Unsubscribing through the handle leaves the delivery state alone. *)
Lemma unsubscribe_through_port t h n sid :
  attached t h n → bridge_inv (native_bridge n) →
  let cid := handle_channel_id h in
  let n' := (with_port cid (handle_unsubscribe t h sid) n).1 in
  attached t h n' ∧ bridge_inv (native_bridge n') ∧ native_delivery n' = native_delivery n ∧
  ∀ s, is_subscribed (native_bridge n') cid s =
    is_subscribed (native_bridge n) cid s && negb (bool_decide (s = sid)).
Proof.
  intros Hatt Hinv cid n'. unfold n', handle_unsubscribe.
  pose proof (with_port_run t h Channel_Subscription (unsubscribe cid sid) n Hatt) as Hrun.
  cbv zeta in Hrun. fold cid in Hrun. set (b1 := install_port _ _ _) in Hrun.
  pose proof (install_port_inv cid (native_delivery n) _ Hinv) as Hinv1. fold b1 in Hinv1.
  destruct (unsubscribe cid sid b1) as [b' r] eqn:Eu. fold cid. rewrite Hrun. simpl.
  assert (calls_of cid b' = calls_of cid (native_bridge n)) as Hcalls.
  { rewrite <-(calls_of_install cid (native_delivery n) (native_bridge n)). fold b1. unfold calls_of.
    apply unsubscribe_inv in Eu as [[-> _]|(_ & _ & _ & subs & -> & _)]; done. }
  split_and!; try by (destruct Hatt as (? & ? & ?)).
  - by eapply unsubscribe_preserves.
  - by rewrite Hcalls, drop_all.
  - intros s. change (is_subscribed (native_bridge n) cid s) with (is_subscribed b1 cid s).
    destruct r as [o|err].
    + rewrite (unsubscribe_removes _ _ _ _ _ Eu). by rewrite (bool_decide_eq_true_2 (cid = cid)).
    + unfold native_bridge. simpl. case_bool_decide as Hs; [subst s|]; simpl; rewrite ?andb_true_r, ?andb_false_r.
      * revert Eu. unfold unsubscribe. unfold_act. unfold is_subscribed.
        case_bool_decide as Hc; simpl; [case_bool_decide as Hss; simpl; [by case_bool_decide|]|];
          intros [= <- _]; destruct (subscriptions b1 !! sid) as [s|] eqn:Es; try done;
          destruct (inv_subscriptions _ Hinv1 _ _ Es) as (_ & ? & Hall); [done|].
        apply bool_decide_eq_false. intros Hin. by apply Hc, Hall.
      * by apply unsubscribe_inv in Eu as [[-> _]|(_ & _ & [=] & _)].
Qed.

Lemma unsubscribe_all_spec t h sids n :
  attached t h n → bridge_inv (native_bridge n) →
  let cid := handle_channel_id h in
  let n' := unsubscribe_all t h sids n in
  attached t h n' ∧ bridge_inv (native_bridge n') ∧ native_delivery n' = native_delivery n ∧
  ∀ s, is_subscribed (native_bridge n') cid s =
    is_subscribed (native_bridge n) cid s && negb (bool_decide (s ∈ sids)).
Proof.
  revert n. induction sids as [|sid sids IH]; intros n Hatt Hinv cid n'.
  - split_and!; try done. intros s. rewrite bool_decide_eq_false_2 by set_solver.
    by rewrite andb_true_r.
  - destruct (unsubscribe_through_port t h n sid Hatt Hinv) as (Hatt1 & Hinv1 & Hd1 & Hsub1).
    destruct (IH _ Hatt1 Hinv1) as (Hatt2 & Hinv2 & Hd2 & Hsub2).
    unfold n'. cbn [unsubscribe_all]. split_and!; try done; [by rewrite Hd2|].
    intros s. fold cid in Hsub2. rewrite Hsub2, Hsub1, <-andb_assoc. f_equal.
    rewrite <-negb_orb. f_equal. apply eq_true_iff_eq.
    rewrite orb_true_iff, !bool_decide_eq_true. by rewrite elem_of_cons.
Qed.

(** A disconnect withdraws the subscriptions of the connection and forgets
    everything queued for it. *)
Lemma disconnect_spec t h n :
  attached t h n → bridge_inv (native_bridge n) →
  let cid := handle_channel_id h in
  let n' := disconnect t h n in
  attached t h n' ∧ bridge_inv (native_bridge n') ∧
  client (native_delivery n') = None ∧ outgoing (native_delivery n') = [] ∧
  abort_reason (native_delivery n') = None ∧ native_connection n' = None ∧
  ∀ s, is_subscribed (native_bridge n') cid s =
    is_subscribed (native_bridge n) cid s && negb (client_subscribed s (native_delivery n)).
Proof.
  intros Hatt Hinv cid n'. unfold n', disconnect. set (sids := from_option _ _ _).
  destruct (unsubscribe_all_spec t h sids n Hatt Hinv) as (Hatt' & Hinv' & Hd & Hsub).
  split_and!; try done. intros s. 
  change (native_bridge (MkNative (native_host ?x) _ _)) with (native_bridge x).
  fold cid in Hsub. rewrite Hsub. f_equal. f_equal. unfold client_subscribed, sids.
  destruct (client (native_delivery n)) as [c|]; simpl.
  - apply bool_decide_ext, elem_of_btree_elements.
  - done.
Qed.
End disconnecting.

(** ** The Bridge while a connection is served *)

Section serving.
Context `{Externals} `{NativeJson} `{!ErrorTexts}.
Context (t : ThreadId) (h : ChannelActionHandle).
Implicit Types (d : DeliveryState) (n : NativeWorld) (b : Bridge).

Definition serving n : Prop := attached t h n ∧ bridge_inv (native_bridge n).

Definition serves {E A} (m : act NativeWorld E A) : Prop := ∀ n, serving n → serving (m n).1.

Lemma serves_same_host {E A} (m : act NativeWorld E A) :
  (∀ n, native_host (m n).1 = native_host n) → serves m.
Proof. intros Hm n Hn. unfold serving, attached, native_bridge in *. by rewrite Hm. Qed.
Lemma serves_bind {E A B} (m : act NativeWorld E A) (k : A → act NativeWorld E B) :
  serves m → (∀ a, serves (k a)) → serves (m ≫= k).
Proof.
  intros Hm Hk n Hn. specialize (Hm n Hn). unfold mbind, act_bind.
  destruct (m n) as [n' [a|e]]; [by apply Hk|done].
Qed.
Lemma serves_failing {E F A} (f : E → F) (m : act NativeWorld E A) : serves m → serves (failing f m).
Proof. intros Hm n Hn. specialize (Hm n Hn). unfold failing. by destruct (m n). Qed.
Lemma serves_delivery {E A} (m : act DeliveryState E A) : serves (on_delivery m).
Proof. apply serves_same_host. intros n. unfold on_delivery. by destruct (m _). Qed.

Lemma serves_port {E A} (f : E → ChannelActionIngressError) (m : act Bridge E A) :
  (∀ b b' r, bridge_inv b → m b = (b', r) → bridge_inv b') →
  serves (with_port (handle_channel_id h) (with_bridge_access t h (wrap f m))).
Proof.
  intros Hm n [Hatt Hinv]. pose proof (with_port_run t h f m n Hatt) as Hrun. cbv zeta in Hrun.
  destruct (m _) as [b' r] eqn:Em. rewrite Hrun.
  split; [destruct Hatt as (? & ? & ?); by split_and!|].
  eapply Hm; [|exact Em]. by apply install_port_inv.
Qed.

Lemma serves_discovery : serves (with_port (handle_channel_id h) (handle_discovery_snapshot t h)).
Proof.
  refine (serves_port (λ x, x) (gets discovery_snapshot) _). by intros b b' r Hb [= <- _].
Qed.

Lemma process_ready_message_serves message : serves (process_ready_message t h message).
Proof.
  destruct message as [|rid|rid sid|rid sid|rid response|rid command]; cbn [process_ready_message].
  - by apply serves_same_host.
  - unfold process_discover. apply serves_bind; [by apply serves_same_host|intros n0].
    destruct (client _) as [c|]; [|by apply serves_same_host].
    case_bool_decide; [by apply serves_same_host|].
    apply serves_bind; [apply serves_failing, serves_discovery|intros snapshot].
    apply serves_bind; [by apply serves_same_host|intros frames].
    apply serves_bind; [apply serves_failing, serves_delivery|intros []].
    apply serves_bind; [apply serves_delivery|intros []]. apply serves_delivery.
  - unfold process_subscribe. apply serves_bind; [by apply serves_same_host|intros n0].
    destruct (client _) as [c|]; [|by apply serves_same_host].
    destruct (negb _); [by apply serves_same_host|].
    case_bool_decide; [by apply serves_same_host|].
    case_bool_decide; [apply serves_delivery|].
    apply serves_bind; [apply serves_delivery|intros []].
    apply serves_bind; [|intros outcome; apply serves_delivery].
    intros n Hn. unfold synchronize, handle_sync_session. set (after := default _ _).
    pose proof (serves_port Channel_Subscription
      (sync_session (handle_channel_id h) sid after SESSION_SYNC_PAGE_EVENTS)
      (λ b b' r, sync_session_preserves _ _ _ _ b b' r) n Hn) as Hp.
    by destruct (with_port _ _ n) as [n' [outcome|error]].
  - unfold process_unsubscribe. apply serves_bind; [|intros outcome].
    { apply serves_failing, serves_port. intros b b' r. apply unsubscribe_preserves. }
    apply serves_bind; [apply serves_delivery|intros []]. apply serves_delivery.
  - unfold process_interaction_response. apply serves_bind; [by apply serves_same_host|intros n0].
    destruct (negb _); [by apply serves_same_host|].
    apply serves_bind; [|intros []; apply serves_delivery].
    apply serves_failing, serves_port. intros b b' r. apply handle_interaction_response_preserves.
  - unfold process_command. apply serves_bind; [by apply serves_same_host|intros n0].
    destruct (negb _); [by apply serves_same_host|].
    apply serves_bind; [|intros []; apply serves_delivery].
    apply serves_failing, serves_port. intros b b' r. apply handle_command_preserves.
Qed.

(** Serving a frame, whatever it holds, keeps the Bridge's invariant. *)
Lemma receive_text_serving config descriptor connection_id auth text n :
  serving n → serving (receive_text config descriptor t h connection_id auth text n).
Proof.
  intros Hn. unfold receive_text. destruct (native_connection n) as [handshaken|]; [|done].
  assert (∀ n1, serving n1 → serving (disconnect t h n1)) as Hdis.
  { intros n1 [Hatt Hinv]. by destruct (disconnect_spec t h n1 Hatt Hinv) as (? & ? & _). }
  destruct (decode_client_message text) as [message|]; [|by apply Hdis].
  assert (serving (if handshaken then process_ready_message t h message n
    else on_delivery (process_hello config descriptor connection_id auth message) n).1) as Hm.
  { destruct handshaken; [by apply process_ready_message_serves|by apply serves_delivery]. }
  destruct (if handshaken then _ else _) as [n' [|[error|]]]; simpl in Hm |- *; [done| |by apply Hdis].
  by apply (serves_delivery (enqueue_control error)).
Qed.
End serving.
