(* ===== verification/Examples.v ===== *)
(** * A concrete scenario

    An instance of the third-party functions and a small session with its
    Provider, Channel and events.  The witnesses of the theorems evaluate the
    model on it. *)

From stdpp Require Import base strings numbers gmap list.
From S2P Require Import Prelude Values Snapshots Capability Interaction Event Aggregate Routing.
From S2P Require Import Bridge.
From S2P Require Import AggregateSpec Routing Bridge BridgeSpec Runtime RuntimeSpec.

(** ** Third-party functions

    The version of a UUID is its real one (bits 76 to 79), and timestamps have
    the range of the [time] crate, of which RFC 3339 prints the years from 0
    on.  The texts are one-character encodings of the values. *)

Definition example_version (u : Uuid) : N := N.land (N.shiftr (raw u) 76) 15.

Definition example_range (z : Z) : bool :=
  ((-377705116800000000000 <=? z) && (z <=? 253402300799999999999))%Z.

Definition year_zero : Z := -62167219200000000000.

Definition example_format (t : Refined example_range) : result rstring rstring :=
  if (raw t <? year_zero)%Z then Err (lit "year out of range")
  else Ok [Z.to_N (raw t - year_zero)].

Definition example_parse (s : rstring) : result rstring (Refined example_range) :=
  match s with
  | [n] => ok_or (lit "out of range") (of_raw (Z.of_N n + year_zero)%Z)
  | _ => Err (lit "malformed timestamp")
  end.

Lemma example_parse_format (t : Refined example_range) s :
  example_format t = Ok s → example_parse s = Ok t.
Proof.
  unfold example_format, example_parse.
  destruct (Z.ltb_spec (raw t) year_zero) as [|Hle]; [done|]. intros [= <-].
  rewrite Z2N.id by lia. replace (raw t - year_zero + year_zero)%Z with (raw t) by lia.
  by rewrite of_raw_raw.
Qed.

#[export] Instance example_externals : Externals := {|
  get_version_num := example_version;
  uuid_to_string := λ u, [raw u];
  uuid_parse_str := λ s, match s with [n] => of_raw n | _ => None end;
  timestamp_in_range := example_range;
  rfc3339_format := example_format;
  rfc3339_parse := example_parse
|}.

#[export] Instance example_externals_ok : ExternalsOk.
Proof.
  split; [intros u; simpl; apply of_raw_raw|]. apply example_parse_format.
Qed.

(** ** Values *)

(** The version-7 UUID whose low bits are [n]. *)
Definition v7 (n : N) : N := N.lor (N.shiftl 7 76) n.
Abbreviation example_id n := (MkId (Refine (Refine (v7 n) I : Uuid) I)).
Abbreviation example_text s := (Refine (lit s) I : NonEmptyText).
Abbreviation example_time z := (Refine z%Z I : Timestamp).
Abbreviation example_seq n := (MkCounter (Refine n%N I : NonZeroU64)).

Definition provider_1 : ProviderId := example_id 1.
Definition channel_1 : ChannelId := example_id 2.
Definition channel_2 : ChannelId := example_id 3.
Definition session_1 : SessionId := example_id 4.

Definition all_provider : ProviderCapabilities :=
  MkCapabilities (Refine (N.ones 11) I : Refined (declared_bits ProviderFamily)).
Definition all_channel : ChannelCapabilities :=
  MkCapabilities (Refine (N.ones 12) I : Refined (declared_bits ChannelFamily)).

Definition provider_descriptor_1 : ProviderDescriptor :=
  MkProviderDescriptor provider_1 (MkKind (Refine (lit "codex") I)) (example_text "Codex") None
    all_provider.
Definition channel_descriptor (cid : ChannelId) : ChannelDescriptor :=
  MkChannelDescriptor cid (MkKind (Refine (lit "native") I)) (example_text "Phone") None all_channel.

(** Adapters that accept everything, and a channel that refuses events. *)
Definition provider_port_1 : ProviderPort := MkProviderPort provider_descriptor_1 (λ _ _, Ok ()).
Definition channel_port_ok (cid : ChannelId) : ChannelPort :=
  MkChannelPort (channel_descriptor cid) (λ _ _, Ok ()).
Definition channel_port_bad (cid : ChannelId) : ChannelPort :=
  MkChannelPort (channel_descriptor cid)
    (λ _ call, match call with DeliverEvent _ _ => Err (lit "closed") | _ => Ok () end).

(** ** A session *)

Definition example_session : AgentSession :=
  MkAgentSession session_1 provider_1 None (Some (example_text "Demo")) None State_Running
    Conn_Connected counter_FIRST (example_time 10) (example_time 10).

Definition request_1 : InteractionRequest :=
  MkInteractionRequest (example_id 20) session_1 (example_time 30) (Some (example_time 90))
    (example_text "Run it?")
    (Request_Approval (MkApprovalRequest (FileChangeSubject [] None None)
       [MkApprovalOption (example_id 21) Disposition_Approve (example_text "Yes") None;
        MkApprovalOption (example_id 22) Disposition_Reject (example_text "No") None] None)).

Definition response_1 : InteractionResponse :=
  MkInteractionResponse (example_id 20) session_1 channel_1 (example_time 40)
    (Response_Approval (MkApprovalSelection (example_id 21))).

Definition event_1 : AgentEvent :=
  MkAgentEvent (example_id 101) session_1 (example_seq 1) (example_time 10)
    (SessionStarted example_session).
Definition event_2 : AgentEvent :=
  MkAgentEvent (example_id 102) session_1 (example_seq 2) (example_time 20)
    (StateChanged State_WaitingForInteraction).
Definition event_3 : AgentEvent :=
  MkAgentEvent (example_id 103) session_1 (example_seq 3) (example_time 30)
    (InteractionRequested request_1).
Definition event_4 : AgentEvent :=
  MkAgentEvent (example_id 104) session_1 (example_seq 4) (example_time 40)
    (InteractionResponded response_1).

Definition command_1 : AgentCommand :=
  MkAgentCommand (example_id 30) session_1 channel_1 (example_time 50)
    (SubmitPrompt (example_text "Continue") Delivery_Queue).

Lemma request_1_wf : request_wf request_1.
Proof.
  split.
  - simpl. split; [done|]. by apply (bool_decide_unpack _).
  - simpl. by intros ? [= <-].
Qed.

Lemma event_1_wf : event_wf event_1.
Proof. split; [done|]. by intros ? [= <-]. Qed.
Lemma event_2_wf : event_wf event_2.
Proof. split; [done|]. done. Qed.
Lemma event_3_wf : event_wf event_3.
Proof. split; [apply request_1_wf|]. by intros ? [= <-]. Qed.
Lemma event_4_wf : event_wf event_4.
Proof. split; [done|]. by intros ? [= <-]. Qed.

(** ** The aggregate of the session *)

Definition aggregate_1 : SessionAggregate :=
  MkAggregate SessionAggregateConfig_retain_all example_session None None ∅ ∅ None event_1 [event_1].
Definition aggregate_2 : SessionAggregate := (apply event_2 aggregate_1).1.
Definition aggregate_3 : SessionAggregate := (apply event_3 aggregate_2).1.
Definition aggregate_4 : SessionAggregate := (apply event_4 aggregate_3).1.

(** Proves a decidable fact by running its decision procedure. *)
Ltac by_evaluation := apply (bool_decide_unpack _); vm_compute; exact I.

(** Only the outcome is evaluated. *)
Lemma apply_outcome_pair e a o : (apply e a).2 = Ok o → apply e a = ((apply e a).1, Ok o).
Proof. destruct (apply e a). simpl. by intros ->. Qed.

Lemma apply_event_2 : apply event_2 aggregate_1 = (aggregate_2, Ok Applied).
Proof. apply apply_outcome_pair. by_evaluation. Qed.
Lemma apply_event_3 : apply event_3 aggregate_2 = (aggregate_3, Ok Applied).
Proof. apply apply_outcome_pair. by_evaluation. Qed.
Lemma apply_event_4 : apply event_4 aggregate_3 = (aggregate_4, Ok Applied).
Proof. apply apply_outcome_pair. by_evaluation. Qed.

(** ** Reachable aggregates, Bridges and Hosts of the scenario *)

Lemma history_1 : history SessionAggregateConfig_retain_all [event_1] aggregate_1.
Proof. constructor; [apply event_1_wf|reflexivity]. Qed.
Lemma history_2 : history SessionAggregateConfig_retain_all [event_1; event_2] aggregate_2.
Proof.
  apply (history_step _ [event_1] aggregate_1); [apply history_1|apply event_2_wf|apply apply_event_2].
Qed.
Lemma history_3 : history SessionAggregateConfig_retain_all [event_1; event_2; event_3] aggregate_3.
Proof.
  apply (history_step _ [event_1; event_2] aggregate_2);
    [apply history_2|apply event_3_wf|apply apply_event_3].
Qed.
Lemma history_4 :
  history SessionAggregateConfig_retain_all [event_1; event_2; event_3; event_4] aggregate_4.
Proof.
  apply (history_step _ [event_1; event_2; event_3] aggregate_3);
    [apply history_3|apply event_4_wf|apply apply_event_4].
Qed.

(** ** Bridges *)

Definition run_ops (ops : list BridgeOp) (b : Bridge) : Bridge := foldl (λ b op, run_op op b) b ops.

Lemma run_ops_steps ops b : Forall op_wf ops → rtc bridge_step b (run_ops ops b).
Proof.
  intros Hwf. revert b. induction Hwf as [|op ops Hop _ IH]; intros b; [done|].
  eapply rtc_l; [by apply bridge_step_op|]. apply IH.
Qed.

(** One Provider and two Channels, the second of which refuses events. *)
Definition setup_ops : list BridgeOp :=
  [Op_RegisterProvider provider_port_1; Op_RegisterChannel (channel_port_ok channel_1);
   Op_RegisterChannel (channel_port_bad channel_2);
   Op_ProviderEvent provider_1 event_1; Op_ProviderEvent provider_1 event_2].
Definition subscribe_ops : list BridgeOp :=
  [Op_Subscribe channel_1 session_1; Op_Subscribe channel_2 session_1].

Definition bridge_setup : Bridge :=
  run_ops setup_ops (Bridge_with_session_config SessionAggregateConfig_retain_all).
Definition bridge_subscribed : Bridge := run_ops subscribe_ops bridge_setup.
Definition bridge_pending : Bridge := (handle_provider_event provider_1 event_3 bridge_subscribed).1.

Lemma bridge_setup_reachable : reachable_bridge SessionAggregateConfig_retain_all bridge_setup.
Proof.
  apply run_ops_steps. repeat constructor; apply event_1_wf || apply event_2_wf.
Qed.
Lemma bridge_subscribed_reachable :
  reachable_bridge SessionAggregateConfig_retain_all bridge_subscribed.
Proof.
  unfold reachable_bridge. etrans; [apply bridge_setup_reachable|].
  apply run_ops_steps. by repeat constructor.
Qed.
Lemma bridge_pending_reachable : reachable_bridge SessionAggregateConfig_retain_all bridge_pending.
Proof.
  unfold reachable_bridge. eapply rtc_r; [apply bridge_subscribed_reachable|].
  apply (bridge_step_op (Op_ProviderEvent provider_1 event_3)). apply event_3_wf.
Qed.

Definition provider_entry_1 : RegisteredProvider :=
  MkRegisteredProvider provider_descriptor_1 provider_port_1 [].
Definition channel_entry_1 : RegisteredChannel :=
  MkRegisteredChannel (channel_descriptor channel_1) (channel_port_ok channel_1) [].

Lemma bridge_setup_session : sessions bridge_setup !! session_1 = Some aggregate_2.
Proof. reflexivity. Qed.
Lemma bridge_setup_channel : channels bridge_setup !! channel_1 = Some channel_entry_1.
Proof. reflexivity. Qed.
Lemma bridge_setup_history :
  session_history bridge_setup aggregate_2 [event_1; event_2] provider_entry_1.
Proof.
  split; [exact history_2|]. split; [reflexivity|].
  repeat constructor; by_evaluation.
Qed.

(** A Bridge that keeps only the latest event. *)
Definition small_config : SessionAggregateConfig := SessionAggregateConfig_new 1.
Definition small_aggregate_1 : SessionAggregate :=
  MkAggregate small_config example_session None None ∅ ∅ None event_1 [event_1].
Definition small_aggregate : SessionAggregate := (apply event_2 small_aggregate_1).1.
Definition bridge_small : Bridge := run_ops setup_ops (Bridge_with_session_config small_config).

Lemma bridge_small_reachable : reachable_bridge small_config bridge_small.
Proof. apply run_ops_steps. repeat constructor; apply event_1_wf || apply event_2_wf. Qed.

Lemma bridge_small_history :
  session_history bridge_small small_aggregate [event_1; event_2] provider_entry_1.
Proof.
  split; [|split; [reflexivity|repeat constructor; by_evaluation]].
  apply (history_step _ [event_1] small_aggregate_1); [|apply event_2_wf|].
  - constructor; [apply event_1_wf|reflexivity].
  - apply apply_outcome_pair. by_evaluation.
Qed.

(** ** Hosts *)

Definition run_host_ops (ops : list HostOp) (w : RuntimeHost) : RuntimeHost :=
  foldl (λ w op, run_host_op op w) w ops.

Fixpoint host_ops_wf (ops : list HostOp) (w : RuntimeHost) : Prop :=
  match ops with
  | [] => True
  | op :: ops' => host_op_wf op w ∧ host_ops_wf ops' (run_host_op op w)
  end.

Lemma run_host_ops_steps ops w : host_ops_wf ops w → rtc host_step w (run_host_ops ops w).
Proof.
  revert w. induction ops as [|op ops IH]; intros w Hwf; [done|]. destruct Hwf as [Hop Hops].
  eapply rtc_l; [by apply host_step_op|]. by apply IH.
Qed.

(** A Provider that publishes while it starts, a Channel whose subscriptions
    end with its Source and one whose Source does not start. *)
Definition host_setup_ops : list HostOp :=
  [HostOp_RegisterProvider 0 provider_port_1;
   HostOp_RegisterChannel 0 (channel_port_ok channel_1) SourceGeneration;
   HostOp_RegisterChannel 0 (channel_port_bad channel_2) Persistent].
Definition start_callbacks : list Callback :=
  [MkCallback [MkCall 7 0 (Ingress_Publish event_1)] (Ok ());
   MkCallback [MkCall 8 1 (Ingress_Subscribe session_1)] (Ok ());
   MkCallback [] (Err (lit "no network"))].

Definition host_setup : RuntimeHost :=
  run_host_ops host_setup_ops (RuntimeHost_with_session_config SessionAggregateConfig_retain_all).
Definition host_started : RuntimeHost := run_host_op (HostOp_Start start_callbacks) host_setup.
Definition host_stopped : RuntimeHost := run_host_op (HostOp_Stop 0 []) host_started.
Definition host_restarted : RuntimeHost := run_host_op (HostOp_Start []) host_stopped.

Lemma start_callbacks_wf : Forall callback_wf start_callbacks.
Proof. repeat constructor; apply event_1_wf. Qed.

Lemma host_setup_reachable : reachable_host SessionAggregateConfig_retain_all host_setup.
Proof. apply run_host_ops_steps. simpl. by split_and!. Qed.
Lemma host_started_reachable : reachable_host SessionAggregateConfig_retain_all host_started.
Proof.
  eapply rtc_r; [apply host_setup_reachable|]. apply host_step_op.
  split; [apply start_callbacks_wf|reflexivity].
Qed.
Lemma host_stopped_steps : rtc host_step host_started host_stopped.
Proof. apply rtc_once, host_step_op. reflexivity. Qed.
Lemma host_restarted_steps : rtc host_step host_stopped host_restarted.
Proof. apply rtc_once, host_step_op. split; [constructor|reflexivity]. Qed.
Lemma host_stopped_reachable : reachable_host SessionAggregateConfig_retain_all host_stopped.
Proof. unfold reachable_host. etrans; [apply host_started_reachable|apply host_stopped_steps]. Qed.
