(* ===== verification/CoreTheorems.v ===== *)
(** * Theorems on the domain core

    Value objects, capabilities, interactions, routing and the session
    aggregate. *)

From stdpp Require Import base strings numbers sorting gmap list.
From S2P Require Import Prelude Values Snapshots Capability Interaction Event Aggregate.
From S2P Require Import AggregateSpec Routing Examples.

(** ** The session aggregate *)

Section aggregate.
Context `{Externals}.
Implicit Types (a : SessionAggregate) (e : AgentEvent) (h : list AgentEvent).

(** An event is applied entirely or not at all.  An
    accepted event is the successor of the cursor in its own session, becomes
    the cursor and enters the retained window; an exact retry and every
    rejected event leave the aggregate as it was. *)
Theorem aggregate_apply_atomic a e :
  match apply e a with
  | (a', Ok Applied) =>
      event_session_id e = session_id (session a) ∧
      event_num e = (event_num (last_event a) + 1)%N ∧
      last_event a' = e ∧ config a' = config a ∧
      recent_events a' = record_window (config a) (recent_events a) e ∧
      session_id (session a') = session_id (session a)
  | (a', Ok AlreadyApplied) => a' = a ∧ e = last_event a
  | (a', Err _) => a' = a
  end.
Proof.
  destruct (apply e a) as [a' r] eqn:E.
  pose proof (apply_inv _ _ _ _ E) as [(err & _ & -> & ->)|[(Hc & -> & ->)|[Hp|Hp]]]; [done| | |].
  - by apply validate_cursor_true in Hc as [? _].
  - by destruct Hp as (_ & err & _ & -> & ->).
  - destruct Hp as (Hc & a1 & Hp & -> & ->). apply validate_cursor_false in Hc as [Hid Hnum].
    apply apply_payload_frame in Hp as (Hcfg & _ & _ & Hsid & _). simpl. split_and!; congruence.
Qed.

(** Within its session, the sequence number of an
    event alone decides between stale, retried, conflicting, skipping and
    next; the reported numbers are the cursor's and the event's, and the
    error for an exhausted sequence is never returned. *)
Theorem aggregate_cursor_protocol a e :
  event_session_id e = session_id (session a) →
  (snd (apply e a) ≠ Err SequenceExhausted) ∧
  match (event_num e ?= event_num (last_event a))%N with
  | Lt => apply e a = (a, Err (StaleSequence (last_sequence a) (event_sequence e)))
  | Eq => apply e a =
            (a, if bool_decide (e = last_event a) then Ok AlreadyApplied
                else Err (SequenceConflict (event_sequence e) (last_event_id a) (event_id e)))
  | Gt => event_num e ≠ (event_num (last_event a) + 1)%N →
          ∃ expected, counter_num expected = (event_num (last_event a) + 1)%N ∧
            apply e a = (a, Err (SequenceGap expected (event_sequence e)))
  end.
Proof.
  intros Hid. pose proof (validate_cursor_spec a e) as Hc.
  assert (∀ r, validate_cursor a e = Err r → apply e a = (a, Err r)) as Herr.
  { intros r Hr. unfold apply. unfold_act. by rewrite Hr. }
  split.
  { destruct (apply e a) as [a' r] eqn:E.
    pose proof (apply_inv _ _ _ _ E) as [(err & Hv & -> & _)|[(_ & -> & _)|[Hp|Hp]]]; simpl; try done.
    - rewrite Hv in Hc. by intros [= ->].
    - destruct Hp as (_ & err & Hp & -> & _). intros [= ->].
      by apply apply_payload_not_exhausted in Hp.
    - by destruct Hp as (_ & a1 & _ & -> & _). }
  unfold event_num, last_sequence in *.
  destruct (N.compare_spec (counter_num (event_sequence e))
              (counter_num (event_sequence (last_event a)))) as [Heq|Hlt|Hgt].
  - apply counter_eq in Heq. case_bool_decide as He.
    + unfold apply. unfold_act. by rewrite (proj2 (validate_cursor_true a e) (conj He Hid)).
    + apply Herr. unfold validate_cursor, last_sequence. rewrite Hid, Heq.
      rewrite bool_decide_eq_true_2, N.ltb_irrefl by done. simpl.
      by rewrite bool_decide_eq_true_2, bool_decide_eq_false_2.
  - apply Herr. unfold validate_cursor, last_sequence. rewrite Hid, bool_decide_eq_true_2 by done.
    simpl. by rewrite (proj2 (N.ltb_lt _ _) Hlt).
  - intros Hgap. destruct (validate_cursor a e) as [[]|r] eqn:Ev.
    + destruct Hc as [-> _]. lia.
    + destruct Hc as [_ Hc]. lia.
    + unfold last_sequence in Hc. destruct r as [| | |? ?|? ?|? ? ?|? ?| | | | | | | | |]; try done.
      * destruct Hc as (-> & -> & ?). congruence.
      * destruct Hc as (-> & -> & ?). lia.
      * destruct Hc as (-> & Heq & _). rewrite Heq in Hgt. lia.
      * destruct Hc as (Hexp & -> & _). eexists. split; [exact Hexp|]. by apply Herr.
Qed.

(** Every aggregate built from well-formed
    events is consistent: its session's timestamps are ordered, the cursor
    belongs to the session, pending requests are filed under their own id, of
    this session and well formed, tool calls are filed under their id, the
    plan has unique items, and the window respects its capacity. *)
Theorem aggregate_history_invariant cfg h a : history cfg h a → aggregate_inv a.
Proof. apply history_inv. Qed.

(** C1: the aggregate is a function of its history.
    Plan, progress and outcome are the last ones reported; a request is
    pending exactly when an event of the history asked it and no later event
    answered or closed it or ended the run; and likewise for tool calls. *)
Theorem aggregate_refines_history cfg h a :
  history cfg h a →
  (plan a = last (omap plan_of h) ∧ progress a = last (omap progress_of h) ∧
   latest_outcome a = last (omap outcome_of h)) ∧
  (∀ id r, pending_interactions a !! id = Some r ↔
     open_in (λ e, match request_of e with
                   | Some r' => if bool_decide (request_id r' = id) then Some r' else None
                   | None => None end) (ends_interaction id) h r) ∧
  (∀ id t, active_tool_calls a !! id = Some t ↔
     open_in (λ e, match tool_start_of e with
                   | Some t' => if bool_decide (tool_id t' = id) then Some t' else None
                   | None => None end) (ends_tool id) h t).
Proof.
  intros Hh. split; [by eapply history_latest|]. split; intros.
  - by eapply history_pending.
  - by eapply history_tools.
Qed.

(** The session snapshot keeps the
    identity it started with, shows the last reported state and connection,
    and its revision counts the observations since the start. *)
Theorem aggregate_session_refines_history cfg e0 h a s :
  history cfg (e0 :: h) a → event_payload e0 = SessionStarted s →
  session_id (session a) = session_id s ∧
  session_provider_id (session a) = session_provider_id s ∧
  session_state (session a) = default (session_state s) (last (omap state_of (e0 :: h))) ∧
  session_connection_state (session a) =
    default (session_connection_state s) (last (omap connection_of (e0 :: h))) ∧
  counter_num (session_revision (session a)) =
    (counter_num (session_revision s) + count_advances (e0 :: h))%N.
Proof. intros Hh Hs. by eapply history_session. Qed.

(** The events of a history are numbered 1, 2, 3
    and so on, the cursor is the last of them, and the retained events are
    exactly the last ones up to the configured capacity. *)
Theorem aggregate_numbered_window cfg h a :
  history cfg h a →
  (∀ i e, h !! i = Some e → event_num e = N.of_nat (i + 1)) ∧
  last h = Some (last_event a) ∧
  recent_events a =
    (if retain_all_events cfg then h
     else drop (length h - N.to_nat (recent_event_capacity cfg)) h).
Proof.
  intros Hh. destruct (history_cursor _ _ _ Hh) as (Hnum & Hlast & _).
  split; [|split; [done|by eapply history_window]]. intros i e Hi. by apply (Hnum i e).
Qed.

(** A page after a cursor is exactly the events
    that follow it, up to the page size, whenever the window still holds all
    of them; it is empty at the end, and refused for a cursor beyond the end
    or before the window. *)
Theorem aggregate_retained_page cfg h a (n : u64) max :
  history cfg h a →
  retained_event_page_after a n max =
    if decide (length h < N.to_nat (raw n)) then None
    else if decide (N.to_nat (raw n) = length h) then Some []
    else if decide (retained_from cfg h ≤ N.to_nat (raw n))
    then Some (take (N.to_nat max) (drop (N.to_nat (raw n)) h))
    else None.
Proof. apply retained_page. Qed.

(** Replaying a complete retained history
    rebuilds the very same aggregate. *)
Theorem aggregate_replay_roundtrip cfg h a :
  history cfg h a → retain_all_events cfg = true →
  replay_with_config (recent_events a) cfg = Ok a.
Proof.
  intros Hh Hall. rewrite (history_window _ _ _ Hh). unfold window. rewrite Hall.
  by apply history_replay.
Qed.

(** A replay that succeeds yields an aggregate with
    a history, a subsequence of the replayed events (retries dropped). *)
Theorem aggregate_replay_sound cfg events a :
  Forall event_wf events → replay_with_config events cfg = Ok a →
  ∃ h, history cfg h a ∧ h `sublist_of` events.
Proof. apply replay_history. Qed.

(** The plan and progress revisions accepted
    over a history strictly increase. *)
Theorem aggregate_revisions_increase cfg h a :
  history cfg h a →
  StronglySorted (λ p q, (counter_num (plan_revision p) < counter_num (plan_revision q))%N)
    (omap plan_of h) ∧
  StronglySorted (λ p q, (counter_num (progress_revision p) < counter_num (progress_revision q))%N)
    (omap progress_of h).
Proof.
  induction 1 as [e a Hwf Hinit|h a e a' Hh [IHp IHg] Hwf Happ].
  - apply from_initial_Ok in Hinit as (_ & s & Hs & _). simpl.
    unfold plan_of, progress_of. rewrite Hs. split; constructor.
  - destruct (history_latest _ _ _ Hh) as (Hp & Hg & _).
    apply apply_Applied in Happ as (_ & a1 & Hpay & _).
    apply apply_payload_fields in Hpay as (_ & _ & _ & Hpr & Hgr).
    rewrite !omap_app. cbn [omap list_omap]. split.
    + destruct (plan_of e) as [p|]; simpl; [|by rewrite app_nil_r].
      apply sorted_snoc; [intros ? ? ? ? ?; lia|done|]. rewrite <-Hp. intros p' Hp'. by apply (Hpr p p').
    + destruct (progress_of e) as [p|]; simpl; [|by rewrite app_nil_r].
      apply sorted_snoc; [intros ? ? ? ? ?; lia|done|]. rewrite <-Hg. intros p' Hp'. by apply (Hgr p p').
Qed.
End aggregate.

Lemma aggregate_cursor_protocol_witness :
  snd (apply event_2 aggregate_3) ≠ Err SequenceExhausted ∧
  apply event_2 aggregate_3 =
    (aggregate_3, Err (StaleSequence (last_sequence aggregate_3) (event_sequence event_2))).
Proof. exact (aggregate_cursor_protocol aggregate_3 event_2 eq_refl). Defined.

Lemma aggregate_history_invariant_witness : aggregate_inv aggregate_3.
Proof. exact (aggregate_history_invariant _ _ _ history_3). Defined.

Lemma aggregate_refines_history_witness :
  plan aggregate_3 = None ∧
  open_in (λ e, match request_of e with
                | Some r' => if bool_decide (request_id r' = request_id request_1) then Some r' else None
                | None => None end) (ends_interaction (request_id request_1))
    [event_1; event_2; event_3] request_1.
Proof.
  destruct (aggregate_refines_history _ _ _ history_3) as ((Hplan & _) & Hpend & _). split.
  - exact Hplan.
  - apply Hpend. by_evaluation.
Defined.

Lemma aggregate_session_refines_history_witness :
  session_state (session aggregate_3) = State_WaitingForInteraction.
Proof.
  destruct (aggregate_session_refines_history _ _ _ _ example_session history_3 eq_refl)
    as (_ & _ & Hst & _). exact Hst.
Defined.

Lemma aggregate_numbered_window_witness :
  recent_events aggregate_3 = [event_1; event_2; event_3].
Proof. exact (proj2 (proj2 (aggregate_numbered_window _ _ _ history_3))). Defined.

Lemma aggregate_retained_page_witness :
  retained_event_page_after aggregate_3 (Refine 1%N I) 1 = Some [event_2].
Proof. exact (aggregate_retained_page _ _ _ (Refine 1%N I) 1 history_3). Defined.

Lemma aggregate_replay_roundtrip_witness :
  replay_with_config (recent_events aggregate_3) SessionAggregateConfig_retain_all = Ok aggregate_3.
Proof. exact (aggregate_replay_roundtrip _ _ _ history_3 eq_refl). Defined.

Lemma aggregate_replay_sound_witness :
  ∃ h, history SessionAggregateConfig_retain_all h aggregate_1 ∧ h `sublist_of` [event_1].
Proof.
  apply (aggregate_replay_sound SessionAggregateConfig_retain_all [event_1] aggregate_1).
  - apply Forall_singleton, event_1_wf.
  - reflexivity.
Defined.

Lemma aggregate_revisions_increase_witness :
  StronglySorted (λ p q, (counter_num (plan_revision p) < counter_num (plan_revision q))%N)
    (omap plan_of [event_1; event_2; event_3]).
Proof. exact (proj1 (aggregate_revisions_increase _ _ _ history_3)). Defined.

(** ** Interactions and routing *)

Section routing.
Context `{Externals}.

(** A response to any actionable request: the first option of a choice, the
    first option or a text for each field of a form. *)
Definition some_text : NonEmptyText := Refine (lit "ok") I.
Definition some_answer (f : FormField) : FormAnswer :=
  MkFormAnswer (field_id f)
    match field_options f with
    | o :: _ => Answer_Choice (choice_option_id o)
    | [] => Answer_Text some_text
    end.
Definition some_payload (p : InteractionRequestPayload) : option InteractionResponsePayload :=
  match p with
  | Request_Approval r =>
      (λ o, Response_Approval (MkApprovalSelection (approval_option_id o))) <$> head (approval_options r)
  | Request_Choice r =>
      (λ o, Response_Choice (MkChoiceSelection [choice_option_id o])) <$> head (choice_options r)
  | Request_Text _ => Some (Response_Text some_text)
  | Request_Form r => Some (Response_Form (MkFormResponse (some_answer <$> form_fields r)))
  end.

Lemma some_answer_acceptable f : form_field_wf f → answer_acceptable f (answer_value (some_answer f)).
Proof.
  intros [_ Hother]. unfold some_answer. simpl. destruct (field_options f) as [|o os] eqn:E; simpl.
  - by apply Hother.
  - rewrite E. left.
Qed.

Lemma some_payload_answers p :
  request_payload_wf p → request_is_actionable p = true →
  ∃ r, some_payload p = Some r ∧ response_payload_wf r ∧ answers_payload p r.
Proof.
  intros Hwf Hact. destruct p as [r|r|r|r]; simpl in *.
  - unfold approval_is_actionable in Hact. destruct (approval_options r) as [|o os] eqn:E; [done|].
    eexists. split_and!; [done..|]. simpl. rewrite ?E. left.
  - destruct Hwf as [Hne _]. destruct (choice_options r) as [|o os] eqn:E; [done|].
    eexists. split; [done|]. split; [split; [done|apply NoDup_singleton]|]. simpl. rewrite ?E.
    split; [done|]. intros o' ->%list_elem_of_singleton. left.
  - eexists. by split_and!.
  - destruct Hwf as (Hne & Hnd & Hall). eexists. split; [done|]. simpl.
    assert (answer_field_id <$> (some_answer <$> form_fields r) = field_id <$> form_fields r) as Hids.
    { by rewrite <-list_fmap_compose. }
    unfold form_response_wf. simpl. rewrite Hids. split_and!; [|done|done|].
    + by destruct (form_fields r).
    + intros f answer Hf (f' & -> & Hf')%list_elem_of_fmap Heq. simpl in Heq.
      rewrite Forall_forall in Hall.
      assert (f' = f) as ->; [|by apply some_answer_acceptable, Hall].
      apply list_elem_of_lookup in Hf as [i Hi], Hf' as [j Hj].
      assert (j = i) as ->; [|congruence].
      apply (NoDup_lookup (field_id <$> form_fields r) j i (field_id f)); [done|..];
        rewrite list_lookup_fmap; [by rewrite Hj; simpl; f_equal|by rewrite Hi].
Qed.

(** C35: a response passes validation exactly when it
    answers the request: same request and session, within the time window,
    an offered option, or a form answer for every field, in any order, of the
    kind that field allows. *)
Theorem response_validation_exact request response :
  request_wf request → response_wf response →
  validate_response request response = Ok () ↔ answers_request request response.
Proof. apply validate_response_Ok. Qed.

(** C23: a request is routed as interactive exactly when
    some response from that channel would be accepted; a read-only route
    means that none would. *)
Theorem interaction_route_exact provider channel session request route :
  request_wf request → interaction_route provider channel session request = Ok route →
  route = Interactive ↔
  ∃ response, response_wf response ∧
    validate_interaction_response provider channel session request response = Ok ().
Proof.
  intros Hwf (Hp & Hs & Hreq & ->)%interaction_route_Ok. split.
  - destruct (request_is_actionable (request_payload request)) eqn:Hact; [|done].
    destruct (contains _ (request_provider_response_capability _)) eqn:Hresp; [|done].
    destruct (contains _ (request_channel_response_capability _)) eqn:Hchan; [|done]. intros _.
    destruct (some_payload_answers (request_payload request) (proj1 Hwf) Hact)
      as (p & _ & Hpwf & Hans).
    exists (MkInteractionResponse (request_id request) (request_session_id request)
              (channel_id channel) (request_requested_at request) p).
    split; [done|]. apply validate_interaction_response_Ok. split_and!; try done.
    apply validate_response_Ok; [done..|]. split_and!; try done.
    intros t Ht. destruct Hwf as [_ Hexp]. specialize (Hexp t Ht). simpl. lia.
  - intros (response & _ & Hv). apply validate_interaction_response_Ok in Hv
      as (_ & _ & _ & _ & Hv & _ & -> & ->).
    apply validate_response_payload in Hv as (_ & _ & Hv).
    by rewrite (validate_payload_actionable _ _ Hv).
Qed.

(** Once the Provider may publish an event in a session,
    every channel has a route for it; routing cannot fail half way. *)
Theorem event_routes_total provider session event :
  event_wf event → validate_provider_event provider session event = Ok () →
  ∀ channel, ∃ route, channel_event_route provider channel session event = Ok route ∧
    (route = ObserveOnly ↔ ∀ r, event_payload event ≠ InteractionRequested r).
Proof.
  intros Hwf Hv channel. destruct (channel_event_route_total provider channel session event Hwf Hv)
    as [route Hr]. exists route. split; [done|].
  unfold channel_event_route in Hr. rewrite Hv in Hr. simpl in Hr.
  destruct (event_payload event) eqn:Ep; simplify_eq; try (by split).
  destruct (interaction_route _ _ _ _); simplify_eq/=. split; [done|]. naive_solver.
Qed.
End routing.

Lemma response_validation_exact_witness : answers_request request_1 response_1.
Proof.
  apply (response_validation_exact request_1 response_1); [apply request_1_wf|done|by_evaluation].
Defined.

Lemma interaction_route_exact_witness :
  ∃ response, response_wf response ∧
    validate_interaction_response provider_descriptor_1 (channel_descriptor channel_1)
      example_session request_1 response = Ok ().
Proof.
  apply (interaction_route_exact provider_descriptor_1 (channel_descriptor channel_1)
           example_session request_1 Interactive); [apply request_1_wf|by_evaluation|done].
Defined.

Lemma event_routes_total_witness :
  ∃ route, channel_event_route provider_descriptor_1 (channel_descriptor channel_1)
    example_session event_2 = Ok route.
Proof.
  destruct (event_routes_total provider_descriptor_1 example_session event_2 event_2_wf
              ltac:(by_evaluation) (channel_descriptor channel_1)) as (route & Hr & _).
  exists route. exact Hr.
Defined.

(** ** Value objects *)

Section values.
Context `{Externals}.

(** [contains] is inclusion of the declared flags,
    a union is the least set containing both, and no operation yields a bit
    outside the declared flags. *)
Theorem capabilities_subset_order {f} (a b c : Capabilities f) :
  (contains a b = true ↔
     ∀ i, (i < flag_count f)%N → N.testbit (bits b) i = true → N.testbit (bits a) i = true) ∧
  (contains c (union a b) = contains c a && contains c b) ∧
  (contains a b = true → contains b a = true → a = b) ∧
  (∀ i, (flag_count f ≤ i)%N → N.testbit (bits (union a b)) i = false).
Proof.
  split_and!.
  - apply contains_testbit.
  - apply contains_union_r.
  - rewrite !contains_testbit. intros Hab Hba. apply capabilities_eq, N.bits_inj. intros i.
    destruct (N.lt_ge_cases i (flag_count f)) as [Hi|Hi].
    + apply eq_true_iff_eq. naive_solver.
    + by rewrite !declared_bits_high.
  - intros i Hi. by apply declared_bits_high.
Qed.

(** An identifier is accepted exactly for version 7
    UUIDs, a text exactly when some character is not white space, a kind
    exactly for its slug alphabet, and a counter exactly when not zero;
    accepted values are kept as given. *)
Theorem value_constructors_exact (e : Entity) (u : Uuid) (s : rstring) (k : KindFamily)
    (c : CounterFamily) (n : u64) :
  (is_ok (try_from_uuid e u) = true ↔ get_version_num u = 7%N) ∧
  (is_ok (NonEmptyText_new s) = true ↔ forallb is_whitespace s = false) ∧
  (is_ok (Kind_new k s) = true ↔ valid_kind s = true) ∧
  (is_ok (Counter_new c n) = true ↔ raw n ≠ 0%N) ∧
  (∀ i, try_from_uuid e u = Ok i → as_uuid i = u) ∧
  (∀ t, NonEmptyText_new s = Ok t → raw t = s) ∧
  (∀ m, Counter_new c n = Ok m → counter_get m = n).
Proof.
  pose proof (try_from_uuid_spec e u) as Hu. pose proof (nonblank_new_spec "text" s) as Hs.
  unfold NonEmptyText_new, Kind_new, Counter_new. split_and!.
  - destruct (try_from_uuid e u); naive_solver.
  - destruct (nonblank_new "text" s); simpl; naive_solver congruence.
  - destruct (of_raw s) as [v|] eqn:E; simpl.
    + apply of_raw_Some in E as <-. pose proof (raw_ok v) as Hv. apply Is_true_true in Hv. done.
    + apply of_raw_None in E. by rewrite E.
  - destruct (nonzero_new n) as [v|] eqn:E; simpl.
    + split; [|done]. intros _ Hz. apply nonzero_new_None in Hz. congruence.
    + apply nonzero_new_None in E. by rewrite E.
  - intros i Hi. rewrite Hi in Hu. by destruct Hu.
  - intros t Ht. rewrite Ht in Hs. by destruct Hs.
  - intros m Hm. apply ok_or_Ok, fmap_Some in Hm as (v & Hv & ->).
    apply of_raw_Some in Hv. by apply refined_eq.
Qed.

(** Advancing a revision or a sequence adds one, and
    refuses at the largest 64-bit value instead of wrapping around. *)
Theorem counter_never_wraps {c} (n : Counter c) :
  match checked_next n with
  | Some m => counter_num m = (counter_num n + 1)%N ∧ (counter_num m ≤ u64_max)%N
  | None => counter_num n = u64_max
  end.
Proof.
  destruct (checked_next n) as [m|] eqn:E.
  - apply checked_next_Some in E. split; [done|]. apply counter_bound.
  - by apply checked_next_None in E.
Qed.
End values.
