(* ===== verification/BridgeTheorems.v ===== *)
(** * Theorems on the Bridge

    The invariant of every reachable Bridge and the contracts of its
    operations, for arbitrary adapters. *)

From stdpp Require Import base strings numbers sorting relations gmap list.
From S2P Require Import Prelude Values Snapshots Capability Interaction Event Aggregate.
From S2P Require Import AggregateSpec Routing Bridge BridgeSpec Examples.

Section bridge.
Context `{Externals}.
Implicit Types (b : Bridge) (e : AgentEvent).

(** C2: in every Bridge reached by any sequence of operations,
    successful or not, endpoints are filed under their own identity, every
    stored session was reduced from a history of events that its registered
    Provider was entitled to publish, and subscriptions are non-empty and
    connect registered Channels with started sessions. *)
Theorem bridge_invariant cfg b : reachable_bridge cfg b → bridge_inv b.
Proof. apply reachable_bridge_inv. Qed.

(** C34: a published event is rejected without any effect,
    recognised as a retry without any effect, or applied; failing Channels
    are the only error of an applied event, and a missing subscriber is never
    reported. *)
Theorem provider_event_contract cfg pid e b :
  reachable_bridge cfg b → event_wf e →
  match handle_provider_event pid e b with
  | (b', Ok report) =>
      has_failures report = false ∧
      match report_outcome report with
      | Event_AlreadyApplied => b' = b ∧ report_deliveries report = []
      | Event_Applied => ∃ a', reduces b e a' ∧ sessions b' !! event_session_id e = Some a'
      end
  | (b', Err (ChannelHandoffs report)) =>
      has_failures report = true ∧ report_outcome report = Event_Applied ∧
      ∃ a', reduces b e a' ∧ sessions b' !! event_session_id e = Some a'
  | (b', Err err) => b' = b ∧ ∀ cid, err ≠ Event_ChannelNotFound cid
  end.
Proof.
  intros Hr%reachable_bridge_inv Hwf. destruct (handle_provider_event pid e b) as [b' r] eqn:E.
  apply handle_provider_event_inv in E as
    [(-> & err & -> & Hrej)|[(-> & -> & _)|(p & s & routes & a' & _ & _ & _ & _ & Hred & -> & ->)]];
    [by destruct err|done| |done|done].
  unfold report_result. destruct (has_failures _) eqn:Ef; simpl; split_and!; try done;
    exists a'; (split; [done|]); simpl; by rewrite lookup_insert_eq.
Qed.

(** C20: an applied event is offered to every subscriber of its
    session exactly once, in Channel-ID order, whether or not others fail;
    each one is handed the event with its own route and, when it shows
    sessions and took the event, the session as it is after the event; the
    report lists the subscribers in that order, and nobody else is called. *)
Theorem fanout_contract cfg pid e b b' r report :
  reachable_bridge cfg b → event_wf e →
  handle_provider_event pid e b = (b', r) →
  (r = Ok report ∨ r = Err (ChannelHandoffs report)) → report_outcome report = Event_Applied →
  delivery_channel_id <$> report_deliveries report = session_subscribers b (event_session_id e) ∧
  StronglySorted rank_lt (session_subscribers b (event_session_id e)) ∧
  (providers b' = providers b ∧ subscriptions b' = subscriptions b ∧
   ∀ sid, sid ≠ event_session_id e → sessions b' !! sid = sessions b !! sid) ∧
  ∃ p s a', providers b !! pid = Some p ∧ routing_session_of b e = Ok s ∧
    sessions b' !! event_session_id e = Some a' ∧
    ∀ cid c, channels b !! cid = Some c →
      ∃ c', channels b' !! cid = Some c' ∧
        registered_channel_descriptor c' = registered_channel_descriptor c ∧
        if is_subscribed b cid (event_session_id e) then
          ∃ route, channel_event_route (registered_provider_descriptor p)
                     (registered_channel_descriptor c) s e = Ok route ∧
            registered_channel_calls c' =
              registered_channel_calls c ++ fanout_calls e route (session a') c
        else c' = c.
Proof.
  intros Hinv%reachable_bridge_inv Hwf E Hrep Happ.
  apply handle_provider_event_inv in E as
    [(-> & err & -> & Hrej)|[(-> & -> & _)|(p & s & routes & a' & Hp & Hs & _ & Hroutes & _ & -> & ->)]];
    [| | |done|done].
  - destruct Hrep as [?|[= ->]]; done.
  - destruct Hrep as [[= <-]|?]; done.
  - destruct (accepted_event_fanout _ _ _ _ _ a' Hinv Hroutes) as [Hids Hchan].
    assert (report = MkReport Event_Applied (delivery_results e (session_view_for routes a') routes b))
      as ->.
    { unfold report_result in Hrep. destruct (has_failures _); naive_solver. }
    split_and!; [done|apply session_subscribers_sorted|done|done| |].
    + intros sid Hne. simpl. by rewrite lookup_insert_ne.
    + exists p, s, a'. split_and!; [done|done|simpl; by rewrite lookup_insert_eq|exact Hchan].
Qed.

(** C37: a response reaches a Provider only if the
    sending Channel is subscribed to the session, the request is pending and
    the response validates against it; then the owning Provider gets exactly
    that one call, and nothing else in the Bridge changes.  Otherwise nothing
    changes at all. *)
Theorem interaction_response_contract cid response b :
  match handle_interaction_response cid response b with
  | (b', r) =>
      (b' = b ∧ ∃ err, r = Err err) ∨
      ∃ c a p request, channels b !! cid = Some c ∧
        sessions b !! response_session_id response = Some a ∧
        providers b !! session_provider_id (session a) = Some p ∧
        is_subscribed b cid (response_session_id response) = true ∧
        pending_interactions a !! response_request_id response = Some request ∧
        validate_interaction_response (registered_provider_descriptor p)
          (registered_channel_descriptor c) (session a) request response = Ok () ∧
        b' = set_providers
               (<[session_provider_id (session a) :=
                    MkRegisteredProvider (registered_provider_descriptor p)
                      (registered_provider_port p)
                      (registered_provider_calls p ++ [AcceptInteractionResponse response])]>
                  (providers b)) b ∧
        (r = Ok () ∨ ∃ source,
           r = Err (ProviderHandoff (session_provider_id (session a)) Handoff_InteractionResponse source))
  end.
Proof.
  destruct (handle_interaction_response cid response b) as [b' r] eqn:E.
  apply handle_interaction_response_inv in E as [?|(c & a & p & request & ? & ? & ? & ? & ? & ? & -> & ->)];
    [by left|right]. exists c, a, p, request. split_and!; try done.
  destruct (provider_handoff _ _).2 as [[]|source]; simpl; eauto.
Qed.

(** A command reaches a Provider only from a Channel that is
    subscribed to the session and only if both sides declared what the
    command needs; then the owning Provider gets exactly that one call. *)
Theorem command_contract cid command b :
  match handle_command cid command b with
  | (b', r) =>
      (b' = b ∧ ∃ err, r = Err err) ∨
      ∃ c a p, channels b !! cid = Some c ∧
        sessions b !! command_session_id command = Some a ∧
        providers b !! session_provider_id (session a) = Some p ∧
        is_subscribed b cid (command_session_id command) = true ∧
        command_channel_id command = channel_id (registered_channel_descriptor c) ∧
        contains (provider_capabilities (registered_provider_descriptor p))
          (command_provider_capability (command_payload command)) = true ∧
        contains (channel_capabilities (registered_channel_descriptor c))
          (command_channel_capabilities (command_payload command)) = true ∧
        b' = set_providers
               (<[session_provider_id (session a) :=
                    MkRegisteredProvider (registered_provider_descriptor p)
                      (registered_provider_port p)
                      (registered_provider_calls p ++ [AcceptCommand command])]>
                  (providers b)) b
  end.
Proof.
  destruct (handle_command cid command b) as [b' r] eqn:E.
  apply handle_command_inv in E as [?|(c & a & p & ? & ? & ? & ? & Hv & -> & ->)]; [by left|right].
  apply validate_command_Ok in Hv as (_ & _ & ? & ? & ?). exists c, a, p. by split_and!.
Qed.

(** A subscribed Channel can always be
    matched with its session and the session's Provider, so the lookups that
    follow the subscription check never fail in a reachable Bridge. *)
Theorem action_lookup_errors_unreachable cfg cid sid b :
  reachable_bridge cfg b → is_subscribed b cid sid = true →
  ∃ c a p, channels b !! cid = Some c ∧ channel_id (registered_channel_descriptor c) = cid ∧
    sessions b !! sid = Some a ∧ session_id (session a) = sid ∧
    providers b !! session_provider_id (session a) = Some p ∧
    provider_id (registered_provider_descriptor p) = session_provider_id (session a).
Proof.
  intros Hinv%reachable_bridge_inv Hsub.
  destruct (is_subscribed_registered _ _ _ Hinv Hsub) as [[c Hc] [a Ha]].
  destruct (inv_sessions _ Hinv _ _ Ha) as (Hid & h & p & _ & Hp & _).
  exists c, a, p. split_and!; try done; [by apply (inv_channels _ Hinv)|by apply (inv_providers _ Hinv)].
Qed.
End bridge.

Lemma bridge_invariant_witness : bridge_inv bridge_subscribed.
Proof. exact (bridge_invariant _ _ bridge_subscribed_reachable). Defined.

Lemma provider_event_contract_witness :
  match handle_provider_event provider_1 event_3 bridge_setup with
  | (b', Ok report) =>
      has_failures report = false ∧
      match report_outcome report with
      | Event_AlreadyApplied => b' = bridge_setup ∧ report_deliveries report = []
      | Event_Applied => ∃ a', reduces bridge_setup event_3 a' ∧
                               sessions b' !! event_session_id event_3 = Some a'
      end
  | (b', Err (ChannelHandoffs report)) =>
      has_failures report = true ∧ report_outcome report = Event_Applied ∧
      ∃ a', reduces bridge_setup event_3 a' ∧ sessions b' !! event_session_id event_3 = Some a'
  | (b', Err err) => b' = bridge_setup ∧ ∀ cid, err ≠ Event_ChannelNotFound cid
  end.
Proof.
  exact (provider_event_contract _ provider_1 event_3 bridge_setup bridge_setup_reachable event_3_wf).
Defined.

(** The second channel refuses the event; both are reported. *)
Definition fanout_example_report : ProviderEventReport :=
  MkReport Event_Applied
    [Delivered channel_1;
     Failed (MkChannelDeliveryError channel_2 Delivery_Event (lit "closed"))].

Lemma fanout_contract_witness :
  delivery_channel_id <$> report_deliveries fanout_example_report =
    session_subscribers bridge_subscribed session_1.
Proof.
  refine (proj1 (fanout_contract _ provider_1 event_3 bridge_subscribed bridge_pending
    (Err (ChannelHandoffs fanout_example_report)) fanout_example_report bridge_subscribed_reachable
    event_3_wf _ (or_intror eq_refl) eq_refl)).
  unfold bridge_pending. rewrite (surjective_pairing (handle_provider_event _ _ _)) at 1.
  f_equal.
Defined.

Lemma action_lookup_errors_unreachable_witness :
  ∃ c, channels bridge_subscribed !! channel_1 = Some c ∧
       channel_id (registered_channel_descriptor c) = channel_1.
Proof.
  destruct (action_lookup_errors_unreachable _ channel_1 session_1 bridge_subscribed
    bridge_subscribed_reachable ltac:(by_evaluation)) as (c & _ & _ & Hc & Hid & _).
  exists c. split; [exact Hc|exact Hid].
Defined.

(** ** Subscriptions and catch-up *)

Section subscriptions.
Context `{Externals}.
Implicit Types (b : Bridge).

Lemma is_subscribed_add_iff sid cid b c s :
  is_subscribed (add_subscription sid cid b) c s =
  is_subscribed b c s || (bool_decide (c = cid) && bool_decide (s = sid)).
Proof.
  unfold is_subscribed, add_subscription. simpl. destruct (decide (s = sid)) as [->|Hne].
  - rewrite lookup_insert_eq, (bool_decide_eq_true_2 (sid = sid)), andb_true_r by done.
    destruct (subscriptions b !! sid) as [subs|]; simpl; apply eq_true_iff_eq;
      rewrite ?orb_true_iff, !bool_decide_eq_true; set_solver.
  - rewrite lookup_insert_ne, (bool_decide_eq_false_2 (s = sid)), andb_false_r, orb_false_r by done.
    done.
Qed.

(** A subscription succeeds, or is refused and adds
    nothing: afterwards the Channel is subscribed exactly if it was before or
    the call succeeded, and no other subscription changes.  A session-viewing
    Channel has first accepted the current session, its sequence and every
    pending request.  Routing a pending request never fails. *)
Theorem subscribe_contract cfg cid sid b :
  reachable_bridge cfg b →
  let '(b', r) := subscribe cid sid b in
  (∀ c s, is_subscribed b' c s =
     is_subscribed b c s || (bool_decide (c = cid) && bool_decide (s = sid) && is_ok r)) ∧
  (sessions b' = sessions b ∧ providers b' = providers b) ∧
  (∀ err, r ≠ Err (BaselineRoute err)) ∧
  (∀ n k, r = Ok (Subscribed true n k) →
     ∃ c a baseline, channels b !! cid = Some c ∧ sessions b !! sid = Some a ∧
       channels b' !! cid = Some (channel_handoff c (DeliverSessionBaseline baseline)).1 ∧
       (channel_handoff c (DeliverSessionBaseline baseline)).2 = Ok () ∧
       baseline_session baseline = session a ∧ baseline_sequence baseline = last_sequence a ∧
       routed_request <$> baseline_pending_interactions baseline =
         btree_values (pending_interactions a)).
Proof.
  intros Hinv%reachable_bridge_inv. destruct (subscribe cid sid b) as [b' r] eqn:E.
  pose proof (subscribe_inv _ _ _ _ _ E) as Hcases.
  assert (∀ err, r ≠ Err (BaselineRoute err)) as Hnoroute.
  { intros err ->. unfold subscribe in E. unfold_act.
    destruct (channels b !! cid) as [c|] eqn:Ec; simpl in E; [|done].
    destruct (sessions b !! sid) as [a|] eqn:Ea; simpl in E; [|done].
    destruct (is_subscribed b cid sid); [done|].
    destruct (inv_sessions _ Hinv _ _ Ea) as (_ & h & p & Hh & Hp & Hall).
    rewrite Hp in E. simpl in E.
    destruct (route_pending_total _ _ _ (registered_provider_descriptor p)
      (registered_channel_descriptor c) Hh (inv_providers _ Hinv _ _ Hp) Hall) as (pend & Hpend & _).
    rewrite Hpend in E. simpl in E. destruct (contains _ _); simpl in E; [|done].
    by destruct (channel_port_accept _ _ _) as [[]|]. }
  destruct Hcases as [[-> [err ->]]|[(-> & Hsub & a & Ha & ->)|(c & a & p & pending & Hc & Ha & Hp & Hsub & Hpend & Hres)]].
  - split_and!; try done. intros c s. simpl. by rewrite andb_false_r, orb_false_r.
  - split_and!; try done. intros c s. simpl. rewrite andb_true_r.
    destruct (bool_decide_reflect (c = cid)) as [->|]; simpl; [|by rewrite orb_false_r].
    destruct (bool_decide_reflect (s = sid)) as [->|]; simpl; [by rewrite Hsub|by rewrite orb_false_r].
  - cbv zeta in Hres. set (baseline := MkBaseline (session a) (last_sequence a) pending) in *.
    destruct (inv_sessions _ Hinv _ _ Ha) as (_ & h & p' & Hh & Hp' & Hall). simplify_eq.
    destruct (route_pending_total _ _ _ (registered_provider_descriptor p)
      (registered_channel_descriptor c) Hh (inv_providers _ Hinv _ _ Hp) Hall) as (pend & Hpend' & Hreq).
    rewrite Hpend in Hpend'. injection Hpend' as <-.
    destruct (contains _ _); [|destruct Hres as [-> ->]; split_and!; try done; intros; simpl;
      by rewrite is_subscribed_add_iff, andb_true_r].
    destruct (channel_handoff c (DeliverSessionBaseline baseline)).2 as [[]|source] eqn:Eh;
      destruct Hres as [-> ->]; split_and!; try done.
    + intros c0 s0. rewrite is_subscribed_add_iff. simpl. by rewrite andb_true_r.
    + intros n k _. exists c, a, baseline. split_and!; try done.
      simpl. by rewrite lookup_insert_eq.
    + intros c0 s0. simpl. by rewrite andb_false_r, orb_false_r.
Qed.

(** C18: a client that asks for the events after its cursor and
    goes on from where each page ends receives the rest of the retained
    history, each event once and in order, and is subscribed at the end.  It
    needs at most one page per missing event and one more.  A cursor the
    Bridge cannot serve restarts the client from the beginning. *)
Theorem catch_up_complete cfg b cid sid c a h p after max from reset fuel :
  reachable_bridge cfg b → channels b !! cid = Some c → accepts_all c →
  sessions b !! sid = Some a → session_history b a h p →
  is_subscribed b cid sid = false → max ≠ 0%N →
  page_start (session_config b) h after = Some (from, reset) →
  length h - N.to_nat (raw from) ≤ fuel →
  (raw from = if reset then 0%N else raw after) ∧
  ∃ b' c' pages, catch_up fuel cid sid after max b = (b', Ok true) ∧
    channels b' !! cid = Some c' ∧
    registered_channel_calls c' = registered_channel_calls c ++ pages ∧
    pages_of pages = drop (N.to_nat (raw from)) h ∧
    is_subscribed b' cid sid = true ∧ sessions b' = sessions b ∧ providers b' = providers b.
Proof.
  intros Hinv%reachable_bridge_inv Hc Hacc Ha Hh Hsub Hmax Hpage Hfuel. split.
  - unfold page_start in Hpage. by repeat case_decide; simplify_eq.
  - by eapply catch_up_spec.
Qed.

(** The only reason a catch-up page of a stored
    session can be refused is that the requested events left the window and
    the window no longer reaches back to the beginning. *)
Theorem sync_history_unavailable cfg b cid c sid a h p after max :
  reachable_bridge cfg b → channels b !! cid = Some c → sessions b !! sid = Some a →
  session_history b a h p → is_subscribed b cid sid = false → max ≠ 0%N →
  page_start (session_config b) h after = None →
  sync_session cid sid after max b = (b, Err (history_unavailable cid)) ∧
  0 < retained_from (session_config b) h.
Proof.
  intros Hinv%reachable_bridge_inv Hc Ha (Hh & Hp & Hall) Hsub Hmax Hpage. split.
  - unfold sync_session. destruct (N.eqb_spec max 0); [done|]. unfold_act.
    rewrite Hc. simpl. rewrite Ha. simpl. rewrite Hsub, Hp. simpl.
    pose proof (prepare_sync_spec _ _ _ cid (registered_channel_descriptor c)
      (registered_provider_descriptor p) after max Hh (inv_providers _ Hinv _ _ Hp) Hall) as Hprep.
    rewrite Hpage in Hprep. by rewrite Hprep.
  - unfold page_start in Hpage. repeat case_decide; simplify_eq. lia.
Qed.

(** Unsubscribing removes exactly the one subscription, and
    tells whether it existed. *)
Theorem unsubscribe_exact cid sid b b' o :
  unsubscribe cid sid b = (b', Ok o) →
  (∀ c s, is_subscribed b' c s =
     is_subscribed b c s && negb (bool_decide (c = cid) && bool_decide (s = sid))) ∧
  (o = Unsubscribed ↔ is_subscribed b cid sid = true) ∧
  sessions b' = sessions b ∧ providers b' = providers b ∧ channels b' = channels b.
Proof.
  intros Hrun. pose proof (unsubscribe_removes _ _ _ _ _ Hrun) as Hsub.
  apply unsubscribe_inv in Hrun as [[_ [err ?]]|(_ & _ & [= ->] & subs & -> & _)]; [done|].
  split_and!; try done.
  - destruct (is_subscribed b cid sid); naive_solver.
Qed.

(** Clearing a Channel removes its subscriptions
    and no others, and returns how many sessions it was subscribed to. *)
Theorem unsubscribe_channel_exact cid b b' n :
  unsubscribe_channel cid b = (b', Ok n) →
  (∀ c s, is_subscribed b' c s = is_subscribed b c s && negb (bool_decide (c = cid))) ∧
  (∀ l : list SessionId, NoDup l → (∀ s, s ∈ l ↔ is_subscribed b cid s = true) → n = length l) ∧
  sessions b' = sessions b ∧ providers b' = providers b ∧ channels b' = channels b.
Proof.
  unfold unsubscribe_channel. unfold_act. case_bool_decide; simpl; [|done]. intros [= <- <-].
  split_and!; try done.
  - intros c s. unfold is_subscribed. simpl. rewrite lookup_omap.
    destruct (subscriptions b !! s) as [subs|]; [|done]. simpl.
    case_bool_decide as Hempty; simpl; apply eq_true_iff_eq;
      rewrite andb_true_iff, negb_true_iff, ?bool_decide_eq_true, bool_decide_eq_false; set_solver.
  - intros l Hnd Hl.
    assert (dom (filter (λ '(_, s), cid ∈ s) (subscriptions b)) = list_to_set l) as Hdom.
    { apply set_eq. intros s. rewrite elem_of_dom, elem_of_list_to_set, Hl. unfold is_subscribed.
      rewrite <-not_eq_None_Some, map_lookup_filter_None.
      destruct (subscriptions b !! s) as [subs|]; simpl; [|naive_solver].
      rewrite bool_decide_eq_true. split.
      - intros Hn. destruct (decide (cid ∈ subs)); [done|]. destruct Hn. right. by intros ? [= <-].
      - intros Hin [?|Hn]; [done|]. by apply (Hn subs). }
    rewrite <-(size_dom (D:=gset SessionId)), Hdom. by apply size_list_to_set.
Qed.

(** Discovery lists every registered Provider and every
    started session once, each session with its current cursor. *)
Theorem discovery_exact b :
  (∀ d, d ∈ discovery_providers (discovery_snapshot b) ↔
     ∃ pid, bridge_provider_descriptor b pid = Some d) ∧
  (∀ d, d ∈ discovery_sessions (discovery_snapshot b) ↔
     ∃ sid a, sessions b !! sid = Some a ∧ d = MkDiscovered (session a) (last_sequence a)) ∧
  length (discovery_providers (discovery_snapshot b)) = size (providers b) ∧
  length (discovery_sessions (discovery_snapshot b)) = size (sessions b).
Proof.
  unfold discovery_snapshot, bridge_provider_descriptor. simpl. split_and!.
  - intros d. rewrite list_elem_of_fmap. setoid_rewrite elem_of_btree_values.
    setoid_rewrite fmap_Some. naive_solver.
  - intros d. rewrite list_elem_of_fmap. setoid_rewrite elem_of_btree_values. naive_solver.
  - by rewrite length_fmap, length_btree_values.
  - by rewrite length_fmap, length_btree_values.
Qed.
End subscriptions.

Lemma subscribe_contract_witness :
  is_subscribed (subscribe channel_1 session_1 bridge_setup).1 channel_1 session_1 =
  is_ok (subscribe channel_1 session_1 bridge_setup).2.
Proof.
  pose proof (subscribe_contract _ channel_1 session_1 bridge_setup bridge_setup_reachable) as Hc.
  rewrite (surjective_pairing (subscribe _ _ _)) in Hc. cbv beta iota in Hc.
  rewrite (proj1 Hc channel_1 session_1). by rewrite !bool_decide_eq_true_2.
Defined.

(** Pages of one event: both events arrive, over two pages. *)
Lemma catch_up_complete_witness :
  ∃ b' c' pages, catch_up 2 channel_1 session_1 u64_zero 1 bridge_setup = (b', Ok true) ∧
    channels b' !! channel_1 = Some c' ∧
    registered_channel_calls c' = registered_channel_calls channel_entry_1 ++ pages ∧
    pages_of pages = [event_1; event_2] ∧
    is_subscribed b' channel_1 session_1 = true ∧
    sessions b' = sessions bridge_setup ∧ providers b' = providers bridge_setup.
Proof.
  refine (proj2 (catch_up_complete _ bridge_setup channel_1 session_1 channel_entry_1 aggregate_2
    [event_1; event_2] provider_entry_1 u64_zero 1 u64_zero false 2 bridge_setup_reachable
    bridge_setup_channel _ bridge_setup_session bridge_setup_history _ _ _ _)); [done|..].
  - by_evaluation.
  - done.
  - reflexivity.
  - simpl. lia.
Defined.

(** Only the second event is kept, so a client without the first is refused. *)
Lemma sync_history_unavailable_witness :
  sync_session channel_1 session_1 u64_zero 1 bridge_small =
  (bridge_small, Err (history_unavailable channel_1)).
Proof.
  refine (proj1 (sync_history_unavailable _ bridge_small channel_1 channel_entry_1 session_1
    small_aggregate [event_1; event_2] provider_entry_1 u64_zero 1 bridge_small_reachable
    _ _ bridge_small_history _ _ _)); [reflexivity|reflexivity|by_evaluation|done|reflexivity].
Defined.

Lemma unsubscribe_exact_witness :
  is_subscribed (unsubscribe channel_1 session_1 bridge_subscribed).1 channel_2 session_1 =
  is_subscribed bridge_subscribed channel_2 session_1 && true.
Proof.
  refine (proj1 (unsubscribe_exact channel_1 session_1 bridge_subscribed
    (unsubscribe channel_1 session_1 bridge_subscribed).1 Unsubscribed _) channel_2 session_1).
  rewrite (surjective_pairing (unsubscribe _ _ _)) at 1. f_equal; by_evaluation.
Defined.

Lemma unsubscribe_channel_exact_witness :
  (∀ c s, is_subscribed (unsubscribe_channel channel_1 bridge_subscribed).1 c s =
     is_subscribed bridge_subscribed c s && negb (bool_decide (c = channel_1))) ∧
  1 = length [session_1].
Proof.
  edestruct (unsubscribe_channel_exact channel_1 bridge_subscribed
    (unsubscribe_channel channel_1 bridge_subscribed).1 1) as (Hsub & Hlen & _).
  { rewrite (surjective_pairing (unsubscribe_channel _ _)) at 1. f_equal; by_evaluation. }
  split; [exact Hsub|]. refine (Hlen [session_1] _ _).
  - apply NoDup_singleton.
  - intros s. rewrite list_elem_of_singleton. split; [intros ->; by_evaluation|].
    unfold is_subscribed.
    replace (subscriptions bridge_subscribed)
      with ({[session_1 := {[channel_1; channel_2]}]} : gmap SessionId (gset ChannelId)) by reflexivity.
    destruct (decide (s = session_1)); [done|]. by rewrite lookup_singleton_ne.
Defined.
