(* ===== verification/RuntimeTheorems.v ===== *)
(** * Theorems on the Runtime Host

    What holds in every Host reached by registrations, starts, stops and calls
    through handles, in any order and from any threads. *)

From stdpp Require Import base strings numbers sorting relations gmap list.
From S2P Require Import Prelude Values Snapshots Capability Interaction Event Aggregate.
From S2P Require Import AggregateSpec Routing Bridge BridgeSpec Runtime RuntimeSpec Examples.

Section host.
Context `{Externals}.
Implicit Types (w : RuntimeHost) (a : RegisteredAdapter).

(** C39: whatever the Sources do, the Bridge inside a
    reachable Host is one that Bridge operations alone reach, so the
    invariant of the Bridge holds, and no thread is left owning it. *)
Theorem host_refines_bridge cfg w :
  reachable_host cfg w →
  reachable_bridge cfg (shared_bridge (bridge w)) ∧ bridge_inv (shared_bridge (bridge w)) ∧
  shared_owner (bridge w) = None ∧
  (∀ a, a ∈ adapters w → registered (shared_bridge (bridge w)) (adapter_endpoint a)) ∧
  NoDup (adapter_endpoint <$> adapters w).
Proof.
  intros Hi%reachable_host_inv. pose proof (hi_endpoints _ _ Hi) as [Hnd Hreg].
  split_and!; [by apply hi_reach|by eapply host_inv_bridge|by eapply hi_owner|done|done].
Qed.

(** C13: an issued handle is active exactly while it is the
    latest one of an adapter that runs, and it carries that adapter's
    identity; so no handle is active in a Host that is not started.  The
    states of the adapters agree with the state of the Host. *)
Theorem active_handles_exact cfg w :
  reachable_host cfg w →
  (∀ n, permit_enter w n = true ↔
     ∃ a h, a ∈ adapters w ∧ adapter_state a = Adapter_Running ∧ adapter_permit a = Some n ∧
            handles w !! n = Some h ∧ handle_permit h = n ∧
            handle_endpoint h = adapter_endpoint a) ∧
  (host_alive w = true →
     states_match (host_state w) (adapters w) ∧ (host_state w ≠ Host_Started → all_inactive w)).
Proof.
  intros Hi%reachable_host_inv. split.
  - intros n. rewrite (hi_active _ _ Hi). split; [|naive_solver].
    intros (a & Hin & Hp & Hrun). destruct (hi_permits _ _ Hi _ _ Hin Hp) as (h & Hh & He).
    exists a, h. split_and!; try done. by apply (hi_handles _ _ Hi).
  - intros Hal. pose proof (hi_states _ _ Hi Hal) as Hst. split; [done|]. intros Hne.
    eapply host_inv_inactive; [done|]. intros a Hin Hrun.
    destruct (host_state w); [|done|destruct Hst as [Hst _]]; simpl in Hst;
      rewrite Forall_forall in Hst; specialize (Hst a Hin); simpl in Hst; intuition congruence.
Qed.

(** Once the permit of a handle is off, every later
    use of the handle, after any further steps of the Host including
    restarts, is refused and changes nothing. *)
Theorem revoked_handle_forever cfg w w' n h t :
  reachable_host cfg w → handles w !! n = Some h → permit_enter w n = false →
  rtc host_step w w' →
  (∀ call, call_handle call = n → run_call call w' = w') ∧
  match h with
  | Handle_Provider h => ∀ e,
      publish_event t h e w' =
      (w', Err (if host_alive w' then Provider_Inactive (handle_provider_id h)
                else Provider_HostDropped (handle_provider_id h)))
  | Handle_Channel h => ∀ A (operation : act Bridge ChannelActionIngressError A),
      with_bridge_access t h operation w' =
      (w', Err (if host_alive w' then Channel_Inactive (handle_channel_id h)
                else Channel_HostDropped (handle_channel_id h)))
  end.
Proof.
  intros Hreach Hn Hoff Hsteps. pose proof (reachable_host_inv _ _ Hreach) as Hi.
  assert (host_inv cfg w') as Hi'.
  { apply reachable_host_inv. unfold reachable_host in *. by etrans. }
  assert (permit_enter w' n = false) as Hoff'.
  { unfold permit_enter in *. destruct (permits w !! n) as [x|] eqn:E.
    - simpl in Hoff. subst x. by rewrite (host_steps_permits _ _ _ Hi Hsteps _ E).
    - apply lookup_lt_Some in Hn. apply lookup_ge_None_1 in E. rewrite (hi_length _ _ Hi) in Hn. lia. }
  pose proof (hi_handles _ _ Hi _ _ Hn) as Hperm. split.
  - intros call Hcall. apply run_call_inactive. intros h' Hh'. rewrite Hcall in Hh'.
    by rewrite (hi_handles _ _ Hi' _ _ Hh').
  - destruct h as [h|h]; simpl in Hperm; intros;
      unfold publish_event, with_bridge_access; unfold_act; rewrite Hperm, Hoff'; simpl;
      by destruct (host_alive w').
Qed.

(** A Channel is registered exactly if the Host is
    stopped and the identity is new; then it is filed in the Bridge under that
    identity and its adapter is added last, stopped and without a handle.
    Otherwise nothing changes and the error names the reason. *)
Theorem registration_contract cfg t port scope w :
  reachable_host cfg w →
  let cid := channel_id (channel_port_descriptor port) in
  let entry := channels (shared_bridge (bridge w)) !! cid in
  match host_register_channel t port scope w with
  | (w', Ok _) =>
      host_state w = Host_Stopped ∧ entry = None ∧
      adapters w' = adapters w ++ [MkAdapter (Source_Channel cid scope) Adapter_Stopped None] ∧
      shared_bridge (bridge w') =
        set_channels (<[cid := MkRegisteredChannel (channel_port_descriptor port) port []]>
                        (channels (shared_bridge (bridge w)))) (shared_bridge (bridge w)) ∧
      permits w' = permits w ∧ handles w' = handles w ∧ host_state w' = Host_Stopped
  | (w', Err err) =>
      w' = w ∧
      ((host_state w ≠ Host_Stopped ∧ err = HostNotStopped (host_state w)) ∨
       (is_Some entry ∧ err = Registration_Endpoint (ChannelAlreadyRegistered cid)))
  end.
Proof.
  intros Hi%reachable_host_inv cid entry. unfold host_register_channel. unfold_act.
  destruct (bool_decide_reflect (host_state w = Host_Stopped)); simpl; [|by auto].
  unfold with_access. rewrite (hi_owner _ _ Hi), bool_decide_eq_false_2 by done.
  unfold wrap, register_channel. unfold_act. fold cid. fold entry.
  case_bool_decide as Hs; simpl.
  - rewrite set_bridge_id by by eapply hi_owner. by auto.
  - apply eq_None_not_Some in Hs. by split_and!.
Qed.
End host.

(** ** Lifecycle operations *)

Section lifecycle.
Context `{Externals}.
Implicit Types (w : RuntimeHost) (a : RegisteredAdapter).

(** A start of a stopped Host calls every Source once, in
    registration order, with a handle of its own identity on a permit that
    was never issued before; the adapter runs and its handle stays active
    exactly if the callback succeeded, and a failure does not keep the others
    from starting.  The report lists the outcomes in that order.  A started
    Host is left alone, and one whose stop failed must be stopped again. *)
Theorem start_contract cfg cbs w :
  reachable_host cfg w → host_alive w = true → Forall callback_wf cbs →
  match host_state w, start cbs w with
  | Host_Started, (w', r) =>
      w' = w ∧ r = Ok (MkLifecycleReport Lifecycle_Start Outcome_AlreadyStarted [])
  | Host_StopFailed, (w', r) => w' = w ∧ r = Err CleanupRequired
  | Host_Stopped, (w', r) =>
      let results := imap (started_result cbs) (adapters w) in
      let report := MkLifecycleReport Lifecycle_Start Outcome_Started results in
      (r = if forallb is_success results then Ok report else Err (AdapterFailures report)) ∧
      host_state w' = Host_Started ∧
      adapters w' = imap (started_adapter cbs (length (permits w))) (adapters w) ∧
      handles w' = handles w ++ imap (started_handle (length (permits w))) (adapters w) ∧
      (∀ n, permit_enter w' n = true ↔
         ∃ j a, adapters w !! j = Some a ∧ n = length (permits w) + j ∧ started_ok cbs j = true)
  end.
Proof.
  intros Hi%reachable_host_inv Hal Hwf. unfold start. destruct (host_state w) eqn:Hst; [|done..].
  destruct (start_loop 0 (adapters w) cbs w) as [w' rs] eqn:E. cbv zeta.
  pose proof E as Hloop. apply start_loop_spec in E as [Ea Ep Eh -> _ _ _]; [|by eapply hi_owner|done..].
  pose proof (start_inv _ cbs _ Hi Hwf Hal) as Hi'. unfold start in Hi'. rewrite Hst, Hloop in Hi'.
  split_and!; [|done|done|done|].
  - unfold lifecycle_has_failures. cbn [report_adapters].
    assert (∀ l, existsb (λ result, negb (is_success result)) l = negb (forallb is_success l)) as ->.
    { induction l as [|x l IHl]; [done|]. simpl. rewrite IHl. by destruct (is_success x). }
    by destruct (forallb is_success _).
  - intros n. rewrite (hi_active _ _ Hi'). cbn [adapters set_host_state fst]. rewrite Ea. simpl. split.
    + intros (a & (j & a0 & Hj & ->)%elem_of_imap & [= <-] & Hrun). exists j, a0.
      split_and!; [done..|]. simpl in Hrun. by destruct (started_ok cbs j).
    + intros (j & a & Hj & -> & Hok). exists (started_adapter cbs (length (permits w)) j a).
      split_and!; [apply elem_of_imap; eauto|done|]. simpl. by rewrite Hok.
Qed.

(** C26: a stop switches every handle off, ends the subscriptions of
    the source-generation Channels and no others, and then stops the adapters
    in reverse registration order: those already stopped are skipped, each
    other one has its Source called once, and a failure does not keep the
    rest from stopping.  Nothing a Source attempts meanwhile changes the
    Bridge.  The Host is stopped exactly if every Source stopped, so a failed
    stop can be repeated for the rest. *)
Theorem stop_contract cfg t cbs w :
  reachable_host cfg w → host_state w ≠ Host_Stopped →
  let '(w', r) := stop t cbs w in
  ∃ results, let failed := existsb (λ result, negb (is_success result)) results in
    (r = if failed
         then Err (AdapterFailures (MkLifecycleReport Lifecycle_Stop Outcome_StopFailed results))
         else Ok (MkLifecycleReport Lifecycle_Stop Outcome_Stopped results)) ∧
    (host_state w' = if failed then Host_StopFailed else Host_Stopped) ∧
    Forall2 stop_result_of (adapters w) (reverse results) ∧
    filter (λ result, is_skipped result = false) results =
      stop_outcomes cbs (filter (λ a, adapter_state a ≠ Adapter_Stopped) (reverse (adapters w))) ∧
    adapters w' = zip_with stopped_adapter (adapters w) (reverse results) ∧
    all_inactive w' ∧ handles w' = handles w ∧
    shared_bridge (bridge w') =
      set_subscriptions (subscriptions (shared_bridge (bridge w'))) (shared_bridge (bridge w)) ∧
    ∀ c s, is_subscribed (shared_bridge (bridge w')) c s =
      is_subscribed (shared_bridge (bridge w)) c s &&
      negb (bool_decide (c ∈ source_generation_channels w)).
Proof.
  intros Hi%reachable_host_inv Hst.
  destruct (stop_spec cfg t cbs w Hi Hst) as (rs & ps & -> & Hrs & Hout & _ & Hoff).
  destruct (clear_channels_spec (source_generation_channels w) _ (host_inv_bridge _ _ Hi))
    as (_ & Hframe & Hsub).
  exists rs. split_and!; try done. by destruct (existsb _ rs).
Qed.

(** Dropping a Host stops it, and afterwards nothing that is
    still possible, namely uses of handles that outlive it, has any effect. *)
Theorem drop_is_final cfg t cbs w w' :
  reachable_host cfg w → rtc host_step (host_drop t cbs w) w' →
  w' = host_drop t cbs w ∧ all_inactive w' ∧ host_alive w' = false ∧ adapters w' = [] ∧
  ∀ c s, is_subscribed (shared_bridge (bridge w')) c s =
    is_subscribed (shared_bridge (bridge w)) c s &&
    negb (bool_decide (c ∈ source_generation_channels w)).
Proof.
  intros Hi%reachable_host_inv Hsteps.
  destruct (stop_phases cfg t cbs w Hi) as (rs & ps & Hclear & Hloop & _ & _ & _ & Hoff).
  cbv zeta in *.
  assert (host_drop t cbs w = MkHost (host_state w) []
    (MkSharedBridge (clear_channels (source_generation_channels w) (shared_bridge (bridge w))) None)
    ps (handles w) false) as Hd by (unfold host_drop; cbv zeta; by rewrite Hloop).
  assert (w' = host_drop t cbs w) as ->.
  { rewrite Hd in *. remember (MkHost _ [] _ ps _ false) as w0 eqn:E0.
    assert (all_inactive w0) as Hoff0 by by subst.
    assert (host_alive w0 = false) as Hal0 by by subst.
    clear E0 Hd. induction Hsteps as [|w1 w2 w3 [op w1' Hwf] _ IH]; [done|].
    assert (run_host_op op w1' = w1') as Heq.
    { destruct op; simpl in Hwf; try (rewrite Hal0 in Hwf; naive_solver).
      by apply run_call_inactive. }
    rewrite Heq in IH. by apply IH. }
  rewrite Hd. split_and!; [done..|]. simpl.
  by apply (clear_channels_spec _ _ (host_inv_bridge _ _ Hi)).
Qed.

(** An active handle of a live Host performs the Bridge
    operation under the identity it was issued for, and returns its result;
    the sink interface refuses any other identity without effect. *)
Theorem ingress_dispatch_exact cfg w n :
  reachable_host cfg w → host_alive w = true → permit_enter w n = true →
  match handles w !! n with
  | Some (Handle_Provider h) => ∀ t pid e,
      let '(b', r) := handle_provider_event (handle_provider_id h) e (shared_bridge (bridge w)) in
      publish_event t h e w = (set_bridge (MkSharedBridge b' None) w, map_err Provider_Bridge r) ∧
      sink_publish_event t h pid e w =
        if bool_decide (pid = handle_provider_id h)
        then (set_bridge (MkSharedBridge b' None) w,
              match map_err Provider_Bridge r with Ok _ => Ok () | Err err => Err err end)
        else (w, Err (Ingress_ProviderMismatch (handle_provider_id h) pid))
  | Some (Handle_Channel h) => ∀ t cid command,
      let '(b', r) := handle_command (handle_channel_id h) command (shared_bridge (bridge w)) in
      submit_command t h command w = (set_bridge (MkSharedBridge b' None) w, map_err Channel_Bridge r) ∧
      sink_submit_command t h cid command w =
        if bool_decide (cid = handle_channel_id h)
        then submit_command t h command w
        else (w, Err (Ingress_ChannelMismatch (handle_channel_id h) cid))
  | None => False
  end.
Proof.
  intros Hi%reachable_host_inv Hal Hon. pose proof (hi_owner _ _ Hi) as Ho.
  pose proof (proj1 (hi_active _ _ Hi n) Hon) as (a & Hin & Hp & _).
  destruct (hi_permits _ _ Hi _ _ Hin Hp) as (h & Hh & _). rewrite Hh.
  pose proof (hi_handles _ _ Hi _ _ Hh) as Hperm.
  destruct h as [h|h]; simpl in Hperm.
  - intros t pid e. destruct (handle_provider_event _ _ _) as [b' r] eqn:E.
    assert (publish_event t h e w =
      (set_bridge (MkSharedBridge b' None) w, map_err Provider_Bridge r)) as Hpub.
    { unfold publish_event. unfold_act. rewrite Hal, Hperm, Hon. simpl.
      unfold with_access, wrap. by rewrite Ho, bool_decide_eq_false_2, E. }
    split; [done|]. unfold sink_publish_event. case_bool_decide; simpl; [|done].
    unfold_act. rewrite Hpub. by destruct r.
  - intros t cid command. destruct (handle_command _ _ _) as [b' r] eqn:E.
    assert (submit_command t h command w =
      (set_bridge (MkSharedBridge b' None) w, map_err Channel_Bridge r)) as Hsub.
    { unfold submit_command, with_bridge_access. unfold_act. rewrite Hal, Hperm, Hon. simpl.
      unfold with_access, wrap. by rewrite Ho, bool_decide_eq_false_2, E. }
    split; [done|]. unfold sink_submit_command. by case_bool_decide.
Qed.
End lifecycle.

Lemma host_refines_bridge_witness :
  bridge_inv (shared_bridge (bridge host_started)).
Proof. exact (proj1 (proj2 (host_refines_bridge _ _ host_started_reachable))). Defined.

(** The handle of the running Provider is active, the one of the failed Channel
    is not. *)
Lemma active_handles_exact_witness :
  (∃ a h, a ∈ adapters host_started ∧ adapter_state a = Adapter_Running ∧
     adapter_permit a = Some 0 ∧ handles host_started !! 0 = Some h ∧ handle_permit h = 0 ∧
     handle_endpoint h = adapter_endpoint a) ∧
  permit_enter host_started 2 = false.
Proof.
  split; [|reflexivity].
  apply (proj1 (active_handles_exact _ _ host_started_reachable) 0). reflexivity.
Defined.

(** The Provider's first handle, after a restart. *)
Lemma revoked_handle_forever_witness :
  run_call (MkCall 7 0 (Ingress_Publish event_2)) host_restarted = host_restarted.
Proof.
  exact (proj1 (revoked_handle_forever _ host_stopped host_restarted 0
    (Handle_Provider (MkProviderEventHandle provider_1 0)) 7 host_stopped_reachable
    eq_refl eq_refl host_restarted_steps) (MkCall 7 0 (Ingress_Publish event_2)) eq_refl).
Defined.

Lemma registration_contract_witness :
  (host_register_channel 0 (channel_port_ok channel_1) Persistent host_setup).1 = host_setup.
Proof.
  pose proof (registration_contract _ 0 (channel_port_ok channel_1) Persistent host_setup
    host_setup_reachable) as Hc.
  cbv zeta in Hc. destruct (host_register_channel _ _ _ _) as [w' [|err]];
    [by destruct Hc as (_ & ? & _)|apply Hc].
Defined.

Lemma start_contract_witness :
  adapters (start start_callbacks host_setup).1 =
    imap (started_adapter start_callbacks 0) (adapters host_setup).
Proof.
  pose proof (start_contract _ start_callbacks host_setup host_setup_reachable eq_refl
    start_callbacks_wf) as Hs.
  change (host_state host_setup) with Host_Stopped in Hs. cbv beta iota zeta in Hs.
  rewrite (surjective_pairing (start _ _)) in Hs. cbv beta iota in Hs.
  exact (proj1 (proj2 (proj2 Hs))).
Defined.

Lemma stop_contract_witness :
  is_subscribed (shared_bridge (bridge host_started)) channel_1 session_1 = true ∧
  is_subscribed (shared_bridge (bridge host_stopped)) channel_1 session_1 = false.
Proof.
  split; [by_evaluation|].
  pose proof (stop_contract _ 0 [] host_started host_started_reachable ltac:(done)) as Hs.
  rewrite (surjective_pairing (stop _ _ _)) in Hs. cbv beta iota in Hs.
  destruct Hs as (results & _ & _ & _ & _ & _ & _ & _ & _ & Hsub).
  etrans; [exact (Hsub channel_1 session_1)|].
  rewrite (bool_decide_eq_true_2 (channel_1 ∈ source_generation_channels host_started));
    [apply andb_false_r|]. by_evaluation.
Defined.

Lemma drop_is_final_witness :
  all_inactive (host_drop 0 [] host_started).
Proof.
  exact (proj1 (proj2 (drop_is_final _ 0 [] host_started (host_drop 0 [] host_started)
    host_started_reachable (rtc_refl _ _)))).
Defined.

Lemma ingress_dispatch_exact_witness :
  sink_publish_event 7 (MkProviderEventHandle provider_1 0) (example_id 99) event_2 host_started =
  (host_started, Err (Ingress_ProviderMismatch provider_1 (example_id 99))).
Proof.
  pose proof (ingress_dispatch_exact _ host_started 0 host_started_reachable eq_refl eq_refl) as Hd.
  change (handles host_started !! 0)
    with (Some (Handle_Provider (MkProviderEventHandle provider_1 0))) in Hd. cbv beta iota in Hd.
  specialize (Hd 7 (example_id 99) event_2).
  rewrite (surjective_pairing (handle_provider_event _ _ _)) in Hd. exact (proj2 Hd).
Defined.
