(* ===== verification/ProtocolTheorems.v ===== *)
(** * Theorems on the wire protocol

    Messages survive encoding and decoding, and decoding lets nothing in that
    the domain's constructors would refuse. *)

From stdpp Require Import base strings numbers gmap list.
From S2P Require Import Prelude Values Snapshots Capability Interaction Event Dto Convert.
From S2P Require Import ConvertSpec Examples.

Section protocol.
Context `{Externals}.

(** C5: a valid message either encodes to an envelope that
    decodes to the same message, or contains a timestamp that RFC 3339 cannot
    express, in which case encoding fails; there is no other failure. *)
Theorem envelope_roundtrip `{!ExternalsOk} m :
  message_wf m →
  match encode_envelope m with
  | Ok envelope => Forall formattable (message_timestamps m) ∧ decode_envelope envelope = Ok m
  | Err _ => ¬ Forall formattable (message_timestamps m)
  end.
Proof.
  intros Hwf. pose proof (is_ok_encode_envelope m) as Hok.
  destruct (encode_envelope m) as [envelope|err] eqn:E; simpl in Hok.
  - split; [by apply Hok|by apply decode_encode_envelope].
  - by rewrite <-Hok.
Qed.

(** C40: a decoded message has the supported version and
    satisfies every invariant of the domain's constructors, and if it can be
    encoded again, the result decodes to the same message. *)
Theorem decode_envelope_sound `{!ExternalsOk} envelope m :
  decode_envelope envelope = Ok m →
  raw (envelope_protocol_version envelope) = V2_PROTOCOL_VERSION ∧ message_wf m ∧
  ∀ envelope', encode_envelope m = Ok envelope' → decode_envelope envelope' = Ok m.
Proof.
  intros Hd. pose proof (decode_envelope_wf _ _ Hd) as Hwf. split_and!; [|done|].
  - unfold decode_envelope in Hd. by destruct (N.eqb_spec (raw (envelope_protocol_version envelope))
      V2_PROTOCOL_VERSION).
  - intros envelope' He. by apply decode_encode_envelope.
Qed.
End protocol.

(** A string is accepted as a 64-bit integer exactly if it is
    the decimal rendering of that integer; so there is one rendering per value,
    without sign, leading zero or overflow. *)
Theorem decimal_u64_exact value d :
  (DecimalU64_visit_str value = Ok d ↔ value = DecimalU64_serialize d) ∧
  (∀ d', DecimalU64_serialize d = DecimalU64_serialize d' → d = d').
Proof.
  split; [apply visit_str_serialize|]. intros d' Heq.
  pose proof (proj2 (visit_str_serialize _ d) eq_refl) as Hd.
  apply visit_str_serialize in Heq. congruence.
Qed.

(** A capability list is accepted exactly if no entry
    repeats, and then stands for the set of its entries; the error names the
    first repetition.  Every set is written as a list that is read back as the
    same set. *)
Theorem capability_lists_exact (values : list ProviderCapabilityDto)
    (values' : list ChannelCapabilityDto) :
  (match decode_provider_capabilities values with
   | Ok c => NoDup values ∧ ∀ d, d ∈ values ↔ contains c (provider_capability_flag d) = true
   | Err err => ∃ l1 d l2, values = l1 ++ d :: l2 ∧ NoDup l1 ∧ d ∈ l1 ∧
       err = duplicate_capability "provider capabilities" (provider_capability_name d)
   end ∧ ∀ c, decode_provider_capabilities (encode_provider_capabilities c) = Ok c) ∧
  (match decode_channel_capabilities values' with
   | Ok c => NoDup values' ∧ ∀ d, d ∈ values' ↔ contains c (channel_capability_flag d) = true
   | Err err => ∃ l1 d l2, values' = l1 ++ d :: l2 ∧ NoDup l1 ∧ d ∈ l1 ∧
       err = duplicate_capability "channel capabilities" (channel_capability_name d)
   end ∧ ∀ c, decode_channel_capabilities (encode_channel_capabilities c) = Ok c).
Proof.
  split; split.
  - exact (decode_known_exact _ _ provider_table_complete _ values provider_table_all).
  - intros c. apply (decode_encode_known _ _ provider_table_complete).
  - exact (decode_known_exact _ _ channel_table_complete _ values' channel_table_all).
  - intros c. apply (decode_encode_known _ _ channel_table_complete).
Qed.

Section json.
Context `{Externals} `{SerdeJson}.

(** The bytes of an encoded message decode to the
    message, for any JSON library that reads back what it writes. *)
Theorem json_roundtrip_exact `{!ExternalsOk} `{!SerdeJsonOk} m bytes :
  message_wf m → encode_json m = Ok bytes → decode_json bytes = Ok m.
Proof.
  intros Hwf (envelope & He & Hb)%bind_Ok. apply map_err_Ok in Hb.
  destruct (json_roundtrip _ _ Hb) as (value & v & Hs & Hv & Hraw & Hval).
  pose proof (decode_encode_envelope _ _ Hwf He) as Hdec.
  unfold decode_json. rewrite Hs. simpl. rewrite Hv. simpl. rewrite Hraw.
  apply bind_Ok in He as (d & _ & [= <-]). simpl. by rewrite Hval.
Qed.

(** Input is decoded only after its version was checked: a
    document of another version is reported as such whatever the rest of it
    holds, and an accepted document yields a valid message. *)
Theorem decode_json_gate bytes :
  (∀ value v, json_from_slice bytes = Ok value → json_get_u64 "protocol_version" value = Some v →
     raw v ≠ V2_PROTOCOL_VERSION →
     decode_json bytes = Err (UnsupportedProtocolVersion (raw v) V2_PROTOCOL_VERSION)) ∧
  (∀ m, decode_json bytes = Ok m → message_wf m).
Proof.
  unfold decode_json. split.
  - intros value v -> Hv Hne. simpl. rewrite Hv. simpl. by destruct (N.eqb_spec (raw v) V2_PROTOCOL_VERSION).
  - intros m (value & _ & (v & _ & Hd)%bind_Ok)%bind_Ok. destruct (negb _); [done|].
    apply bind_Ok in Hd as (envelope & _ & Hd). by eapply decode_envelope_wf.
Qed.
End json.

(** ** Examples *)

Definition example_envelope : EnvelopeDto :=
  match encode_envelope (Message_AgentEvent event_3) with
  | Ok envelope => envelope
  | Err _ => MkEnvelopeDto envelope_version
      (MessageDto_ProviderDescriptor (encode_provider_descriptor provider_descriptor_1))
  end.

(** A JSON library that knows one document. *)
#[local] Instance example_json : SerdeJson := {|
  json_value := EnvelopeDto;
  json_to_vec := λ e, if bool_decide (e = example_envelope) then Ok [Byte.x7b] else Err (lit "unknown");
  json_from_slice := λ s, match s with [_] => Ok example_envelope | _ => Err (lit "unknown") end;
  json_get_u64 := λ _ e, of_raw (raw (envelope_protocol_version e));
  json_from_value := Ok
|}.

#[local] Instance example_json_ok : SerdeJsonOk.
Proof.
  split. intros envelope bytes. simpl. case_bool_decide as He; [|done]. intros [= <-]. subst.
  exists example_envelope. eexists. by split_and!.
Qed.

Lemma envelope_roundtrip_witness :
  decode_envelope example_envelope = Ok (Message_AgentEvent event_3).
Proof.
  pose proof (envelope_roundtrip (Message_AgentEvent event_3) event_3_wf) as Hr.
  change (encode_envelope (Message_AgentEvent event_3)) with
    (Ok example_envelope : result ProtocolError EnvelopeDto) in Hr.
  exact (proj2 Hr).
Defined.

Lemma decode_envelope_sound_witness : message_wf (Message_AgentEvent event_3).
Proof.
  refine (proj1 (proj2 (decode_envelope_sound example_envelope (Message_AgentEvent event_3) _))).
  reflexivity.
Defined.

Lemma json_roundtrip_exact_witness :
  decode_json [Byte.x7b] = Ok (Message_AgentEvent event_3).
Proof.
  refine (json_roundtrip_exact (Message_AgentEvent event_3) [Byte.x7b] event_3_wf _).
  reflexivity.
Defined.
