(* ===== verification/NativeRuns.v ===== *)
(** * A run of the Native Channel

    A connection of the concrete scenario, from the Host's start to the moment a
    client that has read its discovery asks for the session.
    JSON documents are one character long, which names the message. *)

From stdpp Require Import base strings numbers sorting relations gmap list.
From S2P Require Import Prelude Values Snapshots Capability Interaction Event Aggregate.
From S2P Require Import AggregateSpec Routing Bridge BridgeSpec Runtime RuntimeSpec Dto Net Convert.
From S2P Require Import NativeProtocol Native NativeSpec Examples.

(** ** JSON *)

Definition request_uuid : rstring := [v7 40].
Definition client_uuid : rstring := [v7 41].
Definition connection_uuid : rstring := [v7 42].
Definition host_run_uuid : rstring := [v7 43].

Definition server_tag {V} (m : ServerMessageDto V) : Byte.byte :=
  match m with
  | SMDto_ServerHello _ _ _ _ _ _ _ _ => Byte.x68
  | SMDto_SyncStarted _ _ _ => Byte.x62
  | SMDto_DomainMessage _ _ => Byte.x6d
  | SMDto_SyncCompleted _ => Byte.x65
  | SMDto_SubscriptionResult _ _ _ _ _ _ _ => Byte.x72
  | SMDto_UnsubscriptionResult _ _ _ => Byte.x75
  | SMDto_InteractionResponseResult _ _ _ => Byte.x69
  | SMDto_CommandResult _ _ _ => Byte.x63
  | SMDto_Error _ _ _ _ => Byte.x78
  end.

Definition client_document (tag : Byte.byte) : option (ClientMessageDto Byte.byte) :=
  match tag with
  | Byte.x68 => Some (CMDto_ClientHello client_uuid (lit "Phone") None [envelope_version] None [])
  | Byte.x64 => Some (CMDto_DiscoverSessions request_uuid)
  | Byte.x73 => Some (CMDto_SubscribeSession request_uuid (id_to_string session_1))
  | _ => None
  end.

#[export] Instance tag_json : SerdeJson := {|
  json_value := Byte.byte;
  json_to_vec := λ _, Ok [Byte.x2e];
  json_from_slice := λ s, match s with [tag] => Ok tag | _ => Err (lit "not one character") end;
  json_get_u64 := λ _ _, of_raw 3%N;
  json_from_value := λ _, Err (lit "opaque")
|}.

#[export] Instance tag_native_json : NativeJson := {|
  value_to_vec := λ tag, Ok [tag];
  client_to_vec := λ _, Err (lit "not a server document");
  client_from_value := λ tag,
    ok_or (lit "unknown document") (MkEnvelope NATIVE_TRANSPORT_VERSION <$> client_document tag);
  server_to_vec := λ m, Ok [server_tag (envelope_body m)];
  server_from_value := λ _, Err (lit "not a client document")
|}.

#[export] Instance tag_texts : ErrorTexts := {|
  show_port_error := λ _, lit "port";
  show_ingress_error := λ _, lit "ingress"
|}.

(** ** The Host *)

Definition native_descriptor_1 : ChannelDescriptor :=
  MkChannelDescriptor channel_1 (MkKind (Refine (lit "native") I)) (example_text "Phone") None
    native_capabilities.

Definition native_host_ops : list HostOp :=
  [HostOp_RegisterProvider 0 provider_port_1;
   HostOp_RegisterChannel 0 (MkChannelPort native_descriptor_1 (λ _ _, Ok ())) SourceGeneration;
   HostOp_Start [MkCallback [MkCall 7 0 (Ingress_Publish event_1);
      MkCall 7 0 (Ingress_Publish event_2)] (Ok ()); MkCallback [] (Ok ())]].

Definition native_host_1 : RuntimeHost :=
  run_host_ops native_host_ops (RuntimeHost_with_session_config SessionAggregateConfig_retain_all).

Lemma native_host_1_reachable : reachable_host SessionAggregateConfig_retain_all native_host_1.
Proof.
  apply run_host_ops_steps. split; [done|]. split; [done|]. split; [|done].
  split; [repeat constructor; apply event_1_wf || apply event_2_wf|reflexivity].
Qed.

Definition native_handle : ChannelActionHandle := MkChannelActionHandle channel_1 1.
Definition worker_thread : ThreadId := 9.

(** ** The configuration *)

Definition half_second : Duration := MkDuration (Refine 0%N I) (Refine 500000000%N I).

Definition usual_config (cap : nat) : NativeChannelConfig :=
  with_outbound_capacity cap (NativeChannelConfig_new channel_1 host_run_uuid).

(** ** The connection *)

Definition native_initial (cap : nat) : NativeWorld :=
  MkNative native_host_1
    (DeliveryState_new cap (MkSnapshot Health_Listening None 0 0 0 0 0)) None.

Definition client_text (cap : nat) (tag : Byte.byte) (n : NativeWorld) : NativeWorld :=
  receive_text (usual_config cap) native_descriptor_1 worker_thread native_handle connection_uuid None
    [tag] n.
Definition send_frames (k : nat) (n : NativeWorld) : NativeWorld :=
  set_native_delivery (set_outgoing (drop k (outgoing (native_delivery n))) (native_delivery n)) n.

(** A client says hello and asks for the sessions, and the worker sends its
    answers. *)
Definition reconnect (cap : nat) (n : NativeWorld) : NativeWorld :=
  send_frames 4 (client_text cap Byte.x64 (send_frames 1 (client_text cap Byte.x68
    (set_connection (Some false) n)))).

Definition native_connected (cap : nat) : NativeWorld := reconnect cap (native_initial cap).

Lemma send_frames_steps config descriptor h k n :
  k ≤ length (outgoing (native_delivery n)) →
  rtc (native_step config descriptor h) n (send_frames k n).
Proof.
  revert n. induction k as [|k IH]; intros n Hk.
  - unfold send_frames. rewrite drop_0. destruct n as [? [] ?]. done.
  - destruct (outgoing (native_delivery n)) as [|frame rest] eqn:Eo; simpl in Hk; [lia|].
    eapply rtc_l; [by eapply native_sent|].
    replace (send_frames (S k) n)
      with (send_frames k (set_native_delivery (set_outgoing rest (native_delivery n)) n)).
    + apply IH. simpl. lia.
    + unfold send_frames. by rewrite Eo.
Qed.

Lemma native_connected_steps :
  rtc (native_step (usual_config 4) native_descriptor_1 native_handle)
    (native_initial 4) (native_connected 4).
Proof.
  eapply rtc_l; [by apply native_accept|].
  eapply rtc_l; [apply (native_text _ _ _ worker_thread connection_uuid None [Byte.x68])|].
  etrans; [refine (send_frames_steps _ _ _ 1 _ _); by_evaluation|].
  eapply rtc_l; [apply (native_text _ _ _ worker_thread connection_uuid None [Byte.x64])|].
  refine (send_frames_steps _ _ _ 4 _ _). by_evaluation.
Qed.

(** ** The subscription request *)

Definition client_1 : ActiveClient := MkClient {[session_1]} ∅ None ∅.

Definition sync_1 : ChannelSessionSync :=
  MkSessionSync u64_zero (counter_get (example_seq 2 : EventSequence)) false
    [MkRoutedAgentEvent event_1 ObserveOnly; MkRoutedAgentEvent event_2 ObserveOnly]
    (Some (MkBaseline (session aggregate_2) (example_seq 2) [])).

(** Everything but the capacity is the same for the two capacities used. *)
Lemma native_connected_client cap :
  cap = 4 ∨ cap = 5 → client (native_delivery (native_connected cap)) = Some client_1.
Proof. intros [-> | ->]; reflexivity. Qed.

Lemma client_1_may_subscribe : may_subscribe client_1 session_1.
Proof. split; [by_evaluation|]. split; [done|]. by_evaluation. Qed.

Lemma client_text_serving cap tag n :
  serving worker_thread native_handle n → serving worker_thread native_handle (client_text cap tag n).
Proof. apply receive_text_serving. Qed.
Lemma send_frames_serving k n :
  serving worker_thread native_handle n → serving worker_thread native_handle (send_frames k n).
Proof. done. Qed.
Lemma set_connection_serving c n :
  serving worker_thread native_handle n → serving worker_thread native_handle (set_connection c n).
Proof. done. Qed.
Lemma reconnect_serving cap n :
  serving worker_thread native_handle n → serving worker_thread native_handle (reconnect cap n).
Proof.
  intros Hn. apply send_frames_serving, client_text_serving, send_frames_serving,
    client_text_serving, set_connection_serving, Hn.
Qed.

Lemma native_connected_serving cap : serving worker_thread native_handle (native_connected cap).
Proof.
  apply (reconnect_serving cap (native_initial cap)).
  split; [split; [reflexivity|split; [reflexivity|by_evaluation]]|].
  eapply host_inv_bridge, reachable_host_inv, native_host_1_reachable.
Qed.

Lemma prepare_sync_1 :
  prepare_sync channel_1 aggregate_2 native_descriptor_1 provider_descriptor_1 u64_zero
    SESSION_SYNC_PAGE_EVENTS = Ok sync_1.
Proof. reflexivity. Qed.

Lemma native_connected_channel cap :
  cap = 4 ∨ cap = 5 →
  registered_channel_descriptor <$> channels (native_bridge (native_connected cap)) !! channel_1 =
  Some native_descriptor_1.
Proof. intros [-> | ->]; by_evaluation. Qed.

Lemma native_connected_bridge cap :
  cap = 4 ∨ cap = 5 →
  sessions (native_bridge (native_connected cap)) !! session_1 = Some aggregate_2 ∧
  providers (native_bridge (native_connected cap)) !! provider_1 = Some provider_entry_1.
Proof. intros [-> | ->]; split; reflexivity. Qed.

Lemma native_connected_request cap :
  cap = 4 ∨ cap = 5 →
  sync_request worker_thread native_handle (native_connected cap) session_1 u64_zero aggregate_2 sync_1.
Proof.
  intros Hcap. destruct (native_connected_bridge cap Hcap) as [Hs Hp].
  split; [apply native_connected_serving|destruct Hcap as [-> | ->]; by_evaluation|exact Hs|].
  pose proof (native_connected_channel cap Hcap) as Hc. apply fmap_Some in Hc as (c & Hc & Hd).
  exists c, provider_entry_1. split; [exact Hc|]. split; [exact Hp|].
  rewrite <-Hd. exact prepare_sync_1.
Qed.
