(* ===== verification/NativeTheorems.v ===== *)
(** * Theorems on the Native Channel

    The client protocol survives encoding and decoding, the output queue is
    bounded, a subscription request delivers its page in one piece, requests on
    sessions the connection has not subscribed to reach nobody, and a disconnect
    withdraws the subscriptions of the connection.  The theorems also describe the
    subscription a failing request leaves behind, and the handshake a
    configuration below one second makes impossible. *)

From stdpp Require Import base strings numbers sorting relations gmap list.
From S2P Require Import Prelude Values Snapshots Capability Interaction Event Aggregate.
From S2P Require Import AggregateSpec Routing Bridge BridgeSpec Runtime RuntimeSpec Dto Net Convert ConvertSpec.
From S2P Require Import NativeProtocol Native NativeSpec Examples NativeRuns.

Section native.
Context `{Externals} `{NativeJson} `{!ErrorTexts}.
Implicit Types (n : NativeWorld) (c : ActiveClient) (sync : ChannelSessionSync).

(** Whatever clients send, however slowly they read
    and whatever the Bridge delivers, the frames waiting for a client, those of
    an unfinished subscription included, never exceed the capacity. *)
Theorem native_queue_bounded config descriptor h n0 n cap s :
  native_delivery n0 = DeliveryState_new cap s →
  rtc (native_step config descriptor h) n0 n →
  capacity (native_delivery n) = cap ∧ queued_len (native_delivery n) ≤ cap.
Proof.
  intros Hinit Hsteps. change (fits cap (native_delivery n)).
  assert (fits cap (native_delivery n0)) as Hfits by (rewrite Hinit; split; [done|unfold queued_len; simpl; lia]).
  clear Hinit. induction Hsteps as [|n1 n2 n3 Hstep _ IH]; [done|].
  apply IH. by eapply native_step_fits.
Qed.

(** The bytes of an encoded client or server message
    decode to the message, the domain documents nested in it included, for any
    JSON library that reads back what it writes. *)
Theorem native_codec_roundtrip `{!ExternalsOk} `{!SerdeJsonOk} `{!NativeJsonOk} :
  (∀ m bytes, client_message_wf m → encode_client_message m = Ok bytes →
     decode_client_message bytes = Ok m) ∧
  (∀ m bytes, server_message_wf m → encode_server_message m = Ok bytes →
     decode_server_message bytes = Ok m).
Proof. split; [apply decode_encode_client|apply decode_encode_server]. Qed.

(** An admitted subscription request delivers the next page
    of the session.  If the page, the result and the end marker fit into the
    queue they are appended to it in one piece, the cursor moves to the end of
    the page, and the Bridge and the connection agree on the subscription, which
    exists exactly if the page was the last one.  If not even the page fits,
    the request fails, nothing is queued, the Channel is not subscribed and the
    connection is marked to be aborted. *)
Theorem native_subscribe_delivers t h rid sid n c a sync frames baseline rf cf :
  bridge_inv (native_bridge n) →
  client (native_delivery n) = Some c → may_subscribe c sid →
  sync_request t h n sid (default u64_zero (session_cursors c !! sid)) a sync →
  try_collect server_text (page_messages rid sync) = Ok frames →
  Counter_new EventSequenceFamily (sync_through_sequence sync) = Ok baseline →
  server_text (result_message rid sid baseline (sync_outcome sync)) = Ok rf →
  server_text (Server_SyncCompleted rid) = Ok cf →
  let d := native_delivery n in
  let '(n', r) := process_subscribe t h rid sid n in
  let d' := native_delivery n' in
  (length (outgoing d) + length frames + 2 ≤ capacity d →
     r = Ok () ∧ outgoing d' = outgoing d ++ rf :: frames ++ [cf] ∧
     is_subscribed (native_bridge n') (handle_channel_id h) sid = sync_is_final sync ∧
     ∃ c', client d' = Some c' ∧ client_pending c' = None ∧
       session_cursors c' !! sid = Some (sync_through_sequence sync) ∧
       ∀ s, s ∈ client_subscriptions c' ↔
         s ∈ client_subscriptions c ∨ s = sid ∧ sync_is_final sync = true) ∧
  (capacity d < length (outgoing d) + length frames →
     r = Err (runtime_failure (Some rid) (Channel_Subscription (InitialSessionHandoff
           (MkChannelDeliveryError (handle_channel_id h) Delivery_Session
              (show_port_error (QueueFull (capacity d))))))) ∧
     outgoing d' = outgoing d ∧ client d' = Some c ∧
     abort_reason d' = Some (queue_limit_text (capacity d)) ∧
     is_subscribed (native_bridge n') (handle_channel_id h) sid = false).
Proof.
  intros Hinv Hc Hmay Hreq Hf Hb Hrf Hcf d.
  pose proof (process_subscribe_spec t h rid sid n c a sync frames baseline rf cf
    Hinv Hc Hmay Hreq Hf Hb Hrf Hcf) as Hspec. cbv zeta in Hspec. fold d in Hspec.
  destruct (process_subscribe t h rid sid n) as [n' r]. cbv zeta in Hspec |- *.
  destruct Hspec as (_ & _ & Hspec). split; intros Hroom.
  - destruct (Nat.ltb_spec (capacity d) (length (outgoing d) + length frames)); [lia|].
    destruct Hspec as [Hsub Hspec].
    destruct (Nat.ltb_spec (capacity d) (length (outgoing d) + length frames + 2)); [lia|].
    destruct Hspec as (-> & Hout & Hcl). split_and!; try done.
    eexists. split; [exact Hcl|]. split; [done|]. simpl. split; [by rewrite lookup_insert_eq|].
    intros s. destruct (sync_is_final sync); set_solver.
  - by destruct (Nat.ltb_spec (capacity d) (length (outgoing d) + length frames)); [|lia].
Qed.

(** C38: the connection is dropped, but not its subscription, if
    the last page of a session fits into the queue and the two control frames
    around it do not: the Bridge keeps the Channel subscribed to the session
    although no client is connected. *)
Theorem native_subscription_leak config descriptor t h connection_id auth text rid sid n c a sync
    frames baseline rf cf :
  bridge_inv (native_bridge n) → native_connection n = Some true →
  decode_client_message text = Ok (Client_Subscribe rid sid) →
  client (native_delivery n) = Some c → may_subscribe c sid →
  sync_request t h n sid (default u64_zero (session_cursors c !! sid)) a sync →
  try_collect server_text (page_messages rid sync) = Ok frames →
  Counter_new EventSequenceFamily (sync_through_sequence sync) = Ok baseline →
  server_text (result_message rid sid baseline (sync_outcome sync)) = Ok rf →
  server_text (Server_SyncCompleted rid) = Ok cf →
  sync_is_final sync = true →
  let d := native_delivery n in
  length (outgoing d) + length frames ≤ capacity d < length (outgoing d) + length frames + 2 →
  let n' := receive_text config descriptor t h connection_id auth text n in
  native_connection n' = None ∧ client (native_delivery n') = None ∧
  is_subscribed (native_bridge n') (handle_channel_id h) sid = true.
Proof.
  intros Hinv Hconn Htext Hc Hmay Hreq Hf Hb Hrf Hcf Hfin d Hroom n'.
  pose proof (process_subscribe_spec t h rid sid n c a sync frames baseline rf cf
    Hinv Hc Hmay Hreq Hf Hb Hrf Hcf) as Hspec. cbv zeta in Hspec. fold d in Hspec.
  unfold n', receive_text. rewrite Hconn, Htext. cbn [process_ready_message].
  destruct (process_subscribe t h rid sid n) as [n1 r]. cbv zeta in Hspec.
  destruct Hspec as (Hatt & Hinv1 & Hspec).
  destruct (Nat.ltb_spec (capacity d) (length (outgoing d) + length frames)); [lia|].
  destruct Hspec as [Hsub Hspec].
  destruct (Nat.ltb_spec (capacity d) (length (outgoing d) + length frames + 2)); [|lia].
  destruct Hspec as (-> & _ & Hcl).
  destruct (disconnect_spec t h n1 Hatt Hinv1) as (_ & _ & Hnone & _ & _ & Hconn' & Hall).
  split; [done|]. split; [done|]. rewrite Hall, Hsub, Hfin. unfold client_subscribed. rewrite Hcl.
  simpl. destruct Hmay as (_ & _ & Hnot). by rewrite bool_decide_eq_false_2.
Qed.

(** While such a subscription is left over, a new client
    that asks for the session is told it is subscribed and up to date, and gets
    neither the session nor its pending interactions nor any past event. *)
Theorem native_stale_subscription t h rid sid n c ch a rf cf :
  attached t h n →
  client (native_delivery n) = Some c → may_subscribe c sid →
  channels (native_bridge n) !! handle_channel_id h = Some ch →
  sessions (native_bridge n) !! sid = Some a →
  is_subscribed (native_bridge n) (handle_channel_id h) sid = true →
  server_text (Server_SubscriptionResult rid sid Status_Subscribed (last_sequence a) 0 0 false)
    = Ok rf →
  server_text (Server_SyncCompleted rid) = Ok cf →
  let d := native_delivery n in
  length (outgoing d) + 2 ≤ capacity d →
  let '(n', r) := process_subscribe t h rid sid n in
  r = Ok () ∧ outgoing (native_delivery n') = outgoing d ++ [rf; cf] ∧
  client_subscribed sid (native_delivery n') = true.
Proof.
  intros Hatt Hc (Hdisc & Hpend & Hnot) Hch Ha Hsub Hrf Hcf d Hroom. fold d in Hc.
  unfold process_subscribe. unfold_act. fold d. rewrite Hc, Hpend.
  rewrite (bool_decide_eq_true_2 (sid ∈ _)) by done.
  rewrite (bool_decide_eq_false_2 (is_Some None)) by (by intros []).
  rewrite (bool_decide_eq_false_2 (sid ∈ _)) by done. cbn [negb].
  unfold on_delivery at 1. cbn [modify fst snd].
  fold d. set (d1 := update_client _ _). set (n1 := set_native_delivery d1 n).
  set (outcome := MkSyncOutcome (counter_get (last_sequence a)) 0 false true 0).
  set (after := default u64_zero _).
  unfold synchronize.
  pose proof (with_port_run t h Channel_Subscription
    (sync_session (handle_channel_id h) sid after SESSION_SYNC_PAGE_EVENTS) n1 Hatt) as Hrun.
  cbv zeta in Hrun. set (b1 := install_port _ _ _) in Hrun.
  assert (sync_session (handle_channel_id h) sid after SESSION_SYNC_PAGE_EVENTS b1 = (b1, Ok outcome))
    as Hsync.
  { pose proof (install_port_channel _ d1 _ _ Hch : channels b1 !! _ = _) as Hch1.
    change (sessions b1 !! sid = Some a) in Ha. change (is_subscribed b1 (handle_channel_id h) sid = true) in Hsub.
    clearbody b1. unfold sync_session. cbn [N.eqb SESSION_SYNC_PAGE_EVENTS]. unfold_act.
    rewrite Hch1. simpl. rewrite Ha. simpl. by rewrite Hsub. }
  rewrite Hsync in Hrun. cbn [map_err] in Hrun. unfold handle_sync_session. rewrite Hrun.
  unfold b1. rewrite calls_of_install, drop_all. cbn [after_calls foldl native_delivery n1 set_native_delivery].
  assert (client d1 = Some (set_pending_subscription (Some (MkPending rid sid [] [] false)) c)) as Hc1
    by (unfold d1; simpl; by rewrite Hc).
  pose proof (complete_subscription_spec d1 _ rid sid [] false outcome (last_sequence a) rf cf
    Hc1 eq_refl (Counter_new_get _) Hrf Hcf) as [Hr Hd]. cbv zeta in Hd.
  unfold on_delivery. cbn [native_delivery].
  destruct (complete_subscription rid sid outcome d1) as [d2 r]. simpl in Hr, Hd.
  destruct (Nat.ltb_spec (capacity d) (length (outgoing d) + 2)); [lia|].
  destruct Hd as (Hout & _ & Hcl). split; [done|]. split; [done|]. simpl.
  unfold client_subscribed. rewrite Hcl. simpl. apply bool_decide_eq_true. set_solver.
Qed.

(** An interaction response or a command on a session the
    connection has not subscribed to is refused with the matching error and
    changes nothing: neither the Bridge nor any Provider sees it. *)
Theorem native_actions_gated t h rid n :
  (∀ response, client_subscribed (response_session_id response) (native_delivery n) = false →
     ∃ text, process_ready_message t h (Client_SubmitInteractionResponse rid response) n =
       (n, Err (Recoverable (Server_Error (Some rid) Code_SessionNotSubscribed text true)))) ∧
  (∀ command, client_subscribed (command_session_id command) (native_delivery n) = false →
     ∃ text, process_ready_message t h (Client_SubmitCommand rid command) n =
       (n, Err (Recoverable (Server_Error (Some rid) Code_SessionNotSubscribed text true)))).
Proof.
  split; intros x Hx; cbn [process_ready_message];
    unfold process_interaction_response, process_command; unfold_act; rewrite Hx; by eexists.
Qed.

(** When a connection ends, the Channel is unsubscribed from
    exactly the sessions the connection had subscribed to, and nothing queued
    for the client is left for the next one. *)
Theorem native_disconnect_contract t h n :
  attached t h n → bridge_inv (native_bridge n) →
  let n' := disconnect t h n in
  client (native_delivery n') = None ∧ queued_len (native_delivery n') = 0 ∧
  abort_reason (native_delivery n') = None ∧ native_connection n' = None ∧
  bridge_inv (native_bridge n') ∧
  ∀ sid, is_subscribed (native_bridge n') (handle_channel_id h) sid =
    is_subscribed (native_bridge n) (handle_channel_id h) sid
    && negb (client_subscribed sid (native_delivery n)).
Proof.
  intros Hatt Hinv n'.
  destruct (disconnect_spec t h n Hatt Hinv) as (_ & Hinv' & Hc & Ho & Ha & Hn & Hsub).
  by split_and!.
Qed.

(** A Ping interval or idle timeout below one second
    passes the validation of the configuration, but every handshake under it is
    refused, because the server's own greeting announces zero seconds. *)
Theorem native_subsecond_hello config descriptor connection_id auth message d :
  raw (as_secs (ping_interval config)) = 0%N ∨ raw (as_secs (idle_timeout config)) = 0%N →
  ∃ error, (process_hello config descriptor connection_id auth message d).2 = Err (Fatal error).
Proof.
  intros Hzero. destruct message; try by eexists. cbn [process_hello].
  destruct (match auth with Some id => _ | None => _ end); [by eexists|].
  destruct (negb _); [by eexists|]. unfold_act. cbv zeta.
  unfold failing, enqueue_control. unfold_act.
  destruct (server_text _) as [text|error] eqn:Et; [|by eexists].
  exfalso. unfold server_text, encode_server_message in Et.
  apply bind_Ok in Et as (bytes & ([] & Hv & _)%bind_Ok & _). simpl in Hv.
  destruct (validate_uuid_v7 _ connection_id); [simpl in Hv|done].
  destruct (validate_uuid_v7 _ (config_host_run_id config)); [simpl in Hv|done].
  repeat match type of Hv with (if ?b then _ else _) = _ => destruct b eqn:?; [done|] end.
  destruct Hzero as [Hz|Hz]; rewrite Hz in *; simpl in *; rewrite ?orb_true_r in *; done.
Qed.
End native.

(** ** Examples *)

Definition char (b : Byte.byte) : rstring := [Byte.to_N b].

Lemma native_queue_bounded_witness : queued_len (native_delivery (native_connected 4)) ≤ 4.
Proof.
  refine (proj2 (native_queue_bounded (usual_config 4) native_descriptor_1 native_handle
    (native_initial 4) (native_connected 4) 4 _ _ native_connected_steps)). reflexivity.
Defined.

(** The page of the session, a frame for each event and one for itself, is
    queued between the result and the end marker. *)
Lemma native_subscribe_delivers_witness :
  outgoing (native_delivery (process_subscribe worker_thread native_handle request_uuid session_1
    (native_connected 5)).1) = char <$> [Byte.x72; Byte.x6d; Byte.x6d; Byte.x6d; Byte.x65].
Proof.
  pose proof (native_subscribe_delivers worker_thread native_handle request_uuid session_1
    (native_connected 5) client_1 aggregate_2 sync_1 [char Byte.x6d; char Byte.x6d; char Byte.x6d] (example_seq 2)
    (char Byte.x72) (char Byte.x65) (proj2 (native_connected_serving 5))
    (native_connected_client 5 (or_intror eq_refl)) client_1_may_subscribe
    (native_connected_request 5 (or_intror eq_refl))) as Hspec.
  destruct (process_subscribe _ _ _ _ _) as [n' r].
  apply Hspec; try reflexivity.
Defined.

Lemma native_subscription_leak_witness :
  let n' := client_text 4 Byte.x73 (native_connected 4) in
  client (native_delivery n') = None ∧ is_subscribed (native_bridge n') channel_1 session_1 = true.
Proof.
  refine (proj2 (native_subscription_leak (usual_config 4) native_descriptor_1 worker_thread
    native_handle connection_uuid None [Byte.x73] request_uuid session_1 (native_connected 4)
    client_1 aggregate_2 sync_1 [char Byte.x6d; char Byte.x6d; char Byte.x6d] (example_seq 2)
    (char Byte.x72) (char Byte.x65) (proj2 (native_connected_serving 4)) _ _
    (native_connected_client 4 (or_introl eq_refl)) client_1_may_subscribe
    (native_connected_request 4 (or_introl eq_refl)) _ _ _ _ _ _));
    try reflexivity. by_evaluation.
Defined.

(** The next client, after the connection was dropped. *)
Definition native_second : NativeWorld := reconnect 4 (client_text 4 Byte.x73 (native_connected 4)).

Lemma native_second_serving : serving worker_thread native_handle native_second.
Proof. apply reconnect_serving, client_text_serving, native_connected_serving. Qed.

Lemma native_second_channel :
  ∃ ch, channels (native_bridge native_second) !! channel_1 = Some ch.
Proof. apply (bool_decide_unpack _). vm_compute. exact I. Qed.

(** It gets the result and the end marker, and no page. *)
Lemma native_stale_subscription_witness :
  outgoing (native_delivery (process_subscribe worker_thread native_handle request_uuid session_1
    native_second).1) = char <$> [Byte.x72; Byte.x65].
Proof.
  destruct native_second_channel as [ch Hch].
  pose proof (native_stale_subscription worker_thread native_handle request_uuid session_1
    native_second client_1 ch aggregate_2 (char Byte.x72) (char Byte.x65)
    (proj1 native_second_serving)) as Hspec.
  destruct (process_subscribe _ _ _ _ _) as [n' r].
  apply Hspec; [reflexivity|apply client_1_may_subscribe|exact Hch|reflexivity|by_evaluation|
    reflexivity|reflexivity|by_evaluation].
Defined.

Lemma native_actions_gated_witness :
  ∃ text, process_ready_message worker_thread native_handle (Client_SubmitCommand request_uuid command_1)
    (native_connected 5) =
  (native_connected 5,
   Err (Recoverable (Server_Error (Some request_uuid) Code_SessionNotSubscribed text true))).
Proof.
  refine (proj2 (native_actions_gated worker_thread native_handle request_uuid (native_connected 5))
    command_1 _). by_evaluation.
Defined.

Lemma native_disconnect_contract_witness :
  is_subscribed (native_bridge (disconnect worker_thread native_handle
    (client_text 5 Byte.x73 (native_connected 5)))) channel_1 session_1 =
  is_subscribed (native_bridge (client_text 5 Byte.x73 (native_connected 5))) channel_1 session_1
  && negb (client_subscribed session_1 (native_delivery (client_text 5 Byte.x73 (native_connected 5)))).
Proof.
  assert (serving worker_thread native_handle (client_text 5 Byte.x73 (native_connected 5))) as [Ha Hi]
    by apply client_text_serving, native_connected_serving.
  exact (proj2 (proj2 (proj2 (proj2 (proj2 (native_disconnect_contract worker_thread native_handle
    _ Ha Hi))))) session_1).
Defined.

(** A valid configuration that pings twice a second. *)
Lemma native_subsecond_hello_witness :
  config_validate (with_ping_interval half_second (usual_config 256)) = Ok () ∧
  ∃ error, (process_hello (with_ping_interval half_second (usual_config 256)) native_descriptor_1 connection_uuid None
    (Client_Hello client_uuid (lit "Phone") None [envelope_version] None ∅)
    (native_delivery (native_initial 256))).2 = Err (Fatal error).
Proof.
  split; [reflexivity|]. apply native_subsecond_hello. left. reflexivity.
Defined.

(** A JSON library that knows four documents: an event, a command, and the
    client and server messages that carry them. *)
Definition document (m : ProtocolMessage) : EnvelopeDto :=
  match encode_envelope m with
  | Ok envelope => envelope
  | Err _ => MkEnvelopeDto envelope_version
      (MessageDto_ProviderDescriptor (encode_provider_descriptor provider_descriptor_1))
  end.
Definition event_document : EnvelopeDto := document (Message_AgentEvent event_3).
Definition command_document : EnvelopeDto := document (Message_AgentCommand command_1).

#[local] Instance library_json : SerdeJson := {|
  json_value := nat;
  json_to_vec := λ e, if bool_decide (e = event_document) then Ok [Byte.x00]
                      else if bool_decide (e = command_document) then Ok [Byte.x01]
                      else Err (lit "unknown");
  json_from_slice := λ s, match s with
                          | [Byte.x00] => Ok 0 | [Byte.x01] => Ok 1 | [Byte.x02] => Ok 2
                          | [Byte.x03] => Ok 3 | _ => Err (lit "unknown") end;
  json_get_u64 := λ field _, if bool_decide (field = "protocol_version")
                             then of_raw V2_PROTOCOL_VERSION else of_raw (raw NATIVE_TRANSPORT_VERSION);
  json_from_value := λ v, match v with
                          | 0 => Ok event_document | 1 => Ok command_document
                          | _ => Err (lit "unknown") end
|}.

Definition library_value (v : nat) : result rstring (list Byte.byte) :=
  match v with 0 => Ok [Byte.x00] | 1 => Ok [Byte.x01] | _ => Err (lit "unknown") end.
Definition library_client (m : Envelope (ClientMessageDto nat)) : result rstring (list Byte.byte) :=
  match m with
  | MkEnvelope v (CMDto_SubmitCommand id 1) =>
      if bool_decide (v = NATIVE_TRANSPORT_VERSION ∧ id = request_uuid) then Ok [Byte.x02]
      else Err (lit "unknown")
  | _ => Err (lit "unknown")
  end.
Definition library_server (m : Envelope (ServerMessageDto nat)) : result rstring (list Byte.byte) :=
  match m with
  | MkEnvelope v (SMDto_DomainMessage (CtxDto_LiveEvent RDto_InteractionReadOnly) 0) =>
      if bool_decide (v = NATIVE_TRANSPORT_VERSION) then Ok [Byte.x03] else Err (lit "unknown")
  | _ => Err (lit "unknown")
  end.

#[local] Instance library_native_json : @NativeJson library_json :=
  @Build_NativeJson library_json library_value library_client
    (λ v : nat, if bool_decide (v = 2)
       then Ok (MkEnvelope NATIVE_TRANSPORT_VERSION (CMDto_SubmitCommand request_uuid 1))
       else Err (lit "unknown"))
    library_server
    (λ v : nat, if bool_decide (v = 3)
       then Ok (MkEnvelope NATIVE_TRANSPORT_VERSION
                  (SMDto_DomainMessage (CtxDto_LiveEvent RDto_InteractionReadOnly) 0))
       else Err (lit "unknown")).

#[local] Instance library_json_ok : @SerdeJsonOk library_json.
Proof.
  split. intros envelope bytes. simpl.
  case_bool_decide as He; [|case_bool_decide as Hc; [|done]]; intros [= <-]; subst;
    eexists _, _; by split_and!.
Qed.

#[local] Instance library_native_json_ok : @NativeJsonOk library_json library_native_json.
Proof.
  split.
  - intros envelope bytes value. simpl.
    case_bool_decide; [|case_bool_decide; [|done]]; intros [= <-] [= <-]; by eexists.
  - intros [v [| | | | |id [|[|value]]]] bytes; try done. simpl.
    case_bool_decide as Hv; [|done]. destruct Hv as [-> ->]. intros [= <-].
    eexists _, _. by split_and!.
  - intros [v [| |[| | | |[]|] [|value]| | | | | |]] bytes; try done. simpl.
    case_bool_decide as Hv; [|done]. subst v. intros [= <-].
    eexists _, _. by split_and!.
Qed.

Lemma native_codec_roundtrip_witness :
  decode_client_message [Byte.x02] = Ok (Client_SubmitCommand request_uuid command_1) ∧
  decode_server_message [Byte.x03] =
    Ok (Server_Domain (Ctx_LiveEvent Native_InteractionReadOnly) (Message_AgentEvent event_3)).
Proof.
  split.
  - refine (proj1 native_codec_roundtrip (Client_SubmitCommand request_uuid command_1) _ I _). reflexivity.
  - refine (proj2 native_codec_roundtrip
      (Server_Domain (Ctx_LiveEvent Native_InteractionReadOnly) (Message_AgentEvent event_3)) _
      event_3_wf _). reflexivity.
Defined.
