(* ===== verification/RelayProtocol.v ===== *)
(** * The Relay: messages, framing and authentication

    Models [agentpulse-relay/src] up to its sockets: [error.rs], [framing.rs],
    [protocol.rs], [crypto.rs], [endpoint.rs] and the validation of
    [config.rs].  Base64, HMAC, SHA-256 and JSON are third-party code. *)

From stdpp Require Import base strings numbers sorting gmap list.
From S2P Require Import Prelude Bytes Values Dto Net.

(** ** Errors (error.rs) *)

(** A fixed text, or the rendered error of the UUID parser. *)
Inductive RelayReason : Type := RelayReason_Text (text : string) | RelayReason_Uuid.

Inductive IoErrorKind : Type :=
| Io_WouldBlock | Io_TimedOut | Io_Interrupted | Io_UnexpectedEof | Io_WriteZero | Io_Other.

Inductive RelayError : Type :=
| Relay_InvalidField (field : string) (reason : RelayReason)
| Relay_Json (source : rstring)
| Relay_Base64
| Relay_Io (operation : string) (source : IoErrorKind)
| Relay_Tls (message : rstring)
| Relay_Authentication
| Relay_Protocol (message : rstring)
| Relay_Timeout (operation : string)
| Relay_HostUnavailable
| Relay_HostBusy
| Relay_RoutesChanged
| Relay_Stopped.

Definition relay_invalid (field reason : string) : RelayError :=
  Relay_InvalidField field (RelayReason_Text reason).

#[export] Instance RelayReason_eq_dec : EqDecision RelayReason.
Proof. solve_decision. Defined.
#[export] Instance IoErrorKind_eq_dec : EqDecision IoErrorKind.
Proof. solve_decision. Defined.
#[export] Instance RelayError_eq_dec : EqDecision RelayError.
Proof. solve_decision. Defined.

(** ** Framing (framing.rs) *)

Definition MAX_CONTROL_BYTES : nat := N.to_nat 16384.

(** A byte stream: what the peer has sent, what has been written, and after how
    many further bytes writing fails. *)
Record Stream : Type := MkStream {
  incoming : list Byte.byte;
  written : list Byte.byte;
  writable : option nat
}.

(** [Read::read_exact]: on an early end the stream is at its end. *)
Definition read_exact (operation : string) (n : nat) : act Stream RelayError (list Byte.byte) :=
  λ s, if (length (incoming s) <? n)%nat
       then (MkStream [] (written s) (writable s), Err (Relay_Io operation Io_UnexpectedEof))
       else (MkStream (drop n (incoming s)) (written s) (writable s), Ok (take n (incoming s))).

(** [Write::write_all]: on a failure a part has been written. *)
Definition write_all (operation : string) (bytes : list Byte.byte) : act Stream RelayError unit :=
  λ s, match writable s with
       | Some k =>
           if (k <? length bytes)%nat
           then (MkStream (incoming s) (written s ++ take k bytes) (Some 0),
                 Err (Relay_Io operation Io_Other))
           else (MkStream (incoming s) (written s ++ bytes) (Some (k - length bytes)), Ok ())
       | None => (MkStream (incoming s) (written s ++ bytes) None, Ok ())
       end.

(** [Write::flush]: it fails on a connection that takes no more bytes. *)
Definition flush (operation : string) : act Stream RelayError unit := λ s,
  (s, if bool_decide (writable s = Some 0) then Err (Relay_Io operation Io_Other) else Ok ()).

Definition frame_size : string := "payload must be between 1 byte and 16 KiB".

Definition write_frame (payload : list Byte.byte) : act Stream RelayError unit :=
  if is_empty payload || (MAX_CONTROL_BYTES <? length payload)%nat
  then throw (relay_invalid "control_frame" frame_size)
  else if (2 ^ 32 <=? N.of_nat (length payload))%N
  then throw (relay_invalid "control_frame" "payload length overflow")
  else
    _ ← write_all "write control-frame length" (be_bytes 4 (N.of_nat (length payload)));
    _ ← write_all "write control-frame payload" payload;
    flush "flush control frame".

Definition read_frame : act Stream RelayError (list Byte.byte) :=
  header ← read_exact "read control-frame length" 4;
  let length := N.to_nat (be_value header) in
  if (length =? 0)%nat || (MAX_CONTROL_BYTES <? length)%nat
  then throw (relay_invalid "control_frame" frame_size)
  else read_exact "read control-frame payload" length.

(** ** Endpoints (endpoint.rs) *)

Record RelayEndpoint : Type := MkEndpoint { endpoint_host : rstring; endpoint_port : u16 }.

#[export] Instance RelayEndpoint_eq_dec : EqDecision RelayEndpoint.
Proof. solve_decision. Defined.

(** *** Validation *)

Definition label_byte (c : N) : bool := is_ascii_lowercase c || is_ascii_digit c || (c =? 45)%N.

Definition valid_label (label : rstring) : bool :=
  negb (is_empty label) && (length label <=? 63)%nat && negb (bool_decide (head label = Some 45%N))
  && negb (bool_decide (last label = Some 45%N)) && forallb label_byte label.

Definition validate_host (host : rstring) : result RelayError unit :=
  if is_empty host || (253 <? byte_len host)%nat || bool_decide (last host = Some 46%N)
     || is_ip_address host || negb (is_ascii host)
  then Err (relay_invalid "host" "must be a canonical ASCII DNS name")
  else if negb (forallb valid_label (split_on 46 host))
  then Err (relay_invalid "host" "contains an invalid DNS label")
  else if negb (bool_decide (46%N ∈ host))
  then Err (relay_invalid "host" "must contain at least two DNS labels")
  else Ok ().

Definition RelayEndpoint_new (host : rstring) (port : u16) : result RelayError RelayEndpoint :=
  let host := to_ascii_lowercase host in
  _ ← validate_host host;
  if (raw port =? 0)%N then Err (relay_invalid "port" "must be non-zero")
  else Ok (MkEndpoint host port).

Definition authority (e : RelayEndpoint) : rstring :=
  endpoint_host e ++ lit ":" ++ display_u64 (raw (endpoint_port e)).

Definition RelayEndpoint_from_str (value : rstring) : result RelayError RelayEndpoint :=
  let value := trim value in
  if existsb (λ c, bool_decide (c ∈ lit "/?#@")) value
  then Err (relay_invalid "endpoint" "must be a DNS name and port without a scheme or path")
  else
    '(host, port) ← ok_or (relay_invalid "endpoint" "must use host:port") (rsplit_once 58 value);
    port ← ok_or (relay_invalid "endpoint" "port is invalid") (u16_from_str port);
    RelayEndpoint_new host port.

(** ** Third-party functions *)

Abbreviation bytes32 := (Refined (λ l : list Byte.byte, (length l =? 32)%nat)).

Definition RELAY_PROTOCOL_VERSION : N := 1.
Definition MAX_ROUTES : nat := 16.

Record RouteRegistration : Type := MkRoute { route_id : rstring; authentication_key : rstring }.

Inductive EndpointMessage : Type :=
| HostHello (host_id : rstring) (routes : list RouteRegistration) (proof : rstring)
| ClientHello (route_id proof : rstring)
| Pong (ping_id : rstring).

Inductive RelayErrorCode : Type :=
| AuthenticationFailed | InvalidHandshake | InvalidRequest | HostUnavailable | HostBusy
| ResourceLimit | Internal.

(** [expires_at_unix_seconds] is an [i64]. *)
Inductive RelayMessage : Type :=
| Challenge (connection_id nonce : rstring) (expires_at_unix_seconds : Z)
| HostWaiting (connection_id : rstring)
| TunnelReady (peer_connection_id : rstring)
| Ping (ping_id : rstring)
| RelayFailure (code : RelayErrorCode) (message : rstring) (recoverable : bool).

Record RelayEnvelope (T : Type) : Type := MkRelayEnvelope { relay_version : u64; relay_message : T }.
Arguments MkRelayEnvelope {T}.
Arguments relay_version {T}.
Arguments relay_message {T}.

#[export] Instance RouteRegistration_eq_dec : EqDecision RouteRegistration.
Proof. solve_decision. Defined.
#[export] Instance EndpointMessage_eq_dec : EqDecision EndpointMessage.
Proof. solve_decision. Defined.
#[export] Instance RelayErrorCode_eq_dec : EqDecision RelayErrorCode.
Proof. solve_decision. Defined.
#[export] Instance RelayMessage_eq_dec : EqDecision RelayMessage.
Proof. solve_decision. Defined.

(** [URL_SAFE_NO_PAD], [HmacSha256], [Sha256::digest] and [serde_json]. *)
Class RelayExternals : Type := {
  base64_encode : list Byte.byte → rstring;
  base64_decode : rstring → option (list Byte.byte);
  hmac_sha256 : list Byte.byte → list Byte.byte → option bytes32;
  sha256 : list Byte.byte → bytes32;
  endpoint_to_vec : RelayEnvelope EndpointMessage → result rstring (list Byte.byte);
  endpoint_from_slice : list Byte.byte → result rstring (RelayEnvelope EndpointMessage);
  relay_to_vec : RelayEnvelope RelayMessage → result rstring (list Byte.byte);
  relay_from_slice : list Byte.byte → result rstring (RelayEnvelope RelayMessage)
}.

(** Base64 without padding is canonical: the engine rejects padding and
    non-zero trailing bits.  HMAC takes keys of any length.  JSON documents are
    not empty and are read back as they were written. *)
Class RelayExternalsOk `{RelayExternals} : Prop := {
  base64_decode_encode : ∀ b, base64_decode (base64_encode b) = Some b;
  base64_canonical : ∀ s b, base64_decode s = Some b → s = base64_encode b;
  hmac_any_key : ∀ key m, is_Some (hmac_sha256 key m);
  endpoint_json : ∀ e bytes, endpoint_to_vec e = Ok bytes → bytes ≠ [] ∧ endpoint_from_slice bytes = Ok e;
  relay_json : ∀ e bytes, relay_to_vec e = Ok bytes → bytes ≠ [] ∧ relay_from_slice bytes = Ok e
}.

Section relay.
Context `{Externals} `{RelayExternals}.

(** ** Authentication (crypto.rs) *)

Definition ROUTE_DOMAIN : list Byte.byte := as_bytes (lit "agentpulse.relay.v1.route") ++ [Byte.x00].
Definition CLIENT_AUTH_DOMAIN : list Byte.byte :=
  as_bytes (lit "agentpulse.relay.v1.client-auth") ++ [Byte.x00].
Definition PROOF_DOMAIN : list Byte.byte := as_bytes (lit "agentpulse.relay.v1.proof") ++ [Byte.x00].
Definition HOST_PROOF_ROLE : Byte.byte := Byte.x01.
Definition CLIENT_PROOF_ROLE : Byte.byte := Byte.x02.

Definition decode_32 (field : string) (value : rstring) : result RelayError bytes32 :=
  bytes ← ok_or Relay_Base64 (base64_decode value);
  ok_or (relay_invalid field "must contain exactly 32 bytes") (of_raw bytes).

Definition uuid_bytes (field : string) (value : rstring) : result RelayError (list Byte.byte) :=
  u ← ok_or (Relay_InvalidField field RelayReason_Uuid) (uuid_parse_str value);
  if negb (get_version_num u =? 7)%N then Err (relay_invalid field "must be UUIDv7")
  else Ok (be_bytes 16 (raw u)).

Definition keyed (key prefix value : list Byte.byte) : result RelayError bytes32 :=
  ok_or (relay_invalid "authentication_key" "HMAC key is invalid") (hmac_sha256 key (prefix ++ value)).

Definition proof_prefix (role : Byte.byte) (connection_id : rstring) (nonce : bytes32)
    (expires_at : Z) : result RelayError (list Byte.byte) :=
  connection ← uuid_bytes "connection_id" connection_id;
  Ok (PROOF_DOMAIN ++ [role] ++ connection ++ raw nonce ++ i64_be_bytes expires_at).

Definition route_bytes (route : RouteRegistration) : result RelayError (list Byte.byte) :=
  id ← decode_32 "route_id" (route_id route);
  key ← decode_32 "authentication_key" (authentication_key route);
  Ok (raw id ++ raw key).

Definition host_transcript (connection_id : rstring) (nonce : bytes32) (expires_at : Z)
    (host_id : rstring) (routes : list RouteRegistration) : result RelayError (list Byte.byte) :=
  prefix ← proof_prefix HOST_PROOF_ROLE connection_id nonce expires_at;
  host ← uuid_bytes "host_id" host_id;
  if (65536 <=? N.of_nat (length routes))%N then Err (relay_invalid "routes" "too many routes")
  else
    entries ← try_collect route_bytes routes;
    Ok (prefix ++ host ++ be_bytes 2 (N.of_nat (length routes)) ++ concat entries).

Definition host_proof (key : bytes32) (connection_id : rstring) (nonce : bytes32) (expires_at : Z)
    (host_id : rstring) (routes : list RouteRegistration) : result RelayError rstring :=
  transcript ← host_transcript connection_id nonce expires_at host_id routes;
  mac ← keyed (raw key) [] transcript;
  Ok (base64_encode (raw mac)).

Definition client_transcript (connection_id : rstring) (nonce : bytes32) (expires_at : Z)
    (route_id : rstring) : result RelayError (list Byte.byte) :=
  prefix ← proof_prefix CLIENT_PROOF_ROLE connection_id nonce expires_at;
  route ← decode_32 "route_id" route_id;
  Ok (prefix ++ raw route).

Definition client_proof (key : bytes32) (connection_id : rstring) (nonce : bytes32) (expires_at : Z)
    (route_id : rstring) : result RelayError rstring :=
  transcript ← client_transcript connection_id nonce expires_at route_id;
  mac ← keyed (raw key) [] transcript;
  Ok (base64_encode (raw mac)).

Definition verify_proof (expected supplied : rstring) : bool :=
  match decode_32 "proof" expected, decode_32 "proof" supplied with
  | Ok expected, Ok supplied => bool_decide (expected = supplied)
  | _, _ => false
  end.

Record RelayRouteCredential : Type := MkCredential {
  credential_route_id : rstring;
  credential_key : bytes32
}.

Definition registration (c : RelayRouteCredential) : RouteRegistration :=
  MkRoute (credential_route_id c) (base64_encode (raw (credential_key c))).

Definition device_root_from_token (token : rstring) : bytes32 := sha256 (as_bytes token).
Definition host_authentication_key (token : rstring) : bytes32 := sha256 (as_bytes token).

Definition derive_route (device_root : bytes32) (endpoint : RelayEndpoint) :
    result RelayError RelayRouteCredential :=
  let authority := as_bytes (authority endpoint) in
  route ← keyed (raw device_root) ROUTE_DOMAIN authority;
  key ← keyed (raw device_root) CLIENT_AUTH_DOMAIN authority;
  Ok (MkCredential (base64_encode (raw route)) key).

(** ** Messages (protocol.rs) *)

Definition uuid_v7 (field : string) (value : rstring) : result RelayError unit :=
  u ← ok_or (Relay_InvalidField field RelayReason_Uuid) (uuid_parse_str value);
  if negb (get_version_num u =? 7)%N then Err (relay_invalid field "must be UUIDv7") else Ok ().

(** The loop over the routes of a [HostHello]. *)
Fixpoint validate_routes (previous : option rstring) (routes : list RouteRegistration) :
    result RelayError unit :=
  match routes with
  | [] => Ok ()
  | route :: routes' =>
      _ ← decode_32 "route_id" (route_id route);
      _ ← decode_32 "authentication_key" (authentication_key route);
      if from_option (λ value, negb (str_ltb value (route_id route))) false previous
      then Err (relay_invalid "routes" "must be strictly ordered and unique by route_id")
      else validate_routes (Some (route_id route)) routes'
  end.

Definition validate_endpoint (message : EndpointMessage) : result RelayError unit :=
  match message with
  | HostHello host_id routes proof =>
      _ ← uuid_v7 "host_id" host_id;
      if is_empty routes || (MAX_ROUTES <? length routes)%nat
      then Err (relay_invalid "routes" "must contain between 1 and 16 routes")
      else
        _ ← validate_routes None routes;
        _ ← decode_32 "proof" proof; Ok ()
  | ClientHello route_id proof =>
      _ ← decode_32 "route_id" route_id; _ ← decode_32 "proof" proof; Ok ()
  | Pong ping_id => uuid_v7 "ping_id" ping_id
  end.

Definition validate_relay (message : RelayMessage) : result RelayError unit :=
  match message with
  | Challenge connection_id nonce expires_at =>
      _ ← uuid_v7 "connection_id" connection_id;
      _ ← decode_32 "nonce" nonce;
      if (expires_at <=? 0)%Z then Err (relay_invalid "expires_at_unix_seconds" "must be positive")
      else Ok ()
  | HostWaiting connection_id => uuid_v7 "connection_id" connection_id
  | TunnelReady peer => uuid_v7 "peer_connection_id" peer
  | Ping ping_id => uuid_v7 "ping_id" ping_id
  | RelayFailure _ message _ =>
      if is_empty (trim message) || (256 <? byte_len message)%nat
      then Err (relay_invalid "message" "must be nonblank and at most 256 bytes") else Ok ()
  end.

(** [encode] and [decode], for either side's messages. *)
Definition relay_encode {T} (to_vec : RelayEnvelope T → result rstring (list Byte.byte)) (message : T) :
    result RelayError (list Byte.byte) :=
  bytes ← map_err Relay_Json (to_vec (MkRelayEnvelope (Refine RELAY_PROTOCOL_VERSION I) message));
  if (MAX_CONTROL_BYTES <? length bytes)%nat
  then Err (relay_invalid "control_frame" "encoded message exceeds 16 KiB") else Ok bytes.

Definition relay_decode {T} (from_slice : list Byte.byte → result rstring (RelayEnvelope T))
    (input : list Byte.byte) : result RelayError T :=
  if is_empty input || (MAX_CONTROL_BYTES <? length input)%nat
  then Err (relay_invalid "control_frame" "message must be between 1 byte and 16 KiB")
  else
    envelope ← map_err Relay_Json (from_slice input);
    if negb (raw (relay_version envelope) =? RELAY_PROTOCOL_VERSION)%N
    then Err (relay_invalid "relay_version" "unsupported Relay version")
    else Ok (relay_message envelope).

Definition encode_endpoint (message : EndpointMessage) : result RelayError (list Byte.byte) :=
  _ ← validate_endpoint message; relay_encode endpoint_to_vec message.
Definition decode_endpoint (input : list Byte.byte) : result RelayError EndpointMessage :=
  message ← relay_decode endpoint_from_slice input; _ ← validate_endpoint message; Ok message.
Definition encode_relay (message : RelayMessage) : result RelayError (list Byte.byte) :=
  _ ← validate_relay message; relay_encode relay_to_vec message.
Definition decode_relay (input : list Byte.byte) : result RelayError RelayMessage :=
  message ← relay_decode relay_from_slice input; _ ← validate_relay message; Ok message.

(** [nonce], [connection_id] and [now] are drawn by the caller's environment. *)
Definition challenge (nonce : bytes32) (connection_id : rstring) (now : Z) :
    RelayMessage * bytes32 * rstring * Z :=
  (Challenge connection_id (base64_encode (raw nonce)) (now + 10), nonce, connection_id, (now + 10)%Z).

(** ** Server configuration (config.rs) *)

Definition RELAY_CONFIG_SCHEMA_VERSION : N := 1.

Record RelayServerConfig : Type := MkServerConfig {
  schema_version : u16;
  relay_bind_address : SocketAddr;
  public_endpoint : RelayEndpoint;
  certificate_chain : rstring;
  private_key : rstring;
  config_host_id : rstring;
  config_host_key : rstring
}.

Definition decode_key (value : rstring) : result RelayError bytes32 :=
  bytes ← ok_or Relay_Base64 (base64_decode value);
  ok_or (relay_invalid "host_authentication_key" "must contain 32 bytes") (of_raw bytes).

Definition server_config_validate (c : RelayServerConfig) : result RelayError unit :=
  if negb (raw (schema_version c) =? RELAY_CONFIG_SCHEMA_VERSION)%N
  then Err (relay_invalid "schema_version" "unsupported version")
  else if (raw (socket_port (relay_bind_address c)) =? 0)%N then Err (relay_invalid "bind_address" "port must be non-zero")
  else
    _ ← uuid_v7 "host_id" (config_host_id c);
    _ ← decode_key (config_host_key c);
    if is_empty (certificate_chain c) || is_empty (private_key c)
    then Err (relay_invalid "tls" "certificate and key paths are required") else Ok ().

Definition new_server_config (bind : SocketAddr) (endpoint : RelayEndpoint) (chain key host_id : rstring)
    (host_key : bytes32) : result RelayError RelayServerConfig :=
  let c := MkServerConfig (Refine RELAY_CONFIG_SCHEMA_VERSION I) bind endpoint chain key host_id
             (base64_encode (raw host_key)) in
  _ ← server_config_validate c; Ok c.
End relay.
