(* ===== verification/RelaySpec.v ===== *)
(** * Correctness of the Relay's messages

    Frames and messages are read back as they were written, a proof
    authenticates exactly one context, and an endpoint is its text. *)

From stdpp Require Import base strings numbers sorting gmap list.
From S2P Require Import Prelude Bytes Values Dto Net RelayProtocol.

(** ** Frames *)

(** What [write_frame] puts on the wire. *)
Definition frame (payload : list Byte.byte) : list Byte.byte :=
  be_bytes 4 (N.of_nat (length payload)) ++ payload.

Definition framable (payload : list Byte.byte) : Prop := 1 ≤ length payload ≤ MAX_CONTROL_BYTES.

Lemma framable_dec payload :
  is_empty payload || (MAX_CONTROL_BYTES <? length payload)%nat = false ↔ framable payload.
Proof.
  unfold framable. rewrite orb_false_iff, Nat.ltb_ge. destruct payload; simpl; naive_solver lia.
Qed.

Lemma framable_length payload :
  framable payload → N.to_nat (be_value (be_bytes 4 (N.of_nat (length payload)))) = length payload.
Proof.
  unfold framable, MAX_CONTROL_BYTES. intros Hp. rewrite be_value_bytes, N.mod_small; [lia|].
  change (256 ^ N.of_nat 4)%N with 4294967296%N. lia.
Qed.

Lemma write_frame_spec payload s :
  framable payload → writable s = None →
  write_frame payload s = (MkStream (incoming s) (written s ++ frame payload) None, Ok ()).
Proof.
  intros Hp Hw. unfold write_frame. rewrite (proj2 (framable_dec payload) Hp).
  destruct (N.leb_spec (2 ^ 32) (N.of_nat (length payload))).
  { unfold framable, MAX_CONTROL_BYTES in Hp. change (2 ^ 32)%N with 4294967296%N in *. lia. }
  unfold write_all, mbind, act_bind. rewrite Hw. simpl. by rewrite <-app_assoc.
Qed.

Lemma write_frame_invalid payload s :
  ¬ framable payload → write_frame payload s = (s, Err (relay_invalid "control_frame" frame_size)).
Proof.
  intros Hp. unfold write_frame.
  destruct (is_empty payload || (MAX_CONTROL_BYTES <? length payload)%nat) eqn:E; [done|].
  by apply framable_dec in E.
Qed.

(** [read_exact] of what is there, and of more. *)
Lemma read_exact_app operation l rest w k :
  read_exact operation (length l) (MkStream (l ++ rest) w k) = (MkStream rest w k, Ok l).
Proof.
  unfold read_exact. simpl. rewrite length_app.
  destruct (Nat.ltb_spec (length l + length rest) (length l)); [lia|].
  by rewrite drop_app_length, take_app_length.
Qed.

Lemma read_frame_spec payload rest w k :
  framable payload → read_frame (MkStream (frame payload ++ rest) w k) = (MkStream rest w k, Ok payload).
Proof.
  intros Hp. unfold read_frame, mbind, act_bind, frame.
  rewrite <-app_assoc. rewrite <-(length_be_bytes 4 (N.of_nat (length payload))) at 1.
  rewrite read_exact_app. cbv zeta. rewrite framable_length by done.
  destruct Hp as [Hlo Hhi]. destruct (Nat.eqb_spec (length payload) 0); [lia|].
  destruct (Nat.ltb_spec MAX_CONTROL_BYTES (length payload)); [lia|]. apply read_exact_app.
Qed.

(** A frame that is not complete is an error, whatever is missing. *)
Lemma read_frame_truncated payload n w k :
  framable payload → n < length (frame payload) →
  ∃ s' operation, read_frame (MkStream (take n (frame payload)) w k) =
    (s', Err (Relay_Io operation Io_UnexpectedEof)).
Proof.
  intros Hp Hn. unfold read_frame, mbind, act_bind. unfold frame in *.
  rewrite length_app, length_be_bytes in Hn. unfold read_exact at 1. cbn [incoming].
  rewrite length_take, length_app, length_be_bytes.
  destruct (Nat.ltb_spec (n `min` (4 + length payload)) 4); [by eexists _, _|].
  rewrite take_take, Nat.min_l by lia. rewrite take_app_length' by (by rewrite length_be_bytes).
  cbv zeta. rewrite framable_length by done.
  destruct Hp as [Hlo Hhi]. destruct (Nat.eqb_spec (length payload) 0); [lia|].
  destruct (Nat.ltb_spec MAX_CONTROL_BYTES (length payload)); [lia|].
  unfold read_exact. cbn [incoming orb]. rewrite length_drop, length_take, length_app, length_be_bytes.
  destruct (Nat.ltb_spec (n `min` (4 + length payload) - 4) (length payload)); [by eexists _, _|lia].
Qed.

Lemma read_frame_bounds s s' payload : read_frame s = (s', Ok payload) → framable payload.
Proof.
  unfold read_frame. rewrite act_bind_Ok. intros (s1 & header & _ & Hr). revert Hr. cbv zeta.
  set (len := N.to_nat (be_value header)).
  destruct (Nat.eqb_spec len 0); simpl; [done|].
  destruct (Nat.ltb_spec MAX_CONTROL_BYTES len); simpl; [done|].
  unfold read_exact. destruct (Nat.ltb_spec (length (incoming s1)) len); [done|].
  intros [= _ <-]. unfold framable. rewrite length_take. lia.
Qed.

(** Reading [n] frames in a row. *)
Fixpoint read_frames (n : nat) : act Stream RelayError (list (list Byte.byte)) :=
  match n with
  | 0 => mret []
  | S n' => payload ← read_frame; payloads ← read_frames n'; mret (payload :: payloads)
  end.

Fixpoint write_frames (payloads : list (list Byte.byte)) : act Stream RelayError unit :=
  match payloads with
  | [] => mret ()
  | payload :: payloads' => _ ← write_frame payload; write_frames payloads'
  end.

Lemma write_frames_spec payloads s :
  Forall framable payloads → writable s = None →
  write_frames payloads s =
    (MkStream (incoming s) (written s ++ concat (frame <$> payloads)) None, Ok ()).
Proof.
  intros Hp. revert s. induction Hp as [|payload payloads Hp _ IH]; intros s Hs.
  - simpl. rewrite app_nil_r. destruct s; simpl in *; by subst.
  - cbn [write_frames]. unfold mbind, act_bind. rewrite write_frame_spec by done.
    rewrite IH by done. simpl. by rewrite <-app_assoc.
Qed.

Lemma read_frames_spec payloads rest w k :
  Forall framable payloads →
  read_frames (length payloads) (MkStream (concat (frame <$> payloads) ++ rest) w k) =
    (MkStream rest w k, Ok payloads).
Proof.
  intros Hp. induction Hp as [|payload payloads Hp _ IH]; [done|].
  cbn [length read_frames fmap list_fmap concat]. unfold mbind, act_bind.
  rewrite <-app_assoc, read_frame_spec by done. unfold mbind, act_bind in IH. by rewrite IH.
Qed.

(** ** Messages *)

Section messages.
Context `{Externals} `{RelayExternals} `{!RelayExternalsOk}.

Lemma relay_decode_encode {T} (to_vec : RelayEnvelope T → result rstring (list Byte.byte)) from_slice m bytes :
  (∀ e bytes, to_vec e = Ok bytes → bytes ≠ [] ∧ from_slice bytes = Ok e) →
  relay_encode to_vec m = Ok bytes → framable bytes ∧ relay_decode from_slice bytes = Ok m.
Proof.
  intros Hjson (bytes' & Hv%map_err_Ok & Hb)%bind_Ok. revert Hb.
  destruct (MAX_CONTROL_BYTES <? length bytes')%nat eqn:El; [done|]. intros [= ->].
  apply Hjson in Hv as [Hne Hs].
  assert (is_empty bytes || (MAX_CONTROL_BYTES <? length bytes)%nat = false) as Hf
    by (rewrite El; by destruct bytes).
  split; [by apply framable_dec|]. unfold relay_decode. by rewrite Hf, Hs.
Qed.

Lemma decode_encode_endpoint m bytes :
  encode_endpoint m = Ok bytes → framable bytes ∧ decode_endpoint bytes = Ok m.
Proof.
  intros ([] & Hv & Hb)%bind_Ok.
  destruct (relay_decode_encode _ endpoint_from_slice _ _ endpoint_json Hb) as [Hf Hd].
  split; [done|]. unfold decode_endpoint. rewrite Hd. simpl. by rewrite Hv.
Qed.

Lemma decode_encode_relay m bytes :
  encode_relay m = Ok bytes → framable bytes ∧ decode_relay bytes = Ok m.
Proof.
  intros ([] & Hv & Hb)%bind_Ok.
  destruct (relay_decode_encode _ relay_from_slice _ _ relay_json Hb) as [Hf Hd].
  split; [done|]. unfold decode_relay. rewrite Hd. simpl. by rewrite Hv.
Qed.

(** The routes of an accepted [HostHello] are strictly ordered. *)
Lemma validate_routes_sorted previous routes :
  validate_routes previous routes = Ok () →
  StronglySorted str_lt (route_id <$> routes) ∧
  ∀ p, previous = Some p → Forall (str_lt p) (route_id <$> routes).
Proof.
  revert previous. induction routes as [|r routes IH]; intros previous; cbn [validate_routes].
  { intros _. split; [constructor|]. intros. constructor. }
  intros (id & _ & (key & _ & Hr)%bind_Ok)%bind_Ok. revert Hr.
  destruct (from_option _ _ _) eqn:Ep; [done|]. intros Hr. destruct (IH _ Hr) as [Hs Hall].
  specialize (Hall _ eq_refl). split; [by constructor|]. intros p ->. simpl in Ep.
  apply negb_false_iff in Ep. constructor; [done|].
  eapply Forall_impl; [done|]. intros u Hu. by etrans.
Qed.

(** ** Proofs *)

Lemma decode_32_Ok field value (b : bytes32) :
  decode_32 field value = Ok b ↔ base64_decode value = Some (raw b).
Proof.
  unfold decode_32. rewrite bind_Ok. split.
  - intros (bytes & ->%ok_or_Ok & Hb%ok_or_Ok). by apply of_raw_Some in Hb as <-.
  - intros Hd. exists (raw b). by rewrite Hd, of_raw_raw.
Qed.

Lemma decode_32_encode field (b : bytes32) : decode_32 field (base64_encode (raw b)) = Ok b.
Proof. apply decode_32_Ok, base64_decode_encode. Qed.

Lemma decode_32_canonical field value (b : bytes32) :
  decode_32 field value = Ok b → value = base64_encode (raw b).
Proof. intros Hd%decode_32_Ok. by apply base64_canonical. Qed.

(** A proof is accepted exactly if it is the expected one. *)
Lemma verify_proof_spec (mac : bytes32) supplied :
  verify_proof (base64_encode (raw mac)) supplied = true ↔ supplied = base64_encode (raw mac).
Proof.
  unfold verify_proof. rewrite decode_32_encode. split.
  - destruct (decode_32 "proof" supplied) as [b|] eqn:Eb; [|done].
    intros ->%bool_decide_eq_true. by eapply decode_32_canonical.
  - intros ->. rewrite decode_32_encode. by apply bool_decide_eq_true.
Qed.

Lemma bytes32_length (b : bytes32) : length (raw b) = 32.
Proof. pose proof (raw_ok b) as Hb. by apply Is_true_true, Nat.eqb_eq in Hb. Qed.

Lemma uuid_bytes_Ok field value bytes :
  uuid_bytes field value = Ok bytes →
  length bytes = 16 ∧ ∃ u, uuid_parse_str value = Some u ∧ get_version_num u = 7%N ∧ bytes = be_bytes 16 (raw u).
Proof.
  intros (u & Hu%ok_or_Ok & Hb)%bind_Ok. destruct (N.eqb_spec (get_version_num u) 7); [|done].
  cbn [negb] in Hb. assert (bytes = be_bytes 16 (raw u)) as -> by congruence.
  split; [apply length_be_bytes|]. by exists u.
Qed.

(** Two texts of one UUID. *)
Definition same_uuid (s t : rstring) : Prop :=
  is_Some (uuid_parse_str s) ∧ uuid_parse_str s = uuid_parse_str t.

Lemma uuid_bytes_inj field field' s t bytes :
  uuid_bytes field s = Ok bytes → uuid_bytes field' t = Ok bytes → same_uuid s t.
Proof.
  intros (_ & u & Hu & _ & Hb)%uuid_bytes_Ok (_ & v & Hv & _ & Hb')%uuid_bytes_Ok.
  subst bytes. apply be_bytes_inj in Hb'.
  - apply refined_eq in Hb' as ->. split; [by eauto|congruence].
  - pose proof (raw_ok u) as Hr. apply Is_true_true, N.ltb_lt in Hr.
    change (256 ^ N.of_nat 16)%N with (2 ^ 128)%N. lia.
  - pose proof (raw_ok v) as Hr. apply Is_true_true, N.ltb_lt in Hr.
    change (256 ^ N.of_nat 16)%N with (2 ^ 128)%N. lia.
Qed.

(** Everything in front of the role-specific part has a fixed length. *)
Lemma proof_prefix_inj role role' c c' (n n' : bytes32) e e' p p' rest rest' :
  i64_range e → i64_range e' →
  proof_prefix role c n e = Ok p → proof_prefix role' c' n' e' = Ok p' →
  p ++ rest = p' ++ rest' →
  role = role' ∧ same_uuid c c' ∧ n = n' ∧ e = e' ∧ rest = rest'.
Proof.
  intros He He' (u & Hu & Hp%Ok_inj)%bind_Ok (u' & Hu' & Hp'%Ok_inj)%bind_Ok Heq. subst p p'.
  rewrite <-!(app_assoc PROOF_DOMAIN) in Heq. apply app_inv_head in Heq.
  rewrite <-!app_assoc in Heq. apply (app_inj_1 [_] [_]) in Heq as [[= ->] Heq]; [|done].
  split; [done|].
  pose proof (proj1 (uuid_bytes_Ok _ _ _ Hu)). pose proof (proj1 (uuid_bytes_Ok _ _ _ Hu')).
  rewrite <-?app_assoc in Heq. apply app_inj_1 in Heq as [-> Heq]; [|congruence].
  apply app_inj_1 in Heq as [Hn Heq]; [|by rewrite !bytes32_length].
  apply app_inj_1 in Heq as [Hz Heq]; [|by unfold i64_be_bytes; rewrite !length_be_bytes].
  split; [by eapply uuid_bytes_inj|]. split; [by apply refined_eq|]. split; [|done].
  by apply i64_be_bytes_inj.
Qed.

Lemma route_bytes_inj r r' bytes :
  route_bytes r = Ok bytes → route_bytes r' = Ok bytes → r = r'.
Proof.
  destruct r as [i k], r' as [i' k']. unfold route_bytes. simpl.
  intros (x & Hx & (y & Hy & [= <-])%bind_Ok)%bind_Ok (x' & Hx' & (y' & Hy' & [= Heq])%bind_Ok)%bind_Ok.
  apply app_inj_1 in Heq as [->%refined_eq ->%refined_eq]; [|by rewrite !bytes32_length].
  apply decode_32_canonical in Hx as ->, Hy as ->, Hx' as ->, Hy' as ->. done.
Qed.

Lemma length_route_bytes r bytes : route_bytes r = Ok bytes → length bytes = 64.
Proof.
  intros (x & _ & (y & _ & [= <-])%bind_Ok)%bind_Ok. by rewrite length_app, !bytes32_length.
Qed.

Lemma routes_inj rs rs' es es' :
  try_collect route_bytes rs = Ok es → try_collect route_bytes rs' = Ok es' →
  length rs = length rs' → concat es = concat es' → rs = rs'.
Proof.
  rewrite !try_collect_Ok. intros Hes. revert rs' es'.
  induction Hes as [|r e rs es He _ IH]; intros [|r' rs'] es'; [done|done|done|].
  inversion 1 as [|? e' ? es1 He' Hes']; subst. simpl. intros [= Hlen] Heq.
  apply app_inj_1 in Heq as [-> Heq];
    [|by rewrite (length_route_bytes _ _ He), (length_route_bytes _ _ He')].
  f_equal; [by eapply route_bytes_inj|by eapply IH].
Qed.

Lemma host_transcript_inj c c' n n' e e' h h' rs rs' tr :
  i64_range e → i64_range e' →
  host_transcript c n e h rs = Ok tr → host_transcript c' n' e' h' rs' = Ok tr →
  same_uuid c c' ∧ n = n' ∧ e = e' ∧ same_uuid h h' ∧ rs = rs'.
Proof.
  intros He He' (p & Hp & (u & Hu & Htr)%bind_Ok)%bind_Ok (p' & Hp' & (u' & Hu' & Htr')%bind_Ok)%bind_Ok.
  destruct (N.leb_spec 65536 (N.of_nat (length rs))); [done|].
  destruct (N.leb_spec 65536 (N.of_nat (length rs'))); [done|].
  apply bind_Ok in Htr as (es & Hes & <-%Ok_inj), Htr' as (es' & Hes' & Heq%Ok_inj).
  symmetry in Heq.
  destruct (proof_prefix_inj _ _ _ _ _ _ _ _ _ _ _ _ He He' Hp Hp' Heq) as (_ & Hc & Hn & Hz & Heq').
  pose proof (proj1 (uuid_bytes_Ok _ _ _ Hu)). pose proof (proj1 (uuid_bytes_Ok _ _ _ Hu')).
  apply app_inj_1 in Heq' as [-> Heq']; [|congruence].
  apply app_inj_1 in Heq' as [Hl Heq']; [|by rewrite !length_be_bytes].
  split_and!; try done; [by eapply uuid_bytes_inj|].
  apply be_bytes_inj in Hl; [|change (256 ^ N.of_nat 2)%N with 65536%N; lia..].
  eapply routes_inj; [done..|lia|done].
Qed.

Lemma client_transcript_inj c c' n n' e e' r r' tr :
  i64_range e → i64_range e' →
  client_transcript c n e r = Ok tr → client_transcript c' n' e' r' = Ok tr →
  same_uuid c c' ∧ n = n' ∧ e = e' ∧ r = r'.
Proof.
  intros He He' (p & Hp & (x & Hx & <-%Ok_inj)%bind_Ok)%bind_Ok
    (p' & Hp' & (x' & Hx' & Heq%Ok_inj)%bind_Ok)%bind_Ok.
  symmetry in Heq.
  destruct (proof_prefix_inj _ _ _ _ _ _ _ _ _ _ _ _ He He' Hp Hp' Heq) as (_ & Hc & Hn & Hz & Heq').
  apply refined_eq in Heq' as ->. split_and!; try done.
  apply decode_32_canonical in Hx as ->, Hx' as ->. done.
Qed.

Lemma transcripts_differ c c' n n' e e' h rs r tr :
  i64_range e → i64_range e' →
  host_transcript c n e h rs = Ok tr → client_transcript c' n' e' r = Ok tr → False.
Proof.
  intros He He' (p & Hp & (u & Hu & Htr)%bind_Ok)%bind_Ok (p' & Hp' & (x' & Hx' & Heq%Ok_inj)%bind_Ok)%bind_Ok.
  destruct (65536 <=? _)%N; [done|]. apply bind_Ok in Htr as (es & _ & <-%Ok_inj). symmetry in Heq.
  destruct (proof_prefix_inj _ _ _ _ _ _ _ _ _ _ _ _ He He' Hp Hp' Heq) as (Hrole & _). done.
Qed.

(** A proof is the encoded MAC of its transcript. *)
Lemma host_proof_Ok key c n e h rs proof :
  host_proof key c n e h rs = Ok proof ↔
  ∃ tr mac, host_transcript c n e h rs = Ok tr ∧ hmac_sha256 (raw key) tr = Some mac ∧
    proof = base64_encode (raw mac).
Proof.
  unfold host_proof, keyed. rewrite bind_Ok. setoid_rewrite bind_Ok. setoid_rewrite ok_or_Ok.
  simpl. naive_solver.
Qed.

Lemma client_proof_Ok key c n e r proof :
  client_proof key c n e r = Ok proof ↔
  ∃ tr mac, client_transcript c n e r = Ok tr ∧ hmac_sha256 (raw key) tr = Some mac ∧
    proof = base64_encode (raw mac).
Proof.
  unfold client_proof, keyed. rewrite bind_Ok. setoid_rewrite bind_Ok. setoid_rewrite ok_or_Ok.
  simpl. naive_solver.
Qed.

(** The two transcripts at hand are different messages with one MAC. *)
Definition collide (key : bytes32) (transcript transcript' : result RelayError (list Byte.byte)) : Prop :=
  ∃ m m', transcript = Ok m ∧ transcript' = Ok m' ∧ m ≠ m' ∧ hmac_sha256 (raw key) m = hmac_sha256 (raw key) m'.

Lemma mac_encode_inj (mac mac' : bytes32) :
  base64_encode (raw mac) = base64_encode (raw mac') → mac = mac'.
Proof.
  intros Heq. apply (f_equal base64_decode) in Heq. rewrite !base64_decode_encode in Heq.
  injection Heq as Heq. by apply refined_eq.
Qed.
End messages.

(** ** Endpoints *)

Section endpoints.

Lemma elem_of_split_on c s d : d ∈ s → d = c ∨ ∃ label, label ∈ split_on c s ∧ d ∈ label.
Proof.
  induction s as [|e s IH]; [by intros ?%elem_of_nil|]. cbn [split_on].
  intros [->|Hd]%elem_of_cons.
  - destruct (N.eqb_spec e c); [by left|]. right.
    destruct (split_on c s) as [|label labels]; eexists; (split; [left|]); by left.
  - destruct (IH Hd) as [?|(label & Hl & Hdl)]; [by left|]. right.
    destruct (N.eqb_spec e c).
    + exists label. split; [by right|done].
    + destruct (split_on c s) as [|label' labels]; [by apply elem_of_nil in Hl|].
      apply elem_of_cons in Hl as [->|Hl].
      * exists (e :: label'). split; [left|by right].
      * exists label. split; [by right|done].
Qed.

(** The characters of a valid host. *)
Lemma validate_host_bytes host c :
  validate_host host = Ok () → c ∈ host → c = 46%N ∨ label_byte c = true.
Proof.
  intros Hv Hc. unfold validate_host in Hv.
  destruct (_ || _ || _ || _ || _); [done|].
  destruct (forallb valid_label (split_on 46 host)) eqn:Hl; [|done].
  apply (elem_of_split_on 46) in Hc as [->|(label & Hin & Hc)]; [by left|]. right.
  rewrite forallb_forall in Hl. apply list_elem_of_In in Hin. specialize (Hl _ Hin).
  unfold valid_label in Hl. rewrite !andb_true_iff, forallb_forall in Hl. destruct Hl as [_ Hl].
  apply Hl. by apply list_elem_of_In.
Qed.

Lemma label_byte_range c : label_byte c = true → (97 ≤ c ≤ 122 ∨ 48 ≤ c ≤ 57 ∨ c = 45)%N.
Proof.
  unfold label_byte, is_ascii_lowercase, is_ascii_digit.
  rewrite !orb_true_iff, !andb_true_iff, !N.leb_le, N.eqb_eq. lia.
Qed.

Lemma to_ascii_lowercase_id s :
  Forall (λ c, c = 46 ∨ 97 ≤ c ≤ 122 ∨ 48 ≤ c ≤ 57 ∨ c = 45)%N s → to_ascii_lowercase s = s.
Proof.
  induction 1 as [|c s Hc _ IH]; [done|]. unfold to_ascii_lowercase in *. rewrite fmap_cons, IH.
  f_equal. destruct (N.leb_spec 65 c), (N.leb_spec c 90); simpl; try done. lia.
Qed.

Lemma is_whitespace_gt c : (33 ≤ c ≤ 126)%N → is_whitespace c = false.
Proof.
  intros Hc. unfold is_whitespace.
  repeat match goal with
  | |- context [(?a <=? ?b)%N] => destruct (N.leb_spec a b); try lia
  | |- context [(?a =? ?b)%N] => destruct (N.eqb_spec a b); try lia
  end; done.
Qed.

Lemma trim_id s : Forall (λ c, 33 ≤ c ≤ 126)%N s → trim s = s.
Proof.
  assert (∀ l, Forall (λ c, 33 ≤ c ≤ 126)%N l → trim_start l = l) as Hstart.
  { intros l Hl. destruct Hl as [|c l Hc _]; [done|]. simpl. by rewrite is_whitespace_gt. }
  intros Hs. unfold trim, trim_end. rewrite (Hstart s) by done.
  rewrite (Hstart (reverse s)) by by apply Forall_reverse. apply reverse_involutive.
Qed.

Lemma rsplit_once_app c s t :
  c ∉ s → c ∉ t → rsplit_once c (s ++ c :: t) = Some (s, t).
Proof.
  intros Hs Ht. assert (rsplit_once c t = None) as Hnone.
  { clear Hs. induction t as [|d t IH]; [done|]. simpl. rewrite IH by set_solver.
    destruct (N.eqb_spec d c); set_solver. }
  induction s as [|d s IH]; simpl; [by rewrite Hnone, N.eqb_refl|]. rewrite IH by set_solver. done.
Qed.

Lemma display_digits (v : u64) : Forall (λ c, 48 ≤ c ≤ 57)%N (display_u64 (raw v)).
Proof.
  destruct (display_canonical v) as [(Hd & _) _]. rewrite forallb_forall in Hd.
  apply Forall_forall. intros c Hc. apply is_ascii_digit_spec, Hd. by apply list_elem_of_In.
Qed.

Lemma u16_from_display (p : u16) : u16_from_str (display_u64 (raw p)) = Some p.
Proof.
  assert (Is_true (raw p <=? u64_max)%N) as Hp.
  { pose proof (raw_ok p) as Hp. apply Is_true_true, N.ltb_lt in Hp. apply Is_true_true, N.leb_le.
    unfold u64_max. lia. }
  unfold u16_from_str. pose proof (u64_from_display (Refine (raw p) Hp)) as Hu. simpl in Hu.
  rewrite Hu. simpl. apply of_raw_raw.
Qed.

Lemma RelayEndpoint_new_Ok host port e :
  RelayEndpoint_new host port = Ok e →
  e = MkEndpoint (to_ascii_lowercase host) port ∧ validate_host (to_ascii_lowercase host) = Ok () ∧
  raw port ≠ 0%N.
Proof.
  intros ([] & Hv & He)%bind_Ok. destruct (N.eqb_spec (raw port) 0); [done|].
  apply Ok_inj in He as <-. done.
Qed.

(** The text of an endpoint is read back as the endpoint. *)
Lemma endpoint_from_authority host port e :
  RelayEndpoint_new host port = Ok e → RelayEndpoint_from_str (authority e) = Ok e.
Proof.
  intros (-> & Hv & Hp)%RelayEndpoint_new_Ok. set (h := to_ascii_lowercase host) in *.
  assert (Forall (λ c, c = 46 ∨ 97 ≤ c ≤ 122 ∨ 48 ≤ c ≤ 57 ∨ c = 45)%N h) as Hh.
  { apply Forall_forall. intros c Hc.
    destruct (validate_host_bytes _ _ Hv Hc) as [->|?%label_byte_range]; [by left|by right]. }
  assert (Is_true (raw port <=? u64_max)%N) as Hpb.
  { pose proof (raw_ok port) as Hb. apply Is_true_true, N.ltb_lt in Hb. apply Is_true_true, N.leb_le.
    unfold u64_max. lia. }
  pose proof (display_digits (Refine (raw port) Hpb)) as Hd. simpl in Hd.
  assert (Forall (λ c, 45 ≤ c ≤ 46 ∨ 48 ≤ c ≤ 58 ∨ 97 ≤ c ≤ 122)%N (authority (MkEndpoint h port))) as Hall.
  { unfold authority. simpl. apply Forall_app. split; [eapply Forall_impl; [exact Hh|]; simpl; lia|].
    constructor; [lia|]. eapply Forall_impl; [exact Hd|]. simpl. lia. }
  unfold RelayEndpoint_from_str. rewrite trim_id by (eapply Forall_impl; [exact Hall|]; simpl; lia).
  destruct (existsb _ _) eqn:Ee.
  { apply existsb_exists in Ee as (c & Hc & Hin%bool_decide_eq_true). apply list_elem_of_In in Hc.
    rewrite Forall_forall in Hall. specialize (Hall _ Hc). simpl in Hall.
    change (lit "/?#@") with [47; 63; 35; 64]%N in Hin. set_solver by lia. }
  unfold authority. cbn [endpoint_host endpoint_port]. change (lit ":") with [58%N]. simpl app.
  rewrite rsplit_once_app.
  - simpl. rewrite u16_from_display. simpl. unfold RelayEndpoint_new.
    rewrite to_ascii_lowercase_id by done. rewrite Hv. simpl.
    by destruct (N.eqb_spec (raw port) 0).
  - intros Hin. rewrite Forall_forall in Hh. specialize (Hh _ Hin). simpl in Hh. lia.
  - intros Hin. rewrite Forall_forall in Hd. specialize (Hd _ Hin). simpl in Hd. lia.
Qed.
End endpoints.
