(* ===== verification/Tunnel.v ===== *)
(** * The Relay's tunnel

    Models [agentpulse-relay/src/tunnel.rs]: the loop that copies bytes both
    ways between two non-blocking streams through two bounded buffers.  One
    iteration takes what the sockets and the clock answer in it; what was read
    from and written to the streams is part of the state. *)

From stdpp Require Import base strings numbers list.
From S2P Require Import Prelude Bytes RelayProtocol.

Definition BUFFER_CAPACITY : nat := N.to_nat 65536.
Definition CHUNK_BYTES : nat := N.to_nat 8192.

(** What an iteration sees: the stop flag, the answers of the four calls (a
    read of no bytes is the end of the stream), the instants at which a stall
    would be noted and the one at its end, in nanoseconds. *)
Record PumpInput : Type := MkPumpInput {
  stop_flag : bool;
  left_read : result IoErrorKind (list Byte.byte);
  right_read : result IoErrorKind (list Byte.byte);
  right_write : result IoErrorKind nat;
  left_write : result IoErrorKind nat;
  left_stall_now : N;
  right_stall_now : N;
  iteration_now : N
}.

Record PumpState : Type := MkPump {
  left_to_right : list Byte.byte;
  right_to_left : list Byte.byte;
  last_activity : N;
  left_stalled_since : option N;
  right_stalled_since : option N;
  to_host_bytes : N;
  to_client_bytes : N;
  progressed : bool;
  (** The streams. *)
  left_received : list Byte.byte;
  right_received : list Byte.byte;
  left_sent : list Byte.byte;
  right_sent : list Byte.byte
}.

Definition pump_start (started : N) : PumpState :=
  MkPump [] [] started None None 0 0 false [] [] [] [].

(** [break], or [return Err(..)]. *)
Inductive PumpExit : Type := Pump_Break | Pump_Error (error : RelayError).

#[export] Instance PumpExit_eq_dec : EqDecision PumpExit.
Proof. solve_decision. Defined.

Definition saturating_add (a n : N) : N := N.min u64_max (a + n).

Definition retryable (kind : IoErrorKind) : bool :=
  match kind with Io_WouldBlock | Io_TimedOut | Io_Interrupted => true | _ => false end.

(** [let mut progressed = false] *)
Definition begin_iteration (s : PumpState) : PumpState :=
  MkPump (left_to_right s) (right_to_left s) (last_activity s) (left_stalled_since s)
    (right_stalled_since s) (to_host_bytes s) (to_client_bytes s) false (left_received s)
    (right_received s) (left_sent s) (right_sent s).

Definition received_left (bytes : list Byte.byte) (s : PumpState) : PumpState :=
  MkPump (left_to_right s ++ bytes) (right_to_left s) (last_activity s) (left_stalled_since s)
    (right_stalled_since s) (to_host_bytes s)
    (saturating_add (to_client_bytes s) (N.of_nat (length bytes))) true
    (left_received s ++ bytes) (right_received s) (left_sent s) (right_sent s).
Definition received_right (bytes : list Byte.byte) (s : PumpState) : PumpState :=
  MkPump (left_to_right s) (right_to_left s ++ bytes) (last_activity s) (left_stalled_since s)
    (right_stalled_since s) (saturating_add (to_host_bytes s) (N.of_nat (length bytes)))
    (to_client_bytes s) true
    (left_received s) (right_received s ++ bytes) (left_sent s) (right_sent s).

Definition sent_right (n : nat) (s : PumpState) : PumpState :=
  MkPump (drop n (left_to_right s)) (right_to_left s) (last_activity s) None
    (right_stalled_since s) (to_host_bytes s) (to_client_bytes s) true
    (left_received s) (right_received s) (left_sent s) (right_sent s ++ take n (left_to_right s)).
Definition sent_left (n : nat) (s : PumpState) : PumpState :=
  MkPump (left_to_right s) (drop n (right_to_left s)) (last_activity s) (left_stalled_since s)
    None (to_host_bytes s) (to_client_bytes s) true
    (left_received s) (right_received s) (left_sent s ++ take n (right_to_left s)) (right_sent s).

Definition set_left_stalled (v : option N) (s : PumpState) : PumpState :=
  MkPump (left_to_right s) (right_to_left s) (last_activity s) v (right_stalled_since s)
    (to_host_bytes s) (to_client_bytes s) (progressed s) (left_received s) (right_received s)
    (left_sent s) (right_sent s).
Definition set_right_stalled (v : option N) (s : PumpState) : PumpState :=
  MkPump (left_to_right s) (right_to_left s) (last_activity s) (left_stalled_since s) v
    (to_host_bytes s) (to_client_bytes s) (progressed s) (left_received s) (right_received s)
    (left_sent s) (right_sent s).
Definition set_last_activity (v : N) (s : PumpState) : PumpState :=
  MkPump (left_to_right s) (right_to_left s) v (left_stalled_since s) (right_stalled_since s)
    (to_host_bytes s) (to_client_bytes s) (progressed s) (left_received s) (right_received s)
    (left_sent s) (right_sent s).

(** A read into the free part of a buffer, of at most one chunk. *)
Definition pump_read (buffer : PumpState → list Byte.byte)
    (received : list Byte.byte → PumpState → PumpState) (operation : string)
    (answer : result IoErrorKind (list Byte.byte)) : act PumpState PumpExit unit :=
  s ← gets id;
  if (length (buffer s) <? BUFFER_CAPACITY)%nat then
    let available := ((BUFFER_CAPACITY - length (buffer s)) `min` CHUNK_BYTES)%nat in
    match answer with
    | Ok bytes =>
        let bytes := take available bytes in
        if is_empty bytes then throw Pump_Break else modify (received bytes)
    | Err kind => if retryable kind then mret ()
                  else throw (Pump_Error (Relay_Io operation kind))
    end
  else mret ().

(** A write of a buffer, which may take a part of it. *)
Definition pump_write (buffer : PumpState → list Byte.byte) (sent : nat → PumpState → PumpState)
    (stalled : PumpState → option N) (set_stalled : option N → PumpState → PumpState)
    (operation : string) (answer : result IoErrorKind nat) (now : N) : act PumpState PumpExit unit :=
  s ← gets id;
  if is_empty (buffer s) then modify (set_stalled None)
  else match answer with
       | Ok count =>
           let count := (count `min` length (buffer s))%nat in
           if (count =? 0)%nat then throw (Pump_Error (Relay_Io operation Io_WriteZero))
           else modify (sent count)
       | Err kind =>
           if retryable kind then modify (set_stalled (Some (default now (stalled s))))
           else throw (Pump_Error (Relay_Io operation kind))
       end.

Definition pump_iteration (idle_timeout stalled_timeout : N) (i : PumpInput) :
    act PumpState PumpExit unit :=
  _ ← modify begin_iteration;
  _ ← pump_read left_to_right received_left "read tunnel Host side" (left_read i);
  _ ← pump_read right_to_left received_right "read tunnel Client side" (right_read i);
  _ ← pump_write left_to_right sent_right left_stalled_since set_left_stalled
        "write tunnel Client side" (right_write i) (left_stall_now i);
  _ ← pump_write right_to_left sent_left right_stalled_since set_right_stalled
        "write tunnel Host side" (left_write i) (right_stall_now i);
  let now := iteration_now i in
  _ ← modify (λ s, if progressed s then set_last_activity now s else s);
  s ← gets id;
  if (idle_timeout <=? now - last_activity s)%N
  then throw (Pump_Error (Relay_Timeout "waiting for tunneled traffic"))
  else if from_option (λ since, (stalled_timeout <=? now - since)%N) false (left_stalled_since s)
          || from_option (λ since, (stalled_timeout <=? now - since)%N) false (right_stalled_since s)
  then throw (Pump_Error (Relay_Timeout "draining a slow tunnel peer"))
  else mret ().

(** The statistics a completed tunnel reports. *)
Record RelayTunnelStats : Type := MkStats { stats_to_host : N; stats_to_client : N }.

Definition stats_of (s : PumpState) : RelayTunnelStats := MkStats (to_host_bytes s) (to_client_bytes s).

(** [pump] over the iterations seen so far; without a result it still runs. *)
Fixpoint pump (idle_timeout stalled_timeout : N) (inputs : list PumpInput) (s : PumpState) :
    PumpState * option (result RelayError RelayTunnelStats) :=
  match inputs with
  | [] => (s, None)
  | i :: inputs' =>
      if stop_flag i then (s, Some (Ok (stats_of s)))
      else match pump_iteration idle_timeout stalled_timeout i s with
           | (s', Ok _) => pump idle_timeout stalled_timeout inputs' s'
           | (s', Err Pump_Break) => (s', Some (Ok (stats_of s')))
           | (s', Err (Pump_Error e)) => (s', Some (Err e))
           end
  end.

(** ** The tunnel is transparent *)

(** What was read is what was written and what is buffered; the counters count
    what was read. *)
Record pump_inv (s : PumpState) : Prop := {
  inv_left : left_received s = right_sent s ++ left_to_right s;
  inv_right : right_received s = left_sent s ++ right_to_left s;
  inv_left_buffer : length (left_to_right s) ≤ BUFFER_CAPACITY;
  inv_right_buffer : length (right_to_left s) ≤ BUFFER_CAPACITY;
  inv_to_client : to_client_bytes s = N.min u64_max (N.of_nat (length (left_received s)));
  inv_to_host : to_host_bytes s = N.min u64_max (N.of_nat (length (right_received s)))
}.

Lemma saturating_count {A} (l l' : list A) :
  saturating_add (N.min u64_max (N.of_nat (length l))) (N.of_nat (length l')) =
    N.min u64_max (N.of_nat (length (l ++ l'))).
Proof. unfold saturating_add. rewrite length_app. lia. Qed.

Definition pump_keeps (m : act PumpState PumpExit unit) : Prop := ∀ s, pump_inv s → pump_inv (m s).1.

Lemma pump_keeps_bind (m k : act PumpState PumpExit unit) :
  pump_keeps m → pump_keeps k → pump_keeps (_ ← m; k).
Proof.
  intros Hm Hk s Hs. specialize (Hm s Hs). unfold mbind, act_bind.
  destruct (m s) as [s' [[]|e]]; [by apply Hk|done].
Qed.

Lemma pump_keeps_modify f : (∀ s, pump_inv s → pump_inv (f s)) → pump_keeps (modify f).
Proof. intros Hf s Hs. by apply Hf. Qed.

Lemma pump_read_left_keeps operation answer :
  pump_keeps (pump_read left_to_right received_left operation answer).
Proof.
  intros s [Hl Hr Hbl Hbr Hcl Hch]. unfold pump_read. unfold mbind, act_bind, gets, id.
  destruct (Nat.ltb_spec (length (left_to_right s)) BUFFER_CAPACITY); [|done].
  destruct answer as [bytes|kind]; [|by destruct (retryable kind)].
  set (chunk := take _ bytes). assert (length chunk ≤ BUFFER_CAPACITY - length (left_to_right s)) as Hlen.
  { unfold chunk. rewrite length_take. lia. }
  clearbody chunk. destruct (is_empty chunk); [done|].
  constructor; simpl; [|done| |done| |done].
  - by rewrite Hl, <-app_assoc.
  - rewrite length_app. lia.
  - rewrite Hcl. apply saturating_count.
Qed.

Lemma pump_read_right_keeps operation answer :
  pump_keeps (pump_read right_to_left received_right operation answer).
Proof.
  intros s [Hl Hr Hbl Hbr Hcl Hch]. unfold pump_read. unfold mbind, act_bind, gets, id.
  destruct (Nat.ltb_spec (length (right_to_left s)) BUFFER_CAPACITY); [|done].
  destruct answer as [bytes|kind]; [|by destruct (retryable kind)].
  set (chunk := take _ bytes). assert (length chunk ≤ BUFFER_CAPACITY - length (right_to_left s)) as Hlen.
  { unfold chunk. rewrite length_take. lia. }
  clearbody chunk. destruct (is_empty chunk); [done|].
  constructor; simpl; [done| |done| |done|].
  - by rewrite Hr, <-app_assoc.
  - rewrite length_app. lia.
  - rewrite Hch. apply saturating_count.
Qed.

Lemma pump_write_keeps buffer sent stalled set_stalled operation answer now :
  (∀ n s, pump_inv s → pump_inv (sent n s)) → (∀ v s, pump_inv s → pump_inv (set_stalled v s)) →
  pump_keeps (pump_write buffer sent stalled set_stalled operation answer now).
Proof.
  intros Hsent Hst s Hs. unfold pump_write. unfold mbind, act_bind, gets, id.
  destruct (is_empty (buffer s)); [by apply Hst|].
  destruct answer as [count|kind]; [destruct (_ =? 0)%nat|destruct (retryable kind)]; simpl; auto.
Qed.

Lemma sent_right_inv n s : pump_inv s → pump_inv (sent_right n s).
Proof.
  intros [Hl Hr Hbl Hbr Hcl Hch]. constructor; simpl; [|done| |done..].
  - by rewrite <-app_assoc, take_drop.
  - rewrite length_drop. lia.
Qed.
Lemma sent_left_inv n s : pump_inv s → pump_inv (sent_left n s).
Proof.
  intros [Hl Hr Hbl Hbr Hcl Hch]. constructor; simpl; [done| |done| |done..].
  - by rewrite <-app_assoc, take_drop.
  - rewrite length_drop. lia.
Qed.

Lemma pump_iteration_keeps idle stalled i : pump_keeps (pump_iteration idle stalled i).
Proof.
  unfold pump_iteration.
  apply pump_keeps_bind; [apply pump_keeps_modify; by intros s []|].
  apply pump_keeps_bind; [apply pump_read_left_keeps|].
  apply pump_keeps_bind; [apply pump_read_right_keeps|].
  apply pump_keeps_bind; [apply pump_write_keeps; [apply sent_right_inv|by intros v s []]|].
  apply pump_keeps_bind; [apply pump_write_keeps; [apply sent_left_inv|by intros v s []]|].
  apply pump_keeps_bind; [apply pump_keeps_modify; intros s []; by destruct (progressed s)|].
  intros s Hs. unfold mbind, act_bind, gets, id. by repeat case_match.
Qed.

Lemma pump_inv_run idle stalled inputs s : pump_inv s → pump_inv (pump idle stalled inputs s).1.
Proof.
  revert s. induction inputs as [|i inputs IH]; intros s Hs; [done|]. cbn [pump].
  destruct (stop_flag i); [done|]. pose proof (pump_iteration_keeps idle stalled i s Hs) as Hi.
  destruct (pump_iteration idle stalled i s) as [s' [[]|[|e]]]; [by apply IH|done|done].
Qed.

Lemma pump_start_inv started : pump_inv (pump_start started).
Proof. constructor; simpl; unfold BUFFER_CAPACITY; lia || done. Qed.

(** ** The tunnel ends *)

(** A tunnel that goes on has seen traffic recently, and no direction has been
    stalled for long. *)
Definition timely (idle stalled now : N) (s : PumpState) : Prop :=
  (now - last_activity s < idle)%N ∧
  (∀ since, left_stalled_since s = Some since → (now - since < stalled)%N) ∧
  (∀ since, right_stalled_since s = Some since → (now - since < stalled)%N).

Lemma pump_iteration_timely idle stalled i s s' :
  pump_iteration idle stalled i s = (s', Ok ()) → timely idle stalled (iteration_now i) s'.
Proof.
  unfold pump_iteration. rewrite !act_bind_Ok. intros (s1 & [] & _ & Hr).
  do 4 (rewrite act_bind_Ok in Hr; destruct Hr as (? & [] & _ & Hr)).
  rewrite act_bind_Ok in Hr. destruct Hr as (s6 & [] & _ & Hr).
  rewrite act_bind_Ok in Hr. destruct Hr as (s7 & s8 & [= <- <-] & Hr). unfold id in Hr.
  destruct (N.leb_spec idle (iteration_now i - last_activity s6)) as [|Hidle]; [done|].
  destruct (from_option _ _ (left_stalled_since s6)) eqn:El; [done|].
  destruct (from_option _ _ (right_stalled_since s6)) eqn:Er; [done|]. simpl in Hr.
  injection Hr as <-. split; [done|]. split; intros since Hs; rewrite Hs in *; simpl in *;
    by apply N.leb_gt.
Qed.

Lemma pump_running_timely idle stalled inputs i s s' :
  pump idle stalled (inputs ++ [i]) s = (s', None) → timely idle stalled (iteration_now i) s'.
Proof.
  revert s. induction inputs as [|j inputs IH]; intros s; cbn [pump app].
  - destruct (stop_flag i); [done|].
    destruct (pump_iteration idle stalled i s) as [s1 [[]|[|e]]] eqn:Ei; [|done|done].
    intros [= <-]. by eapply pump_iteration_timely.
  - destruct (stop_flag j); [done|].
    destruct (pump_iteration idle stalled j s) as [s1 [[]|[|e]]]; [apply IH|done|done].
Qed.

(** Without traffic the last activity stays what it was. *)
Definition silent (i : PumpInput) : Prop :=
  stop_flag i = false ∧
  (∃ k, left_read i = Err k ∧ retryable k = true) ∧ (∃ k, right_read i = Err k ∧ retryable k = true) ∧
  (∃ k, right_write i = Err k ∧ retryable k = true) ∧ (∃ k, left_write i = Err k ∧ retryable k = true).

Lemma silent_read buffer received operation k s :
  retryable k = true → pump_read buffer received operation (Err k) s = (s, Ok ()).
Proof.
  intros Hk. unfold pump_read, mbind, act_bind, gets, id. rewrite Hk. by destruct (_ <? _)%nat.
Qed.

Lemma silent_write_frame buffer sent stalled set_stalled operation k now s :
  retryable k = true →
  (∀ v s, progressed (set_stalled v s) = progressed s ∧ last_activity (set_stalled v s) = last_activity s) →
  ∃ s', pump_write buffer sent stalled set_stalled operation (Err k) now s = (s', Ok ()) ∧
    progressed s' = progressed s ∧ last_activity s' = last_activity s.
Proof.
  intros Hk Hset. unfold pump_write, mbind, act_bind, gets, id. rewrite Hk.
  destruct (is_empty (buffer s)); (eexists; split; [reflexivity|apply Hset]).
Qed.

Lemma silent_iteration idle stalled i s :
  silent i →
  (∃ s', pump_iteration idle stalled i s = (s', Ok ()) ∧ last_activity s' = last_activity s ∧
     (iteration_now i - last_activity s < idle)%N) ∨
  (∃ s' operation, pump_iteration idle stalled i s = (s', Err (Pump_Error (Relay_Timeout operation)))).
Proof.
  intros (_ & (k1 & H1 & Hk1) & (k2 & H2 & Hk2) & (k3 & H3 & Hk3) & (k4 & H4 & Hk4)).
  unfold pump_iteration. rewrite H1, H2, H3, H4. unfold mbind, act_bind, modify, gets, id.
  rewrite silent_read by done. rewrite silent_read by done.
  destruct (silent_write_frame left_to_right sent_right left_stalled_since set_left_stalled
    "write tunnel Client side" k3 (left_stall_now i) (begin_iteration s) Hk3) as (s1 & -> & Hp1 & Hl1); [done|].
  destruct (silent_write_frame right_to_left sent_left right_stalled_since set_right_stalled
    "write tunnel Host side" k4 (right_stall_now i) s1 Hk4) as (s2 & -> & Hp2 & Hl2); [done|].
  rewrite Hp2, Hp1. simpl. rewrite Hl2, Hl1. simpl.
  destruct (N.leb_spec idle (iteration_now i - last_activity s)); [right; by eexists _, _|].
  destruct (_ || _); [right; by eexists _, _|]. left. eexists. split; [done|].
  rewrite Hl2, Hl1. done.
Qed.

(** A silent tunnel ends by the idle timeout at the latest. *)
Lemma silent_pump_ends idle stalled inputs s i :
  Forall silent inputs → i ∈ inputs → (idle ≤ iteration_now i - last_activity s)%N →
  ∃ s' operation, pump idle stalled inputs s = (s', Some (Err (Relay_Timeout operation))).
Proof.
  intros Hall. revert s. induction Hall as [|j inputs Hj _ IH]; intros s Hi Hlate.
  { by apply elem_of_nil in Hi. }
  cbn [pump]. rewrite (proj1 Hj).
  destruct (silent_iteration idle stalled j s Hj) as [(s' & -> & Hla & Hb)|(s' & op & ->)];
    [|by eexists _, _].
  apply elem_of_cons in Hi as [->|Hi]; [lia|]. apply IH; [done|]. by rewrite Hla.
Qed.
