(* ===== verification/RelayServer.v ===== *)
(** * The Relay server

    Models [agentpulse-relay/src/server.rs]: waiting registrations, the
    authentication of both roles and the matching of a client with a waiting
    Host.  The sections a handler runs under the state's lock are single
    operations, and handlers interleave between them ([relay_step]). *)

From stdpp Require Import base strings numbers sorting relations gmap list.
From S2P Require Import Prelude Bytes Values Dto Net RelayProtocol RelaySpec.

Definition MAX_WAITING_HOSTS : nat := MAX_ROUTES + 1.
Definition MAX_OUTER_CONNECTIONS : nat := 4 * MAX_WAITING_HOSTS.

(** The sender of a registration is the mailbox of its connection. *)
Record WaitingHost : Type := MkWaiting {
  waiting_connection_id : rstring;
  waiting_routes : gmap rstring bytes32
}.

Record MatchedClient : Type := MkMatched {
  matched_connection_id : rstring;
  matched_stream : Stream
}.

(** [mpsc::sync_channel(1)]: what was sent, and whether the receiver lives. *)
Record Mailbox : Type := MkMailbox {
  mailbox_queue : list MatchedClient;
  receiver_alive : bool
}.

Record RelayShared : Type := MkShared {
  waiting : gmap rstring WaitingHost;
  mailboxes : gmap rstring Mailbox
}.

(** A handler's view: the shared state and its own stream. *)
Record Conn : Type := MkConn { conn_shared : RelayShared; conn_stream : Stream }.

Definition set_waiting (m : gmap rstring WaitingHost) (s : RelayShared) : RelayShared :=
  MkShared m (mailboxes s).
Definition set_mailbox (h : rstring) (b : Mailbox) (s : RelayShared) : RelayShared :=
  MkShared (waiting s) (<[h := b]> (mailboxes s)).

Definition on_shared (f : RelayShared → RelayShared) (c : Conn) : Conn :=
  MkConn (f (conn_shared c)) (conn_stream c).
Definition on_stream {A} (m : act Stream RelayError A) : act Conn RelayError A := λ c,
  let '(s, r) := m (conn_stream c) in (MkConn (conn_shared c) s, r).

(** ** Accepting connections *)

(** [RelayServer::run]: the count of active connections, which a worker's
    [ActiveGuard] takes back, and whether the accepted socket got a worker. *)
Definition accept_connection (active : nat) : nat * bool :=
  if (MAX_OUTER_CONNECTIONS <=? active)%nat then (active, false) else (S active, true).
Definition drop_active_guard (active : nat) : nat := pred active.

Section server.
Context `{Externals} `{RelayExternals}.

Definition write_relay (message : RelayMessage) : act Conn RelayError unit :=
  bytes ← lift (encode_relay message); on_stream (write_frame bytes).

Definition send_error (code : RelayErrorCode) (message : string) (recoverable : bool) :
    act Conn RelayError unit := write_relay (RelayFailure code (lit message) recoverable).

(** The first part of [handle_outer]: the challenge and the first message.
    [now] is the clock after the message arrived. *)
Definition authenticate_first (nonce : bytes32) (connection_id : rstring) (started now : Z) :
    act Conn RelayError EndpointMessage :=
  let '(message, _, _, expires_at) := challenge nonce connection_id started in
  _ ← write_relay message;
  payload ← on_stream read_frame;
  message ← lift (decode_endpoint payload);
  if (expires_at <=? now)%Z then
    _ ← send_error InvalidHandshake "authentication challenge expired" true;
    throw (Relay_Timeout "authenticate Relay connection")
  else
    match message with
    | Pong _ =>
        _ ← send_error InvalidHandshake "first endpoint message must authenticate a role" false;
        throw (Relay_Protocol (lit "unexpected Pong before authentication"))
    | _ => mret message
    end.

Definition routes_overlap (waiting : gmap rstring WaitingHost) (candidate : gmap rstring bytes32) : bool :=
  bool_decide (map_Exists (λ route_id _,
    map_Exists (λ _ host, is_Some (waiting_routes host !! route_id)) waiting) candidate).

(** [for route in routes { route_keys.insert(..) }] *)
Fixpoint collect_keys (routes : list RouteRegistration) (keys : gmap rstring bytes32) :
    result RelayError (gmap rstring bytes32) :=
  match routes with
  | [] => Ok keys
  | route :: routes' =>
      key ← decode_32 "authentication_key" (authentication_key route);
      collect_keys routes' (<[route_id route := key]> keys)
  end.

Definition remove_waiting_host (connection_id : rstring) (s : RelayShared) : RelayShared :=
  set_waiting (delete connection_id (waiting s)) s.

(** [handle_host] up to the end of its lock section. *)
Definition host_register (config : RelayServerConfig) (connection_id : rstring) (nonce : bytes32)
    (expires_at : Z) (host_id : rstring) (routes : list RouteRegistration) (proof : rstring) :
    act Conn RelayError (gmap rstring bytes32) :=
  key ← lift (decode_key (config_host_key config));
  expected ← lift (host_proof key connection_id nonce expires_at host_id routes);
  if negb (bool_decide (host_id = config_host_id config)) || negb (verify_proof expected proof) then
    _ ← send_error AuthenticationFailed "authentication failed" false; throw Relay_Authentication
  else
    keys ← lift (collect_keys routes ∅);
    c ← gets id;
    if (MAX_WAITING_HOSTS <=? size (waiting (conn_shared c)))%nat then
      _ ← send_error ResourceLimit "Relay waiting registration capacity is full" true;
      throw Relay_HostBusy
    else if routes_overlap (waiting (conn_shared c)) keys then
      _ ← send_error HostBusy "a matching Host route is already waiting" true; throw Relay_HostBusy
    else
      _ ← modify (on_shared (λ s,
            set_mailbox connection_id (MkMailbox [] true)
              (set_waiting (<[connection_id := MkWaiting connection_id keys]> (waiting s)) s)));
      mret keys.

(** The first message to a waiting Host, written outside the lock. *)
Definition host_announce (connection_id : rstring) : act Conn RelayError unit :=
  write_relay (HostWaiting connection_id).

(** [waiting.values().find_map(..)] in key order. *)
Definition find_route (route_id : rstring) (waiting : gmap rstring WaitingHost) :
    option (WaitingHost * bytes32) :=
  head (omap (λ id, host ← waiting !! id; key ← waiting_routes host !! route_id; Some (host, key))
          (merge_sort str_le (elements (dom waiting)))).

(** The three parts of [handle_client] around its lock sections. *)
Definition client_claim (route_id : rstring) : act Conn RelayError (rstring * bytes32) :=
  c ← gets id;
  if bool_decide (waiting (conn_shared c) = ∅) then
    _ ← send_error HostUnavailable "Host is unavailable" true; throw Relay_HostUnavailable
  else match find_route route_id (waiting (conn_shared c)) with
       | Some (host, key) => mret (waiting_connection_id host, key)
       | None =>
           _ ← send_error AuthenticationFailed "authentication failed" false;
           throw Relay_Authentication
       end.

Definition client_verify (key : bytes32) (connection_id : rstring) (nonce : bytes32) (expires_at : Z)
    (route_id proof : rstring) : act Conn RelayError unit :=
  expected ← lift (client_proof key connection_id nonce expires_at route_id);
  if negb (verify_proof expected proof) then
    _ ← send_error AuthenticationFailed "authentication failed" false; throw Relay_Authentication
  else mret ().

Definition client_take (host : rstring) : act Conn RelayError unit :=
  c ← gets id;
  if negb (bool_decide (is_Some (waiting (conn_shared c) !! host))) then
    _ ← send_error HostUnavailable "Host is unavailable" true; throw Relay_HostUnavailable
  else modify (on_shared (remove_waiting_host host)).

(** [client_sender.send(..)] to a mailbox with room. *)
Definition client_send (host connection_id : rstring) : act Conn RelayError unit :=
  c ← gets id;
  match mailboxes (conn_shared c) !! host with
  | Some b =>
      if receiver_alive b then
        modify (on_shared (set_mailbox host
          (MkMailbox (mailbox_queue b ++ [MkMatched connection_id (conn_stream c)]) true)))
      else throw Relay_HostUnavailable
  | None => throw Relay_HostUnavailable
  end.

(** What the loop of [handle_host] sees in one iteration. *)
Inductive HostEvent : Type :=
| Host_Stop
| Host_Client
| Host_Timeout (ping_id : rstring)
| Host_Disconnected.

(** One iteration: the matched client ends the loop. *)
Definition host_iteration (connection_id : rstring) (event : HostEvent) :
    act Conn RelayError (option MatchedClient) :=
  match event with
  | Host_Stop => throw Relay_Stopped
  | Host_Client =>
      c ← gets id;
      match mailboxes (conn_shared c) !! connection_id with
      | Some (MkMailbox (client :: rest) alive) =>
          _ ← modify (on_shared (set_mailbox connection_id (MkMailbox rest alive)));
          _ ← write_relay (TunnelReady (matched_connection_id client));
          bytes ← lift (encode_relay (TunnelReady connection_id));
          let '(stream, r) := write_frame bytes (matched_stream client) in
          _ ← lift r;
          mret (Some (MkMatched (matched_connection_id client) stream))
      | _ => mret None
      end
  | Host_Timeout ping_id =>
      _ ← write_relay (Ping ping_id);
      payload ← on_stream read_frame;
      message ← lift (decode_endpoint payload);
      match message with
      | Pong received =>
          if bool_decide (received = ping_id) then mret None
          else throw (Relay_Protocol (lit "Host did not answer the matching Relay Ping"))
      | _ => throw (Relay_Protocol (lit "Host did not answer the matching Relay Ping"))
      end
  | Host_Disconnected => throw Relay_HostUnavailable
  end.

(** The end of [handle_host] after its lock section: the receiver and
    [WaitingHostGuard] are dropped. *)
Definition host_end (connection_id : rstring) (s : RelayShared) : RelayShared :=
  remove_waiting_host connection_id
    (MkShared (waiting s) (alter (λ b, MkMailbox [] false) connection_id (mailboxes s))).

(** ** Interleavings *)

(** How far a connection has come.  A Host keeps the routes it registered, a
    client the route it claimed and, once checked, its proof. *)
Inductive Phase : Type :=
| Host_Registered (routes : gmap rstring bytes32)
| Host_Waiting (routes : gmap rstring bytes32)
| Host_Tunnel (routes : gmap rstring bytes32) (client : rstring)
| Host_Ended (routes : gmap rstring bytes32)
| Client_Claimed (host : rstring) (key : bytes32) (route : rstring)
| Client_Verified (host : rstring) (key : bytes32) (route : rstring) (nonce : bytes32) (expires_at : Z)
    (proof : rstring)
| Client_Taken (host : rstring) (key : bytes32) (route : rstring) (nonce : bytes32) (expires_at : Z)
    (proof : rstring)
| Client_Sent (host : rstring) (key : bytes32) (route : rstring) (nonce : bytes32) (expires_at : Z)
    (proof : rstring)
| Closed.

Record RelayWorld : Type := MkWorld { shared : RelayShared; phases : gmap rstring Phase }.

Definition relay_initial : RelayWorld := MkWorld (MkShared ∅ ∅) ∅.

Definition step_to (c : rstring) (p : Phase) (s : RelayShared) (w : RelayWorld) : RelayWorld :=
  MkWorld s (<[c := p]> (phases w)).

(** Connection identities are fresh version-7 UUIDs. *)
Inductive relay_step (config : RelayServerConfig) : RelayWorld → RelayWorld → Prop :=
| relay_register c nonce expires_at host_id routes proof stream w conn r :
    phases w !! c = None →
    host_register config c nonce expires_at host_id routes proof (MkConn (shared w) stream) = (conn, r) →
    relay_step config w
      (step_to c (match r with Ok keys => Host_Registered keys | Err _ => Closed end) (conn_shared conn) w)
| relay_announce c routes stream w conn r :
    phases w !! c = Some (Host_Registered routes) →
    host_announce c (MkConn (shared w) stream) = (conn, r) →
    relay_step config w
      (match r with
       | Ok _ => step_to c (Host_Waiting routes) (conn_shared conn) w
       | Err _ => step_to c (Host_Ended routes) (host_end c (conn_shared conn)) w
       end)
| relay_claim c route stream w conn r :
    phases w !! c = None → client_claim route (MkConn (shared w) stream) = (conn, r) →
    relay_step config w
      (step_to c (match r with Ok (host, key) => Client_Claimed host key route | Err _ => Closed end)
         (conn_shared conn) w)
| relay_verify c host key route nonce expires_at proof stream w conn r :
    phases w !! c = Some (Client_Claimed host key route) →
    client_verify key c nonce expires_at route proof (MkConn (shared w) stream) = (conn, r) →
    relay_step config w
      (step_to c (match r with
                  | Ok _ => Client_Verified host key route nonce expires_at proof | Err _ => Closed end)
         (conn_shared conn) w)
| relay_take c host key route nonce expires_at proof stream w conn r :
    phases w !! c = Some (Client_Verified host key route nonce expires_at proof) →
    client_take host (MkConn (shared w) stream) = (conn, r) →
    relay_step config w
      (step_to c (match r with
                  | Ok _ => Client_Taken host key route nonce expires_at proof | Err _ => Closed end)
         (conn_shared conn) w)
| relay_send c host key route nonce expires_at proof stream w conn r :
    phases w !! c = Some (Client_Taken host key route nonce expires_at proof) →
    client_send host c (MkConn (shared w) stream) = (conn, r) →
    relay_step config w
      (step_to c (match r with
                  | Ok _ => Client_Sent host key route nonce expires_at proof | Err _ => Closed end)
         (conn_shared conn) w)
| relay_host c routes event stream w conn r :
    phases w !! c = Some (Host_Waiting routes) →
    host_iteration c event (MkConn (shared w) stream) = (conn, r) →
    relay_step config w
      (match r with
       | Ok None => step_to c (Host_Waiting routes) (conn_shared conn) w
       | Ok (Some client) => step_to c (Host_Tunnel routes (matched_connection_id client)) (conn_shared conn) w
       | Err _ => step_to c (Host_Ended routes) (host_end c (conn_shared conn)) w
       end)
| relay_tunnel_end c routes client w :
    phases w !! c = Some (Host_Tunnel routes client) →
    relay_step config w (step_to c (Host_Ended routes) (host_end c (shared w)) w)
| relay_clear w :
    relay_step config w (MkWorld (set_waiting ∅ (shared w)) (phases w)).
End server.
