(* ===== verification/RelayServerSpec.v ===== *)
(** * Correctness of the Relay server

    Whatever the handlers interleave, waiting registrations have disjoint
    routes and stay within the capacity, and each is given to at most one
    client, one that proved the key of a route of this registration. *)

From stdpp Require Import base strings numbers sorting relations gmap list.
From S2P Require Import Prelude Bytes Values Dto Net RelayProtocol RelaySpec RelayServer.

Section server.
Context `{Externals} `{RelayExternals}.
Implicit Types (w : RelayWorld) (s : RelayShared) (c h : rstring) (ph : gmap rstring Phase).

(** ** Operations *)

Lemma write_relay_shared m conn : conn_shared (write_relay m conn).1 = conn_shared conn.
Proof.
  unfold write_relay, mbind, act_bind, lift. destruct (encode_relay m); [|done].
  unfold on_stream. by destruct (write_frame _ _).
Qed.

(** An operation that answers with an error and fails. *)
Lemma refuse_shared {A} code text b e conn conn' (r : result RelayError A) :
  (_ ← send_error code text b; throw e) conn = (conn', r) →
  conn_shared conn' = conn_shared conn ∧ ∃ e', r = Err e'.
Proof.
  unfold mbind, act_bind, send_error. pose proof (write_relay_shared (RelayFailure code (lit text) b) conn) as Hs.
  destruct (write_relay _ conn) as [c1 [|e1]]; simpl in Hs; intros [= <- <-]; naive_solver.
Qed.

Lemma host_register_spec config c nonce expires_at host_id routes proof conn conn' r :
  host_register config c nonce expires_at host_id routes proof conn = (conn', r) →
  let s := conn_shared conn in
  match r with
  | Ok keys =>
      conn_shared conn' = set_mailbox c (MkMailbox [] true)
        (set_waiting (<[c := MkWaiting c keys]> (waiting s)) s) ∧
      size (waiting s) < MAX_WAITING_HOSTS ∧ routes_overlap (waiting s) keys = false ∧
      collect_keys routes ∅ = Ok keys ∧ host_id = config_host_id config ∧
      ∃ key expected, decode_key (config_host_key config) = Ok key ∧
        host_proof key c nonce expires_at host_id routes = Ok expected ∧
        verify_proof expected proof = true
  | Err _ => conn_shared conn' = s
  end.
Proof.
  intros Hr s. unfold host_register, mbind, act_bind, lift in Hr.
  destruct (decode_key _) as [key|] eqn:Ek; [|by injection Hr as <- <-].
  destruct (host_proof _ _ _ _ _ _) as [expected|] eqn:Ep; [|by injection Hr as <- <-].
  case_bool_decide as Hid; cbn [negb orb] in Hr.
  2:{ apply refuse_shared in Hr as [Hs [e ->]]. by rewrite Hs. }
  destruct (verify_proof expected proof) eqn:Ev; cbn [negb] in Hr.
  2:{ apply refuse_shared in Hr as [Hs [e ->]]. by rewrite Hs. }
  destruct (collect_keys routes ∅) as [keys|]; [|by injection Hr as <- <-].
  unfold gets, id in Hr. fold s in Hr.
  destruct (Nat.leb_spec MAX_WAITING_HOSTS (size (waiting s))).
  { apply refuse_shared in Hr as [Hs [e ->]]. by rewrite Hs. }
  destruct (routes_overlap (waiting s) keys) eqn:Eo.
  { apply refuse_shared in Hr as [Hs [e ->]]. by rewrite Hs. }
  injection Hr as <- <-. split_and!; try done. by exists key, expected.
Qed.

Lemma find_route_Some rid m host key :
  find_route rid m = Some (host, key) →
  ∃ id, m !! id = Some host ∧ waiting_routes host !! rid = Some key.
Proof.
  unfold find_route. intros Hhead. apply head_Some_elem_of, list_elem_of_omap in Hhead as (id & _ & Hid).
  exists id. destruct (m !! id) as [host'|]; simpl in Hid; [|done].
  destruct (waiting_routes host' !! rid) as [key'|] eqn:Ek; simpl in Hid; [|done].
  by injection Hid as <- <-.
Qed.

Lemma find_route_None rid m :
  find_route rid m = None → ∀ id host, m !! id = Some host → waiting_routes host !! rid = None.
Proof.
  unfold find_route. intros Hhead id host Hid. destruct (waiting_routes host !! rid) as [key|] eqn:Ek; [|done].
  exfalso. assert ((host, key) ∈ omap (λ id, host ← m !! id; key ← waiting_routes host !! rid; Some (host, key))
    (merge_sort str_le (elements (dom m)))) as Hin.
  { apply list_elem_of_omap. exists id. split; [|by rewrite Hid; simpl; rewrite Ek].
    rewrite merge_sort_Permutation, elem_of_elements, elem_of_dom. by eauto. }
  destruct (omap _ _); [by apply elem_of_nil in Hin|done].
Qed.

Lemma client_claim_spec rid conn conn' r :
  client_claim rid conn = (conn', r) →
  conn_shared conn' = conn_shared conn ∧
  ∀ h key, r = Ok (h, key) →
    ∃ id host, waiting (conn_shared conn) !! id = Some host ∧ waiting_connection_id host = h ∧
      waiting_routes host !! rid = Some key.
Proof.
  unfold client_claim, gets, id. intros Hr. unfold mbind at 1, act_bind at 1 in Hr.
  case_bool_decide.
  { apply refuse_shared in Hr as [Hs [e ->]]. split; [done|]. by intros. }
  destruct (find_route _ _) as [[host key]|] eqn:Ef.
  - injection Hr as <- <-. split; [done|]. intros h' key' [= <- <-].
    apply find_route_Some in Ef as (id' & Hid & Hk). by eexists _, _.
  - apply refuse_shared in Hr as [Hs [e ->]]. split; [done|]. by intros.
Qed.

Lemma client_verify_spec key c nonce expires_at rid proof conn conn' r :
  client_verify key c nonce expires_at rid proof conn = (conn', r) →
  conn_shared conn' = conn_shared conn ∧
  (r = Ok () → ∃ expected, client_proof key c nonce expires_at rid = Ok expected ∧
     verify_proof expected proof = true).
Proof.
  unfold client_verify, lift. intros Hr. unfold mbind at 1, act_bind at 1 in Hr.
  destruct (client_proof _ _ _ _ _) as [expected|]; [|by injection Hr as <- <-].
  destruct (verify_proof expected proof) eqn:Ev; cbn [negb] in Hr.
  - injection Hr as <- <-. split; [done|]. by eauto.
  - apply refuse_shared in Hr as [Hs [e ->]]. split; [done|]. by intros.
Qed.

Lemma client_take_spec h conn conn' r :
  client_take h conn = (conn', r) →
  (r = Ok () ∧ is_Some (waiting (conn_shared conn) !! h) ∧
     conn_shared conn' = remove_waiting_host h (conn_shared conn)) ∨
  (conn_shared conn' = conn_shared conn ∧ ∃ e, r = Err e).
Proof.
  unfold client_take, gets, id. intros Hr. unfold mbind at 1, act_bind at 1 in Hr.
  case_bool_decide; cbn [negb] in Hr.
  - injection Hr as <- <-. by left.
  - apply refuse_shared in Hr as [Hs He]. by right.
Qed.

Lemma client_send_spec h c conn conn' r :
  client_send h c conn = (conn', r) →
  waiting (conn_shared conn') = waiting (conn_shared conn) ∧
  match r with
  | Ok _ => ∃ b m, mailboxes (conn_shared conn) !! h = Some b ∧ matched_connection_id m = c ∧
      mailboxes (conn_shared conn') =
        <[h := MkMailbox (mailbox_queue b ++ [m]) true]> (mailboxes (conn_shared conn))
  | Err _ => mailboxes (conn_shared conn') = mailboxes (conn_shared conn)
  end.
Proof.
  unfold client_send, mbind, act_bind, gets, id, modify, throw.
  destruct (mailboxes (conn_shared conn) !! h) as [b|] eqn:Eb; [|by intros [= <- <-]].
  destruct (receiver_alive b); [|by intros [= <- <-]].
  intros [= <- <-]. split; [done|].
  by exists b, (MkMatched c (conn_stream conn)).
Qed.

(** A Host iteration changes at most its own mailbox, which it empties by one. *)
Lemma host_iteration_spec c event conn conn' r :
  host_iteration c event conn = (conn', r) →
  waiting (conn_shared conn') = waiting (conn_shared conn) ∧
  (∀ h, h ≠ c → mailboxes (conn_shared conn') !! h = mailboxes (conn_shared conn) !! h) ∧
  match mailboxes (conn_shared conn') !! c with
  | Some b => mailboxes (conn_shared conn) !! c = Some b ∨
      ∃ m, mailboxes (conn_shared conn) !! c = Some (MkMailbox (m :: mailbox_queue b) (receiver_alive b))
  | None => mailboxes (conn_shared conn) !! c = None
  end ∧
  ∀ client, r = Ok (Some client) → ∃ m rest alive,
    mailboxes (conn_shared conn) !! c = Some (MkMailbox (m :: rest) alive) ∧
    matched_connection_id client = matched_connection_id m.
Proof.
  assert (∀ conn1, conn_shared conn1 = conn_shared conn →
    waiting (conn_shared conn1) = waiting (conn_shared conn) ∧
    (∀ h, h ≠ c → mailboxes (conn_shared conn1) !! h = mailboxes (conn_shared conn) !! h) ∧
    match mailboxes (conn_shared conn1) !! c with
    | Some b => mailboxes (conn_shared conn) !! c = Some b ∨
        ∃ m, mailboxes (conn_shared conn) !! c = Some (MkMailbox (m :: mailbox_queue b) (receiver_alive b))
    | None => mailboxes (conn_shared conn) !! c = None
    end) as Hsame.
  { intros conn1 ->. split; [done|]. split; [done|]. case_match; [by left|done]. }
  intros Hr. destruct event as [| |ping_id|]; cbn [host_iteration] in Hr.
  - injection Hr as <- <-. split_and!; try apply Hsame; done.
  - unfold gets, id in Hr. unfold mbind at 1, act_bind at 1 in Hr.
    destruct (mailboxes (conn_shared conn) !! c) as [[[|m rest] alive]|] eqn:Em.
    1,3: injection Hr as <- <-; split_and!; try apply Hsame; try done; by rewrite Em; left.
    unfold mbind, act_bind, modify, lift in Hr.
    set (conn1 := on_shared _ conn) in Hr.
    pose proof (write_relay_shared (TunnelReady (matched_connection_id m)) conn1) as Hs.
    assert (∀ conn2, conn_shared conn2 = conn_shared conn1 →
      waiting (conn_shared conn2) = waiting (conn_shared conn) ∧
      (∀ h, h ≠ c → mailboxes (conn_shared conn2) !! h = mailboxes (conn_shared conn) !! h) ∧
      mailboxes (conn_shared conn2) !! c = Some (MkMailbox rest alive)) as Hpop.
    { intros conn2 ->. simpl. split; [done|]. split; [|by rewrite lookup_insert_eq].
      intros h Hh. by rewrite lookup_insert_ne. }
    assert (conn_shared conn' = conn_shared conn1 ∧
      (∀ client, r = Ok (Some client) → matched_connection_id client = matched_connection_id m)) as [Hc' Hcl].
    { destruct (write_relay _ conn1) as [conn2 [[]|e]]; simpl in Hs; [|injection Hr as <- <-; naive_solver].
      destruct (encode_relay _) as [bytes|e]; [|injection Hr as <- <-; naive_solver].
      destruct (write_frame bytes (matched_stream m)) as [st [[]|e]]; injection Hr as <- <-; naive_solver. }
    destruct (Hpop _ Hc') as (Hw & Hoth & Hown). rewrite Hown. split_and!; try done; [by right; exists m|].
    intros client Hclient. exists m, rest, alive. split; [done|by apply Hcl].
  - assert (conn_shared conn' = conn_shared conn ∧ ∀ client, r ≠ Ok (Some client)) as [Hs Hn].
    { unfold mbind at 1, act_bind at 1 in Hr.
      pose proof (write_relay_shared (Ping ping_id) conn) as Hs.
      destruct (write_relay _ conn) as [conn1 [[]|e]]; simpl in Hs; [|by injection Hr as <- <-].
      unfold mbind, act_bind, on_stream, lift in Hr. destruct (read_frame _) as [st [payload|e]];
        [|by injection Hr as <- <-].
      destruct (decode_endpoint payload) as [[| |received]|]; try by injection Hr as <- <-.
      case_bool_decide; by injection Hr as <- <-. }
    destruct (Hsame _ Hs) as (? & ? & ?). split_and!; try done. intros client Hcl. by destruct (Hn client).
  - injection Hr as <- <-. split_and!; try apply Hsame; done.
Qed.

(** ** What a phase says *)

Definition phase_routes (p : Phase) : option (gmap rstring bytes32) :=
  match p with
  | Host_Registered routes | Host_Waiting routes | Host_Tunnel routes _ | Host_Ended routes => Some routes
  | _ => None
  end.

(** The routes of a Host that may still be waiting for a client. *)
Definition phase_listens (p : Phase) : option (gmap rstring bytes32) :=
  match p with Host_Registered routes | Host_Waiting routes => Some routes | _ => None end.

Definition phase_client (p : Phase) : option (rstring * bytes32 * rstring) :=
  match p with
  | Client_Claimed host key route | Client_Verified host key route _ _ _
  | Client_Taken host key route _ _ _ | Client_Sent host key route _ _ _ => Some (host, key, route)
  | _ => None
  end.

Definition phase_takes (p : Phase) : option rstring :=
  match p with
  | Client_Taken host _ _ _ _ _ | Client_Sent host _ _ _ _ _ => Some host
  | _ => None
  end.

Definition phase_sent (p : Phase) : option rstring :=
  match p with Client_Sent host _ _ _ _ _ => Some host | _ => None end.

(** The challenge context under which the connection [c] proved its key. *)
Definition phase_proved (c : rstring) (p : Phase) : Prop :=
  match p with
  | Client_Verified _ key route nonce expires_at proof | Client_Taken _ key route nonce expires_at proof
  | Client_Sent _ key route nonce expires_at proof =>
      ∃ expected, client_proof key c nonce expires_at route = Ok expected ∧ verify_proof expected proof = true
  | _ => True
  end.

(** ** The invariant *)

Record phases_inv (ph : gmap rstring Phase) : Prop := {
  pi_client : ∀ c h key route, ph !! c ≫= phase_client = Some (h, key, route) →
    ∃ routes, ph !! h ≫= phase_routes = Some routes ∧ routes !! route = Some key;
  pi_unique : ∀ c1 c2 h, ph !! c1 ≫= phase_takes = Some h → ph !! c2 ≫= phase_takes = Some h → c1 = c2;
  pi_proved : ∀ c p, ph !! c = Some p → phase_proved c p;
  pi_tunnel : ∀ h routes c, ph !! h = Some (Host_Tunnel routes c) → ph !! c ≫= phase_sent = Some h
}.

Definition mailbox_ok (ph : gmap rstring Phase) (h : rstring) (b : Mailbox) : Prop :=
  mailbox_queue b = [] ∨
  ∃ m, mailbox_queue b = [m] ∧ ph !! matched_connection_id m ≫= phase_sent = Some h.

Record shared_inv (s : RelayShared) (ph : gmap rstring Phase) : Prop := {
  si_entry : ∀ id e, waiting s !! id = Some e → waiting_connection_id e = id ∧
    ph !! id ≫= phase_listens = Some (waiting_routes e) ∧ ∀ c, ph !! c ≫= phase_takes ≠ Some id;
  si_disjoint : ∀ id1 id2 e1 e2, waiting s !! id1 = Some e1 → waiting s !! id2 = Some e2 → id1 ≠ id2 →
    waiting_routes e1 ##ₘ waiting_routes e2;
  si_size : size (waiting s) ≤ MAX_WAITING_HOSTS;
  si_mailbox : ∀ h b, mailboxes s !! h = Some b → mailbox_ok ph h b
}.

Record relay_inv (w : RelayWorld) : Prop := {
  ri_phases : phases_inv (phases w);
  ri_shared : shared_inv (shared w) (phases w)
}.

Lemma phase_sent_takes (o : option Phase) h : o ≫= phase_sent = Some h → o ≫= phase_takes = Some h.
Proof. by destruct o as [[]|]. Qed.
Lemma phase_listens_routes (o : option Phase) r : o ≫= phase_listens = Some r → o ≫= phase_routes = Some r.
Proof. by destruct o as [[]|]. Qed.

(** A connection's new phase keeps what it promised others. *)
Definition phase_keeps (o : option Phase) (p : Phase) : Prop :=
  (∀ r, o ≫= phase_routes = Some r → phase_routes p = Some r) ∧
  (∀ h, o ≫= phase_sent = Some h → phase_sent p = Some h).

Lemma phases_inv_insert ph c p :
  phases_inv ph → phase_keeps (ph !! c) p →
  (∀ h key route, phase_client p = Some (h, key, route) →
    ∃ routes, ph !! h ≫= phase_routes = Some routes ∧ routes !! route = Some key) →
  (∀ h, phase_takes p = Some h → ∀ c', c' ≠ c → ph !! c' ≫= phase_takes ≠ Some h) →
  phase_proved c p →
  (∀ routes c', p = Host_Tunnel routes c' → ph !! c' ≫= phase_sent = Some c) →
  phases_inv (<[c := p]> ph).
Proof.
  intros Hinv [Hroutes Hsent] Hclient Htakes Hproved Htunnel.
  assert (∀ h r, ph !! h ≫= phase_routes = Some r → <[c := p]> ph !! h ≫= phase_routes = Some r) as Hr.
  { intros h r. rewrite lookup_insert. case_decide as Hh; [subst|done]. by apply Hroutes. }
  assert (∀ x h, ph !! x ≫= phase_sent = Some h → <[c := p]> ph !! x ≫= phase_sent = Some h) as Hs.
  { intros x h. rewrite lookup_insert. case_decide as Hx; [subst|done]. by apply Hsent. }
  split.
  - intros x h key route Hx. assert (∃ routes, ph !! h ≫= phase_routes = Some routes ∧
      routes !! route = Some key) as (routes & ? & ?); [|by eauto].
    rewrite lookup_insert in Hx. case_decide; [by apply Hclient|]. by apply (pi_client _ Hinv x).
  - intros c1 c2 h H1' H2'. rewrite lookup_insert in H1', H2'.
    destruct (decide (c = c1)), (decide (c = c2)); subst; try done.
    + by destruct (Htakes h H1' c2).
    + by destruct (Htakes h H2' c1).
    + by apply (pi_unique _ Hinv c1 c2 h).
  - intros x q. rewrite lookup_insert. case_decide as Hx; [|by apply pi_proved].
    intros [= <-]. by subst.
  - intros h routes c'. rewrite lookup_insert. case_decide as Hh; intros Hq; apply Hs.
    + injection Hq as ->. subst. by eapply Htunnel.
    + by eapply pi_tunnel.
Qed.

Lemma mailbox_ok_insert ph c p h b :
  phase_keeps (ph !! c) p → mailbox_ok ph h b → mailbox_ok (<[c := p]> ph) h b.
Proof.
  intros [_ Hsent] [Hb|(m & Hb & Hm)]; [by left|]. right. exists m. split; [done|].
  rewrite lookup_insert. case_decide as Hc; [|done]. rewrite <-Hc in Hm. by apply Hsent.
Qed.

(** Removing registrations and a step of one connection. *)
Lemma shared_inv_step s s' ph c p :
  shared_inv s ph → waiting s' ⊆ waiting s →
  (∀ e, waiting s' !! c = Some e → phase_listens p = Some (waiting_routes e)) →
  (∀ h, phase_takes p = Some h → waiting s' !! h = None) →
  (∀ h b, mailboxes s' !! h = Some b → mailbox_ok (<[c := p]> ph) h b) →
  shared_inv s' (<[c := p]> ph).
Proof.
  intros Hinv Hsub Hc Htakes Hmail. split; [| | |done].
  - intros id e He. destruct (si_entry _ _ Hinv id e) as (Hid & Hl & Hn); [by eapply lookup_weaken|].
    split_and!; [done| |].
    + rewrite lookup_insert. case_decide; [subst; by apply Hc|done].
    + intros c'. rewrite lookup_insert. case_decide; [|done].
      simpl. intros Ht. apply Htakes in Ht. by rewrite He in Ht.
  - intros id1 id2 e1 e2 H1' H2'. apply (si_disjoint _ _ Hinv); by eapply lookup_weaken.
  - etrans; [by apply map_subseteq_size|]. apply Hinv.
Qed.

Lemma routes_overlap_false m keys :
  routes_overlap m keys = false → ∀ id e, m !! id = Some e → keys ##ₘ waiting_routes e.
Proof.
  intros Ho%bool_decide_eq_false id e He. apply map_disjoint_alt. intros rid.
  destruct (keys !! rid) as [k|] eqn:Ek; [|by left]. right.
  destruct (waiting_routes e !! rid) eqn:Er; [|done].
  exfalso. apply Ho. exists rid, k. split; [done|]. exists id, e. by rewrite Er.
Qed.

Lemma shared_inv_register s ph c keys :
  shared_inv s ph → ph !! c = None → (∀ x, ph !! x ≫= phase_takes ≠ Some c) →
  size (waiting s) < MAX_WAITING_HOSTS → routes_overlap (waiting s) keys = false →
  shared_inv (set_mailbox c (MkMailbox [] true) (set_waiting (<[c := MkWaiting c keys]> (waiting s)) s))
    (<[c := Host_Registered keys]> ph).
Proof.
  intros Hinv Hc Htakes Hsize Hover. pose proof (routes_overlap_false _ _ Hover) as Hdis.
  split; cbn [waiting mailboxes set_mailbox set_waiting].
  - intros id e. rewrite lookup_insert. case_decide as Hid.
    + intros [= <-]. subst. rewrite lookup_insert_eq. split_and!; [done..|].
      intros x. rewrite lookup_insert. by case_decide.
    + intros He. destruct (si_entry _ _ Hinv id e He) as (? & ? & Hn). rewrite lookup_insert_ne by done.
      split_and!; [done..|]. intros x. rewrite lookup_insert. by case_decide.
  - intros id1 id2 e1 e2. rewrite !lookup_insert.
    destruct (decide (c = id1)), (decide (c = id2)); subst; try done.
    + intros [= <-] He2 _. by eapply Hdis.
    + intros He1 [= <-] _. symmetry. by eapply Hdis.
    + by apply (si_disjoint _ _ Hinv).
  - rewrite map_size_insert. case_match; unfold id; lia.
  - intros h b. rewrite lookup_insert. case_decide as Hh; [intros [= <-]; by left|].
    intros Hb. apply mailbox_ok_insert; [by rewrite Hc|]. by apply (si_mailbox _ _ Hinv).
Qed.

Lemma phase_keeps_refl o p : o = Some p → phase_keeps o p.
Proof. by intros ->. Qed.

Lemma sent_no_fresh ph h c : phases_inv ph → ph !! h = None → ph !! c ≫= phase_takes ≠ Some h.
Proof.
  intros Hinv Hh Ht. assert (∃ key route, ph !! c ≫= phase_client = Some (h, key, route)) as (key & route & Hc).
  { destruct (ph !! c) as [[]|]; simplify_eq/=; by eauto. }
  apply (pi_client _ Hinv) in Hc as (routes & Hr & _). by rewrite Hh in Hr.
Qed.

Lemma waiting_phase s ph id e :
  shared_inv s ph → waiting s !! id = Some e → ph !! id ≫= phase_routes = Some (waiting_routes e).
Proof. intros Hinv He. apply phase_listens_routes. by apply (si_entry _ _ Hinv id e). Qed.

(** A step that leaves the shared state alone. *)
Lemma shared_inv_same s ph c p :
  shared_inv s ph → phase_keeps (ph !! c) p →
  (∀ r, ph !! c ≫= phase_listens = Some r → phase_listens p = Some r) →
  (∀ h, phase_takes p = Some h → waiting s !! h = None) →
  shared_inv s (<[c := p]> ph).
Proof.
  intros Hinv Hk Hl Ht. apply (shared_inv_step s); try done.
  - intros e He. apply Hl. by apply (si_entry _ _ Hinv c e).
  - intros h b Hb. apply mailbox_ok_insert; [done|]. by apply (si_mailbox _ _ Hinv).
Qed.

(** The end of a Host's handler. *)
Lemma relay_inv_host_end s ph c routes :
  phases_inv ph → shared_inv s ph → ph !! c ≫= phase_routes = Some routes →
  relay_inv (MkWorld (host_end c s) (<[c := Host_Ended routes]> ph)).
Proof.
  intros Hp Hs Hc. assert (phase_keeps (ph !! c) (Host_Ended routes)) as Hk.
  { split; [naive_solver|]. intros h. by destruct (ph !! c) as [[]|]. }
  split; simpl.
  - by apply phases_inv_insert.
  - apply (shared_inv_step s); try done; simpl.
    + apply delete_subseteq.
    + intros e. by rewrite lookup_delete_eq.
    + intros h b. rewrite lookup_alter. case_decide as Hh.
      * intros (b' & _ & ->)%fmap_Some. by left.
      * intros Hb. apply mailbox_ok_insert; [done|]. by apply (si_mailbox _ _ Hs).
Qed.

(** Popping a Host's mailbox keeps the shared part. *)
Lemma shared_inv_mailbox s s' ph :
  shared_inv s ph → waiting s' = waiting s →
  (∀ h b, mailboxes s' !! h = Some b → mailbox_ok ph h b) → shared_inv s' ph.
Proof. intros [] Hw Hm. split; rewrite ?Hw; done. Qed.

Lemma host_iteration_inv c event conn conn' r ph :
  host_iteration c event conn = (conn', r) → shared_inv (conn_shared conn) ph →
  shared_inv (conn_shared conn') ph ∧
  ∀ client, r = Ok (Some client) → ph !! matched_connection_id client ≫= phase_sent = Some c.
Proof.
  intros Hr Hs. apply host_iteration_spec in Hr as (Hw & Hoth & Hown & Hclient). split.
  - apply (shared_inv_mailbox (conn_shared conn)); [done..|]. intros h b Hb.
    destruct (decide (h = c)) as [->|Hh]; [|rewrite (Hoth h Hh) in Hb; by apply (si_mailbox _ _ Hs)].
    rewrite Hb in Hown. destruct Hown as [Hown|[m Hown]]; [by apply (si_mailbox _ _ Hs)|].
    apply (si_mailbox _ _ Hs) in Hown as [Hq|(m' & Hq & _)]; [done|]. injection Hq as -> Hq. by left.
  - intros client Hr. destruct (Hclient client Hr) as (m & rest & alive & Hb & ->).
    apply (si_mailbox _ _ Hs) in Hb as [Hq|(m' & Hq & Hm)]; [done|]. by injection Hq as -> _.
Qed.

Ltac keeps := split; intros ?; try (by intros); match goal with Hc : _ !! _ = _ |- _ => rewrite Hc; by intros end.

(** A step of one connection that neither takes a Host nor enters a tunnel,
    with the shared state untouched. *)
Lemma relay_inv_move w c p :
  relay_inv w → phase_keeps (phases w !! c) p →
  (∀ r, phases w !! c ≫= phase_listens = Some r → phase_listens p = Some r) →
  phase_takes p = None → (∀ routes x, p ≠ Host_Tunnel routes x) →
  (∀ h key route, phase_client p = Some (h, key, route) →
    ∃ routes, phases w !! h ≫= phase_routes = Some routes ∧ routes !! route = Some key) →
  phase_proved c p → relay_inv (step_to c p (shared w) w).
Proof.
  intros [Hp Hs] Hk Hl Ht Hn Hc Hpr. split; simpl.
  - apply phases_inv_insert; try done; [by rewrite Ht|]. intros routes c' ->. by destruct (Hn routes c').
  - apply shared_inv_same; try done. by rewrite Ht.
Qed.

(** A handler that has registered nothing may end at any point. *)
Lemma relay_inv_close w c :
  relay_inv w → phases w !! c ≫= phase_routes = None → phases w !! c ≫= phase_sent = None →
  relay_inv (step_to c Closed (shared w) w).
Proof.
  intros Hw Hr Hse. apply relay_inv_move; try done.
  - split; intros x; [by rewrite Hr|by rewrite Hse].
  - intros r Hl. apply phase_listens_routes in Hl. by rewrite Hr in Hl.
Qed.

Lemma relay_inv_take w c host key route nonce expires_at proof :
  relay_inv w → phases w !! c = Some (Client_Verified host key route nonce expires_at proof) →
  is_Some (waiting (shared w) !! host) →
  relay_inv (step_to c (Client_Taken host key route nonce expires_at proof)
    (remove_waiting_host host (shared w)) w).
Proof.
  intros [Hp Hs] Hc [e He]. destruct (si_entry _ _ Hs _ _ He) as (Hid & Hl & Hn). split; simpl.
  - apply phases_inv_insert; try done; [keeps| | |].
    + intros h' key' route' [= <- <- <-]. apply (pi_client _ Hp c). by rewrite Hc.
    + intros h' [= <-] c' _. apply Hn.
    + by pose proof (pi_proved _ Hp _ _ Hc).
  - apply (shared_inv_step (shared w)); try done; simpl.
    + apply delete_subseteq.
    + intros e' He'. rewrite lookup_delete_Some in He'. destruct He' as [_ He'].
      apply (si_entry _ _ Hs) in He' as (_ & Hl' & _). by rewrite Hc in Hl'.
    + intros h' [= <-]. by rewrite lookup_delete_eq.
    + intros h b Hb. apply mailbox_ok_insert; [keeps|]. by apply (si_mailbox _ _ Hs).
Qed.

(** The mailbox of a taken Host is empty until its client sends itself. *)
Lemma taken_mailbox_empty w c host key route nonce expires_at proof b :
  relay_inv w → phases w !! c = Some (Client_Taken host key route nonce expires_at proof) →
  mailboxes (shared w) !! host = Some b → mailbox_queue b = [].
Proof.
  intros [Hp Hs] Hc Hb. destruct (si_mailbox _ _ Hs _ _ Hb) as [Hq|(m & Hq & Hm)]; [done|].
  assert (matched_connection_id m = c) as Hmc.
  { apply (pi_unique _ Hp _ _ host); [by apply phase_sent_takes|by rewrite Hc]. }
  rewrite Hmc, Hc in Hm. done.
Qed.

Lemma relay_inv_send w c host key route nonce expires_at proof s' :
  relay_inv w → phases w !! c = Some (Client_Taken host key route nonce expires_at proof) →
  waiting s' = waiting (shared w) →
  (∃ b m, mailboxes (shared w) !! host = Some b ∧ matched_connection_id m = c ∧
    mailboxes s' = <[host := MkMailbox (mailbox_queue b ++ [m]) true]> (mailboxes (shared w))) →
  relay_inv (step_to c (Client_Sent host key route nonce expires_at proof) s' w).
Proof.
  intros Hw Hc Hwait (b & m & Hb & Hm & Hs'). pose proof (taken_mailbox_empty _ _ _ _ _ _ _ _ _ Hw Hc Hb) as Hq.
  destruct Hw as [Hp Hs].
  assert (∀ e, waiting (shared w) !! host ≠ Some e) as Hnone.
  { intros e He. apply (si_entry _ _ Hs) in He as (_ & _ & Hn). apply (Hn c). by rewrite Hc. }
  split; simpl.
  - apply phases_inv_insert; try done; [keeps| | |].
    + intros h' key' route' [= <- <- <-]. apply (pi_client _ Hp c). by rewrite Hc.
    + intros h' [= <-] c' Hcc Ht. apply Hcc. apply (pi_unique _ Hp _ _ host); [done|by rewrite Hc].
    + by pose proof (pi_proved _ Hp _ _ Hc).
  - apply (shared_inv_step (shared w)); rewrite ?Hwait; try done.
    + intros e He. apply (si_entry _ _ Hs) in He as (_ & Hl & _). by rewrite Hc in Hl.
    + intros h [= <-]. destruct (waiting (shared w) !! host) eqn:He; [by edestruct Hnone|done].
    + intros h b'. rewrite Hs', lookup_insert. case_decide as Hh.
      * intros [= <-]. right. exists m. rewrite Hq, Hm, lookup_insert_eq. by subst.
      * intros Hb'. apply mailbox_ok_insert; [keeps|]. by apply (si_mailbox _ _ Hs).
Qed.

(** A Host enters the tunnel with the client that took it. *)
Lemma relay_inv_tunnel s ph c routes x :
  phases_inv ph → shared_inv s ph → ph !! c = Some (Host_Waiting routes) →
  ph !! x ≫= phase_sent = Some c → relay_inv (MkWorld s (<[c := Host_Tunnel routes x]> ph)).
Proof.
  intros Hp Hs Hc Hx. split; simpl.
  - apply phases_inv_insert; try done; [keeps|]. by intros routes' c' [= <- <-].
  - apply (shared_inv_step s); try done.
    + intros e He. apply (si_entry _ _ Hs) in He as (_ & _ & Hn). destruct (Hn x). by apply phase_sent_takes.
    + intros h b Hb. apply mailbox_ok_insert; [keeps|]. by apply (si_mailbox _ _ Hs).
Qed.

Lemma relay_inv_host w c routes event stream conn r :
  relay_inv w → phases w !! c = Some (Host_Waiting routes) →
  host_iteration c event (MkConn (shared w) stream) = (conn, r) →
  relay_inv (match r with
    | Ok None => step_to c (Host_Waiting routes) (conn_shared conn) w
    | Ok (Some client) => step_to c (Host_Tunnel routes (matched_connection_id client)) (conn_shared conn) w
    | Err _ => step_to c (Host_Ended routes) (host_end c (conn_shared conn)) w
    end).
Proof.
  intros [Hp Hs] Hc Hr. apply (host_iteration_inv _ _ _ _ _ (phases w)) in Hr as [Hs' Hcl]; [|done].
  destruct r as [[client|]|e].
  - apply relay_inv_tunnel; try done. by apply Hcl.
  - apply (relay_inv_move (MkWorld (conn_shared conn) (phases w))); simpl; try done; [keeps|by rewrite Hc].
  - apply relay_inv_host_end; [done..|]. by rewrite Hc.
Qed.

Lemma relay_inv_register config w c nonce expires_at host_id routes proof stream conn r :
  relay_inv w → phases w !! c = None →
  host_register config c nonce expires_at host_id routes proof (MkConn (shared w) stream) = (conn, r) →
  relay_inv (step_to c (match r with Ok keys => Host_Registered keys | Err _ => Closed end)
    (conn_shared conn) w).
Proof.
  intros Hw Hc Hr. apply host_register_spec in Hr. destruct r as [keys|e]; simpl in Hr.
  - destruct Hr as (-> & Hsize & Hover & _), Hw as [Hp Hs]. split; simpl.
    + apply phases_inv_insert; try done. keeps.
    + apply shared_inv_register; try done. intros x. by apply sent_no_fresh.
  - rewrite Hr. apply relay_inv_close; by rewrite ?Hc.
Qed.

Lemma relay_inv_claim w c route stream conn r :
  relay_inv w → phases w !! c = None → client_claim route (MkConn (shared w) stream) = (conn, r) →
  relay_inv (step_to c (match r with Ok (host, key) => Client_Claimed host key route | Err _ => Closed end)
    (conn_shared conn) w).
Proof.
  intros Hw Hc Hr. apply client_claim_spec in Hr as [-> Hr].
  destruct r as [[h key]|e]; [|apply relay_inv_close; by rewrite ?Hc].
  destruct (Hr h key eq_refl) as (id & host & Hid & <- & Hk). destruct (ri_shared _ Hw) as [He _ _ _].
  destruct (He id host Hid) as [-> _]. apply relay_inv_move; try done; [keeps|by rewrite Hc|].
  intros h' key' route' [= <- <- <-]. exists (waiting_routes host). split; [|done].
  eapply waiting_phase; [by apply ri_shared|done].
Qed.

Lemma relay_inv_verify w c host key route nonce expires_at proof stream conn r :
  relay_inv w → phases w !! c = Some (Client_Claimed host key route) →
  client_verify key c nonce expires_at route proof (MkConn (shared w) stream) = (conn, r) →
  relay_inv (step_to c (match r with
    | Ok _ => Client_Verified host key route nonce expires_at proof | Err _ => Closed end) (conn_shared conn) w).
Proof.
  intros Hw Hc Hr. apply client_verify_spec in Hr as [-> Hr].
  destruct r as [[]|e]; [|apply relay_inv_close; by rewrite ?Hc].
  apply relay_inv_move; try done; [keeps|by rewrite Hc| |by apply Hr].
  intros h' key' route' [= <- <- <-]. apply (pi_client _ (ri_phases _ Hw) c). by rewrite Hc.
Qed.

Lemma relay_step_inv config w w' : relay_step config w w' → relay_inv w → relay_inv w'.
Proof.
  intros Hstep Hw. destruct Hstep as
    [|c routes stream w conn r Hc Hr| |
    |c host key route nonce exp proof stream w conn r Hc Hr
    |c host key route nonce exp proof stream w conn r Hc Hr
    | |c routes client w Hc|w].
  - by eapply relay_inv_register.
  - pose proof (write_relay_shared (RelayProtocol.HostWaiting c) (MkConn (shared w) stream)) as Hsh.
    unfold host_announce in Hr. rewrite Hr in Hsh. simpl in Hsh. destruct r; rewrite Hsh.
    + apply relay_inv_move; try done; [keeps|]. by rewrite Hc.
    + apply relay_inv_host_end; [by apply Hw..|]. by rewrite Hc.
  - by eapply relay_inv_claim.
  - by eapply relay_inv_verify.
  - apply client_take_spec in Hr as [(-> & He & ->)|[-> [e ->]]]; [by apply relay_inv_take|].
    apply relay_inv_close; by rewrite ?Hc.
  - apply client_send_spec in Hr as [Hwait Hr]. destruct r as [[]|e]; [by apply relay_inv_send|].
    assert (conn_shared conn = shared w) as ->.
    { destruct (conn_shared conn), (shared w); simpl in *; by subst. }
    apply relay_inv_close; by rewrite ?Hc.
  - by eapply relay_inv_host.
  - apply relay_inv_host_end; [by apply Hw..|]. by rewrite Hc.
  - destruct Hw as [Hp []]. split; [done|]. split; simpl; try done. rewrite map_size_empty. lia.
Qed.

Lemma relay_inv_reachable config w : rtc (relay_step config) relay_initial w → relay_inv w.
Proof.
  assert (relay_inv relay_initial) as H0'.
  { split; split; simpl; try done. rewrite map_size_empty. lia. }
  intros Hrun. revert H0'. induction Hrun as [|w1 w2 w3 Hstep _ IH]; [done|].
  intros Hw. by eapply IH, relay_step_inv.
Qed.
End server.
