(* ===== verification/RelayClient.v ===== *)
(** * The Relay's Host connector

    Models [agentpulse-relay/src/client.rs]: the canceller of a connector's
    sockets, the connector's settings, its handshake and its waiting loop, and
    the tunnel that follows.  DNS, TCP and TLS are outside: a connection is the
    byte stream a handshake runs on. *)

From stdpp Require Import base strings numbers sorting gmap list.
From S2P Require Import Prelude Bytes Values Dto Net RelayProtocol RelaySpec Tunnel.

(** ** RelayConnectionCanceller *)

(** A socket, by an identity of its own; [shut] are the sockets that were shut
    down. *)
Abbreviation Socket := N (only parsing).

Record Canceller : Type := MkCanceller {
  cancelled : bool;
  next_connection : N;
  connections : gmap N Socket;
  shut : gset Socket
}.

Definition canceller_new : Canceller := MkCanceller false 0 ∅ ∅.

(** [cancel] sets the flag, and then takes the connections under their lock:
    other calls may come between the two. *)
Definition cancel_flag (c : Canceller) : Canceller :=
  MkCanceller true (next_connection c) (connections c) (shut c).
Definition cancel_sockets (c : Canceller) : Canceller :=
  MkCanceller (cancelled c) (next_connection c) ∅ (shut c ∪ map_img (connections c)).

(** [stop] is the connector's stop flag as it is read under the lock. *)
Definition canceller_register (socket : Socket) (stop : bool) : act Canceller RelayError N := λ c,
  if cancelled c || stop
  then (MkCanceller (cancelled c) (next_connection c) (connections c) ({[socket]} ∪ shut c),
        Err Relay_Stopped)
  else
    let connection := next_connection c in
    (MkCanceller (cancelled c) ((connection + 1) mod 2 ^ 64) (<[connection := socket]> (connections c))
       (shut c), Ok connection).

(** Also run when a [RelayConnectionRegistration] is dropped. *)
Definition canceller_unregister (connection : N) (c : Canceller) : Canceller :=
  MkCanceller (cancelled c) (next_connection c) (delete connection (connections c)) (shut c).

(** A call on the canceller, and what a trace of calls leads to. *)
Inductive CancelCall : Type :=
| Call_Flag
| Call_Sockets
| Call_Register (socket : Socket) (stop : bool)
| Call_Unregister (connection : N).

Definition cancel_call (call : CancelCall) (c : Canceller) : Canceller :=
  match call with
  | Call_Flag => cancel_flag c
  | Call_Sockets => cancel_sockets c
  | Call_Register socket stop => (canceller_register socket stop c).1
  | Call_Unregister connection => canceller_unregister connection c
  end.

Definition cancel_calls (calls : list CancelCall) (c : Canceller) : Canceller :=
  foldl (λ c call, cancel_call call c) c calls.

(** ** RelayHostConnectionConfig *)

(** Of the local tunnel address only its port is examined. *)
Record RelayHostConnectionConfig : Type := MkHostConfig {
  host_endpoint : RelayEndpoint;
  host_id : rstring;
  host_authentication_key_bytes : bytes32;
  local_tunnel_port : u16;
  connection_canceller : bool
}.

Section connector.
Context `{Externals} `{RelayExternals}.

Definition from_key (endpoint : RelayEndpoint) (host_id : rstring) (key : bytes32) (port : u16) :
    result RelayError RelayHostConnectionConfig :=
  _ ← uuid_v7 "host_id" host_id;
  if (raw port =? 0)%N then Err (relay_invalid "local_tunnel_address" "port must be non-zero")
  else Ok (MkHostConfig endpoint host_id key port false).

Definition RelayHostConnectionConfig_new (endpoint : RelayEndpoint) (host_id enrollment_token : rstring)
    (port : u16) : result RelayError RelayHostConnectionConfig :=
  if is_empty (trim enrollment_token) || negb (bool_decide (trim enrollment_token = enrollment_token))
     || (128 <? byte_len enrollment_token)%nat
  then Err (relay_invalid "enrollment_token"
              "must be nonblank, unpadded by whitespace, and at most 128 bytes")
  else from_key endpoint host_id (host_authentication_key enrollment_token) port.

Definition with_connection_canceller (c : RelayHostConnectionConfig) : RelayHostConnectionConfig :=
  MkHostConfig (host_endpoint c) (host_id c) (host_authentication_key_bytes c) (local_tunnel_port c) true.

(** ** The handshake *)

Definition read_relay : act Stream RelayError RelayMessage :=
  payload ← read_frame; lift (decode_relay payload).

Definition write_endpoint (message : EndpointMessage) : act Stream RelayError unit :=
  bytes ← lift (encode_endpoint message); write_frame bytes.

(** [now] is the wall clock in seconds. *)
Definition read_challenge (now : Z) : act Stream RelayError (rstring * bytes32 * Z) :=
  message ← read_relay;
  match message with
  | Challenge connection_id nonce expires_at =>
      if (expires_at <=? now)%Z then throw (Relay_Timeout "authenticate the Relay challenge")
      else
        bytes ← lift (ok_or Relay_Base64 (base64_decode nonce));
        nonce ← lift (ok_or (relay_invalid "nonce" "must contain 32 bytes") (of_raw bytes));
        mret (connection_id, nonce, expires_at)
  | _ => throw (Relay_Protocol (lit "Relay did not begin with a challenge"))
  end.

Definition probe (now : Z) : act Stream RelayError unit := _ ← read_challenge now; mret ().

Definition build_client_hello (key : bytes32) (route_id : rstring) (message : RelayMessage) :
    result RelayError EndpointMessage :=
  match message with
  | Challenge connection_id nonce expires_at =>
      nonce ← decode_32 "nonce" nonce;
      proof ← client_proof key connection_id nonce expires_at route_id;
      Ok (ClientHello route_id proof)
  | _ => Err (relay_invalid "challenge" "message is not a challenge")
  end.

Definition map_remote_error (code : RelayErrorCode) (message : rstring) : RelayError :=
  match code with
  | AuthenticationFailed => Relay_Authentication
  | HostUnavailable => Relay_HostUnavailable
  | HostBusy => Relay_HostBusy
  | _ => Relay_Protocol message
  end.

(** [routes.sort_by(..)] on the route identities, a stable sort. *)
Definition route_le (left right : RouteRegistration) : Prop := str_le (route_id left) (route_id right).
#[global] Instance route_le_dec : RelDecision route_le.
Proof. intros x y. unfold route_le. apply _. Defined.

Definition sort_routes (routes : list RouteRegistration) : list RouteRegistration :=
  merge_sort route_le routes.

(** The part of [connect_host_once_with_route_check_and_waiting] between the
    connection and the loop; it returns the identity the Relay gave. *)
Definition host_handshake (config : RelayHostConnectionConfig) (routes : list RouteRegistration) (now : Z) :
    act Stream RelayError rstring :=
  '(connection_id, nonce, expires_at) ← read_challenge now;
  proof ← lift (host_proof (host_authentication_key_bytes config) connection_id nonce expires_at
                  (host_id config) routes);
  _ ← write_endpoint (HostHello (host_id config) routes proof);
  mret connection_id.

(** ** The waiting loop *)

(** The connection, whether [on_waiting] is still [Some], and how often it was
    called. *)
Record HostWait : Type := MkHostWait {
  wait_stream : Stream;
  on_waiting : bool;
  waiting_calls : nat
}.

(** What an iteration sees outside the stream: the stop flag before and after
    the read, and what [routes_are_current] answers. *)
Record WaitTick : Type := MkTick { stop_before : bool; stop_after : bool; routes_current : bool }.

Definition on_wait_stream {A} (m : act Stream RelayError A) : act HostWait RelayError A := λ h,
  let '(s, r) := m (wait_stream h) in (MkHostWait s (on_waiting h) (waiting_calls h), r).

Definition take_callback (h : HostWait) : HostWait :=
  if on_waiting h then MkHostWait (wait_stream h) false (S (waiting_calls h)) else h.

(** [true] is the [break] that leads to the tunnel. *)
Definition wait_iteration (connection_id : rstring) (t : WaitTick) : act HostWait RelayError bool :=
  if stop_before t then throw Relay_Stopped
  else
    message ← on_wait_stream read_relay;
    if stop_after t then throw Relay_Stopped
    else
      let unexpected := throw (Relay_Protocol (lit "unexpected message while waiting for a client")) in
      match message with
      | HostWaiting waiting_id =>
          if bool_decide (waiting_id = connection_id) then
            if negb (routes_current t) then throw Relay_RoutesChanged
            else _ ← modify take_callback; mret false
          else unexpected
      | Ping ping_id =>
          if negb (routes_current t) then throw Relay_RoutesChanged
          else _ ← on_wait_stream (write_endpoint (Pong ping_id)); mret false
      | TunnelReady _ => mret true
      | RelayFailure code message _ => throw (map_remote_error code message)
      | Challenge _ _ _ => unexpected
      end.

(** The loop over the iterations seen so far; without a result it still waits. *)
Fixpoint wait_loop (connection_id : rstring) (ticks : list WaitTick) (h : HostWait) :
    HostWait * option (result RelayError unit) :=
  match ticks with
  | [] => (h, None)
  | t :: ticks' =>
      match wait_iteration connection_id t h with
      | (h', Ok true) => (h', Some (Ok ()))
      | (h', Ok false) => wait_loop connection_id ticks' h'
      | (h', Err e) => (h', Some (Err e))
      end
  end.

Definition TUNNEL_IDLE_TIMEOUT : N := 60 * 10 ^ 9.
Definition TUNNEL_STALLED_TIMEOUT : N := 10 * 10 ^ 9.

(** What happens around the connector: the outcome of [connect_tls], of the
    canceller's registration (for a connector without a canceller it is not
    asked for), of the local connection, and everything the loops see. *)
Record HostScript : Type := MkScript {
  stop_at_start : bool;
  tls_connection : result RelayError Stream;
  registered : result RelayError N;
  challenge_now : Z;
  ticks : list WaitTick;
  local_connection : result IoErrorKind unit;
  pump_started : N;
  pump_inputs : list PumpInput
}.

(** [connect_host_once_with_route_check_and_waiting]: the calls of
    [on_waiting] and the result, none while it runs. *)
Definition connect_host_once (config : RelayHostConnectionConfig) (routes : list RouteRegistration)
    (script : HostScript) : nat * option (result RelayError RelayTunnelStats) :=
  if is_empty routes
  then (0, Some (Err (relay_invalid "routes" "at least one authenticated route is required")))
  else if stop_at_start script then (0, Some (Err Relay_Stopped))
  else
    let routes := sort_routes routes in
    match tls_connection script, (if connection_canceller config then registered script else Ok 0%N) with
    | Err e, _ => (0, Some (Err e))
    | Ok _, Err e => (0, Some (Err e))
    | Ok stream, Ok _ =>
        match host_handshake config routes (challenge_now script) stream with
        | (_, Err e) => (0, Some (Err e))
        | (stream, Ok connection_id) =>
            match wait_loop connection_id (ticks script) (MkHostWait stream true 0) with
            | (h, None) => (waiting_calls h, None)
            | (h, Some (Err e)) => (waiting_calls h, Some (Err e))
            | (h, Some (Ok _)) =>
                match local_connection script with
                | Err kind => (waiting_calls h, Some (Err (Relay_Io "connect local tunnel target" kind)))
                | Ok _ => (waiting_calls h,
                    (pump TUNNEL_IDLE_TIMEOUT TUNNEL_STALLED_TIMEOUT (pump_inputs script)
                       (pump_start (pump_started script))).2)
                end
            end
        end
    end.
End connector.
