(* ===== verification/RelayConfig.v ===== *)
(** * The Relay program

    Models the files and the TLS identity of [agentpulse-relay/src/config.rs], the
    listener of [server.rs] and the commands of [main.rs].  PEM files,
    certificates, TLS and JSON are third-party code; the clock, the random bytes
    and the outcomes of the socket calls are arguments. *)

From stdpp Require Import base strings numbers sorting gmap list.
From S2P Require Import Prelude Bytes Json Values Dto Net Platform RelayProtocol RelaySpec RelayServer RelayClient.

(** ** Certificates *)

Inductive GeneralName : Type := DNSName (value : rstring) | OtherName.

(** A leaf certificate: its alternative names, if it has that extension, and
    its expiry. *)
Record LeafCertificate : Type := MkLeaf {
  subject_alternative_name : result rstring (option (list GeneralName));
  not_after : Z
}.

Record CertificateStatus : Type := MkCertificateStatus {
  status_name : rstring;
  not_after_unix_seconds : Z;
  remaining_seconds : Z
}.

(** The chain and the key of a TLS server. *)
Record RelayTls : Type := MkRelayTls { tls_chain : list (list Byte.byte); tls_private_key : list Byte.byte }.

(** The libraries; [find_path]: the file a path names; [io_kind]: the kind of an
    error of the file system. *)
Class RelayLibrary : Type := {
  server_config_to_vec_pretty : RelayServerConfig → result rstring (list Byte.byte);
  server_config_from_slice : list Byte.byte → result rstring RelayServerConfig;
  pem_certs : list Byte.byte → result rstring (list (list Byte.byte));
  parse_x509 : list Byte.byte → result rstring LeafCertificate;
  pem_private_key : list Byte.byte → result rstring (option (list Byte.byte));
  private_key_der_try_from : list Byte.byte → result rstring (list Byte.byte);
  with_single_cert : list (list Byte.byte) → list Byte.byte → result rstring unit;
  find_path : rstring → Path;
  io_kind : rstring → IoErrorKind
}.
Class RelayLibraryOk `{RelayLibrary} : Prop := {
  server_config_json : ∀ c bytes, server_config_to_vec_pretty c = Ok bytes → server_config_from_slice bytes = Ok c
}.

(** [str::eq_ignore_ascii_case] *)
Definition eq_ignore_ascii_case (a b : rstring) : bool := bool_decide (to_ascii_lowercase a = to_ascii_lowercase b).

(** *** [Path::with_extension] *)

(** The part of a name before its last dot; a dot that begins it does not count. *)
Fixpoint before_last_dot (name : rstring) : option rstring :=
  match name with
  | [] => None
  | c :: name' =>
      match before_last_dot name' with
      | Some stem => Some (c :: stem)
      | None => if (c =? 46)%N then Some [] else None
      end
  end.
Definition file_stem (name : rstring) : rstring :=
  match before_last_dot name with Some (c :: stem) => c :: stem | _ => name end.
Definition with_extension (path : Path) (extension : rstring) : Path :=
  match last path with
  | Some name => removelast path ++ [file_stem name ++ lit "." ++ extension]
  | None => path
  end.

Section program.
Context `{Externals} `{RelayExternals} `{DiskFaults} `{RelayLibrary}.
Implicit Types (c : RelayServerConfig) (path : Path).

(** ** The configuration file (config.rs) *)

Definition on_relay {A} (operation : string) (a : act Disk rstring A) : act Disk RelayError A := λ d,
  let '(d', r) := a d in (d', map_err (λ e, Relay_Io operation (io_kind e)) r).

(** [OpenOptions::create(true).truncate(true).write(true)] with mode [0o600]. *)
Definition open_truncated path : act Disk rstring unit := call (λ m,
  match m !! path with
  | Some (Fs_File _ mode) => (<[path := Fs_File [] mode]> m, Ok ())
  | Some Fs_Other => (m, Ok ())
  | Some (Fs_Dir _) => (m, Err not_permitted)
  | None => (<[path := Fs_File [] private_file_mode]> m, Ok ())
  end).

Definition server_config_load path : act Disk RelayError RelayServerConfig :=
  bytes ← on_relay "read Relay configuration" (fs_read path);
  c ← lift (map_err Relay_Json (server_config_from_slice bytes));
  _ ← lift (server_config_validate c);
  mret c.

Definition server_config_save c path : act Disk RelayError unit :=
  _ ← lift (server_config_validate c);
  dir ← lift (ok_or (relay_invalid "config" "path has no parent") (parent path));
  _ ← on_relay "create Relay configuration directory" (create_dir_all dir);
  let temporary := with_extension path (lit "tmp") in
  bytes ← lift (map_err Relay_Json (server_config_to_vec_pretty c));
  _ ← on_relay "create temporary Relay configuration" (open_truncated temporary);
  _ ← on_relay "write temporary Relay configuration" (fs_write temporary bytes);
  _ ← on_relay "sync temporary Relay configuration" sync_all;
  _ ← on_relay "replace Relay configuration" (rename temporary path);
  on_relay "set Relay configuration permissions" (set_permissions path private_file_mode).

(** [RelayServerConfig::host_authentication_key] *)
Definition server_host_key c : result RelayError bytes32 := decode_key (config_host_key c).

(** ** The TLS identity *)

Definition names_host (host : rstring) (name : GeneralName) : bool :=
  match name with DNSName value => eq_ignore_ascii_case value host | OtherName => false end.

Definition tls_server_config (now : Z) c : act Disk RelayError (RelayTls * CertificateStatus) :=
  _ ← lift (server_config_validate c);
  certificate_bytes ← on_relay "read Relay certificate chain" (fs_read (find_path (certificate_chain c)));
  certificates ← lift (map_err Relay_Tls (pem_certs certificate_bytes));
  leaf ← lift (ok_or (relay_invalid "certificate_chain" "contains no certificate") (head certificates));
  parsed ← lift (map_err (λ e, Relay_Tls (lit "cannot parse leaf certificate: " ++ e)) (parse_x509 leaf));
  extension ← lift (map_err (λ e, Relay_Tls (lit "cannot parse certificate SAN: " ++ e)) (subject_alternative_name parsed));
  names ← lift (ok_or (relay_invalid "certificate" "leaf has no SAN") extension);
  if negb (existsb (names_host (endpoint_host (public_endpoint c))) names)
  then throw (relay_invalid "certificate" "SAN does not contain the configured public DNS name")
  else if (not_after parsed <=? now)%Z then throw (relay_invalid "certificate" "leaf certificate is expired")
  else
    key_bytes ← on_relay "read Relay private key" (fs_read (find_path (private_key c)));
    found ← lift (map_err Relay_Tls (pem_private_key key_bytes));
    key ← lift (ok_or (relay_invalid "private_key" "contains no private key") found);
    key ← lift (map_err Relay_Tls (private_key_der_try_from key));
    _ ← lift (map_err Relay_Tls (with_single_cert certificates key));
    mret (MkRelayTls certificates key,
          MkCertificateStatus (endpoint_host (public_endpoint c)) (not_after parsed) (not_after parsed - now)).

(** ** The listener (server.rs) *)

Record RelayServer : Type := MkRelayServer {
  relay_local_address : SocketAddr;
  relay_tls : RelayTls;
  relay_server_config : RelayServerConfig;
  relay_certificate : CertificateStatus;
  relay_state : RelayShared;
  active_connections : nat
}.

(** The outcomes of binding, of the switch to the non-blocking mode and of
    reading the address. *)
Record ListenCalls : Type := MkListen {
  bind_call : result IoErrorKind unit;
  nonblocking_call : result IoErrorKind unit;
  address_call : result IoErrorKind SocketAddr
}.

Definition RelayServer_bind (now : Z) (calls : ListenCalls) c : act Disk RelayError RelayServer :=
  tls ← tls_server_config now c;
  _ ← lift (map_err (Relay_Io "bind public Relay listener") (bind_call calls));
  _ ← lift (map_err (Relay_Io "configure public Relay listener") (nonblocking_call calls));
  address ← lift (map_err (Relay_Io "read Relay listener address") (address_call calls));
  mret (MkRelayServer address tls.1 c tls.2 (MkShared ∅ ∅) 0).
End program.

(** *** Accepting *)

(** [Vec::swap_remove] *)
Definition swap_remove (index : nat) (workers : list nat) : list nat :=
  match last workers with
  | Some l => if (S index =? length workers)%nat then removelast workers else <[index := l]> (removelast workers)
  | None => workers
  end.

(** The loop over the workers; every turn either removes one or advances. *)
Fixpoint reap (finished : nat → bool) (fuel index : nat) (workers : list nat) : list nat :=
  match fuel with
  | O => workers
  | S fuel' =>
      match workers !! index with
      | None => workers
      | Some worker =>
          if finished worker then reap finished fuel' index (swap_remove index workers) else reap finished fuel' (S index) workers
      end
  end.

Inductive AcceptOutcome : Type := Accept_Connection | Accept_WouldBlock | Accept_Failed (kind : IoErrorKind).

(** What a turn of [RelayServer::run] meets: the stop flag, how many guards were
    dropped since the last turn, the listener, and which workers are finished. *)
Record AcceptTurn : Type := MkAcceptTurn {
  accept_stop : bool;
  accept_dropped : nat;
  accept_outcome : AcceptOutcome;
  accept_finished : nat → bool
}.

(** The count of active connections, the workers and the name of the next. *)
Record Accepting : Type := MkAccepting { accept_active : nat; accept_workers : list nat; next_worker : nat }.

Definition accept_turn (t : AcceptTurn) (a : Accepting) : Accepting * option (result RelayError unit) :=
  let active := Nat.iter (accept_dropped t) drop_active_guard (accept_active a) in
  let reaped workers := reap (accept_finished t) (length workers) 0 workers in
  if accept_stop t then (MkAccepting active (accept_workers a) (next_worker a), Some (Ok ()))
  else
    match accept_outcome t with
    | Accept_Connection =>
        let '(active, spawned) := accept_connection active in
        if spawned then (MkAccepting active (reaped (accept_workers a ++ [next_worker a])) (S (next_worker a)), None)
        else (MkAccepting active (accept_workers a) (next_worker a), None)
    | Accept_WouldBlock => (MkAccepting active (reaped (accept_workers a)) (next_worker a), None)
    | Accept_Failed kind => (MkAccepting active (accept_workers a) (next_worker a), Some (Err (Relay_Io "accept Relay connection" kind)))
    end.

Fixpoint accept_run (turns : list AcceptTurn) (a : Accepting) : Accepting * option (result RelayError unit) :=
  match turns with
  | [] => (a, None)
  | t :: turns' => match accept_turn t a with (a', None) => accept_run turns' a' | (a', Some r) => (a', Some r) end
  end.

(** ** The commands (main.rs) *)

Inductive RelayProgramError : Type := Program_Io (text : rstring) | Program_Relay (error : RelayError).

(** The files, and the lines of the output and of the diagnostics. *)
Record RelayTerminal : Type := MkTerminal { relay_disk : Disk; output : list rstring; diagnostics : list rstring }.

Inductive RelayProgramCommand : Type :=
| Relay_Init (config : rstring) (bind : SocketAddr) (endpoint : RelayEndpoint) (chain key host_id : rstring)
| Relay_Serve (config : rstring)
| Relay_CheckConfig (config : rstring)
| Relay_Probe (endpoint : RelayEndpoint).

Section commands.
Context `{Externals} `{RelayExternals} `{DiskFaults} `{RelayLibrary}.

Abbreviation running A := (act RelayTerminal RelayProgramError A).

Definition on_terminal {A} (a : act Disk RelayError A) : running A := λ w,
  let '(d, r) := a (relay_disk w) in (MkTerminal d (output w) (diagnostics w), map_err Program_Relay r).
Definition print (line : rstring) : running unit := modify (λ w, MkTerminal (relay_disk w) (output w ++ [line]) (diagnostics w)).
Definition warn (line : rstring) : running unit := modify (λ w, MkTerminal (relay_disk w) (output w) (diagnostics w ++ [line])).

(** [Path::try_exists] *)
Definition try_exists (path : Path) : running bool := λ w,
  let '(d, r) := call (λ m, (m, Ok (bool_decide (is_Some (m !! path))))) (relay_disk w) in
  (MkTerminal d (output w) (diagnostics w), map_err Program_Io r).

Definition expiry_line (s : CertificateStatus) : rstring :=
  lit "Certificate expires at Unix timestamp: " ++ display_i64 (not_after_unix_seconds s).
Definition token_line (token : rstring) : rstring := lit "Host enrollment Token: " ++ token.

(** [token_bytes]: the bytes drawn. *)
Definition init_command (now : Z) (token_bytes : bytes32) (config : rstring) (bind : SocketAddr) (endpoint : RelayEndpoint)
    (chain key host_id : rstring) : running unit :=
  exists_already ← try_exists (find_path config);
  if exists_already : bool then throw (Program_Io (lit "configuration already exists: " ++ config))
  else
    let enrollment_token := base64_encode (raw token_bytes) in
    relay_config ← lift (map_err Program_Relay (new_server_config bind endpoint chain key host_id (host_authentication_key enrollment_token)));
    tls ← on_terminal (tls_server_config now relay_config);
    _ ← on_terminal (server_config_save relay_config (find_path config));
    _ ← print (lit "Relay configuration: " ++ config);
    _ ← print (lit "Public endpoint: " ++ authority (public_endpoint relay_config));
    _ ← print (expiry_line tls.2);
    _ ← print (token_line enrollment_token);
    print (lit "Store this Token now; it will not be shown again.").

(** [handler]: the signal handler is set; [turns]: the turns of the listener. *)
Definition serve_command (now : Z) (calls : ListenCalls) (handler : result rstring unit) (turns : list AcceptTurn) (config : rstring) :
    running (option (result RelayError unit)) :=
  c ← on_terminal (server_config_load (find_path config));
  server ← on_terminal (RelayServer_bind now calls c);
  _ ← lift (map_err Program_Io handler);
  _ ← print (lit "AgentPulse Relay listening on " ++ display_socket (relay_local_address server));
  _ ← print (expiry_line (relay_certificate server));
  mret (accept_run turns (MkAccepting (active_connections server) [] 0)).2.

Definition DAY : Z := 24 * 60 * 60.

Definition check_command (now : Z) (config : rstring) : running unit :=
  c ← on_terminal (server_config_load (find_path config));
  tls ← on_terminal (tls_server_config now c);
  _ ← print (lit "Relay configuration is valid.");
  _ ← print (lit "Bind address: " ++ display_socket (relay_bind_address c));
  _ ← print (lit "Public endpoint: " ++ authority (public_endpoint c));
  _ ← print (expiry_line tls.2);
  _ ← print (lit "Certificate remaining whole days: " ++ display_i64 (Z.quot (remaining_seconds tls.2) DAY));
  if (remaining_seconds tls.2 <? 14 * DAY)%Z then warn (lit "WARNING: Relay certificate expires in less than 14 days.") else mret ().

(** [connection]: the TLS connection to the endpoint. *)
Definition probe_command (now : Z) (connection : result RelayError Stream) (endpoint : RelayEndpoint) : running unit :=
  stream ← lift (map_err Program_Relay connection);
  _ ← lift (map_err Program_Relay (probe now stream).2);
  print (lit "Relay TLS and v1 challenge are healthy: " ++ authority endpoint).

(** [run]; [None]: the relay still serves. *)
Definition relay_program (now : Z) (token_bytes : bytes32) (calls : ListenCalls) (handler : result rstring unit) (turns : list AcceptTurn)
    (connection : result RelayError Stream) (command : RelayProgramCommand) : running (option unit) :=
  match command with
  | Relay_Init config bind endpoint chain key host_id =>
      _ ← init_command now token_bytes config bind endpoint chain key host_id; mret (Some ())
  | Relay_Serve config =>
      outcome ← serve_command now calls handler turns config;
      match outcome with
      | None => mret None
      | Some (Ok _) => mret (Some ())
      | Some (Err e) => throw (Program_Relay e)
      end
  | Relay_CheckConfig config => _ ← check_command now config; mret (Some ())
  | Relay_Probe endpoint => _ ← probe_command now connection endpoint; mret (Some ())
  end.
End commands.

(** ** Correctness *)

(** *** The workers *)

Lemma swap_remove_snoc index workers l :
  index < S (length workers) →
  swap_remove index (workers ++ [l]) = take index workers ++ (if (index =? length workers)%nat then [] else l :: drop (S index) workers).
Proof.
  intros Hi. unfold swap_remove. rewrite last_snoc, length_app, removelast_last. cbn [length]. rewrite Nat.add_1_r.
  change (S index =? S (length workers))%nat with (index =? length workers)%nat. destruct (Nat.eqb_spec index (length workers)) as [->|].
  - by rewrite take_ge, app_nil_r by done.
  - by rewrite insert_take_drop by lia.
Qed.

Lemma swap_remove_perm index workers worker :
  workers !! index = Some worker →
  take index (swap_remove index workers) = take index workers ∧ length (swap_remove index workers) = pred (length workers) ∧
  drop index (swap_remove index workers) ≡ₚ drop (S index) workers.
Proof.
  destruct workers as [|l workers _] using rev_ind; [done|]. intros Hi%lookup_lt_Some. rewrite length_app, Nat.add_1_r in Hi.
  rewrite swap_remove_snoc, !length_app, length_take by done. cbn [length]. rewrite Nat.add_1_r. cbn [pred].
  destruct (Nat.eqb_spec index (length workers)) as [->|Hn].
  - rewrite app_nil_r, take_take, Nat.min_id, (take_app_le workers) by done. split_and!; [done|cbn; lia|].
    by rewrite !drop_ge by (rewrite ?length_take, ?length_app; cbn; lia).
  - rewrite take_app_le, (take_app_le workers), take_take, Nat.min_id by (rewrite ?length_take; lia). split_and!; [done| |].
    + cbn [length]. rewrite length_drop. lia.
    + rewrite drop_app_ge by (rewrite length_take; lia). rewrite length_take, Nat.min_l, Nat.sub_diag, drop_0 by lia.
      rewrite (drop_app_le workers) by lia. by rewrite Permutation_cons_append.
Qed.

(** The finished workers are joined, and no other. *)
Lemma reap_from finished fuel : ∀ index workers,
  length workers - index ≤ fuel →
  reap finished fuel index workers ≡ₚ take index workers ++ filter (λ w, finished w = false) (drop index workers).
Proof.
  induction fuel as [|fuel IH]; intros index workers Hf; cbn [reap].
  - rewrite take_ge, drop_ge, app_nil_r by lia. done.
  - destruct (workers !! index) as [worker|] eqn:Ew.
    + rewrite (drop_S _ _ _ Ew). pose proof (lookup_lt_Some _ _ _ Ew) as Hi. destruct (finished worker) eqn:Efin.
      * destruct (swap_remove_perm _ _ _ Ew) as (Ht & Hl & Hd). rewrite IH by lia. rewrite Ht, filter_cons_False by congruence. by rewrite Hd.
      * rewrite IH, filter_cons_True by (done || lia). by rewrite (take_S_r _ _ _ Ew), <-app_assoc.
    + apply lookup_ge_None in Ew. by rewrite take_ge, drop_ge, app_nil_r by lia.
Qed.

(** At most as many connections are active as are allowed, and workers are told apart. *)
Record accepting_well (a : Accepting) : Prop := {
  well_active : accept_active a ≤ MAX_OUTER_CONNECTIONS;
  well_names : NoDup (accept_workers a);
  well_next : ∀ w, w ∈ accept_workers a → w < next_worker a
}.

Lemma reap_spec finished workers :
  reap finished (length workers) 0 workers ≡ₚ filter (λ w, finished w = false) workers.
Proof. rewrite reap_from by lia. done. Qed.

Lemma drop_guards n active : Nat.iter n drop_active_guard active ≤ active.
Proof. induction n as [|n IH]; [done|]. rewrite Nat.iter_succ. unfold drop_active_guard at 1. lia. Qed.

Lemma reap_well finished workers next :
  NoDup workers → (∀ w, w ∈ workers → w < next) →
  NoDup (reap finished (length workers) 0 workers) ∧ (∀ w, w ∈ reap finished (length workers) 0 workers → w < next).
Proof.
  intros Hn Hl. split; [rewrite reap_spec; by apply NoDup_filter|]. intros w. rewrite reap_spec, list_elem_of_filter. intros [_ ?]. auto.
Qed.

Lemma accept_turn_well t a a' out : accepting_well a → accept_turn t a = (a', out) → accepting_well a'.
Proof.
  intros [Ha Hn Hl]. unfold accept_turn. pose proof (drop_guards (accept_dropped t) (accept_active a)) as Hd.
  set (active := Nat.iter _ _ _) in *. destruct (accept_stop t); [intros [= <- <-]; split; cbn [accept_active accept_workers next_worker]; [lia|done|done]|].
  destruct (accept_outcome t) as [| |kind].
  - unfold accept_connection. destruct (Nat.leb_spec MAX_OUTER_CONNECTIONS active) as [|Hlt]; intros [= <- <-]; (split; cbn [accept_active accept_workers next_worker]); [lia|done|done|lia|..].
    all: apply (reap_well (accept_finished t) _ (S (next_worker a))).
    1,3: apply NoDup_app; split_and!; [done| |apply NoDup_singleton]; intros w Hw%Hl Hw'%list_elem_of_singleton; lia.
    all: intros w [Hw%Hl|Hw%list_elem_of_singleton]%elem_of_app; lia.
  - intros [= <- <-]. destruct (reap_well (accept_finished t) _ _ Hn Hl). split; cbn [accept_active accept_workers next_worker]; [lia|done|done].
  - intros [= <- <-]. split; cbn [accept_active accept_workers next_worker]; [lia|done|done].
Qed.

Lemma accept_run_well turns a a' out : accepting_well a → accept_run turns a = (a', out) → accepting_well a'.
Proof.
  revert a. induction turns as [|t turns IH]; intros a Ha; cbn [accept_run]; [by intros [= <- <-]|].
  destruct (accept_turn t a) as [a1 [r|]] eqn:Et; [intros [= <- <-]|]; eauto using accept_turn_well.
Qed.

(** *** The configuration file *)

Section program_spec.
Context `{Externals} `{RelayExternals} `{DiskFaults} `{RelayLibrary}.
Implicit Types (c : RelayServerConfig) (path q : Path) (d : Disk).

Lemma relay_keeps {A} q operation (a : act Disk rstring A) d d' r :
  keeps q a → on_relay operation a d = (d', r) → file_at q d' = file_at q d.
Proof. intros Ha. unfold on_relay. specialize (Ha d). destruct (a d). by intros [= <- <-]. Qed.
Lemma on_relay_Ok {A} operation (a : act Disk rstring A) d d' x : on_relay operation a d = (d', Ok x) → a d = (d', Ok x).
Proof. unfold on_relay. destruct (a d) as [d1 [y|]]; [|done]. by intros [= <- <-]. Qed.

Lemma keeps_open_truncated q path : q ≠ path → keeps q (open_truncated path).
Proof. intros Hne. apply keeps_call. intros m. destruct (m !! path) as [[]|]; simpl; try done; by rewrite lookup_insert_ne. Qed.

Lemma create_prefixes_other q base rest m m' r :
  create_prefixes base rest m = (m', r) → m' !! q = Some Fs_Other → m !! q = Some Fs_Other.
Proof.
  revert base m. induction rest as [|x rest IH]; intros base m; cbn [create_prefixes]; [by intros [= <- <-]|].
  destruct (m !! (base ++ [x])) as [[]|] eqn:Em; [by intros [= <- <-]|eauto|by intros [= <- <-]|].
  intros E Hq. specialize (IH _ _ E Hq). destruct (decide (base ++ [x] = q)) as [<-|]; [by rewrite lookup_insert_eq in IH|].
  by rewrite lookup_insert_ne in IH.
Qed.

Lemma create_dir_all_other q path d d' r :
  create_dir_all path d = (d', r) → entries d' !! q = Some Fs_Other → entries d !! q = Some Fs_Other.
Proof.
  unfold create_dir_all, call. destruct (fault _); [by intros [= <- <-]|].
  destruct (create_prefixes [] path (entries d)) as [m x] eqn:E. intros [= <- <-]. by eapply create_prefixes_other.
Qed.

Lemma open_truncated_Ok path d d' :
  open_truncated path d = (d', Ok ()) → entries d !! path ≠ Some Fs_Other → ∃ mode, entries d' !! path = Some (Fs_File [] mode).
Proof.
  unfold open_truncated, call. destruct (fault _); [done|].
  destruct (entries d !! path) as [[]|]; try done; intros [= <-] _; eexists; apply lookup_insert_eq.
Qed.

(** The replacement: complete, and private when it is reported. *)
Lemma rename_cases from to bytes mode d d' r :
  entries d !! from = Some (Fs_File bytes mode) → rename from to d = (d', r) →
  (is_ok r = false ∧ entries d' = entries d) ∨ (r = Ok () ∧ entries d' !! to = Some (Fs_File bytes mode)).
Proof.
  intros Hf. unfold rename, call. destruct (fault _); [intros [= <- <-]; by left|]. rewrite Hf.
  destruct (entries d !! to) as [[]|]; intros [= <- <-]; try (by left); right; (split; [done|]); apply lookup_insert_eq.
Qed.

Lemma set_permissions_file path mode mode' bytes d d' r :
  entries d !! path = Some (Fs_File bytes mode) → set_permissions path mode' d = (d', r) →
  file_at path d' = Some bytes ∧ (is_ok r = true → entries d' !! path = Some (Fs_File bytes mode')).
Proof.
  intros Hf. unfold set_permissions, call, file_at. destruct (fault _); [intros [= <- <-]; cbn; by rewrite Hf|]. rewrite Hf.
  intros [= <- <-]. cbn. by rewrite lookup_insert_eq.
Qed.

(** What a save leaves alone: every entry but the configuration and its temporary
    file, except that missing directories are created. *)
Definition entry_kept (e e' : option FsEntry) : Prop := e' = e ∨ (e = None ∧ ∃ mode, e' = Some (Fs_Dir mode)).
Definition undisturbed path d d' : Prop :=
  ∀ q, q ≠ path → q ≠ with_extension path (lit "tmp") → entry_kept (entries d !! q) (entries d' !! q).

#[export] Instance entry_kept_preorder : PreOrder entry_kept.
Proof. split; [by left|]. intros e e1 e2 [-> | [-> [m ->]]] [-> | [? [m' ->]]]; unfold entry_kept; naive_solver. Qed.
#[export] Instance undisturbed_preorder path : PreOrder (undisturbed path).
Proof.
  split; [by intros d q _ _|]. intros d d1 d2 K1 K2 q Hp Ht. etrans; [by apply K1|by apply K2].
Qed.

Lemma undisturbed_entries path d d' : entries d' = entries d → undisturbed path d d'.
Proof. intros He q _ _. by rewrite He. Qed.

Lemma undisturbed_call {A} path (operation : string) (f : gmap Path FsEntry → gmap Path FsEntry * result rstring A) d d' r :
  (∀ m q, q ≠ path → q ≠ with_extension path (lit "tmp") → entry_kept (m !! q) ((f m).1 !! q)) →
  on_relay operation (call f) d = (d', r) → undisturbed path d d'.
Proof.
  intros Hf. unfold on_relay, call. destruct (fault _); [intros [= <- _]; by apply undisturbed_entries|]. specialize (Hf (entries d)).
  destruct (f (entries d)) as [m x]. by intros [= <- _].
Qed.

Lemma create_prefixes_kept q base rest m : entry_kept (m !! q) ((create_prefixes base rest m).1 !! q).
Proof.
  revert base m. induction rest as [|x rest IH]; intros base m; [done|]. cbn [create_prefixes].
  destruct (m !! (base ++ [x])) as [[]|] eqn:Em; [done|apply IH|done|]. etrans; [|apply IH].
  destruct (decide (base ++ [x] = q)) as [<-|]; [|by rewrite lookup_insert_ne].
  rewrite Em, lookup_insert_eq. right. eauto.
Qed.

Lemma undisturbed_write path (operation : string) bytes d d' r :
  on_relay operation (fs_write (with_extension path (lit "tmp")) bytes) d = (d', r) → undisturbed path d d'.
Proof.
  unfold on_relay, fs_write. destruct (fault _); intros [= <- _] q _ Ht; cbn [entries];
    destruct (entries d !! with_extension path _) as [[]|]; try done; by rewrite lookup_insert_ne.
Qed.

(** Each call of a save, whatever it answers. *)
Ltac undisturbed_by E :=
  first [ refine (undisturbed_write _ _ _ _ _ _ E)
        | refine (undisturbed_call _ _ _ _ _ _ _ E); intros m q Hp Ht;
          first [ apply create_prefixes_kept
                | repeat case_match; cbn [fst]; rewrite ?lookup_insert_ne, ?lookup_delete_ne by done; done ] ].

Lemma save_undisturbed c path d d' r : server_config_save c path d = (d', r) → undisturbed path d d'.
Proof.
  unfold server_config_save.
  intros [(d1 & [] & [= <- _] & E)|(e & [= <- _] & ->)]%act_bind_inv; [|done].
  apply act_bind_inv in E as [(d2 & dir & [= <- _] & E)|(e & [= <- _] & ->)]; [|done].
  apply act_bind_inv in E as [(d3 & [] & E3 & E)|(e & E3 & ->)]; [transitivity d3|]; [undisturbed_by E3| |undisturbed_by E3].
  apply act_bind_inv in E as [(d4 & bytes & [= <- _] & E)|(e & [= <- _] & ->)]; [|done].
  apply act_bind_inv in E as [(d5 & [] & E5 & E)|(e & E5 & ->)]; [transitivity d5|]; [undisturbed_by E5| |undisturbed_by E5].
  apply act_bind_inv in E as [(d6 & [] & E6 & E)|(e & E6 & ->)]; [transitivity d6|]; [undisturbed_by E6| |undisturbed_by E6].
  apply act_bind_inv in E as [(d7 & [] & E7 & E)|(e & E7 & ->)]; [transitivity d7|]; [undisturbed_by E7| |undisturbed_by E7].
  apply act_bind_inv in E as [(d8 & [] & E8 & E)|(e & E8 & ->)]; [transitivity d8|]; [undisturbed_by E8| |undisturbed_by E8].
  undisturbed_by E.
Qed.

Definition config_written c path d (r : result RelayError unit) : Prop :=
  ∃ bytes, server_config_to_vec_pretty c = Ok bytes ∧ file_at path d = Some bytes ∧
    (r = Ok () → entries d !! path = Some (Fs_File bytes private_file_mode)).

Lemma save_cases c path d d' r :
  path ≠ with_extension path (lit "tmp") → entries d !! with_extension path (lit "tmp") ≠ Some Fs_Other →
  server_config_save c path d = (d', r) →
  (is_ok r = false ∧ file_at path d' = file_at path d) ∨ (server_config_validate c = Ok () ∧ config_written c path d' r).
Proof.
  intros Hne Ho. unfold server_config_save. set (temporary := with_extension path (lit "tmp")) in *.
  intros [(d1 & [] & [= <- Hv] & E)|(e & [= <- _] & ->)]%act_bind_inv; [|by left].
  apply act_bind_inv in E as [(d2 & dir & [= <- _] & E)|(e & [= <- _] & ->)]; [|by left].
  apply act_bind_inv in E as [(d3 & [] & E3 & E)|(e & E3 & ->)];
    pose proof (relay_keeps path _ _ _ _ _ (keeps_create_dir_all path dir) E3) as K3; [|by left].
  apply on_relay_Ok in E3. assert (entries d3 !! temporary ≠ Some Fs_Other) as Ho3 by (intros ?; by eapply Ho, create_dir_all_other).
  apply act_bind_inv in E as [(d4 & bytes & [= <- Hb%map_err_Ok] & E)|(e & [= <- _] & ->)]; [|by left].
  apply act_bind_inv in E as [(d5 & [] & E5 & E)|(e & E5 & ->)];
    pose proof (relay_keeps path _ _ _ _ _ (keeps_open_truncated path temporary Hne) E5) as K5; [|left; split; [done|congruence]].
  apply on_relay_Ok, open_truncated_Ok in E5 as [mode E5]; [|done].
  apply act_bind_inv in E as [(d6 & [] & E6 & E)|(e & E6 & ->)];
    pose proof (relay_keeps path _ _ _ _ _ (keeps_fs_write path temporary bytes Hne) E6) as K6; [|left; split; [done|congruence]].
  eapply fs_write_Ok in E5; [|by apply on_relay_Ok in E6].
  apply act_bind_inv in E as [(d7 & [] & E7 & E)|(e & E7 & ->)];
    pose proof (relay_keeps path _ _ _ _ _ (keeps_sync_all path) E7) as K7; [|left; split; [done|congruence]].
  assert (entries d7 = entries d6) as E67.
  { apply on_relay_Ok in E7. unfold sync_all, call in E7. destruct (fault _); [done|]. by injection E7 as <-. }
  rewrite <-E67 in E5. apply act_bind_inv in E as [(d8 & [] & E8 & E)|(e & E8 & ->)].
  - right. split; [done|]. apply on_relay_Ok in E8. destruct (rename_cases _ _ _ _ _ _ _ E5 E8) as [[? _]|[_ E8']]; [done|].
    unfold on_relay in E. destruct (set_permissions path private_file_mode d8) as [d9 x] eqn:E9. injection E as <- <-.
    destruct (set_permissions_file _ _ _ _ _ _ _ E8' E9) as [Hf Hp]. exists bytes. split_and!; [done|done|].
    intros Hx%map_err_Ok. apply Hp. by rewrite Hx.
  - unfold on_relay in E8. destruct (rename temporary path d7) as [d8 x] eqn:Er. injection E8 as <- Hx.
    destruct (rename_cases _ _ _ _ _ _ _ E5 Er) as [[_ E8']|[-> _]]; [|done]. left. split; [done|].
    unfold file_at in *. rewrite E8'. congruence.
Qed.

Lemma load_written `{!RelayLibraryOk} c path d bytes :
  (∀ n, io_count d ≤ n → fault n = None) → server_config_to_vec_pretty c = Ok bytes → file_at path d = Some bytes →
  server_config_validate c = Ok () → (server_config_load path d).2 = Ok c.
Proof.
  intros Hf Hb Hfile Hv. unfold server_config_load, on_relay, mbind, act_bind, fs_read, call, file_at in *. rewrite Hf by lia.
  destruct (entries d !! path) as [[content mode| |]|]; [|done..]. injection Hfile as ->. cbn.
  rewrite (server_config_json _ _ Hb). cbn. by rewrite Hv.
Qed.
End program_spec.

(** *** The TLS identity and the enrollment *)

Section identity_spec.
Context `{Externals} `{RelayExternals} `{!RelayExternalsOk} `{DiskFaults} `{RelayLibrary}.
Implicit Types (c : RelayServerConfig) (path : Path) (d : Disk).

(** The chain and the key are those in the two files the configuration names, they
    belong together, and the first certificate of the chain names the public
    endpoint and has not expired. *)
Definition certified (now : Z) c d (tls : RelayTls) (status : CertificateStatus) : Prop :=
  ∃ chain_bytes leaf parsed names name key_bytes found,
    file_at (find_path (certificate_chain c)) d = Some chain_bytes ∧ pem_certs chain_bytes = Ok (tls_chain tls) ∧
    head (tls_chain tls) = Some leaf ∧ parse_x509 leaf = Ok parsed ∧
    subject_alternative_name parsed = Ok (Some names) ∧ DNSName name ∈ names ∧
    to_ascii_lowercase name = to_ascii_lowercase (endpoint_host (public_endpoint c)) ∧
    status = MkCertificateStatus (endpoint_host (public_endpoint c)) (not_after parsed) (not_after parsed - now) ∧
    (now < not_after parsed)%Z ∧
    file_at (find_path (private_key c)) d = Some key_bytes ∧ pem_private_key key_bytes = Ok (Some found) ∧
    private_key_der_try_from found = Ok (tls_private_key tls) ∧ with_single_cert (tls_chain tls) (tls_private_key tls) = Ok ().

Lemma fs_read_entries path operation d d' r : on_relay operation (fs_read path) d = (d', r) → entries d' = entries d.
Proof.
  unfold on_relay, fs_read, call. destruct (fault _); [by intros [= <- _]|].
  destruct (entries d !! path) as [[]|]; by intros [= <- _].
Qed.
Lemma relay_read_content path operation d d' bytes : on_relay operation (fs_read path) d = (d', Ok bytes) → file_at path d = Some bytes.
Proof.
  unfold on_relay, fs_read, call, file_at. destruct (fault _); [done|].
  destruct (entries d !! path) as [[]|]; intros [= _ Hb]; try done. by subst.
Qed.

Lemma names_host_spec host names : existsb (names_host host) names = true →
  ∃ name, DNSName name ∈ names ∧ to_ascii_lowercase name = to_ascii_lowercase host.
Proof.
  intros ([name|] & Hin & Hn)%existsb_exists; [|done]. exists name. split; [by apply list_elem_of_In|].
  by apply bool_decide_eq_true in Hn.
Qed.

Lemma tls_server_config_spec now c d d' r :
  tls_server_config now c d = (d', r) →
  entries d' = entries d ∧ ∀ tls, r = Ok tls → server_config_validate c = Ok () ∧ certified now c d tls.1 tls.2.
Proof.
  unfold tls_server_config. intros [(d1 & [] & [= <- Hv] & E)|(e & [= <- _] & ->)]%act_bind_inv; [|done].
  apply act_bind_inv in E as [(d2 & bytes & E2 & E)|(e & E2 & ->)]; [pose proof (relay_read_content _ _ _ _ _ E2) as Hchain|];
    apply fs_read_entries in E2; [|done]. rewrite <-E2.
  apply act_bind_inv in E as [(d3 & certs & [= <- Hc%map_err_Ok] & E)|(e & [= <- _] & ->)]; [|done].
  apply act_bind_inv in E as [(d4 & leaf & [= <- Hl%ok_or_Ok] & E)|(e & [= <- _] & ->)]; [|done].
  apply act_bind_inv in E as [(d5 & parsed & [= <- Hp%map_err_Ok] & E)|(e & [= <- _] & ->)]; [|done].
  apply act_bind_inv in E as [(d6 & extension & [= <- Hx%map_err_Ok] & E)|(e & [= <- _] & ->)]; [|done].
  apply act_bind_inv in E as [(d7 & names & [= <- ->%ok_or_Ok] & E)|(e & [= <- _] & ->)]; [|done].
  destruct (existsb _ names) eqn:En; [|by injection E as <- <-]. destruct (Z.leb_spec (not_after parsed) now) as [|Hlt]; [by injection E as <- <-|].
  apply names_host_spec in En as (name & Hin & Hname). cbn [negb] in E.
  apply act_bind_inv in E as [(d8 & key_bytes & E8 & E)|(e & E8 & ->)]; [pose proof (relay_read_content _ _ _ _ _ E8) as Hkey|];
    apply fs_read_entries in E8; [|done]. rewrite <-E8.
  apply act_bind_inv in E as [(d9 & [found|] & [= <- Hf%map_err_Ok] & E)|(e & [= <- _] & ->)]; [|by injection E as <- <-|done].
  apply act_bind_inv in E as [(d10 & found' & [= <- <-] & E)|(e & [= <- _] & ->)].
  apply act_bind_inv in E as [(d11 & der & [= <- Hd%map_err_Ok] & E)|(e & [= <- _] & ->)]; [|done].
  apply act_bind_inv in E as [(d12 & [] & [= <- Hs%map_err_Ok] & E)|(e & [= <- _] & ->)]; [|done]. injection E as <- <-.
  split; [done|]. intros tls [= <-]. split; [done|]. exists bytes, leaf, parsed, names, name, key_bytes, found.
  unfold file_at in Hkey. rewrite E2 in Hkey. by split_and!.
Qed.

Lemma new_server_config_spec bind endpoint chain key host_id host_key c :
  new_server_config bind endpoint chain key host_id host_key = Ok c →
  server_config_validate c = Ok () ∧ decode_key (config_host_key c) = Ok host_key ∧ config_host_id c = host_id ∧
  public_endpoint c = endpoint ∧ relay_bind_address c = bind ∧ certificate_chain c = chain ∧ private_key c = key.
Proof.
  unfold new_server_config. intros ([] & Hv & <-%Ok_inj)%bind_Ok. split_and!; try done.
  unfold decode_key. cbn [config_host_key]. rewrite base64_decode_encode. cbn. by rewrite of_raw_raw.
Qed.

Lemma on_terminal_inv {A} (a : act Disk RelayError A) (w w' : RelayTerminal) r :
  on_terminal a w = (w', r) → ∃ x, a (relay_disk w) = (relay_disk w', x) ∧ r = map_err Program_Relay x ∧ output w' = output w.
Proof. unfold on_terminal. destruct (a (relay_disk w)) as [d x]. intros [= <- <-]. by exists x. Qed.

Lemma try_exists_inv path (w w' : RelayTerminal) r :
  try_exists path w = (w', r) → entries (relay_disk w') = entries (relay_disk w) ∧ output w' = output w ∧
  ∀ b, r = Ok b → b = bool_decide (is_Some (entries (relay_disk w) !! path)).
Proof. unfold try_exists, call. destruct (fault _); intros [= <- <-]; cbn; split_and!; try done. by intros b [= <-]. Qed.

(** What [init] makes of the file, with the certificates it found on the disk [d]. *)
Definition enrolled (now : Z) (token : rstring) (bind : SocketAddr) (endpoint : RelayEndpoint) (chain key host_id : rstring) d c : Prop :=
  server_config_validate c = Ok () ∧ decode_key (config_host_key c) = Ok (host_authentication_key token) ∧
  config_host_id c = host_id ∧ public_endpoint c = endpoint ∧ relay_bind_address c = bind ∧
  certificate_chain c = chain ∧ private_key c = key ∧ ∃ tls status, certified now c d tls status.

(** A path that is taken: nothing happens. *)
Lemma init_existing now token_bytes config bind endpoint chain key host_id (w w' : RelayTerminal) r :
  entries (relay_disk w) !! find_path config ≠ None →
  init_command now token_bytes config bind endpoint chain key host_id w = (w', r) →
  is_ok r = false ∧ entries (relay_disk w') = entries (relay_disk w).
Proof.
  intros Hx. unfold init_command.
  intros [(w1 & b & E1 & E)|(e & E1 & ->)]%act_bind_inv; apply try_exists_inv in E1 as (Ee & _ & Hb); [|done].
  rewrite (Hb b eq_refl), bool_decide_eq_true_2 in E by (by apply not_eq_None_Some). injection E as <- <-. done.
Qed.

Lemma init_undisturbed now token_bytes config bind endpoint chain key host_id (w w' : RelayTerminal) r :
  init_command now token_bytes config bind endpoint chain key host_id w = (w', r) →
  undisturbed (find_path config) (relay_disk w) (relay_disk w').
Proof.
  unfold init_command.
  intros [(w1 & b & E1 & E)|(e & E1 & ->)]%act_bind_inv; apply try_exists_inv in E1 as (Ee & _ & _); [|by apply undisturbed_entries].
  transitivity (relay_disk w1); [by apply undisturbed_entries|]. destruct b; [by injection E as <- <-|].
  apply act_bind_inv in E as [(w2 & c & [= <- _] & E)|(e & [= <- _] & ->)]; [|done].
  apply act_bind_inv in E as [(w3 & tls & E3 & E)|(e & E3 & ->)]; apply on_terminal_inv in E3 as (x & E3 & _);
    apply tls_server_config_spec in E3 as [Ee3 _]; [|by apply undisturbed_entries].
  transitivity (relay_disk w3); [by apply undisturbed_entries|].
  apply act_bind_inv in E as [(w4 & [] & E4 & E)|(e & E4 & ->)]; apply on_terminal_inv in E4 as (y & E4 & _);
    apply save_undisturbed in E4; [|done]. by injection E as <- <-.
Qed.

Lemma init_command_spec now token_bytes config bind endpoint chain key host_id (w w' : RelayTerminal) r :
  let path := find_path config in
  let token := base64_encode (raw token_bytes) in
  path ≠ with_extension path (lit "tmp") → entries (relay_disk w) !! with_extension path (lit "tmp") ≠ Some Fs_Other →
  init_command now token_bytes config bind endpoint chain key host_id w = (w', r) →
  (is_ok r = false ∧ file_at path (relay_disk w') = file_at path (relay_disk w) ∧ output w' = output w) ∨
  ∃ c r', entries (relay_disk w) !! path = None ∧ enrolled now token bind endpoint chain key host_id (relay_disk w) c ∧ config_written c path (relay_disk w') r' ∧
    ((is_ok r = false ∧ output w' = output w) ∨ (r = Ok () ∧ r' = Ok () ∧ token_line token ∈ output w')).
Proof.
  intros path token Hne Ho. unfold init_command. fold path token.
  intros [(w1 & b & E1 & E)|(e & E1 & ->)]%act_bind_inv; apply try_exists_inv in E1 as (Ee & Eo & Hb);
    [|left; split_and!; [done|unfold file_at; by rewrite Ee|done]].
  rewrite (Hb b eq_refl) in E. case_bool_decide as Hx; [injection E as <- <-; left; split_and!; [done|unfold file_at; by rewrite Ee|done]|].
  apply eq_None_not_Some in Hx.
  apply act_bind_inv in E as [(w2 & c & [= <- Hc%map_err_Ok] & E)|(e & [= <- _] & ->)];
    [|left; split_and!; [done|unfold file_at; by rewrite Ee|done]].
  apply new_server_config_spec in Hc as (Hv & Hk & Hh & Hp & Ha & Hchain & Hkey).
  apply act_bind_inv in E as [(w3 & tls & E3 & E)|(e & E3 & ->)]; apply on_terminal_inv in E3 as (x & E3 & Hx3 & Eo3);
    apply tls_server_config_spec in E3 as [Ee3 Ht]; [|left; split_and!; [done|unfold file_at; by rewrite Ee3, Ee|congruence]].
  destruct x as [tls'|]; [|done]. injection Hx3 as <-. destruct (Ht tls eq_refl) as [_ Hcert].
  assert (enrolled now token bind endpoint chain key host_id (relay_disk w) c) as Hen.
  { split_and!; [done..|]. exists tls.1, tls.2. revert Hcert. unfold certified, file_at. by rewrite Ee. }
  apply act_bind_inv in E as [(w4 & [] & E4 & E)|(e & E4 & ->)]; apply on_terminal_inv in E4 as (x & E4 & Hx4 & Eo4);
    apply save_cases in E4 as [[Hr Hf]|[_ Hw]]; try done; try (rewrite Ee3, Ee; done); cycle 1.
  - right. exists c, x. split_and!; [done|done| |right; split_and!; [|by destruct x as [[]|]|]].
    + injection E as <- _. done.
    + by injection E as _ <-.
    + injection E as <- _. cbn. set_solver.
  - left. split_and!; [done| |congruence]. rewrite Hf. unfold file_at. by rewrite Ee3, Ee.
  - right. exists c, x. split_and!; [done..|]. left. split; [done|congruence].
  - by destruct x.
Qed.
End identity_spec.
