(* ===== verification/RelayClientSpec.v ===== *)
(** * Correctness of the Relay's Host connector

    A cancelled connector leaves no socket open, the waiting loop ends and
    reports at most once, and the Relay accepts the hello of an honest Host and
    of an honest client. *)

From stdpp Require Import base strings numbers sorting relations gmap list.
From S2P Require Import Prelude Bytes Values Dto Net RelayProtocol RelaySpec Tunnel RelayServer RelayServerSpec RelayClient.

(** ** The canceller *)

Lemma cancel_calls_app calls1 calls2 c :
  cancel_calls (calls1 ++ calls2) c = cancel_calls calls2 (cancel_calls calls1 c).
Proof. apply foldl_app. Qed.

Lemma cancel_call_shut call c : shut c ⊆ shut (cancel_call call c).
Proof.
  destruct call as [| |socket stop|]; simpl; [done|set_solver| |done].
  unfold canceller_register. destruct (_ || _); simpl; set_solver.
Qed.

Lemma cancel_calls_shut calls c : shut c ⊆ shut (cancel_calls calls c).
Proof.
  revert c. induction calls as [|call calls IH]; intros c; [done|]. simpl.
  etrans; [apply cancel_call_shut|apply IH].
Qed.

Lemma cancel_calls_cancelled calls c : cancelled c = true → cancelled (cancel_calls calls c) = true.
Proof.
  revert c. induction calls as [|call calls IH]; intros c Hc; [done|]. simpl. apply IH.
  destruct call as [| |socket stop|]; simpl; try done. unfold canceller_register. by rewrite Hc.
Qed.

(** Identities are not reused within 2^64 calls. *)
Definition fresh_identities (n : N) (c : Canceller) : Prop :=
  (next_connection c ≤ n)%N ∧ ∀ id, is_Some (connections c !! id) → (id < next_connection c)%N.

Lemma cancel_call_fresh call n c :
  (n + 1 < 2 ^ 64)%N → fresh_identities n c → fresh_identities (n + 1) (cancel_call call c).
Proof.
  intros Hn [Hnext Hids]. destruct call as [| |socket stop|connection]; simpl.
  - split; [simpl; lia|done].
  - split; [simpl; lia|]. simpl. intros id. by rewrite lookup_empty, is_Some_alt.
  - unfold canceller_register. destruct (_ || _); simpl; [split; [simpl; lia|done]|].
    unfold fresh_identities. simpl. rewrite N.mod_small by lia. split; [lia|].
    intros id. rewrite lookup_insert. case_decide; [lia|]. intros Hid%Hids. lia.
  - split; [simpl; lia|]. simpl. intros id [s Hs]. apply lookup_delete_Some in Hs as [_ Hs]. by apply Hids.
Qed.

Lemma cancel_calls_fresh calls :
  (N.of_nat (length calls) < 2 ^ 64)%N →
  fresh_identities (N.of_nat (length calls)) (cancel_calls calls canceller_new).
Proof.
  induction calls as [|call calls IH] using rev_ind; intros Hlen.
  { split; [simpl; lia|]. simpl. intros id. by rewrite lookup_empty, is_Some_alt. }
  rewrite cancel_calls_app, length_app in *. simpl length in *. rewrite Nat2N.inj_add in *. simpl.
  apply cancel_call_fresh; [lia|]. apply IH. lia.
Qed.

(** A registered socket stays registered until it is shut down. *)
Definition held (id : N) (socket : Socket) (c : Canceller) : Prop :=
  connections c !! id = Some socket ∨ socket ∈ shut c.

Lemma cancel_call_held call id socket c :
  held id socket c → call ≠ Call_Unregister id → (cancelled c = true ∨ id ≠ next_connection c) →
  held id socket (cancel_call call c).
Proof.
  intros [Hid|Hs] Hcall Hnext; [|right; by apply cancel_call_shut].
  destruct call as [| |socket' stop|connection]; simpl.
  - by left.
  - right. simpl. apply elem_of_union_r, elem_of_map_img. by exists id.
  - unfold canceller_register. destruct Hnext as [->|Hne]; simpl; [by left|].
    destruct (_ || _); simpl; [by left|]. left. simpl. by rewrite lookup_insert_ne.
  - left. simpl. rewrite lookup_delete_ne; [done|]. intros ->. by apply Hcall.
Qed.

Lemma cancelled_calls_held calls id socket c :
  cancelled c = true → held id socket c → Call_Unregister id ∉ calls →
  held id socket (cancel_calls calls c).
Proof.
  revert c. induction calls as [|call calls IH]; intros c Hc Hheld Hn; [done|]. simpl.
  apply not_elem_of_cons in Hn as [Hn1 Hn2]. apply IH; [|apply cancel_call_held; by auto|done].
  by apply (cancel_calls_cancelled [call]).
Qed.

Lemma fresh_calls_held p q id socket :
  (N.of_nat (length (p ++ q)) < 2 ^ 64)%N → held id socket (cancel_calls p canceller_new) →
  Call_Unregister id ∉ q → held id socket (cancel_calls (p ++ q) canceller_new).
Proof.
  revert p. induction q as [|call q IH]; intros p Hlen Hheld Hn; [by rewrite app_nil_r|].
  apply not_elem_of_cons in Hn as [Hn1 Hn2]. rewrite (app_assoc p [call] q : p ++ call :: q = _) in *.
  apply IH; [done| |done]. rewrite cancel_calls_app. simpl.
  destruct Hheld as [Hid|Hs]; [|right; by apply cancel_call_shut].
  apply cancel_call_held; [by left|done|]. right. rewrite !length_app in Hlen.
  destruct (cancel_calls_fresh p) as [_ Hids]; [lia|]. specialize (Hids id ltac:(by eauto)). lia.
Qed.

Lemma cancelled_registers_nothing calls c :
  cancelled c = true → connections c = ∅ → connections (cancel_calls calls c) = ∅.
Proof.
  revert c. induction calls as [|call calls IH]; intros c Hc Hnone; [done|]. simpl. apply IH.
  - by apply (cancel_calls_cancelled [call]).
  - destruct call as [| |socket stop|]; simpl; try done.
    + unfold canceller_register. by rewrite Hc.
    + rewrite Hnone. apply delete_empty.
Qed.

Lemma cancelled_register_shut calls socket stop c :
  cancelled c = true → Call_Register socket stop ∈ calls → socket ∈ shut (cancel_calls calls c).
Proof.
  intros Hc (l1 & l2 & ->)%list_elem_of_split. rewrite cancel_calls_app. simpl.
  apply cancel_calls_shut. unfold canceller_register. rewrite cancel_calls_cancelled by done.
  simpl. set_solver.
Qed.

(** ** The waiting loop *)

Section connector.
Context `{Externals} `{RelayExternals}.

(** A read takes a header and at least a byte from the stream. *)
Lemma read_relay_consumes s s' m :
  read_relay s = (s', Ok m) → length (incoming s') < length (incoming s).
Proof.
  unfold read_relay. rewrite act_bind_Ok. intros (s1 & payload & Hf & Hl).
  assert (s' = s1) as -> by (unfold lift in Hl; congruence). clear Hl. revert Hf.
  unfold read_frame. rewrite act_bind_Ok. intros (s2 & header & Hh & Hr). revert Hh Hr. cbv zeta.
  unfold read_exact at 1. destruct (Nat.ltb_spec (length (incoming s)) 4); [done|]. intros [= <- <-].
  destruct (_ || _); [done|]. unfold read_exact. cbn [incoming written writable].
  destruct (_ <? _)%nat; [done|]. intros [= <- _]. cbn [incoming]. rewrite !length_drop. lia.
Qed.

Lemma write_endpoint_incoming m s : incoming (write_endpoint m s).1 = incoming s.
Proof.
  unfold write_endpoint, mbind, act_bind, lift. destruct (encode_endpoint m) as [bytes|]; [|done].
  unfold write_frame. destruct (_ || _); [done|]. destruct (_ <=? _)%N; [done|].
  unfold mbind, act_bind, write_all. destruct (writable s); simpl; [|done].
  destruct (_ <? _)%nat; simpl; [done|]. by destruct (_ <? _)%nat; simpl.
Qed.

Lemma wait_iteration_consumes c t h h' :
  wait_iteration c t h = (h', Ok false) →
  length (incoming (wait_stream h')) < length (incoming (wait_stream h)).
Proof.
  unfold wait_iteration. destruct (stop_before t); [done|]. rewrite act_bind_Ok.
  intros (h1 & m & Hm & Hr). unfold on_wait_stream in Hm.
  destruct (read_relay (wait_stream h)) as [s1 [m'|]] eqn:Er; [|done]. injection Hm as <- ->.
  apply read_relay_consumes in Er. destruct (stop_after t); [done|].
  destruct m as [| waiting_id | | ping_id |]; try done; simpl in Hr.
  - case_bool_decide; [|done]. destruct (routes_current t); [|done]. injection Hr as <-.
    unfold take_callback. simpl. by destruct (on_waiting h).
  - destruct (routes_current t); [|done]. revert Hr. simpl. rewrite act_bind_Ok.
    intros (h2 & [] & Hw & [= <-]). unfold on_wait_stream in Hw. simpl in Hw.
    pose proof (write_endpoint_incoming (Pong ping_id) s1) as Hi.
    destruct (write_endpoint _ s1) as [s2 r2]. injection Hw as <- _. simpl in *. by rewrite Hi.
Qed.

(** The loop ends before the stream has been read through. *)
Lemma wait_loop_ends c ticks h :
  length (incoming (wait_stream h)) < length ticks → is_Some (wait_loop c ticks h).2.
Proof.
  revert h. induction ticks as [|t ticks IH]; intros h Hlen; [simpl in Hlen; lia|]. cbn [wait_loop].
  destruct (wait_iteration c t h) as [h' [[]|e]] eqn:Ei; [by eexists|  |by eexists].
  apply IH. apply wait_iteration_consumes in Ei. simpl in Hlen. lia.
Qed.

(** The callback runs at most once: then it is gone. *)
Definition callback_inv (h : HostWait) : Prop := waiting_calls h = if on_waiting h then 0 else 1.

Lemma wait_iteration_callback c t h : callback_inv h → callback_inv (wait_iteration c t h).1.
Proof.
  intros Hh. unfold wait_iteration. destruct (stop_before t); [done|].
  unfold mbind, act_bind, on_wait_stream. destruct (read_relay (wait_stream h)) as [s1 [m|]]; [|done].
  destruct (stop_after t); [done|]. destruct m as [| waiting_id | | ping_id |]; try done.
  - case_bool_decide; [|done]. destruct (routes_current t); [|done].
    unfold callback_inv, modify, take_callback in *. simpl. by destruct (on_waiting h); simpl; rewrite ?Hh.
  - destruct (routes_current t); [|done]. cbn [negb wait_stream]. by destruct (write_endpoint _ s1) as [s2 [[]|]].
Qed.

Lemma wait_loop_callback c ticks h : callback_inv h → callback_inv (wait_loop c ticks h).1.
Proof.
  revert h. induction ticks as [|t ticks IH]; intros h Hh; [done|]. cbn [wait_loop].
  pose proof (wait_iteration_callback c t h Hh) as Hi.
  destruct (wait_iteration c t h) as [h' [[]|e]]; [done|by apply IH|done].
Qed.

Lemma wait_iteration_taken c t h : on_waiting h = false → on_waiting (wait_iteration c t h).1 = false.
Proof.
  intros Hh. unfold wait_iteration. destruct (stop_before t); [done|].
  unfold mbind, act_bind, on_wait_stream. destruct (read_relay (wait_stream h)) as [s1 [m|]]; [|done].
  destruct (stop_after t); [done|]. destruct m as [| waiting_id | | ping_id |]; try done.
  - case_bool_decide; [|done]. destruct (routes_current t); [|done].
    unfold modify, take_callback. simpl. by rewrite Hh.
  - destruct (routes_current t); [|done]. cbn [negb wait_stream]. by destruct (write_endpoint _ s1) as [s2 [[]|]].
Qed.

Lemma wait_loop_taken c ticks h : on_waiting h = false → on_waiting (wait_loop c ticks h).1 = false.
Proof.
  revert h. induction ticks as [|t ticks IH]; intros h Hh; [done|]. cbn [wait_loop].
  pose proof (wait_iteration_taken c t h Hh) as Hi.
  destruct (wait_iteration c t h) as [h' [[]|e]]; [done|by apply IH|done].
Qed.

(** After the Relay's announcement the callback has run. *)
Lemma wait_loop_announced c t ticks payload rest w k :
  framable payload → decode_relay payload = Ok (HostWaiting c) →
  stop_before t = false → stop_after t = false → routes_current t = true →
  waiting_calls (wait_loop c (t :: ticks)
    (MkHostWait (MkStream (frame payload ++ rest) w k) true 0)).1 = 1.
Proof.
  intros Hf Hd Hb Ha Hc. cbn [wait_loop].
  assert (wait_iteration c t (MkHostWait (MkStream (frame payload ++ rest) w k) true 0) =
    (MkHostWait (MkStream rest w k) false 1, Ok false)) as ->.
  { unfold wait_iteration. rewrite Hb. unfold mbind, act_bind, on_wait_stream, read_relay. cbn [wait_stream].
    unfold mbind, act_bind. rewrite read_frame_spec by done. unfold lift. rewrite Hd, Ha, Hc.
    by rewrite bool_decide_true. }
  pose proof (wait_loop_callback c ticks (MkHostWait (MkStream rest w k) false 1) eq_refl) as Hi.
  unfold callback_inv in Hi. by rewrite wait_loop_taken in Hi.
Qed.
End connector.

(** ** Both ends together *)

Section handshake.
Context `{Externals} `{RelayExternals} `{!RelayExternalsOk}.

Lemma challenge_valid_nonce (nonce : bytes32) c started now w k bytes :
  encode_relay (challenge nonce c started).1.1.1 = Ok bytes → (now < started + 10)%Z →
  read_challenge now (MkStream (frame bytes) w k) =
    (MkStream [] w k, Ok (c, nonce, (started + 10)%Z)).
Proof.
  intros Hb Hnow. destruct (decode_encode_relay _ _ Hb) as [Hf Hd].
  unfold read_challenge, read_relay, mbind, act_bind. rewrite <-(app_nil_r (frame bytes)).
  rewrite read_frame_spec by done. unfold lift. rewrite Hd. cbn [challenge fst].
  destruct (Z.leb_spec (started + 10) now); [lia|]. unfold ok_or.
  by rewrite base64_decode_encode, of_raw_raw.
Qed.

(** What the connector writes is a valid hello with the proof of its context. *)
Lemma host_handshake_written (cfg : RelayHostConnectionConfig) routes now nonce c started bytes stream' cid :
  encode_relay (challenge nonce c started).1.1.1 = Ok bytes → (now < started + 10)%Z →
  host_handshake cfg routes now (MkStream (frame bytes) [] None) = (stream', Ok cid) →
  cid = c ∧ ∃ proof payload,
    host_proof (host_authentication_key_bytes cfg) c nonce (started + 10) (host_id cfg) routes = Ok proof ∧
    encode_endpoint (HostHello (host_id cfg) routes proof) = Ok payload ∧
    stream' = MkStream [] (frame payload) None.
Proof.
  intros Hb Hnow. unfold host_handshake, mbind at 1, act_bind at 1.
  rewrite (challenge_valid_nonce nonce c started now _ _ bytes) by done. rewrite act_bind_Ok.
  intros (s1 & proof & Hp & Hr). unfold lift in Hp. injection Hp as <- Hp.
  apply act_bind_Ok in Hr as (s2 & [] & Hw & [= -> <-]). split; [done|].
  unfold write_endpoint in Hw. apply act_bind_Ok in Hw as (s3 & payload & He & Hw).
  unfold lift in He. injection He as <- He. exists proof, payload. split; [done|]. split; [done|].
  destruct (decode_encode_endpoint _ _ He) as [Hf _]. rewrite write_frame_spec in Hw by done.
  by injection Hw as <-.
Qed.

(** The server reads the hello of a Host that answers its challenge in time. *)
Lemma authenticate_first_reads s m payload nonce c started now bytes :
  encode_relay (challenge nonce c started).1.1.1 = Ok bytes → (now < started + 10)%Z →
  encode_endpoint m = Ok payload → (∀ ping_id, m ≠ Pong ping_id) →
  authenticate_first nonce c started now (MkConn s (MkStream (frame payload) [] None)) =
    (MkConn s (MkStream [] (frame bytes) None), Ok m).
Proof.
  intros Hb Hnow Hm Hpong. destruct (decode_encode_relay _ _ Hb) as [Hfb _].
  destruct (decode_encode_endpoint _ _ Hm) as [Hf Hd].
  unfold authenticate_first. cbn [challenge fst] in *. unfold mbind, act_bind, write_relay, lift, on_stream.
  unfold mbind, act_bind. rewrite Hb. cbn [conn_stream]. rewrite write_frame_spec by done.
  cbn [conn_shared conn_stream incoming written]. rewrite <-(app_nil_r (frame payload)).
  rewrite read_frame_spec by done. rewrite Hd. destruct (Z.leb_spec (started + 10) now); [lia|].
  simpl. destruct m; [done|done|by destruct (Hpong ping_id)].
Qed.

Lemma collect_keys_spec routes keys :
  validate_routes None routes = Ok () →
  ∃ keys', collect_keys routes keys = Ok keys' ∧
    (∀ r, r ∈ routes → ∃ key, decode_32 "authentication_key" (authentication_key r) = Ok key ∧
       keys' !! route_id r = Some key) ∧
    (∀ id, id ∉ (route_id <$> routes) → keys' !! id = keys !! id).
Proof.
  intros Hv. pose proof (proj1 (validate_routes_sorted _ _ Hv)) as Hs. revert Hv. generalize (@None rstring).
  revert keys. induction routes as [|r routes IH]; intros keys previous; cbn [validate_routes collect_keys].
  { intros _. exists keys. split; [done|]. split; [|done]. intros r Hr. by apply elem_of_nil in Hr. }
  intros (id & _ & (key & Hk & Hr)%bind_Ok)%bind_Ok. destruct (from_option _ _ _); [done|].
  apply StronglySorted_inv in Hs as [Hs Hall]. rewrite Hk. simpl.
  destruct (IH Hs (<[route_id r := key]> keys) _ Hr) as (keys' & -> & Hin & Hout).
  assert (route_id r ∉ (route_id <$> routes)) as Hnot.
  { intros Hin'. rewrite Forall_forall in Hall. specialize (Hall _ Hin'). unfold str_lt in Hall.
    by rewrite str_ltb_irrefl in Hall. }
  exists keys'. split; [done|]. split.
  - intros r' [->|Hr']%elem_of_cons; [|by apply Hin]. exists key. split; [done|].
    rewrite Hout by done. apply lookup_insert_eq.
  - intros id' Hid'. apply not_elem_of_cons in Hid' as [Hne Hid'].
    rewrite Hout by done. by rewrite lookup_insert_ne.
Qed.

(** With the right key the registration fails only for want of capacity or
    because of an overlap. *)
Lemma host_register_accepts sc c nonce expires_at routes proof key conn payload :
  decode_key (config_host_key sc) = Ok key →
  host_proof key c nonce expires_at (config_host_id sc) routes = Ok proof →
  encode_endpoint (HostHello (config_host_id sc) routes proof) = Ok payload →
  size (waiting (conn_shared conn)) < MAX_WAITING_HOSTS →
  (∀ id e r, waiting (conn_shared conn) !! id = Some e → r ∈ routes → waiting_routes e !! route_id r = None) →
  ∃ conn' keys, host_register sc c nonce expires_at (config_host_id sc) routes proof conn = (conn', Ok keys) ∧
    waiting (conn_shared conn') !! c = Some (MkWaiting c keys) ∧
    (∀ r, r ∈ routes → ∃ k, decode_32 "authentication_key" (authentication_key r) = Ok k ∧
       keys !! route_id r = Some k).
Proof.
  intros Hkey Hproof ([] & Hv & _)%bind_Ok Hsize Hfree. cbn [validate_endpoint] in Hv.
  apply bind_Ok in Hv as ([] & _ & Hv). destruct (_ || _); [done|].
  apply bind_Ok in Hv as ([] & Hroutes & _).
  destruct (collect_keys_spec routes ∅ Hroutes) as (keys & Hkeys & Hin & Hout).
  destruct (proj1 (host_proof_Ok _ _ _ _ _ _ _) Hproof) as (tr & mac & _ & _ & Hmac).
  unfold host_register, mbind, act_bind, lift. rewrite Hkey, Hproof.
  rewrite bool_decide_true by done. cbn [negb orb].
  assert (verify_proof proof proof = true) as ->. { subst proof. by apply verify_proof_spec. }
  cbn [negb]. rewrite Hkeys. unfold gets, id. apply Nat.leb_gt in Hsize. rewrite Hsize.
  assert (routes_overlap (waiting (conn_shared conn)) keys = false) as ->.
  { apply bool_decide_eq_false. intros (rid & k & Hk & id & e & He & [k' Hk']).
    destruct (decide (rid ∈ (route_id <$> routes))) as [Hrid|Hrid].
    - apply list_elem_of_fmap in Hrid as (r & -> & Hr). by rewrite (Hfree id e r He Hr) in Hk'.
    - by rewrite (Hout _ Hrid), lookup_empty in Hk. }
  eexists _, keys. split; [done|]. split; [|done]. simpl. apply lookup_insert_eq.
Qed.

(** With the key of a waiting route the client is matched. *)
Lemma client_accepted s ph c nonce expires_at h e cred proof stream :
  shared_inv s ph → waiting s !! h = Some e →
  waiting_routes e !! credential_route_id cred = Some (credential_key cred) →
  build_client_hello (credential_key cred) (credential_route_id cred)
    (Challenge c (base64_encode (raw nonce)) expires_at) = Ok (ClientHello (credential_route_id cred) proof) →
  client_claim (credential_route_id cred) (MkConn s stream) = (MkConn s stream, Ok (h, credential_key cred)) ∧
  client_verify (credential_key cred) c nonce expires_at (credential_route_id cred) proof (MkConn s stream) =
    (MkConn s stream, Ok ()) ∧
  client_take h (MkConn s stream) = (MkConn (remove_waiting_host h s) stream, Ok ()).
Proof.
  intros Hinv He Hroute Hhello. split_and!.
  - unfold client_claim, mbind, act_bind, gets, id. cbn [conn_shared].
    rewrite bool_decide_false by (intros Hw; by rewrite Hw, lookup_empty in He).
    destruct (find_route _ _) as [[e' key]|] eqn:Ef.
    + apply find_route_Some in Ef as (id & Hid & Hk). destruct (decide (id = h)) as [->|Hne].
      * assert (e' = e) as -> by congruence. assert (key = credential_key cred) as -> by congruence.
        by destruct (si_entry _ _ Hinv h e He) as [-> _].
      * pose proof (si_disjoint _ _ Hinv _ _ _ _ Hid He Hne) as Hd.
        by destruct (map_disjoint_spec (waiting_routes e') (waiting_routes e)) as [Hs _];
          destruct (Hs Hd _ _ _ Hk Hroute).
    + by rewrite (find_route_None _ _ Ef _ _ He) in Hroute.
  - unfold build_client_hello in Hhello. rewrite decode_32_encode in Hhello. simpl in Hhello.
    apply bind_Ok in Hhello as (proof' & Hp & [= ->]).
    unfold client_verify, mbind, act_bind, lift. rewrite Hp.
    destruct (proj1 (client_proof_Ok _ _ _ _ _ _) Hp) as (tr & mac & _ & _ & ->).
    by rewrite (proj2 (verify_proof_spec mac _)).
  - unfold client_take, mbind, act_bind, gets, id. cbn [conn_shared].
    rewrite bool_decide_true by (by rewrite He). done.
Qed.
End handshake.
