(* ===== verification/RelayRuns.v ===== *)
(** * A concrete Relay

    A library for the Relay's third-party functions with the laws it relies on,
    documents of one Host and one client, and an executable form of the
    server's interleavings with a run that ends in a tunnel. *)

From stdpp Require Import base strings numbers sorting relations gmap list.
From S2P Require Import Prelude Bytes Values Dto Net RelayProtocol RelaySpec Tunnel RelayServer RelayClient Examples.

(** ** Executable interleavings *)

Inductive RelayAction : Type :=
| Act_Register (c : rstring) (nonce : bytes32) (expires_at : Z) (host_id : rstring)
    (routes : list RouteRegistration) (proof : rstring)
| Act_Announce (c : rstring)
| Act_Claim (c route : rstring)
| Act_Verify (c : rstring) (nonce : bytes32) (expires_at : Z) (proof : rstring)
| Act_Take (c : rstring)
| Act_Send (c : rstring)
| Act_Host (c : rstring) (event : HostEvent).

Section runs.
Context `{Externals} `{RelayExternals}.

(** One action, with writable streams on which nothing waits. *)
Definition idle_stream : Stream := MkStream [] [] None.

Definition relay_act (config : RelayServerConfig) (a : RelayAction) (w : RelayWorld) : option RelayWorld :=
  match a with
  | Act_Register c nonce expires_at host_id routes proof =>
      match phases w !! c with
      | None =>
          let '(conn, r) := host_register config c nonce expires_at host_id routes proof
                              (MkConn (shared w) idle_stream) in
          Some (step_to c (match r with Ok keys => Host_Registered keys | Err _ => Closed end)
                  (conn_shared conn) w)
      | _ => None
      end
  | Act_Announce c =>
      match phases w !! c with
      | Some (Host_Registered routes) =>
          let '(conn, r) := host_announce c (MkConn (shared w) idle_stream) in
          Some (match r with
                | Ok _ => step_to c (Host_Waiting routes) (conn_shared conn) w
                | Err _ => step_to c (Host_Ended routes) (host_end c (conn_shared conn)) w
                end)
      | _ => None
      end
  | Act_Claim c route =>
      match phases w !! c with
      | None =>
          let '(conn, r) := client_claim route (MkConn (shared w) idle_stream) in
          Some (step_to c (match r with Ok (host, key) => Client_Claimed host key route | Err _ => Closed end)
                  (conn_shared conn) w)
      | _ => None
      end
  | Act_Verify c nonce expires_at proof =>
      match phases w !! c with
      | Some (Client_Claimed host key route) =>
          let '(conn, r) := client_verify key c nonce expires_at route proof
                              (MkConn (shared w) idle_stream) in
          Some (step_to c (match r with
                  | Ok _ => Client_Verified host key route nonce expires_at proof | Err _ => Closed end)
                  (conn_shared conn) w)
      | _ => None
      end
  | Act_Take c =>
      match phases w !! c with
      | Some (Client_Verified host key route nonce expires_at proof) =>
          let '(conn, r) := client_take host (MkConn (shared w) idle_stream) in
          Some (step_to c (match r with
                  | Ok _ => Client_Taken host key route nonce expires_at proof | Err _ => Closed end)
                  (conn_shared conn) w)
      | _ => None
      end
  | Act_Send c =>
      match phases w !! c with
      | Some (Client_Taken host key route nonce expires_at proof) =>
          let '(conn, r) := client_send host c (MkConn (shared w) idle_stream) in
          Some (step_to c (match r with
                  | Ok _ => Client_Sent host key route nonce expires_at proof | Err _ => Closed end)
                  (conn_shared conn) w)
      | _ => None
      end
  | Act_Host c event =>
      match phases w !! c with
      | Some (Host_Waiting routes) =>
          let '(conn, r) := host_iteration c event (MkConn (shared w) idle_stream) in
          Some (match r with
                | Ok None => step_to c (Host_Waiting routes) (conn_shared conn) w
                | Ok (Some client) =>
                    step_to c (Host_Tunnel routes (matched_connection_id client)) (conn_shared conn) w
                | Err _ => step_to c (Host_Ended routes) (host_end c (conn_shared conn)) w
                end)
      | _ => None
      end
  end.

Fixpoint relay_run (config : RelayServerConfig) (actions : list RelayAction) (w : RelayWorld) :
    option RelayWorld :=
  match actions with
  | [] => Some w
  | a :: actions' => w' ← relay_act config a w; relay_run config actions' w'
  end.

Lemma relay_act_step config a w w' : relay_act config a w = Some w' → relay_step config w w'.
Proof.
  destruct a; simpl;
    (destruct (phases w !! c) as [[]|] eqn:Ep; try done);
    match goal with |- context [let '(_, _) := ?m in _] => destruct m as [conn r] eqn:Er end;
    intros [= <-]; by econstructor.
Qed.

Lemma relay_run_steps config actions w w' :
  relay_run config actions w = Some w' → rtc (relay_step config) w w'.
Proof.
  revert w. induction actions as [|a actions IH]; intros w; cbn [relay_run]; [by intros [= ->]|].
  intros (w1 & Ha & Hr)%bind_Some. eapply rtc_l; [by eapply relay_act_step|by apply IH].
Qed.
End runs.

(** ** A library *)

#[export] Instance RelayEnvelope_eq_dec {T} `{EqDecision T} : EqDecision (RelayEnvelope T).
Proof. solve_decision. Defined.

(** Documents are the entries of a table, written as their index. *)
Definition table_to_vec {T} `{EqDecision T} (table : list T) (e : RelayEnvelope T) :
    result rstring (list Byte.byte) :=
  if bool_decide (raw (relay_version e) = 1%N) then
    match list_find (λ m, m = relay_message e) table with
    | Some (i, _) => if (i <? 256)%nat then Ok [byte_of_N (N.of_nat i)] else Err (lit "unknown")
    | None => Err (lit "unknown")
    end
  else Err (lit "unknown").

Definition table_from_slice {T} (table : list T) (bytes : list Byte.byte) : result rstring (RelayEnvelope T) :=
  match bytes with
  | [b] => match table !! N.to_nat (Byte.to_N b) with
           | Some m => Ok (MkRelayEnvelope (Refine 1%N I) m)
           | None => Err (lit "unknown")
           end
  | _ => Err (lit "unknown")
  end.

Lemma table_json {T} `{EqDecision T} (table : list T) e bytes :
  table_to_vec table e = Ok bytes → bytes ≠ [] ∧ table_from_slice table bytes = Ok e.
Proof.
  unfold table_to_vec. case_bool_decide as Hv; [|done].
  destruct (list_find _ table) as [[i m]|] eqn:Ef; [|done].
  apply list_find_Some in Ef as (Hi & -> & _).
  destruct (Nat.ltb_spec i 256); [|done]. intros <-%Ok_inj. split; [done|]. unfold table_from_slice.
  rewrite byte_to_of_N, N.mod_small, Nat2N.id by lia. rewrite Hi. f_equal.
  destruct e as [v m]. simpl in *. f_equal. by apply refined_eq.
Qed.

Definition pad_32 (l : list Byte.byte) : list Byte.byte := take 32 (l ++ replicate 32 Byte.x00).
Lemma pad_32_length l : Is_true (length (pad_32 l) =? 32)%nat.
Proof.
  unfold pad_32. apply Is_true_true, Nat.eqb_eq. rewrite length_take, length_app, length_replicate. lia.
Qed.

(** A keyed checksum in the place of HMAC: the sum of the key and the bytes. *)
Definition checksum (l : list Byte.byte) : list Byte.byte :=
  be_bytes 32 (foldr (λ b v, Byte.to_N b + 3 * v)%N 0%N l mod 2 ^ 256).
Lemma checksum_length l : Is_true (length (checksum l) =? 32)%nat.
Proof. unfold checksum. by rewrite length_be_bytes. Qed.

Definition toy_decode (s : rstring) : option (list Byte.byte) :=
  if forallb (λ c, (c <? 256)%N) s then Some (byte_of_N <$> s) else None.

Definition connection_host : rstring := [v7 40].
Definition connection_client : rstring := [v7 41].
Definition relay_host_id : rstring := [v7 42].
Definition relay_ping : rstring := [v7 43].

Abbreviation key_of b := (Refine (replicate 32 b) I : bytes32).
Definition host_key : bytes32 := key_of Byte.x07.
Definition route_credential : RelayRouteCredential :=
  MkCredential (replicate 32 65%N) (key_of Byte.x09).
Definition relay_route : RouteRegistration :=
  MkRoute (replicate 32 65%N) (replicate 32 9%N).
Definition relay_nonce : bytes32 := key_of Byte.x05.

(** The MACs of the hellos below. *)
Definition toy_mac (key m : list Byte.byte) : bytes32 := Refine (checksum (key ++ m)) (checksum_length _).

Definition endpoint_table (host_proof client_proof : rstring) : list EndpointMessage :=
  [HostHello relay_host_id [relay_route] host_proof; ClientHello (replicate 32 65%N) client_proof;
   Pong relay_ping].
Definition relay_table : list RelayMessage :=
  [Challenge connection_host (replicate 32 5%N) 110; Challenge connection_client (replicate 32 5%N) 110;
   HostWaiting connection_host; TunnelReady connection_host; TunnelReady connection_client; Ping relay_ping].

Definition toy_encode (b : list Byte.byte) : rstring := Byte.to_N <$> b.

(** The proofs, computed with the library's own functions. *)
Definition toy_library (host_proof client_proof : rstring) : RelayExternals := {|
  base64_encode := toy_encode;
  base64_decode := toy_decode;
  hmac_sha256 := λ key m, Some (toy_mac key m);
  sha256 := λ m, toy_mac [] m;
  endpoint_to_vec := table_to_vec (endpoint_table host_proof client_proof);
  endpoint_from_slice := table_from_slice (endpoint_table host_proof client_proof);
  relay_to_vec := table_to_vec relay_table;
  relay_from_slice := table_from_slice relay_table
|}.

Definition toy_host_proof : rstring := Eval vm_compute in
  match @host_proof _ (toy_library [] []) host_key connection_host relay_nonce 110 relay_host_id [relay_route] with
  | Ok p => p | Err _ => [] end.
Definition toy_client_proof : rstring := Eval vm_compute in
  match @client_proof _ (toy_library [] []) (credential_key route_credential) connection_client relay_nonce 110
          (credential_route_id route_credential) with
  | Ok p => p | Err _ => [] end.

#[export] Instance relay_library : RelayExternals := toy_library toy_host_proof toy_client_proof.

Lemma toy_decode_encode b : toy_decode (toy_encode b) = Some b.
Proof.
  unfold toy_decode, toy_encode. assert (forallb (λ c, (c <? 256)%N) (Byte.to_N <$> b) = true) as ->.
  { apply forallb_forall. intros c Hc. apply list_elem_of_In, list_elem_of_fmap in Hc as (x & -> & _).
    apply N.ltb_lt, byte_to_N_lt. }
  f_equal. rewrite <-list_fmap_compose. rewrite <-(list_fmap_id b) at 2. apply list_fmap_ext.
  intros i x _. apply byte_of_to_N.
Qed.

Lemma toy_canonical s b : toy_decode s = Some b → s = toy_encode b.
Proof.
  unfold toy_decode, toy_encode. destruct (forallb _ s) eqn:Ef; [|done]. intros [= <-].
  rewrite <-list_fmap_compose. rewrite <-(list_fmap_id s) at 1. apply list_fmap_ext.
  intros i x Hx. simpl. rewrite byte_to_of_N, N.mod_small; [done|].
  rewrite forallb_forall in Ef. apply N.ltb_lt, Ef, list_elem_of_In. by eapply list_elem_of_lookup_2.
Qed.

#[export] Instance relay_library_ok : RelayExternalsOk.
Proof.
  split; [apply toy_decode_encode|apply toy_canonical|by eexists|apply table_json|apply table_json].
Qed.

(** ** A run *)

Definition relay_config : RelayServerConfig :=
  MkServerConfig (Refine 1%N I) (MkSocketAddr (V4 0 0 0 0) (Refine 2333%N I)) (MkEndpoint (lit "relay.example.com") (Refine 2333%N I))
    (lit "/tmp/cert.pem") (lit "/tmp/key.pem") relay_host_id (replicate 32 7%N).

Definition connector_config : RelayHostConnectionConfig :=
  MkHostConfig (MkEndpoint (lit "relay.example.com") (Refine 2333%N I)) relay_host_id host_key
    (Refine 9000%N I) false.

Definition relay_actions : list RelayAction :=
  [Act_Register connection_host relay_nonce 110 relay_host_id [relay_route] toy_host_proof;
   Act_Announce connection_host; Act_Claim connection_client (replicate 32 65%N);
   Act_Verify connection_client relay_nonce 110 toy_client_proof;
   Act_Take connection_client; Act_Send connection_client; Act_Host connection_host Host_Client].

(** The world after a prefix of the run. *)
Definition relay_after (n : nat) : RelayWorld :=
  default relay_initial (relay_run relay_config (take n relay_actions) relay_initial).

Definition connected (w : RelayWorld) (h c : rstring) : bool :=
  match phases w !! h, phases w !! c with
  | Some (Host_Tunnel _ client), Some (Client_Sent host _ _ _ _ _) =>
      bool_decide (client = c) && bool_decide (host = h)
  | _, _ => false
  end.

Lemma connected_tunnel w h c :
  connected w h c = true → ∃ routes, phases w !! h = Some (Host_Tunnel routes c).
Proof.
  unfold connected. destruct (phases w !! h) as [[]|]; try done. destruct (phases w !! c) as [[]|]; try done.
  intros [->%bool_decide_eq_true _]%andb_true_iff. by eexists.
Qed.

(** Whether a waiting Host offers the route of a credential. *)
Definition offers (w : RelayWorld) (h : rstring) (cred : RelayRouteCredential) : bool :=
  match waiting (shared w) !! h with
  | Some e => bool_decide (waiting_routes e !! credential_route_id cred = Some (credential_key cred))
  | None => false
  end.

Lemma offers_waiting w h cred :
  offers w h cred = true →
  ∃ e, waiting (shared w) !! h = Some e ∧ waiting_routes e !! credential_route_id cred = Some (credential_key cred).
Proof.
  unfold offers. destruct (waiting (shared w) !! h) as [e|]; [|done].
  intros ?%bool_decide_eq_true. by exists e.
Qed.

Example relay_run_connects : connected (relay_after 7) connection_host connection_client = true.
Proof. vm_compute. reflexivity. Qed.
