(* ===== verification/RelayTheorems.v ===== *)
(** * Theorems on the Relay

    Messages survive framing and encoding, a proof authenticates one context,
    the server matches each waiting Host with at most one client that proved a
    route of it, honest ends are accepted, a cancelled connector leaves no
    socket open, and the tunnel is transparent, bounded and ends. *)

From stdpp Require Import base strings numbers sorting relations gmap list.
From S2P Require Import Prelude Bytes Values Dto Net Platform RelayProtocol RelaySpec Tunnel RelayServer RelayServerSpec RelayClient RelayClientSpec RelayConfig Examples RelayRuns.

Section relay.
Context `{Externals} `{RelayExternals}.

(** A stream of control messages is transparent.  Encoded
    messages, written as frames one after the other, are read back as they were,
    with nothing taken of what follows; if the last frame is cut short, reading
    it is an end-of-file error; and neither side handles a payload that is empty
    or longer than 16 KiB. *)
Theorem relay_message_stream `{!RelayExternalsOk} (messages : list RelayMessage) payloads rest s :
  Forall2 (λ m payload, encode_relay m = Ok payload) messages payloads → writable s = None →
  ∃ wire, write_frames payloads s = (MkStream (incoming s) (written s ++ wire) None, Ok ()) ∧
    (∀ w k, read_frames (length messages) (MkStream (wire ++ rest) w k) = (MkStream rest w k, Ok payloads)) ∧
    try_collect decode_relay payloads = Ok messages ∧
    (∀ payload n w k, payload ∈ payloads → n < length (frame payload) → ∃ s' operation,
       read_frame (MkStream (take n (frame payload)) w k) = (s', Err (Relay_Io operation Io_UnexpectedEof))) ∧
    (∀ payload, ¬ framable payload →
       write_frame payload s = (s, Err (relay_invalid "control_frame" frame_size)) ∧
       ∀ t t', read_frame t ≠ (t', Ok payload)).
Proof.
  intros Henc Hs. assert (Forall framable payloads) as Hf.
  { eapply Forall2_Forall_r; [exact Henc|]. apply Forall_true. intros m payload Hm.
    by apply decode_encode_relay in Hm as [? _]. }
  exists (concat (frame <$> payloads)). split_and!.
  - by apply write_frames_spec.
  - intros w k. rewrite (Forall2_length _ _ _ Henc). by apply read_frames_spec.
  - apply try_collect_Ok. apply Forall2_flip. eapply Forall2_impl; [exact Henc|].
    intros m payload Hm. by apply decode_encode_relay in Hm as [_ ?].
  - intros payload n w k Hin. apply read_frame_truncated. by rewrite Forall_forall in Hf; apply Hf.
  - intros payload Hp. split; [by apply write_frame_invalid|].
    intros t t' Hr. by apply read_frame_bounds in Hr.
Qed.

(** C24: A proof authenticates its whole context.  If the proof of
    one context is accepted in another under the same key, then connection,
    nonce, expiry and Host or route and route keys agree, unless the transcripts
    of exactly these two contexts are different messages with the same MAC under
    that key; and a Host proof passes for a client's only if these two
    transcripts, which are never equal, have the same MAC. *)
Theorem relay_proofs_bind `{!RelayExternalsOk} key c c' n n' e e' :
  i64_range e → i64_range e' →
  (∀ h h' rs rs' supplied expected, host_proof key c n e h rs = Ok supplied →
     host_proof key c' n' e' h' rs' = Ok expected → verify_proof expected supplied = true →
     (same_uuid c c' ∧ n = n' ∧ e = e' ∧ same_uuid h h' ∧ rs = rs') ∨
     collide key (host_transcript c n e h rs) (host_transcript c' n' e' h' rs')) ∧
  (∀ r r' supplied expected, client_proof key c n e r = Ok supplied →
     client_proof key c' n' e' r' = Ok expected → verify_proof expected supplied = true →
     (same_uuid c c' ∧ n = n' ∧ e = e' ∧ r = r') ∨
     collide key (client_transcript c n e r) (client_transcript c' n' e' r')) ∧
  (∀ h rs r supplied expected, host_proof key c n e h rs = Ok supplied →
     client_proof key c' n' e' r = Ok expected → verify_proof expected supplied = true →
     collide key (host_transcript c n e h rs) (client_transcript c' n' e' r)).
Proof.
  intros He He'. split_and!.
  - intros h h' rs rs' supplied expected (tr & mac & Ht & Hm & ->)%host_proof_Ok
      (tr' & mac' & Ht' & Hm' & ->)%host_proof_Ok Heq%verify_proof_spec%mac_encode_inj. subst mac'.
    destruct (decide (tr = tr')) as [<-|Hne]; [left|right; exists tr, tr'; by rewrite Hm, Hm'].
    by apply (host_transcript_inj _ _ _ _ _ _ _ _ _ _ tr).
  - intros r r' supplied expected (tr & mac & Ht & Hm & ->)%client_proof_Ok
      (tr' & mac' & Ht' & Hm' & ->)%client_proof_Ok Heq%verify_proof_spec%mac_encode_inj. subst mac'.
    destruct (decide (tr = tr')) as [<-|Hne]; [left|right; exists tr, tr'; by rewrite Hm, Hm'].
    by apply (client_transcript_inj _ _ _ _ _ _ _ _ tr).
  - intros h rs r supplied expected (tr & mac & Ht & Hm & ->)%host_proof_Ok
      (tr' & mac' & Ht' & Hm' & ->)%client_proof_Ok Heq%verify_proof_spec%mac_encode_inj. subst mac'.
    exists tr, tr'. split_and!; [done..| |by rewrite Hm, Hm']. intros <-. by apply (transcripts_differ c c' n n' e e' h rs r tr).
Qed.

(** C9: whatever handlers interleave, waiting registrations have
    disjoint routes and respect the capacity, and a Host in a tunnel is there
    with a client that proved the key of a route this Host registered; no other
    client was given this Host, and this client no other Host. *)
Theorem relay_matching config w :
  rtc (relay_step config) relay_initial w →
  size (waiting (shared w)) ≤ MAX_WAITING_HOSTS ∧
  (∀ id1 id2 e1 e2, waiting (shared w) !! id1 = Some e1 → waiting (shared w) !! id2 = Some e2 → id1 ≠ id2 →
     waiting_routes e1 ##ₘ waiting_routes e2) ∧
  ∀ h routes c, phases w !! h = Some (Host_Tunnel routes c) →
    ∃ key route nonce expires_at proof expected,
      phases w !! c = Some (Client_Sent h key route nonce expires_at proof) ∧
      routes !! route = Some key ∧
      client_proof key c nonce expires_at route = Ok expected ∧ verify_proof expected proof = true ∧
      (∀ c', phases w !! c' ≫= phase_takes = Some h → c' = c) ∧
      (∀ h' routes', phases w !! h' = Some (Host_Tunnel routes' c) → h' = h).
Proof.
  intros [Hp Hs]%relay_inv_reachable. split; [apply Hs|]. split; [apply Hs|]. intros h routes c Hh.
  pose proof (pi_tunnel _ Hp _ _ _ Hh) as Hc.
  destruct (phases w !! c) as [[]|] eqn:Ec; try done. injection Hc as ->.
  destruct (pi_client _ Hp c h key route) as (routes' & Hr & Hk); [by rewrite Ec|].
  rewrite Hh in Hr. injection Hr as <-. destruct (pi_proved _ Hp _ _ Ec) as (expected & He & Hv).
  exists key, route, nonce, expires_at, proof, expected. split_and!; try done.
  - intros c' Hc'. apply (pi_unique _ Hp _ _ h); [done|by rewrite Ec].
  - intros h' r' Hh'. apply (pi_tunnel _ Hp) in Hh'. rewrite Ec in Hh'. by injection Hh'.
Qed.

(** The server accepts an honest Host.  If the connector
    answers the server's challenge in time and holds the configured identity and
    key, the server reads exactly this hello and, unless it is full or a route
    is already waiting, registers every route with its key; on any refusal the
    waiting registrations stay as they were. *)
Theorem relay_honest_host `{!RelayExternalsOk} sc (cfg : RelayHostConnectionConfig) routes now now' started nonce
    c bytes stream' cid s :
  encode_relay (challenge nonce c started).1.1.1 = Ok bytes →
  (now < started + 10)%Z → (now' < started + 10)%Z →
  host_id cfg = config_host_id sc →
  decode_key (config_host_key sc) = Ok (host_authentication_key_bytes cfg) →
  host_handshake cfg (sort_routes routes) now (MkStream (frame bytes) [] None) = (stream', Ok cid) →
  ∃ proof conn, cid = c ∧
    authenticate_first nonce c started now' (MkConn s (MkStream (written stream') [] None)) =
      (conn, Ok (HostHello (host_id cfg) (sort_routes routes) proof)) ∧ conn_shared conn = s ∧
    let '(conn', r) := host_register sc c nonce (started + 10) (host_id cfg) (sort_routes routes) proof conn in
    (size (waiting s) < MAX_WAITING_HOSTS →
     (∀ id e route, waiting s !! id = Some e → route ∈ routes → waiting_routes e !! route_id route = None) →
     ∃ keys, r = Ok keys ∧ waiting (conn_shared conn') !! c = Some (MkWaiting c keys) ∧
       ∀ route, route ∈ routes → ∃ key,
         decode_32 "authentication_key" (authentication_key route) = Ok key ∧ keys !! route_id route = Some key) ∧
    (∀ e, r = Err e → conn_shared conn' = s).
Proof.
  intros Hb Hnow Hnow' Hid Hkey Hhs.
  destruct (host_handshake_written _ _ _ _ _ _ _ _ _ Hb Hnow Hhs) as (-> & proof & payload & Hproof & He & ->).
  eexists proof, _. split; [done|]. split; [by apply authenticate_first_reads|]. split; [done|].
  rewrite Hid in *. destruct (host_register _ _ _ _ _ _ _ _) as [conn' r] eqn:Er. split.
  - intros Hsize Hfree. destruct (host_register_accepts sc c nonce (started + 10) (sort_routes routes) proof
      (host_authentication_key_bytes cfg) (MkConn s (MkStream [] (frame bytes) None)) payload)
      as (conn2 & keys & Hr & Hw & Hroutes); try done.
    { intros id e route Hide Hin. apply (Hfree id e route Hide).
      unfold sort_routes in Hin. by rewrite merge_sort_Permutation in Hin. }
    rewrite Er in Hr. injection Hr as -> ->. exists keys. split; [done|]. split; [done|].
    intros route Hin. apply Hroutes. unfold sort_routes. by rewrite merge_sort_Permutation.
  - intros e ->. by apply host_register_spec in Er.
Qed.

(** The server accepts an honest client.  In every reachable
    state, a client that answers its challenge with the credential of a waiting
    Host's route is matched with this Host, and the Host is no longer waiting. *)
Theorem relay_honest_client `{!RelayExternalsOk} config w c nonce expires_at h e cred proof stream :
  rtc (relay_step config) relay_initial w →
  waiting (shared w) !! h = Some e →
  waiting_routes e !! credential_route_id cred = Some (credential_key cred) →
  build_client_hello (credential_key cred) (credential_route_id cred)
    (Challenge c (base64_encode (raw nonce)) expires_at) = Ok (ClientHello (credential_route_id cred) proof) →
  let conn := MkConn (shared w) stream in
  client_claim (credential_route_id cred) conn = (conn, Ok (h, credential_key cred)) ∧
  client_verify (credential_key cred) c nonce expires_at (credential_route_id cred) proof conn = (conn, Ok ()) ∧
  client_take h conn = (MkConn (remove_waiting_host h (shared w)) stream, Ok ()) ∧
  ∀ c', client_take h (MkConn (remove_waiting_host h (shared w)) c') ≠
          (MkConn (remove_waiting_host h (shared w)) c', Ok ()).
Proof.
  intros [_ Hs]%relay_inv_reachable He Hroute Hhello conn.
  destruct (client_accepted _ _ c nonce expires_at h e cred proof stream Hs He Hroute Hhello) as (H1' & H2' & H3').
  split_and!; [done..|]. intros c' Htake.
  apply client_take_spec in Htake as [(_ & [e' He'] & _)|[_ [e' He']]]; [|done].
  simpl in He'. by rewrite lookup_delete_eq in He'.
Qed.

(** The connector's waiting loop ends: with more iterations
    than there are bytes to read it has a result, whatever the Relay sends. *)
Theorem relay_waiting_terminates c ticks h :
  length (incoming (wait_stream h)) < length ticks → is_Some (wait_loop c ticks h).2.
Proof. apply wait_loop_ends. Qed.

(** The waiting callback runs at most once, and it has run
    once the Relay announced the registration to a connector that goes on. *)
Theorem relay_waiting_once c ticks stream :
  waiting_calls (wait_loop c ticks (MkHostWait stream true 0)).1 ≤ 1 ∧
  ∀ t ticks' payload rest, ticks = t :: ticks' → incoming stream = frame payload ++ rest →
    framable payload → decode_relay payload = Ok (HostWaiting c) →
    stop_before t = false → stop_after t = false → routes_current t = true →
    waiting_calls (wait_loop c ticks (MkHostWait stream true 0)).1 = 1.
Proof.
  split.
  - pose proof (wait_loop_callback c ticks (MkHostWait stream true 0) eq_refl) as Hi.
    unfold callback_inv in Hi. rewrite Hi. destruct (on_waiting _); lia.
  - intros t ticks' payload rest -> Hin Hf Hd Hb Ha Hc. destruct stream as [i w k]. simpl in Hin. subst i.
    by apply wait_loop_announced.
Qed.
End relay.

(** The text of an endpoint is read back as the endpoint, so
    every accepted text has one canonical form. *)
Theorem relay_endpoint_roundtrip value e :
  RelayEndpoint_from_str value = Ok e → RelayEndpoint_from_str (authority e) = Ok e.
Proof.
  unfold RelayEndpoint_from_str at 1. cbv zeta. destruct (existsb _ _); [done|].
  intros ([host port] & _ & (p & _ & Hnew)%bind_Ok)%bind_Ok. by eapply endpoint_from_authority.
Qed.

(** Once a connector is cancelled no socket of it stays open.
    When [cancel] has run to its end, no connection is registered, every socket
    registered before it and not released meanwhile is shut down, and so is
    every socket that was offered after the flag was set, whatever calls were
    made in between. *)
Theorem relay_cancel_complete before between after :
  (N.of_nat (length before) < 2 ^ 64)%N →
  let c := cancel_calls (before ++ Call_Flag :: between ++ Call_Sockets :: after) canceller_new in
  connections c = ∅ ∧
  (∀ socket stop, Call_Register socket stop ∈ between ++ after → socket ∈ shut c) ∧
  (∀ p q id socket, before = p ++ q → connections (cancel_calls p canceller_new) !! id = Some socket →
     Call_Unregister id ∉ q ++ between → socket ∈ shut c).
Proof.
  intros Hlen c. unfold c. rewrite cancel_calls_app. simpl. rewrite cancel_calls_app. simpl.
  set (c1 := cancel_flag (cancel_calls before canceller_new)).
  assert (cancelled (cancel_calls between c1) = true) as Hc by (by apply cancel_calls_cancelled).
  split_and!.
  - by apply cancelled_registers_nothing.
  - intros socket stop [Hin|Hin]%elem_of_app; [|by eapply cancelled_register_shut].
    apply cancel_calls_shut. apply (cancel_call_shut Call_Sockets). by eapply cancelled_register_shut.
  - intros p q id socket -> Hid [Hq Hb]%not_elem_of_app. apply cancel_calls_shut.
    assert (held id socket (cancel_calls between c1)) as [Hheld|Hheld].
    + apply cancelled_calls_held; [done| |done].
      destruct (fresh_calls_held p q id socket) as [Hl|Hr]; [done|by left|done|by left|by right].
    + simpl. apply elem_of_union_r, elem_of_map_img. by exists id.
    + by apply (cancel_call_shut Call_Sockets).
Qed.

(** C25: the tunnel is transparent and bounded: at any time, and
    when it ends, each side was sent a prefix of what the other side was read
    from, the rest is at most 64 KiB and still buffered, and the reported
    counters count what was read. *)
Theorem tunnel_transparent idle stalled inputs started :
  let s := (pump idle stalled inputs (pump_start started)).1 in
  left_received s = right_sent s ++ left_to_right s ∧
  right_received s = left_sent s ++ right_to_left s ∧
  length (left_to_right s) ≤ BUFFER_CAPACITY ∧ length (right_to_left s) ≤ BUFFER_CAPACITY ∧
  to_client_bytes s = N.min u64_max (N.of_nat (length (left_received s))) ∧
  to_host_bytes s = N.min u64_max (N.of_nat (length (right_received s))).
Proof.
  intros s. destruct (pump_inv_run idle stalled inputs _ (pump_start_inv started)) as [].
  by split_and!.
Qed.

(** The tunnel ends.  A tunnel that is still running saw
    traffic within the idle timeout and has no direction that has been stalled
    for the stall timeout; without traffic it ends with a timeout as soon as the
    clock has passed the idle timeout. *)
Theorem tunnel_terminates idle stalled inputs i s :
  (∀ s', pump idle stalled (inputs ++ [i]) s = (s', None) → timely idle stalled (iteration_now i) s') ∧
  (Forall silent inputs → i ∈ inputs → (idle ≤ iteration_now i - last_activity s)%N →
   ∃ s' operation, pump idle stalled inputs s = (s', Some (Err (Relay_Timeout operation)))).
Proof. split; [intros s'; apply pump_running_timely|apply silent_pump_ends]. Qed.

(** When one side closes, the tunnel ends at once and
    successfully: what is buffered for either side is not sent any more, though
    the counters include it. *)
Theorem tunnel_close_discards idle stalled i inputs s :
  stop_flag i = false → left_read i = Ok [] → length (left_to_right s) < BUFFER_CAPACITY →
  let '(s', r) := pump idle stalled (i :: inputs) s in
  r = Some (Ok (stats_of s)) ∧ right_sent s' = right_sent s ∧ left_sent s' = left_sent s ∧
  left_to_right s' = left_to_right s ∧ right_to_left s' = right_to_left s.
Proof.
  intros Hstop Hread Hroom. cbn [pump]. rewrite Hstop.
  assert (pump_iteration idle stalled i s = (begin_iteration s, Err Pump_Break)) as ->; [|done].
  unfold pump_iteration, mbind at 1, act_bind at 1, modify.
  unfold mbind at 1, act_bind at 1, pump_read at 1, mbind at 1, act_bind at 1, gets, id.
  rewrite Hread. apply Nat.ltb_lt in Hroom. cbn [begin_iteration left_to_right]. rewrite Hroom.
  by rewrite take_nil.
Qed.

(** ** Witnesses *)

Lemma relay_message_stream_witness :
  ∃ wire, write_frames [[Byte.x02]; [Byte.x05]] idle_stream = (MkStream [] wire None, Ok ()) ∧
    read_frames 2 (MkStream (wire ++ [Byte.xff]) [] None) =
      (MkStream [Byte.xff] [] None, Ok [[Byte.x02]; [Byte.x05]]).
Proof.
  destruct (relay_message_stream [HostWaiting connection_host; Ping relay_ping] [[Byte.x02]; [Byte.x05]]
    [Byte.xff] idle_stream) as (wire & Hw & Hr & _).
  - repeat constructor; vm_compute; reflexivity.
  - reflexivity.
  - exists wire. split; [exact Hw|apply Hr].
Defined.

Lemma relay_proofs_bind_witness :
  host_proof host_key connection_host relay_nonce 110 relay_host_id [relay_route] = Ok toy_host_proof ∧
  (∀ h rs supplied, host_proof host_key connection_host relay_nonce 110 h rs = Ok supplied →
     verify_proof toy_host_proof supplied = true →
     (same_uuid h relay_host_id ∧ rs = [relay_route]) ∨
     collide host_key (host_transcript connection_host relay_nonce 110 h rs)
       (host_transcript connection_host relay_nonce 110 relay_host_id [relay_route])).
Proof.
  split; [vm_compute; reflexivity|]. intros h rs supplied Hs Hv.
  destruct (relay_proofs_bind host_key connection_host connection_host relay_nonce relay_nonce 110 110)
    as (Hhost & _); [unfold i64_range; lia|unfold i64_range; lia|].
  destruct (Hhost h relay_host_id rs [relay_route] supplied toy_host_proof Hs) as [(_ & _ & _ & ? & ?)|?];
    [vm_compute; reflexivity|exact Hv|left; split; assumption|right; assumption].
Defined.

Lemma relay_after_reachable n : n ≤ 7 → rtc (relay_step relay_config) relay_initial (relay_after n).
Proof.
  intros Hn. unfold relay_after. destruct (relay_run _ _ _) as [w|] eqn:Er; [by eapply relay_run_steps|done].
Qed.

Lemma relay_matching_witness :
  ∃ routes key route, phases (relay_after 7) !! connection_host = Some (Host_Tunnel routes connection_client) ∧
    routes !! route = Some key.
Proof.
  assert (∃ routes, phases (relay_after 7) !! connection_host = Some (Host_Tunnel routes connection_client))
    as [routes Hh] by (by apply connected_tunnel, relay_run_connects).
  destruct (relay_matching relay_config (relay_after 7) (relay_after_reachable 7 (le_n 7))) as (_ & _ & Hm).
  destruct (Hm _ _ _ Hh) as (key & route & _ & _ & _ & _ & _ & Hr & _). exists routes, key, route. split; [exact Hh|exact Hr].
Defined.

Lemma relay_honest_host_witness :
  ∃ proof conn, authenticate_first relay_nonce connection_host 100 104
    (MkConn (shared relay_initial) (MkStream (frame [Byte.x00]) [] None)) =
    (conn, Ok (HostHello relay_host_id (sort_routes [relay_route]) proof)).
Proof.
  destruct (relay_honest_host relay_config connector_config [relay_route] 102 104 100 relay_nonce connection_host
    [Byte.x00] (MkStream [] (frame [Byte.x00]) None) connection_host (shared relay_initial))
    as (proof & conn & _ & Ha & _).
  - vm_compute. reflexivity.
  - lia.
  - lia.
  - reflexivity.
  - vm_compute. reflexivity.
  - vm_compute. reflexivity.
  - exists proof, conn. exact Ha.
Defined.

Lemma relay_honest_client_witness :
  client_claim (credential_route_id route_credential) (MkConn (shared (relay_after 2)) idle_stream) =
    (MkConn (shared (relay_after 2)) idle_stream, Ok (connection_host, credential_key route_credential)).
Proof.
  assert (∃ e, waiting (shared (relay_after 2)) !! connection_host = Some e ∧
    waiting_routes e !! credential_route_id route_credential = Some (credential_key route_credential))
    as (e & He & Hr) by (apply offers_waiting; vm_compute; reflexivity).
  refine (proj1 (relay_honest_client relay_config (relay_after 2) connection_client relay_nonce 110 connection_host
    e route_credential toy_client_proof idle_stream (relay_after_reachable 2 _) He Hr _)).
  - lia.
  - vm_compute. reflexivity.
Defined.

Lemma relay_waiting_terminates_witness :
  is_Some (wait_loop connection_host (replicate 6 (MkTick false false true))
    (MkHostWait (MkStream (frame [Byte.x02]) [] None) true 0)).2.
Proof. apply (relay_waiting_terminates connection_host). vm_compute. lia. Defined.

Lemma relay_waiting_once_witness :
  waiting_calls (wait_loop connection_host [MkTick false false true]
    (MkHostWait (MkStream (frame [Byte.x02]) [] None) true 0)).1 = 1.
Proof.
  eapply (proj2 (relay_waiting_once connection_host [MkTick false false true] (MkStream (frame [Byte.x02]) [] None)));
    [reflexivity|symmetry; apply app_nil_r|..]; try reflexivity.
  - unfold framable, MAX_CONTROL_BYTES. simpl. lia.
Defined.

Lemma relay_endpoint_roundtrip_witness :
  RelayEndpoint_from_str (authority (MkEndpoint (lit "relay.example.com") (Refine 2333%N I))) =
    Ok (MkEndpoint (lit "relay.example.com") (Refine 2333%N I)).
Proof. apply (relay_endpoint_roundtrip (lit " Relay.EXAMPLE.com:2333 ")). vm_compute. reflexivity. Defined.

Lemma relay_cancel_complete_witness :
  let c := cancel_calls ([Call_Register 5 false] ++ Call_Flag :: [Call_Register 6 false] ++ [Call_Sockets])
             canceller_new in
  connections c = ∅ ∧ 5%N ∈ shut c ∧ 6%N ∈ shut c.
Proof.
  destruct (relay_cancel_complete [Call_Register 5 false] [Call_Register 6 false] []) as (Hc & Hr & Hs);
    [reflexivity|]. split; [exact Hc|]. split.
  - apply (Hs [Call_Register 5 false] [] 0%N); [reflexivity|reflexivity|].
    intros Hin. apply (list_elem_of_singleton (Call_Unregister 0) (Call_Register 6 false)) in Hin. discriminate Hin.
  - apply (Hr 6%N false). left.
Defined.

(** Three bytes are read from the Host side, the client side is not writable. *)
Definition blocked_input : PumpInput :=
  MkPumpInput false (Ok [Byte.x01; Byte.x02; Byte.x03]) (Err Io_WouldBlock) (Err Io_WouldBlock)
    (Err Io_WouldBlock) 10 10 20.
Definition closing_input : PumpInput :=
  MkPumpInput false (Ok []) (Err Io_WouldBlock) (Ok 3) (Err Io_WouldBlock) 30 30 40.
Definition silent_input (now : N) : PumpInput :=
  MkPumpInput false (Err Io_WouldBlock) (Err Io_WouldBlock) (Err Io_WouldBlock) (Err Io_WouldBlock) now now now.

Lemma tunnel_terminates_witness :
  ∃ s' operation, pump 1000 500 [silent_input 600; silent_input 1200] (pump_start 0) =
    (s', Some (Err (Relay_Timeout operation))).
Proof.
  apply (proj2 (tunnel_terminates 1000 500 [silent_input 600; silent_input 1200] (silent_input 1200) (pump_start 0))).
  - repeat constructor; eexists; split; reflexivity.
  - right. left.
  - simpl. lia.
Defined.

Lemma tunnel_close_discards_witness :
  let s := (pump 1000 500 [blocked_input] (pump_start 0)).1 in
  let '(s', r) := pump 1000 500 [closing_input] s in
  r = Some (Ok (MkStats 0 3)) ∧ right_sent s' = [] ∧ left_to_right s' = [Byte.x01; Byte.x02; Byte.x03].
Proof.
  intros s. pose proof (tunnel_close_discards 1000 500 closing_input [] s eq_refl eq_refl) as Hd.
  destruct (pump 1000 500 [closing_input] s) as [s' r].
  destruct Hd as (-> & -> & _ & -> & _); [apply Nat.ltb_lt; vm_compute; reflexivity|]. split_and!; vm_compute; reflexivity.
Defined.

(** ** The Relay program *)

(** C16: what `agentpulse-relay init` leaves behind.  If the configuration's path is
    taken, it fails and nothing on the disk changes.  Otherwise the only entries
    it changes are the configuration and its temporary file (an old temporary file
    is overwritten), apart from the missing directories it creates.  A new
    configuration is there completely or not at all; it is valid, names the Host
    and the two files given, its key is the one of the token drawn; and the chain
    and the key read from those two files belong together, the first certificate
    covers the public name and has not expired.  After a success the token was
    printed, the file is private and is loaded as it was written if it can be
    read, and a Host that is configured with that token holds the key the relay
    checks its proofs with. *)
Theorem relay_enrollment `{Externals} `{RelayExternals} `{!RelayExternalsOk} `{DiskFaults} `{RelayLibrary} `{!RelayLibraryOk}
    now token_bytes config bind endpoint chain key host_id w w' r :
  let path := find_path config in
  let token := base64_encode (raw token_bytes) in
  path ≠ with_extension path (lit "tmp") → entries (relay_disk w) !! with_extension path (lit "tmp") ≠ Some Fs_Other →
  init_command now token_bytes config bind endpoint chain key host_id w = (w', r) →
  (entries (relay_disk w) !! path ≠ None → is_ok r = false ∧ entries (relay_disk w') = entries (relay_disk w)) ∧
  undisturbed path (relay_disk w) (relay_disk w') ∧
  (file_at path (relay_disk w') = file_at path (relay_disk w) ∨
     ∃ c bytes, enrolled now token bind endpoint chain key host_id (relay_disk w) c ∧ server_config_to_vec_pretty c = Ok bytes ∧
       file_at path (relay_disk w') = Some bytes) ∧
  (is_ok r = false → output w' = output w) ∧
  (r = Ok () → token_line token ∈ output w' ∧ ∃ c bytes, enrolled now token bind endpoint chain key host_id (relay_disk w) c ∧
     entries (relay_disk w') !! path = Some (Fs_File bytes private_file_mode) ∧
     ((∀ n, io_count (relay_disk w') ≤ n → fault n = None) → (server_config_load path (relay_disk w')).2 = Ok c) ∧
     (∀ port cfg, RelayHostConnectionConfig_new endpoint host_id token port = Ok cfg →
        decode_key (config_host_key c) = Ok (host_authentication_key_bytes cfg))).
Proof.
  intros path token Hne Ho E. split; [intros Hx; exact (init_existing _ _ _ _ _ _ _ _ _ _ _ Hx E)|].
  split; [exact (init_undisturbed _ _ _ _ _ _ _ _ _ _ _ E)|].
  destruct (init_command_spec _ _ _ _ _ _ _ _ _ _ _ Hne Ho E) as [(Hr & Hf & Hp)|(c & r' & Hn & Hc & Hw & Hcase)].
  - split_and!; [by left|done|]. intros ->. done.
  - destruct Hw as (bytes & Hb & Hf & Hm). split_and!; [right; by exists c, bytes|destruct Hcase as [[_ ?]|(-> & _)]; done|].
    intros ->. destruct Hcase as [[? _]|(_ & -> & Ht)]; [done|]. split; [done|]. exists c, bytes. split_and!; [done|by apply Hm| |].
    + intros Hfault. by eapply load_written; [..|apply Hc].
    + intros port cfg. unfold RelayHostConnectionConfig_new. destruct (_ || _ || _); [done|]. intros (u & _ & Ec)%bind_Ok.
      destruct (raw port =? 0)%N; [done|]. injection Ec as <-. apply Hc.
Qed.

(** The listener: however connections arrive and end, at most
    [MAX_OUTER_CONNECTIONS] are active, and a turn of the loop joins exactly the
    workers that have finished. *)
Theorem relay_listener turns a out finished workers :
  accept_run turns (MkAccepting 0 [] 0) = (a, out) →
  accept_active a ≤ MAX_OUTER_CONNECTIONS ∧ NoDup (accept_workers a) ∧
  reap finished (length workers) 0 workers ≡ₚ filter (λ w, finished w = false) workers.
Proof.
  intros E. destruct (accept_run_well turns (MkAccepting 0 [] 0) a out) as [? ? _]; [|done|split_and!; [done..|apply reap_spec]].
  split; cbn [accept_active accept_workers]; [lia|constructor|intros w Hw; inversion Hw].
Qed.

Definition init_token : bytes32 := key_of Byte.x21.
Definition init_config : RelayServerConfig :=
  MkServerConfig (Refine 1%N I) (MkSocketAddr (V4 0 0 0 0) (Refine 2333%N I)) (MkEndpoint (lit "relay.example.com") (Refine 2333%N I))
    (lit "cert.pem") (lit "key.pem") relay_host_id (toy_encode (raw (host_authentication_key (toy_encode (raw init_token))))).
Definition init_path : Path := [lit "etc"; lit "relay.json"].

#[export] Instance RelayServerConfig_eq_dec : EqDecision RelayServerConfig.
Proof. solve_decision. Defined.

#[export] Instance relay_program_library : RelayLibrary := {|
  server_config_to_vec_pretty := λ c, if bool_decide (c = init_config) then Ok [Byte.x7b] else Err (lit "unknown");
  server_config_from_slice := λ _, Ok init_config;
  pem_certs := λ bytes, Ok [bytes];
  parse_x509 := λ _, Ok (MkLeaf (Ok (Some [OtherName; DNSName (lit "Relay.Example.com")])) 2000);
  pem_private_key := λ bytes, Ok (Some bytes);
  private_key_der_try_from := Ok;
  with_single_cert := λ _ _, Ok ();
  find_path := λ text, [lit "etc"; text];
  io_kind := λ _, Io_Other
|}.
#[export] Instance relay_program_library_ok : RelayLibraryOk.
Proof. split. cbn. intros c bytes. by case_bool_decide as Hc; [subst c|]. Qed.

Definition init_faults : DiskFaults := {| fault := λ _, None; partial_write := λ _, 0; new_dir_mode := 493; temporary_name := λ n, [N.of_nat n] |}.
#[local] Existing Instance init_faults.

Definition init_terminal : RelayTerminal :=
  MkTerminal (MkDisk {[ [lit "etc"] := Fs_Dir 493; [lit "etc"; lit "cert.pem"] := Fs_File [Byte.x01] 420;
                        [lit "etc"; lit "key.pem"] := Fs_File [Byte.x02] private_file_mode ]} 0) [] [].
Definition init_run : RelayTerminal * result RelayProgramError unit :=
  init_command 1000 init_token (lit "relay.json") (relay_bind_address init_config) (public_endpoint init_config) (lit "cert.pem")
    (lit "key.pem") relay_host_id init_terminal.
Example init_run_ok : is_ok init_run.2 = true.
Proof. vm_compute. reflexivity. Qed.

Lemma relay_enrollment_witness :
  token_line (toy_encode (raw init_token)) ∈ output init_run.1 ∧ ∃ c, (server_config_load init_path (relay_disk init_run.1)).2 = Ok c.
Proof.
  pose proof init_run_ok as Hok. destruct init_run as [w' [[]|]] eqn:E; [|discriminate Hok].
  destruct (relay_enrollment 1000 init_token (lit "relay.json") (relay_bind_address init_config) (public_endpoint init_config)
    (lit "cert.pem") (lit "key.pem") relay_host_id init_terminal w' (Ok ())) as (_ & _ & _ & _ & Hdone); [discriminate|vm_compute; discriminate|exact E|].
  destruct (Hdone eq_refl) as (Ht & c & bytes & _ & _ & Hl & _). split; [exact Ht|]. exists c. apply Hl. intros n _. reflexivity.
Defined.

Lemma relay_listener_witness :
  (accept_active (accept_run [MkAcceptTurn false 0 Accept_Connection (λ _, true)] (MkAccepting 0 [] 0)).1 ≤ MAX_OUTER_CONNECTIONS).
Proof.
  apply (relay_listener [MkAcceptTurn false 0 Accept_Connection (λ _, true)] _ None (λ _, true) []). reflexivity.
Defined.

(** A temporary file that is there already keeps its mode, and the replacement
    happens before the mode is set: if that last call fails, the save reports an
    error although the configuration is in place, readable by everyone. *)
Definition late_fault : DiskFaults :=
  {| fault := λ n, if (n =? 5)%nat then Some (lit "failed") else None; partial_write := λ _, 0; new_dir_mode := 493;
     temporary_name := λ n, [N.of_nat n] |}.
Example relay_save_exposed :
  (let '(d, r) := @server_config_save _ _ late_fault _ init_config init_path
                    (MkDisk {[ [lit "etc"] := Fs_Dir 493; [lit "etc"; lit "relay.tmp"] := Fs_File [] 420 ]} 0) in
   negb (is_ok r) && bool_decide (entries d !! init_path = Some (Fs_File [Byte.x7b] 420))) = true.
Proof. vm_compute. reflexivity. Qed.
