(* ===== verification/CodexMapper.v ===== *)
(** * The Codex event mapper

    Models [agentpulse-providers/codex/src/mapper.rs]: the threads of a Codex
    App Server, followed through its notifications and published as events of
    AgentPulse sessions.  The event ingress is an interface ([EventSink]); every
    event it commits is also kept in [committed]. *)

From stdpp Require Import base strings numbers sorting gmap list.
From S2P Require Import Prelude Bytes Json Values Snapshots Capability Interaction Event.

(** ** Errors (error.rs) *)

(** The text of a protocol violation, or the error of a rejected domain value,
    which is rendered into it. *)
Inductive ProtocolReason : Type :=
| Reason_Text (text : rstring)
| Reason_Domain (error : DomainError).

(** The errors protocol processing, mapping and the connection raise; the others
    of this type are raised when the processes are started. *)
Inductive CodexProviderSourceError : Type :=
| Source_Protocol (message : ProtocolReason)
| Source_EventIngress (message : rstring)
| Source_Transport (message : rstring)
| Source_AlreadyStarted
| Source_UnsupportedPlatform
| Source_VersionProbe (message : rstring)
| Source_VersionMismatch (expected : string) (actual : rstring)
| Source_RuntimePathOccupied (path : rstring)
| Source_Runtime (operation : string) (message : rstring)
| Source_StartupTimeout (timeout : N)
| Source_ProcessExited (status stderr : rstring)
| Source_ThreadResume (failures : rstring)
| Source_WorkerPanicked
| Source_Shutdown (message : rstring).

#[export] Instance ProtocolReason_eq_dec : EqDecision ProtocolReason.
Proof. solve_decision. Defined.
#[export] Instance CodexProviderSourceError_eq_dec : EqDecision CodexProviderSourceError.
Proof. solve_decision. Defined.

Definition source_protocol (message : string) : CodexProviderSourceError :=
  Source_Protocol (Reason_Text (lit message)).
Definition source_protocol_text (message : rstring) : CodexProviderSourceError :=
  Source_Protocol (Reason_Text message).
(** [From<DomainError>] *)
Definition source_domain {A} (m : result DomainError A) : result CodexProviderSourceError A :=
  map_err (λ e, Source_Protocol (Reason_Domain e)) m.

(** ** Fields of JSON values *)

Definition object_field (value : Value) (field : string) : result CodexProviderSourceError Value :=
  match get field value with
  | Some v => if is_object v then Ok v
              else Err (source_protocol_text (lit field ++ lit " must be an object"))
  | None => Err (source_protocol_text (lit field ++ lit " must be an object"))
  end.

Definition string_field (value : Value) (field : string) : result CodexProviderSourceError rstring :=
  ok_or (source_protocol_text (lit field ++ lit " must be a string")) (get_str field value).

Definition i64_field (value : Value) (field : string) : result CodexProviderSourceError Z :=
  ok_or (source_protocol_text (lit field ++ lit " must be an int64")) (get field value ≫= as_i64).

Definition optional_i64_field (value : Value) (field : string) :
    result CodexProviderSourceError (option Z) :=
  match get field value with
  | None | Some Null => Ok None
  | Some v => Some <$> ok_or (source_protocol_text (lit field ++ lit " must be an int64 or null")) (as_i64 v)
  end.

Definition optional_string (value : Value) (field : string) :
    result CodexProviderSourceError (option rstring) :=
  match get field value with
  | None | Some Null => Ok None
  | Some (VString text) => Ok (Some text)
  | Some _ => Err (source_protocol_text (lit field ++ lit " must be a string or null"))
  end.

Definition optional_non_empty_string (value : Value) (field : string) :
    result CodexProviderSourceError (option NonEmptyText) :=
  match get field value with
  | None | Some Null => Ok None
  | Some (VString text) =>
      if is_empty (trim text) then Ok None else Some <$> source_domain (NonEmptyText_new text)
  | Some _ => Err (source_protocol_text (lit field ++ lit " must be a string or null"))
  end.

(** ** Statuses *)

Definition map_loaded_state (status : Value) : result CodexProviderSourceError AgentState :=
  type ← string_field status "type";
  if bool_decide (type = lit "idle") then Ok State_Idle
  else if bool_decide (type = lit "systemError") then Ok State_Failed
  else if bool_decide (type = lit "active") then
    let waiting := from_option (existsb (λ flag,
      bool_decide (as_str flag = Some (lit "waitingOnApproval"))
      || bool_decide (as_str flag = Some (lit "waitingOnUserInput")))) false
      (get "activeFlags" status ≫= as_array) in
    Ok (if waiting then State_WaitingForInteraction else State_Running)
  else if bool_decide (type = lit "notLoaded")
  then Err (source_protocol "notLoaded status has no connected execution state")
  else Err (source_protocol_text (lit "unsupported thread status " ++ type)).

Definition initial_status (status : Value) : result CodexProviderSourceError (AgentState * ConnectionState) :=
  type ← string_field status "type";
  if bool_decide (type = lit "notLoaded") then Ok (State_Initializing, Conn_Disconnected)
  else state ← map_loaded_state status; Ok (state, Conn_Connected).

Definition thread_title (thread : Value) : result CodexProviderSourceError (option NonEmptyText) :=
  name ← optional_non_empty_string thread "name";
  match name with
  | Some name => Ok (Some name)
  | None => optional_non_empty_string thread "preview"
  end.

Definition latest_in_progress_turn (thread : Value) : result CodexProviderSourceError (option rstring) :=
  turns ← ok_or (source_protocol "turns must be an array") (get "turns" thread ≫= as_array);
  Ok (head (omap (λ turn,
    if bool_decide (get_str "status" turn = Some (lit "inProgress"))
    then get_str "id" turn else None) (reverse turns))).

Definition notification_key (method : rstring) (params : Value) (thread_id : rstring) :
    result CodexProviderSourceError (option rstring) :=
  let keyed := bool_decide (method = lit "turn/started") || bool_decide (method = lit "turn/completed")
               || bool_decide (method = lit "item/completed") in
  let id := if bool_decide (method = lit "item/completed") then get_str_in "item" "id" params
            else if keyed then get_str_in "turn" "id" params else None in
  match id with
  | Some id => Ok (Some (method ++ lit ":" ++ thread_id ++ lit ":" ++ id))
  | None => if keyed then Err (source_protocol_text (method ++ lit " notification has no item or turn ID"))
            else Ok None
  end.

(** ** The mapper's state *)

Definition RECENT_NOTIFICATION_LIMIT : nat := N.to_nat 2048.

Inductive MappingDisposition : Type := Mapped | ValidatedUnmapped.
#[export] Instance MappingDisposition_eq_dec : EqDecision MappingDisposition.
Proof. solve_decision. Defined.

(** What the ingress answered: published to every Channel, committed although
    some deliveries failed, or not committed. *)
Inductive PublishAnswer : Type :=
| Answer_Published
| Answer_Committed (failures : N)
| Answer_Rejected (message : rstring).

Section mapper.
Context `{Externals}.

Class EventSink (S : Type) : Type := { sink_event : AgentEvent → S → S * PublishAnswer }.

(** [EventId::new] and [Timestamp::now_utc], by how often they were drawn. *)
Class Draws : Type := { fresh_event_id : nat → EventId; now_utc : nat → Timestamp }.

Record ThreadMapping : Type := MkThread {
  thread_session_id : SessionId;
  next_sequence : EventSequence;
  thread_state : AgentState;
  thread_connection : ConnectionState;
  thread_cwd : option NonEmptyText;
  thread_model : option rstring;
  reasoning_effort : option rstring;
  active_turn_id : option rstring;
  last_message : option NonEmptyText;
  last_final_message : option NonEmptyText;
  proposed_plan : option rstring;
  plan_ready : bool
}.

Record CodexEventMapper : Type := MkMapper {
  mapper_provider_id : ProviderId;
  discover_threads : bool;
  configured : gmap rstring SessionId;
  threads : gmap rstring ThreadMapping;
  items : gmap (rstring * rstring * rstring) Value;
  recent_keys : gset rstring;
  recent_order : list rstring;
  observer_resumes : gset rstring;
  deferred_observer_resumes : gset rstring;
  local_choices : gmap InteractionId (rstring * bool)
}.

(** The mapper, the ingress, the draws so far, the counters of the shared
    status and the events the ingress committed. *)
Record MapperWorld (S : Type) : Type := MkMapperWorld {
  mapper : CodexEventMapper;
  sink : S;
  draws : nat;
  mapped_events : N;
  channel_delivery_failures : N;
  committed : list AgentEvent
}.
Arguments MkMapperWorld {S}.
Arguments mapper {S}.
Arguments sink {S}.
Arguments draws {S}.
Arguments mapped_events {S}.
Arguments channel_delivery_failures {S}.
Arguments committed {S}.

Definition CodexEventMapper_new (provider_id : ProviderId) (threads : list (ExternalId * SessionId))
    (discover_threads : bool) : CodexEventMapper :=
  MkMapper provider_id discover_threads
    (foldl (λ m '(external_id, sid), <[raw (external_id_text external_id) := sid]> m) ∅ threads)
    ∅ ∅ ∅ [] ∅ ∅ ∅.

(** *** Updates *)

Definition set_configured v (m : CodexEventMapper) : CodexEventMapper :=
  MkMapper (mapper_provider_id m) (discover_threads m) v (threads m) (items m) (recent_keys m)
    (recent_order m) (observer_resumes m) (deferred_observer_resumes m) (local_choices m).
Definition set_threads v (m : CodexEventMapper) : CodexEventMapper :=
  MkMapper (mapper_provider_id m) (discover_threads m) (configured m) v (items m) (recent_keys m)
    (recent_order m) (observer_resumes m) (deferred_observer_resumes m) (local_choices m).
Definition set_items v (m : CodexEventMapper) : CodexEventMapper :=
  MkMapper (mapper_provider_id m) (discover_threads m) (configured m) (threads m) v (recent_keys m)
    (recent_order m) (observer_resumes m) (deferred_observer_resumes m) (local_choices m).
Definition set_recent_keys keys order (m : CodexEventMapper) : CodexEventMapper :=
  MkMapper (mapper_provider_id m) (discover_threads m) (configured m) (threads m) (items m) keys
    order (observer_resumes m) (deferred_observer_resumes m) (local_choices m).
Definition set_resumes observer deferred (m : CodexEventMapper) : CodexEventMapper :=
  MkMapper (mapper_provider_id m) (discover_threads m) (configured m) (threads m) (items m) (recent_keys m)
    (recent_order m) observer deferred (local_choices m).
Definition set_local_choices v (m : CodexEventMapper) : CodexEventMapper :=
  MkMapper (mapper_provider_id m) (discover_threads m) (configured m) (threads m) (items m) (recent_keys m)
    (recent_order m) (observer_resumes m) (deferred_observer_resumes m) v.
Definition alter_thread (f : ThreadMapping → ThreadMapping) (thread_id : rstring) (m : CodexEventMapper) :
    CodexEventMapper := set_threads (alter f thread_id (threads m)) m.

Definition set_sequence v (t : ThreadMapping) : ThreadMapping :=
  MkThread (thread_session_id t) v (thread_state t) (thread_connection t) (thread_cwd t) (thread_model t)
    (reasoning_effort t) (active_turn_id t) (last_message t) (last_final_message t) (proposed_plan t)
    (plan_ready t).
Definition set_thread_state v (t : ThreadMapping) : ThreadMapping :=
  MkThread (thread_session_id t) (next_sequence t) v (thread_connection t) (thread_cwd t) (thread_model t)
    (reasoning_effort t) (active_turn_id t) (last_message t) (last_final_message t) (proposed_plan t)
    (plan_ready t).
Definition set_thread_connection v (t : ThreadMapping) : ThreadMapping :=
  MkThread (thread_session_id t) (next_sequence t) (thread_state t) v (thread_cwd t) (thread_model t)
    (reasoning_effort t) (active_turn_id t) (last_message t) (last_final_message t) (proposed_plan t)
    (plan_ready t).
Definition set_model model effort (t : ThreadMapping) : ThreadMapping :=
  MkThread (thread_session_id t) (next_sequence t) (thread_state t) (thread_connection t) (thread_cwd t) model
    effort (active_turn_id t) (last_message t) (last_final_message t) (proposed_plan t) (plan_ready t).
Definition set_active_turn v (t : ThreadMapping) : ThreadMapping :=
  MkThread (thread_session_id t) (next_sequence t) (thread_state t) (thread_connection t) (thread_cwd t)
    (thread_model t) (reasoning_effort t) v (last_message t) (last_final_message t) (proposed_plan t)
    (plan_ready t).
Definition set_messages message final (t : ThreadMapping) : ThreadMapping :=
  MkThread (thread_session_id t) (next_sequence t) (thread_state t) (thread_connection t) (thread_cwd t)
    (thread_model t) (reasoning_effort t) (active_turn_id t) message final (proposed_plan t) (plan_ready t).
Definition set_proposed_plan proposed ready (t : ThreadMapping) : ThreadMapping :=
  MkThread (thread_session_id t) (next_sequence t) (thread_state t) (thread_connection t) (thread_cwd t)
    (thread_model t) (reasoning_effort t) (active_turn_id t) (last_message t) (last_final_message t)
    proposed ready.

(** *** Without events *)

Definition defer_observer_resume (thread_id : rstring) (m : CodexEventMapper) : CodexEventMapper :=
  set_resumes (observer_resumes m) ({[thread_id]} ∪ deferred_observer_resumes m) m.

Definition retry_observer_resume (thread_id : rstring) (m : CodexEventMapper) : CodexEventMapper :=
  if bool_decide (thread_id ∈ deferred_observer_resumes m)
  then set_resumes ({[thread_id]} ∪ observer_resumes m) (deferred_observer_resumes m ∖ {[thread_id]}) m
  else m.

Definition take_observer_resumes (m : CodexEventMapper) : CodexEventMapper * list (SessionId * rstring) :=
  (set_resumes ∅ (deferred_observer_resumes m) m,
   omap (λ thread, sid ← configured m !! thread; Some (sid, thread))
     (merge_sort str_le (elements (observer_resumes m)))).

Definition ready_plans (m : CodexEventMapper) : list (SessionId * rstring) :=
  omap (λ id, t ← threads m !! id;
    if plan_ready t && bool_decide (thread_connection t = Conn_Connected)
    then Some (thread_session_id t, id) else None) (str_keys (threads m)).

Definition dismiss_plan (thread_id : rstring) : CodexEventMapper → CodexEventMapper :=
  alter_thread (λ t, set_proposed_plan (proposed_plan t) false t) thread_id.

Definition has_plan (m : CodexEventMapper) (thread_id : rstring) : bool :=
  from_option plan_ready false (threads m !! thread_id).

Definition is_thread_tracked (m : CodexEventMapper) (thread_id : rstring) : bool :=
  bool_decide (is_Some (threads m !! thread_id)).

Definition session_id_for_thread (m : CodexEventMapper) (thread_id : rstring) : option SessionId :=
  thread_session_id <$> threads m !! thread_id.

(** The first thread, in key order, of a session. *)
Definition thread_of_session (m : CodexEventMapper) (sid : SessionId) : option (rstring * ThreadMapping) :=
  head (omap (λ id, t ← threads m !! id;
    if bool_decide (thread_session_id t = sid) then Some (id, t) else None) (str_keys (threads m))).

Definition command_context (m : CodexEventMapper) (sid : SessionId) :
    option (rstring * option rstring * AgentState) :=
  '(id, t) ← thread_of_session m sid; Some (id, active_turn_id t, thread_state t).

Definition cwd_for_session (m : CodexEventMapper) (sid : SessionId) : option rstring :=
  '(_, t) ← thread_of_session m sid; raw <$> thread_cwd t.

Definition model_settings_for_session (m : CodexEventMapper) (sid : SessionId) :
    option (rstring * option rstring) :=
  '(_, t) ← thread_of_session m sid; model ← thread_model t; Some (model, reasoning_effort t).

Definition remember_key (key : rstring) (m : CodexEventMapper) : CodexEventMapper :=
  let keys := {[key]} ∪ recent_keys m in
  let order := recent_order m ++ [key] in
  if (RECENT_NOTIFICATION_LIMIT <? length order)%nat then
    match order with
    | expired :: order' => set_recent_keys (keys ∖ {[expired]}) order' m
    | [] => set_recent_keys keys order m
    end
  else set_recent_keys keys order m.
End mapper.
Arguments MkMapperWorld {_ S}.
Arguments mapper {_ S}.
Arguments sink {_ S}.
Arguments draws {_ S}.
Arguments mapped_events {_ S}.
Arguments channel_delivery_failures {_ S}.
Arguments committed {_ S}.

(** ** Operations that publish *)

Section publishing.
Context `{Externals} {S : Type} `{!EventSink S} `{!Draws}.

Abbreviation mapping A := (act (MapperWorld S) CodexProviderSourceError A).

Definition with_mapper (f : CodexEventMapper → CodexEventMapper) (w : MapperWorld S) : MapperWorld S :=
  MkMapperWorld (f (mapper w)) (sink w) (draws w) (mapped_events w) (channel_delivery_failures w) (committed w).

Definition drawn {A} (f : nat → A) : mapping A := λ w,
  (MkMapperWorld (mapper w) (sink w) (1 + draws w) (mapped_events w) (channel_delivery_failures w)
     (committed w), Ok (f (draws w))).

Definition timestamp_with_multiplier (value : option Z) (multiplier : Z) : mapping Timestamp :=
  match value with
  | None => drawn now_utc
  | Some value =>
      let nanos := (value * multiplier)%Z in
      if ((- 2 ^ 127 <=? nanos) && (nanos <? 2 ^ 127))%Z
      then lift (source_domain (Timestamp_from_unix_nanos nanos))
      else throw (source_protocol "Codex timestamp overflowed Unix nanoseconds")
  end.
Definition timestamp_seconds (value : option Z) : mapping Timestamp :=
  timestamp_with_multiplier value (10 ^ 9).
Definition timestamp_milliseconds (value : option Z) : mapping Timestamp :=
  timestamp_with_multiplier value (10 ^ 6).

Definition publish_committed (event : AgentEvent) : mapping unit := λ w,
  let '(s, answer) := sink_event event (sink w) in
  match answer with
  | Answer_Published =>
      (MkMapperWorld (mapper w) s (draws w) (mapped_events w + 1) (channel_delivery_failures w)
         (committed w ++ [event]), Ok ())
  | Answer_Committed failures =>
      (MkMapperWorld (mapper w) s (draws w) (mapped_events w + 1) (channel_delivery_failures w + failures)
         (committed w ++ [event]), Ok ())
  | Answer_Rejected message =>
      (MkMapperWorld (mapper w) s (draws w) (mapped_events w) (channel_delivery_failures w) (committed w),
       Err (Source_EventIngress message))
  end.

Definition tracked_thread (thread_id : rstring) : mapping ThreadMapping :=
  m ← gets mapper;
  lift (ok_or (source_protocol "tracked thread disappeared") (threads m !! thread_id)).

Definition modify_thread (thread_id : rstring) (f : ThreadMapping → ThreadMapping) : mapping unit :=
  modify (with_mapper (alter_thread f thread_id)).

(** [payload_state] and the match that stores it. *)
Definition apply_payload_state (payload : AgentEventPayload) (t : ThreadMapping) : ThreadMapping :=
  match payload with
  | StateChanged state => set_thread_state state t
  | ConnectionChanged connection => set_thread_connection connection t
  | SessionEnded (Outcome_Completed _) => set_thread_state State_Completed t
  | SessionEnded (Outcome_Failed _) => set_thread_state State_Failed t
  | SessionEnded (Outcome_Cancelled _) => set_thread_state State_Cancelled t
  | _ => t
  end.

(** [publish_payload] behind its two special cases. *)
Definition publish_next (thread_id : rstring) (occurred_at : Timestamp) (payload : AgentEventPayload) :
    mapping unit :=
  t ← tracked_thread thread_id;
  id ← drawn fresh_event_id;
  event ← lift (source_domain (AgentEvent_new id (thread_session_id t) (next_sequence t) occurred_at payload));
  _ ← publish_committed event;
  t ← tracked_thread thread_id;
  next ← lift (ok_or (source_protocol_text (lit "event sequence exhausted for thread " ++ thread_id))
                 (checked_next (next_sequence t)));
  modify_thread thread_id (λ t, apply_payload_state payload (set_sequence next t)).

(** An [InteractionClosed] is no special case of [publish_payload]. *)
Definition close_local_choice (id : InteractionId) : mapping unit :=
  m ← gets mapper;
  match local_choices m !! id with
  | None => mret ()
  | Some (thread_id, _) =>
      _ ← modify (with_mapper (λ m, set_local_choices (delete id (local_choices m)) m));
      m ← gets mapper;
      t ← lift (ok_or (source_protocol "local choice thread disappeared") (threads m !! thread_id));
      now ← drawn now_utc;
      publish_next thread_id now
        (InteractionClosedPayload (MkInteractionClosed id (thread_session_id t) ProviderCancelled))
  end.

Fixpoint close_each (ids : list InteractionId) : mapping unit :=
  match ids with
  | [] => mret ()
  | id :: ids' => _ ← close_local_choice id; close_each ids'
  end.

Definition close_local_choices (thread_id : rstring) : mapping unit :=
  m ← gets mapper;
  close_each (List.filter (λ id, from_option (λ c, bool_decide (c.1 = thread_id)) false (local_choices m !! id))
                (btree_keys (local_choices m))).

Definition closes_choices (payload : AgentEventPayload) : bool :=
  match payload with
  | SessionEnded _ | ConnectionChanged Conn_Disconnected => true
  | _ => false
  end.

Definition publish_payload (thread_id : rstring) (occurred_at : Timestamp) (payload : AgentEventPayload) :
    mapping unit :=
  m ← gets mapper;
  let payload :=
    match payload with
    | StateChanged State_Idle =>
        if has_plan m thread_id then StateChanged State_WaitingForInteraction else payload
    | _ => payload
    end in
  _ ← (if closes_choices payload then close_local_choices thread_id else mret ());
  publish_next thread_id occurred_at payload.

Definition publish_now (thread_id : rstring) (payload : AgentEventPayload) : mapping unit :=
  now ← drawn now_utc; publish_payload thread_id now payload.

Definition publish_local_choice (thread_id : rstring) (request : InteractionRequest) (plan : bool) :
    mapping unit :=
  m ← gets mapper;
  if plan && negb (has_plan m thread_id) then mret ()
  else
    _ ← publish_now thread_id (InteractionRequested request);
    modify (with_mapper (λ m, set_local_choices (<[request_id request := (thread_id, plan)]> (local_choices m)) m)).

(** *** Resuming threads *)

(** A thread that is tracked already: only what changed is published. *)
Definition resume_tracked (thread_id : rstring) (thread : Value) (model effort : option rstring) :
    mapping unit :=
  updated_at ← lift (optional_i64_field thread "updatedAt");
  observed_at ← timestamp_seconds updated_at;
  status ← lift (object_field thread "status");
  '(observed_state, observed_connection) ← lift (initial_status status);
  t ← tracked_thread thread_id;
  _ ← (if negb (bool_decide (thread_connection t = observed_connection))
       then publish_payload thread_id observed_at (ConnectionChanged observed_connection) else mret ());
  _ ← (if negb (bool_decide (thread_state t = observed_state))
       then publish_payload thread_id observed_at (StateChanged observed_state) else mret ());
  _ ← modify_thread thread_id (set_model model effort);
  turn ← lift (latest_in_progress_turn thread);
  modify_thread thread_id (λ t,
    let t := set_active_turn turn t in
    if bool_decide (turn = None) then set_messages None None t else t).

(** The session a new thread starts with. *)
Definition thread_session (sid : SessionId) (provider_id : ProviderId) (thread_id : rstring) (thread : Value)
    (state : AgentState) (connection : ConnectionState) (created_at updated_at : Timestamp) :
    result CodexProviderSourceError AgentSession :=
  external_id ← source_domain (ExternalId_new thread_id);
  let builder := set_revision (set_connection_state (set_state
    (set_external_id (AgentSession_builder sid provider_id created_at) external_id) state) connection)
    counter_FIRST updated_at in
  title ← thread_title thread;
  let builder := from_option (set_title builder) builder title in
  cwd ← optional_non_empty_string thread "cwd";
  let builder := from_option (λ cwd, set_workspace builder (MkWorkspaceRef cwd None)) builder cwd in
  source_domain (build builder).

Definition resume_new (thread_id : rstring) (sid : SessionId) (thread : Value) (model effort : option rstring) :
    mapping unit :=
  created ← lift (i64_field thread "createdAt");
  created_at ← timestamp_seconds (Some created);
  updated ← lift (i64_field thread "updatedAt");
  updated_at ← timestamp_seconds (Some updated);
  status ← lift (object_field thread "status");
  '(state, connection) ← lift (initial_status status);
  m ← gets mapper;
  session ← lift (thread_session sid (mapper_provider_id m) thread_id thread state connection created_at updated_at);
  cwd ← lift (optional_non_empty_string thread "cwd");
  id ← drawn fresh_event_id;
  event ← lift (source_domain (AgentEvent_new id sid counter_FIRST updated_at (SessionStarted session)));
  _ ← publish_committed event;
  next ← lift (ok_or (source_protocol "event sequence exhausted after SessionStarted")
                 (checked_next counter_FIRST));
  turn ← lift (latest_in_progress_turn thread);
  modify (with_mapper (λ m, set_threads
    (<[thread_id := MkThread sid next state connection cwd model effort turn None None None false]> (threads m)) m)).

Definition resume_thread (value : Value) : mapping unit :=
  thread ← lift (object_field value "thread");
  thread_id ← lift (string_field thread "id");
  model1 ← lift (optional_string value "model");
  model2 ← lift (optional_string thread "model");
  effort1 ← lift (optional_string value "reasoningEffort");
  effort2 ← lift (optional_string thread "reasoningEffort");
  let model := match model1 with Some v => Some v | None => model2 end in
  let effort := match effort1 with Some v => Some v | None => effort2 end in
  m ← gets mapper;
  sid ← lift (ok_or (source_protocol_text (lit "thread/resume returned unconfigured thread " ++ thread_id))
                (configured m !! thread_id));
  _ ← lift (thread_title thread);
  _ ← lift (optional_string thread "cwd");
  if bool_decide (is_Some (threads m !! thread_id)) then resume_tracked thread_id thread model effort
  else resume_new thread_id sid thread model effort.

Definition track_discovered_thread (thread_id : rstring) : mapping unit :=
  sid ← lift (source_domain (id_from_str SessionEntity thread_id));
  modify (with_mapper (λ m,
    set_configured (if bool_decide (is_Some (configured m !! thread_id)) then configured m
                    else <[thread_id := sid]> (configured m)) m)).

(** *** History *)

Definition starts_with (prefix s : rstring) : bool := bool_decide (take (length prefix) s = prefix).

Fixpoint join (separator : rstring) (parts : list rstring) : rstring :=
  match parts with
  | [] => []
  | [part] => part
  | part :: parts' => part ++ separator ++ join separator parts'
  end.

(** The role and text of an item; [None] is [continue]. *)
Definition history_text (item : Value) :
    result CodexProviderSourceError (option (AgentMessageRole * rstring)) :=
  type ← string_field item "type";
  if bool_decide (type = lit "agentMessage") || bool_decide (type = lit "plan") then
    text ← string_field item "text"; Ok (Some (Role_Assistant, text))
  else if bool_decide (type = lit "userMessage") then
    content ← ok_or (source_protocol "user message content must be an array")
                (get "content" item ≫= as_array);
    Ok (Some (Role_User, join [10%N] (List.filter
      (λ text, negb (starts_with (lit "Work in Plan mode:") text))
      (omap (λ input, if bool_decide (get_str "type" input = Some (lit "text")) then get_str "text" input
                      else None) content))))
  else Ok None.

Fixpoint publish_history_items (thread_id : rstring) (entries : list Value) : mapping unit :=
  match entries with
  | [] => mret ()
  | entry :: entries' =>
      item ← lift (object_field entry "item");
      text ← lift (history_text item);
      _ ← match text with
          | Some (role, text) =>
              if is_empty (trim text) then mret ()
              else
                now ← drawn now_utc;
                content ← lift (source_domain (NonEmptyText_new text));
                publish_payload thread_id now (Message (MkAgentMessage role Level_Info content))
          | None => mret ()
          end;
      publish_history_items thread_id entries'
  end.

(** *** Connections *)

(** [begin_reconnect] stops at the first error, [disconnect_all] ignores them. *)
Definition needs_connection (m : CodexEventMapper) (state : ConnectionState) (thread_id : rstring) : bool :=
  from_option (λ t, negb (bool_decide (thread_connection t = state))) false (threads m !! thread_id).

Fixpoint reconnect_each (ids : list rstring) : mapping unit :=
  match ids with
  | [] => mret ()
  | id :: ids' =>
      m ← gets mapper;
      _ ← (if needs_connection m Conn_Reconnecting id
           then publish_now id (ConnectionChanged Conn_Reconnecting) else mret ());
      reconnect_each ids'
  end.
Definition begin_reconnect : mapping unit := m ← gets mapper; reconnect_each (str_keys (threads m)).

Fixpoint disconnect_each (ids : list rstring) (w : MapperWorld S) : MapperWorld S :=
  match ids with
  | [] => w
  | id :: ids' =>
      disconnect_each ids'
        (if needs_connection (mapper w) Conn_Disconnected id
         then (publish_now id (ConnectionChanged Conn_Disconnected) w).1 else w)
  end.
Definition disconnect_all (w : MapperWorld S) : MapperWorld S :=
  disconnect_each (str_keys (threads (mapper w))) w.

(** *** Notifications *)

Definition ensure_active_turn (thread_id turn_id : rstring) : mapping unit :=
  t ← tracked_thread thread_id;
  match active_turn_id t with
  | Some active =>
      if bool_decide (active = turn_id) then mret ()
      else throw (source_protocol_text (lit "notification for turn " ++ turn_id ++ lit " arrived while "
                    ++ active ++ lit " is active"))
  | None => modify_thread thread_id (set_active_turn (Some turn_id))
  end.

Definition thread_settings_updated (thread_id : rstring) (params : Value) : mapping MappingDisposition :=
  settings ← lift (object_field params "threadSettings");
  model ← lift (string_field settings "model");
  effort ← lift (optional_string settings "effort");
  _ ← tracked_thread thread_id;
  _ ← modify_thread thread_id (set_model (Some model) effort);
  mret ValidatedUnmapped.

Definition item_started (thread_id : rstring) (params : Value) : mapping MappingDisposition :=
  turn_id ← lift (string_field params "turnId");
  _ ← ensure_active_turn thread_id turn_id;
  item ← lift (object_field params "item");
  item_id ← lift (string_field item "id");
  _ ← modify (with_mapper (λ m, set_items (<[(thread_id, turn_id, item_id) := item]> (items m)) m));
  mret ValidatedUnmapped.

Definition file_change_patch_updated (thread_id : rstring) (params : Value) : mapping MappingDisposition :=
  turn_id ← lift (string_field params "turnId");
  item_id ← lift (string_field params "itemId");
  _ ← ensure_active_turn thread_id turn_id;
  changes ← lift (match get "changes" params with
                  | Some v => if is_array v then Ok v else Err (source_protocol "changes must be an array")
                  | None => Err (source_protocol "changes must be an array")
                  end);
  m ← gets mapper;
  let key := (thread_id, turn_id, item_id) in
  let item := default (object [("id", VString item_id); ("type", VString (lit "fileChange")); ("changes", Array [])])
                (items m !! key) in
  _ ← modify (with_mapper (λ m, set_items (<[key := item]> (items m)) m));
  match item with
  | Object entries =>
      _ ← modify (with_mapper (λ m, set_items
            (<[key := Object (entries_insert (lit "changes") changes entries)]> (items m)) m));
      mret ValidatedUnmapped
  | _ => throw (source_protocol "cached item must be an object")
  end.

(** [thread/closed], and [thread/status/changed] to [notLoaded]. *)
Definition thread_closed (thread_id : rstring) : mapping MappingDisposition :=
  m ← gets mapper;
  if from_option (λ t, bool_decide (thread_connection t = Conn_Disconnected)) false (threads m !! thread_id)
  then mret ValidatedUnmapped
  else _ ← publish_now thread_id (ConnectionChanged Conn_Disconnected); mret Mapped.

Definition status_changed (thread_id : rstring) (status : Value) : mapping MappingDisposition :=
  type ← lift (string_field status "type");
  if bool_decide (type = lit "notLoaded") then thread_closed thread_id
  else
    state ← lift (map_loaded_state status);
    m ← gets mapper;
    let state := if bool_decide (state = State_Idle) && has_plan m thread_id
                 then State_WaitingForInteraction else state in
    t ← tracked_thread thread_id;
    let connects := negb (bool_decide (thread_connection t = Conn_Connected)) in
    let changes := negb (bool_decide (thread_state t = state)) in
    _ ← (if connects then publish_now thread_id (ConnectionChanged Conn_Connected) else mret ());
    _ ← (if changes then publish_now thread_id (StateChanged state) else mret ());
    mret (if connects || changes then Mapped else ValidatedUnmapped).

Definition turn_started (thread_id : rstring) (params : Value) : mapping MappingDisposition :=
  turn ← lift (object_field params "turn");
  turn_id ← lift (string_field turn "id");
  m ← gets mapper;
  _ ← (if negb (bool_decide ((threads m !! thread_id) ≫= active_turn_id = Some turn_id))
       then close_local_choices thread_id else mret ());
  started ← lift (optional_i64_field turn "startedAt");
  timestamp ← timestamp_seconds started;
  t ← tracked_thread thread_id;
  if bool_decide (active_turn_id t = Some turn_id) then mret ValidatedUnmapped
  else match active_turn_id t with
       | Some active => throw (source_protocol_text (lit "turn " ++ turn_id ++ lit " started while "
                                ++ active ++ lit " is still active"))
       | None =>
           _ ← modify_thread thread_id (λ t,
                 set_proposed_plan None false (set_messages None None (set_active_turn (Some turn_id) t)));
           if bool_decide (thread_state t = State_Running) then mret ValidatedUnmapped
           else _ ← publish_payload thread_id timestamp (StateChanged State_Running); mret Mapped
       end.

Definition item_completed (thread_id : rstring) (params : Value) : mapping MappingDisposition :=
  turn_id ← lift (string_field params "turnId");
  _ ← ensure_active_turn thread_id turn_id;
  item ← lift (object_field params "item");
  item_id ← lift (string_field item "id");
  _ ← modify (with_mapper (λ m, set_items (delete (thread_id, turn_id, item_id) (items m)) m));
  type ← lift (string_field item "type");
  if negb (bool_decide (type = lit "agentMessage")) && negb (bool_decide (type = lit "plan"))
  then mret ValidatedUnmapped
  else
    text ← lift (string_field item "text");
    if is_empty (trim text) then mret ValidatedUnmapped
    else
      content ← lift (source_domain (NonEmptyText_new text));
      _ ← tracked_thread thread_id;
      _ ← modify_thread thread_id (λ t,
            let t := set_messages (Some content)
              (if bool_decide (get_str "phase" item = Some (lit "final_answer")) then Some content
               else last_final_message t) t in
            if bool_decide (type = lit "plan") then set_proposed_plan (Some text) (plan_ready t) t else t);
      completed ← lift (i64_field params "completedAtMs");
      timestamp ← timestamp_milliseconds (Some completed);
      _ ← publish_payload thread_id timestamp (Message (AgentMessage_new Level_Info content));
      mret Mapped.

(** The outcome a completed turn reports. *)
Definition turn_outcome (turn : Value) (turn_status : rstring) (t : ThreadMapping) :
    result CodexProviderSourceError SessionOutcome :=
  if bool_decide (turn_status = lit "completed") then
    Ok (Outcome_Completed (match last_final_message t with Some m => Some m | None => last_message t end))
  else if bool_decide (turn_status = lit "interrupted") then Ok (Outcome_Cancelled None)
  else if bool_decide (turn_status = lit "failed") then
    let message := match get_str_in "error" "message" turn with
                   | Some message => if is_empty (trim message) then lit "Codex turn failed" else message
                   | None => lit "Codex turn failed"
                   end in
    Outcome_Failed <$> source_domain (NonEmptyText_new message)
  else if bool_decide (turn_status = lit "inProgress")
  then Err (source_protocol "turn/completed carried inProgress status")
  else Err (source_protocol_text (lit "unsupported turn status " ++ turn_status)).

Definition turn_completed (thread_id : rstring) (params : Value) : mapping MappingDisposition :=
  turn ← lift (object_field params "turn");
  turn_id ← lift (string_field turn "id");
  _ ← ensure_active_turn thread_id turn_id;
  turn_status ← lift (string_field turn "status");
  completed ← lift (optional_i64_field turn "completedAt");
  timestamp ← timestamp_seconds completed;
  t ← tracked_thread thread_id;
  outcome ← lift (turn_outcome turn turn_status t);
  let proposed := bool_decide (turn_status = lit "completed") && bool_decide (is_Some (proposed_plan t)) in
  _ ← modify_thread thread_id (λ t, set_proposed_plan (proposed_plan t) proposed t);
  _ ← publish_payload thread_id timestamp
        (if proposed then StateChanged State_WaitingForInteraction else SessionEnded outcome);
  _ ← modify_thread thread_id (set_active_turn None);
  _ ← modify (with_mapper (λ m, set_items
        (filter (λ '(key, _), ¬ (key.1.1 = thread_id ∧ key.1.2 = turn_id)) (items m)) m));
  mret Mapped.

Definition approval_context (thread_id turn_id item_id : rstring) : mapping (option (SessionId * option Value)) :=
  m ← gets mapper;
  if negb (bool_decide (is_Some (configured m !! thread_id))) || negb (bool_decide (is_Some (threads m !! thread_id)))
  then mret None
  else
    _ ← ensure_active_turn thread_id turn_id;
    t ← tracked_thread thread_id;
    m ← gets mapper;
    mret (Some (thread_session_id t, items m !! (thread_id, turn_id, item_id))).

(** [thread/started] while threads are discovered. *)
Definition thread_started (params : Value) : mapping MappingDisposition :=
  thread ← lift (object_field params "thread");
  thread_id ← lift (string_field thread "id");
  m ← gets mapper;
  let known := bool_decide (is_Some (configured m !! thread_id)) in
  if bool_decide (get "ephemeral" thread ≫= as_bool = Some true) && negb known then mret ValidatedUnmapped
  else
    _ ← (if known then mret ()
         else sid ← lift (source_domain (id_from_str SessionEntity thread_id));
              modify (with_mapper (λ m,
                set_resumes ({[thread_id]} ∪ observer_resumes m) (deferred_observer_resumes m)
                  (set_configured (<[thread_id := sid]> (configured m)) m))));
    _ ← resume_thread params;
    mret Mapped.

Definition turn_completed_key (thread_id turn : rstring) : rstring :=
  lit "turn/completed:" ++ thread_id ++ lit ":" ++ turn.

(** The notification's handler. *)
Definition dispatch (method thread_id : rstring) (params : Value) : mapping MappingDisposition :=
  if bool_decide (method = lit "thread/settings/updated") then thread_settings_updated thread_id params
  else if bool_decide (method = lit "thread/status/changed") then
    status ← lift (object_field params "status"); status_changed thread_id status
  else if bool_decide (method = lit "thread/closed") then thread_closed thread_id
  else if bool_decide (method = lit "turn/started") then turn_started thread_id params
  else if bool_decide (method = lit "item/started") then item_started thread_id params
  else if bool_decide (method = lit "item/fileChange/patchUpdated") then
    file_change_patch_updated thread_id params
  else if bool_decide (method = lit "item/completed") then item_completed thread_id params
  else if bool_decide (method = lit "turn/completed") then turn_completed thread_id params
  else mret ValidatedUnmapped.

(** The thread and the turn a notification is about. *)
Definition notification_thread (params : Value) : option rstring :=
  match get_str "threadId" params with Some id => Some id | None => get_str_in "thread" "id" params end.
Definition notification_turn (params : Value) : option rstring :=
  match get_str "turnId" params with Some id => Some id | None => get_str_in "turn" "id" params end.

Definition notification (method : rstring) (params : Value) : mapping MappingDisposition :=
  m ← gets mapper;
  if bool_decide (method = lit "thread/started") && discover_threads m then thread_started params
  else match notification_thread params with
  | None => mret ValidatedUnmapped
  | Some thread_id =>
      if negb (bool_decide (is_Some (configured m !! thread_id)))
         || negb (bool_decide (is_Some (threads m !! thread_id))) then mret ValidatedUnmapped
      else
        _ ← (if bool_decide (method = lit "thread/status/changed")
             then modify (with_mapper (retry_observer_resume thread_id)) else mret ());
        if from_option (λ turn, bool_decide (turn_completed_key thread_id turn ∈ recent_keys m)) false
             (notification_turn params)
        then mret ValidatedUnmapped
        else
          key ← lift (notification_key method params thread_id);
          if from_option (λ key, bool_decide (key ∈ recent_keys m)) false key then mret ValidatedUnmapped
          else
            disposition ← dispatch method thread_id params;
            _ ← match disposition, key with
                | Mapped, Some key => modify (with_mapper (remember_key key))
                | _, _ => mret ()
                end;
            mret disposition
  end.
End publishing.
