(* ===== verification/CodexMapperSpec.v ===== *)
(** * Correctness of the Codex event mapper

    Every operation keeps the mapper's threads in agreement with the events
    that were committed for their sessions, however the ingress answers, and
    the memory of recent notifications is bounded. *)

From stdpp Require Import base strings numbers sorting gmap list.
From S2P Require Import Prelude Bytes Json Values Snapshots Capability Interaction Event Aggregate.
From S2P Require Import AggregateSpec CodexMapper.

Create HintDb codex.

Section mapper.
Context `{Externals} {S : Type} `{!EventSink S} `{!Draws}.
Implicit Types (w : MapperWorld S) (m : CodexEventMapper) (t : ThreadMapping) (e : AgentEvent).

(** ** Threads and their committed events *)

(** The committed events of a session. *)
Definition session_log (sid : SessionId) (log : list AgentEvent) : list AgentEvent :=
  filter (λ e, event_session_id e = sid) log.

(** A thread knows where the log of its session ends: its events are numbered
    from 1, only the first one starts the session, and the thread's state and
    connection are the latest ones in it. *)
Record thread_log (log : list AgentEvent) t : Prop := {
  tl_numbered : numbered 0 log;
  tl_next : counter_num (next_sequence t) = (N.of_nat (length log) + 1)%N;
  tl_started : ∃ e0 s rest, log = e0 :: rest ∧ event_payload e0 = SessionStarted s ∧
    (∀ e s', e ∈ rest → event_payload e ≠ SessionStarted s') ∧
    thread_state t = default (session_state s) (last (omap state_of log)) ∧
    thread_connection t = default (session_connection_state s) (last (omap connection_of log))
}.

Record mapper_inv w : Prop := {
  mi_configured : ∀ id t, threads (mapper w) !! id = Some t →
    configured (mapper w) !! id = Some (thread_session_id t);
  mi_log : ∀ id t, threads (mapper w) !! id = Some t →
    thread_log (session_log (thread_session_id t) (committed w)) t;
  mi_events : ∀ e, e ∈ committed w →
    ∃ id t, threads (mapper w) !! id = Some t ∧ thread_session_id t = event_session_id e
}.

(** Sequence numbers have not run out, and no two threads are configured for
    one session. *)
Definition fine w : Prop :=
  (N.of_nat (length (committed w)) < u64_max)%N ∧
  ∀ id1 id2 sid, configured (mapper w) !! id1 = Some sid → configured (mapper w) !! id2 = Some sid → id1 = id2.

Definition grows w w' : Prop :=
  committed w `prefix_of` committed w' ∧ configured (mapper w) ⊆ configured (mapper w').

#[global] Instance grows_preorder : PreOrder grows.
Proof.
  split; [done|]. intros w1 w2 w3 [H1 H2] [H3 H4]. split; by etrans.
Qed.

Lemma grows_fine w w' : grows w w' → fine w' → fine w.
Proof.
  intros [Hp Hc] [Hlen Hinj]. split.
  - apply prefix_length in Hp. lia.
  - intros id1 id2 sid H1 H2. apply (Hinj id1 id2 sid); by eapply lookup_weaken.
Qed.

(** An operation keeps the invariant on each of its paths. *)
Definition maps_at {A} w (a : act (MapperWorld S) CodexProviderSourceError A) : Prop :=
  grows w (a w).1 ∧ (mapper_inv w → fine (a w).1 → mapper_inv (a w).1).
Definition maps {A} (a : act (MapperWorld S) CodexProviderSourceError A) : Prop := ∀ w, maps_at w a.

Lemma maps_bind {A B} (a : act (MapperWorld S) CodexProviderSourceError A)
    (f : A → act (MapperWorld S) CodexProviderSourceError B) :
  maps a → (∀ x, maps (f x)) → maps (x ← a; f x).
Proof.
  intros Ha Hf w. destruct (Ha w) as [Hg Hi]. unfold maps_at, mbind, act_bind.
  destruct (a w) as [w1 [x|err]]; simpl in *; [|done].
  destruct (Hf x w1) as [Hg' Hi']. split; [by etrans|].
  intros Hw Hfine. apply Hi'; [|done]. apply Hi; [done|]. by eapply grows_fine.
Qed.

Lemma maps_readonly {A} (a : act (MapperWorld S) CodexProviderSourceError A) : readonly a → maps a.
Proof. intros Ha w. unfold maps_at. specialize (Ha w). rewrite Ha. done. Qed.

Lemma maps_lift {A} (r : result CodexProviderSourceError A) : maps (lift r).
Proof. by apply maps_readonly. Qed.
Lemma maps_gets {A} (f : MapperWorld S → A) : maps (gets f).
Proof. by apply maps_readonly. Qed.
Lemma maps_throw {A} err : maps (A:=A) (throw err).
Proof. by apply maps_readonly. Qed.
Lemma maps_ret {A} (x : A) : maps (mret x).
Proof. by apply maps_readonly. Qed.
Lemma maps_drawn {A} (f : nat → A) : maps (drawn f).
Proof. intros w. split; [done|]. by intros []. Qed.
Lemma maps_tracked_thread thread_id : maps (tracked_thread thread_id).
Proof. apply maps_readonly, readonly_bind; [done|]. intros m. apply readonly_lift. Qed.

(** Changes of the mapper away from the threads' positions. *)
Lemma maps_modify_mapper f :
  (∀ m, configured (f m) = configured m ∧ threads (f m) = threads m) →
  maps (modify (with_mapper f)).
Proof.
  intros Hf w. destruct (Hf (mapper w)) as [Hc Ht]. split.
  - split; [done|]. simpl. by rewrite Hc.
  - intros [H1 H2 H3] _. split; simpl; rewrite ?Hc, ?Ht; done.
Qed.

(** Changes of a thread that leave its session, position and status alone. *)
Definition same_position t t' : Prop :=
  thread_session_id t' = thread_session_id t ∧ next_sequence t' = next_sequence t ∧
  thread_state t' = thread_state t ∧ thread_connection t' = thread_connection t.

Lemma thread_log_position log t t' : same_position t t' → thread_log log t → thread_log log t'.
Proof.
  intros (Hs & Hn & Hst & Hc) [H1 H2 H3]. split; [done|by rewrite Hn|by rewrite Hst, Hc].
Qed.

Lemma maps_modify_thread thread_id f :
  (∀ t, same_position t (f t)) → maps (modify_thread thread_id f).
Proof.
  intros Hf w. split; [done|]. intros [H1 H2 H3] _.
  assert (∀ id t', alter f thread_id (threads (mapper w)) !! id = Some t' →
    ∃ t, threads (mapper w) !! id = Some t ∧ same_position t t') as Halter.
  { intros id t'. rewrite lookup_alter. case_decide as Hid; [|by exists t'].
    intros (t & Ht & ->)%fmap_Some. exists t. split; [by subst|apply Hf]. }
  split; simpl.
  - intros id t' (t & Ht & Hs & _)%Halter. rewrite Hs. by apply H1.
  - intros id t' (t & Ht & Hp)%Halter. destruct (Hp) as (-> & _). eapply thread_log_position; [done|by eapply H2].
  - intros e (id & t & Ht & Hs)%H3. destruct (decide (thread_id = id)) as [->|Hne].
    + exists id, (f t). rewrite lookup_alter, decide_True, Ht by done. simpl. by destruct (Hf t) as [-> _].
    + exists id, t. by rewrite lookup_alter, decide_False.
Qed.

(** ** Publishing *)

Lemma session_log_snoc_same log e :
  session_log (event_session_id e) (log ++ [e]) = session_log (event_session_id e) log ++ [e].
Proof. unfold session_log. rewrite filter_app, filter_cons_True by done. done. Qed.

Lemma session_log_snoc_ne log e sid :
  event_session_id e ≠ sid → session_log sid (log ++ [e]) = session_log sid log.
Proof.
  intros Hne. unfold session_log. rewrite filter_app, filter_cons_False by done. apply app_nil_r.
Qed.

Lemma session_log_length sid log : length (session_log sid log) ≤ length log.
Proof. apply length_filter. Qed.

Lemma apply_payload_state_fields payload t :
  thread_session_id (apply_payload_state payload t) = thread_session_id t ∧
  next_sequence (apply_payload_state payload t) = next_sequence t.
Proof. destruct payload as [| | | | | | | | | | |[]]; done. Qed.

(** The thread moves on exactly as the aggregate of its session does. *)
Lemma apply_payload_state_of e t :
  thread_state (apply_payload_state (event_payload e) t) = default (thread_state t) (state_of e) ∧
  thread_connection (apply_payload_state (event_payload e) t) = default (thread_connection t) (connection_of e).
Proof. unfold state_of, connection_of. destruct (event_payload e) as [| | | | | | | | | | |[]]; done. Qed.

Lemma thread_log_snoc log t e next :
  thread_log log t → event_num e = counter_num (next_sequence t) →
  (∀ s, event_payload e ≠ SessionStarted s) → counter_num next = (counter_num (next_sequence t) + 1)%N →
  thread_log (log ++ [e]) (apply_payload_state (event_payload e) (set_sequence next t)).
Proof.
  intros [Hnum Hnext (e0 & s & rest & -> & Hs & Hrest & Hst & Hc)] He Hstart Hn.
  destruct (apply_payload_state_fields (event_payload e) (set_sequence next t)) as [_ Hseq].
  destruct (apply_payload_state_of e (set_sequence next t)) as [Hst' Hc']. split.
  - apply numbered_snoc; [done|]. rewrite He, Hnext. lia.
  - rewrite Hseq. simpl. rewrite Hn, Hnext, length_app. simpl. lia.
  - exists e0, s, (rest ++ [e]). split_and!; [done|done| | |].
    + intros e' s' [He'|He']%elem_of_app; [by eapply Hrest|].
      apply list_elem_of_singleton in He' as ->. apply Hstart.
    + rewrite Hst', default_last_snoc. simpl. by rewrite Hst.
    + rewrite Hc', default_last_snoc. simpl. by rewrite Hc.
Qed.

(** The ingress commits an event or not; nothing else changes. *)
Lemma publish_committed_cases e w :
  let w' := (publish_committed e w).1 in
  mapper w' = mapper w ∧
  ((publish_committed e w).2 = Ok () ∧ committed w' = committed w ++ [e] ∨
   (∃ err, (publish_committed e w).2 = Err err) ∧ committed w' = committed w).
Proof.
  unfold publish_committed. destruct (sink_event e (sink w)) as [s []]; simpl; (split; [done|]); eauto.
Qed.

Lemma mapper_inv_same w w' :
  mapper w' = mapper w → committed w' = committed w → mapper_inv w → mapper_inv w'.
Proof. intros Hm Hc [H1 H2 H3]. split; rewrite ?Hm, ?Hc; done. Qed.

(** After an event of a thread was committed and the thread moved on. *)
Lemma mapper_inv_published w w' id t e next :
  mapper_inv w → fine w' → threads (mapper w) !! id = Some t →
  event_session_id e = thread_session_id t → event_num e = counter_num (next_sequence t) →
  (∀ s, event_payload e ≠ SessionStarted s) → counter_num next = (counter_num (next_sequence t) + 1)%N →
  committed w' = committed w ++ [e] →
  mapper w' = alter_thread (λ t, apply_payload_state (event_payload e) (set_sequence next t)) id (mapper w) →
  mapper_inv w'.
Proof.
  intros [H1 H2 H3] [_ Hinj] Ht Hsid Hnum Hstart Hnext Hcom Hmap.
  set (t' := apply_payload_state (event_payload e) (set_sequence next t)).
  assert (thread_session_id t' = thread_session_id t) as Ht'.
  { unfold t'. by destruct (apply_payload_state_fields (event_payload e) (set_sequence next t)) as [-> _]. }
  assert (∀ x u, threads (mapper w') !! x = Some u →
    (x = id ∧ u = t') ∨ (x ≠ id ∧ threads (mapper w) !! x = Some u)) as Hlook.
  { intros x u. rewrite Hmap. simpl. rewrite lookup_alter. case_decide as Hx; [|by right].
    rewrite <-Hx, Ht. intros [= <-]. by left. }
  assert (configured (mapper w') = configured (mapper w)) as Hconf by (by rewrite Hmap).
  split.
  - intros x u [[-> ->]|[_ Hu]]%Hlook; rewrite Hconf; [rewrite Ht'|]; by apply H1.
  - intros x u Hxu. rewrite Hcom. destruct (Hlook _ _ Hxu) as [[-> ->]|[Hne Hu]].
    + rewrite Ht', <-Hsid, session_log_snoc_same, Hsid. by apply thread_log_snoc, Hnext; [apply (H2 id)| |].
    + rewrite session_log_snoc_ne; [by apply (H2 x)|]. intros Heq. apply Hne, (Hinj x id (thread_session_id t)).
      * rewrite Hconf, <-Hsid, Heq. by apply H1.
      * rewrite Hconf. by apply H1.
  - intros e'. rewrite Hcom. intros [He'|He']%elem_of_app.
    + destruct (H3 e' He') as (x & u & Hu & Hs). destruct (decide (x = id)) as [->|Hx].
      * exists id, t'. rewrite Hmap. simpl. rewrite lookup_alter, decide_True, Ht by done.
        split; [done|]. rewrite Ht'. congruence.
      * exists x, u. rewrite Hmap. simpl. by rewrite lookup_alter, decide_False.
    + apply list_elem_of_singleton in He' as ->. exists id, t'. rewrite Hmap. simpl.
      rewrite lookup_alter, decide_True, Ht by done. split; [done|]. by rewrite Ht'.
Qed.

Lemma maps_publish_next thread_id occurred_at payload :
  (∀ s, payload ≠ SessionStarted s) → maps (publish_next thread_id occurred_at payload).
Proof.
  intros Hstart w. unfold maps_at, publish_next, tracked_thread. unfold mbind, act_bind, gets, lift, drawn.
  destruct (threads (mapper w) !! thread_id) as [t|] eqn:Ht; simpl; [|done].
  set (w1 := MkMapperWorld _ _ _ _ _ _).
  destruct (AgentEvent_new _ _ _ _ _) as [e|err] eqn:Ee; simpl.
  2:{ split; [done|]. intros Hw _. by apply (mapper_inv_same w). }
  apply AgentEvent_new_Ok in Ee as [-> _]. set (e := MkAgentEvent _ _ _ _ _).
  destruct (publish_committed_cases e w1) as [Hm Hc].
  destruct (publish_committed e w1) as [w2 r]. simpl in Hm, Hc.
  destruct Hc as [[-> Hc]|[[err ->] Hc]].
  2:{ simpl. split; [split; [by rewrite Hc|by rewrite Hm]|]. intros Hw _. by apply (mapper_inv_same w). }
  rewrite Hm. cbn [mapper w1]. rewrite Ht. simpl.
  destruct (checked_next (next_sequence t)) as [next|] eqn:En; simpl.
  - apply checked_next_Some in En. split.
    + split; simpl; [rewrite Hc; by apply prefix_app_r|by rewrite Hm].
    + intros Hw Hfine. by apply (mapper_inv_published w _ thread_id t e next); simpl; rewrite ?Hm.
  - apply checked_next_None in En. simpl. split; [split; [rewrite Hc; by apply prefix_app_r|by rewrite Hm]|].
    intros [_ H2 _] [Hlen _]. exfalso. destruct (H2 _ _ Ht) as [_ Hnext _].
    pose proof (session_log_length (thread_session_id t) (committed w)). rewrite Hc, length_app in Hlen.
    simpl in Hlen. lia.
Qed.

(** ** Starting sessions *)

Lemma maps_at_lift {A B} w (r : result CodexProviderSourceError A)
    (f : A → act (MapperWorld S) CodexProviderSourceError B) :
  (∀ x, r = Ok x → maps_at w (f x)) → maps_at w (x ← lift r; f x).
Proof. intros Hf. destruct r as [x|err]; [by apply (Hf x)|done]. Qed.

Lemma maps_at_gets {A B} w (g : MapperWorld S → A) (f : A → act (MapperWorld S) CodexProviderSourceError B) :
  maps_at w (f (g w)) → maps_at w (x ← gets g; f x).
Proof. done. Qed.

(** A draw changes nothing the mapper depends on. *)
Lemma maps_at_drawn {A B} w (g : nat → A) (f : A → act (MapperWorld S) CodexProviderSourceError B) :
  (∀ x w', mapper w' = mapper w → committed w' = committed w → maps_at w' (f x)) →
  maps_at w (x ← drawn g; f x).
Proof.
  intros Hf. unfold maps_at, mbind, act_bind, drawn. set (w' := MkMapperWorld _ _ _ _ _ _).
  destruct (Hf (g (draws w)) w') as [[Hg1 Hg2] Hi]; [done..|]. split; [done|].
  intros Hw. apply Hi. by apply (mapper_inv_same w).
Qed.

Lemma timestamp_readonly {B} w z multiplier (f : Timestamp → act (MapperWorld S) CodexProviderSourceError B) :
  (∀ x, maps_at w (f x)) → maps_at w (x ← timestamp_with_multiplier (Some z) multiplier; f x).
Proof.
  intros Hf. unfold timestamp_with_multiplier. destruct (_ && _); [by apply maps_at_lift|done].
Qed.

Lemma thread_session_Ok sid provider_id thread_id thread state connection created_at updated_at session :
  thread_session sid provider_id thread_id thread state connection created_at updated_at = Ok session →
  session_id session = sid ∧ session_state session = state ∧ session_connection_state session = connection.
Proof.
  unfold thread_session. intros (external_id & _ & Hs)%bind_Ok. simpl in Hs.
  apply bind_Ok in Hs as (title & _ & (cwd & _ & Hb)%bind_Ok).
  unfold source_domain in Hb. apply map_err_Ok in Hb. unfold build in Hb.
  destruct (_ <? _)%Z; [done|]. injection Hb as <-. by destruct title, cwd.
Qed.

(** A session without events starts with its first one. *)
Lemma session_log_untracked w id sid :
  mapper_inv w → (∀ id1 id2 sid, configured (mapper w) !! id1 = Some sid →
    configured (mapper w) !! id2 = Some sid → id1 = id2) →
  configured (mapper w) !! id = Some sid → threads (mapper w) !! id = None →
  session_log sid (committed w) = [].
Proof.
  intros [H1 _ H3] Hinj Hid Hnone. destruct (session_log sid (committed w)) as [|e l] eqn:El; [done|].
  assert (e ∈ session_log sid (committed w)) as [Hsid He]%list_elem_of_filter by (rewrite El; left).
  destruct (H3 e He) as (x & t & Ht & Hs).
  assert (x = id) as ->; [|by rewrite Hnone in Ht].
  apply (Hinj x id sid); [|done]. rewrite <-Hsid, <-Hs. by apply H1.
Qed.

Lemma thread_log_start e s t :
  event_num e = 1%N → event_payload e = SessionStarted s → counter_num (next_sequence t) = 2%N →
  thread_state t = session_state s → thread_connection t = session_connection_state s →
  thread_log [e] t.
Proof.
  intros Hnum Hs Hnext Hst Hc. split.
  - intros i e' Hi. by apply list_lookup_singleton_Some in Hi as [-> ->].
  - by rewrite Hnext.
  - exists e, s, []. unfold state_of, connection_of. simpl. rewrite Hs. simpl. split_and!; try done.
    intros e' s' Hin. by apply elem_of_nil in Hin.
Qed.

Lemma mapper_inv_started w w' id t e s :
  mapper_inv w → fine w' → threads (mapper w) !! id = None →
  configured (mapper w) !! id = Some (thread_session_id t) →
  event_session_id e = thread_session_id t → event_num e = 1%N → event_payload e = SessionStarted s →
  counter_num (next_sequence t) = 2%N →
  thread_state t = session_state s → thread_connection t = session_connection_state s →
  committed w' = committed w ++ [e] → mapper w' = set_threads (<[id := t]> (threads (mapper w))) (mapper w) →
  mapper_inv w'.
Proof.
  intros Hw [_ Hinj] Hnone Hconf Hsid Hnum Hs Hnext Hst Hc Hcom Hmap.
  assert (configured (mapper w') = configured (mapper w)) as Hsame by (by rewrite Hmap).
  rewrite Hsame in Hinj. pose proof (session_log_untracked w id _ Hw Hinj Hconf Hnone) as Hempty.
  destruct Hw as [H1 H2 H3]. split.
  - intros x u. rewrite Hsame, Hmap. simpl. rewrite lookup_insert. case_decide as Hx; [|by apply H1].
    intros [= <-]. by subst.
  - intros x u. rewrite Hcom, Hmap. simpl. rewrite lookup_insert. case_decide as Hx.
    + intros [= <-]. rewrite <-Hsid, session_log_snoc_same, Hsid, Hempty. by eapply thread_log_start.
    + intros Hu. rewrite session_log_snoc_ne; [by apply (H2 x)|]. rewrite Hsid. intros Heq.
      apply Hx, (Hinj id x (thread_session_id t)); [done|]. rewrite Heq. by apply H1.
  - intros e'. rewrite Hcom, Hmap. simpl. intros [He'|He']%elem_of_app.
    + destruct (H3 e' He') as (x & u & Hu & Hsu). exists x, u. rewrite lookup_insert_ne by congruence. done.
    + apply list_elem_of_singleton in He' as ->. exists id, t. by rewrite lookup_insert_eq.
Qed.

(** A valid thread document lists its turns. *)
Definition has_turns (thread : Value) : Prop := is_Some (get "turns" thread ≫= as_array).

Lemma maps_resume_new w thread_id sid thread model effort :
  has_turns thread → threads (mapper w) !! thread_id = None → configured (mapper w) !! thread_id = Some sid →
  maps_at w (resume_new thread_id sid thread model effort).
Proof.
  intros [turns Hturns] Hnone Hconf. unfold resume_new, timestamp_seconds.
  apply maps_at_lift. intros created _. apply timestamp_readonly. intros created_at.
  apply maps_at_lift. intros updated _. apply timestamp_readonly. intros updated_at.
  apply maps_at_lift. intros status _. apply maps_at_lift. intros [state connection] _.
  apply maps_at_gets, maps_at_lift. intros session Hs%thread_session_Ok.
  apply maps_at_lift. intros cwd _. apply maps_at_drawn. intros id w1 Hm Hc.
  apply maps_at_lift. intros e [-> _]%map_err_Ok%AgentEvent_new_Ok. set (e := MkAgentEvent _ _ _ _ _).
  unfold maps_at, mbind, act_bind. destruct (publish_committed_cases e w1) as [Hm2 Hc2].
  destruct (publish_committed e w1) as [w2 r]. simpl in Hm2, Hc2.
  destruct Hc2 as [[-> Hc2]|[[err ->] Hc2]].
  2:{ simpl. split; [split; [by rewrite Hc2|by rewrite Hm2]|]. intros Hw _. by apply (mapper_inv_same w1). }
  assert (∃ next : EventSequence, checked_next (counter_FIRST : EventSequence) = Some next ∧
    counter_num next = 2%N) as (next & -> & Hnext).
  { destruct (checked_next (counter_FIRST : EventSequence)) as [next|] eqn:En; [|by apply checked_next_None in En].
    exists next. split; [done|]. by apply checked_next_Some in En. }
  unfold latest_in_progress_turn. rewrite Hturns. simpl. split.
  - split; simpl; [rewrite Hc2; by apply prefix_app_r|by rewrite Hm2].
  - intros Hw Hfine. destruct Hs as (_ & Hst & Hcn).
    eapply (mapper_inv_started w1 _ thread_id _ e session); [done|done|by rewrite Hm|..];
      last (simpl; by rewrite Hm2); simpl; try done; by rewrite Hm.
Qed.

(** ** Every operation *)

Lemma maps_timestamp value multiplier : maps (timestamp_with_multiplier value multiplier).
Proof.
  unfold timestamp_with_multiplier. destruct value as [z|]; [|apply maps_drawn].
  destruct (_ && _); [apply maps_lift|apply maps_throw].
Qed.

Ltac maps_step :=
  match goal with
  | |- maps (mbind _ _) => apply maps_bind; [|intros ?]
  | |- maps (lift _) => apply maps_lift
  | |- maps (gets _) => apply maps_gets
  | |- maps (throw _) => apply maps_throw
  | |- maps (mret _) => apply maps_ret
  | |- maps (drawn _) => apply maps_drawn
  | |- maps (tracked_thread _) => apply maps_tracked_thread
  | |- maps (timestamp_seconds _) => apply maps_timestamp
  | |- maps (timestamp_milliseconds _) => apply maps_timestamp
  | |- maps (modify (with_mapper _)) => apply maps_modify_mapper; intros ?; repeat case_match; done
  | |- maps (modify_thread _ _) => apply maps_modify_thread; intros ?; repeat case_match; done
  | |- maps (publish_next _ _ _) => apply maps_publish_next; [intros ?; repeat case_match; done]
  | |- maps (let '(_, _) := ?x in _) => destruct x
  | |- maps (if ?b then _ else _) => destruct b
  | |- maps (match ?x with _ => _ end) => destruct x
  | |- _ => progress auto with codex
  end.
Ltac maps_solve := repeat maps_step.

Lemma maps_close_local_choice id : maps (close_local_choice id).
Proof. unfold close_local_choice. maps_solve. Qed.
#[local] Hint Resolve maps_close_local_choice : codex.

Lemma maps_close_local_choices thread_id : maps (close_local_choices thread_id).
Proof.
  unfold close_local_choices. apply maps_bind; [apply maps_gets|intros m].
  induction (List.filter _ _); cbn [close_each]; maps_solve.
Qed.
#[local] Hint Resolve maps_close_local_choices : codex.

Lemma maps_publish_payload thread_id occurred_at payload :
  (∀ s, payload ≠ SessionStarted s) → maps (publish_payload thread_id occurred_at payload).
Proof.
  intros Hp. unfold publish_payload. apply maps_bind; [apply maps_gets|]. intros m. cbv zeta.
  apply maps_bind; [maps_solve|]. intros _. apply maps_publish_next. intros s. repeat case_match; naive_solver.
Qed.

Lemma maps_publish_now thread_id payload :
  (∀ s, payload ≠ SessionStarted s) → maps (publish_now thread_id payload).
Proof. intros Hp. unfold publish_now. maps_solve. by apply maps_publish_payload. Qed.

Ltac not_started := intros ?; repeat case_match; done.
#[local] Hint Extern 1 (maps (publish_payload _ _ _)) => apply maps_publish_payload; not_started : codex.
#[local] Hint Extern 1 (maps (publish_now _ _)) => apply maps_publish_now; not_started : codex.

Lemma maps_publish_local_choice thread_id request plan : maps (publish_local_choice thread_id request plan).
Proof. unfold publish_local_choice. maps_solve. Qed.

Lemma maps_resume_tracked thread_id thread model effort : maps (resume_tracked thread_id thread model effort).
Proof. unfold resume_tracked. maps_solve. Qed.

Lemma maps_ensure_active_turn thread_id turn_id : maps (ensure_active_turn thread_id turn_id).
Proof. unfold ensure_active_turn. maps_solve. Qed.
#[local] Hint Resolve maps_ensure_active_turn : codex.

Lemma maps_history thread_id entries : maps (publish_history_items thread_id entries).
Proof. induction entries as [|entry entries IH]; simpl; maps_solve. Qed.

Lemma maps_thread_closed thread_id : maps (thread_closed thread_id).
Proof. unfold thread_closed. maps_solve. Qed.
#[local] Hint Resolve maps_thread_closed : codex.

Lemma maps_dispatch method thread_id params : maps (dispatch method thread_id params).
Proof.
  unfold dispatch, thread_settings_updated, item_started, file_change_patch_updated, status_changed, turn_started,
    item_completed, turn_completed. maps_solve.
Qed.

Lemma maps_reconnect : maps begin_reconnect.
Proof.
  unfold begin_reconnect. apply maps_bind; [apply maps_gets|intros m].
  induction (str_keys (threads m)); cbn [reconnect_each]; maps_solve.
Qed.

Lemma maps_approval_context thread_id turn_id item_id : maps (approval_context thread_id turn_id item_id).
Proof. unfold approval_context. maps_solve. Qed.

(** A document whose thread lists its turns, as the protocol schema requires. *)
Definition turns_listed (value : Value) : Prop := ∀ thread, get "thread" value = Some thread → has_turns thread.

Lemma object_field_Ok value field v : object_field value field = Ok v → get field value = Some v.
Proof. unfold object_field. destruct (get field value) as [v'|]; [|done]. by destruct (is_object v'); [intros [= <-]|]. Qed.

Lemma maps_resume_thread value : turns_listed value → maps (resume_thread value).
Proof.
  intros Hvalid w. unfold resume_thread.
  apply maps_at_lift. intros thread Hthread%object_field_Ok%Hvalid. apply maps_at_lift. intros thread_id _.
  do 4 (apply maps_at_lift; intros ? _). cbv zeta. apply maps_at_gets, maps_at_lift. intros sid Hsid%ok_or_Ok.
  do 2 (apply maps_at_lift; intros ? _). case_bool_decide as Ht; [by apply maps_resume_tracked|].
  apply maps_resume_new; [done| |done]. by apply eq_None_not_Some.
Qed.

(** A thread that was not configured is now. *)
Lemma maps_configure thread_id sid f :
  (∀ m, configured m !! thread_id = None → configured (f m) = <[thread_id := sid]> (configured m)) →
  (∀ m, is_Some (configured m !! thread_id) → configured (f m) = configured m) →
  (∀ m, threads (f m) = threads m) → maps (modify (with_mapper f)).
Proof.
  intros Hnew Hold Ht w.
  assert (configured (mapper w) ⊆ configured (f (mapper w))) as Hsub.
  { destruct (configured (mapper w) !! thread_id) as [x|] eqn:Ex.
    - rewrite Hold; [done|by eauto].
    - rewrite Hnew by done. by apply insert_subseteq. }
  split; [done|]. intros [H1 H2 H3] _. split; simpl; rewrite ?Ht; [|done..].
  intros id t Hid. eapply lookup_weaken; [by apply H1|done].
Qed.

Lemma maps_track thread_id : maps (track_discovered_thread thread_id).
Proof.
  apply maps_bind; [apply maps_lift|]. intros sid. apply (maps_configure thread_id sid); [..|done].
  - intros m Hm. simpl. by rewrite bool_decide_false by (rewrite Hm; apply is_Some_None).
  - intros m Hm. simpl. by rewrite bool_decide_true.
Qed.

Lemma maps_thread_started params : turns_listed params → maps (thread_started params).
Proof.
  intros Hvalid w. unfold thread_started. apply maps_at_lift. intros thread _.
  apply maps_at_lift. intros thread_id _. apply maps_at_gets. cbv zeta.
  destruct (bool_decide_reflect (is_Some (configured (mapper w) !! thread_id))) as [Hknown|Hknown]; cbn [negb];
    [rewrite andb_false_r|rewrite andb_true_r].
  { by apply (maps_bind (mret ())); [apply maps_ret|intros _; apply maps_bind; [by apply maps_resume_thread|];
      intros _; apply maps_ret]. }
  destruct (bool_decide _); [done|]. apply eq_None_not_Some in Hknown.
  unfold mbind at 1, act_bind at 1. destruct (source_domain _) as [sid|err] eqn:Es; [|done].
  unfold maps_at, mbind at 1, act_bind at 1, lift, modify. cbn [fst].
  set (w1 := with_mapper _ w).
  assert (grows w w1) as Hg.
  { split; [done|]. simpl. by apply insert_subseteq. }
  assert (mapper_inv w → mapper_inv w1) as Hi.
  { intros [H1 H2 H3]. split; simpl; [|done..]. intros id t Hid. rewrite lookup_insert_ne; [by apply H1|].
    intros ->. apply H1 in Hid. by rewrite Hknown in Hid. }
  destruct (maps_bind (resume_thread params) (λ _, mret Mapped) (maps_resume_thread params Hvalid)
    (λ _, maps_ret Mapped) w1) as [Hg' Hi']. split; [by etrans|]. intros Hw. apply Hi', Hi, Hw.
Qed.

Lemma maps_retry thread_id : maps (modify (with_mapper (retry_observer_resume thread_id))).
Proof. apply maps_modify_mapper. intros m. unfold retry_observer_resume. by case_bool_decide. Qed.
Lemma maps_remember key : maps (modify (with_mapper (remember_key key))).
Proof. apply maps_modify_mapper. intros m. unfold remember_key. by repeat case_match. Qed.
#[local] Hint Resolve maps_retry maps_remember maps_dispatch : codex.

Lemma maps_notification method params :
  (method = lit "thread/started" → turns_listed params) → maps (notification method params).
Proof.
  intros Hvalid. unfold notification. apply maps_bind; [apply maps_gets|intros m].
  case_bool_decide as Hm; cbn [andb]; [destruct (discover_threads m); [by apply maps_thread_started, Hvalid|]|];
    maps_solve.
Qed.

Lemma maps_disconnect_each ids w :
  grows w (disconnect_each ids w) ∧
  (mapper_inv w → fine (disconnect_each ids w) → mapper_inv (disconnect_each ids w)).
Proof.
  revert w. induction ids as [|id ids IH]; intros w; cbn [disconnect_each]; [done|].
  destruct (needs_connection _ _ _); [|apply IH].
  destruct (maps_publish_now id (ConnectionChanged Conn_Disconnected) ltac:(done) w) as [Hg Hi].
  set (w1 := (publish_now _ _ w).1) in *. destruct (IH w1) as [Hg' Hi']. split; [by etrans|].
  intros Hw Hf. apply Hi'; [|done]. apply Hi; [done|]. by eapply grows_fine.
Qed.

(** ** Runs *)

Inductive MapperCall : Type :=
| Call_Notification (method : rstring) (params : Value)
| Call_Resume (value : Value)
| Call_History (thread_id : rstring) (entries : list Value)
| Call_Track (thread_id : rstring)
| Call_Reconnect
| Call_Disconnect
| Call_LocalChoice (thread_id : rstring) (request : InteractionRequest) (plan : bool)
| Call_CloseChoice (id : InteractionId)
| Call_Publish (thread_id : rstring) (occurred_at : Timestamp) (payload : AgentEventPayload)
| Call_ApprovalContext (thread_id turn_id item_id : rstring)
| Call_Defer (thread_id : rstring)
| Call_TakeResumes
| Call_Dismiss (thread_id : rstring).

Definition mapper_call (c : MapperCall) (w : MapperWorld S) : MapperWorld S :=
  match c with
  | Call_Notification method params => (notification method params w).1
  | Call_Resume value => (resume_thread value w).1
  | Call_History thread_id entries => (publish_history_items thread_id entries w).1
  | Call_Track thread_id => (track_discovered_thread thread_id w).1
  | Call_Reconnect => (begin_reconnect w).1
  | Call_Disconnect => disconnect_all w
  | Call_LocalChoice thread_id request plan => (publish_local_choice thread_id request plan w).1
  | Call_CloseChoice id => (close_local_choice id w).1
  | Call_Publish thread_id occurred_at payload => (publish_payload thread_id occurred_at payload w).1
  | Call_ApprovalContext thread_id turn_id item_id => (approval_context thread_id turn_id item_id w).1
  | Call_Defer thread_id => with_mapper (defer_observer_resume thread_id) w
  | Call_TakeResumes => with_mapper (λ m, (take_observer_resumes m).1) w
  | Call_Dismiss thread_id => with_mapper (dismiss_plan thread_id) w
  end.

(** Documents the protocol schema admits, and payloads other parts publish. *)
Definition call_valid (c : MapperCall) : Prop :=
  match c with
  | Call_Notification method params => method = lit "thread/started" → turns_listed params
  | Call_Resume value => turns_listed value
  | Call_Publish _ _ payload => ∀ s, payload ≠ SessionStarted s
  | _ => True
  end.

Lemma maps_call c w :
  call_valid c →
  grows w (mapper_call c w) ∧ (mapper_inv w → fine (mapper_call c w) → mapper_inv (mapper_call c w)).
Proof.
  destruct c as [method params|value|tid entries|tid| | |tid r plan|id|tid at' payload|tid turn item|tid| |tid]; simpl.
  - intros Hv. by apply maps_notification.
  - intros Hv. by apply maps_resume_thread.
  - intros _. apply maps_history.
  - intros _. apply maps_track.
  - intros _. apply maps_reconnect.
  - intros _. apply maps_disconnect_each.
  - intros _. apply maps_publish_local_choice.
  - intros _. apply maps_close_local_choice.
  - intros Hp. by apply maps_publish_payload.
  - intros _. apply maps_approval_context.
  - intros _. by apply (maps_modify_mapper (defer_observer_resume tid)).
  - intros _. by apply (maps_modify_mapper (λ m, (take_observer_resumes m).1)).
  - intros _. by apply (maps_modify_thread tid (λ t, set_proposed_plan (proposed_plan t) false t)).
Qed.

Definition mapper_calls (calls : list MapperCall) (w : MapperWorld S) : MapperWorld S :=
  foldl (λ w c, mapper_call c w) w calls.

Lemma maps_calls calls w :
  Forall call_valid calls →
  grows w (mapper_calls calls w) ∧ (mapper_inv w → fine (mapper_calls calls w) → mapper_inv (mapper_calls calls w)).
Proof.
  intros Hall. revert w. induction Hall as [|c calls Hc _ IH]; intros w; [done|]. simpl.
  destruct (maps_call c w Hc) as [Hg Hi]. destruct (IH (mapper_call c w)) as [Hg' Hi'].
  split; [by etrans|]. intros Hw Hf. apply Hi'; [|done]. apply Hi; [done|]. by eapply grows_fine.
Qed.

Definition mapper_start (m : CodexEventMapper) (s : S) : MapperWorld S := MkMapperWorld m s 0 0 0 [].

Lemma mapper_start_inv provider_id configured_threads discover s :
  mapper_inv (mapper_start (CodexEventMapper_new provider_id configured_threads discover) s).
Proof. split; simpl; [done|done|]. intros e He. by apply elem_of_nil in He. Qed.

(** ** Properties of every path

    A relation between the worlds before and after that draws, changes of the
    mapper and publications of some kinds of payload establish holds across
    every operation. *)

Definition recent m : gset rstring * list rstring := (recent_keys m, recent_order m).

Definition respects {A} (R : relation (MapperWorld S)) (a : act (MapperWorld S) CodexProviderSourceError A) : Prop :=
  ∀ w, R w (a w).1.

(** Payloads without conditions of their own. *)
Definition plain (payload : AgentEventPayload) : Prop :=
  match payload with
  | SessionStarted _ | InteractionRequested _ | InteractionResponded _ | PlanUpdated _ | ProgressUpdated _ => False
  | _ => True
  end.

Section respecting.
Context (R : relation (MapperWorld S)) `{!PreOrder R} (allowed : AgentEventPayload → Prop).
Hypothesis R_mapper : ∀ f w, recent (f (mapper w)) = recent (mapper w) → R w (with_mapper f w).
Hypothesis R_drawn : ∀ w, R w (drawn (λ _, ()) w).1.
Hypothesis R_publish : ∀ e w, allowed (event_payload e) →
  (∀ s, embedded_session_id (event_payload e) = Some s → s = event_session_id e) → R w (publish_committed e w).1.
Hypothesis allowed_plain : ∀ payload, plain payload → allowed payload.
Hypothesis allowed_started : ∀ s, session_wf s → allowed (SessionStarted s).

Lemma respects_bind {A B} (a : act (MapperWorld S) CodexProviderSourceError A)
    (f : A → act (MapperWorld S) CodexProviderSourceError B) :
  respects R a → (∀ x, respects R (f x)) → respects R (x ← a; f x).
Proof using PreOrder0.
  intros Ha Hf w. specialize (Ha w). unfold mbind, act_bind. destruct (a w) as [w1 [x|err]]; [|done].
  etrans; [exact Ha|]. apply Hf.
Qed.

Lemma respects_drawn {A} (f : nat → A) : respects R (drawn f).
Proof using R_drawn. exact R_drawn. Qed.
Lemma respects_lift {A} (r : result CodexProviderSourceError A) : respects R (lift r).
Proof using PreOrder0. intros w. simpl. reflexivity. Qed.
Lemma respects_mapper f : (∀ m, recent (f m) = recent m) → respects R (modify (with_mapper f)).
Proof using R_mapper. intros Hf w. by apply R_mapper. Qed.

Lemma respects_commit {A} id sid n occurred_at payload (f : unit → act (MapperWorld S) CodexProviderSourceError A) :
  allowed payload → (∀ x, respects R (f x)) →
  respects R (event ← lift (source_domain (AgentEvent_new id sid n occurred_at payload));
              x ← publish_committed event; f x).
Proof using R_publish PreOrder0.
  intros Hp Hf w. unfold mbind at 1, act_bind at 1, lift.
  destruct (AgentEvent_new _ _ _ _ _) as [e|err] eqn:Ee; simpl; [|reflexivity].
  apply AgentEvent_new_Ok in Ee as [-> Hs]. apply respects_bind; [intros w'; by apply R_publish|done].
Qed.

Lemma respects_lift_bind {A B} (r : result CodexProviderSourceError A)
    (f : A → act (MapperWorld S) CodexProviderSourceError B) :
  (∀ x, r = Ok x → respects R (f x)) → respects R (x ← lift r; f x).
Proof using PreOrder0.
  intros Hf w. unfold mbind, act_bind, lift. destruct r as [x|err]; [by apply Hf|]. simpl. reflexivity.
Qed.

Lemma thread_session_wf sid provider_id thread_id thread state connection created_at updated_at s :
  thread_session sid provider_id thread_id thread state connection created_at updated_at = Ok s → session_wf s.
Proof using Type.
  unfold thread_session. intros (external_id & _ & Hs)%bind_Ok. cbv zeta in Hs.
  apply bind_Ok in Hs as (title & _ & (cwd & _ & Hb)%bind_Ok).
  apply map_err_Ok in Hb. by eapply build_wf.
Qed.

Ltac plainly := apply allowed_plain; repeat case_match; done.

Ltac respects_step :=
  match goal with
  | |- respects _ (mbind (λ e, mbind _ (publish_committed e)) _) => apply respects_commit; [first [plainly|by eapply allowed_started, thread_session_wf]|intros ?]
  | |- respects _ (mbind _ (lift _)) => apply respects_lift_bind; intros ? ?
  | |- respects _ (mbind _ _) => apply respects_bind; [|intros ?]
  | |- respects _ (drawn _) => apply respects_drawn
  | |- respects _ (lift _) => apply respects_lift
  | |- respects _ (modify (with_mapper _)) => apply respects_mapper; intros ?; done
  | |- respects _ (let '(_, _) := ?x in _) => destruct x
  | |- respects _ (if ?b then _ else _) => destruct b
  | |- respects _ (match ?x with _ => _ end) => destruct x
  | |- _ => progress auto with codex
  | |- respects _ _ => intros ?; simpl; reflexivity
  end.
Ltac respects_solve := repeat respects_step.

Lemma respects_publish_next thread_id occurred_at payload :
  allowed payload → respects R (publish_next thread_id occurred_at payload).
Proof using R_drawn R_mapper R_publish PreOrder0.
  intros Hp. unfold publish_next, tracked_thread, modify_thread.
  apply respects_bind; [respects_solve|intros t]. apply respects_bind; [respects_solve|intros id].
  apply respects_commit; [done|intros _]. respects_solve.
Qed.
#[local] Hint Extern 1 (respects _ (publish_next _ _ _)) => apply respects_publish_next; plainly : codex.

Lemma respects_close_local_choice id : respects R (close_local_choice id).
Proof using All. unfold close_local_choice. respects_solve. Qed.
#[local] Hint Resolve respects_close_local_choice : codex.
Lemma respects_close_local_choices thread_id : respects R (close_local_choices thread_id).
Proof using All.
  unfold close_local_choices. apply respects_bind; [respects_solve|intros m].
  induction (List.filter _ _); cbn [close_each]; respects_solve.
Qed.
#[local] Hint Resolve respects_close_local_choices : codex.

Lemma respects_publish_payload thread_id occurred_at payload :
  allowed payload → respects R (publish_payload thread_id occurred_at payload).
Proof using All.
  intros Hp. unfold publish_payload. apply respects_bind; [respects_solve|intros m]. cbv zeta.
  apply respects_bind; [respects_solve|intros _]. apply respects_publish_next.
  repeat case_match; subst; first [exact Hp|plainly].
Qed.
Lemma respects_publish_now thread_id payload : allowed payload → respects R (publish_now thread_id payload).
Proof using All.
  intros Hp. unfold publish_now. apply respects_bind; [respects_solve|intros now]. by apply respects_publish_payload.
Qed.
#[local] Hint Extern 1 (respects _ (publish_payload _ _ _)) => apply respects_publish_payload; plainly : codex.
#[local] Hint Extern 1 (respects _ (publish_now _ _)) => apply respects_publish_now; plainly : codex.

Lemma respects_timestamp value multiplier : respects R (timestamp_with_multiplier value multiplier).
Proof using All. unfold timestamp_with_multiplier. respects_solve. Qed.
#[local] Hint Resolve respects_timestamp : codex.

Lemma respects_resume_thread value : respects R (resume_thread value).
Proof using All.
  unfold resume_thread, resume_tracked, resume_new, timestamp_seconds, tracked_thread, modify_thread. respects_solve.
Qed.
#[local] Hint Resolve respects_resume_thread : codex.

Lemma respects_dispatch method thread_id params : respects R (dispatch method thread_id params).
Proof using All.
  unfold dispatch, thread_settings_updated, item_started, file_change_patch_updated, status_changed, turn_started,
    item_completed, turn_completed, thread_closed, ensure_active_turn, tracked_thread, modify_thread,
    timestamp_seconds, timestamp_milliseconds. respects_solve.
Qed.
#[local] Hint Resolve respects_dispatch : codex.

Lemma respects_thread_started params : respects R (thread_started params).
Proof using All.
  unfold thread_started. apply respects_bind; [respects_solve|intros thread]. respects_solve.
Qed.
#[local] Hint Resolve respects_thread_started : codex.

Lemma respects_history tid entries : respects R (publish_history_items tid entries).
Proof using All. induction entries as [|entry entries IH]; cbn [publish_history_items]; respects_solve. Qed.

Lemma respects_approval_context thread_id turn_id item_id : respects R (approval_context thread_id turn_id item_id).
Proof using All. unfold approval_context, ensure_active_turn, tracked_thread, modify_thread. respects_solve. Qed.

Lemma respects_reconnect : respects R begin_reconnect.
Proof using All.
  unfold begin_reconnect. apply respects_bind; [respects_solve|intros m].
  induction (str_keys (threads m)); cbn [reconnect_each]; respects_solve.
Qed.

Lemma respects_disconnect_each ids w : R w (disconnect_each ids w).
Proof using All.
  revert w. induction ids as [|id ids IH]; intros w; [reflexivity|]. cbn [disconnect_each].
  etrans; [|apply IH]. destruct (needs_connection _ _ _); [|reflexivity]. apply respects_publish_now. plainly.
Qed.

(** Notifications, if remembering their keys is fine too. *)
Lemma respects_notification method params :
  (∀ key, respects R (modify (with_mapper (remember_key key)))) → respects R (notification method params).
Proof using All.
  intros Hkey. unfold notification. apply respects_bind; [respects_solve|intros m].
  assert (∀ id, respects R (modify (with_mapper (retry_observer_resume id)))) as Hretry.
  { intros id. apply respects_mapper. intros m'. unfold retry_observer_resume. by case_bool_decide. }
  destruct (_ && _); [respects_solve|]. destruct (notification_thread params); [|respects_solve].
  destruct (_ || _); [respects_solve|]. apply respects_bind; [destruct (bool_decide _); [done|respects_solve]|intros _].
  destruct (from_option _ _ _); [respects_solve|]. apply respects_bind; [respects_solve|intros key].
  destruct (from_option _ _ _); [respects_solve|]. apply respects_bind; [respects_solve|intros disposition].
  apply respects_bind; [|intros _; respects_solve]. destruct disposition, key; try apply Hkey; respects_solve.
Qed.

(** Every other call. *)
Lemma respects_call c w :
  (∀ method params, c ≠ Call_Notification method params) →
  (∀ id occurred_at payload, c = Call_Publish id occurred_at payload → allowed payload) →
  (∀ id request plan, c = Call_LocalChoice id request plan → allowed (InteractionRequested request)) →
  R w (mapper_call c w).
Proof using All.
  destruct c as [method params|value|tid entries|tid| | |tid r plan|id|tid at' payload|tid turn item|tid| |tid];
    cbn [mapper_call]; intros Hn Hp Hl.
  - by destruct (Hn method params).
  - apply respects_resume_thread.
  - apply respects_history.
  - revert w. change (respects R (track_discovered_thread tid)). unfold track_discovered_thread. respects_solve.
  - apply respects_reconnect.
  - apply respects_disconnect_each.
  - revert w. change (respects R (publish_local_choice tid r plan)). unfold publish_local_choice.
    apply respects_bind; [respects_solve|intros m]. destruct (_ && _); [respects_solve|].
    apply respects_bind; [apply respects_publish_now; by eapply Hl|intros _; respects_solve].
  - apply respects_close_local_choice.
  - apply respects_publish_payload. by eapply Hp.
  - apply respects_approval_context.
  - by apply R_mapper.
  - by apply R_mapper.
  - by apply R_mapper.
Qed.
End respecting.
(** ** Recent notifications *)

(** Operations that do not touch the memory of recent notifications. *)
Definition same_recent : relation (MapperWorld S) := λ w w', recent (mapper w') = recent (mapper w).
Abbreviation frames := (respects same_recent).

#[local] Instance same_recent_preorder : PreOrder same_recent.
Proof. unfold same_recent. split; [done|]. intros w1 w2 w3 H12 H23. congruence. Qed.
Lemma frames_publish_committed e : frames (publish_committed e).
Proof. intros w. unfold same_recent. by destruct (publish_committed_cases e w) as [-> _]. Qed.

#[local] Hint Resolve frames_publish_committed : codex.
(** The conditions of [respects] hold for every payload. *)
Ltac framing := try (intros ? ?; done); try (intros ?; done); try (intros ? ? _ _; apply frames_publish_committed); auto.

Lemma frames_dispatch method thread_id params : frames (dispatch method thread_id params).
Proof. apply (respects_dispatch same_recent (λ _, True)); framing. Qed.
Lemma frames_thread_started params : frames (thread_started params).
Proof. apply (respects_thread_started same_recent (λ _, True)); framing. Qed.

(** The remembered keys are the queued ones, without repetition, at most 2048. *)
Record recent_inv m : Prop := {
  rc_keys : recent_keys m = list_to_set (recent_order m);
  rc_nodup : NoDup (recent_order m);
  rc_bound : length (recent_order m) ≤ RECENT_NOTIFICATION_LIMIT
}.

Lemma recent_inv_same m m' : recent m' = recent m → recent_inv m → recent_inv m'.
Proof. intros [= H1 H2] [H3 H4 H5]. split; by rewrite ?H1, ?H2. Qed.

Lemma remember_key_inv key m :
  recent_inv m → key ∉ recent_keys m →
  recent_inv (remember_key key m) ∧ key ∈ recent_keys (remember_key key m).
Proof.
  intros [Hk Hn Hb] Hkey. unfold remember_key.
  assert (NoDup (recent_order m ++ [key])) as Hnd.
  { apply NoDup_app. split; [done|]. split; [|apply NoDup_singleton].
    intros x Hx Hin. apply list_elem_of_singleton in Hin as ->. rewrite Hk in Hkey. set_solver. }
  destruct (Nat.ltb_spec RECENT_NOTIFICATION_LIMIT (length (recent_order m ++ [key]))) as [Hl|Hl].
  - rewrite length_app in Hl. simpl in Hl.
    destruct (recent_order m) as [|expired order] eqn:Eo; [simpl in Hl; unfold RECENT_NOTIFICATION_LIMIT in Hl; lia|].
    cbn [app] in *. apply NoDup_cons in Hnd as [Hne Hnd]. split; [split|]; cbn [recent_keys recent_order set_recent_keys].
    + rewrite Hk. rewrite list_to_set_app_L. simpl. apply not_elem_of_app in Hne as [Hne1 Hne2]. set_solver.
    + done.
    + rewrite length_app. simpl. simpl in Hb, Hl. lia.
    + apply not_elem_of_app in Hne as [_ Hne]. set_solver.
  - split; [split|]; cbn [recent_keys recent_order set_recent_keys].
    + rewrite list_to_set_app_L, Hk. simpl. set_solver.
    + done.
    + done.
    + set_solver.
Qed.

Lemma keyed_methods method params tid key :
  notification_key method params tid = Ok (Some key) →
  method = lit "turn/started" ∨ method = lit "turn/completed" ∨ method = lit "item/completed".
Proof.
  unfold notification_key.
  destruct (bool_decide_reflect (method = lit "turn/started")); [by left|].
  destruct (bool_decide_reflect (method = lit "turn/completed")); [by right; left|].
  destruct (bool_decide_reflect (method = lit "item/completed")); [by right; right|done].
Qed.

(** A notification remembers at most its own key, and only if it was mapped. *)
Lemma notification_recent method params w w' r :
  notification method params w = (w', r) →
  recent (mapper w') = recent (mapper w) ∧
    (r = Ok Mapped → ∀ thread_id key, notification_thread params = Some thread_id →
       notification_key method params thread_id ≠ Ok (Some key)) ∨
  ∃ thread_id key m1, notification_thread params = Some thread_id ∧
    notification_key method params thread_id = Ok (Some key) ∧ (key ∉ recent_keys (mapper w)) ∧
    recent m1 = recent (mapper w) ∧ mapper w' = remember_key key m1 ∧ r = Ok Mapped.
Proof.
  unfold notification. unfold mbind at 1, act_bind at 1, gets. intros Hn.
  destruct (bool_decide (method = lit "thread/started") && discover_threads (mapper w)) eqn:Em.
  { apply andb_true_iff in Em as [Em%bool_decide_eq_true _]. left.
    pose proof (frames_thread_started params w) as Hf. rewrite Hn in Hf. split; [done|].
    intros _ tid key _ Hk. apply keyed_methods in Hk. subst method. destruct Hk as [Hk|[Hk|Hk]]; discriminate Hk. }
  clear Em. destruct (notification_thread params) as [tid|] eqn:Et; [|left; by injection Hn as <- <-].
  destruct (_ || _); [left; by injection Hn as <- <-|].
  unfold mbind at 1, act_bind at 1 in Hn.
  set (retry := if bool_decide (method = lit "thread/status/changed") then _ else _) in Hn.
  assert (∃ w1, retry w = (w1, Ok ()) ∧ recent (mapper w1) = recent (mapper w)) as (w1 & Hw1 & Hrec).
  { unfold retry. case_bool_decide; [|by eexists]. eexists. split; [done|]. simpl.
    unfold retry_observer_resume. by case_bool_decide. }
  rewrite Hw1 in Hn. destruct (from_option _ _ (notification_turn params)); [left; by injection Hn as <- <-|].
  unfold mbind at 1, act_bind at 1, lift in Hn.
  destruct (notification_key method params tid) as [key|] eqn:Ek; [|left; by injection Hn as <- <-].
  destruct (from_option _ _ key) eqn:Er; [left; by injection Hn as <- <-|].
  unfold mbind at 1, act_bind at 1 in Hn. pose proof (frames_dispatch method tid params w1) as Hd.
  destruct (dispatch method tid params w1) as [w2 [[]|err]]; simpl in Hd.
  - destruct key as [key|]; injection Hn as <- <-.
    + simpl in Er. apply bool_decide_eq_false in Er. right. exists tid, key, (mapper w2). by rewrite Hd.
    + left. split; [congruence|]. intros _ tid' key [= <-]. by rewrite Ek.
  - left. assert (w' = w2 ∧ r = Ok ValidatedUnmapped) as [-> ->] by (destruct key; by injection Hn as <- <-).
    split; [congruence|done].
  - left. injection Hn as <- <-. split; [congruence|done].
Qed.

Lemma notification_recent_inv method params w :
  recent_inv (mapper w) → recent_inv (mapper (notification method params w).1).
Proof.
  intros Hw. destruct (notification method params w) as [w' r] eqn:En.
  destruct (notification_recent _ _ _ _ _ En) as [[Hs _]|(tid & key & m1 & _ & _ & Hk & Hs & Hm & _)].
  - by eapply recent_inv_same.
  - simpl. rewrite Hm. apply remember_key_inv; [by eapply recent_inv_same|]. by injection Hs as -> _.
Qed.

Lemma mapper_call_recent_inv c w : recent_inv (mapper w) → recent_inv (mapper (mapper_call c w)).
Proof.
  destruct c; [by apply notification_recent_inv|..]; apply recent_inv_same;
    apply (respects_call same_recent (λ _, True)); framing.
Qed.

Lemma mapper_calls_recent_inv calls w : recent_inv (mapper w) → recent_inv (mapper (mapper_calls calls w)).
Proof.
  revert w. induction calls as [|c calls IH]; intros w Hw; [done|]. simpl. by apply IH, mapper_call_recent_inv.
Qed.

(** A remembered notification is ignored. *)
Lemma notification_duplicate method params tid key w :
  notification_thread params = Some tid → notification_key method params tid = Ok (Some key) →
  key ∈ recent_keys (mapper w) → notification method params w = (w, Ok ValidatedUnmapped).
Proof.
  intros Ht Hkey Hin. pose proof (keyed_methods _ _ _ _ Hkey) as Hm.
  unfold notification, mbind, act_bind, gets. rewrite Ht, Hkey.
  rewrite !(bool_decide_false (method = lit "thread/started")) by (destruct Hm as [->|[->| ->]]; done).
  rewrite !(bool_decide_false (method = lit "thread/status/changed")) by (destruct Hm as [->|[->| ->]]; done).
  cbn [andb]. destruct (_ || _); [done|]. simpl. destruct (from_option _ _ (notification_turn params)); [done|].
  by rewrite bool_decide_true.
Qed.

(** Nothing about a completed turn is mapped any more. *)
Lemma notification_late method params tid turn w :
  notification_thread params = Some tid → notification_turn params = Some turn →
  turn_completed_key tid turn ∈ recent_keys (mapper w) →
  method ≠ lit "thread/started" → method ≠ lit "thread/status/changed" →
  notification method params w = (w, Ok ValidatedUnmapped).
Proof.
  intros Ht Hturn Hin Hm1 Hm2. unfold notification, mbind, act_bind, gets. rewrite Ht, Hturn.
  rewrite (bool_decide_false (method = lit "thread/started")) by done.
  rewrite (bool_decide_false (method = lit "thread/status/changed")) by done.
  cbn [andb]. destruct (_ || _); [done|]. simpl. by rewrite bool_decide_true.
Qed.
End mapper.
