(* ===== verification/CodexProtocol.v ===== *)
(** * The Codex App Server protocol

    Models [agentpulse-providers/codex/src/protocol.rs]: the requests the
    provider sends, the frames it reads and the correlation of responses.  The
    JSON parser and printer and the validators of the bundled schema are
    third-party code. *)

From stdpp Require Import base strings numbers sorting gmap list.
From S2P Require Import Prelude Bytes Json Values Snapshots Capability Interaction Event CodexMapper.

(** The validators [ProtocolSchema::compile] builds. *)
Inductive SchemaKind : Type :=
| Schema_ClientRequest | Schema_ClientNotification | Schema_ServerNotification | Schema_ServerRequest
| Schema_JsonrpcResponse | Schema_JsonrpcError | Schema_InitializeResponse | Schema_ThreadResumeResponse
| Schema_ModelListResponse | Schema_PermissionProfileListResponse | Schema_ThreadListResponse
| Schema_ThreadItemsListResponse | Schema_ThreadStartResponse | Schema_ThreadForkResponse
| Schema_TurnStartResponse | Schema_TurnSteerResponse | Schema_EmptyResponse | Schema_ReviewStartResponse
| Schema_CommandApprovalResponse | Schema_FileApprovalResponse | Schema_UserInputResponse.

(** [serde_json::from_str] with the text of its error's position, [to_string]
    with the text of its error, [Validator::validate] with the path of a
    violation, and the version of the package. *)
Class CodexLibrary : Type := {
  codex_from_str : rstring → result rstring Value;
  codex_to_string : Value → result rstring rstring;
  schema_violation : SchemaKind → Value → option rstring;
  package_version : rstring
}.

(** ** Identities *)

(** A number is an [i64]. *)
Inductive RequestId : Type :=
| RequestId_Number (n : Z)
| RequestId_String (s : rstring).

#[export] Instance RequestId_eq_dec : EqDecision RequestId.
Proof. solve_decision. Defined.
#[export] Instance RequestId_countable : Countable RequestId.
Proof.
  refine (inj_countable'
    (λ r, match r with RequestId_Number n => inl n | RequestId_String s => inr s end)
    (λ x, match x with inl n => RequestId_Number n | inr s => RequestId_String s end) _).
  by intros [].
Defined.

Definition RequestId_from_value (value : Value) : result CodexProviderSourceError RequestId :=
  match as_i64 value with
  | Some n => Ok (RequestId_Number n)
  | None =>
      match as_str value with
      | Some s => Ok (RequestId_String s)
      | None => Err (source_protocol "request ID is neither an int64 nor a string")
      end
  end.

Definition RequestId_into_value (id : RequestId) : Value :=
  match id with RequestId_Number n => from_i64 n | RequestId_String s => VString s end.

Inductive ExpectedResponse : Type :=
| Expect_Initialize | Expect_ThreadResume | Expect_ModelList | Expect_PermissionProfileList
| Expect_ThreadList | Expect_ThreadItemsList | Expect_ThreadStart | Expect_ThreadFork | Expect_TurnStart
| Expect_TurnSteer | Expect_TurnInterrupt | Expect_ThreadCompact | Expect_ReviewStart | Expect_ThreadSetName.

#[export] Instance ExpectedResponse_eq_dec : EqDecision ExpectedResponse.
Proof. solve_decision. Defined.

Definition expected_method (e : ExpectedResponse) : string :=
  match e with
  | Expect_Initialize => "initialize"
  | Expect_ThreadResume => "thread/resume"
  | Expect_ModelList => "model/list"
  | Expect_PermissionProfileList => "permissionProfile/list"
  | Expect_ThreadList => "thread/list"
  | Expect_ThreadItemsList => "thread/items/list"
  | Expect_ThreadStart => "thread/start"
  | Expect_ThreadFork => "thread/fork"
  | Expect_TurnStart => "turn/start"
  | Expect_TurnSteer => "turn/steer"
  | Expect_TurnInterrupt => "turn/interrupt"
  | Expect_ThreadCompact => "thread/compact/start"
  | Expect_ReviewStart => "review/start"
  | Expect_ThreadSetName => "thread/name/set"
  end.

(** The validator of a successful response. *)
Definition expected_schema (e : ExpectedResponse) : SchemaKind :=
  match e with
  | Expect_Initialize => Schema_InitializeResponse
  | Expect_ThreadResume => Schema_ThreadResumeResponse
  | Expect_ModelList => Schema_ModelListResponse
  | Expect_PermissionProfileList => Schema_PermissionProfileListResponse
  | Expect_ThreadList => Schema_ThreadListResponse
  | Expect_ThreadItemsList => Schema_ThreadItemsListResponse
  | Expect_ThreadStart => Schema_ThreadStartResponse
  | Expect_ThreadFork => Schema_ThreadForkResponse
  | Expect_TurnStart => Schema_TurnStartResponse
  | Expect_TurnSteer => Schema_TurnSteerResponse
  | Expect_TurnInterrupt | Expect_ThreadCompact | Expect_ThreadSetName => Schema_EmptyResponse
  | Expect_ReviewStart => Schema_ReviewStartResponse
  end.

(** ** Frames *)

Inductive ServerFrame : Type :=
| Frame_Notification (method : rstring) (params : Value)
| Frame_Request (id : RequestId) (method : rstring) (params : Value)
| Frame_Response (id : RequestId) (expected : ExpectedResponse) (response : Value)
| Frame_Error (id : RequestId) (expected : ExpectedResponse) (code : Z) (message : rstring).

Inductive ObservedServerFrame : Type :=
| Observed_Notification (method : rstring) (params : Value)
| Observed_Request (id : RequestId) (method : rstring) (params : Value)
| PassThrough.

Record ProtocolEngine : Type := MkEngine {
  engine_pending : gmap RequestId ExpectedResponse;
  next_request_id : Z
}.

Definition ProtocolEngine_new : ProtocolEngine := MkEngine ∅ 1.

(** [i64] addition, which wraps in release builds. *)
Definition i64_add (a b : Z) : Z := ((a + b + 2 ^ 63) mod 2 ^ 64 - 2 ^ 63)%Z.

Section protocol.
Context `{CodexLibrary}.

Definition validate (kind : SchemaKind) (value : Value) (category : string) :
    result CodexProviderSourceError unit :=
  match schema_violation kind value with
  | Some path => Err (source_protocol_text (lit "schema rejected " ++ lit category ++ lit " at " ++ path))
  | None => Ok ()
  end.

Definition serialize (value : Value) : result CodexProviderSourceError rstring :=
  map_err (λ error, source_protocol_text (lit "JSON encoding failed: " ++ error)) (codex_to_string value).

Definition parse_json (text : rstring) : result CodexProviderSourceError Value :=
  map_err (λ position, source_protocol_text (lit "invalid JSON at " ++ position)) (codex_from_str text).

(** ** Requests *)

Definition allocate (expected : ExpectedResponse) : act ProtocolEngine CodexProviderSourceError RequestId := λ e,
  let id := RequestId_Number (next_request_id e) in
  (MkEngine (<[id := expected]> (engine_pending e)) (i64_add (next_request_id e) 1), Ok id).

Definition cancel_pending (id : RequestId) (e : ProtocolEngine) : ProtocolEngine :=
  MkEngine (delete id (engine_pending e)) (next_request_id e).

Definition validate_client_request (value : Value) : result CodexProviderSourceError unit :=
  validate Schema_ClientRequest value "client request".

Definition initialize_request : act ProtocolEngine CodexProviderSourceError (RequestId * rstring) :=
  id ← allocate Expect_Initialize;
  let value := object [
    ("id", RequestId_into_value id); ("method", VString (lit "initialize"));
    ("params", object [
       ("clientInfo", object [("name", VString (lit "agentpulse"));
          ("title", VString (lit "AgentPulse Codex Provider")); ("version", VString package_version)]);
       ("capabilities", object [("experimentalApi", Bool true)])])] in
  _ ← lift (validate_client_request value);
  text ← lift (serialize value);
  mret (id, text).

Definition initialized_notification : result CodexProviderSourceError rstring :=
  let value := object [("method", VString (lit "initialized"))] in
  _ ← validate Schema_ClientNotification value "client notification"; serialize value.

Definition thread_resume_request (thread_id : rstring) :
    act ProtocolEngine CodexProviderSourceError (RequestId * rstring) :=
  id ← allocate Expect_ThreadResume;
  let value := object [
    ("id", RequestId_into_value id); ("method", VString (lit "thread/resume"));
    ("params", object [("threadId", VString thread_id)])] in
  _ ← lift (validate_client_request value);
  text ← lift (serialize value);
  mret (id, text).

Definition request_value (id : RequestId) (expected : ExpectedResponse) (params : Value) : Value :=
  object [("id", RequestId_into_value id); ("method", VString (lit (expected_method expected))); ("params", params)].

Definition request (expected : ExpectedResponse) (params : Value) :
    act ProtocolEngine CodexProviderSourceError (RequestId * rstring) :=
  id ← allocate expected;
  let value := request_value id expected params in
  match validate_client_request value with
  | Err error => _ ← modify (cancel_pending id); throw error
  | Ok _ => text ← lift (serialize value); mret (id, text)
  end.

(** ** Responses *)

Definition unsupported_request_response (id : RequestId) (method : rstring) :
    result CodexProviderSourceError rstring :=
  let value := object [
    ("id", RequestId_into_value id);
    ("error", object [("code", from_i64 (-32601));
       ("message", VString (lit "AgentPulse does not implement " ++ method))])] in
  _ ← validate Schema_JsonrpcError value "client error response"; serialize value.

Definition interaction_schema (method : rstring) : result CodexProviderSourceError SchemaKind :=
  if bool_decide (method = lit "item/commandExecution/requestApproval") then Ok Schema_CommandApprovalResponse
  else if bool_decide (method = lit "item/fileChange/requestApproval") then Ok Schema_FileApprovalResponse
  else if bool_decide (method = lit "item/tool/requestUserInput") then Ok Schema_UserInputResponse
  else Err (source_protocol_text (lit "cannot encode a response for unsupported interaction method " ++ method)).

Definition interaction_response (id : RequestId) (method : rstring) (response : Value) :
    result CodexProviderSourceError rstring :=
  schema ← interaction_schema method;
  _ ← validate schema response "interaction response result";
  let value := object [("id", RequestId_into_value id); ("result", response)] in
  _ ← validate Schema_JsonrpcResponse value "client approval response";
  serialize value.

(** ** Reading frames *)

Definition ambiguous : string := "frame is not one unambiguous request, notification, response, or error".

(** A frame with a method: a request if it has an identity. *)
Definition method_frame {F} (on_request : RequestId → rstring → Value → F) (on_notification : rstring → Value → F)
    (value : Value) (has_id has_result has_error : bool) : result CodexProviderSourceError F :=
  if has_result || has_error then Err (source_protocol "method frame cannot also contain result or error")
  else
    method ← ok_or (source_protocol "method must be a string") (get_str "method" value);
    let params := default Null (get "params" value) in
    if has_id then
      _ ← validate Schema_ServerRequest value "server request";
      id ← RequestId_from_value (default Null (get "id" value));
      Ok (on_request id method params)
    else
      _ ← validate Schema_ServerNotification value "server notification";
      Ok (on_notification method params).

Definition has (field : string) (value : Value) : bool := bool_decide (is_Some (get field value)).

Definition parse_observed_server_text (text : rstring) : result CodexProviderSourceError ObservedServerFrame :=
  value ← parse_json text;
  if negb (is_object value) then Err (source_protocol "protocol frame must be a JSON object")
  else
    let has_id := has "id" value in
    let has_result := has "result" value in
    let has_error := has "error" value in
    if has "method" value
    then method_frame Observed_Request Observed_Notification value has_id has_result has_error
    else if has_id && xorb has_result has_error then
      _ ← (if has_result then validate Schema_JsonrpcResponse value "server response"
           else validate Schema_JsonrpcError value "server error response");
      Ok PassThrough
    else Err (source_protocol ambiguous).

(** The error object of an error response. *)
Definition error_fields (value : Value) : result CodexProviderSourceError (Z * rstring) :=
  error ← ok_or (source_protocol "error response has no error object")
            (e ← get "error" value; if is_object e then Some e else None);
  code ← ok_or (source_protocol "error response code must be an int64") (get "code" error ≫= as_i64);
  message ← ok_or (source_protocol "error response message must be a string") (get_str "message" error);
  Ok (code, take (N.to_nat 512) message).

Definition response_frame (value : Value) (has_result : bool) :
    act ProtocolEngine CodexProviderSourceError ServerFrame :=
  id ← lift (RequestId_from_value (default Null (get "id" value)));
  e ← gets (λ e, e);
  expected ← lift (ok_or (source_protocol "response ID does not match a pending request")
                     (engine_pending e !! id));
  _ ← modify (cancel_pending id);
  if has_result then
    _ ← lift (validate Schema_JsonrpcResponse value "server response");
    response ← lift (ok_or (source_protocol "successful response has no result") (get "result" value));
    _ ← lift (validate (expected_schema expected) response (expected_method expected));
    mret (Frame_Response id expected response)
  else
    _ ← lift (validate Schema_JsonrpcError value "server error response");
    '(code, message) ← lift (error_fields value);
    mret (Frame_Error id expected code message).

Definition parse_server_value (value : Value) : act ProtocolEngine CodexProviderSourceError ServerFrame :=
  if negb (is_object value) then throw (source_protocol "protocol frame must be a JSON object")
  else
    let has_id := has "id" value in
    let has_result := has "result" value in
    let has_error := has "error" value in
    if has "method" value
    then lift (method_frame Frame_Request Frame_Notification value has_id has_result has_error)
    else if has_id && xorb has_result has_error then response_frame value has_result
    else throw (source_protocol ambiguous).

Definition parse_server_text (text : rstring) : act ProtocolEngine CodexProviderSourceError ServerFrame :=
  value ← lift (parse_json text); parse_server_value value.
End protocol.

(** ** Correctness

    Responses are matched with the requests they answer, exactly once, and the
    observer reads the same frames as the connection that owns them. *)

Lemma i64_add_small a b : i64_range (a + b) → i64_add a b = (a + b)%Z.
Proof.
  unfold i64_range, i64_add. change (2 ^ 64)%Z with (2 * 2 ^ 63)%Z. intros Hr.
  rewrite Z.mod_small; lia.
Qed.

Lemma RequestId_roundtrip id :
  (∀ n, id = RequestId_Number n → i64_range n) → RequestId_from_value (RequestId_into_value id) = Ok id.
Proof.
  intros Hr. destruct id as [n|s]; unfold RequestId_from_value; simpl; [|done].
  by rewrite (as_i64_from n (Hr n eq_refl)).
Qed.

Section protocol.
Context `{CodexLibrary}.
Implicit Types (e : ProtocolEngine) (v : Value).

(** The pending requests are numbered below the next identity. *)
Definition engine_inv e : Prop :=
  (1 ≤ next_request_id e < 2 ^ 63)%Z ∧
  ∀ id, is_Some (engine_pending e !! id) → ∃ n, id = RequestId_Number n ∧ (1 ≤ n < next_request_id e)%Z.

Lemma engine_inv_fresh e : engine_inv e → engine_pending e !! RequestId_Number (next_request_id e) = None.
Proof.
  intros [_ Hp]. apply eq_None_not_Some. intros (n & [= <-] & Hn)%Hp. lia.
Qed.

Lemma engine_inv_allocate e expected e' id :
  engine_inv e → (next_request_id e + 1 < 2 ^ 63)%Z → allocate expected e = (e', Ok id) →
  engine_inv e' ∧ engine_pending e !! id = None ∧ engine_pending e' = <[id := expected]> (engine_pending e).
Proof.
  intros He Hn. unfold allocate. intros [= <- <-]. split; [|split; [by apply engine_inv_fresh|done]].
  destruct He as [Hb Hp]. unfold engine_inv. simpl. rewrite i64_add_small by (unfold i64_range; lia).
  split; [lia|]. intros id. rewrite lookup_insert. case_decide as Hid.
  - intros _. exists (next_request_id e). split; [done|lia].
  - intros (n & -> & Hn')%Hp. exists n. split; [done|lia].
Qed.

Lemma engine_inv_cancel e id : engine_inv e → engine_inv (cancel_pending id e).
Proof.
  intros [Hb Hp]. split; [done|]. simpl. intros id' [x Hx]. apply lookup_delete_Some in Hx as [_ Hx].
  by apply Hp.
Qed.

(** A request that could not be sent is not pending. *)
Lemma request_spec expected params e e' r :
  engine_inv e → (next_request_id e + 1 < 2 ^ 63)%Z → request expected params e = (e', r) →
  engine_inv e' ∧
  match r with
  | Ok (id, text) => engine_pending e !! id = None ∧ engine_pending e' = <[id := expected]> (engine_pending e) ∧
      codex_to_string (request_value id expected params) = Ok text
  | Err err => engine_pending e' = engine_pending e ∨
      ∃ id error, codex_to_string (request_value id expected params) = Err error
  end.
Proof.
  intros He Hn. unfold request. unfold mbind at 1, act_bind at 1.
  destruct (allocate expected e) as [e1 [id|]] eqn:Ea; [|done].
  destruct (engine_inv_allocate _ _ _ _ He Hn Ea) as (He1 & Hnone & Hp).
  destruct (validate_client_request _) as [[]|err].
  - unfold mbind, act_bind, lift, serialize. destruct (codex_to_string _) as [text|error] eqn:Et; simpl.
    + intros [= <- <-]. by split_and!.
    + intros [= <- <-]. split; [done|]. right. by eexists _, _.
  - intros [= <- <-]. split; [by apply engine_inv_cancel|]. left. simpl. rewrite Hp. by apply delete_insert_id.
Qed.

(** ** Responses *)

Definition frame_answers (f : ServerFrame) : option (RequestId * ExpectedResponse) :=
  match f with
  | Frame_Response id expected _ | Frame_Error id expected _ _ => Some (id, expected)
  | _ => None
  end.

Lemma method_frame_answers v b1 b2 b3 f :
  method_frame Frame_Request Frame_Notification v b1 b2 b3 = Ok f → frame_answers f = None.
Proof.
  unfold method_frame. destruct (_ || _); [done|]. intros (method & _ & Hf)%bind_Ok. simpl in Hf.
  destruct b1; [apply bind_Ok in Hf as ([] & _ & (id & _ & [= <-])%bind_Ok)|apply bind_Ok in Hf as ([] & _ & [= <-])];
    done.
Qed.

Lemma response_frame_spec v b e e' r :
  response_frame v b e = (e', r) →
  match r with
  | Ok f => ∃ id expected, frame_answers f = Some (id, expected) ∧ engine_pending e !! id = Some expected ∧
      RequestId_from_value (default Null (get "id" v)) = Ok id ∧ e' = cancel_pending id e
  | Err _ => e' = e ∨ ∃ id, is_Some (engine_pending e !! id) ∧
      RequestId_from_value (default Null (get "id" v)) = Ok id ∧ e' = cancel_pending id e
  end.
Proof.
  unfold response_frame. unfold mbind at 1, act_bind at 1, lift.
  destruct (RequestId_from_value _) as [id|] eqn:Eid; [|intros [= <- <-]; by left].
  unfold mbind at 1, act_bind at 1, gets. unfold mbind at 1, act_bind at 1, lift.
  destruct (engine_pending e !! id) as [expected|] eqn:Ep; simpl; [|intros [= <- <-]; by left].
  unfold mbind at 1, act_bind at 1, modify. set (e1 := cancel_pending id e). intros Hr.
  assert (e' = e1 ∧ ∀ f, r = Ok f → frame_answers f = Some (id, expected)) as [-> Hf].
  { destruct b; unfold mbind, act_bind, lift in Hr.
    - destruct (validate Schema_JsonrpcResponse _ _); [|by injection Hr as <- <-].
      destruct (ok_or _ (get "result" v)); [|by injection Hr as <- <-].
      destruct (validate (expected_schema expected) _ _); injection Hr as <- <-; [|done].
      split; [done|]. by intros f [= <-].
    - destruct (validate Schema_JsonrpcError _ _); [|by injection Hr as <- <-].
      destruct (error_fields v) as [[code message]|]; injection Hr as <- <-; [|done].
      split; [done|]. by intros f [= <-]. }
  destruct r as [f|err].
  - exists id, expected. by rewrite (Hf f eq_refl).
  - right. exists id. by rewrite Ep.
Qed.

(** Only a response changes what is pending, and it answers what it removes. *)
Lemma parse_server_value_spec v e e' r :
  parse_server_value v e = (e', r) →
  match r with
  | Ok f => match frame_answers f with
            | Some (id, expected) => engine_pending e !! id = Some expected ∧
                RequestId_from_value (default Null (get "id" v)) = Ok id ∧ e' = cancel_pending id e
            | None => e' = e
            end
  | Err _ => e' = e ∨ ∃ id, is_Some (engine_pending e !! id) ∧
      RequestId_from_value (default Null (get "id" v)) = Ok id ∧ e' = cancel_pending id e
  end.
Proof.
  unfold parse_server_value. destruct (negb (is_object v)); [intros [= <- <-]; by left|]. cbv zeta.
  destruct (has "method" v).
  - unfold lift. destruct (method_frame _ _ _ _ _ _) as [f|err] eqn:Em; intros [= <- <-]; [|by left].
    by rewrite (method_frame_answers _ _ _ _ _ Em).
  - destruct (_ && _); [|intros [= <- <-]; by left]. intros Hr%response_frame_spec.
    destruct r as [f|err]; [|done]. destruct Hr as (id & expected & -> & Hp & Hid & ->). done.
Qed.

(** A second answer to a request is refused. *)
Lemma parse_answered v e id :
  is_object v = true → has "method" v = false → engine_pending e !! id = None →
  RequestId_from_value (default Null (get "id" v)) = Ok id →
  ∃ err, parse_server_value v e = (e, Err err).
Proof.
  intros Ho Hm Hp Hid. unfold parse_server_value. rewrite Ho, Hm. cbn [negb]. cbv zeta.
  destruct (_ && _); [|by eexists]. unfold response_frame, mbind, act_bind, lift, gets. rewrite Hid, Hp. by eexists.
Qed.

(** ** The observer *)

(** What an observer sees of a frame. *)
Definition observed (f : ServerFrame) : ObservedServerFrame :=
  match f with
  | Frame_Notification method params => Observed_Notification method params
  | Frame_Request id method params => Observed_Request id method params
  | Frame_Response _ _ _ | Frame_Error _ _ _ _ => PassThrough
  end.

Lemma method_frame_observed v b1 b2 b3 :
  method_frame Observed_Request Observed_Notification v b1 b2 b3 =
    observed <$> method_frame Frame_Request Frame_Notification v b1 b2 b3.
Proof.
  unfold method_frame. destruct (_ || _); [done|]. destruct (ok_or _ (get_str "method" v)); [|done]. simpl.
  destruct b1; [destruct (validate Schema_ServerRequest _ _)|destruct (validate Schema_ServerNotification _ _)];
    try done. simpl. by destruct (RequestId_from_value _).
Qed.

Lemma response_frame_observed v b e e' f :
  response_frame v b e = (e', Ok f) →
  observed f = PassThrough ∧
  (if b then validate Schema_JsonrpcResponse v "server response"
   else validate Schema_JsonrpcError v "server error response") = Ok ().
Proof.
  intros Hr. pose proof (response_frame_spec _ _ _ _ _ Hr) as (id & expected & Hf & _).
  split; [by destruct f|]. revert Hr. unfold response_frame, mbind, act_bind, lift, gets.
  destruct (RequestId_from_value _) as [id'|]; [|done]. destruct (ok_or _ (engine_pending e !! id')); [|done].
  unfold modify. destruct b; [destruct (validate Schema_JsonrpcResponse _ _) as [[]|]; done|].
  by destruct (validate Schema_JsonrpcError _ _) as [[]|].
Qed.

(** Whatever the owner of a connection reads, the observer reads too. *)
Lemma parse_observed text e e' f :
  parse_server_text text e = (e', Ok f) → parse_observed_server_text text = Ok (observed f).
Proof.
  unfold parse_server_text, parse_observed_server_text. unfold mbind at 1, act_bind at 1, lift.
  destruct (parse_json text) as [v|]; [|done]. simpl. unfold parse_server_value.
  destruct (negb (is_object v)); [done|]. cbv zeta. destruct (has "method" v).
  - rewrite method_frame_observed. unfold lift. by destruct (method_frame _ _ _ _ _ _); [intros [= _ ->]|].
  - destruct (has "id" v && _) eqn:E; [|done]. intros [-> Hv]%response_frame_observed. by rewrite Hv.
Qed.

(** The observer accepts nothing else: what it reads as a request or a
    notification is one for the owner. *)
Lemma parse_observed_method text o :
  parse_observed_server_text text = Ok o → o ≠ PassThrough →
  ∀ e, ∃ f, parse_server_text text e = (e, Ok f) ∧ observed f = o.
Proof.
  unfold parse_server_text, parse_observed_server_text. intros Hp Hne e. unfold mbind at 1, act_bind at 1, lift.
  destruct (parse_json text) as [v|]; [|done]. simpl in Hp. unfold parse_server_value.
  destruct (negb (is_object v)); [done|]. cbv zeta in *. destruct (has "method" v).
  - rewrite method_frame_observed in Hp. unfold lift. destruct (method_frame Frame_Request _ _ _ _ _) as [f|]; [|done].
    injection Hp as <-. by exists f.
  - destruct (has "id" v && _); [|done]. apply bind_Ok in Hp as ([] & _ & [= <-]). done.
Qed.
End protocol.
