(* ===== verification/CodexApproval.v ===== *)
(** * Codex approvals and questions

    Models [agentpulse-providers/codex/src/approval.rs]: the presentation of
    Codex's approval requests and questions as interactions, the state that
    correlates their responses, and the queue of responses to be written. *)

From stdpp Require Import base strings numbers sorting gmap list.
From S2P Require Import Prelude Bytes Json Values Snapshots Capability Interaction Event CodexMapper CodexProtocol.

Definition MAX_PENDING_APPROVALS : nat := 64.
Definition MAX_APPROVAL_PRESENTATION_BYTES : N := 262144.

Inductive ApprovalRoute : Type := Route_Observer | Route_Proxy (n : u64).
#[export] Instance ApprovalRoute_eq_dec : EqDecision ApprovalRoute.
Proof. solve_decision. Defined.
#[export] Instance ApprovalRoute_countable : Countable ApprovalRoute.
Proof.
  refine (inj_countable' (λ r, match r with Route_Observer => None | Route_Proxy n => Some n end)
    (λ o, match o with None => Route_Observer | Some n => Route_Proxy n end) _).
  by intros [].
Defined.

Section approvals.
Context `{Externals}.

(** [InteractionId::new] and the other identities, by how often they were drawn,
    and [Timestamp::now_utc]; [draw_horizon] is how many draws are relied on. *)
Class ApprovalDraws : Type := {
  fresh_interaction_id : nat → InteractionId;
  fresh_approval_option_id : nat → ApprovalOptionId;
  fresh_choice_option_id : nat → ChoiceOptionId;
  fresh_form_field_id : nat → FormFieldId;
  approval_now_utc : nat → Timestamp;
  draw_horizon : nat
}.

Definition unrepeated {A} (n : nat) (f : nat → A) : Prop := ∀ i j, i < n → j < n → f i = f j → i = j.

(** Version-7 UUIDs do not repeat up to the horizon. *)
Class ApprovalDrawsOk `{ApprovalDraws} : Prop := {
  fresh_interaction_inj : unrepeated draw_horizon fresh_interaction_id;
  fresh_approval_inj : unrepeated draw_horizon fresh_approval_option_id;
  fresh_choice_inj : unrepeated draw_horizon fresh_choice_option_id;
  fresh_field_inj : unrepeated draw_horizon fresh_form_field_id
}.

(** ** Presentation *)

Inductive ResponseMapping : Type :=
| Mapping_Approval (decisions : gmap ApprovalOptionId Value)
| Mapping_Form (question_ids : gmap FormFieldId rstring) (option_values : gmap ChoiceOptionId rstring)
    (allows_text : gmap FormFieldId bool).

Record PreparedApproval : Type := MkPrepared {
  prepared_request : InteractionRequest;
  prepared_mapping : ResponseMapping;
  prepared_thread_id : rstring;
  prepared_turn_id : rstring;
  prepared_item_id : rstring
}.

Definition required_string (value : Value) (field : string) : result CodexProviderSourceError rstring :=
  string_field value field.
Definition required_i64 (value : Value) (field : string) : result CodexProviderSourceError Z :=
  i64_field value field.
Definition optional_text (value : Value) (field : string) :
    result CodexProviderSourceError (option NonEmptyText) := optional_non_empty_string value field.

Definition approval_timestamp (value : Z) : result CodexProviderSourceError Timestamp :=
  let nanos := (value * 10 ^ 6)%Z in
  if ((- 2 ^ 127 <=? nanos) && (nanos <? 2 ^ 127))%Z
  then source_domain (Timestamp_from_unix_nanos nanos)
  else Err (source_protocol "approval timestamp overflowed").

Definition text_new (s : rstring) : result CodexProviderSourceError NonEmptyText :=
  source_domain (NonEmptyText_new s).

(** [item.filter(..type..)] *)
Definition item_of_type (type : string) (item : option Value) : option Value :=
  item ← item; if bool_decide (get_str "type" item = Some (lit type)) then Some item else None.

(** [.or_else(|| item.and_then(|value| optional_text(value, field).ok().flatten()))] *)
Definition text_or_item (text : option NonEmptyText) (item : option Value) (field : string) :
    option NonEmptyText :=
  match text with
  | Some _ => text
  | None => item ← item; match optional_text item field with Ok t => t | Err _ => None end
  end.

Definition command_subject (params : Value) (item : option Value) :
    result CodexProviderSourceError (ApprovalSubject * option NonEmptyText) :=
  let item := item_of_type "commandExecution" item in
  let kind := default (lit "command") (get_str "kind" params) in
  kind ← (if bool_decide (kind = lit "command") then Ok CommandKind_Command
          else if bool_decide (kind = lit "writeStdin") then Ok CommandKind_WriteStdin
          else Err (source_protocol_text (lit "unsupported command approval kind " ++ kind)));
  command ← optional_text params "command";
  let command := text_or_item command item "command" in
  cwd ← optional_text params "cwd";
  let cwd := text_or_item cwd item "cwd" in
  reason ← optional_text params "reason";
  network ← match get "networkApprovalContext" params with
            | None | Some Null => Ok None
            | Some value =>
                host ← required_string value "host"; host ← text_new host;
                protocol ← required_string value "protocol"; protocol ← text_new protocol;
                Ok (Some (MkApprovalNetworkContext host protocol))
            end;
  unavailable ← (if bool_decide (command = None) && bool_decide (network = None)
    then Some <$> text_new (lit "Codex did not provide command or network details; use the desktop Codex client")
    else Ok None);
  Ok (CommandSubject kind command cwd reason network, unavailable).

Definition file_change (value : Value) : result CodexProviderSourceError ApprovalFileChange :=
  kind ← required_string value "kind";
  kind ← (if bool_decide (kind = lit "add") then Ok FileChange_Add
          else if bool_decide (kind = lit "delete") then Ok FileChange_Delete
          else if bool_decide (kind = lit "update") then Ok FileChange_Update
          else Err (source_protocol_text (lit "unsupported file change kind " ++ kind)));
  path ← required_string value "path"; path ← text_new path;
  diff ← required_string value "diff";
  Ok (MkApprovalFileChange path kind diff).

Definition file_subject (params : Value) (item : option Value) :
    result CodexProviderSourceError (ApprovalSubject * option NonEmptyText) :=
  reason ← optional_text params "reason";
  grant_root ← optional_text params "grantRoot";
  changes ← try_collect file_change
    (default [] (item ← item_of_type "fileChange" item; get "changes" item ≫= as_array));
  unavailable ← (if is_empty changes
    then Some <$> text_new (lit "Codex file-change details were not available; use the desktop Codex client")
    else Ok None);
  Ok (FileChangeSubject changes grant_root reason, unavailable).

(** *** Size *)

Definition text_bytes (t : NonEmptyText) : N := N.of_nat (byte_len (raw t)).
Definition option_bytes (t : option NonEmptyText) : N := from_option text_bytes 0%N t.
Definition usize_saturating_add (a b : N) : N := N.min u64_max (a + b).

Definition presentation_bytes (subject : ApprovalSubject) : N :=
  match subject with
  | CommandSubject _ command cwd reason network =>
      option_bytes command + option_bytes cwd + option_bytes reason
      + from_option (λ n, text_bytes (network_host n) + text_bytes (network_protocol n)) 0 network
  | FileChangeSubject changes grant_root reason =>
      foldl (λ total change, usize_saturating_add
        (usize_saturating_add total (text_bytes (change_path change))) (N.of_nat (byte_len (change_diff change))))
        0 changes
      + option_bytes grant_root + option_bytes reason
  end%N.

Definition approval_presentation_bytes (subject : ApprovalSubject) (options : list ApprovalOption) : N :=
  foldl (λ total option, usize_saturating_add
    (usize_saturating_add total (text_bytes (approval_label option)))
    (option_bytes (approval_description option))) (presentation_bytes subject) options.

Definition oversized_reason : result CodexProviderSourceError NonEmptyText :=
  text_new (lit "Approval details exceed the 262144-byte display limit; use the desktop Codex client").

Definition redacted_subject (subject : ApprovalSubject) : ApprovalSubject :=
  match subject with
  | CommandSubject kind _ _ _ _ => CommandSubject kind None None None None
  | FileChangeSubject _ _ _ => FileChangeSubject [] None None
  end.

(** *** Options *)

Context `{!ApprovalDraws}.

(** Preparing draws identities: the state is how often. *)
Abbreviation preparing A := (act nat CodexProviderSourceError A).
Definition draw {A} (f : nat → A) : preparing A := λ n, (S n, Ok (f n)).

Record OptionSet : Type := MkOptions {
  set_options : list ApprovalOption;
  set_decisions : gmap ApprovalOptionId Value
}.

Definition add_option (disposition : ApprovalDisposition) (label description : rstring) (decision : Value)
    (s : OptionSet) : preparing OptionSet :=
  id ← draw fresh_approval_option_id;
  label ← lift (text_new label);
  description ← lift (text_new description);
  mret (MkOptions (set_options s ++ [approval_with_description (ApprovalOption_new id disposition label) description])
          (<[id := decision]> (set_decisions s))).

Definition session_description (subject : ApprovalSubject) : rstring :=
  match subject with
  | FileChangeSubject _ (Some root) _ =>
      lit "Allow this change and future writes under " ++ raw root ++ lit " for this Codex session"
  | FileChangeSubject _ None _ =>
      lit "Allow this change and future changes to the same files for this Codex session"
  | CommandSubject _ _ _ _ _ => lit "Allow this operation and matching future prompts for this Codex session"
  end.

Definition exec_amendment (params : Value) (s : OptionSet) : preparing OptionSet :=
  match get "proposedExecpolicyAmendment" params ≫= as_array with
  | Some (value :: values) =>
      let exact := join [32%N] (default [] ∘ as_str <$> value :: values) in
      add_option Disposition_Approve (lit "Approve and remember command rule")
        (lit "Apply Codex exec policy amendment: " ++ exact)
        (object [("acceptWithExecpolicyAmendment",
                  object [("execpolicy_amendment", Array (value :: values))])]) s
  | _ => mret s
  end.

Fixpoint network_amendments (amendments : list Value) (s : OptionSet) : preparing OptionSet :=
  match amendments with
  | [] => mret s
  | amendment :: amendments' =>
      action ← lift (required_string amendment "action");
      host ← lift (required_string amendment "host");
      '(disposition, label) ← lift (
        if bool_decide (action = lit "allow") then Ok (Disposition_Approve, lit "Always allow " ++ host)
        else if bool_decide (action = lit "deny") then Ok (Disposition_Reject, lit "Always deny " ++ host)
        else Err (source_protocol_text (lit "unsupported network policy action " ++ action)));
      s ← add_option disposition label (lit "Apply persistent Codex network policy for " ++ host)
            (object [("applyNetworkPolicyAmendment", object [("network_policy_amendment", amendment)])]) s;
      network_amendments amendments' s
  end.

Definition codex_approval_options (method : rstring) (params : Value) (subject : ApprovalSubject) :
    preparing OptionSet :=
  s ← add_option Disposition_Approve (lit "Approve once") (lit "Allow only this operation")
        (VString (lit "accept")) (MkOptions [] ∅);
  s ← add_option Disposition_Approve (lit "Approve for session") (session_description subject)
        (VString (lit "acceptForSession")) s;
  s ← (if bool_decide (method = lit "item/commandExecution/requestApproval") then
         s ← exec_amendment params s;
         network_amendments (default [] (get "proposedNetworkPolicyAmendments" params ≫= as_array)) s
       else mret s);
  s ← add_option Disposition_Reject (lit "Reject") (lit "Deny this operation and continue the turn")
        (VString (lit "decline")) s;
  add_option Disposition_Cancel (lit "Reject and stop")
    (lit "Deny this operation and immediately interrupt the turn") (VString (lit "cancel")) s.

Definition unsupported_method {A} (method : rstring) : result CodexProviderSourceError A :=
  Err (source_protocol_text (lit "unsupported approval method " ++ method)).

Definition approval_subject_of (method : rstring) (params : Value) (item : option Value) :
    result CodexProviderSourceError (ApprovalSubject * option NonEmptyText) :=
  if bool_decide (method = lit "item/commandExecution/requestApproval") then command_subject params item
  else if bool_decide (method = lit "item/fileChange/requestApproval") then file_subject params item
  else unsupported_method method.

(** The options of a request, or why it cannot be answered here. *)
Definition offered_options (method : rstring) (params : Value) (subject : ApprovalSubject)
    (unavailable : option NonEmptyText) : preparing (OptionSet * option NonEmptyText) :=
  match unavailable with
  | Some reason => mret (MkOptions [] ∅, Some reason)
  | None =>
      s ← codex_approval_options method params subject;
      if (MAX_APPROVAL_PRESENTATION_BYTES <? approval_presentation_bytes subject (set_options s))%N
      then reason ← lift oversized_reason; mret (MkOptions [] ∅, Some reason)
      else mret (s, None)
  end.

Definition prepare_approval (method : rstring) (params : Value) (item : option Value) (sid : SessionId) :
    preparing PreparedApproval :=
  thread_id ← lift (required_string params "threadId");
  turn_id ← lift (required_string params "turnId");
  item_id ← lift (required_string params "itemId");
  started ← lift (required_i64 params "startedAtMs");
  requested_at ← lift (approval_timestamp started);
  '(subject, unavailable) ← lift (approval_subject_of method params item);
  unavailable ← (if (MAX_APPROVAL_PRESENTATION_BYTES <? presentation_bytes subject)%N
                 then reason ← lift oversized_reason; mret (Some reason) else mret unavailable);
  '(s, unavailable) ← offered_options method params subject unavailable;
  approval ← lift (match unavailable with
                   | Some reason => Ok (ApprovalRequest_unavailable (redacted_subject subject) reason)
                   | None => source_domain (ApprovalRequest_actionable subject (set_options s))
                   end);
  prompt ← lift (if bool_decide (method = lit "item/commandExecution/requestApproval")
                 then text_new (lit "Command approval required")
                 else if bool_decide (method = lit "item/fileChange/requestApproval")
                 then text_new (lit "File change approval required") else unsupported_method method);
  id ← draw fresh_interaction_id;
  mret (MkPrepared (InteractionRequest_new id sid requested_at prompt (Request_Approval approval))
          (Mapping_Approval (set_decisions s)) thread_id turn_id item_id).

(** *** Questions *)

(** The options of one question; [option_values] maps them to their labels. *)
Fixpoint question_options (values : list Value) (options : list ChoiceOption)
    (option_values : gmap ChoiceOptionId rstring) :
    preparing (list ChoiceOption * gmap ChoiceOptionId rstring) :=
  match values with
  | [] => mret (options, option_values)
  | value :: values' =>
      label ← lift (required_string value "label");
      id ← draw fresh_choice_option_id;
      text ← lift (text_new label);
      description ← lift (required_string value "description");
      description ← lift (text_new description);
      question_options values' (options ++ [choice_with_description (ChoiceOption_new id text) description])
        (<[id := label]> option_values)
  end.

Record FormSet : Type := MkFormSet {
  form_set_fields : list FormField;
  form_question_ids : gmap FormFieldId rstring;
  form_option_values : gmap ChoiceOptionId rstring;
  form_allows_text : gmap FormFieldId bool
}.

Definition add_question (question : Value) (s : FormSet) : preparing FormSet :=
  external_id ← lift (required_string question "id");
  id ← draw fresh_form_field_id;
  '(options, option_values) ← question_options (default [] (get "options" question ≫= as_array)) []
                                (form_option_values s);
  let allow_other := default false (get "isOther" question ≫= as_bool) || is_empty options in
  header ← lift (required_string question "header"); header ← lift (text_new header);
  prompt ← lift (required_string question "question"); prompt ← lift (text_new prompt);
  field ← lift (source_domain (FormField_new id header prompt options allow_other
                  (default false (get "isSecret" question ≫= as_bool))));
  mret (MkFormSet (form_set_fields s ++ [field]) (<[id := external_id]> (form_question_ids s)) option_values
          (<[id := allow_other]> (form_allows_text s))).

Fixpoint add_questions (questions : list Value) (s : FormSet) : preparing FormSet :=
  match questions with
  | [] => mret s
  | question :: questions' => s ← add_question question s; add_questions questions' s
  end.

Definition prepare_user_input (params : Value) (sid : SessionId) : preparing PreparedApproval :=
  thread_id ← lift (required_string params "threadId");
  turn_id ← lift (required_string params "turnId");
  item_id ← lift (required_string params "itemId");
  blocking ← lift (ok_or (source_protocol "isBlocking must be a boolean") (get "isBlocking" params ≫= as_bool));
  questions ← lift (ok_or (source_protocol "questions must be an array") (get "questions" params ≫= as_array));
  s ← add_questions questions (MkFormSet [] ∅ ∅ ∅);
  id ← draw fresh_interaction_id;
  now ← draw approval_now_utc;
  prompt ← lift (text_new (lit "Codex needs your input"));
  form ← lift (source_domain (FormRequest_new (form_set_fields s) blocking));
  mret (MkPrepared (InteractionRequest_new id sid now prompt (Request_Form form))
          (Mapping_Form (form_question_ids s) (form_option_values s) (form_allows_text s)) thread_id turn_id item_id).

(** ** Correlation *)

Inductive PendingStatus : Type :=
| Pending_Awaiting
| Pending_Queued (response : InteractionResponse)
| Pending_SentApproval (response : InteractionResponse)
| Pending_SentForm.

Record PendingApproval : Type := MkPending {
  pending_route : ApprovalRoute;
  pending_request_id : RequestId;
  pending_method : rstring;
  pending_thread_id : rstring;
  pending_turn_id : rstring;
  pending_item_id : rstring;
  pending_session_id : SessionId;
  pending_mapping : ResponseMapping;
  pending_status : PendingStatus
}.

Record OutboundApproval : Type := MkOutbound {
  outbound_route : ApprovalRoute;
  outbound_interaction_id : InteractionId;
  outbound_request_id : RequestId;
  outbound_method : rstring;
  outbound_result : Value
}.

Inductive ResolvedApproval : Type :=
| Resolved_Responded (thread_id : rstring) (response : InteractionResponse)
| Resolved_Closed (thread_id : rstring) (sid : SessionId) (interaction_id : InteractionId)
| Resolved_RespondedForm (thread_id : rstring) (sid : SessionId) (interaction_id : InteractionId).

Record ClosedApproval : Type := MkClosed {
  closed_thread_id : rstring;
  closed_approval_session_id : SessionId;
  closed_interaction_id : InteractionId
}.

Record ApprovalRuntimeState : Type := MkApprovals {
  pending : gmap InteractionId PendingApproval;
  by_request : gmap (ApprovalRoute * RequestId) InteractionId;
  outbound : list OutboundApproval
}.

Definition ApprovalRuntimeState_new : ApprovalRuntimeState := MkApprovals ∅ ∅ [].

(** The errors of the bridge-facing port; nothing raises [UnsupportedCommand]. *)
Inductive CodexProviderPortError : Type :=
| Port_InteractionNotPending (interaction_id : InteractionId)
| Port_SessionMismatch (expected actual : SessionId)
| Port_InteractionAlreadyClaimed (interaction_id : InteractionId)
| Port_UnsupportedInteractionResponse
| Port_UnknownApprovalOption (interaction_id : InteractionId) (option_id : ApprovalOptionId)
| Port_OutboundQueueFull (capacity : nat)
| Port_PromptTooLarge (bytes maximum : N)
| Port_PromptQueueFull (capacity : nat)
| Port_CommandQueueFull (capacity : nat).

Definition set_approval_outbound (q : list OutboundApproval) (s : ApprovalRuntimeState) : ApprovalRuntimeState :=
  MkApprovals (pending s) (by_request s) q.
Definition set_approval_status (status : PendingStatus) (p : PendingApproval) : PendingApproval :=
  MkPending (pending_route p) (pending_request_id p) (pending_method p) (pending_thread_id p) (pending_turn_id p)
    (pending_item_id p) (pending_session_id p) (pending_mapping p) status.

Definition register (route : ApprovalRoute) (id : RequestId) (method : rstring) (prepared : PreparedApproval) :
    act ApprovalRuntimeState CodexProviderSourceError unit :=
  s ← gets (λ s, s);
  let interaction_id := request_id (prepared_request prepared) in
  if (MAX_PENDING_APPROVALS <=? size (pending s))%nat
  then throw (source_protocol "pending approval limit of 64 reached")
  else if bool_decide (is_Some (by_request s !! (route, id)))
  then throw (source_protocol "Codex reused a pending server request ID")
  else if bool_decide (is_Some (pending s !! interaction_id))
  then throw (source_protocol "generated interaction ID is already pending")
  else modify (λ s, MkApprovals
    (<[interaction_id := MkPending route id method (prepared_thread_id prepared) (prepared_turn_id prepared)
         (prepared_item_id prepared) (request_session_id (prepared_request prepared))
         (prepared_mapping prepared) Pending_Awaiting]> (pending s))
    (<[(route, id) := interaction_id]> (by_request s)) (outbound s)).

(** [outbound.retain(..)] *)
Definition without (interaction_id : InteractionId) : list OutboundApproval → list OutboundApproval :=
  filter (λ o, outbound_interaction_id o ≠ interaction_id).

Definition remove (interaction_id : InteractionId) (s : ApprovalRuntimeState) : ApprovalRuntimeState :=
  match pending s !! interaction_id with
  | Some p => MkApprovals (delete interaction_id (pending s))
                (delete (pending_route p, pending_request_id p) (by_request s))
                (without interaction_id (outbound s))
  | None => set_approval_outbound (without interaction_id (outbound s)) s
  end.

(** The answers of a form, as Codex expects them. *)
Fixpoint form_answers_value (question_ids : gmap FormFieldId rstring) (option_values : gmap ChoiceOptionId rstring)
    (allows_text : gmap FormFieldId bool) (answers : list FormAnswer) (entries : list (rstring * Value)) :
    result CodexProviderPortError (list (rstring * Value)) :=
  match answers with
  | [] => Ok entries
  | answer :: answers' =>
      question ← ok_or Port_UnsupportedInteractionResponse (question_ids !! answer_field_id answer);
      value ← match answer_value answer with
              | Answer_Choice option_id =>
                  ok_or Port_UnsupportedInteractionResponse (option_values !! option_id)
              | Answer_Text text =>
                  if default false (allows_text !! answer_field_id answer) then Ok (raw text)
                  else Err Port_UnsupportedInteractionResponse
              end;
      form_answers_value question_ids option_values allows_text answers'
        (entries_insert question (object [("answers", Array [VString value])]) entries)
  end.

Definition response_value (mapping : ResponseMapping) (interaction_id : InteractionId)
    (payload : InteractionResponsePayload) : result CodexProviderPortError Value :=
  match mapping, payload with
  | Mapping_Approval decisions, Response_Approval selection =>
      let option_id := selection_option_id selection in
      decision ← ok_or (Port_UnknownApprovalOption interaction_id option_id) (decisions !! option_id);
      Ok (object [("decision", decision)])
  | Mapping_Form question_ids option_values allows_text, Response_Form form =>
      entries ← form_answers_value question_ids option_values allows_text (form_answers form) [];
      Ok (object [("answers", Object entries)])
  | _, _ => Err Port_UnsupportedInteractionResponse
  end.

Definition claim (response : InteractionResponse) : act ApprovalRuntimeState CodexProviderPortError unit :=
  s ← gets (λ s, s);
  let interaction_id := response_request_id response in
  p ← lift (ok_or (Port_InteractionNotPending interaction_id) (pending s !! interaction_id));
  if negb (bool_decide (response_session_id response = pending_session_id p))
  then throw (Port_SessionMismatch (pending_session_id p) (response_session_id response))
  else match pending_status p with
  | Pending_Awaiting =>
      value ← lift (response_value (pending_mapping p) interaction_id (response_payload response));
      if (MAX_PENDING_APPROVALS <=? length (outbound s))%nat
      then throw (Port_OutboundQueueFull MAX_PENDING_APPROVALS)
      else modify (λ s, MkApprovals
        (<[interaction_id := set_approval_status (Pending_Queued response) p]> (pending s)) (by_request s)
        (outbound s ++ [MkOutbound (pending_route p) interaction_id (pending_request_id p) (pending_method p) value]))
  | _ => throw (Port_InteractionAlreadyClaimed interaction_id)
  end.

(** [position(..)?] and [remove(index)]: the first response for a route. *)
Fixpoint pop_first (route : ApprovalRoute) (q : list OutboundApproval) :
    option (OutboundApproval * list OutboundApproval) :=
  match q with
  | [] => None
  | o :: q' =>
      if bool_decide (outbound_route o = route) then Some (o, q')
      else '(found, rest) ← pop_first route q'; Some (found, o :: rest)
  end.

Definition pop_outbound_for (route : ApprovalRoute) (s : ApprovalRuntimeState) :
    ApprovalRuntimeState * option OutboundApproval :=
  match pop_first route (outbound s) with
  | Some (o, rest) => (set_approval_outbound rest s, Some o)
  | None => (s, None)
  end.

Definition mark_sent (interaction_id : InteractionId) : act ApprovalRuntimeState CodexProviderSourceError unit :=
  s ← gets (λ s, s);
  p ← lift (ok_or (source_protocol "queued approval disappeared before write") (pending s !! interaction_id));
  match pending_status p with
  | Pending_Queued response =>
      status ← lift (match response_payload response with
        | Response_Approval _ => Ok (Pending_SentApproval response)
        | Response_Form _ => Ok Pending_SentForm
        | _ => Err (source_protocol "queued interaction changed to an unsupported response type")
        end);
      modify (λ s, MkApprovals (<[interaction_id := set_approval_status status p]> (pending s)) (by_request s)
                     (outbound s))
  | _ => throw (source_protocol "approval was not queued when its response was written")
  end.

Definition resolve (route : ApprovalRoute) (id : RequestId) (thread_id : rstring) :
    act ApprovalRuntimeState CodexProviderSourceError (option ResolvedApproval) :=
  s ← gets (λ s, s);
  match by_request s !! (route, id) with
  | None => mret None
  | Some interaction_id =>
      p ← lift (ok_or (source_protocol "approval request index was inconsistent") (pending s !! interaction_id));
      if negb (bool_decide (pending_thread_id p = thread_id))
      then throw (source_protocol "serverRequest/resolved thread did not match the pending approval")
      else
        _ ← modify (λ s, MkApprovals (delete interaction_id (pending s)) (delete (route, id) (by_request s))
                           (without interaction_id (outbound s)));
        mret (Some match pending_status p with
          | Pending_SentApproval response => Resolved_Responded (pending_thread_id p) response
          | Pending_SentForm => Resolved_RespondedForm (pending_thread_id p) (pending_session_id p) interaction_id
          | Pending_Awaiting | Pending_Queued _ =>
              Resolved_Closed (pending_thread_id p) (pending_session_id p) interaction_id
          end)
  end.

(** [close_matching]: the loop over the matching identities. *)
Fixpoint close_ids (ids : list InteractionId) (s : ApprovalRuntimeState) : ApprovalRuntimeState * list ClosedApproval :=
  match ids with
  | [] => (s, [])
  | id :: ids' =>
      match pending s !! id with
      | Some p =>
          let '(s', closed) := close_ids ids' (MkApprovals (delete id (pending s))
            (delete (pending_route p, pending_request_id p) (by_request s)) (outbound s)) in
          (s', MkClosed (pending_thread_id p) (pending_session_id p) id :: closed)
      | None => close_ids ids' s
      end
  end.

Definition close_matching (matches : PendingApproval → bool) (s : ApprovalRuntimeState) :
    ApprovalRuntimeState * list ClosedApproval :=
  let ids := List.filter (λ id, from_option matches false (pending s !! id)) (btree_keys (pending s)) in
  let '(s', closed) := close_ids ids s in
  (set_approval_outbound (filter (λ o, outbound_interaction_id o ∉ (closed_interaction_id <$> closed))
     (outbound s')) s', closed).

Definition close_item (thread_id turn_id item_id : rstring) := close_matching (λ p,
  bool_decide (pending_thread_id p = thread_id) && bool_decide (pending_turn_id p = turn_id)
  && bool_decide (pending_item_id p = item_id)).
Definition close_turn (thread_id turn_id : rstring) := close_matching (λ p,
  bool_decide (pending_thread_id p = thread_id) && bool_decide (pending_turn_id p = turn_id)).
Definition close_thread (thread_id : rstring) := close_matching (λ p, bool_decide (pending_thread_id p = thread_id)).
Definition close_all := close_matching (λ _, true).
Definition close_route (route : ApprovalRoute) := close_matching (λ p, bool_decide (pending_route p = route)).
End approvals.
