(* ===== verification/CodexApprovalSpec.v ===== *)
(** * Correctness of Codex approvals

    The requests presented to Channels can be answered by every response the
    core admits, an option carries the decision it announces, and the state
    that correlates responses is consistent, bounded and answers each request
    at most once. *)

From stdpp Require Import base strings numbers sorting gmap list.
From S2P Require Import Prelude Bytes Json Values Snapshots Capability Interaction Event CodexMapper CodexProtocol CodexApproval.

Lemma fmap_sublist_of {A B} (f : A → B) l k : sublist l k → sublist (f <$> l) (f <$> k).
Proof. induction 1; simpl; by constructor. Qed.

Lemma Forall2_impl_elem {A B} (P Q : A → B → Prop) l k :
  Forall2 P l k → (∀ x y, x ∈ l → P x y → Q x y) → Forall2 Q l k.
Proof. induction 1 as [|x y l k Hxy Hrest IH]; intros HPQ; constructor; [apply HPQ; [by left|done]|]. apply IH. intros. apply HPQ; [by right|done]. Qed.

Section approvals.
Context `{Externals} `{!ApprovalDraws} `{!ApprovalDrawsOk}.
Implicit Types (s : ApprovalRuntimeState) (p : PendingApproval) (o : OutboundApproval).

(** ** Presentation *)

(** What a user reads of an option. *)
Definition reads (opt : ApprovalOption) (disposition : ApprovalDisposition) (label description : rstring) : Prop :=
  approval_disposition opt = disposition ∧ raw (approval_label opt) = label ∧ raw <$> approval_description opt = Some description.

(** The decision that an option announces to the user: the exact answer to Codex
    for each text, and with an amendment the one Codex proposed in [params] whose
    rule or host the text names. *)
Inductive announces (params : Value) (subject : ApprovalSubject) (opt : ApprovalOption) : Value → Prop :=
| announces_once :
    reads opt Disposition_Approve (lit "Approve once") (lit "Allow only this operation") →
    announces params subject opt (VString (lit "accept"))
| announces_session :
    reads opt Disposition_Approve (lit "Approve for session") (session_description subject) →
    announces params subject opt (VString (lit "acceptForSession"))
| announces_rule amendment :
    get "proposedExecpolicyAmendment" params ≫= as_array = Some amendment → amendment ≠ [] →
    reads opt Disposition_Approve (lit "Approve and remember command rule")
      (lit "Apply Codex exec policy amendment: " ++ join [32%N] (default [] ∘ as_str <$> amendment)) →
    announces params subject opt
      (object [("acceptWithExecpolicyAmendment", object [("execpolicy_amendment", Array amendment)])])
| announces_allow amendments amendment host :
    get "proposedNetworkPolicyAmendments" params ≫= as_array = Some amendments → amendment ∈ amendments →
    get_str "action" amendment = Some (lit "allow") → get_str "host" amendment = Some host →
    reads opt Disposition_Approve (lit "Always allow " ++ host) (lit "Apply persistent Codex network policy for " ++ host) →
    announces params subject opt
      (object [("applyNetworkPolicyAmendment", object [("network_policy_amendment", amendment)])])
| announces_deny amendments amendment host :
    get "proposedNetworkPolicyAmendments" params ≫= as_array = Some amendments → amendment ∈ amendments →
    get_str "action" amendment = Some (lit "deny") → get_str "host" amendment = Some host →
    reads opt Disposition_Reject (lit "Always deny " ++ host) (lit "Apply persistent Codex network policy for " ++ host) →
    announces params subject opt
      (object [("applyNetworkPolicyAmendment", object [("network_policy_amendment", amendment)])])
| announces_reject :
    reads opt Disposition_Reject (lit "Reject") (lit "Deny this operation and continue the turn") →
    announces params subject opt (VString (lit "decline"))
| announces_stop :
    reads opt Disposition_Cancel (lit "Reject and stop") (lit "Deny this operation and immediately interrupt the turn") →
    announces params subject opt (VString (lit "cancel")).

Section options.
Context (params : Value) (subject : ApprovalSubject).

(** The options drawn so far: distinct, and each with its decision. *)
Record options_wf (n : nat) (os : OptionSet) : Prop := {
  oo_drawn : ∀ opt, opt ∈ set_options os → ∃ k, k < n ∧ approval_option_id opt = fresh_approval_option_id k;
  oo_nodup : NoDup (approval_option_id <$> set_options os);
  oo_decision : ∀ opt, opt ∈ set_options os →
    ∃ d, set_decisions os !! approval_option_id opt = Some d ∧ announces params subject opt d
}.

Definition options_ok (n : nat) (os : OptionSet) : Prop := n ≤ draw_horizon → options_wf n os.
End options.

(** Preparing keeps a property of the draws and what was collected. *)
Definition prepares {A} (P : nat → Prop) (Q : nat → A → Prop) (m : act nat CodexProviderSourceError A) : Prop :=
  ∀ n n' a, P n → m n = (n', Ok a) → Q n' a.

Lemma prepares_bind {A B} P (Q : nat → A → Prop) (R : nat → B → Prop)
    (m : act nat CodexProviderSourceError A) f :
  prepares P Q m → (∀ a, prepares (λ n, Q n a) R (f a)) → prepares P R (x ← m; f x).
Proof.
  intros Hm Hf n n' b HP. rewrite act_bind_Ok. intros (n1 & a & Ha & Hb). eapply (Hf a); [|exact Hb].
  by eapply Hm.
Qed.

Lemma prepares_lift {A} P (r : result CodexProviderSourceError A) :
  prepares P (λ n a, P n ∧ r = Ok a) (lift r).
Proof. intros n n' a HP [= <- ->]. done. Qed.

Lemma prepares_ret {A} P (Q : nat → A → Prop) a : (∀ n, P n → Q n a) → prepares P Q (mret a).
Proof. intros HQ n n' b HP [= <- <-]. auto. Qed.

Lemma text_new_raw text t : text_new text = Ok t → raw t = text.
Proof. intros Ht. by apply map_err_Ok, ok_or_Ok, of_raw_Some in Ht. Qed.

Section prepared_options.
Context (params : Value) (subject : ApprovalSubject).
Abbreviation options_ok := (options_ok params subject).

Lemma prepares_add_option disposition label description decision os :
  (∀ opt, reads opt disposition label description → announces params subject opt decision) →
  prepares (λ n, options_ok n os) options_ok (add_option disposition label description decision os).
Proof.
  intros Hd n n' os' Hok. unfold add_option, draw, lift, mbind, act_bind.
  destruct (text_new label) as [l|] eqn:El; [|done]. destruct (text_new description) as [t|] eqn:Et; [|done].
  intros [= <- <-] Hn. destruct Hok as [Hdr Hnd Hdc]; [lia|].
  assert (∀ opt, opt ∈ set_options os → approval_option_id opt ≠ fresh_approval_option_id n) as Hfresh.
  { intros opt (k & Hk & ->)%Hdr Heq%fresh_approval_inj; lia. }
  split; simpl.
  - intros opt [Ho|Ho]%elem_of_app; [apply Hdr in Ho as (k & Hk & ->); exists k; split; [lia|done]|].
    apply list_elem_of_singleton in Ho as ->. exists n. split; [lia|done].
  - rewrite fmap_app. apply NoDup_app. split; [done|]. split; [|apply NoDup_singleton].
    intros id Hid Hin. apply list_elem_of_singleton in Hin as ->. apply list_elem_of_fmap in Hid as (opt & Hid & Ho).
    by apply (Hfresh opt Ho).
  - intros opt [Ho|Ho]%elem_of_app.
    + destruct (Hdc opt Ho) as (d & Hl & Hf). exists d. split; [|done].
      rewrite lookup_insert_ne; [done|]. intros Heq. by apply (Hfresh opt Ho).
    + apply list_elem_of_singleton in Ho as ->. exists decision. simpl. rewrite lookup_insert_eq. split; [done|].
      apply Hd. split_and!; simpl; [done|by apply text_new_raw|by rewrite (text_new_raw _ _ Et)].
Qed.

Lemma prepares_weaken {A} (P P' : nat → Prop) (Q : nat → A → Prop) m :
  (∀ n, P' n → P n) → prepares P Q m → prepares P' Q m.
Proof. intros HP Hm n n' a Hn. apply Hm, HP, Hn. Qed.

Lemma prepares_exec os : prepares (λ n, options_ok n os) options_ok (exec_amendment params os).
Proof.
  unfold exec_amendment. destruct (_ ≫= as_array) as [[|v vs]|] eqn:E; try (by apply prepares_ret).
  apply prepares_add_option. intros opt Hopt. by apply announces_rule.
Qed.

Lemma prepares_network amendments os :
  (∀ a, a ∈ amendments → ∃ proposed, get "proposedNetworkPolicyAmendments" params ≫= as_array = Some proposed ∧ a ∈ proposed) →
  prepares (λ n, options_ok n os) options_ok (network_amendments amendments os).
Proof.
  revert os. induction amendments as [|a amendments IH]; intros os Hprop; cbn [network_amendments]; [by apply prepares_ret|].
  destruct (Hprop a ltac:(by left)) as (proposed & Hget & Hin).
  eapply prepares_bind; [apply prepares_lift|]. intros action.
  eapply prepares_bind; [apply prepares_lift|]. intros host.
  eapply prepares_bind; [apply prepares_lift|]. intros [disposition label].
  eapply prepares_bind; [|intros os'; apply IH; intros a' Ha'; apply Hprop; by right].
  intros n n' os' [[[Hok Ha] Hh] Hd]. apply prepares_add_option; [|done].
  unfold required_string, string_field in Ha, Hh. apply ok_or_Ok in Ha, Hh. intros opt Hopt.
  case_bool_decide; [injection Hd as <- <-; subst; by eapply announces_allow|].
  case_bool_decide; [injection Hd as <- <-; subst; by eapply announces_deny|done].
Qed.

Lemma prepares_options method :
  prepares (λ _, True) options_ok (codex_approval_options method params subject).
Proof.
  unfold codex_approval_options.
  eapply prepares_bind; [eapply prepares_weaken; [|apply prepares_add_option; intros opt; apply announces_once]|].
  { intros n _ _. split; simpl; [|apply NoDup_nil_2|]; intros opt Ho; by apply elem_of_nil in Ho. }
  intros s1. eapply prepares_bind; [apply prepares_add_option; intros opt; apply announces_session|]. intros s2.
  eapply prepares_bind.
  { destruct (bool_decide _); [|by apply prepares_ret].
    eapply prepares_bind; [apply prepares_exec|]. intros s3. apply prepares_network. intros a Ha.
    destruct (_ ≫= as_array) as [proposed|]; [by exists proposed|by apply elem_of_nil in Ha]. }
  intros s4. eapply prepares_bind; [apply prepares_add_option; intros opt; apply announces_reject|]. intros s5.
  apply prepares_add_option. intros opt. apply announces_stop.
Qed.
End prepared_options.

(** Preparing only draws more. *)
Definition advances {A} (m : act nat CodexProviderSourceError A) : Prop := ∀ n, n ≤ (m n).1.

Lemma advances_Ok {A} (m : act nat CodexProviderSourceError A) n n' a : advances m → m n = (n', Ok a) → n ≤ n'.
Proof. intros Hm Ha. specialize (Hm n). by rewrite Ha in Hm. Qed.

Lemma advances_bind {A B} (m : act nat CodexProviderSourceError A) (f : A → act nat CodexProviderSourceError B) :
  advances m → (∀ a, advances (f a)) → advances (x ← m; f x).
Proof.
  intros Hm Hf n. specialize (Hm n). unfold mbind, act_bind. destruct (m n) as [n1 [a|e]]; [|done].
  specialize (Hf a n1). simpl in *. lia.
Qed.

Lemma advances_lift {A} (r : result CodexProviderSourceError A) : advances (lift r).
Proof. intros n. done. Qed.
Lemma advances_ret {A} (a : A) : advances (mret a).
Proof. intros n. done. Qed.
Lemma advances_draw {A} (f : nat → A) : advances (draw f).
Proof. intros n. simpl. lia. Qed.

Ltac advances_step :=
  match goal with
  | |- advances (mbind _ _) => apply advances_bind; [|intros ?]
  | |- advances (lift _) => apply advances_lift
  | |- advances (mret _) => apply advances_ret
  | |- advances (draw _) => apply advances_draw
  | |- advances (let '(_, _) := ?x in _) => destruct x
  | |- advances (if ?b then _ else _) => destruct b
  | |- advances (match ?x with _ => _ end) => destruct x
  | |- _ => done
  end.
Ltac advances_solve := repeat advances_step.

Lemma advances_add_option disposition label description decision os :
  advances (add_option disposition label description decision os).
Proof. unfold add_option. advances_solve. Qed.

Lemma advances_network amendments os : advances (network_amendments amendments os).
Proof.
  revert os. induction amendments; intros os; cbn [network_amendments]; advances_solve; auto using advances_add_option.
Qed.

Lemma advances_offered method params subject unavailable : advances (offered_options method params subject unavailable).
Proof.
  unfold offered_options, codex_approval_options, exec_amendment.
  advances_solve; auto using advances_add_option, advances_network.
Qed.

Lemma advances_limit {A} (b : bool) (r : result CodexProviderSourceError A) (o : option A) n n' x :
  (if b then reason ← lift r; mret (Some reason) else mret o : act nat CodexProviderSourceError (option A)) n
  = (n', Ok x) → n' = n.
Proof. destruct b; [|by intros [=]]. destruct r; by intros [=]. Qed.

(** An approval prepared from [params]: either it can be answered, each option by
    the decision it announces and within the display limit, or nothing of it is
    shown. *)
Definition approval_ok (params : Value) (prepared : PreparedApproval) : Prop :=
  ∃ approval decisions,
    request_payload (prepared_request prepared) = Request_Approval approval ∧
    prepared_mapping prepared = Mapping_Approval decisions ∧
    (approval_is_actionable approval = true ∧ approval_unavailable_reason approval = None ∧
     (approval_presentation_bytes (approval_subject approval) (approval_options approval)
        ≤ MAX_APPROVAL_PRESENTATION_BYTES)%N ∧
     (∀ opt, opt ∈ approval_options approval →
        ∃ d, decisions !! approval_option_id opt = Some d ∧ announces params (approval_subject approval) opt d) ∨
     approval_options approval = [] ∧ is_Some (approval_unavailable_reason approval) ∧
     redacted_subject (approval_subject approval) = approval_subject approval).

Lemma redacted_idem subject : redacted_subject (redacted_subject subject) = redacted_subject subject.
Proof. by destruct subject. Qed.

Lemma offered_options_spec method params subject unavailable n n' os reason :
  offered_options method params subject unavailable n = (n', Ok (os, reason)) →
  (reason = None ∧ unavailable = None ∧ options_ok params subject n' os ∧
   (approval_presentation_bytes subject (set_options os) ≤ MAX_APPROVAL_PRESENTATION_BYTES)%N) ∨
  is_Some reason.
Proof.
  unfold offered_options. destruct unavailable as [r|]; [intros [= <- <- <-]; right; by eauto|].
  rewrite act_bind_Ok. intros (n1 & s & Hs & Hr).
  apply (prepares_options params subject method n n1 s I) in Hs as Hok.
  destruct (N.ltb_spec MAX_APPROVAL_PRESENTATION_BYTES (approval_presentation_bytes subject (set_options s))).
  - apply act_bind_Ok in Hr as (n2 & r & Hl & [= <- <- <-]). right. by eauto.
  - injection Hr as <- <- <-. by left.
Qed.

Lemma prepare_approval_ok method params item sid n n' prepared :
  prepare_approval method params item sid n = (n', Ok prepared) → n' ≤ draw_horizon →
  approval_ok params prepared ∧ request_wf (prepared_request prepared) ∧
  request_session_id (prepared_request prepared) = sid ∧
  ∃ k, n ≤ k < n' ∧ request_id (prepared_request prepared) = fresh_interaction_id k.
Proof.
  unfold prepare_approval.
  do 5 (rewrite act_bind_Ok; intros (? & ? & [= <- _] & Hr); revert Hr).
  rewrite act_bind_Ok. intros (n1 & [subject unavailable] & [= <- _] & Hr). revert Hr.
  rewrite act_bind_Ok. intros (n2 & reason & Hn2%advances_limit & Hr). revert Hr.
  rewrite act_bind_Ok. intros (n3 & [os unavailable'] & Ho & Hr). revert Hr.
  pose proof (advances_Ok _ _ _ _ (advances_offered _ _ _ _) Ho) as Hn3. apply offered_options_spec in Ho.
  rewrite act_bind_Ok. intros (n4 & approval & [= <- Ha] & Hr). revert Hr.
  rewrite act_bind_Ok. intros (n5 & prompt & [= <- _] & Hr). revert Hr.
  rewrite act_bind_Ok. intros (n6 & id & [= <- <-] & [= <- <-]) Hn6.
  destruct Ho as [(-> & _ & Hdec & Hsize)|[r ->]].
  - apply map_err_Ok, ApprovalRequest_actionable_Ok in Ha as (-> & Hne & Hnd). split_and!; [|done..|eauto].
    + destruct Hdec as [_ _ Hdec]; [lia|]. eexists _, (set_decisions os). split; [reflexivity|]. split; [done|]. left.
      unfold approval_is_actionable. cbn [approval_options]. by destruct (set_options os).
    + exists n3. split; [lia|done].
  - injection Ha as <-. split_and!; [|done..|eauto].
    + eexists _, (set_decisions os). split; [reflexivity|]. split; [done|]. right.
      simpl. split; [done|]. split; [by eauto|]. apply redacted_idem.
    + exists n3. split; [lia|done].
Qed.

(** *** Questions *)

(** A field shows a question of Codex, and its answer is filed under the
    question's identifier. *)
Definition shows (question_ids : gmap FormFieldId rstring) (f : FormField) (question : Value) : Prop :=
  ∃ q, question_ids !! field_id f = Some q ∧ get_str "id" question = Some q ∧
    get_str "header" question = Some (raw (field_header f)) ∧ get_str "question" question = Some (raw (field_prompt f)).

(** The fields built so far from these questions, with what their answers are
    translated by. *)
Record form_wf (questions : list Value) (n : nat) (fs : FormSet) : Prop := {
  fo_wf : Forall form_field_wf (form_set_fields fs);
  fo_drawn : ∀ f, f ∈ form_set_fields fs → ∃ k, k < n ∧ field_id f = fresh_form_field_id k;
  fo_question : Forall2 (shows (form_question_ids fs)) (form_set_fields fs) questions;
  fo_text : ∀ f, f ∈ form_set_fields fs → form_allows_text fs !! field_id f = Some (field_allows_other f);
  fo_options : ∀ f opt, f ∈ form_set_fields fs → opt ∈ field_options f →
    form_option_values fs !! choice_option_id opt = Some (raw (choice_label opt));
  fo_values : ∀ id, is_Some (form_option_values fs !! id) → ∃ k, k < n ∧ id = fresh_choice_option_id k
}.

Definition form_ok (questions : list Value) (n : nat) (fs : FormSet) : Prop := n ≤ draw_horizon → form_wf questions n fs.

(** Options of a question: labels kept, those of earlier questions too. *)
Definition labelled (n : nat) (options : list ChoiceOption) (values : gmap ChoiceOptionId rstring) : Prop :=
  (∀ opt, opt ∈ options → values !! choice_option_id opt = Some (raw (choice_label opt))) ∧
  (∀ id, is_Some (values !! id) → ∃ k, k < n ∧ id = fresh_choice_option_id k).

Lemma advances_question_options vs options values : advances (question_options vs options values).
Proof. revert options values. induction vs; intros options values; cbn [question_options]; advances_solve; auto. Qed.

Lemma advances_questions questions fs : advances (add_questions questions fs).
Proof.
  revert fs. induction questions; intros fs; cbn [add_questions]; advances_solve; auto.
  unfold add_question. advances_solve; auto using advances_question_options.
Qed.

Lemma question_options_ok vs options values n n' options' values' :
  labelled n options values → question_options vs options values n = (n', Ok (options', values')) →
  n' ≤ draw_horizon → labelled n' options' values' ∧ values ⊆ values'.
Proof.
  revert options values n. induction vs as [|v vs IH]; intros options values n Hlab; cbn [question_options].
  { intros [= <- <- <-] _. done. }
  rewrite act_bind_Ok. intros (n1 & label & [= <- _] & Hr). revert Hr.
  rewrite act_bind_Ok. intros (n2 & id & [= <- <-] & Hr). revert Hr.
  rewrite act_bind_Ok. intros (n3 & text & [= <- Ht] & Hr). revert Hr.
  rewrite act_bind_Ok. intros (n4 & d & [= <- _] & Hr). revert Hr.
  rewrite act_bind_Ok. intros (n5 & d' & [= <- _] & Hr). revert Hr.
  apply map_err_Ok, ok_or_Ok, of_raw_Some in Ht as Hraw. destruct Hlab as [Hopt Hval].
  intros Hr Hn'. pose proof (advances_Ok _ _ _ _ (advances_question_options _ _ _) Hr) as Hle.
  assert (values !! fresh_choice_option_id n = None) as Hnew.
  { apply eq_None_not_Some. intros (k & Hk & Heq%fresh_choice_inj)%Hval; lia. }
  apply IH in Hr as (Hlab & Hsub); [|clear Hr|done].
  - split; [done|]. etrans; [|exact Hsub]. by apply insert_subseteq.
  - split.
    + intros opt [Ho|Ho]%elem_of_app.
      * rewrite lookup_insert_ne; [by apply Hopt|]. intros Heq. rewrite Heq, (Hopt opt Ho) in Hnew. done.
      * apply list_elem_of_singleton in Ho as ->. simpl. by rewrite lookup_insert_eq, Hraw.
    + intros id [x [[<- _]|[_ Hx]]%lookup_insert_Some]; [exists n; split; [lia|done]|].
      destruct (Hval id) as (k & Hk & ->); [eauto|]. exists k. split; [lia|done].
Qed.

Lemma add_question_ok dn question fs n n' fs' :
  form_ok dn n fs → add_question question fs n = (n', Ok fs') → form_ok (dn ++ [question]) n' fs'.
Proof.
  intros Hok. unfold add_question.
  rewrite act_bind_Ok. intros (n1 & ext & [= <- Hext] & Hr). revert Hr.
  rewrite act_bind_Ok. intros (n2 & id & [= <- <-] & Hr). revert Hr.
  rewrite act_bind_Ok. intros (n3 & [options values] & Hopts & Hr). revert Hr.
  pose proof (advances_Ok _ _ _ _ (advances_question_options _ _ _) Hopts) as Hle.
  rewrite act_bind_Ok. intros (n4 & header & [= <- Hheader] & Hr). revert Hr.
  rewrite act_bind_Ok. intros (n5 & header' & [= <- Hheader'%text_new_raw] & Hr). revert Hr.
  rewrite act_bind_Ok. intros (n6 & prompt & [= <- Hprompt] & Hr). revert Hr.
  rewrite act_bind_Ok. intros (n7 & prompt' & [= <- Hprompt'%text_new_raw] & Hr). revert Hr.
  rewrite act_bind_Ok. intros (n8 & field & [= <- Hf] & [= <- <-]) Hn3.
  unfold required_string, string_field in Hext, Hheader, Hprompt. apply ok_or_Ok in Hext, Hheader, Hprompt.
  destruct Hok as [Hwf Hdr Hq Ht Ho Hv]; [lia|].
  apply question_options_ok in Hopts as ([Hlab Hval] & Hsub); [| |done]; cycle 1.
  { split; [intros opt Hin; by apply elem_of_nil in Hin|]. intros id Hid.
    destruct (Hv id Hid) as (k & Hk & ->). exists k. split; [lia|done]. }
  apply map_err_Ok, FormField_new_Ok in Hf as [-> Hfwf].
  assert (∀ f, f ∈ form_set_fields fs → field_id f ≠ fresh_form_field_id n) as Hfresh.
  { intros f (k & Hk & ->)%Hdr Heq%fresh_field_inj; lia. }
  split; cbn [form_set_fields form_question_ids form_option_values form_allows_text].
  - apply Forall_app. auto.
  - intros f [Hin|Hin]%elem_of_app; [destruct (Hdr f Hin) as (k & Hk & ->); exists k; split; [lia|done]|].
    apply list_elem_of_singleton in Hin as ->. exists n. split; [lia|done].
  - apply Forall2_app.
    + eapply Forall2_impl_elem; [exact Hq|]. intros f question' Hin (q & Hlook & Hrest). exists q.
      by rewrite lookup_insert_ne by (by apply not_eq_sym, Hfresh).
    + constructor; [|constructor]. exists ext. simpl. by rewrite lookup_insert_eq, Hheader', Hprompt'.
  - intros f [Hin|Hin]%elem_of_app; [rewrite lookup_insert_ne by (by apply not_eq_sym, Hfresh); by apply Ht|].
    apply list_elem_of_singleton in Hin as ->. simpl. by rewrite lookup_insert_eq.
  - intros f opt [Hin|Hin]%elem_of_app Hopt.
    + eapply lookup_weaken; [by eapply Ho|done].
    + apply list_elem_of_singleton in Hin as ->. by apply Hlab.
  - done.
Qed.

Lemma add_questions_ok dn questions fs n n' fs' :
  form_ok dn n fs → add_questions questions fs n = (n', Ok fs') → form_ok (dn ++ questions) n' fs'.
Proof.
  revert dn fs n. induction questions as [|q questions IH]; intros dn fs n Hok; cbn [add_questions].
  { rewrite app_nil_r. by intros [= <- <-]. }
  rewrite act_bind_Ok. intros (n1 & fs1 & Hq & Hr). rewrite cons_middle, (assoc_L (++)).
  eapply IH; [|exact Hr]. by eapply add_question_ok.
Qed.

(** A question form prepared from [params]: it has a field for each question of
    Codex, in order, and what it shows is what its answers are translated by. *)
Definition form_prepared (params : Value) (prepared : PreparedApproval) : Prop :=
  ∃ questions form question_ids option_values allows_text,
    get "questions" params ≫= as_array = Some questions ∧
    request_payload (prepared_request prepared) = Request_Form form ∧ NoDup (field_id <$> form_fields form) ∧
    prepared_mapping prepared = Mapping_Form question_ids option_values allows_text ∧
    Forall2 (shows question_ids) (form_fields form) questions ∧
    ∀ f, f ∈ form_fields form → allows_text !! field_id f = Some (field_allows_other f) ∧
      ∀ opt, opt ∈ field_options f → option_values !! choice_option_id opt = Some (raw (choice_label opt)).

Lemma prepare_user_input_ok params sid n n' prepared :
  prepare_user_input params sid n = (n', Ok prepared) → n' ≤ draw_horizon →
  form_prepared params prepared ∧ request_wf (prepared_request prepared) ∧
  request_session_id (prepared_request prepared) = sid ∧
  ∃ k, n ≤ k < n' ∧ request_id (prepared_request prepared) = fresh_interaction_id k.
Proof.
  unfold prepare_user_input.
  do 4 (rewrite act_bind_Ok; intros (? & ? & [= <- _] & Hr); revert Hr).
  rewrite act_bind_Ok. intros (n0 & questions & [= <- Hqs%ok_or_Ok] & Hr). revert Hr.
  rewrite act_bind_Ok. intros (n1 & fs & Hfs & Hr). revert Hr.
  pose proof (advances_Ok _ _ _ _ (advances_questions _ _) Hfs) as Hn1.
  apply (add_questions_ok []) in Hfs as Hok.
  2: { intros _. split; simpl; [done|..]; try (intros f Hin; by apply elem_of_nil in Hin); [constructor|..].
    - intros f opt Hin. by apply elem_of_nil in Hin.
    - intros id [x Hx]. by rewrite lookup_empty in Hx. }
  rewrite act_bind_Ok. intros (n2 & id & [= <- <-] & Hr). revert Hr.
  rewrite act_bind_Ok. intros (n3 & now & [= <- _] & Hr). revert Hr.
  rewrite act_bind_Ok. intros (n4 & prompt & [= <- _] & Hr). revert Hr.
  rewrite act_bind_Ok. intros (n5 & form & [= <- Hf] & [= <- <-]) Hn4.
  destruct Hok as [Hwf _ Hq Ht Ho _]; [lia|].
  apply map_err_Ok, FormRequest_new_Ok in Hf as (-> & Hne & Hnd).
  split; [|split; [done|split; [done|exists n1; split; [lia|done]]]].
  eexists questions, _, (form_question_ids fs), (form_option_values fs), (form_allows_text fs).
  split; [done|]. split; [reflexivity|]. split_and!; [done..|]. simpl. eauto 10.
Qed.

(** *** Responses *)

(** The text an answer is translated to. *)
Definition answer_text (field : FormField) (value : FormAnswerValue) (text : rstring) : Prop :=
  match value with
  | Answer_Choice id => ∃ opt, opt ∈ field_options field ∧ choice_option_id opt = id ∧ raw (choice_label opt) = text
  | Answer_Text t => raw t = text
  end.

(** What Codex is sent of answers, each with the identifier of its question and
    its text, in the order of the answers: an object from identifiers to answers,
    with the last answer where an identifier is repeated. *)
Definition answer_object (entries : list (rstring * Value)) (answered : rstring * rstring) : list (rstring * Value) :=
  entries_insert answered.1 (object [("answers", Array [VString answered.2])]) entries.

Definition answers_question (question_ids : gmap FormFieldId rstring) (fields : list FormField) (a : FormAnswer)
    (answered : rstring * rstring) : Prop :=
  ∃ f, f ∈ fields ∧ answer_field_id a = field_id f ∧ question_ids !! field_id f = Some answered.1 ∧
    answer_text f (answer_value a) answered.2.

Lemma form_answers_value_ok question_ids option_values allows_text (fields : list FormField) answers entries :
  (∀ f, f ∈ fields → is_Some (question_ids !! field_id f)) →
  (∀ f, f ∈ fields → allows_text !! field_id f = Some (field_allows_other f) ∧
     ∀ opt, opt ∈ field_options f → option_values !! choice_option_id opt = Some (raw (choice_label opt))) →
  (∀ a, a ∈ answers → ∃ f, f ∈ fields ∧ answer_field_id a = field_id f ∧ answer_acceptable f (answer_value a)) →
  ∃ answered, Forall2 (answers_question question_ids fields) answers answered ∧
    form_answers_value question_ids option_values allows_text answers entries = Ok (foldl answer_object entries answered).
Proof.
  intros Hids Hf. revert entries. induction answers as [|a answers IH]; intros entries Ha; cbn [form_answers_value].
  { by exists []. }
  destruct (Ha a) as (f & Hin & Hid & Hacc); [left|]. destruct (Hids f Hin) as [q Hq]. destruct (Hf f Hin) as (Ht & Ho).
  rewrite Hid, Hq. simpl.
  assert (∃ text, (match answer_value a with
      | Answer_Choice option_id => ok_or Port_UnsupportedInteractionResponse (option_values !! option_id)
      | Answer_Text text =>
          if default false (allows_text !! field_id f) then Ok (raw text) else Err Port_UnsupportedInteractionResponse
      end) = Ok text ∧ answer_text f (answer_value a) text) as (text & -> & Htext).
  { destruct (answer_value a) as [option_id|t]; simpl in Hacc |- *.
    - apply list_elem_of_fmap in Hacc as (opt & -> & Hopt). rewrite (Ho opt Hopt). simpl. eauto 10.
    - rewrite Ht. simpl. rewrite Hacc. eauto. }
  simpl. destruct (IH (answer_object entries (q, text))) as (answered & Hall & Hes); [intros a' Ha'; apply Ha; by right|].
  exists ((q, text) :: answered). split; [|exact Hes]. constructor; [|done]. by exists f.
Qed.

(** What Codex is told for a response to the request with these parameters. *)
Inductive translated (params : Value) : InteractionRequestPayload → ResponseMapping → InteractionResponsePayload → Value → Prop :=
| translated_approval approval decisions selection opt d :
    opt ∈ approval_options approval → approval_option_id opt = selection_option_id selection →
    announces params (approval_subject approval) opt d →
    translated params (Request_Approval approval) (Mapping_Approval decisions) (Response_Approval selection)
      (object [("decision", d)])
| translated_form questions form question_ids option_values allows_text response answered :
    get "questions" params ≫= as_array = Some questions → Forall2 (shows question_ids) (form_fields form) questions →
    Forall2 (answers_question question_ids (form_fields form)) (form_answers response) answered →
    translated params (Request_Form form) (Mapping_Form question_ids option_values allows_text) (Response_Form response)
      (object [("answers", Object (foldl answer_object [] answered))]).

Definition prepared_from (params : Value) (prepared : PreparedApproval) : Prop :=
  approval_ok params prepared ∨ form_prepared params prepared.
Definition prepared_ok (prepared : PreparedApproval) : Prop := ∃ params, prepared_from params prepared.

Lemma response_value_ok params prepared payload id :
  prepared_from params prepared → answers_payload (request_payload (prepared_request prepared)) payload →
  ∃ value, response_value (prepared_mapping prepared) id payload = Ok value ∧
    translated params (request_payload (prepared_request prepared)) (prepared_mapping prepared) payload value.
Proof.
  intros [(approval & decisions & Hreq & Hmap & Happ)|(questions & form & qs & os & ts & Hget & Hreq & _ & Hmap & Hqs & Hf)];
    rewrite Hreq, Hmap; destruct payload as [selection| | |response]; try done; intros Hans; cbn in Hans.
  - apply list_elem_of_fmap in Hans as (opt & Hid & Hopt).
    destruct Happ as [(_ & _ & _ & Hdec)|(Hnil & _)]; [|rewrite Hnil in Hopt; by apply elem_of_nil in Hopt].
    destruct (Hdec opt Hopt) as (d & Hl & Hfd). exists (object [("decision", d)]).
    cbn [response_value]. rewrite Hid, Hl. split; [done|]. by eapply translated_approval.
  - destruct Hans as [Hperm Hacc].
    destruct (form_answers_value_ok qs os ts (form_fields form) (form_answers response) []) as (answered & Hall & Hes).
    + intros f [k Hk]%list_elem_of_lookup_1. destruct (Forall2_lookup_l _ _ _ _ _ Hqs Hk) as (question & _ & q & Hq & _). by exists q.
    + done.
    + intros a Ha. assert (answer_field_id a ∈ field_id <$> form_fields form) as Hin
        by (rewrite <-Hperm; by apply list_elem_of_fmap_2).
      apply list_elem_of_fmap in Hin as (f & Hid & Hin). eauto.
    + exists (object [("answers", Object (foldl answer_object [] answered))]). cbn [response_value]. rewrite Hes.
      split; [done|]. by eapply translated_form.
Qed.

(** ** Correlation *)

(** Every request is found under its route and identifier, and nothing else is. *)
Record index_ok (pd : gmap InteractionId PendingApproval) (index : gmap (ApprovalRoute * RequestId) InteractionId) :
    Prop := {
  ix_sound : ∀ key id, index !! key = Some id →
    ∃ p, pd !! id = Some p ∧ key = (pending_route p, pending_request_id p);
  ix_complete : ∀ id p, pd !! id = Some p → index !! (pending_route p, pending_request_id p) = Some id
}.

(** A queued response is the translation of the one its request was claimed with. *)
Definition carries o p : Prop :=
  outbound_route o = pending_route p ∧ outbound_request_id o = pending_request_id p ∧
  outbound_method o = pending_method p ∧
  ∃ response, pending_status p = Pending_Queued response ∧
    response_request_id response = outbound_interaction_id o ∧
    response_session_id response = pending_session_id p ∧
    response_value (pending_mapping p) (outbound_interaction_id o) (response_payload response)
    = Ok (outbound_result o).

(** The state, the interactions ever registered, and the responses taken from
    the queue, oldest first. *)
Record approvals_inv s (registered : gset InteractionId) (taken : list OutboundApproval) : Prop := {
  ai_index : index_ok (pending s) (by_request s);
  ai_bound : size (pending s) ≤ MAX_PENDING_APPROVALS;
  ai_outbound : ∀ o, o ∈ outbound s → ∃ p, pending s !! outbound_interaction_id o = Some p ∧ carries o p;
  ai_once : NoDup (outbound_interaction_id <$> taken ++ outbound s);
  ai_taken : ∀ o, o ∈ taken → outbound_interaction_id o ∈ registered ∧
    ∀ p, pending s !! outbound_interaction_id o = Some p → pending_status p ≠ Pending_Awaiting;
  ai_registered : ∀ id, is_Some (pending s !! id) → id ∈ registered
}.

Lemma index_ok_delete pd index id p :
  index_ok pd index → pd !! id = Some p →
  index_ok (delete id pd) (delete (pending_route p, pending_request_id p) index).
Proof.
  intros [Hs Hc] Hp. split.
  - intros key id' [Hne Hi]%lookup_delete_Some. destruct (Hs key id' Hi) as (p' & Hp' & ->).
    exists p'. split; [|done]. rewrite lookup_delete_ne; [done|]. intros ->. congruence.
  - intros id' p' [Hne Hp']%lookup_delete_Some. rewrite lookup_delete_ne; [by apply Hc|].
    intros Heq. apply Hc in Hp, Hp'. congruence.
Qed.

Lemma index_ok_update pd index id p status :
  index_ok pd index → pd !! id = Some p → index_ok (<[id := set_approval_status status p]> pd) index.
Proof.
  intros [Hs Hc] Hp. split.
  - intros key id' Hi. destruct (Hs key id' Hi) as (p' & Hp' & ->).
    destruct (decide (id = id')) as [<-|].
    + rewrite lookup_insert_eq. eexists. split; [done|]. by simplify_eq.
    + rewrite lookup_insert_ne by done. eauto.
  - intros id' p' [[<- <-]|[Hne Hp']]%lookup_insert_Some; simpl; by apply Hc.
Qed.

Lemma index_ok_insert pd index id p :
  index_ok pd index → pd !! id = None → index !! (pending_route p, pending_request_id p) = None →
  index_ok (<[id := p]> pd) (<[(pending_route p, pending_request_id p) := id]> index).
Proof.
  intros [Hs Hc] Hp Hi. split.
  - intros key id' [[<- <-]|[Hne Hi']]%lookup_insert_Some; [rewrite lookup_insert_eq; eauto|].
    destruct (Hs key id' Hi') as (p' & Hp' & ->). exists p'. split; [|done].
    rewrite lookup_insert_ne; [done|]. intros ->. congruence.
  - intros id' p' [[<- <-]|[Hne Hp']]%lookup_insert_Some; [by rewrite lookup_insert_eq|].
    rewrite lookup_insert_ne; [by apply Hc|]. intros Heq. apply Hc in Hp'. congruence.
Qed.

Lemma without_subseteq id q o : o ∈ without id q ↔ outbound_interaction_id o ≠ id ∧ o ∈ q.
Proof. unfold without. by rewrite list_elem_of_filter. Qed.

Lemma once_sublist (taken q q' : list OutboundApproval) :
  sublist q' q → NoDup (outbound_interaction_id <$> taken ++ q) →
  NoDup (outbound_interaction_id <$> taken ++ q').
Proof.
  intros Hq Hnd. eapply sublist_NoDup; [exact Hnd|]. by apply fmap_sublist_of, sublist_app.
Qed.

(** Dropping interactions, with what is queued for them. *)
Lemma approvals_inv_shrink s registered taken pd index q :
  approvals_inv s registered taken →
  index_ok pd index → pd ⊆ pending s → sublist q (outbound s) →
  (∀ o, o ∈ q → is_Some (pd !! outbound_interaction_id o)) →
  approvals_inv (MkApprovals pd index q) registered taken.
Proof.
  intros [Hi Hb Ho Hn Ht Hr] Hi' Hsub Hq Hlive. split; simpl; [done| | | | |].
  - etrans; [|exact Hb]. by apply map_subseteq_size.
  - intros o Hin. destruct (Hlive o Hin) as [p Hp]. exists p. split; [done|].
    destruct (Ho o) as (p' & Hp' & Hc); [by eapply elem_of_sublist|].
    eapply lookup_weaken in Hp; [|exact Hsub]. by simplify_eq.
  - by eapply once_sublist.
  - intros o Hin. destruct (Ht o Hin) as [Hreg Hst]. split; [done|]. intros p Hp. apply Hst.
    by eapply lookup_weaken.
  - intros id [p Hp]. apply Hr. exists p. by eapply lookup_weaken.
Qed.

Lemma approvals_inv_delete s registered taken id p :
  approvals_inv s registered taken → pending s !! id = Some p →
  approvals_inv (MkApprovals (delete id (pending s))
    (delete (pending_route p, pending_request_id p) (by_request s)) (without id (outbound s))) registered taken.
Proof.
  intros Hinv Hp. apply (approvals_inv_shrink s); [done| |apply delete_subseteq|apply sublist_filter|].
  - apply index_ok_delete; [|done]. apply Hinv.
  - intros o [Hne Hin]%without_subseteq. rewrite lookup_delete_ne by done.
    destruct (ai_outbound _ _ _ Hinv o Hin) as (p' & Hp' & _). eauto.
Qed.

Lemma remove_inv s registered taken id :
  approvals_inv s registered taken → approvals_inv (remove id s) registered taken.
Proof.
  intros Hinv. unfold remove. destruct (pending s !! id) as [p|] eqn:Hp; [by apply approvals_inv_delete|].
  apply (approvals_inv_shrink s); [done|apply Hinv|done|apply sublist_filter|].
  intros o [_ Hin]%without_subseteq. destruct (ai_outbound _ _ _ Hinv o Hin) as (p' & Hp' & _). eauto.
Qed.

(** [register] *)
Lemma register_Ok route id method prepared s s' :
  register route id method prepared s = (s', Ok ()) →
  pending s !! request_id (prepared_request prepared) = None ∧ by_request s !! (route, id) = None ∧
  size (pending s) < MAX_PENDING_APPROVALS ∧
  s' = MkApprovals
    (<[request_id (prepared_request prepared) := MkPending route id method (prepared_thread_id prepared)
         (prepared_turn_id prepared) (prepared_item_id prepared) (request_session_id (prepared_request prepared))
         (prepared_mapping prepared) Pending_Awaiting]> (pending s))
    (<[(route, id) := request_id (prepared_request prepared)]> (by_request s)) (outbound s).
Proof.
  unfold register, gets, mbind, act_bind.
  destruct (Nat.leb_spec MAX_PENDING_APPROVALS (size (pending s))); [done|].
  case_bool_decide as Hk; [done|]. case_bool_decide as Hp; [done|]. intros [= <-].
  by rewrite !eq_None_not_Some.
Qed.

Lemma register_Err route id method prepared s s' e :
  register route id method prepared s = (s', Err e) → s' = s.
Proof. unfold register, gets, mbind, act_bind. destruct (MAX_PENDING_APPROVALS <=? _)%nat; [by intros [=]|]. repeat case_bool_decide; by intros [=]. Qed.

Lemma register_inv route id method prepared s registered taken :
  approvals_inv s registered taken → (request_id (prepared_request prepared) ∉ registered) →
  approvals_inv (register route id method prepared s).1
    ({[request_id (prepared_request prepared)]} ∪ registered) taken.
Proof.
  intros Hinv Hnew. set (iid := request_id (prepared_request prepared)) in *.
  destruct (register route id method prepared s) as [s' [[]|e]] eqn:E; simpl.
  - apply register_Ok in E as (Hp & Hk & Hsize & ->). fold iid in Hp |- *.
    destruct Hinv as [Hi Hb Ho Hn Ht Hr]. split; simpl.
    + by apply (index_ok_insert _ _ _ (MkPending route id method _ _ _ _ _ Pending_Awaiting)).
    + rewrite map_size_insert, Hp. cbn. lia.
    + intros o Hin. destruct (Ho o Hin) as (p & Hp' & Hc). exists p. split; [|done].
      rewrite lookup_insert_ne; [done|]. congruence.
    + done.
    + intros o Hin. destruct (Ht o Hin) as [Hreg Hst]. split; [set_solver|].
      rewrite lookup_insert_ne; [done|]. intros ->. done.
    + intros id' [p [[<- _]|[_ Hp']]%lookup_insert_Some]; [set_solver|]. apply elem_of_union. right. eauto.
  - apply register_Err in E as ->. destruct Hinv as [Hi Hb Ho Hn Ht Hr]. split; [done..| |].
    + intros o Hin. destruct (Ht o Hin). split; [set_solver|done].
    + intros id' Hp. apply elem_of_union. right. by apply Hr.
Qed.

(** A new status for a pending interaction that nothing is queued for. *)
Lemma approvals_inv_update s registered taken id p status :
  approvals_inv s registered taken → pending s !! id = Some p → status ≠ Pending_Awaiting →
  (id ∉ outbound_interaction_id <$> outbound s) →
  approvals_inv (MkApprovals (<[id := set_approval_status status p]> (pending s)) (by_request s) (outbound s))
    registered taken.
Proof.
  intros [Hi Hb Ho Hn Ht Hr] Hp Hst Hq. split; simpl; [by apply index_ok_update| | |done| |].
  - by rewrite map_size_insert, Hp.
  - intros o Hin. rewrite lookup_insert_ne; [by apply Ho|]. intros ->. by apply Hq, list_elem_of_fmap_2.
  - intros o Hin. destruct (Ht o Hin) as [Hreg Hs]. split; [done|].
    intros p' [[_ <-]|[_ Hp']]%lookup_insert_Some; [done|by apply Hs].
  - intros id' [p' [[<- _]|[_ Hp']]%lookup_insert_Some]; eauto.
Qed.

(** [claim] *)
Definition claimed response p value s : ApprovalRuntimeState :=
  MkApprovals (<[response_request_id response := set_approval_status (Pending_Queued response) p]> (pending s))
    (by_request s)
    (outbound s ++ [MkOutbound (pending_route p) (response_request_id response) (pending_request_id p)
                      (pending_method p) value]).

Lemma queued_not_awaiting s registered taken id p :
  approvals_inv s registered taken → pending s !! id = Some p → pending_status p = Pending_Awaiting →
  id ∉ outbound_interaction_id <$> taken ++ outbound s.
Proof.
  intros Hinv Hp Hst. rewrite fmap_app. intros [Hin|Hin]%elem_of_app; apply list_elem_of_fmap in Hin as (o & -> & Hin).
  - destruct (ai_taken _ _ _ Hinv o Hin) as [_ Hne]. by apply (Hne p Hp).
  - destruct (ai_outbound _ _ _ Hinv o Hin) as (p' & Hp' & _ & _ & _ & r & Hr & _). simplify_eq. congruence.
Qed.

(** What is queued is pending, each once. *)
Lemma outbound_pending s registered taken :
  approvals_inv s registered taken →
  NoDup (outbound_interaction_id <$> outbound s) ∧
  list_to_set (outbound_interaction_id <$> outbound s) ⊆ dom (pending s).
Proof.
  intros Hinv. pose proof (ai_once _ _ _ Hinv) as Ho. rewrite fmap_app in Ho. apply NoDup_app in Ho as (_ & _ & Ho).
  split; [done|]. intros i Hi%elem_of_list_to_set. apply list_elem_of_fmap in Hi as (o & -> & Hin).
  destruct (ai_outbound _ _ _ Hinv o Hin) as (p' & Hp' & _). apply elem_of_dom. eauto.
Qed.

Lemma outbound_bounded s registered taken :
  approvals_inv s registered taken → length (outbound s) ≤ size (pending s).
Proof.
  intros Hinv. destruct (outbound_pending _ _ _ Hinv) as [Hnd Hsub].
  rewrite <-(length_fmap outbound_interaction_id), <-(size_list_to_set (C := gset InteractionId)) by done.
  rewrite <-(size_dom (D := gset InteractionId) (pending s)). by apply subseteq_size.
Qed.

(** There is room for the response to an interaction that waits for one. *)
Lemma awaiting_room s registered taken id p :
  approvals_inv s registered taken → pending s !! id = Some p → pending_status p = Pending_Awaiting →
  length (outbound s) < MAX_PENDING_APPROVALS.
Proof.
  intros Hinv Hp Hst. pose proof (queued_not_awaiting _ _ _ _ _ Hinv Hp Hst) as Hnot.
  rewrite fmap_app in Hnot. apply not_elem_of_app in Hnot as [_ Hnot].
  destruct (outbound_pending _ _ _ Hinv) as [Hnd Hsub].
  rewrite <-(length_fmap outbound_interaction_id), <-(size_list_to_set (C := gset InteractionId)) by done.
  apply Nat.lt_le_trans with (size (dom (pending s))); [|rewrite size_dom; apply Hinv].
  apply subset_size. split; [done|]. intros Hsup. apply Hnot.
  apply (elem_of_list_to_set (C := gset InteractionId)), Hsup, elem_of_dom. eauto.
Qed.

Lemma claim_Ok response s s' :
  claim response s = (s', Ok ()) → ∃ p value,
    pending s !! response_request_id response = Some p ∧ pending_status p = Pending_Awaiting ∧
    response_session_id response = pending_session_id p ∧
    response_value (pending_mapping p) (response_request_id response) (response_payload response) = Ok value ∧
    s' = claimed response p value s.
Proof.
  unfold claim, gets, mbind, act_bind, lift. destruct (pending s !! _) as [p|] eqn:Hp; [|done]. cbn [ok_or negb].
  destruct (bool_decide_reflect (response_session_id response = pending_session_id p)); [|done]. cbn [ok_or negb].
  destruct (pending_status p) eqn:Hst; try done.
  destruct (response_value _ _ _) as [value|err] eqn:Hv; [|by intros [=]].
  destruct (MAX_PENDING_APPROVALS <=? length (outbound s))%nat; [by intros [=]|]. intros [= <-].
  exists p, value. by repeat split.
Qed.

Lemma claim_Err response s s' e : claim response s = (s', Err e) → s' = s.
Proof.
  unfold claim, gets, mbind, act_bind, lift. destruct (pending s !! _) as [p|]; [|by intros [=]]. cbn [ok_or negb].
  destruct (bool_decide _); [|by intros [=]]. cbn [ok_or negb]. destruct (pending_status p); try by intros [=].
  destruct (response_value _ _ _); [|by intros [=]].
  destruct (MAX_PENDING_APPROVALS <=? length (outbound s))%nat; by intros [=].
Qed.

Lemma claim_inv response s registered taken :
  approvals_inv s registered taken → approvals_inv (claim response s).1 registered taken.
Proof.
  intros Hinv. destruct (claim response s) as [s' [[]|e]] eqn:E; simpl; [|by apply claim_Err in E as ->].
  apply claim_Ok in E as (p & value & Hp & Hst & Hsid & Hv & ->).
  pose proof (queued_not_awaiting _ _ _ _ _ Hinv Hp Hst) as Hnot.
  rewrite fmap_app in Hnot. pose proof Hnot as [_ Hnot']%not_elem_of_app.
  destruct (approvals_inv_update _ _ _ _ _ (Pending_Queued response) Hinv Hp ltac:(done) Hnot')
    as [Hi Hb Ho Hn Ht Hr].
  split; simpl in *; try done.
  - intros o [Hin|Hin]%elem_of_app; [by apply Ho|]. apply list_elem_of_singleton in Hin as ->. simpl.
    rewrite lookup_insert_eq. eexists. split; [done|]. repeat split; simpl. by exists response.
  - rewrite app_assoc, fmap_app, NoDup_app. split; [done|]. split; [|apply NoDup_singleton].
    intros id Hin Heq. apply list_elem_of_singleton in Heq as ->. simpl in Hin. by rewrite fmap_app in Hin.
Qed.

(** Claiming succeeds on what waits and translates: the queue is never full. *)
Lemma claim_complete response s registered taken p value :
  approvals_inv s registered taken → pending s !! response_request_id response = Some p →
  pending_status p = Pending_Awaiting → response_session_id response = pending_session_id p →
  response_value (pending_mapping p) (response_request_id response) (response_payload response) = Ok value →
  claim response s = (claimed response p value s, Ok ()).
Proof.
  intros Hinv Hp Hst Hsid Hv. unfold claim, gets, mbind, act_bind, lift. rewrite Hp. cbn [ok_or].
  rewrite bool_decide_true by done. cbn [negb]. rewrite Hst, Hv.
  pose proof (awaiting_room _ _ _ _ _ Hinv Hp Hst).
  destruct (Nat.leb_spec MAX_PENDING_APPROVALS (length (outbound s))); [lia|done].
Qed.

Lemma form_answers_value_errors question_ids option_values allows_text answers entries err :
  form_answers_value question_ids option_values allows_text answers entries = Err err →
  err = Port_UnsupportedInteractionResponse.
Proof.
  revert entries. induction answers as [|a answers IH]; intros entries; cbn [form_answers_value]; [done|].
  destruct (question_ids !! answer_field_id a); simpl; [|by intros [=]].
  destruct (answer_value a) as [option_id|text]; simpl.
  - destruct (option_values !! option_id); simpl; [apply IH|by intros [=]].
  - destruct (default false _); simpl; [apply IH|by intros [=]].
Qed.

(** The queue is never found full. *)
Lemma claim_never_full response s registered taken n :
  approvals_inv s registered taken → (claim response s).2 ≠ Err (Port_OutboundQueueFull n).
Proof.
  intros Hinv. unfold claim, gets, mbind, act_bind, lift.
  destruct (pending s !! _) as [p|] eqn:Hp; [|done]. cbn [ok_or].
  destruct (bool_decide _); [|done]. cbn [negb]. destruct (pending_status p) eqn:Hst; try done.
  destruct (response_value _ _ _) as [value|err] eqn:Hv.
  - pose proof (awaiting_room _ _ _ _ _ Hinv Hp Hst).
    destruct (Nat.leb_spec MAX_PENDING_APPROVALS (length (outbound s))); [lia|done].
  - intros [= ->]. unfold response_value in Hv.
    destruct (pending_mapping p) as [decisions|qs os ts], (response_payload response); try done.
    + by destruct (decisions !! _).
    + destruct (form_answers_value _ _ _ _ _) eqn:Hf; [done|]. simpl in Hv.
      apply form_answers_value_errors in Hf. congruence.
Qed.

(** [pop_outbound_for]: the oldest response of the route. *)
Lemma pop_first_Some route q o rest :
  pop_first route q = Some (o, rest) →
  outbound_route o = route ∧
  ∃ before after, q = before ++ o :: after ∧ rest = before ++ after ∧
    Forall (λ b, outbound_route b ≠ route) before.
Proof.
  revert rest. induction q as [|b q IH]; intros rest; simpl; [done|]. case_bool_decide as Hb.
  - intros [= <- <-]. split; [done|]. exists [], q. auto.
  - destruct (pop_first route q) as [[found rest']|]; [|done]. simpl. intros [= <- <-].
    destruct (IH rest' eq_refl) as (Hr & before & after & -> & -> & Hall). split; [done|].
    exists (b :: before), after. auto.
Qed.

Lemma pop_first_None route q : pop_first route q = None → Forall (λ b, outbound_route b ≠ route) q.
Proof.
  induction q as [|b q IH]; simpl; [done|]. case_bool_decide as Hb; [done|].
  destruct (pop_first route q) as [[found rest]|]; [done|]. auto.
Qed.

Lemma pop_inv route s s' o registered taken :
  approvals_inv s registered taken → pop_outbound_for route s = (s', Some o) →
  approvals_inv s' registered (taken ++ [o]) ∧ outbound_route o = route ∧
  ∃ p, pending s !! outbound_interaction_id o = Some p ∧ carries o p.
Proof.
  intros [Hi Hb Ho Hn Ht Hr]. unfold pop_outbound_for.
  destruct (pop_first route (outbound s)) as [[o' rest]|] eqn:E; [|done]. intros [= <- ->].
  apply pop_first_Some in E as (Hroute & before & after & Hq & -> & _).
  assert (o ∈ outbound s) as Hin by (rewrite Hq; set_solver).
  pose proof (Ho o Hin) as Hlive. split; [|done]. split; simpl; try done.
  - intros o' Ho'. apply Ho. rewrite Hq. set_solver.
  - rewrite Hq in Hn. rewrite <-app_assoc. simpl. by rewrite (Permutation_middle before after o).
  - intros o' [Ho'|Ho']%elem_of_app; [by apply Ht|]. apply list_elem_of_singleton in Ho' as ->.
    destruct Hlive as (p & Hp & _ & _ & _ & r & Hst & _). split; [apply Hr; eauto|].
    intros p' Hp'. simplify_eq. by rewrite Hst.
Qed.

(** [mark_sent], after the response was taken and written. *)
Lemma mark_sent_Ok id s s' :
  mark_sent id s = (s', Ok ()) → ∃ p response status,
    pending s !! id = Some p ∧ pending_status p = Pending_Queued response ∧
    (status = Pending_SentApproval response ∧ (∃ a, response_payload response = Response_Approval a) ∨
     status = Pending_SentForm ∧ (∃ f, response_payload response = Response_Form f)) ∧
    s' = MkApprovals (<[id := set_approval_status status p]> (pending s)) (by_request s) (outbound s).
Proof.
  unfold mark_sent, gets, mbind, act_bind, lift. destruct (pending s !! id) as [p|] eqn:Hp; [|done].
  cbn [ok_or]. destruct (pending_status p) as [|response| |] eqn:Hst; try done.
  destruct (response_payload response) eqn:Hpl; try done; intros [= <-];
    exists p, response; eexists; (split; [done|]; split; [done|]; split; [eauto|reflexivity]).
Qed.

Lemma mark_sent_Err id s s' e : mark_sent id s = (s', Err e) → s' = s.
Proof.
  unfold mark_sent, gets, mbind, act_bind, lift. destruct (pending s !! id) as [p|]; [|by intros [=]].
  cbn [ok_or]. destruct (pending_status p) as [|response| |]; try by intros [=].
  destruct (response_payload response); by intros [=].
Qed.

Lemma mark_sent_inv o s registered taken :
  approvals_inv s registered taken → o ∈ taken →
  approvals_inv (mark_sent (outbound_interaction_id o) s).1 registered taken.
Proof.
  intros Hinv Hin. destruct (mark_sent _ s) as [s' [[]|e]] eqn:E; simpl; [|by apply mark_sent_Err in E as ->].
  apply mark_sent_Ok in E as (p & response & status & Hp & Hq & Hst & ->).
  apply approvals_inv_update; [done..| |].
  - by destruct Hst as [[-> _]|[-> _]].
  - pose proof (ai_once _ _ _ Hinv) as Hn. rewrite fmap_app in Hn. apply NoDup_app in Hn as (_ & Hdis & _).
    by apply Hdis, list_elem_of_fmap_2.
Qed.

(** [resolve] *)
Definition resolution (id : InteractionId) p : ResolvedApproval :=
  match pending_status p with
  | Pending_SentApproval response => Resolved_Responded (pending_thread_id p) response
  | Pending_SentForm => Resolved_RespondedForm (pending_thread_id p) (pending_session_id p) id
  | Pending_Awaiting | Pending_Queued _ => Resolved_Closed (pending_thread_id p) (pending_session_id p) id
  end.

Lemma resolve_spec route id thread_id s registered taken :
  approvals_inv s registered taken →
  match by_request s !! (route, id) with
  | None => resolve route id thread_id s = (s, Ok None)
  | Some iid => ∃ p, pending s !! iid = Some p ∧ pending_route p = route ∧ pending_request_id p = id ∧
      if bool_decide (pending_thread_id p = thread_id)
      then resolve route id thread_id s
           = (MkApprovals (delete iid (pending s)) (delete (route, id) (by_request s)) (without iid (outbound s)),
              Ok (Some (resolution iid p)))
      else ∃ e, resolve route id thread_id s = (s, Err e)
  end.
Proof.
  intros Hinv. unfold resolve, gets, mbind, act_bind, lift.
  destruct (by_request s !! (route, id)) as [iid|] eqn:Hk; [|done].
  destruct (ix_sound _ _ (ai_index _ _ _ Hinv) _ _ Hk) as (p & Hp & [= -> ->]). exists p.
  do 3 (split; [done|]). rewrite Hp. cbn [ok_or].
  destruct (bool_decide_reflect (pending_thread_id p = thread_id)); cbn [negb]; [done|by eexists].
Qed.

Lemma resolve_inv route id thread_id s registered taken :
  approvals_inv s registered taken → approvals_inv (resolve route id thread_id s).1 registered taken.
Proof.
  intros Hinv. pose proof (resolve_spec route id thread_id _ _ _ Hinv) as Hres.
  destruct (by_request s !! (route, id)) as [iid|]; [|by rewrite Hres].
  destruct Hres as (p & Hp & <- & <- & Hres). destruct (bool_decide _).
  - rewrite Hres. by apply approvals_inv_delete.
  - by destruct Hres as [e ->].
Qed.

(** [close_matching]: exactly the matching interactions go, with their responses. *)
Lemma close_ids_spec ids s :
  NoDup ids → (∀ id, id ∈ ids → is_Some (pending s !! id)) → index_ok (pending s) (by_request s) →
  let '(s', closed) := close_ids ids s in
  closed_interaction_id <$> closed = ids ∧
  (∀ id, pending s' !! id = if bool_decide (id ∈ ids) then None else pending s !! id) ∧
  index_ok (pending s') (by_request s') ∧ outbound s' = outbound s ∧
  Forall (λ c, ∃ p, pending s !! closed_interaction_id c = Some p ∧
    closed_thread_id c = pending_thread_id p ∧ closed_approval_session_id c = pending_session_id p) closed.
Proof.
  revert s. induction ids as [|id ids IH]; intros s Hnd Hids Hix; cbn [close_ids].
  { split_and!; try done. }
  apply NoDup_cons in Hnd as [Hnot Hnd]. destruct (Hids id) as [p Hp]; [left|]. rewrite Hp.
  set (s1 := MkApprovals _ _ _). specialize (IH s1 Hnd). destruct (close_ids ids s1) as [s' closed].
  destruct IH as (Hids' & Hpd & Hix' & Hout & Hall).
  { intros id' Hin. unfold s1. simpl. rewrite lookup_delete_ne by congruence. apply Hids. by right. }
  { by apply index_ok_delete. }
  split_and!; [by simpl; f_equal| |done|done|].
  - intros id'. rewrite Hpd. unfold s1. simpl. destruct (decide (id' = id)) as [->|Hne].
    + rewrite (bool_decide_true (id ∈ id :: ids)) by left. rewrite lookup_delete_eq. by destruct (bool_decide _).
    + rewrite lookup_delete_ne by done. rewrite (bool_decide_ext (id' ∈ id :: ids) (id' ∈ ids)); [done|].
      rewrite elem_of_cons. naive_solver.
  - constructor; [by exists p|]. eapply Forall_impl; [exact Hall|]. intros c (p' & Hp' & ? & ?). exists p'.
    split; [|done]. unfold s1 in Hp'. simpl in Hp'. by apply lookup_delete_Some in Hp' as [_ ?].
Qed.

Lemma close_matching_spec matches s s' closed registered taken :
  approvals_inv s registered taken → close_matching matches s = (s', closed) →
  (∀ id, pending s' !! id = (p ← pending s !! id; if matches p then None else Some p)) ∧
  (∀ id, id ∈ closed_interaction_id <$> closed ↔ ∃ p, pending s !! id = Some p ∧ matches p = true) ∧
  NoDup (closed_interaction_id <$> closed) ∧
  Forall (λ c, ∃ p, pending s !! closed_interaction_id c = Some p ∧
    closed_thread_id c = pending_thread_id p ∧ closed_approval_session_id c = pending_session_id p) closed ∧
  approvals_inv s' registered taken.
Proof.
  intros Hinv. unfold close_matching. set (ids := List.filter _ _).
  assert (∀ id, id ∈ ids ↔ ∃ p, pending s !! id = Some p ∧ matches p = true) as Hids.
  { intros id. unfold ids. unfold btree_keys.
    rewrite list_elem_of_In, filter_In, <-list_elem_of_In, elem_of_btree_elements, elem_of_dom.
    destruct (pending s !! id) as [p|]; simpl; naive_solver. }
  assert (NoDup ids) as Hnd.
  { unfold ids. apply NoDup_ListNoDup, List.NoDup_filter, NoDup_ListNoDup, NoDup_btree_elements. }
  pose proof (close_ids_spec ids s Hnd) as Hspec. destruct (close_ids ids s) as [s1 closed1].
  destruct Hspec as (Hcl & Hpd & Hix & Hout & Hall); [|apply Hinv|].
  { intros id (p & Hp & _)%Hids. eauto. }
  intros [= <- <-]. rewrite Hcl. simpl.
  assert (∀ id, pending s1 !! id = (p ← pending s !! id; if matches p then None else Some p)) as Hpd'.
  { intros id. rewrite Hpd. case_bool_decide as Hin.
    - apply Hids in Hin as (p & -> & Hm). simpl. by rewrite Hm.
    - destruct (pending s !! id) as [p|] eqn:Hp; [|done]. simpl.
      destruct (matches p) eqn:Hm; [|done]. destruct Hin. apply Hids. eauto. }
  split_and!; [done..|]. apply (approvals_inv_shrink s); [done..| | |].
  - apply map_subseteq_spec. intros id p. rewrite Hpd. by case_bool_decide.
  - rewrite Hout. apply sublist_filter.
  - intros o [Hne Hin]%list_elem_of_filter. rewrite Hpd, bool_decide_false by done.
    rewrite Hout in Hin. destruct (ai_outbound _ _ _ Hinv o Hin) as (p & Hp & _). eauto.
Qed.
End approvals.
