(* ===== verification/CodexInteractions.v ===== *)
(** * Interactions of the Codex provider

    Models the parts of [agentpulse-providers/codex/src/runtime.rs] that turn
    Codex's requests into interactions and carry the responses back
    ([process_approval_request] to [publish_closed]), the choices the host asks
    itself ([local_interaction.rs]) and the interaction half of the port the
    bridge calls ([port.rs]). They compose the event mapper, the approval state
    and the protocol engine. *)

From stdpp Require Import base strings numbers sorting gmap list.
From S2P Require Import Prelude Bytes Json Values Snapshots Capability Interaction Event.
From S2P Require Import CodexMapper CodexProtocol CodexApproval.

(** The connection to the app server: a write succeeds or fails. *)
Class AppServerIo (I : Type) : Type := {
  write_text : rstring → I → I * result CodexProviderSourceError unit
}.

Section local.
Context `{Externals} `{!ApprovalDraws}.

(** ** Choices of the host (local_interaction.rs) *)

Inductive LocalAction : Type :=
| Local_Implement
| Local_Revise
| Local_Model (model : Value)
| Local_SelectModel (model : rstring) (effort : option rstring)
| Local_Models
| Local_Cancel.

Record LocalChoice : Type := MkLocalChoice {
  local_request : InteractionRequest;
  local_thread_id : rstring;
  local_plan : bool;
  local_actions : gmap ChoiceOptionId LocalAction;
  local_claimed : bool
}.

Abbreviation preparing A := (act nat CodexProviderSourceError A).

Fixpoint local_options (options : list (rstring * option rstring * LocalAction)) (choices : list ChoiceOption)
    (actions : gmap ChoiceOptionId LocalAction) : preparing (list ChoiceOption * gmap ChoiceOptionId LocalAction) :=
  match options with
  | [] => mret (choices, actions)
  | (label, description, action) :: options' =>
      id ← draw fresh_choice_option_id;
      label ← lift (text_new label);
      let choice := ChoiceOption_new id label in
      choice ← match description with
               | Some text =>
                   if is_empty (trim text) then mret choice
                   else text ← lift (text_new text); mret (choice_with_description choice text)
               | None => mret choice
               end;
      local_options options' (choices ++ [choice]) (<[id := action]> actions)
  end.

Definition LocalChoice_new (sid : SessionId) (thread_id title prompt : rstring) (plan : bool)
    (options : list (rstring * option rstring * LocalAction)) : preparing LocalChoice :=
  '(choices, actions) ← local_options options [] ∅;
  field_id ← draw fresh_form_field_id;
  header ← lift (text_new title);
  prompt ← lift (text_new prompt);
  field ← lift (source_domain (FormField_new field_id header prompt choices false false));
  id ← draw fresh_interaction_id;
  now ← draw approval_now_utc;
  title ← lift (text_new title);
  form ← lift (source_domain (FormRequest_new [field] plan));
  mret (MkLocalChoice (InteractionRequest_new id sid now title (Request_Form form)) thread_id plan actions false).

Record LocalInteractions : Type := MkLocal {
  local_pending : gmap InteractionId LocalChoice;
  local_responses : list (InteractionResponse * LocalAction)
}.

Definition local_claim (response : InteractionResponse) : act LocalInteractions CodexProviderPortError unit :=
  s ← gets (λ s, s);
  let id := response_request_id response in
  choice ← lift (ok_or (Port_InteractionNotPending id) (local_pending s !! id));
  if local_claimed choice then throw (Port_InteractionAlreadyClaimed id)
  else
    _ ← lift (map_err (λ _, Port_UnsupportedInteractionResponse)
                (validate_response (local_request choice) response));
    action ← lift (match response_payload response with
      | Response_Form form =>
          match form_answers form with
          | [] => Err Port_UnsupportedInteractionResponse
          | answer :: _ =>
              match answer_value answer with
              | Answer_Choice option =>
                  ok_or Port_UnsupportedInteractionResponse (local_actions choice !! option)
              | Answer_Text _ => Err Port_UnsupportedInteractionResponse
              end
          end
      | _ => Err Port_UnsupportedInteractionResponse
      end);
    modify (λ s, MkLocal
      (<[id := MkLocalChoice (local_request choice) (local_thread_id choice) (local_plan choice)
                 (local_actions choice) true]> (local_pending s))
      (local_responses s ++ [(response, action)])).
End local.

(** ** The provider *)

Section provider.
Context `{Externals} {S I : Type} `{!EventSink S} `{!Draws} `{!ApprovalDraws} `{!CodexLibrary} `{!AppServerIo I}.

(** What the runtime's threads share; [registered], [taken] and [written] record
    the interactions that were registered, the responses taken from the queue
    and those of them that were written. *)
Record ProviderWorld : Type := MkProvider {
  world : MapperWorld S;
  approvals : ApprovalRuntimeState;
  local : LocalInteractions;
  approval_draws : nat;
  validated_frames : N;
  rejected_server_requests : N;
  validated_unmapped_frames : N;
  io : I;
  registered : gset InteractionId;
  taken : list OutboundApproval;
  written : list OutboundApproval
}.

Abbreviation providing A := (act ProviderWorld CodexProviderSourceError A).

Definition set_world v (w : ProviderWorld) : ProviderWorld :=
  MkProvider v (approvals w) (local w) (approval_draws w) (validated_frames w) (rejected_server_requests w)
    (validated_unmapped_frames w) (io w) (registered w) (taken w) (written w).
Definition set_approvals v (w : ProviderWorld) : ProviderWorld :=
  MkProvider (world w) v (local w) (approval_draws w) (validated_frames w) (rejected_server_requests w)
    (validated_unmapped_frames w) (io w) (registered w) (taken w) (written w).
Definition set_local v (w : ProviderWorld) : ProviderWorld :=
  MkProvider (world w) (approvals w) v (approval_draws w) (validated_frames w) (rejected_server_requests w)
    (validated_unmapped_frames w) (io w) (registered w) (taken w) (written w).
Definition set_approval_draws v (w : ProviderWorld) : ProviderWorld :=
  MkProvider (world w) (approvals w) (local w) v (validated_frames w) (rejected_server_requests w)
    (validated_unmapped_frames w) (io w) (registered w) (taken w) (written w).
Definition set_provider_counters validated rejected unmapped (w : ProviderWorld) : ProviderWorld :=
  MkProvider (world w) (approvals w) (local w) (approval_draws w) validated rejected unmapped (io w) (registered w)
    (taken w) (written w).
Definition set_io v (w : ProviderWorld) : ProviderWorld :=
  MkProvider (world w) (approvals w) (local w) (approval_draws w) (validated_frames w) (rejected_server_requests w)
    (validated_unmapped_frames w) v (registered w) (taken w) (written w).
Definition set_trace ids responses sent (w : ProviderWorld) : ProviderWorld :=
  MkProvider (world w) (approvals w) (local w) (approval_draws w) (validated_frames w) (rejected_server_requests w)
    (validated_unmapped_frames w) (io w) ids responses sent.

Definition count_rejected (w : ProviderWorld) : ProviderWorld :=
  set_provider_counters (validated_frames w) (rejected_server_requests w + 1) (validated_unmapped_frames w) w.
Definition count_unmapped (w : ProviderWorld) : ProviderWorld :=
  set_provider_counters (validated_frames w) (rejected_server_requests w) (validated_unmapped_frames w + 1) w.
Definition count_validated (w : ProviderWorld) : ProviderWorld :=
  set_provider_counters (validated_frames w + 1) (rejected_server_requests w) (validated_unmapped_frames w) w.

(** Running a component on its part of the state, under its lock. *)
Definition on_mapper {A} (a : act (MapperWorld S) CodexProviderSourceError A) : providing A := λ w,
  let '(m, r) := a (world w) in (set_world m w, r).
Definition on_approvals {A} (a : act ApprovalRuntimeState CodexProviderSourceError A) : providing A := λ w,
  let '(s, r) := a (approvals w) in (set_approvals s w, r).
Definition on_prepare {A} (a : act nat CodexProviderSourceError A) : providing A := λ w,
  let '(n, r) := a (approval_draws w) in (set_approval_draws n w, r).
Definition on_io (text : rstring) : providing unit := λ w,
  let '(c, r) := write_text text (io w) in (set_io c w, r).

Definition protocol_string (value : Value) (field : string) : result CodexProviderSourceError rstring :=
  string_field value field.

Definition is_interaction_method (method : rstring) : bool :=
  bool_decide (method = lit "item/commandExecution/requestApproval")
  || bool_decide (method = lit "item/fileChange/requestApproval")
  || bool_decide (method = lit "item/tool/requestUserInput").

(** The registration of a prepared request. *)
Definition register_prepared (route : ApprovalRoute) (id : RequestId) (method : rstring)
    (prepared : PreparedApproval) : providing unit :=
  _ ← modify (λ w, set_trace ({[request_id (prepared_request prepared)]} ∪ registered w) (taken w) (written w) w);
  on_approvals (register route id method prepared).

(** The publication of a registered request; it is forgotten if that fails. *)
Definition publish_prepared (prepared : PreparedApproval) : providing unit := λ w,
  let '(w, publish) := on_mapper (publish_payload (prepared_thread_id prepared)
    (request_requested_at (prepared_request prepared)) (InteractionRequested (prepared_request prepared))) w in
  match publish with
  | Ok _ => (w, publish)
  | Err _ => (set_approvals (remove (request_id (prepared_request prepared)) (approvals w)) w, publish)
  end.

Definition reject_request (has_io : bool) (id : RequestId) (method : rstring) : providing unit :=
  _ ← (if has_io then text ← lift (unsupported_request_response id method); on_io text else mret ());
  modify count_rejected.

(** [has_io]: a proxied request is answered by the client in front of it. *)
Definition process_approval_request (has_io : bool) (route : ApprovalRoute) (id : RequestId) (method : rstring)
    (params : Value) : providing unit :=
  thread_id ← lift (protocol_string params "threadId");
  turn_id ← lift (protocol_string params "turnId");
  item_id ← lift (protocol_string params "itemId");
  context ← on_mapper (approval_context thread_id turn_id item_id);
  match context with
  | None => reject_request has_io id method
  | Some (sid, item) =>
      prepared ← on_prepare (if bool_decide (method = lit "item/tool/requestUserInput")
                             then prepare_user_input params sid else prepare_approval method params item sid);
      _ ← register_prepared route id method prepared;
      publish_prepared prepared
  end.

(** One round of the loop of [flush_approval_responses]; [false]: nothing left. *)
Definition flush_one (route : ApprovalRoute) : providing bool :=
  w ← gets (λ w, w);
  let '(s, popped) := pop_outbound_for route (approvals w) in
  match popped with
  | None => mret false
  | Some o =>
      _ ← modify (λ w, set_trace (registered w) (taken w ++ [o]) (written w) (set_approvals s w));
      text ← lift (interaction_response (outbound_request_id o) (outbound_method o) (outbound_result o));
      _ ← on_io text;
      _ ← modify (λ w, set_trace (registered w) (taken w) (written w ++ [o]) w);
      _ ← on_approvals (mark_sent (outbound_interaction_id o));
      mret true
  end.

(** The loop; [None] when the fuel runs out. *)
Fixpoint flush_loop (fuel : nat) (route : ApprovalRoute) (w : ProviderWorld) :
    option (ProviderWorld * result CodexProviderSourceError unit) :=
  match fuel with
  | O => None
  | Datatypes.S fuel' =>
      match flush_one route w with
      | (w', Ok true) => flush_loop fuel' route w'
      | (w', Ok false) => Some (w', Ok ())
      | (w', Err e) => Some (w', Err e)
      end
  end.

Definition flush_approval_responses (route : ApprovalRoute) (w : ProviderWorld) :
    option (ProviderWorld * result CodexProviderSourceError unit) :=
  flush_loop (Datatypes.S (length (outbound (approvals w)))) route w.

Definition publish_closed (closed : ClosedApproval) (reason : InteractionCloseReason) : providing unit :=
  on_mapper (publish_now (closed_thread_id closed) (InteractionClosedPayload
    (MkInteractionClosed (closed_interaction_id closed) (closed_approval_session_id closed) reason))).

Definition process_resolved_notification (params : Value) (route : ApprovalRoute) : providing unit :=
  thread_id ← lift (protocol_string params "threadId");
  id ← lift (ok_or (source_protocol "requestId is required") (get "requestId" params));
  id ← lift (RequestId_from_value id);
  resolved ← on_approvals (resolve route id thread_id);
  match resolved with
  | Some (Resolved_Responded thread_id response) =>
      on_mapper (publish_payload thread_id (response_responded_at response) (InteractionResponded response))
  | Some (Resolved_Closed thread_id sid id) | Some (Resolved_RespondedForm thread_id sid id) =>
      publish_closed (MkClosed thread_id sid id) ResolvedElsewhere
  | None => modify count_unmapped
  end.

(** [for closed in closed { publish_closed(..)?; }] *)
Fixpoint publish_each_closed (closed : list ClosedApproval) : providing unit :=
  match closed with
  | [] => mret ()
  | c :: closed' => _ ← publish_closed c ProviderCancelled; publish_each_closed closed'
  end.

(** [for closed in closed { let _ = publish_closed(..); }] *)
Definition publish_all_closed (closed : list ClosedApproval) (w : ProviderWorld) : ProviderWorld :=
  foldl (λ w c, (publish_closed c ProviderCancelled w).1) w closed.

Definition closing (f : ApprovalRuntimeState → ApprovalRuntimeState * list ClosedApproval) :
    providing (list ClosedApproval) :=
  on_approvals (λ s, let '(s', closed) := f s in (s', Ok closed)).

Definition close_approvals_for_lifecycle (method : rstring) (params : Value) : providing unit :=
  closed ← (
    if bool_decide (method = lit "item/completed") then
      thread_id ← lift (protocol_string params "threadId");
      turn_id ← lift (protocol_string params "turnId");
      item_id ← lift (ok_or (source_protocol "item.id must be a string") (get_str_in "item" "id" params));
      closing (close_item thread_id turn_id item_id)
    else if bool_decide (method = lit "turn/completed") then
      thread_id ← lift (protocol_string params "threadId");
      turn_id ← lift (ok_or (source_protocol "turn.id must be a string") (get_str_in "turn" "id" params));
      closing (close_turn thread_id turn_id)
    else if bool_decide (method = lit "thread/closed") then
      thread_id ← lift (protocol_string params "threadId");
      closing (close_thread thread_id)
    else if bool_decide (method = lit "thread/status/changed")
         && bool_decide (get_str_in "status" "type" params = Some (lit "notLoaded")) then
      thread_id ← lift (protocol_string params "threadId");
      closing (close_thread thread_id)
    else mret []);
  publish_each_closed closed.

Definition close_all_approvals (w : ProviderWorld) : ProviderWorld :=
  let '(s, closed) := close_all (approvals w) in publish_all_closed closed (set_approvals s w).

(** The end of a proxy connection. *)
Definition close_route_approvals (route : ApprovalRoute) (w : ProviderWorld) : ProviderWorld :=
  let '(s, closed) := close_route route (approvals w) in publish_all_closed closed (set_approvals s w).

(** The notifications and requests of [process_live_frame]. *)
Definition process_live_notification (route : ApprovalRoute) (method : rstring) (params : Value) : providing unit :=
  if bool_decide (method = lit "serverRequest/resolved") then process_resolved_notification params route
  else
    _ ← close_approvals_for_lifecycle method params;
    disposition ← on_mapper (notification method params);
    match disposition with ValidatedUnmapped => modify count_unmapped | Mapped => mret () end.

Definition process_live_request (route : ApprovalRoute) (id : RequestId) (method : rstring) (params : Value) :
    providing unit :=
  if is_interaction_method method then process_approval_request true route id method params
  else
    text ← lift (unsupported_request_response id method);
    _ ← on_io text;
    modify count_rejected.

(** The server's half of a proxied connection. *)
Definition observe_proxy_server_text (route : ApprovalRoute) (text : rstring) : providing unit :=
  frame ← lift (parse_observed_server_text text);
  _ ← modify count_validated;
  match frame with
  | Observed_Notification method params => process_live_notification route method params
  | Observed_Request id method params =>
      if is_interaction_method method then process_approval_request false route id method params
      else modify count_unmapped
  | PassThrough => mret ()
  end.

(** The port (port.rs). *)
Definition accept_interaction_response (response : InteractionResponse) : act ProviderWorld CodexProviderPortError unit :=
  λ w,
  if bool_decide (is_Some (local_pending (local w) !! response_request_id response))
  then let '(l, r) := local_claim response (local w) in (set_local l w, r)
  else let '(s, r) := claim response (approvals w) in (set_approvals s w, r).
End provider.
