(* ===== verification/CodexInteractionsSpec.v ===== *)
(** * Correctness of the Codex provider's interactions

    Requests, responses and their ends keep the mapper and the approval state
    consistent; what is pending was announced, and what is reported as answered
    was written to Codex as its answer was given. *)

From stdpp Require Import base strings numbers sorting gmap list.
From S2P Require Import Prelude Bytes Json Values Snapshots Capability Interaction Event Aggregate AggregateSpec.
From S2P Require Import CodexMapper CodexMapperSpec CodexProtocol CodexApproval CodexApprovalSpec CodexInteractions.

(** ** Choices of the host *)

Section local.
Context `{Externals} `{!ApprovalDraws} `{!ApprovalDrawsOk}.

(** A shown choice stands for the option it was made from. *)
Definition offers (actions : gmap ChoiceOptionId LocalAction) (choice : ChoiceOption)
    (option : rstring * option rstring * LocalAction) : Prop :=
  raw (choice_label choice) = option.1.1 ∧ actions !! choice_option_id choice = Some option.2.

Lemma advances_local_options options choices actions : advances (local_options options choices actions).
Proof.
  revert choices actions. induction options as [|[[label description] action] options IH]; intros choices actions;
    cbn [local_options]; [apply advances_ret|].
  apply advances_bind; [apply advances_draw|intros id]. apply advances_bind; [apply advances_lift|intros text].
  cbv zeta. apply advances_bind; [|intros choice; apply IH].
  destruct description as [d|]; [|apply advances_ret]. destruct (is_empty (trim d)); [apply advances_ret|].
  apply advances_bind; [apply advances_lift|intros text'; apply advances_ret].
Qed.

Lemma local_options_ok options : ∀ before choices actions n n' choices' actions',
  Forall2 (offers actions) choices before →
  (∀ id, is_Some (actions !! id) → ∃ k, k < n ∧ id = fresh_choice_option_id k) →
  local_options options choices actions n = (n', Ok (choices', actions')) → n' ≤ draw_horizon →
  n ≤ n' ∧ Forall2 (offers actions') choices' (before ++ options).
Proof.
  induction options as [|[[label description] action] options IH]; intros dn choices actions n n' choices' actions' Hf Hd;
    cbn [local_options].
  { intros [= <- <- <-] _. by rewrite app_nil_r. }
  rewrite act_bind_Ok. intros (n1 & id & [= <- <-] & Hr). revert Hr.
  rewrite act_bind_Ok. intros (n2 & text & [= <- Ht] & Hr). revert Hr. cbv zeta.
  rewrite act_bind_Ok. intros (n3 & choice & Hc & Hr) Hn.
  assert (n3 = Datatypes.S n ∧ choice_option_id choice = fresh_choice_option_id n ∧ choice_label choice = text)
    as (-> & Hcid & Hlabel).
  { destruct description as [d|]; [|by injection Hc as <- <-]. destruct (is_empty (trim d)); [by injection Hc as <- <-|].
    apply act_bind_Ok in Hc as (? & ? & [= <- _] & [= <- <-]). done. }
  apply map_err_Ok, ok_or_Ok, of_raw_Some in Ht.
  assert (n < draw_horizon) as Hlt.
  { pose proof (advances_Ok _ _ _ _ (advances_local_options options _ _) Hr). lia. }
  assert (actions !! fresh_choice_option_id n = None) as Hnew.
  { apply eq_None_not_Some. intros (k & Hk & Heq%fresh_choice_inj)%Hd; lia. }
  apply (IH (dn ++ [(label, description, action)])) in Hr as [Hle Hall]; [|..|done].
  - rewrite <-app_assoc in Hall. split; [lia|done].
  - apply Forall2_app.
    + eapply Forall2_impl; [exact Hf|]. intros c o [Hl Ho]. split; [done|].
      rewrite lookup_insert_ne; [done|]. congruence.
    + constructor; [|constructor]. split; simpl; [by rewrite Hlabel|by rewrite Hcid, lookup_insert_eq].
  - intros id [x [[<- _]|[_ Hx]]%lookup_insert_Some]; [exists n; split; [lia|done]|].
    destruct (Hd id) as (k & Hk & ->); [eauto|]. exists k. split; [lia|done].
Qed.

Lemma LocalChoice_new_ok sid tid title prompt plan options n n' choice :
  LocalChoice_new sid tid title prompt plan options n = (n', Ok choice) → n' ≤ draw_horizon →
  local_claimed choice = false ∧ request_wf (local_request choice) ∧
  ∃ field, request_payload (local_request choice) = Request_Form (MkFormRequest [field] plan) ∧
    field_allows_other field = false ∧ Forall2 (offers (local_actions choice)) (field_options field) options.
Proof.
  unfold LocalChoice_new. rewrite act_bind_Ok. intros (n1 & [choices actions] & Ho & Hr). revert Hr.
  rewrite act_bind_Ok. intros (n2 & fid & [= <- <-] & Hr). revert Hr.
  do 2 (rewrite act_bind_Ok; intros (? & ? & [= <- _] & Hr); revert Hr).
  rewrite act_bind_Ok. intros (n5 & field & [= <- Hf] & Hr). revert Hr.
  do 2 (rewrite act_bind_Ok; intros (? & ? & [= <- _] & Hr); revert Hr).
  rewrite act_bind_Ok. intros (n8 & text & [= <- _] & Hr). revert Hr.
  rewrite act_bind_Ok. intros (n9 & form & Hform & [= <- <-]) Hn.
  pose proof (f_equal fst Hform) as Hn9. apply (f_equal snd) in Hform. cbn [fst snd lift] in Hform, Hn9. subst n9.
  apply map_err_Ok, FormField_new_Ok in Hf as [-> Hwf]. apply map_err_Ok, FormRequest_new_Ok in Hform as (-> & Hne & Hnd).
  apply (local_options_ok options []) in Ho as [_ Ho]; [|constructor|by intros id [x Hx]|lia].
  split; [done|]. split; [|by eexists]. split; [|done]. split; [done|]. split; [done|]. by constructor.
Qed.
End local.

Section provider.
Context `{Externals} {S I : Type} `{!EventSink S} `{!Draws} `{!ApprovalDraws} `{!ApprovalDrawsOk}.
Context `{!CodexLibrary} `{!AppServerIo I}.
Abbreviation World := (ProviderWorld (S := S) (I := I)).
Implicit Types (w : World) (p : PendingApproval) (o : OutboundApproval) (s : ApprovalRuntimeState).
Implicit Types (X : gset InteractionId) (e : AgentEvent).

(** ** The invariant *)

(** New events report only answers that are fine. *)
Definition adds (ok : InteractionResponse → Prop) : relation (MapperWorld S) := λ m m',
  ∃ l, committed m' = committed m ++ l ∧
    Forall (λ e, ∀ response, event_payload e = InteractionResponded response → ok response) l.
Definition reports (ok : InteractionResponse → Prop) (payload : AgentEventPayload) : Prop :=
  ∀ response, payload = InteractionResponded response → ok response.

#[local] Instance adds_preorder ok : PreOrder (adds ok).
Proof.
  split; [intros m; exists []; by rewrite app_nil_r|]. intros m1 m2 m3 (l1 & H12 & Hl1) (l2 & H23 & Hl2).
  exists (l1 ++ l2). rewrite H23, H12, app_assoc. split; [done|]. by apply Forall_app.
Qed.

Lemma adds_same ok (m m' : MapperWorld S) : committed m' = committed m → adds ok m m'.
Proof. intros Hc. exists []. by rewrite app_nil_r. Qed.

Lemma adds_publish ok e (m : MapperWorld S) : reports ok (event_payload e) → adds ok m (publish_committed e m).1.
Proof.
  intros He. destruct (publish_committed_cases e m) as [_ [[_ Hc]|[_ Hc]]]; [|by apply adds_same].
  exists [e]. split; [done|]. by repeat constructor.
Qed.

(** The conditions of [respects] hold for payloads that report nothing else. *)
Ltac reporting :=
  try apply _; try (intros ? ? _; by apply adds_same); try (intros ?; by apply adds_same);
  try (intros ? ? ? _; by apply adds_publish); try (intros ? Hplain ? ->; exact (False_ind _ Hplain)); try (by intros ? _ ? [=]); auto.

Lemma adds_notification ok method params : respects (adds ok) (notification method params).
Proof. apply (respects_notification (adds ok) (reports ok)); reporting. intros key m. by apply adds_same. Qed.
Lemma adds_publish_now ok thread_id payload :
  reports ok payload → respects (adds ok) (publish_now thread_id payload).
Proof. intros Hp. apply (respects_publish_now (adds ok) (reports ok)); reporting. Qed.
Lemma adds_publish_payload ok thread_id occurred_at payload :
  reports ok payload → respects (adds ok) (publish_payload thread_id occurred_at payload).
Proof. intros Hp. apply (respects_publish_payload (adds ok) (reports ok)); reporting. Qed.
Lemma adds_approval_context ok thread_id turn_id item_id :
  respects (adds ok) (approval_context thread_id turn_id item_id).
Proof. apply (respects_approval_context (adds ok) (reports ok)); reporting. Qed.

(** A request that was shown. *)
Definition announced (log : list AgentEvent) (prepared : PreparedApproval) : Prop :=
  prepared_ok prepared ∧ request_wf (prepared_request prepared) ∧
  ∃ e, e ∈ log ∧ event_payload e = InteractionRequested (prepared_request prepared).

(** A response whose translation was written to Codex. *)
Definition delivered (sent : list OutboundApproval) (log : list AgentEvent) (response : InteractionResponse) : Prop :=
  ∃ o prepared, o ∈ sent ∧ announced log prepared ∧
    outbound_interaction_id o = response_request_id response ∧
    request_id (prepared_request prepared) = response_request_id response ∧
    response_value (prepared_mapping prepared) (response_request_id response) (response_payload response)
    = Ok (outbound_result o).

(** The requests that came from Codex, by route, identifier, method and parameters. *)
Variable received : ApprovalRoute → RequestId → rstring → Value → Prop.

(** A pending interaction stands for a request that was prepared from the
    parameters Codex sent with its route, identifier and method. *)
Definition prepared_for p (prepared : PreparedApproval) : Prop :=
  ∃ params, received (pending_route p) (pending_request_id p) (pending_method p) params ∧ prepared_from params prepared.
Definition stands_for id p (prepared : PreparedApproval) : Prop :=
  prepared_for p prepared ∧ request_wf (prepared_request prepared) ∧ request_id (prepared_request prepared) = id ∧
  request_session_id (prepared_request prepared) = pending_session_id p ∧
  prepared_mapping prepared = pending_mapping p.

(** [X]: the interactions that are registered and about to be announced. *)
Record provider_inv X w : Prop := {
  pi_mapper : mapper_inv (world w);
  pi_approvals : approvals_inv (approvals w) (registered w) (taken w);
  pi_drawn : ∀ id, id ∈ registered w → ∃ k, k < approval_draws w ∧ id = fresh_interaction_id k;
  pi_prepared : ∀ id p, pending (approvals w) !! id = Some p → ∃ prepared,
    stands_for id p prepared ∧ (id ∉ X → announced (committed (world w)) prepared);
  pi_sent : ∀ id p response, pending (approvals w) !! id = Some p → pending_status p = Pending_SentApproval response →
    response_request_id response = id ∧ response_session_id response = pending_session_id p ∧
    ∃ o, o ∈ written w ∧ outbound_interaction_id o = id ∧
      response_value (pending_mapping p) id (response_payload response) = Ok (outbound_result o);
  pi_written : sublist (written w) (taken w);
  pi_responded : ∀ e response, e ∈ committed (world w) → event_payload e = InteractionResponded response →
    delivered (written w) (committed (world w)) response
}.

Lemma announced_mono log log' prepared : log ⊆ log' → announced log prepared → announced log' prepared.
Proof. intros Hsub (Hok & Hwf & e & He & Hp). split; [done|]. split; [done|]. exists e. auto. Qed.

Lemma delivered_mono sent sent' log log' response :
  sent ⊆ sent' → log ⊆ log' → delivered sent log response → delivered sent' log' response.
Proof.
  intros Hs Hl (o & prepared & Ho & Ha & ?). exists o, prepared. split; [auto|]. split; [by eapply announced_mono|done].
Qed.

(** *** Changes of one part *)

Lemma provider_inv_world X w m' :
  provider_inv X w → mapper_inv m' →
  adds (delivered (written w) (committed (world w))) (world w) m' → provider_inv X (set_world m' w).
Proof.
  intros [Hm Ha Hd Hp Hs Hw Hr] Hm' (l & Hc & Hl).
  assert (committed (world w) ⊆ committed m') as Hsub by (rewrite Hc; set_solver).
  split; simpl; try done.
  - intros id p Hid. destruct (Hp id p Hid) as (prepared & Hst & Han). exists prepared.
    split; [done|]. intros HX. eapply announced_mono; [done|]. auto.
  - intros e response He Hpl. rewrite Hc in He. apply elem_of_app in He as [He|He].
    + eapply delivered_mono; [done|done|]. by eapply Hr.
    + rewrite Forall_forall in Hl. eapply delivered_mono; [done|done|]. by apply (Hl e He).
Qed.

(** Entries that are gone or have a status that is not [Sent]. *)
Lemma provider_inv_approvals X w s' :
  provider_inv X w → approvals_inv s' (registered w) (taken w) →
  (∀ id p', pending s' !! id = Some p' → ∃ p, pending (approvals w) !! id = Some p ∧
     pending_session_id p' = pending_session_id p ∧ pending_mapping p' = pending_mapping p ∧
     (pending_route p', pending_request_id p', pending_method p') = (pending_route p, pending_request_id p, pending_method p) ∧
     ∀ response, pending_status p' = Pending_SentApproval response →
       pending_status p = Pending_SentApproval response) →
  provider_inv X (set_approvals s' w).
Proof.
  intros [Hm Ha Hd Hp Hs Hw Hr] Ha' Hpd. split; simpl; try done.
  - intros id p' Hid. destruct (Hpd id p' Hid) as (p & Hid' & Hsid & Hmap & [= Hroute Hreq Hmethod] & _).
    destruct (Hp id p Hid') as (prepared & (? & ? & ? & ? & ?) & Han). exists prepared.
    split; [|done]. split; [unfold prepared_for; by rewrite Hroute, Hreq, Hmethod|]. do 2 (split; [done|]). split; congruence.
  - intros id p' response Hid Hst. destruct (Hpd id p' Hid) as (p & Hid' & Hsid & Hmap & _ & Hst').
    rewrite Hsid, Hmap. apply (Hs id p); auto.
Qed.

Lemma provider_inv_shrink X w s' :
  provider_inv X w → approvals_inv s' (registered w) (taken w) → pending s' ⊆ pending (approvals w) →
  provider_inv X (set_approvals s' w).
Proof.
  intros Hw Ha Hsub. apply provider_inv_approvals; [done|done|]. intros id p Hp. exists p.
  split; [by eapply lookup_weaken|done].
Qed.

(** ** Operations *)

(** The log grows, and the draws advance. *)
Definition pgrows w w' : Prop := grows (world w) (world w') ∧ approval_draws w ≤ approval_draws w'.
(** Neither sequence numbers nor distinct identities have run out. *)
Definition pfine w : Prop := fine (world w) ∧ approval_draws w ≤ draw_horizon.

#[local] Instance pgrows_preorder : PreOrder pgrows.
Proof. split; [done|]. intros w1 w2 w3 [? ?] [? ?]. split; [by etrans|lia]. Qed.
Lemma pgrows_pfine w w' : pgrows w w' → pfine w' → pfine w.
Proof. intros [Hg Hd] [Hf Hn]. split; [by eapply grows_fine|lia]. Qed.

(** An operation only adds to the log and keeps the invariant. *)
Definition provides_at {A} X w (a : act World CodexProviderSourceError A) : Prop :=
  pgrows w (a w).1 ∧ (provider_inv X w → pfine (a w).1 → provider_inv X (a w).1).
Definition provides {A} X (a : act World CodexProviderSourceError A) : Prop := ∀ w, provides_at X w a.

Lemma provides_bind {A B} X (a : act World CodexProviderSourceError A) (f : A → act World CodexProviderSourceError B) :
  provides X a → (∀ x, provides X (f x)) → provides X (x ← a; f x).
Proof.
  intros Ha Hf w. destruct (Ha w) as [Hg Hi]. unfold provides_at, mbind, act_bind.
  destruct (a w) as [w1 [x|err]]; simpl in *; [|done].
  destruct (Hf x w1) as [Hg' Hi']. split; [by etrans|].
  intros Hw Hfine. apply Hi'; [|done]. apply Hi; [done|]. by eapply pgrows_pfine.
Qed.

Lemma provides_lift {A} X (r : result CodexProviderSourceError A) : provides X (lift r).
Proof. by intros w. Qed.
Lemma provides_ret {A} X (x : A) : provides X (mret x).
Proof. by intros w. Qed.

(** Changes of counters and of the connection. *)
Lemma provider_inv_same X w w' :
  world w' = world w → approvals w' = approvals w → registered w' = registered w → taken w' = taken w →
  written w' = written w → approval_draws w ≤ approval_draws w' → provider_inv X w → provider_inv X w'.
Proof.
  intros E1 E2 E3 E4 E5 Hd [Hm Ha Hdr Hp Hs Hw Hr]. split; rewrite ?E1, ?E2, ?E3, ?E4, ?E5; try done.
  intros id Hid. destruct (Hdr id Hid) as (k & Hk & ->). exists k. split; [lia|done].
Qed.

Lemma provides_counters X f :
  (∀ w, ∃ a b c, f w = set_provider_counters a b c w) → provides X (modify f).
Proof.
  intros Hf w. destruct (Hf w) as (a & b & c & Hw). unfold provides_at, modify. cbn [fst]. rewrite Hw.
  split; [done|]. intros Hinv _. by apply (provider_inv_same X w).
Qed.

Lemma provides_on_io X text : provides X (on_io text).
Proof.
  intros w. unfold provides_at, on_io. destruct (write_text text (io w)) as [c r]. cbn [fst].
  split; [done|]. intros Hinv _. by apply (provider_inv_same X w).
Qed.

Lemma provides_on_prepare {A} X (a : act nat CodexProviderSourceError A) : advances a → provides X (on_prepare a).
Proof.
  intros Ha w. specialize (Ha (approval_draws w)). unfold provides_at, on_prepare.
  destruct (a (approval_draws w)) as [n r]. cbn [fst] in *.
  split; [done|]. intros Hinv _. by apply (provider_inv_same X w).
Qed.

Lemma provides_on_mapper {A} X (a : act (MapperWorld S) CodexProviderSourceError A) :
  maps a → (∀ ok, respects (adds ok) a) → provides X (on_mapper a).
Proof.
  intros Ha Hq w. destruct (Ha (world w)) as [Hg Hi]. specialize (Hq (delivered (written w) (committed (world w))) (world w)).
  unfold provides_at, on_mapper. destruct (a (world w)) as [m r]. cbn [fst] in *. simpl.
  split; [done|]. intros Hinv [Hfine _]. apply provider_inv_world; [done| |done]. apply Hi; [apply Hinv|done].
Qed.

Ltac provides_step :=
  match goal with
  | |- provides _ (mbind _ _) => apply provides_bind; [|intros ?]
  | |- provides _ (lift _) => apply provides_lift
  | |- provides _ (mret _) => apply provides_ret
  | |- provides _ (on_io _) => apply provides_on_io
  | |- provides _ (modify count_rejected) => apply provides_counters; intros ?; by eexists _, _, _
  | |- provides _ (modify count_unmapped) => apply provides_counters; intros ?; by eexists _, _, _
  | |- provides _ (modify count_validated) => apply provides_counters; intros ?; by eexists _, _, _
  | |- provides _ (let '(_, _) := ?x in _) => destruct x
  | |- provides _ (if ?b then _ else _) => destruct b
  | |- provides _ (match ?x with _ => _ end) => destruct x
  | |- _ => progress auto with codex
  end.
Ltac provides_solve := repeat provides_step.

Lemma provides_publish_closed X closed reason : provides X (publish_closed closed reason).
Proof.
  apply provides_on_mapper; [by apply maps_publish_now|]. intros ok. by apply adds_publish_now.
Qed.
#[local] Hint Resolve provides_publish_closed : codex.

Lemma provides_publish_each X closed : provides X (publish_each_closed closed).
Proof. induction closed as [|c closed IH]; cbn [publish_each_closed]; provides_solve. Qed.
#[local] Hint Resolve provides_publish_each : codex.

Lemma provides_publish_all closed X w :
  pgrows w (publish_all_closed closed w) ∧
  (provider_inv X w → pfine (publish_all_closed closed w) → provider_inv X (publish_all_closed closed w)).
Proof.
  revert w. induction closed as [|c closed IH]; intros w; [done|]. simpl.
  destruct (provides_publish_closed X c ProviderCancelled w) as [Hg Hi].
  destruct (IH (publish_closed c ProviderCancelled w).1) as [Hg' Hi']. split; [by etrans|].
  intros Hw Hf. apply Hi'; [|done]. apply Hi; [done|]. by eapply pgrows_pfine.
Qed.

Lemma close_matching_inv X matches w :
  provider_inv X w → provider_inv X (set_approvals (close_matching matches (approvals w)).1 w).
Proof.
  intros Hw. destruct (close_matching matches (approvals w)) as [s' closed] eqn:E.
  apply (close_matching_spec _ _ _ _ (registered w) (taken w)) in E as (Hpd & _ & _ & _ & Ha); [|apply Hw].
  apply provider_inv_shrink; [done|done|]. apply map_subseteq_spec. intros id p. rewrite Hpd.
  destruct (pending (approvals w) !! id) as [p'|]; [|done]. simpl. by destruct (matches p').
Qed.

Lemma provides_closing X matches : provides X (closing (close_matching matches)).
Proof.
  intros w. unfold provides_at, closing, on_approvals. pose proof (close_matching_inv X matches w) as Hc.
  destruct (close_matching matches (approvals w)) as [s' closed]. cbn [fst] in *. split; [done|]. auto.
Qed.

Lemma provides_lifecycle X method params : provides X (close_approvals_for_lifecycle method params).
Proof.
  unfold close_approvals_for_lifecycle, close_item, close_turn, close_thread. provides_solve; apply provides_closing.
Qed.
#[local] Hint Resolve provides_lifecycle : codex.

(** *** Resolved requests *)

Lemma provider_inv_publish_responded w thread_id occurred_at response :
  provider_inv ∅ w → delivered (written w) (committed (world w)) response →
  let w' := (on_mapper (publish_payload thread_id occurred_at (InteractionResponded response)) w).1 in
  pfine w' → provider_inv ∅ w'.
Proof.
  intros Hinv Hdel. simpl. unfold on_mapper.
  destruct (maps_publish_payload thread_id occurred_at (InteractionResponded response) ltac:(done) (world w)) as [_ Hi].
  pose proof (adds_publish_payload (delivered (written w) (committed (world w))) thread_id occurred_at
    (InteractionResponded response) ltac:(by intros ? [= <-]) (world w)) as Hadds.
  destruct (publish_payload _ _ _ (world w)) as [m r]. cbn [fst] in *. intros [Hfine _].
  apply provider_inv_world; [done| |done]. apply Hi; [apply Hinv|done].
Qed.

Lemma grows_on_mapper {A} (a : act (MapperWorld S) CodexProviderSourceError A) w :
  maps a → pgrows w (on_mapper a w).1.
Proof. intros Ha. destruct (Ha (world w)) as [Hg _]. unfold on_mapper. by destruct (a (world w)). Qed.

(** An answer that is reported was delivered. *)
Lemma sent_delivered w id p response :
  provider_inv ∅ w → pending (approvals w) !! id = Some p → pending_status p = Pending_SentApproval response →
  delivered (written w) (committed (world w)) response.
Proof.
  intros Hinv Hp Hst. destruct (pi_sent _ _ Hinv id p response Hp Hst) as (Hid & _ & o & Ho & Hoid & Hv).
  destruct (pi_prepared _ _ Hinv id p Hp) as (prepared & (_ & _ & Hrid & _ & Hmap) & Han).
  exists o, prepared. split; [done|]. split; [by apply Han|]. rewrite Hid, Hoid, Hrid, Hmap. done.
Qed.

Lemma resolved_at w route id thread_id :
  provides_at ∅ w (resolved ← on_approvals (resolve route id thread_id);
    match resolved with
    | Some (Resolved_Responded thread_id response) =>
        on_mapper (publish_payload thread_id (response_responded_at response) (InteractionResponded response))
    | Some (Resolved_Closed thread_id sid id) | Some (Resolved_RespondedForm thread_id sid id) =>
        publish_closed (MkClosed thread_id sid id) ResolvedElsewhere
    | None => modify count_unmapped
    end).
Proof.
  unfold provides_at, on_approvals, mbind, act_bind.
  destruct (resolve route id thread_id (approvals w)) as [s' r] eqn:E. split.
  - destruct r as [[[tid response|tid sid iid|tid sid iid]|]|err]; cbn [fst]; [| | |done|done].
    + by apply (grows_on_mapper _ (set_approvals s' w)), maps_publish_payload.
    + apply (provides_publish_closed ∅ _ _ (set_approvals s' w)).
    + apply (provides_publish_closed ∅ _ _ (set_approvals s' w)).
  - intros Hinv. pose proof (resolve_spec route id thread_id _ _ _ (pi_approvals _ _ Hinv)) as Hres.
    pose proof (resolve_inv route id thread_id _ _ _ (pi_approvals _ _ Hinv)) as Hai. rewrite E in Hres, Hai.
    destruct (by_request (approvals w) !! (route, id)) as [iid|].
    2:{ injection Hres as -> ->. intros _. by apply (provider_inv_same ∅ w). }
    destruct Hres as (p & Hp & _ & _ & Hres). destruct (bool_decide _).
    2:{ destruct Hres as [err [= -> ->]]. intros _. by apply (provider_inv_same ∅ w). }
    injection Hres as -> ->. set (s' := MkApprovals _ _ _) in *.
    assert (provider_inv ∅ (set_approvals s' w)) as Hinv'.
    { apply provider_inv_shrink; [done..|]. apply delete_subseteq. }
    unfold resolution. destruct (pending_status p) eqn:Hst.
    + intros Hf. by apply provides_publish_closed.
    + intros Hf. by apply provides_publish_closed.
    + apply provider_inv_publish_responded; [done|]. exact (sent_delivered w iid p _ Hinv Hp Hst).
    + intros Hf. by apply provides_publish_closed.
Qed.

Lemma provides_resolved params route : provides ∅ (process_resolved_notification params route).
Proof.
  unfold process_resolved_notification. do 3 (apply provides_bind; [apply provides_lift|intros ?]).
  intros w. apply resolved_at.
Qed.
#[local] Hint Resolve provides_resolved : codex.

(** *** Requests *)

(** Preparing yields a well-formed request with a fresh identity. *)
Lemma prepared_spec method params item sid n n' prepared :
  (if bool_decide (method = lit "item/tool/requestUserInput")
   then prepare_user_input params sid else prepare_approval method params item sid) n = (n', Ok prepared) →
  n' ≤ draw_horizon → prepared_from params prepared ∧ request_wf (prepared_request prepared) ∧
  request_session_id (prepared_request prepared) = sid ∧
  ∃ k, n ≤ k < n' ∧ request_id (prepared_request prepared) = fresh_interaction_id k.
Proof.
  destruct (bool_decide _).
  - intros Hp Hn. destruct (prepare_user_input_ok _ _ _ _ _ Hp Hn) as (Hf & ?). split; [by right|done].
  - intros Hp Hn. destruct (prepare_approval_ok _ _ _ _ _ _ _ Hp Hn) as (Ha & ?). split; [by left|done].
Qed.

(** A fresh request is registered, not yet announced. *)
Lemma register_prepared_inv w route id method params prepared k :
  provider_inv ∅ w → received route id method params → prepared_from params prepared → request_wf (prepared_request prepared) →
  k < approval_draws w → request_id (prepared_request prepared) = fresh_interaction_id k →
  (request_id (prepared_request prepared) ∉ registered w) →
  match register_prepared route id method prepared w with
  | (w', Ok _) => provider_inv {[request_id (prepared_request prepared)]} w' ∧
      ∀ p, pending (approvals w') !! request_id (prepared_request prepared) = Some p →
        stands_for (request_id (prepared_request prepared)) p prepared
  | (w', Err _) => provider_inv ∅ w'
  end.
Proof.
  intros [Hm Ha Hd Hp Hs Hw Hr] Hrec Hok Hwf Hk Hid Hnew. unfold register_prepared, on_approvals, modify, mbind, act_bind.
  cbn [approvals set_trace]. pose proof (register_inv route id method prepared _ _ _ Ha Hnew) as Ha'.
  set (iid := request_id (prepared_request prepared)) in *.
  assert (∀ id, id ∈ {[iid]} ∪ registered w → ∃ k, k < approval_draws w ∧ id = fresh_interaction_id k) as Hd'.
  { intros id' [->%elem_of_singleton|Hin]%elem_of_union; [by exists k|by apply Hd]. }
  destruct (register route id method prepared (approvals w)) as [s' [[]|err]] eqn:E; cbn [fst] in Ha'.
  - apply register_Ok in E as (_ & _ & _ & ->). fold iid in Ha' |- *.
    assert (stands_for iid (MkPending route id method (prepared_thread_id prepared) (prepared_turn_id prepared)
      (prepared_item_id prepared) (request_session_id (prepared_request prepared)) (prepared_mapping prepared) Pending_Awaiting)
      prepared) as Hstands by (split; [by exists params|done]).
    split; [|simpl; intros p; rewrite lookup_insert_eq; by intros [= <-]]. split; simpl; try done.
    + intros id' p [[<- <-]|[_ Hp']]%lookup_insert_Some.
      * exists prepared. split; [done|]. set_solver.
      * destruct (Hp id' p Hp') as (prepared' & Hst & Han). exists prepared'. split; [done|]. intros _. by apply Han.
    + intros id' p response [[<- <-]|[_ Hp']]%lookup_insert_Some; [done|by apply Hs].
  - apply register_Err in E as ->. by split.
Qed.

(** A published event is committed. *)
Lemma publish_next_committed thread_id occurred_at payload (m m' : MapperWorld S) :
  publish_next thread_id occurred_at payload m = (m', Ok ()) →
  ∃ e, e ∈ committed m' ∧ event_payload e = payload.
Proof.
  unfold publish_next. intros (m1 & t & _ & (m2 & id & _ & (m3 & e & [= <- He] & Hp)%act_bind_Ok)%act_bind_Ok)%act_bind_Ok.
  apply act_bind_Ok in Hp as (m4 & [] & Hpub & Hp). apply act_bind_Ok in Hp as (m5 & t' & Ht & Hp).
  apply act_bind_Ok in Hp as (m6 & next & [= <- _] & [= <-]). simpl.
  apply map_err_Ok, AgentEvent_new_Ok in He as [-> _].
  set (e := MkAgentEvent _ _ _ _ _) in *. exists e. split; [|done]. destruct (publish_committed_cases e m2) as [_ [[_ Hc]|[[err He] _]]]; rewrite Hpub in *; [|done].
  cbn [fst] in Hc. assert (m5 = m4) as -> by (by apply act_bind_Ok in Ht as (? & ? & [= <- _] & [= <- _])).
  rewrite Hc. set_solver.
Qed.

(** The request is announced, or forgotten. *)
Lemma publish_prepared_inv w prepared :
  provider_inv {[request_id (prepared_request prepared)]} w →
  (∀ p, pending (approvals w) !! request_id (prepared_request prepared) = Some p →
     stands_for (request_id (prepared_request prepared)) p prepared) →
  let w' := (publish_prepared prepared w).1 in
  pfine w' → provider_inv ∅ w'.
Proof.
  intros Hinv Hst. simpl. unfold publish_prepared.
  set (iid := request_id (prepared_request prepared)) in *. set (a := publish_payload _ _ _).
  destruct (provides_on_mapper {[iid]} a ltac:(by apply maps_publish_payload)
    ltac:(intros ok; by apply adds_publish_payload) w) as [_ Hi]. specialize (Hi Hinv).
  unfold on_mapper in *. destruct (a (world w)) as [m [[]|err]] eqn:Ea; cbn [fst] in *; intros Hf; specialize (Hi Hf);
    destruct Hi as [Hm Ha Hd Hp Hs Hw Hr]; simpl in *.
  - split; simpl; try done. intros id p Hid. destruct (decide (id = iid)) as [->|Hne].
    + exists prepared. specialize (Hst p Hid). split; [done|]. intros _. destruct Hst as ((params & _ & Hok) & Hwf & _).
      split; [by exists params|]. split; [done|]. unfold a, publish_payload in Ea.
      apply act_bind_Ok in Ea as (m1 & mp & [= <- _] & Ea). cbv zeta in Ea. cbn [closes_choices] in Ea.
      apply act_bind_Ok in Ea as (m2 & [] & [= <-] & Ea). by eapply publish_next_committed.
    + destruct (Hp id p Hid) as (prepared' & Hst' & Han). exists prepared'. split; [done|]. intros _. apply Han. set_solver.
  - assert (∀ id p, pending (remove iid (approvals w)) !! id = Some p →
      id ≠ iid ∧ pending (approvals w) !! id = Some p) as Hrem.
    { intros id p. unfold remove. destruct (pending (approvals w) !! iid) eqn:Ei; simpl.
      - intros [? ?]%lookup_delete_Some. done.
      - intros Hid. split; [congruence|done]. }
    split; simpl; try done.
    + by apply remove_inv.
    + intros id p [Hne Hid]%Hrem. destruct (Hp id p Hid) as (prepared' & Hst' & Han).
      exists prepared'. split; [done|]. intros _. apply Han. set_solver.
    + intros id p response [_ Hid]%Hrem. by apply Hs.
Qed.

Lemma grows_publish_prepared prepared w : pgrows w (publish_prepared prepared w).1.
Proof.
  unfold publish_prepared. pose proof (grows_on_mapper (publish_payload (prepared_thread_id prepared)
    (request_requested_at (prepared_request prepared)) (InteractionRequested (prepared_request prepared))) w
    ltac:(by apply maps_publish_payload)) as Hg.
  by destruct (on_mapper _ w) as [w' []].
Qed.

Lemma advances_prepare method params item sid :
  advances (if bool_decide (method = lit "item/tool/requestUserInput")
            then prepare_user_input params sid else prepare_approval method params item sid).
Proof.
  destruct (bool_decide _); unfold prepare_user_input, prepare_approval.
  - repeat first [apply advances_bind; [|intros ?]|apply advances_lift|apply advances_draw|apply advances_ret
      |apply advances_questions].
  - repeat first [apply advances_bind; [|intros ?]|apply advances_lift|apply advances_draw|apply advances_ret
      |apply advances_offered|match goal with |- advances (let '(_, _) := ?x in _) => destruct x
        | |- advances (if ?b then _ else _) => destruct b end].
Qed.

Lemma provides_request_prepared route id method params item sid :
  received route id method params →
  provides ∅ (prepared ← on_prepare (if bool_decide (method = lit "item/tool/requestUserInput")
                then prepare_user_input params sid else prepare_approval method params item sid);
              _ ← register_prepared route id method prepared; publish_prepared prepared).
Proof.
  intros Hrec w. unfold provides_at, mbind, act_bind.
  pose proof (provides_on_prepare ∅ _ (advances_prepare method params item sid) w) as [Hga Hi].
  unfold on_prepare in *. set (a := if bool_decide _ then _ else _) in *.
  destruct (a (approval_draws w)) as [n [prepared|err]] eqn:Ea; cbn [fst] in *; [|split; [exact Hga|exact Hi]].
  set (w1 := set_approval_draws n w) in *.
  assert (approval_draws w ≤ n) as Hle by apply Hga.
  assert (provider_inv ∅ w → n ≤ draw_horizon → match register_prepared route id method prepared w1 with
    | (w', Ok _) => provider_inv {[request_id (prepared_request prepared)]} w' ∧
        ∀ p, pending (approvals w') !! request_id (prepared_request prepared) = Some p →
          stands_for (request_id (prepared_request prepared)) p prepared
    | (w', Err _) => provider_inv ∅ w'
    end) as Hreg.
  { intros Hw Hn. destruct (prepared_spec _ _ _ _ _ _ _ Ea Hn) as (Hok & Hwf & _ & k & Hk & Hid).
    assert (provider_inv ∅ w1) as Hw1 by (by apply (provider_inv_same ∅ w)).
    apply (register_prepared_inv w1 route id method params prepared k); [done..|simpl; lia|done|].
    rewrite Hid. intros (k' & Hk' & Heq%fresh_interaction_inj)%(pi_drawn _ _ Hw); lia. }
  assert (world (register_prepared route id method prepared w1).1 = world w ∧
    approval_draws (register_prepared route id method prepared w1).1 = n) as [Hworld Hdraws].
  { unfold register_prepared, on_approvals, modify, mbind, act_bind.
    by destruct (register route id method prepared _). }
  destruct (register_prepared route id method prepared w1) as [w' [[]|err]]; cbn [fst] in Hworld, Hdraws |- *.
  - pose proof (grows_publish_prepared prepared w') as Hg. split.
    + etrans; [|exact Hg]. split; [by rewrite Hworld|lia].
    + intros Hw Hf. destruct (pgrows_pfine _ _ Hg Hf) as [_ Hn]. rewrite Hdraws in Hn.
      destruct (Hreg Hw Hn) as [Hw' Hst]. by apply publish_prepared_inv.
  - split; [split; [by rewrite Hworld|lia]|]. intros Hw [_ Hn]. apply Hreg; [done|lia].
Qed.

Lemma provides_request has_io route id method params :
  received route id method params → provides ∅ (process_approval_request has_io route id method params).
Proof.
  intros Hrec. unfold process_approval_request. do 3 (apply provides_bind; [apply provides_lift|intros ?]).
  apply provides_bind; [apply provides_on_mapper; [apply maps_approval_context|intros ok; apply adds_approval_context]|].
  intros [[sid item]|]; [by apply provides_request_prepared|]. unfold reject_request. provides_solve.
Qed.
#[local] Hint Resolve provides_request : codex.

(** *** Responses *)

(** A response is taken from the queue. *)
Lemma provider_inv_pop w route s' o :
  provider_inv ∅ w → pop_outbound_for route (approvals w) = (s', Some o) →
  provider_inv ∅ (set_trace (registered w) (taken w ++ [o]) (written w) (set_approvals s' w)) ∧
  pending s' = pending (approvals w) ∧
  ∃ p, pending (approvals w) !! outbound_interaction_id o = Some p ∧ carries o p.
Proof.
  intros [Hm Ha Hd Hp Hs Hw Hr] Hpop. destruct (pop_inv _ _ _ _ _ _ Ha Hpop) as (Ha' & _ & Hc).
  assert (pending s' = pending (approvals w)) as Hpd.
  { unfold pop_outbound_for in Hpop. destruct (pop_first _ _) as [[]|]; by injection Hpop as <- _. }
  split; [|done]. split; simpl; try done.
  - intros id p Hid. rewrite Hpd in Hid. by apply Hp.
  - intros id p response Hid. rewrite Hpd in Hid. by apply Hs.
  - by apply sublist_inserts_r.
Qed.

(** It is written. *)
Lemma provider_inv_write w o before :
  provider_inv ∅ w → taken w = before ++ [o] → sublist (written w) before →
  provider_inv ∅ (set_trace (registered w) (taken w) (written w ++ [o]) w).
Proof.
  intros [Hm Ha Hd Hp Hs Hw Hr] Ht Hsub. split; simpl; try done.
  - intros id p response Hid Hst. destruct (Hs id p response Hid Hst) as (? & ? & o' & Ho' & ?).
    split; [done|]. split; [done|]. exists o'. split; [set_solver|done].
  - rewrite Ht. by apply sublist_app.
  - intros e response He Hpl. eapply delivered_mono; [|done|by eapply Hr]. set_solver.
Qed.

(** It is recorded as sent. *)
Lemma provider_inv_mark w o p :
  provider_inv ∅ w → o ∈ written w → pending (approvals w) !! outbound_interaction_id o = Some p → carries o p →
  provider_inv ∅ (set_approvals (mark_sent (outbound_interaction_id o) (approvals w)).1 w).
Proof.
  intros [Hm Ha Hd Hp Hs Hw Hr] Ho Hid (_ & _ & _ & response & Hq & Hrid & Hsid & Hv).
  assert (o ∈ taken w) as Ht by (by eapply elem_of_sublist).
  pose proof (mark_sent_inv _ _ _ _ Ha Ht) as Ha'.
  destruct (mark_sent _ _) as [s' [[]|err]] eqn:E; cbn [fst] in *; [|by apply mark_sent_Err in E as ->; split].
  apply mark_sent_Ok in E as (p' & response' & status & Hid' & Hq' & Hst & ->). simplify_eq.
  rewrite Hq in Hq'. injection Hq' as <-. split; simpl in *; try done.
  - intros id q [[<- <-]|[_ Hid']]%lookup_insert_Some; [|by apply Hp].
    destruct (Hp _ _ Hid) as (prepared & Hstf & Han). by exists prepared.
  - intros id q r [[<- <-]|[_ Hid']]%lookup_insert_Some; [|by apply Hs]. simpl.
    destruct Hst as [[-> _]|[-> _]]; [|done]. intros [= <-]. split; [done|]. split; [done|]. by exists o.
Qed.

Lemma provides_flush_one route : provides ∅ (flush_one route).
Proof.
  intros w. unfold provides_at, flush_one, gets, mbind, act_bind.
  destruct (pop_outbound_for route (approvals w)) as [s' [o|]] eqn:Epop; [|done].
  unfold modify, lift, on_io, on_approvals.
  pose proof (provider_inv_pop w route s' o) as Hpop. set (w1 := set_trace _ _ _ (set_approvals s' w)) in *.
  destruct (interaction_response _ _ _) as [text|err]; [|split; [done|intros Hw _; by apply Hpop]].
  destruct (write_text text (io w1)) as [c [[]|err]]; cbn [fst].
  2:{ split; [done|]. intros Hw _. apply (provider_inv_same ∅ w1); try done. by apply Hpop. }
  set (w2 := set_trace _ _ _ (set_io c w1)).
  assert (provider_inv ∅ w → provider_inv ∅ (set_approvals (mark_sent (outbound_interaction_id o) (approvals w2)).1 w2))
    as Hmark.
  { intros Hw. destruct (Hpop Hw Epop) as (Hw1 & Hpd & p & Hp & Hc).
    apply (provider_inv_mark w2 o p); [|simpl; set_solver|simpl; by rewrite Hpd|done].
    apply (provider_inv_write (set_io c w1) o (taken w)); [|done|apply Hw]. by apply (provider_inv_same ∅ w1). }
  destruct (mark_sent (outbound_interaction_id o) (approvals w2)) as [s2 [[]|err]]; (split; [done|]); auto.
Qed.

(** The loop takes one response a round: fuel for the queue is enough. *)
Lemma pop_length route s s' o :
  pop_outbound_for route s = (s', Some o) → length (outbound s) = 1 + length (outbound s').
Proof.
  unfold pop_outbound_for. destruct (pop_first route (outbound s)) as [[o' rest]|] eqn:E; [|done].
  intros [= <- <-]. apply pop_first_Some in E as (_ & before & after & -> & -> & _). simpl.
  rewrite !length_app. simpl. lia.
Qed.

Lemma flush_one_true route w w' :
  flush_one route w = (w', Ok true) →
  length (outbound (approvals w)) = 1 + length (outbound (approvals w')).
Proof.
  unfold flush_one, gets, mbind, act_bind.
  destruct (pop_outbound_for route (approvals w)) as [s' [o|]] eqn:Epop; [|done]. rewrite (pop_length _ _ _ _ Epop).
  unfold modify, lift, on_io, on_approvals. destruct (interaction_response _ _ _) as [text|err]; [|done].
  destruct (write_text text _) as [c [[]|err]]; [|done].
  destruct (mark_sent _ _) as [s2 [[]|err]] eqn:E; [|done]. intros [= <-].
  apply mark_sent_Ok in E as (? & ? & ? & _ & _ & _ & ->). done.
Qed.

Lemma flush_one_false route w w' :
  flush_one route w = (w', Ok false) →
  w' = w ∧ Forall (λ o, outbound_route o ≠ route) (outbound (approvals w)).
Proof.
  unfold flush_one, gets, mbind, act_bind, pop_outbound_for.
  destruct (pop_first route (outbound (approvals w))) as [[o rest]|] eqn:Epop.
  - unfold modify, lift, on_io, on_approvals. destruct (interaction_response _ _ _) as [text|err]; [|done].
    destruct (write_text text _) as [c [[]|err]]; [|done]. by destruct (mark_sent _ _) as [s2 [[]|err]].
  - intros [= <-]. split; [done|]. by apply pop_first_None.
Qed.

Lemma flush_loop_spec fuel route w :
  length (outbound (approvals w)) < fuel →
  ∃ w' r, flush_loop fuel route w = Some (w', r) ∧ pgrows w w' ∧
    (provider_inv ∅ w → pfine w' → provider_inv ∅ w') ∧
    (r = Ok () → Forall (λ o, outbound_route o ≠ route) (outbound (approvals w'))).
Proof.
  revert w. induction fuel as [|fuel IH]; intros w Hfuel; [lia|]. cbn [flush_loop].
  destruct (provides_flush_one route w) as [Hg Hi].
  destruct (flush_one route w) as [w1 [[|]|err]] eqn:E; cbn [fst] in *.
  - apply flush_one_true in E. destruct (IH w1) as (w' & r & -> & Hg' & Hi' & Hr); [lia|].
    exists w', r. split; [done|]. split; [by etrans|]. split; [|done].
    intros Hw Hf. apply Hi'; [|done]. apply Hi; [done|]. by eapply pgrows_pfine.
  - apply flush_one_false in E as [-> Hq]. eexists _, _. by split_and!.
  - eexists _, _. by split_and!.
Qed.

Lemma flush_loop_fuel fuel fuel' route w :
  length (outbound (approvals w)) < fuel → length (outbound (approvals w)) < fuel' →
  flush_loop fuel route w = flush_loop fuel' route w.
Proof.
  revert fuel' w. induction fuel as [|fuel IH]; intros [|fuel'] w Hf Hf'; try lia. cbn [flush_loop].
  destruct (flush_one route w) as [w1 [[|]|err]] eqn:E; [|done..]. apply flush_one_true in E. apply IH; lia.
Qed.

(** *** Frames, the port and the ends of connections *)

Lemma provides_live_notification route method params :
  (method = lit "thread/started" → turns_listed params) →
  provides ∅ (process_live_notification route method params).
Proof.
  intros Hv. unfold process_live_notification. destruct (bool_decide _); [apply provides_resolved|].
  apply provides_bind; [apply provides_lifecycle|intros _]. apply provides_bind.
  - apply provides_on_mapper; [by apply maps_notification|intros ok; apply adds_notification].
  - intros []; provides_solve.
Qed.

Lemma provides_live_request route id method params :
  received route id method params → provides ∅ (process_live_request route id method params).
Proof. intros Hrec. unfold process_live_request. provides_solve. Qed.

(** A frame whose thread lists its turns, as the protocol schema requires. *)
Definition frame_valid (text : rstring) : Prop := ∀ params,
  parse_observed_server_text text = Ok (Observed_Notification (lit "thread/started") params) → turns_listed params.

Lemma provides_observe route text :
  frame_valid text →
  (∀ id method params, parse_observed_server_text text = Ok (Observed_Request id method params) → received route id method params) →
  provides ∅ (observe_proxy_server_text route text).
Proof.
  intros Hv Hrec w. unfold observe_proxy_server_text.
  unfold provides_at. unfold mbind at 1 3, act_bind at 1 3, lift.
  destruct (parse_observed_server_text text) as [frame|err] eqn:E; [|done].
  match goal with |- context [mbind ?f (modify count_validated)] =>
    assert (provides ∅ (mbind f (modify count_validated))) as Hp; [|exact (Hp w)] end.
  apply provides_bind; [provides_solve|intros _]. destruct frame as [method params|id method params|]; [|specialize (Hrec _ _ _ eq_refl); provides_solve|provides_solve].
  apply provides_live_notification. intros ->. by apply Hv.
Qed.

Lemma accept_inv X response w : provider_inv X w → provider_inv X (accept_interaction_response response w).1.
Proof.
  intros Hw. unfold accept_interaction_response. destruct (bool_decide _).
  { destruct (local_claim response (local w)) as [l r]. by apply (provider_inv_same X w). }
  pose proof (claim_inv response _ _ _ (pi_approvals _ _ Hw)) as Ha.
  destruct (claim response (approvals w)) as [s' [[]|err]] eqn:E; cbn [fst] in *.
  - apply claim_Ok in E as (p & value & Hp & Hst & _ & _ & ->). apply provider_inv_approvals; [done|done|].
    intros id p'. simpl. intros [[<- <-]|[_ Hid]]%lookup_insert_Some; [|by exists p'].
    exists p. by split_and!.
  - apply claim_Err in E as ->. by apply (provider_inv_same X w).
Qed.

Lemma accept_world response w :
  world (accept_interaction_response response w).1 = world w ∧
  approval_draws (accept_interaction_response response w).1 = approval_draws w.
Proof.
  unfold accept_interaction_response. destruct (bool_decide _);
    [by destruct (local_claim response (local w))|by destruct (claim response (approvals w))].
Qed.

Lemma closing_all_inv matches w :
  let '(s, closed) := close_matching matches (approvals w) in
  let w' := publish_all_closed closed (set_approvals s w) in
  pgrows w w' ∧ (provider_inv ∅ w → pfine w' → provider_inv ∅ w').
Proof.
  pose proof (close_matching_inv ∅ matches w) as Hc. destruct (close_matching matches (approvals w)) as [s closed].
  destruct (provides_publish_all closed ∅ (set_approvals s w)) as [Hg Hi]. split; [done|]. auto.
Qed.

(** ** Runs *)

Inductive ProviderOp : Type :=
| Op_Call (c : MapperCall)
| Op_Notification (route : ApprovalRoute) (method : rstring) (params : Value)
| Op_Request (route : ApprovalRoute) (id : RequestId) (method : rstring) (params : Value)
| Op_Observe (route : ApprovalRoute) (text : rstring)
| Op_Respond (response : InteractionResponse)
| Op_Flush (route : ApprovalRoute)
| Op_CloseRoute (route : ApprovalRoute)
| Op_CloseAll.

Definition provider_op (op : ProviderOp) (w : World) : World :=
  match op with
  | Op_Call c => set_world (mapper_call c (world w)) w
  | Op_Notification route method params => (process_live_notification route method params w).1
  | Op_Request route id method params => (process_live_request route id method params w).1
  | Op_Observe route text => (observe_proxy_server_text route text w).1
  | Op_Respond response => (accept_interaction_response response w).1
  | Op_Flush route => from_option fst w (flush_approval_responses route w)
  | Op_CloseRoute route => close_route_approvals route w
  | Op_CloseAll => close_all_approvals w
  end.

(** Answers are reported by the operations modelled here only. *)
Definition op_valid (op : ProviderOp) : Prop :=
  match op with
  | Op_Call c => call_valid c ∧
      ∀ id occurred_at response, c ≠ Call_Publish id occurred_at (InteractionResponded response)
  | Op_Notification _ method params => method = lit "thread/started" → turns_listed params
  | Op_Observe _ text => frame_valid text
  | _ => True
  end.

(** The requests an operation brings. *)
Definition op_received (op : ProviderOp) : Prop :=
  match op with
  | Op_Request route id method params => received route id method params
  | Op_Observe route text => ∀ id method params,
      parse_observed_server_text text = Ok (Observed_Request id method params) → received route id method params
  | _ => True
  end.

Lemma adds_call c m ok :
  (∀ id occurred_at response, c ≠ Call_Publish id occurred_at (InteractionResponded response)) →
  adds ok m (mapper_call c m).
Proof.
  intros Hc. destruct c as [method params| | | | | | | |tid at' payload| | | |]; [apply adds_notification|..];
    apply (respects_call (adds ok) (reports ok)); reporting; try done.
  intros id' at1 payload' [= <- <- <-] response ->. by destruct (Hc tid at' response).
Qed.

Lemma provider_op_spec op w :
  op_valid op → op_received op →
  pgrows w (provider_op op w) ∧
  (provider_inv ∅ w → pfine (provider_op op w) → provider_inv ∅ (provider_op op w)).
Proof.
  destruct op as [c|route method params|route id method params|route text|response|route|route|]; cbn [provider_op op_valid op_received].
  - intros [Hv Hr] _. destruct (maps_call c (world w) Hv) as [Hg Hi]. split; [done|]. intros Hw [Hf _].
    apply provider_inv_world; [done|apply Hi; [apply Hw|done]|by apply adds_call].
  - intros Hv _. by apply provides_live_notification.
  - intros _ Hrec. by apply provides_live_request.
  - intros Hv Hrec. by apply provides_observe.
  - intros _ _. destruct (accept_world response w) as [Hwd Hd]. split; [split; [by rewrite Hwd|by rewrite Hd]|].
    intros Hw _. by apply accept_inv.
  - intros _ _. destruct (flush_loop_spec (Datatypes.S (length (outbound (approvals w)))) route w) as
      (w' & r & Hfl & Hg & Hi & _); [lia|]. unfold flush_approval_responses. rewrite Hfl. done.
  - intros _ _. pose proof (closing_all_inv (λ p, bool_decide (pending_route p = route)) w) as Hc.
    unfold close_route_approvals, close_route. by destruct (close_matching _ _).
  - intros _ _. pose proof (closing_all_inv (λ _, true) w) as Hc.
    unfold close_all_approvals, close_all. by destruct (close_matching _ _).
Qed.

Definition provider_run (ops : list ProviderOp) (w : World) : World := foldl (λ w op, provider_op op w) w ops.

Lemma provider_run_received ops w :
  Forall op_valid ops → Forall op_received ops →
  pgrows w (provider_run ops w) ∧
  (provider_inv ∅ w → pfine (provider_run ops w) → provider_inv ∅ (provider_run ops w)).
Proof.
  intros Hall. revert w. induction Hall as [|op ops Hop _ IH]; intros w Hrec; [done|]. simpl.
  apply Forall_cons in Hrec as [Hr Hrec]. specialize (IH (provider_op op w) Hrec).
  destruct (provider_op_spec op w Hop Hr) as [Hg Hi]. destruct IH as [Hg' Hi'].
  split; [by etrans|]. intros Hw Hf. apply Hi'; [|done]. apply Hi; [done|]. by eapply pgrows_pfine.
Qed.

Definition provider_start (m : CodexEventMapper) (sink : S) (c : I) : World :=
  MkProvider (mapper_start m sink) ApprovalRuntimeState_new (MkLocal ∅ []) 0 0 0 0 c ∅ [] [].

Lemma provider_start_inv provider_id configured_threads discover sink c :
  provider_inv ∅ (provider_start (CodexEventMapper_new provider_id configured_threads discover) sink c).
Proof.
  split; simpl; [apply mapper_start_inv| |set_solver|done|done|done|].
  - split; simpl.
    + by split.
    + unfold MAX_PENDING_APPROVALS. rewrite map_size_empty. lia.
    + by intros o Ho%elem_of_nil.
    + constructor.
    + by intros o Ho%elem_of_nil.
    + intros id [p Hp]. by rewrite lookup_empty in Hp.
  - intros e response He. by apply elem_of_nil in He.
Qed.
End provider.

(** *** What a run received *)

Section received.
Context `{Externals} {S I : Type} `{!EventSink S} `{!Draws} `{!ApprovalDraws} `{!ApprovalDrawsOk}.
Context `{!CodexLibrary} `{!AppServerIo I}.

(** A request of a run: a frame of a connection, or a text the proxy forwards. *)
Definition received_in (ops : list ProviderOp) (route : ApprovalRoute) (id : RequestId) (method : rstring) (params : Value) : Prop :=
  Op_Request route id method params ∈ ops ∨
  ∃ text, Op_Observe route text ∈ ops ∧ parse_observed_server_text text = Ok (Observed_Request id method params).

Lemma provider_run_spec ops (w : ProviderWorld (S := S) (I := I)) :
  Forall op_valid ops →
  pgrows w (provider_run ops w) ∧
  (provider_inv (received_in ops) ∅ w → pfine (provider_run ops w) → provider_inv (received_in ops) ∅ (provider_run ops w)).
Proof.
  intros Hv. apply provider_run_received; [done|]. apply Forall_forall. intros [] Hop; cbn [op_received]; try done.
  - by left.
  - intros id method params Hp. right. eauto.
Qed.
End received.

