(* ===== verification/CodexRuns.v ===== *)
(** * A Codex session

    A concrete ingress, connection, JSON library and source of identities, and
    a session in which Codex asks whether it may run a command, the request is
    answered and Codex reports it resolved. *)

From stdpp Require Import base strings numbers sorting gmap list.
From S2P Require Import Prelude Bytes Json Values Snapshots Capability Interaction Event Aggregate AggregateSpec.
From S2P Require Import CodexMapper CodexMapperSpec CodexProtocol CodexApproval CodexApprovalSpec.
From S2P Require Import CodexInteractions CodexInteractionsSpec Examples.

(** The identity with a number, as long as it fits. *)
Definition toy_id {e} (n : nat) : Id e :=
  from_option MkId (example_id 0) (u ← of_raw (v7 (N.of_nat n)) : option Uuid; of_raw u).

(** An ingress that commits everything and a connection that keeps what it is given. *)
#[export] Instance toy_sink : EventSink unit := {| sink_event := λ _ s, (s, Answer_Published) |}.
#[export] Instance toy_draws : Draws :=
  {| fresh_event_id := λ n, toy_id (1000 + n); now_utc := λ _, example_time 100 |}.
#[export] Instance toy_io : AppServerIo (list rstring) := {| write_text := λ text c, (c ++ [text], Ok ()) |}.

#[export] Instance toy_approval_draws : ApprovalDraws := {|
  fresh_interaction_id := toy_id; fresh_approval_option_id := toy_id; fresh_choice_option_id := toy_id;
  fresh_form_field_id := toy_id; approval_now_utc := λ _, example_time 100; draw_horizon := 100
|}.

Lemma unrepeated_check {A} `{EqDecision A} (f : nat → A) n :
  bool_decide (NoDup (f <$> seq 0 n)) = true → unrepeated n f.
Proof.
  intros Hnd%bool_decide_eq_true i j Hi Hj Heq.
  apply (NoDup_lookup _ i j (f i) Hnd).
  - by rewrite list_lookup_fmap, lookup_seq_lt by done.
  - by rewrite list_lookup_fmap, lookup_seq_lt, Heq by done.
Qed.

#[export] Instance toy_approval_draws_ok : ApprovalDrawsOk.
Proof. split; apply unrepeated_check; vm_compute; reflexivity. Qed.

(** ** Documents *)

Definition resume_document : Value := object [("thread", object [
  ("id", VString (lit "t")); ("createdAt", from_i64 1); ("updatedAt", from_i64 2); ("cwd", VString (lit "/w"));
  ("name", Null); ("status", object [("type", VString (lit "idle"))]); ("turns", Array [])])].
Definition command_params : Value := object [
  ("threadId", VString (lit "t")); ("turnId", VString (lit "u")); ("itemId", VString (lit "i"));
  ("startedAtMs", from_i64 5); ("command", VString (lit "ls"))].
Definition resolved_params : Value := object [("threadId", VString (lit "t")); ("requestId", from_i64 7)].
Definition turn_params : Value := object [
  ("threadId", VString (lit "t")); ("turn", object [("id", VString (lit "u"))])].
Definition answer_document : Value := object [("id", from_i64 1); ("result", object [])].
Definition notification_document : Value := object [("method", VString (lit "turn/started")); ("params", turn_params)].

(** A library that reads these documents by their number, and prints a
    document as the method it names. *)
Definition documents : list Value := [answer_document; notification_document].

#[export] Instance toy_library : CodexLibrary := {|
  codex_from_str := λ text,
    match text with
    | [n] => ok_or (lit "unknown document") (documents !! N.to_nat n)
    | _ => Err (lit "unknown document")
    end;
  codex_to_string := λ v, Ok (default (lit "answer") (get_str "method" v));
  schema_violation := λ _ _, None;
  package_version := lit "1.0"
|}.

(** ** The session *)

Definition command_method : rstring := lit "item/commandExecution/requestApproval".
Definition toy_mapper : CodexEventMapper :=
  CodexEventMapper_new provider_1 [(MkExternalId (example_text "t"), session_1)] false.
Definition toy_start : ProviderWorld := provider_start toy_mapper () ([] : list rstring).

(** The first option, "Approve once", of the request. *)
Definition toy_response : InteractionResponse :=
  MkInteractionResponse (toy_id 4) session_1 channel_1 (example_time 6000000)
    (Response_Approval (MkApprovalSelection (toy_id 0))).

Definition toy_asked : list ProviderOp := [
  Op_Call (Call_Resume resume_document);
  Op_Request Route_Observer (RequestId_Number 7) command_method command_params].
Definition toy_ops : list ProviderOp := toy_asked ++ [
  Op_Respond toy_response;
  Op_Flush Route_Observer;
  Op_Notification Route_Observer (lit "serverRequest/resolved") resolved_params].

(** No two threads share a session. *)
Definition injective_check (m : gmap rstring SessionId) : bool :=
  forallb (λ a, forallb (λ b, bool_decide (a.2 = b.2 → a.1 = b.1)) (map_to_list m)) (map_to_list m).

Lemma injective_check_spec m id1 id2 sid :
  injective_check m = true → m !! id1 = Some sid → m !! id2 = Some sid → id1 = id2.
Proof.
  unfold injective_check. rewrite forallb_forall. intros Hc H1%elem_of_map_to_list H2%elem_of_map_to_list.
  specialize (Hc (id1, sid)). rewrite forallb_forall in Hc.
  assert (In (id1, sid) (map_to_list m)) as Hin1 by (by apply list_elem_of_In).
  assert (In (id2, sid) (map_to_list m)) as Hin2 by (by apply list_elem_of_In).
  by apply (bool_decide_eq_true_1 _ (Hc Hin1 (id2, sid) Hin2)).
Qed.

Definition fine_check (w : ProviderWorld (S := unit) (I := list rstring)) : bool :=
  (N.of_nat (length (committed (world w))) <? u64_max)%N && injective_check (configured (mapper (world w)))
  && (approval_draws w <=? draw_horizon)%nat.

Lemma fine_check_spec w : fine_check w = true → pfine w.
Proof.
  unfold fine_check. rewrite !andb_true_iff. intros [[Hl Hi] Hd]. split; [split|].
  - by apply N.ltb_lt.
  - intros id1 id2 sid. by apply injective_check_spec.
  - by apply Nat.leb_le.
Qed.

Lemma toy_ops_fine : pfine (provider_run toy_ops toy_start).
Proof. apply fine_check_spec. vm_compute. reflexivity. Qed.
Lemma toy_asked_fine : pfine (provider_run toy_asked toy_start).
Proof. apply fine_check_spec. vm_compute. reflexivity. Qed.

Lemma resume_document_valid : turns_listed resume_document.
Proof. intros thread [= <-]. by exists []. Qed.

Lemma toy_asked_valid : Forall op_valid toy_asked.
Proof. repeat constructor; [apply resume_document_valid|intros ? ? ?; discriminate]. Qed.
Lemma toy_ops_valid : Forall op_valid toy_ops.
Proof. apply Forall_app. split; [apply toy_asked_valid|]. repeat constructor. intros Hm. discriminate Hm. Qed.

(** What the session leads to, as checks that evaluate. *)
Lemma toy_responded :
  (event_payload <$> committed (world (provider_run toy_ops toy_start)) !! 2) = Some (InteractionResponded toy_response).
Proof. refine (bool_decide_eq_true_1 _ _). vm_compute. reflexivity. Qed.

Definition awaiting (o : option PendingApproval) : bool :=
  match o with Some p => match pending_status p with Pending_Awaiting => true | _ => false end | None => false end.

Lemma toy_asked_awaiting : awaiting (pending (approvals (provider_run toy_asked toy_start)) !! toy_id 4) = true.
Proof. vm_compute. reflexivity. Qed.
Lemma toy_asked_local : local_pending (local (provider_run toy_asked toy_start)) !! (toy_id 4 : InteractionId) = None.
Proof. apply eq_None_not_Some. refine (bool_decide_eq_false_1 _ _). vm_compute. reflexivity. Qed.

Definition succeeded {A} (r : result CodexProviderSourceError A) : bool := match r with Ok _ => true | Err _ => false end.
Lemma toy_prepared :
  succeeded (prepare_approval command_method command_params None session_1 0).2 = true ∧
  ((prepare_approval command_method command_params None session_1 0).1 <=? draw_horizon)%nat = true.
Proof. split; vm_compute; reflexivity. Qed.

(** A plan with one action, and the response that chooses it. *)
Definition toy_choice_response : InteractionResponse :=
  MkInteractionResponse (toy_id 2) session_1 channel_1 (example_time 200)
    (Response_Form (MkFormResponse [MkFormAnswer (toy_id 1) (Answer_Choice (toy_id 0))])).

Lemma toy_choice : ∃ n' choice,
  LocalChoice_new session_1 (lit "t") (lit "Plan") (lit "Go on?") true [(lit "Implement", None, Local_Implement)] 0
  = (n', Ok choice) ∧ n' ≤ draw_horizon ∧ request_id (local_request choice) = toy_id 2 ∧
  validate_response (local_request choice) toy_choice_response = Ok ().
Proof.
  destruct (LocalChoice_new session_1 (lit "t") (lit "Plan") (lit "Go on?") true
    [(lit "Implement", None, Local_Implement)] 0) as [n' r] eqn:E.
  set (check := λ x : nat * result CodexProviderSourceError LocalChoice,
    match x with
    | (n, Ok choice) => (n <=? draw_horizon)%nat && bool_decide (request_id (local_request choice) = toy_id 2)
        && match validate_response (local_request choice) toy_choice_response with Ok _ => true | Err _ => false end
    | _ => false
    end).
  assert (check (LocalChoice_new session_1 (lit "t") (lit "Plan") (lit "Go on?") true
    [(lit "Implement", None, Local_Implement)] 0) = true) as Hc by (vm_compute; reflexivity).
  rewrite E in Hc. unfold check in Hc. destruct r as [choice|]; [|done].
  apply andb_true_iff in Hc as [[Hn%Nat.leb_le Hid%bool_decide_eq_true]%andb_true_iff Hv].
  exists n', choice. split_and!; [done..|]. by destruct (validate_response _ _) as [[]|].
Qed.
