(* ===== verification/CodexTheorems.v ===== *)
(** * The Codex provider

    The properties of the Codex provider: the events it publishes, the
    notifications it ignores, the requests it makes and answers, and the
    interactions it carries between Codex and the bridge. *)

From stdpp Require Import base strings numbers sorting gmap list.
From S2P Require Import Prelude Bytes Json Values Snapshots Capability Interaction Event Aggregate AggregateSpec.
From S2P Require Import CodexMapper CodexMapperSpec CodexProtocol CodexApproval CodexApprovalSpec.
From S2P Require Import CodexInteractions CodexInteractionsSpec Examples CodexRuns.

Section provider.
Context `{Externals} {S I : Type} `{!EventSink S} `{!Draws} `{!ApprovalDraws} `{!ApprovalDrawsOk}.
Context `{!CodexLibrary} `{!AppServerIo I}.
Implicit Types (ops : list ProviderOp) (calls : list MapperCall) (response : InteractionResponse).

(** What the provider has done since it was created. *)
Abbreviation after ops pid ts discover sink c :=
  (provider_run ops (provider_start (S := S) (I := I) (CodexEventMapper_new pid ts discover) sink c)).

(** C3: the provider numbers the events of every session as its aggregate
    expects them.  After any frames, answers and failures of the ingress, the
    committed events of a tracked thread are numbered 1, 2, 3, ..., only the
    first one starts the session, the next one will get the next number, the
    thread's state and connection are those of the session any aggregate
    rebuilds from these events, and no event belongs to any other session. *)
Theorem codex_session_log ops pid ts discover sink c :
  Forall op_valid ops → pfine (after ops pid ts discover sink c) →
  let w := world (after ops pid ts discover sink c) in
  (∀ id t, threads (mapper w) !! id = Some t →
     let log := session_log (thread_session_id t) (committed w) in
     numbered 0 log ∧ counter_num (next_sequence t) = (N.of_nat (length log) + 1)%N ∧
     (∃ e0 s rest, log = e0 :: rest ∧ event_payload e0 = SessionStarted s ∧
        ∀ e s', e ∈ rest → event_payload e ≠ SessionStarted s') ∧
     ∀ cfg a, history cfg log a →
       thread_state t = session_state (session a) ∧ thread_connection t = session_connection_state (session a)) ∧
  ∀ e, e ∈ committed w → ∃ id t, threads (mapper w) !! id = Some t ∧ thread_session_id t = event_session_id e.
Proof.
  intros Hv Hf w. destruct (provider_run_spec ops (provider_start (CodexEventMapper_new pid ts discover) sink c) Hv)
    as [_ Hi]. destruct (pi_mapper _ _ _ (Hi (provider_start_inv _ _ _ _ _ _) Hf)) as [_ Hlog Hev]. split; [|done].
  intros id t Ht log. destruct (Hlog id t Ht) as [Hnum Hnext (e0 & s & rest & Hl & Hs & Hrest & Hst & Hc)].
  split_and!; [done|done|by exists e0, s, rest|]. intros cfg a Ha.
  destruct (history_session cfg log a s e0 rest Ha Hl Hs) as (_ & _ & -> & -> & _). done.
Qed.

(** A notification is mapped at most once.  Whatever was called before, at
    most 2048 keys of turns and items are remembered, without repetition; a
    notification that was mapped under such a key is ignored when it is
    repeated, and once the end of a turn is remembered everything that is still
    reported about it is ignored, without any effect. *)
Theorem codex_notifications_once calls pid ts discover sink :
  let w := mapper_calls calls (mapper_start (S := S) (CodexEventMapper_new pid ts discover) sink) in
  length (recent_order (mapper w)) ≤ RECENT_NOTIFICATION_LIMIT ∧ NoDup (recent_order (mapper w)) ∧
  recent_keys (mapper w) = list_to_set (recent_order (mapper w)) ∧
  (∀ method params tid key w', notification method params w = (w', Ok Mapped) →
     notification_thread params = Some tid → notification_key method params tid = Ok (Some key) →
     notification method params w' = (w', Ok ValidatedUnmapped)) ∧
  (∀ method params tid turn, turn_completed_key tid turn ∈ recent_keys (mapper w) →
     notification_thread params = Some tid → notification_turn params = Some turn →
     method ≠ lit "thread/started" → method ≠ lit "thread/status/changed" →
     notification method params w = (w, Ok ValidatedUnmapped)).
Proof.
  intros w. assert (recent_inv (mapper w)) as Hinv.
  { apply mapper_calls_recent_inv. split; simpl; [done|constructor|lia]. }
  destruct Hinv as [Hk Hn Hb]. split_and!; [done..| |].
  - intros method params tid key w' Hn' Ht Hkey. apply (notification_duplicate method params tid key); [done..|].
    destruct (notification_recent _ _ _ _ _ Hn') as [[_ Hnone]|(tid' & key' & m1 & Ht' & Hkey' & Hnew & Hs & Hm & _)].
    + by destruct (Hnone eq_refl tid key Ht).
    + rewrite Ht in Ht'. injection Ht' as <-. rewrite Hkey in Hkey'. injection Hkey' as <-. rewrite Hm.
      apply remember_key_inv; [by eapply recent_inv_same|]. by injection Hs as -> _.
  - intros method params tid turn Hin Ht Hturn. by apply (notification_late method params tid turn).
Qed.

(** C6: an interaction is reported as answered only after Codex was told.  After
    any run, an interaction is reported as answered only if Codex was written exactly
    the translation of that answer, for a request that had been announced; no
    interaction is answered twice, and nothing is sent that was not queued. *)
Theorem codex_reported_delivered ops pid ts discover sink c :
  Forall op_valid ops → pfine (after ops pid ts discover sink c) →
  let w := after ops pid ts discover sink c in
  (∀ e response, e ∈ committed (world w) → event_payload e = InteractionResponded response →
     delivered (written w) (committed (world w)) response) ∧
  NoDup (outbound_interaction_id <$> written w) ∧ sublist (written w) (taken w).
Proof.
  intros Hv Hf w. destruct (provider_run_spec ops (provider_start (CodexEventMapper_new pid ts discover) sink c) Hv)
    as [_ Hi]. destruct (Hi (provider_start_inv _ _ _ _ _ _) Hf) as [_ Ha _ _ _ Hw Hr]. split_and!; [done| |done].
  pose proof (ai_once _ _ _ Ha) as Hnd. rewrite fmap_app in Hnd. apply NoDup_app in Hnd as (Hnd & _ & _).
  eapply sublist_NoDup; [exact Hnd|]. by apply fmap_sublist_of.
Qed.

(** C19: every answer the core admits reaches Codex as the user read it.  After any
    run, a pending interaction stands for a request that came from Codex on its
    route with its identifier and method, and that was announced.  If it is
    unanswered and the core validates a response to it, the port accepts the
    response and queues what it stands for.  For an approval that is the exact
    decision for the label and description of the chosen option, with an
    amendment the one Codex proposed in that request and the option names.  For a
    form, whose fields show Codex' questions in order, it is the object from the
    identifier of each answered question to the text chosen or typed (the last
    one where Codex repeats an identifier). *)
Theorem codex_admitted_accepted ops pid ts discover sink c id p response :
  Forall op_valid ops → pfine (after ops pid ts discover sink c) →
  let w := after ops pid ts discover sink c in
  pending (approvals w) !! id = Some p → pending_status p = Pending_Awaiting → local_pending (local w) !! id = None →
  ∃ params prepared, received_in ops (pending_route p) (pending_request_id p) (pending_method p) params ∧
    prepared_from params prepared ∧ announced (committed (world w)) prepared ∧ request_id (prepared_request prepared) = id ∧
    (response_wf response → validate_response (prepared_request prepared) response = Ok () →
     ∃ value, translated params (request_payload (prepared_request prepared)) (pending_mapping p) (response_payload response) value ∧
       accept_interaction_response response w = (set_approvals (claimed response p value (approvals w)) w, Ok ())).
Proof.
  intros Hv Hf w Hp Hst Hlocal.
  destruct (provider_run_spec ops (provider_start (CodexEventMapper_new pid ts discover) sink c) Hv) as [_ Hi].
  specialize (Hi (provider_start_inv _ _ _ _ _ _) Hf).
  destruct (pi_prepared _ _ _ Hi id p Hp) as (prepared & ((params & Hrec & Hok) & Hwf & Hid & Hsid & Hmap) & Han).
  exists params, prepared. split; [done|]. split; [done|]. split; [by apply Han|]. split; [done|]. intros Hrwf Hval.
  apply validate_response_Ok in Hval as (Hrid & Hrsid & _ & _ & Hpay); [|done..].
  destruct (response_value_ok params prepared (response_payload response) id Hok Hpay) as (value & Hvalue & Htr).
  rewrite Hmap in Hvalue, Htr. exists value. split; [done|]. unfold accept_interaction_response.
  rewrite Hrid, Hid, (bool_decide_false _) by (by rewrite Hlocal, <-eq_None_not_Some).
  rewrite (claim_complete response _ (registered w) (taken w) p value); [done|apply Hi|congruence..| |].
  - congruence.
  - by rewrite Hrid, Hid.
Qed.

(** The state that correlates interactions is bounded and consistent.  After
    any run at most 64 requests are pending, each is found under its route and
    identity and under no other, no more responses are queued than requests
    are pending, each for the pending request it was claimed for, and the errors
    of a full queue and of an inconsistent index never occur. *)
Theorem codex_pending_bounded ops pid ts discover sink c :
  Forall op_valid ops → pfine (after ops pid ts discover sink c) →
  let w := after ops pid ts discover sink c in
  let s := approvals w in
  size (pending s) ≤ MAX_PENDING_APPROVALS ∧ length (outbound s) ≤ size (pending s) ∧
  (∀ key id, by_request s !! key = Some id ↔
     ∃ p, pending s !! id = Some p ∧ key = (pending_route p, pending_request_id p)) ∧
  (∀ o, o ∈ outbound s → ∃ p, pending s !! outbound_interaction_id o = Some p ∧ carries o p) ∧
  (∀ response n, (claim response s).2 ≠ Err (Port_OutboundQueueFull n)) ∧
  (∀ route id thread_id, (resolve route id thread_id s).2 ≠
     Err (source_protocol "approval request index was inconsistent")).
Proof.
  intros Hv Hf w s. destruct (provider_run_spec ops (provider_start (CodexEventMapper_new pid ts discover) sink c) Hv)
    as [_ Hi]. pose proof (pi_approvals _ _ _ (Hi (provider_start_inv _ _ _ _ _ _) Hf)) as Ha. fold w in Ha. fold s in Ha.
  destruct (ai_index _ _ _ Ha) as [Hsound Hcomplete]. split_and!.
  - apply Ha.
  - by eapply outbound_bounded.
  - intros key id. split; [by apply Hsound|]. intros (p & Hp & ->). by apply Hcomplete.
  - apply Ha.
  - intros response n. by eapply claim_never_full.
  - intros route id thread_id. unfold resolve, gets, mbind, act_bind, lift.
    destruct (by_request s !! (route, id)) as [iid|] eqn:Ek; [|done].
    destruct (Hsound _ _ Ek) as (p & -> & _). cbn [ok_or]. destruct (bool_decide _); [done|]. cbn [negb].
    intros Heq. vm_compute in Heq. discriminate Heq.
Qed.

(** Writing the queued responses ends.  Each round takes one response from
    the queue, so that as many rounds as there are responses, and one to see
    that none is left, decide the outcome; if the loop returns without an error
    no response for the route is left. *)
Theorem codex_flush_terminates route (w : ProviderWorld (S := S) (I := I)) :
  ∃ w' r, flush_approval_responses route w = Some (w', r) ∧
    (∀ fuel, length (outbound (approvals w)) < fuel → flush_loop fuel route w = Some (w', r)) ∧
    (r = Ok () → Forall (λ o, outbound_route o ≠ route) (outbound (approvals w'))).
Proof.
  destruct (flush_loop_spec (received_in []) (Datatypes.S (length (outbound (approvals w)))) route w) as (w' & r & Hl & _ & _ & Hr); [lia|].
  exists w', r. split_and!; [done| |done]. intros fuel Hfuel.
  rewrite <-Hl. apply flush_loop_fuel; lia.
Qed.
End provider.

Section protocol.
Context `{CodexLibrary}.

(** Codex's answers are matched with the requests they answer, once.  The
    identity of a new request was not pending; a frame that answers is matched
    with a pending request by its identity and read as the kind of answer that
    request expects, after which the request is no longer pending and a second
    answer is refused; every other frame leaves the requests alone. *)
Theorem codex_requests_correlated e expected params e1 id text :
  engine_inv e → (next_request_id e + 1 < 2 ^ 63)%Z → request expected params e = (e1, Ok (id, text)) →
  engine_inv e1 ∧ engine_pending e !! id = None ∧ engine_pending e1 = <[id := expected]> (engine_pending e) ∧
  ∀ v e2 f, parse_server_value v e1 = (e2, Ok f) →
    match frame_answers f with
    | Some (id', expected') => engine_pending e1 !! id' = Some expected' ∧
        RequestId_from_value (default Null (get "id" v)) = Ok id' ∧
        engine_pending e2 = delete id' (engine_pending e1) ∧
        ∃ error, parse_server_value v e2 = (e2, Err error)
    | None => e2 = e1
    end.
Proof.
  intros He Hn Hreq. destruct (request_spec _ _ _ _ _ He Hn Hreq) as (He1 & Hnone & Hp & _).
  split_and!; [done..|]. intros v e2 f Hparse. pose proof (parse_server_value_spec _ _ _ _ Hparse) as Hs. simpl in Hs.
  destruct (frame_answers f) as [[id' expected']|] eqn:Ef; [|done]. destruct Hs as (Hp' & Hid & ->).
  split_and!; [done..|]. apply (parse_answered v _ id'); [| |by apply lookup_delete_eq|done];
    unfold parse_server_value in Hparse; destruct (is_object v); try done; cbn [negb] in Hparse; cbv zeta in Hparse.
  destruct (has "method" v); [|done]. unfold lift in Hparse.
  destruct (method_frame _ _ _ _ _ _) as [f'|] eqn:Em; [|done]. injection Hparse as _ ->.
  by rewrite (method_frame_answers _ _ _ _ _ Em) in Ef.
Qed.

(** A proxied connection is observed as its owner sees it.  Every frame the
    owner of a connection accepts the observer accepts as the same request or
    notification, or passes it through if it is an answer; whatever the
    observer takes for a request or notification is one for the owner, in any
    state. *)
Theorem codex_observer_agrees text :
  (∀ e e' f, parse_server_text text e = (e', Ok f) → parse_observed_server_text text = Ok (observed f)) ∧
  (∀ o, parse_observed_server_text text = Ok o → o ≠ PassThrough →
     ∀ e, ∃ f, parse_server_text text e = (e, Ok f) ∧ observed f = o).
Proof. split; [apply parse_observed|apply parse_observed_method]. Qed.
End protocol.

Section presentation.
Context `{Externals} `{!ApprovalDraws} `{!ApprovalDrawsOk}.

(** An approval is presented as what it is, or not at all.  A prepared
    approval either shows the operation within the display limit with options
    that stand for the decision they announce, or shows nothing of it, offers
    no option and says why. *)
Theorem codex_approval_presented method params item sid n n' prepared :
  prepare_approval method params item sid n = (n', Ok prepared) → n' ≤ draw_horizon →
  approval_ok params prepared ∧ request_wf (prepared_request prepared) ∧
  request_session_id (prepared_request prepared) = sid.
Proof. intros Hp Hn. by destruct (prepare_approval_ok _ _ _ _ _ _ _ Hp Hn) as (? & ? & ? & _). Qed.

(** A choice of the host is answered once, by the action it shows.  Whatever
    response the core admits for a choice that is pending and unclaimed is
    accepted: the action of the option with the chosen label is queued with it,
    and every further response to the choice is refused. *)
Theorem codex_local_choice sid tid title prompt plan options n n' choice s response :
  LocalChoice_new sid tid title prompt plan options n = (n', Ok choice) → n' ≤ draw_horizon →
  local_pending s !! request_id (local_request choice) = Some choice → response_wf response →
  validate_response (local_request choice) response = Ok () →
  ∃ form answer opt option s', response_payload response = Response_Form form ∧ form_answers form = [answer] ∧
    answer_value answer = Answer_Choice (choice_option_id opt) ∧ option ∈ options ∧ raw (choice_label opt) = option.1.1 ∧
    local_claim response s = (s', Ok ()) ∧ local_responses s' = local_responses s ++ [(response, option.2)] ∧
    ∀ response', response_request_id response' = response_request_id response →
      local_claim response' s' = (s', Err (Port_InteractionAlreadyClaimed (response_request_id response))).
Proof.
  intros Hnew Hn Hp Hrwf Hval.
  destruct (LocalChoice_new_ok _ _ _ _ _ _ _ _ _ Hnew Hn) as (Hcl & Hwf & field & Hreq & Hother & Hoff).
  pose proof Hval as (Hrid & _ & _ & _ & Hpay)%validate_response_Ok; [|done..].
  rewrite Hreq in Hpay. destruct (response_payload response) as [| | |form] eqn:Epl; try done.
  destruct Hpay as [Hperm Hacc]. simpl in Hperm, Hacc. apply Permutation_singleton_r in Hperm.
  destruct (form_answers form) as [|answer [|]] eqn:Ea; try done. injection Hperm as Hid.
  specialize (Hacc field answer ltac:(left) ltac:(left) Hid).
  destruct (answer_value answer) as [oid|text] eqn:Eans; [|simpl in Hacc; by rewrite Hother in Hacc].
  apply list_elem_of_fmap in Hacc as (opt & -> & Hopt). apply list_elem_of_lookup in Hopt as [i Hi].
  destruct (Forall2_lookup_l _ _ _ _ _ Hoff Hi) as (option & Hoi & Hlabel & Haction).
  unfold local_claim, gets, mbind, act_bind, lift, modify. rewrite Hrid, Hp. cbn [ok_or]. rewrite Hcl, Hval. cbn [map_err].
  rewrite Epl, Ea, Eans, Haction. cbn [ok_or].
  exists form, answer, opt, option. eexists. split_and!; [done..|by eapply list_elem_of_lookup_2|done|reflexivity|done|].
  intros response' Hr'. rewrite Hr'. cbn [local_pending]. by rewrite lookup_insert_eq.
Qed.
End presentation.

(** ** Witnesses *)

Lemma outcome_pair {A B} (x : A * B) b : x.2 = b → x = (x.1, b).
Proof. destruct x. by intros <-. Qed.

Lemma codex_session_log_witness :
  let w := world (provider_run toy_ops toy_start) in
  length (committed w) = 3 ∧
  ∀ e, e ∈ committed w → ∃ id t, threads (mapper w) !! id = Some t ∧ thread_session_id t = event_session_id e.
Proof.
  split; [vm_compute; reflexivity|].
  exact (proj2 (codex_session_log toy_ops provider_1 [(MkExternalId (example_text "t"), session_1)] false () []
    toy_ops_valid toy_ops_fine)).
Defined.

Lemma codex_notifications_once_witness :
  let w := mapper_calls [Call_Resume resume_document] (mapper_start (S := unit) toy_mapper ()) in
  let w' := (notification (lit "turn/started") turn_params w).1 in
  (notification (lit "turn/started") turn_params w).2 = Ok Mapped ∧
  notification (lit "turn/started") turn_params w' = (w', Ok ValidatedUnmapped).
Proof.
  intros w w'. assert ((notification (lit "turn/started") turn_params w).2 = Ok Mapped) as Hm
    by (vm_compute; reflexivity). split; [exact Hm|].
  destruct (codex_notifications_once [Call_Resume resume_document] provider_1
    [(MkExternalId (example_text "t"), session_1)] false ()) as (_ & _ & _ & Hdup & _).
  apply (Hdup (lit "turn/started") turn_params (lit "t") (lit "turn/started:t:u")).
  - exact (outcome_pair _ _ Hm).
  - vm_compute. reflexivity.
  - vm_compute. reflexivity.
Defined.

Lemma codex_reported_delivered_witness :
  let w := provider_run toy_ops toy_start in
  (∃ e, e ∈ committed (world w) ∧ event_payload e = InteractionResponded toy_response) ∧
  delivered (written w) (committed (world w)) toy_response.
Proof.
  intros w.
  assert (∃ e, e ∈ committed (world w) ∧ event_payload e = InteractionResponded toy_response) as (e & He & Hp).
  { destruct (proj1 (fmap_Some _ _ _) toy_responded) as (e & He & Hp).
    exists e. split; [exact (list_elem_of_lookup_2 _ _ _ He)|exact (eq_sym Hp)]. }
  split; [exists e; split; [exact He|exact Hp]|].
  exact (proj1 (codex_reported_delivered toy_ops provider_1 [(MkExternalId (example_text "t"), session_1)] false ()
    [] toy_ops_valid toy_ops_fine) e toy_response He Hp).
Defined.

Lemma codex_pending_bounded_witness :
  let s := approvals (provider_run toy_asked toy_start) in
  size (pending s) = 1 ∧ size (pending s) ≤ MAX_PENDING_APPROVALS.
Proof.
  split; [vm_compute; reflexivity|].
  exact (proj1 (codex_pending_bounded toy_asked provider_1 [(MkExternalId (example_text "t"), session_1)] false () []
    toy_asked_valid toy_asked_fine)).
Defined.

Lemma codex_approval_presented_witness :
  ∃ n' prepared, prepare_approval command_method command_params None session_1 0 = (n', Ok prepared) ∧
    approval_ok command_params prepared.
Proof.
  destruct (prepare_approval command_method command_params None session_1 0) as [n' [prepared|err]] eqn:E.
  all: pose proof toy_prepared as [Hok Hn]; rewrite E in Hok, Hn; try discriminate Hok.
  exists n', prepared. split; [reflexivity|].
  exact (proj1 (codex_approval_presented command_method command_params None session_1 0 n' prepared E
    (proj1 (Nat.leb_le _ _) Hn))).
Defined.

(** Every request the run announces admits the response. *)
Lemma toy_asked_validated :
  forallb (λ e, match event_payload e with
                | InteractionRequested request => is_ok (validate_response request toy_response)
                | _ => true
                end) (committed (world (provider_run toy_asked toy_start))) = true.
Proof. vm_compute. reflexivity. Qed.

Lemma codex_admitted_accepted_witness :
  let w := provider_run toy_asked toy_start in
  ∃ p params prepared value, pending (approvals w) !! toy_id 4 = Some p ∧
    received_in toy_asked (pending_route p) (pending_request_id p) (pending_method p) params ∧
    announced (committed (world w)) prepared ∧ validate_response (prepared_request prepared) toy_response = Ok () ∧
    translated params (request_payload (prepared_request prepared)) (pending_mapping p) (response_payload toy_response) value ∧
    accept_interaction_response toy_response w = (set_approvals (claimed toy_response p value (approvals w)) w, Ok ()).
Proof.
  intros w. destruct (pending (approvals w) !! toy_id 4) as [p|] eqn:Hp.
  all: pose proof toy_asked_awaiting as Ha; fold w in Ha; rewrite Hp in Ha; try discriminate Ha.
  assert (pending_status p = Pending_Awaiting) as Hst
    by (simpl in Ha; destruct (pending_status p); [reflexivity|discriminate Ha..]).
  destruct (codex_admitted_accepted toy_asked provider_1 [(MkExternalId (example_text "t"), session_1)] false () []
    (toy_id 4) p toy_response toy_asked_valid toy_asked_fine Hp Hst toy_asked_local)
    as (params & prepared & Hrec & _ & Han & _ & Hacc).
  assert (validate_response (prepared_request prepared) toy_response = Ok ()) as Hval.
  { destruct Han as (_ & _ & e & He & Hpay).
    pose proof (proj1 (forallb_forall _ _) toy_asked_validated e (proj1 (list_elem_of_In _ _) He)) as Hok.
    cbv beta in Hok. rewrite Hpay in Hok. destruct (validate_response _ _) as [[]|]; [reflexivity|discriminate Hok]. }
  destruct (Hacc ltac:(exact Logic.I) Hval) as (value & Htr & Hc). exists p, params, prepared, value.
  split; [reflexivity|]. split; [exact Hrec|]. split; [exact Han|]. split; [exact Hval|]. split; [exact Htr|exact Hc].
Defined.

Lemma codex_requests_correlated_witness :
  let '(e1, r) := request Expect_Initialize (object []) ProtocolEngine_new in
  (∃ text, r = Ok (RequestId_Number 1, text)) ∧ engine_inv e1.
Proof.
  destruct (request Expect_Initialize (object []) ProtocolEngine_new) as [e1 r] eqn:E.
  assert ((request Expect_Initialize (object []) ProtocolEngine_new).2 = Ok (RequestId_Number 1, (lit "initialize"))) as Hr
    by (vm_compute; reflexivity). rewrite E in Hr. simpl in Hr. subst r.
  split; [exists (lit "initialize"); reflexivity|].
  refine (proj1 (codex_requests_correlated ProtocolEngine_new Expect_Initialize (object []) e1 (RequestId_Number 1)
    (lit "initialize") _ _ E)).
  - split; [split; [vm_compute; discriminate|vm_compute; reflexivity]|]. intros id [x Hx]. discriminate Hx.
  - vm_compute. reflexivity.
Defined.

(** The answer to that request is read, and the observer passes it through. *)
Lemma codex_observer_agrees_witness :
  ∃ e f, parse_server_text [0%N] (request Expect_Initialize (object []) ProtocolEngine_new).1 = (e, Ok f) ∧
    parse_observed_server_text [0%N] = Ok (observed f) ∧ observed f = PassThrough.
Proof.
  destruct (parse_server_text [0%N] (request Expect_Initialize (object []) ProtocolEngine_new).1) as [e [f|err]] eqn:E.
  2:{ assert (succeeded (parse_server_text [0%N] (request Expect_Initialize (object []) ProtocolEngine_new).1).2 = true)
        as Hs by (vm_compute; reflexivity). rewrite E in Hs. discriminate Hs. }
  exists e, f. split; [reflexivity|].
  pose proof (proj1 (codex_observer_agrees [0%N]) _ _ _ E) as Ho. split; [exact Ho|].
  assert (parse_observed_server_text [0%N] = Ok PassThrough) as Hp by (vm_compute; reflexivity).
  rewrite Hp in Ho. injection Ho as <-. reflexivity.
Defined.

Lemma codex_local_choice_witness :
  ∃ choice s', local_claim toy_choice_response (MkLocal {[ toy_id 2 := choice ]} []) = (s', Ok ()) ∧
    snd <$> local_responses s' = [Local_Implement].
Proof.
  destruct toy_choice as (n' & choice & Hnew & Hn & Hid & Hval).
  destruct (codex_local_choice session_1 (lit "t") (lit "Plan") (lit "Go on?") true
    [(lit "Implement", None, Local_Implement)] 0 n' choice (MkLocal {[ toy_id 2 := choice ]} []) toy_choice_response
    Hnew Hn) as (form & answer & opt & option & s' & _ & _ & _ & Hin & _ & Hclaim & Hresp & _).
  - rewrite Hid. apply lookup_singleton_eq.
  - split; [discriminate|]. repeat constructor. apply not_elem_of_nil.
  - exact Hval.
  - exists choice, s'. split; [exact Hclaim|]. rewrite Hresp.
    apply list_elem_of_singleton in Hin as ->. reflexivity.
Defined.

(** With one response queued. *)
Lemma codex_flush_terminates_witness :
  let w := provider_run (toy_asked ++ [Op_Respond toy_response]) toy_start in
  length (outbound (approvals w)) = 1 ∧
  ∃ w' r, flush_approval_responses Route_Observer w = Some (w', r).
Proof.
  intros w. split; [vm_compute; reflexivity|].
  destruct (codex_flush_terminates Route_Observer w) as (w' & r & Hf & _). exists w', r. exact Hf.
Defined.
