(* ===== verification/CodexHost.v ===== *)
(** * The Codex mapper over the Bridge

    The mapper publishes through the handle its Runtime Host issued
    ([mapper.rs], [publish_committed]); here the ingress is the model of that
    Host.  Whatever else other endpoints do with the Bridge in between, the
    aggregate it keeps for a session is in step with the thread the mapper
    tracks. *)

From stdpp Require Import base strings numbers sorting gmap list.
From S2P Require Import Prelude Bytes Json Values Snapshots Capability Interaction Event Aggregate AggregateSpec.
From S2P Require Import Routing Bridge BridgeSpec Runtime RuntimeSpec CodexMapper CodexMapperSpec.
From S2P Require Import Examples CodexRuns.

Section host.
Context `{Externals} `{!Draws}.
Context (thread : ThreadId) (handle : ProviderEventHandle).
(** The text of an ingress error. *)
Context (describe : ProviderEventIngressError → rstring).

(** How [publish_committed] reads the answer of [publish_event]. *)
Definition ingress_answer (r : result ProviderEventIngressError ProviderEventReport) : PublishAnswer :=
  match r with
  | Ok _ => Answer_Published
  | Err (Provider_Bridge (ChannelHandoffs report)) =>
      Answer_Committed (N.of_nat (length (List.filter (λ d, negb (is_delivered d)) (report_deliveries report))))
  | Err error => Answer_Rejected (describe error)
  end.

(** What the others did to the Host before the publication with a number. *)
Context (others : nat → RuntimeHost → RuntimeHost).

Definition host_sink : EventSink (nat * RuntimeHost) := {|
  sink_event := λ event '(n, host),
    let '(host', r) := publish_event thread handle event (others n host) in ((1 + n, host'), ingress_answer r)
|}.
#[local] Existing Instance host_sink.

Abbreviation World := (MapperWorld (nat * RuntimeHost)).
Implicit Types (w : World) (e : AgentEvent).

Abbreviation the_bridge host := (shared_bridge (bridge host)).
Definition bridge_of w : Bridge := the_bridge (sink w).2.

(** *** Other operations of the Bridge *)

Abbreviation pid := (handle_provider_id handle).

(** What any other endpoint does: everything but publishing as this provider. *)
Inductive other_step : relation Bridge :=
| other_step_op op b : op_wf op → (∀ e, op ≠ Op_ProviderEvent pid e) → other_step b (run_op op b).

(** Only events change the aggregates. *)
Lemma run_op_sessions op b :
  (∀ p e, op ≠ Op_ProviderEvent p e) →
  sessions (run_op op b) = sessions b ∧ session_config (run_op op b) = session_config b.
Proof.
  intros Hop. destruct op as [port|port|cid sid|cid sid n max|cid sid|cid|p e|cid r|cid c]; cbn [run_op].
  - unfold register_provider. unfold_act. by case_bool_decide.
  - unfold register_channel. unfold_act. by case_bool_decide.
  - destruct (subscribe _ _ _) as [b' r] eqn:E.
    apply subscribe_inv in E as [[-> _]|[[-> _]|(c & a & p & l & _ & _ & _ & _ & _ & Hb)]]; [done..|].
    cbv zeta in Hb. destruct (contains _ _); [destruct (channel_handoff _ _).2|]; by destruct Hb as [-> _].
  - destruct (sync_session _ _ _ _ _) as [b' r] eqn:E.
    apply sync_session_inv in E as [[-> _]|[[-> _]|(c & a & p & sync & _ & _ & _ & _ & _ & Hb)]]; [done..|].
    cbv zeta in Hb. destruct (channel_handoff _ _).2; destruct Hb as [-> _]; [by destruct (sync_is_final sync)|done].
  - destruct (unsubscribe _ _ _) as [b' r] eqn:E.
    apply unsubscribe_inv in E as [[-> _]|(_ & _ & _ & subs & -> & _)]; done.
  - by rewrite unsubscribe_channel_frame.
  - by destruct (Hop p e).
  - destruct (handle_interaction_response _ _ _) as [b' r'] eqn:E.
    by apply handle_interaction_response_inv in E as [[-> _]|(? & ? & ? & ? & _ & _ & _ & _ & _ & _ & -> & _)].
  - destruct (handle_command _ _ _) as [b' r'] eqn:E.
    by apply handle_command_inv in E as [[-> _]|(? & ? & ? & _ & _ & _ & _ & _ & -> & _)].
Qed.

(** An event that is not turned away was published by its session's provider. *)
Lemma handle_provider_event_validated p e b b' r :
  handle_provider_event p e b = (b', r) →
  (∃ err, r = Err err ∧ rejection err) ∨
  ∃ rp s, providers b !! p = Some rp ∧ routing_session_of b e = Ok s ∧
    validate_provider_event (registered_provider_descriptor rp) s e = Ok ().
Proof.
  unfold handle_provider_event. unfold_act.
  destruct (providers b !! p) as [rp|] eqn:Ep; simpl; [|naive_solver].
  destruct (routing_session_of b e) as [s|err] eqn:Es; simpl.
  2:{ intros [= <- <-]. left. exists err. split; [done|]. unfold routing_session_of in Es. by repeat case_match; simplify_eq. }
  destruct (validate_provider_event _ s e) as [[]|] eqn:Ev; simpl; [|naive_solver]. eauto 10.
Qed.

(** The aggregates of this provider are left alone by everyone else. *)
Definition owned b (sid : SessionId) (a : SessionAggregate) : Prop :=
  sessions b !! sid = Some a ∧ session_provider_id (session a) = pid.

Lemma event_owner p e b rp s a :
  bridge_inv b → providers b !! p = Some rp → routing_session_of b e = Ok s →
  validate_provider_event (registered_provider_descriptor rp) s e = Ok () →
  sessions b !! event_session_id e = Some a ∨ reduces b e a → session_provider_id (session a) = p.
Proof.
  intros Hb Hp Hs Hv Ha. apply validate_provider_event_Ok in Hv as (Hpid & _ & _ & _).
  rewrite (inv_providers _ Hb _ _ Hp) in Hpid. rewrite Hpid. unfold routing_session_of in Hs.
  destruct Ha as [Ha|[(a0 & Ha & Happ)|[Hnone Hinit]]].
  - rewrite Ha in Hs. by injection Hs as <-.
  - rewrite Ha in Hs. injection Hs as <-. by apply apply_frame in Happ as [_ ->].
  - rewrite Hnone in Hs. apply from_initial_Ok in Hinit as (_ & s' & Hs' & ->). rewrite Hs' in Hs. by injection Hs as <-.
Qed.

Lemma other_step_frame b b' :
  bridge_inv b → other_step b b' →
  bridge_inv b' ∧ session_config b' = session_config b ∧ ∀ sid a, owned b sid a → owned b' sid a.
Proof.
  intros Hb Hstep. destruct Hstep as [op b0 Hwf Hop]. split; [by apply run_op_inv|].
  assert ((∃ p e, op = Op_ProviderEvent p e) ∨ ∀ p e, op ≠ Op_ProviderEvent p e) as [(p & e & ->)|Hno].
  { destruct op as [| | | | | |p e| |]; [by right..|left; by exists p, e|by right|by right]. }
  2:{ destruct (run_op_sessions op b0 Hno) as [Hs ->]. unfold owned. by rewrite Hs. }
  assert (p ≠ pid) as Hp by (intros ->; by destruct (Hop e)). cbn [run_op].
  destruct (handle_provider_event p e b0) as [b1 r] eqn:Eh. pose proof (handle_provider_event_validated _ _ _ _ _ Eh) as Hv.
  apply handle_provider_event_inv in Eh as
    [(-> & _)|[(-> & _)|(rp & s & routes & a' & Hrp & Hs & Hval & _ & Hred & -> & _)]]; [done..| |done|done].
  split; [done|]. intros sid a [Ha Hown]. split; [|done]. simpl. rewrite lookup_insert_ne; [done|].
  intros <-. apply Hp. rewrite <-Hown. symmetry. by eapply (event_owner p e b0); [..|left].
Qed.

Lemma other_steps_frame b b' :
  bridge_inv b → rtc other_step b b' →
  bridge_inv b' ∧ session_config b' = session_config b ∧ ∀ sid a, owned b sid a → owned b' sid a.
Proof.
  intros Hb Hsteps. induction Hsteps as [|b1 b2 b3 Hstep _ IH]; [done|].
  destruct (other_step_frame b1 b2 Hb Hstep) as (Hb2 & Hcfg & Hown).
  destruct (IH Hb2) as (Hb3 & Hcfg' & Hown'). split; [done|]. split; [congruence|auto].
Qed.

(** *** Publications of the mapper *)

(** The Bridge holds, for every session with committed events, the aggregate of
    exactly these events. *)
Definition linked w : Prop := ∀ sid, session_log sid (committed w) ≠ [] →
  ∃ a, owned (bridge_of w) sid a ∧ history (session_config (bridge_of w)) (session_log sid (committed w)) a.
Definition all_numbered (log : list AgentEvent) : Prop := ∀ sid, numbered 0 (session_log sid log).

(** A publication leaves the Bridge alone, repeats its last event, or applies. *)
Lemma publish_event_cases e host host' r :
  bridge_inv (shared_bridge (bridge host)) → event_wf e → publish_event thread handle e host = (host', r) →
  let b := shared_bridge (bridge host) in
  let b' := shared_bridge (bridge host') in
  (b' = b ∧ ∃ message, ingress_answer r = Answer_Rejected message) ∨
  ((∀ message, ingress_answer r ≠ Answer_Rejected message) ∧
   (b' = b ∧ (∃ a, owned b (event_session_id e) a ∧ e = last_event a) ∨
    bridge_inv b' ∧ session_config b' = session_config b ∧
    ∃ a', reduces b e a' ∧ session_provider_id (session a') = pid ∧
      sessions b' = <[event_session_id e := a']> (sessions b))).
Proof.
  intros Hb Hwf. unfold publish_event, gets, mbind, act_bind, id.
  destruct (host_alive host); cbn [negb]; [|intros [= <- <-]; left; by eauto].
  destruct (permit_enter host (provider_permit handle)); cbn [negb]; [|intros [= <- <-]; left; by eauto].
  unfold with_access, wrap. destruct (bool_decide _); [intros [= <- <-]; left; by eauto|].
  destruct (handle_provider_event _ e _) as [b' r'] eqn:Eh.
  pose proof (run_op_inv (Op_ProviderEvent pid e) _ Hb Hwf) as Hb'.
  cbn [run_op] in Hb'. rewrite Eh in Hb'. cbn [fst] in Hb'. intros [= <- <-].
  pose proof (handle_provider_event_validated _ _ _ _ _ Eh) as Hv.
  apply handle_provider_event_inv in Eh as
    [(-> & err & -> & Hrej)|[(-> & -> & a & Ha & He)|(p & s & routes & a' & Hp & Hs & Hval & _ & Hred & -> & ->)]];
    [| | |done|done].
  - left. split; [done|]. exists (describe (Provider_Bridge err)). by destruct err.
  - right. split; [done|]. left. split; [done|]. exists a. split; [|done]. split; [done|].
    destruct Hv as [(err & [=] & _)|(rp & s & Hrp & Hs & Hval)]. by eapply event_owner; [..|left].
  - right. split; [unfold report_result; by destruct (has_failures _)|]. right. split; [done|]. split; [done|].
    exists a'. split; [done|]. split; [|done]. by eapply (event_owner pid e (shared_bridge (bridge host))); [..|right].
Qed.

Lemma session_log_numbered e log : all_numbered (log ++ [e]) → all_numbered log.
Proof.
  intros Hn sid i x Hi. apply (Hn sid i x). unfold session_log. rewrite filter_app. by apply lookup_app_l_Some.
Qed.

(** The log only grows, the Bridge stays consistent, and the two stay in step. *)
Definition in_step : relation World := λ w w',
  bridge_inv (bridge_of w) → bridge_inv (bridge_of w') ∧
  (all_numbered (committed w') → all_numbered (committed w) ∧ (linked w → linked w')).

#[local] Instance in_step_preorder : PreOrder in_step.
Proof.
  split; [by intros w Hb|]. intros w1 w2 w3 H12 H23 Hb1. destruct (H12 Hb1) as [Hb2 Hl12].
  destruct (H23 Hb2) as [Hb3 Hl23]. split; [done|]. intros Hn3. destruct (Hl23 Hn3) as [Hn2 Hk].
  destruct (Hl12 Hn2) as [Hn1 Hk']. auto.
Qed.

Lemma in_step_same w w' : committed w' = committed w → sink w' = sink w → in_step w w'.
Proof. intros Hc Hs. unfold in_step, linked, bridge_of. rewrite Hc, Hs. auto. Qed.

(** The number of the next event of a log. *)
Lemma numbered_last l e : numbered 0 (l ++ [e]) → event_num e = N.of_nat (length l + 1).
Proof. intros Hn. apply (Hn (length l) e). by rewrite lookup_app_r, Nat.sub_diag by lia. Qed.

Lemma reduces_history b e a' log :
  bridge_inv b → event_wf e → reduces b e a' → numbered 0 (log ++ [e]) →
  (log ≠ [] → ∃ a, sessions b !! event_session_id e = Some a ∧ history (session_config b) log a) →
  history (session_config b) (log ++ [e]) a'.
Proof.
  intros Hb Hwf Hred Hnum%numbered_last Hlog. destruct Hred as [(a & Ha & Happ)|[Hnone Hinit]].
  - destruct log as [|e0 log].
    + exfalso. destruct (inv_sessions _ Hb _ _ Ha) as (_ & h & p & Hh & _).
      destruct (history_cursor _ _ _ Hh) as (_ & _ & Hlen & _). apply history_nonempty in Hh.
      apply apply_Applied in Happ as (Hc & _). apply validate_cursor_false in Hc as [_ Hnum'].
      simpl in Hnum. destruct h; [done|]. simpl in Hlen. lia.
    + destruct Hlog as (a0 & Ha0 & Hh); [done|]. rewrite Ha in Ha0. injection Ha0 as <-. by eapply history_step.
  - destruct log as [|e0 log]; [by apply history_init|]. destruct Hlog as (a & Ha & _); [done|]. congruence.
Qed.

Lemma retry_history b e log a :
  bridge_inv b → sessions b !! event_session_id e = Some a → e = last_event a → numbered 0 (log ++ [e]) →
  (log ≠ [] → ∃ a, sessions b !! event_session_id e = Some a ∧ history (session_config b) log a) →
  history (session_config b) (log ++ [e]) a.
Proof.
  intros Hb Ha He Hnum%numbered_last Hlog. destruct log as [|e0 log].
  - destruct (inv_sessions _ Hb _ _ Ha) as (_ & h & p & Hh & _).
    destruct (history_cursor _ _ _ Hh) as (_ & Hlast & Hlen & _). rewrite <-He in Hlast, Hlen. simpl in Hnum.
    destruct h as [|e1 [|e2 h]]; [done| |simpl in Hlen; lia]. injection Hlast as ->. done.
  - exfalso. destruct Hlog as (a0 & Ha0 & Hh); [done|]. rewrite Ha in Ha0. injection Ha0 as <-.
    destruct (history_cursor _ _ _ Hh) as (_ & _ & Hlen & _). rewrite <-He in Hlen. lia.
Qed.

(** An accepted event is the next one of its session and of no other. *)
Lemma linked_publish w w' e a :
  committed w' = committed w ++ [e] → session_config (bridge_of w') = session_config (bridge_of w) →
  sessions (bridge_of w') = <[event_session_id e := a]> (sessions (bridge_of w)) →
  session_provider_id (session a) = pid →
  ((session_log (event_session_id e) (committed w) ≠ [] →
      ∃ a, sessions (bridge_of w) !! event_session_id e = Some a ∧
           history (session_config (bridge_of w)) (session_log (event_session_id e) (committed w)) a) →
   history (session_config (bridge_of w)) (session_log (event_session_id e) (committed w) ++ [e]) a) →
  linked w → linked w'.
Proof.
  intros Hc Hcfg Hses Hpid Hh Hlinked sid. unfold linked, owned. rewrite Hc, Hcfg, Hses.
  destruct (decide (event_session_id e = sid)) as [<-|Hsid].
  - intros _. exists a. rewrite session_log_snoc_same, lookup_insert_eq. split; [done|]. apply Hh.
    intros Hne. destruct (Hlinked _ Hne) as (a0 & [Ha0 _] & Hh0). eauto.
  - rewrite session_log_snoc_ne, lookup_insert_ne by done. apply Hlinked.
Qed.

(** The others leave the link alone. *)
Lemma linked_others w w' :
  committed w' = committed w → session_config (bridge_of w') = session_config (bridge_of w) →
  (∀ sid a, owned (bridge_of w) sid a → owned (bridge_of w') sid a) → linked w → linked w'.
Proof.
  intros Hc Hcfg Hown Hl sid. rewrite Hc, Hcfg. intros (a & Ha & Hh)%Hl. eauto.
Qed.

Hypothesis others_do : ∀ n host, rtc other_step (the_bridge host) (the_bridge (others n host)).

Lemma in_step_publish e w : event_wf e → in_step w (publish_committed e w).1.
Proof using others_do.
  intros Hwf. destruct w as [m [n host] d mapped failures log]. set (w := MkMapperWorld _ _ _ _ _ _).
  set (w1 := MkMapperWorld m (n, others n host) d mapped failures log).
  trans w1.
  { intros Hb. destruct (other_steps_frame _ _ Hb (others_do n host)) as (Hb1 & Hcfg & Hown). split; [done|].
    intros Hn. split; [done|]. by apply linked_others. }
  intros Hb. unfold publish_committed. cbn [sink_event host_sink sink w].
  destruct (publish_event thread handle e (others n host)) as [host' r] eqn:Ep.
  destruct (publish_event_cases e (others n host) host' r Hb Hwf Ep) as [(Heq & message & Hans)|(Hans & Hcases)].
  { rewrite Hans. unfold linked, bridge_of. simpl. rewrite Heq. auto. }
  set (w' := match ingress_answer r with Answer_Published => _ | Answer_Committed _ => _ | Answer_Rejected _ => _ end).
  assert (committed w'.1 = committed w1 ++ [e] ∧ bridge_of w'.1 = the_bridge host') as [Hc Hbr].
  { unfold w'. destruct (ingress_answer r); [done..|]. by edestruct Hans. }
  clearbody w'. clear Hans Ep. change (the_bridge (others n host)) with (bridge_of w1) in Hb, Hcases.
  cbv zeta in Hcases. rewrite <-Hbr in Hcases. clearbody w1.
  destruct Hcases as [(Heq & a & [Ha Hown] & He)|(Hb' & Hcfg & a & Hred & Hown & Hses)];
    (split; [by rewrite ?Heq|]); intros Hnum; rewrite Hc in Hnum; (split; [by eapply session_log_numbered|]);
    specialize (Hnum (event_session_id e)); rewrite session_log_snoc_same in Hnum.
  - apply (linked_publish w1 w'.1 e a); [done|by rewrite Heq| |done|by apply retry_history].
    by rewrite Heq, insert_id.
  - apply (linked_publish w1 w'.1 e a); [done..|]. by apply reduces_history.
Qed.

(** *** Calls of the mapper *)

(** The payloads other parts of the provider publish were built by their constructors. *)
Definition payload_wf_call (c : MapperCall) : Prop :=
  match c with
  | Call_Publish _ _ payload => event_payload_wf payload
  | Call_LocalChoice _ request _ => request_wf request
  | _ => True
  end.

Lemma plain_wf payload : plain payload → event_payload_wf payload.
Proof. by destruct payload. Qed.

Lemma in_step_call c w : payload_wf_call c → in_step w (mapper_call c w).
Proof using others_do.
  intros Hc. destruct c as [method params| | | | | |tid r plan| |tid at' payload| | | |].
  1: refine (respects_notification in_step event_payload_wf _ _ _ plain_wf _ method params _ w).
  all: try refine (respects_call in_step event_payload_wf _ _ _ plain_wf _ _ w _ _ _).
  all: try (intros f m _; by apply in_step_same).
  all: try (intros m; by apply in_step_same).
  all: try (intros e m He Hs; by apply in_step_publish).
  all: try (intros s Hs; exact Hs).
  all: try (intros method params; discriminate).
  all: try (intros ? ? ? [= <- <- <-]; exact Hc).
  intros key m. by apply in_step_same.
Qed.

Lemma in_step_calls calls w : Forall payload_wf_call calls → in_step w (mapper_calls calls w).
Proof using others_do.
  intros Hall. revert w. induction Hall as [|c calls Hc _ IH]; intros w; [reflexivity|].
  etrans; [by apply in_step_call|apply IH].
Qed.

Lemma mapper_inv_numbered w : mapper_inv w → all_numbered (committed w).
Proof.
  intros [_ Hlog Hev] sid. destruct (session_log sid (committed w)) as [|e log] eqn:El; [done|].
  assert (e ∈ session_log sid (committed w)) as [Hsid He]%list_elem_of_filter by (rewrite El; left).
  destruct (Hev e He) as (id & t & Ht & Hst). rewrite <-El, <-Hsid, <-Hst. apply (Hlog id t Ht).
Qed.

(** What the Bridge knows of a tracked thread. *)
Lemma linked_thread w id t :
  mapper_inv w → linked w → threads (mapper w) !! id = Some t →
  ∃ a, owned (bridge_of w) (thread_session_id t) a ∧
    history (session_config (bridge_of w)) (session_log (thread_session_id t) (committed w)) a ∧
    counter_num (next_sequence t) = (event_num (last_event a) + 1)%N ∧
    thread_state t = session_state (session a) ∧ thread_connection t = session_connection_state (session a).
Proof.
  intros Hw Hl Ht. destruct (mi_log _ Hw id t Ht) as [_ Hnext (e0 & s & rest & Hlog & Hs & _ & Hst & Hc)].
  destruct (Hl (thread_session_id t)) as (a & Ha & Hh); [by rewrite Hlog|]. exists a. split; [done|]. split; [done|].
  destruct (history_cursor _ _ _ Hh) as (_ & _ & -> & _).
  destruct (history_session _ _ _ s e0 rest Hh Hlog Hs) as (_ & _ & -> & -> & _). done.
Qed.

(** C4: the Bridge and the mapper agree on every session.  Whatever the mapper
    is called with and whatever other endpoints do to the Bridge before, between
    and after its publications, the Bridge holds for each thread the mapper
    tracks an aggregate of this provider that is the replay of exactly the
    events the mapper regards as committed; the next event the mapper will
    publish carries the number the aggregate expects next, and the thread's
    state and connection are the session's. *)
Theorem codex_bridge_lockstep cfg host calls mapper_provider ts discover :
  reachable_host cfg host → Forall call_valid calls → Forall payload_wf_call calls →
  let w := mapper_calls calls (mapper_start (CodexEventMapper_new mapper_provider ts discover) (0, host)) in
  fine w → ∀ b, rtc other_step (bridge_of w) b →
  ∀ id t, threads (mapper w) !! id = Some t →
  ∃ a, owned b (thread_session_id t) a ∧
    replay_with_config (session_log (thread_session_id t) (committed w)) (session_config b) = Ok a ∧
    counter_num (next_sequence t) = (event_num (last_event a) + 1)%N ∧
    thread_state t = session_state (session a) ∧ thread_connection t = session_connection_state (session a).
Proof using others_do.
  intros Hreach Hvalid Hwf w Hfine b Hsteps id t Ht. set (w0 := mapper_start _ _) in w.
  assert (mapper_inv w) as Hw by (apply (maps_calls calls w0); [done|apply mapper_start_inv|done]).
  destruct (in_step_calls calls w0 Hwf) as [Hb Hl]; [by eapply host_inv_bridge, reachable_host_inv|]. fold w in Hb, Hl.
  destruct (Hl (mapper_inv_numbered _ Hw)) as [_ Hlink].
  destruct (linked_thread w id t Hw) as (a & Ha & Hh & Hrest); [by apply Hlink; intros sid []|done|].
  destruct (other_steps_frame _ _ Hb Hsteps) as (_ & -> & Hown). exists a. split; [auto|]. split; [|done].
  by apply history_replay.
Qed.
End host.

(** A Host with a registered and started provider; before its second
    publication, a channel subscribes to the session. *)
Definition lockstep_host : RuntimeHost := run_host_op (HostOp_Start []) host_setup.
Definition lockstep_handle : ProviderEventHandle := MkProviderEventHandle provider_1 0.
Definition lockstep_others (n : nat) (host : RuntimeHost) : RuntimeHost :=
  match n with
  | 1 => set_bridge (MkSharedBridge (run_op (Op_Subscribe channel_1 session_1) (shared_bridge (bridge host)))
                       (shared_owner (bridge host))) host
  | _ => host
  end.
Definition lockstep_calls : list MapperCall :=
  [Call_Resume resume_document; Call_Notification (lit "turn/started") turn_params].
Definition lockstep_world : MapperWorld (nat * RuntimeHost) :=
  mapper_calls (EventSink0 := host_sink 0 lockstep_handle (λ _, []) lockstep_others) lockstep_calls
    (mapper_start toy_mapper (0, lockstep_host)).

Lemma lockstep_others_do n host :
  rtc (other_step lockstep_handle) (shared_bridge (bridge host)) (shared_bridge (bridge (lockstep_others n host))).
Proof.
  destruct n as [|[|n]]; [constructor| |constructor]. apply rtc_once, other_step_op; [exact I|]. intros e. discriminate.
Qed.
Lemma lockstep_reachable : reachable_host SessionAggregateConfig_retain_all lockstep_host.
Proof. eapply rtc_r; [apply host_setup_reachable|]. apply host_step_op. by split. Qed.
Lemma lockstep_fine : fine lockstep_world.
Proof.
  split.
  - apply N.ltb_lt. vm_compute. reflexivity.
  - intros id1 id2 sid. apply injective_check_spec. vm_compute. reflexivity.
Qed.
Lemma lockstep_tracked : bool_decide (is_Some (threads (mapper lockstep_world) !! lit "t")) = true.
Proof. vm_compute. reflexivity. Qed.

(** In that run two events are committed, the channel is subscribed, and the
    Bridge's aggregate is the one the mapper's thread expects. *)
Lemma codex_bridge_lockstep_witness :
  length (committed lockstep_world) = 2 ∧ is_subscribed (bridge_of lockstep_world) channel_1 session_1 = true ∧
  ∃ t a, threads (mapper lockstep_world) !! lit "t" = Some t ∧
    owned lockstep_handle (bridge_of lockstep_world) (thread_session_id t) a ∧
    counter_num (next_sequence t) = (event_num (last_event a) + 1)%N.
Proof.
  split; [vm_compute; reflexivity|]. split; [vm_compute; reflexivity|].
  destruct (bool_decide_eq_true_1 _ lockstep_tracked) as [t Ht].
  assert (Forall call_valid lockstep_calls) as Hvalid.
  { constructor; [apply resume_document_valid|]. constructor; [discriminate|constructor]. }
  assert (Forall payload_wf_call lockstep_calls) as Hwf by (repeat constructor).
  destruct (codex_bridge_lockstep 0 lockstep_handle (λ _, []) lockstep_others lockstep_others_do
    SessionAggregateConfig_retain_all lockstep_host lockstep_calls provider_1
    [(MkExternalId (example_text "t"), session_1)] false lockstep_reachable Hvalid Hwf lockstep_fine
    (bridge_of lockstep_world) (rtc_refl _ _) (lit "t") t Ht) as (a & Ha & _ & Hnext & _).
  exists t, a. split; [exact Ht|]. split; [exact Ha|exact Hnext].
Defined.
