(* ===== verification/CodexControl.v ===== *)
(** * The command state of the Codex provider

    Models [agentpulse-providers/codex/src/control.rs]: the bounded queues of
    commands and prompts the port fills and the worker empties. *)

From stdpp Require Import base strings numbers sorting gmap list.
From S2P Require Import Prelude Bytes Json Values Snapshots Capability Interaction Event CodexMapper CodexProtocol.
From S2P Require Import CodexApproval CodexInteractions.

Definition MAX_COMMANDS : nat := 64.
Definition MAX_PROMPTS_PER_SESSION : nat := 32.
Definition MAX_PROMPT_BYTES : N := 65536.
Definition MAX_QUEUED_PROMPT_BYTES : N := 1048576.

Record TurnDefaults : Type := MkTurnDefaults {
  default_model : option rstring;
  default_effort : option rstring;
  plan_mode : bool;
  permission_profile : option rstring
}.
Definition no_defaults : TurnDefaults := MkTurnDefaults None None false None.

(** [bytes] is a [usize]; the sums stay far below its range. *)
Record PromptQueue : Type := MkPromptQueue {
  paused : bool;
  queue_bytes : N;
  queue_prompts : list NonEmptyText
}.
Definition PromptQueue_new : PromptQueue := MkPromptQueue false 0 [].

Section control.
Context `{Externals}.

(** [local] is the field [local] of [ProviderWorld]. *)
Record ControlRuntimeState : Type := MkControls {
  revise_requested : gset SessionId;
  commands : list AgentCommand;
  prompts : gmap SessionId PromptQueue;
  turn_defaults : gmap SessionId TurnDefaults;
  inflight_turns : gmap SessionId bool
}.

Definition ControlRuntimeState_new : ControlRuntimeState := MkControls ∅ [] ∅ ∅ ∅.

Definition set_revise v (s : ControlRuntimeState) : ControlRuntimeState :=
  MkControls v (commands s) (prompts s) (turn_defaults s) (inflight_turns s).
Definition set_commands v (s : ControlRuntimeState) : ControlRuntimeState :=
  MkControls (revise_requested s) v (prompts s) (turn_defaults s) (inflight_turns s).
Definition set_prompts v (s : ControlRuntimeState) : ControlRuntimeState :=
  MkControls (revise_requested s) (commands s) v (turn_defaults s) (inflight_turns s).
Definition set_turn_defaults v (s : ControlRuntimeState) : ControlRuntimeState :=
  MkControls (revise_requested s) (commands s) (prompts s) v (inflight_turns s).
Definition set_inflight v (s : ControlRuntimeState) : ControlRuntimeState :=
  MkControls (revise_requested s) (commands s) (prompts s) (turn_defaults s) v.

Implicit Types (s : ControlRuntimeState) (sid : SessionId).

Abbreviation controlling A := (act ControlRuntimeState CodexProviderPortError A).

Definition push (command : AgentCommand) : controlling unit := λ s,
  if (MAX_COMMANDS <=? length (commands s))%nat then (s, Err (Port_CommandQueueFull MAX_COMMANDS))
  else (set_commands (commands s ++ [command]) s, Ok ()).

(** [entry(session_id).or_insert_with(PromptQueue::new)], then a change. *)
Definition queue_of s sid : PromptQueue := default PromptQueue_new (prompts s !! sid).
Definition with_queue (f : PromptQueue → PromptQueue) sid s : ControlRuntimeState :=
  set_prompts (<[sid := f (queue_of s sid)]> (prompts s)) s.

Definition total_bytes (m : gmap SessionId PromptQueue) : N :=
  foldr N.add 0%N (queue_bytes <$> btree_values m).

Definition pause (q : PromptQueue) : PromptQueue := MkPromptQueue true (queue_bytes q) (queue_prompts q).
Definition resume (q : PromptQueue) : PromptQueue := MkPromptQueue false (queue_bytes q) (queue_prompts q).
Definition clear (q : PromptQueue) : PromptQueue := MkPromptQueue (paused q) 0 [].
Definition queue_action (action : QueueAction) : PromptQueue → PromptQueue :=
  match action with Queue_Pause => pause | Queue_Resume => resume | Queue_Clear => clear end.
Definition push_prompt (text : NonEmptyText) (q : PromptQueue) : PromptQueue :=
  MkPromptQueue (paused q) (queue_bytes q + text_bytes text) (queue_prompts q ++ [text]).

(** Whether a plan of the session waits for an answer. *)
Definition plan_waiting (l : LocalInteractions) sid : bool :=
  existsb (λ choice, local_plan choice && bool_decide (request_session_id (local_request choice) = sid))
    (btree_values (local_pending l)).

Definition accept_prompt (l : LocalInteractions) sid (text : NonEmptyText) : controlling unit := λ s,
  if (MAX_PROMPT_BYTES <? text_bytes text)%N then (s, Err (Port_PromptTooLarge (text_bytes text) MAX_PROMPT_BYTES))
  else
    let queue := queue_of s sid in
    if (MAX_PROMPTS_PER_SESSION <=? length (queue_prompts queue))%nat
       || (MAX_QUEUED_PROMPT_BYTES <? usize_saturating_add (total_bytes (prompts s)) (text_bytes text))%N
    then (with_queue id sid s, Err (Port_PromptQueueFull MAX_PROMPTS_PER_SESSION))
    else
      let s' := with_queue (push_prompt text) sid s in
      (if plan_waiting l sid then set_revise ({[sid]} ∪ revise_requested s') s' else s', Ok ()).

Definition accept (l : LocalInteractions) (command : AgentCommand) : controlling unit :=
  match command_payload command with
  | SubmitPrompt text Delivery_Queue => accept_prompt l (command_session_id command) text
  | Queue action => _ ← modify (with_queue (queue_action action) (command_session_id command)); push command
  | CancelSession _ => _ ← modify (with_queue pause (command_session_id command)); push command
  | _ => push command
  end.

Definition pop_command s : ControlRuntimeState * option AgentCommand :=
  match commands s with
  | [] => (s, None)
  | command :: rest => (set_commands rest s, Some command)
  end.

Definition queued_sessions s : list SessionId :=
  List.filter (λ sid,
    let queue := queue_of s sid in
    negb (paused queue) && negb (is_empty (queue_prompts queue)) && negb (bool_decide (is_Some (inflight_turns s !! sid))))
    (btree_keys (prompts s)).

Definition front_prompt s sid : option NonEmptyText := head (queue_prompts (queue_of s sid)).

Definition pop_prompt sid s : ControlRuntimeState * option NonEmptyText :=
  match prompts s !! sid with
  | Some queue =>
      match queue_prompts queue with
      | prompt :: rest =>
          (set_prompts (<[sid := MkPromptQueue (paused queue) (queue_bytes queue - text_bytes prompt) rest]> (prompts s)) s,
           Some prompt)
      | [] => (s, None)
      end
  | None => (s, None)
  end.

Definition mark_turn_inflight sid s : ControlRuntimeState := set_inflight (<[sid := false]> (inflight_turns s)) s.
Definition inflight_sessions s : list SessionId := btree_keys (inflight_turns s).

Definition observe_turn sid (active : bool) s : ControlRuntimeState :=
  match inflight_turns s !! sid with
  | None => s
  | Some observed =>
      if active then set_inflight (<[sid := true]> (inflight_turns s)) s
      else if observed : bool then set_inflight (delete sid (inflight_turns s)) s else s
  end.

Definition clear_turn_inflight sid s : ControlRuntimeState := set_inflight (delete sid (inflight_turns s)) s.
Definition pause_prompts sid s : ControlRuntimeState := with_queue pause sid s.
Definition clear_all_inflight s : ControlRuntimeState := set_inflight ∅ s.

Definition defaults s sid : TurnDefaults := default no_defaults (turn_defaults s !! sid).
Definition defaults_mut (f : TurnDefaults → TurnDefaults) sid s : ControlRuntimeState :=
  set_turn_defaults (<[sid := f (defaults s sid)]> (turn_defaults s)) s.

Definition queue_summary s sid : nat * N * bool :=
  let queue := queue_of s sid in (length (queue_prompts queue), queue_bytes queue, paused queue).
End control.

(** ** Correctness *)

(** [BTreeMap::values], in any order. *)
Lemma btree_values_Permutation {K V} `{Countable K, Ranked K} (m : gmap K V) : btree_values m ≡ₚ (map_to_list m).*2.
Proof.
  unfold btree_values, btree_keys, btree_elements. rewrite merge_sort_Permutation.
  assert (elements (dom m) ≡ₚ (map_to_list m).*1) as ->.
  { apply NoDup_Permutation; [apply NoDup_elements|apply NoDup_fst_map_to_list|]. intros k.
    rewrite elem_of_elements, elem_of_dom, list_elem_of_fmap. split.
    - intros [v Hv]. exists (k, v). by rewrite elem_of_map_to_list.
    - intros ([k' v] & -> & Hv%elem_of_map_to_list). eauto. }
  assert (∀ l : list (K * V), (∀ p, p ∈ l → m !! p.1 = Some p.2) → omap (λ k, m !! k) l.*1 = l.*2) as Hl.
  { induction l as [|[k v] l IH]; intros Hp; [done|]. cbn. pose proof (Hp (k, v) ltac:(left)) as Hkv. cbn in Hkv. rewrite Hkv. cbn. f_equal. apply IH.
    intros p Hin. apply Hp. by right. }
  rewrite Hl; [done|]. intros [k v]. by rewrite elem_of_map_to_list.
Qed.

Section control.
Context `{Externals}.
Implicit Types (s : ControlRuntimeState) (sid : SessionId) (m : gmap SessionId PromptQueue) (q : PromptQueue).

(** ** Sums *)

Definition text_sum (l : list NonEmptyText) : N := foldr N.add 0%N (text_bytes <$> l).

Lemma text_sum_app l l' : text_sum (l ++ l') = (text_sum l + text_sum l')%N.
Proof. unfold text_sum. rewrite fmap_app. induction (text_bytes <$> l) as [|n ns IH]; cbn; [done|]. rewrite IH. lia. Qed.

Lemma sum_Permutation (l l' : list N) : l ≡ₚ l' → foldr N.add 0%N l = foldr N.add 0%N l'.
Proof. induction 1; simpl; lia. Qed.

Lemma total_bytes_fold m : total_bytes m = foldr N.add 0%N (queue_bytes <$> (map_to_list m).*2).
Proof. unfold total_bytes. apply sum_Permutation. by rewrite btree_values_Permutation. Qed.

Lemma total_bytes_insert_new m sid q : m !! sid = None → total_bytes (<[sid := q]> m) = (queue_bytes q + total_bytes m)%N.
Proof.
  intros Hm. rewrite !total_bytes_fold. rewrite (sum_Permutation _ (queue_bytes <$> ((sid, q) :: map_to_list m).*2)); [done|].
  by rewrite map_to_list_insert.
Qed.

(** A queue is replaced. *)
Lemma total_bytes_insert m sid q :
  (total_bytes (<[sid := q]> m) + queue_bytes (default PromptQueue_new (m !! sid)) = total_bytes m + queue_bytes q)%N.
Proof.
  destruct (m !! sid) as [q'|] eqn:Hm; simpl; [|rewrite total_bytes_insert_new by done; lia].
  rewrite <-(insert_delete_id m sid q') at 2 by done. rewrite <-insert_delete_eq.
  rewrite !total_bytes_insert_new by apply lookup_delete_eq. lia.
Qed.

(** ** Bounds *)

Definition queue_ok q : Prop :=
  length (queue_prompts q) ≤ MAX_PROMPTS_PER_SESSION ∧ queue_bytes q = text_sum (queue_prompts q).

Record controls_ok s : Prop := {
  ok_commands : length (commands s) ≤ MAX_COMMANDS;
  ok_queues : map_Forall (λ _, queue_ok) (prompts s);
  ok_total : (total_bytes (prompts s) <= MAX_QUEUED_PROMPT_BYTES)%N
}.

Lemma queue_ok_new : queue_ok PromptQueue_new.
Proof. split; [simpl; lia|done]. Qed.

Lemma queue_of_ok s sid : controls_ok s → queue_ok (queue_of s sid).
Proof.
  intros Hs. unfold queue_of. destruct (prompts s !! sid) as [q|] eqn:Hq; [exact (ok_queues _ Hs _ _ Hq)|apply queue_ok_new].
Qed.

(** A change of a queue that adds no bytes. *)
Lemma with_queue_ok f sid s :
  controls_ok s → queue_ok (f (queue_of s sid)) → (queue_bytes (f (queue_of s sid)) <= queue_bytes (queue_of s sid))%N →
  controls_ok (with_queue f sid s).
Proof.
  intros [Hc Hq Ht] Hf Hle. split; [done| |].
  - by apply map_Forall_insert_2.
  - cbn [with_queue set_prompts prompts]. pose proof (total_bytes_insert (prompts s) sid (f (queue_of s sid))). unfold queue_of in *. lia.
Qed.

Lemma push_ok command s : controls_ok s → controls_ok (push command s).1.
Proof.
  intros [Hc Hq Ht]. unfold push. destruct (Nat.leb_spec MAX_COMMANDS (length (commands s))); [done|]. split; [|done..].
  simpl. rewrite length_app. simpl. unfold MAX_COMMANDS in *. lia.
Qed.

Lemma accept_prompt_ok l sid text s : controls_ok s → controls_ok (accept_prompt l sid text s).1.
Proof.
  intros Hs. pose proof (queue_of_ok s sid Hs) as [Hlen Hsum]. unfold accept_prompt.
  destruct (_ <? _)%N; [done|]. cbv zeta. destruct (Nat.leb_spec MAX_PROMPTS_PER_SESSION (length (queue_prompts (queue_of s sid)))).
  { apply with_queue_ok; [done|by apply queue_of_ok|done]. }
  cbn [orb]. destruct (N.ltb_spec MAX_QUEUED_PROMPT_BYTES (usize_saturating_add (total_bytes (prompts s)) (text_bytes text))) as [|Hfit].
  { apply with_queue_ok; [done|by apply queue_of_ok|done]. }
  assert (controls_ok (with_queue (push_prompt text) sid s)) as [Hc Hq Ht]; [|destruct (plan_waiting l sid); by split].
  destruct Hs as [Hc Hq Ht]. split; [done| |].
  - apply map_Forall_insert_2; [|done]. split; cbn [push_prompt queue_prompts queue_bytes].
    + rewrite length_app. simpl. unfold MAX_PROMPTS_PER_SESSION in *. lia.
    + rewrite text_sum_app, Hsum. unfold text_sum. simpl. lia.
  - cbn [with_queue set_prompts prompts]. pose proof (total_bytes_insert (prompts s) sid (push_prompt text (queue_of s sid))) as Hins.
    cbn [push_prompt queue_bytes] in Hins. unfold queue_of, usize_saturating_add, MAX_QUEUED_PROMPT_BYTES, u64_max in *. lia.
Qed.

Lemma queue_action_ok action q : queue_ok q → queue_ok (queue_action action q) ∧ (queue_bytes (queue_action action q) <= queue_bytes q)%N.
Proof.
  intros [Hl Hs]. destruct action; cbn [queue_action pause resume clear queue_bytes]; (split; [|lia]); [done..|apply queue_ok_new].
Qed.

Lemma accept_ok l command s : controls_ok s → controls_ok (accept l command s).1.
Proof.
  intros Hs. unfold accept. destruct (command_payload command) as [text []|reason| | | | | | | | | | | | | | action];
    try (by apply push_ok).
  - by apply accept_prompt_ok.
  - unfold mbind, act_bind, modify. apply push_ok, with_queue_ok; [done|by apply queue_of_ok|done].
  - unfold mbind, act_bind, modify. apply push_ok.
    destruct (queue_action_ok action (queue_of s (command_session_id command)) (queue_of_ok _ _ Hs)). by apply with_queue_ok.
Qed.

Lemma pop_prompt_ok sid s : controls_ok s → controls_ok (pop_prompt sid s).1.
Proof.
  intros Hs. unfold pop_prompt. destruct (prompts s !! sid) as [q|] eqn:Hq; [|done].
  pose proof (queue_of_ok s sid Hs) as Hok. unfold queue_of in Hok. rewrite Hq in Hok. simpl in Hok. destruct Hok as [Hl Hb].
  destruct (queue_prompts q) as [|prompt rest] eqn:Hp; [done|]. change (text_sum (prompt :: rest)) with (text_bytes prompt + text_sum rest)%N in Hb. cbn [length] in Hl.
  pose proof (total_bytes_insert (prompts s) sid (MkPromptQueue (paused q) (queue_bytes q - text_bytes prompt) rest)) as Hins.
  rewrite Hq in Hins. cbn [default from_option id queue_bytes] in Hins. destruct Hs as [Hc Hqs Ht]. split; [done| |].
  - apply map_Forall_insert_2; [|done]. split; cbn [queue_prompts queue_bytes]; lia.
  - cbn [fst set_prompts prompts]. lia.
Qed.

(** ** Operations *)

Inductive ControlOp : Type :=
| Ctl_Accept (l : LocalInteractions) (command : AgentCommand)
| Ctl_PopCommand
| Ctl_PopPrompt (sid : SessionId)
| Ctl_MarkInflight (sid : SessionId)
| Ctl_Observe (sid : SessionId) (active : bool)
| Ctl_ClearInflight (sid : SessionId)
| Ctl_Pause (sid : SessionId)
| Ctl_ClearAllInflight
| Ctl_Defaults (f : TurnDefaults → TurnDefaults) (sid : SessionId)
| Ctl_TakeRevisions.

(** The state after an operation, and the prompt it took. *)
Definition run_control (op : ControlOp) s : ControlRuntimeState * option NonEmptyText :=
  match op with
  | Ctl_Accept l command => ((accept l command s).1, None)
  | Ctl_PopCommand => ((pop_command s).1, None)
  | Ctl_PopPrompt sid => pop_prompt sid s
  | Ctl_MarkInflight sid => (mark_turn_inflight sid s, None)
  | Ctl_Observe sid active => (observe_turn sid active s, None)
  | Ctl_ClearInflight sid => (clear_turn_inflight sid s, None)
  | Ctl_Pause sid => (pause_prompts sid s, None)
  | Ctl_ClearAllInflight => (clear_all_inflight s, None)
  | Ctl_Defaults f sid => (defaults_mut f sid s, None)
  | Ctl_TakeRevisions => (set_revise ∅ s, None)
  end.
Definition control_after (ops : list ControlOp) s : ControlRuntimeState := foldl (λ s op, (run_control op s).1) s ops.

Lemma run_control_ok op s : controls_ok s → controls_ok (run_control op s).1.
Proof.
  intros Hs. pose proof Hs as [Hc Hq Ht]. destruct op; cbn [run_control fst]; try (by split).
  - by apply accept_ok.
  - unfold pop_command. destruct (commands s) as [|c rest] eqn:E; [done|]. split; [simpl in *; lia|done..].
  - by apply pop_prompt_ok.
  - unfold observe_turn. destruct (inflight_turns s !! sid) as [[]|]; [destruct active..|]; by split.
  - apply with_queue_ok; [done|by apply queue_of_ok|done].
Qed.

Lemma control_after_ok ops s : controls_ok s → controls_ok (control_after ops s).
Proof. revert s. induction ops as [|op ops IH]; intros s Hs; [done|]. apply IH. by apply run_control_ok. Qed.

Lemma controls_new_ok : controls_ok ControlRuntimeState_new.
Proof. split; [simpl; lia|apply map_Forall_empty|done]. Qed.

(** ** Order *)

(** The prompts of a session an operation queued, took and dropped. *)
Definition queued_by sid op s : list NonEmptyText :=
  match op with
  | Ctl_Accept l command =>
      match command_payload command with
      | SubmitPrompt text Delivery_Queue =>
          if bool_decide (command_session_id command = sid) && is_ok (accept l command s).2 then [text] else []
      | _ => []
      end
  | _ => []
  end.
Definition taken_by sid op s : list NonEmptyText :=
  match op with
  | Ctl_PopPrompt sid' => if bool_decide (sid' = sid) then option_list (run_control op s).2 else []
  | _ => []
  end.
Definition clears sid op : bool :=
  match op with
  | Ctl_Accept _ command =>
      bool_decide (command_payload command = Queue Queue_Clear) && bool_decide (command_session_id command = sid)
  | _ => false
  end.

Fixpoint queued_prompts sid (ops : list ControlOp) s : list NonEmptyText :=
  match ops with
  | [] => []
  | op :: ops' => queued_by sid op s ++ queued_prompts sid ops' (run_control op s).1
  end.
Fixpoint taken_prompts sid (ops : list ControlOp) s : list NonEmptyText :=
  match ops with
  | [] => []
  | op :: ops' => taken_by sid op s ++ taken_prompts sid ops' (run_control op s).1
  end.

Abbreviation prompts_of s sid := (queue_prompts (queue_of s sid)).

Lemma queue_of_with f sid sid' s : queue_of (with_queue f sid s) sid' = if decide (sid' = sid) then f (queue_of s sid) else queue_of s sid'.
Proof.
  unfold queue_of, with_queue. simpl. destruct (decide (sid' = sid)) as [->|Hne]; [by rewrite lookup_insert_eq|].
  by rewrite lookup_insert_ne.
Qed.
Lemma queue_of_push command s sid : queue_of (push command s).1 sid = queue_of s sid.
Proof. unfold push. by destruct (_ <=? _)%nat. Qed.

Lemma accept_prompt_order l sid' text s sid :
  prompts_of (accept_prompt l sid' text s).1 sid =
  prompts_of s sid ++ (if bool_decide (sid' = sid) && is_ok (accept_prompt l sid' text s).2 then [text] else []).
Proof.
  unfold accept_prompt. destruct (_ <? _)%N; [simpl; by rewrite andb_false_r, app_nil_r|]. cbv zeta.
  destruct (_ || _); cbn [fst snd is_ok].
  { rewrite queue_of_with, andb_false_r, app_nil_r. by case_decide; subst. }
  assert (∀ b : bool, queue_of (if b then set_revise ({[sid']} ∪ revise_requested (with_queue (push_prompt text) sid' s))
    (with_queue (push_prompt text) sid' s) else with_queue (push_prompt text) sid' s) sid =
    queue_of (with_queue (push_prompt text) sid' s) sid) as -> by (by intros []).
  rewrite queue_of_with, andb_true_r. destruct (decide (sid = sid')) as [->|Hne].
  - by rewrite bool_decide_eq_true_2.
  - rewrite bool_decide_eq_false_2 by congruence. by rewrite app_nil_r.
Qed.

Lemma accept_order l command s sid :
  clears sid (Ctl_Accept l command) = false →
  prompts_of (accept l command s).1 sid = prompts_of s sid ++ queued_by sid (Ctl_Accept l command) s.
Proof.
  unfold queued_by, clears, accept. destruct (command_payload command) as [text []|reason| | | | | | | | | | | | | | action] eqn:Hp; intros Hc;
    try (by rewrite queue_of_push, app_nil_r).
  - apply accept_prompt_order.
  - unfold mbind, act_bind, modify. rewrite queue_of_push, queue_of_with, app_nil_r.
    by destruct (decide (sid = command_session_id command)) as [->|].
  - unfold mbind, act_bind, modify. rewrite queue_of_push, queue_of_with, app_nil_r.
    destruct (decide (sid = command_session_id command)) as [->|]; [|done].
    destruct action; try done. by rewrite !bool_decide_eq_true_2 in Hc.
Qed.

Lemma pop_prompt_order sid' s sid :
  (if bool_decide (sid' = sid) then option_list (pop_prompt sid' s).2 else []) ++ prompts_of (pop_prompt sid' s).1 sid = prompts_of s sid.
Proof.
  unfold pop_prompt, queue_of. destruct (decide (sid' = sid)) as [->|Hne].
  - rewrite bool_decide_eq_true_2 by done. destruct (prompts s !! sid) as [q|] eqn:Hq; [|simpl; by rewrite Hq].
    destruct (queue_prompts q) as [|prompt rest] eqn:Hp; simpl; [by rewrite Hq|]. by rewrite lookup_insert_eq.
  - rewrite bool_decide_eq_false_2 by done. destruct (prompts s !! sid') as [q|]; [|done].
    destruct (queue_prompts q); [done|]. simpl. by rewrite lookup_insert_ne.
Qed.

Lemma run_control_order sid op s :
  clears sid op = false → taken_by sid op s ++ prompts_of (run_control op s).1 sid = prompts_of s sid ++ queued_by sid op s.
Proof.
  destruct op; intros Hc; try (simpl; by rewrite app_nil_r).
  - by apply accept_order.
  - simpl. rewrite app_nil_r. unfold pop_command. by destruct (commands s).
  - cbn [taken_by run_control queued_by]. rewrite app_nil_r. apply pop_prompt_order.
  - simpl. rewrite app_nil_r. unfold observe_turn. by destruct (inflight_turns s !! _) as [[]|]; [destruct active..|].
  - simpl. rewrite app_nil_r. unfold pause_prompts. rewrite queue_of_with. by case_decide; subst.
Qed.

(** What was taken, then what waits: what was queued. *)
Lemma control_order sid ops s :
  forallb (λ op, negb (clears sid op)) ops = true →
  taken_prompts sid ops s ++ prompts_of (control_after ops s) sid = prompts_of s sid ++ queued_prompts sid ops s.
Proof.
  revert s. induction ops as [|op ops IH]; intros s; cbn [forallb taken_prompts queued_prompts]; [by rewrite app_nil_r|].
  intros [Hc%negb_true_iff Hops]%andb_true_iff. rewrite <-(assoc_L (++)).
  change (control_after (op :: ops) s) with (control_after ops (run_control op s).1). rewrite (IH _ Hops).
  rewrite !(assoc_L (++)). f_equal. by apply run_control_order.
Qed.
(** Clearing leaves nothing to take, even when the queue of commands is full. *)
Lemma pop_cleared l command s sid :
  command_payload command = Queue Queue_Clear → command_session_id command = sid →
  (pop_prompt sid (accept l command s).1).2 = None.
Proof.
  intros Hc Hsid. unfold accept. rewrite Hc, Hsid. unfold mbind, act_bind, modify.
  assert (prompts (push command (with_queue (queue_action Queue_Clear) sid s)).1 = prompts (with_queue (queue_action Queue_Clear) sid s)) as Hp.
  { unfold push. by destruct (_ <=? _)%nat. }
  unfold pop_prompt. rewrite Hp. cbn [with_queue set_prompts prompts]. by rewrite lookup_insert_eq.
Qed.
End control.
