(* ===== verification/CodexWorker.v ===== *)
(** * The observer worker of the Codex provider

    Models the command half of [agentpulse-providers/codex/src/runtime.rs]
    ([run_worker] to [process_live_frame]) and [runtime/local.rs]: commands of
    the phone become requests to the App Server, whose responses are matched
    with the command that caused them. *)

From stdpp Require Import base strings numbers sorting gmap list.
From S2P Require Import Prelude Bytes Json Values Snapshots Capability Interaction Event Dto.
From S2P Require Import CodexMapper CodexProtocol CodexApproval CodexInteractions CodexControl.

(** A literal that is not ASCII. *)
Definition utf8 (s : string) : rstring := default [] (utf8_decode (lit s)).

(** ** Catalogs *)

Definition supported_reasoning_efforts (model : Value) : list rstring :=
  omap (get_str "reasoningEffort") (default [] (get "supportedReasoningEfforts" model ≫= as_array)).

Definition find_model (models : list Value) (id : rstring) : option Value :=
  List.find (λ value, bool_decide (get_str "id" value = Some id)) models.

Definition validate_model_selection (response : Value) (requested_model : rstring) (requested_effort : option rstring) :
    result rstring unit :=
  models ← ok_or (lit "Codex model catalog omitted data") (get "data" response ≫= as_array);
  model ← ok_or (lit "unknown model `" ++ requested_model ++ lit "`; run /model to list valid IDs")
            (find_model models requested_model);
  match requested_effort with
  | None => Ok ()
  | Some effort =>
      let supported := supported_reasoning_efforts model in
      if bool_decide (effort ∈ supported) then Ok ()
      else Err (lit "effort `" ++ effort ++ lit "` is not supported by `" ++ requested_model
                ++ lit "`; valid efforts: "
                ++ (if is_empty supported then lit "none advertised" else join (lit ", ") supported))
  end.

(** [sort_by_key] with a [bool]: stable, [false] first. *)
Definition current_first (current_cwd : option rstring) (values : list Value) : list Value :=
  let elsewhere value := negb (bool_decide (get_str "cwd" value = current_cwd)) in
  List.filter (λ v, negb (elsewhere v)) values ++ List.filter elsewhere values.

Definition dash : rstring := utf8 " — ".

Definition model_line (value : Value) : rstring :=
  let id := default (lit "?") (get_str "id" value) in
  let name := default id (get_str "displayName" value) in
  let efforts := supported_reasoning_efforts value in
  if is_empty efforts then id ++ dash ++ name
  else id ++ dash ++ name ++ dash ++ lit "efforts: " ++ join (lit ", ") efforts.

Definition profile_line (value : Value) : rstring :=
  default (lit "?") (get_str "id" value) ++ dash ++ default [] (get_str "description" value).

(** [get("name").or_else(get("preview")).and_then(as_str)] *)
Definition thread_line (value : Value) : rstring :=
  let title := match get "name" value with Some v => Some v | None => get "preview" value end ≫= as_str in
  default (lit "?") (get_str "id" value) ++ dash ++ default (lit "Untitled") title ++ dash
  ++ default (lit "?") (get_str "cwd" value).

Definition format_catalog (expected : ExpectedResponse) (response : Value) (current_cwd : option rstring) :
    result CodexProviderSourceError rstring :=
  data ← ok_or (source_protocol "catalog response omitted data") (get "data" response ≫= as_array);
  lines ← match expected with
          | Expect_ModelList =>
              Ok (lit "Available models (/model <id> [effort]):" :: (model_line <$> current_first current_cwd data))
          | Expect_PermissionProfileList =>
              Ok (lit "Permission profiles (/permissions <id>):" :: (profile_line <$> data))
          | Expect_ThreadList =>
              Ok (lit "Threads, newest first (/resume <id>):" :: (thread_line <$> data)
                  ++ match get_str "nextCursor" response with
                     | Some cursor => [lit "More: /resume --cursor " ++ cursor]
                     | None => []
                     end)
          | _ => Err (source_protocol "non-catalog response used as a catalog")
          end;
  Ok (join [10%N] lines).

(** ** Parameters *)

Definition text_input (text : rstring) : Value := object [("type", VString (lit "text")); ("text", VString text)].
Definition turn_input (text : rstring) : Value := Array [text_input text].
Definition optional_value (text : option rstring) : Value := from_option VString Null text.
Definition insert_field (field : string) (value : Value) (params : Value) : Value :=
  match params with Object entries => Object (entries_insert (lit field) value entries) | _ => params end.
Definition insert_optional (field : string) (text : option rstring) (params : Value) : Value :=
  match text with Some text => insert_field field (VString text) params | None => params end.

Definition sandbox_policy (profile : rstring) : option Value :=
  let named name := bool_decide (profile = lit name) in
  if named "read-only" || named "read_only" then Some (object [("type", VString (lit "readOnly"))])
  else if named "workspace-write" || named "workspace_write" then Some (object [("type", VString (lit "workspaceWrite"))])
  else if named "danger-full-access" || named "danger_full_access"
  then Some (object [("type", VString (lit "dangerFullAccess"))])
  else None.

Definition apply_turn_defaults (params : Value) (d : TurnDefaults) (thread_settings : option (rstring * option rstring)) :
    result CodexProviderSourceError Value :=
  if negb (is_object params) then Err (source_protocol "turn/start params must be an object")
  else
    let params := insert_optional "effort" (default_effort d) (insert_optional "model" (default_model d) params) in
    let effective_model := match default_model d with Some m => Some m | None => fst <$> thread_settings end in
    let effective_effort := match default_effort d with Some e => Some e | None => thread_settings ≫= snd end in
    if plan_mode d && bool_decide (effective_model = None)
    then Err (source_protocol "cannot start a Plan turn before Codex reports the thread model")
    else
      let params := match effective_model with
        | Some model => insert_field "collaborationMode" (object [
            ("mode", VString (lit (if plan_mode d then "plan" else "default")));
            ("settings", object [("model", VString model); ("reasoning_effort", optional_value effective_effort);
               ("developer_instructions", Null)])]) params
        | None => params
        end in
      Ok (match permission_profile d ≫= sandbox_policy with
          | Some policy => insert_field "sandboxPolicy" policy params
          | None => params
          end).

Definition apply_thread_defaults (params : Value) (d : TurnDefaults) : Value :=
  insert_optional "model" (default_model d) params.

Definition limit_50 : list (string * Value) := [("limit", from_i64 50)].

Section worker.
Context `{Externals} {S I : Type} `{!EventSink S} `{!Draws} `{!ApprovalDraws} `{!CodexLibrary} `{!AppServerIo I}.

(** What is to be done with a response. *)
Inductive PendingControl : Type :=
| Pending_ObserveThread (sid : SessionId) (thread_id : rstring)
| Pending_Models (sid : SessionId) (models : list Value) (cursors : list rstring)
| Pending_ImplementPlan (sid : SessionId) (thread_id : rstring)
| Pending_Report (sid : SessionId)
| Pending_SelectModel (sid : SessionId) (model : rstring) (effort : option rstring) (models : list Value)
    (cursors : list rstring)
| Pending_ResumeThread (source_session_id : SessionId)
| Pending_StartThread
| Pending_ForkThread
| Pending_TurnStart (sid : SessionId) (thread_id : rstring) (prompt : NonEmptyText)
| Pending_Silent (sid : SessionId)
| Pending_HistoryItems (sid : SessionId) (thread_id : rstring).

Record ControlWorld : Type := MkControlWorld {
  provider : ProviderWorld (S := S) (I := I);
  engine : ProtocolEngine;
  controls : ControlRuntimeState;
  pending_controls : gmap RequestId PendingControl
}.

Abbreviation working A := (act ControlWorld CodexProviderSourceError A).
Implicit Types (w : ControlWorld) (sid : SessionId).

Definition set_provider v w : ControlWorld := MkControlWorld v (engine w) (controls w) (pending_controls w).
Definition set_engine v w : ControlWorld := MkControlWorld (provider w) v (controls w) (pending_controls w).
Definition set_controls v w : ControlWorld := MkControlWorld (provider w) (engine w) v (pending_controls w).
Definition set_pending_controls v w : ControlWorld := MkControlWorld (provider w) (engine w) (controls w) v.

(** ** Locks *)

Definition on_provider {A} (a : act (ProviderWorld (S := S) (I := I)) CodexProviderSourceError A) : working A := λ w,
  let '(p, r) := a (provider w) in (set_provider p w, r).
Definition lock_mapper {A} (a : act (MapperWorld S) CodexProviderSourceError A) : working A := on_provider (on_mapper a).
Definition the_mapper w : CodexEventMapper := mapper (world (provider w)).
Definition change_mapper (f : CodexEventMapper → CodexEventMapper) : working unit := lock_mapper (modify (with_mapper f)).
Definition change_controls (f : ControlRuntimeState → ControlRuntimeState) : working unit :=
  modify (λ w, set_controls (f (controls w)) w).
Definition the_local w : LocalInteractions := local (provider w).
Definition change_local (f : LocalInteractions → LocalInteractions) : working unit :=
  modify (λ w, set_provider (set_local (f (the_local w)) (provider w)) w).

(** ** Requests and messages *)

Definition send_control_request (expected : ExpectedResponse) (params : Value) (kind : PendingControl) : working unit := λ w,
  match request expected params (engine w) with
  | (e, Err error) => (set_engine e w, Err error)
  | (e, Ok (id, text)) =>
      match on_io text (provider w) with
      | (p, Err error) => (set_engine (cancel_pending id e) (set_provider p w), Err error)
      | (p, Ok _) => (set_pending_controls (<[id := kind]> (pending_controls w)) (set_engine e (set_provider p w)), Ok ())
      end
  end.

Definition publish_message (thread_id text : rstring) (role : AgentMessageRole) : working unit :=
  lock_mapper (
    now ← drawn now_utc;
    content ← lift (text_new text);
    publish_payload thread_id now (Message (MkAgentMessage role Level_Info content))).

Definition publish_user_message (thread_id text : rstring) : working unit := publish_message thread_id text Role_User.

Abbreviation Ctx := (option (rstring * option rstring * AgentState)).

Definition publish_system_for_session (context : Ctx) (text : rstring) : working unit :=
  match context with
  | None => mret ()
  | Some (thread_id, _, _) => publish_message thread_id text Role_System
  end.

Definition context_of sid : working Ctx := gets (λ w, command_context (the_mapper w) sid).

(** ** Choices of the host (runtime/local.rs) *)

Definition report sid (text : rstring) : working unit :=
  context ← context_of sid; publish_system_for_session context text.

Definition plan_choices (m : CodexEventMapper) (thread : rstring) : list InteractionId :=
  List.filter (λ id, from_option (λ c, bool_decide (c.1 = thread) && c.2) false (local_choices m !! id))
    (btree_keys (local_choices m)).

Definition local_dismiss_plan (thread : rstring) : working unit := lock_mapper (
  m ← gets mapper;
  let waiting := has_plan m thread in
  _ ← modify (with_mapper (dismiss_plan thread));
  m ← gets mapper;
  _ ← close_each (plan_choices m thread);
  if waiting then publish_now thread (StateChanged State_Idle) else mret ()).

Definition remove_choice (id : InteractionId) (l : LocalInteractions) : LocalInteractions :=
  MkLocal (delete id (local_pending l)) (local_responses l).

Fixpoint replace_choices (ids : list InteractionId) : working unit :=
  match ids with
  | [] => mret ()
  | id :: ids' =>
      _ ← lock_mapper (close_local_choice id);
      _ ← change_local (remove_choice id);
      replace_choices ids'
  end.

(** A failed publication withdraws the choice. *)
Definition publish_choice (thread : rstring) (request : InteractionRequest) (plan : bool) : working unit := λ w,
  match lock_mapper (publish_local_choice thread request plan) w with
  | (w', Err error) => ((change_local (remove_choice (request_id request)) w').1, Err error)
  | other => other
  end.

Definition same_purpose (choice old : LocalChoice) : bool :=
  bool_decide (request_session_id (local_request old) = request_session_id (local_request choice))
  && bool_decide (local_plan old = local_plan choice).

Definition show (choice : LocalChoice) : working unit :=
  l ← gets the_local;
  _ ← replace_choices (List.filter (λ id, from_option (same_purpose choice) false (local_pending l !! id))
                         (btree_keys (local_pending l)));
  l ← gets the_local;
  if (64 <=? size (local_pending l))%nat
  then report (request_session_id (local_request choice)) (utf8 "待处理选择过多，请先完成或取消已有选择。")
  else
    _ ← change_local (λ l, MkLocal (<[request_id (local_request choice) := choice]> (local_pending l)) (local_responses l));
    publish_choice (local_thread_id choice) (local_request choice) (local_plan choice).

(** [LocalChoice::new], which draws identities. *)
Definition new_choice sid (thread_id title prompt : rstring) (plan : bool)
    (options : list (rstring * option rstring * LocalAction)) : working LocalChoice :=
  on_provider (on_prepare (LocalChoice_new sid thread_id title prompt plan options)).

Definition model_option (current : option rstring) (model : Value) : option (rstring * option rstring * LocalAction) :=
  if bool_decide (get "hidden" model = Some (Bool true)) then None
  else
    id ← get_str "id" model;
    let name := default id (get_str "displayName" model) in
    let selected := from_option (λ value, bool_decide (value = id) || bool_decide (Some value = get_str "model" model)) false current in
    Some (name ++ (if selected then utf8 "（当前）" else []), get_str "description" model, Local_Model model).

Definition show_models sid (catalog : Value) : working unit :=
  context ← context_of sid;
  match context with
  | None => mret ()
  | Some (thread, _, _) =>
      s ← gets controls;
      m ← gets the_mapper;
      let current := match default_model (defaults s sid) with
                     | Some model => Some model
                     | None => fst <$> model_settings_for_session m sid
                     end in
      let options := omap (model_option current) (default [] (get "data" catalog ≫= as_array)) in
      if is_empty options then report sid (utf8 "暂无可用模型，请稍后重试 /model")
      else
        choice ← new_choice sid thread (utf8 "选择模型") (utf8 "第 1 步：选择模型，下一步选择推理强度。") false
                   (options ++ [(utf8 "取消", None, Local_Cancel)]);
        show choice
  end.

Definition set_plan_mode (enabled : bool) (d : TurnDefaults) : TurnDefaults :=
  MkTurnDefaults (default_model d) (default_effort d) enabled (permission_profile d).

Fixpoint close_plan_choices (thread : rstring) (live : list (InteractionId * (rstring * bool))) : working unit :=
  match live with
  | [] => mret ()
  | (id, (owner, plan)) :: live' =>
      _ ← (if bool_decide (owner = thread) && plan then lock_mapper (close_local_choice id) else mret ());
      close_plan_choices thread live'
  end.

(** A prompt that arrived while a plan waits asks for its revision. *)
Fixpoint revise_each (live : list (InteractionId * (rstring * bool))) (sessions : list SessionId) : working unit :=
  match sessions with
  | [] => mret ()
  | sid :: sessions' =>
      context ← context_of sid;
      _ ← match context with
          | Some (thread, _, _) =>
              m ← gets the_mapper;
              if negb (has_plan m thread) then mret ()
              else
                _ ← change_controls (defaults_mut (set_plan_mode true) sid);
                _ ← change_mapper (dismiss_plan thread);
                close_plan_choices thread live
          | None => mret ()
          end;
      revise_each live sessions'
  end.

Definition effort_option (id : rstring) (default_effort : option rstring) (effort : rstring) :
    rstring * option rstring * LocalAction :=
  (utf8 "使用 " ++ effort ++ (if bool_decide (Some effort = default_effort) then utf8 "（默认）" else []), None,
   Local_SelectModel id (Some effort)).

Definition implement_text : rstring := lit "Implement the plan.".

Definition perform (sid : SessionId) (thread : rstring) (action : LocalAction) : working unit :=
  match action with
  | Local_Implement =>
      m ← gets the_mapper;
      if negb (has_plan m thread) then mret ()
      else
        s ← gets controls;
        let d := set_plan_mode false (defaults s sid) in
        let settings := model_settings_for_session m sid in
        if bool_decide (settings = None) && bool_decide (default_model d = None)
        then report sid (utf8 "尚未获取当前模型，请稍后重试实施。")
        else
          params ← lift (apply_turn_defaults
            (object [("threadId", VString thread); ("input", turn_input implement_text)]) d settings);
          _ ← send_control_request Expect_TurnStart params (Pending_ImplementPlan sid thread);
          change_controls (mark_turn_inflight sid)
  | Local_Revise =>
      _ ← change_controls (defaults_mut (set_plan_mode true) sid);
      _ ← change_mapper (dismiss_plan thread);
      _ ← lock_mapper (publish_now thread (StateChanged State_Idle));
      report sid (utf8 "继续修改计划：请输入修改意见。")
  | Local_Model model =>
      let id := default [] (get_str "id" model) in
      let efforts := effort_option id (get_str "defaultReasoningEffort" model) <$> supported_reasoning_efforts model in
      let options := if is_empty efforts then [(utf8 "使用模型默认值", None, Local_SelectModel id None)] else efforts in
      choice ← new_choice sid thread (utf8 "选择推理强度") (utf8 "第 2 步：" ++ id ++ utf8 "；点击强度确认切换。") false
                 (options ++ [(utf8 "返回模型列表", None, Local_Models); (utf8 "取消", None, Local_Cancel)]);
      show choice
  | Local_SelectModel model effort =>
      send_control_request Expect_ModelList (object limit_50) (Pending_SelectModel sid model effort [] [])
  | Local_Models => send_control_request Expect_ModelList (object limit_50) (Pending_Models sid [] [])
  | Local_Cancel => report sid (utf8 "已取消模型选择，当前模型未改变。")
  end.

(** The loop over the claimed responses; [continue] where the choice is gone. *)
Fixpoint answer_each (responses : list (InteractionResponse * LocalAction)) : working unit :=
  match responses with
  | [] => mret ()
  | (response, action) :: responses' =>
      let id := response_request_id response in
      _ ← change_local (λ l, MkLocal (local_pending l) responses');
      l ← gets the_local;
      _ ← match local_pending l !! id with
          | None => mret ()
          | Some choice =>
              _ ← change_local (remove_choice id);
              m ← gets the_mapper;
              if negb (bool_decide (is_Some (local_choices m !! id))) then mret ()
              else
                _ ← lock_mapper (
                      _ ← publish_now (local_thread_id choice) (InteractionResponded response);
                      modify (with_mapper (λ m, set_local_choices (delete id (local_choices m)) m)));
                perform (response_session_id response) (local_thread_id choice) action
          end;
      answer_each responses'
  end.

Definition plan_options : list (rstring * option rstring * LocalAction) :=
  [(utf8 "实施计划", Some (utf8 "切换到执行模式并立即开始"), Local_Implement);
   (utf8 "继续修改", Some (utf8 "保留计划模式，输入修改意见"), Local_Revise)].

Fixpoint offer_plans (plans : list (SessionId * rstring)) : working unit :=
  match plans with
  | [] => mret ()
  | (sid, thread) :: plans' =>
      l ← gets the_local;
      s ← gets controls;
      _ ← (if plan_waiting l sid || bool_decide (sid ∈ inflight_sessions s) then mret ()
           else
             choice ← new_choice sid thread (utf8 "计划已准备好") (utf8 "请选择实施计划，或继续修改。") true plan_options;
             show choice);
      offer_plans plans'
  end.

Definition live_choices (m : CodexEventMapper) : list (InteractionId * (rstring * bool)) :=
  omap (λ id, c ← local_choices m !! id; Some (id, c)) (btree_keys (local_choices m)).

Definition flush_local_choices : working unit :=
  m ← gets the_mapper;
  s ← gets controls;
  _ ← change_controls (set_revise ∅);
  _ ← revise_each (live_choices m) (btree_elements (revise_requested s));
  l ← gets the_local;
  _ ← answer_each (local_responses l);
  m ← gets the_mapper;
  _ ← change_local (λ l, MkLocal (filter (λ p, is_Some (local_choices m !! p.1)) (local_pending l)) (local_responses l));
  m ← gets the_mapper;
  offer_plans (ready_plans m).

(** ** Commands *)

Definition thread_params (thread_id : rstring) (fields : list (string * Value)) : Value :=
  object (("threadId", VString thread_id) :: fields).

Fixpoint observe_each (discovered : list (SessionId * rstring)) : working unit :=
  match discovered with
  | [] => mret ()
  | (sid, thread_id) :: discovered' =>
      _ ← send_control_request Expect_ThreadResume (thread_params thread_id [("excludeTurns", Bool true)])
            (Pending_ObserveThread sid thread_id);
      observe_each discovered'
  end.

Definition is_observing (kind : PendingControl) : bool :=
  match kind with Pending_ObserveThread _ _ => true | _ => false end.
Definition observing w : bool := existsb (λ p, is_observing p.2) (map_to_list (pending_controls w)).

Fixpoint observe_turns (sessions : list SessionId) : working unit :=
  match sessions with
  | [] => mret ()
  | sid :: sessions' =>
      context ← context_of sid;
      _ ← change_controls (observe_turn sid
            (match context with Some (_, Some _, _) => true | _ => false end));
      observe_turns sessions'
  end.

Definition debug_state (state : AgentState) : rstring :=
  lit match state with
      | State_Initializing => "Initializing" | State_Idle => "Idle" | State_Running => "Running"
      | State_WaitingForInteraction => "WaitingForInteraction" | State_Completed => "Completed"
      | State_Failed => "Failed" | State_Cancelled => "Cancelled"
      end.

Definition queue_text (count : nat) (bytes : N) (paused : bool) : rstring :=
  lit "Queue " ++ lit (if paused then "paused" else "active") ++ lit ": " ++ display_u64 (N.of_nat count)
  ++ lit " prompt(s), " ++ display_u64 bytes ++ lit " bytes".

Definition status_text (context : Ctx) (d : TurnDefaults) (count : nat) (bytes : N) (paused : bool) : rstring :=
  lit "State: " ++ from_option (λ c, debug_state c.2) (lit "unknown") context
  ++ lit "; model: " ++ default (lit "default") (default_model d)
  ++ lit "; plan: " ++ lit (if plan_mode d then "on" else "off")
  ++ lit "; permissions: " ++ default (lit "default") (permission_profile d)
  ++ lit "; queue: " ++ display_u64 (N.of_nat count) ++ lit " item(s)/" ++ display_u64 bytes ++ lit " bytes"
  ++ lit (if paused then " (paused)" else "").

(** A request about the thread of the session, if there is one. *)
Definition for_thread (context : Ctx) (expected : ExpectedResponse) (fields : list (string * Value)) (kind : PendingControl) :
    working unit :=
  match context with
  | Some (thread_id, _, _) => send_control_request expected (thread_params thread_id fields) kind
  | None => mret ()
  end.

Definition run_command (command : AgentCommand) : working unit :=
  let sid := command_session_id command in
  context ← context_of sid;
  match command_payload command with
  | SelectModel model effort =>
      send_control_request Expect_ModelList (object limit_50) (Pending_SelectModel sid (raw model) (raw <$> effort) [] [])
  | SetPlanMode enabled =>
      _ ← change_controls (defaults_mut (set_plan_mode enabled) sid);
      _ ← match context with Some (thread, _, _) => local_dismiss_plan thread | None => mret () end;
      publish_system_for_session context (lit (if enabled then "Plan mode enabled" else "Plan mode disabled"))
  | SelectPermissionProfile profile =>
      _ ← change_controls (defaults_mut (λ d,
            MkTurnDefaults (default_model d) (default_effort d) (plan_mode d) (Some (raw profile))) sid);
      publish_system_for_session context (lit "Permission profile set to " ++ raw profile)
  | Queue _ =>
      s ← gets controls;
      let '(count, bytes, paused) := queue_summary s sid in
      publish_system_for_session context (queue_text count bytes paused)
  | Status =>
      s ← gets controls;
      let '(count, bytes, paused) := queue_summary s sid in
      publish_system_for_session context (status_text context (defaults s sid) count bytes paused)
  | ListModels => send_control_request Expect_ModelList (object limit_50) (Pending_Models sid [] [])
  | ListPermissionProfiles =>
      send_control_request Expect_PermissionProfileList (object limit_50) (Pending_Report sid)
  | ListThreads cursor =>
      send_control_request Expect_ThreadList
        (object [("cursor", optional_value (raw <$> cursor)); ("limit", from_i64 50);
                 ("sortKey", VString (lit "updated_at")); ("sortDirection", VString (lit "desc"))]) (Pending_Report sid)
  | ResumeThread thread_id =>
      _ ← lock_mapper (track_discovered_thread (raw thread_id));
      send_control_request Expect_ThreadResume (thread_params (raw thread_id) []) (Pending_ResumeThread sid)
  | StartThread cwd =>
      s ← gets controls;
      send_control_request Expect_ThreadStart
        (apply_thread_defaults (object [("cwd", VString (raw cwd)); ("sessionStartSource", VString (lit "clear"))])
           (defaults s sid)) Pending_StartThread
  | Compact => for_thread context Expect_ThreadCompact [] (Pending_Silent sid)
  | Review instructions =>
      let target := match instructions with
                    | None => object [("type", VString (lit "uncommittedChanges"))]
                    | Some text => object [("type", VString (lit "custom")); ("instructions", VString (raw text))]
                    end in
      for_thread context Expect_ReviewStart [("target", target); ("delivery", VString (lit "inline"))] (Pending_Silent sid)
  | Rename name => for_thread context Expect_ThreadSetName [("name", VString (raw name))] (Pending_Silent sid)
  | Fork => for_thread context Expect_ThreadFork [] Pending_ForkThread
  | CancelSession _ =>
      _ ← match context with Some (thread, _, _) => local_dismiss_plan thread | None => mret () end;
      match context with
      | Some (_, Some turn_id, _) => for_thread context Expect_TurnInterrupt [("turnId", VString turn_id)] (Pending_Silent sid)
      | _ => mret ()
      end
  | SubmitPrompt text Delivery_Steer =>
      match context with
      | Some (thread_id, Some turn_id, _) =>
          _ ← send_control_request Expect_TurnSteer
                (thread_params thread_id [("expectedTurnId", VString turn_id); ("input", turn_input (raw text))])
                (Pending_Silent sid);
          publish_user_message thread_id (raw text)
      | _ => publish_system_for_session context (lit "Cannot steer: no active turn")
      end
  | SubmitPrompt _ Delivery_Queue => mret ()
  end.

(** [while let Some(command) = pop_command()] *)
Fixpoint run_commands (queue : list AgentCommand) : working unit :=
  match queue with
  | [] => mret ()
  | command :: rest =>
      _ ← change_controls (set_commands rest);
      _ ← run_command command;
      run_commands rest
  end.

(** A turn for the first prompt of a session whose thread is idle. *)
Definition start_queued sid : working unit :=
  context ← context_of sid;
  match context with
  | Some (thread_id, None, _) =>
      m ← gets the_mapper;
      if has_plan m thread_id then mret ()
      else
        s ← gets controls;
        match front_prompt s sid with
        | None => mret ()
        | Some prompt =>
            params ← lift (apply_turn_defaults (thread_params thread_id [("input", turn_input (raw prompt))])
                             (defaults s sid) (model_settings_for_session m sid));
            _ ← send_control_request Expect_TurnStart params (Pending_TurnStart sid thread_id prompt);
            change_controls (mark_turn_inflight sid)
        end
  | _ => mret ()
  end.

Fixpoint start_each (sessions : list SessionId) : working unit :=
  match sessions with
  | [] => mret ()
  | sid :: sessions' => _ ← start_queued sid; start_each sessions'
  end.

Definition flush_control_commands : working unit :=
  m ← gets the_mapper;
  _ ← change_mapper (λ m, (take_observer_resumes m).1);
  _ ← observe_each (take_observer_resumes m).2;
  waiting ← gets observing;
  if waiting : bool then mret ()
  else
    s ← gets controls;
    _ ← observe_turns (inflight_sessions s);
    _ ← flush_local_choices;
    s ← gets controls;
    _ ← run_commands (commands s);
    s ← gets controls;
    start_each (queued_sessions s).

(** ** Responses *)

Definition take_pending (id : RequestId) (expected : ExpectedResponse) (what : string) : working PendingControl := λ w,
  match pending_controls w !! id with
  | Some kind => (set_pending_controls (delete id (pending_controls w)) w, Ok kind)
  | None => (w, Err (source_protocol_text (lit "unexpected live " ++ lit (expected_method expected) ++ lit what)))
  end.

Definition response_data (response : Value) : list Value := default [] (get "data" response ≫= as_array).

(** One page of the model catalog: it is complete ([Some]), or the work is done. *)
Definition next_page sid (response : Value) (models : list Value) (cursors : list rstring)
    (again : list Value → list rstring → PendingControl) : working (option Value) :=
  let models := models ++ response_data response in
  if (1000 <? length models)%nat then _ ← report sid (utf8 "模型目录超过上限，请重试 /model"); mret None
  else
    match get_str "nextCursor" response with
    | Some cursor =>
        if (20 <=? length cursors)%nat || bool_decide (cursor ∈ cursors)
        then _ ← report sid (utf8 "模型目录分页异常，请重试 /model"); mret None
        else
          _ ← send_control_request Expect_ModelList (object [("limit", from_i64 50); ("cursor", VString cursor)])
                (again models (cursors ++ [cursor]));
          mret None
    | None => mret (Some (object [("data", Array models)]))
    end.

Definition response_thread_id (message : string) (response : Value) : result CodexProviderSourceError rstring :=
  ok_or (source_protocol message) (get_str_in "thread" "id" response).

Definition select_model sid (catalog : Value) (model : rstring) (effort : option rstring) : working unit :=
  context ← context_of sid;
  match validate_model_selection catalog model effort with
  | Ok _ =>
      let entry := find_model (response_data catalog) model in
      _ ← change_controls (defaults_mut (λ d, MkTurnDefaults
            (Some (default model (entry ≫= get_str "model")))
            (match effort with Some e => Some e | None => entry ≫= get_str "defaultReasoningEffort" end)
            (plan_mode d) (permission_profile d)) sid);
      publish_system_for_session context (lit "Model set to " ++ model
        ++ match effort with Some value => lit " (" ++ value ++ lit ")" | None => [] end)
  | Err message => publish_system_for_session context (lit "Model selection rejected: " ++ message)
  end.

Definition history_page sid (thread_id : rstring) (cursor : option rstring) : working unit :=
  send_control_request Expect_ThreadItemsList
    (thread_params thread_id (match cursor with Some c => [("cursor", VString c)] | None => [] end
       ++ [("limit", from_i64 100); ("sortDirection", VString (lit "asc"))])) (Pending_HistoryItems sid thread_id).

Definition turn_started_response sid (thread_id : rstring) (prompt : NonEmptyText) : working unit :=
  _ ← change_mapper (retry_observer_resume thread_id);
  s ← gets controls;
  _ ← change_controls (λ s, (pop_prompt sid s).1);
  if bool_decide ((pop_prompt sid s).2 = Some prompt) then publish_user_message thread_id (raw prompt)
  else throw (source_protocol "queued prompt changed before turn/start completed").

Definition process_control_response (id : RequestId) (expected : ExpectedResponse) (response : Value) : working unit :=
  kind ← take_pending id expected " response";
  match kind with
  | Pending_Models sid models cursors =>
      page ← next_page sid response models cursors (Pending_Models sid);
      match page with Some catalog => show_models sid catalog | None => mret () end
  | Pending_SelectModel sid model effort models cursors =>
      page ← next_page sid response models cursors (Pending_SelectModel sid model effort);
      match page with Some catalog => select_model sid catalog model effort | None => mret () end
  | Pending_ImplementPlan sid thread_id =>
      _ ← change_controls (defaults_mut (set_plan_mode false) sid);
      _ ← change_mapper (dismiss_plan thread_id);
      publish_user_message thread_id implement_text
  | Pending_Report sid =>
      m ← gets the_mapper;
      text ← lift (format_catalog expected response (cwd_for_session m sid));
      report sid text
  | Pending_ObserveThread _ _ => lock_mapper (resume_thread response)
  | Pending_ResumeThread _ =>
      thread_id ← lift (response_thread_id "thread/resume omitted thread.id" response);
      m ← gets the_mapper;
      let hydrate_history := negb (is_thread_tracked m thread_id) in
      _ ← lock_mapper (resume_thread response);
      if negb hydrate_history then mret ()
      else
        m ← gets the_mapper;
        sid ← lift (ok_or (source_protocol "resumed thread was not tracked") (session_id_for_thread m thread_id));
        history_page sid thread_id None
  | Pending_StartThread | Pending_ForkThread =>
      thread_id ← lift (response_thread_id "thread response omitted thread.id" response);
      lock_mapper (_ ← track_discovered_thread thread_id; resume_thread response)
  | Pending_TurnStart sid thread_id prompt => turn_started_response sid thread_id prompt
  | Pending_Silent _ => mret ()
  | Pending_HistoryItems sid thread_id =>
      data ← lift (ok_or (source_protocol "thread/items/list omitted data") (get "data" response ≫= as_array));
      _ ← lock_mapper (publish_history_items thread_id data);
      match get_str "nextCursor" response with
      | Some cursor => history_page sid thread_id (Some cursor)
      | None => mret ()
      end
  end.

Definition failure_text (expected : ExpectedResponse) (code : Z) (message : rstring) : rstring :=
  lit (expected_method expected) ++ lit " failed (" ++ display_i64 code ++ lit "): " ++ message.

Definition process_control_error (id : RequestId) (expected : ExpectedResponse) (code : Z) (message : rstring) : working unit :=
  kind ← take_pending id expected " error response";
  match kind with
  | Pending_ObserveThread sid thread_id =>
      if (code =? -32600)%Z && bool_decide (message = lit "no rollout found for thread id " ++ thread_id)
      then change_mapper (defer_observer_resume thread_id)
      else if (code =? -32601)%Z && bool_decide (message = lit "list_turns is not supported yet") then mret ()
      else
        _ ← report sid (lit "Could not subscribe to Codex thread (" ++ display_i64 code ++ lit "): " ++ message
                          ++ lit "; resume the thread to retry.");
        lock_mapper (publish_now thread_id (ConnectionChanged Conn_Disconnected))
  | Pending_ImplementPlan sid _ =>
      _ ← change_controls (clear_turn_inflight sid);
      report sid (utf8 "实施计划启动失败 (" ++ display_i64 code ++ lit "): " ++ message ++ utf8 "；请重试或继续修改。")
  | Pending_Report sid | Pending_Models sid _ _ | Pending_SelectModel sid _ _ _ _ | Pending_Silent sid
  | Pending_HistoryItems sid _ | Pending_ResumeThread sid => report sid (failure_text expected code message)
  | Pending_TurnStart sid _ _ =>
      _ ← change_controls (λ s, pause_prompts sid (clear_turn_inflight sid s));
      report sid (failure_text expected code message)
  | Pending_StartThread | Pending_ForkThread => mret ()
  end.

(** ** Frames and the worker *)

Definition on_engine {A} (a : act ProtocolEngine CodexProviderSourceError A) : working A := λ w,
  let '(e, r) := a (engine w) in (set_engine e w, r).

Definition process_live_frame (route : ApprovalRoute) (text : rstring) : working unit :=
  frame ← on_engine (parse_server_text text);
  _ ← on_provider (modify count_validated);
  match frame with
  | Frame_Notification method params => on_provider (process_live_notification route method params)
  | Frame_Request id method params => on_provider (process_live_request route id method params)
  | Frame_Response id expected response => process_control_response id expected response
  | Frame_Error id expected code message => process_control_error id expected code message
  end.

(** The command half of the port. *)
Definition accept_command (command : AgentCommand) : act ControlWorld CodexProviderPortError unit := λ w,
  let '(s, r) := accept (the_local w) command (controls w) in (set_controls s w, r).

Inductive ReadOutcome : Type := Io_Timeout | Io_Closed | Io_Text (text : rstring).

(** How an iteration of [run_worker] ends. *)
Inductive WorkerTurn : Type :=
| Turn_Continue
| Turn_Stopped
| Turn_Failed (error : CodexProviderSourceError).

(** On a failure everything that waits is closed and the sessions are disconnected. *)
Definition close_and_disconnect (close : bool) w : ControlWorld :=
  let p := if close then close_all_approvals (provider w) else provider w in
  set_provider (set_world (disconnect_all (world p)) p) w.

Definition closing_stop w : ControlWorld * WorkerTurn := (set_provider (close_all_approvals (provider w)) w, Turn_Stopped).

(** The queue of responses is flushed to its end: the fuel of
    [flush_approval_responses] is its length. *)
Definition flush_responses : working unit := λ w,
  match flush_approval_responses Route_Observer (provider w) with
  | Some (p, r) => (set_provider p w, r)
  | None => (w, Ok ())
  end.

(** What other threads do to the state they share with the worker (the mapper, the
    approvals and choices, the queues of commands) while it waits in its read. *)
Definition Meanwhile : Type :=
  ProviderWorld (S := S) (I := I) → ControlRuntimeState → ProviderWorld (S := S) (I := I) * ControlRuntimeState.
Definition nothing : Meanwhile := λ p s, (p, s).
(** A command that the port accepts or refuses. *)
Definition submits (command : AgentCommand) : Meanwhile := λ p s, (p, (accept (local p) command s).1).
Definition interrupted (others : Meanwhile) w : ControlWorld :=
  let '(p, s) := others (provider w) (controls w) in set_provider p (set_controls s w).

(** One iteration, given whether a stop was requested, before and after an
    error, what others do during the read, and what the connection reads. *)
Definition worker_turn (stop_before stop_after : bool) (others : Meanwhile) (read : result CodexProviderSourceError ReadOutcome) w :
    ControlWorld * WorkerTurn :=
  if stop_before then closing_stop w
  else
    match flush_responses w with
    | (w, Err error) => (close_and_disconnect true w, Turn_Failed error)
    | (w, Ok _) =>
        match flush_control_commands w with
        | (w, Err error) => (close_and_disconnect false w, Turn_Failed error)
        | (w, Ok _) =>
            let w := interrupted others w in
            let '(w, r) := match read with
              | Ok Io_Timeout => (w, Ok ())
              | Ok Io_Closed => (w, Err (Source_Transport (lit "App Server closed the WebSocket")))
              | Ok (Io_Text text) => process_live_frame Route_Observer text w
              | Err error => (w, Err error)
              end in
            match r with
            | Ok _ => (w, Turn_Continue)
            | Err error => if stop_after then closing_stop w else (close_and_disconnect true w, Turn_Failed error)
            end
        end
    end.

(** The worker starts with no turn in flight and nothing pending. *)
Definition worker_start (p : ProviderWorld (S := S) (I := I)) (e : ProtocolEngine) (s : ControlRuntimeState) : ControlWorld :=
  MkControlWorld p e (clear_all_inflight s) ∅.

Fixpoint run_worker (turns : list (bool * bool * Meanwhile * result CodexProviderSourceError ReadOutcome)) w : ControlWorld * WorkerTurn :=
  match turns with
  | [] => (w, Turn_Continue)
  | (stop_before, stop_after, others, read) :: turns' =>
      match worker_turn stop_before stop_after others read w with
      | (w', Turn_Continue) => run_worker turns' w'
      | other => other
      end
  end.
End worker.
