(* ===== verification/CodexWorkerSpec.v ===== *)
(** * The observer worker: correctness

    The bounds of the command queues; the correspondence between the requests
    the protocol engine waits for and the commands they belong to; the limits of
    the model catalog. *)

From stdpp Require Import base strings numbers sorting gmap list.
From S2P Require Import Prelude Bytes Json Values Snapshots Capability Interaction Event Dto.
From S2P Require Import CodexMapper CodexProtocol CodexApproval CodexInteractions CodexControl CodexWorker.

Create HintDb worker.

Section worker.
Context `{Externals} {S I : Type} `{!EventSink S} `{!Draws} `{!ApprovalDraws} `{!CodexLibrary} `{!AppServerIo I}.
Abbreviation World := (ControlWorld (S := S) (I := I)).
Abbreviation working A := (act World CodexProviderSourceError A).
Implicit Types (w : World) (sid : SessionId).

(** ** Requests and their commands *)

(** The requests that are sent for a command. *)
Definition kind_matches (kind : PendingControl) (expected : ExpectedResponse) : bool :=
  match kind, expected with
  | (Pending_ObserveThread _ _ | Pending_ResumeThread _), Expect_ThreadResume
  | (Pending_Models _ _ _ | Pending_SelectModel _ _ _ _ _), Expect_ModelList
  | (Pending_ImplementPlan _ _ | Pending_TurnStart _ _ _), Expect_TurnStart
  | Pending_Report _, (Expect_PermissionProfileList | Expect_ThreadList)
  | Pending_StartThread, Expect_ThreadStart
  | Pending_ForkThread, Expect_ThreadFork
  | Pending_Silent _, (Expect_ThreadCompact | Expect_ReviewStart | Expect_ThreadSetName | Expect_TurnInterrupt | Expect_TurnSteer)
  | Pending_HistoryItems _ _, Expect_ThreadItemsList => true
  | _, _ => false
  end.

(** How much of the model catalog has been read. *)
Definition pages_ok (models : list Value) (cursors : list rstring) : Prop :=
  length models ≤ 1000 ∧ length cursors ≤ 20 ∧ NoDup cursors.
Definition kind_ok (kind : PendingControl) : Prop :=
  match kind with
  | Pending_Models _ models cursors | Pending_SelectModel _ _ _ models cursors => pages_ok models cursors
  | _ => True
  end.

Definition corresponds (expected : option ExpectedResponse) (kind : option PendingControl) : Prop :=
  match expected, kind with
  | Some expected, Some kind => kind_matches kind expected = true ∧ kind_ok kind
  | None, None => True
  | _, _ => False
  end.
Definition correlated w : Prop := ∀ id, corresponds (engine_pending (engine w) !! id) (pending_controls w !! id).

(** What succeeds keeps the correspondence; a failure ends the worker. *)
Definition keeps {A} (a : working A) : Prop := ∀ w w' x, correlated w → a w = (w', Ok x) → correlated w'.
Definition untouched {A} (a : working A) : Prop :=
  ∀ w, engine (a w).1 = engine w ∧ pending_controls (a w).1 = pending_controls w.

Lemma keeps_untouched {A} (a : working A) : untouched a → keeps a.
Proof using Type. intros Ha w w' x Hw E. destruct (Ha w) as [He Hp]. rewrite E in He, Hp. intros id. simpl in *. rewrite He, Hp. apply Hw. Qed.
Lemma keeps_run {A} (a : working A) w w' x : correlated w → a w = (w', Ok x) → keeps a → correlated w'.
Proof using Type. intros Hw E Ha. by eapply Ha. Qed.
Lemma worker_keeps_bind {A B} (a : working A) (f : A → working B) : keeps a → (∀ x, keeps (f x)) → keeps (x ← a; f x).
Proof using Type. intros Ha Hf w w' y Hw (w1 & x & E1 & E2)%act_bind_Ok. eapply Hf; [eapply Ha; eassumption|exact E2]. Qed.
Lemma worker_keeps_ret {A} (x : A) : keeps (mret x).
Proof using Type. by apply keeps_untouched. Qed.
Lemma worker_keeps_throw {A} e : keeps (A := A) (throw e).
Proof using Type. by apply keeps_untouched. Qed.
Lemma worker_keeps_lift {A} (m : result CodexProviderSourceError A) : keeps (lift m).
Proof using Type. by apply keeps_untouched. Qed.
Lemma worker_keeps_gets {A} (f : World → A) : keeps (gets f).
Proof using Type. by apply keeps_untouched. Qed.
Lemma keeps_on_provider {A} (a : act (ProviderWorld (S := S) (I := I)) CodexProviderSourceError A) : keeps (on_provider a).
Proof using Type. apply keeps_untouched. intros w. unfold on_provider. by destruct (a (provider w)). Qed.
Lemma keeps_lock_mapper {A} (a : act (MapperWorld S) CodexProviderSourceError A) : keeps (lock_mapper a).
Proof using Type. apply keeps_on_provider. Qed.
Lemma keeps_change_mapper f : keeps (change_mapper f).
Proof using Type. apply keeps_lock_mapper. Qed.
Lemma keeps_change_controls f : keeps (change_controls f).
Proof using Type. by apply keeps_untouched. Qed.
Lemma keeps_change_local f : keeps (change_local f).
Proof using Type. by apply keeps_untouched. Qed.
Lemma keeps_publish_choice thread request plan : keeps (publish_choice thread request plan).
Proof using Type.
  intros w w' x Hw. unfold publish_choice. destruct (lock_mapper _ w) as [w1 [y|]] eqn:E; [|done]. intros [= <- <-].
  by eapply keeps_lock_mapper.
Qed.

Lemma request_Ok expected params e e' id text :
  request expected params e = (e', Ok (id, text)) → engine_pending e' = <[id := expected]> (engine_pending e).
Proof using Type.
  unfold request. intros (e1 & id' & Ha & Hr)%act_bind_Ok. injection Ha as <- <-.
  destruct (validate_client_request _); [|by apply act_bind_Ok in Hr as (? & ? & _ & ?)].
  by apply act_bind_Ok in Hr as (e2 & t & [= <- _] & [= <- <- _]).
Qed.

Lemma keeps_send expected params kind :
  kind_matches kind expected = true → kind_ok kind → keeps (send_control_request expected params kind).
Proof using Type.
  intros Hm Hk w w' x Hw. unfold send_control_request.
  destruct (request expected params (engine w)) as [e [[id text]|]] eqn:Er; [|done]. apply request_Ok in Er.
  destruct (on_io text (provider w)) as [p [[]|]]; [|done]. intros [= <- _] id'. cbn. rewrite Er.
  destruct (decide (id' = id)) as [->|Hne]; [by rewrite !lookup_insert_eq|]. rewrite !lookup_insert_ne by done. apply Hw.
Qed.

Lemma pages_ok_nil : pages_ok [] [].
Proof using Type. split_and!; simpl; [lia|lia|constructor]. Qed.

#[local] Hint Resolve worker_keeps_ret worker_keeps_throw worker_keeps_lift worker_keeps_gets keeps_on_provider keeps_lock_mapper keeps_change_mapper
  keeps_change_controls keeps_change_local keeps_publish_choice : worker.
#[local] Hint Resolve pages_ok_nil : worker.
#[local] Hint Extern 1 (keeps (send_control_request _ _ _)) => (apply keeps_send; [reflexivity|simpl; auto using pages_ok_nil]) : worker.

Ltac keeps_step :=
  match goal with
  | |- keeps (mbind _ _) => apply worker_keeps_bind; [|intro]
  | |- keeps (match ?x with _ => _ end) => destruct x
  | |- keeps (let '_ := ?x in _) => destruct x
  | |- keeps _ => progress cbv zeta
  | |- keeps _ => solve [auto with worker]
  end.
Ltac keeps_solve := repeat keeps_step.

Lemma keeps_publish_message thread text role : keeps (publish_message thread text role).
Proof using Type. apply keeps_lock_mapper. Qed.
Lemma keeps_publish_system context text : keeps (publish_system_for_session context text).
Proof using Type. destruct context as [[[thread ?] ?]|]; [apply keeps_publish_message|apply worker_keeps_ret]. Qed.
Lemma keeps_report sid text : keeps (report sid text).
Proof using Type. apply worker_keeps_bind; [apply worker_keeps_gets|]. intros context. apply keeps_publish_system. Qed.
Lemma keeps_context_of sid : keeps (context_of sid).
Proof using Type. apply worker_keeps_gets. Qed.
Lemma keeps_dismiss_plan thread : keeps (local_dismiss_plan thread).
Proof using Type. apply keeps_lock_mapper. Qed.
Lemma keeps_user_message thread text : keeps (publish_user_message thread text).
Proof using Type. apply keeps_publish_message. Qed.
Lemma keeps_new_choice sid thread title prompt plan options : keeps (new_choice sid thread title prompt plan options).
Proof using Type. apply keeps_on_provider. Qed.
#[local] Hint Resolve keeps_publish_message keeps_publish_system keeps_report keeps_context_of keeps_dismiss_plan keeps_user_message
  keeps_new_choice : worker.

Lemma keeps_replace_choices ids : keeps (replace_choices ids).
Proof using Type. induction ids; cbn [replace_choices]; keeps_solve. Qed.
#[local] Hint Resolve keeps_replace_choices : worker.

Lemma keeps_show choice : keeps (show choice).
Proof using Type. unfold show. keeps_solve. Qed.
#[local] Hint Resolve keeps_show : worker.

Lemma keeps_show_models sid catalog : keeps (show_models sid catalog).
Proof using Type. unfold show_models. keeps_solve. Qed.

Lemma keeps_close_plan_choices thread live : keeps (close_plan_choices thread live).
Proof using Type. induction live as [|[id [owner plan]] live IH]; cbn [close_plan_choices]; keeps_solve. Qed.
#[local] Hint Resolve keeps_show_models keeps_close_plan_choices : worker.

Lemma keeps_revise_each live sessions : keeps (revise_each live sessions).
Proof using Type. induction sessions; cbn [revise_each]; keeps_solve. Qed.

Lemma keeps_perform sid thread action : keeps (perform sid thread action).
Proof using Type. destruct action; cbn [perform]; keeps_solve. Qed.
#[local] Hint Resolve keeps_revise_each keeps_perform : worker.

Lemma keeps_answer_each responses : keeps (answer_each responses).
Proof using Type. induction responses as [|[response action] responses IH]; cbn [answer_each]; keeps_solve. Qed.
Lemma keeps_offer_plans plans : keeps (offer_plans plans).
Proof using Type. induction plans as [|[sid thread] plans IH]; cbn [offer_plans]; keeps_solve. Qed.
#[local] Hint Resolve keeps_answer_each keeps_offer_plans : worker.

Lemma keeps_flush_local_choices : keeps flush_local_choices.
Proof using Type. unfold flush_local_choices. keeps_solve. Qed.
#[local] Hint Resolve keeps_flush_local_choices : worker.

Lemma keeps_observe_each discovered : keeps (observe_each discovered).
Proof using Type. induction discovered as [|[sid thread] discovered IH]; cbn [observe_each]; keeps_solve. Qed.
Lemma keeps_observe_turns sessions : keeps (observe_turns sessions).
Proof using Type. induction sessions; cbn [observe_turns]; keeps_solve. Qed.
Lemma keeps_for_thread context expected fields kind :
  kind_matches kind expected = true → kind_ok kind → keeps (for_thread context expected fields kind).
Proof using Type. intros Hm Hk. destruct context as [[[thread ?] ?]|]; [by apply keeps_send|apply worker_keeps_ret]. Qed.
#[local] Hint Resolve keeps_observe_each keeps_observe_turns : worker.
#[local] Hint Extern 1 (keeps (for_thread _ _ _ _)) => (apply keeps_for_thread; [reflexivity|exact Logic.I]) : worker.

Lemma keeps_run_command command : keeps (run_command command).
Proof using Type. unfold run_command. keeps_solve. Qed.
#[local] Hint Resolve keeps_run_command : worker.
Lemma keeps_run_commands queue : keeps (run_commands queue).
Proof using Type. induction queue; cbn [run_commands]; keeps_solve. Qed.
Lemma keeps_start_queued sid : keeps (start_queued sid).
Proof using Type. unfold start_queued. keeps_solve. Qed.
#[local] Hint Resolve keeps_run_commands keeps_start_queued : worker.
Lemma keeps_start_each sessions : keeps (start_each sessions).
Proof using Type. induction sessions; cbn [start_each]; keeps_solve. Qed.
#[local] Hint Resolve keeps_start_each : worker.
Lemma keeps_flush_control_commands : keeps flush_control_commands.
Proof using Type. unfold flush_control_commands. keeps_solve. Qed.
#[local] Hint Resolve keeps_flush_control_commands : worker.

(** ** Responses *)

Lemma keeps_next_page sid response models cursors again :
  pages_ok models cursors → (∀ models cursors, pages_ok models cursors → kind_ok (again models cursors)) →
  (∀ models cursors, kind_matches (again models cursors) Expect_ModelList = true) →
  keeps (next_page sid response models cursors again).
Proof using Type.
  intros (_ & Hc & Hnd) Hok Hm. unfold next_page. cbv zeta. set (all := models ++ _).
  destruct (Nat.ltb_spec 1000 (length all)) as [|Hl]; [keeps_solve|].
  destruct (get_str "nextCursor" response) as [cursor|]; [|apply worker_keeps_ret].
  destruct (Nat.leb_spec 20 (length cursors)) as [|Hlt]; cbn [orb]; [keeps_solve|].
  destruct (bool_decide_reflect (cursor ∈ cursors)) as [|Hin]; [keeps_solve|].
  apply worker_keeps_bind; [|intros; apply worker_keeps_ret]. apply keeps_send; [apply Hm|]. apply Hok. split_and!; [done|rewrite length_app; simpl; lia|].
  apply NoDup_app. split_and!; [done|set_solver|apply NoDup_singleton].
Qed.

Lemma keeps_select_model sid catalog model effort : keeps (select_model sid catalog model effort).
Proof using Type. unfold select_model. keeps_solve. Qed.
Lemma keeps_history_page sid thread cursor : keeps (history_page sid thread cursor).
Proof using Type. unfold history_page. keeps_solve. Qed.
Lemma keeps_turn_started sid thread prompt : keeps (turn_started_response sid thread prompt).
Proof using Type. unfold turn_started_response. keeps_solve. Qed.
#[local] Hint Resolve keeps_select_model keeps_history_page keeps_turn_started : worker.

(** The engine has just answered a request whose command is still known. *)
Definition answering (id : RequestId) (expected : ExpectedResponse) w : Prop :=
  (∃ kind, pending_controls w !! id = Some kind ∧ kind_matches kind expected = true ∧ kind_ok kind) ∧
  engine_pending (engine w) !! id = None ∧
  ∀ id', id' ≠ id → corresponds (engine_pending (engine w) !! id') (pending_controls w !! id').

Lemma take_pending_answering id expected what w w' kind :
  answering id expected w → take_pending id expected what w = (w', Ok kind) →
  correlated w' ∧ kind_matches kind expected = true ∧ kind_ok kind.
Proof using Type.
  intros ((kind' & Hk & Hm & Hok) & Hnone & Hrest). unfold take_pending. rewrite Hk. intros [= <- <-]. split; [|done].
  intros id'. cbn. destruct (decide (id' = id)) as [->|Hne]; [by rewrite lookup_delete_eq, Hnone|].
  rewrite lookup_delete_ne by done. auto.
Qed.

Lemma take_pending_Some id expected what w kind :
  pending_controls w !! id = Some kind →
  take_pending id expected what w = (set_pending_controls (delete id (pending_controls w)) w, Ok kind).
Proof using Type. unfold take_pending. by intros ->. Qed.

Lemma take_pending_found id expected what w :
  answering id expected w → ∃ w' kind, take_pending id expected what w = (w', Ok kind).
Proof using Type. intros ((kind & Hk & _) & _). unfold take_pending. rewrite Hk. eauto. Qed.

Lemma process_control_response_correlated id expected response w w' :
  answering id expected w → process_control_response id expected response w = (w', Ok ()) → correlated w'.
Proof using Type.
  intros Hw. unfold process_control_response. intros (w1 & kind & Ht & Hp)%act_bind_Ok.
  destruct (take_pending_answering _ _ _ _ _ _ Hw Ht) as (Hc & Hm & Hok). apply (keeps_run _ _ _ _ Hc Hp).
  destruct kind; try (simpl in Hok; apply worker_keeps_bind; [apply keeps_next_page; [done|done|done]|intros [page|]]); keeps_solve.
Qed.

Lemma process_control_error_correlated id expected code message w w' :
  answering id expected w → process_control_error id expected code message w = (w', Ok ()) → correlated w'.
Proof using Type.
  intros Hw. unfold process_control_error. intros (w1 & kind & Ht & Hp)%act_bind_Ok.
  destruct (take_pending_answering _ _ _ _ _ _ Hw Ht) as (Hc & _). apply (keeps_run _ _ _ _ Hc Hp).
  destruct kind; keeps_solve.
Qed.

(** ** Frames *)

Lemma parse_server_text_Ok text e e' frame :
  parse_server_text text e = (e', Ok frame) →
  match frame_answers frame with
  | Some (id, expected) => engine_pending e !! id = Some expected ∧ e' = cancel_pending id e
  | None => e' = e
  end.
Proof using Type.
  unfold parse_server_text. intros (e1 & v & Hv & Hp)%act_bind_Ok. injection Hv as <- _. apply parse_server_value_spec in Hp.
  destruct (frame_answers frame) as [[id expected]|]; [|done]. by destruct Hp as (Hp & _ & ->).
Qed.

Lemma parse_answering text w e' frame id expected :
  correlated w → parse_server_text text (engine w) = (e', Ok frame) → frame_answers frame = Some (id, expected) →
  answering id expected (set_engine e' w).
Proof using Type.
  intros Hw Hp%parse_server_text_Ok Hf. rewrite Hf in Hp. destruct Hp as [Hp ->]. pose proof (Hw id) as Hid. rewrite Hp in Hid.
  split_and!.
  - destruct (pending_controls w !! id) as [kind|] eqn:Ek; [|done]. destruct Hid as [Hm Hk]. exists kind. by rewrite <-Ek.
  - simpl. by rewrite lookup_delete_eq.
  - intros id' Hne. simpl. rewrite lookup_delete_ne by done. apply Hw.
Qed.

Lemma correlated_count w : correlated w → correlated (on_provider (modify count_validated) w).1.
Proof using Type. done. Qed.
Lemma answering_count id expected w : answering id expected w → answering id expected (on_provider (modify count_validated) w).1.
Proof using Type. done. Qed.

Lemma keeps_process_live_frame route text : keeps (process_live_frame route text).
Proof using Type.
  intros w w' [] Hw. unfold process_live_frame. intros (w1 & frame & He & Hp)%act_bind_Ok. unfold on_engine in He.
  destruct (parse_server_text text (engine w)) as [e' r] eqn:Ep. injection He as <- ->.
  apply act_bind_Ok in Hp as (w2 & [] & Hcount & Hp). injection Hcount as <-.
  destruct (frame_answers frame) as [[id expected]|] eqn:Hf.
  - pose proof (parse_answering _ _ _ _ _ _ Hw Ep Hf) as Ha. destruct frame as [| |id' expected' response|id' expected' code message];
      try discriminate Hf; injection Hf as -> ->.
    + eapply process_control_response_correlated; [exact (answering_count _ _ _ Ha)|exact Hp].
    + eapply process_control_error_correlated; [exact (answering_count _ _ _ Ha)|exact Hp].
  - apply parse_server_text_Ok in Ep. rewrite Hf in Ep. subst e'.
    destruct frame as [method params|id method params| |]; try discriminate Hf;
      (eapply keeps_run; [|exact Hp|apply keeps_on_provider]); exact Hw.
Qed.

Lemma keeps_flush_responses : keeps flush_responses.
Proof using Type. apply keeps_untouched. intros w. unfold flush_responses. by destruct (flush_approval_responses _ _) as [[p r]|]. Qed.

Lemma interrupted_correlated others w : correlated w → correlated (interrupted others w).
Proof using Type. unfold interrupted. by destruct (others _ _). Qed.

Lemma worker_turn_correlated stop_before stop_after others read w w' :
  correlated w → worker_turn stop_before stop_after others read w = (w', Turn_Continue) → correlated w'.
Proof using Type.
  intros Hw. unfold worker_turn, closing_stop. destruct stop_before; [done|].
  destruct (flush_responses w) as [w1 [[]|]] eqn:E1; [|done]. pose proof (keeps_flush_responses _ _ _ Hw E1) as H1'.
  destruct (flush_control_commands w1) as [w2 [[]|]] eqn:E2; [|done].
  pose proof (keeps_flush_control_commands _ _ _ H1' E2) as H2'.
  apply (interrupted_correlated others) in H2'. destruct read as [[| |text]|error].
  - by intros [= <-].
  - by destruct stop_after.
  - destruct (process_live_frame Route_Observer text (interrupted others w2)) as [w3 [[]|]] eqn:E3; [|by destruct stop_after]. intros [= <-].
    by eapply keeps_process_live_frame.
  - by destruct stop_after.
Qed.

Lemma run_worker_correlated turns w w' : correlated w → run_worker turns w = (w', Turn_Continue) → correlated w'.
Proof using Type.
  revert w. induction turns as [|[[[b a] others] read] turns IH]; intros w Hw; cbn [run_worker]; [by intros [= <-]|].
  destruct (worker_turn b a others read w) as [w1 []] eqn:Et; [|done..]. apply IH. by eapply worker_turn_correlated.
Qed.

Lemma worker_start_correlated p e s : engine_pending e = ∅ → correlated (worker_start p e s).
Proof using Type. intros He id. simpl. by rewrite He, !lookup_empty. Qed.

(** ** Interleavings *)

(** The engine and the pending commands are the worker's own; the mapper, the
    approvals, the choices and the queues are shared, and other threads may
    change them between the worker's turns and while it reads. *)
Inductive reaches w : World → Prop :=
| reaches_start : reaches w w
| reaches_turn w1 w2 stop_before stop_after others read :
    reaches w w1 → worker_turn stop_before stop_after others read w1 = (w2, Turn_Continue) → reaches w w2
| reaches_shared w1 p s : reaches w w1 → reaches w (set_provider p (set_controls s w1)).

Lemma reaches_correlated w w' : correlated w → reaches w w' → correlated w'.
Proof using Type.
  intros Hw. induction 1 as [|w1 w2 b a others read _ IH Ht|w1 p s _ IH]; [done|by eapply worker_turn_correlated|exact IH].
Qed.

Lemma reaches_command w w1 command : reaches w w1 → reaches w (accept_command command w1).1.
Proof using Type.
  intros Hr. unfold accept_command. destruct (accept _ _ _) as [s r]. destruct w1 as [p e s1 m]. exact (reaches_shared _ _ p s Hr).
Qed.

(** The response to a request for a turn whose prompt is gone. *)
Lemma live_turn_start_gone route text w id response sid thread prompt :
  pending_controls w !! id = Some (Pending_TurnStart sid thread prompt) →
  (parse_server_text text (engine w)).2 = Ok (Frame_Response id Expect_TurnStart response) →
  (pop_prompt sid (controls w)).2 = None →
  (process_live_frame route text w).2 = Err (source_protocol "queued prompt changed before turn/start completed").
Proof using Type.
  intros Hp Ht Hnone. unfold process_live_frame, mbind, act_bind, on_engine.
  destruct (parse_server_text text (engine w)) as [e r]. simpl in Ht. subst r.
  change (on_provider (modify count_validated) (set_engine e w)) with (set_provider (count_validated (provider w)) (set_engine e w), Ok () : result CodexProviderSourceError unit).
  cbv beta iota. unfold process_control_response, mbind, act_bind.
  rewrite (take_pending_Some id _ _ (set_provider _ (set_engine e w)) _ Hp). cbv beta iota. unfold turn_started_response, mbind, act_bind. by simpl; rewrite Hnone.
Qed.
(** The iteration that reads it, after others changed the shared state. *)
Lemma worker_turn_gone w w1 w2 others text id response sid thread prompt :
  flush_responses w = (w1, Ok ()) → flush_control_commands w1 = (w2, Ok ()) →
  pending_controls w2 !! id = Some (Pending_TurnStart sid thread prompt) →
  (parse_server_text text (engine w2)).2 = Ok (Frame_Response id Expect_TurnStart response) →
  (pop_prompt sid (controls (interrupted others w2))).2 = None →
  worker_turn false false others (Ok (Io_Text text)) w =
    (close_and_disconnect true (process_live_frame Route_Observer text (interrupted others w2)).1,
     Turn_Failed (source_protocol "queued prompt changed before turn/start completed")).
Proof using Type.
  intros Hf1 Hf2 Hp Ht Hnone. unfold worker_turn. rewrite Hf1, Hf2. cbv beta iota zeta.
  pose proof (live_turn_start_gone Route_Observer text (interrupted others w2) id response sid thread prompt) as Hgone.
  destruct (process_live_frame Route_Observer text (interrupted others w2)) as [w3 r]. simpl in Hgone.
  rewrite Hgone; [done| | |done]; unfold interrupted; by destruct (others _ _).
Qed.
End worker.
