(* ===== verification/CodexControlTheorems.v ===== *)
(** * The commands of the Codex provider

    The properties of the command queues and of the worker that empties them:
    the bounds, the order of the prompts, the correspondence between responses
    and commands, and what clearing a queue does to a turn that is starting. *)

From stdpp Require Import base strings numbers sorting gmap list.
From S2P Require Import Prelude Bytes Json Values Snapshots Capability Interaction Event.
From S2P Require Import CodexMapper CodexProtocol CodexMapperSpec CodexApproval CodexApprovalSpec CodexInteractions CodexInteractionsSpec CodexControl.
From S2P Require Import CodexWorker CodexWorkerSpec Examples CodexRuns.

(** ** A run *)

Definition toy_prompt : AgentCommand :=
  MkAgentCommand (example_id 30) session_1 channel_1 (example_time 50) (SubmitPrompt (example_text "Continue") Delivery_Queue).
Definition toy_prompt_2 : AgentCommand :=
  MkAgentCommand (example_id 31) session_1 channel_1 (example_time 51) (SubmitPrompt (example_text "Stop") Delivery_Queue).
Definition toy_clear : AgentCommand :=
  MkAgentCommand (example_id 32) session_1 channel_1 (example_time 52) (Queue Queue_Clear).
Definition toy_control_ops : list ControlOp :=
  [Ctl_Accept (MkLocal ∅ []) toy_prompt; Ctl_Accept (MkLocal ∅ []) toy_prompt_2; Ctl_PopPrompt session_1].

(** A prompt is submitted, and the worker sends it. *)
Definition toy_worker : ControlWorld (S := unit) (I := list rstring) :=
  worker_start (provider_run [Op_Call (Call_Resume resume_document)] toy_start) ProtocolEngine_new ControlRuntimeState_new.
Definition toy_submitted : ControlWorld (S := unit) (I := list rstring) := (accept_command toy_prompt toy_worker).1.
Definition toy_sent : ControlWorld (S := unit) (I := list rstring) :=
  (worker_turn false false nothing (Ok Io_Timeout) toy_submitted).1.
Definition answer_text : rstring := [0%N].

Definition continues (t : WorkerTurn) : bool := match t with Turn_Continue => true | _ => false end.
Lemma continues_true t : continues t = true → t = Turn_Continue.
Proof. by destruct t. Qed.

Definition frame_is (f : ServerFrame → bool) (r : result CodexProviderSourceError ServerFrame) : bool :=
  match r with Ok frame => f frame | Err _ => false end.

Section commands.
Context `{Externals} {S I : Type} `{!EventSink S} `{!Draws} `{!ApprovalDraws} `{!CodexLibrary} `{!AppServerIo I}.
Abbreviation World := (ControlWorld (S := S) (I := I)).
Implicit Types (w : World) (sid : SessionId).

(** The queues of the phone's commands are bounded.  Whatever commands are
    accepted and whatever the worker does with the queues, at most 64 commands
    wait, at most 32 prompts wait for a session, the bytes of the waiting
    prompts of all sessions are at most 1 MiB, and the size a queue records is
    the size of the prompts it holds. *)
Theorem control_bounds ops :
  let s := control_after ops ControlRuntimeState_new in
  length (commands s) ≤ 64 ∧ (total_bytes (prompts s) <= 1048576)%N ∧
  ∀ sid q, prompts s !! sid = Some q →
    length (queue_prompts q) ≤ 32 ∧ queue_bytes q = text_sum (queue_prompts q).
Proof.
  intros s. destruct (control_after_ok ops _ controls_new_ok) as [Hc Hq Ht]. split_and!; [done..|].
  intros sid q Hs. exact (Hq sid q Hs).
Qed.

(** C22: prompts are started in the order they were accepted.  Unless its queue
    is cleared, the prompts taken for a session, followed by those that still
    wait, are the prompts accepted for it, in that order: none is lost,
    repeated or overtaken, whatever happens to other sessions. *)
Theorem prompt_order sid ops :
  forallb (λ op, negb (clears sid op)) ops = true →
  taken_prompts sid ops ControlRuntimeState_new ++ queue_prompts (queue_of (control_after ops ControlRuntimeState_new) sid) =
  queued_prompts sid ops ControlRuntimeState_new.
Proof. intros Ho. by rewrite (control_order sid ops _ Ho). Qed.

(** C10: every response is matched with the command it answers.  The worker
    starts with nothing pending; whatever other threads do to the state they
    share with it, any response or error the protocol engine lets through
    belongs to a command whose request has the method of the response, the
    command is removed before the response is processed, and the pages of a
    model catalog in progress hold at most 1000 models, from at most 20
    different cursors.  In particular no answer is reported as unexpected. *)
Theorem responses_correlated p e s w text e' frame id expected :
  engine_pending e = ∅ → reaches (worker_start p e s) w →
  parse_server_text text (engine w) = (e', Ok frame) → frame_answers frame = Some (id, expected) →
  ∃ kind, pending_controls w !! id = Some kind ∧ kind_matches kind expected = true ∧ kind_ok kind ∧
    ∀ what, take_pending id expected what (set_engine e' w) =
      (set_pending_controls (delete id (pending_controls w)) (set_engine e' w), Ok kind).
Proof.
  intros He Hr Hp Hf. pose proof (reaches_correlated _ _ (worker_start_correlated p e s He) Hr) as Hw.
  destruct (parse_answering _ _ _ _ _ _ Hw Hp Hf) as ((kind & Hk & Hm & Hok) & _). exists kind. split_and!; [done..|].
  intros what. unfold take_pending. by rewrite Hk.
Qed.

(** C36: clearing a queue while its first prompt is being started ends the
    worker.  If the command arrives while the worker, which has flushed its
    queues, waits for the answer to [turn/start], it empties the queue at once,
    the prompt of the request in flight included.  The successful response then
    finds no prompt to take, which is a failure of the protocol: the worker
    closes what is pending, disconnects all sessions and returns this error,
    whatever would have been read next. *)
Theorem clear_fails_pending_turn w w1 w2 command sid thread prompt text id response turns :
  command_payload command = Queue Queue_Clear → command_session_id command = sid →
  flush_responses w = (w1, Ok ()) → flush_control_commands w1 = (w2, Ok ()) →
  pending_controls w2 !! id = Some (Pending_TurnStart sid thread prompt) →
  (parse_server_text text (engine w2)).2 = Ok (Frame_Response id Expect_TurnStart response) →
  run_worker ((false, false, submits command, Ok (Io_Text text)) :: turns) w =
    (close_and_disconnect true (process_live_frame Route_Observer text (accept_command command w2).1).1,
     Turn_Failed (source_protocol "queued prompt changed before turn/start completed")).
Proof.
  intros Hc Hsid Hf1 Hf2 Hp Ht.
  assert (interrupted (submits command) w2 = (accept_command command w2).1) as Hi.
  { unfold interrupted, submits, accept_command, the_local. destruct w2 as [p e s m]. by destruct (accept _ _ _). }
  cbn [run_worker]. rewrite (worker_turn_gone w w1 w2 (submits command) text id response sid thread prompt), Hi; [done..|].
  unfold interrupted, submits. simpl. by apply pop_cleared.
Qed.

(** An iteration in which nothing is read. *)
Lemma turn_flushed w w' :
  worker_turn false false nothing (Ok Io_Timeout) w = (w', Turn_Continue) →
  ∃ w1, flush_responses w = (w1, Ok ()) ∧ flush_control_commands w1 = (w', Ok ()).
Proof.
  unfold worker_turn. destruct (flush_responses w) as [w1 [[]|]]; [|done].
  destruct (flush_control_commands w1) as [w2 [[]|]] eqn:E2; [|done]. intros [= <-]. exists w1. split; [done|]. rewrite E2.
  by destruct w2.
Qed.
End commands.

(** ** Witnesses *)

(** Of two prompts that were queued, the first was taken. *)
Lemma prompt_order_witness :
  taken_prompts session_1 toy_control_ops ControlRuntimeState_new = [example_text "Continue"] ∧
  taken_prompts session_1 toy_control_ops ControlRuntimeState_new
    ++ queue_prompts (queue_of (control_after toy_control_ops ControlRuntimeState_new) session_1) =
  queued_prompts session_1 toy_control_ops ControlRuntimeState_new.
Proof. split; [vm_compute; reflexivity|]. apply prompt_order. vm_compute. reflexivity. Defined.

Lemma toy_sent_turn : worker_turn false false nothing (Ok Io_Timeout) toy_submitted = (toy_sent, Turn_Continue).
Proof.
  assert (continues (worker_turn false false nothing (Ok Io_Timeout) toy_submitted).2 = true) as Hc%continues_true by (vm_compute; reflexivity).
  unfold toy_sent. revert Hc. generalize (worker_turn false false nothing (Ok Io_Timeout) toy_submitted). by intros [w t] [= ->].
Qed.

Lemma toy_sent_reached : reaches toy_worker toy_sent.
Proof. eapply reaches_turn; [|exact toy_sent_turn]. apply reaches_command, reaches_start. Qed.

(** The answer to the turn the worker asked for. *)
Definition is_turn_answer (frame : ServerFrame) : bool :=
  match frame with Frame_Response id Expect_TurnStart _ => bool_decide (id = RequestId_Number 1) | _ => false end.

Lemma toy_answer : ∃ e' response,
  parse_server_text answer_text (engine toy_sent) = (e', Ok (Frame_Response (RequestId_Number 1) Expect_TurnStart response)).
Proof.
  assert (frame_is is_turn_answer (parse_server_text answer_text (engine toy_sent)).2 = true) as Hf by (vm_compute; reflexivity).
  revert Hf. generalize (parse_server_text answer_text (engine toy_sent)). intros [e' [frame|]]; [|discriminate 1].
  destruct frame as [| |id [] response|]; simpl; try discriminate 1. intros ->%bool_decide_eq_true. eauto.
Qed.

Lemma responses_correlated_witness : ∃ kind,
  pending_controls toy_sent !! RequestId_Number 1 = Some kind ∧ kind_matches kind Expect_TurnStart = true.
Proof.
  destruct toy_answer as (e' & response & Hp).
  destruct (responses_correlated (provider_run [Op_Call (Call_Resume resume_document)] toy_start) ProtocolEngine_new
    ControlRuntimeState_new toy_sent _ e' _ (RequestId_Number 1) Expect_TurnStart eq_refl toy_sent_reached Hp eq_refl)
    as (kind & Hk & Hm & _). exists kind. split; [exact Hk|exact Hm].
Defined.

Definition is_pending_turn (kind : option PendingControl) : bool :=
  match kind with
  | Some (Pending_TurnStart sid thread prompt) =>
      bool_decide (sid = session_1) && bool_decide (thread = lit "t") && bool_decide (raw prompt = lit "Continue")
  | _ => false
  end.
Lemma toy_pending : ∃ thread prompt,
  pending_controls toy_sent !! RequestId_Number 1 = Some (Pending_TurnStart session_1 thread prompt).
Proof.
  assert (is_pending_turn (pending_controls toy_sent !! RequestId_Number 1) = true) as Hk by (vm_compute; reflexivity).
  revert Hk. generalize (pending_controls toy_sent !! RequestId_Number 1). intros [[]|]; simpl; try discriminate 1.
  intros [[->%bool_decide_eq_true _]%andb_true_iff _]%andb_true_iff. eauto.
Qed.

(** The worker sends the turn, the phone clears the queue, the turn has started. *)
Lemma clear_fails_pending_turn_witness :
  ∃ w', run_worker [(false, false, submits toy_clear, Ok (Io_Text answer_text)); (false, false, nothing, Ok Io_Timeout)] toy_submitted =
    (w', Turn_Failed (source_protocol "queued prompt changed before turn/start completed")).
Proof.
  destruct toy_answer as (e' & response & Hp). destruct toy_pending as (thread & prompt & Hk).
  destruct (turn_flushed _ _ toy_sent_turn) as (w1 & E1 & E2). eexists.
  exact (clear_fails_pending_turn toy_submitted w1 toy_sent toy_clear session_1 thread prompt answer_text (RequestId_Number 1) response _
    eq_refl eq_refl E1 E2 Hk (f_equal snd Hp)).
Defined.
