(* ===== verification/CodexProxy.v ===== *)
(** * The client proxy of the Codex provider

    Models the proxy of [agentpulse-providers/codex/src/runtime.rs]
    ([ProxyControl] to [proxy_connection_loop]): a desktop client talks to the
    App Server through AgentPulse, which passes every message on, observes what
    the server sends, and adds the answers that were given on the phone. *)

From stdpp Require Import base strings numbers sorting gmap list.
From S2P Require Import Prelude Bytes Json Values Snapshots Capability Interaction Event.
From S2P Require Import CodexMapper CodexProtocol CodexApproval CodexInteractions.

Definition MAX_PROXY_CONNECTIONS : nat := 16.

(** ** Sockets *)

(** [tungstenite::Message] and the errors of [read] that are told apart. *)
Inductive ProxyMessage : Type :=
| Px_Text (text : rstring)
| Px_Binary (bytes : list Byte.byte)
| Px_Ping
| Px_Pong
| Px_Close (frame : option (N * rstring))
| Px_Frame.
Inductive ProxyReadError : Type :=
| Px_TimedOut
| Px_ConnectionClosed
| Px_Failed (message : rstring).

#[export] Instance ProxyMessage_eq_dec : EqDecision ProxyMessage.
Proof. solve_decision. Defined.

(** What was sent on a WebSocket, and how many operations it performed. *)
Record ProxySocket : Type := MkSocket { socket_sent : list ProxyMessage; socket_operations : nat }.
Definition new_socket : ProxySocket := MkSocket [] 0.

(** The answers to the operations on the sockets of the two sides. *)
Class ProxySockets : Type := {
  upstream_answer : nat → result rstring unit;
  downstream_answer : nat → result rstring unit
}.

Definition proxy_transport_error (error : rstring) : CodexProviderSourceError :=
  Source_Transport (lit "client proxy: " ++ error).

Definition socket_send (answer : nat → result rstring unit) (message : ProxyMessage) (s : ProxySocket) :
    ProxySocket * result CodexProviderSourceError unit :=
  match answer (socket_operations s) with
  | Ok _ => (MkSocket (socket_sent s ++ [message]) (1 + socket_operations s), Ok ())
  | Err error => (MkSocket (socket_sent s) (1 + socket_operations s), Err (proxy_transport_error error))
  end.
Definition socket_flush (answer : nat → result rstring unit) (s : ProxySocket) :
    ProxySocket * result CodexProviderSourceError unit :=
  (MkSocket (socket_sent s) (1 + socket_operations s), map_err proxy_transport_error (answer (socket_operations s))).
(** [let _ = socket.close(frame)] *)
Definition socket_close (answer : nat → result rstring unit) (frame : option (N * rstring)) (s : ProxySocket) : ProxySocket :=
  (socket_send answer (Px_Close frame) s).1.

(** [LocalWebSocketRef] *)
#[export] Instance LocalWebSocketRef `{ProxySockets} : AppServerIo ProxySocket :=
  {| write_text := λ text, socket_send upstream_answer (Px_Text text) |}.

(** ** Cancellation *)

(** A stream is known by the route of its connection and its side. *)
Inductive ProxySide : Type := Side_Client | Side_Server.
#[export] Instance ProxySide_eq_dec : EqDecision ProxySide.
Proof. solve_decision. Defined.
#[export] Instance ProxySide_countable : Countable ProxySide.
Proof.
  refine (inj_countable' (λ s, match s with Side_Client => true | Side_Server => false end)
    (λ b : bool, if b then Side_Client else Side_Server) _); by intros [].
Defined.
Abbreviation ProxyStream := (N * ProxySide)%type.

Record ProxyControl : Type := MkProxyControl {
  stopped : bool;
  connections : gmap N (list ProxyStream);
  shut_down : gset ProxyStream
}.
Definition ProxyControl_new : ProxyControl := MkProxyControl false ∅ ∅.

Definition route_number (route : ApprovalRoute) : N :=
  match route with Route_Proxy number => raw number | Route_Observer => 0%N end.

(** [request_stop]: the flag is set, then the connections are taken under their
    lock and shut down. *)
Definition request_stop_flag (c : ProxyControl) : ProxyControl := MkProxyControl true (connections c) (shut_down c).
Definition request_stop_streams (c : ProxyControl) : ProxyControl :=
  MkProxyControl (stopped c) ∅ (list_to_set (concat (map_to_list (connections c)).*2) ∪ shut_down c).

(** [register] and [unregister] of a route number; [cloned]: whether the stream
    could be cloned. *)
Definition px_register (number : N) (side : ProxySide) (cloned : result rstring unit) (c : ProxyControl) :
    ProxyControl * result CodexProviderSourceError bool :=
  match cloned with
  | Err error => (c, Err (Source_Runtime "client proxy cancellation socket clone" error))
  | Ok _ =>
      if stopped c then (MkProxyControl (stopped c) (connections c) ({[(number, side)]} ∪ shut_down c), Ok false)
      else
        let streams := default [] (connections c !! number) in
        (MkProxyControl (stopped c) (<[number := streams ++ [(number, side)]]> (connections c)) (shut_down c), Ok true)
  end.
Definition px_unregister (number : N) (c : ProxyControl) : ProxyControl :=
  MkProxyControl (stopped c) (delete number (connections c)) (shut_down c).

(** ** The acceptor and its threads *)

(** Where the thread of a connection is in [run_proxy_connection]: about to
    register the client's stream, in the handshake with the client, in
    [transport::connect] with its upstream stream not registered yet, about to
    register that one, in the loop, about to unregister, or back. *)
Inductive ConnectionPhase : Type :=
| Conn_Starting
| Conn_Accepting
| Conn_Dialing
| Conn_Connected
| Conn_Running
| Conn_Ending
| Conn_Finished.

(** Where [run_client_proxy] is: at the head of its loop, inside it, about to
    shut the connections down after a failure, joining the threads, or back. *)
Inductive AcceptorPhase : Type :=
| Acc_Head
| Acc_Accepting
| Acc_Stopping
| Acc_Joining (failed : bool)
| Acc_Exited (failed : bool).

Record ProxyServer : Type := MkProxyServer {
  proxy_control : ProxyControl;
  next_route : u64;
  proxy_clients : gmap N ConnectionPhase;
  acceptor : AcceptorPhase
}.
Definition ProxyServer_new : ProxyServer := MkProxyServer ProxyControl_new (Refine 1%N I) ∅ Acc_Head.

Definition set_proxy_control c (s : ProxyServer) : ProxyServer :=
  MkProxyServer c (next_route s) (proxy_clients s) (acceptor s).
Definition set_clients m (s : ProxyServer) : ProxyServer :=
  MkProxyServer (proxy_control s) (next_route s) m (acceptor s).
Definition set_acceptor a (s : ProxyServer) : ProxyServer :=
  MkProxyServer (proxy_control s) (next_route s) (proxy_clients s) a.

Definition u64_saturating_succ (n : u64) : u64 := default n (of_raw (raw n + 1)%N).

Definition conn_finished (p : ConnectionPhase) : bool := match p with Conn_Finished => true | _ => false end.
(** Finished threads are joined and forgotten. *)
Definition reap (m : gmap N ConnectionPhase) : gmap N ConnectionPhase := filter (λ p, conn_finished p.2 = false) m.

Inductive AcceptOutcome : Type :=
| Accept_Stream (spawned : bool)
| Accept_WouldBlock
| Accept_Failed.

(** What one thread does next. *)
Inductive ProxyAction : Type :=
| Do_Acceptor (outcome : AcceptOutcome)
| Do_Connection (number : N) (cloned : result rstring unit) (setup : result CodexProviderSourceError unit)
| Do_StopFlag
| Do_StopStreams.

(** The body of the loop: a stop that is requested meanwhile is not seen. *)
Definition accept_step (outcome : AcceptOutcome) (s : ProxyServer) : ProxyServer :=
  let s := set_acceptor Acc_Head (set_clients (reap (proxy_clients s)) s) in
  match outcome with
  | Accept_WouldBlock => s
  | Accept_Failed => set_acceptor Acc_Stopping (set_proxy_control (request_stop_flag (proxy_control s)) s)
  | Accept_Stream spawned =>
      if (MAX_PROXY_CONNECTIONS <=? size (proxy_clients s))%nat then s
      else
        let number := raw (next_route s) in
        let s := MkProxyServer (proxy_control s) (u64_saturating_succ (next_route s)) (proxy_clients s) (acceptor s) in
        if spawned then set_clients (<[number := Conn_Starting]> (proxy_clients s)) s
        else set_proxy_control (px_unregister number (proxy_control s)) s
  end.

Definition acceptor_step (outcome : AcceptOutcome) (s : ProxyServer) : option ProxyServer :=
  match acceptor s with
  | Acc_Head => Some (set_acceptor (if stopped (proxy_control s) then Acc_Joining false else Acc_Accepting) s)
  | Acc_Accepting => Some (accept_step outcome s)
  | Acc_Stopping =>
      Some (set_acceptor (Acc_Joining true) (set_proxy_control (request_stop_streams (proxy_control s)) s))
  | Acc_Joining failed =>
      if bool_decide (reap (proxy_clients s) = ∅) then Some (set_acceptor (Acc_Exited failed) (set_clients ∅ s)) else None
  | Acc_Exited _ => None
  end.

Definition connection_step (number : N) (cloned : result rstring unit) (setup : result CodexProviderSourceError unit)
    (phase : ConnectionPhase) (c : ProxyControl) : option (ProxyControl * ConnectionPhase) :=
  match phase with
  | Conn_Starting =>
      match px_register number Side_Client cloned c with
      | (c', Ok true) => Some (c', Conn_Accepting)
      | (c', _) => Some (c', Conn_Ending)
      end
  | Conn_Accepting => Some (c, match setup with Ok _ => Conn_Dialing | Err _ => Conn_Ending end)
  | Conn_Dialing => Some (c, match setup with Ok _ => Conn_Connected | Err _ => Conn_Ending end)
  | Conn_Connected =>
      match px_register number Side_Server cloned c with
      | (c', Ok true) => Some (c', Conn_Running)
      | (c', _) => Some (c', Conn_Ending)
      end
  | Conn_Running => Some (c, Conn_Ending)
  | Conn_Ending => Some (px_unregister number c, Conn_Finished)
  | Conn_Finished => None
  end.

Definition proxy_act (a : ProxyAction) (s : ProxyServer) : option ProxyServer :=
  match a with
  | Do_Acceptor outcome => acceptor_step outcome s
  | Do_Connection number cloned setup =>
      phase ← proxy_clients s !! number;
      '(c, phase') ← connection_step number cloned setup phase (proxy_control s);
      Some (set_clients (<[number := phase']> (proxy_clients s)) (set_proxy_control c s))
  | Do_StopFlag => Some (set_proxy_control (request_stop_flag (proxy_control s)) s)
  | Do_StopStreams =>
      if stopped (proxy_control s) then Some (set_proxy_control (request_stop_streams (proxy_control s)) s) else None
  end.

Fixpoint proxy_run (actions : list ProxyAction) (s : ProxyServer) : option ProxyServer :=
  match actions with
  | [] => Some s
  | a :: actions' => s' ← proxy_act a s; proxy_run actions' s'
  end.

(** ** One connection *)

Section proxy.
Context `{Externals} {S : Type} `{!EventSink S} `{!Draws} `{!ApprovalDraws} `{!CodexLibrary} `{!ProxySockets}.

(** The provider's connection is the upstream socket; [from_client] and
    [from_server] record what was read. *)
Record ProxyWorld : Type := MkProxyWorld {
  px_provider : ProviderWorld (S := S) (I := ProxySocket);
  px_downstream : ProxySocket;
  from_client : list ProxyMessage;
  from_server : list ProxyMessage
}.
Implicit Types (w : ProxyWorld) (route : ApprovalRoute).

Definition px_upstream w : ProxySocket := io (px_provider w).
Definition set_px_provider v w : ProxyWorld := MkProxyWorld v (px_downstream w) (from_client w) (from_server w).
Definition set_downstream v w : ProxyWorld := MkProxyWorld (px_provider w) v (from_client w) (from_server w).
Definition set_upstream v w : ProxyWorld := set_px_provider (set_io v (px_provider w)) w.
Definition read_client (m : ProxyMessage) w : ProxyWorld :=
  MkProxyWorld (px_provider w) (px_downstream w) (from_client w ++ [m]) (from_server w).
Definition read_server (m : ProxyMessage) w : ProxyWorld :=
  MkProxyWorld (px_provider w) (px_downstream w) (from_client w) (from_server w ++ [m]).

(** How a step of the loop goes on: it continues, or the function returns. *)
Inductive ProxyStep : Type := Proxy_Continue | Proxy_Return (r : result CodexProviderSourceError unit).
Definition after_operation (r : result CodexProviderSourceError unit) : ProxyStep :=
  match r with Ok _ => Proxy_Continue | Err e => Proxy_Return (Err e) end.

Definition to_upstream (m : ProxyMessage) w : ProxyWorld * ProxyStep :=
  let '(s, r) := socket_send upstream_answer m (px_upstream w) in (set_upstream s w, after_operation r).
Definition to_downstream (m : ProxyMessage) w : ProxyWorld * ProxyStep :=
  let '(s, r) := socket_send downstream_answer m (px_downstream w) in (set_downstream s w, after_operation r).
Definition flush_upstream w : ProxyWorld * ProxyStep :=
  let '(s, r) := socket_flush upstream_answer (px_upstream w) in (set_upstream s w, after_operation r).
Definition flush_downstream w : ProxyWorld * ProxyStep :=
  let '(s, r) := socket_flush downstream_answer (px_downstream w) in (set_downstream s w, after_operation r).
Definition close_upstream (frame : option (N * rstring)) w : ProxyWorld :=
  set_upstream (socket_close upstream_answer frame (px_upstream w)) w.
Definition close_downstream (frame : option (N * rstring)) w : ProxyWorld :=
  set_downstream (socket_close downstream_answer frame (px_downstream w)) w.

(** The errors of a read that does not return a message. *)
Definition read_failed (error : ProxyReadError) : ProxyStep :=
  match error with
  | Px_TimedOut => Proxy_Continue
  | Px_ConnectionClosed => Proxy_Return (Ok ())
  | Px_Failed message => Proxy_Return (Err (proxy_transport_error message))
  end.

Definition px_flush_responses route w : ProxyWorld * ProxyStep :=
  match flush_approval_responses route (px_provider w) with
  | Some (p, r) => (set_px_provider p w, after_operation r)
  | None => (w, Proxy_Continue)
  end.

(** [match downstream.read()] *)
Definition forward_client (read : result ProxyReadError ProxyMessage) w : ProxyWorld * ProxyStep :=
  match read with
  | Ok m =>
      let w := read_client m w in
      match m with
      | Px_Text _ | Px_Binary _ => to_upstream m w
      | Px_Ping | Px_Pong => flush_downstream w
      | Px_Close frame => (close_upstream frame w, Proxy_Return (Ok ()))
      | Px_Frame => (w, Proxy_Continue)
      end
  | Err error => (w, read_failed error)
  end.

(** A frame that cannot be mirrored is passed on all the same. *)
Definition observe_server_text route (text : rstring) w : ProxyWorld :=
  set_px_provider (observe_proxy_server_text route text (px_provider w)).1 w.

(** [match upstream.read()] *)
Definition forward_server route (read : result ProxyReadError ProxyMessage) w : ProxyWorld * ProxyStep :=
  match read with
  | Ok m =>
      let w := read_server m w in
      match m with
      | Px_Text text => to_downstream m (observe_server_text route text w)
      | Px_Binary _ => to_downstream m w
      | Px_Ping | Px_Pong => flush_upstream w
      | Px_Close frame => (close_downstream frame w, Proxy_Return (Ok ()))
      | Px_Frame => (w, Proxy_Continue)
      end
  | Err error => (w, read_failed error)
  end.

Definition and_then (a b : ProxyWorld → ProxyWorld * ProxyStep) w : ProxyWorld * ProxyStep :=
  match a w with
  | (w', Proxy_Continue) => b w'
  | other => other
  end.

(** One iteration, given what the two sockets read. *)
Definition proxy_iteration route (client server : result ProxyReadError ProxyMessage) : ProxyWorld → ProxyWorld * ProxyStep :=
  and_then (px_flush_responses route) (and_then (forward_client client) (forward_server route server)).

(** The loop, over what is read before the stop is seen; both sides are closed then. *)
Fixpoint proxy_connection_loop route (reads : list (result ProxyReadError ProxyMessage * result ProxyReadError ProxyMessage)) w :
    ProxyWorld * result CodexProviderSourceError unit :=
  match reads with
  | [] => (close_upstream None (close_downstream None w), Ok ())
  | (client, server) :: reads' =>
      match proxy_iteration route client server w with
      | (w', Proxy_Continue) => proxy_connection_loop route reads' w'
      | (w', Proxy_Return r) => (w', r)
      end
  end.

(** [run_proxy_connection]: the approvals of the route end with it. *)
Definition run_proxy_connection route (reads : list (result ProxyReadError ProxyMessage * result ProxyReadError ProxyMessage))
    (c : ProxyControl) w : ProxyControl * ProxyWorld :=
  let w' := (proxy_connection_loop route reads w).1 in
  (px_unregister (route_number route) c, set_px_provider (close_route_approvals route (px_provider w')) w').

Definition proxy_start (p : ProviderWorld (S := S) (I := ProxySocket)) : ProxyWorld :=
  MkProxyWorld (set_io new_socket p) new_socket [] [].
End proxy.
