(* ===== verification/CodexProxySpec.v ===== *)
(** * The client proxy: correctness

    What a proxied connection passes on, and how its streams are cancelled. *)

From stdpp Require Import base strings numbers sorting gmap list.
From S2P Require Import Prelude Bytes Json Values Snapshots Capability Interaction Event.
From S2P Require Import CodexMapper CodexProtocol CodexApproval CodexApprovalSpec CodexInteractions CodexProxy.

(** ** Cancellation *)

(** The streams a connection holds and can be blocked on. *)
Definition holds_stream (phase : ConnectionPhase) (side : ProxySide) : bool :=
  match phase, side with
  | (Conn_Accepting | Conn_Dialing | Conn_Connected | Conn_Running), Side_Client => true
  | (Conn_Dialing | Conn_Connected | Conn_Running), Side_Server => true
  | _, _ => false
  end.
(** Those it has not registered yet: the upstream stream during
    [transport::connect] and until it is registered. *)
Definition unregistered (phase : ConnectionPhase) (side : ProxySide) : bool :=
  match phase, side with (Conn_Dialing | Conn_Connected), Side_Server => true | _, _ => false end.

(** It is known to the control, or was shut down. *)
Definition reachable_stream (c : ProxyControl) (n : N) (side : ProxySide) : Prop :=
  (n, side) ∈ default [] (connections c !! n) ∨ (n, side) ∈ shut_down c.

Record proxy_ok (s : ProxyServer) : Prop := {
  ok_size : size (proxy_clients s) ≤ MAX_PROXY_CONNECTIONS;
  ok_streams : ∀ n phase side, proxy_clients s !! n = Some phase → holds_stream phase side = true →
    unregistered phase side = false → reachable_stream (proxy_control s) n side;
  ok_routes : ∀ n, is_Some (proxy_clients s !! n) → (n < raw (next_route s))%N;
  ok_exited : ∀ failed, acceptor s = Acc_Exited failed → proxy_clients s = ∅
}.

Lemma proxy_new_ok : proxy_ok ProxyServer_new.
Proof.
  split; simpl; [rewrite map_size_empty; lia|intros ? ? ? Hn; by rewrite lookup_empty in Hn|intros ? [? Hn]; by rewrite lookup_empty in Hn|done].
Qed.

Lemma reap_lookup m n phase : reap m !! n = Some phase → m !! n = Some phase ∧ conn_finished phase = false.
Proof. unfold reap. by rewrite map_lookup_filter_Some. Qed.
Lemma reap_size m : size (reap m) ≤ size m.
Proof. apply map_subseteq_size, map_filter_subseteq. Qed.

(** Shutting streams down and setting the flag lose no stream. *)
Lemma reachable_flag c n side : reachable_stream c n side → reachable_stream (request_stop_flag c) n side.
Proof. done. Qed.
Lemma reachable_streams c n side : reachable_stream c n side → reachable_stream (request_stop_streams c) n side.
Proof.
  intros [Hin|Hin]; right; simpl; [|set_solver]. apply elem_of_union_l, elem_of_list_to_set, list_elem_of_In.
  destruct (connections c !! n) as [streams|] eqn:E; simpl in Hin; [|by apply not_elem_of_nil in Hin].
  apply in_concat. exists streams. split; apply list_elem_of_In; [|done].
  apply list_elem_of_fmap. exists (n, streams). split; [done|]. by apply elem_of_map_to_list.
Qed.
Lemma reachable_unregister c m n side : n ≠ m → reachable_stream c n side → reachable_stream (px_unregister m c) n side.
Proof. intros Hne [Hin|Hin]; [left|by right]. simpl. by rewrite lookup_delete_ne. Qed.

Lemma reachable_register m side' cloned c n side :
  reachable_stream c n side → reachable_stream (px_register m side' cloned c).1 n side.
Proof.
  intros Hr. unfold px_register. destruct cloned; [|done]. destruct (stopped c); simpl.
  - destruct Hr; [by left|right; simpl; set_solver].
  - destruct Hr as [Hin|Hin]; [left; simpl|by right]. destruct (decide (n = m)) as [->|Hne].
    + rewrite lookup_insert_eq. simpl. apply elem_of_app. by left.
    + by rewrite lookup_insert_ne.
Qed.
Lemma reachable_registered n side cloned c c' :
  px_register n side cloned c = (c', Ok true) → reachable_stream c' n side.
Proof.
  unfold px_register. destruct cloned; [|done]. destruct (stopped c); [done|]. intros [= <-]. left. simpl.
  rewrite lookup_insert_eq. simpl. set_solver.
Qed.

(** ** Steps *)

Lemma proxy_ok_control c s :
  proxy_ok s → (∀ n side, reachable_stream (proxy_control s) n side → reachable_stream c n side) → proxy_ok (set_proxy_control c s).
Proof. intros [Hs Hst Hr He] Hc. split; simpl; [done| |done..]. eauto. Qed.
Lemma proxy_ok_acceptor a s :
  proxy_ok s → (∀ failed, a = Acc_Exited failed → proxy_clients s = ∅) → proxy_ok (set_acceptor a s).
Proof. intros [Hs Hst Hr He] Ha. by split. Qed.
Lemma proxy_ok_reap s : proxy_ok s → proxy_ok (set_clients (reap (proxy_clients s)) s).
Proof.
  intros [Hs Hst Hr He]. split; simpl.
  - pose proof (reap_size (proxy_clients s)). lia.
  - intros n phase side [Hn _]%reap_lookup. by apply Hst.
  - intros n [phase [Hn _]%reap_lookup]. eauto.
  - intros failed Hf. rewrite (He failed Hf). apply map_empty. intros n. apply eq_None_not_Some.
    intros [phase [Hn _]%reap_lookup]. by rewrite lookup_empty in Hn.
Qed.

Lemma saturating_succ n : (raw (u64_saturating_succ n) < u64_max)%N → raw (u64_saturating_succ n) = (raw n + 1)%N.
Proof.
  unfold u64_saturating_succ. destruct (of_raw (raw n + 1)%N) as [m|] eqn:E; simpl; [by apply of_raw_Some in E|].
  apply of_raw_None, N.leb_gt in E. lia.
Qed.
Lemma saturating_succ_le n : (raw n <= raw (u64_saturating_succ n))%N.
Proof. unfold u64_saturating_succ. destruct (of_raw (raw n + 1)%N) as [m|] eqn:E; simpl; [apply of_raw_Some in E; lia|lia]. Qed.

Lemma accept_step_ok outcome s :
  proxy_ok s → (raw (next_route (accept_step outcome s)) < u64_max)%N → proxy_ok (accept_step outcome s).
Proof.
  intros Hs%proxy_ok_reap. unfold accept_step. cbv zeta. generalize dependent (set_clients (reap (proxy_clients s)) s). intros s1 Hs.
  assert (proxy_ok (set_acceptor Acc_Head s1)) as Hh by (by apply proxy_ok_acceptor).
  destruct outcome as [spawned| |]; [|done|].
  - destruct (Nat.leb_spec MAX_PROXY_CONNECTIONS (size (proxy_clients (set_acceptor Acc_Head s1)))) as [|Hlt]; [done|].
    destruct Hh as [Hz Hst Hr He]. cbn [set_acceptor proxy_control next_route proxy_clients acceptor] in *.
    intros Hmax. assert (raw (u64_saturating_succ (next_route s1)) = raw (next_route s1) + 1)%N as Hsucc
      by (apply saturating_succ; by destruct spawned).
    assert (∀ n, is_Some (proxy_clients s1 !! n) → (n < raw (u64_saturating_succ (next_route s1)))%N) as Hr'.
    { intros n Hn. pose proof (Hr n Hn). lia. }
    destruct spawned.
    + split; simpl; [|intros n phase side [[<- <-]|[_ Hn]]%lookup_insert_Some; [done|by apply Hst]| |done].
      * rewrite map_size_insert. destruct (_ !! _); simpl; lia.
      * intros n [phase [[<- _]|[_ Hn]]%lookup_insert_Some]; [simpl; lia|]. eauto.
    + split; simpl; [done| |done..]. intros n phase side Hn Hh Hu. apply reachable_unregister; [|eauto].
      pose proof (Hr _ (mk_is_Some _ _ Hn)). lia.
  - intros _. apply proxy_ok_acceptor; [|done]. by apply (proxy_ok_control (request_stop_flag (proxy_control s1)) (set_acceptor Acc_Head s1)).
Qed.

Lemma acceptor_step_ok outcome s s' :
  proxy_ok s → acceptor_step outcome s = Some s' → (raw (next_route s') < u64_max)%N → proxy_ok s'.
Proof.
  intros Hs. unfold acceptor_step. destruct (acceptor s) as [| | |failed|] eqn:Ha; [| | | |done].
  - intros [= <-] _. apply proxy_ok_acceptor; [done|]. by destruct (stopped _).
  - intros [= <-]. by apply accept_step_ok.
  - intros [= <-] _. apply proxy_ok_acceptor; [|done]. apply proxy_ok_control; [done|apply reachable_streams].
  - destruct (decide (reap (proxy_clients s) = ∅)) as [He|]; [rewrite bool_decide_eq_true_2 by done|by rewrite bool_decide_eq_false_2 by done].
    intros [= <-] _. split; simpl; [rewrite map_size_empty; lia|intros ? ? ? Hn; by rewrite lookup_empty in Hn|
      intros ? [? Hn]; by rewrite lookup_empty in Hn|done].
Qed.

(** A connection keeps the streams of the others, and holds none the control does not know. *)
Lemma connection_step_others n cloned setup phase c c' phase' m side :
  connection_step n cloned setup phase c = Some (c', phase') → m ≠ n → reachable_stream c m side → reachable_stream c' m side.
Proof.
  intros Hc Hne Hm. pose proof (reachable_register n Side_Client cloned c m side Hm) as H1.
  pose proof (reachable_register n Side_Server cloned c m side Hm) as H2.
  destruct phase; cbn [connection_step] in Hc; try (by injection Hc as <- _).
  - by destruct (px_register n Side_Client cloned c) as [c1 [[]|]]; injection Hc as <- _.
  - by destruct (px_register n Side_Server cloned c) as [c1 [[]|]]; injection Hc as <- _.
  - injection Hc as <- _. by apply reachable_unregister.
  - done.
Qed.
Lemma connection_step_own n cloned setup phase c c' phase' side :
  (∀ side, holds_stream phase side = true → unregistered phase side = false → reachable_stream c n side) →
  connection_step n cloned setup phase c = Some (c', phase') →
  holds_stream phase' side = true → unregistered phase' side = false → reachable_stream c' n side.
Proof.
  intros Hown Hc Hh Hu. destruct phase; cbn [connection_step] in Hc.
  - destruct (px_register n Side_Client cloned c) as [c1 [[]|]] eqn:Er; injection Hc as <- <-; [|by destruct side..].
    destruct side; [|done]. by eapply reachable_registered.
  - injection Hc as <- <-. destruct setup; [|by destruct side]. destruct side; [|done]. by apply Hown.
  - injection Hc as <- <-. destruct setup; [|by destruct side]. destruct side; [|done]. by apply Hown.
  - pose proof (reachable_register n Side_Server cloned c n Side_Client (Hown Side_Client eq_refl eq_refl)) as Hcl.
    destruct (px_register n Side_Server cloned c) as [c1 [[]|]] eqn:Er; injection Hc as <- <-; [|by destruct side..].
    destruct side; [exact Hcl|]. by eapply reachable_registered.
  - injection Hc as <- <-. by destruct side.
  - injection Hc as <- <-. by destruct side.
  - done.
Qed.

Lemma proxy_act_ok a s s' : proxy_ok s → proxy_act a s = Some s' → (raw (next_route s') < u64_max)%N → proxy_ok s'.
Proof.
  intros Hs. destruct a as [outcome|n cloned setup| |]; cbn [proxy_act].
  - by apply acceptor_step_ok.
  - destruct (proxy_clients s !! n) as [phase|] eqn:Hn; [|done]. simpl.
    destruct (connection_step n cloned setup phase (proxy_control s)) as [[c phase']|] eqn:Hc; [|done]. intros [= <-] _.
    destruct Hs as [Hz Hst Hr He]. split; simpl.
    + rewrite map_size_insert, Hn. done.
    + intros m q side [[<- <-]|[Hne Hm]]%lookup_insert_Some Hh Hu.
      * eapply connection_step_own; [|done..]. eauto.
      * eapply connection_step_others; [done|congruence|]. eauto.
    + intros m [q [[<- _]|[_ Hm]]%lookup_insert_Some]; eauto.
    + intros failed Hf. rewrite (He failed Hf), lookup_empty in Hn. done.
  - intros [= <-] _. apply proxy_ok_control; [done|apply reachable_flag].
  - destruct (stopped _); [|done]. intros [= <-] _. apply proxy_ok_control; [done|apply reachable_streams].
Qed.

Lemma proxy_act_route a s s' : proxy_act a s = Some s' → (raw (next_route s) <= raw (next_route s'))%N.
Proof.
  destruct a as [outcome|n cloned setup| |]; cbn [proxy_act].
  - unfold acceptor_step. destruct (acceptor s); [|intros [= <-]| | |done].
    + by intros [= <-].
    + unfold accept_step. cbv zeta. destruct outcome as [spawned| |]; [|simpl; lia..]. destruct (_ <=? _)%nat; [simpl; lia|].
      destruct spawned; apply saturating_succ_le.
    + by intros [= <-].
    + destruct (bool_decide _); [|done]. by intros [= <-].
  - destruct (proxy_clients s !! n) as [phase|]; [|done]. simpl.
    destruct (connection_step _ _ _ _ _) as [[c phase']|]; [|done]. by intros [= <-].
  - by intros [= <-].
  - destruct (stopped _); [|done]. by intros [= <-].
Qed.
Lemma proxy_run_route actions s s' : proxy_run actions s = Some s' → (raw (next_route s) <= raw (next_route s'))%N.
Proof.
  revert s. induction actions as [|a actions IH]; intros s; cbn [proxy_run]; [by intros [= <-]|].
  destruct (proxy_act a s) as [s1|] eqn:E; [|done]. simpl. intros Hr%IH. apply proxy_act_route in E. lia.
Qed.
Lemma proxy_run_ok actions s s' : proxy_ok s → proxy_run actions s = Some s' → (raw (next_route s') < u64_max)%N → proxy_ok s'.
Proof.
  revert s. induction actions as [|a actions IH]; intros s Hs; cbn [proxy_run]; [by intros [= <-]|].
  destruct (proxy_act a s) as [s1|] eqn:E; [|done]. simpl. intros Hr Hmax. apply (IH s1); [|done|done].
  eapply proxy_act_ok; [done|done|]. apply proxy_run_route in Hr. lia.
Qed.

(** Once the connections were taken, none is registered any more. *)
Definition cancelled (c : ProxyControl) : Prop := stopped c = true ∧ connections c = ∅.

Lemma cancelled_connection n cloned setup phase c c' phase' :
  cancelled c → connection_step n cloned setup phase c = Some (c', phase') → cancelled c'.
Proof.
  intros [Hs He]. destruct phase; cbn [connection_step]; unfold px_register; rewrite ?Hs.
  1,4: destruct cloned; by intros [= <- _].
  1,2,3: by intros [= <- _].
  - intros [= <- _]. split; [done|]. simpl. by rewrite He, delete_empty.
  - done.
Qed.
Lemma cancelled_act a s s' : cancelled (proxy_control s) → proxy_act a s = Some s' → cancelled (proxy_control s').
Proof.
  intros Hc. destruct a as [outcome|n cloned setup| |]; cbn [proxy_act].
  - unfold acceptor_step. destruct (acceptor s); [by intros [= <-]|intros [= <-]|intros [= <-]; by destruct Hc| |done].
    + unfold accept_step. cbv zeta. destruct outcome as [spawned| |]; [|done|by destruct Hc]. destruct (_ <=? _)%nat; [done|].
      destruct spawned; [done|]. destruct Hc as [Hs He]. split; [done|]. simpl. by rewrite He, delete_empty.
    + destruct (bool_decide _); [|done]. by intros [= <-].
  - destruct (proxy_clients s !! n) as [phase|]; [|done]. simpl.
    destruct (connection_step _ _ _ _ _) as [[c phase']|] eqn:E; [|done]. intros [= <-]. by eapply cancelled_connection.
  - intros [= <-]. by destruct Hc.
  - destruct (stopped _); [|done]. intros [= <-]. by destruct Hc.
Qed.
Lemma cancelled_run actions s s' : cancelled (proxy_control s) → proxy_run actions s = Some s' → cancelled (proxy_control s').
Proof.
  revert s. induction actions as [|a actions IH]; intros s Hs; cbn [proxy_run]; [by intros [= <-]|].
  destruct (proxy_act a s) as [s1|] eqn:E; [|done]. simpl. apply IH. by eapply cancelled_act.
Qed.

(** Then no connection gets to forward that did not already. *)
Lemma cancelled_setup a s s' n :
  cancelled (proxy_control s) → proxy_act a s = Some s' →
  proxy_clients s !! n ≠ Some Conn_Running → proxy_clients s' !! n ≠ Some Conn_Running.
Proof.
  intros [Hs _] E Hn. destruct a as [outcome|m cloned setup| |]; cbn [proxy_act] in E.
  - unfold acceptor_step in E. destruct (acceptor s); [by injection E as <-| |by injection E as <-| |done].
    + injection E as <-. unfold accept_step. cbv zeta.
      assert (reap (proxy_clients s) !! n ≠ Some Conn_Running) as Hreap by (by intros [? _]%reap_lookup).
      destruct outcome as [spawned| |]; [|done..]. destruct (_ <=? _)%nat; [done|]. destruct spawned; [|done]. simpl.
      destruct (decide (raw (next_route s) = n)) as [<-|]; [by rewrite lookup_insert_eq|by rewrite lookup_insert_ne].
    + destruct (bool_decide _); [|done]. injection E as <-. simpl. by rewrite lookup_empty.
  - destruct (proxy_clients s !! m) as [phase|] eqn:Hm; [|done]. cbn in E.
    destruct (connection_step m cloned setup phase (proxy_control s)) as [[c phase']|] eqn:Ec; [|done]. injection E as <-. simpl.
    destruct (decide (m = n)) as [->|Hne]; [rewrite lookup_insert_eq|by rewrite lookup_insert_ne].
    destruct phase; cbn [connection_step] in Ec; unfold px_register in Ec; rewrite ?Hs in Ec;
      repeat case_match; simplify_eq; try done.
  - by injection E as <-.
  - destruct (stopped _); [|done]. by injection E as <-.
Qed.
Lemma cancelled_run_setup actions s s' n :
  cancelled (proxy_control s) → proxy_run actions s = Some s' →
  proxy_clients s !! n ≠ Some Conn_Running → proxy_clients s' !! n ≠ Some Conn_Running.
Proof.
  revert s. induction actions as [|a actions IH]; intros s Hs; cbn [proxy_run]; [by intros [= <-]|].
  destruct (proxy_act a s) as [s1|] eqn:E; [|done]. cbn. intros Hr Hn.
  apply (IH s1); [by eapply cancelled_act|done|by eapply cancelled_setup].
Qed.

(** ** What is passed on *)

(** [interleaves l r s]: [s] is a shuffle of [l] and [r]. *)
Inductive interleaves {A} : list A → list A → list A → Prop :=
| interleaves_nil : interleaves [] [] []
| interleaves_left l r s x : interleaves l r s → interleaves (l ++ [x]) r (s ++ [x])
| interleaves_right l r s x : interleaves l r s → interleaves l (r ++ [x]) (s ++ [x]).

Lemma interleaves_right_app {A} (l r s t : list A) : interleaves l r s → interleaves l (r ++ t) (s ++ t).
Proof.
  intros Hi. induction t as [|x t IH] using rev_ind; [by rewrite !app_nil_r|]. rewrite !(assoc_L (++)). by constructor.
Qed.

Definition is_data (m : ProxyMessage) : bool := match m with Px_Text _ | Px_Binary _ => true | _ => false end.
Definition data_of (l : list ProxyMessage) : list ProxyMessage := List.filter is_data l.

Lemma data_of_app l l' : data_of (l ++ l') = data_of l ++ data_of l'.
Proof. apply List.filter_app. Qed.
Lemma data_of_texts texts : data_of (Px_Text <$> texts) = Px_Text <$> texts.
Proof. induction texts as [|t texts IH]; [done|]. simpl. by f_equal. Qed.

Section proxy.
Context `{Externals} {S : Type} `{!EventSink S} `{!Draws} `{!ApprovalDraws} `{!CodexLibrary} `{!ProxySockets}.
Abbreviation Provider := (ProviderWorld (S := S) (I := ProxySocket)).
Implicit Types (p : Provider) (w : ProxyWorld (S := S)) (route : ApprovalRoute).

(** *** Observing leaves the connection alone *)

Definition silent {A} (a : act Provider CodexProviderSourceError A) : Prop :=
  ∀ p, io (a p).1 = io p ∧ written (a p).1 = written p.

Lemma silent_bind {A B} (a : act Provider CodexProviderSourceError A) (f : A → act Provider CodexProviderSourceError B) :
  silent a → (∀ x, silent (f x)) → silent (x ← a; f x).
Proof using Type.
  intros Ha Hf p. unfold mbind, act_bind. pose proof (Ha p) as [L1 L2]. destruct (a p) as [p1 [x|e]]; [|done].
  simpl in *. rewrite <-L1, <-L2. apply Hf.
Qed.
Lemma silent_lift {A} (r : result CodexProviderSourceError A) : silent (lift r).
Proof using Type. done. Qed.
Lemma silent_ret {A} (x : A) : silent (mret x).
Proof using Type. done. Qed.
Lemma silent_mapper {A} (a : act (MapperWorld S) CodexProviderSourceError A) : silent (on_mapper a).
Proof using Type. intros p. unfold on_mapper. by destruct (a (world p)). Qed.
Lemma silent_approvals {A} (a : act ApprovalRuntimeState CodexProviderSourceError A) : silent (on_approvals a).
Proof using Type. intros p. unfold on_approvals. by destruct (a (approvals p)). Qed.
Lemma silent_prepare {A} (a : act nat CodexProviderSourceError A) : silent (on_prepare a).
Proof using Type. intros p. unfold on_prepare. by destruct (a (approval_draws p)). Qed.
Lemma silent_modify (f : Provider → Provider) : (∀ p, io (f p) = io p ∧ written (f p) = written p) → silent (modify f).
Proof using Type. intros Hf p. apply Hf. Qed.
Lemma silent_publish_prepared prepared : silent (publish_prepared prepared).
Proof using Type.
  intros p. unfold publish_prepared. pose proof (silent_mapper (publish_payload (prepared_thread_id prepared)
    (request_requested_at (prepared_request prepared)) (InteractionRequested (prepared_request prepared))) p) as Hm.
  destruct (on_mapper _ p) as [p1 [[]|]]; exact Hm.
Qed.
Lemma silent_publish_closed closed reason : silent (publish_closed closed reason).
Proof using Type. apply silent_mapper. Qed.
Lemma silent_publish_each closed : silent (publish_each_closed closed).
Proof using Type. induction closed; cbn [publish_each_closed]; [done|]. apply silent_bind; [apply silent_publish_closed|done]. Qed.

Create HintDb silent.
#[local] Hint Resolve silent_lift silent_ret silent_mapper silent_approvals silent_prepare silent_publish_prepared
  silent_publish_closed silent_publish_each : silent.
#[local] Hint Extern 1 (silent (modify _)) => (apply silent_modify; done) : silent.
Ltac silent_step :=
  match goal with
  | |- silent (mbind _ _) => apply silent_bind; [|intro]
  | |- silent (match ?x with _ => _ end) => destruct x
  | |- silent _ => solve [auto with silent]
  end.

Lemma silent_request route id method params : silent (process_approval_request false route id method params).
Proof using Type. unfold process_approval_request, reject_request, register_prepared. repeat silent_step. Qed.
Lemma silent_notification route method params : silent (process_live_notification route method params).
Proof using Type.
  unfold process_live_notification, process_resolved_notification, close_approvals_for_lifecycle, closing. repeat silent_step.
Qed.
#[local] Hint Resolve silent_request silent_notification : silent.
Lemma silent_observe route text : silent (observe_proxy_server_text route text).
Proof using Type. unfold observe_proxy_server_text. repeat silent_step. Qed.

(** *** Answers *)

(** A text that answers a request of this route. *)
Definition answer_text_of route (o : OutboundApproval) (text : rstring) : Prop :=
  outbound_route o = route ∧
  interaction_response (outbound_request_id o) (outbound_method o) (outbound_result o) = Ok text.

Definition answered route p p' (texts : list rstring) : Prop :=
  socket_sent (io p') = socket_sent (io p) ++ (Px_Text <$> texts) ∧
  ∃ new, written p' = written p ++ new ∧ Forall2 (answer_text_of route) new texts.

Lemma answered_refl route p : answered route p p [].
Proof using Type. split; [by rewrite app_nil_r|]. exists []. by rewrite app_nil_r. Qed.
Lemma answered_same route p p' : socket_sent (io p') = socket_sent (io p) → written p' = written p → answered route p p' [].
Proof using Type. intros Hs Hw. split; [by rewrite app_nil_r|]. exists []. by rewrite app_nil_r. Qed.
Lemma answered_trans route p1 p2 p3 t1 t2 : answered route p1 p2 t1 → answered route p2 p3 t2 → answered route p1 p3 (t1 ++ t2).
Proof using Type.
  intros [L1 (n1 & W1 & F1)] [L2 (n2 & W2 & F2)]. split; [by rewrite L2, L1, fmap_app, (assoc_L (++))|].
  exists (n1 ++ n2). split; [by rewrite W2, W1, (assoc_L (++))|]. by apply Forall2_app.
Qed.

Lemma flush_one_answered route p : ∃ texts, answered route p (flush_one route p).1 texts.
Proof using Type.
  unfold flush_one, gets, mbind, act_bind. destruct (pop_outbound_for route (approvals p)) as [s [o|]] eqn:Epop;
    [|exists []; apply answered_refl].
  assert (outbound_route o = route) as Hroute.
  { unfold pop_outbound_for in Epop. destruct (pop_first route _) as [[o' rest]|] eqn:E; [|done]. injection Epop as _ ->.
    by apply pop_first_Some in E as (Hr & _). }
  unfold modify, lift, on_io, on_approvals. destruct (interaction_response _ _ _) as [text|] eqn:Et; [|exists []; by apply answered_same].
  cbn [write_text LocalWebSocketRef]. unfold socket_send. simpl.
  destruct (upstream_answer (socket_operations (io p))) as [[]|]; [|exists []; by apply answered_same].
  exists [text]. cbn [approvals set_approvals set_trace set_io]. destruct (mark_sent (outbound_interaction_id o) s) as [s2 [[]|]];
    (split; [done|]); exists [o]; (split; [done|]); repeat constructor; done.
Qed.

Lemma flush_loop_answered fuel route p p' r :
  flush_loop fuel route p = Some (p', r) → ∃ texts, answered route p p' texts.
Proof using Type.
  revert p. induction fuel as [|fuel IH]; intros p; cbn [flush_loop]; [done|].
  destruct (flush_one_answered route p) as [texts L1]. destruct (flush_one route p) as [p1 [[]|e]]; simpl in L1.
  - intros (texts' & L2)%IH. exists (texts ++ texts'). by eapply answered_trans.
  - intros [= <- _]. eauto.
  - intros [= <- _]. eauto.
Qed.

(** *** Passing on *)

(** What was read was sent on, up to what was lost when a side failed; besides,
    the server was only sent answers. *)
Record transparent route (p0 : Provider) w (lost_client lost_server : list ProxyMessage) : Prop := {
  passed_client : ∃ kept texts new,
    data_of (from_client w) = kept ++ lost_client ∧
    interleaves kept (Px_Text <$> texts) (data_of (socket_sent (px_upstream w))) ∧
    written (px_provider w) = written p0 ++ new ∧ Forall2 (answer_text_of route) new texts;
  passed_server : data_of (from_server w) = data_of (socket_sent (px_downstream w)) ++ lost_server
}.

Definition fails (step : ProxyStep) : bool := match step with Proxy_Return (Err _) => true | _ => false end.
Definition passes route p0 (x : ProxyWorld (S := S) * ProxyStep) : Prop :=
  ∃ lc ls, transparent route p0 x.1 lc ls ∧ length (lc ++ ls) ≤ 1 ∧ (fails x.2 = false → lc = [] ∧ ls = []).

Lemma passes_all route p0 w step : transparent route p0 w [] [] → passes route p0 (w, step).
Proof using Type. intros Hw. exists [], []. split_and!; [done|simpl; lia|done]. Qed.

(** What changes neither a data message nor an answer. *)
Lemma transparent_same route p0 w w' lc ls :
  transparent route p0 w lc ls → data_of (from_client w') = data_of (from_client w) → data_of (from_server w') = data_of (from_server w) →
  data_of (socket_sent (px_upstream w')) = data_of (socket_sent (px_upstream w)) → written (px_provider w') = written (px_provider w) →
  data_of (socket_sent (px_downstream w')) = data_of (socket_sent (px_downstream w)) → transparent route p0 w' lc ls.
Proof using Type. intros [Hc Hs] Ec Es Eu Ew Ed. split; [by rewrite Ec, Eu, Ew|by rewrite Es, Ed]. Qed.

Lemma passes_flush_responses route p0 w : transparent route p0 w [] [] → passes route p0 (px_flush_responses route w).
Proof using Type.
  intros Hw. unfold px_flush_responses, flush_approval_responses.
  destruct (flush_loop _ route (px_provider w)) as [[p r]|] eqn:E; [|by apply passes_all].
  apply flush_loop_answered in E as (texts' & Hs & new' & Hn & Hf). apply passes_all.
  destruct Hw as [(kept & texts & new & Hk & Hi & Hw & Hall) Hd]. split; [|done].
  exists kept, (texts ++ texts'), (new ++ new'). split_and!; [done| | |by apply Forall2_app].
  - unfold px_upstream in *. simpl. rewrite Hs, data_of_app, data_of_texts, fmap_app. by apply interleaves_right_app.
  - simpl. by rewrite Hn, Hw, (assoc_L (++)).
Qed.

Lemma data_of_control l m : is_data m = false → data_of (l ++ [m]) = data_of l.
Proof using Type. intros Hm. rewrite data_of_app. simpl. rewrite Hm. apply app_nil_r. Qed.
Lemma data_of_data l m : is_data m = true → data_of (l ++ [m]) = data_of l ++ [m].
Proof using Type. intros Hm. rewrite data_of_app. simpl. by rewrite Hm. Qed.

Lemma transparent_read_client route p0 w m :
  is_data m = false → transparent route p0 w [] [] → transparent route p0 (read_client m w) [] [].
Proof using Type. intros Hm Hw. eapply transparent_same; [exact Hw|..]; try done. by apply data_of_control. Qed.
Lemma transparent_read_server route p0 w m :
  is_data m = false → transparent route p0 w [] [] → transparent route p0 (read_server m w) [] [].
Proof using Type. intros Hm Hw. eapply transparent_same; [exact Hw|..]; try done. by apply data_of_control. Qed.

Lemma socket_close_data answer frame s : data_of (socket_sent (socket_close answer frame s)) = data_of (socket_sent s).
Proof using Type. unfold socket_close, socket_send. destruct (answer _); [|done]. by apply data_of_control. Qed.
Lemma transparent_close_upstream route p0 w frame lc ls :
  transparent route p0 w lc ls → transparent route p0 (close_upstream frame w) lc ls.
Proof using Type. intros Hw. eapply transparent_same; [exact Hw|..]; try done. apply socket_close_data. Qed.
Lemma transparent_close_downstream route p0 w frame lc ls :
  transparent route p0 w lc ls → transparent route p0 (close_downstream frame w) lc ls.
Proof using Type. intros Hw. eapply transparent_same; [exact Hw|..]; try done. apply socket_close_data. Qed.

(** A data message reaches the other side, or the loop ends with an error. *)
Lemma passes_to_upstream route p0 w m :
  is_data m = true → transparent route p0 w [] [] → passes route p0 (to_upstream m (read_client m w)).
Proof using Type.
  intros Hm [(kept & texts & new & Hk & Hi & Hw & Hall) Hd]. rewrite app_nil_r in Hk. unfold to_upstream, socket_send.
  assert (data_of (from_client (read_client m w)) = kept ++ [m]) as Hk' by (simpl; by rewrite data_of_data, Hk).
  destruct (upstream_answer _) as [[]|e]; [apply passes_all|exists [m], []; split; [|simpl; split; [lia|done]]]; (split; [|exact Hd]).
  - exists (kept ++ [m]), texts, new. split_and!; [by rewrite app_nil_r| |done..].
    unfold px_upstream. simpl. rewrite data_of_data by done. by constructor.
  - by exists kept, texts, new.
Qed.
Lemma passes_to_downstream route p0 w m p :
  is_data m = true → transparent route p0 w [] [] → io p = io (px_provider w) → written p = written (px_provider w) →
  passes route p0 (to_downstream m (set_px_provider p (read_server m w))).
Proof using Type.
  intros Hm [Hc Hd] Hio Hwr. rewrite app_nil_r in Hd. unfold to_downstream, socket_send.
  assert (data_of (from_server (read_server m w)) = data_of (socket_sent (px_downstream w)) ++ [m]) as Hd' by (simpl; by rewrite data_of_data, Hd).
  destruct (downstream_answer _) as [[]|e]; [apply passes_all|exists [], [m]; split; [|simpl; split; [lia|done]]];
    (split; [unfold px_upstream in *; simpl; rewrite Hio, Hwr; exact Hc|]).
  - simpl in *. by rewrite Hd', app_nil_r, (data_of_data (socket_sent _)).
  - exact Hd'.
Qed.

Lemma passes_forward_client route p0 read w : transparent route p0 w [] [] → passes route p0 (forward_client read w).
Proof using Type.
  intros Hw. destruct read as [m|[]]; cbn [forward_client]; [|by apply passes_all..].
  destruct m; try (by apply passes_to_upstream); apply passes_all.
  - by eapply transparent_same; [exact (transparent_read_client _ _ w Px_Ping eq_refl Hw)|..].
  - by eapply transparent_same; [exact (transparent_read_client _ _ w Px_Pong eq_refl Hw)|..].
  - apply transparent_close_upstream. by apply transparent_read_client.
  - by apply transparent_read_client.
Qed.

Lemma passes_forward_server route p0 read w : transparent route p0 w [] [] → passes route p0 (forward_server route read w).
Proof using Type.
  intros Hw. destruct read as [m|[]]; cbn [forward_server]; [|by apply passes_all..].
  destruct m as [text|bytes| | | |].
  - destruct (silent_observe route text (px_provider w)). by apply passes_to_downstream.
  - by apply (passes_to_downstream route p0 w (Px_Binary bytes) (px_provider w)).
  - apply passes_all.
    by eapply transparent_same; [exact (transparent_read_server _ _ w Px_Ping eq_refl Hw)|..].
  - apply passes_all.
    by eapply transparent_same; [exact (transparent_read_server _ _ w Px_Pong eq_refl Hw)|..].
  - apply passes_all, transparent_close_downstream. by apply transparent_read_server.
  - apply passes_all. by apply transparent_read_server.
Qed.

Lemma passes_and_then route p0 a b w :
  passes route p0 (a w) → (∀ w', transparent route p0 w' [] [] → passes route p0 (b w')) → passes route p0 (and_then a b w).
Proof using Type.
  intros Ha Hb. unfold and_then. destruct (a w) as [w' [|r]]; [|done]. destruct Ha as (lc & ls & Ht & _ & Hn).
  destruct (Hn eq_refl) as [-> ->]. by apply Hb.
Qed.

Lemma passes_iteration route p0 client server w :
  transparent route p0 w [] [] → passes route p0 (proxy_iteration route client server w).
Proof using Type.
  intros Hw. apply passes_and_then; [by apply passes_flush_responses|]. intros w1 L1.
  apply passes_and_then; [by apply passes_forward_client|]. intros w2 L2. by apply passes_forward_server.
Qed.

Lemma passes_loop route p0 reads w w' r :
  transparent route p0 w [] [] → proxy_connection_loop route reads w = (w', r) → passes route p0 (w', Proxy_Return r).
Proof using Type.
  revert w. induction reads as [|[client server] reads IH]; intros w Hw; cbn [proxy_connection_loop].
  - intros [= <- <-]. by apply passes_all, transparent_close_upstream, transparent_close_downstream.
  - pose proof (passes_iteration route p0 client server w Hw) as Hp.
    destruct (proxy_iteration route client server w) as [w1 [|r1]].
    + destruct Hp as (lc & ls & Ht & _ & Hn). destruct (Hn eq_refl) as [-> ->]. by apply IH.
    + by intros [= <- <-].
Qed.

Lemma proxy_start_transparent route p : transparent route p (proxy_start p) [] [].
Proof using Type. split; [|done]. exists [], [], []. split_and!; [done|constructor|by rewrite app_nil_r|constructor]. Qed.

(** *** What was read *)

Definition messages (l : list (result ProxyReadError ProxyMessage)) : list ProxyMessage :=
  omap (λ r, match r with Ok m => Some m | Err _ => None end) l.

Lemma messages_cons read l : messages (read :: l) = messages [read] ++ messages l.
Proof using Type. by destruct read. Qed.

Lemma flush_responses_reads route w : from_client (px_flush_responses route w).1 = from_client w ∧ from_server (px_flush_responses route w).1 = from_server w.
Proof using Type. unfold px_flush_responses. by destruct (flush_approval_responses _ _) as [[]|]. Qed.
Lemma forward_client_reads read w :
  from_client (forward_client read w).1 = from_client w ++ messages [read] ∧ from_server (forward_client read w).1 = from_server w.
Proof using Type.
  destruct read as [m|e]; simpl; [|by rewrite app_nil_r]. unfold to_upstream, flush_downstream.
  destruct m; try (by split); by destruct (socket_send _ _ _).
Qed.
Lemma forward_server_reads route read w :
  from_server (forward_server route read w).1 = from_server w ++ messages [read] ∧ from_client (forward_server route read w).1 = from_client w.
Proof using Type.
  destruct read as [m|e]; simpl; [|by rewrite app_nil_r]. unfold to_downstream, flush_upstream.
  destruct m; try (by split); by destruct (socket_send _ _ _).
Qed.
Lemma iteration_reads route client server w :
  let '(w', step) := proxy_iteration route client server w in
  from_client w' `prefix_of` from_client w ++ messages [client] ∧ from_server w' `prefix_of` from_server w ++ messages [server] ∧
  (step = Proxy_Continue → from_client w' = from_client w ++ messages [client] ∧ from_server w' = from_server w ++ messages [server]).
Proof using Type.
  unfold proxy_iteration, and_then. destruct (flush_responses_reads route w) as [F1 F2].
  destruct (px_flush_responses route w) as [w1 [|r1]]; simpl in F1, F2.
  2:{ rewrite F1, F2. split_and!; [by apply prefix_app_r..|done]. }
  destruct (forward_client_reads client w1) as [C1 C2]. destruct (forward_client client w1) as [w2 [|r2]]; simpl in C1, C2.
  2:{ rewrite C1, C2, F1, F2. split_and!; [done|by apply prefix_app_r|done]. }
  destruct (forward_server_reads route server w2) as [D1 D2]. destruct (forward_server route server w2) as [w3 step]; simpl in D1, D2.
  rewrite D1, D2, C1, C2, F1, F2. done.
Qed.
Lemma loop_reads route reads w w' r :
  proxy_connection_loop route reads w = (w', r) →
  from_client w' `prefix_of` from_client w ++ messages reads.*1 ∧ from_server w' `prefix_of` from_server w ++ messages reads.*2.
Proof using Type.
  revert w. induction reads as [|[client server] reads IH]; intros w; cbn [proxy_connection_loop].
  - intros [= <- <-]. simpl. by rewrite !app_nil_r.
  - pose proof (iteration_reads route client server w) as Hi. destruct (proxy_iteration route client server w) as [w1 [|r1]].
    + destruct Hi as (_ & _ & Hi). destruct (Hi eq_refl) as [Hc Hs]. intros [Rc Rs]%IH. rewrite Hc, <-(assoc_L (++)) in Rc.
      rewrite Hs, <-(assoc_L (++)) in Rs. cbn [fmap list_fmap fst snd]. by rewrite (messages_cons client reads.*1), (messages_cons server reads.*2).
    + destruct Hi as (Rc & Rs & _). intros [= <- <-]. cbn [fmap list_fmap fst snd]. rewrite (messages_cons client reads.*1), (messages_cons server reads.*2), !(assoc_L (++)).
      split; by apply prefix_app_r.
Qed.
End proxy.
