(* ===== verification/CodexSource.v ===== *)
(** * The lifecycle of the Codex provider

    Models [CodexProviderSource] of [agentpulse-providers/codex/src/runtime.rs]
    ([start], [stop], [initialize_connection], [wait_for_response]) and the
    health of [status.rs]: the app server is launched, the protocol is
    initialized, the configured threads are resumed, and the worker and the
    proxy are started; what was acquired is released when any of it fails.
    Closing a connection whose start failed, the result of which is ignored,
    and the lines written to the terminal are left out. *)

From stdpp Require Import base strings numbers sorting gmap list.
From S2P Require Import Prelude Bytes Json Values Snapshots Capability Interaction Event Dto.
From S2P Require Import CodexMapper CodexProtocol CodexApproval CodexInteractions CodexControl CodexWorker.

Inductive CodexProviderHealth : Type := Health_Stopped | Health_Starting | Health_Running | Health_Failed.
#[export] Instance CodexProviderHealth_eq_dec : EqDecision CodexProviderHealth.
Proof. solve_decision. Defined.

(** The part of the configuration the lifecycle reads. *)
Record SourceConfig : Type := MkSourceConfig {
  config_threads : list rstring;
  startup_timeout : N;
  client_proxy_enabled : bool
}.

(** What joining a thread returns: it ended well or had failed before, its
    cleanup failed, or it panicked. *)
Inductive JoinOutcome : Type := Join_Clean | Join_Failed (error : rstring) | Join_Panicked.

(** The clock, the connection, the managed process and the threads, as answers
    to the questions asked in turn; [worker_failure]: what the worker has
    reported by the time the start is about to succeed. *)
Class SourceEnvironment : Type := {
  source_now : nat → N;
  source_read : nat → result CodexProviderSourceError ReadOutcome;
  runtime_start : nat → result CodexProviderSourceError unit;
  runtime_stop : nat → result CodexProviderSourceError unit;
  spawn_reader : nat → result rstring unit;
  bind_proxy : nat → result CodexProviderSourceError unit;
  listener_nonblocking : nat → result rstring unit;
  spawn_proxy : nat → result rstring unit;
  cleanup_proxy : nat → result CodexProviderSourceError unit;
  join_outcome : nat → JoinOutcome;
  worker_failure : nat → option rstring;
  source_error_text : CodexProviderSourceError → rstring;
  request_id_text : RequestId → rstring
}.

(** An error, or the fuel of a waiting loop ran out. *)
Inductive SourceStop : Type := Start_Error (error : CodexProviderSourceError) | Start_Waiting.

Section source.
Context `{Externals} {S I : Type} `{!EventSink S} `{!Draws} `{!ApprovalDraws} `{!CodexLibrary} `{!AppServerIo I} `{!SourceEnvironment}.

(** [started] and [released] count the launches and the releases of the app server. *)
Record SourceWorld : Type := MkSource {
  src_provider : ProviderWorld (S := S) (I := I);
  src_engine : ProtocolEngine;
  health : CodexProviderHealth;
  last_error : option rstring;
  resources_acquired : bool;
  src_worker : bool;
  src_proxy : bool;
  src_asked : nat;
  started : nat;
  released : nat
}.
Implicit Types (w : SourceWorld).

Abbreviation starting A := (act SourceWorld SourceStop A).

Definition set_src_provider v w : SourceWorld :=
  MkSource v (src_engine w) (health w) (last_error w) (resources_acquired w) (src_worker w) (src_proxy w) (src_asked w)
    (started w) (released w).
Definition set_src_engine v w : SourceWorld :=
  MkSource (src_provider w) v (health w) (last_error w) (resources_acquired w) (src_worker w) (src_proxy w) (src_asked w)
    (started w) (released w).
Definition set_health h e w : SourceWorld :=
  MkSource (src_provider w) (src_engine w) h e (resources_acquired w) (src_worker w) (src_proxy w) (src_asked w)
    (started w) (released w).
Definition set_resources v w : SourceWorld :=
  MkSource (src_provider w) (src_engine w) (health w) (last_error w) v (src_worker w) (src_proxy w) (src_asked w)
    (started w) (released w).
Definition set_threads worker proxy w : SourceWorld :=
  MkSource (src_provider w) (src_engine w) (health w) (last_error w) (resources_acquired w) worker proxy (src_asked w)
    (started w) (released w).
Definition set_asked v w : SourceWorld :=
  MkSource (src_provider w) (src_engine w) (health w) (last_error w) (resources_acquired w) (src_worker w) (src_proxy w) v
    (started w) (released w).
Definition set_counts a b w : SourceWorld :=
  MkSource (src_provider w) (src_engine w) (health w) (last_error w) (resources_acquired w) (src_worker w) (src_proxy w)
    (src_asked w) a b.

Definition inquire {A} (f : nat → A) : starting A := λ w, (set_asked (1 + src_asked w) w, Ok (f (src_asked w))).
Definition sourced {A} (r : result CodexProviderSourceError A) : starting A := lift (map_err Start_Error r).
Definition on_source {A} (a : act (ProviderWorld (S := S) (I := I)) CodexProviderSourceError A) : starting A := λ w,
  let '(p, r) := a (src_provider w) in (set_src_provider p w, map_err Start_Error r).
Definition on_protocol {A} (a : act ProtocolEngine CodexProviderSourceError A) : starting A := λ w,
  let '(e, r) := a (src_engine w) in (set_src_engine e w, map_err Start_Error r).
(** [match .. { Err(error) => .. }]: a failure becomes a value. *)
Definition attempt {A} (a : starting A) : starting (result CodexProviderSourceError A) := λ w,
  match a w with
  | (w', Ok x) => (w', Ok (Ok x))
  | (w', Err (Start_Error e)) => (w', Ok (Err e))
  | (w', Err Start_Waiting) => (w', Err Start_Waiting)
  end.

(** ** The connection *)

Definition unexpected_text (what : string) (actual expected : ExpectedResponse) (id request_id : RequestId) : rstring :=
  lit "received " ++ lit (expected_method actual) ++ lit " " ++ lit what ++ lit " with ID " ++ request_id_text id
  ++ lit " while waiting for " ++ lit (expected_method expected) ++ lit " ID " ++ request_id_text request_id.

(** What a frame means while a response is awaited: [Some], the response. *)
Definition startup_frame (request_id : RequestId) (expected : ExpectedResponse) (frame : ServerFrame) :
    starting (option Value) :=
  match frame with
  | Frame_Response id actual response =>
      if bool_decide (actual = expected) && bool_decide (id = request_id) then mret (Some response)
      else sourced (Err (source_protocol_text (unexpected_text "response" actual expected id request_id)))
  | Frame_Error id actual code message =>
      if bool_decide (actual = expected) && bool_decide (id = request_id)
      then sourced (Err (source_protocol_text (lit (expected_method expected) ++ lit " returned error "
                                                 ++ display_i64 code ++ lit ": " ++ message)))
      else sourced (Err (source_protocol_text (unexpected_text "error" actual expected id request_id)))
  | Frame_Request id method _ =>
      on_source (
        text ← lift (unsupported_request_response id method);
        _ ← on_io text;
        _ ← modify count_rejected;
        mret None)
  | Frame_Notification method params =>
      on_source (
        disposition ← on_mapper (notification method params);
        _ ← match disposition with ValidatedUnmapped => modify count_unmapped | Mapped => mret () end;
        mret None)
  end.

Fixpoint wait_loop (fuel : nat) (request_id : RequestId) (expected : ExpectedResponse) (timeout deadline : N) :
    starting Value :=
  match fuel with
  | O => throw Start_Waiting
  | Datatypes.S fuel' =>
      now ← inquire source_now;
      if (deadline <=? now)%N then sourced (Err (Source_StartupTimeout timeout))
      else
        outcome ← inquire source_read;
        outcome ← sourced outcome;
        match outcome with
        | Io_Timeout => wait_loop fuel' request_id expected timeout deadline
        | Io_Closed => sourced (Err (Source_Transport (lit "App Server closed while a response was pending")))
        | Io_Text text =>
            frame ← on_protocol (parse_server_text text);
            _ ← on_source (modify count_validated);
            answer ← startup_frame request_id expected frame;
            match answer with
            | Some response => mret response
            | None => wait_loop fuel' request_id expected timeout deadline
            end
        end
  end.

Definition wait_for_response (fuel : nat) (request_id : RequestId) (expected : ExpectedResponse) (timeout : N) : starting Value :=
  now ← inquire source_now;
  wait_loop fuel request_id expected timeout (now + timeout)%N.

Definition initialize_connection (fuel : nat) (timeout : N) : starting unit :=
  '(request_id, request) ← on_protocol initialize_request;
  _ ← on_source (on_io request);
  _ ← wait_for_response fuel request_id Expect_Initialize timeout;
  text ← sourced initialized_notification;
  on_source (on_io text).

(** ** Resuming the configured threads *)

(** [io.write_text(request)], or the response is awaited and processed. *)
Definition resume_request (fuel : nat) (timeout : N) (request_id : RequestId) (request : rstring) : starting unit :=
  written ← attempt (on_source (on_io request));
  match written with
  | Err error => _ ← modify (λ w, set_src_engine (cancel_pending request_id (src_engine w)) w); sourced (Err error)
  | Ok _ =>
      response ← attempt (wait_for_response fuel request_id Expect_ThreadResume timeout);
      match response with
      | Ok response => on_source (on_mapper (resume_thread response))
      | Err error => _ ← modify (λ w, set_src_engine (cancel_pending request_id (src_engine w)) w); sourced (Err error)
      end
  end.

(** A thread, and the failure it adds. *)
Definition resume_one (fuel : nat) (timeout : N) (thread_id : rstring) : starting (option rstring) :=
  resumed ← attempt (
    '(request_id, request) ← on_protocol (thread_resume_request thread_id);
    resume_request fuel timeout request_id request);
  mret (match resumed with Ok _ => None | Err error => Some (thread_id ++ lit ": " ++ source_error_text error) end).

Fixpoint resume_threads (fuel : nat) (timeout : N) (threads : list rstring) : starting (list rstring) :=
  match threads with
  | [] => mret []
  | thread_id :: threads' =>
      failure ← resume_one fuel timeout thread_id;
      failures ← resume_threads fuel timeout threads';
      mret (option_list failure ++ failures)
  end.

(** ** Stop *)

Definition join_failures (panicked : string) (outcome : JoinOutcome) : list rstring :=
  match outcome with Join_Clean => [] | Join_Failed error => [error] | Join_Panicked => [lit panicked] end.

(** Joining a thread, if there is one. *)
Definition join_thread (present : bool) (panicked : string) : starting (list rstring) :=
  if present then outcome ← inquire join_outcome; mret (join_failures panicked outcome) else mret [].

Definition release_runtime : starting (list rstring) :=
  w ← gets (λ w, w);
  if resources_acquired w then
    answer ← inquire runtime_stop;
    _ ← modify (λ w, set_counts (started w) (1 + released w) (set_resources false w));
    mret (match answer with Ok _ => [] | Err error => [source_error_text error] end)
  else mret [].

Definition stop_inner : starting unit :=
  w ← gets (λ w, w);
  _ ← modify (set_threads false false);
  proxy_failures ← join_thread (src_proxy w) "client proxy thread panicked";
  worker_failures ← join_thread (src_worker w) "reader thread panicked";
  runtime_failures ← release_runtime;
  let failures := proxy_failures ++ worker_failures ++ runtime_failures in
  if is_empty failures then modify (λ w, set_health Health_Stopped (last_error w) w)
  else
    let error := Source_Shutdown (join (lit "; ") failures) in
    _ ← modify (set_health Health_Failed (Some (source_error_text error)));
    sourced (Err error).

(** ** Start *)

Definition record_start_failure (error : CodexProviderSourceError) w : SourceWorld :=
  set_health Health_Failed (Some (source_error_text error))
    (set_src_provider (set_world (disconnect_all (world (src_provider w))) (src_provider w)) w).

Definition failing {A} (error : CodexProviderSourceError) : starting A :=
  _ ← modify (record_start_failure error); sourced (Err error).

(** [Err(error) => return Err(self.record_start_failure(error, ..))] *)
Definition or_record {A} (a : starting A) : starting A :=
  r ← attempt a; match r with Ok x => mret x | Err error => failing error end.

(** The socket of the proxy is removed when the proxy cannot be started. *)
Definition start_client_proxy : starting unit :=
  bound ← inquire bind_proxy;
  _ ← sourced bound;
  mode ← inquire listener_nonblocking;
  match mode with
  | Err error => _ ← inquire cleanup_proxy; sourced (Err (Source_Runtime "client proxy nonblocking mode" error))
  | Ok _ =>
      spawned ← inquire spawn_proxy;
      match spawned with
      | Err error => _ ← inquire cleanup_proxy; sourced (Err (Source_Runtime "client proxy thread spawn" error))
      | Ok _ => mret ()
      end
  end.

Definition start_threads (config : SourceConfig) : starting unit :=
  spawned ← inquire spawn_reader;
  _ ← or_record (sourced (map_err (Source_Runtime "reader thread spawn") spawned));
  _ ← modify (set_threads true false);
  if client_proxy_enabled config then
    proxy ← attempt start_client_proxy;
    match proxy with
    | Ok _ => modify (set_threads true true)
    | Err error => _ ← attempt stop_inner; failing error
    end
  else mret ().

(** The end of [start_inner]: the worker may have failed meanwhile. *)
Definition finish_start : starting unit :=
  failure ← inquire worker_failure;
  match failure with
  | Some message =>
      _ ← modify (set_health Health_Failed (Some message)); sourced (Err (Source_Transport message))
  | None => modify (λ w, set_health Health_Running (last_error w) w)
  end.

Definition start_inner (fuel : nat) (config : SourceConfig) : starting unit :=
  w ← gets (λ w, w);
  if resources_acquired w || src_worker w then sourced (Err Source_AlreadyStarted)
  else
    _ ← modify (set_health Health_Starting None);
    _ ← or_record (on_source (on_mapper begin_reconnect));
    _ ← modify (λ w, set_counts (1 + started w) (released w) (set_resources true w));
    launched ← inquire runtime_start;
    _ ← or_record (sourced launched);
    _ ← modify (set_src_engine ProtocolEngine_new);
    _ ← or_record (initialize_connection fuel (startup_timeout config));
    failures ← resume_threads fuel (startup_timeout config) (config_threads config);
    if negb (is_empty failures) then failing (Source_ThreadResume (join (lit "; ") failures))
    else
      _ ← start_threads config;
      finish_start.

Definition source_start (fuel : nat) (config : SourceConfig) : starting unit :=
  w ← gets (λ w, w);
  if resources_acquired w || src_worker w then sourced (Err Source_AlreadyStarted)
  else
    result ← attempt (start_inner fuel config);
    match result with
    | Ok _ => mret ()
    | Err error =>
        cleanup ← attempt stop_inner;
        failing (match cleanup with
                 | Ok _ => error
                 | Err cleanup => Source_Runtime "startup cleanup" (source_error_text error ++ lit "; " ++ source_error_text cleanup)
                 end)
    end.

Definition source_stop : starting unit := stop_inner.

(** [drop] ignores the failures. *)
Definition source_drop w : SourceWorld := (stop_inner w).1.

Definition source_new (p : ProviderWorld (S := S) (I := I)) : SourceWorld :=
  MkSource p ProtocolEngine_new Health_Stopped None false false false 0 0 0.
End source.
