(* ===== verification/CodexSourceSpec.v ===== *)
(** * The lifecycle of the Codex provider: correctness

    Resources are released exactly once, a successful start leaves a protocol
    engine with nothing pending, and a start returns. *)

From stdpp Require Import base strings numbers sorting gmap list.
From S2P Require Import Prelude Fuel Bytes Json Values Snapshots Capability Interaction Event.
From S2P Require Import CodexMapper CodexProtocol CodexApproval CodexInteractions CodexControl CodexWorker CodexWorkerSpec.
From S2P Require Import CodexSource.

Create HintDb source.

Section source.
Context `{Externals} {S I : Type} `{!EventSink S} `{!Draws} `{!ApprovalDraws} `{!CodexLibrary} `{!AppServerIo I} `{!SourceEnvironment}.
Abbreviation World := (SourceWorld (S := S) (I := I)).
Abbreviation starting A := (act World SourceStop A).
Implicit Types (w : World).

(** ** Steps that neither acquire nor release *)

Definition same_resources w w' : Prop :=
  resources_acquired w' = resources_acquired w ∧ src_worker w' = src_worker w ∧ src_proxy w' = src_proxy w ∧
  started w' = started w ∧ released w' = released w.
Definition steady {A} (a : starting A) : Prop := ∀ w, same_resources w (a w).1.

Lemma same_resources_refl w : same_resources w w.
Proof using Type. done. Qed.
Lemma same_resources_trans w1 w2 w3 : same_resources w1 w2 → same_resources w2 w3 → same_resources w1 w3.
Proof using Type. intros (? & ? & ? & ? & ?) (? & ? & ? & ? & ?). repeat split; congruence. Qed.

Lemma steady_bind {A B} (a : starting A) (f : A → starting B) : steady a → (∀ x, steady (f x)) → steady (x ← a; f x).
Proof using Type.
  intros Ha Hf w. unfold mbind, act_bind. pose proof (Ha w) as Hw. destruct (a w) as [w1 [x|e]]; [|done].
  eapply same_resources_trans; [exact Hw|apply Hf].
Qed.
Lemma steady_lift {A} (r : result SourceStop A) : steady (lift r).
Proof using Type. done. Qed.
Lemma steady_ret {A} (x : A) : steady (mret x).
Proof using Type. done. Qed.
Lemma steady_throw {A} e : steady (A := A) (throw e).
Proof using Type. done. Qed.
Lemma steady_sourced {A} (r : result CodexProviderSourceError A) : steady (sourced r).
Proof using Type. done. Qed.
Lemma steady_gets {A} (f : World → A) : steady (gets f).
Proof using Type. done. Qed.
Lemma steady_inquire {A} (f : nat → A) : steady (inquire f).
Proof using Type. done. Qed.
Lemma steady_on_source {A} (a : act (ProviderWorld (S := S) (I := I)) CodexProviderSourceError A) : steady (on_source a).
Proof using Type. intros w. unfold on_source. by destruct (a (src_provider w)). Qed.
Lemma steady_on_protocol {A} (a : act ProtocolEngine CodexProviderSourceError A) : steady (on_protocol a).
Proof using Type. intros w. unfold on_protocol. by destruct (a (src_engine w)). Qed.
Lemma steady_attempt {A} (a : starting A) : steady a → steady (attempt a).
Proof using Type. intros Ha w. unfold attempt. pose proof (Ha w) as Hw. by destruct (a w) as [w1 [x|[]]]. Qed.
Lemma steady_modify (f : World → World) : (∀ w, same_resources w (f w)) → steady (modify f).
Proof using Type. intros Hf w. apply Hf. Qed.
Lemma steady_failing {A} error : steady (failing (A := A) error).
Proof using Type. done. Qed.

#[local] Hint Resolve steady_lift steady_ret steady_throw steady_sourced steady_gets steady_inquire steady_on_source steady_on_protocol
  steady_failing : source.
#[local] Hint Extern 1 (steady (modify _)) => (apply steady_modify; intros; done) : source.
Ltac steady_step :=
  match goal with
  | |- steady (mbind _ _) => apply steady_bind; [|intro]
  | |- steady (attempt _) => apply steady_attempt
  | |- steady (match ?x with _ => _ end) => destruct x
  | |- steady (let '_ := ?x in _) => destruct x
  | |- steady _ => solve [auto with source]
  end.
Ltac steady_solve := repeat steady_step.

Lemma steady_or_record {A} (a : starting A) : steady a → steady (or_record a).
Proof using Type. intros Ha. unfold or_record. steady_solve. Qed.

Lemma steady_startup_frame id expected frame : steady (startup_frame id expected frame).
Proof using Type. destruct frame; cbn [startup_frame]; steady_solve. Qed.
#[local] Hint Resolve steady_startup_frame : source.
Lemma steady_wait_loop fuel id expected timeout deadline : steady (wait_loop fuel id expected timeout deadline).
Proof using Type. induction fuel as [|fuel IH]; cbn [wait_loop]; steady_solve. Qed.
#[local] Hint Resolve steady_wait_loop : source.
Lemma steady_wait fuel id expected timeout : steady (wait_for_response fuel id expected timeout).
Proof using Type. unfold wait_for_response. steady_solve. Qed.
#[local] Hint Resolve steady_wait : source.
Lemma steady_initialize fuel timeout : steady (initialize_connection fuel timeout).
Proof using Type. unfold initialize_connection. steady_solve. Qed.
Lemma steady_resume_one fuel timeout thread : steady (resume_one fuel timeout thread).
Proof using Type. unfold resume_one, resume_request. steady_solve. Qed.
#[local] Hint Resolve steady_initialize steady_resume_one : source.
Lemma steady_resume_threads fuel timeout threads : steady (resume_threads fuel timeout threads).
Proof using Type. induction threads; cbn [resume_threads]; steady_solve. Qed.
#[local] Hint Resolve steady_resume_threads : source.
Lemma steady_join present panicked : steady (join_thread present panicked).
Proof using Type. unfold join_thread. steady_solve. Qed.
Lemma steady_finish : steady finish_start.
Proof using Type. unfold finish_start. steady_solve. Qed.
Lemma steady_start_proxy : steady start_client_proxy.
Proof using Type. unfold start_client_proxy. steady_solve. Qed.
#[local] Hint Resolve steady_join steady_finish : source.

(** ** Triples *)

(** A condition on the resources survives steady steps. *)
Definition about_resources (P : World → Prop) : Prop := ∀ w w', same_resources w w' → P w → P w'.
Lemma triple_steady {A} P (a : starting A) : about_resources P → steady a → triple P a (λ w _, P w).
Proof using Type. intros HP Ha w w' r Hw E. pose proof (Ha w) as Hs. rewrite E in Hs. by eapply HP. Qed.

(** ** Acquiring and releasing *)

Definition balanced w : Prop :=
  started w = released w + (if resources_acquired w then 1 else 0) ∧
  (src_worker w = true → resources_acquired w = true) ∧ (src_proxy w = true → src_worker w = true).
Definition idle w : Prop :=
  resources_acquired w = false ∧ src_worker w = false ∧ src_proxy w = false ∧ started w = released w.
Definition held w : Prop :=
  resources_acquired w = true ∧ src_worker w = false ∧ src_proxy w = false ∧ started w = 1 + released w.

Lemma about_idle : about_resources idle.
Proof using Type. intros w w' (? & ? & ? & ? & ?) (? & ? & ? & ?). repeat split; congruence. Qed.
Lemma about_held : about_resources held.
Proof using Type. intros w w' (? & ? & ? & ? & ?) (? & ? & ? & ?). repeat split; congruence. Qed.
Lemma about_balanced : about_resources balanced.
Proof using Type.
  intros w w' (Hr & Hw & Hp & Hs & Hl) (? & ? & ?). unfold balanced. by rewrite Hr, Hw, Hp, Hs, Hl.
Qed.
Lemma idle_balanced w : idle w → balanced w.
Proof using Type. intros (Hr & Hw & Hp & Hs). unfold balanced. rewrite Hr, Hw, Hp. split_and!; [lia|done..]. Qed.
Lemma held_balanced w : held w → balanced w.
Proof using Type. intros (Hr & Hw & Hp & Hs). unfold balanced. rewrite Hr, Hw, Hp. split_and!; [lia|done..]. Qed.
Lemma balanced_idle w : balanced w → resources_acquired w = false → idle w.
Proof using Type.
  intros (Hs & Hw & Hp) Hr. rewrite Hr in *. destruct (src_worker w) eqn:E; [discriminate (Hw eq_refl)|].
  destruct (src_proxy w) eqn:E'; [discriminate (Hp eq_refl)|]. repeat split; [done..|]. lia.
Qed.

(** A stop releases what is held, whatever fails. *)
Lemma stop_inner_spec w w' r :
  balanced w → stop_inner w = (w', r) →
  idle w' ∧ match r with
            | Ok _ => health w' = Health_Stopped
            | Err (Start_Error e) => health w' = Health_Failed ∧ last_error w' = Some (source_error_text e)
            | Err Start_Waiting => False
            end.
Proof using Type.
  intros (Hs & Hw & Hp). unfold stop_inner, join_thread, release_runtime, inquire, modify, gets, mbind, act_bind, mret, act_ret, sourced, lift.
  destruct (src_proxy w), (src_worker w), (resources_acquired w) eqn:Hres; simpl;
    try discriminate (Hw eq_refl); try discriminate (Hp eq_refl); rewrite ?Hres; simpl;
    try destruct (is_empty _); intros [= <- <-]; (split; [|done]); repeat split; simpl; try done; lia.
Qed.

(** ** Requests of the start *)

Abbreviation pending_of w := (engine_pending (src_engine w)).

(** The steps that leave the engine alone. *)
Definition engineless {A} (a : starting A) : Prop := ∀ w, src_engine (a w).1 = src_engine w.
Lemma engineless_inquire {A} (f : nat → A) : engineless (inquire f).
Proof using Type. done. Qed.
Lemma engineless_on_source {A} (a : act (ProviderWorld (S := S) (I := I)) CodexProviderSourceError A) : engineless (on_source a).
Proof using Type. intros w. unfold on_source. by destruct (a (src_provider w)). Qed.
Lemma engineless_frame id expected frame : engineless (startup_frame id expected frame).
Proof using Type.
  destruct frame; cbn [startup_frame]; try apply engineless_on_source; by destruct (bool_decide _ && bool_decide _).
Qed.
Lemma engineless_Ok {A} (a : starting A) w w' r : engineless a → a w = (w', r) → src_engine w' = src_engine w.
Proof using Type. intros Ha E. pose proof (Ha w) as Hw. by rewrite E in Hw. Qed.

Lemma on_source_Ok {A} (a : act (ProviderWorld (S := S) (I := I)) CodexProviderSourceError A) w w' x :
  on_source a w = (w', Ok x) → ∃ p', a (src_provider w) = (p', Ok x).
Proof using Type. unfold on_source. destruct (a (src_provider w)) as [p' [y|]]; [|done]. intros [= _ <-]. eauto. Qed.
Lemma on_protocol_Ok {A} (a : act ProtocolEngine CodexProviderSourceError A) w w' x :
  on_protocol a w = (w', Ok x) → ∃ e', a (src_engine w) = (e', Ok x) ∧ w' = set_src_engine e' w.
Proof using Type. unfold on_protocol. destruct (a (src_engine w)) as [e' [y|]]; [|done]. intros [= <- <-]. eauto. Qed.

(** The frame that ends the waiting is the response. *)
Lemma startup_frame_Some id expected frame w w' response :
  startup_frame id expected frame w = (w', Ok (Some response)) → frame_answers frame = Some (id, expected).
Proof using Type.
  destruct frame as [method params|id' method params|id' actual v|id' actual code message]; cbn [startup_frame frame_answers].
  - intros (p' & (? & ? & _ & (? & ? & _ & Hr)%act_bind_Ok)%act_bind_Ok)%on_source_Ok. done.
  - intros (p' & (? & ? & _ & (? & ? & _ & (? & ? & _ & Hr)%act_bind_Ok)%act_bind_Ok)%act_bind_Ok)%on_source_Ok. done.
  - destruct (bool_decide_reflect (actual = expected)) as [->|]; [|done].
    by destruct (bool_decide_reflect (id' = id)) as [->|].
  - by destruct (bool_decide _ && bool_decide _).
Qed.
Lemma startup_frame_None id expected frame w w' :
  startup_frame id expected frame w = (w', Ok None) → frame_answers frame = None.
Proof using Type.
  destruct frame as [method params|id' method params|id' actual v|id' actual code message]; cbn [startup_frame frame_answers]; try done.
  - by destruct (bool_decide _ && bool_decide _).
  - by destruct (bool_decide _ && bool_decide _).
Qed.

(** Waiting for a response that comes removes exactly its request. *)
Lemma wait_loop_Ok fuel id expected timeout deadline w w' v :
  wait_loop fuel id expected timeout deadline w = (w', Ok v) → pending_of w' = delete id (pending_of w).
Proof using Type.
  revert w. induction fuel as [|fuel IH]; intros w; cbn [wait_loop]; [done|].
  intros (w1 & now & E1 & Hr)%act_bind_Ok. injection E1 as <- _. destruct (_ <=? _)%N; [done|].
  apply act_bind_Ok in Hr as (w2 & read & E2 & Hr). injection E2 as <- _.
  apply act_bind_Ok in Hr as (w3 & outcome & E3 & Hr). injection E3 as <- _.
  destruct outcome as [| |text]; [|done|].
  - apply IH in Hr. exact Hr.
  - apply act_bind_Ok in Hr as (w4 & frame & (e' & Hp & ->)%on_protocol_Ok & Hr).
    apply parse_server_text_Ok in Hp. apply act_bind_Ok in Hr as (w5 & [] & E5 & Hr).
    apply (engineless_Ok _ _ _ _ (engineless_on_source _)) in E5.
    apply act_bind_Ok in Hr as (w6 & answer & E6 & Hr). pose proof (engineless_Ok _ _ _ _ (engineless_frame _ _ _) E6) as E6'.
    destruct answer as [response|].
    + injection Hr as <- <-. apply startup_frame_Some in E6. rewrite E6 in Hp. destruct Hp as [_ ->].
      rewrite E6', E5. done.
    + apply startup_frame_None in E6. rewrite E6 in Hp. subst e'. apply IH in Hr. by rewrite Hr, E6', E5.
Qed.

Lemma wait_Ok fuel id expected timeout w w' v :
  wait_for_response fuel id expected timeout w = (w', Ok v) → pending_of w' = delete id (pending_of w).
Proof using Type. intros (w1 & now & E1 & Hr)%act_bind_Ok. injection E1 as <- _. by apply wait_loop_Ok in Hr. Qed.

Lemma initialize_request_Ok e e' id text :
  initialize_request e = (e', Ok (id, text)) → engine_pending e' = <[id := Expect_Initialize]> (engine_pending e).
Proof using Type.
  unfold initialize_request. intros (e1 & id' & [= <- <-] & (e2 & [] & [= <- _] & (e3 & t & [= <- _] & [= <- <- _])%act_bind_Ok)%act_bind_Ok)%act_bind_Ok.
  done.
Qed.
Lemma resume_request_Ok thread e e' id text :
  thread_resume_request thread e = (e', Ok (id, text)) → engine_pending e' = <[id := Expect_ThreadResume]> (engine_pending e).
Proof using Type.
  unfold thread_resume_request. intros (e1 & id' & [= <- <-] & (e2 & [] & [= <- _] & (e3 & t & [= <- _] & [= <- <- _])%act_bind_Ok)%act_bind_Ok)%act_bind_Ok.
  done.
Qed.

Lemma attempt_Ok {A} (a : starting A) w w' x : attempt a w = (w', Ok (Ok x)) → a w = (w', Ok x).
Proof using Type. unfold attempt. destruct (a w) as [w1 [y|[]]]; try done. by intros [= <- <-]. Qed.
Lemma attempt_Err {A} (a : starting A) w w' e : attempt a w = (w', Ok (Err e)) → a w = (w', Err (Start_Error e)).
Proof using Type. unfold attempt. destruct (a w) as [w1 [y|[]]]; try done. by intros [= <- <-]. Qed.

Lemma initialize_connection_Ok fuel timeout w w' :
  initialize_connection fuel timeout w = (w', Ok ()) → pending_of w = ∅ → pending_of w' = ∅.
Proof using Type.
  unfold initialize_connection.
  intros (w1 & [id text] & (e1 & Hq%initialize_request_Ok & ->)%on_protocol_Ok & Hr)%act_bind_Ok He.
  apply act_bind_Ok in Hr as (w2 & [] & E2%(engineless_Ok _ _ _ _ (engineless_on_source _)) & Hr).
  apply act_bind_Ok in Hr as (w3 & v & E3%wait_Ok & Hr).
  apply act_bind_Ok in Hr as (w4 & t & E4 & Hr). injection E4 as <- _.
  apply (engineless_Ok _ _ _ _ (engineless_on_source _)) in Hr. rewrite Hr, E3, E2. simpl. rewrite Hq, He.
  by rewrite delete_insert_eq.
Qed.

Lemma resume_one_None fuel timeout thread w w' :
  resume_one fuel timeout thread w = (w', Ok None) → pending_of w = ∅ → pending_of w' = ∅.
Proof using Type.
  unfold resume_one. intros (w1 & resumed & Ha & Hr)%act_bind_Ok He. destruct resumed as [[]|]; [|done]. injection Hr as <-.
  apply attempt_Ok, act_bind_Ok in Ha as (w2 & [id text] & (e1 & Hq%resume_request_Ok & ->)%on_protocol_Ok & Hr).
  unfold resume_request in Hr. apply act_bind_Ok in Hr as (w3 & wrote & Hw & Hr).
  destruct wrote as [[]|]; [|by apply act_bind_Ok in Hr as (? & ? & _ & ?)].
  apply attempt_Ok, (engineless_Ok _ _ _ _ (engineless_on_source _)) in Hw.
  apply act_bind_Ok in Hr as (w4 & response & Hv & Hr). destruct response as [v|]; [|by apply act_bind_Ok in Hr as (? & ? & _ & ?)].
  apply attempt_Ok, wait_Ok in Hv. apply (engineless_Ok _ _ _ _ (engineless_on_source _)) in Hr.
  rewrite Hr, Hv, Hw. simpl. rewrite Hq, He. by rewrite delete_insert_eq.
Qed.
Lemma resume_threads_nil fuel timeout threads w w' :
  resume_threads fuel timeout threads w = (w', Ok []) → pending_of w = ∅ → pending_of w' = ∅.
Proof using Type.
  revert w. induction threads as [|thread threads IH]; intros w; cbn [resume_threads]; [by intros [= <-]|].
  intros (w1 & failure & H1' & (w2 & failures & H2' & Hr)%act_bind_Ok)%act_bind_Ok He.
  destruct failure as [f|]; [done|]. destruct failures; [|done]. injection Hr as <-. eapply IH; [exact H2'|].
  by eapply resume_one_None.
Qed.

(** ** Start *)

Definition running_as (worker proxy : bool) w : Prop :=
  resources_acquired w = true ∧ src_worker w = worker ∧ src_proxy w = proxy ∧ started w = 1 + released w.
Definition ready (worker proxy : bool) w : Prop := running_as worker proxy w ∧ pending_of w = ∅.
Definition started_well (config : SourceConfig) w : Prop :=
  ready true (client_proxy_enabled config) w ∧ health w = Health_Running.

Definition start_post (config : SourceConfig) w (r : result SourceStop unit) : Prop :=
  balanced w ∧ (r = Ok () → started_well config w).

Lemma about_running worker proxy : about_resources (running_as worker proxy).
Proof using Type. intros w w' (? & ? & ? & ? & ?) (? & ? & ? & ?). repeat split; congruence. Qed.
Lemma running_balanced worker proxy w : (proxy = true → worker = true) → running_as worker proxy w → balanced w.
Proof using Type. intros Hp (Hr & Hw & Hx & Hs). unfold balanced. rewrite Hr, Hw, Hx. split_and!; [lia|done..]. Qed.

Lemma or_record_Ok {A} (a : starting A) w w' x : or_record a w = (w', Ok x) → a w = (w', Ok x).
Proof using Type.
  unfold or_record. intros (w1 & r & Ha & Hr)%act_bind_Ok. destruct r as [y|]; [|done]. injection Hr as <- <-. by apply attempt_Ok.
Qed.

(** A step that fails leaves a balanced state; the steps before keep theirs. *)
Lemma triple_start {A} config P (R : A → World → Prop) (a : starting A) (f : A → starting unit) :
  about_resources P → (∀ w, P w → balanced w) → steady a → triple P a (λ w r, match r with Ok x => R x w | Err _ => True end) →
  (∀ x, triple (R x) (f x) (start_post config)) → triple P (x ← a; f x) (start_post config).
Proof using Type.
  intros HP Hb Ha HR Hf. apply (triple_bind _ R); [|done]. intros w w' r Hw E. pose proof (HR w w' r Hw E) as L.
  destruct r as [x|e]; [done|]. split; [|done]. apply Hb. exact (triple_steady P a HP Ha w w' _ Hw E).
Qed.

(** The same where the engine is known to be empty. *)
Lemma triple_ready {A} config worker proxy (R : A → World → Prop) (a : starting A) (f : A → starting unit) :
  (proxy = true → worker = true) → steady a → triple (ready worker proxy) a (λ w r, match r with Ok x => R x w | Err _ => True end) →
  (∀ x, triple (R x) (f x) (start_post config)) → triple (ready worker proxy) (x ← a; f x) (start_post config).
Proof using Type.
  intros Hp Ha HR Hf. apply (triple_bind _ R); [|done]. intros w w' r Hw E. pose proof (HR w w' r Hw E) as L.
  destruct r as [x|e]; [done|]. split; [|done]. apply (running_balanced worker proxy); [done|].
  exact (triple_steady _ a (about_running worker proxy) Ha w w' _ (proj1 Hw) E).
Qed.

Lemma triple_failing {A} P error : about_resources P → (∀ w, P w → balanced w) →
  triple (A := A) P (failing error) (λ w r, balanced w ∧ ∀ x, r ≠ Ok x).
Proof using Type.
  intros HP Hb w w' r Hw E. split; [|by injection E as _ <-]. apply Hb. exact (triple_steady P (failing error) HP (steady_failing error) w w' _ Hw E).
Qed.
Lemma failing_post config P error : about_resources P → (∀ w, P w → balanced w) → triple P (failing error) (start_post config).
Proof using Type.
  intros HP Hb. eapply triple_post; [|by apply (triple_failing (A := unit) P)]. intros w r [Hw Hr]. split; [done|]. intros ->.
  by destruct (Hr ()).
Qed.

Lemma ready_kept {A} worker proxy (a : starting A) :
  steady a → engineless a → triple (ready worker proxy) a (λ w r, match r with Ok _ => ready worker proxy w | Err _ => True end).
Proof using Type.
  intros Hs He w w' r [Hw Hp] E. destruct r; [|done]. split; [exact (triple_steady _ a (about_running worker proxy) Hs w w' _ Hw E)|].
  by rewrite (engineless_Ok _ _ _ _ He E).
Qed.
Lemma running_about_balanced worker proxy : (proxy = true → worker = true) → ∀ w, ready worker proxy w → balanced w.
Proof using Type. intros Hp w [Hw _]. by eapply running_balanced. Qed.

Lemma finish_start_post config : triple (ready true (client_proxy_enabled config)) finish_start (start_post config).
Proof using Type.
  unfold finish_start. apply (triple_ready _ _ _ (λ _, ready true (client_proxy_enabled config))); [done|done|by apply ready_kept|].
  intros [message|] w w' r [Hw Hp] E.
  - injection E as <- <-. split; [|done]. by apply (running_balanced true (client_proxy_enabled config)).
  - injection E as <- <-. split; [by apply (running_balanced true (client_proxy_enabled config))|]. done.
Qed.

Lemma attempt_stop_idle w w' r : balanced w → attempt stop_inner w = (w', r) → idle w'.
Proof using Type.
  intros Hb. unfold attempt. destruct (stop_inner w) as [w1 r1] eqn:E. destruct (stop_inner_spec w w1 r1 Hb E) as [Hi _].
  destruct r1 as [x|[]]; by intros [= <- _].
Qed.

Lemma engineless_or_record_sourced {A} (r : result CodexProviderSourceError A) : engineless (or_record (sourced r)).
Proof using Type. by destruct r. Qed.

Lemma start_proxy_answers w :
  ∃ r w', attempt start_client_proxy w = (w', Ok r) ∧ same_resources w w' ∧ src_engine w' = src_engine w.
Proof using Type.
  pose proof (steady_attempt _ steady_start_proxy w) as Hs. revert Hs.
  unfold attempt, start_client_proxy, inquire, mbind, act_bind, sourced, lift, mret, act_ret. cbv beta iota.
  destruct (bind_proxy _) as [[]|]; simpl; [|by eauto]. destruct (listener_nonblocking _) as [[]|]; simpl; [|by eauto].
  destruct (spawn_proxy _) as [[]|]; simpl; by eauto.
Qed.

Lemma start_threads_post config :
  triple (ready true (client_proxy_enabled config)) finish_start (start_post config) →
  triple (ready false false) (_ ← start_threads config; finish_start) (start_post config).
Proof using Type.
  intros Hfinish. apply (triple_bind _ (λ _, ready true (client_proxy_enabled config))); [|done]. unfold start_threads.
  apply (triple_bind _ (λ _, ready false false)); [by intros w w' r Hw [= <- <-]|]. intros spawned.
  apply (triple_bind _ (λ _, ready false false)).
  { pose proof (ready_kept false false (or_record (sourced (map_err (Source_Runtime "reader thread spawn") spawned)))
      (steady_or_record _ (steady_sourced _)) (engineless_or_record_sourced _)) as Hk.
    intros w w' r Hw E. pose proof (Hk w w' r Hw E) as L. destruct r; [done|]. split; [|done].
    apply (running_balanced false false); [done|].
    exact (triple_steady _ _ (about_running false false) (steady_or_record _ (steady_sourced _)) w w' _ (proj1 Hw) E). }
  intros _. apply (triple_bind _ (λ _, ready true false)).
  { intros w w' r [(Hr & _ & _ & Hs) Hp] [= <- <-]. by repeat split. }
  intros _. destruct (client_proxy_enabled config); [|by intros w w' r Hw [= <- <-]].
  apply (triple_bind _ (λ _, ready true false)).
  { intros w w' r [Hw Hp] E. destruct (start_proxy_answers w) as (x & w1 & E1 & Hs & He). rewrite E1 in E. injection E as <- <-.
    split; [by eapply about_running|by rewrite He]. }
  intros [[]|error].
  - intros w w' r [(Hr & _ & _ & Hs) Hp] [= <- <-]. by repeat split.
  - apply (triple_bind _ (λ _, idle)).
    + intros w w' r Hw E. apply (attempt_stop_idle w) in E; [|by apply (running_about_balanced true false)].
      destruct r; [done|]. split; [by apply idle_balanced|done].
    + intros _ w w' r Hw E. destruct (triple_failing (A := unit) idle error about_idle idle_balanced w w' r Hw E) as [Hb Hne].
      destruct r as [x|]; [by destruct (Hne x)|]. done.
Qed.

Lemma start_inner_post fuel config : triple idle (start_inner fuel config) (start_post config).
Proof using Type.
  unfold start_inner. apply (triple_bind _ (λ s w, s = w ∧ idle w)); [by intros w w' r Hw [= <- <-]|]. intros s.
  intros w w' r [-> Hw]. pose proof Hw as (Hr & Hwk & _). rewrite Hr, Hwk. cbn [orb]. clear Hr Hwk. revert w w' r Hw.
  change (triple idle (_ ← modify (set_health Health_Starting None); _ ← or_record (on_source (on_mapper begin_reconnect));
    _ ← modify (λ w : World, set_counts (1 + started w) (released w) (set_resources true w)); launched ← inquire runtime_start;
    _ ← or_record (sourced launched); _ ← modify (set_src_engine ProtocolEngine_new);
    _ ← or_record (initialize_connection fuel (startup_timeout config));
    failures ← resume_threads fuel (startup_timeout config) (config_threads config);
    if negb (is_empty failures) then failing (Source_ThreadResume (join (lit "; ") failures))
    else _ ← start_threads config; finish_start) (start_post config)).
  apply (triple_start config _ (λ _, idle)); [apply about_idle|apply idle_balanced|by apply steady_modify|by intros w w' r Hw [= <- <-]|intros _].
  apply (triple_start config _ (λ _, idle)); [apply about_idle|apply idle_balanced|apply steady_or_record, steady_on_source| |intros _].
  { intros w w' r Hw E. destruct r; [|done]. by eapply (triple_steady idle _ about_idle (steady_or_record _ (steady_on_source _))). }
  apply (triple_bind _ (λ _, held)).
  { intros w w' r (Hr & Hwk & Hp & Hs) [= <- <-]. repeat split; [done..|]. simpl. lia. }
  intros _. apply (triple_start config _ (λ _, held)); [apply about_held|apply held_balanced|done|by intros w w' r Hw [= <- <-]|intros launched].
  apply (triple_start config _ (λ _, held)); [apply about_held|apply held_balanced|apply steady_or_record, steady_sourced| |intros _].
  { intros w w' r Hw E. destruct r; [|done]. by eapply (triple_steady held _ about_held (steady_or_record _ (steady_sourced _))). }
  apply (triple_bind _ (λ _, ready false false)); [by intros w w' r Hw [= <- <-]|intros _].
  apply (triple_ready _ _ _ (λ _, ready false false)); [done|apply steady_or_record, steady_initialize| |intros _].
  { intros w w' r [Hw Hp] E. destruct r as [[]|]; [|done]. apply or_record_Ok in E.
    split; [exact (triple_steady _ _ (about_running false false) (steady_initialize _ _) w w' _ Hw E)|].
    by eapply initialize_connection_Ok. }
  apply (triple_ready _ _ _ (λ failures w, running_as false false w ∧ (failures = [] → pending_of w = ∅))); [done|apply steady_resume_threads| |].
  { intros w w' r [Hw Hp] E. destruct r as [failures|]; [|done].
    split; [exact (triple_steady _ _ (about_running false false) (steady_resume_threads _ _ _) w w' _ Hw E)|].
    intros ->. by eapply resume_threads_nil. }
  intros [|f failures]; cbn [is_empty negb].
  - eapply triple_pre; [|apply start_threads_post, finish_start_post]. intros w [Hw Hp]. split; [done|by apply Hp].
  - eapply triple_pre; [|apply (failing_post config (running_as false false));
      [apply about_running|intros w; by apply running_balanced]]. by intros w [Hw _].
Qed.

(** What a start leaves behind. *)
Lemma source_start_spec fuel config w w' r :
  balanced w → source_start fuel config w = (w', r) →
  match r with
  | Ok _ => idle w ∧ started_well config w'
  | Err (Start_Error e) =>
      (w' = w ∧ e = Source_AlreadyStarted ∧ resources_acquired w = true) ∨
      (idle w ∧ idle w' ∧ health w' = Health_Failed ∧ last_error w' = Some (source_error_text e))
  | Err Start_Waiting => True
  end.
Proof using Type.
  intros Hb. unfold source_start. unfold mbind at 1, act_bind at 1, gets at 1.
  destruct (resources_acquired w) eqn:Hr; cbn [orb]; [intros [= <- <-]; by left|].
  pose proof (balanced_idle w Hb Hr) as Hi. pose proof Hi as (_ & -> & _ & _).
  unfold mbind at 1, act_bind at 1. unfold attempt at 1. destruct (start_inner fuel config w) as [w1 r1] eqn:E1.
  pose proof (start_inner_post fuel config w w1 r1 Hi E1) as [Hb1 Hok]. destruct r1 as [[]|[error|]]; [| |by intros [= <- <-]].
  { intros [= <- <-]. split; [done|by apply Hok]. }
  unfold mbind at 1, act_bind at 1. destruct (attempt stop_inner w1) as [w2 r2] eqn:E2.
  pose proof (attempt_stop_idle w1 w2 r2 Hb1 E2) as Hi2. destruct r2 as [cleanup|e].
  - intros [= <- <-]. right. split_and!; [done|exact Hi2|done..].
  - unfold attempt in E2. destruct (stop_inner w1) as [w3 r3] eqn:E3. destruct (stop_inner_spec w1 w3 r3 Hb1 E3) as [_ Hr3].
    destruct r3 as [|[]]; done.
Qed.

(** ** Histories *)

(** Starts and stops, between which the threads change the state they share. *)
Inductive source_reaches (p : ProviderWorld (S := S) (I := I)) : World → Prop :=
| source_reaches_new : source_reaches p (source_new p)
| source_reaches_start w fuel config w' r :
    source_reaches p w → source_start fuel config w = (w', r) → r ≠ Err Start_Waiting → source_reaches p w'
| source_reaches_stop w w' r : source_reaches p w → source_stop w = (w', r) → source_reaches p w'
| source_reaches_shared w p' h e : source_reaches p w → source_reaches p (set_src_provider p' (set_health h e w)).

Lemma started_balanced config w : started_well config w → balanced w.
Proof using Type. intros [Hw _]. by eapply (running_about_balanced true (client_proxy_enabled config)). Qed.

Lemma source_reaches_balanced p w : source_reaches p w → balanced w.
Proof using Type.
  induction 1 as [|w fuel config w' r _ IH E Hr|w w' r _ IH E|w p' h e _ IH].
  - by apply idle_balanced.
  - pose proof (source_start_spec fuel config w w' r IH E) as Hs. destruct r as [[]|[error|]]; [| |done].
    + by eapply started_balanced, Hs.
    + destruct Hs as [(-> & _)|(_ & Hi & _)]; [done|by apply idle_balanced].
  - by apply idle_balanced, (stop_inner_spec w w' r).
  - exact IH.
Qed.

(** ** Termination *)

Abbreviation ends := (ends Start_Waiting).

(** Actions that never wait. *)
Definition prompt {A} (a : starting A) : Prop := ∀ w, (a w).2 ≠ Err Start_Waiting.
Lemma ends_prompt {A} (a : starting A) w : prompt a → ends (λ _, a) w.
Proof using Type. intros Ha. apply ends_now, Ha. Qed.
Lemma prompt_bind {A B} (a : starting A) (f : A → starting B) : prompt a → (∀ x, prompt (f x)) → prompt (x ← a; f x).
Proof using Type.
  intros Ha Hf w. unfold mbind, act_bind. specialize (Ha w). destruct (a w) as [w1 [x|e]]; [apply Hf|]. simpl in *. naive_solver.
Qed.
Lemma prompt_sourced {A} (r : result CodexProviderSourceError A) : prompt (sourced r).
Proof using Type. intros w. by destruct r. Qed.
Lemma prompt_on_source {A} (a : act (ProviderWorld (S := S) (I := I)) CodexProviderSourceError A) : prompt (on_source a).
Proof using Type. intros w. unfold on_source. by destruct (a (src_provider w)) as [p [x|]]. Qed.
Lemma prompt_on_protocol {A} (a : act ProtocolEngine CodexProviderSourceError A) : prompt (on_protocol a).
Proof using Type. intros w. unfold on_protocol. by destruct (a (src_engine w)) as [p [x|]]. Qed.
Lemma prompt_attempt {A} (a : starting A) : prompt a → prompt (attempt a).
Proof using Type. intros Ha w. unfold attempt. specialize (Ha w). by destruct (a w) as [w1 [x|[]]]. Qed.
Lemma prompt_ok {A} (a : starting A) : (∀ w, ∃ x, (a w).2 = Ok x) → prompt a.
Proof using Type. intros Ha w. by destruct (Ha w) as [x ->]. Qed.

Lemma ends_attempt {A} (a : nat → starting A) w : ends a w → ends (λ fuel, attempt (a fuel)) w.
Proof using Type.
  intros (n & w' & r & Hr & Ha). exists n, w', (match r with Ok x => Ok (Ok x) | Err (Start_Error e) => Ok (Err e) | Err Start_Waiting => Err Start_Waiting end).
  split; [by destruct r as [|[]]|]. intros more Hm. unfold attempt. rewrite Ha by done. by destruct r as [|[]].
Qed.

Hypothesis advances : passes_every_instant source_now.

(** How often something was asked only grows where it is not asked. *)
Definition unasked {A} (a : starting A) : Prop := ∀ w, src_asked (a w).1 = src_asked w.
Lemma unasked_on_source {A} (a : act (ProviderWorld (S := S) (I := I)) CodexProviderSourceError A) : unasked (on_source a).
Proof using Type. intros w. unfold on_source. by destruct (a (src_provider w)). Qed.
Lemma unasked_on_protocol {A} (a : act ProtocolEngine CodexProviderSourceError A) : unasked (on_protocol a).
Proof using Type. intros w. unfold on_protocol. by destruct (a (src_engine w)). Qed.
Lemma unasked_frame id expected frame : unasked (startup_frame id expected frame).
Proof using Type. destruct frame; cbn [startup_frame]; try apply unasked_on_source; by destruct (bool_decide _ && bool_decide _). Qed.
Lemma unasked_run {A} (a : starting A) w w' r : unasked a → a w = (w', r) → src_asked w' = src_asked w.
Proof using Type. intros Ha E. pose proof (Ha w) as Hw. by rewrite E in Hw. Qed.
Lemma prompt_frame id expected frame : prompt (startup_frame id expected frame).
Proof using Type. destruct frame; cbn [startup_frame]; try apply prompt_on_source; by destruct (bool_decide _ && bool_decide _). Qed.

Lemma ends_inquire {A B} (g : nat → A) (f : nat → A → starting B) w :
  ends (λ fuel, f fuel (g (src_asked w))) (set_asked (1 + src_asked w) w) → ends (λ fuel, inquire g ≫= f fuel) w.
Proof using Type. intros Hf. apply (ends_bind (λ _, inquire g)); [by apply ends_now|]. by intros _ w1 x [= <- <-]. Qed.

Lemma ends_wait_loop id expected timeout deadline w : ends (λ fuel, wait_loop fuel id expected timeout deadline) w.
Proof using advances.
  revert w. assert (∀ (i : unit) w, ends (λ fuel, wait_loop fuel id expected timeout deadline) w) as Hall; [|exact (Hall ())].
  apply (ends_within src_asked source_now (λ _ fuel, wait_loop fuel id expected timeout deadline) deadline advances).
  intros _ w Hw. apply ends_step. cbn [wait_loop]. apply ends_inquire.
  destruct (N.leb_spec deadline (source_now (src_asked w))) as [|Hlt]; [by apply ends_mret|].
  destruct Hw as [?|Hnext]; [lia|]. apply ends_inquire.
  apply (ends_bind (λ _, sourced _)); [apply ends_prompt, prompt_sourced|]. intros _ w1 outcome E1. injection E1 as <- _.
  destruct outcome as [| |text]; [apply (Hnext ()); simpl; lia|by apply ends_mret|].
  apply (ends_bind (λ _, on_protocol _)); [apply ends_prompt, prompt_on_protocol|].
  intros _ w2 frame E2%(unasked_run _ _ _ _ (unasked_on_protocol _)).
  apply (ends_bind (λ _, on_source _)); [apply ends_prompt, prompt_on_source|].
  intros _ w3 [] E3%(unasked_run _ _ _ _ (unasked_on_source _)).
  apply (ends_bind (λ _, startup_frame _ _ _)); [apply ends_prompt, prompt_frame|].
  intros _ w4 [response|] E4%(unasked_run _ _ _ _ (unasked_frame _ _ _)); [by apply ends_mret|].
  apply (Hnext ()). rewrite E4, E3, E2. simpl. lia.
Qed.

Lemma ends_wait id expected timeout w : ends (λ fuel, wait_for_response fuel id expected timeout) w.
Proof using advances. apply ends_inquire, ends_wait_loop. Qed.

Lemma ends_initialize timeout w : ends (λ fuel, initialize_connection fuel timeout) w.
Proof using advances.
  unfold initialize_connection. apply (ends_bind (λ _, on_protocol _)); [apply ends_prompt, prompt_on_protocol|].
  intros _ w1 [id text] _. apply (ends_bind (λ _, on_source _)); [apply ends_prompt, prompt_on_source|]. intros _ w2 [] _.
  apply (ends_bind (λ fuel, wait_for_response fuel _ _ _)); [apply ends_wait|]. intros _ w3 v _.
  apply (ends_bind (λ _, sourced _)); [apply ends_prompt, prompt_sourced|]. intros _ w4 t _. apply ends_prompt, prompt_on_source.
Qed.

Lemma ends_resume_one timeout thread w : ends (λ fuel, resume_one fuel timeout thread) w.
Proof using advances.
  unfold resume_one. apply (ends_bind (λ fuel, attempt _)); [|intros _ w1 x _; by apply ends_mret].
  apply ends_attempt. apply (ends_bind (λ _, on_protocol _)); [apply ends_prompt, prompt_on_protocol|]. intros _ w1 [id text] _.
  unfold resume_request. apply (ends_bind (λ _, attempt _)); [apply ends_prompt, prompt_attempt, prompt_on_source|].
  intros _ w2 [[]|error] _; [|by apply (ends_prompt (_ ← modify _; sourced (Err error)))].
  apply (ends_bind (λ fuel, attempt _)); [apply ends_attempt, ends_wait|].
  intros _ w3 [v|error] _; [apply ends_prompt, prompt_on_source|by apply (ends_prompt (_ ← modify _; sourced (Err error)))].
Qed.
Lemma ends_resume_threads timeout threads w : ends (λ fuel, resume_threads fuel timeout threads) w.
Proof using advances.
  revert w. induction threads as [|thread threads IH]; intros w; cbn [resume_threads]; [by apply ends_mret|].
  apply (ends_bind (λ fuel, resume_one fuel _ _)); [apply ends_resume_one|]. intros _ w1 failure _.
  apply (ends_bind (λ fuel, resume_threads fuel _ _)); [apply IH|]. intros _ w2 failures _. by apply ends_mret.
Qed.

Lemma ends_or_record {A} (a : nat → starting A) w : ends a w → ends (λ fuel, or_record (a fuel)) w.
Proof using Type.
  intros Ha. unfold or_record. apply (ends_bind (λ fuel, attempt (a fuel))); [by apply ends_attempt|].
  intros _ w1 [x|error] _; [by apply ends_mret|by apply (ends_prompt (failing error))].
Qed.
Lemma prompt_or_record {A} (a : starting A) : prompt a → prompt (or_record a).
Proof using Type. intros Ha. apply prompt_bind; [by apply prompt_attempt|]. by intros [x|error]. Qed.

Lemma prompt_stop : prompt stop_inner.
Proof using Type.
  intros w. unfold stop_inner, join_thread, release_runtime, inquire, modify, gets, mbind, act_bind, mret, act_ret, sourced, lift.
  destruct (src_proxy w), (src_worker w), (resources_acquired w) eqn:Hres; simpl; rewrite ?Hres; simpl; try done; by destruct (is_empty _).
Qed.
Lemma prompt_start_threads config : prompt (start_threads config).
Proof using Type.
  apply prompt_bind; [done|intros spawned]. apply prompt_bind; [apply prompt_or_record, prompt_sourced|intros _].
  apply prompt_bind; [done|intros _]. destruct (client_proxy_enabled config); [|done].
  apply prompt_bind; [intros w; by destruct (start_proxy_answers w) as (x & w1 & -> & _)|].
  intros [[]|error]; [done|]. apply prompt_bind; [apply prompt_attempt, prompt_stop|done].
Qed.
Lemma prompt_finish : prompt finish_start.
Proof using Type. apply prompt_bind; [done|]. by intros [message|]. Qed.

Lemma ends_start_inner config w : ends (λ fuel, start_inner fuel config) w.
Proof using advances.
  unfold start_inner. apply (ends_bind (λ _, gets _)); [by apply ends_now|]. intros _ w1 s _.
  destruct (_ || _); [by apply ends_mret|]. apply (ends_bind (λ _, modify _)); [by apply ends_now|]. intros _ w2 [] _.
  apply (ends_bind (λ _, or_record _)); [apply ends_prompt, prompt_or_record, prompt_on_source|]. intros _ w3 x _.
  apply (ends_bind (λ _, modify _)); [by apply ends_now|]. intros _ w4 [] _. apply ends_inquire.
  apply (ends_bind (λ _, or_record _)); [apply ends_prompt, prompt_or_record, prompt_sourced|]. intros _ w5 y _.
  apply (ends_bind (λ _, modify _)); [by apply ends_now|]. intros _ w6 [] _.
  apply (ends_bind (λ fuel, or_record _)); [apply ends_or_record, ends_initialize|]. intros _ w7 [] _.
  apply (ends_bind (λ fuel, resume_threads fuel _ _)); [apply ends_resume_threads|]. intros _ w8 failures _.
  destruct (negb _); [by apply (ends_prompt (failing _))|]. apply ends_prompt, prompt_bind; [apply prompt_start_threads|intros _; apply prompt_finish].
Qed.

Lemma ends_source_start config w : ends (λ fuel, source_start fuel config) w.
Proof using advances.
  unfold source_start. apply (ends_bind (λ _, gets _)); [by apply ends_now|]. intros _ w1 s _.
  destruct (_ || _); [by apply ends_mret|]. apply (ends_bind (λ fuel, attempt _)); [apply ends_attempt, ends_start_inner|].
  intros _ w2 [[]|error] _; [by apply ends_mret|].
  apply (ends_bind (λ _, attempt _)); [apply ends_prompt, prompt_attempt, prompt_stop|]. intros _ w3 cleanup _. by apply (ends_prompt (failing _)).
Qed.
End source.
