(* ===== verification/CodexConfig.v ===== *)
(** * Building the Codex provider

    Models [agentpulse-providers/codex/src/config.rs] and [lib.rs] on Unix, with
    [CodexProviderBuildError] of [error.rs], [resolve_codex_executable] of
    [executable.rs], [ProtocolSchema::compile] of [protocol.rs] and the initial
    state of [CodexProviderSource] and of [status.rs].  The compiler of JSON
    schemas is third-party code.  At the end: what a configuration that was
    accepted looks like. *)

From stdpp Require Import base strings numbers sorting gmap list.
From S2P Require Import Prelude Bytes Json Values Snapshots Capability Interaction Event Dto Net.
From S2P Require Import CodexMapper CodexProtocol CodexApproval CodexInteractions CodexControl CodexWorker CodexSource.

(** ** Paths as the system has them *)

(** A [PathBuf] is its bytes. *)
Abbreviation PathBuf := (list Byte.byte).

Definition separator : Byte.byte := Byte.x2f.

Definition is_absolute (path : PathBuf) : bool :=
  match path with b :: _ => bool_decide (b = separator) | [] => false end.

(** [Path::join] *)
Definition path_join (base path : PathBuf) : PathBuf :=
  if is_absolute path then path
  else match last base with
       | Some b => if bool_decide (b = separator) then base ++ path else base ++ separator :: path
       | None => path
       end.

(** ** Errors *)

(** [Endpoint] is raised on Windows only. *)
Inductive CodexProviderBuildError : Type :=
| Build_Endpoint (message : rstring)
| Build_EmptyThreadList
| Build_DuplicateThreadId (thread_id : rstring)
| Build_InvalidThreadId (thread_id : rstring) (source : DomainError)
| Build_CurrentDirectory (message : rstring)
| Build_NonUtf8RuntimeRoot (path : PathBuf)
| Build_SocketPathTooLong (length maximum : N)
| Build_ZeroTimeout (field : string)
| Build_EmptyExecutable
| Build_Domain (error : DomainError)
| Build_Schema (message : rstring).

#[export] Instance CodexProviderBuildError_eq_dec : EqDecision CodexProviderBuildError.
Proof. solve_decision. Defined.

(** ** The configuration (config.rs) *)

Definition PORTABLE_UNIX_SOCKET_PATH_MAX : N := 96.
Definition APP_SERVER_SOCKET_FILE_NAME : PathBuf := as_bytes (lit "app-server.sock").
Definition CLIENT_PROXY_SOCKET_FILE_NAME : PathBuf := as_bytes (lit "client.sock").

(** [{:02x}] of a byte. *)
Definition hex_byte (n : N) : rstring := [hex_char (n / 16); hex_char (n mod 16)].

Definition checked_socket_text (path runtime_root : PathBuf) : result CodexProviderBuildError rstring :=
  text ← ok_or (Build_NonUtf8RuntimeRoot runtime_root) (from_utf8 path);
  let length := N.of_nat (byte_len text) in
  if (PORTABLE_UNIX_SOCKET_PATH_MAX <? length)%N then Err (Build_SocketPathTooLong length PORTABLE_UNIX_SOCKET_PATH_MAX)
  else Ok text.

Definition absolute_path (current_dir : result rstring PathBuf) (path : PathBuf) : result CodexProviderBuildError PathBuf :=
  if is_absolute path then Ok path
  else current ← map_err Build_CurrentDirectory current_dir; Ok (path_join current path).

Section config.
Context `{Externals}.

Record ConfiguredThread : Type := MkConfiguredThread {
  configured_external_id : ExternalId;
  configured_session_id : SessionId
}.

(** Durations are nanoseconds. *)
Record CodexProviderConfig : Type := MkConfig {
  config_provider_id : ProviderId;
  runtime_root : PathBuf;
  runtime_directory : PathBuf;
  socket_path : PathBuf;
  app_server_uri : rstring;
  proxy_socket_path : PathBuf;
  remote_uri : rstring;
  configured_threads : list ConfiguredThread;
  config_discover_threads : bool;
  codex_executable : PathBuf;
  config_startup_timeout : N;
  shutdown_timeout : N
}.

Definition runtime_directory_key (provider_id : ProviderId) : rstring :=
  let bytes := Byte.to_N <$> be_bytes 16 (raw (as_uuid provider_id)) in
  let at_ i := nth i bytes 0%N in
  [hex_char (N.land (at_ 6%nat) 15)] ++ hex_byte (at_ 7%nat) ++ hex_byte (N.land (at_ 8%nat) 63)
  ++ hex_byte (at_ 9%nat) ++ hex_byte (at_ 10%nat) ++ hex_byte (at_ 11%nat) ++ hex_byte (at_ 12%nat)
  ++ hex_byte (at_ 13%nat) ++ hex_byte (at_ 14%nat) ++ hex_byte (at_ 15%nat).

Definition seconds (n : N) : N := (n * 1000000000)%N.

Definition finish (current_dir : result rstring PathBuf) (provider_id : ProviderId) (root : PathBuf)
    (threads : list ConfiguredThread) (discover : bool) : result CodexProviderBuildError CodexProviderConfig :=
  root ← absolute_path current_dir root;
  let directory := path_join root (as_bytes (runtime_directory_key provider_id)) in
  let socket := path_join directory APP_SERVER_SOCKET_FILE_NAME in
  let proxy_socket := path_join directory CLIENT_PROXY_SOCKET_FILE_NAME in
  socket_text ← checked_socket_text socket root;
  proxy_socket_text ← checked_socket_text proxy_socket root;
  Ok (MkConfig provider_id root directory socket (lit "unix://" ++ socket_text) proxy_socket
        (lit "unix://" ++ proxy_socket_text) threads discover (as_bytes (lit "codex")) (seconds 10) (seconds 5)).

(** One identifier; the error of [SessionId::from_str] is kept. *)
Definition configure_thread (thread_id : rstring) : result CodexProviderBuildError ConfiguredThread :=
  session_id ← map_err (Build_InvalidThreadId thread_id) (id_from_str SessionEntity thread_id);
  external_id ← map_err Build_Domain (ExternalId_new thread_id);
  Ok (MkConfiguredThread external_id session_id).

(** The loop over the identifiers. *)
Fixpoint configure_threads (unique : gset rstring) (thread_ids : list rstring) :
    result CodexProviderBuildError (list ConfiguredThread) :=
  match thread_ids with
  | [] => Ok []
  | thread_id :: thread_ids' =>
      if bool_decide (thread_id ∈ unique) then Err (Build_DuplicateThreadId thread_id)
      else
        thread ← configure_thread thread_id;
        rest ← configure_threads ({[thread_id]} ∪ unique) thread_ids';
        Ok (thread :: rest)
  end.

Definition CodexProviderConfig_new (current_dir : result rstring PathBuf) (provider_id : ProviderId) (root : PathBuf)
    (thread_ids : list rstring) : result CodexProviderBuildError CodexProviderConfig :=
  if is_empty thread_ids then Err Build_EmptyThreadList
  else
    threads ← configure_threads ∅ thread_ids;
    finish current_dir provider_id root threads false.

Definition discovering (current_dir : result rstring PathBuf) (provider_id : ProviderId) (root : PathBuf) :
    result CodexProviderBuildError CodexProviderConfig :=
  finish current_dir provider_id root [] true.

Definition with_codex_executable (executable : PathBuf) (c : CodexProviderConfig) : CodexProviderConfig :=
  MkConfig (config_provider_id c) (runtime_root c) (runtime_directory c) (socket_path c) (app_server_uri c)
    (proxy_socket_path c) (remote_uri c) (configured_threads c) (config_discover_threads c) executable
    (config_startup_timeout c) (shutdown_timeout c).
Definition with_startup_timeout (timeout : N) (c : CodexProviderConfig) : CodexProviderConfig :=
  MkConfig (config_provider_id c) (runtime_root c) (runtime_directory c) (socket_path c) (app_server_uri c)
    (proxy_socket_path c) (remote_uri c) (configured_threads c) (config_discover_threads c) (codex_executable c)
    timeout (shutdown_timeout c).
Definition with_shutdown_timeout (timeout : N) (c : CodexProviderConfig) : CodexProviderConfig :=
  MkConfig (config_provider_id c) (runtime_root c) (runtime_directory c) (socket_path c) (app_server_uri c)
    (proxy_socket_path c) (remote_uri c) (configured_threads c) (config_discover_threads c) (codex_executable c)
    (config_startup_timeout c) timeout.

Definition validate_build_settings (c : CodexProviderConfig) : result CodexProviderBuildError unit :=
  if is_empty (codex_executable c) then Err Build_EmptyExecutable
  else if (config_startup_timeout c =? 0)%N then Err (Build_ZeroTimeout "startup timeout")
  else if (shutdown_timeout c =? 0)%N then Err (Build_ZeroTimeout "shutdown timeout")
  else Ok ().

(** [resolve_codex_executable] on Unix. *)
Definition resolve_codex_executable (executable : PathBuf) : result rstring PathBuf := Ok executable.

(** ** The schema (protocol.rs) *)

Definition schema_reference (kind : SchemaKind) : string :=
  match kind with
  | Schema_ClientRequest => "#/definitions/ClientRequest"
  | Schema_ClientNotification => "#/definitions/ClientNotification"
  | Schema_ServerNotification => "#/definitions/ServerNotification"
  | Schema_ServerRequest => "#/definitions/ServerRequest"
  | Schema_JsonrpcResponse => "#/definitions/JSONRPCResponse"
  | Schema_JsonrpcError => "#/definitions/JSONRPCError"
  | Schema_InitializeResponse => "#/definitions/InitializeResponse"
  | Schema_ThreadResumeResponse => "#/definitions/v2/ThreadResumeResponse"
  | Schema_ModelListResponse => "#/definitions/v2/ModelListResponse"
  | Schema_PermissionProfileListResponse => "#/definitions/v2/PermissionProfileListResponse"
  | Schema_ThreadListResponse => "#/definitions/v2/ThreadListResponse"
  | Schema_ThreadItemsListResponse => "#/definitions/v2/ThreadItemsListResponse"
  | Schema_ThreadStartResponse => "#/definitions/v2/ThreadStartResponse"
  | Schema_ThreadForkResponse => "#/definitions/v2/ThreadForkResponse"
  | Schema_TurnStartResponse => "#/definitions/v2/TurnStartResponse"
  | Schema_TurnSteerResponse => "#/definitions/v2/TurnSteerResponse"
  | Schema_EmptyResponse => "#/definitions/v2/TurnInterruptResponse"
  | Schema_ReviewStartResponse => "#/definitions/v2/ReviewStartResponse"
  | Schema_CommandApprovalResponse => "#/definitions/CommandExecutionRequestApprovalResponse"
  | Schema_FileApprovalResponse => "#/definitions/FileChangeRequestApprovalResponse"
  | Schema_UserInputResponse => "#/definitions/ToolRequestUserInputResponse"
  end.

(** The fields of [ProtocolSchema], in the order they are compiled. *)
Definition schema_kinds : list SchemaKind :=
  [Schema_ClientRequest; Schema_ClientNotification; Schema_ServerNotification; Schema_ServerRequest;
   Schema_JsonrpcResponse; Schema_JsonrpcError; Schema_InitializeResponse; Schema_ThreadResumeResponse;
   Schema_ModelListResponse; Schema_PermissionProfileListResponse; Schema_ThreadListResponse;
   Schema_ThreadItemsListResponse; Schema_ThreadStartResponse; Schema_ThreadForkResponse; Schema_TurnStartResponse;
   Schema_TurnSteerResponse; Schema_EmptyResponse; Schema_ReviewStartResponse; Schema_CommandApprovalResponse;
   Schema_FileApprovalResponse; Schema_UserInputResponse].

Section schema.
Context {Validator : Type} `{CodexLibrary}.

(** [build]: the draft-07 compiler of [jsonschema]. *)
Definition compile_ref (build : Value → result rstring Validator) (schema : Value) (reference : string) :
    result CodexProviderBuildError Validator :=
  definitions ← ok_or (Build_Schema (lit "bundle has no definitions object")) (get "definitions" schema);
  let root := object [("$schema", VString (lit "http://json-schema.org/draft-07/schema#"));
                           ("$ref", VString (lit reference)); ("definitions", definitions)] in
  map_err (λ error, Build_Schema (lit reference ++ lit ": " ++ error)) (build root).

Definition ProtocolSchema_compile (build : Value → result rstring Validator) (bundle : rstring) :
    result CodexProviderBuildError (list (SchemaKind * Validator)) :=
  schema ← map_err Build_Schema (codex_from_str bundle);
  try_collect (λ kind, validator ← compile_ref build schema (schema_reference kind); Ok (kind, validator)) schema_kinds.
End schema.

(** ** The factory (lib.rs) *)

Definition SUPPORTED_CODEX_CLI_VERSION : rstring := lit "0.166.0".
Definition SUPPORTED_CODEX_CLI_VERSIONS : list rstring :=
  lit <$> ["0.150.1"; "0.152.0"; "0.152.1"; "0.153.0"; "0.166.0"].
Definition SUPPORTED_CODEX_CLI_VERSION_REQUIREMENT : string :=
  "0.150.1, 0.152.0, 0.152.1, 0.153.0, 0.166.0, or a valid unverified version newer than 0.153.0".

Definition codex_capabilities : ProviderCapabilities :=
  foldl union ProviderCaps.SESSION_STATE
    [ProviderCaps.APPROVAL_REQUEST; ProviderCaps.APPROVAL_RESPONSE; ProviderCaps.USER_INPUT_REQUEST; ProviderCaps.USER_INPUT_RESPONSE;
     ProviderCaps.PROMPT_SUBMIT; ProviderCaps.CANCEL; ProviderCaps.CONTROL].

Definition codex_descriptor (provider_id : ProviderId) : result CodexProviderBuildError ProviderDescriptor :=
  kind ← map_err Build_Domain (Kind_new ProviderKindFamily (lit "codex"));
  display_name ← map_err Build_Domain (NonEmptyText_new (lit "Codex"));
  version ← map_err Build_Domain (NonEmptyText_new SUPPORTED_CODEX_CLI_VERSION);
  Ok (provider_with_version (ProviderDescriptor_new provider_id kind display_name codex_capabilities) version).

(** The Port, the Source and the handle; the states the Port and the Source
    share, and the status the Source and the handle share, appear once. *)
Record CodexProviderParts {S I V : Type} : Type := MkParts {
  port_descriptor : ProviderDescriptor;
  parts_config : CodexProviderConfig;
  parts_schema : list (SchemaKind * V);
  parts_source : SourceWorld (S := S) (I := I);
  parts_controls : ControlRuntimeState;
  handle_remote_uri : rstring
}.
Arguments MkParts {S I V}.
Arguments port_descriptor {S I V}.
Arguments parts_config {S I V}.
Arguments parts_schema {S I V}.
Arguments parts_source {S I V}.
Arguments parts_controls {S I V}.
Arguments handle_remote_uri {S I V}.

Section factory.
Context {S I V : Type} `{!EventSink S} `{CodexLibrary}.

(** [CodexProviderSource::new]: the runtime manages a process, and clients connect through the proxy. *)
Definition CodexProviderSource_new (sink : S) (io : I) (mapper : CodexEventMapper) : SourceWorld (S := S) (I := I) :=
  source_new (MkProvider (MkMapperWorld mapper sink 0 0 0 []) ApprovalRuntimeState_new (MkLocal ∅ []) 0 0 0 0 io ∅ [] []).

(** What [start] reads of the configuration. *)
Definition source_config (c : CodexProviderConfig) : SourceConfig :=
  MkSourceConfig (raw ∘ external_id_text ∘ configured_external_id <$> configured_threads c) (config_startup_timeout c) true.

(** [sink] and [io] stand for the handle and the connection a start supplies. *)
Definition CodexProvider_build (build : Value → result rstring V) (bundle : rstring) (sink : S) (io : I)
    (c : CodexProviderConfig) : result CodexProviderBuildError (CodexProviderParts (S := S) (I := I) (V := V)) :=
  _ ← validate_build_settings c;
  schema ← ProtocolSchema_compile build bundle;
  descriptor ← codex_descriptor (config_provider_id c);
  let mapper := CodexEventMapper_new (config_provider_id c)
                  ((λ t, (configured_external_id t, configured_session_id t)) <$> configured_threads c)
                  (config_discover_threads c) in
  Ok (MkParts descriptor c schema (CodexProviderSource_new sink io mapper) ControlRuntimeState_new (remote_uri c)).

(** ** The status (status.rs) *)

Record CodexProviderSnapshot : Type := MkSnapshot {
  snapshot_health : CodexProviderHealth;
  snapshot_last_error : option rstring;
  snapshot_validated_frames : N;
  snapshot_mapped_events : N;
  snapshot_validated_unmapped_frames : N;
  snapshot_rejected_server_requests : N;
  snapshot_channel_delivery_failures : N
}.

Definition snapshot (w : SourceWorld (S := S) (I := I)) : CodexProviderSnapshot :=
  let p := src_provider w in
  MkSnapshot (health w) (last_error w) (validated_frames p) (mapped_events (world p)) (validated_unmapped_frames p)
    (rejected_server_requests p) (channel_delivery_failures (world p)).
End factory.
End config.

(** ** What was accepted *)

Section config_spec.
Context `{Externals}.
Implicit Types (c : CodexProviderConfig) (p q : ProviderId).

(** ** The directory key *)

Lemma hex_char_inj a b : (a < 16)%N → (b < 16)%N → hex_char a = hex_char b → a = b.
Proof. unfold hex_char. intros. repeat case_match; rewrite ?N.ltb_lt, ?N.ltb_ge in *; lia. Qed.

Lemma hex_byte_inj a b : (a < 256)%N → (b < 256)%N → hex_byte a = hex_byte b → a = b.
Proof.
  intros Ha Hb [= H1 H2]. apply hex_char_inj in H1, H2; [|by apply N.mod_lt|by apply N.mod_lt|apply N.Div0.div_lt_upper_bound; lia|apply N.Div0.div_lt_upper_bound; lia].
  rewrite (N.div_mod a 16), (N.div_mod b 16) by lia. congruence.
Qed.

(** The bits of a UUIDv7 that neither the time nor the format determines. *)
Definition random_bits p : N * N :=
  ((raw (as_uuid p) / 2 ^ 64) mod 2 ^ 12, raw (as_uuid p) mod 2 ^ 62)%N.


Lemma hex_bytes_inj l l' :
  Forall (λ b, b < 256)%N l → Forall (λ b, b < 256)%N l' → l ≫= hex_byte = l' ≫= hex_byte → l = l'.
Proof.
  intros Hl. revert l'. induction Hl as [|b l Hb _ IH]; intros l' Hl'; destruct Hl' as [|b' l' Hb' Hl']; [done|discriminate 1..|].
  intros [E E']%(app_inj_1 (hex_byte b) (hex_byte b')); [|done]. f_equal; [by apply hex_byte_inj|by apply IH].
Qed.

Lemma mod_split v w a b :
  (v mod a = w mod a → (v / a) mod b = (w / a) mod b → v mod (a * b) = w mod (a * b))%N.
Proof. intros H1 H2. rewrite !N.Div0.mod_mul_r. by rewrite H1, H2. Qed.


Lemma mod_256_16 a : ((a mod 256) mod 16 = a mod 16)%N.
Proof. change 256%N with (16 * 16)%N. rewrite N.Div0.mod_mul_r, N.mul_comm, N.Div0.mod_add. apply N.Div0.mod_mod. Qed.
Lemma mod_256_64 a : ((a mod 256) mod 64 = a mod 64)%N.
Proof. change 256%N with (64 * 4)%N. rewrite N.Div0.mod_mul_r, N.mul_comm, N.Div0.mod_add. apply N.Div0.mod_mod. Qed.

(** The key in terms of the number: four bits, eight bits, six bits and seven bytes. *)
Lemma runtime_directory_key_bytes p :
  let v := raw (as_uuid p) in
  runtime_directory_key p =
    hex_char ((v / 256 ^ 9) mod 16) ::
    ([(v / 256 ^ 8) mod 256; (v / 256 ^ 7) mod 64]%N ++ (Byte.to_N <$> be_bytes 7 v)) ≫= hex_byte.
Proof.
  unfold runtime_directory_key. cbn [be_bytes app fmap list_fmap nth mbind list_bind].
  rewrite !N.Div0.div_div, !byte_to_of_N. change 15%N with (N.ones 4). change 63%N with (N.ones 6).
  rewrite !N.land_ones. change (2 ^ 4)%N with 16%N. change (2 ^ 6)%N with 64%N. by rewrite mod_256_16, mod_256_64.
Qed.

Lemma key_bytes_lt v :
  Forall (λ b, b < 256)%N ([(v / 256 ^ 8) mod 256; (v / 256 ^ 7) mod 64]%N ++ (Byte.to_N <$> be_bytes 7 v)).
Proof.
  apply Forall_app. split.
  - repeat constructor; [by apply N.mod_lt|]. transitivity 64%N; [by apply N.mod_lt|done].
  - apply Forall_fmap, Forall_true. intros b. apply byte_to_N_lt.
Qed.

#[local] Instance byte_to_N_inj' : Inj (=) (=) Byte.to_N := byte_to_N_inj.

Lemma runtime_directory_key_inj p q : runtime_directory_key p = runtime_directory_key q → random_bits p = random_bits q.
Proof.
  rewrite !runtime_directory_key_bytes. unfold random_bits. generalize (raw (as_uuid p)) (raw (as_uuid q)). intros v w.
  intros E. pose proof (f_equal (hd 0%N) E) as E9. apply (f_equal tail) in E. cbn [hd tail] in E9, E. apply hex_char_inj in E9; [|by apply N.mod_lt..]. apply hex_bytes_inj in E; [|apply key_bytes_lt..].
  assert (∀ (a b c d : N) l l', [a; b] ++ l = [c; d] ++ l' → a = c ∧ b = d ∧ l = l') as Hinj by (by intros ? ? ? ? ? ? [= -> -> ->]).
  apply Hinj in E as (E8 & E7 & E). apply (inj (fmap Byte.to_N)) in E.
  f_equal.
  - change (2 ^ 64)%N with (256 ^ 8)%N. change (2 ^ 12)%N with (256 * 16)%N. apply mod_split; [done|].
    by rewrite !N.Div0.div_div.
  - change (2 ^ 62)%N with (256 ^ 7 * 64)%N. apply mod_split; [|done].
    apply (f_equal be_value) in E. by rewrite !be_value_bytes in E.
Qed.

Lemma hex_char_ascii n : (n < 16)%N → (hex_char n < 128)%N ∧ hex_char n ≠ 47%N.
Proof. unfold hex_char. intros Hn. case_match; rewrite ?N.ltb_lt, ?N.ltb_ge in *; lia. Qed.

Lemma key_ascii p : Forall (λ x, x < 128 ∧ x ≠ 47)%N (runtime_directory_key p) ∧ length (runtime_directory_key p) = 19.
Proof.
  rewrite runtime_directory_key_bytes. split; [|done]. constructor; [apply hex_char_ascii; by apply N.mod_lt|].
  apply Forall_bind. eapply Forall_impl; [apply key_bytes_lt|]. intros b Hb. cbn beta in Hb.
  repeat constructor; apply hex_char_ascii; first [apply N.Div0.div_lt_upper_bound; lia|by apply N.mod_lt].
Qed.

Lemma ascii_bytes s : Forall (λ x, x < 128)%N s → as_bytes s = byte_of_N <$> s.
Proof.
  induction 1 as [|c s Hc _ IH]; [done|]. unfold as_bytes in *. cbn [mbind list_bind]. unfold utf8_char at 1.
  destruct (N.ltb_spec c 128); [|lia]. cbn [app fmap list_fmap]. f_equal. exact IH.
Qed.
Lemma ascii_bytes_inj s t : Forall (λ x, x < 128)%N s → Forall (λ x, x < 128)%N t → as_bytes s = as_bytes t → s = t.
Proof.
  intros Hs Ht. apply as_bytes_inj; (eapply Forall_impl; [done|]); intros c Hc; cbn beta in Hc; unfold is_scalar;
    apply orb_true_iff; left; apply N.ltb_lt; lia.
Qed.
Lemma key_bytes p : as_bytes (runtime_directory_key p) = byte_of_N <$> runtime_directory_key p.
Proof. apply ascii_bytes. eapply Forall_impl; [apply key_ascii|]. by intros c []. Qed.

(** ** Paths *)

Definition joint (base : PathBuf) : PathBuf :=
  match last base with Some b => if bool_decide (b = separator) then [] else [separator] | None => [] end.

Lemma join_relative base path : is_absolute path = false → path_join base path = base ++ joint base ++ path.
Proof.
  unfold path_join, joint. intros ->. destruct (last base) as [b|] eqn:E; [by case_bool_decide|].
  by apply last_None in E as ->.
Qed.
Lemma join_inj base path path' :
  is_absolute path = false → is_absolute path' = false → path_join base path = path_join base path' → path = path'.
Proof. intros H1 H2. rewrite !join_relative by done. by intros ?%(inj _)%(inj _). Qed.
Lemma join_absolute base path : is_absolute base = true → is_absolute (path_join base path) = true.
Proof.
  intros Hb. unfold path_join. destruct (is_absolute path) eqn:E; [done|]. destruct base as [|b base]; [done|].
  destruct (last (b :: base)) eqn:El; [case_match; exact Hb|by apply last_None in El].
Qed.

Lemma key_relative p : is_absolute (as_bytes (runtime_directory_key p)) = false.
Proof.
  rewrite key_bytes. destruct (key_ascii p) as [Hk _]. destruct Hk as [|c key [Hc Hn] _]; [done|].
  cbn. apply bool_decide_eq_false. intros E%(f_equal Byte.to_N). rewrite byte_to_of_N, N.mod_small in E by lia. by apply Hn.
Qed.

(** ** Threads *)

Lemma configure_threads_spec unique ids threads :
  configure_threads unique ids = Ok threads ↔
  NoDup ids ∧ (∀ id, id ∈ ids → id ∉ unique) ∧ Forall2 (λ id t, configure_thread id = Ok t) ids threads.
Proof.
  revert unique threads. induction ids as [|id ids IH]; intros unique threads; cbn [configure_threads].
  - split; [|intros (_ & _ & Hf%Forall2_nil_inv_l); by subst]. intros [= <-]. split_and!; [constructor|set_solver|constructor].
  - case_bool_decide as Hu.
    { split; [discriminate|]. intros (_ & Hn & _). destruct (Hn id); [set_solver|done]. }
    split.
    + intros (t & Ht & (rest & (Hd & Hn & Hf)%IH & [= <-])%bind_Ok)%bind_Ok.
      split_and!; [constructor; [set_solver|done]|set_solver|by constructor].
    + intros ([Hi Hd]%NoDup_cons & Hn & Hf). apply Forall2_cons_inv_l in Hf as (t & rest & Ht & Hf & ->).
      rewrite Ht. cbn. rewrite (proj2 (IH ({[id]} ∪ unique) rest)); [done|]. split_and!; [done|set_solver|done].
Qed.

Lemma configure_thread_spec id t :
  configure_thread id = Ok t ↔
  id_from_str SessionEntity id = Ok (configured_session_id t) ∧ raw (external_id_text (configured_external_id t)) = id.
Proof.
  unfold configure_thread. split.
  - intros (s & Hs%map_err_Ok & (x & Hx%map_err_Ok & [= <-])%bind_Ok)%bind_Ok. split; [done|].
    revert Hx. unfold ExternalId_new, nonblank_new. by intros (y & E%ok_or_Ok%of_raw_Some & ->)%fmap_Ok.
  - intros [Hs <-]. rewrite Hs. cbn. rewrite ExternalId_new_raw. by destruct t.
Qed.

Definition thread_text (t : ConfiguredThread) : rstring := raw (external_id_text (configured_external_id t)).

Lemma configured_texts ids threads : Forall2 (λ id t, configure_thread id = Ok t) ids threads → thread_text <$> threads = ids.
Proof. induction 1 as [|id t ids threads [_ Ht]%configure_thread_spec _ IH]; [done|]. cbn. by f_equal. Qed.

(** ** Configurations *)

Record configured_well c : Prop := {
  well_directory : runtime_directory c = path_join (runtime_root c) (as_bytes (runtime_directory_key (config_provider_id c)));
  well_socket : socket_path c = path_join (runtime_directory c) APP_SERVER_SOCKET_FILE_NAME;
  well_proxy_socket : proxy_socket_path c = path_join (runtime_directory c) CLIENT_PROXY_SOCKET_FILE_NAME;
  well_uri : as_bytes (app_server_uri c) = as_bytes (lit "unix://") ++ socket_path c;
  well_remote_uri : as_bytes (remote_uri c) = as_bytes (lit "unix://") ++ proxy_socket_path c;
  well_lengths : length (socket_path c) ≤ 96 ∧ length (proxy_socket_path c) ≤ 96;
  well_threads : NoDup (thread_text <$> configured_threads c) ∧
    Forall (λ t, id_from_str SessionEntity (thread_text t) = Ok (configured_session_id t)) (configured_threads c)
}.

Lemma checked_socket_text_spec path root text :
  checked_socket_text path root = Ok text → as_bytes text = path ∧ length path ≤ 96.
Proof.
  unfold checked_socket_text. intros (t & Ht%ok_or_Ok & E)%bind_Ok. apply from_utf8_bytes in Ht as <-.
  revert E. unfold PORTABLE_UNIX_SOCKET_PATH_MAX. destruct (N.ltb_spec 96 (N.of_nat (byte_len t))) as [|Hl]; [discriminate 1|].
  intros [= <-]. split; [done|]. unfold byte_len in Hl. lia.
Qed.

Lemma as_bytes_app s t : as_bytes (s ++ t) = as_bytes s ++ as_bytes t.
Proof. unfold as_bytes. by rewrite bind_app, fmap_app. Qed.

Lemma finish_spec cwd p root threads discover c :
  NoDup (thread_text <$> threads) →
  Forall (λ t, id_from_str SessionEntity (thread_text t) = Ok (configured_session_id t)) threads →
  finish cwd p root threads discover = Ok c →
  configured_well c ∧ config_provider_id c = p ∧ absolute_path cwd root = Ok (runtime_root c) ∧
  configured_threads c = threads ∧ config_discover_threads c = discover ∧ validate_build_settings c = Ok ().
Proof.
  intros Hd Ht. unfold finish.
  intros (r & Hr & (socket & Hs%checked_socket_text_spec & (proxy & Hp%checked_socket_text_spec & <-%Ok_inj)%bind_Ok)%bind_Ok)%bind_Ok.
  destruct Hs as [Hs Hs'], Hp as [Hp Hp']. split_and!; [|done..]. constructor; try done; cbn [app_server_uri remote_uri socket_path proxy_socket_path]; rewrite as_bytes_app; congruence.
Qed.

Lemma new_spec cwd p root ids c :
  CodexProviderConfig_new cwd p root ids = Ok c →
  ids ≠ [] ∧ NoDup ids ∧ Forall2 (λ id t, configure_thread id = Ok t) ids (configured_threads c) ∧
  thread_text <$> configured_threads c = ids ∧
  finish cwd p root (configured_threads c) false = Ok c ∧ configured_well c.
Proof.
  unfold CodexProviderConfig_new. destruct ids as [|id ids]; [discriminate 1|]. cbn [is_empty].
  generalize (id :: ids) (ltac:(done) : id :: ids ≠ []). clear id ids. intros ids Hne.
  intros (threads & (Hd & _ & Hf)%configure_threads_spec & E)%bind_Ok. pose proof (configured_texts _ _ Hf) as Htexts.
  assert (Forall (λ t, id_from_str SessionEntity (thread_text t) = Ok (configured_session_id t)) threads) as Hids.
  { clear -Hf. induction Hf as [|id t ids threads [Ht <-]%configure_thread_spec _ IH]; by constructor. }
  destruct (finish_spec cwd p root threads false c) as (Hw & _ & _ & Ht & _); [by rewrite Htexts|done|done|].
  by rewrite Ht.
Qed.

Lemma discovering_spec cwd p root c :
  discovering cwd p root = Ok c → configured_well c ∧ configured_threads c = [] ∧ config_discover_threads c = true.
Proof. intros E. destruct (finish_spec cwd p root [] true c) as (? & _ & _ & ? & ? & _); [constructor..|done|done]. Qed.

Lemma well_with_executable c path : configured_well c → configured_well (with_codex_executable path c).
Proof. by intros []. Qed.
Lemma well_with_timeouts c a b : configured_well c → configured_well (with_startup_timeout a (with_shutdown_timeout b c)).
Proof. by intros []. Qed.

(** The sockets of a provider are two, under its own directory. *)
Lemma sockets_distinct c : configured_well c → socket_path c ≠ proxy_socket_path c.
Proof.
  intros [_ Hs Hp _ _ _ _] E. rewrite Hs, Hp in E. by apply join_inj in E; [|vm_compute..].
Qed.

Lemma directory_length c :
  configured_well c → length (runtime_directory c) = length (runtime_root c ++ joint (runtime_root c)) + 19.
Proof.
  intros Hw. rewrite (well_directory c Hw), join_relative, app_assoc, length_app, key_bytes, length_fmap by apply key_relative.
  done.
Qed.

(** Two providers under one root share no socket unless their random bits agree. *)
Lemma sockets_identify c c' :
  configured_well c → configured_well c' → runtime_root c = runtime_root c' →
  socket_path c = socket_path c' ∨ proxy_socket_path c = proxy_socket_path c' →
  random_bits (config_provider_id c) = random_bits (config_provider_id c').
Proof.
  intros Hw Hw' Hr E.
  assert (runtime_directory c = runtime_directory c') as Hd.
  { assert (length (runtime_directory c) = length (runtime_directory c')) as Hl by (rewrite !directory_length by done; congruence).
    destruct E as [E|E].
    - rewrite (well_socket c Hw), (well_socket c' Hw'), !join_relative in E by done. by apply (app_inj_1 _ _ _ _ Hl) in E as [].
    - rewrite (well_proxy_socket c Hw), (well_proxy_socket c' Hw'), !join_relative in E by done. by apply (app_inj_1 _ _ _ _ Hl) in E as []. }
  rewrite (well_directory c Hw), (well_directory c' Hw'), Hr in Hd. apply join_inj in Hd; [|apply key_relative..].
  apply runtime_directory_key_inj. apply ascii_bytes_inj in Hd; [done| |]; (eapply Forall_impl; [apply key_ascii|]); by intros ? [].
Qed.

(** Identifiers in the spelling [SessionId] prints name different sessions. *)
Lemma canonical_sessions c :
  configured_well c →
  Forall (λ t, thread_text t = id_to_string (configured_session_id t)) (configured_threads c) →
  NoDup (configured_session_id <$> configured_threads c).
Proof.
  intros [_ _ _ _ _ _ [Hd _]] Hc. apply (NoDup_fmap_1 id_to_string). rewrite <-list_fmap_compose.
  replace ((id_to_string ∘ configured_session_id) <$> configured_threads c) with (thread_text <$> configured_threads c); [done|].
  clear Hd. induction Hc as [|t l Ht _ IH]; [done|]. cbn. by f_equal.
Qed.

(** ** The mapper *)

Lemma configured_foldl (l : list ConfiguredThread) (m0 : gmap rstring SessionId) k s :
  NoDup (thread_text <$> l) →
  foldl (λ m '(external_id, sid), <[raw (external_id_text external_id) := sid]> m) m0
    ((λ t, (configured_external_id t, configured_session_id t)) <$> l) !! k = Some s ↔
  (∃ t, t ∈ l ∧ thread_text t = k ∧ configured_session_id t = s) ∨ (¬ (k ∈ thread_text <$> l) ∧ m0 !! k = Some s).
Proof.
  revert m0. induction l as [|t l IH]; intros m0 Hd; [set_solver|]. cbn [fmap list_fmap] in Hd |- *. apply NoDup_cons in Hd as [Ht Hd].
  cbn [foldl]. rewrite IH by done. change (raw (external_id_text (configured_external_id t))) with (thread_text t). split.
  - intros [(t' & ? & ? & ?)|[Hk Hm]]; [left; exists t'; set_solver|]. destruct (decide (thread_text t = k)) as [<-|Hn].
    + rewrite lookup_insert_eq in Hm. injection Hm as <-. left. exists t. set_solver.
    + rewrite lookup_insert_ne in Hm by done. right. set_solver.
  - intros [(t' & Hin & <- & <-)|[Hk Hm]].
    + apply elem_of_cons in Hin as [->|Hin]; [|left; by exists t'].
      right. split; [done|]. by rewrite lookup_insert_eq.
    + right. split; [set_solver|]. rewrite lookup_insert_ne; [done|set_solver].
Qed.

Lemma mapper_configured c k s :
  configured_well c →
  configured (CodexEventMapper_new (config_provider_id c)
      ((λ t, (configured_external_id t, configured_session_id t)) <$> configured_threads c)
      (config_discover_threads c)) !! k = Some s ↔
  ∃ t, t ∈ configured_threads c ∧ thread_text t = k ∧ configured_session_id t = s.
Proof.
  intros Hw. cbn [CodexEventMapper_new configured]. rewrite configured_foldl by apply Hw. rewrite lookup_empty. naive_solver.
Qed.

(** ** The factory *)

Section factory_spec.
Context {S I V : Type} `{!EventSink S} `{!CodexLibrary}.

Lemma codex_descriptor_spec p :
  ∃ d, codex_descriptor p = Ok d ∧ provider_id d = p ∧ provider_capabilities d = codex_capabilities.
Proof. by eexists. Qed.

Lemma build_spec (build : Value → result rstring V) bundle (s : S) (io : I) c schema :
  validate_build_settings c = Ok () → ProtocolSchema_compile build bundle = Ok schema →
  ∃ parts, CodexProvider_build build bundle s io c = Ok parts ∧ parts_config parts = c ∧ parts_schema parts = schema ∧
    provider_id (port_descriptor parts) = config_provider_id c ∧
    provider_capabilities (port_descriptor parts) = codex_capabilities ∧
    handle_remote_uri parts = remote_uri c ∧ ∃ pw, parts_source parts = source_new pw ∧
      mapper (world pw) = CodexEventMapper_new (config_provider_id c)
        ((λ t, (configured_external_id t, configured_session_id t)) <$> configured_threads c) (config_discover_threads c).
Proof.
  intros Hv Hs. unfold CodexProvider_build. rewrite Hv, Hs. destruct (codex_descriptor_spec (config_provider_id c)) as (d & Hd & ? & ?).
  cbn [mbind result_bind]. rewrite Hd. eexists. split; [reflexivity|]. cbn. split_and!; [done..|]. by eexists.
Qed.

(** The schema compiles exactly if every reference does, and then has a validator for each kind. *)
Lemma compile_spec (build : Value → result rstring V) bundle schema :
  ProtocolSchema_compile build bundle = Ok schema → schema.*1 = schema_kinds ∧ ∀ kind : SchemaKind, kind ∈ schema.*1.
Proof.
  unfold ProtocolSchema_compile. intros (value & _ & E%try_collect_Ok)%bind_Ok.
  assert (schema.*1 = schema_kinds) as ->; [|split; [done|by intros []; repeat constructor]].
  induction E as [|kind [kind' v] kinds schema E _ IH]; [done|]. apply bind_Ok in E as (v' & _ & [= -> _]). cbn. by f_equal.
Qed.
End factory_spec.
End config_spec.
