(* ===== verification/CodexProcess.v ===== *)
(** * The managed app server

    Models [ManagedCodexRuntime], [ManagedProcess] and [LocalWebSocketIo] of
    [agentpulse-providers/codex/src/runtime.rs] and [runtime/transport.rs] on
    Unix: the version of Codex is probed, its app server is launched in a process
    group and a directory of its own, and both are removed again.  The answers of
    the system and of the libraries are functions of the number of questions
    asked so far; files are those of [Platform]. *)

From stdpp Require Import base strings numbers sorting gmap list.
From S2P Require Import Prelude Bytes Json Values Snapshots Capability Interaction Event Dto Net Platform.
From S2P Require Import CodexMapper CodexProtocol CodexApproval CodexInteractions CodexControl CodexWorker CodexSource CodexConfig.

(** ** Errors of the system *)

Inductive IoErrorKind : Type :=
| Kind_NotFound | Kind_AlreadyExists | Kind_ConnectionRefused | Kind_InvalidInput | Kind_WouldBlock | Kind_TimedOut | Kind_Other.
Record IoError : Type := MkIoError { io_kind : IoErrorKind; io_text : rstring }.

#[export] Instance IoErrorKind_eq_dec : EqDecision IoErrorKind.
Proof. solve_decision. Defined.

(** [nix::errno::Errno], with the [io::Error] of any but [ESRCH]. *)
Inductive Errno : Type := ESRCH | Errno_Io (error : IoError).

Inductive Signal : Type := SIGTERM | SIGKILL.
#[export] Instance Signal_eq_dec : EqDecision Signal.
Proof. solve_decision. Defined.

(** [None]: ended by a signal. *)
Abbreviation ExitStatus := (option Z).
Definition display_exit_status (status : ExitStatus) : rstring :=
  match status with Some code => display_i64 code | None => lit "terminated by signal" end.

Definition is_timeout (error : IoError) : bool :=
  match io_kind error with Kind_WouldBlock | Kind_TimedOut => true | _ => false end.

(** [CodexProviderSourceError::runtime] *)
Definition source_runtime (operation : string) (error : IoError) : CodexProviderSourceError :=
  Source_Runtime operation (io_text error).

(** ** The diagnostics of the app server *)

Definition STDERR_LIMIT : N := 65536.

(** [buffer.push_back] after making room. *)
Definition push_byte (buffer : list Byte.byte) (byte : Byte.byte) : list Byte.byte :=
  (if (N.of_nat (length buffer) =? STDERR_LIMIT)%N then tail buffer else buffer) ++ [byte].

(** What is in the buffer after the reads of [capture_stderr]. *)
Fixpoint capture_stderr (reads : list (result rstring (list Byte.byte))) (buffer : list Byte.byte) : list Byte.byte :=
  match reads with
  | [] => buffer
  | Ok [] :: _ | Err _ :: _ => buffer
  | Ok chunk :: reads' => capture_stderr reads' (foldl push_byte buffer chunk)
  end.

(** [String::from_utf8_lossy]: every maximal part of a character that is not
    completed becomes U+FFFD. *)
Definition second_ok (b0 b1 : N) : bool :=
  (if b0 =? 224 then (160 <=? b1) && (b1 <=? 191)
   else if b0 =? 237 then (128 <=? b1) && (b1 <=? 159)
   else if b0 =? 240 then (144 <=? b1) && (b1 <=? 191)
   else if b0 =? 244 then (128 <=? b1) && (b1 <=? 143)
   else continuation b1)%N.

Fixpoint utf8_lossy (l : list N) : rstring :=
  match l with
  | [] => []
  | (b0 :: l0)%N =>
      if (b0 <? 128)%N then b0 :: utf8_lossy l0
      else if ((194 <=? b0) && (b0 <=? 223))%N then
        match l0 with
        | b1 :: l1 => if continuation b1 then ((b0 - 192) * 64 + (b1 - 128))%N :: utf8_lossy l1 else 65533%N :: utf8_lossy l0
        | [] => [65533%N]
        end
      else if ((224 <=? b0) && (b0 <=? 239))%N then
        match l0 with
        | b1 :: l1 =>
            if negb (second_ok b0 b1) then 65533%N :: utf8_lossy l0
            else match l1 with
                 | b2 :: l2 =>
                     if continuation b2 then ((b0 - 224) * 4096 + (b1 - 128) * 64 + (b2 - 128))%N :: utf8_lossy l2
                     else 65533%N :: utf8_lossy l1
                 | [] => [65533%N]
                 end
        | [] => [65533%N]
        end
      else if ((240 <=? b0) && (b0 <=? 244))%N then
        match l0 with
        | b1 :: l1 =>
            if negb (second_ok b0 b1) then 65533%N :: utf8_lossy l0
            else match l1 with
                 | b2 :: l2 =>
                     if negb (continuation b2) then 65533%N :: utf8_lossy l1
                     else match l2 with
                          | b3 :: l3 =>
                              if continuation b3
                              then ((b0 - 240) * 262144 + (b1 - 128) * 4096 + (b2 - 128) * 64 + (b3 - 128))%N :: utf8_lossy l3
                              else 65533%N :: utf8_lossy l2
                          | [] => [65533%N]
                          end
                 | [] => [65533%N]
                 end
        | [] => [65533%N]
        end
      else 65533%N :: utf8_lossy l0
  end.

(** [stderr_snapshot] of a buffer. *)
Definition stderr_text (buffer : list Byte.byte) : rstring := trim (utf8_lossy (Byte.to_N <$> buffer)).

(** ** The version of Codex *)

(** [semver::Version]; [version_display] is its text. *)
Record Version : Type := MkVersion { major : N; minor : N; patch : N; version_display : rstring }.

Inductive CodexCliCompatibility : Type := Verified | UnverifiedVersion (version : Version).

Definition BEST_EFFORT_CODEX_CLI_FLOOR : N * N * N := (0, 153, 0)%N.

(** The order of tuples. *)
Definition core_ltb (a b : N * N * N) : bool :=
  let '(a1, a2, a3) := a in let '(b1, b2, b3) := b in
  ((a1 <? b1) || ((a1 =? b1) && ((a2 <? b2) || ((a2 =? b2) && (a3 <? b3)))))%N.

Definition version_mismatch (actual : rstring) : CodexProviderSourceError :=
  Source_VersionMismatch SUPPORTED_CODEX_CLI_VERSION_REQUIREMENT actual.

Definition classify_codex_version (semver_parse : rstring → option Version) (actual : rstring) :
    result CodexProviderSourceError CodexCliCompatibility :=
  version_text ← ok_or (version_mismatch actual) (strip_prefix (lit "codex-cli ") actual);
  if bool_decide (version_text ∈ SUPPORTED_CODEX_CLI_VERSIONS) then Ok Verified
  else
    version ← ok_or (version_mismatch actual) (semver_parse version_text);
    if core_ltb BEST_EFFORT_CODEX_CLI_FLOOR (major version, minor version, patch version)
    then Ok (UnverifiedVersion version) else Err (version_mismatch actual).

(** ** Files *)

(** [Path::components] of an absolute path. *)
Fixpoint components_from (current : list N) (path : PathBuf) : Path :=
  let emit rest := if is_empty current || bool_decide (current = lit ".") then rest else current :: rest in
  match path with
  | [] => emit []
  | b :: path' =>
      if bool_decide (b = separator) then emit (components_from [] path')
      else components_from (current ++ [Byte.to_N b]) path'
  end.
Definition components (path : PathBuf) : Path := components_from [] path.

(** What [Command::output] returns: the exit status, its text, and the standard output. *)
Record ProbeOutput : Type := MkProbe { probe_success : bool; probe_status : rstring; probe_stdout : list Byte.byte }.

(** A step of a WebSocket handshake on a socket that does not block. *)
Inductive HandshakeStep : Type := Handshake_Done | Handshake_Failure (error : rstring) | Handshake_Interrupted.

(** The clock, the processes, the sockets and the libraries.  [others_act]: what
    the app server and other programs did to the files since the last call;
    [stderr_reads]: what was read so far from the standard error; a spawned child
    is its process id and whether its standard error is a pipe. *)
Class RuntimeEnvironment : Type := {
  rt_now : nat → N;
  version_output : nat → result IoError ProbeOutput;
  utf8_error_text : list Byte.byte → rstring;
  semver_parse : rstring → option Version;
  spawn_app_server : nat → result IoError (N * bool);
  spawn_stderr_thread : nat → result IoError unit;
  child_status : nat → result IoError (option ExitStatus);
  child_wait : nat → result IoError ExitStatus;
  send_signal : nat → result Errno unit;
  stderr_reads : nat → list (result rstring (list Byte.byte));
  stderr_finished : nat → bool;
  socket_connect : nat → result IoError unit;
  socket_option : nat → result IoError unit;
  websocket_handshake : nat → result rstring unit;
  handshake_step : nat → HandshakeStep;
  socket_bind : nat → result IoError unit;
  others_act : nat → gmap Path FsEntry → gmap Path FsEntry
}.

(** ** The runtime *)

(** [child]: which of the launches it was. *)
Record ManagedProcess : Type := MkProcess {
  child : nat;
  child_id : N;
  process_group : option Z;
  stderr_thread : bool
}.

(** [signals]: those sent, oldest first; [launched] and [reaped]: how many
    children were spawned, and those waited for; [created] and [removed]: how often the runtime
    directory was created and removed by this runtime. *)
Record RuntimeWorld : Type := MkRuntime {
  rt_process : option ManagedProcess;
  owns_runtime_directory : bool;
  rt_disk : Disk;
  rt_asked : nat;
  signals : list (Z * Signal);
  launched : nat;
  reaped : list nat;
  created : nat;
  removed : nat
}.

Definition set_process v w : RuntimeWorld :=
  MkRuntime v (owns_runtime_directory w) (rt_disk w) (rt_asked w) (signals w) (launched w) (reaped w) (created w) (removed w).
Definition set_owns v w : RuntimeWorld :=
  MkRuntime (rt_process w) v (rt_disk w) (rt_asked w) (signals w) (launched w) (reaped w) (created w) (removed w).
Definition set_disk v w : RuntimeWorld :=
  MkRuntime (rt_process w) (owns_runtime_directory w) v (rt_asked w) (signals w) (launched w) (reaped w) (created w) (removed w).
Definition set_rt_asked v w : RuntimeWorld :=
  MkRuntime (rt_process w) (owns_runtime_directory w) (rt_disk w) v (signals w) (launched w) (reaped w) (created w) (removed w).
Definition log_signal v w : RuntimeWorld :=
  MkRuntime (rt_process w) (owns_runtime_directory w) (rt_disk w) (rt_asked w) (signals w ++ [v]) (launched w) (reaped w) (created w) (removed w).
Definition log_launched w : RuntimeWorld :=
  MkRuntime (rt_process w) (owns_runtime_directory w) (rt_disk w) (rt_asked w) (signals w) (1 + launched w) (reaped w) (created w) (removed w).
Definition log_reaped v w : RuntimeWorld :=
  MkRuntime (rt_process w) (owns_runtime_directory w) (rt_disk w) (rt_asked w) (signals w) (launched w) (reaped w ++ [v]) (created w) (removed w).
Definition log_directory c r w : RuntimeWorld :=
  MkRuntime (rt_process w) (owns_runtime_directory w) (rt_disk w) (rt_asked w) (signals w) (launched w) (reaped w) (created w + c) (removed w + r).

(** [ManagedCodexRuntime::default] *)
Definition runtime_new (d : Disk) : RuntimeWorld := MkRuntime None false d 0 [] 0 [] 0 0.

Section process.
Context `{Externals} `{!RuntimeEnvironment} `{!DiskFaults}.
Implicit Types (w : RuntimeWorld) (config : CodexProviderConfig).

Abbreviation managing A := (act RuntimeWorld SourceStop A).

Definition query {A} (f : nat → A) : managing A := λ w, (set_rt_asked (1 + rt_asked w) w, Ok (f (rt_asked w))).
Definition managed {A} (r : result CodexProviderSourceError A) : managing A := lift (map_err Start_Error r).

(** A call on the files, after what others did to them. *)
Definition on_files {A} (f : gmap Path FsEntry → gmap Path FsEntry * result IoError A) : managing (result IoError A) := λ w,
  let d := rt_disk w in
  let seen := others_act (rt_asked w) (entries d) in
  let w' := set_rt_asked (1 + rt_asked w) w in
  match fault (io_count d) with
  | Some e => (set_disk (MkDisk seen (1 + io_count d)) w', Ok (Err (MkIoError Kind_Other e)))
  | None => let '(m, r) := f seen in (set_disk (MkDisk m (1 + io_count d)) w', Ok r)
  end.

Definition kind_other (e : rstring) : IoError := MkIoError Kind_Other e.

Definition mkdir_all (path : Path) : managing (result IoError unit) :=
  on_files (λ m, let '(m', r) := create_prefixes [] path m in (m', map_err kind_other r)).

(** [fs::create_dir] *)
Definition create_dir (path : Path) : managing (result IoError unit) := on_files (λ m,
  match m !! path with
  | Some _ => (m, Err (MkIoError Kind_AlreadyExists (lit "already exists")))
  | None =>
      match m !! removelast path with
      | Some (Fs_Dir _) => (<[path := Fs_Dir new_dir_mode]> m, Ok ())
      | Some _ => (m, Err (kind_other not_permitted))
      | None => (m, Err (MkIoError Kind_NotFound not_found))
      end
  end).

Definition chmod (path : Path) (mode : N) : managing (result IoError unit) := on_files (λ m,
  match m !! path with
  | Some (Fs_File content _) => (<[path := Fs_File content mode]> m, Ok ())
  | Some (Fs_Dir _) => (<[path := Fs_Dir mode]> m, Ok ())
  | Some Fs_Other => (m, Ok ())
  | None => (m, Err (MkIoError Kind_NotFound not_found))
  end).

(** [Path::exists] *)
Definition path_exists (path : Path) : managing bool :=
  r ← on_files (λ m, (m, ok_or (MkIoError Kind_NotFound not_found) (m !! path)));
  mret (is_ok r).

Definition unlink (path : Path) : managing (result IoError unit) := on_files (λ m,
  match m !! path with
  | Some (Fs_Dir _) => (m, Err (kind_other not_permitted))
  | Some _ => (delete path m, Ok ())
  | None => (m, Err (MkIoError Kind_NotFound not_found))
  end).

(** Something is in a directory. *)
Definition occupied (path : Path) (m : gmap Path FsEntry) : bool :=
  existsb (λ p, bool_decide (p ≠ []) && bool_decide (removelast p = path)) (elements (dom m)).

(** [fs::remove_dir] *)
Definition remove_dir (path : Path) : managing (result IoError unit) := on_files (λ m,
  match m !! path with
  | Some (Fs_Dir _) => if occupied path m then (m, Err (kind_other (lit "directory not empty"))) else (delete path m, Ok ())
  | Some _ => (m, Err (kind_other not_permitted))
  | None => (m, Err (MkIoError Kind_NotFound not_found))
  end).

(** ** Processes *)

(** [nix::sys::signal::kill] *)
Definition kill_pid (target : Z) (signal : Signal) : managing (result Errno unit) :=
  _ ← modify (log_signal (target, signal));
  query send_signal.

Definition gone_is_ok (r : result Errno unit) : result IoError unit :=
  match r with Ok _ | Err ESRCH => Ok () | Err (Errno_Io error) => Err error end.

(** [i32::try_from] of a process id. *)
Definition pid_i32 (pid : N) : option Z := if (pid <? 2 ^ 31)%N then Some (Z.of_N pid) else None.

(** [Child::kill] and [Child::wait] *)
Definition child_kill (p : ManagedProcess) : managing (result IoError unit) :=
  r ← kill_pid (Z.of_N (child_id p)) SIGKILL; mret (gone_is_ok r).
Definition process_wait (p : ManagedProcess) : managing (result IoError ExitStatus) :=
  r ← query child_wait;
  _ ← match r with Ok _ => modify (log_reaped (child p)) | Err _ => mret () end;
  mret r.
Definition try_wait (p : ManagedProcess) : managing (result IoError (option ExitStatus)) :=
  r ← query child_status;
  _ ← match r with Ok (Some _) => modify (log_reaped (child p)) | _ => mret () end;
  mret r.

(** The child is killed when its standard error cannot be read. *)
Definition discard_child (p : ManagedProcess) (error : CodexProviderSourceError) : managing ManagedProcess :=
  _ ← child_kill p; _ ← process_wait p; managed (Err error).

Definition new_with_process_group (number : nat) (pid : N) (piped : bool) (group : option Z) : managing ManagedProcess :=
  let p := MkProcess number pid group false in
  if negb piped then discard_child p (Source_Runtime "stderr capture" (lit "stderr pipe was unavailable"))
  else
    reader ← query spawn_stderr_thread;
    match reader with
    | Err error => discard_child p (source_runtime "stderr reader thread spawn" error)
    | Ok _ => mret (MkProcess number pid group true)
    end.

Definition new_in_own_process_group (number : nat) (pid : N) (piped : bool) : managing ManagedProcess :=
  group ← managed (ok_or (Source_Runtime "process group capture" (lit "child PID exceeds the supported process-group range"))
                     (pid_i32 pid));
  new_with_process_group number pid piped (Some group).

Definition terminate (p : ManagedProcess) : managing (result IoError unit) :=
  match pid_i32 (child_id p) with
  | None => mret (Err (MkIoError Kind_InvalidInput (lit "child PID exceeds i32")))
  | Some pid =>
      r ← kill_pid (match process_group p with Some group => (- group)%Z | None => pid end) SIGTERM;
      mret (gone_is_ok r)
  end.

Definition process_kill (p : ManagedProcess) : managing (result IoError unit) :=
  match process_group p with
  | Some group => r ← kill_pid (- group)%Z SIGKILL; mret (gone_is_ok r)
  | None => child_kill p
  end.

Definition kill_remaining_process_group (p : ManagedProcess) : managing (result IoError unit) :=
  match process_group p with
  | None => mret (Ok ())
  | Some group => r ← kill_pid (- group)%Z SIGKILL; mret (gone_is_ok r)
  end.

Definition stderr_snapshot : managing rstring :=
  reads ← query stderr_reads; mret (stderr_text (capture_stderr reads [])).

(** The thread is joined if it has finished, and detached otherwise. *)
Definition join_stderr (p : ManagedProcess) : managing ManagedProcess :=
  _ ← query stderr_finished; mret (MkProcess (child p) (child_id p) (process_group p) false).

(** ** Start *)

Definition verify_codex_version config : managing CodexCliCompatibility :=
  _ ← managed (map_err (Source_Runtime "executable resolution") (resolve_codex_executable (codex_executable config)));
  output ← query version_output;
  output ← managed (map_err (λ e, Source_VersionProbe (io_text e)) output);
  if negb (probe_success output) then managed (Err (Source_VersionProbe (lit "process exited with " ++ probe_status output)))
  else
    text ← managed (ok_or (Source_VersionProbe (lit "stdout was not UTF-8: " ++ utf8_error_text (probe_stdout output)))
                      (from_utf8 (probe_stdout output)));
    managed (classify_codex_version semver_parse (trim text)).

(** The directory is created, or belongs to something else. *)
Definition claim_directory config : managing unit :=
  made ← create_dir (components (runtime_directory config));
  match made with
  | Ok _ => modify (λ w, log_directory 1 0 (set_owns true w))
  | Err error =>
      match io_kind error with
      | Kind_AlreadyExists =>
          managed (Err (Source_RuntimePathOccupied (utf8_lossy (Byte.to_N <$> runtime_directory config))))
      | _ => managed (Err (source_runtime "private directory creation" error))
      end
  end.

Definition launch config : managing unit :=
  _ ← managed (map_err (Source_Runtime "executable resolution") (resolve_codex_executable (codex_executable config)));
  number ← gets launched;
  child ← query spawn_app_server;
  child ← managed (map_err (source_runtime "process launch") child);
  _ ← modify log_launched;
  process ← new_in_own_process_group number child.1 child.2;
  modify (set_process (Some process)).

Definition check_exited : managing unit :=
  w ← gets (λ w, w);
  match rt_process w with
  | None => mret ()
  | Some process =>
      status ← try_wait process;
      match status with
      | Ok (Some status) =>
          stderr ← stderr_snapshot;
          managed (Err (Source_ProcessExited (display_exit_status status) stderr))
      | Ok None => mret ()
      | Err error => managed (Err (source_runtime "process status" error))
      end
  end.

(** [true]: the connection is made; [false]: the server does not listen yet. *)
Definition connect_socket : managing bool :=
  connected ← query socket_connect;
  match connected with
  | Ok _ =>
      read ← query socket_option;
      _ ← managed (map_err (source_runtime "socket read timeout") read);
      write ← query socket_option;
      _ ← managed (map_err (source_runtime "socket write timeout") write);
      handshake ← query websocket_handshake;
      _ ← managed (map_err (λ e, Source_Transport (lit "Unix WebSocket handshake failed: " ++ e)) handshake);
      mret true
  | Err error =>
      match io_kind error with
      | Kind_ConnectionRefused | Kind_NotFound => mret false
      | _ => managed (Err (source_runtime "socket connection" error))
      end
  end.

Fixpoint await_socket (fuel : nat) config (deadline : N) : managing unit :=
  match fuel with
  | O => throw Start_Waiting
  | S fuel' =>
      _ ← check_exited;
      present ← path_exists (components (socket_path config));
      ready ← (if (present : bool) then connect_socket else mret false);
      if (ready : bool) then mret ()
      else
        now ← query rt_now;
        if (deadline <=? now)%N then managed (Err (Source_StartupTimeout (config_startup_timeout config)))
        else await_socket fuel' config deadline
  end.

Definition runtime_launch (fuel : nat) config : managing unit :=
  _ ← verify_codex_version config;
  root ← mkdir_all (components (runtime_root config));
  _ ← managed (map_err (source_runtime "root creation") root);
  _ ← claim_directory config;
  private ← chmod (components (runtime_directory config)) private_dir_mode;
  _ ← managed (map_err (source_runtime "private directory permissions") private);
  _ ← launch config;
  now ← query rt_now;
  await_socket fuel config (now + config_startup_timeout config)%N.

(** ** Stop *)

(** A failure becomes a line of the summary; [InvalidInput] means there is nothing to signal. *)
Definition failure (what : string) (r : result IoError unit) : list rstring :=
  match r with Ok _ => [] | Err error => [lit what ++ lit ": " ++ io_text error] end.
Definition signal_failure (what : string) (r : result IoError unit) : list rstring :=
  match r with
  | Err error => if bool_decide (io_kind error = Kind_InvalidInput) then [] else failure what r
  | Ok _ => []
  end.

Fixpoint await_exit (fuel : nat) (p : ManagedProcess) (deadline : N) : managing (bool * list rstring) :=
  match fuel with
  | O => throw Start_Waiting
  | S fuel' =>
      now ← query rt_now;
      if negb (now <? deadline)%N then mret (false, [])
      else
        status ← try_wait p;
        match status with
        | Ok (Some _) => mret (true, [])
        | Ok None => await_exit fuel' p deadline
        | Err error => mret (false, [lit "process status: " ++ io_text error])
        end
  end.

Definition stop_process (fuel : nat) config (p : ManagedProcess) : managing (list rstring) :=
  terminated ← terminate p;
  now ← query rt_now;
  '(exited, status) ← await_exit fuel p (now + shutdown_timeout config)%N;
  rest ← (if (exited : bool) then
            remaining ← kill_remaining_process_group p;
            mret (signal_failure "remaining process group termination" remaining)
          else
            killed ← process_kill p;
            waited ← process_wait p;
            mret (signal_failure "process termination" killed
                  ++ match waited with Ok _ => [] | Err error => [lit "process wait: " ++ io_text error] end));
  _ ← join_stderr p;
  mret (signal_failure "process termination request" terminated ++ status ++ rest).

Definition remove_directory config : managing (list rstring) :=
  present ← path_exists (components (socket_path config));
  socket ← (if (present : bool) then r ← unlink (components (socket_path config)); mret (failure "socket removal" r) else mret []);
  gone ← remove_dir (components (runtime_directory config));
  directory ← match gone with
    | Ok _ => _ ← modify (λ w, log_directory 0 1 (set_owns false w)); mret []
    | Err error =>
        if bool_decide (io_kind error = Kind_NotFound) then mret []
        else mret [lit "private directory removal: " ++ io_text error]
    end;
  mret (socket ++ directory).

Definition runtime_halt (fuel : nat) config : managing unit :=
  w ← gets (λ w, w);
  processes ← match rt_process w with
    | Some p => _ ← modify (set_process None); stop_process fuel config p
    | None => mret []
    end;
  w ← gets (λ w, w);
  files ← (if owns_runtime_directory w then remove_directory config else mret []);
  let failures := processes ++ files in
  if is_empty failures then mret () else managed (Err (Source_Shutdown (join (lit "; ") failures))).

(** ** Local connections (runtime/transport.rs) *)

(** The socket appears as a file that only its owner can use. *)
Definition bind_proxy_socket config : managing unit :=
  let path := components (proxy_socket_path config) in
  answer ← query socket_bind;
  _ ← managed (map_err (source_runtime "client proxy bind") answer);
  bound ← on_files (λ m, match m !! path with
    | Some _ => (m, Err (kind_other (lit "address in use")))
    | None => (<[path := Fs_Other]> m, Ok ())
    end);
  _ ← managed (map_err (source_runtime "client proxy bind") bound);
  private ← chmod path private_file_mode;
  match private with
  | Ok _ => mret ()
  | Err error => _ ← unlink path; managed (Err (source_runtime "client proxy permissions" error))
  end.

Definition cleanup_proxy_socket config : managing (result IoError unit) :=
  r ← unlink (components (proxy_socket_path config));
  mret (match r with
        | Ok _ => Ok ()
        | Err error => if bool_decide (io_kind error = Kind_NotFound) then Ok () else Err error
        end).

Fixpoint drive_handshake (fuel : nat) (deadline : N) : managing (result rstring unit) :=
  match fuel with
  | O => throw Start_Waiting
  | S fuel' =>
      step ← query handshake_step;
      match step with
      | Handshake_Done => mret (Ok ())
      | Handshake_Failure error => mret (Err error)
      | Handshake_Interrupted =>
          now ← query rt_now;
          if (deadline <=? now)%N then mret (Err (lit "WebSocket handshake timed out"))
          else drive_handshake fuel' deadline
      end
  end.

Definition drive_handshake_within (fuel : nat) (timeout : N) : managing (result rstring unit) :=
  now ← query rt_now; drive_handshake fuel (now + timeout)%N.

(** A connection of the proxy to the app server. *)
Definition transport_connect (fuel : nat) (timeout : N) : managing unit :=
  stream ← query socket_connect;
  _ ← managed (map_err (source_runtime "App Server connection") stream);
  read ← query socket_option;
  _ ← managed (map_err (source_runtime "App Server I/O timeout") read);
  write ← query socket_option;
  _ ← managed (map_err (source_runtime "App Server I/O timeout") write);
  nonblocking ← query socket_option;
  _ ← managed (map_err (source_runtime "handshake nonblocking mode") nonblocking);
  handshake ← drive_handshake_within fuel timeout;
  _ ← managed (map_err (λ e, Source_Transport (lit "App Server WebSocket handshake failed: " ++ e)) handshake);
  blocking ← query socket_option;
  managed (map_err (source_runtime "App Server blocking mode") blocking).

(** A client of the proxy is accepted; the handshake may take two seconds. *)
Definition accept_proxy (fuel : nat) : managing (result rstring unit) :=
  nonblocking ← query socket_option;
  match nonblocking with
  | Err error => mret (Err (io_text error))
  | Ok _ =>
      handshake ← drive_handshake_within fuel (seconds 2);
      match handshake with
      | Err error => mret (Err error)
      | Ok _ => blocking ← query socket_option; mret (map_err io_text blocking)
      end
  end.

Definition configure_proxy_stream : managing unit :=
  read ← query socket_option;
  _ ← managed (map_err (source_runtime "proxy socket read timeout") read);
  write ← query socket_option;
  managed (map_err (source_runtime "proxy socket write timeout") write).
End process.

(** ** The connection to the app server *)

Inductive IoMessage : Type :=
| Msg_Text (text : rstring)
| Msg_Binary
| Msg_Ping (payload : list Byte.byte)
| Msg_Pong (payload : list Byte.byte)
| Msg_Close
| Msg_Frame.
Inductive SocketError : Type := Sock_Io (error : IoError) | Sock_Closed | Sock_Failed (text : rstring).

(** What arrives, what was sent, and how many operations were performed. *)
Record LocalWebSocketIo : Type := MkLocalIo {
  io_incoming : list (result SocketError IoMessage);
  io_sent : list IoMessage;
  io_operations : nat
}.

Section local_io.
(** The answers to the operations that send. *)
Context (io_answer : nat → result SocketError unit).

Definition socket_error_text (error : SocketError) : rstring :=
  match error with Sock_Io e => io_text e | Sock_Closed => lit "connection closed" | Sock_Failed text => text end.

Definition io_send (message : IoMessage) (s : LocalWebSocketIo) : LocalWebSocketIo * result CodexProviderSourceError unit :=
  match io_answer (io_operations s) with
  | Ok _ => (MkLocalIo (io_incoming s) (io_sent s ++ [message]) (1 + io_operations s), Ok ())
  | Err error => (MkLocalIo (io_incoming s) (io_sent s) (1 + io_operations s), Err (Source_Transport (socket_error_text error)))
  end.

Definition io_write_text (text : rstring) : LocalWebSocketIo → LocalWebSocketIo * result CodexProviderSourceError unit :=
  io_send (Msg_Text text).

(** The loop of [read]; the socket has a read timeout, so that a read with
    nothing arriving returns. *)
Fixpoint io_read_from (incoming : list (result SocketError IoMessage)) (s : LocalWebSocketIo) :
    LocalWebSocketIo * result CodexProviderSourceError ReadOutcome :=
  match incoming with
  | [] => (MkLocalIo [] (io_sent s) (io_operations s), Ok Io_Timeout)
  | event :: rest =>
      let s' := MkLocalIo rest (io_sent s) (io_operations s) in
      match event with
      | Ok (Msg_Text text) => (s', Ok (Io_Text text))
      | Ok (Msg_Ping payload) =>
          match io_send (Msg_Pong payload) s' with
          | (s'', Ok _) => io_read_from rest s''
          | (s'', Err error) => (s'', Err error)
          end
      | Ok (Msg_Pong _) | Ok Msg_Frame => io_read_from rest s'
      | Ok Msg_Close => (s', Ok Io_Closed)
      | Ok Msg_Binary => (s', Err (source_protocol "binary App Server frames are unsupported"))
      | Err (Sock_Io error) =>
          if is_timeout error then (s', Ok Io_Timeout) else (s', Err (Source_Transport (io_text error)))
      | Err Sock_Closed => (s', Ok Io_Closed)
      | Err (Sock_Failed text) => (s', Err (Source_Transport text))
      end
  end.
Definition io_read (s : LocalWebSocketIo) : LocalWebSocketIo * result CodexProviderSourceError ReadOutcome :=
  io_read_from (io_incoming s) s.

Definition io_close (s : LocalWebSocketIo) : LocalWebSocketIo * result CodexProviderSourceError unit :=
  match io_answer (io_operations s) with
  | Ok _ => (MkLocalIo (io_incoming s) (io_sent s ++ [Msg_Close]) (1 + io_operations s), Ok ())
  | Err Sock_Closed => (MkLocalIo (io_incoming s) (io_sent s) (1 + io_operations s), Ok ())
  | Err error => (MkLocalIo (io_incoming s) (io_sent s) (1 + io_operations s), Err (Source_Transport (socket_error_text error)))
  end.
End local_io.
