(* ===== verification/CodexProcessSpec.v ===== *)
(** * The managed app server: correctness

    What the diagnostics keep, which versions are accepted, that every child is
    waited for and every process group is killed, that the directory of the
    runtime is removed by whoever created it, and that starting and stopping
    end. *)

From stdpp Require Import base strings numbers sorting gmap list.
From S2P Require Import Prelude Fuel Bytes Json Values Snapshots Capability Interaction Event Dto Net Platform.
From S2P Require Import CodexMapper CodexProtocol CodexApproval CodexInteractions CodexControl CodexWorker CodexSource CodexConfig CodexProcess.

(** ** Diagnostics *)

(** The last [n] elements. *)
Definition last_n {A} (n : nat) (l : list A) : list A := drop (length l - n) l.

(** The chunks before the end of the stream. *)
Fixpoint chunks (reads : list (result rstring (list Byte.byte))) : list Byte.byte :=
  match reads with
  | [] | Ok [] :: _ | Err _ :: _ => []
  | Ok chunk :: reads' => chunk ++ chunks reads'
  end.

Abbreviation limit := (N.to_nat STDERR_LIMIT).

Lemma push_byte_last buffer byte : push_byte (last_n limit buffer) byte = last_n limit (buffer ++ [byte]).
Proof.
  unfold push_byte, last_n. rewrite length_drop, length_app. cbn [length].
  assert (1 ≤ limit) as Hl by (unfold STDERR_LIMIT; lia).
  destruct (N.eqb_spec (N.of_nat (length buffer - (length buffer - limit))) STDERR_LIMIT) as [Hn|Hn].
  - assert (limit ≤ length buffer) as Hle by lia.
    replace (length buffer + 1 - limit) with (S (length buffer - limit)) by lia.
    rewrite drop_app_le by lia. f_equal. change (tail ?l) with (drop 1 l). rewrite drop_drop. f_equal. lia.
  - assert (length buffer < limit) by lia. replace (length buffer - limit) with 0 by lia.
    by replace (length buffer + 1 - limit) with 0 by lia.
Qed.

Lemma push_bytes_last buffer chunk : foldl push_byte (last_n limit buffer) chunk = last_n limit (buffer ++ chunk).
Proof.
  revert buffer. induction chunk as [|b chunk IH]; intros buffer; [by rewrite app_nil_r|].
  cbn [foldl]. by rewrite push_byte_last, IH, <-app_assoc.
Qed.

(** The buffer holds the last 64 KiB of what was read. *)
Lemma capture_last reads : capture_stderr reads [] = last_n limit (chunks reads).
Proof.
  assert (∀ buffer, capture_stderr reads (last_n limit buffer) = last_n limit (buffer ++ chunks reads)) as Hall; [|apply (Hall [])].
  induction reads as [|[[|b chunk]|e] reads IH]; intros buffer; cbn [capture_stderr chunks]; [by rewrite app_nil_r..| |by rewrite app_nil_r].
  by rewrite push_bytes_last, IH, app_assoc.
Qed.
Lemma length_last_n {A} n (l : list A) : length (last_n n l) = min n (length l).
Proof. unfold last_n. rewrite length_drop. lia. Qed.

(** Valid UTF-8 is kept. *)
Lemma utf8_lossy_valid l s : utf8_decode l = Some s → utf8_lossy l = s.
Proof.
  revert s. induction l as [l IH] using (induction_ltof1 _ length). unfold ltof in IH. intros s.
  assert (∀ c l1, length l1 < length l → cons c <$> utf8_decode l1 = Some s → c :: utf8_lossy l1 = s) as Hstep.
  { intros c l1 Hl (s1 & E & ->)%fmap_Some. f_equal. by apply IH. }
  destruct l as [|b0 l0]; [by intros [= <-]|]. cbn [utf8_decode utf8_lossy].
  destruct (b0 <? 128)%N; [by apply Hstep; simpl; lia|].
  destruct ((194 <=? b0) && (b0 <=? 223))%N; [destruct l0 as [|b1 l1]; [done|]; destruct (continuation b1); [|done]; apply Hstep; simpl; lia|].
  destruct ((224 <=? b0) && (b0 <=? 239))%N eqn:E3.
  { destruct l0 as [|b1 [|b2 l2]]; [done..|]. destruct (_ && _ && _ && _) eqn:E; [|done].
    rewrite !andb_true_iff, negb_true_iff, andb_false_iff, N.leb_le, !N.leb_gt in E. destruct E as [[[E1 E2] Ec] Es].
    unfold continuation in E1. rewrite andb_true_iff, !N.leb_le in E1, E3.
    pose proof E2 as E2'. unfold continuation in E2'. rewrite andb_true_iff, !N.leb_le in E2'.
    assert (second_ok b0 b1 = true) as ->.
    { unfold second_ok, continuation. repeat case_match; rewrite ?N.eqb_eq, ?N.eqb_neq in *; subst; rewrite andb_true_iff, !N.leb_le; lia. }
    rewrite E2. apply Hstep. simpl; lia. }
  destruct ((240 <=? b0) && (b0 <=? 244))%N eqn:E4; [|done].
  destruct l0 as [|b1 [|b2 [|b3 l3]]]; [done..|]. destruct (_ && _ && _ && _ && _) eqn:E; [|done].
  rewrite !andb_true_iff, !N.leb_le in E. destruct E as [[[[E1 E2] E2'] Ec] Es].
  pose proof E1 as E1'. unfold continuation in E1'. rewrite andb_true_iff, !N.leb_le in E1', E4.
  pose proof E2 as E2''. unfold continuation in E2''. rewrite andb_true_iff, !N.leb_le in E2''.
  pose proof E2' as E3'. unfold continuation in E3'. rewrite andb_true_iff, !N.leb_le in E3'.
  assert (second_ok b0 b1 = true) as ->.
  { unfold second_ok, continuation. repeat case_match; rewrite ?N.eqb_eq, ?N.eqb_neq in *; subst; rewrite andb_true_iff, !N.leb_le; lia. }
  rewrite E2, E2'. apply Hstep. simpl; lia.
Qed.

(** ** Versions *)

Lemma strip_prefix_Some p s t : strip_prefix p s = Some t ↔ s = p ++ t.
Proof.
  revert s. induction p as [|c p IH]; intros s; cbn [strip_prefix].
  - destruct s; naive_solver.
  - destruct s as [|d s]; [naive_solver|]. destruct (N.eqb_spec c d) as [->|Hn]; [rewrite IH|]; naive_solver.
Qed.

(** The verified versions, and every later one than 0.153.0 that parses. *)
Lemma classify_spec parse actual :
  match classify_codex_version parse actual with
  | Ok Verified => ∃ text, actual = lit "codex-cli " ++ text ∧ text ∈ SUPPORTED_CODEX_CLI_VERSIONS
  | Ok (UnverifiedVersion v) =>
      ∃ text, actual = lit "codex-cli " ++ text ∧ ¬ (text ∈ SUPPORTED_CODEX_CLI_VERSIONS) ∧ parse text = Some v ∧
        core_ltb (0, 153, 0)%N (major v, minor v, patch v) = true
  | Err e =>
      e = version_mismatch actual ∧ ∀ text, actual = lit "codex-cli " ++ text → ¬ (text ∈ SUPPORTED_CODEX_CLI_VERSIONS) ∧
        ∀ v, parse text = Some v → core_ltb (0, 153, 0)%N (major v, minor v, patch v) = false
  end.
Proof.
  unfold classify_codex_version. destruct (strip_prefix (lit "codex-cli ") actual) as [text|] eqn:E.
  - apply strip_prefix_Some in E as ->. cbn [ok_or mbind result_bind]. case_bool_decide as Hs; [by exists text|].
    assert (∀ (P : rstring → Prop), P text → ∀ text', lit "codex-cli " ++ text = lit "codex-cli " ++ text' → P text') as Hinj.
    { intros P HP text' E%(inj _). by subst. }
    destruct (parse text) as [v|] eqn:Ep; cbn [ok_or mbind result_bind].
    + unfold BEST_EFFORT_CODEX_CLI_FLOOR. destruct (core_ltb _ _) eqn:Ec; [by exists text|].
      split; [done|]. apply Hinj. split; [done|]. intros v'. rewrite Ep. by intros [= <-].
    + split; [done|]. apply Hinj. split; [done|]. intros v'. by rewrite Ep.
  - split; [done|]. intros text ->. assert (strip_prefix (lit "codex-cli ") (lit "codex-cli " ++ text) = Some text) as E' by (by apply strip_prefix_Some).
    congruence.
Qed.

Section process_spec.
Context `{Externals} `{!RuntimeEnvironment} `{!DiskFaults}.
Implicit Types (w : RuntimeWorld) (config : CodexProviderConfig) (p : ManagedProcess).

Abbreviation managing A := (act RuntimeWorld SourceStop A).

(** ** What questions leave alone *)

Definition same_runtime w w' : Prop :=
  rt_process w' = rt_process w ∧ owns_runtime_directory w' = owns_runtime_directory w ∧ signals w' = signals w ∧
  launched w' = launched w ∧ reaped w' = reaped w ∧ created w' = created w ∧ removed w' = removed w.

#[local] Instance same_runtime_preorder : PreOrder same_runtime.
Proof.
  split; [by intros w|]. intros w1 w2 w3 (? & ? & ? & ? & ? & ? & ?) (? & ? & ? & ? & ? & ? & ?). split_and!; congruence.
Qed.

Definition quiet {A} (a : managing A) : Prop := ∀ w, same_runtime w (a w).1.

Lemma quiet_query {A} (f : nat → A) : quiet (query f).
Proof. by intros w. Qed.
Lemma managed_quiet_lift {A} (m : result SourceStop A) : quiet (lift m).
Proof. by intros w. Qed.
Lemma quiet_files {A} (f : gmap Path FsEntry → gmap Path FsEntry * result IoError A) : quiet (on_files f).
Proof. intros w. unfold on_files. destruct (fault _); [done|]. by destruct (f _). Qed.
Lemma managed_quiet_bind {A B} (a : managing A) (f : A → managing B) : quiet a → (∀ x, quiet (f x)) → quiet (x ← a; f x).
Proof.
  intros Ha Hf w. unfold mbind, act_bind. specialize (Ha w). destruct (a w) as [w1 [x|e]]; simpl in *; [|done].
  by transitivity w1; [|apply Hf].
Qed.
Lemma quiet_ret {A} (x : A) : quiet (mret x).
Proof. by intros w. Qed.
Create HintDb quiet.
#[local] Hint Resolve quiet_query managed_quiet_lift quiet_ret quiet_files : quiet.
Local Ltac quiet_solve :=
  repeat first [apply managed_quiet_bind; [|intros ?] | apply managed_quiet_lift | apply quiet_ret | solve [eauto with quiet] | case_match].

Lemma quiet_exists path : quiet (path_exists path).
Proof. unfold path_exists. quiet_solve. Qed.
Lemma quiet_version config : quiet (verify_codex_version config).
Proof. unfold verify_codex_version. quiet_solve. Qed.
Lemma quiet_connect : quiet connect_socket.
Proof. unfold connect_socket. quiet_solve. Qed.
Lemma quiet_snapshot : quiet stderr_snapshot.
Proof. unfold stderr_snapshot. quiet_solve. Qed.
Lemma quiet_join p : quiet (join_stderr p).
Proof. unfold join_stderr. quiet_solve. Qed.

(** A condition on what questions leave alone survives them. *)
Definition steady (P : RuntimeWorld → Prop) : Prop := ∀ w w', same_runtime w w' → P w → P w'.
Lemma triple_quiet {A} P (a : managing A) : steady P → quiet a → triple P a (λ w _, P w).
Proof. intros HP Ha w w' r Hw E. pose proof (Ha w) as Hs. rewrite E in Hs. by eapply HP. Qed.
Lemma triple_after_quiet {A B} P (a : managing A) (f : A → managing B) Q :
  steady P → quiet a → (∀ w e, P w → Q w (Err e)) → (∀ x, triple P (f x) Q) → triple P (x ← a; f x) Q.
Proof.
  intros HP Ha HQ Hf. apply (triple_bind _ (λ _, P)); [|done]. eapply triple_post; [|by apply triple_quiet]. intros w [x|e]; auto.
Qed.

(** ** Children *)

(** Every child launched was waited for, or is the current one, which leads its process group. *)
Record children_inv w : Prop := {
  children_accounted : ∀ k, k < launched w → k ∈ reaped w ∨ child <$> rt_process w = Some k;
  children_group : ∀ p, rt_process w = Some p → process_group p = Some (Z.of_N (child_id p)) ∧ (child_id p < 2 ^ 31)%N
}.

Lemma steady_children : steady children_inv.
Proof. intros w w' (Hp & _ & _ & Hl & Hr & _) [Ha Hg]. split; [by rewrite Hl, Hr, Hp|by rewrite Hp]. Qed.
Lemma steady_and P Q : steady P → steady Q → steady (λ w, P w ∧ Q w).
Proof. intros HP HQ w w' Hs [? ?]. split; [by eapply HP|by eapply HQ]. Qed.
Lemma steady_process v : steady (λ w, rt_process w = v).
Proof. intros w w' (-> & _). done. Qed.

Lemma children_reaped k w : children_inv w → children_inv (log_reaped k w).
Proof. intros [Ha Hg]. split; [|done]. intros q Hq. destruct (Ha q Hq) as [?|?]; [left|by right]. cbn. set_solver. Qed.
Lemma children_directory a b v w : children_inv w → children_inv (log_directory a b (set_owns v w)).
Proof. by intros [Ha Hg]. Qed.

Lemma triple_ret {A} P (x : A) (Q : RuntimeWorld → result SourceStop A → Prop) : (∀ w, P w → Q w (Ok x)) → triple P (mret x) Q.
Proof. intros HQ w w' r Hw E. injection E as <- <-. auto. Qed.
Lemma triple_lift {A} P (m : result SourceStop A) Q : (∀ w, P w → Q w m) → triple P (lift m) Q.
Proof. intros HQ w w' r Hw E. injection E as <- <-. auto. Qed.
Lemma triple_modify P (f : RuntimeWorld → RuntimeWorld) (Q : RuntimeWorld → result SourceStop unit → Prop) :
  (∀ w, P w → Q (f w) (Ok ())) → triple P (modify f) Q.
Proof. intros HQ w w' r Hw E. injection E as <- <-. auto. Qed.

Lemma try_wait_children p : triple children_inv (try_wait p) (λ w _, children_inv w).
Proof.
  unfold try_wait. apply triple_after_quiet; [apply steady_children|apply quiet_query|done|]. intros r.
  apply (triple_bind _ (λ _, children_inv)); [|intros _; by apply triple_ret].
  destruct r as [[status|]|e]; [|by apply triple_ret..]. apply triple_modify. intros w. apply children_reaped.
Qed.

Lemma check_exited_children : triple children_inv check_exited (λ w _, children_inv w).
Proof.
  unfold check_exited. apply (triple_bind _ (λ _, children_inv)); [by intros w w' r Hw [= <- <-]|]. intros w0.
  destruct (rt_process w0) as [p|]; [|by apply triple_ret].
  apply (triple_bind _ (λ _, children_inv)); [eapply triple_post, try_wait_children; by intros w []|].
  intros [[status|]|e]; [|by apply triple_ret|by apply triple_lift].
  apply triple_after_quiet; [apply steady_children|apply quiet_snapshot|done|]. intros text. by apply triple_lift.
Qed.

Lemma await_socket_children fuel config deadline : triple children_inv (await_socket fuel config deadline) (λ w _, children_inv w).
Proof.
  induction fuel as [|fuel IH]; cbn [await_socket]; [by intros w w' r Hw [= <- <-]|].
  apply (triple_bind _ (λ _, children_inv)); [eapply triple_post, check_exited_children; by intros w []|]. intros _.
  apply triple_after_quiet; [apply steady_children|apply quiet_exists|done|]. intros present.
  apply triple_after_quiet; [apply steady_children|destruct present; [apply quiet_connect|apply quiet_ret]|done|]. intros ready.
  destruct ready; [by apply triple_ret|].
  apply triple_after_quiet; [apply steady_children|apply quiet_query|done|]. intros now.
  destruct (deadline <=? now)%N; [by apply triple_lift|done].
Qed.

(** *** With a system that can wait for its children *)

(** Process ids are positive [pid_t] values, and waiting for a child of this process succeeds. *)
Hypothesis pids_fit : ∀ n pid piped, spawn_app_server n = Ok (pid, piped) → (pid < 2 ^ 31)%N.
Hypothesis waits : ∀ n, ∃ status, child_wait n = Ok status.

(** The [k]-th child was launched, or is about to be, and nobody waited for it yet. *)
Record launching (k : nat) w : Prop := {
  launching_accounted : ∀ j, j < launched w → j ∈ reaped w ∨ j = k;
  launching_process : rt_process w = None
}.
Lemma steady_launching k : steady (launching k).
Proof. intros w w' (Hp & _ & _ & Hl & Hr & _) [Ha Hn]. split; [by rewrite Hl, Hr|by rewrite Hp]. Qed.

Lemma discard_child_children k pid group thread error :
  triple (launching k) (discard_child (MkProcess k pid group thread) error) (λ w r, children_inv w ∧ ∃ e, r = Err (Start_Error e)).
Proof using pids_fit waits.
  intros w w' r [Ha Hn]. unfold discard_child, child_kill, process_wait, kill_pid, mbind, act_bind, query, modify, mret, act_ret. cbn.
  destruct (waits (S (rt_asked w))) as [status ->]. cbn. intros [= <- <-]. split; [|eauto]. split; cbn; [|by rewrite Hn].
  intros q Hq. left. destruct (Ha q Hq) as [?| ->]; set_solver.
Qed.

Lemma new_process_children k pid piped :
  (pid < 2 ^ 31)%N →
  triple (launching k) (new_in_own_process_group k pid piped) (λ w r,
    match r with
    | Ok p => launching k w ∧ child p = k ∧ child_id p = pid ∧ process_group p = Some (Z.of_N pid)
    | Err _ => children_inv w
    end).
Proof using pids_fit waits.
  intros Hpid. unfold new_in_own_process_group, pid_i32. destruct (N.ltb_spec pid (2 ^ 31)); [|lia].
  apply (triple_bind _ (λ group w, launching k w ∧ group = Z.of_N pid)); [by apply triple_lift|]. intros group.
  unfold new_with_process_group.
  assert (∀ error, triple (λ w, launching k w ∧ group = Z.of_N pid) (discard_child (MkProcess k pid (Some group) false) error) (λ w r,
    match r with
    | Ok p => launching k w ∧ child p = k ∧ child_id p = pid ∧ process_group p = Some (Z.of_N pid)
    | Err _ => children_inv w
    end)) as Hdiscard.
  { intros error w w' r [Hw _] E. destruct (discard_child_children k pid _ _ error w w' r Hw E) as (? & e & ->). done. }
  destruct piped; cbn [negb]; [|apply Hdiscard].
  apply (triple_bind _ (λ _ w, launching k w ∧ group = Z.of_N pid)).
  { intros w w' r [Hw Hg] [= <- <-]. split; [|done]. by eapply steady_launching; [|exact Hw]. }
  intros [[]|e]; [|apply Hdiscard]. apply triple_ret. intros w [Hw ->]. done.
Qed.

Lemma launch_children config :
  triple (λ w, children_inv w ∧ rt_process w = None) (launch config) (λ w _, children_inv w).
Proof using pids_fit waits.
  set (P := λ w, children_inv w ∧ rt_process w = None). assert (steady P) as HP by (apply steady_and; [apply steady_children|apply steady_process]).
  unfold launch. apply triple_after_quiet; [done|apply managed_quiet_lift|by intros w e []|]. intros _.
  apply (triple_bind _ (λ k w, P w ∧ launched w = k)); [by intros w w' r Hw [= <- <-]|]. intros k.
  apply (triple_bind _ (λ (child : result IoError (N * bool)) w, (P w ∧ launched w = k) ∧ ∀ pid piped, child = Ok (pid, piped) → (pid < 2 ^ 31)%N)).
  { intros w w' r [Hw Hk] [= <- <-]. split; [split; [by eapply HP; [|exact Hw]|done]|]. intros pid piped. apply pids_fit. }
  intros [[pid piped]|e]; [|by intros w w' r [[[Hw _] _] _] [= <- <-]].
  apply (triple_bind _ (λ child w, (launching k w ∧ launched w = k) ∧ child = (pid, piped) ∧ (pid < 2 ^ 31)%N)).
  { apply triple_lift. intros w [[[[Ha _] Hn] Hk] Hpid]. split; [|split; [done|by eapply Hpid]]. split; [|done]. split; [|done].
    intros q Hq. left. destruct (Ha q Hq) as [?|Hs]; [done|]. by rewrite Hn in Hs. }
  intros child. apply (triple_bind _ (λ _ w, launching k w ∧ child = (pid, piped) ∧ (pid < 2 ^ 31)%N)).
  { apply triple_modify. intros w ([[Ha Hn] Hk] & -> & Hpid). split; [|done]. split; [|done]. intros q. cbn. intros Hq.
    destruct (decide (q = k)) as [->|Hne]; [by right|]. apply Ha. lia. }
  intros _. intros w w' r (Hw & -> & Hpid). revert w w' r Hw. cbn [fst snd].
  apply (triple_bind _ (λ p w, launching k w ∧ CodexProcess.child p = k ∧ child_id p = pid ∧ process_group p = Some (Z.of_N pid))).
  { by eapply triple_post; [|by apply new_process_children]; intros w []. }
  intros p. apply triple_modify. intros w ([Ha _] & Hk & Hid & Hg). split; cbn.
  - intros q Hq. rewrite Hk. destruct (Ha q Hq) as [?| ->]; auto.
  - intros p' [= <-]. by rewrite Hid.
Qed.

Lemma runtime_launch_children fuel config :
  triple (λ w, children_inv w ∧ rt_process w = None) (runtime_launch fuel config) (λ w _, children_inv w).
Proof using pids_fit waits.
  set (P := λ w, children_inv w ∧ rt_process w = None). assert (steady P) as HP by (apply steady_and; [apply steady_children|apply steady_process]).
  assert (∀ w (e : SourceStop), P w → children_inv w) as HPe by (by intros w e []). unfold runtime_launch.
  apply triple_after_quiet; [done|apply quiet_version|done|]. intros _.
  apply triple_after_quiet; [done|apply quiet_files|done|]. intros root.
  apply triple_after_quiet; [done|apply managed_quiet_lift|done|]. intros _.
  apply (triple_bind _ (λ _, P)).
  { unfold claim_directory. apply triple_after_quiet; [done|apply quiet_files|done|].
    intros [[]|e]; [apply triple_modify; by intros w [[] ]|]. by destruct (io_kind e); apply triple_lift; intros w []. }
  intros _. apply triple_after_quiet; [done|apply quiet_files|done|]. intros private.
  apply triple_after_quiet; [done|apply managed_quiet_lift|done|]. intros _.
  apply (triple_bind _ (λ _, children_inv)); [eapply triple_post, launch_children; by intros w []|]. intros _.
  apply triple_after_quiet; [apply steady_children|apply quiet_query|done|]. intros now. apply await_socket_children.
Qed.

(** *** Stopping *)

Definition childless w : Prop := (∀ k, k < launched w → k ∈ reaped w) ∧ rt_process w = None.
Lemma childless_children w : childless w → children_inv w.
Proof. intros [Ha Hn]. split; [by left; auto|]. by rewrite Hn. Qed.
Lemma childless_launching k w : childless w → launching k w.
Proof. intros [Ha Hn]. split; [by left; auto|done]. Qed.

(** The signals sent so far, and the files owned. *)
Definition sent (log : list (Z * Signal)) (owns : bool) w : Prop := signals w = log ∧ owns_runtime_directory w = owns.
Lemma steady_sent log owns : steady (sent log owns).
Proof. intros w w' (_ & Ho & Hs & _) [? ?]. split; congruence. Qed.
Lemma steady_childless : steady childless.
Proof. intros w w' (Hp & _ & _ & Hl & Hr & _) [Ha Hn]. split; [by rewrite Hl, Hr|by rewrite Hp]. Qed.

(** A result other than running out of fuel. *)
Definition finished {A} (Q : RuntimeWorld → A → Prop) w (r : result SourceStop A) : Prop :=
  match r with Ok x => Q w x | Err Start_Waiting => True | Err _ => False end.

Lemma finished_bind {A B} P (R : A → RuntimeWorld → Prop) (Q : RuntimeWorld → B → Prop) (a : managing A) (f : A → managing B) :
  triple P a (finished (λ w x, R x w)) → (∀ x, triple (R x) (f x) (finished Q)) → triple P (x ← a; f x) (finished Q).
Proof. intros Ha. apply triple_bind. eapply triple_post, Ha. by intros w [|[]]. Qed.
Lemma finished_query {A B} P (g : nat → A) (Q : RuntimeWorld → B → Prop) (f : A → managing B) :
  steady P → (∀ x, triple P (f x) (finished Q)) → triple P (x ← query g; f x) (finished Q).
Proof. intros HP. apply finished_bind. intros w w' r Hw [= <- <-]. by eapply HP; [|exact Hw]. Qed.

Lemma kill_pid_sent k log owns target signal :
  triple (λ w, launching k w ∧ sent log owns w) (kill_pid target signal)
    (finished (λ w _, launching k w ∧ sent (log ++ [(target, signal)]) owns w)).
Proof.
  intros w w' r [[Ha Hn] [Hs Ho]] [= <- <-]. split; [by split|]. split; cbn; congruence.
Qed.

Lemma reap_childless k log owns w : launching k w → sent log owns w → childless (log_reaped k w) ∧ sent log owns (log_reaped k w).
Proof.
  intros [Ha Hn] [Hs Ho]. split; [|by split]. split; [|done]. cbn. intros j Hj. apply elem_of_app.
  destruct (Ha j Hj) as [?| ->]; [by left|right; by apply list_elem_of_singleton].
Qed.

Lemma await_exit_spec fuel p deadline log owns :
  triple (λ w, launching (child p) w ∧ sent log owns w) (await_exit fuel p deadline)
    (finished (λ w x, (if x.1 : bool then childless w else launching (child p) w) ∧ sent log owns w)).
Proof.
  assert (steady (λ w, launching (child p) w ∧ sent log owns w)) as HP by (apply steady_and; [apply steady_launching|apply steady_sent]).
  induction fuel as [|fuel IH]; cbn [await_exit]; [by intros w w' r Hw [= <- <-]|].
  apply finished_query; [done|]. intros now. destruct (now <? deadline)%N; cbn [negb]; [|by apply triple_ret].
  apply (finished_bind _ (λ (status : result IoError (option ExitStatus)) w,
    (if (match status with Ok (Some _) => true | _ => false end) then childless w else launching (child p) w) ∧ sent log owns w)).
  - unfold try_wait. apply finished_query; [done|]. intros status.
    apply (finished_bind _ (λ _ w, (if (match status with Ok (Some _) => true | _ => false end) then childless w else launching (child p) w) ∧ sent log owns w));
      [|intros _; by apply triple_ret].
    destruct status as [[status|]|e]; [|by apply triple_ret..]. apply triple_modify. intros w [Hw Hs]. by apply reap_childless.
  - intros [[status|]|e]; [by apply triple_ret|done|by apply triple_ret].
Qed.

Lemma stop_process_spec fuel config p log owns :
  process_group p = Some (Z.of_N (child_id p)) → (child_id p < 2 ^ 31)%N →
  triple (λ w, launching (child p) w ∧ sent log owns w) (stop_process fuel config p)
    (finished (λ w _, childless w ∧
       sent (log ++ [((- Z.of_N (child_id p))%Z, SIGTERM); ((- Z.of_N (child_id p))%Z, SIGKILL)]) owns w)).
Proof using pids_fit waits.
  intros Hg Hpid. unfold stop_process, terminate, pid_i32. destruct (N.ltb_spec (child_id p) (2 ^ 31)); [|lia]. rewrite Hg.
  set (group := (- Z.of_N (child_id p))%Z). set (log1 := log ++ [(group, SIGTERM)]).
  assert (log ++ [(group, SIGTERM); (group, SIGKILL)] = log1 ++ [(group, SIGKILL)]) as -> by (unfold log1; by rewrite <-app_assoc).
  apply (finished_bind _ (λ _ w, launching (child p) w ∧ sent log1 owns w)).
  { apply (finished_bind _ (λ _ w, launching (child p) w ∧ sent log1 owns w)); [apply kill_pid_sent|]. intros r. by apply triple_ret. }
  intros terminated. apply finished_query; [apply steady_and; [apply steady_launching|apply steady_sent]|]. intros now.
  apply (finished_bind _ (λ x w, (if x.1 : bool then childless w else launching (child p) w) ∧ sent log1 owns w)); [apply await_exit_spec|].
  intros [exited status].
  apply (finished_bind _ (λ _ w, childless w ∧ sent (log1 ++ [(group, SIGKILL)]) owns w)).
  - destruct exited; cbn [fst].
    + unfold kill_remaining_process_group. rewrite Hg.
      apply (finished_bind _ (λ _ w, childless w ∧ sent (log1 ++ [(group, SIGKILL)]) owns w)); [|intros r; by apply triple_ret].
      apply (finished_bind _ (λ _ w, childless w ∧ sent (log1 ++ [(group, SIGKILL)]) owns w)); [|intros r; by apply triple_ret].
      intros w w' r [Hw [Hs Ho]] [= <- <-]. split; [done|]. split; [cbn; by rewrite Hs|done].
    + unfold process_kill. rewrite Hg.
      apply (finished_bind _ (λ _ w, launching (child p) w ∧ sent (log1 ++ [(group, SIGKILL)]) owns w)).
      { apply (finished_bind _ (λ _ w, launching (child p) w ∧ sent (log1 ++ [(group, SIGKILL)]) owns w)); [apply kill_pid_sent|]. intros r. by apply triple_ret. }
      intros killed. apply (finished_bind _ (λ _ w, childless w ∧ sent (log1 ++ [(group, SIGKILL)]) owns w)); [|intros r; by apply triple_ret].
      intros w w' r [Hw Hs]. unfold process_wait, mbind, act_bind, query. destruct (waits (rt_asked w)) as [st ->]. cbn. intros E. injection E as <- <-.
      by apply reap_childless; [eapply steady_launching; [|exact Hw]|].
  - intros rest. apply (finished_bind _ (λ _ w, childless w ∧ sent (log1 ++ [(group, SIGKILL)]) owns w)); [|intros _; by apply triple_ret].
    unfold join_stderr. apply finished_query; [apply steady_and; [apply steady_childless|apply steady_sent]|]. intros done'. by apply triple_ret.
Qed.

(** What removing the files leaves alone. *)
Lemma remove_directory_spec config log :
  triple (λ w, childless w ∧ signals w = log) (remove_directory config)
    (finished (λ w _, childless w ∧ signals w = log)).
Proof.
  assert (∀ A (f : gmap Path FsEntry → gmap Path FsEntry * result IoError A),
    triple (λ w, childless w ∧ signals w = log) (on_files f) (finished (λ w _, childless w ∧ signals w = log))) as Hfiles.
  { intros A f w w' r [Hw Hs] E. unfold on_files in E. destruct (fault _); [|destruct (f _) as [m x]]; injection E as <- <-; by split. }
  assert (∀ path, triple (λ w, childless w ∧ signals w = log) (path_exists path) (finished (λ w _, childless w ∧ signals w = log))) as Hexists.
  { intros path. unfold path_exists. apply (finished_bind _ (λ _ w, childless w ∧ signals w = log)); [apply Hfiles|]. intros r. by apply triple_ret. }
  unfold remove_directory. apply (finished_bind _ (λ _ w, childless w ∧ signals w = log)); [apply Hexists|]. intros present.
  apply (finished_bind _ (λ _ w, childless w ∧ signals w = log)).
  { destruct present; [|by apply triple_ret]. apply (finished_bind _ (λ _ w, childless w ∧ signals w = log)); [apply Hfiles|]. intros r. by apply triple_ret. }
  intros socket. apply (finished_bind _ (λ _ w, childless w ∧ signals w = log)); [apply Hfiles|]. intros gone.
  apply (finished_bind _ (λ _ w, childless w ∧ signals w = log)); [|intros directory; by apply triple_ret].
  destruct gone as [[]|e]; [|case_bool_decide; by apply triple_ret].
  apply (finished_bind _ (λ _ w, childless w ∧ signals w = log)); [by apply triple_modify|]. intros _. by apply triple_ret.
Qed.

(** The signals a stop sends. *)
Definition stop_signals w : list (Z * Signal) :=
  match rt_process w with
  | Some p => [((- Z.of_N (child_id p))%Z, SIGTERM); ((- Z.of_N (child_id p))%Z, SIGKILL)]
  | None => []
  end.

Lemma runtime_halt_spec fuel config w w' r :
  children_inv w → runtime_halt fuel config w = (w', r) → r ≠ Err Start_Waiting →
  childless w' ∧ signals w' = signals w ++ stop_signals w.
Proof using pids_fit waits.
  intros [Ha Hg] E Hr. unfold runtime_halt, stop_signals in *. cbn [gets] in E.
  apply act_bind_inv in E as [(w0 & x0 & [= <- <-] & E)|(e & [= ] & _)].
  assert (∃ w1 failures, childless w1 ∧ signals w1 = signals w ++ stop_signals w ∧
    (w ← gets (λ w, w); files ← (if owns_runtime_directory w then remove_directory config else mret []);
     if is_empty (failures ++ files) then mret () else managed (Err (Source_Shutdown (join (lit "; ") (failures ++ files))))) w1 = (w', r))
    as (w1 & failures & Hc & Hs & E1).
  { unfold stop_signals. destruct (rt_process w) as [p|] eqn:Ep.
    - destruct (Hg p eq_refl) as [Hgroup Hpid].
      apply act_bind_inv in E as [(w1 & failures & E1 & E2)|(e & E1 & ->)];
        apply act_bind_inv in E1 as [(w0 & [] & [= <-] & E1)|(e' & [= ] & _)];
        apply (stop_process_spec fuel config p (signals w) (owns_runtime_directory w) Hgroup Hpid) in E1.
      + destruct E1 as (Hc & Hs & _). exists w1, failures. done.
      + split; [|done]. split; [|done]. cbn. intros j Hj. destruct (Ha j Hj) as [?|[= ->]]; auto.
      + by destruct e.
      + split; [|done]. split; [|done]. cbn. intros j Hj. destruct (Ha j Hj) as [?|[= ->]]; auto.
    - apply act_bind_inv in E as [(w1 & failures & [= <- <-] & E2)|(e & [= ] & _)].
      exists w, []. split; [|split; [by rewrite app_nil_r|done]]. split; [|done]. intros j Hj. by destruct (Ha j Hj) as [?|Hn]. }
  fold (stop_signals w). rewrite <-Hs. clear E Hs. revert E1.
  intros [(w2 & x & [= <- <-] & E)|(e & [= ] & _)]%act_bind_inv.
  apply act_bind_inv in E as [(w2 & files & E1 & E2)|(e & E1 & ->)].
  - assert (childless w2 ∧ signals w2 = signals w1) as [? ?].
    { destruct (owns_runtime_directory w1); [exact (remove_directory_spec config (signals w1) w1 w2 _ (conj Hc eq_refl) E1)|].
      by injection E1 as <- <-. }
    by destruct (is_empty _); injection E2 as <- <-.
  - destruct (owns_runtime_directory w1); [|discriminate].
    pose proof (remove_directory_spec config (signals w1) w1 w' _ (conj Hc eq_refl) E1) as Hf. by destruct e.
Qed.

(** ** Termination *)

Abbreviation ends := (ends Start_Waiting).

(** Actions that return and ask at least nothing. *)
Definition prompt {A} (a : managing A) : Prop := ∀ w, (a w).2 ≠ Err Start_Waiting ∧ rt_asked w ≤ rt_asked (a w).1.

Lemma prompt_query {A} (f : nat → A) : prompt (query f).
Proof. intros w. cbn. split; [done|lia]. Qed.
Lemma prompt_managed {A} (m : result CodexProviderSourceError A) : prompt (managed m).
Proof. intros w. by destruct m. Qed.
Lemma prompt_ret {A} (x : A) : prompt (mret x).
Proof. by intros w. Qed.
Lemma prompt_modify f : (∀ w, rt_asked (f w) = rt_asked w) → prompt (modify f).
Proof. intros Hf w. cbn. rewrite Hf. by split. Qed.
Lemma prompt_gets {A} (f : RuntimeWorld → A) : prompt (gets f).
Proof. by intros w. Qed.
Lemma prompt_files {A} (f : gmap Path FsEntry → gmap Path FsEntry * result IoError A) : prompt (on_files f).
Proof. intros w. unfold on_files. destruct (fault _); [|destruct (f _)]; cbn; (split; [done|lia]). Qed.
Lemma managed_prompt_bind {A B} (a : managing A) (f : A → managing B) : prompt a → (∀ x, prompt (f x)) → prompt (x ← a; f x).
Proof.
  intros Ha Hf w. unfold mbind, act_bind. destruct (Ha w) as [H1' H2']. destruct (a w) as [w1 [x|e]]; cbn in *.
  - destruct (Hf x w1) as [? ?]. split; [done|lia].
  - split; [congruence|done].
Qed.
Create HintDb prompt.
#[local] Hint Resolve prompt_query prompt_managed prompt_ret prompt_gets prompt_files : prompt.
Local Ltac prompt_solve :=
  repeat first [apply managed_prompt_bind; [|intros ?] | apply prompt_managed | apply prompt_ret | solve [eauto with prompt]
    | apply prompt_modify; done | case_match].

Lemma prompt_exists path : prompt (path_exists path).
Proof. unfold path_exists. prompt_solve. Qed.
Lemma prompt_try_wait p : prompt (try_wait p).
Proof. unfold try_wait. prompt_solve. Qed.
Lemma prompt_wait p : prompt (process_wait p).
Proof. unfold process_wait. prompt_solve. Qed.
Lemma prompt_kill target signal : prompt (kill_pid target signal).
Proof. unfold kill_pid. prompt_solve. Qed.
Lemma prompt_snapshot : prompt stderr_snapshot.
Proof. unfold stderr_snapshot. prompt_solve. Qed.
#[local] Hint Resolve prompt_exists prompt_try_wait prompt_wait prompt_kill prompt_snapshot : prompt.
Lemma prompt_connect : prompt connect_socket.
Proof. unfold connect_socket. prompt_solve. Qed.
Lemma prompt_check : prompt check_exited.
Proof. unfold check_exited. prompt_solve. Qed.
Lemma prompt_version config : prompt (verify_codex_version config).
Proof. unfold verify_codex_version. prompt_solve. Qed.
Lemma prompt_claim config : prompt (claim_directory config).
Proof. unfold claim_directory. prompt_solve. Qed.
Lemma prompt_discard p e : prompt (discard_child p e).
Proof. unfold discard_child, child_kill. prompt_solve. Qed.
#[local] Hint Resolve prompt_discard : prompt.
Lemma prompt_launch config : prompt (launch config).
Proof. unfold launch, new_in_own_process_group, new_with_process_group. prompt_solve. Qed.

Lemma managed_ends_prompt {A B} (a : managing A) (f : nat → A → managing B) w :
  prompt a → (∀ w1 x, rt_asked w ≤ rt_asked w1 → ends (λ fuel, f fuel x) w1) → ends (λ fuel, a ≫= f fuel) w.
Proof.
  intros Ha Hf. apply (ends_bind (λ _, a)); [apply ends_now, Ha|]. intros _ w1 x E. apply Hf.
  destruct (Ha w) as [_ Hw]. by rewrite E in Hw.
Qed.
Lemma ends_query {A B} (g : nat → A) (f : nat → A → managing B) w :
  ends (λ fuel, f fuel (g (rt_asked w))) (set_rt_asked (1 + rt_asked w) w) → ends (λ fuel, query g ≫= f fuel) w.
Proof. intros Hf. apply (ends_bind (λ _, query g)); [by apply ends_now|]. by intros _ w1 x [= <- <-]. Qed.
Lemma ends_result {A} (a : managing A) w : prompt a → ends (λ _, a) w.
Proof. intros Ha. apply ends_now, Ha. Qed.

Section clock.
Hypothesis advances : passes_every_instant rt_now.

Lemma ends_await_exit p deadline w : ends (λ fuel, await_exit fuel p deadline) w.
Proof using advances.
  revert w. assert (∀ (i : unit) w, ends (λ fuel, await_exit fuel p deadline) w) as Hall; [|exact (Hall ())].
  apply (ends_within rt_asked rt_now (λ _ fuel, await_exit fuel p deadline) deadline advances).
  intros _ w Hw. apply ends_step. cbn [await_exit]. apply ends_query.
  destruct (N.ltb_spec (rt_now (rt_asked w)) deadline) as [Hlt|Hle]; cbn [negb]; [|apply ends_result, prompt_ret].
  destruct Hw as [?|Hnext]; [lia|]. apply managed_ends_prompt; [apply prompt_try_wait|]. intros w1 [[status|]|e] Hw1; [apply ends_result, prompt_ret| |apply ends_result, prompt_ret].
  apply (Hnext ()). cbn in Hw1. lia.
Qed.

Lemma ends_await_socket config deadline w : ends (λ fuel, await_socket fuel config deadline) w.
Proof using advances.
  revert w. assert (∀ (i : unit) w, ends (λ fuel, await_socket fuel config deadline) w) as Hall; [|exact (Hall ())].
  apply (ends_within_later rt_asked rt_now (λ _ fuel, await_socket fuel config deadline) deadline advances).
  intros _ w Hw. apply ends_step. cbn [await_socket]. apply managed_ends_prompt; [apply prompt_check|]. intros w1 _ Hw1.
  apply managed_ends_prompt; [apply prompt_exists|]. intros w2 present Hw2.
  apply managed_ends_prompt; [destruct present; [apply prompt_connect|apply prompt_ret]|]. intros w3 ready Hw3.
  destruct ready; [apply ends_result, prompt_ret|]. apply ends_query.
  destruct (N.leb_spec deadline (rt_now (rt_asked w3))) as [|Hlt]; [apply ends_result, prompt_managed|].
  destruct Hw as [Hl|Hnext]; [specialize (Hl (rt_asked w3)); lia|]. apply (Hnext ()). cbn. lia.
Qed.

Lemma ends_launch config w : ends (λ fuel, runtime_launch fuel config) w.
Proof using advances.
  unfold runtime_launch. apply managed_ends_prompt; [apply prompt_version|]. intros w1 _ _. apply managed_ends_prompt; [apply prompt_files|]. intros w2 root _.
  apply managed_ends_prompt; [apply prompt_managed|]. intros w3 _ _. apply managed_ends_prompt; [apply prompt_claim|]. intros w4 _ _.
  apply managed_ends_prompt; [apply prompt_files|]. intros w5 private _. apply managed_ends_prompt; [apply prompt_managed|]. intros w6 _ _.
  apply managed_ends_prompt; [apply prompt_launch|]. intros w7 _ _. apply managed_ends_prompt; [apply prompt_query|]. intros w8 now _. apply ends_await_socket.
Qed.

Lemma ends_stop_process config p w : ends (λ fuel, stop_process fuel config p) w.
Proof using advances.
  unfold stop_process. apply managed_ends_prompt; [unfold terminate; prompt_solve|]. intros w1 terminated _. apply managed_ends_prompt; [apply prompt_query|]. intros w2 now _.
  apply (ends_bind (λ fuel, await_exit fuel p _)); [apply ends_await_exit|]. intros _ w3 [exited status] _. apply ends_result.
  unfold kill_remaining_process_group, process_kill, child_kill, join_stderr. prompt_solve.
Qed.

Lemma ends_halt config w : ends (λ fuel, runtime_halt fuel config) w.
Proof using advances.
  unfold runtime_halt. apply managed_ends_prompt; [apply prompt_gets|]. intros w1 w0 _.
  apply (ends_bind (λ fuel, match rt_process w0 with Some p => _ ← modify (set_process None); stop_process fuel config p | None => mret [] end)).
  - destruct (rt_process w0); [|apply ends_result, prompt_ret]. apply managed_ends_prompt; [by apply prompt_modify|]. intros w2 _ _. apply ends_stop_process.
  - intros _ w2 processes _. apply ends_result. prompt_solve.
Qed.
End clock.

(** ** The directory *)

Section directory.
Context (config : CodexProviderConfig).
Abbreviation dir := (components (runtime_directory config)).

Definition is_dir (m : gmap Path FsEntry) : bool := match m !! dir with Some (Fs_Dir _) => true | _ => false end.

(** Nobody else creates, removes or replaces the directory of the runtime. *)
Hypothesis private : ∀ n m, is_dir (others_act n m) = is_dir m.
(** The directory is not its own root, and the socket is not the directory. *)
Hypothesis root_apart : ¬ (dir `prefix_of` components (runtime_root config)).
Hypothesis socket_apart : components (socket_path config) ≠ dir.

(** Whoever owns the directory has created it and not removed it since. *)
Record files_inv w : Prop := {
  files_present : owns_runtime_directory w = true → is_dir (entries (rt_disk w)) = true;
  files_counted : created w = removed w + (if owns_runtime_directory w then 1 else 0)
}.

Definition filing {A} (a : managing A) : Prop := triple files_inv a (λ w _, files_inv w).

Lemma filing_bind {A B} (a : managing A) (f : A → managing B) : filing a → (∀ x, filing (f x)) → filing (x ← a; f x).
Proof using Type. intros Ha. apply triple_bind. eapply triple_post, Ha. by intros w []. Qed.
Lemma filing_query {A} (f : nat → A) : filing (query f).
Proof using Type. intros w w' r [Hp Hc] [= <- <-]. by split. Qed.
Lemma filing_lift {A} (m : result SourceStop A) : filing (lift m).
Proof using Type. by apply triple_lift. Qed.
Lemma filing_ret {A} (x : A) : filing (mret x).
Proof using Type. by apply triple_ret. Qed.
Lemma filing_gets {A} (f : RuntimeWorld → A) : filing (gets f).
Proof using Type. by intros w w' r Hw [= <- <-]. Qed.
Lemma filing_throw {A} (e : SourceStop) : filing (throw e : managing A).
Proof using Type. by intros w w' r Hw [= <- <-]. Qed.
Lemma filing_modify f :
  (∀ w, owns_runtime_directory (f w) = owns_runtime_directory w ∧ rt_disk (f w) = rt_disk w ∧ created (f w) = created w ∧ removed (f w) = removed w) →
  filing (modify f).
Proof using Type. intros Hf. apply triple_modify. intros w [Hp Hc]. destruct (Hf w) as (Ho & Hd & Hcr & Hr). by split; rewrite ?Ho, ?Hd, ?Hcr, ?Hr. Qed.
Lemma filing_files {A} (f : gmap Path FsEntry → gmap Path FsEntry * result IoError A) :
  (∀ m, is_dir (f m).1 = is_dir m) → filing (on_files f).
Proof using private.
  intros Hf w w' r [Hp Hc] E. unfold on_files in E.
  destruct (fault _); [|specialize (Hf (others_act (rt_asked w) (entries (rt_disk w)))); destruct (f _) as [m x]]; injection E as <- <-;
    (split; [|done]); cbn in *; rewrite ?Hf, private; done.
Qed.

Create HintDb filing.
#[local] Hint Resolve filing_query filing_lift filing_ret filing_gets filing_throw : filing.
Local Ltac filing_solve :=
  repeat first [solve [eauto with filing] | apply filing_bind; [|intros ?] | apply filing_lift | apply filing_ret
    | apply filing_modify; done | case_match].

Lemma is_dir_insert_ne path e m : path ≠ dir → is_dir (<[path := e]> m) = is_dir m.
Proof using Type. intros Hn. unfold is_dir. by rewrite lookup_insert_ne. Qed.

Lemma create_prefixes_dir base rest m : ¬ (dir `prefix_of` base ++ rest) → is_dir (create_prefixes base rest m).1 = is_dir m.
Proof using Type.
  revert base m. induction rest as [|c rest IH]; intros base m Hn; cbn [create_prefixes]; [done|].
  assert (base ++ [c] ≠ dir) as Hc by (intros E; apply Hn; rewrite <-E; exists rest; by rewrite <-app_assoc).
  assert (¬ (dir `prefix_of` (base ++ [c]) ++ rest)) as Hr by (by rewrite <-app_assoc).
  destruct (m !! (base ++ [c])) as [[]|]; [done|by apply IH|done|]. rewrite IH by done. by apply is_dir_insert_ne.
Qed.

Lemma filing_mkdir : filing (mkdir_all (components (runtime_root config))).
Proof using private root_apart.
  apply filing_files. intros m. pose proof (create_prefixes_dir [] (components (runtime_root config)) m root_apart) as Hm.
  by destruct (create_prefixes [] _ m).
Qed.
Lemma filing_exists path : filing (path_exists path).
Proof using private. unfold path_exists. apply filing_bind; [by apply filing_files|]. intros. apply filing_ret. Qed.
Lemma filing_chmod mode : filing (chmod dir mode).
Proof using private.
  apply filing_files. intros m. unfold is_dir. destruct (m !! dir) as [[]|] eqn:E; cbn; rewrite ?lookup_insert_eq, ?E; done.
Qed.
Lemma filing_unlink : filing (unlink (components (socket_path config))).
Proof using private socket_apart.
  apply filing_files. intros m. destruct (m !! components (socket_path config)) as [[]|]; cbn; try done; unfold is_dir; by rewrite lookup_delete_ne.
Qed.
#[local] Hint Resolve filing_mkdir filing_exists filing_chmod filing_unlink : filing.

Lemma filing_claim : filing (claim_directory config).
Proof using private.
  intros w w' r [Hp Hc] E. unfold claim_directory in E. unfold mbind at 1, act_bind, create_dir, on_files in E.
  set (seen := others_act _ _) in E. assert (is_dir seen = is_dir (entries (rt_disk w))) as Hseen by apply private.
  destruct (fault _); [injection E as <- <-; split; [cbn; by rewrite Hseen|done]|]. destruct (seen !! dir) eqn:Ed.
  { injection E as <- <-. split; [cbn; by rewrite Hseen|done]. }
  destruct (owns_runtime_directory w) eqn:Eo; [rewrite <-Hseen in Hp; unfold is_dir in Hp; rewrite Ed in Hp; discriminate (Hp eq_refl)|].
  destruct (seen !! removelast dir) as [[]|]; injection E as <- <-; (split; cbn; rewrite ?Eo; [try done|done || lia]).
  intros _. unfold is_dir. by rewrite lookup_insert_eq.
Qed.
#[local] Hint Resolve filing_claim : filing.

Lemma filing_try_wait p : filing (try_wait p).
Proof using Type. unfold try_wait. filing_solve. Qed.
Lemma filing_wait p : filing (process_wait p).
Proof using Type. unfold process_wait. filing_solve. Qed.
Lemma filing_kill target signal : filing (kill_pid target signal).
Proof using Type. unfold kill_pid. filing_solve. Qed.
Lemma filing_version : filing (verify_codex_version config).
Proof using Type. unfold verify_codex_version. filing_solve. Qed.
Lemma filing_connect : filing connect_socket.
Proof using Type. unfold connect_socket. filing_solve. Qed.
#[local] Hint Resolve filing_try_wait filing_wait filing_kill filing_version filing_connect : filing.
Lemma filing_check : filing check_exited.
Proof using Type. unfold check_exited, stderr_snapshot. filing_solve. Qed.
Lemma filing_discard p e : filing (discard_child p e).
Proof using Type. unfold discard_child, child_kill. filing_solve. Qed.
#[local] Hint Resolve filing_check filing_discard : filing.
Lemma filing_launch : filing (launch config).
Proof using Type. unfold launch, new_in_own_process_group, new_with_process_group. filing_solve. Qed.
Lemma filing_await_socket fuel deadline : filing (await_socket fuel config deadline).
Proof using private. induction fuel as [|fuel IH]; cbn [await_socket]; filing_solve. Qed.
#[local] Hint Resolve filing_launch filing_await_socket : filing.

Lemma runtime_launch_files fuel : filing (runtime_launch fuel config).
Proof using private root_apart. unfold runtime_launch. filing_solve. Qed.

Lemma filing_await_exit fuel p deadline : filing (await_exit fuel p deadline).
Proof using Type. induction fuel as [|fuel IH]; cbn [await_exit]; filing_solve. Qed.
#[local] Hint Resolve filing_await_exit : filing.
Lemma filing_stop_process fuel p : filing (stop_process fuel config p).
Proof using Type.
  unfold stop_process, terminate, kill_remaining_process_group, process_kill, child_kill, join_stderr. filing_solve.
Qed.

(** Without failures the directory is gone. *)
Lemma remove_directory_files w w' failures :
  files_inv w → owns_runtime_directory w = true → remove_directory config w = (w', Ok failures) →
  files_inv w' ∧ (failures = [] → owns_runtime_directory w' = false ∧ entries (rt_disk w') !! dir = None).
Proof using private socket_apart.
  intros Hw Ho E. unfold remove_directory in E.
  apply act_bind_Ok in E as (w1 & present & E1 & E). pose proof (filing_exists _ _ _ _ Hw E1) as Hw1.
  assert (owns_runtime_directory w1 = true) as Ho1 by (rewrite <-Ho; pose proof (quiet_exists (components (socket_path config)) w) as Hq; rewrite E1 in Hq; apply Hq).
  apply act_bind_Ok in E as (w2 & socket & E2 & E). 
  assert (filing (if present then r ← unlink (components (socket_path config)); mret (failure "socket removal" r) else mret [])) as Hf by filing_solve.
  pose proof (Hf _ _ _ Hw1 E2) as Hw2. clear Hf.
  assert (quiet (if present then r ← unlink (components (socket_path config)); mret (failure "socket removal" r) else mret [])) as Hq by (unfold unlink; quiet_solve).
  assert (owns_runtime_directory w2 = true) as Ho2 by (rewrite <-Ho1; specialize (Hq w1); rewrite E2 in Hq; apply Hq). clear Hq.
  apply act_bind_Ok in E as (w3 & gone & E3 & E). unfold remove_dir, on_files in E3.
  set (seen := others_act _ _) in E3. assert (is_dir seen = true) as Hseen by (unfold seen; rewrite private; by apply Hw2).
  unfold is_dir in Hseen. destruct (seen !! dir) as [[| mode|]|] eqn:Ed; try discriminate.
  destruct (fault _) as [e|].
  { injection E3 as <- <-. apply act_bind_Ok in E as (w4 & directory & E4 & E). cbn in E4. injection E4 as <- <-. injection E as <- <-. split; [|by destruct socket].
    split; [|apply Hw2]. intros _. unfold is_dir. cbn. by rewrite Ed. }
  destruct (occupied dir seen).
  { injection E3 as <- <-. apply act_bind_Ok in E as (w4 & directory & E4 & E). cbn in E4. injection E4 as <- <-. injection E as <- <-. split; [|by destruct socket].
    split; [|apply Hw2]. intros _. unfold is_dir. cbn. by rewrite Ed. }
  injection E3 as <- <-. apply act_bind_Ok in E as (w4 & directory & E4 & E). cbn in E4. injection E4 as <- <-. injection E as <- <-.
  split; [|intros _; split; [done|]; cbn; by rewrite lookup_delete_eq].
  split; [done|]. cbn. destruct Hw2 as [_ Hc]. rewrite Hc, Ho2. lia.
Qed.

(** Removing the files collects its failures. *)
Definition total {A} (a : managing A) : Prop := ∀ w, is_ok (a w).2 = true.
Lemma total_bind {A B} (a : managing A) (f : A → managing B) : total a → (∀ x, total (f x)) → total (x ← a; f x).
Proof using Type. intros Ha Hf w. unfold mbind, act_bind. specialize (Ha w). destruct (a w) as [w1 [x|e]]; [apply Hf|done]. Qed.
Lemma total_files {A} (f : gmap Path FsEntry → gmap Path FsEntry * result IoError A) : total (on_files f).
Proof using Type. intros w. unfold on_files. destruct (fault _); [done|]. by destruct (f _). Qed.
Lemma total_remove_directory : total (remove_directory config).
Proof using Type.
  unfold remove_directory, path_exists, unlink, remove_dir.
  repeat first [apply total_bind; [|intros ?] | apply total_files | done | case_match].
Qed.

Lemma runtime_halt_files fuel w w' r :
  files_inv w → runtime_halt fuel config w = (w', r) → r ≠ Err Start_Waiting →
  files_inv w' ∧ (r = Ok () → owns_runtime_directory w' = false).
Proof using private socket_apart.
  intros Hw E Hr. unfold runtime_halt in E. apply act_bind_inv in E as [(w0 & x0 & [= <- <-] & E)|(e & [= ] & _)].
  assert (∀ w0 : RuntimeWorld, filing (match rt_process w0 with Some p => _ ← modify (set_process None); stop_process fuel config p | None => mret [] end)) as Hf.
  { intros w0. destruct (rt_process w0); [|apply filing_ret]. apply filing_bind; [by apply filing_modify|]. intros _. apply filing_stop_process. }
  apply act_bind_inv in E as [(w1 & failures & E1 & E)|(e & E1 & ->)]; [|split; [by eapply Hf|done]].
  pose proof (Hf _ _ _ _ Hw E1) as Hw1. clear Hf E1. apply act_bind_inv in E as [(w2 & x & [= <- <-] & E)|(e & [= ] & _)].
  apply act_bind_inv in E as [(w2 & files & E1 & E2)|(e & E1 & ->)].
  - assert (files_inv w2 ∧ (files = [] → owns_runtime_directory w2 = false)) as [Hw2 Ho2].
    { destruct (owns_runtime_directory w1) eqn:Ho; [|by injection E1 as <- <-].
      destruct (remove_directory_files _ _ _ Hw1 Ho E1) as [? Hd]. split; [done|]. intros Hn. by apply Hd. }
    destruct (is_empty (failures ++ files)) eqn:Ee; injection E2 as <- <-; (split; [done|]); [|done]. intros _. apply Ho2.
    by destruct failures, files.
  - exfalso. destruct (owns_runtime_directory w1); [|discriminate].
    pose proof (total_remove_directory w1) as Ht. by rewrite E1 in Ht.
Qed.
End directory.

(** ** Histories *)

(** Starts without a process and stops, whatever happens in them. *)
Inductive runtime_reaches config (d : Disk) : RuntimeWorld → Prop :=
| runtime_reaches_new : runtime_reaches config d (runtime_new d)
| runtime_reaches_launch w fuel w' r :
    runtime_reaches config d w → rt_process w = None → runtime_launch fuel config w = (w', r) → r ≠ Err Start_Waiting →
    runtime_reaches config d w'
| runtime_reaches_halt w fuel w' r :
    runtime_reaches config d w → runtime_halt fuel config w = (w', r) → r ≠ Err Start_Waiting → runtime_reaches config d w'.

Lemma reaches_children config d w : runtime_reaches config d w → children_inv w.
Proof using pids_fit waits.
  induction 1 as [|w fuel w' r _ IH Hn E Hr|w fuel w' r _ IH E Hr].
  - split; [intros k; cbn; lia|done].
  - by eapply (runtime_launch_children fuel config); [split|exact E].
  - by apply childless_children, (runtime_halt_spec fuel config w w' r).
Qed.

Lemma reaches_files config d w :
  (∀ n m, is_dir config (others_act n m) = is_dir config m) →
  ¬ (components (runtime_directory config) `prefix_of` components (runtime_root config)) →
  components (socket_path config) ≠ components (runtime_directory config) →
  runtime_reaches config d w → files_inv config w.
Proof.
  intros Hp Hr Hs. induction 1 as [|w fuel w' r _ IH Hn E Hr'|w fuel w' r _ IH E Hr']; [done| |].
  - by eapply runtime_launch_files.
  - by eapply runtime_halt_files.
Qed.
End process_spec.

(** ** The components of the configured paths *)

Lemma components_app current a b : components_from current (a ++ separator :: b) = components_from current a ++ components_from [] b.
Proof.
  revert current. induction a as [|x a IH]; intros current; cbn [app components_from].
  - rewrite bool_decide_eq_true_2 by done. by destruct (is_empty current || _).
  - case_bool_decide; [|apply IH]. rewrite IH. by destruct (is_empty current || _).
Qed.

Lemma components_name current (name : PathBuf) :
  separator ∉ name → current ++ (Byte.to_N <$> name) ≠ [] → current ++ (Byte.to_N <$> name) ≠ lit "." →
  components_from current name = [current ++ (Byte.to_N <$> name)].
Proof.
  revert current. induction name as [|x name IH]; intros current Hs Hn Hd; cbn [components_from fmap list_fmap] in *.
  - rewrite app_nil_r in *. destruct current as [|c current]; [done|]. cbn [is_empty orb].
    rewrite bool_decide_eq_false_2; [done|exact Hd].
  - rewrite bool_decide_eq_false_2 by set_solver. rewrite (IH (current ++ [Byte.to_N x])); rewrite <-?app_assoc; [done|set_solver|done..].
Qed.

Lemma components_join base (name : PathBuf) :
  separator ∉ name → name ≠ [] → Byte.to_N <$> name ≠ lit "." →
  components (path_join base name) = components base ++ [Byte.to_N <$> name].
Proof.
  intros Hs Hn Hd. assert (is_absolute name = false) as Ha.
  { destruct name as [|b name]; [done|]. cbn. apply bool_decide_eq_false. set_solver. }
  assert (components_from [] name = [Byte.to_N <$> name]) as Hc.
  { apply (components_name [] name Hs); [|done]. by destruct name. }
  rewrite join_relative by done. unfold joint, components. destruct (last base) as [b|] eqn:E.
  - case_bool_decide as Hb; [|cbn [app]; by rewrite components_app, Hc].
    apply last_Some in E as [base' ->]. subst b. cbn [app]. rewrite <-app_assoc. cbn [app]. rewrite !components_app, Hc.
    cbn. by rewrite app_nil_r.
  - apply last_None in E as ->. cbn. by rewrite Hc.
Qed.

Section configured.
Context `{Externals}.
Implicit Types (c : CodexProviderConfig).

Lemma key_bytes_plain p : ¬ (separator ∈ as_bytes (runtime_directory_key p)) ∧ length (as_bytes (runtime_directory_key p)) = 19.
Proof.
  rewrite key_bytes. destruct (key_ascii p) as [Hk Hl]. split; [|by rewrite length_fmap].
  intros (x & E & Hx)%list_elem_of_fmap. rewrite Forall_forall in Hk. destruct (Hk x Hx) as [Hlt Hne].
  apply (f_equal Byte.to_N) in E. rewrite byte_to_of_N, N.mod_small in E by lia. by apply Hne.
Qed.

(** A configured directory lies directly under its root, and its socket directly in it. *)
Lemma configured_components c :
  configured_well c →
  ∃ key socket, components (runtime_directory c) = components (runtime_root c) ++ [key] ∧
    components (socket_path c) = components (runtime_directory c) ++ [socket].
Proof.
  intros Hw. destruct (key_bytes_plain (config_provider_id c)) as [Hs Hl]. eexists _, _. rewrite (well_socket c Hw). split.
  - rewrite (well_directory c Hw). apply components_join; [done| |]; intros E; [by rewrite E in Hl|].
    apply (f_equal length) in E. rewrite length_fmap, Hl in E. done.
  - apply components_join; [|done..]. vm_compute. intros Hin. repeat (apply elem_of_cons in Hin as [?|Hin]; [done|]). by apply elem_of_nil in Hin.
Qed.

Lemma root_apart c : configured_well c → ¬ (components (runtime_directory c) `prefix_of` components (runtime_root c)).
Proof.
  intros (key & _ & -> & _)%configured_components [rest E]. apply (f_equal length) in E. rewrite !length_app in E. cbn in E. lia.
Qed.
Lemma socket_apart c : configured_well c → components (socket_path c) ≠ components (runtime_directory c).
Proof. intros (_ & socket & _ & ->)%configured_components E. apply (f_equal length) in E. rewrite length_app in E. cbn in E. lia. Qed.
End configured.

(** ** The connection *)

Section local_io_spec.
Context (answer : nat → result SocketError unit).

(** Messages a read passes over, and the answers to them. *)
Definition passed_over (event : result SocketError IoMessage) : bool :=
  match event with Ok (Msg_Ping _) | Ok (Msg_Pong _) | Ok Msg_Frame => true | _ => false end.
Definition pongs (events : list (result SocketError IoMessage)) : list IoMessage :=
  omap (λ event, match event with Ok (Msg_Ping payload) => Some (Msg_Pong payload) | _ => None end) events.

(** A read returns the next text, after answering every ping before it. *)
Lemma io_read_text s s' text :
  io_read answer s = (s', Ok (Io_Text text)) →
  ∃ before, io_incoming s = before ++ Ok (Msg_Text text) :: io_incoming s' ∧ Forall (λ e, passed_over e = true) before ∧
    io_sent s' = io_sent s ++ pongs before.
Proof.
  unfold io_read. generalize (io_incoming s). intros incoming. revert s. induction incoming as [|event incoming IH]; intros s; cbn [io_read_from]; [done|].
  destruct event as [[t| |payload|payload| |]|[e| |t]]; try discriminate 1.
  - intros [= <- <-]. exists []. split; [done|]. by rewrite app_nil_r.
  - unfold io_send. cbn [io_operations io_sent io_incoming]. destruct (answer (io_operations s)) as [[]|e]; [|discriminate 1].
    intros (before & -> & Hb & Hs)%IH. exists (Ok (Msg_Ping payload) :: before). split_and!; [done|by constructor|]. rewrite Hs. cbn. by rewrite <-app_assoc.
  - intros (before & -> & Hb & Hs)%IH. exists (Ok (Msg_Pong payload) :: before). split_and!; [done|by constructor|done].
  - intros (before & -> & Hb & Hs)%IH. exists (Ok Msg_Frame :: before). split_and!; [done|by constructor|done].
  - destruct (is_timeout e); discriminate 1.
Qed.
End local_io_spec.
