(* ===== verification/CodexConnectionTheorems.v ===== *)
(** * The connections of the Codex provider: properties

    The client proxy, the start and stop of the provider, its configuration and
    the process it manages. *)


From stdpp Require Import base strings numbers sorting gmap list.
From S2P Require Import Prelude Bytes Json Values Snapshots Capability Interaction Event.
From S2P Require Import CodexMapper CodexMapperSpec CodexProtocol CodexApproval CodexInteractions CodexInteractionsSpec.
From S2P Require Import CodexProxy CodexProxySpec Examples CodexRuns.
From S2P Require Import Fuel CodexApprovalSpec CodexControl CodexWorker CodexWorkerSpec CodexSource CodexSourceSpec.
From S2P Require Import Platform CodexConfig CodexProcess CodexProcessSpec.

(** C30: the proxy is transparent.  Whatever the sockets do, Codex is sent the
    client's messages, unchanged and in order, and between them only answers
    that were given to requests of this connection; the client is sent the
    messages of Codex, unchanged and in order, whether or not they could be
    mirrored.  Nothing is lost unless a socket fails, and then only the message
    that could not be sent. *)
Theorem proxy_transparent `{Externals} {S : Type} `{!EventSink S} `{!Draws} `{!ApprovalDraws} `{!CodexLibrary} `{!ProxySockets}
    route reads (p : ProviderWorld (S := S) (I := ProxySocket)) w r :
  proxy_connection_loop route reads (proxy_start p) = (w, r) →
  ∃ kept texts new lost_client lost_server,
    from_client w `prefix_of` messages reads.*1 ∧ from_server w `prefix_of` messages reads.*2 ∧
    data_of (from_client w) = kept ++ lost_client ∧
    interleaves kept (Px_Text <$> texts) (data_of (socket_sent (px_upstream w))) ∧
    written (px_provider w) = written p ++ new ∧ Forall2 (answer_text_of route) new texts ∧
    data_of (from_server w) = data_of (socket_sent (px_downstream w)) ++ lost_server ∧
    length (lost_client ++ lost_server) ≤ 1 ∧ (r = Ok () → lost_client = [] ∧ lost_server = []).
Proof.
  intros Hl. pose proof (loop_reads route reads (proxy_start p) w r Hl) as [Rc Rs].
  destruct (passes_loop route p reads (proxy_start p) w r (proxy_start_transparent route p) Hl)
    as (lc & ls & [(kept & texts & new & Hk & Hi & Hw & Hall) Hd] & Hlen & Hok).
  exists kept, texts, new, lc, ls. split_and!; try done. intros ->. by apply Hok.
Qed.

(** C31: stopping the proxy reaches every registered stream.  However the acceptor,
    the threads of the connections and the thread that stops them interleave, at
    most 16 connections exist and none outlives the acceptor.  Once the registered
    streams were shut down, every stream a connection holds has been shut down,
    those that are opened later included, except an upstream stream that is not
    registered yet: that of a connection which is still in [transport::connect]
    or about to register it.  No stop interrupts that handshake (its own timeout
    does), but a connection that was still being set up never gets to forward:
    the stream is shut down as soon as it is to be registered, and the connection
    ends. *)
Theorem proxy_cancellation actions s :
  proxy_run actions ProxyServer_new = Some s → (raw (next_route s) < u64_max)%N →
  size (proxy_clients s) ≤ 16 ∧
  (∀ failed, acceptor s = Acc_Exited failed → proxy_clients s = ∅) ∧
  ∀ s1 more s2, proxy_act Do_StopStreams s = Some s1 → proxy_run more s1 = Some s2 → (raw (next_route s2) < u64_max)%N →
    (∀ n phase side, proxy_clients s2 !! n = Some phase → holds_stream phase side = true →
       (n, side) ∈ shut_down (proxy_control s2) ∨ unregistered phase side = true) ∧
    (∀ n, proxy_clients s1 !! n ≠ Some Conn_Running → proxy_clients s2 !! n ≠ Some Conn_Running) ∧
    (∀ n cloned setup s3, proxy_clients s2 !! n = Some Conn_Connected → proxy_act (Do_Connection n cloned setup) s2 = Some s3 →
       proxy_clients s3 !! n = Some Conn_Ending ∧ (cloned = Ok () → (n, Side_Server) ∈ shut_down (proxy_control s3))).
Proof.
  intros Hr Hmax. pose proof (proxy_run_ok _ _ _ proxy_new_ok Hr Hmax) as Hs. split_and!; [apply Hs..|].
  intros s1 more s2 Hstop Hmore Hmax2.
  assert (cancelled (proxy_control s1)) as Hc.
  { cbn [proxy_act] in Hstop. destruct (stopped (proxy_control s)) eqn:E; [|done]. by injection Hstop as <-. }
  pose proof (cancelled_run _ _ _ Hc Hmore) as [Hst He].
  pose proof (proxy_run_route _ _ _ Hmore) as Hle. pose proof (proxy_act_ok _ _ _ Hs Hstop ltac:(lia)) as Hs1.
  pose proof (proxy_run_ok _ _ _ Hs1 Hmore Hmax2) as Hs2. split_and!.
  - intros n phase side Hn Hh. destruct (unregistered phase side) eqn:Hu; [by right|left].
    destruct (ok_streams _ Hs2 n phase side Hn Hh Hu) as [Hin|]; [|done]. rewrite He, lookup_empty in Hin. by apply not_elem_of_nil in Hin.
  - intros n. exact (cancelled_run_setup more s1 s2 n Hc Hmore).
  - intros n cloned setup s3 Hn. cbn [proxy_act]. rewrite Hn. cbn. unfold px_register. rewrite Hst.
    destruct cloned as [[]|]; intros [= <-]; simpl; rewrite lookup_insert_eq; (split; [done|]); [set_solver|done].
Qed.

(** ** Witnesses *)

#[export] Instance toy_sockets : ProxySockets := {| upstream_answer := λ _, Ok (); downstream_answer := λ _, Ok () |}.
Definition toy_route : ApprovalRoute := Route_Proxy (Refine 1%N I).
Definition toy_reads : list (result ProxyReadError ProxyMessage * result ProxyReadError ProxyMessage) :=
  [(Ok (Px_Text (lit "a")), Err Px_TimedOut); (Err Px_TimedOut, Ok (Px_Text (lit "b"))); (Ok (Px_Close None), Err Px_TimedOut)].
Definition toy_proxied : ProviderWorld (S := unit) (I := ProxySocket) := provider_start toy_mapper () new_socket.
Definition toy_proxy_run : ProxyWorld (S := unit) * result CodexProviderSourceError unit :=
  proxy_connection_loop toy_route toy_reads (proxy_start toy_proxied).

Lemma toy_proxy_sent :
  bool_decide (socket_sent (px_upstream toy_proxy_run.1) = [Px_Text (lit "a"); Px_Close None])
  && bool_decide (socket_sent (px_downstream toy_proxy_run.1) = [Px_Text (lit "b")]) && is_ok toy_proxy_run.2 = true.
Proof. vm_compute. reflexivity. Qed.

(** A message in each direction. *)
Lemma proxy_transparent_witness :
  socket_sent (px_upstream toy_proxy_run.1) = [Px_Text (lit "a"); Px_Close None] ∧
  data_of (from_server toy_proxy_run.1) = [Px_Text (lit "b")] ∧
  ∃ kept texts, data_of (from_client toy_proxy_run.1) = kept ∧
    interleaves kept (Px_Text <$> texts) (data_of (socket_sent (px_upstream toy_proxy_run.1))).
Proof.
  pose proof toy_proxy_sent as [[Hu%bool_decide_eq_true Hd%bool_decide_eq_true]%andb_true_iff Hok]%andb_true_iff.
  destruct toy_proxy_run as [w r] eqn:Er. cbn [fst snd] in *.
  destruct (proxy_transparent toy_route toy_reads toy_proxied w r Er)
    as (kept & texts & new & lc & ls & _ & _ & Hk & Hi & _ & _ & Hs & _ & Hl).
  destruct r as [[]|]; [|discriminate Hok]. destruct (Hl eq_refl) as [-> ->]. rewrite app_nil_r in Hk, Hs.
  split; [exact Hu|]. split; [rewrite Hs, Hd; reflexivity|]. exists kept, texts. split; [exact Hk|exact Hi].
Defined.

(** A connection that runs when the stop arrives, and one that starts later. *)
Definition toy_before : list ProxyAction :=
  [Do_Acceptor Accept_WouldBlock; Do_Acceptor (Accept_Stream true); Do_Connection 1 (Ok ()) (Ok ());
   Do_Connection 1 (Ok ()) (Ok ()); Do_Connection 1 (Ok ()) (Ok ()); Do_Connection 1 (Ok ()) (Ok ());
   Do_Acceptor Accept_WouldBlock; Do_StopFlag].
Definition toy_after : list ProxyAction := [Do_Acceptor (Accept_Stream true); Do_Connection 2 (Ok ()) (Ok ())].
Definition toy_stopped : ProxyServer := default ProxyServer_new (proxy_run toy_before ProxyServer_new).
Definition toy_shut : ProxyServer := default ProxyServer_new (proxy_act Do_StopStreams toy_stopped).
Definition toy_last : ProxyServer := default ProxyServer_new (proxy_run toy_after toy_shut).

Definition is_running (o : option ConnectionPhase) : bool := match o with Some Conn_Running => true | _ => false end.

Lemma default_present {A} (d : A) (o : option A) : match o with Some _ => true | None => false end = true → o = Some (default d o).
Proof. by destruct o. Qed.
Lemma is_running_Some o : is_running o = true → o = Some Conn_Running.
Proof. by destruct o as [[]|]. Qed.

Lemma proxy_cancellation_witness :
  size (proxy_clients toy_stopped) ≤ 16 ∧ (1%N, Side_Server) ∈ shut_down (proxy_control toy_last).
Proof.
  assert (proxy_run toy_before ProxyServer_new = Some toy_stopped) as Hr by (apply default_present; vm_compute; reflexivity).
  assert (proxy_act Do_StopStreams toy_stopped = Some toy_shut) as Hs by (apply default_present; vm_compute; reflexivity).
  assert (proxy_run toy_after toy_shut = Some toy_last) as Hm by (apply default_present; vm_compute; reflexivity).
  assert (proxy_clients toy_last !! 1%N = Some Conn_Running) as Hp by (apply is_running_Some; vm_compute; reflexivity).
  destruct (proxy_cancellation toy_before toy_stopped Hr ltac:(vm_compute; reflexivity)) as (Hz & _ & Hst).
  split; [exact Hz|]. destruct (Hst toy_shut toy_after toy_last Hs Hm ltac:(vm_compute; reflexivity)) as (Hall & _).
  destruct (Hall 1%N Conn_Running Side_Server Hp eq_refl) as [Hin|Hu]; [exact Hin|discriminate Hu].
Defined.

(** ** Start and stop *)

Section source.
Context `{Externals} {S I : Type} `{!EventSink S} `{!Draws} `{!ApprovalDraws} `{!CodexLibrary} `{!AppServerIo I} `{!SourceEnvironment}.
Implicit Types (w : SourceWorld (S := S) (I := I)).

(** C29: the provider holds its resources exactly while it is started.  After any
    starts and stops, whatever failed in them and whatever the threads did
    meanwhile, every launch of the app server but a current one was released
    exactly once.  A start that succeeds leaves the threads running and a
    protocol engine with nothing pending, as the worker needs it; one that fails
    says so in the health and holds nothing, and on a started provider it
    changes nothing.  A stop holds nothing afterwards, even if it fails.  If the
    clock passes every instant, a start returns, whatever the app server sends:
    with enough fuel it has a result, which more fuel does not change. *)
Theorem source_lifecycle p w s :
  source_reaches p w →
  started w = released w + (if resources_acquired w then 1 else 0) ∧
  (∀ fuel config w' r, source_start fuel config w = (w', r) →
     match r with
     | Ok _ => resources_acquired w' = true ∧ src_worker w' = true ∧ src_proxy w' = client_proxy_enabled config ∧
         health w' = Health_Running ∧ correlated (worker_start (src_provider w') (src_engine w') s)
     | Err (Start_Error e) =>
         (w' = w ∧ e = Source_AlreadyStarted ∧ resources_acquired w = true) ∨
         (idle w' ∧ health w' = Health_Failed ∧ last_error w' = Some (source_error_text e))
     | Err Start_Waiting => True
     end) ∧
  (∀ w' r, source_stop w = (w', r) →
     idle w' ∧ health w' = match r with Ok _ => Health_Stopped | Err _ => Health_Failed end) ∧
  (passes_every_instant source_now → ∀ config,
     ∃ fuel w' r, r ≠ Err Start_Waiting ∧ ∀ more, fuel ≤ more → source_start more config w = (w', r)).
Proof.
  intros Hw%source_reaches_balanced. split_and!; [apply Hw| | |intros Hc config; exact (ends_source_start Hc config w)].
  - intros fuel config w' r E. pose proof (source_start_spec fuel config w w' r Hw E) as Hs. destruct r as [[]|[e|]]; [| |done].
    + destruct Hs as (_ & [(? & ? & ? & _) Hp] & Hh). split_and!; [done..|]. by apply worker_start_correlated.
    + destruct Hs as [Hs|(_ & Hs)]; [by left|by right].
  - intros w' r E. destruct (stop_inner_spec w w' r Hw E) as [Hi Hr]. split; [done|]. by destruct r as [|[]]; [|destruct Hr|].
Qed.

End source.

(** ** Witnesses *)

(** The app server answers the initialization. *)
#[export] Instance toy_environment : SourceEnvironment := {|
  source_now := N.of_nat; source_read := λ _, Ok (Io_Text [0%N]); runtime_start := λ _, Ok (); runtime_stop := λ _, Ok ();
  spawn_reader := λ _, Ok (); bind_proxy := λ _, Ok (); listener_nonblocking := λ _, Ok (); spawn_proxy := λ _, Ok ();
  cleanup_proxy := λ _, Ok (); join_outcome := λ _, Join_Clean; worker_failure := λ _, None;
  source_error_text := λ _, []; request_id_text := λ _, []
|}.
Definition toy_config : SourceConfig := MkSourceConfig [] 100 true.
Definition toy_source : SourceWorld (S := unit) (I := list rstring) := source_new toy_start.
Definition toy_started : SourceWorld (S := unit) (I := list rstring) * result SourceStop unit := source_start 3 toy_config toy_source.

Lemma toy_started_ok : is_ok toy_started.2 = true.
Proof. vm_compute. reflexivity. Qed.

Lemma toy_started_run : source_start 3 toy_config toy_source = (toy_started.1, Ok ()).
Proof.
  pose proof toy_started_ok as Hok. unfold toy_started in *. revert Hok.
  generalize (source_start 3 toy_config toy_source). intros [w [[]|]]; [done|discriminate 1].
Qed.

Lemma toy_started_reached : source_reaches toy_start toy_started.1.
Proof. exact (source_reaches_start _ _ 3 toy_config _ _ (source_reaches_new _) toy_started_run ltac:(discriminate)). Qed.

Lemma source_lifecycle_witness :
  src_proxy toy_started.1 = true ∧ correlated (worker_start (src_provider toy_started.1) (src_engine toy_started.1) ControlRuntimeState_new) ∧
  idle (source_stop toy_started.1).1 ∧
  ∃ fuel w' r, r ≠ Err Start_Waiting ∧ ∀ more, fuel ≤ more → source_start more toy_config toy_source = (w', r).
Proof.
  destruct (source_lifecycle toy_start toy_source ControlRuntimeState_new (source_reaches_new _)) as (_ & Hs & _ & Hn).
  destruct (Hs 3 toy_config _ _ toy_started_run) as (_ & _ & Hp & _ & Hc).
  destruct (source_lifecycle toy_start toy_started.1 ControlRuntimeState_new toy_started_reached) as (_ & _ & Ht & _).
  split; [exact Hp|]. split; [exact Hc|]. split.
  - destruct (source_stop toy_started.1) as [w' r] eqn:E. exact (proj1 (Ht w' r eq_refl)).
  - apply Hn. intros limit. exists (N.to_nat limit). intros k Hk. cbn [source_now toy_environment]. lia.
Defined.

(** ** The configuration *)

(** C33: configurations.  An accepted configuration has the given threads in
    their order, all distinct, with the session each identifier names, and
    distinct sessions where the identifiers are in the spelling they are printed
    in; its two sockets are different, at most 96 bytes long, and named by the
    two URIs.  Two providers under one root share no socket unless all 74 random
    bits of their identities agree.  If the schema compiles, the provider is
    built, and its mapper knows exactly the configured threads. *)
Theorem codex_configuration `{Externals} cwd p root ids c :
  CodexProviderConfig_new cwd p root ids = Ok c →
  (thread_text <$> configured_threads c = ids ∧ ids ≠ [] ∧ NoDup ids ∧
   Forall (λ t, id_from_str SessionEntity (thread_text t) = Ok (configured_session_id t)) (configured_threads c) ∧
   (Forall (λ t, thread_text t = id_to_string (configured_session_id t)) (configured_threads c) →
    NoDup (configured_session_id <$> configured_threads c))) ∧
  (length (socket_path c) ≤ 96 ∧ length (proxy_socket_path c) ≤ 96 ∧ socket_path c ≠ proxy_socket_path c ∧
   as_bytes (app_server_uri c) = as_bytes (lit "unix://") ++ socket_path c ∧
   as_bytes (remote_uri c) = as_bytes (lit "unix://") ++ proxy_socket_path c) ∧
  (∀ p' ids' c', CodexProviderConfig_new cwd p' root ids' = Ok c' →
     socket_path c = socket_path c' ∨ proxy_socket_path c = proxy_socket_path c' → random_bits p = random_bits p') ∧
  (∀ (S I V : Type) (HS : EventSink S) (HL : CodexLibrary) (build : Value → result rstring V) bundle schema (s : S) (io : I),
     ProtocolSchema_compile build bundle = Ok schema →
     ∃ parts, CodexProvider_build build bundle s io c = Ok parts ∧ handle_remote_uri parts = remote_uri c ∧
       ∀ thread sid, configured (mapper (world (src_provider (parts_source parts)))) !! thread = Some sid ↔
         ∃ t, t ∈ configured_threads c ∧ thread_text t = thread ∧ configured_session_id t = sid).
Proof.
  intros E. destruct (new_spec _ _ _ _ _ E) as (Hne & Hd & _ & Htexts & Hfinish & Hw).
  destruct (finish_spec _ _ _ _ _ _ (proj1 (well_threads c Hw)) (proj2 (well_threads c Hw)) Hfinish) as (_ & Hid & Hroot & _ & _ & Hv).
  split_and!; try done; try apply Hw; [by apply canonical_sessions|by apply sockets_distinct| |].
  - intros p' ids' c' E' Hs. destruct (new_spec _ _ _ _ _ E') as (_ & _ & _ & _ & Hfinish' & Hw').
    destruct (finish_spec _ _ _ _ _ _ (proj1 (well_threads c' Hw')) (proj2 (well_threads c' Hw')) Hfinish') as (_ & Hid' & Hroot' & _).
    rewrite <-Hid, <-Hid'. apply sockets_identify; [done..| |done]. congruence.
  - intros S I V HS HL build bundle schema s io Hc.
    destruct (build_spec build bundle s io c schema Hv Hc) as (parts & Hb & _ & _ & _ & _ & Hu & pw & Hp & Hm).
    exists parts. split_and!; [done..|]. intros thread sid. rewrite Hp. cbn [source_new src_provider]. rewrite Hm. by apply mapper_configured.
Qed.

(** ** The process *)

(** C32: the managed app server.  Over any number of starts and stops, a stop
    that returns leaves no process: every child launched so far was waited for,
    and the process group of the one that was running got [SIGTERM] and then
    [SIGKILL], whether or not it had ended.  Unless somebody else changes it, the
    directory of the runtime was created once more than removed exactly while it
    is owned, and a stop without failures owns none.  If the clock passes every
    instant, starting and stopping return. *)
Theorem managed_runtime `{Externals} `{!RuntimeEnvironment} `{!DiskFaults} config d w :
  (∀ n pid piped, spawn_app_server n = Ok (pid, piped) → (pid < 2 ^ 31)%N) → (∀ n, ∃ status, child_wait n = Ok status) →
  configured_well config → runtime_reaches config d w →
  (∀ fuel w' r, runtime_halt fuel config w = (w', r) → r ≠ Err Start_Waiting →
     rt_process w' = None ∧ (∀ k, k < launched w' → k ∈ reaped w') ∧ signals w' = signals w ++ stop_signals w) ∧
  ((∀ n m, is_dir config (others_act n m) = is_dir config m) →
     created w = removed w + (if owns_runtime_directory w then 1 else 0) ∧
     (owns_runtime_directory w = true → is_dir config (entries (rt_disk w)) = true) ∧
     ∀ fuel w', runtime_halt fuel config w = (w', Ok ()) → created w' = removed w') ∧
  (passes_every_instant rt_now →
     ends Start_Waiting (λ fuel, runtime_launch fuel config) w ∧ ends Start_Waiting (λ fuel, runtime_halt fuel config) w).
Proof.
  intros Hpids Hwaits Hw Hreach. split_and!.
  - intros fuel w' r E Hr. destruct (runtime_halt_spec Hpids Hwaits fuel config w w' r) as ([Hc Hn] & Hs); try done.
    by eapply reaches_children.
  - intros Hp. pose proof (reaches_files config d w Hp (root_apart config Hw) (socket_apart config Hw) Hreach) as Hf.
    split_and!; [apply Hf|apply Hf|]. intros fuel w' E.
    destruct (runtime_halt_files config Hp (socket_apart config Hw) fuel w w' (Ok ()) Hf E) as [[_ Hc] Ho]; [done|].
    rewrite (Ho eq_refl) in Hc. lia.
  - intros Hc. split; [by apply ends_launch|by apply ends_halt].
Qed.

(** *** Witnesses *)

Definition toy_root : PathBuf := as_bytes (lit "/run/codex").
Definition toy_directory : PathBuf := path_join toy_root (as_bytes (runtime_directory_key provider_1)).
Definition toy_thread : rstring := [v7 4].
Definition toy_provider_config : CodexProviderConfig :=
  let socket := path_join toy_directory APP_SERVER_SOCKET_FILE_NAME in
  let proxy := path_join toy_directory CLIENT_PROXY_SOCKET_FILE_NAME in
  MkConfig provider_1 toy_root toy_directory socket (lit "unix://" ++ default [] (from_utf8 socket)) proxy
    (lit "unix://" ++ default [] (from_utf8 proxy))
    [MkConfiguredThread (MkExternalId (Refine toy_thread Logic.I : NonEmptyText)) session_1] false (as_bytes (lit "codex"))
    (seconds 10) (seconds 5).

Lemma toy_accepted : is_ok (CodexProviderConfig_new (Err []) provider_1 toy_root [toy_thread]) = true.
Proof. vm_compute. reflexivity. Qed.

Lemma codex_configuration_witness :
  ∃ c, CodexProviderConfig_new (Err []) provider_1 toy_root [toy_thread] = Ok c ∧
    thread_text <$> configured_threads c = [toy_thread] ∧ length (socket_path c) ≤ 96 ∧ socket_path c ≠ proxy_socket_path c.
Proof.
  destruct (CodexProviderConfig_new (Err []) provider_1 toy_root [toy_thread]) as [c|e] eqn:E.
  - exists c. destruct (codex_configuration (Err []) provider_1 toy_root [toy_thread] c E) as ((Ht & _) & (Hl & _ & Hd & _) & _).
    split; [reflexivity|]. split; [exact Ht|]. split; [exact Hl|exact Hd].
  - exfalso. pose proof toy_accepted as Ha. rewrite E in Ha. discriminate Ha.
Defined.

(** An app server that never listens. *)
#[export] Instance toy_system : RuntimeEnvironment := {|
  rt_now := N.of_nat; version_output := λ _, Ok (MkProbe true [] (as_bytes (lit "codex-cli 0.166.0")));
  utf8_error_text := λ _, []; semver_parse := λ _, None; spawn_app_server := λ _, Ok (77%N, true);
  spawn_stderr_thread := λ _, Ok (); child_status := λ _, Ok None; child_wait := λ _, Ok (Some 0%Z); send_signal := λ _, Ok ();
  stderr_reads := λ _, []; stderr_finished := λ _, true; socket_connect := λ _, Ok (); socket_option := λ _, Ok ();
  websocket_handshake := λ _, Ok (); handshake_step := λ _, Handshake_Done; socket_bind := λ _, Ok ();
  others_act := λ _ m, m
|}.
#[export] Instance toy_disk_faults : DiskFaults :=
  {| fault := λ _, None; partial_write := λ _, 0; new_dir_mode := 493; temporary_name := λ _, [] |}.

Definition toy_runtime_config : CodexProviderConfig := with_startup_timeout 3 (with_shutdown_timeout 3 toy_provider_config).
Definition toy_launched : RuntimeWorld * result SourceStop unit := runtime_launch 9 toy_runtime_config (runtime_new (MkDisk ∅ 0)).
Definition toy_halted : RuntimeWorld * result SourceStop unit := runtime_halt 9 toy_runtime_config toy_launched.1.

Lemma toy_launched_run :
  toy_launched.2 = Err (Start_Error (Source_StartupTimeout 3)) ∧ child_id <$> rt_process toy_launched.1 = Some 77%N ∧
  launched toy_launched.1 = 1 ∧ owns_runtime_directory toy_launched.1 = true.
Proof. vm_compute. done. Qed.
Lemma toy_halted_ok : toy_halted.2 = Ok ().
Proof. vm_compute. reflexivity. Qed.

Lemma toy_configured : configured_well toy_runtime_config.
Proof.
  apply well_with_timeouts. split; try reflexivity; [by vm_compute..|split; apply Nat.leb_le; by vm_compute|].
  split; [apply NoDup_singleton|]. constructor; [|done]. exact (id_from_to_string session_1).
Qed.

Lemma toy_launched_reached : runtime_reaches toy_runtime_config (MkDisk ∅ 0) toy_launched.1.
Proof.
  destruct toy_launched_run as [Hr _]. unfold toy_launched in *.
  destruct (runtime_launch 9 toy_runtime_config (runtime_new (MkDisk ∅ 0))) as [w r] eqn:E. cbn in *.
  by eapply runtime_reaches_launch; [apply runtime_reaches_new| |exact E|rewrite Hr].
Qed.

Lemma managed_runtime_witness :
  signals toy_halted.1 = [((-77)%Z, SIGTERM); ((-77)%Z, SIGKILL)] ∧ reaped toy_halted.1 = [0] ∧ created toy_halted.1 = removed toy_halted.1.
Proof.
  destruct (managed_runtime toy_runtime_config (MkDisk ∅ 0) toy_launched.1) as (_ & Hfiles & _).
  - intros n pid piped [= <- <-]. reflexivity.
  - intros n. exists (Some 0%Z). reflexivity.
  - exact toy_configured.
  - exact toy_launched_reached.
  - split; [vm_compute; reflexivity|]. split; [vm_compute; reflexivity|].
    destruct (Hfiles (λ n m, eq_refl)) as (_ & _ & Hc). apply (Hc 9). pose proof toy_halted_ok as Hok. unfold toy_halted in *.
    destruct (runtime_halt 9 toy_runtime_config toy_launched.1) as [w r]. cbn in *. by rewrite Hok.
Defined.

(** *** Lost ownership *)

(** Somebody else removes the directory before the first stop and creates it
    again before the second start. *)
Definition meddling (n : nat) (m : gmap Path FsEntry) : gmap Path FsEntry :=
  let dir := components toy_directory in
  if (n =? 18)%nat then delete dir m else if (n =? 21)%nat then <[dir := Fs_Dir 493]> m else m.
Definition meddled_system : RuntimeEnvironment := {|
  rt_now := rt_now; version_output := version_output; utf8_error_text := utf8_error_text; semver_parse := semver_parse;
  spawn_app_server := spawn_app_server; spawn_stderr_thread := spawn_stderr_thread; child_status := child_status;
  child_wait := child_wait; send_signal := send_signal; stderr_reads := stderr_reads; stderr_finished := stderr_finished;
  socket_connect := socket_connect; socket_option := socket_option; websocket_handshake := websocket_handshake;
  handshake_step := handshake_step; socket_bind := socket_bind; others_act := meddling
|}.
Definition meddled_1 : RuntimeWorld * result SourceStop unit :=
  runtime_launch (H0 := meddled_system) 9 toy_runtime_config (runtime_new (MkDisk ∅ 0)).
Definition meddled_2 : RuntimeWorld * result SourceStop unit :=
  runtime_halt (H0 := meddled_system) 9 toy_runtime_config meddled_1.1.
Definition meddled_3 : RuntimeWorld * result SourceStop unit :=
  runtime_launch (H0 := meddled_system) 9 toy_runtime_config meddled_2.1.
Definition meddled_4 : RuntimeWorld * result SourceStop unit :=
  runtime_halt (H0 := meddled_system) 9 toy_runtime_config meddled_3.1.

(** A stop that finds its directory missing succeeds and keeps owning it; a start
    that is then refused because the path is taken leads to a stop that removes
    what somebody else created. *)
Lemma stale_ownership :
  meddled_2.2 = Ok () ∧ owns_runtime_directory meddled_2.1 = true ∧
  match meddled_3.2 with Err (Start_Error (Source_RuntimePathOccupied _)) => True | _ => False end ∧
  created meddled_4.1 = 1 ∧ is_dir toy_runtime_config (entries (rt_disk meddled_3.1)) = true ∧
  is_dir toy_runtime_config (entries (rt_disk meddled_4.1)) = false.
Proof. vm_compute. done. Qed.
