(* ===== verification/Transport.v ===== *)
(** * WebSocket transports

    Models [agentpulse-transport/src] up to its sockets: the configurations and
    their boundaries, the checks of an upgrade request with the bearer
    credential, and the outcomes of reading and closing.  TLS, HTTP and
    WebSocket framing ([rustls], [tungstenite]) are third-party code. *)

From stdpp Require Import base strings numbers sorting gmap list.
From S2P Require Import Prelude Bytes Dto Net.

Definition DEFAULT_MAX_MESSAGE_BYTES : N := 1048576.

Inductive LoopbackWebSocketError : Type :=
| Ws_NonLoopbackAddress (address : SocketAddr)
| Ws_NonLoopbackPeer (address : SocketAddr)
| Ws_InvalidPath (path : rstring)
| Ws_InvalidSubprotocol (subprotocol : rstring)
| Ws_InvalidLimit (field : string)
| Ws_Io (operation : string) (source : rstring)
| Ws_Handshake (message : rstring)
| Ws_BinaryFrame
| Ws_MessageTooLarge (actual maximum : N)
| Ws_WebSocket (operation : string) (message : rstring)
| Ws_TlsIdentity (message : rstring)
| Ws_Tls (message : rstring)
| Ws_NonPrivateAddress (address : SocketAddr).

#[export] Instance LoopbackWebSocketError_eq_dec : EqDecision LoopbackWebSocketError.
Proof. solve_decision. Defined.

(** ** Configuration *)

Record TlsServerIdentity : Type := MkTlsIdentity {
  certificate_chain_der : list (list Byte.byte);
  private_key_der : list Byte.byte
}.

Definition TlsServerIdentity_from_der (chain : list (list Byte.byte)) (key : list Byte.byte) :
    result LoopbackWebSocketError TlsServerIdentity :=
  if is_empty chain then Err (Ws_TlsIdentity (lit "certificate chain is empty"))
  else if is_empty key then Err (Ws_TlsIdentity (lit "private key is empty"))
  else Ok (MkTlsIdentity chain key).

Definition is_ascii_whitespace (c : N) : bool :=
  (c =? 32)%N || (c =? 9)%N || (c =? 10)%N || (c =? 12)%N || (c =? 13)%N.

(** The checks both configurations share. *)
Definition validate_endpoint_settings (path subprotocol : rstring) (handshake_timeout io_poll_interval : Duration)
    (max_message_bytes : N) : result LoopbackWebSocketError unit :=
  if negb (starts_with (lit "/") path) || existsb (λ c, (c =? 63)%N || (c =? 35)%N) path
  then Err (Ws_InvalidPath path)
  else if is_empty (trim subprotocol) || existsb (λ c, is_ascii_whitespace c || (c =? 44)%N) subprotocol
  then Err (Ws_InvalidSubprotocol subprotocol)
  else if (as_nanos handshake_timeout =? 0)%N then Err (Ws_InvalidLimit "handshake timeout")
  else if (as_nanos io_poll_interval =? 0)%N then Err (Ws_InvalidLimit "I/O poll interval")
  else if (max_message_bytes =? 0)%N then Err (Ws_InvalidLimit "maximum message bytes")
  else Ok ().

Record LoopbackWebSocketConfig : Type := MkLoopbackConfig {
  lo_bind_address : SocketAddr;
  lo_path : rstring;
  lo_subprotocol : rstring;
  lo_handshake_timeout : Duration;
  lo_io_poll_interval : Duration;
  lo_max_message_bytes : N
}.

Definition loopback_validate (c : LoopbackWebSocketConfig) : result LoopbackWebSocketError unit :=
  if negb (is_loopback (socket_ip (lo_bind_address c))) then Err (Ws_NonLoopbackAddress (lo_bind_address c))
  else validate_endpoint_settings (lo_path c) (lo_subprotocol c) (lo_handshake_timeout c)
         (lo_io_poll_interval c) (lo_max_message_bytes c).

Definition five_seconds : Duration := MkDuration (Refine 5%N I) (Refine 0%N I).
Definition hundred_millis : Duration := MkDuration (Refine 0%N I) (Refine 100000000%N I).

Definition LoopbackWebSocketConfig_new (bind_address : SocketAddr) (path subprotocol : rstring) :
    result LoopbackWebSocketError LoopbackWebSocketConfig :=
  let c := MkLoopbackConfig bind_address path subprotocol five_seconds hundred_millis DEFAULT_MAX_MESSAGE_BYTES in
  _ ← loopback_validate c; Ok c.

Definition loopback_with_handshake_timeout (d : Duration) (c : LoopbackWebSocketConfig) : LoopbackWebSocketConfig :=
  MkLoopbackConfig (lo_bind_address c) (lo_path c) (lo_subprotocol c) d (lo_io_poll_interval c) (lo_max_message_bytes c).
Definition loopback_with_io_poll_interval (d : Duration) (c : LoopbackWebSocketConfig) : LoopbackWebSocketConfig :=
  MkLoopbackConfig (lo_bind_address c) (lo_path c) (lo_subprotocol c) (lo_handshake_timeout c) d (lo_max_message_bytes c).
Definition loopback_with_max_message_bytes (n : N) (c : LoopbackWebSocketConfig) : LoopbackWebSocketConfig :=
  MkLoopbackConfig (lo_bind_address c) (lo_path c) (lo_subprotocol c) (lo_handshake_timeout c) (lo_io_poll_interval c) n.

(** An authorizer is what it answers for a client and a token. *)
Abbreviation Authorizer := (rstring → rstring → bool).

Record TlsWebSocketConfig : Type := MkTlsConfig {
  tls_bind_address : SocketAddr;
  tls_allow_public : bool;
  tls_path : rstring;
  tls_subprotocol : rstring;
  tls_identity : TlsServerIdentity;
  tls_authorizer : option Authorizer;
  tls_handshake_timeout : Duration;
  tls_io_poll_interval : Duration;
  tls_max_message_bytes : N
}.

Definition is_private_endpoint (ip : IpAddr) : bool :=
  match ip with
  | V4 a b _ _ => is_loopback ip || ipv4_is_private a b || ipv4_is_link_local a b
  | V6 segments => is_loopback ip || ipv6_is_unique_local segments || ipv6_is_unicast_link_local segments
  end.

Definition tls_validate (c : TlsWebSocketConfig) : result LoopbackWebSocketError unit :=
  let ip := socket_ip (tls_bind_address c) in
  if (negb (tls_allow_public c) && negb (is_private_endpoint ip)) || is_multicast ip
  then Err (Ws_NonPrivateAddress (tls_bind_address c))
  else validate_endpoint_settings (tls_path c) (tls_subprotocol c) (tls_handshake_timeout c)
         (tls_io_poll_interval c) (tls_max_message_bytes c).

Definition tls_new_with_boundary (bind_address : SocketAddr) (path subprotocol : rstring)
    (identity : TlsServerIdentity) (allow_public : bool) : result LoopbackWebSocketError TlsWebSocketConfig :=
  let c := MkTlsConfig bind_address allow_public path subprotocol identity None five_seconds hundred_millis
             DEFAULT_MAX_MESSAGE_BYTES in
  _ ← tls_validate c; Ok c.
Definition TlsWebSocketConfig_new a path subprotocol identity := tls_new_with_boundary a path subprotocol identity false.
Definition TlsWebSocketConfig_new_public a path subprotocol identity :=
  tls_new_with_boundary a path subprotocol identity true.

Definition with_bearer_authorizer (f : Authorizer) (c : TlsWebSocketConfig) : TlsWebSocketConfig :=
  MkTlsConfig (tls_bind_address c) (tls_allow_public c) (tls_path c) (tls_subprotocol c) (tls_identity c) (Some f)
    (tls_handshake_timeout c) (tls_io_poll_interval c) (tls_max_message_bytes c).
Definition tls_with_handshake_timeout (d : Duration) (c : TlsWebSocketConfig) : TlsWebSocketConfig :=
  MkTlsConfig (tls_bind_address c) (tls_allow_public c) (tls_path c) (tls_subprotocol c) (tls_identity c)
    (tls_authorizer c) d (tls_io_poll_interval c) (tls_max_message_bytes c).
Definition tls_with_io_poll_interval (d : Duration) (c : TlsWebSocketConfig) : TlsWebSocketConfig :=
  MkTlsConfig (tls_bind_address c) (tls_allow_public c) (tls_path c) (tls_subprotocol c) (tls_identity c)
    (tls_authorizer c) (tls_handshake_timeout c) d (tls_max_message_bytes c).
Definition tls_with_max_message_bytes (n : N) (c : TlsWebSocketConfig) : TlsWebSocketConfig :=
  MkTlsConfig (tls_bind_address c) (tls_allow_public c) (tls_path c) (tls_subprotocol c) (tls_identity c)
    (tls_authorizer c) (tls_handshake_timeout c) (tls_io_poll_interval c) n.

(** ** Listening *)

(** Whether [rustls] accepts an identity. *)
Class TlsLibrary : Type := { server_config : TlsServerIdentity → result rstring unit }.

(** [bind], given what the system answers: the bound address, or the failing
    operation and its error. *)
Definition loopback_bind (c : LoopbackWebSocketConfig) (system : result (string * rstring) SocketAddr) :
    result LoopbackWebSocketError SocketAddr :=
  _ ← loopback_validate c; map_err (λ '(operation, source), Ws_Io operation source) system.

Definition tls_bind `{TlsLibrary} (c : TlsWebSocketConfig) (system : result (string * rstring) SocketAddr) :
    result LoopbackWebSocketError SocketAddr :=
  _ ← tls_validate c;
  _ ← map_err Ws_TlsIdentity (server_config (tls_identity c));
  map_err (λ '(operation, source), Ws_Io operation source) system.

(** ** Upgrades *)

(** An HTTP request: a header has a text if its bytes are visible ASCII. *)
Record HttpRequest : Type := MkHttpRequest {
  uri_path : rstring;
  uri_query : option rstring;
  http_headers : list (rstring * option rstring)
}.

Inductive Rejection : Type := MkRejection (status : N) (message : string).

(** [HeaderMap::get] and [HeaderValue::to_str]: the first value. *)
Definition header_text (name : string) (request : HttpRequest) : option rstring :=
  '(_, value) ← List.find (λ h, bool_decide (h.1 = lit name)) (http_headers request); value.

Definition offered (expected : rstring) (value : rstring) : bool :=
  existsb (λ candidate, bool_decide (trim candidate = expected)) (split_on 44 value).

Definition validate_upgrade (request : HttpRequest) (expected_path expected_subprotocol : rstring) :
    result Rejection unit :=
  if negb (bool_decide (uri_path request = expected_path)) || bool_decide (is_Some (uri_query request))
  then Err (MkRejection 404 "unknown WebSocket path")
  else if negb (from_option (offered expected_subprotocol) false (header_text "sec-websocket-protocol" request))
  then Err (MkRejection 400 "required WebSocket subprotocol was not offered")
  else Ok ().

(** The same checks, of the loopback transport. *)
Definition loopback_validate_request (request : HttpRequest) (expected_path expected_subprotocol : rstring) :
    result Rejection unit :=
  validate_upgrade request expected_path expected_subprotocol.

Definition header (name : string) (request : HttpRequest) : option rstring :=
  value ← header_text name request;
  if negb (is_empty (trim value)) && (byte_len value <=? 512)%nat then Some value else None.

Definition authorization_required : Rejection := MkRejection 401 "device authorization required".

(** The handshake callback of [TlsWebSocketListener::try_accept]: the
    credentials it captures. *)
Definition upgrade_callback (c : TlsWebSocketConfig) (request : HttpRequest) :
    result Rejection (option (rstring * rstring)) :=
  _ ← validate_upgrade request (tls_path c) (tls_subprotocol c);
  match tls_authorizer c with
  | None => Ok None
  | Some authorize =>
      client_id ← ok_or authorization_required (header "x-agentpulse-client-id" request);
      bearer ← ok_or authorization_required
        (value ← header "authorization" request;
         token ← strip_prefix (lit "Bearer ") value;
         if is_empty token then None else Some token);
      if negb (authorize client_id bearer) then Err (MkRejection 401 "device authorization failed")
      else Ok (Some (client_id, bearer))
  end.

Record TlsWebSocket : Type := MkTlsSocket {
  tls_peer_address : SocketAddr;
  socket_max_message_bytes : N;
  credentials : option (rstring * rstring);
  socket_authorizer : option Authorizer
}.

(** What the system and the libraries do with the next connection: none is
    waiting, an operation fails, or the client asks for an upgrade. *)
Inductive Incoming : Type :=
| Incoming_None
| Incoming_Failed (error : LoopbackWebSocketError)
| Incoming_Request (peer : SocketAddr) (request : HttpRequest).

(** How [tungstenite] describes a rejected upgrade. *)
Definition tls_try_accept (describe : Rejection → rstring) (c : TlsWebSocketConfig) (incoming : Incoming) :
    result LoopbackWebSocketError (option TlsWebSocket) :=
  match incoming with
  | Incoming_None => Ok None
  | Incoming_Failed error => Err error
  | Incoming_Request peer request =>
      credentials ← map_err (λ r, Ws_Handshake (describe r)) (upgrade_callback c request);
      Ok (Some (MkTlsSocket peer (tls_max_message_bytes c) credentials (tls_authorizer c)))
  end.

Record LoopbackWebSocket : Type := MkLoopbackSocket {
  lo_peer_address : SocketAddr;
  lo_socket_max_message_bytes : N
}.

Definition loopback_try_accept (describe : Rejection → rstring) (c : LoopbackWebSocketConfig) (incoming : Incoming) :
    result LoopbackWebSocketError (option LoopbackWebSocket) :=
  match incoming with
  | Incoming_None => Ok None
  | Incoming_Failed error => Err error
  | Incoming_Request peer request =>
      if negb (is_loopback (socket_ip peer)) then Err (Ws_NonLoopbackPeer peer)
      else
        _ ← map_err (λ r, Ws_Handshake (describe r))
              (loopback_validate_request request (lo_path c) (lo_subprotocol c));
        Ok (Some (MkLoopbackSocket peer (lo_max_message_bytes c)))
  end.

Definition authenticated_client_id (s : TlsWebSocket) : option rstring := fst <$> credentials s.

(** [authorizer] is what it answers now. *)
Definition remains_authorized (now : option Authorizer) (s : TlsWebSocket) : bool :=
  match now, credentials s with
  | Some authorize, Some (client_id, token) => authorize client_id token
  | None, None => true
  | _, _ => false
  end.

(** ** Messages *)

Inductive TransportRead : Type :=
| Read_Text (text : rstring) | Read_Pong | Read_Control | Read_Timeout | Read_Closed.

(** [tungstenite::Message] and [tungstenite::Error], as far as they are told apart. *)
Inductive WsMessage : Type :=
| Ws_TextMessage (text : rstring) | Ws_BinaryMessage | Ws_PingMessage | Ws_PongMessage | Ws_CloseMessage
| Ws_FrameMessage.
Inductive WsError : Type :=
| WsError_WouldBlock | WsError_TimedOut | WsError_Closed | WsError_Other (message : rstring).

(** [read], given the message and, for a ping, the outcome of the flush. *)
Definition read_outcome (flush_operation read_operation : string) (received : result WsError WsMessage)
    (flushed : result rstring unit) : result LoopbackWebSocketError TransportRead :=
  match received with
  | Ok (Ws_TextMessage text) => Ok (Read_Text text)
  | Ok Ws_BinaryMessage => Err Ws_BinaryFrame
  | Ok Ws_PingMessage => _ ← map_err (Ws_WebSocket flush_operation) flushed; Ok Read_Control
  | Ok Ws_PongMessage => Ok Read_Pong
  | Ok Ws_CloseMessage => Ok Read_Closed
  | Ok Ws_FrameMessage => Ok Read_Control
  | Err WsError_WouldBlock | Err WsError_TimedOut => Ok Read_Timeout
  | Err WsError_Closed => Ok Read_Closed
  | Err (WsError_Other message) => Err (Ws_WebSocket read_operation message)
  end.

Definition validate_outgoing_size (actual maximum : N) : result LoopbackWebSocketError unit :=
  if (maximum <? actual)%N then Err (Ws_MessageTooLarge actual maximum) else Ok ().

(** [send_text], given what the library answers; the listeners name the operation. *)
Definition send_text_outcome (operation : string) (maximum : N) (text : rstring) (sent : result rstring unit) :
    result LoopbackWebSocketError unit :=
  _ ← validate_outgoing_size (N.of_nat (byte_len text)) maximum;
  map_err (Ws_WebSocket operation) sent.

(** [while reason.len() > MAX_REASON_BYTES { reason.pop(); }], on the reversed reason. *)
Fixpoint drop_until_short (reversed : rstring) : rstring :=
  match reversed with
  | [] => []
  | _ :: rest => if (123 <? byte_len (reverse reversed))%nat then drop_until_short rest else reversed
  end.
Definition truncate_close_reason (reason : rstring) : rstring := reverse (drop_until_short (reverse reason)).

(** [close], given what the library answers and how it describes an error. *)
Definition close_outcome (operation : string) (describe : WsError → rstring) (closed : result WsError unit) :
    result LoopbackWebSocketError unit :=
  match closed with
  | Ok _ | Err WsError_Closed => Ok ()
  | Err error => Err (Ws_WebSocket operation (describe error))
  end.

(** ** Correctness

    Who passes the upgrade of the TLS listener, and what is cut from the reason
    of a close frame. *)

(** ** Upgrades *)

(** What an upgrade that names a credential must carry. *)
Lemma upgrade_callback_Ok c request captured :
  upgrade_callback c request = Ok captured →
  uri_path request = tls_path c ∧ uri_query request = None ∧
  (∃ offer, header_text "sec-websocket-protocol" request = Some offer ∧ offered (tls_subprotocol c) offer = true) ∧
  match tls_authorizer c with
  | None => captured = None
  | Some authorize => ∃ client_id token, captured = Some (client_id, token) ∧ authorize client_id token = true ∧ token ≠ []
  end.
Proof.
  intros ([] & Hv & L)%bind_Ok. unfold validate_upgrade in Hv.
  destruct (bool_decide_reflect (uri_path request = tls_path c)) as [Hp|]; [|done].
  destruct (uri_query request) eqn:Hq; [done|]. simpl in Hv.
  destruct (header_text _ request) as [offer|] eqn:Ho; [|done]. simpl in Hv. destruct (offered _ offer) eqn:Hoff; [|done].
  split_and!; [done..|by exists offer|]. destruct (tls_authorizer c) as [authorize|]; [|by injection L].
  apply bind_Ok in L as (client & _ & L). apply bind_Ok in L as (token & Ht%ok_or_Ok & L).
  destruct (header "authorization" request) as [value|]; [|done]. cbn [mbind option_bind] in Ht.
  destruct (strip_prefix _ value) as [rest|]; [|done]. cbn [mbind option_bind] in Ht. destruct (is_empty rest) eqn:He; [done|]. injection Ht as ->.
  destruct (authorize client token) eqn:Ha; [|done]. injection L as <-. exists client, token. split_and!; [done..|]. by intros ->.
Qed.

(** ** Close reasons *)

Lemma byte_len_prefix s t : s `prefix_of` t → byte_len s ≤ byte_len t.
Proof. intros [k ->]. rewrite byte_len_app. lia. Qed.

(** A longest prefix that fits. *)
Lemma drop_until_short_spec l :
  let kept := reverse (drop_until_short l) in
  byte_len kept ≤ 123 ∧ kept `prefix_of` reverse l ∧
  ∀ s, s `prefix_of` reverse l → byte_len s ≤ 123 → s `prefix_of` kept.
Proof.
  simpl. induction l as [|c l IH]; cbn [drop_until_short]; [by split_and!; [vm_compute; lia|..]|].
  destruct (Nat.ltb_spec 123 (byte_len (reverse (c :: l)))) as [Hlong|Hshort]; [|by split_and!].
  destruct IH as (Hlen & Hpre & Hmax). rewrite reverse_cons in *. split_and!; [done|by apply prefix_app_r|].
  intros s Hs Hb. apply Hmax; [|done]. destruct Hs as [k Hk]. destruct k as [|d k _] using rev_ind.
  - rewrite app_nil_r in Hk. subst s. lia.
  - rewrite (assoc_L (++)) in Hk. apply app_inj_tail in Hk as [Hk _]. by exists k.
Qed.
