(* ===== verification/NativeWorker.v ===== *)
(** * The worker of the Native Channel

    Models the polling loop [run_worker] of
    [agentpulse-channels/native/src/runtime.rs] with its sockets and timers, and
    the Source that starts and stops it.

    The worker is a program counter ([WorkerPhase]) and the state it works on;
    one step ([worker_act]) is the code between two questions to the system,
    whose answer is the argument of the action.  Other threads act between the
    steps.  What is written to the sockets is recorded. *)

From stdpp Require Import base strings numbers gmap list.
From S2P Require Import Prelude Values Snapshots Capability Interaction Event Aggregate Routing.
From S2P Require Import Bytes Bridge Runtime Dto Net Convert NativeProtocol Native Transport.

(** ** The endpoint (config.rs, lib.rs) *)

Definition NATIVE_WEBSOCKET_PATH : rstring := lit "/agentpulse/native/v3".
Definition NATIVE_WEBSOCKET_SUBPROTOCOL : rstring := lit "agentpulse.native.v3".

Section endpoint.
Context `{Externals}.

Definition transport_config (c : NativeChannelConfig) : result NativeChannelBuildError LoopbackWebSocketConfig :=
  _ ← config_validate c;
  map_err (λ _, InvalidSetting "loopback WebSocket" "transport configuration is invalid")
    (base ← LoopbackWebSocketConfig_new (bind_address c) NATIVE_WEBSOCKET_PATH NATIVE_WEBSOCKET_SUBPROTOCOL;
     Ok (loopback_with_max_message_bytes (raw (config_max_frame_bytes c))
           (loopback_with_io_poll_interval (io_poll_interval c) (loopback_with_handshake_timeout (handshake_timeout c) base)))).

(** The identity and the authorizer are those of the transport's configuration. *)
Definition tls_transport_config (identity : TlsServerIdentity) (authorizer : Authorizer) (c : NativeChannelConfig) :
    result NativeChannelBuildError (option TlsWebSocketConfig) :=
  match transport c with
  | Transport_Loopback => Ok None
  | Transport_AuthenticatedLan =>
      _ ← config_validate c;
      let constructor := if allow_public c then TlsWebSocketConfig_new_public else TlsWebSocketConfig_new in
      map_err (λ error, match error with
                        | Ws_NonPrivateAddress address => NonPrivateLanAddress address
                        | _ => InvalidSetting "TLS LAN WebSocket" "transport configuration is invalid"
                        end)
        (base ← constructor (bind_address c) NATIVE_WEBSOCKET_PATH NATIVE_WEBSOCKET_SUBPROTOCOL identity;
         Ok (Some (tls_with_max_message_bytes (raw (config_max_frame_bytes c))
                     (tls_with_io_poll_interval (io_poll_interval c)
                       (tls_with_handshake_timeout (handshake_timeout c) (with_bearer_authorizer authorizer base))))))
  end.

(** The descriptor of [NativeChannel::build]; [version]: the one of the package. *)
Definition native_descriptor (version : rstring) (c : NativeChannelConfig) : result NativeChannelBuildError ChannelDescriptor :=
  kind ← map_err Build_Domain (Kind_new ChannelKindFamily (lit "native"));
  display_name ← map_err Build_Domain (NonEmptyText_new (lit "Native Local"));
  version ← map_err Build_Domain (NonEmptyText_new version);
  let capabilities := foldl union ChannelCaps.NOTIFICATION
    [ChannelCaps.SESSION_VIEW; ChannelCaps.REALTIME_SYNC; ChannelCaps.APPROVAL; ChannelCaps.FORM_INPUT; ChannelCaps.TEXT_INPUT;
     ChannelCaps.REMOTE_COMMAND] in
  Ok (channel_with_version (ChannelDescriptor_new (config_channel_id c) kind display_name capabilities) version).

(** The descriptor and the state the Port and the worker share. *)
Definition NativeChannel_build (version : rstring) (initial : NativeChannelSnapshot) (c : NativeChannelConfig) :
    result NativeChannelBuildError (ChannelDescriptor * DeliveryState) :=
  _ ← config_validate c;
  descriptor ← native_descriptor version c;
  Ok (descriptor, DeliveryState_new (outbound_capacity c) initial).

(** *** Correctness *)

Lemma tls_transport_total identity authorizer c :
  config_validate c = Ok () → transport c = Transport_AuthenticatedLan →
  is_multicast (socket_ip (bind_address c)) = false → allow_public c || is_private_endpoint (socket_ip (bind_address c)) = true →
  ∃ tls, tls_transport_config identity authorizer c = Ok (Some tls) ∧ tls_bind_address tls = bind_address c ∧
    tls_allow_public tls = allow_public c ∧ tls_authorizer tls = Some authorizer ∧ tls_identity tls = identity ∧
    tls_max_message_bytes tls = raw (config_max_frame_bytes c).
Proof.
  intros Hv Ht Hm Hp. unfold tls_transport_config. rewrite Ht, Hv. cbn. unfold TlsWebSocketConfig_new_public, TlsWebSocketConfig_new.
  destruct (allow_public c) eqn:Ea; unfold tls_new_with_boundary, tls_validate; cbn [tls_bind_address tls_allow_public]; rewrite Hm; cbn in Hp |- *.
  - eexists. split; [reflexivity|]. by split_and!.
  - rewrite Hp. eexists. split; [reflexivity|]. by split_and!.
Qed.
End endpoint.

(** ** Sockets *)

Inductive CloseCode : Type := Close_Away | Close_Error | Close_Policy | Close_Protocol.

(** [Out_Frame]: a frame of the queue; [Out_Direct]: an error that bypasses it. *)
Inductive SocketOutput : Type :=
| Out_Frame (text : rstring)
| Out_Direct (text : rstring)
| Out_Ping
| Out_Close (code : CloseCode) (reason : rstring).

Inductive NativeWebSocket : Type :=
| Socket_Loopback (socket : LoopbackWebSocket)
| Socket_Tls (socket : TlsWebSocket).

Definition socket_client_id (s : NativeWebSocket) : option rstring :=
  match s with Socket_Loopback _ => None | Socket_Tls socket => authenticated_client_id socket end.
(** [authorizer]: what the authorizer of the listener answers now. *)
Definition socket_remains_authorized (authorizer : option Authorizer) (s : NativeWebSocket) : bool :=
  match s with Socket_Loopback _ => true | Socket_Tls socket => remains_authorized authorizer socket end.

(** A socket is known by the number of its acceptance; instants are nanoseconds. *)
Record Connection : Type := MkConnection {
  conn_number : nat;
  conn_socket : NativeWebSocket;
  accepted_at : N;
  last_activity : N;
  last_ping : N
}.
Definition set_activity (now : N) (c : Connection) : Connection :=
  MkConnection (conn_number c) (conn_socket c) (accepted_at c) now (last_ping c).
Definition set_last_ping (now : N) (c : Connection) : Connection :=
  MkConnection (conn_number c) (conn_socket c) (accepted_at c) (last_activity c) now.

(** The rest of the monitoring data. *)
Record WorkerMonitor : Type := MkMonitor {
  frames_sent : N;
  frames_received : N;
  monitor_error : option rstring
}.

(** Where the worker is: at the head of its loop, about to accept, about to ask
    whether the client is still authorized or whether it must be aborted, sending
    the queue, at its timers, reading, or back. *)
Inductive WorkerPhase : Type :=
| At_Head
| At_Accept
| At_Authorize
| At_Abort
| At_Send
| At_Timers
| At_Read
| Returned (r : result rstring unit).

Inductive WorkerAction : Type :=
| Look (stop : bool)
| Accept (incoming : result LoopbackWebSocketError (option NativeWebSocket)) (now : N)
| Authorize (authorizer : option Authorizer)
| Abort_reason
| Send (answer : result LoopbackWebSocketError unit)
| Timers (now : N) (ping : result LoopbackWebSocketError unit)
| Read (outcome : result LoopbackWebSocketError TransportRead) (now : N) (fresh_id : rstring).

(** Texts of errors, as the source's [Display] renders them. *)
Class WorkerTexts : Type := {
  show_transport_error : LoopbackWebSocketError → rstring;
  show_native_error : NativeProtocolError → rstring
}.

Section worker.
Context `{Externals} `{NativeJson} `{!ErrorTexts} `{!WorkerTexts}.
Context (config : NativeChannelConfig) (descriptor : ChannelDescriptor) (thread : ThreadId) (h : ChannelActionHandle).

Record NativeWorker : Type := MkWorker {
  served : NativeWorld;
  active : option Connection;
  outputs : list (nat * SocketOutput);
  next_socket : nat;
  monitor : WorkerMonitor;
  phase : WorkerPhase
}.
Implicit Types (w : NativeWorker) (n : NativeWorld) (c : Connection).

Definition set_served n w : NativeWorker := MkWorker n (active w) (outputs w) (next_socket w) (monitor w) (phase w).
Definition set_active c w : NativeWorker := MkWorker (served w) (Some c) (outputs w) (next_socket w) (monitor w) (phase w).
Definition set_monitor m w : NativeWorker := MkWorker (served w) (active w) (outputs w) (next_socket w) m (phase w).
Definition set_phase p w : NativeWorker := MkWorker (served w) (active w) (outputs w) (next_socket w) (monitor w) p.
Definition emit (number : nat) (l : list SocketOutput) w : NativeWorker :=
  MkWorker (served w) (active w) (outputs w ++ (pair number <$> l)) (next_socket w) (monitor w) (phase w).

Definition record_error (message : rstring) w : NativeWorker :=
  set_monitor (MkMonitor (frames_sent (monitor w)) (frames_received (monitor w)) (Some message)) w.
Definition count_sent w : NativeWorker :=
  set_monitor (MkMonitor (frames_sent (monitor w) + 1) (frames_received (monitor w)) (monitor_error (monitor w))) w.
Definition count_received w : NativeWorker :=
  set_monitor (MkMonitor (frames_sent (monitor w)) (frames_received (monitor w) + 1) (monitor_error (monitor w))) w.

(** [let _ = send_direct(..)] *)
Definition send_direct (message : NativeServerMessage) : list SocketOutput :=
  match server_text message with Ok text => [Out_Direct text] | Err _ => [] end.

(** [disconnect(..); connection = None; continue] *)
Definition end_connection w : NativeWorker :=
  MkWorker (disconnect thread h (served w)) None (outputs w) (next_socket w) (monitor w) At_Head.

(** The health after the listener failed, set after the disconnect. *)
Definition set_failed (s : NativeChannelSnapshot) : NativeChannelSnapshot :=
  MkSnapshot Health_Failed None (connections s) (discoveries s) (subscription_count s) (domain_frames s) (disconnects s).
Definition fail_status n : NativeWorld :=
  let d := native_delivery n in set_native_delivery (set_status (set_failed (status d)) d) n.

(** The close of the active connection, if there is one. *)
Definition close_active (code : CloseCode) (reason : rstring) w : NativeWorker :=
  match active w with Some c => emit (conn_number c) [Out_Close code reason] w | None => w end.

Definition busy_message : NativeServerMessage :=
  Server_Error None Code_ConnectionBusy (lit "another Native client is already connected") false.

Definition is_handshake_error (e : LoopbackWebSocketError) : bool :=
  match e with Ws_Handshake _ => true | _ => false end.

(** After the match on [listener.try_accept()]. *)
Definition after_accept w : NativeWorker := set_phase (match active w with Some _ => At_Authorize | None => At_Head end) w.

Definition accept (incoming : result LoopbackWebSocketError (option NativeWebSocket)) (now : N) w : NativeWorker :=
  match incoming with
  | Ok (Some socket) =>
      let number := next_socket w in
      let w := MkWorker (served w) (active w) (outputs w) (1 + number) (monitor w) (phase w) in
      match active w with
      | Some _ =>
          after_accept (emit number (send_direct busy_message ++ [Out_Close Close_Policy (lit "Native Channel is busy")]) w)
      | None =>
          after_accept (set_active (MkConnection number socket now now now)
                          (set_served (set_connection (Some false) (served w)) w))
      end
  | Ok None => after_accept w
  | Err error =>
      let w := record_error (show_transport_error error) w in
      if is_handshake_error error then after_accept w
      else
        let w := end_connection (close_active Close_Error (lit "Native listener failed") w) in
        set_phase (Returned (Err (show_transport_error error))) (set_served (fail_status (served w)) w)
  end.

Definition authorize (authorizer : option Authorizer) c w : NativeWorker :=
  if socket_remains_authorized authorizer (conn_socket c) then set_phase At_Abort w
  else
    let diagnostic := lit "Native device credential was revoked" in
    end_connection (record_error diagnostic (emit (conn_number c) [Out_Close Close_Policy diagnostic] w)).

Definition check_abort c w : NativeWorker :=
  match abort_reason (native_delivery (served w)) with
  | Some reason => end_connection (emit (conn_number c) [Out_Close Close_Error reason] (record_error reason w))
  | None => set_phase At_Send w
  end.

(** One turn of the loop that sends the queue. *)
Definition send_next (answer : result LoopbackWebSocketError unit) c w : NativeWorker :=
  let d := native_delivery (served w) in
  match outgoing d with
  | [] => set_phase At_Timers w
  | frame :: rest =>
      let w := set_served (set_native_delivery (set_outgoing rest d) (served w)) w in
      match answer with
      | Ok _ => count_sent (emit (conn_number c) [Out_Frame frame] w)
      | Err error => end_connection (record_error (show_transport_error error) w)
      end
  end.

Definition is_handshaken w : bool := match native_connection (served w) with Some true => true | _ => false end.

Definition timers (now : N) (ping : result LoopbackWebSocketError unit) c w : NativeWorker :=
  if negb (is_handshaken w) && (as_nanos (handshake_timeout config) <=? now - accepted_at c)%N then
    let reason := lit "client hello timed out" in
    end_connection (emit (conn_number c)
      (send_direct (protocol_error None Code_InvalidHandshake reason false) ++ [Out_Close Close_Policy reason]) w)
  else if (as_nanos (idle_timeout config) <=? now - last_activity c)%N then
    end_connection (emit (conn_number c) [Out_Close Close_Away (lit "Native client timed out")] w)
  else if is_handshaken w && (as_nanos (ping_interval config) <=? now - last_ping c)%N then
    match ping with
    | Err error => end_connection (record_error (show_transport_error error) w)
    | Ok _ => set_phase At_Read (set_active (set_last_ping now c) (emit (conn_number c) [Out_Ping] w))
    end
  else set_phase At_Read w.

(** A failure that ends the connection is reported on it before. *)
Definition report_failure (code : NativeErrorCode) (close : CloseCode) (error : NativeProtocolError) c w : NativeWorker :=
  let diagnostic := show_native_error error in
  end_connection (record_error diagnostic (emit (conn_number c)
    (send_direct (protocol_error None code diagnostic false) ++ [Out_Close close diagnostic]) w)).

(** The arm [TransportRead::Text]. *)
Definition read_text (text : rstring) (fresh_id : rstring) c w : NativeWorker :=
  match decode_client_message (as_bytes text) with
  | Err error => report_failure Code_InvalidRequest Close_Protocol error c w
  | Ok message =>
      let '(n', r) :=
        if is_handshaken w then process_ready_message thread h message (served w)
        else on_delivery (process_hello config descriptor fresh_id (socket_client_id (conn_socket c)) message) (served w) in
      let w := set_served n' w in
      match r with
      | Ok _ => set_phase At_Head (set_served (set_connection (Some true) n') w)
      | Err (Recoverable error) =>
          let '(n'', queued) := on_delivery (enqueue_control error) n' in
          let w := set_phase At_Head (set_served n'' w) in
          match queued with Ok _ => w | Err send_error => record_error (show_native_error send_error) w end
      | Err (Fatal error) => report_failure Code_InvalidHandshake Close_Policy error c w
      end
  end.

(** [match active.socket.read()] *)
Definition read (outcome : result LoopbackWebSocketError TransportRead) (now : N) (fresh_id : rstring) c w : NativeWorker :=
  match outcome with
  | Ok (Read_Text text) => let c := set_activity now c in read_text text fresh_id c (count_received (set_active c w))
  | Ok (Read_Pong | Read_Control) => set_phase At_Head (set_active (set_activity now c) w)
  | Ok Read_Timeout => set_phase At_Head w
  | Ok Read_Closed => end_connection w
  | Err error =>
      let message := show_transport_error error in
      end_connection (emit (conn_number c) [Out_Close Close_Protocol message] (record_error message w))
  end.

(** The loop ends: the connection is closed and forgotten. *)
Definition finish w : NativeWorker :=
  set_phase (Returned (Ok ())) (end_connection (close_active Close_Away (lit "Native Channel stopped") w)).

Definition worker_act (a : WorkerAction) w : option NativeWorker :=
  match phase w, a, active w with
  | At_Head, Look stop, _ => Some (if stop then finish w else set_phase At_Accept w)
  | At_Accept, Accept incoming now, _ => Some (accept incoming now w)
  | At_Authorize, Authorize authorizer, Some c => Some (authorize authorizer c w)
  | At_Abort, Abort_reason, Some c => Some (check_abort c w)
  | At_Send, Send answer, Some c => Some (send_next answer c w)
  | At_Timers, Timers now ping, Some c => Some (timers now ping c w)
  | At_Read, Read outcome now fresh_id, Some c => Some (read outcome now fresh_id c w)
  | _, _, _ => None
  end.

Definition run_worker n : NativeWorker := MkWorker n None [] 0 (MkMonitor 0 0 None) At_Head.

Fixpoint worker_run (actions : list WorkerAction) w : option NativeWorker :=
  match actions with
  | [] => Some w
  | a :: actions' => w' ← worker_act a w; worker_run actions' w'
  end.
End worker.

(** ** The Source *)

(** What the thread of the worker has come to: it runs, it sent its result, or
    it panicked and sent nothing. *)
Inductive WorkerThread : Type :=
| Thread_Running
| Thread_Finished (completed : result rstring unit)
| Thread_Panicked.

Section source.
Context `{Externals}.

Inductive NativeChannelSourceError : Type :=
| Source_AlreadyRunning
| Source_Build (source : NativeChannelBuildError)
| Source_Transport (source : LoopbackWebSocketError)
| Source_Protocol (source : NativeProtocolError)
| Source_Runtime (source : ChannelActionIngressError)
| Source_WorkerSpawn (source : rstring)
| Source_WorkerFailed (message : rstring)
| Source_ShutdownTimeout
| Source_WorkerPanicked.

(** [Worker]: its stop flag, whether its result was received, and whether its
    thread can still be joined. *)
Record WorkerHandle : Type := MkWorkerHandle { stop_flag : bool; completion_taken : bool; join_present : bool }.

Record NativeChannelSource : Type := MkNativeSource {
  source_worker : option WorkerHandle;
  source_health : NativeChannelHealth;
  local_address : option SocketAddr;
  source_client_id : option rstring;
  source_last_error : option rstring
}.
Implicit Types (s : NativeChannelSource).

Definition NativeChannelSource_new : NativeChannelSource := MkNativeSource None Health_Stopped None None None.

(** [recv_timeout]; the thread is as it is when the timeout ends. *)
Definition receive_completion (thread : WorkerThread) (worker : WorkerHandle) : option (result rstring unit) :=
  match thread with
  | Thread_Finished completed => if completion_taken worker then None else Some completed
  | Thread_Running | Thread_Panicked => None
  end.

Definition stop_worker (thread : WorkerThread) s : NativeChannelSource * result NativeChannelSourceError unit :=
  match source_worker s with
  | None => (MkNativeSource None Health_Stopped None None (source_last_error s), Ok ())
  | Some worker =>
      let worker := MkWorkerHandle true (completion_taken worker) (join_present worker) in
      let keep worker := MkNativeSource (Some worker) (source_health s) (local_address s) (source_client_id s) (source_last_error s) in
      match receive_completion thread worker with
      | None => (keep worker, Err Source_ShutdownTimeout)
      | Some completed =>
          let panicked := match thread with Thread_Panicked => true | _ => false end in
          if join_present worker && panicked then (keep (MkWorkerHandle true true false), Err Source_WorkerPanicked)
          else match completed with
               | Ok _ => (MkNativeSource None Health_Stopped None None (source_last_error s), Ok ())
               | Err message => (MkNativeSource None Health_Failed None None (source_last_error s), Err (Source_WorkerFailed message))
               end
      end
  end.

(** [start], given what opening the listener and spawning the thread answer. *)
Definition native_start (bound : result NativeChannelSourceError SocketAddr) (spawned : result rstring unit) s :
    NativeChannelSource * result NativeChannelSourceError unit :=
  match source_worker s with
  | Some _ => (s, Err Source_AlreadyRunning)
  | None =>
      match bound with
      | Err error => (s, Err error)
      | Ok address =>
          match spawned with
          | Ok _ => (MkNativeSource (Some (MkWorkerHandle false false true)) Health_Listening (Some address) None None, Ok ())
          | Err source => (MkNativeSource None Health_Failed None None (Some source), Err (Source_WorkerSpawn source))
          end
      end
  end.
Definition native_stop (thread : WorkerThread) s : NativeChannelSource * result NativeChannelSourceError unit :=
  stop_worker thread s.
Definition native_drop (thread : WorkerThread) s : NativeChannelSource := (stop_worker thread s).1.
Definition subscription_scope : ChannelSubscriptionScope := SourceGeneration.
End source.
