(* ===== verification/NativeWorkerSpec.v ===== *)
(** * The worker of the Native Channel: correctness

    What a connection is sent, when its socket may be written to, and what is
    left when the worker returns, whatever happens between its steps. *)

From stdpp Require Import base strings numbers sorting relations gmap list.
From S2P Require Import Prelude Values Snapshots Capability Interaction Event Aggregate Routing.
From S2P Require Import AggregateSpec Bytes Bridge BridgeSpec Runtime RuntimeSpec Dto Net Convert NativeProtocol Native NativeSpec Transport NativeWorker.

Create HintDb native.

(** ** Operations that only append to the queue *)

Section continuing.
Context `{Externals} `{NativeJson} `{!ErrorTexts}.
Implicit Types (d : DeliveryState) (n : NativeWorld).

Definition continues d d' : Prop :=
  outgoing d `prefix_of` outgoing d' ∧ snapshot_client_id (status d') = snapshot_client_id (status d).
Definition goes_on {E A} (m : act DeliveryState E A) : Prop := ∀ d, continues d (m d).1.

#[local] Instance continues_preorder : PreOrder continues.
Proof.
  split; [by intros d|]. intros d1 d2 d3 [P1 S1] [P2 S2]. split; [by etrans|by rewrite S2].
Qed.

Lemma goes_on_bind {E A B} (m : act DeliveryState E A) (k : A → act DeliveryState E B) :
  goes_on m → (∀ a, goes_on (k a)) → goes_on (m ≫= k).
Proof.
  intros Hm Hk d. unfold mbind, act_bind. pose proof (Hm d) as Hd. destruct (m d) as [d' [a|e]]; [|done].
  etrans; [exact Hd|apply Hk].
Qed.
Lemma goes_on_same {E A} (m : act DeliveryState E A) : (∀ d, (m d).1 = d) → goes_on m.
Proof. intros Hm d. by rewrite Hm. Qed.
Lemma goes_on_failing {E F A} (f : E → F) (m : act DeliveryState E A) : goes_on m → goes_on (failing f m).
Proof. intros Hm d. unfold failing. specialize (Hm d). by destruct (m d). Qed.
Lemma goes_on_modify {E} (f : DeliveryState → DeliveryState) :
  (∀ d, continues d (f d)) → goes_on (modify f : act DeliveryState E unit).
Proof. intros Hf d. apply Hf. Qed.

#[local] Hint Extern 1 (goes_on (modify _)) =>
  (apply goes_on_modify; intros; split; [simpl; first [done | by eexists]|done]) : native.
#[local] Hint Extern 2 (goes_on _) => (apply goes_on_same; intros; done) : native.
Ltac goes_on_step :=
  match goal with
  | |- goes_on (mbind _ _) => apply goes_on_bind; [|intro]
  | |- goes_on (failing _ _) => apply goes_on_failing
  | |- goes_on (match ?x with _ => _ end) => destruct x
  | |- goes_on (let '_ := ?x in _) => destruct x
  | |- goes_on _ => solve [auto with native]
  end.
Ltac goes_on_solve := repeat goes_on_step.

Lemma goes_on_enqueue frame : goes_on (enqueue frame).
Proof. unfold enqueue. goes_on_solve. Qed.
Lemma goes_on_enqueue_batch frames : goes_on (enqueue_batch frames).
Proof. unfold enqueue_batch. goes_on_solve. Qed.
#[local] Hint Resolve goes_on_enqueue goes_on_enqueue_batch : native.
Lemma goes_on_deliver sid message route : goes_on (deliver sid message route).
Proof. unfold deliver. cbv zeta. goes_on_solve. Qed.
Lemma goes_on_extend sid rid frames : goes_on (extend_pending sid rid frames).
Proof. unfold extend_pending. goes_on_solve. Qed.
#[local] Hint Resolve goes_on_deliver goes_on_extend : native.
Lemma goes_on_port call : goes_on (port_call call).
Proof.
  destruct call; cbn [port_call]; unfold deliver_session_baseline, deliver_session_sync; cbv zeta; goes_on_solve.
Qed.
Lemma goes_on_control message : goes_on (enqueue_control message).
Proof. unfold enqueue_control. goes_on_solve. Qed.
#[local] Hint Resolve goes_on_control : native.
Lemma goes_on_already rid sid c : goes_on (already_subscribed rid sid c).
Proof. unfold already_subscribed. goes_on_solve. Qed.
Lemma goes_on_complete rid sid outcome : goes_on (complete_subscription rid sid outcome).
Proof. unfold complete_subscription. cbv zeta. goes_on_solve. Qed.
#[local] Hint Resolve goes_on_already goes_on_complete : native.

Lemma after_calls_continues d calls : continues d (after_calls d calls).
Proof.
  revert d. induction calls as [|call calls IH]; intros d; [done|]. cbn [after_calls foldl].
  etrans; [apply (goes_on_port call d)|apply IH].
Qed.

(** The same for the worker, which keeps its connection. *)
Definition native_goes_on {E A} (m : act NativeWorld E A) : Prop := ∀ n,
  continues (native_delivery n) (native_delivery (m n).1) ∧ native_connection (m n).1 = native_connection n.

Lemma native_goes_on_bind {E A B} (m : act NativeWorld E A) (k : A → act NativeWorld E B) :
  native_goes_on m → (∀ a, native_goes_on (k a)) → native_goes_on (m ≫= k).
Proof.
  intros Hm Hk n. unfold mbind, act_bind. pose proof (Hm n) as [Hd Hc]. destruct (m n) as [n' [a|e]]; [|done].
  destruct (Hk a n') as [Hd' Hc']. simpl in Hd, Hc. split; [by etrans|by rewrite Hc'].
Qed.
Lemma native_goes_on_same {E A} (m : act NativeWorld E A) : (∀ n, (m n).1 = n) → native_goes_on m.
Proof. intros Hm n. by rewrite Hm. Qed.
Lemma native_goes_on_failing {E F A} (f : E → F) (m : act NativeWorld E A) : native_goes_on m → native_goes_on (failing f m).
Proof. intros Hm n. unfold failing. specialize (Hm n). by destruct (m n). Qed.
Lemma native_goes_on_port {E A} cid (m : act RuntimeHost E A) : native_goes_on (with_port cid m).
Proof. intros n. unfold with_port. destruct (m _) as [w r]. split; [apply after_calls_continues|done]. Qed.
Lemma native_goes_on_delivery {E A} (m : act DeliveryState E A) : goes_on m → native_goes_on (on_delivery m).
Proof. intros Hm n. unfold on_delivery. specialize (Hm (native_delivery n)). by destruct (m _). Qed.
Lemma native_goes_on_synchronize t h rid sid after : native_goes_on (synchronize t h rid sid after).
Proof.
  intros n. unfold synchronize. pose proof (native_goes_on_port (handle_channel_id h)
    (handle_sync_session t h sid after SESSION_SYNC_PAGE_EVENTS) n) as Hp.
  destruct (with_port _ _ n) as [n' [outcome|error]]; [done|]. exact Hp.
Qed.
#[local] Hint Resolve native_goes_on_port native_goes_on_synchronize : native.
#[local] Hint Extern 2 (native_goes_on _) => (apply native_goes_on_same; intros; done) : native.
Ltac native_goes_on_step :=
  match goal with
  | |- native_goes_on (mbind _ _) => apply native_goes_on_bind; [|intro]
  | |- native_goes_on (failing _ _) => apply native_goes_on_failing
  | |- native_goes_on (on_delivery _) => apply native_goes_on_delivery; goes_on_solve
  | |- native_goes_on (match ?x with _ => _ end) => destruct x
  | |- native_goes_on _ => solve [auto with native]
  end.

Lemma process_ready_goes_on t h message : native_goes_on (process_ready_message t h message).
Proof.
  destruct message; cbn [process_ready_message];
    unfold process_discover, process_subscribe, process_unsubscribe, process_interaction_response, process_command; cbv zeta;
    repeat native_goes_on_step.
Qed.

(** Without a client, the Port refuses everything. *)
Lemma port_call_no_client call d : client d = None → (port_call call d).1 = d.
Proof.
  intros Hc. destruct call; cbn [port_call]; unfold deliver, deliver_session_baseline, deliver_session_sync; unfold_act;
    rewrite Hc; done.
Qed.
Lemma after_calls_no_client d calls : client d = None → after_calls d calls = d.
Proof.
  intros Hc. induction calls as [|call calls IH]; [done|]. cbn [after_calls foldl]. rewrite port_call_no_client by done. exact IH.
Qed.
Lemma with_port_no_client {E A} cid (m : act RuntimeHost E A) n :
  client (native_delivery n) = None → native_delivery (with_port cid m n).1 = native_delivery n.
Proof. intros Hc. unfold with_port. destruct (m _) as [w r]. by apply after_calls_no_client. Qed.

(** The handshake: it succeeds, or the connection ends. *)
Lemma process_hello_spec config descriptor fresh auth message d d' r :
  process_hello config descriptor fresh auth message d = (d', r) →
  match r with
  | Ok _ => ∃ id, snapshot_client_id (status d') = Some id ∧ ∀ a, auth = Some a → a = id
  | Err (Recoverable _) => False
  | Err (Fatal _) => True
  end.
Proof.
  destruct r as [[]|[error|error]]; [| |done]; destruct message as [id name device versions run cursors| | | | |]; cbn [process_hello];
    try (intros [= _ E]; done).
  - destruct (match auth with Some a => _ | None => _ end) eqn:Ea; [by intros [=]|]. destruct (negb (existsb _ _)); [by intros [=]|].
    cbv zeta. intros (d1 & [] & _ & (d2 & [] & _ & [= <-])%act_bind_Ok)%act_bind_Ok. exists id. split; [done|].
    intros a ->. apply negb_false_iff, bool_decide_eq_true in Ea. done.
  - destruct (match auth with Some a => _ | None => _ end); [by intros [=]|]. destruct (negb (existsb _ _)); [by intros [=]|].
    cbv zeta. unfold mbind at 1, act_bind at 1. cbn [modify]. unfold mbind, act_bind, failing. 
    destruct (enqueue_control _ _) as [d2 [[]|e2]]; by intros [=].
Qed.
End continuing.

(** ** Operations that keep the client's subscriptions *)

Section retaining.
Context `{Externals} `{NativeJson} `{!ErrorTexts}.
Implicit Types (d : DeliveryState) (n : NativeWorld).

Definition retains d d' : Prop := ∀ s, client_subscribed s d = true → client_subscribed s d' = true.
Definition holds_on {E A} (m : act DeliveryState E A) : Prop := ∀ d, retains d (m d).1.

#[local] Instance retains_preorder : PreOrder retains.
Proof. split; [by intros d s|]. intros d1 d2 d3 R1 R2 s Hs. by apply R2, R1. Qed.

Lemma retains_client (f : ActiveClient → ActiveClient) d :
  (∀ c, client_subscriptions c ⊆ client_subscriptions (f c)) → retains d (update_client f d).
Proof.
  intros Hf s. unfold client_subscribed. simpl. destruct (client d) as [c|]; simpl; [|done].
  rewrite !bool_decide_eq_true. apply Hf.
Qed.
Lemma holds_bind {E A B} (m : act DeliveryState E A) (k : A → act DeliveryState E B) :
  holds_on m → (∀ a, holds_on (k a)) → holds_on (m ≫= k).
Proof.
  intros Hm Hk d. unfold mbind, act_bind. pose proof (Hm d) as Hd. destruct (m d) as [d' [a|e]]; [|done].
  etrans; [exact Hd|apply Hk].
Qed.
Lemma holds_same {E A} (m : act DeliveryState E A) : (∀ d, client (m d).1 = client d) → holds_on m.
Proof. intros Hm d s. unfold client_subscribed. by rewrite Hm. Qed.
Lemma holds_failing {E F A} (f : E → F) (m : act DeliveryState E A) : holds_on m → holds_on (failing f m).
Proof. intros Hm d. unfold failing. specialize (Hm d). by destruct (m d). Qed.
Lemma holds_client {E} (f : ActiveClient → ActiveClient) :
  (∀ c, client_subscriptions c ⊆ client_subscriptions (f c)) → holds_on (modify (update_client f) : act DeliveryState E unit).
Proof. intros Hf d. by apply retains_client. Qed.

#[local] Hint Extern 1 (holds_on (modify (update_client _))) =>
  (apply holds_client; intros; simpl; first [done | case_match; set_solver]) : native.
#[local] Hint Extern 2 (holds_on _) => (apply holds_same; intros; done) : native.
Ltac holds_step :=
  match goal with
  | |- holds_on (mbind _ _) => apply holds_bind; [|intro]
  | |- holds_on (failing _ _) => apply holds_failing
  | |- holds_on (match ?x with _ => _ end) => destruct x
  | |- holds_on (let '_ := ?x in _) => destruct x
  | |- holds_on _ => solve [auto with native]
  end.
Ltac holds_solve := repeat holds_step.

Lemma holds_enqueue frame : holds_on (enqueue frame).
Proof. unfold enqueue. holds_solve. Qed.
Lemma holds_enqueue_batch frames : holds_on (enqueue_batch frames).
Proof. unfold enqueue_batch. holds_solve. Qed.
#[local] Hint Resolve holds_enqueue holds_enqueue_batch : native.
Lemma holds_deliver sid message route : holds_on (deliver sid message route).
Proof. unfold deliver. cbv zeta. holds_solve. Qed.
Lemma holds_extend sid rid frames : holds_on (extend_pending sid rid frames).
Proof. unfold extend_pending. holds_solve. Qed.
#[local] Hint Resolve holds_deliver holds_extend : native.
Lemma holds_port call : holds_on (port_call call).
Proof. destruct call; cbn [port_call]; unfold deliver_session_baseline, deliver_session_sync; cbv zeta; holds_solve. Qed.
Lemma holds_control message : holds_on (enqueue_control message).
Proof. unfold enqueue_control. holds_solve. Qed.
#[local] Hint Resolve holds_control : native.
Lemma holds_already rid sid c : holds_on (already_subscribed rid sid c).
Proof. unfold already_subscribed. holds_solve. Qed.
Lemma holds_complete rid sid outcome : holds_on (complete_subscription rid sid outcome).
Proof. unfold complete_subscription. cbv zeta. holds_solve. Qed.
#[local] Hint Resolve holds_already holds_complete : native.

Lemma after_calls_retains d calls : retains d (after_calls d calls).
Proof.
  revert d. induction calls as [|call calls IH]; intros d; [done|]. cbn [after_calls foldl].
  etrans; [apply (holds_port call d)|apply IH].
Qed.

Definition native_holds {E A} (m : act NativeWorld E A) : Prop := ∀ n, retains (native_delivery n) (native_delivery (m n).1).

Lemma native_holds_bind {E A B} (m : act NativeWorld E A) (k : A → act NativeWorld E B) :
  native_holds m → (∀ a, native_holds (k a)) → native_holds (m ≫= k).
Proof.
  intros Hm Hk n. unfold mbind, act_bind. pose proof (Hm n) as Hd. destruct (m n) as [n' [a|e]]; [|done].
  etrans; [exact Hd|apply Hk].
Qed.
Lemma native_holds_same {E A} (m : act NativeWorld E A) : (∀ n, (m n).1 = n) → native_holds m.
Proof. intros Hm n. by rewrite Hm. Qed.
Lemma native_holds_failing {E F A} (f : E → F) (m : act NativeWorld E A) : native_holds m → native_holds (failing f m).
Proof. intros Hm n. unfold failing. specialize (Hm n). by destruct (m n). Qed.
Lemma native_holds_port {E A} cid (m : act RuntimeHost E A) : native_holds (with_port cid m).
Proof. intros n. unfold with_port. destruct (m _) as [w r]. apply after_calls_retains. Qed.
Lemma native_holds_delivery {E A} (m : act DeliveryState E A) : holds_on m → native_holds (on_delivery m).
Proof. intros Hm n. unfold on_delivery. specialize (Hm (native_delivery n)). by destruct (m _). Qed.
Lemma native_holds_synchronize t h rid sid after : native_holds (synchronize t h rid sid after).
Proof.
  intros n. unfold synchronize. pose proof (native_holds_port (handle_channel_id h)
    (handle_sync_session t h sid after SESSION_SYNC_PAGE_EVENTS) n) as Hp.
  destruct (with_port _ _ n) as [n' [outcome|error]]; [done|]. etrans; [exact Hp|]. by apply retains_client.
Qed.
#[local] Hint Resolve native_holds_port native_holds_synchronize : native.
#[local] Hint Extern 2 (native_holds _) => (apply native_holds_same; intros; done) : native.
Ltac native_holds_step :=
  match goal with
  | |- native_holds (mbind _ _) => apply native_holds_bind; [|intro]
  | |- native_holds (failing _ _) => apply native_holds_failing
  | |- native_holds (on_delivery _) => apply native_holds_delivery; holds_solve
  | |- native_holds (match ?x with _ => _ end) => destruct x
  | |- native_holds _ => solve [auto with native]
  end.

(** A client keeps its subscriptions through a message, or the Bridge has
    withdrawn them. *)
Lemma process_ready_holds t h message n s :
  serving t h n → client_subscribed s (native_delivery n) = true →
  let n' := (process_ready_message t h message n).1 in
  client_subscribed s (native_delivery n') = true ∨ is_subscribed (native_bridge n') (handle_channel_id h) s = false.
Proof.
  intros [Hatt Hinv] Hs. cbv zeta.
  destruct (match message with Client_Unsubscribe _ _ => true | _ => false end) eqn:Hm.
  2: { left. cut (native_holds (process_ready_message t h message)); [intros Hh; by apply Hh|].
    destruct message; try done; cbn [process_ready_message];
      unfold process_discover, process_subscribe, process_interaction_response, process_command; cbv zeta;
      repeat native_holds_step. }
  destruct message as [| | |rid sid| |]; try done. cbn [process_ready_message].
  destruct (unsubscribe_through_port t h n sid Hatt Hinv) as (_ & _ & Hd & Hsub).
  set (n' := (process_unsubscribe t h rid sid n).1). assert (n' = (process_unsubscribe t h rid sid n).1) as En by done. clearbody n'.
  revert En. unfold process_unsubscribe, mbind at 1, act_bind at 1, failing at 1.
  destruct (with_port _ (handle_unsubscribe t h sid) n) as [n1 [outcome|e]]; cbn [fst map_err] in Hd, Hsub |- *;
    [|intros ->; left; by rewrite Hd].
  unfold mbind, act_bind, on_delivery at 1, modify. cbv beta iota zeta.
  set (n2 := set_native_delivery _ n1). set (m := on_delivery _). intros ->.
  assert (native_host (m n2).1 = native_host n1) as Hhost.
  { unfold m, on_delivery, failing. by destruct (enqueue_control _ _) as [? []]. }
  destruct (decide (s = sid)) as [->|Hne].
  - right. unfold native_bridge in Hsub |- *. by rewrite Hhost, Hsub, bool_decide_eq_true_2, andb_false_r.
  - left. apply (native_holds_delivery _ (holds_failing Fatal _ (holds_control _))).
    unfold client_subscribed in Hs |- *. simpl. rewrite Hd.
    destruct (client (native_delivery n)) as [c|]; [|done]. simpl in *. apply bool_decide_eq_true in Hs. apply bool_decide_eq_true. set_solver.
Qed.
End retaining.

(** ** What was written to the sockets *)

Definition closed (number : nat) (log : list (nat * SocketOutput)) : Prop :=
  ∃ code reason, (number, Out_Close code reason) ∈ log.
(** Nothing is written to a socket after its close. *)
Definition quiet (log : list (nat * SocketOutput)) : Prop :=
  ∀ i j number code reason o, i < j → log !! i = Some (number, Out_Close code reason) → log !! j ≠ Some (number, o).

Definition frames_to (number : nat) (log : list (nat * SocketOutput)) : list rstring :=
  omap (λ '(k, o), match o with Out_Frame text => if bool_decide (k = number) then Some text else None | _ => None end) log.

Lemma quiet_snoc log number o : quiet log → ¬ closed number log → quiet (log ++ [(number, o)]).
Proof.
  intros Hq Hn i j k code reason o' Hij Hi Hj. assert (j < length log ∨ j = length log) as [Hl| ->].
  { apply lookup_lt_Some in Hj. rewrite length_app in Hj. simpl in Hj. lia. }
  - rewrite lookup_app_l in Hi, Hj by lia. exact (Hq i j k code reason o' Hij Hi Hj).
  - rewrite lookup_app_l in Hi by lia. rewrite lookup_app_r, Nat.sub_diag in Hj by done. injection Hj as <- <-.
    apply Hn. exists code, reason. by apply list_elem_of_lookup_2 in Hi.
Qed.
Definition is_close (o : SocketOutput) : bool := match o with Out_Close _ _ => true | _ => false end.
Lemma open_snoc log number o k :
  ¬ closed k log → (k = number → is_close o = false) → ¬ closed k (log ++ [(number, o)]).
Proof.
  intros Hn Ho (code & reason & [Hin|Hin%list_elem_of_singleton]%elem_of_app); [apply Hn; by exists code, reason|].
  injection Hin as -> <-. by specialize (Ho eq_refl).
Qed.
Lemma frames_to_app number log log' : frames_to number (log ++ log') = frames_to number log ++ frames_to number log'.
Proof. apply omap_app. Qed.

Section worker.
Context `{Externals} `{NativeJson} `{!ErrorTexts} `{!WorkerTexts}.
Context (config : NativeChannelConfig) (descriptor : ChannelDescriptor) (thread : ThreadId) (h : ChannelActionHandle).
Implicit Types (w : NativeWorker) (n : NativeWorld) (c : Connection).
Abbreviation worker_act := (worker_act config descriptor thread h).
Abbreviation end_connection := (end_connection thread h).
Abbreviation delivery w := (native_delivery (served w)).

(** The worker at work, and Host operations of other threads. *)
Inductive serve_step : NativeWorker → NativeWorker → Prop :=
| serve_act a w w' : worker_act a w = Some w' → serve_step w w'
| serve_other op w :
    host_op_wf op (native_host (served w)) →
    serve_step w (set_served (with_port (E:=unit) (handle_channel_id h) (λ host : RuntimeHost, (run_host_op op host, Ok tt)) (served w)).1 w).

(** ** Invariant *)

Record log_inv (log : list (nat * SocketOutput)) (next : nat) : Prop := {
  log_quiet : quiet log;
  log_numbers : ∀ number o, (number, o) ∈ log → number < next
}.
(** A socket that can be written to. *)
Definition writable (number : nat) (log : list (nat * SocketOutput)) (next : nat) : Prop :=
  number < next ∧ ¬ closed number log.

Record connected_inv (c : Connection) (handshaken : bool) w : Prop := {
  connected_open : writable (conn_number c) (outputs w) (next_socket w);
  connected_flag : native_connection (served w) = Some handshaken;
  connected_identity : handshaken = true → ∃ id, snapshot_client_id (status (delivery w)) = Some id ∧
    ∀ a, socket_client_id (conn_socket c) = Some a → a = id;
  connected_silent : handshaken = false → frames_to (conn_number c) (outputs w) = []
}.
Definition unready w : Prop := client (delivery w) = None ∧ outgoing (delivery w) = [].

Record worker_inv (cap : nat) w : Prop := {
  worker_fits : fits cap (delivery w);
  worker_log : log_inv (outputs w) (next_socket w);
  worker_active : match active w with
                  | Some c => ∃ handshaken, connected_inv c handshaken w
                  | None => native_connection (served w) = None
                  end;
  worker_unready : native_connection (served w) ≠ Some true → unready w;
  worker_returned : ∀ r, phase w = Returned r → active w = None
}.

Lemma log_inv_snoc log next number o :
  log_inv log next → writable number log next → log_inv (log ++ [(number, o)]) next.
Proof.
  intros [Hq Hn] [Hlt Ho]. split; [by apply quiet_snoc|].
  intros k o' [Hin|Hin%list_elem_of_singleton]%elem_of_app; [by eapply Hn|]. by injection Hin as -> _.
Qed.
Lemma writable_snoc log next number o k :
  writable k log next → (k = number → is_close o = false) → writable k (log ++ [(number, o)]) next.
Proof. intros [Hlt Ho] Hc. split; [done|]. by apply open_snoc. Qed.
Lemma fresh_writable log next : log_inv log next → writable next log (1 + next).
Proof.
  intros [_ Hn]. split; [lia|]. intros (code & reason & Hin). apply Hn in Hin. lia.
Qed.
Lemma log_inv_next log next : log_inv log next → log_inv log (1 + next).
Proof. intros [Hq Hn]. split; [done|]. intros number o Hin. apply Hn in Hin. lia. Qed.

Lemma log_inv_direct log next number message code reason :
  log_inv log next → writable number log next →
  log_inv (log ++ (pair number <$> (send_direct message ++ [Out_Close code reason]))) next.
Proof.
  intros Hl Hw. unfold send_direct. destruct (server_text message) as [text|]; simpl; [|by apply log_inv_snoc].
  change [?a; ?b] with ([a] ++ [b]). rewrite app_assoc. apply log_inv_snoc; [by apply log_inv_snoc|]. by apply writable_snoc.
Qed.

Lemma disconnect_unready n : let d := native_delivery (disconnect thread h n) in client d = None ∧ outgoing d = [].
Proof. done. Qed.

(** Whatever ended a connection, nothing of it is left. *)
Lemma end_inv cap w : fits cap (delivery w) → log_inv (outputs w) (next_socket w) → worker_inv cap (end_connection w).
Proof.
  intros Hf Hl. split; [|done|done|done|done]. apply disconnect_fits; [apply Hf|done].
Qed.

(** A step that leaves connection and sockets alone. *)
Lemma stays_inv cap w n p m :
  worker_inv cap w → fits cap (native_delivery n) → native_connection n = native_connection (served w) →
  snapshot_client_id (status (native_delivery n)) = snapshot_client_id (status (delivery w)) →
  (native_connection n ≠ Some true → unready (set_served n w)) → (∀ r, p = Returned r → active w = None) →
  worker_inv cap (MkWorker n (active w) (outputs w) (next_socket w) m p).
Proof.
  intros [_ Hl Ha _ _] Hf Hc Hid Hu Hp. split; [done|done| |exact Hu|exact Hp].
  simpl. destruct (active w) as [c|]; [|by rewrite Hc]. destruct Ha as (b & [Ho Hb Hi Hs]). exists b.
  split; simpl; [done|by rewrite Hc| |done]. by rewrite Hid.
Qed.
Lemma set_phase_inv cap w p : worker_inv cap w → (∀ r, p ≠ Returned r) → worker_inv cap (set_phase p w).
Proof. intros Hw Hp. apply stays_inv; try done; [apply Hw|apply Hw|]. intros r Hr. by destruct (Hp r). Qed.
Lemma set_monitor_inv cap w m : worker_inv cap w → worker_inv cap (set_monitor m w).
Proof. intros Hw. apply stays_inv; try done; apply Hw. Qed.
Lemma record_error_inv cap w message : worker_inv cap w → worker_inv cap (record_error message w).
Proof. apply set_monitor_inv. Qed.

Lemma set_active_inv cap w c c' :
  worker_inv cap w → active w = Some c → conn_number c' = conn_number c → conn_socket c' = conn_socket c →
  worker_inv cap (set_active c' w).
Proof.
  intros [Hf Hl Ha Hu Hr] Hc Hn Hs. rewrite Hc in Ha. split; [done|done| |done|].
  - destruct Ha as (b & [Ho Hb Hi Hsi]). exists b. split; simpl; rewrite ?Hn, ?Hs; done.
  - intros r Hp. specialize (Hr r Hp). congruence.
Qed.

Lemma returned_inv cap w r : worker_inv cap w → active w = None → worker_inv cap (set_phase (Returned r) w).
Proof. intros Hw Ha. apply stays_inv; try done; apply Hw. Qed.

(** Something other than a close is written to the active connection. *)
Lemma emit_inv cap w c o :
  worker_inv cap w → active w = Some c → is_close o = false →
  (native_connection (served w) ≠ Some true → ∀ text, o ≠ Out_Frame text) → worker_inv cap (emit (conn_number c) [o] w).
Proof.
  intros [Hf Hl Ha Hu Hr] Hc Ho Hframe. rewrite Hc in Ha. destruct Ha as (b & [Hw Hb Hi Hsi]).
  split; [done|by apply log_inv_snoc| |done|done]. simpl. rewrite Hc. exists b. split; simpl; [by apply writable_snoc|done|done|].
  intros ->. rewrite frames_to_app, (Hsi eq_refl). destruct o; try done. by destruct (Hframe ltac:(congruence) text).
Qed.

Lemma active_writable cap w c :
  worker_inv cap w → active w = Some c → writable (conn_number c) (outputs w) (next_socket w).
Proof. intros Hw Hc. pose proof (worker_active _ _ Hw) as Ha. rewrite Hc in Ha. destruct Ha as (b & Ha). apply Ha. Qed.

(** The connection is closed, or is told why and closed, and forgotten. *)
Lemma close_end_inv cap w c code reason :
  worker_inv cap w → active w = Some c → worker_inv cap (end_connection (emit (conn_number c) [Out_Close code reason] w)).
Proof.
  intros Hw Hc. apply end_inv; [apply Hw|]. apply log_inv_snoc; [apply Hw|exact (active_writable cap w c Hw Hc)].
Qed.
Lemma direct_end_inv cap w c message code reason :
  worker_inv cap w → active w = Some c →
  worker_inv cap (end_connection (emit (conn_number c) (send_direct message ++ [Out_Close code reason]) w)).
Proof.
  intros Hw Hc. apply end_inv; [apply Hw|]. apply log_inv_direct; [apply Hw|exact (active_writable cap w c Hw Hc)].
Qed.
Lemma close_active_inv cap w code reason :
  worker_inv cap w → worker_inv cap (end_connection (close_active code reason w)).
Proof.
  intros Hw. unfold close_active. destruct (active w) as [c|] eqn:Hc; [by apply close_end_inv|]. apply end_inv; apply Hw.
Qed.
Lemma end_error cap w message : worker_inv cap (end_connection w) → worker_inv cap (end_connection (record_error message w)).
Proof. intros [Hf Hl Ha Hu Hr]. by split. Qed.

Lemma after_accept_inv cap w : worker_inv cap w → worker_inv cap (after_accept w).
Proof. intros Hw. apply set_phase_inv; [done|]. by destruct (active w). Qed.

Lemma worker_accept_inv cap w incoming now :
  worker_inv cap w → (∀ r, phase w ≠ Returned r) → worker_inv cap (accept thread h incoming now w).
Proof.
  intros Hw Hph. destruct incoming as [[socket|]|error]; cbn [accept]; [|by apply after_accept_inv|].
  - cbn [active]. destruct (active w) as [c|] eqn:Hc; apply after_accept_inv.
    + destruct Hw as [Hf Hl Ha Hu Hr]. rewrite Hc in Ha. destruct Ha as (b & [Ho Hb Hi Hsi]). simpl.
      pose proof (log_inv_direct _ _ _ busy_message Close_Policy (lit "Native Channel is busy") (log_inv_next _ _ Hl) (fresh_writable _ _ Hl)) as Hl'.
      split; [done|exact Hl'| |done|]; simpl; [|intros r Hp; specialize (Hr r Hp); congruence].
      exists b. destruct Ho as [Hlt Hopen]. split; simpl; [split; [lia|]|done|done|].
      * intros (code & reason & [Hin|Hin]%elem_of_app); [apply Hopen; by exists code, reason|].
        apply list_elem_of_fmap in Hin as (o & [= Hk _] & _). lia.
      * intros Hb'. rewrite frames_to_app, (Hsi Hb'). unfold send_direct. by destruct (server_text busy_message).
    + destruct Hw as [Hf Hl Ha Hu Hr]. rewrite Hc in Ha. split; [done|by apply log_inv_next| | |]; simpl.
      * exists false. split; simpl; [by apply fresh_writable|done|done|]. intros _.
        destruct (frames_to (next_socket w) (outputs w)) as [|text l] eqn:E; [done|].
        assert (text ∈ frames_to (next_socket w) (outputs w)) as Hin by (rewrite E; by left).
        apply list_elem_of_omap in Hin as ([k o] & Hin & Ho). apply (log_numbers _ _ Hl) in Hin.
        destruct o; try done. case_bool_decide; [lia|done].
      * intros _. apply Hu. by rewrite Ha.
      * intros r Hp. by destruct (Hph r).
  - destruct (is_handshake_error error); [by apply after_accept_inv, record_error_inv|].
    apply returned_inv; [|done]. apply stays_inv; try done; by apply close_active_inv, record_error_inv.
Qed.

(** ** The steps *)

Lemma authorize_inv cap w c authorizer : worker_inv cap w → active w = Some c → worker_inv cap (authorize thread h authorizer c w).
Proof.
  intros Hw Hc. unfold authorize. destruct (socket_remains_authorized _ _); [by apply set_phase_inv|].
  apply end_error. by apply close_end_inv.
Qed.
Lemma check_abort_inv cap w c : worker_inv cap w → active w = Some c → worker_inv cap (check_abort thread h c w).
Proof.
  intros Hw Hc. unfold check_abort. destruct (abort_reason _) as [reason|]; [|by apply set_phase_inv].
  apply (close_end_inv _ (record_error reason w)); [by apply record_error_inv|done].
Qed.

Lemma pop_fits cap d frame rest : fits cap d → outgoing d = frame :: rest → fits cap (set_outgoing rest d).
Proof. intros [Hc Hq] Ho. split; [done|]. unfold queued_len in *. rewrite Ho in Hq. simpl in *. lia. Qed.

Lemma send_next_inv cap w c answer : worker_inv cap w → active w = Some c → worker_inv cap (send_next thread h answer c w).
Proof.
  intros Hw Hc. unfold send_next. destruct (outgoing (delivery w)) as [|frame rest] eqn:Ho; [by apply set_phase_inv|].
  assert (native_connection (served w) = Some true) as Ht.
  { destruct (decide (native_connection (served w) = Some true)) as [|Hn]; [done|]. apply (worker_unready _ _ Hw) in Hn as [_ Hn]. congruence. }
  assert (worker_inv cap (set_served (set_native_delivery (set_outgoing rest (delivery w)) (served w)) w)) as Hw'.
  { apply stays_inv; try done; [by eapply pop_fits; [apply Hw|]|apply Hw]. }
  destruct answer as [[]|error].
  - apply set_monitor_inv, emit_inv; done.
  - apply end_error, end_inv; apply Hw'.
Qed.

Lemma timers_inv cap w c now ping : worker_inv cap w → active w = Some c → worker_inv cap (timers config thread h now ping c w).
Proof.
  intros Hw Hc. unfold timers. destruct (_ && _); [by apply direct_end_inv|]. destruct (_ <=? _)%N; [by apply close_end_inv|].
  destruct (_ && _); [|by apply set_phase_inv]. destruct ping as [[]|error]; [|apply end_error, end_inv; apply Hw].
  apply set_phase_inv; [|done]. apply (set_active_inv _ _ c); [by apply emit_inv|done..].
Qed.

Lemma report_failure_inv cap w c code close error :
  worker_inv cap w → active w = Some c → worker_inv cap (report_failure thread h code close error c w).
Proof. intros Hw Hc. unfold report_failure. apply end_error. by apply direct_end_inv. Qed.

(** What the messages of the client do to the connection. *)
Lemma handled_inv cap w c n' r fresh message :
  worker_inv cap w → active w = Some c → (∀ r, phase w ≠ Returned r) →
  (if is_handshaken w then process_ready_message thread h message (served w)
   else on_delivery (process_hello config descriptor fresh (socket_client_id (conn_socket c)) message) (served w)) = (n', r) →
  fits cap (native_delivery n') ∧
  match r with
  | Ok _ => worker_inv cap (set_served (set_connection (Some true) n') w)
  | Err (Recoverable _) => is_handshaken w = true ∧ worker_inv cap (set_served n' w)
  | Err (Fatal _) => True
  end.
Proof.
  intros Hw Hc Hph. unfold is_handshaken. pose proof (worker_active _ _ Hw) as Ha. rewrite Hc in Ha. destruct Ha as (b & [Ho Hb Hi Hsi]).
  rewrite Hb. destruct b; intros E.
  - pose proof (process_ready_goes_on thread h message (served w)) as [[_ Hid] Hcn].
    pose proof (process_ready_message_keeps thread h message cap (served w) (worker_fits _ _ Hw)) as Hf. rewrite E in Hid, Hcn, Hf.
    simpl in Hid, Hcn, Hf. split; [done|].
    assert (worker_inv cap (set_served n' w)) as Hn.
    { apply stays_inv; try done; [congruence|apply Hw]. }
    destruct r as [[]|[error|error]]; [|done|done].
    apply stays_inv; try done; solve [apply Hw|simpl in *; congruence].
  - pose proof (on_delivery_keeps _ (process_hello_keeps config descriptor fresh (socket_client_id (conn_socket c)) message)
      cap (served w) (worker_fits _ _ Hw)) as Hf. rewrite E in Hf. split; [done|].
    unfold on_delivery in E. destruct (process_hello _ _ _ _ _ _) as [d' r'] eqn:Eh. injection E as <- <-.
    apply process_hello_spec in Eh. destruct r' as [[]|[error|error]]; [|done|done].
    destruct Hw as [_ Hl _ Hu Hr]. split; [done|done| |done|done]. simpl. rewrite Hc. exists true. split; simpl; [done|done| |done].
    intros _. destruct Eh as (id & Hid & Hauth). by exists id.
Qed.

Lemma is_handshaken_true w : is_handshaken w = true → native_connection (served w) = Some true.
Proof. unfold is_handshaken. by destruct (native_connection (served w)) as [[]|]. Qed.

(** An operation that goes on while the client is connected. *)
Lemma goes_on_inv {E A} cap w (m : act NativeWorld E A) :
  worker_inv cap w → native_connection (served w) = Some true → native_goes_on m → native_keeps m →
  worker_inv cap (set_served (m (served w)).1 w).
Proof.
  intros Hw Ht Hg Hk. destruct (Hg (served w)) as [[_ Hid] Hc]. pose proof (Hk cap _ (worker_fits _ _ Hw)) as Hf.
  apply stays_inv; try done; solve [apply Hw|simpl in *; congruence].
Qed.

Lemma read_text_inv cap w c text fresh :
  worker_inv cap w → active w = Some c → (∀ r, phase w ≠ Returned r) →
  worker_inv cap (read_text config descriptor thread h text fresh c w).
Proof.
  intros Hw Hc Hph. unfold read_text. destruct (decode_client_message _) as [message|error]; [|by apply report_failure_inv].
  destruct (if is_handshaken w then _ else _) as [n' r] eqn:E. cbv zeta.
  destruct (handled_inv cap w c n' r fresh message Hw Hc Hph E) as [Hf Hr]. destruct r as [[]|[error|error]].
  - apply (set_phase_inv cap (set_served (set_connection (Some true) n') w)); done.
  - destruct Hr as [Hs Hn].
    assert (native_connection n' = Some true) as Ht.
    { apply is_handshaken_true in Hs. revert E. unfold is_handshaken. rewrite Hs. intros E.
      pose proof (process_ready_goes_on thread h message (served w)) as [_ Hcn]. rewrite E in Hcn. simpl in Hcn. congruence. }
    pose proof (goes_on_inv cap (set_served n' w) (on_delivery (enqueue_control error)) Hn Ht
      (native_goes_on_delivery _ (goes_on_control error)) (on_delivery_keeps _ (enqueue_control_keeps error))) as Hq.
    change (served (set_served n' w)) with n' in Hq.
    destruct (on_delivery (enqueue_control error) n') as [n'' queued]. simpl in Hq.
    assert (worker_inv cap (set_phase At_Head (set_served n'' (set_served n' w)))) as Hh by by apply set_phase_inv.
    destruct queued; [done|by apply record_error_inv].
  - unfold report_failure. apply end_error, end_inv; [done|]. apply log_inv_direct; [apply Hw|exact (active_writable cap w c Hw Hc)].
Qed.

Lemma read_inv cap w c outcome now fresh :
  worker_inv cap w → active w = Some c → (∀ r, phase w ≠ Returned r) →
  worker_inv cap (read config descriptor thread h outcome now fresh c w).
Proof.
  intros Hw Hc Hph. assert (worker_inv cap (set_active (set_activity now c) w)) as Ha by by apply (set_active_inv cap w c).
  destruct outcome as [[text| | | |]|error]; cbn [read].
  - by apply read_text_inv; [apply set_monitor_inv|..].
  - by apply set_phase_inv.
  - by apply set_phase_inv.
  - by apply set_phase_inv.
  - apply end_inv; apply Hw.
  - apply (close_end_inv _ (record_error (show_transport_error error) w)); [by apply record_error_inv|done].
Qed.

Lemma other_inv {E A} cap w cid (m : act RuntimeHost E A) :
  worker_inv cap w → worker_inv cap (set_served (with_port cid m (served w)).1 w).
Proof.
  intros Hw. destruct (decide (native_connection (served w) = Some true)) as [Ht|Hn].
  - apply goes_on_inv; [done|done|apply native_goes_on_port|apply with_port_keeps].
  - destruct (worker_unready _ _ Hw Hn) as [Hcl Ho]. pose proof (with_port_no_client cid m (served w) Hcl) as Hd.
    pose proof (native_goes_on_port cid m (served w)) as [_ Hc].
    apply stays_inv; try done; [by rewrite Hd; apply Hw|by rewrite Hd| |apply Hw]. intros _. unfold unready. simpl. by rewrite Hd.
Qed.

Lemma worker_act_inv cap a w w' : worker_act a w = Some w' → worker_inv cap w → worker_inv cap w'.
Proof.
  intros E Hw. unfold NativeWorker.worker_act in E. destruct (phase w) eqn:Hp, a; try done.
  - injection E as <-. destruct stop; [|by apply set_phase_inv]. apply returned_inv; [by apply close_active_inv|done].
  - injection E as <-. apply worker_accept_inv; [done|]. by rewrite Hp.
  - destruct (active w) as [c|] eqn:Hc; [|done]. injection E as <-. by apply authorize_inv.
  - destruct (active w) as [c|] eqn:Hc; [|done]. injection E as <-. by apply check_abort_inv.
  - destruct (active w) as [c|] eqn:Hc; [|done]. injection E as <-. by apply send_next_inv.
  - destruct (active w) as [c|] eqn:Hc; [|done]. injection E as <-. by apply timers_inv.
  - destruct (active w) as [c|] eqn:Hc; [|done]. injection E as <-. apply read_inv; [done|done|]. by rewrite Hp.
Qed.
Lemma serve_step_inv cap w w' : serve_step w w' → worker_inv cap w → worker_inv cap w'.
Proof. intros [a w1 w2 E|op w1 _] Hw; [by eapply worker_act_inv|by apply other_inv]. Qed.
Lemma serve_steps_inv cap w w' : rtc serve_step w w' → worker_inv cap w → worker_inv cap w'.
Proof. induction 1 as [|w w1 w2 Hs _ IH]; [done|]. intros Hw. by eapply IH, serve_step_inv. Qed.

Lemma run_worker_inv n :
  native_connection n = None → client (native_delivery n) = None → outgoing (native_delivery n) = [] →
  worker_inv (capacity (native_delivery n)) (run_worker n).
Proof.
  intros Hn Hc Ho. split; [split; [done|]| |done|done|done].
  - unfold queued_len. simpl. rewrite Hc, Ho. simpl. lia.
  - split; [|by intros number o Hin%elem_of_nil]. by intros i j number code reason o _ Hi.
Qed.

(** ** The order of the frames *)

(** The frames a connection was sent and those that wait. *)
Definition stream (number : nat) w : list rstring := frames_to number (outputs w) ++ outgoing (delivery w).

(** A connection goes on with its stream, ends, or is a new one. *)
Definition progress w w' : Prop :=
  next_socket w ≤ next_socket w' ∧
  match active w, active w' with
  | Some c, Some c' => conn_number c' = conn_number c ∧ stream (conn_number c) w `prefix_of` stream (conn_number c) w'
  | None, Some c' => conn_number c' = next_socket w
  | _, None => True
  end.

Lemma progress_ended w w' : active w' = None → next_socket w ≤ next_socket w' → progress w w'.
Proof. intros Ha Hn. split; [done|]. rewrite Ha. by destruct (active w). Qed.
Lemma progress_end w w' : next_socket w ≤ next_socket w' → progress w (end_connection w').
Proof. intros Hn. by apply progress_ended. Qed.
(** Nothing but the queue grows. *)
Lemma progress_goes_on w n m p (c' : option Connection) :
  outgoing (delivery w) `prefix_of` outgoing (native_delivery n) →
  (∀ c, active w = Some c → c' = Some c ∨ ∃ d, c' = Some d ∧ conn_number d = conn_number c) → (active w = None → c' = None) →
  progress w (MkWorker n c' (outputs w) (next_socket w) m p).
Proof.
  intros Ho Hc Hn. split; [done|]. simpl. destruct (active w) as [c|]; [|by rewrite Hn].
  assert (∃ d, c' = Some d ∧ conn_number d = conn_number c) as (d & -> & Hd) by (destruct (Hc c eq_refl) as [->|?]; [by exists c|done]).
  split; [done|]. by apply prefix_app.
Qed.
Lemma progress_phase w p : progress w (set_phase p w).
Proof. apply progress_goes_on; [done|by left|done]. Qed.

Lemma frames_to_direct number other message code reason :
  frames_to number (pair other <$> (send_direct message ++ [Out_Close code reason])) = [].
Proof. unfold send_direct. by destruct (server_text message). Qed.

Lemma progress_emit w n number (c' : option Connection) l next m p :
  outgoing (native_delivery n) = outgoing (delivery w) → (∀ k, frames_to k (pair number <$> l) = []) → next_socket w ≤ next →
  (∀ c, active w = Some c → ∃ d, c' = Some d ∧ conn_number d = conn_number c) → (active w = None → c' = None) →
  progress w (MkWorker n c' (outputs w ++ (pair number <$> l)) next m p).
Proof.
  intros Ho Hl Hn Hc Hnone. split; [done|]. simpl. destruct (active w) as [c|]; [|by rewrite Hnone].
  destruct (Hc c eq_refl) as (d & -> & Hd). split; [done|]. unfold stream. simpl. by rewrite frames_to_app, Hl, app_nil_r, Ho.
Qed.

Lemma progress_accept w incoming now : progress w (accept thread h incoming now w).
Proof.
  destruct incoming as [[socket|]|error]; cbn [accept]; [|apply progress_phase|].
  - cbn [active]. destruct (active w) as [c|] eqn:Hc.
    + apply (progress_emit w (served w) (next_socket w) (Some c) (send_direct busy_message ++ [Out_Close Close_Policy (lit "Native Channel is busy")])
        (1 + next_socket w) (monitor w) At_Authorize); [done|intros k; apply frames_to_direct|lia| |by rewrite Hc]. rewrite Hc. intros c1 [= <-]. by exists c.
    + split; [simpl; lia|]. by rewrite Hc.
  - destruct (is_handshake_error error); [apply (progress_goes_on w (served w)); [done|by left|done]|].
    apply progress_ended; [done|]. simpl. unfold close_active. simpl. by destruct (active w).
Qed.
Lemma progress_send w c answer : active w = Some c → progress w (send_next thread h answer c w).
Proof.
  intros Hc. unfold send_next. destruct (outgoing (delivery w)) as [|frame rest] eqn:Ho; [apply progress_phase|].
  destruct answer as [[]|error]; [|by apply progress_end]. split; [done|]. simpl. rewrite Hc. split; [done|]. unfold stream. simpl.
  rewrite frames_to_app, Ho. simpl. by rewrite bool_decide_eq_true_2, <-app_assoc.
Qed.
Lemma progress_timers w c now ping : active w = Some c → progress w (timers config thread h now ping c w).
Proof.
  intros Hc. unfold timers. destruct (_ && _); [by apply progress_end|]. destruct (_ <=? _)%N; [by apply progress_end|].
  destruct (_ && _); [|apply progress_phase]. destruct ping as [[]|error]; [|by apply progress_end].
  apply progress_emit; try done; rewrite Hc; [|done]. intros c1 [= <-]. by eexists.
Qed.
Lemma progress_read_text cap w c text fresh :
  worker_inv cap w → active w = Some c → progress w (read_text config descriptor thread h text fresh c w).
Proof.
  intros Hw Hc. unfold read_text. destruct (decode_client_message _) as [message|error]; [|by apply progress_end].
  destruct (if is_handshaken w then _ else _) as [n' r] eqn:E. cbv zeta.
  assert ((∀ error, r ≠ Err (Fatal error)) → outgoing (delivery w) `prefix_of` outgoing (native_delivery n')) as Hp.
  { intros Hr. destruct (is_handshaken w) eqn:Hs.
    - pose proof (process_ready_goes_on thread h message (served w)) as [[Hp _] _]. by rewrite E in Hp.
    - assert (unready w) as [_ ->]; [|apply prefix_nil]. apply (worker_unready _ _ Hw). unfold is_handshaken in Hs.
      by destruct (native_connection (served w)) as [[]|]. }
  destruct r as [[]|[error|error]]; [| |by apply progress_end].
  - apply (progress_goes_on w (set_connection (Some true) n')); [by apply Hp|by left|done].
  - pose proof (native_goes_on_delivery _ (goes_on_control error) n') as [[Hq _] _].
    destruct (on_delivery (enqueue_control error) n') as [n'' queued]. simpl in Hq.
    destruct queued; (apply (progress_goes_on w n''); [etrans; [by apply Hp|exact Hq]|by left|done]).
Qed.

Lemma progress_read cap w c outcome now fresh :
  worker_inv cap w → active w = Some c → progress w (read config descriptor thread h outcome now fresh c w).
Proof.
  intros Hw Hc. assert (∀ p, progress w (set_phase p (set_active (set_activity now c) w))) as Ha.
  { intros p. apply (progress_goes_on w (served w)); [done| |by rewrite Hc]. rewrite Hc. intros c1 [= <-]. right. by eexists. }
  destruct outcome as [[text| | | |]|error]; cbn [read]; [|apply Ha|apply Ha|apply progress_phase|by apply progress_end|by apply progress_end].
  set (w0 := count_received (set_active (set_activity now c) w)).
  assert (worker_inv cap w0) as Hw0 by by apply set_monitor_inv, (set_active_inv cap w c).
  pose proof (progress_read_text cap w0 (set_activity now c) text fresh Hw0 eq_refl) as [Hn Hs]. split; [exact Hn|].
  rewrite Hc. exact Hs.
Qed.

Lemma progress_step cap w w' : serve_step w w' → worker_inv cap w → progress w w'.
Proof.
  intros [a w1 w2 E|op w1 _] Hw.
  - unfold NativeWorker.worker_act in E. destruct (phase w1) eqn:Hp, a; try done;
      [destruct stop| |destruct (active w1) as [c|] eqn:Hc; [|done]..]; injection E as <-.
    + apply progress_ended; [done|]. simpl. unfold close_active. by destruct (active w1).
    + apply progress_phase.
    + apply progress_accept.
    + unfold authorize. destruct (socket_remains_authorized _ _); [apply progress_phase|by apply progress_end].
    + unfold check_abort. destruct (abort_reason _); [by apply progress_end|apply progress_phase].
    + by apply progress_send.
    + by apply progress_timers.
    + by eapply progress_read.
  - apply progress_goes_on; [|by left|done]. apply (native_goes_on_port (handle_channel_id h)).
Qed.

(** As long as a connection lasts, its stream only grows. *)
Lemma progress_steps cap w w' c c' :
  rtc serve_step w w' → worker_inv cap w → active w = Some c → active w' = Some c' → conn_number c' = conn_number c →
  stream (conn_number c) w `prefix_of` stream (conn_number c) w'.
Proof.
  intros Hs Hw Hc. pose proof (proj1 (active_writable cap w c Hw Hc)) as Hlt.
  set (P w' := worker_inv cap w' ∧ next_socket w ≤ next_socket w' ∧
    ∀ c', active w' = Some c' → conn_number c' = conn_number c → stream (conn_number c) w `prefix_of` stream (conn_number c) w').
  assert (P w') as (_ & _ & Hall); [|by intros; eapply Hall]. clear c'. revert w' Hs. apply rtc_ind_r; [done|]. intros w1 w2 _ Hstep IH.
  destruct IH as (Hw1 & Hn1 & IH). pose proof (progress_step cap w1 w2 Hstep Hw1) as [Hn2 Hp].
  split; [by eapply serve_step_inv|]. split; [lia|]. intros c' Hc' Hnum. rewrite Hc' in Hp.
  destruct (active w1) as [c1|]; [|lia]. destruct Hp as [E Hp].
  rewrite Hnum in E. rewrite <-E in Hp. etrans; [by apply (IH c1)|exact Hp].
Qed.

(** ** Ends of a connection *)

Lemma authorize_refused w w' c authorizer :
  active w = Some c → socket_remains_authorized authorizer (conn_socket c) = false → worker_act (Authorize authorizer) w = Some w' →
  active w' = None ∧ ∃ reason, outputs w' = outputs w ++ [(conn_number c, Out_Close Close_Policy reason)].
Proof.
  intros Hc Hs. unfold NativeWorker.worker_act. destruct (phase w); try done. rewrite Hc. intros [= <-].
  unfold authorize. rewrite Hs. split; [done|]. by eexists.
Qed.

Lemma timers_in_time w w' c' now ping :
  worker_act (Timers now ping) w = Some w' → active w' = Some c' →
  (is_handshaken w = true ∨ (now - accepted_at c' < as_nanos (handshake_timeout config))%N) ∧
  (now - last_activity c' < as_nanos (idle_timeout config))%N.
Proof.
  unfold NativeWorker.worker_act. destruct (phase w); try done. destruct (active w) as [c|] eqn:Hc; [|done]. intros [= <-].
  unfold timers. destruct (is_handshaken w); cbn [negb andb].
  - destruct (N.leb_spec (as_nanos (idle_timeout config)) (now - last_activity c)) as [|Hlt]; [done|]. intros Ha.
    split; [by left|]. revert Ha. destruct (_ <=? _)%N; [destruct ping as [[]|]|]; simpl; [by intros [= <-]|done|]. rewrite Hc. by intros [= <-].
  - destruct (N.leb_spec (as_nanos (handshake_timeout config)) (now - accepted_at c)) as [|Hh]; [done|].
    destruct (N.leb_spec (as_nanos (idle_timeout config)) (now - last_activity c)) as [|Hlt]; [done|]. simpl. rewrite Hc. intros [= <-].
    split; [by right|done].
Qed.

(** *** Silence *)

(** When a client was last heard of: after reading something of it. *)
Definition heard_at (a : WorkerAction) (before : N) : N :=
  match a with Read (Ok (Read_Text _ | Read_Pong | Read_Control)) now _ => now | _ => before end.

Lemma read_text_active w c text fresh c' :
  active w = Some c → active (read_text config descriptor thread h text fresh c w) = Some c' → c' = c.
Proof.
  intros Hc. unfold read_text. destruct (decode_client_message _) as [message|]; [|done].
  destruct (if is_handshaken w then _ else _) as [n' [[]|[error|error]]]; [simpl; congruence| |done].
  destruct (on_delivery _ n') as [n'' []]; simpl; congruence.
Qed.

Lemma act_activity a w w' c c' :
  active w = Some c → worker_act a w = Some w' → active w' = Some c' →
  accepted_at c' = accepted_at c ∧ last_activity c' = heard_at a (last_activity c).
Proof.
  intros Hc E Hc'. unfold NativeWorker.worker_act in E. rewrite Hc in E. destruct (phase w), a; try done; injection E as <-; cbn [heard_at].
  - destruct stop; [done|]. simpl in Hc'. by simplify_eq.
  - revert Hc'. destruct incoming as [[socket|]|error]; cbn [accept active]; rewrite ?Hc.
    + intros Hc'. simpl in Hc'. by simplify_eq.
    + simpl. intros Hc'. by simplify_eq.
    + destruct (is_handshake_error error); [simpl; intros Hc'; by simplify_eq|done].
  - revert Hc'. unfold authorize. destruct (socket_remains_authorized _ _); [simpl; intros Hc'; by simplify_eq|done].
  - revert Hc'. unfold check_abort. destruct (abort_reason _); [done|simpl; intros Hc'; by simplify_eq].
  - revert Hc'. unfold send_next. destruct (outgoing _); [simpl; intros Hc'; by simplify_eq|].
    destruct answer; [simpl; intros Hc'; by simplify_eq|done].
  - revert Hc'. unfold timers. destruct (_ && _); [done|]. destruct (_ <=? _)%N; [done|].
    destruct (_ && _); [destruct ping; [|done]|]; simpl; intros Hc'; by simplify_eq.
  - revert Hc'. destruct outcome as [[text| | | |]|error]; cbn [read]; try done.
    + intros Hc'. apply read_text_active in Hc' as ->; [done|by simpl].
    + simpl. intros Hc'. by simplify_eq.
    + simpl. intros Hc'. by simplify_eq.
    + simpl. intros Hc'. by simplify_eq.
Qed.

Lemma act_accepted a w w' c' :
  active w = None → worker_act a w = Some w' → active w' = Some c' →
  ∃ socket now, a = Accept (Ok (Some socket)) now ∧ c' = MkConnection (next_socket w) socket now now now.
Proof.
  intros Hc E Hc'. unfold NativeWorker.worker_act in E. rewrite Hc in E. destruct (phase w), a; try done; injection E as <-.
  - destruct stop; simpl in Hc'; by simplify_eq.
  - revert Hc'. destruct incoming as [[socket|]|error]; cbn [accept active]; rewrite ?Hc.
    + simpl. intros Hc'. simplify_eq. by exists socket, now.
    + simpl. intros Hc'. by simplify_eq.
    + destruct (is_handshake_error error); [simpl; intros Hc'; by simplify_eq|done].
Qed.

(** *** Subscriptions *)

Lemma serving_host n n' : native_host n' = native_host n → serving thread h n → serving thread h n'.
Proof. intros Hn. unfold serving, attached, native_bridge. by rewrite Hn. Qed.

Abbreviation cid := (handle_channel_id h).

Lemma disconnect_withdraws n s :
  serving thread h n → client_subscribed s (native_delivery n) = true ∨ is_subscribed (native_bridge n) cid s = false →
  is_subscribed (native_bridge (disconnect thread h n)) cid s = false.
Proof.
  intros [Hatt Hinv] Hs. destruct (disconnect_spec thread h n Hatt Hinv) as (_ & _ & _ & _ & _ & _ & Hsub).
  rewrite Hsub. destruct Hs as [-> | ->]; [apply andb_false_r|done].
Qed.

(** A connection that ends is withdrawn from the sessions its client subscribed to. *)
Lemma act_withdraws cap a w w' c s :
  worker_inv cap w → active w = Some c → worker_act a w = Some w' → active w' = None →
  serving thread h (served w) → client_subscribed s (delivery w) = true →
  is_subscribed (native_bridge (served w')) cid s = false.
Proof.
  intros Hw Hc E Hc' Hn Hs. unfold NativeWorker.worker_act in E. rewrite Hc in E.
  assert (is_subscribed (native_bridge (disconnect thread h (served w))) cid s = false) as Hgone by (apply disconnect_withdraws; auto).
  destruct (phase w), a; try done; injection E as <-; revert Hc'.
  - destruct stop; simpl; [|congruence]. intros _. unfold close_active. by rewrite Hc.
  - destruct incoming as [[socket|]|error]; cbn [accept active]; rewrite ?Hc; [simpl; congruence..|].
    destruct (is_handshake_error error); [simpl; congruence|]. intros _. unfold close_active. simpl. by rewrite Hc.
  - unfold authorize. destruct (socket_remains_authorized _ _); [simpl; congruence|done].
  - unfold check_abort. destruct (abort_reason _); [done|simpl; congruence].
  - unfold send_next. destruct (outgoing _) as [|frame rest]; [simpl; congruence|]. destruct answer; [simpl; congruence|]. intros _.
    simpl. apply disconnect_withdraws; [by apply (serving_host (served w))|by left].
  - unfold timers. destruct (_ && _); [done|]. destruct (_ <=? _)%N; [done|]. destruct (_ && _); [destruct ping; [simpl; congruence|done]|].
    simpl. congruence.
  - destruct outcome as [[text| | | |]|error]; cbn [read]; try (simpl; congruence); try done.
    unfold read_text. destruct (decode_client_message _) as [message|]; [|done].
    change (is_handshaken (count_received _)) with (is_handshaken w). cbn [served count_received set_monitor set_active].
    assert (is_handshaken w = true) as Hh.
    { destruct (is_handshaken w) eqn:Eh; [done|]. destruct (worker_unready _ _ Hw) as [Hcl _].
      - unfold is_handshaken in Eh. by destruct (native_connection (served w)) as [[]|].
      - unfold client_subscribed in Hs. by rewrite Hcl in Hs. }
    rewrite Hh. pose proof (process_ready_message_serves thread h message (served w) Hn) as Hn'.
    pose proof (process_ready_holds thread h message (served w) s Hn Hs) as Hkept. cbv zeta in Hkept.
    destruct (process_ready_message thread h message (served w)) as [n' [[]|[error|error]]]; cbn [fst] in Hn', Hkept.
    + simpl. congruence.
    + destruct (on_delivery _ n') as [n'' []]; simpl; congruence.
    + intros _. by apply disconnect_withdraws.
Qed.
End worker.
