(* ===== verification/NativeWorkerTheorems.v ===== *)
(** * The worker of the Native Channel: properties *)

From stdpp Require Import base strings numbers sorting relations gmap list.
From S2P Require Import Prelude Values Snapshots Capability Interaction Event Aggregate.
From S2P Require Import Routing Bytes Bridge Runtime RuntimeSpec Dto Net Convert NativeProtocol Native NativeSpec Transport NativeWorker NativeWorkerSpec.
From S2P Require Import Examples NativeRuns.

Section worker.
Context `{Externals} `{NativeJson} `{!ErrorTexts} `{!WorkerTexts}.
Context (config : NativeChannelConfig) (descriptor : ChannelDescriptor) (thread : ThreadId) (h : ChannelActionHandle).
Implicit Types (w : NativeWorker) (n : NativeWorld) (c : Connection).
Abbreviation serve_step := (serve_step config descriptor thread h).
Abbreviation delivery w := (native_delivery (served w)).

(** C27: the worker of the Native Channel serves one client at a time, whatever
    clients send, the sockets answer and other threads do between its steps.
    The frames that wait never exceed the capacity.  Nothing is written to a
    socket after its close.  When the worker returns, no connection, no client
    state and nothing queued is left.  A step that ends a connection withdraws
    the Channel from every session its client had subscribed to, provided that
    the worker's handle was still the active one.  A client that has not said
    hello was sent nothing of the queue; one that has is the client its
    credential was issued to.  A client that is found to be unauthorized is sent
    nothing but the close.  The time a client was last heard of is that of its
    acceptance or of the last read that returned something of it (a read that
    times out does not count), and a connection that the timers leave has said
    hello or is young, and was heard of in time.  As long as a connection lasts,
    the frames it was sent followed by those that wait only grow at their end: no
    frame is lost, repeated or overtaken. *)
Theorem native_worker_contract n w :
  native_connection n = None → client (native_delivery n) = None → outgoing (native_delivery n) = [] →
  rtc serve_step (run_worker n) w →
  queued_len (delivery w) ≤ capacity (native_delivery n) ∧ quiet (outputs w) ∧
  (∀ r, phase w = Returned r → active w = None ∧ native_connection (served w) = None ∧ unready w) ∧
  (∀ a w' c', active w = None → worker_act config descriptor thread h a w = Some w' → active w' = Some c' →
     ∃ socket now, a = Accept (Ok (Some socket)) now ∧ accepted_at c' = now ∧ last_activity c' = now) ∧
  (∀ c, active w = Some c →
     ¬ closed (conn_number c) (outputs w) ∧
     (if is_handshaken w
      then ∃ id, snapshot_client_id (status (delivery w)) = Some id ∧ ∀ a, socket_client_id (conn_socket c) = Some a → a = id
      else frames_to (conn_number c) (outputs w) = [] ∧ unready w) ∧
     (∀ authorizer w', socket_remains_authorized authorizer (conn_socket c) = false →
        worker_act config descriptor thread h (Authorize authorizer) w = Some w' →
        active w' = None ∧ ∃ reason, outputs w' = outputs w ++ [(conn_number c, Out_Close Close_Policy reason)]) ∧
     (∀ a w', worker_act config descriptor thread h a w = Some w' →
        match active w' with
        | None => serving thread h (served w) → ∀ sid, client_subscribed sid (delivery w) = true →
            is_subscribed (native_bridge (served w')) (handle_channel_id h) sid = false
        | Some c' => accepted_at c' = accepted_at c ∧ last_activity c' = heard_at a (last_activity c)
        end) ∧
     (∀ now ping w' c', worker_act config descriptor thread h (Timers now ping) w = Some w' → active w' = Some c' →
        (is_handshaken w = true ∨ (now - accepted_at c' < as_nanos (handshake_timeout config))%N) ∧
        (now - last_activity c' < as_nanos (idle_timeout config))%N) ∧
     (∀ w' c', rtc serve_step w w' → active w' = Some c' → conn_number c' = conn_number c →
        frames_to (conn_number c) (outputs w) ++ outgoing (delivery w)
          `prefix_of` frames_to (conn_number c) (outputs w') ++ outgoing (delivery w'))).
Proof.
  intros Hn Hcl Ho Hs. pose proof (serve_steps_inv _ _ _ _ _ _ _ Hs (run_worker_inv n Hn Hcl Ho)) as Hw.
  split; [apply (worker_fits _ _ Hw)|]. split; [apply (worker_log _ _ Hw)|]. split.
  { intros r Hr. pose proof (worker_returned _ _ Hw r Hr) as Ha. pose proof (worker_active _ _ Hw) as Hc. rewrite Ha in Hc.
    split; [done|]. split; [done|]. apply (worker_unready _ _ Hw). by rewrite Hc. }
  split.
  { intros a w' c' Hc E Hc'. destruct (act_accepted _ _ _ _ _ _ _ _ Hc E Hc') as (socket & now & -> & ->). by exists socket, now. }
  intros c Hc. pose proof (worker_active _ _ Hw) as Ha. rewrite Hc in Ha. destruct Ha as (b & [[_ Hopen] Hb Hi Hsi]).
  split; [done|]. split.
  { unfold is_handshaken. rewrite Hb. destruct b; [by apply Hi|]. split; [by apply Hsi|]. apply (worker_unready _ _ Hw). by rewrite Hb. }
  split; [by intros; eapply authorize_refused|]. split.
  { intros a w' E. destruct (active w') as [c'|] eqn:Hc'; [by eapply act_activity|]. intros Hserv sid Hsid. by eapply act_withdraws. }
  split; [by intros; eapply timers_in_time|].
  intros w' c' Hs' Hc' Hnum. exact (progress_steps _ _ _ _ _ _ _ c c' Hs' Hw Hc Hc' Hnum).
Qed.
End worker.

(** ** A worker that panicked *)

Section panic.
Context `{Externals}.

(** What is asked of a Source, and what it answers. *)
Inductive SourceOp : Type := Op_Start (bound : result NativeChannelSourceError SocketAddr) (spawned : result rstring unit) | Op_Stop.
Definition source_op (thread : WorkerThread) (op : SourceOp) (s : NativeChannelSource) :
    NativeChannelSource * result NativeChannelSourceError unit :=
  match op with Op_Start bound spawned => native_start bound spawned s | Op_Stop => native_stop thread s end.
Fixpoint source_answers (thread : WorkerThread) (ops : list SourceOp) (s : NativeChannelSource) :
    list (result NativeChannelSourceError unit) :=
  match ops with
  | [] => []
  | op :: ops' => let '(s', r) := source_op thread op s in r :: source_answers thread ops' s'
  end.

(** A worker that panicked has dropped the sender of its result without a
    message.  The panic is never reported: every stop times out at once, and
    every start is refused because the Source still holds the worker. *)
Theorem native_panic_unreported ops s :
  is_Some (source_worker s) →
  Forall (λ r, r = Err Source_ShutdownTimeout ∨ r = Err Source_AlreadyRunning) (source_answers Thread_Panicked ops s).
Proof.
  revert s. induction ops as [|op ops IH]; intros s [worker Hs]; [constructor|]. cbn [source_answers].
  destruct op as [bound spawned|]; cbn [source_op].
  - unfold native_start. rewrite Hs. constructor; [by right|]. apply IH. by rewrite Hs.
  - unfold native_stop, stop_worker. rewrite Hs. cbn [receive_completion]. constructor; [by left|]. by apply IH.
Qed.
End panic.

(** ** Witnesses *)

#[export] Instance tag_worker_texts : WorkerTexts := {| show_transport_error := λ _, lit "transport"; show_native_error := λ _, lit "native" |}.

Definition local_socket : NativeWebSocket := Socket_Loopback (MkLoopbackSocket (MkSocketAddr (V4 127 0 0 1) (Refine 0%N I)) 1024).
Definition idle_turn : list WorkerAction := [Authorize None; Abort_reason; Send (Ok ()); Timers 0 (Ok ())].
(** A client says hello; its answer is queued. *)
Definition hello_actions : list WorkerAction :=
  [Look false; Accept (Ok (Some local_socket)) 0%N] ++ idle_turn ++ [Read (Ok (Read_Text [104%N])) 1%N connection_uuid].
(** The answer is sent. *)
Definition answer_actions : list WorkerAction := [Look false; Accept (Ok None) 2%N; Authorize None; Abort_reason; Send (Ok ())].

Abbreviation toy_act := (worker_run (usual_config 4) native_descriptor_1 worker_thread native_handle).
Definition worker_new : NativeWorker := run_worker (native_initial 4).
Definition worker_greeted : NativeWorker := default worker_new (toy_act hello_actions worker_new).
Definition worker_answered : NativeWorker := default worker_new (toy_act answer_actions worker_greeted).

Lemma toy_act_steps actions w w' :
  toy_act actions w = Some w' → rtc (serve_step (usual_config 4) native_descriptor_1 worker_thread native_handle) w w'.
Proof.
  revert w. induction actions as [|a actions IH]; intros w; cbn [worker_run]; [by intros [= ->]|].
  intros (w1 & Ha & Hr)%bind_Some. eapply rtc_l; [by eapply serve_act|by apply IH].
Qed.
Definition ran (o : option NativeWorker) : bool := match o with Some _ => true | None => false end.
Lemma ran_default (o : option NativeWorker) d : ran o = true → o = Some (default d o).
Proof. by destruct o. Qed.
Lemma worker_greeted_steps : rtc (serve_step (usual_config 4) native_descriptor_1 worker_thread native_handle) worker_new worker_greeted.
Proof. eapply toy_act_steps, ran_default. vm_compute. reflexivity. Qed.
Lemma worker_answered_steps : rtc (serve_step (usual_config 4) native_descriptor_1 worker_thread native_handle) worker_greeted worker_answered.
Proof. eapply toy_act_steps, ran_default. vm_compute. reflexivity. Qed.

Lemma worker_answered_all : rtc (serve_step (usual_config 4) native_descriptor_1 worker_thread native_handle) worker_new worker_answered.
Proof. etrans; [exact worker_greeted_steps|exact worker_answered_steps]. Qed.

Definition active_number (w : NativeWorker) : option nat := conn_number <$> active w.

Lemma native_worker_contract_witness :
  outgoing (native_delivery (served worker_greeted)) = [[104%N]] ∧ frames_to 0 (outputs worker_answered) = [[104%N]] ∧
  quiet (outputs worker_answered) ∧
  frames_to 0 (outputs worker_greeted) ++ outgoing (native_delivery (served worker_greeted))
    `prefix_of` frames_to 0 (outputs worker_answered) ++ outgoing (native_delivery (served worker_answered)).
Proof.
  split; [vm_compute; reflexivity|]. split; [vm_compute; reflexivity|].
  pose proof (native_worker_contract (usual_config 4) native_descriptor_1 worker_thread native_handle (native_initial 4)) as Hall.
  split.
  - exact (proj1 (proj2 (Hall worker_answered eq_refl eq_refl eq_refl worker_answered_all))).
  - destruct (Hall worker_greeted eq_refl eq_refl eq_refl worker_greeted_steps) as (_ & _ & _ & _ & Hc).
    assert (active_number worker_greeted = Some 0) as Hg by (vm_compute; reflexivity).
    assert (active_number worker_answered = Some 0) as Ha by (vm_compute; reflexivity).
    apply fmap_Some in Hg as (c & Hgc & Hg). apply fmap_Some in Ha as (c' & Hac & Ha).
    destruct (Hc c Hgc) as (_ & _ & _ & _ & _ & Hp). rewrite <-Hg in Hp. exact (Hp worker_answered c' worker_answered_steps Hac (eq_sym Ha)).
Defined.

Lemma native_panic_unreported_witness :
  Forall (λ r, r = Err Source_ShutdownTimeout ∨ r = Err Source_AlreadyRunning)
    (source_answers Thread_Panicked [Op_Stop; Op_Start (Err Source_AlreadyRunning) (Ok ())]
       (native_start (Ok (MkSocketAddr (V4 127 0 0 1) (Refine 0%N I))) (Ok ()) NativeChannelSource_new).1).
Proof. apply native_panic_unreported. by eexists. Defined.
