(* ===== verification/PairingProtocol.v ===== *)
(** * Pairing: the QR bundle and the messages

    Models [agentpulse-pairing/src/protocol.rs] and [error.rs].  JSON is
    third-party code; base64, SHA-256 and UUIDs are those of the Relay. *)

From stdpp Require Import base strings numbers sorting gmap list.
From S2P Require Import Prelude Bytes Json Values Dto Net Transport RelayProtocol RelaySpec.

(** ** Errors (error.rs) *)

(** Texts of foreign errors are opaque. *)
Inductive PairingError : Type :=
| Pairing_InvalidField (field : string) (reason : rstring)
| Pairing_Json (source : rstring)
| Pairing_Base64
| Pairing_Certificate (source : rstring)
| Pairing_Transport (source : LoopbackWebSocketError)
| Pairing_Io (operation : string) (source : rstring)
| Pairing_AlreadyInitialized
| Pairing_NotInitialized
| Pairing_InvalidStore (message : rstring)
| Pairing_DeviceCapacity (capacity : nat)
| Pairing_DeviceNotFound (client_id : rstring)
| Pairing_Expired
| Pairing_Denied
| Pairing_AttemptLimit.

#[export] Instance PairingError_eq_dec : EqDecision PairingError.
Proof. solve_decision. Defined.

Definition invalid (field reason : string) : PairingError := Pairing_InvalidField field (lit reason).

(** ** Data *)

Definition PAIRING_PROTOCOL_VERSION : N := 1.
Definition PAIRING_URI_PREFIX : rstring := lit "agentpulse://pair/v1/".

(** [expires_at_unix_seconds] is an [i64]. *)
Record PairingBundle : Type := MkBundle {
  pairing_version : u16;
  bundle_pairing_id : rstring;
  bundle_host_id : rstring;
  bundle_host_name : rstring;
  bundle_server_name : rstring;
  address : rstring;
  port : u16;
  leaf_sha256 : rstring;
  bundle_bootstrap_token : rstring;
  relay_endpoint : rstring;
  route : option rstring;
  expires_at_unix_seconds : Z
}.

(** [#[derive(Serialize)]] with [skip_serializing_if]: the fields that are written. *)
Definition bundle_fields (b : PairingBundle) : list (string * Value) :=
  [("pairing_version", from_i64 (Z.of_N (raw (pairing_version b))));
   ("pairing_id", VString (bundle_pairing_id b));
   ("host_id", VString (bundle_host_id b));
   ("host_name", VString (bundle_host_name b));
   ("server_name", VString (bundle_server_name b));
   ("address", VString (address b));
   ("port", from_i64 (Z.of_N (raw (port b))));
   ("leaf_sha256", VString (leaf_sha256 b));
   ("bootstrap_token", VString (bundle_bootstrap_token b))]
  ++ (if is_empty (relay_endpoint b) then [] else [("relay_endpoint", VString (relay_endpoint b))])
  ++ match route b with None => [] | Some route => [("route", VString route)] end
  ++ [("expires_at_unix_seconds", from_i64 (expires_at_unix_seconds b))].

Record PairingRequest : Type := MkPairingRequest {
  request_pairing_id : rstring;
  request_bootstrap_token : rstring;
  client_id : rstring;
  display_name : rstring;
  client_version : option rstring
}.

Inductive PairingErrorCode : Type :=
| Code_InvalidRequest | Code_InvalidCredential | Code_Expired | Code_Used | Code_Denied | Code_Capacity
| Code_Internal.

Inductive PairingServerMessage : Type :=
| Pairing_Pending (client_id display_name : rstring)
| Pairing_Succeeded (host_id host_name ca_certificate_der server_name native_address : rstring)
    (native_port : u16) (access_token : rstring) (native_transport_version : u16)
    (domain_protocol_versions : list u16)
| Pairing_Failure (code : PairingErrorCode) (message : rstring) (recoverable : bool).

(** [Envelope<T>] and the transfer objects. *)
Record PairingEnvelope (T : Type) : Type := MkPairingEnvelope { envelope_version : u64; envelope_message : T }.
Arguments MkPairingEnvelope {T}.
Arguments envelope_version {T}.
Arguments envelope_message {T}.

Inductive RequestDto : Type :=
| Dto_PairRequest (pairing_id bootstrap_token client_id display_name : rstring) (version : option rstring).

Inductive ErrorCodeDto : Type :=
| CodeDto_InvalidRequest | CodeDto_InvalidCredential | CodeDto_Expired | CodeDto_Used | CodeDto_Denied
| CodeDto_Capacity | CodeDto_Internal.

Inductive ServerDto : Type :=
| Dto_PairingPending (client_id display_name : rstring)
| Dto_PairingSucceeded (host_id host_name ca_certificate_der server_name native_address : rstring)
    (native_port : u16) (access_token : rstring) (native_transport_version : u16)
    (domain_protocol_versions : list u16)
| Dto_PairingError (code : ErrorCodeDto) (message : rstring) (recoverable : bool).

#[export] Instance PairingBundle_eq_dec : EqDecision PairingBundle.
Proof. solve_decision. Defined.
#[export] Instance PairingRequest_eq_dec : EqDecision PairingRequest.
Proof. solve_decision. Defined.
#[export] Instance PairingErrorCode_eq_dec : EqDecision PairingErrorCode.
Proof. solve_decision. Defined.
#[export] Instance PairingServerMessage_eq_dec : EqDecision PairingServerMessage.
Proof. solve_decision. Defined.

Definition code_to_dto (code : PairingErrorCode) : ErrorCodeDto :=
  match code with
  | Code_InvalidRequest => CodeDto_InvalidRequest | Code_InvalidCredential => CodeDto_InvalidCredential
  | Code_Expired => CodeDto_Expired | Code_Used => CodeDto_Used | Code_Denied => CodeDto_Denied
  | Code_Capacity => CodeDto_Capacity | Code_Internal => CodeDto_Internal
  end.
Definition code_from_dto (code : ErrorCodeDto) : PairingErrorCode :=
  match code with
  | CodeDto_InvalidRequest => Code_InvalidRequest | CodeDto_InvalidCredential => Code_InvalidCredential
  | CodeDto_Expired => Code_Expired | CodeDto_Used => Code_Used | CodeDto_Denied => Code_Denied
  | CodeDto_Capacity => Code_Capacity | CodeDto_Internal => Code_Internal
  end.

(** ** Third-party functions *)

(** [serde_json] on the documents of this crate, and the text of the UUID
    parser's error. *)
Class PairingJson : Type := {
  uuid_error_text : rstring → rstring;
  json_value_from_slice : list Byte.byte → result rstring Value;
  bundle_to_vec : PairingBundle → result rstring (list Byte.byte);
  bundle_from_slice : list Byte.byte → result rstring PairingBundle;
  pair_request_to_vec : PairingEnvelope RequestDto → result rstring (list Byte.byte);
  pair_request_from_slice : list Byte.byte → result rstring (PairingEnvelope RequestDto);
  pair_server_to_vec : PairingEnvelope ServerDto → result rstring (list Byte.byte);
  pair_server_from_slice : list Byte.byte → result rstring (PairingEnvelope ServerDto)
}.

(** Bytes that are the UTF-8 of some text. *)
Definition utf8_text (bytes : list Byte.byte) : Prop :=
  ∃ text, from_utf8 bytes = Some text ∧ as_bytes text = bytes.

(** Written documents are read back, as the derived type and, for the bundle,
    as the object of its written fields; JSON is UTF-8. *)
Class PairingJsonOk `{PairingJson} : Prop := {
  bundle_json : ∀ b bytes, bundle_to_vec b = Ok bytes →
    bundle_from_slice bytes = Ok b ∧ json_value_from_slice bytes = Ok (object (bundle_fields b));
  pair_request_json : ∀ e bytes, pair_request_to_vec e = Ok bytes →
    utf8_text bytes ∧ pair_request_from_slice bytes = Ok e;
  pair_server_json : ∀ e bytes, pair_server_to_vec e = Ok bytes →
    utf8_text bytes ∧ pair_server_from_slice bytes = Ok e
}.

Section protocol.
Context `{Externals} `{RelayExternals} `{PairingJson}.

(** ** Validation *)

Definition pairing_uuid_v7 (field : string) (value : rstring) : result PairingError unit :=
  u ← ok_or (Pairing_InvalidField field (uuid_error_text value)) (uuid_parse_str value);
  if negb (get_version_num u =? 7)%N then Err (invalid field "must be UUIDv7") else Ok ().

Definition nonblank (field : string) (value : rstring) (maximum : N) : result PairingError unit :=
  if is_empty (trim value) || (maximum <? N.of_nat (byte_len value))%N
  then Err (invalid field "must be nonblank and within its size limit") else Ok ().

Definition lower_hex (c : N) : bool := is_ascii_digit c || ((97 <=? c) && (c <=? 102))%N.

(** The conditions of [split('.').any(..)], negated. *)
Definition relay_label (label : rstring) : bool :=
  negb (is_empty label) && (byte_len label <=? 63)%nat && negb (bool_decide (head label = Some 45%N))
  && negb (bool_decide (last label = Some 45%N))
  && forallb (λ c, is_ascii_lowercase c || is_ascii_digit c || (c =? 45)%N) label.

Definition validate_relay_endpoint (endpoint : rstring) : result PairingError unit :=
  if negb (bool_decide (trim endpoint = endpoint)) || contains_str (lit "//") endpoint
     || existsb (λ c, bool_decide (c ∈ lit "/?#@")) endpoint
  then Err (invalid "relay_endpoint" "must be a canonical DNS host:port authority")
  else
    match rsplit_once 58 endpoint with
    | None => Err (invalid "relay_endpoint" "must contain one port")
    | Some (host, port) =>
        if bool_decide (58%N ∈ host) || (253 <? byte_len host)%nat || negb (bool_decide (46%N ∈ host))
           || negb (bool_decide (host = to_ascii_lowercase host)) || negb (is_ascii host)
           || is_ip_address host || negb (forallb relay_label (split_on 46 host))
        then Err (invalid "relay_endpoint" "must use a canonical public ASCII DNS name")
        else if from_option (λ port : u16, (raw port =? 0)%N) true (u16_from_str port)
        then Err (invalid "relay_endpoint" "port must be 1..65535")
        else Ok ()
    end.

Definition is_ascii_alphanumeric (c : N) : bool :=
  is_ascii_lowercase c || is_ascii_digit c || ((65 <=? c) && (c <=? 90))%N.

Definition direct_label (label : rstring) : bool :=
  negb (is_empty label) && (byte_len label <=? 63)%nat && negb (bool_decide (head label = Some 45%N))
  && negb (bool_decide (last label = Some 45%N))
  && forallb (λ c, is_ascii_alphanumeric c || (c =? 45)%N) label.

Definition validate_direct_host (host : rstring) : result PairingError unit :=
  let accepted :=
    match parse_ip_addr host with
    | Some ip => negb (is_unspecified ip) && negb (is_multicast ip)
    | None =>
        negb (forallb (λ c, is_ascii_digit c || (c =? 46)%N) host) && (byte_len host <=? 253)%nat
        && is_ascii host && forallb direct_label (split_on 46 host)
    end in
  if accepted then Ok () else Err (invalid "address" "must be a unicast IP or ASCII DNS name").

Definition validate_bundle (b : PairingBundle) : result PairingError unit :=
  if negb ((raw (pairing_version b) =? 1) || (raw (pairing_version b) =? 2))%N
  then Err (invalid "pairing_version" "unsupported version")
  else
    _ ← pairing_uuid_v7 "pairing_id" (bundle_pairing_id b);
    _ ← pairing_uuid_v7 "host_id" (bundle_host_id b);
    _ ← nonblank "host_name" (bundle_host_name b) 80;
    _ ← nonblank "server_name" (bundle_server_name b) 253;
    _ ← nonblank "address" (address b) 253;
    if negb (byte_len (leaf_sha256 b) =? 64)%nat || negb (forallb lower_hex (leaf_sha256 b))
    then Err (invalid "leaf_sha256" "must be a lowercase SHA-256 fingerprint")
    else
      _ ← nonblank "bootstrap_token" (bundle_bootstrap_token b) 128;
      _ ← (if (raw (pairing_version b) =? 1)%N && bool_decide (route b = None)
           then validate_relay_endpoint (relay_endpoint b)
           else if (raw (pairing_version b) =? 2)%N && bool_decide (route b = Some (lit "direct"))
                   && is_empty (relay_endpoint b)
           then validate_direct_host (address b)
           else Err (invalid "route" "invalid discovery route"));
      if (raw (port b) =? 0)%N then Err (invalid "port" "must be non-zero")
      else if (expires_at_unix_seconds b <=? 0)%Z
      then Err (invalid "expires_at_unix_seconds" "must be positive") else Ok ().

Definition validate_request (request : PairingRequest) : result PairingError unit :=
  _ ← pairing_uuid_v7 "pairing_id" (request_pairing_id request);
  _ ← pairing_uuid_v7 "client_id" (client_id request);
  _ ← nonblank "bootstrap_token" (request_bootstrap_token request) 128;
  _ ← nonblank "display_name" (display_name request) 80;
  match client_version request with
  | Some version => nonblank "version" version 64
  | None => Ok ()
  end.

Definition validate_server_message (message : PairingServerMessage) : result PairingError unit :=
  match message with
  | Pairing_Pending client_id display_name =>
      _ ← pairing_uuid_v7 "client_id" client_id; nonblank "display_name" display_name 80
  | Pairing_Succeeded host_id host_name ca_certificate_der server_name native_address native_port
      access_token native_transport_version domain_protocol_versions =>
      _ ← pairing_uuid_v7 "host_id" host_id;
      _ ← nonblank "host_name" host_name 80;
      _ ← nonblank "ca_certificate_der" ca_certificate_der 16384;
      _ ← nonblank "server_name" server_name 253;
      _ ← nonblank "native_address" native_address 253;
      _ ← nonblank "access_token" access_token 128;
      if (raw native_port =? 0)%N || (raw native_transport_version =? 0)%N
      then Err (invalid "endpoint" "port and version must be non-zero")
      else if is_empty domain_protocol_versions
      then Err (invalid "domain_protocol_versions" "at least one version is required") else Ok ()
  | Pairing_Failure _ message _ => nonblank "message" message 512
  end.

Definition pairing_validate_version (version : u64) : result PairingError unit :=
  if (raw version =? PAIRING_PROTOCOL_VERSION)%N then Ok ()
  else Err (invalid "pairing_version" "unsupported version").

(** ** URIs *)

(** [format!("agentpulse://pair/v{}/", version)] *)
Definition uri_prefix (version : u16) : rstring :=
  lit "agentpulse://pair/v" ++ display_u64 (raw version) ++ lit "/".

Definition to_uri (b : PairingBundle) : result PairingError rstring :=
  _ ← validate_bundle b;
  bytes ← map_err Pairing_Json (bundle_to_vec b);
  Ok (uri_prefix (pairing_version b) ++ base64_encode bytes).

(** [now] is the clock's answer, in Unix seconds. *)
Definition decode_pairing_uri (now : Z) (uri : rstring) : result PairingError PairingBundle :=
  let stripped := match strip_prefix PAIRING_URI_PREFIX uri with
                  | Some encoded => Some encoded
                  | None => strip_prefix (lit "agentpulse://pair/v2/") uri
                  end in
  encoded ← ok_or (invalid "pairing_uri" "unsupported URI scheme or version") stripped;
  bytes ← ok_or Pairing_Base64 (base64_decode encoded);
  bundle ← map_err Pairing_Json (bundle_from_slice bytes);
  _ ← validate_bundle bundle;
  value ← map_err Pairing_Json (json_value_from_slice bytes);
  if negb (starts_with (uri_prefix (pairing_version bundle)) uri)
     || ((raw (pairing_version bundle) =? 1)%N
         && (bool_decide (is_Some (get "route" value)) || bool_decide (get "relay_endpoint" value = None)))
     || ((raw (pairing_version bundle) =? 2)%N && bool_decide (is_Some (get "relay_endpoint" value)))
  then Err (invalid "pairing_uri" "discovery fields or version mismatch")
  else if (expires_at_unix_seconds bundle <=? now)%Z
  then Err (invalid "expires_at_unix_seconds" "pairing session expired")
  else Ok bundle.

(** ** Messages *)

Definition pairing_envelope {T} (message : T) : PairingEnvelope T :=
  MkPairingEnvelope (Refine PAIRING_PROTOCOL_VERSION I) message.

Definition encode_pairing_request (request : PairingRequest) : result PairingError (list Byte.byte) :=
  _ ← validate_request request;
  map_err Pairing_Json (pair_request_to_vec (pairing_envelope
    (Dto_PairRequest (request_pairing_id request) (request_bootstrap_token request) (client_id request)
       (display_name request) (client_version request)))).

Definition decode_pairing_request (input : list Byte.byte) : result PairingError PairingRequest :=
  envelope ← map_err Pairing_Json (pair_request_from_slice input);
  _ ← pairing_validate_version (envelope_version envelope);
  let 'Dto_PairRequest pairing_id bootstrap_token client_id display_name version := envelope_message envelope in
  let request := MkPairingRequest pairing_id bootstrap_token client_id display_name version in
  _ ← validate_request request;
  Ok request.

Definition server_to_dto (message : PairingServerMessage) : ServerDto :=
  match message with
  | Pairing_Pending client_id display_name => Dto_PairingPending client_id display_name
  | Pairing_Succeeded host_id host_name ca server_name native_address native_port access_token version versions =>
      Dto_PairingSucceeded host_id host_name ca server_name native_address native_port access_token version versions
  | Pairing_Failure code message recoverable => Dto_PairingError (code_to_dto code) message recoverable
  end.

Definition server_from_dto (dto : ServerDto) : PairingServerMessage :=
  match dto with
  | Dto_PairingPending client_id display_name => Pairing_Pending client_id display_name
  | Dto_PairingSucceeded host_id host_name ca server_name native_address native_port access_token version versions =>
      Pairing_Succeeded host_id host_name ca server_name native_address native_port access_token version versions
  | Dto_PairingError code message recoverable => Pairing_Failure (code_from_dto code) message recoverable
  end.

Definition encode_pairing_message (message : PairingServerMessage) : result PairingError (list Byte.byte) :=
  _ ← validate_server_message message;
  map_err Pairing_Json (pair_server_to_vec (pairing_envelope (server_to_dto message))).

Definition decode_pairing_message (input : list Byte.byte) : result PairingError PairingServerMessage :=
  envelope ← map_err Pairing_Json (pair_server_from_slice input);
  _ ← pairing_validate_version (envelope_version envelope);
  let message := server_from_dto (envelope_message envelope) in
  _ ← validate_server_message message;
  Ok message.
End protocol.

(** ** Correctness

    Messages and QR codes are read back as they were written, what is read is
    valid, and a QR code's relay endpoint is one the relay accepts. *)

(** ** Prefixes *)

Lemma strip_prefix_app p s : strip_prefix p (p ++ s) = Some s.
Proof. induction p as [|c p IH]; [by destruct s|]. simpl. by rewrite N.eqb_refl. Qed.

Lemma starts_with_app p s : starts_with p (p ++ s) = true.
Proof. unfold starts_with. rewrite strip_prefix_app. by apply bool_decide_eq_true. Qed.

(** ** ASCII *)

Lemma as_bytes_ascii s : Forall (λ c, (c < 128)%N) s → Byte.to_N <$> as_bytes s = s.
Proof.
  unfold as_bytes. induction 1 as [|c s Hc _ IH]; [done|]. cbn [mbind list_bind]. unfold utf8_char at 1.
  rewrite (proj2 (N.ltb_lt c 128)) by done. cbn [app fmap list_fmap].
  rewrite byte_to_of_N, N.mod_small by lia. f_equal. exact IH.
Qed.

Lemma byte_len_ascii s : Forall (λ c, (c < 128)%N) s → byte_len s = length s.
Proof. intros Hs. unfold byte_len. rewrite <-(length_fmap Byte.to_N). by rewrite as_bytes_ascii. Qed.

(** ** The fields of a bundle *)

Lemma get_route b : get "route" (object (bundle_fields b)) = VString <$> route b.
Proof. unfold bundle_fields. destruct (is_empty _), (route b); reflexivity. Qed.

Lemma get_relay_endpoint b : get "relay_endpoint" (object (bundle_fields b)) =
  if is_empty (relay_endpoint b) then None else Some (VString (relay_endpoint b)).
Proof. unfold bundle_fields. destruct (is_empty _), (route b); reflexivity. Qed.

(** ** Relay endpoints *)

(** The two crates write the same rule for a label. *)
Lemma relay_label_valid label : relay_label label = valid_label label.
Proof.
  unfold relay_label, valid_label.
  change (forallb (λ c, _) label) with (forallb label_byte label).
  destruct (forallb label_byte label) eqn:Hb; [|by rewrite !andb_false_r]. rewrite byte_len_ascii; [done|].
  rewrite forallb_forall in Hb. apply Forall_forall. intros c Hc%list_elem_of_In.
  pose proof (label_byte_range c (Hb c Hc)). lia.
Qed.

Lemma contains_slashes s : existsb (λ c, bool_decide (c ∈ lit "/?#@")) s = false → contains_str (lit "//") s = false.
Proof.
  induction s as [|c s IH]; [done|]. cbn [existsb]. intros [Hc Hs]%orb_false_iff. cbn [contains_str].
  rewrite (IH Hs), orb_false_r. unfold starts_with. apply bool_decide_eq_false. change (lit "//") with [47; 47]%N.
  cbn [strip_prefix]. destruct (N.eqb_spec 47 c) as [<-|]; [done|]. by intros [? ?].
Qed.

Lemma split_on_ne c s : split_on c s ≠ [].
Proof. destruct s as [|d s]; simpl; [done|]. destruct (d =? c)%N; [done|]. by destruct (split_on c s). Qed.

Lemma split_on_snoc c s : split_on c (s ++ [c]) = split_on c s ++ [[]].
Proof.
  induction s as [|d s IH]; [simpl; by rewrite N.eqb_refl|]. cbn [app split_on]. rewrite IH.
  destruct (d =? c)%N; [done|]. destruct (split_on c s) eqn:E; [|done].
  by apply split_on_ne in E.
Qed.

Lemma valid_labels_last host : forallb valid_label (split_on 46 host) = true → last host ≠ Some 46%N.
Proof.
  intros Hl Hlast. apply last_Some in Hlast as [s ->]. rewrite split_on_snoc, forallb_app in Hl.
  by apply andb_true_iff in Hl as [_ Hl].
Qed.

(** The hosts the relay accepts. *)
Lemma validate_host_Ok host :
  validate_host host = Ok () ↔
  (byte_len host ≤ 253)%nat ∧ is_ip_address host = false ∧ is_ascii host = true ∧
  forallb valid_label (split_on 46 host) = true ∧ 46%N ∈ host.
Proof.
  unfold validate_host. split.
  - destruct (is_empty host), (Nat.ltb_spec 253 (byte_len host)), (bool_decide (last host = Some 46%N)), (is_ip_address host),
      (is_ascii host); try done. simpl. destruct (forallb valid_label _); [|done].
    destruct (bool_decide (46%N ∈ host)) eqn:Hd; [|done]. apply bool_decide_eq_true in Hd. auto with lia.
  - intros (Hlen & -> & -> & Hl & Hd). rewrite Hl.
    rewrite (bool_decide_eq_false_2 _ (valid_labels_last _ Hl)), (bool_decide_eq_true_2 _ Hd).
    destruct (Nat.ltb_spec 253 (byte_len host)); [lia|]. destruct host; [by apply elem_of_nil in Hd|done].
Qed.

Section protocol.
Context `{Externals} `{RelayExternals} `{!RelayExternalsOk} `{PairingJson} `{!PairingJsonOk}.

Lemma validate_relay_endpoint_nonempty s : validate_relay_endpoint s = Ok () → is_empty s = false.
Proof using Type. by destruct s. Qed.

(** A QR code's endpoint is accepted exactly when the relay reads it and its host is
    written as the relay would write it. *)
Lemma validate_relay_endpoint_Ok s :
  validate_relay_endpoint s = Ok () ↔
  trim s = s ∧ ∃ e port, RelayEndpoint_from_str s = Ok e ∧ rsplit_once 58 s = Some (endpoint_host e, port).
Proof using Type.
  unfold validate_relay_endpoint, RelayEndpoint_from_str.
  destruct (decide (trim s = s)) as [Ht|Ht]; [|rewrite bool_decide_eq_false_2 by done; naive_solver].
  rewrite bool_decide_eq_true_2, Ht by done. cbn [negb orb].
  destruct (existsb _ s) eqn:Hspecial; [rewrite orb_true_r; naive_solver|]. rewrite contains_slashes by done. cbn [orb].
  destruct (rsplit_once 58 s) as [[host port]|]; [|naive_solver]. cbn [ok_or mbind result_bind].
  assert (forallb relay_label (split_on 46 host) = forallb valid_label (split_on 46 host)) as ->.
  { induction (split_on 46 host); simpl; [done|]. by rewrite relay_label_valid; f_equal. }
  split.
  - destruct (bool_decide (58%N ∈ host)), (Nat.ltb_spec 253 (byte_len host)); try done.
    destruct (bool_decide (46%N ∈ host)) eqn:Hd, (bool_decide (host = to_ascii_lowercase host)) eqn:Hlow, (is_ascii host) eqn:Ha,
      (is_ip_address host) eqn:Hip, (forallb valid_label _) eqn:Hl; try done. cbn [negb orb].
    apply bool_decide_eq_true in Hd, Hlow. destruct (u16_from_str port) as [p|]; [|done]. simpl.
    destruct (N.eqb_spec (raw p) 0); [done|]. intros _. split; [done|]. exists (MkEndpoint host p), port. split; [|done].
    unfold RelayEndpoint_new. rewrite <-Hlow. rewrite (proj2 (validate_host_Ok host)) by auto. simpl.
    by destruct (N.eqb_spec (raw p) 0).
  - intros (_ & e & port' & He & Hsplit). destruct (u16_from_str port) as [p|]; [|done]. cbn [mbind result_bind] in He.
    apply RelayEndpoint_new_Ok in He as (-> & Hv & Hp). injection Hsplit as Hlow <-. cbn [endpoint_host] in Hlow.
    rewrite <-Hlow in Hv. pose proof (validate_host_bytes host 58 Hv) as Hcolon.
    apply validate_host_Ok in Hv as (Hlen & -> & -> & -> & Hd). rewrite (bool_decide_eq_true_2 _ Hd), (bool_decide_eq_true_2 _ Hlow).
    rewrite bool_decide_eq_false_2 by (by intros [|]%Hcolon). destruct (Nat.ltb_spec 253 (byte_len host)); [lia|].
    simpl. by destruct (N.eqb_spec (raw p) 0).
Qed.

(** What validation says about the discovery fields. *)
Lemma validate_bundle_route b :
  validate_bundle b = Ok () →
  (raw (pairing_version b) = 1%N ∧ route b = None ∧ is_empty (relay_endpoint b) = false) ∨
  (raw (pairing_version b) = 2%N ∧ route b = Some (lit "direct") ∧ is_empty (relay_endpoint b) = true).
Proof using Type.
  unfold validate_bundle. destruct (negb ((raw (pairing_version b) =? 1) || _)%N); [done|].
  intros (_ & _ & (_ & _ & (_ & _ & (_ & _ & (_ & _ & L)%bind_Ok)%bind_Ok)%bind_Ok)%bind_Ok)%bind_Ok.
  destruct (_ || _); [done|]. apply bind_Ok in L as (_ & _ & L). apply bind_Ok in L as ([] & L & _).
  destruct (N.eqb_spec (raw (pairing_version b)) 1) as [V1|V1]; simpl in *.
  - destruct (bool_decide (route b = None)) eqn:Hr; [|by rewrite V1 in L].
    apply bool_decide_eq_true in Hr. left. split_and!; [done..|]. by apply validate_relay_endpoint_nonempty.
  - destruct (N.eqb_spec (raw (pairing_version b)) 2) as [V2|V2]; simpl in *; [|done].
    destruct (bool_decide (route b = Some (lit "direct"))) eqn:Hr; [|done]. apply bool_decide_eq_true in Hr.
    destruct (is_empty (relay_endpoint b)) eqn:Hempty; [|done]. by right.
Qed.

(** The version is that of the prefix. *)
Lemma uri_prefix_stripped (v : u16) s :
  raw v = 1%N ∨ raw v = 2%N →
  match strip_prefix PAIRING_URI_PREFIX (uri_prefix v ++ s) with
  | Some encoded => Some encoded
  | None => strip_prefix (lit "agentpulse://pair/v2/") (uri_prefix v ++ s)
  end = Some s.
Proof using Type.
  unfold uri_prefix. intros [->| ->].
  - change (_ ++ _ ++ _) with PAIRING_URI_PREFIX at 1. by rewrite strip_prefix_app.
  - reflexivity.
Qed.

Lemma to_uri_Ok b uri :
  to_uri b = Ok uri →
  ∃ bytes, validate_bundle b = Ok () ∧ bundle_to_vec b = Ok bytes ∧ uri = uri_prefix (pairing_version b) ++ base64_encode bytes.
Proof using Type.
  unfold to_uri. intros ([] & Hv & (bytes & Hb%map_err_Ok & [= <-])%bind_Ok)%bind_Ok. eauto.
Qed.

Lemma decode_to_uri b uri now :
  to_uri b = Ok uri →
  decode_pairing_uri now uri =
    if (expires_at_unix_seconds b <=? now)%Z then Err (invalid "expires_at_unix_seconds" "pairing session expired") else Ok b.
Proof using All.
  intros (bytes & Hv & Hb & ->)%to_uri_Ok. pose proof (validate_bundle_route b Hv) as Hroute.
  destruct (bundle_json b bytes Hb) as [Hslice Hvalue].
  pose proof (uri_prefix_stripped (pairing_version b) (base64_encode bytes) ltac:(tauto)) as Hstrip.
  pose proof (starts_with_app (uri_prefix (pairing_version b)) (base64_encode bytes)) as Hstart.
  unfold decode_pairing_uri. generalize dependent (uri_prefix (pairing_version b) ++ base64_encode bytes).
  intros uri -> Hstart. unfold ok_or, mbind, result_bind. rewrite base64_decode_encode, Hslice. cbn [map_err].
  rewrite Hv, Hvalue. cbn [map_err]. rewrite Hstart, get_route, get_relay_endpoint.
  destruct Hroute as [(-> & -> & ->)|(-> & -> & ->)]; reflexivity.
Qed.

Lemma decode_pairing_uri_Ok now uri b :
  decode_pairing_uri now uri = Ok b →
  validate_bundle b = Ok () ∧ (now < expires_at_unix_seconds b)%Z ∧ starts_with (uri_prefix (pairing_version b)) uri = true.
Proof using Type.
  unfold decode_pairing_uri.
  intros (encoded & _ & (bytes & _ & (b' & _ & ([] & Hv & (value & _ & L)%bind_Ok)%bind_Ok)%bind_Ok)%bind_Ok)%bind_Ok.
  destruct (starts_with _ _) eqn:Hs; [|done]. destruct (_ || _); [done|].
  destruct (Z.leb_spec (expires_at_unix_seconds b') now); [done|]. by injection L as <-.
Qed.

(** ** Messages *)

Lemma decode_pairing_request_valid input request :
  decode_pairing_request input = Ok request → validate_request request = Ok ().
Proof using Type.
  unfold decode_pairing_request. intros (e & _ & (_ & _ & L)%bind_Ok)%bind_Ok.
  destruct (envelope_message e). apply bind_Ok in L as ([] & Hv & [= <-]). done.
Qed.

Lemma request_round_trip request bytes :
  encode_pairing_request request = Ok bytes → decode_pairing_request bytes = Ok request.
Proof using All.
  intros ([] & Hv & Hb%map_err_Ok)%bind_Ok. destruct (pair_request_json _ _ Hb) as [_ Hj].
  unfold decode_pairing_request. rewrite Hj. destruct request. simpl in *. by rewrite Hv.
Qed.

Lemma server_dto_round_trip message : server_from_dto (server_to_dto message) = message.
Proof using Type. destruct message as [| |[]]; reflexivity. Qed.

Lemma message_round_trip message bytes :
  encode_pairing_message message = Ok bytes → decode_pairing_message bytes = Ok message.
Proof using All.
  intros ([] & Hv & Hb%map_err_Ok)%bind_Ok. destruct (pair_server_json _ _ Hb) as [_ Hj].
  unfold decode_pairing_message. rewrite Hj. simpl. by rewrite server_dto_round_trip, Hv.
Qed.

Lemma decode_pairing_message_valid input message :
  decode_pairing_message input = Ok message → validate_server_message message = Ok ().
Proof using Type.
  unfold decode_pairing_message. intros (e & _ & (_ & _ & ([] & Hv & [= <-])%bind_Ok)%bind_Ok)%bind_Ok. done.
Qed.
End protocol.
