(* ===== verification/PairingStore.v ===== *)
(** * Pairing: the credential store

    Models [agentpulse-pairing/src/store.rs] over the private files of the
    platform.  Certificates ([rcgen]) and the padded base64 engine are
    third-party code; random bytes, identifiers and the clock are functions of
    how often they were asked for. *)

From stdpp Require Import base strings numbers sorting gmap list.
From S2P Require Import Prelude Bytes Json Values Dto Net RelayProtocol PairingProtocol Platform.

Definition STORE_SCHEMA_VERSION : N := 1.
Definition MAX_DEVICES : nat := 16.
Definition LEAF_LIFETIME_DAYS : Z := 90.
Definition LEAF_RENEWAL_DAYS : Z := 14.
Definition CA_LIFETIME_DAYS : Z := 3650.

(** ** Data *)

Record HostIdentitySnapshot : Type := MkIdentity {
  identity_host_id : rstring;
  identity_host_name : rstring;
  identity_provider_id : rstring;
  identity_channel_id : rstring;
  identity_server_name : rstring;
  identity_thread_ids : list rstring;
  identity_leaf_der : list Byte.byte;
  identity_ca_der : list Byte.byte;
  identity_leaf_key_der : list Byte.byte;
  identity_leaf_not_after : Z
}.

Record DeviceCredentialSummary : Type := MkSummary {
  summary_client_id : rstring;
  summary_display_name : rstring;
  summary_version : option rstring;
  summary_paired_at : Z
}.

Record DeviceCredentialDigest : Type := MkDigest { digest_client_id : rstring; token_digest : bytes32 }.

Record CertificateRecord : Type := MkCertificates {
  ca_certificate_der : rstring;
  ca_private_key_der : rstring;
  leaf_certificate_der : rstring;
  leaf_private_key_der : rstring;
  leaf_not_after_unix_seconds : Z
}.

Record DeviceRecord : Type := MkDevice {
  device_client_id : rstring;
  device_display_name : rstring;
  device_version : option rstring;
  token_sha256 : rstring;
  paired_at_unix_seconds : Z
}.

Record StoreRecord : Type := MkStoreRecord {
  record_schema_version : u16;
  record_host_id : rstring;
  record_host_name : rstring;
  record_provider_id : rstring;
  record_channel_id : rstring;
  record_server_name : rstring;
  thread_ids : list rstring;
  certificates : CertificateRecord;
  devices : list DeviceRecord
}.

Definition set_thread_list (ids : list rstring) (r : StoreRecord) : StoreRecord :=
  MkStoreRecord (record_schema_version r) (record_host_id r) (record_host_name r) (record_provider_id r)
    (record_channel_id r) (record_server_name r) ids (certificates r) (devices r).
Definition set_certificates (c : CertificateRecord) (r : StoreRecord) : StoreRecord :=
  MkStoreRecord (record_schema_version r) (record_host_id r) (record_host_name r) (record_provider_id r)
    (record_channel_id r) (record_server_name r) (thread_ids r) c (devices r).
Definition set_devices (l : list DeviceRecord) (r : StoreRecord) : StoreRecord :=
  MkStoreRecord (record_schema_version r) (record_host_id r) (record_host_name r) (record_provider_id r)
    (record_channel_id r) (record_server_name r) (thread_ids r) (certificates r) l.

#[export] Instance CertificateRecord_eq_dec : EqDecision CertificateRecord.
Proof. solve_decision. Defined.
#[export] Instance DeviceRecord_eq_dec : EqDecision DeviceRecord.
Proof. solve_decision. Defined.
#[export] Instance StoreRecord_eq_dec : EqDecision StoreRecord.
Proof. solve_decision. Defined.

(** ** Third-party functions *)

(** [rcgen::CertificateParams], as far as it is set; times in nanoseconds. *)
Inductive KeyUsage : Type := DigitalSignature | KeyCertSign | CrlSign.
Record CertificateParams : Type := MkParams {
  subject_alt_names : list rstring;
  common_name : rstring;
  is_ca : bool;
  key_usages : list KeyUsage;
  server_auth : bool;
  not_before : Z;
  not_after : Z
}.

Class StoreLibrary : Type := {
  standard_encode : list Byte.byte → rstring;
  standard_decode : rstring → option (list Byte.byte);
  record_to_vec_pretty : StoreRecord → result rstring (list Byte.byte);
  record_from_slice : list Byte.byte → result rstring StoreRecord;
  KeyPair : Type;
  Certificate : Type;
  keypair_generate : nat → result rstring KeyPair;
  keypair_try_from : list Byte.byte → result rstring KeyPair;
  serialize_der : KeyPair → list Byte.byte;
  subject_names_ok : list rstring → result rstring unit;
  self_signed : CertificateParams → KeyPair → result rstring Certificate;
  signed_by : CertificateParams → KeyPair → Certificate → KeyPair → result rstring Certificate;
  from_ca_cert_der : list Byte.byte → result rstring CertificateParams;
  certificate_der : Certificate → list Byte.byte
}.

(** Written records and encoded bytes are read back. *)
Class StoreLibraryOk `{StoreLibrary} : Prop := {
  standard_decode_encode : ∀ b, standard_decode (standard_encode b) = Some b;
  record_json : ∀ r bytes, record_to_vec_pretty r = Ok bytes → record_from_slice bytes = Ok r
}.

(** The clock (nanoseconds since the epoch), [rand] and [Uuid::now_v7]. *)
Class StoreDraws : Type := {
  clock_utc : nat → Z;
  random_bytes : nat → bytes32;
  fresh_uuid : nat → rstring
}.

Record StoreWorld : Type := MkStoreWorld { disk : Disk; store_draws : nat }.

(** ** Hexadecimal *)

Definition hex_digit_at (n : N) : N := nth (N.to_nat n) (lit "0123456789abcdef") 0%N.

Definition hex (bytes : list Byte.byte) : rstring :=
  bytes ≫= λ b, [hex_digit_at (N.shiftr (Byte.to_N b) 4); hex_digit_at (N.land (Byte.to_N b) 15)].

Definition digit (value : N) : option N :=
  if is_ascii_digit value then Some (value - 48)%N
  else if ((97 <=? value) && (value <=? 102))%N then Some (value - 97 + 10)%N
  else None.

(** The loop over the pairs of digits. *)
Fixpoint decode_hex_pairs (bytes : list N) : option (list Byte.byte) :=
  match bytes with
  | [] => Some []
  | high :: low :: bytes' =>
      high ← digit high; low ← digit low;
      rest ← decode_hex_pairs bytes';
      Some (byte_of_N (N.lor (N.shiftl high 4) low) :: rest)
  | [_] => None
  end.

Definition decode_hex_32 (value : rstring) : option bytes32 :=
  if negb (byte_len value =? 64)%nat then None
  else bytes ← decode_hex_pairs (Byte.to_N <$> as_bytes value); of_raw bytes.

Section store.
Context `{Externals} `{RelayExternals} `{PairingJson} `{StoreLibrary} `{StoreDraws} `{DiskFaults}.
(** The credential file and its lock; a store is a path. *)
Implicit Types (path : Path) (w : StoreWorld).

Abbreviation storing A := (act StoreWorld PairingError A).

(** [Path::with_extension("lock")] *)
Definition lock_name (name : rstring) : rstring :=
  match rsplit_once 46 name with
  | Some (stem, _) => (if is_empty stem then name else stem) ++ lit ".lock"
  | None => name ++ lit ".lock"
  end.
Definition lock_path path : Path := removelast path ++ [lock_name (default [] (last path))].

Definition on_disk {A} (operation : string) (a : act Disk rstring A) : storing A := λ w,
  let '(d, r) := a (disk w) in (MkStoreWorld d (store_draws w), map_err (Pairing_Io operation) r).

Definition draw {A} (f : nat → A) : storing A := λ w,
  (MkStoreWorld (disk w) (S (store_draws w)), Ok (f (store_draws w))).

Definition unix_timestamp (nanos : Z) : Z := (nanos / 1000000000)%Z.
Definition days (n : Z) : Z := (n * 86400 * 1000000000)%Z.
Definition now_unix_seconds : storing Z := draw (λ n, unix_timestamp (clock_utc n)).

(** ** Validation *)

Definition validate_bounded (field : string) (value : rstring) (maximum : N) : result PairingError unit :=
  if is_empty (trim value) || (maximum <? N.of_nat (byte_len value))%N
  then Err (invalid field "must be nonblank and within its size limit") else Ok ().

Definition validate_name (value : rstring) : result PairingError unit := validate_bounded "display_name" value 80.

Definition validate_uuid_v7 (field : string) (value : rstring) : result PairingError unit :=
  u ← ok_or (Pairing_InvalidField field (uuid_error_text value)) (uuid_parse_str value);
  if negb (get_version_num u =? 7)%N then Err (invalid field "must be UUIDv7") else Ok ().

Definition snapshot (r : StoreRecord) : result PairingError HostIdentitySnapshot :=
  leaf ← ok_or Pairing_Base64 (standard_decode (leaf_certificate_der (certificates r)));
  ca ← ok_or Pairing_Base64 (standard_decode (ca_certificate_der (certificates r)));
  key ← ok_or Pairing_Base64 (standard_decode (leaf_private_key_der (certificates r)));
  Ok (MkIdentity (record_host_id r) (record_host_name r) (record_provider_id r) (record_channel_id r)
        (record_server_name r) (thread_ids r) leaf ca key (leaf_not_after_unix_seconds (certificates r))).

Definition validate_device (device : DeviceRecord) : result PairingError unit :=
  _ ← validate_uuid_v7 "client_id" (device_client_id device);
  _ ← validate_name (device_display_name device);
  if bool_decide (decode_hex_32 (token_sha256 device) = None)
  then Err (Pairing_InvalidStore (lit "invalid device credential hash")) else Ok ().

Definition validate_record (r : StoreRecord) : result PairingError unit :=
  if negb (raw (record_schema_version r) =? STORE_SCHEMA_VERSION)%N
  then Err (Pairing_InvalidStore (lit "unsupported schema version " ++ display_u64 (raw (record_schema_version r))))
  else
    _ ← validate_uuid_v7 "host_id" (record_host_id r);
    _ ← validate_uuid_v7 "provider_id" (record_provider_id r);
    _ ← validate_uuid_v7 "channel_id" (record_channel_id r);
    _ ← validate_name (record_host_name r);
    _ ← validate_bounded "server_name" (record_server_name r) 253;
    if (MAX_DEVICES <? length (devices r))%nat
    then Err (Pairing_InvalidStore (lit "device capacity exceeded"))
    else
      _ ← try_collect (validate_uuid_v7 "thread_id") (thread_ids r);
      _ ← try_collect validate_device (devices r);
      _ ← snapshot r;
      Ok ().

(** ** Certificates *)

Definition certificate {A} (r : result rstring A) : storing A := lift (map_err Pairing_Certificate r).

Definition create_leaf (server_name : rstring) (ca_certificate : Certificate) (ca_key : KeyPair) :
    storing (list Byte.byte * list Byte.byte * Z) :=
  now ← draw clock_utc;
  let leaf_not_after := (now + days LEAF_LIFETIME_DAYS)%Z in
  leaf_key ← draw keypair_generate;
  leaf_key ← certificate leaf_key;
  _ ← certificate (subject_names_ok [server_name]);
  let params := MkParams [server_name] server_name false [DigitalSignature] true (now - days 1) leaf_not_after in
  leaf_certificate ← certificate (signed_by params leaf_key ca_certificate ca_key);
  mret (certificate_der leaf_certificate, serialize_der leaf_key, unix_timestamp leaf_not_after).

Definition generate_identity (host_name server_name : rstring) : storing CertificateRecord :=
  now ← draw clock_utc;
  ca_key ← draw keypair_generate;
  ca_key ← certificate ca_key;
  _ ← certificate (subject_names_ok []);
  let params := MkParams [] (lit "AgentPulse " ++ host_name ++ lit " Local CA") true
    [DigitalSignature; KeyCertSign; CrlSign] false (now - days 1) (now + days CA_LIFETIME_DAYS) in
  ca_certificate ← certificate (self_signed params ca_key);
  '(leaf, leaf_key, leaf_not_after) ← create_leaf server_name ca_certificate ca_key;
  mret (MkCertificates (standard_encode (certificate_der ca_certificate)) (standard_encode (serialize_der ca_key))
          (standard_encode leaf) (standard_encode leaf_key) leaf_not_after).

Definition renew_leaf (r : StoreRecord) : storing StoreRecord :=
  let c := certificates r in
  ca_der ← lift (ok_or Pairing_Base64 (standard_decode (ca_certificate_der c)));
  ca_key_der ← lift (ok_or Pairing_Base64 (standard_decode (ca_private_key_der c)));
  ca_key ← certificate (keypair_try_from ca_key_der);
  params ← certificate (from_ca_cert_der ca_der);
  ca_certificate ← certificate (self_signed params ca_key);
  '(leaf, leaf_key, leaf_not_after) ← create_leaf (record_server_name r) ca_certificate ca_key;
  mret (set_certificates (MkCertificates (ca_certificate_der c) (ca_private_key_der c) (standard_encode leaf)
          (standard_encode leaf_key) leaf_not_after) r).

(** ** The file *)

Definition ensure_parent path : storing unit :=
  match parent path with
  | None => throw (invalid "credential_path" "path has no parent")
  | Some dir => on_disk "protect directory" (ensure_private_dir dir)
  end.

Definition open_lock path : storing unit := on_disk "open lock" (open_private_lock (lock_path path)).
(** [lock_exclusive], [lock_shared]: they wait, or fail. *)
Definition take_lock : storing unit := on_disk "lock" (call (λ m, (m, Ok ()))).

Definition store_exists path : storing bool := on_disk "exists" (exists_path path).

Definition load_unlocked path : storing StoreRecord :=
  present ← store_exists path;
  if negb present then throw Pairing_NotInitialized
  else
    _ ← on_disk "protect file" (protect_file path);
    bytes ← on_disk "read" (fs_read path);
    record ← lift (map_err Pairing_Json (record_from_slice bytes));
    _ ← lift (validate_record record);
    mret record.

Definition save_unlocked path (r : StoreRecord) : storing unit :=
  bytes ← lift (map_err Pairing_Json (record_to_vec_pretty r));
  on_disk "replace private file" (atomic_write_private path bytes).

Definition update path (operation : StoreRecord → storing StoreRecord) : storing StoreRecord :=
  _ ← ensure_parent path;
  _ ← open_lock path;
  _ ← take_lock;
  record ← load_unlocked path;
  record ← operation record;
  _ ← lift (validate_record record);
  _ ← save_unlocked path record;
  mret record.

Definition load_record path : storing StoreRecord :=
  _ ← ensure_parent path;
  _ ← open_lock path;
  _ ← take_lock;
  load_unlocked path.

(** ** Operations *)

Definition initialize path (host_name : rstring) : storing HostIdentitySnapshot :=
  _ ← lift (validate_name host_name);
  _ ← ensure_parent path;
  _ ← open_lock path;
  _ ← take_lock;
  present ← store_exists path;
  if present : bool then throw Pairing_AlreadyInitialized
  else
    host_id ← draw fresh_uuid;
    let server_name := host_id ++ lit ".agentpulse.local" in
    certificates ← generate_identity host_name server_name;
    provider_id ← draw fresh_uuid;
    channel_id ← draw fresh_uuid;
    let record := MkStoreRecord (Refine STORE_SCHEMA_VERSION I) host_id host_name provider_id channel_id
      server_name [] certificates [] in
    _ ← save_unlocked path record;
    lift (snapshot record).

Definition load_identity path : storing HostIdentitySnapshot :=
  record ← update path (λ record,
    now ← now_unix_seconds;
    if (leaf_not_after_unix_seconds (certificates record) <=? now + LEAF_RENEWAL_DAYS * 86400)%Z
    then renew_leaf record else mret record);
  lift (snapshot record).

(** The loop of [set_thread_ids] over the threads seen so far. *)
Fixpoint check_threads (unique : gset rstring) (ids : list rstring) : result PairingError unit :=
  match ids with
  | [] => Ok ()
  | thread_id :: ids' =>
      _ ← validate_uuid_v7 "thread_id" thread_id;
      if bool_decide (thread_id ∈ unique)
      then Err (Pairing_InvalidField "thread_id" (lit "duplicate thread " ++ thread_id))
      else check_threads ({[thread_id]} ∪ unique) ids'
  end.

Definition set_thread_ids path (ids : list rstring) : storing unit :=
  _ ← lift (check_threads ∅ ids);
  _ ← update path (λ record, mret (set_thread_list ids record));
  mret ().

Definition device_summary (device : DeviceRecord) : DeviceCredentialSummary :=
  MkSummary (device_client_id device) (device_display_name device) (device_version device)
    (paired_at_unix_seconds device).

Definition list_devices path : storing (list DeviceCredentialSummary) :=
  record ← load_record path; mret (device_summary <$> devices record).

Definition device_digest (device : DeviceRecord) : result PairingError DeviceCredentialDigest :=
  digest ← ok_or (Pairing_InvalidStore (lit "invalid device credential hash")) (decode_hex_32 (token_sha256 device));
  Ok (MkDigest (device_client_id device) digest).

Definition device_credential_digests path : storing (list DeviceCredentialDigest) :=
  record ← load_record path; lift (try_collect device_digest (devices record)).

(** [iter().find(..)] *)
Definition find_device (client_id : rstring) (l : list DeviceRecord) : option DeviceRecord :=
  List.find (λ device, bool_decide (device_client_id device = client_id)) l.

(** The first device with the identity is replaced. *)
Fixpoint replace_device (client_id : rstring) (device : DeviceRecord) (l : list DeviceRecord) : list DeviceRecord :=
  match l with
  | [] => []
  | d :: l' => if bool_decide (device_client_id d = client_id) then device :: l'
               else d :: replace_device client_id device l'
  end.

(** The closure of [issue_device]. *)
Definition put_device (client_id display_name : rstring) (version : option rstring) (token_hash : rstring)
    (record : StoreRecord) : storing StoreRecord :=
  if bool_decide (is_Some (find_device client_id (devices record))) then
    now ← now_unix_seconds;
    mret (set_devices (replace_device client_id (MkDevice client_id display_name version token_hash now)
                         (devices record)) record)
  else if (MAX_DEVICES <=? length (devices record))%nat then throw (Pairing_DeviceCapacity MAX_DEVICES)
  else
    now ← now_unix_seconds;
    mret (set_devices (devices record ++ [MkDevice client_id display_name version token_hash now]) record).

Definition issue_device path (client_id display_name : rstring) (version : option rstring) : storing rstring :=
  _ ← lift (validate_uuid_v7 "client_id" client_id);
  _ ← lift (validate_name display_name);
  _ ← lift (match version with Some version => validate_bounded "version" version 64 | None => Ok () end);
  secret ← draw random_bytes;
  let token := base64_encode (raw secret) in
  let token_hash := hex (raw (sha256 (as_bytes token))) in
  _ ← update path (put_device client_id display_name version token_hash);
  mret token.

Definition revoke_device path (client_id : rstring) : storing unit :=
  _ ← update path (λ record,
    let kept := List.filter (λ device, negb (bool_decide (device_client_id device = client_id))) (devices record) in
    if (length (devices record) =? length kept)%nat then throw (Pairing_DeviceNotFound client_id)
    else mret (set_devices kept record));
  mret ().

Definition rotate_credentials path : storing HostIdentitySnapshot :=
  record ← update path (λ record,
    certificates ← generate_identity (record_host_name record) (record_server_name record);
    mret (set_devices [] (set_certificates certificates record)));
  lift (snapshot record).

(** [HostCredentialStore::authorize], and so [FileCredentialAuthorizer]. *)
Definition authorize_record (record : StoreRecord) (client_id token : rstring) : bool :=
  match find_device client_id (devices record) with
  | None => false
  | Some device =>
      match decode_hex_32 (token_sha256 device) with
      | None => false
      | Some expected => bool_decide (raw (sha256 (as_bytes token)) = raw expected)
      end
  end.

Definition authorize path (client_id token : rstring) : storing bool := λ w,
  match load_record path w with
  | (w', Ok record) => (w', Ok (authorize_record record client_id token))
  | (w', Err _) => (w', Ok false)
  end.

(** [FileCredentialAuthorizer] answers from the file as it is. *)
Definition file_authorizer path (w : StoreWorld) : rstring → rstring → bool := λ client_id token,
  match (authorize path client_id token w).2 with Ok answer => answer | Err _ => false end.

Definition identity_leaf_sha256 (identity : HostIdentitySnapshot) : rstring :=
  hex (raw (sha256 (identity_leaf_der identity))).
Definition ca_certificate_base64 (identity : HostIdentitySnapshot) : rstring :=
  standard_encode (identity_ca_der identity).
End store.
