(* ===== verification/PairingStoreSpec.v ===== *)
(** * The credential store: correctness

    Every operation, whatever fails, leaves a valid record in the file that
    keeps the identity of the Host; the credentials it holds evolve as a finite
    map from clients to the digests of their tokens. *)

From stdpp Require Import base strings numbers sorting gmap list.
From S2P Require Import Prelude Bytes Json Values Dto Net Transport RelayProtocol PairingProtocol.
From S2P Require Import Platform.
From S2P Require Import PairingStore.

Create HintDb pairing.

(** ** Hexadecimal *)

Definition hex_pair (b : Byte.byte) : list N :=
  [hex_digit_at (N.shiftr (Byte.to_N b) 4); hex_digit_at (N.land (Byte.to_N b) 15)].

Lemma hex_pair_ascii b : forallb (λ c, (c <? 128)%N) (hex_pair b) = true.
Proof. destruct b; vm_compute; reflexivity. Qed.
Lemma decode_hex_pair b l :
  decode_hex_pairs (hex_pair b ++ l) = (rest ← decode_hex_pairs l; Some (b :: rest)).
Proof. destruct b; reflexivity. Qed.

Lemma hex_ascii bytes : Forall (λ c, (c < 128)%N) (hex bytes).
Proof.
  induction bytes as [|b bytes IH]; [constructor|]. change (hex (b :: bytes)) with (hex_pair b ++ hex bytes).
  apply Forall_app. split; [|exact IH]. pose proof (hex_pair_ascii b) as Hb. rewrite forallb_forall in Hb.
  apply Forall_forall. intros c Hc%list_elem_of_In. by apply N.ltb_lt, Hb.
Qed.

Lemma length_hex bytes : length (hex bytes) = 2 * length bytes.
Proof.
  induction bytes as [|b bytes IH]; [done|]. change (hex (b :: bytes)) with (hex_pair b ++ hex bytes).
  rewrite length_app, IH. simpl. lia.
Qed.

Lemma decode_hex_pairs_hex bytes : decode_hex_pairs (hex bytes) = Some bytes.
Proof.
  induction bytes as [|b bytes IH]; [done|]. change (hex (b :: bytes)) with (hex_pair b ++ hex bytes).
  by rewrite decode_hex_pair, IH.
Qed.

(** What is stored is what was hashed. *)
Lemma decode_hex_32_hex (b : bytes32) : decode_hex_32 (hex (raw b)) = Some b.
Proof.
  unfold decode_hex_32. rewrite byte_len_ascii, length_hex by apply hex_ascii.
  pose proof (raw_ok b) as Hb. apply Is_true_true, Nat.eqb_eq in Hb. rewrite Hb. simpl.
  rewrite as_bytes_ascii, decode_hex_pairs_hex by apply hex_ascii. simpl. apply of_raw_raw.
Qed.

(** ** Devices as a map *)

Section devices.
Implicit Types (l : list DeviceRecord) (d : DeviceRecord).

Lemma find_replace_same c d l :
  device_client_id d = c → is_Some (find_device c l) → find_device c (replace_device c d l) = Some d.
Proof.
  intros Hd. unfold find_device. induction l as [|x l IH]; simpl; [by intros []|].
  destruct (bool_decide_reflect (device_client_id x = c)) as [Hx|Hx]; simpl.
  - by rewrite bool_decide_true.
  - intros Hl. rewrite bool_decide_false by done. by apply IH.
Qed.

Lemma find_replace_ne c c' d l :
  device_client_id d = c → c' ≠ c → find_device c' (replace_device c d l) = find_device c' l.
Proof.
  intros Hd Hne. unfold find_device. induction l as [|x l IH]; simpl; [done|].
  destruct (bool_decide_reflect (device_client_id x = c)) as [Hx|Hx]; simpl.
  - rewrite !bool_decide_false by congruence. done.
  - by rewrite IH.
Qed.

Lemma length_replace_device c d l : length (replace_device c d l) = length l.
Proof. induction l as [|x l IH]; simpl; [done|]. destruct (bool_decide _); simpl; by rewrite ?IH. Qed.

Lemma find_snoc c d l :
  find_device c (l ++ [d]) =
  match find_device c l with
  | Some x => Some x
  | None => if bool_decide (device_client_id d = c) then Some d else None
  end.
Proof.
  unfold find_device. induction l as [|x l IH]; simpl; [done|].
  destruct (bool_decide (device_client_id x = c)); [done|exact IH].
Qed.

Definition without (c : rstring) l : list DeviceRecord :=
  List.filter (λ device, negb (bool_decide (device_client_id device = c))) l.

Lemma find_without_same c l : find_device c (without c l) = None.
Proof.
  unfold find_device, without. induction l as [|x l IH]; simpl; [done|].
  destruct (bool_decide (device_client_id x = c)) eqn:E; simpl; [done|]. by rewrite E.
Qed.

Lemma find_without_ne c c' l : c' ≠ c → find_device c' (without c l) = find_device c' l.
Proof.
  intros Hne. unfold find_device, without. induction l as [|x l IH]; simpl; [done|].
  destruct (bool_decide_reflect (device_client_id x = c)) as [Hx|Hx]; simpl.
  - by rewrite (bool_decide_false (device_client_id x = c')) by congruence.
  - by rewrite IH.
Qed.

Lemma length_without c l : length (without c l) ≤ length l.
Proof. unfold without. induction l as [|x l IH]; simpl; [done|]. destruct (negb _); simpl; lia. Qed.
End devices.

(** ** The file and the record it holds *)

Section store.
Context `{Externals} `{RelayExternals} `{PairingJson} `{StoreLibrary} `{!StoreLibraryOk} `{StoreDraws} `{DiskFaults}.
Context (path : Path).
Implicit Types (w : StoreWorld) (r : StoreRecord).
(** The credential file is neither its lock nor a temporary file. *)
Hypothesis path_lock : path ≠ lock_path path.
Hypothesis path_temporary : ∀ n, path ≠ temporary_of (removelast path) n.

Abbreviation storing A := (act StoreWorld PairingError A).
Definition content w : option (list Byte.byte) := file_at path (disk w).

Record saved w r : Prop := {
  saved_content : ∃ bytes, content w = Some bytes ∧ record_from_slice bytes = Ok r;
  saved_valid : validate_record r = Ok ()
}.

Lemma saved_unique w r r' : saved w r → saved w r' → r = r'.
Proof. intros [(b & Hb & Hr) _] [(b' & Hb' & Hr') _]. congruence. Qed.

Lemma saved_same w w' r : content w' = content w → saved w r → saved w' r.
Proof. intros Hc [Hb Hv]. split; [by rewrite Hc|done]. Qed.

(** Operations that do not touch the credential file. *)
Definition leaves {A} (a : storing A) : Prop := ∀ w, content (a w).1 = content w.

Lemma leaves_bind {A B} (a : storing A) (f : A → storing B) : leaves a → (∀ x, leaves (f x)) → leaves (x ← a; f x).
Proof.
  intros Ha Hf w. specialize (Ha w). unfold mbind, act_bind. destruct (a w) as [w1 [x|e]]; [|done]. by rewrite Hf.
Qed.
Lemma leaves_lift {A} (m : result PairingError A) : leaves (lift m).
Proof. done. Qed.
Lemma leaves_ret {A} (x : A) : leaves (mret x).
Proof. done. Qed.
Lemma leaves_throw {A} e : leaves (A := A) (throw e).
Proof. done. Qed.
Lemma leaves_draw {A} (f : nat → A) : leaves (draw f).
Proof. done. Qed.
Lemma leaves_on_disk {A} operation (a : act Disk rstring A) : keeps path a → leaves (on_disk operation a).
Proof. intros Ha w. unfold on_disk, content. specialize (Ha (disk w)). by destruct (a (disk w)). Qed.

Lemma leaves_ensure_parent : leaves (ensure_parent path).
Proof. unfold ensure_parent. destruct (parent path); [|done]. apply leaves_on_disk, keeps_ensure_private_dir. Qed.
Lemma leaves_open_lock : leaves (open_lock path).
Proof using path_lock. by apply leaves_on_disk, keeps_open_private_lock. Qed.
Lemma leaves_take_lock : leaves take_lock.
Proof. apply leaves_on_disk, keeps_readonly. Qed.
Lemma leaves_store_exists : leaves (store_exists path).
Proof. apply leaves_on_disk, keeps_exists_path. Qed.

#[local] Hint Resolve leaves_lift leaves_ret leaves_throw leaves_draw leaves_ensure_parent leaves_open_lock
  leaves_take_lock leaves_store_exists : pairing.

Lemma fs_read_content d d' bytes : fs_read path d = (d', Ok bytes) → file_at path d = Some bytes.
Proof.
  unfold fs_read, call, file_at. destruct (fault _); [done|].
  destruct (entries d !! path) as [[]|]; try done. by intros [= <- <-].
Qed.

Lemma leaves_load_unlocked : leaves (load_unlocked path).
Proof.
  unfold load_unlocked. apply leaves_bind; [auto with pairing|intros present]. destruct (negb present); [done|].
  apply leaves_bind; [apply leaves_on_disk, keeps_protect_file|intros _].
  apply leaves_bind; [|intros bytes].
  { apply leaves_on_disk. apply keeps_call. intros m. destruct (m !! path) as [[]|] eqn:E; simpl; by rewrite ?E. }
  repeat (apply leaves_bind; [auto with pairing|intros ?]). done.
Qed.

(** A record that was loaded is the saved one. *)
Lemma load_unlocked_Ok w w' r : load_unlocked path w = (w', Ok r) → saved w r.
Proof.
  unfold load_unlocked. intros (w1 & present & L1 & L2)%act_bind_Ok.
  destruct (negb present); [done|]. apply act_bind_Ok in L2 as (w2 & [] & L2 & L3).
  apply act_bind_Ok in L3 as (w3 & bytes & L3 & L4). unfold mbind, act_bind, lift in L4.
  destruct (record_from_slice bytes) as [r0|] eqn:Er; [|done]. simpl in L4.
  destruct (validate_record r0) as [[]|] eqn:Ev; [|done]. injection L4 as <- <-.
  assert (content w1 = content w ∧ content w2 = content w1) as [E1 E2].
  { split; [by rewrite <-(leaves_store_exists w), L1|].
    by rewrite <-(leaves_on_disk "protect file" _ (keeps_protect_file path path) w1), L2. }
  split; [|done]. exists bytes. split; [|done]. rewrite <-E1, <-E2.
  unfold on_disk in L3. destruct (fs_read path (disk w2)) as [d' [b|]] eqn:Eread; [|done].
  injection L3 as <- <-. by eapply fs_read_content.
Qed.

(** ** Updates *)

Lemma save_unlocked_cases r w w' res :
  save_unlocked path r w = (w', res) →
  (is_ok res = false ∧ content w' = content w) ∨
  ∃ bytes, record_to_vec_pretty r = Ok bytes ∧ content w' = Some bytes.
Proof using path_temporary.
  unfold save_unlocked, mbind, act_bind, lift. destruct (record_to_vec_pretty r) as [bytes|e]; simpl.
  2:{ intros [= <- <-]. by left. }
  unfold on_disk. destruct (atomic_write_private path bytes (disk w)) as [d r'] eqn:Ew. intros [= <- <-].
  apply atomic_write_cases in Ew as [[Hr Hf]|He]; [| |done].
  - left. split; [by destruct r'|]. exact Hf.
  - right. exists bytes. split; [done|]. unfold content, file_at. simpl. by rewrite He.
Qed.

(** An update fails without effect, or saves what the operation made of the
    saved record; then it may still report a failure. *)
Lemma update_cases (op : StoreRecord → storing StoreRecord) w w' res :
  (∀ r, leaves (op r)) → update path op w = (w', res) →
  (is_ok res = false ∧ content w' = content w) ∨
  ∃ r r' w1 w2, saved w r ∧ op r w1 = (w2, Ok r') ∧ saved w' r' ∧ (res = Ok r' ∨ is_ok res = false).
Proof using All.
  intros Hop. unfold update. unfold mbind at 1, act_bind at 1. pose proof (leaves_ensure_parent w) as K1.
  destruct (ensure_parent path w) as [w1 [[]|]]; cbn [fst] in K1; [|intros [= <- <-]; by left].
  unfold mbind at 1, act_bind at 1. pose proof (leaves_open_lock w1) as K2.
  destruct (open_lock path w1) as [w2 [[]|]]; cbn [fst] in K2; [|intros [= <- <-]; left; split; [done|congruence]].
  unfold mbind at 1, act_bind at 1. pose proof (leaves_take_lock w2) as K3.
  destruct (take_lock w2) as [w3 [[]|]]; cbn [fst] in K3; [|intros [= <- <-]; left; split; [done|congruence]].
  unfold mbind at 1, act_bind at 1. pose proof (leaves_load_unlocked w3) as K4.
  destruct (load_unlocked path w3) as [w4 [r|]] eqn:Eload; cbn [fst] in K4;
    [|intros [= <- <-]; left; split; [done|congruence]].
  apply load_unlocked_Ok in Eload. apply (saved_same _ w) in Eload; [|congruence].
  unfold mbind at 1, act_bind at 1. pose proof (Hop r w4) as K5.
  destruct (op r w4) as [w5 [r'|]] eqn:Eop; cbn [fst] in K5; [|intros [= <- <-]; left; split; [done|congruence]].
  unfold mbind at 1, act_bind at 1, lift. destruct (validate_record r') as [[]|] eqn:Ev;
    [|intros [= <- <-]; left; split; [done|congruence]].
  unfold mbind at 1, act_bind at 1. destruct (save_unlocked path r' w5) as [w6 res6] eqn:Es.
  apply save_unlocked_cases in Es as [[Hr Hf]|(bytes & Hb & Hf)].
  - destruct res6 as [|e]; [done|]. intros [= <- <-]. left. split; [done|congruence].
  - intros Hres. right. exists r, r', w4, w5. split; [done|]. split; [done|].
    assert (saved w6 r') as Hs by (split; [exists bytes; split; [done|by apply record_json]|done]).
    destruct res6 as [[]|e]; injection Hres as <- <-; auto.
Qed.

(** Loading only reads. *)
Lemma leaves_load_record : leaves (load_record path).
Proof using path_lock.
  unfold load_record. repeat (apply leaves_bind; [auto with pairing|intros _]). apply leaves_load_unlocked.
Qed.
Lemma load_record_Ok w w' r : load_record path w = (w', Ok r) → saved w r.
Proof using path_lock.
  unfold load_record. intros (w1 & [] & L1 & (w2 & [] & L2 & (w3 & [] & L3 & L4)%act_bind_Ok)%act_bind_Ok)%act_bind_Ok.
  pose proof (leaves_ensure_parent w) as K1. pose proof (leaves_open_lock w1) as K2. pose proof (leaves_take_lock w2) as K3.
  rewrite L1 in K1. rewrite L2 in K2. rewrite L3 in K3. simpl in *.
  apply load_unlocked_Ok in L4. apply (saved_same w3); [congruence|done].
Qed.

(** ** Closures *)

Ltac leaving :=
  repeat match goal with
  | |- leaves (let '(_, _) := ?x in _) => destruct x
  | |- leaves (mbind _ _) => apply leaves_bind; [|intros ?]
  | |- leaves (if ?b then _ else _) => destruct b
  | |- leaves (match ?x with _ => _ end) => destruct x
  | |- leaves _ => solve [auto with pairing | intros ?; reflexivity]
  end.

Lemma leaves_create_leaf server_name ca key : leaves (create_leaf server_name ca key).
Proof. unfold create_leaf, certificate. leaving. Qed.
#[local] Hint Resolve leaves_create_leaf : pairing.
Lemma leaves_generate_identity host_name server_name : leaves (generate_identity host_name server_name).
Proof. unfold generate_identity, certificate. leaving. Qed.
Lemma leaves_renew_leaf r : leaves (renew_leaf r).
Proof. unfold renew_leaf, certificate. leaving. Qed.
#[local] Hint Resolve leaves_generate_identity leaves_renew_leaf : pairing.
Lemma leaves_put_device c name version hash r : leaves (put_device c name version hash r).
Proof. unfold put_device, now_unix_seconds. leaving. Qed.

Lemma renew_leaf_Ok r w w' r' : renew_leaf r w = (w', Ok r') → ∃ c, r' = set_certificates c r.
Proof.
  unfold renew_leaf. intros L. repeat (apply act_bind_Ok in L as (? & ? & _ & L)).
  repeat case_match. injection L as <- <-. eauto.
Qed.

(** ** The abstract store

    Its state is who the Host is and which digest each client's token has. *)

Record HostIdentity : Type := MkHostIdentity {
  abs_host_id : rstring; abs_host_name : rstring; abs_provider_id : rstring; abs_channel_id : rstring;
  abs_server_name : rstring
}.
Definition identity_of r : HostIdentity :=
  MkHostIdentity (record_host_id r) (record_host_name r) (record_provider_id r) (record_channel_id r)
    (record_server_name r).
Definition credential r (c : rstring) : option bytes32 :=
  device ← find_device c (devices r); decode_hex_32 (token_sha256 device).

Lemma authorize_record_credential r c token :
  authorize_record r c token = bool_decide (credential r c = Some (sha256 (as_bytes token))).
Proof using Type.
  unfold authorize_record, credential. destruct (find_device c (devices r)) as [device|]; cbn [mbind option_bind].
  2:{ symmetry. by apply bool_decide_eq_false. }
  destruct (decode_hex_32 _) as [expected|]; [|symmetry; by apply bool_decide_eq_false].
  apply bool_decide_ext. split; [intros Heq%refined_eq; congruence|by intros [= ->]].
Qed.

Lemma put_device_Ok c name version token w r w' r' :
  put_device c name version (hex (raw (sha256 (as_bytes token)))) r w = (w', Ok r') →
  identity_of r' = identity_of r ∧
  (∀ c', credential r' c' = if decide (c' = c) then Some (sha256 (as_bytes token)) else credential r c') ∧
  (length (devices r) ≤ MAX_DEVICES → length (devices r') ≤ MAX_DEVICES).
Proof using Type.
  unfold put_device. case_bool_decide as Hsome.
  - intros (w1 & now & _ & [= <- <-])%act_bind_Ok. split; [done|].
    unfold credential. simpl. rewrite length_replace_device. split; [|done]. intros c'. case_decide as Hc.
    + subst c'. rewrite find_replace_same by done. simpl. apply decode_hex_32_hex.
    + by rewrite find_replace_ne.
  - destruct (Nat.leb_spec MAX_DEVICES (length (devices r))) as [Hl|Hl]; [done|].
    intros (w1 & now & _ & [= <- <-])%act_bind_Ok. split; [done|].
    unfold credential. simpl. rewrite length_app. simpl. split; [|lia]. intros c'. rewrite find_snoc. simpl.
    destruct (find_device c' (devices r)) as [device|] eqn:Ed.
    + rewrite decide_False; [done|]. intros ->. by rewrite Ed in Hsome; apply Hsome.
    + destruct (decide (c' = c)) as [->|Hc].
      * rewrite bool_decide_true by done. simpl. apply decode_hex_32_hex.
      * by rewrite bool_decide_false.
Qed.

(** *** Operations and their effects *)

Inductive StoreOp : Type :=
| Store_LoadIdentity
| Store_SetThreads (ids : list rstring)
| Store_Issue (c name : rstring) (version : option rstring)
| Store_Revoke (c : rstring)
| Store_Rotate
| Store_Devices
| Store_Digests
| Store_Authorize (c token : rstring).

Inductive StoreAnswer : Type :=
| Store_Failed (e : PairingError)
| Store_Done
| Store_Token (token : rstring)
| Store_Allowed (b : bool).

Definition answer_of {A} (f : A → StoreAnswer) (r : result PairingError A) : StoreAnswer :=
  match r with Ok a => f a | Err e => Store_Failed e end.
Definition succeeded (a : StoreAnswer) : bool := match a with Store_Failed _ => false | _ => true end.

Definition run_store_op (op : StoreOp) w : StoreWorld * StoreAnswer :=
  match op with
  | Store_LoadIdentity => let '(w, r) := load_identity path w in (w, answer_of (λ _, Store_Done) r)
  | Store_SetThreads ids => let '(w, r) := set_thread_ids path ids w in (w, answer_of (λ _, Store_Done) r)
  | Store_Issue c name version =>
      let '(w, r) := issue_device path c name version w in (w, answer_of Store_Token r)
  | Store_Revoke c => let '(w, r) := revoke_device path c w in (w, answer_of (λ _, Store_Done) r)
  | Store_Rotate => let '(w, r) := rotate_credentials path w in (w, answer_of (λ _, Store_Done) r)
  | Store_Devices => let '(w, r) := list_devices path w in (w, answer_of (λ _, Store_Done) r)
  | Store_Digests => let '(w, r) := device_credential_digests path w in (w, answer_of (λ _, Store_Done) r)
  | Store_Authorize c token => let '(w, r) := authorize path c token w in (w, answer_of Store_Allowed r)
  end.

(** What an operation does to the credentials when it takes effect; a token
    that is reported is the one that was stored. *)
Definition effect (op : StoreOp) (answer : StoreAnswer) (m m' : rstring → option bytes32) : Prop :=
  match op with
  | Store_Issue c _ _ => ∃ token, (succeeded answer = true → answer = Store_Token token) ∧
      ∀ c', m' c' = if decide (c' = c) then Some (sha256 (as_bytes token)) else m c'
  | Store_Revoke c => is_Some (m c) ∧ ∀ c', m' c' = if decide (c' = c) then None else m c'
  | Store_Rotate => ∀ c', m' c' = None
  | Store_Authorize c token => (answer = Store_Allowed true → m c = Some (sha256 (as_bytes token))) ∧
      ∀ c', m' c' = m c'
  | _ => ∀ c', m' c' = m c'
  end.

(** The step of the refinement. *)
Definition refined r op answer r' : Prop :=
  identity_of r' = identity_of r ∧
  ((succeeded answer = false ∧ ∀ c, credential r' c = credential r c) ∨
   effect op answer (credential r) (credential r')).

Lemma without_absent c l : find_device c l = None → without c l = l.
Proof using Type.
  unfold find_device, without. induction l as [|x l IH]; simpl; [done|].
  destruct (bool_decide _); [done|]. simpl. intros Hl. by rewrite IH.
Qed.

(** A stored device has a credential. *)
Lemma saved_find w r c : saved w r → find_device c (devices r) ≠ None → is_Some (credential r c).
Proof using Type.
  intros [_ Hv] Hc. unfold validate_record in Hv. destruct (negb _); [done|].
  repeat (apply bind_Ok in Hv as (? & _ & Hv)). destruct (_ <? _)%nat; [done|].
  apply bind_Ok in Hv as (? & _ & Hv). apply bind_Ok in Hv as (us & Hd & _).
  apply try_collect_Ok in Hd. unfold credential. destruct (find_device c (devices r)) as [device|] eqn:Ef; [|done].
  apply find_some in Ef as [Hin _]. apply list_elem_of_In, list_elem_of_lookup in Hin as [i Hi].
  destruct (Forall2_lookup_l _ _ _ _ _ Hd Hi) as (u & _ & Hdev). simpl.
  unfold validate_device in Hdev. repeat (apply bind_Ok in Hdev as (? & _ & Hdev)).
  case_bool_decide as Hn; [done|]. by apply not_eq_None_Some.
Qed.

Lemma saved_bound w r : saved w r → length (devices r) ≤ MAX_DEVICES.
Proof using Type.
  intros [_ Hv]. unfold validate_record in Hv. destruct (negb _); [done|].
  repeat (apply bind_Ok in Hv as (? & _ & Hv)).
  destruct (Nat.ltb_spec MAX_DEVICES (length (devices r))); [done|lia].
Qed.

(** An update whose closure is understood. *)
Lemma update_refined (op : StoreRecord → storing StoreRecord) sop (f : StoreRecord → StoreAnswer) w r w' res answer :
  (∀ r, leaves (op r)) → saved w r → update path op w = (w', res) →
  (∀ e, res = Err e → succeeded answer = false) → (∀ r', res = Ok r' → answer = f r' ∨ succeeded answer = false) →
  (∀ r' w1 w2, op r w1 = (w2, Ok r') → (succeeded answer = true → answer = f r') → refined r sop answer r') →
  ∃ r', saved w' r' ∧ refined r sop answer r'.
Proof using All.
  intros Hop Hs Hu Herr Hok Heff. apply update_cases in Hu as [[Hr Hc]|(r0 & r' & w1 & w2 & Hs0 & Ho & Hs' & Hres)];
    [| |done].
  - exists r. split; [by eapply saved_same|]. split; [done|]. left. split; [|done]. destruct res; [done|by eapply Herr].
  - rewrite (saved_unique _ _ _ Hs0 Hs) in Ho. exists r'. split; [done|]. eapply Heff; [exact Ho|].
    intros Hsucc. destruct Hres as [->|Hres].
    + destruct (Hok r' eq_refl) as [?|Hf]; [done|congruence].
    + destruct res as [|e]; [done|]. by rewrite (Herr e eq_refl) in Hsucc.
Qed.

Lemma unchanged_refined w r w' op answer :
  saved w r → content w' = content w → effect op answer (credential r) (credential r) ∨ succeeded answer = false →
  ∃ r', saved w' r' ∧ refined r op answer r'.
Proof using Type.
  intros Hs Hc He. exists r. split; [by eapply saved_same|]. split; [done|]. destruct He; [by right|by left].
Qed.

Lemma leaves_identity_check r :
  leaves (now ← now_unix_seconds;
          if (leaf_not_after_unix_seconds (certificates r) <=? now + LEAF_RENEWAL_DAYS * 86400)%Z
          then renew_leaf r else mret r).
Proof. unfold now_unix_seconds. leaving. Qed.

Lemma load_identity_refined w r w' answer :
  saved w r → run_store_op Store_LoadIdentity w = (w', answer) →
  ∃ r', saved w' r' ∧ refined r Store_LoadIdentity answer r'.
Proof using All.
  intros Hs. cbn [run_store_op]. unfold load_identity, mbind at 1, act_bind at 1.
  destruct (update _ _ w) as [w1 res] eqn:Eu. intros Ha.
  assert (w1 = w') as -> by (by destruct res; injection Ha).
  eapply (update_refined _ Store_LoadIdentity (λ _, Store_Done)); [apply leaves_identity_check|exact Hs|exact Eu| | |].
  - intros e ->. by injection Ha as <-.
  - intros r' ->. simpl in Ha. destruct (snapshot r'); injection Ha as <-; auto.
  - intros r' w2 w3 Hop _. apply act_bind_Ok in Hop as (w4 & now & _ & Hop). destruct (_ <=? _)%Z.
    + apply renew_leaf_Ok in Hop as [c ->]. split; [done|by right].
    + injection Hop as <- <-. split; [done|by right].
Qed.

Lemma set_threads_refined ids w r w' answer :
  saved w r → run_store_op (Store_SetThreads ids) w = (w', answer) →
  ∃ r', saved w' r' ∧ refined r (Store_SetThreads ids) answer r'.
Proof using All.
  intros Hs. cbn [run_store_op]. unfold set_thread_ids, mbind, act_bind, lift.
  destruct (check_threads ∅ ids) as [[]|]; [|intros [= <- <-]; apply (unchanged_refined w); auto].
  destruct (update _ _ w) as [w1 res] eqn:Eu. intros Ha.
  assert (w1 = w') as -> by (by destruct res; injection Ha).
  eapply (update_refined _ (Store_SetThreads ids) (λ _, Store_Done)); [|exact Hs|exact Eu| | |].
  - done.
  - intros e ->. by injection Ha as <-.
  - intros r' ->. injection Ha as <-. auto.
  - intros r' w2 w3 [= <- <-] _. split; [done|by right].
Qed.

Lemma issue_refined c name version w r w' answer :
  saved w r → run_store_op (Store_Issue c name version) w = (w', answer) →
  ∃ r', saved w' r' ∧ refined r (Store_Issue c name version) answer r'.
Proof using All.
  intros Hs. cbn [run_store_op]. unfold issue_device, mbind, act_bind, lift, draw.
  destruct (validate_uuid_v7 _ _) as [[]|]; [|intros [= <- <-]; apply (unchanged_refined w); auto].
  destruct (validate_name name) as [[]|]; [|intros [= <- <-]; apply (unchanged_refined w); auto].
  destruct (match version with Some _ => _ | None => _ end) as [[]|]; [|intros [= <- <-]; apply (unchanged_refined w); auto].
  set (w0 := MkStoreWorld _ _). set (token := base64_encode _).
  destruct (update _ _ w0) as [w1 res] eqn:Eu. intros Ha.
  assert (w1 = w') as -> by (by destruct res; injection Ha).
  eapply (update_refined _ (Store_Issue c name version) (λ _, Store_Token token) w0); [| |exact Eu| | |].
  2: { apply (saved_same w); [done|exact Hs]. }
  - intros r'. apply leaves_put_device.
  - intros e ->. by injection Ha as <-.
  - intros r' ->. injection Ha as <-. auto.
  - intros r' w2 w3 (Hid & Hc & _)%put_device_Ok Hsucc. split; [done|]. right. exists token. auto.
Qed.

Lemma revoke_refined c w r w' answer :
  saved w r → run_store_op (Store_Revoke c) w = (w', answer) →
  ∃ r', saved w' r' ∧ refined r (Store_Revoke c) answer r'.
Proof using All.
  intros Hs. cbn [run_store_op]. unfold revoke_device, mbind at 1, act_bind at 1.
  destruct (update _ _ w) as [w1 res] eqn:Eu. intros Ha.
  assert (w1 = w') as -> by (by destruct res; injection Ha).
  eapply (update_refined _ (Store_Revoke c) (λ _, Store_Done)); [|exact Hs|exact Eu| | |].
  - intros r'. cbv beta zeta. leaving.
  - intros e ->. by injection Ha as <-.
  - intros r' ->. injection Ha as <-. auto.
  - intros r' w2 w3 Hop _. cbv beta zeta in Hop. fold (without c (devices r)) in Hop.
    destruct (Nat.eqb_spec (length (devices r)) (length (without c (devices r)))) as [|Hlen]; [done|].
    injection Hop as <- <-. split; [done|]. right. split.
    + apply (saved_find w r c Hs). intros Hnone. apply Hlen. f_equal. symmetry. by apply without_absent.
    + intros c'. unfold credential. simpl. case_decide as Hc.
      * subst. by rewrite find_without_same.
      * by rewrite find_without_ne.
Qed.

Lemma rotate_refined w r w' answer :
  saved w r → run_store_op Store_Rotate w = (w', answer) → ∃ r', saved w' r' ∧ refined r Store_Rotate answer r'.
Proof using All.
  intros Hs. cbn [run_store_op]. unfold rotate_credentials, mbind at 1, act_bind at 1.
  destruct (update _ _ w) as [w1 res] eqn:Eu. intros Ha.
  assert (w1 = w') as -> by (by destruct res; injection Ha).
  eapply (update_refined _ Store_Rotate (λ _, Store_Done)); [|exact Hs|exact Eu| | |].
  - intros r'. cbv beta. leaving.
  - intros e ->. by injection Ha as <-.
  - intros r' ->. simpl in Ha. destruct (snapshot r'); injection Ha as <-; auto.
  - intros r' w2 w3 (w4 & c & _ & [= <- <-])%act_bind_Ok _. split; [done|]. right. done.
Qed.

Lemma store_refines op w r w' answer :
  saved w r → run_store_op op w = (w', answer) → ∃ r', saved w' r' ∧ refined r op answer r'.
Proof using All.
  intros Hs Hrun. destruct op.
  - by eapply load_identity_refined.
  - by eapply set_threads_refined.
  - by eapply issue_refined.
  - by eapply revoke_refined.
  - by eapply rotate_refined.
  - cbn [run_store_op] in Hrun. unfold list_devices, mbind, act_bind in Hrun. pose proof (leaves_load_record w) as K.
    destruct (load_record path w) as [w1 [r1|]]; injection Hrun as <- <-; apply (unchanged_refined w); auto. by left.
  - cbn [run_store_op] in Hrun. unfold device_credential_digests, mbind, act_bind, lift in Hrun.
    pose proof (leaves_load_record w) as K.
    destruct (load_record path w) as [w1 [r1|]]; injection Hrun as <- <-; apply (unchanged_refined w); auto.
    destruct (try_collect _ _); [by left|by right].
  - cbn [run_store_op] in Hrun. unfold authorize in Hrun. pose proof (leaves_load_record w) as K.
    destruct (load_record path w) as [w1 [r1|]] eqn:El; injection Hrun as <- <-; apply (unchanged_refined w); auto; left.
    + apply load_record_Ok in El. rewrite (saved_unique _ _ _ El Hs). split; [|done].
      rewrite authorize_record_credential. intros [= Hb]. by apply bool_decide_eq_true in Hb.
    + by split.
Qed.

(** ** Runs *)

Abbreviation log_entry := (prod StoreOp StoreAnswer).

Fixpoint run_store (ops : list StoreOp) w : StoreWorld * list log_entry :=
  match ops with
  | [] => (w, [])
  | op :: ops' =>
      let '(w1, answer) := run_store_op op w in
      let '(w2, log) := run_store ops' w1 in
      (w2, (op, answer) :: log)
  end.

(** The operations that concern the credential of a client. *)
Definition concerns (c : rstring) (op : StoreOp) : bool :=
  match op with
  | Store_Issue c' _ _ | Store_Revoke c' => bool_decide (c' = c)
  | Store_Rotate => true
  | _ => false
  end.

(** No credential of the client was issued or withdrawn with success. *)
Definition standing (c : rstring) (e : log_entry) : Prop := concerns c e.1 && succeeded e.2 = false.

(** The digest was granted, and nothing has replaced or withdrawn it since. *)
Definition granted (c : rstring) (h : bytes32) (log : list log_entry) : Prop :=
  ∃ before name version answer after, log = before ++ (Store_Issue c name version, answer) :: after ∧
    (∀ token, answer = Store_Token token → h = sha256 (as_bytes token)) ∧ Forall (standing c) after.

Lemma granted_cons c h e log : granted c h log → granted c h (e :: log).
Proof using Type.
  intros (before & name & version & answer & after & -> & Hh & Ha). by exists (e :: before), name, version, answer, after.
Qed.

(** How one step moves the credential of one client. *)
Lemma refined_credential r op answer r' c :
  refined r op answer r' →
  (concerns c op = false → credential r' c = credential r c) ∧
  (∀ h, credential r' c = Some h →
     (credential r c = Some h ∧ standing c (op, answer)) ∨
     ∃ name version, op = Store_Issue c name version ∧ ∀ token, answer = Store_Token token → h = sha256 (as_bytes token)).
Proof using Type.
  unfold standing. intros [_ [[Hf Hsame]|He]]; [split; [by rewrite Hsame|]|].
  { intros h. rewrite Hsame. simpl. rewrite Hf, andb_false_r. by left. }
  destruct op as [| |c' name version|c'| | | |]; simpl in *;
    try (split; [by rewrite ?He|intros h; rewrite He; by left]).
  - destruct He as (token & Htok & He). rewrite He. case_decide as Hc.
    + subst c'. rewrite bool_decide_true by done. split; [done|]. intros h [= <-]. right. exists name, version.
      split; [done|]. intros token' ->. specialize (Htok eq_refl). congruence.
    + rewrite bool_decide_false by done. split; [done|]. by left.
  - destruct He as (_ & He). rewrite He. case_decide as Hc.
    + subst c'. rewrite bool_decide_true by done. done.
    + rewrite bool_decide_false by done. split; [done|]. by left.
  - destruct He as [_ He]. split; [by rewrite He|]. intros h. rewrite He. by left.
Qed.

Lemma run_store_spec ops w r w' log :
  saved w r → run_store ops w = (w', log) →
  ∃ r', saved w' r' ∧ identity_of r' = identity_of r ∧ ∀ c,
    (Forall (λ e, concerns c e.1 = false) log → credential r' c = credential r c) ∧
    (∀ h, credential r' c = Some h → (credential r c = Some h ∧ Forall (standing c) log) ∨ granted c h log).
Proof using All.
  revert w r w' log. induction ops as [|op ops IH]; intros w r w' log Hs; cbn [run_store].
  { intros [= <- <-]. exists r. split_and!; [done..|]. intros c. split; [done|]. by left. }
  destruct (run_store_op op w) as [w1 answer] eqn:Eop. destruct (run_store ops w1) as [w2 rest] eqn:Erun.
  intros [= <- <-]. destruct (store_refines op w r w1 answer Hs Eop) as (r1 & Hs1 & Href).
  destruct (IH w1 r1 w2 rest Hs1 Erun) as (r' & Hs' & Hid & Hc). exists r'. split; [done|].
  split; [rewrite Hid; apply Href|]. intros c. destruct (Hc c) as [Hsame Hgr].
  destruct (refined_credential r op answer r1 c Href) as [Hsame1 Hgr1]. split.
  - intros [Hop Hrest]%Forall_cons. rewrite Hsame by done. by apply Hsame1.
  - intros h Hh. destruct (Hgr h Hh) as [[Hh1 Hst]|Hg]; [|right; by apply granted_cons].
    destruct (Hgr1 h Hh1) as [[Hh0 Hst0]|(name & version & -> & Htok)].
    + left. split; [done|]. by constructor.
    + right. by exists [], name, version, answer, rest.
Qed.

Lemma run_store_app ops1 ops2 w :
  run_store (ops1 ++ ops2) w =
  let '(w1, log1) := run_store ops1 w in let '(w2, log2) := run_store ops2 w1 in (w2, log1 ++ log2).
Proof using Type.
  revert w. induction ops1 as [|op ops1 IH]; intros w; simpl; [by destruct (run_store ops2 w)|].
  destruct (run_store_op op w) as [w1 answer]. rewrite IH. destruct (run_store ops1 w1) as [w2 log1].
  by destruct (run_store ops2 w2).
Qed.

(** An issued token is the credential until an operation concerns the client. *)
Lemma issued_standing w r w1 c name version token ops w2 log :
  saved w r → run_store_op (Store_Issue c name version) w = (w1, Store_Token token) →
  run_store ops w1 = (w2, log) → Forall (λ e, concerns c e.1 = false) log →
  ∃ r2, saved w2 r2 ∧ credential r2 c = Some (sha256 (as_bytes token)).
Proof using All.
  intros Hs Hop Hrun Hlog. destruct (store_refines _ w r w1 _ Hs Hop) as (r1 & Hs1 & _ & He).
  destruct He as [[Hf _]|(token' & Htok & He)]; [done|]. specialize (Htok eq_refl) as [= ->].
  destruct (run_store_spec ops w1 r1 w2 log Hs1 Hrun) as (r2 & Hs2 & _ & Hc). exists r2. split; [done|].
  destruct (Hc c) as [-> _]; [|done]. by rewrite He, decide_True.
Qed.

(** ** Initialization *)

Lemma server_name_ok host_id :
  byte_len host_id = 36 → validate_bounded "server_name" (host_id ++ lit ".agentpulse.local") 253 = Ok ().
Proof using Type.
  intros Hlen. unfold validate_bounded. rewrite trim_is_empty, forallb_app.
  replace (forallb is_whitespace (lit ".agentpulse.local")) with false by reflexivity. rewrite andb_false_r.
  rewrite byte_len_app, Hlen. done.
Qed.

Lemma initialize_Ok name w w' identity :
  (∀ n, validate_uuid_v7 "host_id" (fresh_uuid n) = Ok ()) → (∀ n, validate_uuid_v7 "provider_id" (fresh_uuid n) = Ok ()) →
  (∀ n, validate_uuid_v7 "channel_id" (fresh_uuid n) = Ok ()) → (∀ n, byte_len (fresh_uuid n) = 36) →
  initialize path name w = (w', Ok identity) →
  ∃ r, saved w' r ∧ devices r = [] ∧ snapshot r = Ok identity ∧ record_host_name r = name.
Proof using All.
  intros U1 U2 U3 Hlen. unfold initialize.
  intros (w1 & [] & L1 & (w2 & [] & L2 & (w3 & [] & L3 & (w4 & [] & L4 & (w5 & present & L5 & L)%act_bind_Ok)%act_bind_Ok)%act_bind_Ok)%act_bind_Ok)%act_bind_Ok.
  destruct present; [done|]. apply act_bind_Ok in L as (w6 & host_id & [= _ <-] & L).
  apply act_bind_Ok in L as (w7 & certs & _ & L). apply act_bind_Ok in L as (w8 & provider_id & [= _ <-] & L).
  apply act_bind_Ok in L as (w9 & channel_id & [= _ <-] & L). cbv zeta in L.
  apply act_bind_Ok in L as (w10 & [] & Ls & L). injection L as <- Hsnap.
  set (r := MkStoreRecord _ _ _ _ _ _ _ _ _) in *. exists r. split; [|done]. split.
  - apply save_unlocked_cases in Ls as [[? _]|(bytes & Hb & Hc)]; [done|]. exists bytes. split; [done|].
    by apply record_json.
  - injection L1 as _ Hname. unfold validate_record. change (raw (record_schema_version r)) with STORE_SCHEMA_VERSION.
    rewrite N.eqb_refl. cbn [negb r record_host_id record_provider_id record_channel_id record_host_name record_server_name].
    rewrite U1, U2, U3, Hname. unfold mbind, result_bind. rewrite (server_name_ok _ (Hlen _)). simpl. by rewrite Hsnap.
Qed.

(** An installation is never replaced, unless the file system fails. *)
Lemma initialize_present name w w' res bytes :
  content w = Some bytes → initialize path name w = (w', res) →
  (is_ok res = false ∧ content w' = content w) ∨ ∃ n, is_Some (fault n).
Proof using path_lock.
  intros Hc. unfold initialize, mbind at 1, act_bind at 1, lift.
  destruct (validate_name name) as [[]|]; [|intros [= <- <-]; by left].
  unfold mbind at 1, act_bind at 1. pose proof (leaves_ensure_parent w) as K1.
  destruct (ensure_parent path w) as [w1 [[]|]]; cbn [fst] in K1; [|intros [= <- <-]; by left].
  unfold mbind at 1, act_bind at 1. pose proof (leaves_open_lock w1) as K2.
  destruct (open_lock path w1) as [w2 [[]|]]; cbn [fst] in K2; [|intros [= <- <-]; left; split; [done|congruence]].
  unfold mbind at 1, act_bind at 1. pose proof (leaves_take_lock w2) as K3.
  destruct (take_lock w2) as [w3 [[]|]]; cbn [fst] in K3; [|intros [= <- <-]; left; split; [done|congruence]].
  unfold mbind at 1, act_bind at 1. unfold store_exists, on_disk, exists_path, symlink_metadata, call.
  destruct (fault (io_count (disk w3))) as [e|] eqn:Ef; [intros _; right; exists (io_count (disk w3)); by rewrite Ef|].
  assert (content w3 = Some bytes) as Hc3 by congruence. unfold content, file_at in Hc3.
  destruct (entries (disk w3) !! path); [|done]. simpl. intros [= <- <-]. left. split; [done|].
  unfold content, file_at in *. simpl. congruence.
Qed.
End store.
