(* ===== verification/PairingServer.v ===== *)
(** * Pairing: the one-shot server

    Models [agentpulse-pairing/src/server.rs].  What the listener, the socket
    and the clock answer are functions of how often the environment was asked,
    and the loops that poll them have fuel: [Serve_Running] means that the
    server is still waiting. *)

From stdpp Require Import base strings numbers sorting gmap list.
From S2P Require Import Prelude Bytes Json Values Dto Net Transport RelayProtocol PairingProtocol Platform PairingStore.

(** Seconds are nanoseconds of a monotonic clock. *)
Definition seconds (n : N) : N := (n * 1000000000)%N.
Definition SESSION_LIFETIME_SECS : N := 120.
Definition SESSION_LIFETIME : N := seconds SESSION_LIFETIME_SECS.
Definition CLOSE_HANDSHAKE_TIMEOUT : N := seconds 2.
Definition MAX_ATTEMPTS : nat := 5.
Definition MAX_PAIRING_MESSAGE_BYTES : N := 16384.
Definition PAIRING_WEBSOCKET_PATH : rstring := lit "/agentpulse/pair/v1".
Definition PAIRING_WEBSOCKET_SUBPROTOCOL : rstring := lit "agentpulse.pair.v1".

Record PairingOutcome : Type := MkOutcome { outcome_client_id : rstring; outcome_display_name : rstring }.

Record PairingSession : Type := MkSession {
  session_store : Path;
  bundle : PairingBundle;
  pairing_uri : rstring;
  native_address : rstring * u16;
  native_transport_version : u16;
  domain_protocol_versions : list u16;
  expires_at : N
}.

(** The environment's answers, by how often it was asked: the monotonic clock,
    [try_accept], [read], [send_text] and [close]; and the texts of errors. *)
Class PairingEnvironment : Type := {
  instant_now : nat → N;
  accept_answer : nat → result LoopbackWebSocketError bool;
  read_answer : nat → result LoopbackWebSocketError TransportRead;
  send_answer : nat → result LoopbackWebSocketError unit;
  close_answer : nat → result LoopbackWebSocketError unit;
  pairing_error_text : PairingError → rstring
}.

Inductive CloseCode : Type := Close_Normal | Close_Protocol | Close_Policy | Close_Error.

(** What happened: messages that came from and reached the socket, closes,
    questions to the user, the time read after the answer, and waits for the
    transport. *)
Inductive ServeEvent : Type :=
| Event_Received (text : rstring)
| Event_Sent (message : PairingServerMessage)
| Event_Closing (code : CloseCode) (reason : string)
| Event_Asked (request : PairingRequest) (answer : bool)
| Event_Time (now : N)
| Event_Ready (token : rstring) (answer : result PairingError unit).

Inductive ServeStop : Type :=
| Serve_Error (error : PairingError)
| Serve_Running.

Record ServeWorld : Type := MkServe {
  serve_store : StoreWorld;
  asked : nat;
  serve_trace : list ServeEvent
}.

Section server.
Context `{Externals} `{RelayExternals} `{PairingJson} `{StoreLibrary} `{StoreDraws} `{DiskFaults}.
Context `{TlsLibrary} `{PairingEnvironment}.

Abbreviation serving A := (act ServeWorld ServeStop A).

(** ** Binding *)

Definition tls_identity_of (identity : HostIdentitySnapshot) : result PairingError TlsServerIdentity :=
  map_err Pairing_Transport
    (TlsServerIdentity_from_der [identity_leaf_der identity; identity_ca_der identity] (identity_leaf_key_der identity)).

(** [system] is what the operating system answers, [now] the monotonic clock. *)
Definition bind_inner (path : Path) (bind_address : SocketAddr) (native : rstring * u16) (relay : rstring)
    (direct : option (rstring * u16)) (transport_version : u16) (versions : list u16)
    (system : result (string * rstring) SocketAddr) (now : N) : act StoreWorld PairingError PairingSession :=
  if bool_decide (direct = None) && negb (is_loopback (socket_ip bind_address))
  then throw (invalid "bind_address" "QR pairing listeners must be loopback-only")
  else if is_empty versions || (raw transport_version =? 0)%N
  then throw (invalid "supported_versions" "versions must be non-empty and non-zero")
  else
    identity ← load_identity path;
    tls ← lift (tls_identity_of identity);
    let constructor := if bool_decide (is_Some direct) then TlsWebSocketConfig_new_public else TlsWebSocketConfig_new in
    config ← lift (map_err Pairing_Transport
      (constructor bind_address PAIRING_WEBSOCKET_PATH PAIRING_WEBSOCKET_SUBPROTOCOL tls));
    let config := tls_with_max_message_bytes MAX_PAIRING_MESSAGE_BYTES
      (tls_with_io_poll_interval hundred_millis (tls_with_handshake_timeout five_seconds config)) in
    local ← lift (map_err Pairing_Transport (tls_bind config system));
    secret ← draw random_bytes;
    pairing_id ← draw fresh_uuid;
    wall ← now_unix_seconds;
    let bundle := MkBundle
      (if bool_decide (is_Some direct) then Refine 2%N I else Refine PAIRING_PROTOCOL_VERSION I)
      pairing_id (identity_host_id identity) (identity_host_name identity) (identity_server_name identity)
      (from_option fst (display_ip (socket_ip local)) direct) (from_option snd (socket_port local) direct)
      (identity_leaf_sha256 identity) (base64_encode (raw secret)) relay
      ((λ _, lit "direct") <$> direct) (wall + Z.of_N SESSION_LIFETIME_SECS) in
    uri ← lift (to_uri bundle);
    mret (MkSession path bundle uri native transport_version versions (now + SESSION_LIFETIME)).

Definition bind_relay (path : Path) (bind_address native : SocketAddr) (relay : rstring) (transport_version : u16)
    (versions : list u16) system now : act StoreWorld PairingError PairingSession :=
  bind_inner path bind_address (display_ip (socket_ip native), socket_port native) relay None transport_version
    versions system now.

Definition bind_direct (path : Path) (bind_address : SocketAddr) (pairing native : rstring * u16)
    (transport_version : u16) (versions : list u16) system now : act StoreWorld PairingError PairingSession :=
  _ ← lift (validate_direct_host pairing.1);
  _ ← lift (validate_direct_host native.1);
  if (raw pairing.2 =? 0)%N || (raw native.2 =? 0)%N
  then throw (invalid "port" "advertised ports must be non-zero")
  else bind_inner path bind_address native [] (Some pairing) transport_version versions system now.

(** ** Interaction with the environment *)

Definition ask {A} (f : nat → A) : serving A := λ w,
  (MkServe (serve_store w) (S (asked w)) (serve_trace w), Ok (f (asked w))).
Definition transport {A} (r : result LoopbackWebSocketError A) : serving A :=
  lift (map_err (λ e, Serve_Error (Pairing_Transport e)) r).
Definition record_event (e : ServeEvent) : serving unit := modify (λ w,
  MkServe (serve_store w) (asked w) (serve_trace w ++ [e])).
Definition fail {A} (e : PairingError) : serving A := throw (Serve_Error e).
Definition on_store {A} (a : act StoreWorld PairingError A) : serving A := λ w,
  let '(s, r) := a (serve_store w) in (MkServe s (asked w) (serve_trace w), map_err Serve_Error r).

(** [let _ = ..] *)
Definition ignoring (a : serving unit) : serving unit := λ w,
  match a w with
  | (w', Err (Serve_Error _)) => (w', Ok ())
  | other => other
  end.

Definition send (message : PairingServerMessage) : serving unit :=
  bytes ← lift (map_err Serve_Error (encode_pairing_message message));
  text ← lift (ok_or (Serve_Error (Pairing_InvalidField "encoded_pairing_message" (lit "invalid utf-8"))) (from_utf8 bytes));
  answer ← ask send_answer;
  _ ← transport (_ ← validate_outgoing_size (N.of_nat (byte_len text)) MAX_PAIRING_MESSAGE_BYTES; answer);
  record_event (Event_Sent message).

Fixpoint read_request (fuel : nat) (expires_at : N) : serving PairingRequest :=
  match fuel with
  | 0 => throw Serve_Running
  | S fuel' =>
      now ← ask instant_now;
      if (expires_at <=? now)%N then fail Pairing_Expired
      else
        answer ← ask read_answer;
        outcome ← transport answer;
        match outcome with
        | Read_Text text =>
            _ ← record_event (Event_Received text);
            lift (map_err Serve_Error (decode_pairing_request (as_bytes text)))
        | Read_Pong | Read_Control | Read_Timeout => read_request fuel' expires_at
        | Read_Closed => fail (invalid "pairing_socket" "client disconnected before requesting pairing")
        end
  end.

(** The wait for the peer's close. *)
Fixpoint await_close (fuel : nat) (deadline : N) : serving unit :=
  match fuel with
  | 0 => throw Serve_Running
  | S fuel' =>
      now ← ask instant_now;
      if (now <? deadline)%N then
        answer ← ask read_answer;
        match answer with
        | Ok Read_Closed | Err _ => mret ()
        | Ok _ => await_close fuel' deadline
        end
      else mret ()
  end.

Definition finish_connection (fuel : nat) (code : CloseCode) (reason : string) : serving unit :=
  _ ← record_event (Event_Closing code reason);
  answer ← ask close_answer;
  match answer with
  | Err _ => mret ()
  | Ok _ => now ← ask instant_now; await_close fuel (now + CLOSE_HANDSHAKE_TIMEOUT)
  end.

(** [Sha256::digest(..).ct_eq(..)] *)
Definition credential_matches (supplied expected : rstring) : bool :=
  bool_decide (sha256 (as_bytes supplied) = sha256 (as_bytes expected)).

(** ** Serving *)

Section session.
Context (session : PairingSession) (approve : PairingRequest → bool) (ready : rstring → result PairingError unit).

(** A failed attempt: the client is told, and after the fifth one it is over. *)
Definition reject_attempt (fuel attempts : nat) (code : PairingErrorCode) (message : rstring)
    (close : CloseCode) (reason : string) : serving unit :=
  _ ← ignoring (send (Pairing_Failure code message (attempts <? MAX_ATTEMPTS)%nat));
  _ ← finish_connection fuel close reason;
  if (MAX_ATTEMPTS <=? attempts)%nat then fail Pairing_AttemptLimit else mret ().

(** From the matching credential to the answer. *)
Definition complete (fuel : nat) (request : PairingRequest) : serving PairingOutcome :=
  _ ← send (Pairing_Pending (client_id request) (display_name request));
  let approved := approve request in
  _ ← record_event (Event_Asked request approved);
  now ← ask instant_now;
  _ ← record_event (Event_Time now);
  if (expires_at session <=? now)%N then
    _ ← ignoring (send (Pairing_Failure Code_Expired (lit "pairing session expired") false));
    _ ← finish_connection fuel Close_Policy "pairing expired";
    fail Pairing_Expired
  else if negb approved then
    _ ← send (Pairing_Failure Code_Denied (lit "the Host user denied this device") false);
    _ ← finish_connection fuel Close_Policy "pairing denied";
    fail Pairing_Denied
  else
    issued ← (λ w, let '(s, r) := issue_device (session_store session) (client_id request) (display_name request)
                                    (client_version request) (serve_store w) in
                   (MkServe s (asked w) (serve_trace w), Ok r) : ServeWorld * result ServeStop (result PairingError rstring));
    match issued with
    | Err (Pairing_DeviceCapacity _) =>
        _ ← send (Pairing_Failure Code_Capacity (lit "the Host has reached its paired-device limit") false);
        _ ← finish_connection fuel Close_Policy "device capacity reached";
        fail (Pairing_DeviceCapacity 16)
    | Err error => fail error
    | Ok token =>
        _ ← record_event (Event_Ready token (ready token));
        match ready token with
        | Err error =>
            _ ← ignoring (on_store (revoke_device (session_store session) (client_id request)));
            _ ← send (Pairing_Failure Code_Internal
                        (lit "Host connection could not become ready; please pair again") false);
            _ ← finish_connection fuel Close_Error "Host connection unavailable";
            fail error
        | Ok _ =>
            identity ← on_store (load_identity (session_store session));
            _ ← send (Pairing_Succeeded (identity_host_id identity) (identity_host_name identity)
                        (ca_certificate_base64 identity) (identity_server_name identity) (native_address session).1
                        (native_address session).2 token (native_transport_version session)
                        (domain_protocol_versions session));
            _ ← finish_connection fuel Close_Normal "pairing completed";
            mret (MkOutcome (client_id request) (display_name request))
        end
    end.

Fixpoint serve_loop (fuel attempts : nat) : serving PairingOutcome :=
  match fuel with
  | 0 => throw Serve_Running
  | S fuel' =>
      now ← ask instant_now;
      if negb (now <? expires_at session)%N then fail Pairing_Expired
      else
        accepted ← ask accept_answer;
        match accepted with
        | Ok false => serve_loop fuel' attempts
        | Err (Ws_Handshake _) =>
            if (MAX_ATTEMPTS <=? S attempts)%nat then fail Pairing_AttemptLimit else serve_loop fuel' (S attempts)
        | Err error => fail (Pairing_Transport error)
        | Ok true =>
            request ← (λ w, match read_request fuel' (expires_at session) w with
                            | (w', Ok request) => (w', Ok (Ok request))
                            | (w', Err (Serve_Error e)) => (w', Ok (Err e))
                            | (w', Err Serve_Running) => (w', Err Serve_Running)
                            end : ServeWorld * result ServeStop (result PairingError PairingRequest));
            match request with
            | Err error =>
                _ ← reject_attempt fuel' (S attempts) Code_InvalidRequest (pairing_error_text error)
                      Close_Protocol "invalid pairing request";
                serve_loop fuel' (S attempts)
            | Ok request =>
                if negb (credential_matches (request_pairing_id request) (bundle_pairing_id (bundle session)))
                   || negb (credential_matches (request_bootstrap_token request)
                              (bundle_bootstrap_token (bundle session)))
                then
                  _ ← reject_attempt fuel' (S attempts) Code_InvalidCredential (lit "pairing credential is invalid")
                        Close_Policy "invalid pairing credential";
                  serve_loop fuel' (S attempts)
                else complete fuel' request
            end
        end
  end.

Definition serve_with_ready (fuel : nat) : serving PairingOutcome := serve_loop fuel 0.
End session.

Definition serve (session : PairingSession) (approve : PairingRequest → bool) (fuel : nat) : serving PairingOutcome :=
  serve_with_ready session approve (λ _, Ok ()) fuel.

Definition remaining_lifetime (session : PairingSession) (now : N) : N := (expires_at session - now)%N.
End server.
