(* ===== verification/PairingServerSpec.v ===== *)
(** * The pairing server: correctness

    The conversation of a session is accepted by a small automaton, the store
    changes only for an approved request that knew the secrets of the QR code,
    and a clock that advances makes every session end. *)

From stdpp Require Import base strings numbers sorting gmap list.
From S2P Require Import Fuel Prelude Bytes Json Values Dto Net Transport RelayProtocol PairingProtocol.
From S2P Require Import Platform.
From S2P Require Import PairingStore PairingStoreSpec PairingServer.

(** ** The conversation *)

(** Where the conversation stands; [closed] counts the refused clients. *)
Inductive Phase : Type :=
| Phase_Waiting (closed : nat)
| Phase_Refusing (closed : nat)
| Phase_Pending (client name : rstring)
| Phase_Answered (request : PairingRequest) (approved : bool)
| Phase_Prepared (request : PairingRequest) (token : rstring) (ready : bool)
| Phase_Ending (code : CloseCode)
| Phase_Ended.

Definition refusal (code : PairingErrorCode) : bool :=
  match code with Code_InvalidRequest | Code_InvalidCredential => true | _ => false end.

Definition phase_step (p : Phase) (e : ServeEvent) : option Phase :=
  match p, e with
  | Phase_Waiting n, Event_Received _ => Some (Phase_Waiting n)
  | Phase_Waiting n, Event_Sent (Pairing_Failure code _ _) => if refusal code then Some (Phase_Refusing n) else None
  | (Phase_Waiting n | Phase_Refusing n), Event_Closing _ _ =>
      if (n <? MAX_ATTEMPTS)%nat then Some (Phase_Waiting (S n)) else None
  | Phase_Waiting n, Event_Sent (Pairing_Pending client name) =>
      if (n <? MAX_ATTEMPTS)%nat then Some (Phase_Pending client name) else None
  | Phase_Pending client name, Event_Asked request answer =>
      if bool_decide (client = client_id request ∧ name = display_name request)
      then Some (Phase_Answered request answer) else None
  | Phase_Answered request approved, Event_Time _ => Some (Phase_Answered request approved)
  | Phase_Answered _ approved, Event_Sent (Pairing_Failure code _ false) =>
      match code with
      | Code_Expired => Some (Phase_Ending Close_Policy)
      | Code_Denied => if approved then None else Some (Phase_Ending Close_Policy)
      | Code_Capacity => if approved then Some (Phase_Ending Close_Policy) else None
      | _ => None
      end
  | Phase_Answered _ _, Event_Closing Close_Policy _ => Some Phase_Ended
  | Phase_Answered request true, Event_Ready token answer => Some (Phase_Prepared request token (is_ok answer))
  | Phase_Prepared _ _ false, Event_Sent (Pairing_Failure Code_Internal _ false) => Some (Phase_Ending Close_Error)
  | Phase_Prepared _ token true, Event_Sent (Pairing_Succeeded _ _ _ _ _ _ token' _ _) =>
      if bool_decide (token' = token) then Some (Phase_Ending Close_Normal) else None
  | Phase_Ending code, Event_Closing code' _ =>
      match code, code' with
      | Close_Normal, Close_Normal | Close_Policy, Close_Policy | Close_Error, Close_Error => Some Phase_Ended
      | _, _ => None
      end
  | _, _ => None
  end.

Fixpoint phases (p : Phase) (trace : list ServeEvent) : option Phase :=
  match trace with
  | [] => Some p
  | e :: trace' => p' ← phase_step p e; phases p' trace'
  end.

Lemma phases_app p t1 t2 : phases p (t1 ++ t2) = (p' ← phases p t1; phases p' t2).
Proof. revert p. induction t1 as [|e t1 IH]; intros p; [done|]. simpl. destruct (phase_step p e); [apply IH|done]. Qed.

Section server.
Context `{Externals} `{RelayExternals} `{PairingJson} `{StoreLibrary} `{StoreDraws} `{DiskFaults}.
Context `{PairingEnvironment}.
Implicit Types w : ServeWorld.

Abbreviation serving A := (act ServeWorld ServeStop A).

(** ** Binding *)

Lemma bind_inner_Ok `{TlsLibrary} path address native relay direct version versions system now s s' session :
  bind_inner path address native relay direct version versions system now s = (s', Ok session) →
  to_uri (bundle session) = Ok (pairing_uri session) ∧
  (∃ n, expires_at_unix_seconds (bundle session) = unix_timestamp (clock_utc n) + 120)%Z ∧
  expires_at session = (now + SESSION_LIFETIME)%N ∧
  (direct = None → is_loopback (socket_ip address) = true).
Proof using Type.
  unfold bind_inner. destruct (_ && negb _) eqn:Hl; [done|]. destruct (_ || _); [done|].
  intros (w1 & identity & _ & L)%act_bind_Ok. apply act_bind_Ok in L as (w2 & tls & _ & L).
  apply act_bind_Ok in L as (w3 & config & _ & L). apply act_bind_Ok in L as (w4 & local & _ & L).
  apply act_bind_Ok in L as (w5 & secret & _ & L). apply act_bind_Ok in L as (w6 & id & _ & L).
  apply act_bind_Ok in L as (w7 & wall & Hwall & L). apply act_bind_Ok in L as (w8 & uri & Huri & L).
  injection Huri as _ Huri. injection L as _ <-. cbn [bundle pairing_uri expires_at expires_at_unix_seconds].
  split; [exact Huri|]. split; [|split; [done|]].
  - injection Hwall as _ <-. eexists. reflexivity.
  - intros ->. by destruct (is_loopback _).
Qed.

(** ** Actions that leave the store alone *)

Definition quiet {A} (P : list ServeEvent → result ServeStop A → Prop) (a : serving A) : Prop :=
  ∀ w w' r, a w = (w', r) → serve_store w' = serve_store w ∧ asked w ≤ asked w' ∧
    ∃ t, serve_trace w' = serve_trace w ++ t ∧ P t r.

Lemma quiet_lift {A} (P : list ServeEvent → result ServeStop A → Prop) m : P [] m → quiet P (lift m).
Proof using Type. intros Hp w w' r [= <- <-]. split_and!; [done..|]. exists []. by rewrite app_nil_r. Qed.

Lemma quiet_ask {A} (P : list ServeEvent → result ServeStop A → Prop) f : (∀ n, P [] (Ok (f n))) → quiet P (ask f).
Proof using Type.
  intros Hp w w' r [= <- <-]. simpl. split_and!; [done|lia|]. exists []. by rewrite app_nil_r.
Qed.

Lemma quiet_record (P : list ServeEvent → result ServeStop unit → Prop) e : P [e] (Ok ()) → quiet P (record_event e).
Proof using Type. intros Hp w w' r [= <- <-]. simpl. split_and!; [done..|]. by exists [e]. Qed.

Lemma quiet_bind {A B} (Q : list ServeEvent → result ServeStop B → Prop)
    (a : serving A) (f : A → serving B) :
  quiet (λ t1 r, match r with
                 | Ok x => quiet (λ t2, Q (t1 ++ t2)) (f x)
                 | Err e => Q t1 (Err e)
                 end) a → quiet Q (a ≫= f).
Proof using Type.
  intros Ha w w' r [(w1 & x & Ew & Ef)|(e & Ew & ->)]%act_bind_inv;
    destruct (Ha _ _ _ Ew) as (Hs & Hn & t1 & Ht & Hp); [|by eauto].
  destruct (Hp _ _ _ Ef) as (Hs2 & Hn2 & t2 & Ht2 & Hq). split_and!; [congruence|lia|].
  exists (t1 ++ t2). split; [|done]. by rewrite Ht2, Ht, (assoc_L (++)).
Qed.

Lemma quiet_mono {A} (P Q : list ServeEvent → result ServeStop A → Prop) a :
  quiet P a → (∀ t r, P t r → Q t r) → quiet Q a.
Proof using Type. intros Ha Hpq w w' r Hw. destruct (Ha _ _ _ Hw) as (? & ? & t & ? & ?). eauto 6. Qed.

(** What [send] does: the message reaches the socket, or the error is returned. *)
Definition sends (m : PairingServerMessage) (t : list ServeEvent) (r : result ServeStop unit) : Prop :=
  (t = [Event_Sent m] ∧ r = Ok ()) ∨ (t = [] ∧ ∃ e, r = Err (Serve_Error e)).

Lemma quiet_send m : quiet (sends m) (send m).
Proof using Type.
  unfold send. apply quiet_bind, quiet_lift. destruct (encode_pairing_message m) as [bytes|e]; simpl; [|by right; eauto].
  apply quiet_bind, quiet_lift. destruct (from_utf8 bytes) as [text|]; simpl; [|by right; eauto].
  apply quiet_bind, quiet_ask. intros n. simpl. apply quiet_bind. unfold transport. apply quiet_lift.
  destruct (_ ← _; send_answer n) as [[]|e]; simpl; [|by right; eauto]. apply quiet_record. by left.
Qed.

Lemma quiet_ignoring m : quiet (λ t r, (t = [] ∨ t = [Event_Sent m]) ∧ r = Ok ()) (ignoring (send m)).
Proof using Type.
  intros w w' r. unfold ignoring. destruct (send m w) as [w1 r1] eqn:E. destruct (quiet_send m w w1 r1 E) as (Hs & Hn & t & Ht & Hp).
  destruct Hp as [[-> ->]|[-> [e ->]]]; intros [= <- <-]; split_and!; eauto 7.
Qed.

(** What [read_request] does: at most one text is taken from the socket, and a
    request is what that text decodes to. *)
Definition requested (t : list ServeEvent) (r : result ServeStop PairingRequest) : Prop :=
  match r with
  | Ok request => ∃ text, t = [Event_Received text] ∧ decode_pairing_request (as_bytes text) = Ok request
  | Err _ => t = [] ∨ ∃ text, t = [Event_Received text]
  end.

Lemma quiet_read_request fuel limit : quiet requested (read_request fuel limit).
Proof using Type.
  induction fuel as [|fuel IH]; cbn [read_request]; [apply quiet_lift; by left|].
  apply quiet_bind, quiet_ask. intros n. simpl. destruct (_ <=? _)%N; [apply quiet_lift; by left|].
  apply quiet_bind, quiet_ask. intros n'. simpl. apply quiet_bind, quiet_lift.
  destruct (read_answer n') as [[text| | | |]|e]; simpl; [|exact IH..| |by left]; [|apply quiet_lift; by left].
  apply quiet_bind, quiet_record, quiet_lift. simpl.
  destruct (decode_pairing_request _) as [request|e] eqn:Hd; simpl; [by exists text|right; by exists text].
Qed.

Definition finishes (t : list ServeEvent) (code : CloseCode) (reason : string) (t' : list ServeEvent) (r : result ServeStop unit) : Prop :=
  t' = t ++ [Event_Closing code reason] ∧ (r = Ok () ∨ r = Err Serve_Running).

Lemma quiet_await_close fuel limit : quiet (λ t r, t = [] ∧ (r = Ok () ∨ r = Err Serve_Running)) (await_close fuel limit).
Proof using Type.
  revert limit. induction fuel as [|fuel IH]; intros limit; cbn [await_close]; [apply quiet_lift; auto|].
  apply quiet_bind, quiet_ask. intros n. simpl. destruct (_ <? _)%N; [|apply quiet_lift; auto].
  apply quiet_bind, quiet_ask. intros n'. simpl. destruct (read_answer n') as [[]|]; try exact (IH limit); apply quiet_lift; auto.
Qed.

Lemma quiet_finish fuel code reason : quiet (finishes [] code reason) (finish_connection fuel code reason).
Proof using Type.
  unfold finish_connection. apply quiet_bind, quiet_record. apply quiet_bind, quiet_ask. intros n. simpl.
  destruct (close_answer n); [|apply quiet_lift; by split; [|left]]. apply quiet_bind, quiet_ask. intros n'. simpl.
  eapply quiet_mono; [apply quiet_await_close|]. intros t r [-> Hr]. by split.
Qed.

(** A refusal: perhaps a message, and the close. *)
Definition refusing (m : PairingServerMessage) (code : CloseCode) (reason : string) (t : list ServeEvent) : Prop :=
  t = [Event_Closing code reason] ∨ t = [Event_Sent m; Event_Closing code reason].

Lemma quiet_ignoring_finish fuel m code reason {A} (next : result ServeStop A) :
  quiet (λ t r, refusing m code reason t ∧ (r = next ∨ r = Err Serve_Running))
    (_ ← ignoring (send m); _ ← finish_connection fuel code reason; lift next).
Proof using Type.
  apply quiet_bind. eapply quiet_mono; [apply quiet_ignoring|]. intros t r [Ht ->].
  apply quiet_bind. eapply quiet_mono; [apply quiet_finish|]. intros t' r [-> [-> | ->]].
  - apply quiet_lift. rewrite app_nil_r. split; [|by left]. destruct Ht as [-> | ->]; [by left|by right].
  - split; [|by right]. destruct Ht as [-> | ->]; [by left|by right].
Qed.

Lemma quiet_send_finish fuel m code reason {A} (next : result ServeStop A) :
  quiet (λ t r, (t = [] ∧ ∃ e, r = Err (Serve_Error e)) ∨
                (t = [Event_Sent m; Event_Closing code reason] ∧ (r = next ∨ r = Err Serve_Running)))
    (_ ← send m; _ ← finish_connection fuel code reason; lift next).
Proof using Type.
  apply quiet_bind. eapply quiet_mono; [apply quiet_send|]. intros t r [[-> ->]|[-> [e ->]]]; [|left; eauto].
  apply quiet_bind. eapply quiet_mono; [apply quiet_finish|]. intros t' r [-> [-> | ->]]; [apply quiet_lift|]; right; auto.
Qed.

Lemma quiet_reject fuel attempts code message close reason :
  quiet (λ t r, refusing (Pairing_Failure code message (attempts <? MAX_ATTEMPTS)%nat) close reason t ∧
                ((r = Ok () ∧ attempts < MAX_ATTEMPTS) ∨ ∃ e, r = Err e))
    (reject_attempt fuel attempts code message close reason).
Proof using Type.
  unfold reject_attempt. destruct (Nat.leb_spec MAX_ATTEMPTS attempts) as [Hl|Hl].
  - eapply quiet_mono; [apply (quiet_ignoring_finish fuel _ close reason (Err (Serve_Error Pairing_AttemptLimit)))|].
    intros t r [Ht [-> | ->]]; eauto.
  - eapply quiet_mono; [apply (quiet_ignoring_finish fuel _ close reason (Ok ()))|].
    intros t r [Ht [-> | ->]]; eauto.
Qed.

(** ** Actions from a given store *)

Definition does {A} (s : StoreWorld) (Q : StoreWorld → list ServeEvent → result ServeStop A → Prop) (a : serving A) : Prop :=
  ∀ w w' r, serve_store w = s → a w = (w', r) → asked w ≤ asked w' ∧
    ∃ t, serve_trace w' = serve_trace w ++ t ∧ Q (serve_store w') t r.

Lemma does_quiet {A} s (P : list ServeEvent → result ServeStop A → Prop) (Q : StoreWorld → list ServeEvent → result ServeStop A → Prop) a :
  quiet P a → (∀ t r, P t r → Q s t r) → does s Q a.
Proof using Type. intros Ha HQ w w' r <- Hw. destruct (Ha _ _ _ Hw) as (-> & Hn & t & Ht & Hp). eauto. Qed.

Lemma does_bind {A B} s (Q : StoreWorld → list ServeEvent → result ServeStop B → Prop) (a : serving A) (f : A → serving B) :
  does s (λ s1 t1 r1, match r1 with
                      | Ok x => does s1 (λ s2 t2, Q s2 (t1 ++ t2)) (f x)
                      | Err e => Q s1 t1 (Err e)
                      end) a → does s Q (a ≫= f).
Proof using Type.
  intros Ha w w' r Hs [(w1 & x & Ew & Ef)|(e & Ew & ->)]%act_bind_inv;
    destruct (Ha _ _ _ Hs Ew) as (Hn & t1 & Ht & Hp); [|by eauto].
  destruct (Hp _ _ _ eq_refl Ef) as (Hn2 & t2 & Ht2 & Hq). split; [lia|].
  exists (t1 ++ t2). split; [|done]. by rewrite Ht2, Ht, (assoc_L (++)).
Qed.

(** An action of the store, with what it answers. *)
Lemma does_store {A B} s (Q : StoreWorld → list ServeEvent → result ServeStop B → Prop) (a : act StoreWorld PairingError A)
    (f : result PairingError A → result ServeStop B) :
  (∀ s' r, a s = (s', r) → Q s' [] (f r)) →
  does s Q (λ w, let '(s', r) := a (serve_store w) in (MkServe s' (asked w) (serve_trace w), f r)).
Proof using Type.
  intros Ha w w' r Hs. rewrite Hs. destruct (a s) as [s' r'] eqn:E. intros [= <- <-]. split; [done|].
  exists []. rewrite app_nil_r. eauto.
Qed.

(** A failure of the store that is dropped. *)
Lemma does_ignoring_store s (Q : StoreWorld → list ServeEvent → result ServeStop unit → Prop) (a : act StoreWorld PairingError unit) :
  Q (a s).1 [] (Ok ()) → does s Q (ignoring (on_store a)).
Proof using Type.
  intros HQ w w' r Hs. unfold ignoring, on_store. rewrite Hs. destruct (a s) as [s' [[]|e]]; simpl; intros [= <- <-];
    (split; [done|]); exists []; by rewrite app_nil_r.
Qed.

Lemma does_ask {A} s (Q : StoreWorld → list ServeEvent → result ServeStop A → Prop) f :
  (∀ n, Q s [] (Ok (f n))) → does s Q (ask f).
Proof using Type. intros HQ. eapply (does_quiet s (λ t r, Q s t r)); [by apply quiet_ask|done]. Qed.
Lemma does_lift {A} s (Q : StoreWorld → list ServeEvent → result ServeStop A → Prop) m : Q s [] m → does s Q (lift m).
Proof using Type. intros HQ. eapply (does_quiet s (λ t r, Q s t r)); [by apply quiet_lift|done]. Qed.
Lemma does_record s (Q : StoreWorld → list ServeEvent → result ServeStop unit → Prop) e :
  Q s [e] (Ok ()) → does s Q (record_event e).
Proof using Type. intros HQ. eapply (does_quiet s (λ t r, Q s t r)); [by apply quiet_record|done]. Qed.

(** ** One accepted request *)

Section session.
Context (session : PairingSession) (approve : PairingRequest → bool) (ready : rstring → result PairingError unit).

Abbreviation path := (session_store session).

Definition delivered (token : rstring) (t : list ServeEvent) : Prop :=
  ∃ host_id host_name ca server_name address port version versions,
    Event_Sent (Pairing_Succeeded host_id host_name ca server_name address port token version versions) ∈ t.

(** What precedes a credential: the client was told to wait, the user agreed to
    this request, and the time [now] was read after that. *)
Definition approval_of (request : PairingRequest) (now : N) : list ServeEvent :=
  [Event_Sent (Pairing_Pending (client_id request) (display_name request)); Event_Asked request true; Event_Time now].

(** What answering a matching request did to the store, and why. *)
Definition answered (request : PairingRequest) (s s' : StoreWorld) (t : list ServeEvent) (r : result ServeStop PairingOutcome) : Prop :=
  (s' = s ∧ is_ok r = false) ∨
  (approve request = true ∧
   (∃ now t', t = approval_of request now ++ t' ∧ (now < expires_at session)%N) ∧ ∃ s1 issued,
     issue_device path (client_id request) (display_name request) (client_version request) s = (s1, issued) ∧
     match issued with
     | Err _ => s' = s1 ∧ is_ok r = false
     | Ok token =>
         match ready token with
         | Err _ => s' = (revoke_device path (client_id request) s1).1 ∧ is_ok r = false
         | Ok _ => s' = (load_identity path s1).1 ∧
             (is_ok r = true → r = Ok (MkOutcome (client_id request) (display_name request)) ∧ delivered token t)
         end
     end).

Definition accepted (t : list ServeEvent) : Prop := ∀ n, n < MAX_ATTEMPTS → is_Some (phases (Phase_Waiting n) t).

Lemma accepted_pending request now t :
  is_Some (phases (Phase_Answered request (approve request)) t) →
  accepted ([Event_Sent (Pairing_Pending (client_id request) (display_name request));
             Event_Asked request (approve request); Event_Time now] ++ t).
Proof using Type.
  intros Ht n Hn. rewrite phases_app. simpl. rewrite (proj2 (Nat.ltb_lt n MAX_ATTEMPTS) Hn). simpl.
  rewrite bool_decide_eq_true_2 by done. destruct (approve request); exact Ht.
Qed.

Ltac runs := simpl; repeat case_match; eexists; reflexivity.

Lemma accepted_nil : accepted [].
Proof using Type. intros n _. by eexists. Qed.

Lemma does_complete fuel request s :
  does s (λ s' t r, accepted t ∧ answered request s s' t r) (complete session approve ready fuel request).
Proof using Type.
  unfold complete. apply does_bind. eapply does_quiet; [apply quiet_send|].
  intros t r [[-> ->]|[-> [e ->]]]; [|by split; [apply accepted_nil|left]].
  apply does_bind, does_record, does_bind, does_ask. intros n. apply does_bind, does_record.
  destruct (N.leb_spec (expires_at session) (instant_now n)) as [Hx|Hx].
  { eapply does_quiet; [apply (quiet_ignoring_finish fuel _ Close_Policy "pairing expired" (Err (Serve_Error Pairing_Expired)))|].
    intros t r [Ht Hr]. split; [apply accepted_pending; destruct Ht as [-> | ->], (approve request); runs|].
    left. by destruct Hr as [-> | ->]. }
  destruct (approve request) eqn:Happ; cbn [negb].
  2: { eapply does_quiet; [apply (quiet_send_finish fuel _ Close_Policy "pairing denied" (Err (Serve_Error Pairing_Denied)))|].
    intros t r [[-> [e ->]]|[-> Hr]]; (split; [rewrite <-Happ; apply accepted_pending; rewrite ?Happ; runs|left]);
      [done|by destruct Hr as [-> | ->]]. }
  apply does_bind, (does_store s _ _ Ok). intros s1 issued Hissue.
  assert (∀ s' t r,
    is_Some (phases (Phase_Answered request true) t) →
    match issued with
    | Err _ => s' = s1 ∧ is_ok r = false
    | Ok token =>
        match ready token with
        | Err _ => s' = (revoke_device path (client_id request) s1).1 ∧ is_ok r = false
        | Ok _ => s' = (load_identity path s1).1 ∧
            (is_ok r = true → r = Ok (MkOutcome (client_id request) (display_name request)) ∧ delivered token t)
        end
    end → accepted (approval_of request (instant_now n) ++ t)
      ∧ answered request s s' (approval_of request (instant_now n) ++ t) r)
    as Hdone.
  { intros s' t r Hp Hm. split; [unfold approval_of; rewrite <-Happ; apply accepted_pending; by rewrite Happ|]. right. split_and!; [done|by do 2 eexists|].
    exists s1, issued. split; [done|]. destruct issued as [token|]; [|done]. destruct (ready token); [|done].
    destruct Hm as [-> Hm]. split; [done|]. intros Hr. destruct (Hm Hr) as [-> (? & ? & ? & ? & ? & ? & ? & ? & Hin)].
    split; [done|]. do 8 eexists. apply elem_of_app. right. exact Hin. }
  destruct issued as [token|error].
  2: { destruct error; try (apply does_lift; apply (Hdone s1 []); [by eexists|done]).
    eapply does_quiet; [apply (quiet_send_finish fuel _ Close_Policy "device capacity reached" (Err (Serve_Error (Pairing_DeviceCapacity 16))))|].
    intros t r [[-> [e ->]]|[-> Hr]]; (apply (Hdone s1); [runs|]); (split; [done|]); [done|by destruct Hr as [-> | ->]]. }
  apply does_bind, does_record. destruct (ready token) as [[]|error] eqn:Hready.
  - apply does_bind, does_store. intros s2 [identity|e] Hload; cbn [map_err].
    2: { apply (Hdone s2 [_]); [runs|]. by rewrite Hload. }
    eapply does_quiet; [apply (quiet_send_finish fuel _ Close_Normal "pairing completed"
      (Ok (MkOutcome (client_id request) (display_name request))))|].
    intros t r [[-> [e ->]]|[-> Hr]].
    + apply (Hdone s2 [_]); [runs|]. by rewrite Hload.
    + apply (Hdone s2 [_;_;_]); [simpl; rewrite bool_decide_eq_true_2 by done; runs|].
      rewrite Hload. split; [done|]. destruct Hr as [-> | ->]; [|done]. intros _. split; [done|]. do 8 eexists. right; left.
  - apply does_bind, does_ignoring_store.
    eapply does_quiet; [apply (quiet_send_finish fuel _ Close_Error "Host connection unavailable" (Err (Serve_Error error)))|].
    intros t r [[-> [e ->]]|[-> Hr]]; [by apply (Hdone _ [_]); [runs|]|].
    apply (Hdone _ [_;_;_]); [runs|]. by destruct Hr as [-> | ->].
Qed.

(** ** The whole session *)

Definition matching (request : PairingRequest) : Prop :=
  credential_matches (request_pairing_id request) (bundle_pairing_id (bundle session)) = true ∧
  credential_matches (request_bootstrap_token request) (bundle_bootstrap_token (bundle session)) = true ∧
  validate_request request = Ok ().

(** The store is as it was, or a matching request that came from the socket was
    answered. *)
Definition served (s s' : StoreWorld) (t : list ServeEvent) (r : result ServeStop PairingOutcome) : Prop :=
  (s' = s ∧ is_ok r = false) ∨ ∃ text request t1 t2, t = t1 ++ [Event_Received text] ++ t2 ∧
    decode_pairing_request (as_bytes text) = Ok request ∧ matching request ∧ answered request s s' t2 r.

Lemma served_app s s' t t' r : served s s' t' r → served s s' (t ++ t') r.
Proof using Type.
  intros [?|(text & request & t1 & t2 & -> & Hd & Hm & Ha)]; [by left|]. right. exists text, request, (t ++ t1), t2.
  by rewrite (assoc_L (++)).
Qed.

Definition follows (n : nat) (t : list ServeEvent) : Prop := is_Some (phases (Phase_Waiting n) t).

Lemma refusing_follows n code message b close reason t t' :
  refusal code = true → n < MAX_ATTEMPTS → refusing (Pairing_Failure code message b) close reason t →
  follows (S n) t' → follows n (t ++ t').
Proof using Type.
  intros Hc Hn Ht Hf. unfold follows. rewrite phases_app. apply Nat.ltb_lt in Hn.
  destruct Ht as [-> | ->]; simpl; rewrite ?Hc; simpl; rewrite Hn; exact Hf.
Qed.

Lemma does_reject {A} s (Q : StoreWorld → list ServeEvent → result ServeStop A → Prop) fuel attempts code message close reason
    (next : serving A) :
  (∀ t e, refusing (Pairing_Failure code message (attempts <? MAX_ATTEMPTS)%nat) close reason t → Q s t (Err e)) →
  (∀ t, refusing (Pairing_Failure code message (attempts <? MAX_ATTEMPTS)%nat) close reason t → attempts < MAX_ATTEMPTS →
    does s (λ s' t', Q s' (t ++ t')) next) →
  does s Q (_ ← reject_attempt fuel attempts code message close reason; next).
Proof using Type.
  intros He Hn. apply does_bind. eapply does_quiet; [apply quiet_reject|]. intros t r [Ht [[-> Ha]|[e ->]]]; auto.
Qed.

Lemma does_mono {A} s (P Q : StoreWorld → list ServeEvent → result ServeStop A → Prop) a :
  does s P a → (∀ s' t r, P s' t r → Q s' t r) → does s Q a.
Proof using Type. intros Ha HPQ w w' r Hs Hw. destruct (Ha _ _ _ Hs Hw) as (? & t & ? & ?). eauto. Qed.

(** [read_request] with its error as a value. *)
Lemma does_try_request s fuel limit (Q : StoreWorld → list ServeEvent → result ServeStop (result PairingError PairingRequest) → Prop) :
  (∀ t, requested t (Err Serve_Running) → Q s t (Err Serve_Running)) →
  (∀ t request, requested t (Ok request) → Q s t (Ok (Ok request))) →
  (∀ t e, requested t (Err (Serve_Error e)) → Q s t (Ok (Err e))) →
  does s Q (λ w, match read_request fuel limit w with
                 | (w', Ok request) => (w', Ok (Ok request))
                 | (w', Err (Serve_Error e)) => (w', Ok (Err e))
                 | (w', Err Serve_Running) => (w', Err Serve_Running)
                 end).
Proof using Type.
  intros Hrun Hok Herr w w' r <-. destruct (read_request fuel limit w) as [w1 r1] eqn:E.
  destruct (quiet_read_request fuel limit w w1 r1 E) as (Hs & Hn & t & Ht & Hv).
  destruct r1 as [request|[e|]]; intros [= <- <-]; (split; [done|]); exists t; (split; [done|]); rewrite Hs; eauto.
Qed.

(** Texts from the socket do not move the automaton while it waits. *)
Lemma requested_follows n t t' r : requested t r → follows n t' → follows n (t ++ t').
Proof using Type.
  intros Ht Hf. destruct r; [destruct Ht as (text & -> & _)|destruct Ht as [-> | [text ->]]]; exact Hf.
Qed.

Lemma does_serve_loop fuel attempts n s :
  n ≤ attempts → attempts < MAX_ATTEMPTS →
  does s (λ s' t r, follows n t ∧ served s s' t r) (serve_loop session approve ready fuel attempts).
Proof using Type.
  revert attempts n s. induction fuel as [|fuel IH]; intros attempts n s Hn Ha; cbn [serve_loop].
  { apply does_lift. by split; [eexists|left]. }
  apply does_bind, does_ask. intros k. destruct (negb _); [apply does_lift; by split; [eexists|left]|].
  apply does_bind, does_ask. intros k'.
  assert (∀ code message close reason, refusal code = true →
    does s (λ s' t r, follows n t ∧ served s s' t r) (_ ← reject_attempt fuel (S attempts) code message close reason;
      serve_loop session approve ready fuel (S attempts))) as Hrefused.
  { intros code message close reason Hcode. apply does_reject.
    - intros t e Ht. split; [|by left]. rewrite <-(app_nil_r t). eapply refusing_follows; [done|lia|done|by eexists].
    - intros t Ht Hlt. eapply does_mono; [apply (IH (S attempts) (S n)); lia|]. intros s' t' r [Hf Hs].
      split; [eapply refusing_follows; [done|lia|done|done]|by apply served_app]. }
  assert (∀ t r code message close reason, requested t r → refusal code = true →
    does s (λ s' t' r, follows n (t ++ t') ∧ served s s' (t ++ t') r)
      (_ ← reject_attempt fuel (S attempts) code message close reason;
       serve_loop session approve ready fuel (S attempts))) as Hbehind.
  { intros t r code message close reason Ht Hcode. eapply does_mono; [by apply Hrefused|].
    intros s' t' r' [Hf Hs]. split; [by eapply requested_follows|by apply served_app]. }
  destruct (accept_answer k') as [[]|e].
  - apply does_bind, does_try_request.
    + intros t Ht. split; [|by left]. rewrite <-(app_nil_r t). apply (requested_follows n t [] _ Ht); by eexists.
    + intros t request Ht. destruct (credential_matches _ _) eqn:Hid, (credential_matches (request_bootstrap_token _) _) eqn:Htoken;
        try (by apply (Hbehind t (Ok request))). eapply does_mono; [apply does_complete|]. intros s' t' r [Hacc Hans].
      split; [apply (requested_follows n t t' _ Ht), Hacc; lia|]. destruct Ht as (text & -> & Hd).
      right. exists text, request, [], t'. split_and!; [done..|split_and!; [done..|by eapply decode_pairing_request_valid]|done].
    + intros t e Ht. by apply (Hbehind t (Err (Serve_Error e))).
  - by apply IH.
  - destruct e; try (apply does_lift; by split; [eexists|left]).
    destruct (Nat.leb_spec MAX_ATTEMPTS (S attempts)); [apply does_lift; by split; [eexists|left]|].
    apply IH; lia.
Qed.

(** ** What it means for the credentials *)

Section effect.
Context `{!StoreLibraryOk} (r0 : StoreRecord).
Hypothesis path_lock : path ≠ lock_path path.
Hypothesis path_temporary : ∀ n, path ≠ temporary_of (removelast path) n.

Lemma issue_effect c name version s s1 issued :
  saved path s r0 → issue_device path c name version s = (s1, issued) →
  ∃ r1, saved path s1 r1 ∧ identity_of r1 = identity_of r0 ∧ (∀ c', c' ≠ c → credential r1 c' = credential r0 c') ∧
    ∀ token, issued = Ok token → credential r1 c = Some (sha256 (as_bytes token)).
Proof using All.
  intros Hs Hi. destruct (store_refines path path_lock path_temporary (Store_Issue c name version) s r0 s1 (answer_of Store_Token issued) Hs)
    as (r1 & Hs1 & Hid & He); [cbn [run_store_op]; by rewrite Hi|]. exists r1. split_and!; [done..| |].
  - intros c' Hc. destruct He as [[_ He]|(token & _ & He)]; rewrite He; [done|by rewrite decide_False].
  - intros token ->. destruct He as [[? _]|(token' & Htok & He)]; [done|]. specialize (Htok eq_refl) as [= ->].
    by rewrite He, decide_True.
Qed.

Lemma answered_effect request s s' t r :
  saved path s r0 → answered request s s' t r →
  ∃ r1, saved path s' r1 ∧ identity_of r1 = identity_of r0 ∧
    ((∀ c, credential r1 c = credential r0 c) ∨
     (approve request = true ∧ (∃ now t', t = approval_of request now ++ t' ∧ (now < expires_at session)%N) ∧
      ∀ c, c ≠ client_id request → credential r1 c = credential r0 c)) ∧
    (∀ outcome, r = Ok outcome → outcome_client_id outcome = client_id request ∧ ∃ token,
       ready token = Ok () ∧ delivered token t ∧ credential r1 (client_id request) = Some (sha256 (as_bytes token))).
Proof using All.
  intros Hs [[-> Hr]|(Happ & Htime & s1 & issued & Hissue & Hm)].
  { exists r0. split_and!; [done..|by left|]. by intros outcome ->. }
  destruct (issue_effect _ _ _ _ _ _ Hs Hissue) as (r1 & Hs1 & Hid & Hother & Hsame).
  destruct issued as [token|e]; [|destruct Hm as [-> Hr]; exists r1; split_and!; [done..|by right|by intros ? ->]].
  destruct (ready token) as [[]|] eqn:Hready; destruct Hm as [-> Hr].
  - destruct (load_identity path s1) as [s2 loaded] eqn:El.
    destruct (store_refines path path_lock path_temporary Store_LoadIdentity s1 r1 s2 (answer_of (λ _, Store_Done) loaded) Hs1)
      as (r2 & Hs2 & Hid2 & He); [cbn [run_store_op]; by rewrite El|].
    assert (∀ c, credential r2 c = credential r1 c) as Hr2 by (by destruct He as [[_ He]|He]).
    exists r2. split_and!; [done|congruence|right; split_and!; [done..|]; intros c Hc; rewrite Hr2; auto|].
    intros outcome ->. destruct (Hr eq_refl) as [[= ->] Hd].
    split; [done|]. exists token. split_and!; [done..|]. rewrite Hr2. auto.
  - destruct (revoke_device path (client_id request) s1) as [s2 revoked] eqn:Er.
    destruct (store_refines path path_lock path_temporary (Store_Revoke (client_id request)) s1 r1 s2
      (answer_of (λ _, Store_Done) revoked) Hs1) as (r2 & Hs2 & Hid2 & He); [cbn [run_store_op]; by rewrite Er|].
    exists r2. split_and!; [done|congruence| |by intros ? ->]. right. split_and!; [done..|]. intros c Hne.
    destruct He as [[_ He]|[_ He]]; rewrite He; rewrite ?decide_False by done; auto.
Qed.
End effect.

(** ** Termination *)

Abbreviation ends := (ends Serve_Running).

(** The clock passes every instant. *)
Definition clock_advances : Prop := passes_every_instant instant_now.

Hypothesis advances : clock_advances.

(** Loops that ask for the time in every turn. *)
Lemma ends_family {I A} (a : I → nat → serving A) (limit : N) :
  (∀ i w, (limit <= instant_now (asked w))%N ∨ (∀ j w', asked w < asked w' → ends (a j) w') → ends (a i) w) →
  ∀ i w, ends (a i) w.
Proof using advances.
  by apply (ends_within asked instant_now).
Qed.

Lemma ends_before {A} (a : nat → serving A) (limit : N) :
  (∀ w, (limit <= instant_now (asked w))%N ∨ (∀ w', asked w < asked w' → ends a w') → ends a w) → ∀ w, ends a w.
Proof using advances.
  intros Hstep. apply (ends_family (λ _ : unit, a) limit); [|exact ()]. intros [] w [Hw|Hw]; apply Hstep; [by left|].
  right. intros w'. by apply Hw.
Qed.

Lemma ends_ask {A B} (g : nat → A) (f : nat → A → serving B) w :
  ends (λ fuel, f fuel (g (asked w))) (MkServe (serve_store w) (S (asked w)) (serve_trace w)) →
  ends (λ fuel, ask g ≫= f fuel) w.
Proof using Type. intros Hf. apply (ends_bind (λ _, ask g)); [by apply ends_now|]. by intros _ w1 x [= <- <-]. Qed.

Lemma ends_await_close limit w : ends (λ fuel, await_close fuel limit) w.
Proof using advances.
  revert w. apply (ends_before _ limit). intros w Hw. apply ends_step. cbn [await_close]. apply ends_ask.
  destruct (N.ltb_spec (instant_now (asked w)) limit) as [Hlt|]; [|by apply ends_mret].
  destruct Hw as [?|Hnext]; [lia|]. apply ends_ask. simpl.
  destruct (read_answer _) as [[]|]; try (by apply ends_mret); apply Hnext; simpl; lia.
Qed.

Lemma ends_read_request limit w : ends (λ fuel, read_request fuel limit) w.
Proof using advances.
  revert w. apply (ends_before _ limit). intros w Hw. apply ends_step. cbn [read_request]. apply ends_ask.
  destruct (N.leb_spec limit (instant_now (asked w))) as [|Hlt]; [by apply ends_mret|].
  destruct Hw as [?|Hnext]; [lia|]. apply ends_ask. simpl. unfold transport.
  destruct (read_answer _) as [[text| | | |]|e]; try (apply Hnext; simpl; lia); try by apply ends_mret.
  apply (ends_mret (map_err Serve_Error (decode_pairing_request (as_bytes text)))). by destruct (decode_pairing_request _).
Qed.

Lemma ends_finish code reason w : ends (λ fuel, finish_connection fuel code reason) w.
Proof using advances.
  apply (ends_bind (λ _, record_event _)); [by apply ends_now|]. intros _ w1 [] _. apply ends_ask.
  destruct (close_answer _); [|by apply ends_mret]. apply ends_ask, ends_await_close.
Qed.

Lemma ends_send m w : ends (λ _, send m) w.
Proof using Type.
  apply ends_now. destruct (send m w) as [w' r] eqn:E. destruct (quiet_send m w w' r E) as (_ & _ & t & _ & [[_ ->]|[_ [e ->]]]); done.
Qed.
Lemma ends_ignoring m w : ends (λ _, ignoring (send m)) w.
Proof using Type.
  apply ends_now. destruct (ignoring (send m) w) as [w' r] eqn:E.
  by destruct (quiet_ignoring m w w' r E) as (_ & _ & t & _ & _ & ->).
Qed.

Lemma ends_then_finish {A} (first : serving unit) code reason (next : result ServeStop A) w :
  next ≠ Err Serve_Running → ends (λ _, first) w →
  ends (λ fuel, _ ← first; _ ← finish_connection fuel code reason; lift next) w.
Proof using advances.
  intros Hn Hf. apply (ends_bind (λ _, first)); [done|]. intros _ w1 [] _.
  apply (ends_bind (λ fuel, finish_connection fuel code reason)); [apply ends_finish|]. intros _ w2 [] _. by apply ends_mret.
Qed.

Lemma ends_store {A B} (a : act StoreWorld PairingError A) (g : result PairingError A → result ServeStop B) w :
  (∀ r, g r ≠ Err Serve_Running) →
  ends (λ _ w, let '(s', r) := a (serve_store w) in (MkServe s' (asked w) (serve_trace w), g r)) w.
Proof using Type. intros Hg. apply (ends_now (λ w, _)). destruct (a (serve_store w)) as [s' r]. apply Hg. Qed.


Lemma ends_complete request w : ends (λ fuel, complete session approve ready fuel request) w.
Proof using advances.
  unfold complete. apply (ends_bind (λ _, send _)); [apply ends_send|]. intros _ w1 [] _.
  apply (ends_bind (λ _, record_event _)); [by apply ends_now|]. intros _ w2 [] _. apply ends_ask.
  destruct (_ <=? _)%N; [apply ends_then_finish; [done|apply ends_ignoring]|].
  destruct (negb _); [apply ends_then_finish; [done|apply ends_send]|].
  apply (ends_bind (λ _, _ : serving (result PairingError rstring)));
    [by apply (ends_store (issue_device _ _ _ _) Ok)|].
  intros _ w3 [token|error] _.
  2: { destruct error; try (by apply ends_mret). apply ends_then_finish; [done|apply ends_send]. }
  apply (ends_bind (λ _, record_event _)); [by apply ends_now|]. intros _ w4 [] _. destruct (ready token) as [|error].
  - apply (ends_bind (λ _, on_store _)); [by apply (ends_store _ (map_err Serve_Error)); intros []|].
    intros _ w5 identity _. apply ends_then_finish; [done|apply ends_send].
  - apply (ends_bind (λ _, ignoring _)).
    + apply ends_now. unfold ignoring, on_store. by destruct (revoke_device _ _ _) as [? [[]|]].
    + intros _ w5 [] _. apply ends_then_finish; [done|apply ends_send].
Qed.

Lemma ends_reject attempts code message close reason w :
  ends (λ fuel, reject_attempt fuel attempts code message close reason) w.
Proof using advances.
  unfold reject_attempt. destruct (_ <=? _)%nat; apply ends_then_finish; try done; apply ends_ignoring.
Qed.

Lemma ends_try_request limit w :
  ends (λ fuel w, match read_request fuel limit w with
                  | (w', Ok request) => (w', Ok (Ok request))
                  | (w', Err (Serve_Error e)) => (w', Ok (Err e))
                  | (w', Err Serve_Running) => (w', Err Serve_Running)
                  end : ServeWorld * result ServeStop (result PairingError PairingRequest)) w.
Proof using advances.
  destruct (ends_read_request limit w) as (n & w' & r & Hr & Hn).
  exists n, w', (match r with Ok request => Ok (Ok request) | Err (Serve_Error e) => Ok (Err e) | Err Serve_Running => Err Serve_Running end).
  split; [by destruct r as [|[]]|]. intros more Hm. rewrite Hn by done. by destruct r as [|[]].
Qed.

Lemma try_request_asked limit fuel w w' x :
  match read_request fuel limit w with
  | (w', Ok request) => (w', Ok (Ok request))
  | (w', Err (Serve_Error e)) => (w', Ok (Err e))
  | (w', Err Serve_Running) => (w', Err Serve_Running)
  end = (w', Ok x) → asked w ≤ asked w'.
Proof using Type.
  destruct (read_request fuel limit w) as [w1 r1] eqn:E. destruct (quiet_read_request fuel limit w w1 r1 E) as (_ & Hn & _).
  by destruct r1 as [|[]]; intros [= <- _].
Qed.

Lemma ends_serve_loop attempts w : ends (λ fuel, serve_loop session approve ready fuel attempts) w.
Proof using advances.
  apply (ends_family (λ attempts fuel, serve_loop session approve ready fuel attempts) (expires_at session)).
  clear attempts w. intros attempts w Hw. apply ends_step. cbn [serve_loop]. apply ends_ask.
  destruct (N.ltb_spec (instant_now (asked w)) (expires_at session)) as [Hlt|]; [|by apply ends_mret].
  destruct Hw as [?|Hnext]; [lia|]. cbn [negb]. apply ends_ask. cbn [asked serve_store serve_trace].
  set (w1 := MkServe _ _ _). assert (asked w < asked w1) as Hw1 by (simpl; lia).
  assert (∀ code message close reason w2, asked w1 ≤ asked w2 →
    ends (λ fuel, _ ← reject_attempt fuel (S attempts) code message close reason;
                  serve_loop session approve ready fuel (S attempts)) w2) as Hreject.
  { intros code message close reason w2 Hw2.
    apply (ends_bind (λ fuel, reject_attempt fuel _ _ _ _ _) (λ fuel _, serve_loop _ _ _ fuel _)); [apply ends_reject|].
    intros fuel w3 [] E. apply Hnext. destruct (quiet_reject _ _ _ _ _ _ _ _ _ E) as (_ & Hn & _). lia. }
  destruct (accept_answer _) as [[]|e]; [|by apply Hnext|].
  - apply (ends_bind (λ fuel w, match read_request fuel (expires_at session) w with _ => _ end)); [apply ends_try_request|].
    intros fuel w2 request E%try_request_asked. destruct request as [request|e]; [|by apply Hreject].
    destruct (_ || _); [by apply Hreject|apply ends_complete].
  - destruct e; try (by apply ends_mret). destruct (_ <=? _)%nat; [by apply ends_mret|by apply Hnext].
Qed.
End session.
End server.
