(* ===== verification/PairingRuns.v ===== *)
(** * A pairing

    Instances of the libraries and a session in which a phone is paired: the
    witnesses of the pairing theorems evaluate the model on it. *)

From stdpp Require Import base strings numbers sorting gmap list.
From S2P Require Import Prelude Bytes Json Values Dto Net Examples RelayProtocol RelaySpec RelayServer RelayRuns.
From S2P Require Import Transport PairingProtocol Platform.
From S2P Require Import PairingStore PairingStoreSpec PairingServer PairingServerSpec.

(** ** Documents are the entries of a table, written as their index *)

Section table.
Context {T : Type} `{EqDecision T} (table : list T).

Definition entry_to_vec (x : T) : result rstring (list Byte.byte) :=
  match list_find (λ y, y = x) table with
  | Some (i, _) => if (i <? 128)%nat then Ok [byte_of_N (N.of_nat i)] else Err (lit "unknown")
  | None => Err (lit "unknown")
  end.

Definition entry_from_slice (bytes : list Byte.byte) : result rstring T :=
  match bytes with [b] => ok_or (lit "unknown") (table !! N.to_nat (Byte.to_N b)) | _ => Err (lit "unknown") end.

Lemma entry_json x bytes :
  entry_to_vec x = Ok bytes → utf8_text bytes ∧ entry_from_slice bytes = Ok x.
Proof.
  unfold entry_to_vec. destruct (list_find _ table) as [[i y]|] eqn:Ef; [|done].
  apply list_find_Some in Ef as (Hi & -> & _). destruct (Nat.ltb_spec i 128) as [Hlt|]; [|done]. intros <-%Ok_inj. split.
  - exists [N.of_nat i]. assert (as_bytes [N.of_nat i] = [byte_of_N (N.of_nat i)]) as Hb.
    { unfold as_bytes. cbn [mbind list_bind]. unfold utf8_char. by rewrite (proj2 (N.ltb_lt (N.of_nat i) 128)) by lia. }
    rewrite <-Hb at 1. split; [|done]. apply from_utf8_as_bytes. repeat constructor. unfold is_scalar.
    destruct (N.ltb_spec (N.of_nat i) 55296); [done|lia].
  - unfold entry_from_slice. rewrite byte_to_of_N, N.mod_small, Nat2N.id by lia. by rewrite Hi.
Qed.
End table.

#[export] Instance PairingEnvelope_eq_dec {T} `{EqDecision T} : EqDecision (PairingEnvelope T).
Proof. solve_decision. Defined.
#[export] Instance RequestDto_eq_dec : EqDecision RequestDto.
Proof. solve_decision. Defined.
#[export] Instance ErrorCodeDto_eq_dec : EqDecision ErrorCodeDto.
Proof. solve_decision. Defined.
#[export] Instance ServerDto_eq_dec : EqDecision ServerDto.
Proof. solve_decision. Defined.

(** ** Values *)

Definition host_id_text : rstring := [v7 50].
Definition phone : rstring := [v7 51].
Definition pairing_id_text : rstring := [v7 52].
Definition fresh_texts (n : nat) : rstring := match n with 2 => pairing_id_text | _ => [v7 (53 + N.of_nat n)] end.
Definition secret : bytes32 := key_of Byte.x41.
Definition token_text : rstring := toy_encode (raw secret).
Definition relay_text : rstring := lit "relay.example.com:2333".

Definition store_path : Path := [lit "home"; lit "agentpulse"; lit "credentials.json"].

Definition record_0 : StoreRecord :=
  MkStoreRecord (Refine STORE_SCHEMA_VERSION I) host_id_text (lit "Studio") [v7 54] [v7 55] (lit "studio.agentpulse.local") []
    (MkCertificates (lit "ca") (lit "ca-key") (lit "leaf") (lit "leaf-key") 4102444800) [].
Definition record_1 : StoreRecord :=
  set_devices [MkDevice phone (lit "Phone") None (hex (raw (sha256 (as_bytes token_text)))) 1000] record_0.
Definition record_2 : StoreRecord := set_thread_list [[v7 4]] record_0.

Definition test_bundle : PairingBundle :=
  MkBundle (Refine 1%N I) pairing_id_text host_id_text (lit "Studio") (lit "studio.agentpulse.local") (lit "127.0.0.1")
    (Refine 4000%N I) (hex (raw (sha256 (as_bytes (lit "leaf"))))) token_text relay_text None 1120.

Definition test_request : PairingRequest := MkPairingRequest pairing_id_text token_text phone (lit "Phone") None.

Definition success_message : PairingServerMessage :=
  Pairing_Succeeded host_id_text (lit "Studio") (lit "ca") (lit "studio.agentpulse.local") (lit "127.0.0.1") (Refine 49320%N I)
    token_text (Refine 1%N I) [(Refine 2%N I : u16)].

(** ** Libraries *)

#[export] Instance pairing_json : PairingJson := {|
  uuid_error_text := λ _, lit "not a uuid";
  json_value_from_slice := λ bytes, b ← entry_from_slice [test_bundle] bytes; Ok (object (bundle_fields b));
  bundle_to_vec := entry_to_vec [test_bundle];
  bundle_from_slice := entry_from_slice [test_bundle];
  pair_request_to_vec := entry_to_vec [pairing_envelope (Dto_PairRequest pairing_id_text token_text phone (lit "Phone") None)];
  pair_request_from_slice := entry_from_slice [pairing_envelope (Dto_PairRequest pairing_id_text token_text phone (lit "Phone") None)];
  pair_server_to_vec := entry_to_vec (pairing_envelope ∘ server_to_dto <$> [Pairing_Pending phone (lit "Phone"); success_message]);
  pair_server_from_slice := entry_from_slice (pairing_envelope ∘ server_to_dto <$> [Pairing_Pending phone (lit "Phone"); success_message])
|}.

#[export] Instance pairing_json_ok : PairingJsonOk.
Proof.
  split; [|apply entry_json|apply entry_json]. intros b bytes Hb. apply entry_json in Hb as [_ Hb]. simpl.
  by rewrite Hb.
Qed.

#[export] Instance store_library : StoreLibrary := {|
  standard_encode := toy_encode;
  standard_decode := toy_decode;
  record_to_vec_pretty := entry_to_vec [record_0; record_1; record_2];
  record_from_slice := entry_from_slice [record_0; record_1; record_2];
  KeyPair := list Byte.byte;
  Certificate := CertificateParams;
  keypair_generate := λ n, Ok [byte_of_N (N.of_nat n)];
  keypair_try_from := Ok;
  serialize_der := id;
  subject_names_ok := λ _, Ok ();
  self_signed := λ params _, Ok params;
  signed_by := λ params _ _ _, Ok params;
  from_ca_cert_der := λ _, Err (lit "not a certificate");
  certificate_der := λ params, as_bytes (common_name params)
|}.

#[export] Instance store_library_ok : StoreLibraryOk.
Proof. split; [apply toy_decode_encode|]. intros r bytes Hr. by apply entry_json in Hr as [_ Hr]. Qed.

#[export] Instance store_draws : StoreDraws := {|
  clock_utc := λ _, 1000000000000%Z;
  random_bytes := λ _, secret;
  fresh_uuid := fresh_texts
|}.

#[export] Instance disk_faults : DiskFaults := {|
  fault := λ _, None;
  partial_write := λ _, 0;
  new_dir_mode := 493;
  temporary_name := λ n, [N.of_nat n]
|}.

#[export] Instance tls_library : TlsLibrary := {| server_config := λ _, Ok () |}.

(** The phone connects at once and sends its request. *)
#[export] Instance pairing_environment : PairingEnvironment := {|
  instant_now := N.of_nat;
  accept_answer := λ _, Ok true;
  read_answer := λ n, Ok (if (n =? 3)%nat then Read_Text [0%N] else Read_Closed);
  send_answer := λ _, Ok ();
  close_answer := λ _, Ok ();
  pairing_error_text := λ _, lit "error"
|}.

(** ** The run *)

Definition store_0 : StoreWorld :=
  MkStoreWorld (MkDisk {[ [lit "home"] := Fs_Dir 493; [lit "home"; lit "agentpulse"] := Fs_Dir private_dir_mode;
                          store_path := Fs_File [Byte.x00] private_file_mode ]} 0) 0.

Definition loopback_at (p : u16) : SocketAddr := MkSocketAddr (V4 127 0 0 1) p.

(** The session for the QR code, bound at the second [1000]. *)
Definition test_session : PairingSession :=
  MkSession store_path test_bundle (uri_prefix (Refine 1%N I) ++ [0%N]) (lit "127.0.0.1", (Refine 49320%N I : u16)) (Refine 1%N I)
    [(Refine 2%N I : u16)] SESSION_LIFETIME.

Definition serve_0 : ServeWorld := MkServe store_0 0 [].
Definition served_run : ServeWorld * result ServeStop PairingOutcome := serve_with_ready test_session (λ _, true) (λ _, Ok ()) 10 serve_0.

Lemma saved_0 : saved store_path store_0 record_0.
Proof. split; [exists [Byte.x00]; split; reflexivity|reflexivity]. Qed.

Lemma store_path_lock : store_path ≠ lock_path store_path.
Proof. discriminate. Qed.
Lemma store_path_temporary n : store_path ≠ temporary_of (removelast store_path) n.
Proof. discriminate. Qed.

Definition bound_run : StoreWorld * result PairingError PairingSession :=
  bind_relay store_path (loopback_at (Refine 0%N I)) (loopback_at (Refine 49320%N I)) relay_text (Refine 1%N I)
    [(Refine 2%N I : u16)] (Ok (loopback_at (Refine 4000%N I))) 0 store_0.

Example bound_run_bundle :
  match bound_run.2 with Ok session => bool_decide (bundle session = test_bundle) | Err _ => false end = true.
Proof. vm_compute. reflexivity. Qed.

(** *** Issue, upgrade, revoke *)

Definition issued_run : StoreWorld * StoreAnswer := run_store_op store_path (Store_Issue phone (lit "Phone") None) store_0.

Example issued_run_answer : (match issued_run.2 with Store_Token token => bool_decide (token = token_text) | _ => false end) = true.
Proof. vm_compute. reflexivity. Qed.
Lemma issued_run_token : issued_run = (issued_run.1, Store_Token token_text).
Proof.
  pose proof issued_run_answer as Ha. destruct issued_run as [w answer]. cbn [fst snd] in *.
  destruct answer; try discriminate Ha. by rewrite (proj1 (bool_decide_eq_true _) Ha).
Qed.
Lemma issued_log :
  run_store store_path [Store_Issue phone (lit "Phone") None] store_0 =
  (issued_run.1, [(Store_Issue phone (lit "Phone") None, Store_Token token_text)]).
Proof.
  assert (run_store_op store_path (Store_Issue phone (lit "Phone") None) store_0 = (issued_run.1, Store_Token token_text)) as E
    by exact issued_run_token.
  unfold run_store. rewrite E. exact eq_refl.
Qed.

Example issued_run_content :
  bool_decide (content store_path issued_run.1 = Some [Byte.x01]) = true.
Proof. vm_compute. reflexivity. Qed.
Lemma saved_1 : saved store_path issued_run.1 record_1.
Proof.
  split; [|vm_compute; reflexivity]. exists [Byte.x01]. split; [exact (proj1 (bool_decide_eq_true _) issued_run_content)|reflexivity].
Qed.

Definition revoked_run : StoreWorld * StoreAnswer := run_store_op store_path (Store_Revoke phone) issued_run.1.
Example revoked_run_answer : (match revoked_run.2 with Store_Done => true | _ => false end) = true.
Proof. vm_compute. reflexivity. Qed.
Lemma revoked_run_done : revoked_run = (revoked_run.1, Store_Done).
Proof.
  pose proof revoked_run_answer as Ha. destruct revoked_run as [w answer]. cbn [fst snd] in *. by destruct answer.
Qed.

Definition upgrade_request : HttpRequest :=
  MkHttpRequest (lit "/agentpulse/native") None
    [(lit "sec-websocket-protocol", Some (lit "other, agentpulse.native"));
     (lit "x-agentpulse-client-id", Some phone); (lit "authorization", Some (lit "Bearer " ++ token_text))].
Definition listener_config : TlsWebSocketConfig :=
  MkTlsConfig (loopback_at (Refine 0%N I)) false (lit "/agentpulse/native") (lit "agentpulse.native") (MkTlsIdentity [] [])
    (Some (file_authorizer store_path issued_run.1)) five_seconds hundred_millis DEFAULT_MAX_MESSAGE_BYTES.
Definition phone_socket : TlsWebSocket :=
  MkTlsSocket (loopback_at (Refine 1%N I)) DEFAULT_MAX_MESSAGE_BYTES (Some (phone, token_text)) (tls_authorizer listener_config).

Example upgrade_captures :
  (match upgrade_callback listener_config upgrade_request with
   | Ok captured => bool_decide (captured = Some (phone, token_text)) | Err _ => false end) = true.
Proof. vm_compute. reflexivity. Qed.
Lemma upgrade_accepted :
  tls_try_accept (λ _, []) listener_config (Incoming_Request (loopback_at (Refine 1%N I)) upgrade_request) = Ok (Some phone_socket).
Proof.
  pose proof upgrade_captures as Hc. unfold tls_try_accept. destruct (upgrade_callback listener_config upgrade_request) as [captured|];
    [|discriminate Hc]. by rewrite (proj1 (bool_decide_eq_true _) Hc).
Qed.

Example served_run_answer :
  (match served_run.2 with Ok o => bool_decide (outcome_client_id o = phone) && bool_decide (outcome_display_name o = lit "Phone")
   | Err _ => false end) = true.
Proof. vm_compute. reflexivity. Qed.
Lemma served_run_ok : served_run.2 = Ok (MkOutcome phone (lit "Phone")).
Proof.
  pose proof served_run_answer as Ha. destruct (served_run.2) as [[c d]|]; [|discriminate Ha].
  apply andb_true_iff in Ha as [Hc Hd]. simpl in Hc, Hd.
  by rewrite (proj1 (bool_decide_eq_true _) Hc), (proj1 (bool_decide_eq_true _) Hd).
Qed.

Lemma clock_runs : clock_advances.
Proof. intros limit. exists (N.to_nat limit). intros k Hk. simpl. lia. Qed.

Lemma credential_1 : credential record_1 phone = Some (sha256 (as_bytes token_text)).
Proof. exact (decode_hex_32_hex (sha256 (as_bytes token_text))). Qed.
