(* ===== verification/PairingTheorems.v ===== *)
(** * Properties of pairing and of the transport

    The theorems about QR codes, the credential store, the pairing server and
    the upgrade of the TLS listener, each with a run on which its hypotheses
    hold. *)

From stdpp Require Import base strings numbers sorting gmap list.
From S2P Require Import Prelude Bytes Json Values Dto Net Examples RelayProtocol RelaySpec RelayServer RelayRuns.
From S2P Require Import Transport PairingProtocol Platform.
From S2P Require Import PairingStore PairingStoreSpec PairingServer PairingServerSpec PairingRuns.

(** ** QR codes *)

Section protocol.
Context `{Externals} `{RelayExternals} `{!RelayExternalsOk} `{PairingJson} `{!PairingJsonOk}.

(** The QR code of a bound session is read back as its bundle for two minutes of
    the Host's clock, and refused from then on; without an explicit public
    endpoint the session listens on loopback only. *)
Theorem pairing_qr_roundtrip `{StoreLibrary} `{StoreDraws} `{DiskFaults} `{TlsLibrary}
    path address native relay direct version versions system now w w' session :
  bind_inner path address native relay direct version versions system now w = (w', Ok session) →
  (∃ n, let limit := (unix_timestamp (clock_utc n) + 120)%Z in ∀ wall,
     decode_pairing_uri wall (pairing_uri session) =
       if (limit <=? wall)%Z then Err (invalid "expires_at_unix_seconds" "pairing session expired")
       else Ok (bundle session)) ∧
  (direct = None → is_loopback (socket_ip address) = true).
Proof using All.
  intros (Huri & (n & Hn) & _ & Hl)%bind_inner_Ok. split; [|done]. exists n. intros limit wall.
  rewrite (decode_to_uri _ _ wall Huri). by rewrite Hn.
Qed.

(** A QR code carries a relay endpoint exactly when the relay can read it and
    would write its host the same way. *)
Theorem pairing_relay_endpoint s :
  validate_relay_endpoint s = Ok () ↔
  trim s = s ∧ ∃ e port, RelayEndpoint_from_str s = Ok e ∧ rsplit_once 58 s = Some (endpoint_host e, port).
Proof using Type. apply validate_relay_endpoint_Ok. Qed.

(** What one side writes, the other reads; what is read is valid. *)
Theorem pairing_messages_roundtrip :
  (∀ request bytes, encode_pairing_request request = Ok bytes → decode_pairing_request bytes = Ok request) ∧
  (∀ message bytes, encode_pairing_message message = Ok bytes → decode_pairing_message bytes = Ok message) ∧
  (∀ bytes request, decode_pairing_request bytes = Ok request → validate_request request = Ok ()) ∧
  (∀ bytes message, decode_pairing_message bytes = Ok message → validate_server_message message = Ok ()).
Proof using All.
  split_and!; [apply request_round_trip|apply message_round_trip|apply decode_pairing_request_valid|apply decode_pairing_message_valid].
Qed.
End protocol.

Lemma pairing_qr_roundtrip_witness :
  ∃ session, bundle session = test_bundle ∧ ∃ n, ∀ wall,
    decode_pairing_uri wall (pairing_uri session) =
      if (unix_timestamp (clock_utc n) + 120 <=? wall)%Z then Err (invalid "expires_at_unix_seconds" "pairing session expired")
      else Ok (bundle session).
Proof.
  pose proof bound_run_bundle as Hb. destruct bound_run as [w' [session|e]] eqn:E; [|discriminate Hb].
  exists session. split; [exact (proj1 (bool_decide_eq_true _) Hb)|].
  exact (proj1 (pairing_qr_roundtrip _ _ _ _ _ _ _ _ _ _ _ _ E)).
Defined.

Lemma pairing_messages_roundtrip_witness : decode_pairing_request [Byte.x00] = Ok test_request.
Proof. apply (proj1 pairing_messages_roundtrip). vm_compute. reflexivity. Defined.

(** ** Private files *)

(** C21: whatever fails, a private file keeps its content or holds exactly the new
    bytes with private permissions; a success is the latter. *)
Theorem private_write_atomic `{DiskFaults} path bytes d d' r :
  (∀ n, path ≠ temporary_of (removelast path) n) → atomic_write_private path bytes d = (d', r) →
  (is_ok r = false ∧ file_at path d' = file_at path d) ∨ entries d' !! path = Some (Fs_File bytes private_file_mode).
Proof. apply atomic_write_cases. Qed.

Lemma private_write_atomic_witness :
  let '(d', r) := atomic_write_private store_path [Byte.x01] (disk store_0) in
  (is_ok r = false ∧ file_at store_path d' = file_at store_path (disk store_0))
  ∨ entries d' !! store_path = Some (Fs_File [Byte.x01] private_file_mode).
Proof.
  destruct (atomic_write_private _ _ _) as [d' r] eqn:E.
  apply (private_write_atomic _ _ _ _ _ store_path_temporary E).
Defined.

(** ** The credential store *)

Section store.
Context `{Externals} `{RelayExternals} `{PairingJson} `{StoreLibrary} `{!StoreLibraryOk} `{StoreDraws} `{DiskFaults}.
Context (path : Path).
Hypothesis path_lock : path ≠ lock_path path.
Hypothesis path_temporary : ∀ n, path ≠ temporary_of (removelast path) n.

(** C11: whatever fails on the way, an operation on the store leaves a valid record of
    the same Host in the file, and its credentials are those the operation
    promises: as before, or a map update. *)
Theorem store_refines_map op w r w' answer :
  saved path w r → run_store_op path op w = (w', answer) → ∃ r', saved path w' r' ∧ refined r op answer r'.
Proof using All. by apply store_refines. Qed.

(** The authorizer of the file answers by the credentials in it. *)
Lemma file_authorizer_true w r client token :
  saved path w r → file_authorizer path w client token = true → credential r client = Some (sha256 (as_bytes token)).
Proof using path_lock.
  intros Hs. unfold file_authorizer, authorize. destruct (load_record path w) as [w1 [r1|]] eqn:El; [|done]. simpl.
  apply load_record_Ok in El; [|done]. rewrite (saved_unique _ _ _ _ El Hs), authorize_record_credential.
  apply bool_decide_eq_true.
Qed.


(** A connection of a revoked client is no longer authorized, unless a token is
    issued to that client again. *)
Theorem revoked_client_disconnected socket client token w r w1 ops w2 log :
  saved path w r → credentials socket = Some (client, token) →
  run_store_op path (Store_Revoke client) w = (w1, Store_Done) → run_store path ops w1 = (w2, log) →
  (∀ name version answer, (Store_Issue client name version, answer) ∉ log) →
  remains_authorized (Some (file_authorizer path w2)) socket = false.
Proof using All.
  intros Hs Hsock Hop Hrun Hno. unfold remains_authorized. rewrite Hsock. apply not_true_iff_false. intros Ha.
  destruct (store_refines path path_lock path_temporary _ w r w1 _ Hs Hop) as (r1 & Hs1 & _ & He).
  destruct He as [[? _]|[_ He]]; [done|].
  destruct (run_store_spec path path_lock path_temporary ops w1 r1 w2 log Hs1 Hrun) as (r2 & Hs2 & _ & Hcred).
  destruct (proj2 (Hcred client) _ (file_authorizer_true _ _ _ _ Hs2 Ha)) as [[Hc _]|Hg].
  - rewrite He, decide_True in Hc; done.
  - destruct Hg as (before & name & version & answer & after & -> & _). apply (Hno name version answer). set_solver.
Qed.

(** A token that was issued is accepted whenever the file can be read, until the
    client is revoked, another token is issued to it or all are rotated. *)
Theorem issued_token_accepted w r w1 client name version token ops w2 log :
  saved path w r → run_store_op path (Store_Issue client name version) w = (w1, Store_Token token) →
  run_store path ops w1 = (w2, log) → Forall (λ e, concerns client e.1 = false) log →
  is_ok (load_record path w2).2 = true → file_authorizer path w2 client token = true.
Proof using All.
  intros Hs Hop Hrun Hlog Hload.
  destruct (issued_standing path path_lock path_temporary w r w1 client name version token ops w2 log Hs Hop Hrun Hlog) as (r2 & Hs2 & Hc).
  unfold file_authorizer, authorize. destruct (load_record path w2) as [w3 [r3|]] eqn:El; [|done]. simpl.
  apply load_record_Ok in El; [|done]. rewrite (saved_unique _ _ _ _ El Hs2), authorize_record_credential.
  by apply bool_decide_eq_true.
Qed.
End store.

(** The store before and after the phone is issued its token. *)
Lemma store_refines_map_witness :
  ∃ r', saved store_path (issued_run.1) r' ∧ refined record_0 (Store_Issue phone (lit "Phone") None) (Store_Token token_text) r'.
Proof.
  apply (store_refines_map store_path store_path_lock store_path_temporary (Store_Issue phone (lit "Phone") None) store_0 record_0
    issued_run.1 (Store_Token token_text) saved_0). exact issued_run_token.
Defined.


Lemma revoked_client_disconnected_witness :
  remains_authorized (Some (file_authorizer store_path revoked_run.1)) phone_socket = false.
Proof.
  apply (revoked_client_disconnected store_path store_path_lock store_path_temporary phone_socket phone token_text issued_run.1 record_1
    revoked_run.1 [] revoked_run.1 []); [exact saved_1|reflexivity|exact revoked_run_done|reflexivity|].
  intros ? ? ?. apply not_elem_of_nil.
Defined.

Lemma issued_token_accepted_witness : file_authorizer store_path issued_run.1 phone token_text = true.
Proof.
  apply (issued_token_accepted store_path store_path_lock store_path_temporary store_0 record_0 issued_run.1 phone (lit "Phone") None
    token_text [] issued_run.1 []); [exact saved_0|exact issued_run_token|reflexivity|constructor|vm_compute; reflexivity].
Defined.

(** ** The pairing server *)

Section server.
Context `{Externals} `{RelayExternals} `{PairingJson} `{StoreLibrary} `{!StoreLibraryOk} `{StoreDraws} `{DiskFaults}.
Context `{PairingEnvironment}.
Context (session : PairingSession) (approve : PairingRequest → bool) (ready : rstring → result PairingError unit).

(** Whatever the network and the clock do, the conversation of a session follows
    the automaton [phase_step]: at most five clients are refused, the user is
    asked once, a token is handed over only after the user agreed and the
    transport was ready, and nothing follows the last close. *)
Theorem pairing_conversation fuel w w' result :
  serve_trace w = [] → serve_with_ready session approve ready fuel w = (w', result) →
  is_Some (phases (Phase_Waiting 0) (serve_trace w')).
Proof using Type.
  intros Ht Hrun.
  destruct (does_serve_loop session approve ready fuel 0 0 (serve_store w) ltac:(done) ltac:(unfold MAX_ATTEMPTS; lia) w w' result eq_refl Hrun)
    as (_ & t & -> & Hf & _). by rewrite Ht.
Qed.

(** C7: A session changes the credentials of at most one client.  If it changes
    any, a text came from the socket that decodes to a request of that client
    with the identifier and the secret of the QR code (up to a collision of the
    hash), that client was told to wait, the user approved this very request, and
    the time read after the approval was before the expiry of the session.  A
    success means that the token it delivered is the client's credential. *)
Theorem pairing_credentials fuel w w' r result :
  session_store session ≠ lock_path (session_store session) →
  (∀ n, session_store session ≠ temporary_of (removelast (session_store session)) n) →
  saved (session_store session) (serve_store w) r → serve_with_ready session approve ready fuel w = (w', result) →
  ∃ r', saved (session_store session) (serve_store w') r' ∧ identity_of r' = identity_of r ∧
    ((∀ c, credential r' c = credential r c) ∨
     ∃ text request now t1 t2,
       serve_trace w' = serve_trace w ++ t1 ++ [Event_Received text] ++ approval_of request now ++ t2 ∧
       decode_pairing_request (as_bytes text) = Ok request ∧ matching session request ∧ approve request = true ∧
       (now < expires_at session)%N ∧ ∀ c, c ≠ client_id request → credential r' c = credential r c) ∧
    (∀ outcome, result = Ok outcome → ∃ token, ready token = Ok () ∧ delivered token (serve_trace w') ∧
       credential r' (outcome_client_id outcome) = Some (sha256 (as_bytes token))).
Proof using All.
  intros Hlock Htemp Hs Hrun.
  destruct (does_serve_loop session approve ready fuel 0 0 (serve_store w) ltac:(done) ltac:(unfold MAX_ATTEMPTS; lia) w w' result eq_refl Hrun)
    as (_ & t & -> & _ & [[-> Hr]|(text & request & t1 & t2 & -> & Hdec & Hm & Hans)]).
  { exists r. split_and!; [done..|by left|]. by intros outcome ->. }
  destruct (answered_effect session approve ready r Hlock Htemp request (serve_store w) (serve_store w') t2 result Hs Hans)
    as (r' & Hs' & Hid & Hc & Hok). exists r'. split_and!; [done..| |].
  - destruct Hc as [Hc|(Happ & (now & t' & -> & Htime) & Hc)]; [by left|]. right. by exists text, request, now, t1, t'.
  - intros outcome Ho. destruct (Hok outcome Ho) as (-> & token & Hready & Hd & Hcred). exists token. split_and!; [done| |done].
    destruct Hd as (a & b & c & d & e & f & g & h & Hin). exists a, b, c, d, e, f, g, h.
    rewrite !elem_of_app. by right; right; right.
Qed.

(** C28: if the clock passes every instant, the session ends, whatever the clients do. *)
Theorem pairing_terminates w :
  clock_advances → ∃ fuel w' result, result ≠ Err Serve_Running ∧
    ∀ more, fuel ≤ more → serve_with_ready session approve ready more w = (w', result).
Proof using Type. intros Hclock. by apply ends_serve_loop. Qed.
End server.

Lemma pairing_conversation_witness : is_Some (phases (Phase_Waiting 0) (serve_trace served_run.1)).
Proof.
  apply (pairing_conversation test_session (λ _, true) (λ _, Ok ()) 10 serve_0 served_run.1 served_run.2); [reflexivity|].
  exact (surjective_pairing served_run).
Defined.

Lemma pairing_credentials_witness :
  ∃ r', saved store_path (serve_store served_run.1) r' ∧
    ∃ token, delivered token (serve_trace served_run.1) ∧ credential r' phone = Some (sha256 (as_bytes token)).
Proof.
  destruct (pairing_credentials test_session (λ _, true) (λ _, Ok ()) 10 serve_0 served_run.1 record_0 served_run.2
    store_path_lock store_path_temporary saved_0 (surjective_pairing served_run)) as (r' & Hs & _ & _ & Hok).
  exists r'. split; [exact Hs|].
  destruct (Hok (MkOutcome phone (lit "Phone")) served_run_ok) as (token & _ & Hd & Hc). exists token. split; [exact Hd|exact Hc].
Defined.

Lemma pairing_terminates_witness :
  ∃ fuel w' result, result ≠ Err Serve_Running ∧
    ∀ more, fuel ≤ more → serve_with_ready test_session (λ _, true) (λ _, Ok ()) more serve_0 = (w', result).
Proof. apply (pairing_terminates test_session (λ _, true) (λ _, Ok ()) serve_0). exact clock_runs. Defined.

(** ** Close frames *)

(** The reason of a close frame is the longest prefix of it that fits into 123 bytes. *)
Theorem close_reason_longest reason :
  let kept := truncate_close_reason reason in
  byte_len kept ≤ 123 ∧ kept `prefix_of` reason ∧ ∀ s, s `prefix_of` reason → byte_len s ≤ 123 → s `prefix_of` kept.
Proof.
  pose proof (drop_until_short_spec (reverse reason)) as Hspec. simpl in *. by rewrite reverse_involutive in Hspec.
Qed.
