(* ===== verification/HostRelay.v ===== *)
(** * The Host program: its relay connections and direct endpoints

    Models, of [agentpulse-host/src/main.rs], the relay settings, the routes of
    the paired devices and the supervisor that keeps a connection per device
    ([spawn_relay_connector_with]) with the state it shares with its workers;
    and [agentpulse-host/src/direct.rs].  The threads are interleaved in the
    steps between which they can observe each other. *)

From stdpp Require Import base strings numbers sorting gmap list.
From S2P Require Import Prelude Bytes Json Values Dto Net RelayProtocol RelayClient Transport PairingProtocol.
From S2P Require Import Platform PairingStore.

(** [Box<dyn Error>] *)
Inductive AppError : Type :=
| App_Pairing (error : PairingError)
| App_Relay (error : RelayError)
| App_Io (error : rstring)
| App_Json (error : rstring)
| App_Port
| App_Text (text : rstring).

(** ** Relay settings *)

Definition RELAY_HOST_CONFIG_SCHEMA_VERSION : N := 1.

Record RelayHostConfigRecord : Type := MkRelayConfig {
  config_schema_version : u16;
  config_endpoint : RelayEndpoint;
  config_enrollment_token : rstring
}.

Record RelayHostSettings : Type := MkRelaySettings {
  settings_endpoint : RelayEndpoint;
  settings_enrollment_token : rstring
}.

(** ** Direct endpoints (direct.rs) *)

Record DirectEndpoint : Type := MkDirectEndpoint { direct_host : rstring; direct_port : u16 }.

Record DirectSettings : Type := MkDirectSettings {
  direct_schema_version : u16;
  direct_bind : IpAddr;
  direct_native_port : u16;
  direct_pairing_port : u16;
  native_endpoint : DirectEndpoint;
  pairing_endpoint : DirectEndpoint
}.

(** [serde_json] on the two files, and the texts of errors. *)
Class HostJson : Type := {
  relay_config_to_vec : RelayHostConfigRecord → result rstring (list Byte.byte);
  relay_config_from_slice : list Byte.byte → result rstring RelayHostConfigRecord;
  direct_to_vec : DirectSettings → result rstring (list Byte.byte);
  direct_from_slice : list Byte.byte → result rstring DirectSettings;
  app_error_text : AppError → rstring;
  relay_error_text : RelayError → rstring
}.

Class HostJsonOk `{HostJson} : Prop := {
  relay_config_json : ∀ r bytes, relay_config_to_vec r = Ok bytes → relay_config_from_slice bytes = Ok r;
  direct_json : ∀ r bytes, direct_to_vec r = Ok bytes → direct_from_slice bytes = Ok r
}.

Section host.
Context `{Externals} `{RelayExternals} `{PairingJson} `{StoreLibrary} `{StoreDraws} `{DiskFaults} `{HostJson}.

Abbreviation hosting A := (act Disk AppError A).

Definition on_host {A} (a : act Disk rstring A) : hosting A := λ d,
  let '(d', r) := a d in (d', map_err App_Io r).

(** [Err(error) if error.kind() == NotFound => return Ok(None)] *)
Definition unless_missing {A} (a : act Disk rstring A) (next : A → hosting (option RelayHostSettings)) :
    hosting (option RelayHostSettings) := λ d,
  match a d with
  | (d', Ok x) => next x d'
  | (d', Err e) => if bool_decide (e = not_found) then (d', Ok None) else (d', Err (App_Io e))
  end.

Definition load_relay_settings (path : Path) (host_id : rstring) : hosting (option RelayHostSettings) :=
  unless_missing (protect_file path) (λ _,
    unless_missing (fs_read path) (λ bytes,
      record ← lift (map_err App_Json (relay_config_from_slice bytes));
      if negb (raw (config_schema_version record) =? RELAY_HOST_CONFIG_SCHEMA_VERSION)%N
      then throw (App_Text (lit "unsupported Relay Host configuration schema "
                              ++ display_u64 (raw (config_schema_version record))))
      else
        _ ← lift (map_err App_Relay (RelayHostConnectionConfig_new (config_endpoint record) host_id
                    (config_enrollment_token record) (Refine 1%N I)));
        mret (Some (MkRelaySettings (config_endpoint record) (config_enrollment_token record))))).

Definition save_relay_settings (path : Path) (endpoint : RelayEndpoint) (token : rstring) : hosting unit :=
  bytes ← lift (map_err App_Json (relay_config_to_vec
            (MkRelayConfig (Refine RELAY_HOST_CONFIG_SCHEMA_VERSION I) endpoint token)));
  on_host (atomic_write_private path bytes).

(** ** The routes of the paired devices *)

Definition relay_routes (path : Path) (endpoint : RelayEndpoint) : act StoreWorld AppError (list RouteRegistration) :=
  digests ← (λ w, let '(w', r) := device_credential_digests path w in (w', map_err App_Pairing r));
  routes ← lift (map_err App_Relay (try_collect (λ device : DeviceCredentialDigest,
    route ← derive_route (token_digest device) endpoint; Ok (registration route)) digests));
  mret (sort_routes routes).

(** ** Direct endpoints *)

Definition DirectEndpoint_validate (e : DirectEndpoint) : result AppError unit :=
  _ ← map_err App_Pairing (validate_direct_host (direct_host e));
  if (raw (direct_port e) =? 0)%N then Err (App_Text (lit "public port must be non-zero")) else Ok ().

Definition DirectEndpoint_parse (value : rstring) : result AppError DirectEndpoint :=
  '(host, port) ←
    match strip_prefix (lit "[") value with
    | Some rest => ok_or (App_Text (lit "IPv6 endpoint must use [address]:port")) (split_once (lit "]:") rest)
    | None =>
        pair ← ok_or (App_Text (lit "endpoint must use host:port")) (rsplit_once 58 value);
        if bool_decide (58%N ∈ pair.1) then Err (App_Text (lit "IPv6 endpoint must use [address]:port")) else Ok pair
    end;
  port ← ok_or App_Port (u16_from_str port);
  let endpoint := MkDirectEndpoint (to_ascii_lowercase host) port in
  _ ← DirectEndpoint_validate endpoint;
  Ok endpoint.

Definition direct_tuple (e : DirectEndpoint) : rstring * u16 := (direct_host e, direct_port e).

Definition DirectSettings_validate (s : DirectSettings) : result AppError unit :=
  if negb (raw (direct_schema_version s) =? 1)%N || is_multicast (direct_bind s) || is_unspecified (direct_bind s)
     || is_loopback (direct_bind s)
  then Err (App_Text (lit "direct configuration requires version 1 and a concrete non-loopback unicast bind IP"))
  else if (raw (direct_native_port s) =? 0)%N || (raw (direct_pairing_port s) =? 0)%N
          || (raw (direct_native_port s) =? raw (direct_pairing_port s))%N
  then Err (App_Text (lit "direct native and pairing ports must be non-zero and distinct"))
  else
    _ ← DirectEndpoint_validate (native_endpoint s);
    _ ← DirectEndpoint_validate (pairing_endpoint s);
    if bool_decide (direct_host (native_endpoint s) = direct_host (pairing_endpoint s))
       && (raw (direct_port (native_endpoint s)) =? raw (direct_port (pairing_endpoint s)))%N
    then Err (App_Text (lit "public native and pairing endpoints must be distinct")) else Ok ().

Definition pairing_bind (s : DirectSettings) : SocketAddr := MkSocketAddr (direct_bind s) (direct_pairing_port s).

(** [load], [run] with [Configure] and [Disable], on the file [direct.json]. *)
Definition direct_load (path : Path) : hosting (option DirectSettings) := λ d,
  match fs_read path d with
  | (d', Ok bytes) =>
      (settings ← lift (map_err App_Json (direct_from_slice bytes));
       _ ← lift (DirectSettings_validate settings);
       mret (Some settings)) d'
  | (d', Err e) => if bool_decide (e = not_found) then (d', Ok None) else (d', Err (App_Io e))
  end.

Definition direct_configure (path : Path) (bind : IpAddr) (native_port pairing_port : u16)
    (native pairing : rstring) : hosting unit :=
  native ← lift (DirectEndpoint_parse native);
  pairing ← lift (DirectEndpoint_parse pairing);
  let settings := MkDirectSettings (Refine 1%N I) bind native_port pairing_port native pairing in
  _ ← lift (DirectSettings_validate settings);
  bytes ← lift (map_err App_Json (direct_to_vec settings));
  on_host (atomic_write_private path bytes).

Definition direct_disable (path : Path) : hosting unit := λ d,
  match remove_file path d with
  | (d', Ok _) => (d', Ok ())
  | (d', Err e) => if bool_decide (e = not_found) then (d', Ok ()) else (d', Err (App_Io e))
  end.

(** ** The state of the relay connections *)

Record RelayRuntimeSnapshot : Type := MkRuntime {
  ready_routes : list rstring;
  relay_health : string;
  relay_last_error : option rstring
}.

Definition RelayRuntimeState_new (initial_health : string) : RelayRuntimeSnapshot := MkRuntime [] initial_health None.

Definition runtime_update (health : string) (last_error : option rstring) (r : RelayRuntimeSnapshot) : RelayRuntimeSnapshot :=
  MkRuntime [] health last_error.

Definition push_route (routes : list rstring) (route : RouteRegistration) : list rstring :=
  if bool_decide (route_id route ∈ routes) then routes else routes ++ [route_id route].
Definition runtime_ready (routes : list RouteRegistration) (r : RelayRuntimeSnapshot) : RelayRuntimeSnapshot :=
  MkRuntime (foldl push_route (ready_routes r) routes) "waiting_or_tunneling" None.

Definition runtime_unready (id : rstring) (error : option rstring) (r : RelayRuntimeSnapshot) : RelayRuntimeSnapshot :=
  let routes := List.filter (λ id', negb (bool_decide (id' = id))) (ready_routes r) in
  MkRuntime routes (if is_empty routes then "refreshing" else relay_health r) error.

(** ** The supervisor and its workers *)

Definition backoff_seconds : list N := [1; 2; 5; 10; 30]%N.

(** Where a device's worker stands: at its loop condition; in [connect] before
    the relay has confirmed that the route waits; in the callback between the
    check of its flag and [ready]; in [connect] after the callback, which is taken
    once; back from [connect], which the relay had confirmed or not; after
    [unready]; in its sleep; finished. *)
Inductive WorkerPhase : Type :=
| Worker_Top (backoff : nat)
| Worker_Connecting (backoff : nat)
| Worker_Announcing (backoff : nat)
| Worker_Waiting (backoff : nat)
| Worker_Returned (backoff : nat) (confirmed : bool) (outcome : result RelayError unit)
| Worker_Reported (backoff : nat) (outcome : result RelayError unit)
| Worker_Sleeping (backoff : nat) (delay : N)
| Worker_Finished.

Record Worker : Type := MkWorker {
  worker_route : RouteRegistration;
  worker_stop : bool;
  worker_phase : WorkerPhase
}.

(** Where the supervisor stands: at its loop condition, stopping the workers of
    missing routes, collecting the finished ones, starting workers, joining. *)
Inductive SupervisorPhase : Type :=
| Sup_Top
| Sup_Retiring (routes : list RouteRegistration) (remaining : list rstring)
| Sup_Collecting (routes : list RouteRegistration) (remaining : list rstring)
| Sup_Empty (routes : list RouteRegistration)
| Sup_Starting (routes remaining : list RouteRegistration)
| Sup_Joining (remaining : list rstring)
| Sup_Stopped.

Record RelaySupervisor : Type := MkSupervisor {
  runtime : RelayRuntimeSnapshot;
  workers : gmap rstring Worker;
  stop_flag : bool;
  supervisor : SupervisorPhase
}.

Definition set_runtime (r : RelayRuntimeSnapshot) (s : RelaySupervisor) : RelaySupervisor :=
  MkSupervisor r (workers s) (stop_flag s) (supervisor s).
Definition set_workers (m : gmap rstring Worker) (s : RelaySupervisor) : RelaySupervisor :=
  MkSupervisor (runtime s) m (stop_flag s) (supervisor s).
Definition set_supervisor (p : SupervisorPhase) (s : RelaySupervisor) : RelaySupervisor :=
  MkSupervisor (runtime s) (workers s) (stop_flag s) p.
Definition set_phase (p : WorkerPhase) (w : Worker) : Worker := MkWorker (worker_route w) (worker_stop w) p.
Definition set_worker_stop (w : Worker) : Worker := MkWorker (worker_route w) true (worker_phase w).

(** What happens next: the owner raises the flag, the supervisor moves (with the
    answer of [relay_routes] when it scans), or a worker moves (with what
    [connect] does: the relay confirms with [Waiting], or [connect] returns). *)
Inductive ConnectEvent : Type :=
| Connect_Waiting
| Connect_Returned (outcome : result RelayError unit).

Inductive SupervisorAction : Type :=
| Act_Stop
| Act_Scan (answer : result AppError (list RouteRegistration))
| Act_Supervise
| Act_Work (id : rstring) (event : ConnectEvent).

(** After [connect]: an error other than a change of the routes delays the next
    attempt, and [Stopped] ends the worker. *)
Definition after_report (backoff : nat) (outcome : result RelayError unit) : WorkerPhase :=
  match outcome with
  | Ok _ | Err Relay_RoutesChanged => Worker_Top 0
  | Err Relay_Stopped => Worker_Finished
  | Err _ =>
      Worker_Sleeping (Nat.min (backoff + 1) (length backoff_seconds - 1)) (nth backoff backoff_seconds 0%N)
  end.

Definition work (event : ConnectEvent) (w : Worker) (r : RelayRuntimeSnapshot) : Worker * RelayRuntimeSnapshot :=
  match worker_phase w with
  | Worker_Top backoff =>
      (set_phase (if worker_stop w then Worker_Finished else Worker_Connecting backoff) w, r)
  | Worker_Connecting backoff =>
      match event with
      | Connect_Waiting => (set_phase (if worker_stop w then Worker_Waiting backoff else Worker_Announcing backoff) w, r)
      | Connect_Returned outcome => (set_phase (Worker_Returned backoff false outcome) w, r)
      end
  | Worker_Announcing backoff => (set_phase (Worker_Waiting backoff) w, runtime_ready [worker_route w] r)
  | Worker_Waiting backoff =>
      match event with
      | Connect_Waiting => (w, r)
      | Connect_Returned outcome => (set_phase (Worker_Returned backoff true outcome) w, r)
      end
  | Worker_Returned backoff _ outcome =>
      (set_phase (Worker_Reported backoff outcome) w,
       runtime_unready (route_id (worker_route w))
         (match outcome with Ok _ => None | Err e => Some (relay_error_text e) end) r)
  | Worker_Reported backoff outcome => (set_phase (after_report backoff outcome) w, r)
  | Worker_Sleeping backoff _ => (set_phase (Worker_Top backoff) w, r)
  | Worker_Finished => (w, r)
  end.

Definition is_finished (w : Worker) : bool := match worker_phase w with Worker_Finished => true | _ => false end.
Definition has_route (id : rstring) (routes : list RouteRegistration) : bool :=
  existsb (λ route, bool_decide (route_id route = id)) routes.

Definition MAX_WORKERS : nat := 32.

(** One move of the supervisor that needs no answer. *)
Definition supervise (s : RelaySupervisor) : option RelaySupervisor :=
  match supervisor s with
  | Sup_Top =>
      if stop_flag s
      then Some (set_supervisor (Sup_Joining (elements (dom (workers s)))) (set_workers (set_worker_stop <$> workers s) s))
      else None
  | Sup_Retiring routes (id :: remaining) =>
      let s' := set_supervisor (Sup_Retiring routes remaining) s in
      Some (if has_route id routes then s'
            else set_runtime (runtime_unready id None (runtime s)) (set_workers (alter set_worker_stop id (workers s)) s'))
  | Sup_Retiring routes [] =>
      Some (set_supervisor (Sup_Collecting routes (elements (dom (filter (λ p, is_finished p.2 = true) (workers s))))) s)
  | Sup_Collecting routes (id :: remaining) =>
      Some (set_supervisor (Sup_Collecting routes remaining) (set_workers (delete id (workers s)) s))
  | Sup_Collecting routes [] => Some (set_supervisor (Sup_Empty routes) s)
  | Sup_Empty routes =>
      Some (set_supervisor (Sup_Starting routes routes)
              (if is_empty routes then set_runtime (runtime_update "waiting_for_device" None (runtime s)) s else s))
  | Sup_Starting routes (route :: remaining) =>
      let s' := set_supervisor (Sup_Starting routes remaining) s in
      Some (if bool_decide (is_Some (workers s !! route_id route)) || (MAX_WORKERS <=? size (workers s))%nat then s'
            else set_workers (<[route_id route := MkWorker route false (Worker_Top 0)]> (workers s)) s')
  | Sup_Starting routes [] => Some (set_supervisor Sup_Top s)
  | Sup_Joining (id :: remaining) =>
      match workers s !! id with
      | Some w => if is_finished w then Some (set_supervisor (Sup_Joining remaining) s) else None
      | None => Some (set_supervisor (Sup_Joining remaining) s)
      end
  | Sup_Joining [] => Some (set_supervisor Sup_Stopped (set_runtime (runtime_update "stopped" None (runtime s)) s))
  | Sup_Stopped => None
  end.

Definition supervisor_act (a : SupervisorAction) (s : RelaySupervisor) : option RelaySupervisor :=
  match a with
  | Act_Stop => Some (MkSupervisor (runtime s) (workers s) true (supervisor s))
  | Act_Scan answer =>
      match supervisor s with
      | Sup_Top =>
          if stop_flag s then None
          else match answer with
               | Ok routes => Some (set_supervisor (Sup_Retiring routes (elements (dom (workers s)))) s)
               | Err e => Some (set_runtime (runtime_update "retrying" (Some (app_error_text e)) (runtime s)) s)
               end
      | _ => None
      end
  | Act_Supervise => supervise s
  | Act_Work id event =>
      w ← workers s !! id;
      let '(w', r) := work event w (runtime s) in
      Some (set_runtime r (set_workers (<[id := w']> (workers s)) s))
  end.

(** The start of the supervisor's thread: a bad configuration ends it. *)
Definition supervisor_start (initial_health : string) (settings : RelayHostSettings) (host_id : rstring) (native_port : u16) :
    RelaySupervisor :=
  match RelayHostConnectionConfig_new (settings_endpoint settings) host_id (settings_enrollment_token settings) native_port with
  | Ok _ => MkSupervisor (RelayRuntimeState_new initial_health) ∅ false Sup_Top
  | Err e => MkSupervisor (runtime_update "failed" (Some (relay_error_text e)) (RelayRuntimeState_new initial_health)) ∅ false
               Sup_Stopped
  end.

Fixpoint supervisor_run (actions : list SupervisorAction) (s : RelaySupervisor) : option RelaySupervisor :=
  match actions with
  | [] => Some s
  | a :: actions' => s' ← supervisor_act a s; supervisor_run actions' s'
  end.
End host.
