(* ===== verification/HostRelaySpec.v ===== *)
(** * The Host program: correctness of the relay supervisor

    Whatever the threads and the relay do, the routes reported as ready belong
    to a connection the relay has confirmed, workers are bounded, and a stopped supervisor has
    none left. *)

From stdpp Require Import base strings numbers sorting gmap list.
From S2P Require Import Prelude Bytes Json Values Dto Net RelayProtocol RelaySpec RelayClient Transport PairingProtocol.
From S2P Require Import PairingProtocol Platform PairingStore PairingStoreSpec HostRelay.

(** A worker whose connection the relay has confirmed and whose end the worker has
    not reported yet: a worker that still dials is not connected, and one that is
    back from [connect] is for one more step, in which it withdraws its route. *)
Definition connected (p : WorkerPhase) : bool :=
  match p with Worker_Waiting _ => true | Worker_Returned _ confirmed _ => confirmed | _ => false end.

(** The backoff that a worker carries. *)
Definition backoff_of (p : WorkerPhase) : nat :=
  match p with
  | Worker_Top b | Worker_Connecting b | Worker_Announcing b | Worker_Waiting b | Worker_Returned b _ _ | Worker_Reported b _
  | Worker_Sleeping b _ => b
  | Worker_Finished => 0
  end.

Section host.
Context `{HostJson}.
Implicit Types (s : RelaySupervisor) (w : Worker) (m : gmap rstring Worker) (r : RelayRuntimeSnapshot).

(** The routes reported as ready. *)
Definition reported r m : Prop :=
  NoDup (ready_routes r) ∧ ∀ id, id ∈ ready_routes r → ∃ w, m !! id = Some w ∧ connected (worker_phase w) = true.

Definition worker_ok (id : rstring) w : Prop :=
  route_id (worker_route w) = id ∧ backoff_of (worker_phase w) < length backoff_seconds.

(** What the supervisor knows at its place. *)
Definition knows (p : SupervisorPhase) m : Prop :=
  match p with
  | Sup_Top => True
  | Sup_Retiring routes remaining =>
      ∀ id w, m !! id = Some w → worker_stop w = true ∨ has_route id routes = true ∨ id ∈ remaining
  | Sup_Collecting routes remaining =>
      (∀ id w, m !! id = Some w → worker_stop w = true ∨ has_route id routes = true) ∧
      ∀ id, id ∈ remaining → from_option is_finished true (m !! id) = true
  | Sup_Empty routes => ∀ id w, m !! id = Some w → worker_stop w = true ∨ has_route id routes = true
  | Sup_Starting routes remaining =>
      (∀ id w, m !! id = Some w → worker_stop w = true ∨ has_route id routes = true) ∧
      ∀ route, route ∈ remaining → has_route (route_id route) routes = true
  | Sup_Joining remaining => ∀ id w, m !! id = Some w → worker_stop w = true ∧ (is_finished w = true ∨ id ∈ remaining)
  | Sup_Stopped => ∀ id w, m !! id = Some w → is_finished w = true
  end.

Record supervised s : Prop := {
  supervised_reported : reported (runtime s) (workers s);
  supervised_workers : map_Forall worker_ok (workers s);
  supervised_bounded : size (workers s) ≤ MAX_WORKERS;
  supervised_knows : knows (supervisor s) (workers s)
}.

(** ** Reports *)

Lemma reported_nil r m : ready_routes r = [] → reported r m.
Proof using Type. intros Hr. unfold reported. rewrite Hr. split; [constructor|]. set_solver. Qed.

Lemma reported_unready id error r m m' :
  reported r m → (∀ id', id' ≠ id → m' !! id' = m !! id') → reported (runtime_unready id error r) m'.
Proof using Type.
  intros [Hnd Hr] Hm. unfold reported. cbn [runtime_unready ready_routes]. split.
  - apply NoDup_ListNoDup, List.NoDup_filter. by apply NoDup_ListNoDup.
  - intros id' Hin. apply list_elem_of_In, List.filter_In in Hin as [Hin Hne]. apply list_elem_of_In in Hin.
    apply negb_true_iff, bool_decide_eq_false in Hne. rewrite Hm by done. by apply Hr.
Qed.

Lemma reported_ready id w w' r m :
  reported r m → route_id (worker_route w) = id → connected (worker_phase w') = true →
  reported (runtime_ready [worker_route w] r) (<[id := w']> m).
Proof using Type.
  intros [Hnd Hr] Hid Hw. unfold reported, runtime_ready. cbn [ready_routes foldl]. unfold push_route. rewrite Hid.
  assert (∀ id', id' ∈ ready_routes r → ∃ w0, <[id := w']> m !! id' = Some w0 ∧ connected (worker_phase w0) = true) as Hold.
  { intros id' Hin. destruct (decide (id' = id)) as [->|Hne]; [exists w'; by rewrite lookup_insert_eq|].
    rewrite lookup_insert_ne by done. by apply Hr. }
  case_bool_decide as Hin; [done|]. split.
  - apply NoDup_app. split_and!; [done|set_solver|apply NoDup_singleton].
  - intros id' [?|Hs%list_elem_of_singleton]%elem_of_app; [by apply Hold|]. subst id'. exists w'. by rewrite lookup_insert_eq.
Qed.

(** A worker that was not ready, or still is connected, may change. *)
Lemma reported_insert id w' r m :
  reported r m → (id ∈ ready_routes r → connected (worker_phase w') = true) → reported r (<[id := w']> m).
Proof using Type.
  intros [Hnd Hr] Hw. split; [done|]. intros id' Hin. destruct (decide (id' = id)) as [->|Hne].
  - exists w'. rewrite lookup_insert_eq. auto.
  - rewrite lookup_insert_ne by done. by apply Hr.
Qed.

Lemma reported_connected id w r m : reported r m → m !! id = Some w → connected (worker_phase w) = false → id ∉ ready_routes r.
Proof using Type. intros [_ Hr] Hm Hl Hin. destruct (Hr id Hin) as (w' & Hm' & Hl'). congruence. Qed.

(** ** Workers *)

Lemma after_report_backoff b outcome : b < length backoff_seconds → backoff_of (after_report b outcome) < length backoff_seconds.
Proof using Type. intros Hb. unfold after_report. destruct outcome as [[]|[]]; simpl in *; lia. Qed.

Lemma work_keeps event w r w' r' :
  work event w r = (w', r') →
  worker_route w' = worker_route w ∧ worker_stop w' = worker_stop w ∧ (is_finished w = true → is_finished w' = true) ∧
  (backoff_of (worker_phase w) < length backoff_seconds → backoff_of (worker_phase w') < length backoff_seconds).
Proof using Type.
  unfold work, is_finished. destruct (worker_phase w) as [b|b|b|b|b c o|b o|b d|] eqn:Hp; try destruct event as [|o];
    intros [= <- <-]; cbn [set_phase worker_route worker_stop worker_phase backoff_of]; rewrite ?Hp;
    split_and!; auto using after_report_backoff; by destruct (worker_stop w); simpl; try lia.
Qed.

Lemma work_reported event w r w' r' m id :
  work event w r = (w', r') → route_id (worker_route w) = id → m !! id = Some w → reported r m → reported r' (<[id := w']> m).
Proof using Type.
  intros Hw Hid Hm Hr. unfold work in Hw. pose proof (reported_connected id w r m Hr Hm) as Hdead.
  destruct (worker_phase w) as [b|b|b|b|b c o|b o|b d|] eqn:Hp; try destruct event as [|o]; injection Hw as <- <-;
    try (apply reported_insert; [done|]; intros Hin; by destruct Hdead);
    try (apply reported_insert; [done|]; by rewrite ?Hp); try (by apply reported_ready).
  all: rewrite Hid; apply reported_unready with m; [done|]; intros id' Hne; by rewrite lookup_insert_ne.
Qed.

Lemma knows_work id w w' m p :
  m !! id = Some w → worker_stop w' = worker_stop w → (is_finished w = true → is_finished w' = true) →
  knows p m → knows p (<[id := w']> m).
Proof using Type.
  intros Hm Hstop Hfin. assert (∀ (P : rstring → Worker → Prop), (P id w → P id w') →
    (∀ id' w0, m !! id' = Some w0 → P id' w0) → ∀ id' w0, <[id := w']> m !! id' = Some w0 → P id' w0) as Hall.
  { intros P HP Hold id' w0. destruct (decide (id' = id)) as [->|Hne].
    - rewrite lookup_insert_eq. intros [= <-]. auto.
    - rewrite lookup_insert_ne by done. apply Hold. }
  destruct p; cbn [knows]; try done.
  - apply Hall. by rewrite Hstop.
  - intros [Hk Hrem]. split; [revert Hk; apply Hall; by rewrite Hstop|]. intros id' Hin. specialize (Hrem id' Hin).
    destruct (decide (id' = id)) as [->|Hne]; [|by rewrite lookup_insert_ne].
    rewrite Hm in Hrem. rewrite lookup_insert_eq. simpl in *. auto.
  - apply Hall. by rewrite Hstop.
  - intros [Hk Hrem]. split; [|done]. revert Hk. apply Hall. by rewrite Hstop.
  - apply Hall. rewrite Hstop. naive_solver.
  - by apply Hall.
Qed.

(** ** The supervisor *)

Lemma reported_weaken r m m' :
  reported r m → (∀ id w, m !! id = Some w → connected (worker_phase w) = true →
    ∃ w', m' !! id = Some w' ∧ connected (worker_phase w') = true) → reported r m'.
Proof using Type. intros [Hnd Hr] Hm. split; [done|]. intros id Hin. destruct (Hr id Hin) as (w & Hw & Hl). eauto. Qed.

Lemma alter_stop_lookup id m id' w' :
  alter set_worker_stop id m !! id' = Some w' →
  ∃ w, m !! id' = Some w ∧ w' = if decide (id' = id) then set_worker_stop w else w.
Proof using Type.
  destruct (decide (id' = id)) as [->|Hne]; [rewrite lookup_alter_eq, fmap_Some|rewrite lookup_alter_ne by done]; naive_solver.
Qed.

Lemma supervised_retire s routes id remaining :
  supervised s → supervisor s = Sup_Retiring routes (id :: remaining) → has_route id routes = false →
  supervised (set_runtime (runtime_unready id None (runtime s)) (set_workers (alter set_worker_stop id (workers s))
    (set_supervisor (Sup_Retiring routes remaining) s))).
Proof using Type.
  intros [Hr Hw Hb Hk] Hp Hno. rewrite Hp in Hk. split; cbn [runtime workers supervisor set_runtime set_workers set_supervisor].
  - eapply reported_unready; [done|]. intros id' Hne. by rewrite lookup_alter_ne.
  - intros id' w' (w & Hm & ->)%alter_stop_lookup. specialize (Hw _ _ Hm). by case_decide.
  - rewrite <-size_dom, dom_alter_L. by rewrite size_dom.
  - intros id' w' (w & Hm & ->)%alter_stop_lookup. destruct (Hk _ _ Hm) as [?|[?|Hin]]; case_decide; auto.
    apply elem_of_cons in Hin as [->|]; [done|auto].
Qed.

Lemma supervised_start s routes route remaining :
  supervised s → supervisor s = Sup_Starting routes (route :: remaining) → workers s !! route_id route = None →
  size (workers s) < MAX_WORKERS →
  supervised (set_workers (<[route_id route := MkWorker route false (Worker_Top 0)]> (workers s))
    (set_supervisor (Sup_Starting routes remaining) s)).
Proof using Type.
  intros [Hr Hw Hb Hk] Hp Hnone Hlt. rewrite Hp in Hk. destruct Hk as [Hk Hrem].
  split; cbn [runtime workers supervisor set_runtime set_workers set_supervisor].
  - apply reported_insert; [done|]. intros Hin. destruct Hr as [_ Hr]. destruct (Hr _ Hin) as (w & Hm & _). congruence.
  - apply map_Forall_insert_2; [|done]. split; [done|]. simpl. lia.
  - rewrite map_size_insert_None by done. lia.
  - split; [|intros; apply Hrem; by right]. intros id w'. destruct (decide (id = route_id route)) as [->|Hne].
    + intros _. right. apply Hrem. by left.
    + rewrite lookup_insert_ne by done. apply Hk.
Qed.

Lemma supervised_phase s p : supervised s → knows p (workers s) → supervised (set_supervisor p s).
Proof using Type. by intros [Hr Hw Hb _] Hk; split. Qed.
Lemma supervised_update s health error : supervised s → supervised (set_runtime (runtime_update health error (runtime s)) s).
Proof using Type. intros [Hr Hw Hb Hk]. split; [by apply reported_nil|done..]. Qed.

Lemma supervised_join s :
  supervised s → supervised (set_supervisor (Sup_Joining (elements (dom (workers s)))) (set_workers (set_worker_stop <$> workers s) s)).
Proof using Type.
  intros [Hr Hw Hb Hk]. split; cbn [runtime workers supervisor set_runtime set_workers set_supervisor].
  - eapply reported_weaken; [done|]. intros id w Hm Hl. exists (set_worker_stop w). rewrite lookup_fmap, Hm. done.
  - intros id w' Hm. apply lookup_fmap_Some in Hm as (w & <- & Hm). by specialize (Hw _ _ Hm).
  - by rewrite map_size_fmap.
  - intros id w' Hm. apply lookup_fmap_Some in Hm as (w & <- & Hm). split; [done|]. right.
    apply elem_of_elements, elem_of_dom. eauto.
Qed.

Lemma has_route_in route routes : route ∈ routes → has_route (route_id route) routes = true.
Proof using Type.
  intros Hin. apply existsb_exists. exists route. split; [by apply list_elem_of_In|]. by apply bool_decide_eq_true.
Qed.

Lemma supervised_collect s routes id remaining :
  supervised s → supervisor s = Sup_Collecting routes (id :: remaining) →
  supervised (set_supervisor (Sup_Collecting routes remaining) (set_workers (delete id (workers s)) s)).
Proof using Type.
  intros [Hr Hw Hb Hk] Hp. rewrite Hp in Hk. destruct Hk as [Hk Hrem].
  split; cbn [runtime workers supervisor set_runtime set_workers set_supervisor].
  - eapply reported_weaken; [done|]. intros id' w Hm Hl. destruct (decide (id' = id)) as [->|Hne].
    + specialize (Hrem id ltac:(by left)). rewrite Hm in Hrem. simpl in Hrem. unfold is_finished in Hrem. by destruct (worker_phase w).
    + exists w. by rewrite lookup_delete_ne.
  - by apply map_Forall_delete.
  - rewrite <-size_dom, dom_delete_L. rewrite <-size_dom in Hb. etrans; [|exact Hb]. apply subseteq_size. set_solver.
  - split; [intros id' w (_ & Hm)%lookup_delete_Some; by apply (Hk id')|]. intros id' Hin.
    destruct (decide (id' = id)) as [->|Hne]; [by rewrite lookup_delete_eq|]. rewrite lookup_delete_ne by done. apply Hrem. by right.
Qed.

Lemma supervised_supervise s s' : supervised s → supervise s = Some s' → supervised s'.
Proof using Type.
  intros Hs. pose proof Hs as [Hr Hw Hb Hk]. unfold supervise.
  destruct (supervisor s) as [|routes [|id rem]|routes [|id rem]|routes|routes [|route rem]|[|id rem]|] eqn:Hp; cbn [knows] in Hk.
  - destruct (stop_flag s); [|done]. intros [= <-]. by apply supervised_join.
  - intros [= <-]. apply supervised_phase; [done|]. split; [intros id w Hm; destruct (Hk _ _ Hm) as [?|[?|?%elem_of_nil]]; auto|].
    intros id Hin. apply elem_of_elements, elem_of_dom in Hin as [w Hm]. apply map_lookup_filter_Some in Hm as [-> Hf]. done.
  - intros [= <-]. destruct (has_route id routes) eqn:Hroute; [|by apply supervised_retire].
    apply supervised_phase; [done|]. intros id' w Hm. destruct (Hk _ _ Hm) as [?|[?|Hin]]; auto.
    apply elem_of_cons in Hin as [->|]; auto.
  - intros [= <-]. apply supervised_phase; [done|]. by destruct Hk.
  - intros [= <-]. by apply supervised_collect.
  - intros [= <-]. destruct (is_empty routes); apply supervised_phase; auto using supervised_update, has_route_in.
    all: split; [exact Hk|]; auto using has_route_in.
  - intros [= <-]. by apply supervised_phase.
  - assert (supervised (set_supervisor (Sup_Starting routes rem) s)) as Hskip.
    { apply supervised_phase; [done|]. destruct Hk as [Hk Hrem]. split; [done|]. intros; apply Hrem; by right. }
    destruct (bool_decide_reflect (is_Some (workers s !! route_id route))) as [|Hnone]; cbn [orb]; [by intros [= <-]|].
    destruct (Nat.leb_spec MAX_WORKERS (size (workers s))) as [|Hlt]; intros [= <-]; [done|].
    apply supervised_start; [done..| |done]. by apply eq_None_not_Some.
  - intros [= <-]. apply (supervised_phase (set_runtime _ s)); [by apply supervised_update|].
    intros id w Hm. destruct (Hk _ _ Hm) as [_ [?|?%elem_of_nil]]; done.
  - destruct (workers s !! id) as [w0|] eqn:Hid; [destruct (is_finished w0) eqn:Hf; [|done]|]; intros [= <-];
      (apply supervised_phase; [done|]); intros id' w Hm; destruct (Hk _ _ Hm) as [Hstop Hor]; (split; [done|]);
      destruct Hor as [?|Hin]; auto; apply elem_of_cons in Hin as [->|]; auto; left; congruence.
  - done.
Qed.

Lemma supervised_act a s s' : supervised s → supervisor_act a s = Some s' → supervised s'.
Proof using Type.
  intros Hs. pose proof Hs as [Hr Hw Hb Hk]. destruct a as [|answer| |id event]; cbn [supervisor_act].
  - intros [= <-]. by split.
  - destruct (supervisor s) eqn:Hp; try done. destruct (stop_flag s); [done|]. destruct answer as [routes|e]; intros [= <-].
    + apply supervised_phase; [done|]. intros id w Hm. right; right. apply elem_of_elements, elem_of_dom. eauto.
    + by apply supervised_update.
  - by apply supervised_supervise.
  - destruct (workers s !! id) as [w|] eqn:Hm; [|done]. cbn [mbind option_bind].
    destruct (work event w (runtime s)) as [w' r'] eqn:Ew. intros [= <-]. destruct (Hw _ _ Hm) as [Hid Hback].
    destruct (work_keeps _ _ _ _ _ Ew) as (Hroute & Hstop & Hfin & Hbo).
    split; cbn [runtime workers supervisor set_runtime set_workers].
    + by eapply work_reported.
    + apply map_Forall_insert_2; [|done]. split; [by rewrite Hroute|auto].
    + rewrite map_size_insert_Some by (by rewrite Hm). done.
    + by eapply knows_work.
Qed.

Lemma supervised_run actions s s' : supervised s → supervisor_run actions s = Some s' → supervised s'.
Proof using Type.
  revert s. induction actions as [|a actions IH]; intros s Hs; cbn [supervisor_run]; [by intros [= <-]|].
  destruct (supervisor_act a s) as [s1|] eqn:Ea; [|done]. apply IH. by eapply supervised_act.
Qed.

Lemma supervised_started `{Externals} `{RelayExternals} health settings host_id port :
  supervised (supervisor_start health settings host_id port).
Proof using Type.
  assert (∀ r p, ready_routes r = [] → knows p ∅ → supervised (MkSupervisor r ∅ false p)) as Hnew.
  { intros r p Hr Hp. split; cbn [runtime workers supervisor]; [by apply reported_nil|apply map_Forall_empty| |done].
    rewrite map_size_empty. lia. }
  unfold supervisor_start. destruct (RelayHostConnectionConfig_new _ _ _ _); apply Hnew; try done.
Qed.

(** A stopped supervisor reports no route. *)
Lemma supervised_stopped s : supervised s → supervisor s = Sup_Stopped → ready_routes (runtime s) = [].
Proof using Type.
  intros [[_ Hr] _ _ Hk] Hp. rewrite Hp in Hk. destruct (ready_routes (runtime s)) as [|id rest]; [done|].
  destruct (Hr id ltac:(by left)) as (w & Hm & Hl). specialize (Hk _ _ Hm). unfold is_finished in Hk. by destruct (worker_phase w).
Qed.
End host.

(** ** Routes and settings *)

Lemma try_collect_elem {E A B} (f : A → result E B) l bs b :
  try_collect f l = Ok bs → b ∈ bs ↔ ∃ a, a ∈ l ∧ f a = Ok b.
Proof.
  rewrite try_collect_Ok. induction 1 as [|a b' l bs Hab Hrest IH]; [set_solver|]. rewrite elem_of_cons, IH. split.
  - intros [->|(a' & Ha & Hf)]; [exists a|exists a']; (split; [|done]); [by left|by right].
  - intros (a' & [->|Ha]%elem_of_cons & Hf); [left; congruence|right; eauto].
Qed.

Section routes.
Context `{Externals} `{RelayExternals} `{PairingJson} `{StoreLibrary} `{StoreDraws} `{DiskFaults} `{HostJson}.

Lemma relay_routes_elem path endpoint w r w' routes route :
  path ≠ lock_path path → saved path w r → relay_routes path endpoint w = (w', Ok routes) →
  route ∈ routes ↔ ∃ device digest cred, device ∈ devices r ∧ decode_hex_32 (token_sha256 device) = Some digest ∧
    derive_route digest endpoint = Ok cred ∧ route = registration cred.
Proof using Type.
  intros Hlock Hs. unfold relay_routes. intros (w1 & digests & Hd & (w2 & unsorted & Hu & Hr)%act_bind_Ok)%act_bind_Ok.
  injection Hu as _ Hu%map_err_Ok. injection Hr as _ <-.
  destruct (device_credential_digests path w) as [w3 [ds|]] eqn:Ed; [|done]. injection Hd as _ ->.
  unfold device_credential_digests in Ed. apply act_bind_Ok in Ed as (w4 & r1 & El & Ed). injection Ed as _ Ed.
  apply load_record_Ok in El; [|done]. rewrite (saved_unique _ _ _ _ El Hs) in Ed.
  unfold sort_routes. rewrite merge_sort_Permutation, (try_collect_elem _ _ _ _ Hu). setoid_rewrite (try_collect_elem _ _ _ _ Ed).
  split.
  - intros (digest & (device & Hin & Hdig) & Hroute). apply bind_Ok in Hdig as (h & Hh%ok_or_Ok & [= <-]).
    apply bind_Ok in Hroute as (cred & Hc & [= <-]). by exists device, h, cred.
  - intros (device & h & cred & Hin & Hh & Hc & ->). exists (MkDigest (device_client_id device) h). split.
    + exists device. split; [done|]. unfold device_digest. by rewrite Hh.
    + simpl. by rewrite Hc.
Qed.

Lemma credential_device r c h : credential r c = Some h → ∃ device, device ∈ devices r ∧ decode_hex_32 (token_sha256 device) = Some h.
Proof using Type.
  unfold credential. destruct (find_device c (devices r)) as [device|] eqn:Ef; [|done]. simpl. intros Hh. exists device.
  split; [|done]. apply List.find_some in Ef as [Hin _]. by apply list_elem_of_In.
Qed.

(** *** Files *)

Lemma load_after_save path bytes d' :
  entries d' !! path = Some (Fs_File bytes private_file_mode) → (∀ n, io_count d' ≤ n → fault n = None) →
  ∃ d2 d3, protect_file path d' = (d2, Ok ()) ∧ fs_read path d2 = (d3, Ok bytes).
Proof using Type.
  intros Hp Hf. unfold protect_file, protect, symlink_metadata, set_permissions, fs_read, call, mbind, act_bind.
  rewrite Hf by lia. rewrite Hp. cbn [ok_or io_count entries]. rewrite Hf by lia. cbn [entries]. rewrite Hp.
  do 2 eexists. split; [reflexivity|]. cbn [io_count entries]. rewrite Hf by lia. by rewrite lookup_insert_eq.
Qed.

Lemma relay_settings_round_trip `{!HostJsonOk} path endpoint token host_id d d' :
  (∀ n, path ≠ temporary_of (removelast path) n) → save_relay_settings path endpoint token d = (d', Ok ()) →
  (∀ n, io_count d' ≤ n → fault n = None) →
  (load_relay_settings path host_id d').2 =
    match RelayHostConnectionConfig_new endpoint host_id token (Refine 1%N I) with
    | Ok _ => Ok (Some (MkRelaySettings endpoint token))
    | Err e => Err (App_Relay e)
    end.
Proof using Type.
  intros Hpath (d1 & bytes & Hb & Hw)%act_bind_Ok Hf. injection Hb as <- Hb%map_err_Ok. unfold on_host in Hw.
  destruct (atomic_write_private path bytes d) as [d2 [[]|]] eqn:Ew; [|done]. injection Hw as <-.
  apply atomic_write_cases in Ew as [[? _]|Hc]; [done| |done].
  destruct (load_after_save path bytes d2 Hc Hf) as (d3 & d4 & Hprot & Hread).
  unfold load_relay_settings, unless_missing. rewrite Hprot, Hread. unfold mbind, act_bind, lift.
  rewrite (relay_config_json _ _ Hb). simpl. by destruct (RelayHostConnectionConfig_new _ _ _ _).
Qed.

Lemma direct_settings_round_trip `{!HostJsonOk} path bind np pp native pairing d d' :
  (∀ n, path ≠ temporary_of (removelast path) n) → direct_configure path bind np pp native pairing d = (d', Ok ()) →
  (∀ n, io_count d' ≤ n → fault n = None) →
  ∃ settings, (direct_load path d').2 = Ok (Some settings) ∧ DirectSettings_validate settings = Ok () ∧
    DirectEndpoint_parse native = Ok (native_endpoint settings) ∧ DirectEndpoint_parse pairing = Ok (pairing_endpoint settings) ∧
    direct_bind settings = bind ∧ direct_native_port settings = np ∧ direct_pairing_port settings = pp.
Proof using Type.
  intros Hpath L Hf. apply act_bind_Ok in L as (d1 & ne & Hn & L). apply act_bind_Ok in L as (d2 & pe & Hp & L).
  apply act_bind_Ok in L as (d3 & [] & Hv & L). apply act_bind_Ok in L as (d4 & bytes & Hb & L).
  injection Hn as _ Hn. injection Hp as _ Hp. injection Hv as _ Hv. injection Hb as _ Hb%map_err_Ok. unfold on_host in L.
  destruct (atomic_write_private path bytes d4) as [d5 [[]|]] eqn:Ew; [|done]. injection L as <-.
  apply atomic_write_cases in Ew as [[? _]|Hc]; [done| |done].
  eexists. split_and!; [|exact Hv|exact Hn|exact Hp|done..]. unfold direct_load, fs_read, call. rewrite Hf by lia. rewrite Hc.
  unfold mbind, act_bind, lift. rewrite (direct_json _ _ Hb). cbn [map_err]. by rewrite Hv.
Qed.
End routes.
