(* ===== verification/AdminSocket.v ===== *)
(** * The administration socket

    Models [agentpulse-platform/src/unix.rs]: binding the private endpoint of a
    Host, and sending and receiving one bounded message.  A connection is given by
    what its calls answer.  At the end: what arrives is what was sent, and binding
    takes nothing over that is in use. *)

From stdpp Require Import base strings numbers sorting gmap list.
From S2P Require Import Prelude Bytes Platform.

(** ** Messages *)

Definition MAX_ADMIN_MESSAGE : nat := N.to_nat 65536.

Definition timed_out : rstring := lit "timed out".
Definition write_zero : rstring := lit "write zero".
Definition too_large : rstring := lit "admin message too large".

(** An error of a call: an interruption is tried again. *)
Inductive CallError : Type := Call_Interrupted | Call_Failed (error : rstring).

(** What a turn of a loop meets: the clock, the call that sets the timeout, and
    the transfer: a count of written bytes, or the bytes read. *)
Record SendTurn : Type := MkSendTurn { send_now : N; send_timeout : result rstring unit; send_call : result CallError nat }.
Record ReceiveTurn : Type :=
  MkReceiveTurn { receive_now : N; receive_timeout : result rstring unit; receive_call : result CallError (list Byte.byte) }.

(** [remaining] *)
Definition remaining (deadline now : N) : result rstring N :=
  if (deadline - now =? 0)%N then Err timed_out else Ok (deadline - now)%N.

(** The loop of [AdminStream::send]: the bytes written so far and, unless it goes
    on, its outcome. *)
Fixpoint send_loop (deadline : N) (shutdown : result rstring unit) (turns : list SendTurn) (bytes sent : list Byte.byte) :
    list Byte.byte * option (result rstring unit) :=
  match bytes with
  | [] => (sent, Some shutdown)
  | _ :: _ =>
      match turns with
      | [] => (sent, None)
      | t :: turns' =>
          match (_ ← remaining deadline (send_now t); send_timeout t) with
          | Err e => (sent, Some (Err e))
          | Ok _ =>
              match send_call t with
              | Ok O => (sent, Some (Err write_zero))
              | Ok count => send_loop deadline shutdown turns' (drop count bytes) (sent ++ take count bytes)
              | Err Call_Interrupted => send_loop deadline shutdown turns' bytes sent
              | Err (Call_Failed e) => (sent, Some (Err e))
              end
          end
      end
  end.

Definition admin_send (deadline : N) (shutdown : result rstring unit) (turns : list SendTurn) (bytes : list Byte.byte) :
    list Byte.byte * option (result rstring unit) :=
  if (MAX_ADMIN_MESSAGE <? length bytes)%nat then ([], Some (Err too_large)) else send_loop deadline shutdown turns bytes [].

(** [AdminStream::receive] *)
Fixpoint admin_receive (deadline : N) (turns : list ReceiveTurn) (bytes : list Byte.byte) : option (result rstring (list Byte.byte)) :=
  match turns with
  | [] => None
  | t :: turns' =>
      match (_ ← remaining deadline (receive_now t); receive_timeout t) with
      | Err e => Some (Err e)
      | Ok _ =>
          match receive_call t with
          | Ok [] => Some (Ok bytes)
          | Ok chunk =>
              if (MAX_ADMIN_MESSAGE <? length bytes + length chunk)%nat then Some (Err too_large)
              else admin_receive deadline turns' (bytes ++ chunk)
          | Err Call_Interrupted => admin_receive deadline turns' bytes
          | Err (Call_Failed e) => Some (Err e)
          end
      end
  end.

(** ** The endpoint *)

Section listener.
Context `{DiskFaults}.
Implicit Types (d : Disk) (path : Path).

Definition not_a_socket : rstring := lit "admin endpoint is not a socket".
Definition address_in_use : rstring := lit "address in use".

(** An endpoint that is there is taken over only if nobody answers at it:
    [is_socket] of a special file, and [probe], the connection to it. *)
Inductive ProbeAnswer : Type := Probe_Connected | Probe_Gone | Probe_Failed (error : rstring).

Definition clear_endpoint path (is_socket : bool) (probe : ProbeAnswer) : act Disk rstring unit := λ d,
  match symlink_metadata path d with
  | (d', Err _) => (d', Ok ())
  | (d', Ok entry) =>
      if negb (match entry with Fs_Other => is_socket | _ => false end) then (d', Err not_a_socket)
      else match probe with
           | Probe_Connected => (d', Err address_in_use)
           | Probe_Failed error => (d', Err error)
           | Probe_Gone => remove_file path d'
           end
  end.

(** [UnixListener::bind] creates the socket. *)
Definition create_socket path : act Disk rstring unit := call (λ m,
  match m !! path with
  | Some _ => (m, Err address_in_use)
  | None => (<[path := Fs_Other]> m, Ok ())
  end).

(** [AdminListener::bind]; a listener that is dropped removes its endpoint. *)
Definition admin_bind path (is_socket : bool) (probe : ProbeAnswer) (nonblocking : result rstring unit) : act Disk rstring unit :=
  _ ← clear_endpoint path is_socket probe;
  _ ← create_socket path;
  removing_on_failure path (_ ← set_permissions path private_file_mode; lift nonblocking).

(** [AdminListener::drop] *)
Definition admin_drop path (d : Disk) : Disk := (remove_file path d).1.
End listener.

(** ** Correctness *)

Lemma remaining_Ok deadline now n : remaining deadline now = Ok n → (now < deadline)%N.
Proof. unfold remaining. destruct (N.eqb_spec (deadline - now) 0); [done|]. lia. Qed.
Lemma remaining_late deadline now : (deadline ≤ now)%N → remaining deadline now = Err timed_out.
Proof. intros Hl. unfold remaining. destruct (N.eqb_spec (deadline - now) 0); [done|lia]. Qed.

(** What was written is a part of the message from its start, and the whole of it
    after a success. *)
Lemma send_loop_spec deadline shutdown turns bytes sent written out :
  send_loop deadline shutdown turns bytes sent = (written, out) →
  sent `prefix_of` written ∧ written `prefix_of` sent ++ bytes ∧ (out = Some (Ok ()) → written = sent ++ bytes).
Proof.
  revert bytes sent. induction turns as [|t turns IH]; intros bytes sent; destruct bytes as [|b bytes]; cbn [send_loop].
  1,3: intros [= <- <-]; rewrite app_nil_r; done.
  - intros [= <- <-]. split_and!; [done|by apply prefix_app_r|done].
  - assert (∀ out', (sent, out') = (written, out) → out' ≠ Some (Ok ()) → sent `prefix_of` written ∧ written `prefix_of` sent ++ b :: bytes ∧
      (out = Some (Ok ()) → written = sent ++ b :: bytes)) as Hend.
    { intros out' [= <- <-] Hne. split_and!; [done|by apply prefix_app_r|done]. }
    destruct (_ ← _; _) as [[]|e]; [|by intros E; apply (Hend _ E)].
    destruct (send_call t) as [[|count]|[|e]]; [by intros E; apply (Hend _ E)| |apply IH|by intros E; apply (Hend _ E)].
    intros (H1 & H2 & H3)%IH. rewrite <-app_assoc, take_drop in H2, H3. split_and!; [|done|done].
    etrans; [|exact H1]. by apply prefix_app_r.
Qed.

Lemma send_loop_ends deadline shutdown turns bytes sent :
  (∃ t, t ∈ turns ∧ (deadline ≤ send_now t)%N) → (send_loop deadline shutdown turns bytes sent).2 ≠ None.
Proof.
  intros (t & Hin & Hl). revert bytes sent. induction Hin as [turns|t t' turns _ IH]; intros bytes sent;
    destruct bytes as [|b bytes]; cbn [send_loop]; try done.
  - by rewrite (remaining_late _ _ Hl).
  - destruct (_ ← _; _) as [[]|e]; [|done]. destruct (send_call t') as [[|count]|[|e]]; try done; apply (IH Hl).
Qed.

(** The bytes read up to the end of the stream. *)
Fixpoint arrived (turns : list ReceiveTurn) : list Byte.byte :=
  match turns with
  | [] => []
  | t :: turns' =>
      match receive_call t with
      | Ok [] | Err (Call_Failed _) => []
      | Ok chunk => chunk ++ arrived turns'
      | Err Call_Interrupted => arrived turns'
      end
  end.

Lemma admin_receive_spec deadline turns bytes received :
  length bytes ≤ MAX_ADMIN_MESSAGE → admin_receive deadline turns bytes = Some (Ok received) →
  received = bytes ++ arrived turns ∧ length received ≤ MAX_ADMIN_MESSAGE.
Proof.
  revert bytes. induction turns as [|t turns IH]; intros bytes Hl; cbn [admin_receive arrived]; [done|].
  destruct (_ ← _; _) as [[]|e]; [|done]. destruct (receive_call t) as [[|b chunk]|[|e]]; [|..|done].
  - intros [= <-]. by rewrite app_nil_r.
  - destruct (Nat.ltb_spec MAX_ADMIN_MESSAGE (length bytes + length (b :: chunk))) as [|Hle]; [done|].
    intros [-> ?]%IH; [|by rewrite length_app]. by rewrite <-app_assoc in *.
  - by apply IH.
Qed.

(** A peer that answers in time, without failures, and closes. *)
Definition in_time (deadline : N) (t : ReceiveTurn) : Prop :=
  (receive_now t < deadline)%N ∧ receive_timeout t = Ok () ∧ ∀ e, receive_call t ≠ Err (Call_Failed e).

Lemma admin_receive_complete deadline turns bytes :
  Forall (in_time deadline) turns → (∃ t, t ∈ turns ∧ receive_call t = Ok []) → length bytes + length (arrived turns) ≤ MAX_ADMIN_MESSAGE →
  admin_receive deadline turns bytes = Some (Ok (bytes ++ arrived turns)).
Proof.
  intros Hall. revert bytes. induction Hall as [|t turns (Hn & Ht & Hc) _ IH]; intros bytes (t' & Hin & Hend) Hl; [inversion Hin|].
  cbn [admin_receive arrived] in *. assert ((_ ← remaining deadline (receive_now t); receive_timeout t) = Ok ()) as ->.
  { unfold remaining. destruct (N.eqb_spec (deadline - receive_now t) 0); [lia|exact Ht]. }
  destruct (receive_call t) as [[|b chunk]|[|e]] eqn:Er; [by rewrite app_nil_r| | |by destruct (Hc e)].
  - rewrite length_app in Hl. destruct (Nat.ltb_spec MAX_ADMIN_MESSAGE (length bytes + length (b :: chunk))); [lia|].
    rewrite IH; [by rewrite <-app_assoc| |rewrite length_app; lia].
    apply elem_of_cons in Hin as [->|]; [by rewrite Er in Hend|by exists t'].
  - apply IH; [|done]. apply elem_of_cons in Hin as [->|]; [by rewrite Er in Hend|by exists t'].
Qed.

Lemma admin_receive_ends deadline turns bytes :
  (∃ t, t ∈ turns ∧ (deadline ≤ receive_now t)%N) → admin_receive deadline turns bytes ≠ None.
Proof.
  intros (t & Hin & Hl). revert bytes. induction Hin as [turns|t t' turns _ IH]; intros bytes; cbn [admin_receive].
  - by rewrite (remaining_late _ _ Hl).
  - destruct (_ ← _; _) as [[]|e]; [|done]. destruct (receive_call t') as [[|b chunk]|[|e]]; try done; [|apply (IH Hl)].
    destruct (_ <? _)%nat; [done|apply (IH Hl)].
Qed.

Section listener_spec.
Context `{DiskFaults}.
Implicit Types (d : Disk) (path q : Path).

(** Binding changes no file. *)
Lemma keeps_remove_special q path d :
  (∀ content mode, entries d !! path ≠ Some (Fs_File content mode)) → file_at q (remove_file path d).1 = file_at q d.
Proof.
  intros Hs. unfold remove_file, call, file_at. destruct (fault _); [done|].
  destruct (entries d !! path) as [[]|] eqn:E; try done; [by destruct (Hs content mode)|]. cbn.
  destruct (decide (path = q)) as [<-|]; [by rewrite lookup_delete_eq, E|by rewrite lookup_delete_ne].
Qed.

Lemma clear_endpoint_spec path is_socket probe d d' r :
  clear_endpoint path is_socket probe d = (d', r) →
  (∀ q, file_at q d' = file_at q d) ∧ (r = Ok () → entries d !! path = Some Fs_Other → probe ≠ Probe_Connected ∨ fault (io_count d) ≠ None).
Proof.
  unfold clear_endpoint, symlink_metadata, call. destruct (fault (io_count d)) eqn:Ef; [intros [= <- <-]; split; [done|by right]|].
  destruct (entries d !! path) as [[]|] eqn:E; cbn; [by intros [= <- <-]..| |by intros [= <- <-]].
  destruct is_socket; cbn; [|by intros [= <- <-]]. destruct probe; [by intros [= <- <-]| |intros [= <- <-]; by split; [|done]].
  intros Er. split; [|by left]. intros q. pose proof (keeps_remove_special q path (MkDisk (entries d) (S (io_count d)))) as Hk.
  rewrite Er in Hk. cbn in Hk. rewrite Hk; [done|]. intros content mode. by rewrite E.
Qed.

Lemma create_socket_cases path d d' r :
  create_socket path d = (d', r) →
  (∀ q, file_at q d' = file_at q d) ∧ (r = Ok () → entries d' !! path = Some Fs_Other).
Proof.
  unfold create_socket, call, file_at. destruct (fault _); [by intros [= <- <-]|].
  destruct (entries d !! path) eqn:E; intros [= <- <-]; cbn; [done|]. split; [|intros _; apply lookup_insert_eq].
  intros q. apply content_insert_same. by rewrite E.
Qed.

Lemma set_permissions_special path mode d d' r :
  entries d !! path = Some Fs_Other → set_permissions path mode d = (d', r) → entries d' = entries d.
Proof. intros E. unfold set_permissions, call. destruct (fault _); [by intros [= <- <-]|]. rewrite E. by intros [= <- <-]. Qed.

(** Binding leaves the content of every file, and an endpoint that answered; what
    it created is there after a success. *)
Lemma admin_bind_spec path is_socket probe nonblocking d d' r :
  admin_bind path is_socket probe nonblocking d = (d', r) →
  (∀ q, file_at q d' = file_at q d) ∧ (r = Ok () → entries d' !! path = Some Fs_Other) ∧
  (r = Ok () → entries d !! path = Some Fs_Other → probe ≠ Probe_Connected ∨ fault (io_count d) ≠ None).
Proof.
  unfold admin_bind. intros [(d1 & [] & E1 & E)|(e & E1 & ->)]%act_bind_inv; apply clear_endpoint_spec in E1 as [K1 Hp]; [|by split_and!].
  apply act_bind_inv in E as [(d2 & [] & E2 & E)|(e & E2 & ->)]; apply create_socket_cases in E2 as [K2 Hs];
    [|split_and!; [intros q; by rewrite K2|done|done]]. specialize (Hs eq_refl).
  assert (∀ q, file_at q d2 = file_at q d) as K by (intros q; by rewrite K2). unfold removing_on_failure in E.
  destruct ((_ ← set_permissions path private_file_mode; lift nonblocking) d2) as [d3 x] eqn:E3.
  assert (entries d3 = entries d2) as Ee.
  { apply act_bind_inv in E3 as [(d4 & [] & E4 & [= <- _])|(e & E4 & _)]; by eapply set_permissions_special. }
  destruct x as [[]|e]; injection E as <- <-.
  - split_and!; [intros q; unfold file_at; rewrite Ee; apply K|by rewrite Ee|auto].
  - split_and!; [|done|done]. intros q. rewrite keeps_remove_special; [unfold file_at; rewrite Ee; apply K|].
    intros content mode. by rewrite Ee, Hs.
Qed.
End listener_spec.
