(* ===== verification/HostCommands.v ===== *)
(** * The Host program: its commands

    Models the command line of [agentpulse-host/src/main.rs] and [direct.rs]: the
    commands that read and change the private configuration, the choice of the
    address that is served, the administration loop of a running Host and the
    requests sent to it, and the launch of Codex and of a pairing session.  The
    file lock of a running Host is a flag of the world; what is read from the
    terminal, the network interfaces and the clock are arguments. *)

From stdpp Require Import base strings numbers sorting gmap list.
From S2P Require Import Prelude Bytes Json Values Snapshots Capability Interaction Event Dto Net.
From S2P Require Import CodexMapper CodexProtocol CodexApproval CodexInteractions CodexControl CodexWorker CodexSource CodexConfig CodexProcess.
From S2P Require Import Native RelayProtocol RelayClient Transport PairingProtocol Platform PairingStore PairingServer HostRelay.

(** ** Paths *)

Record HostPaths : Type := MkPaths {
  data_dir : Path;
  credential_store : Path;
  runtime_dir : Path;
  lock_file : Path;
  admin_socket : Path;
  status_file : Path;
  relay_config : Path;
  direct_config : Path
}.

(** [HostPaths::resolve], and [direct.json] of [direct::path]. *)
Definition paths_in (dir : Path) : HostPaths :=
  let runtime := dir ++ [lit "runtime"] in
  MkPaths dir (dir ++ [lit "host-credentials.json"]) runtime (runtime ++ [lit "host.lock"])
    (runtime ++ [lit "admin.sock"]) (runtime ++ [lit "status.json"]) (dir ++ [lit "relay.json"])
    (dir ++ [lit "direct.json"]).
Definition HostPaths_resolve (override_dir project_dir : option Path) : result AppError HostPaths :=
  match override_dir with
  | Some dir => Ok (paths_in dir)
  | None => paths_in <$> ok_or (App_Text (lit "cannot resolve a private configuration directory")) project_dir
  end.

(** ** The status and the administration protocol *)

Record RuntimeStatus : Type := MkStatus {
  status_host_id : rstring;
  status_host_name : rstring;
  status_server_name : rstring;
  native_address : SocketAddr;
  status_codex_executable : option PathBuf;
  codex_remote_uri : rstring;
  provider_health : string;
  native_health : string;
  status_direct : option DirectSettings;
  status_relay_endpoint : option rstring;
  status_relay_health : string;
  status_relay_last_error : option rstring;
  relay_ready_routes : list rstring;
  status_pid : N
}.

Record CodexLaunchCredentials : Type := MkLaunch {
  launch_remote_uri : rstring;
  launch_auth_token : option rstring;
  launch_executable : option PathBuf
}.

Inductive AdminRequest : Type := Admin_Status | Admin_CodexLaunch | Admin_Stop.

Record AdminResponse : Type := MkResponse {
  response_ok : bool;
  response_status : option RuntimeStatus;
  response_codex_launch : option CodexLaunchCredentials;
  response_error : option rstring
}.

(** [serde_json] on the messages and the status, and the texts of errors. *)
Class AdminJson : Type := {
  admin_request_to_vec : AdminRequest → result rstring (list Byte.byte);
  admin_request_from_slice : list Byte.byte → result rstring AdminRequest;
  admin_response_to_vec : AdminResponse → result rstring (list Byte.byte);
  admin_response_from_slice : list Byte.byte → result rstring AdminResponse;
  status_to_vec_pretty : RuntimeStatus → result rstring (list Byte.byte);
  build_error_text : CodexProviderBuildError → rstring;
  domain_error_text : DomainError → rstring
}.
Class AdminJsonOk `{AdminJson} : Prop := {
  admin_request_json : ∀ x bytes, admin_request_to_vec x = Ok bytes → admin_request_from_slice bytes = Ok x;
  admin_response_json : ∀ x bytes, admin_response_to_vec x = Ok bytes → admin_response_from_slice bytes = Ok x
}.

Definition health_name (h : CodexProviderHealth) : string :=
  match h with
  | CodexSource.Health_Stopped => "stopped"
  | CodexSource.Health_Starting => "starting"
  | CodexSource.Health_Running => "running"
  | CodexSource.Health_Failed => "failed"
  end.
Definition native_health_name (h : NativeChannelHealth) : string :=
  match h with
  | Native.Health_Stopped => "stopped"
  | Native.Health_Listening => "listening"
  | Native.Health_Connected => "connected"
  | Native.Health_Failed => "failed"
  end.

(** ** Addresses *)

Definition validate_private_ip (address : IpAddr) : result AppError unit :=
  let valid := match address with
    | V4 a b _ _ => ipv4_is_private a b || ipv4_is_link_local a b
    | V6 segments => ipv6_is_unique_local segments || ipv6_is_unicast_link_local segments
    end in
  if valid then Ok ()
  else Err (App_Text (display_ip address ++ lit " is not a private or link-local LAN address")).

(** The derived order of [IpAddr]: the kind of address first. *)
Definition ip_key (address : IpAddr) : list N :=
  match address with V4 a b c d => [0; a; b; c; d]%N | V6 segments => 1%N :: segments end.
Definition ip_le (a b : IpAddr) : Prop := str_le (ip_key a) (ip_key b).
#[export] Instance ip_le_dec a b : Decision (ip_le a b).
Proof. unfold ip_le. apply _. Defined.

(** The set of the private addresses of the interfaces, in order. *)
Definition private_addresses (interfaces : list IpAddr) : list IpAddr :=
  merge_sort ip_le (remove_dups (List.filter (λ address, is_ok (validate_private_ip address)) interfaces)).

Definition select_private_ip (interfaces : result rstring (list IpAddr)) : result AppError IpAddr :=
  interfaces ← map_err App_Io interfaces;
  match private_addresses interfaces with
  | [address] => Ok address
  | [] => Err (App_Text (lit "no private LAN address found; pass --bind after connecting to a LAN"))
  | addresses => Err (App_Text (lit "multiple private LAN addresses found: " ++ join (lit ", ") (display_ip <$> addresses)
                                  ++ lit "; choose one with --bind"))
  end.

Definition DEFAULT_NATIVE_PORT : u16 := Refine 49320%N I.

Record ServeArgs : Type := MkServeArgs {
  serve_bind : option IpAddr;
  serve_port : option u16;
  serve_codex : PathBuf;
  serve_discover_threads : bool
}.

(** The address of the Native endpoint. *)
Definition serve_address (args : ServeArgs) (direct : option DirectSettings) (relay : option RelayHostSettings)
    (interfaces : result rstring (list IpAddr)) : result AppError SocketAddr :=
  match direct with
  | Some settings =>
      if match serve_bind args with Some v => negb (bool_decide (v = direct_bind settings)) | None => false end
         || match serve_port args with Some v => negb (raw v =? raw (direct_native_port settings))%N | None => false end
      then Err (App_Text (lit "serve --bind/--port conflict with direct configuration"))
      else Ok (MkSocketAddr (direct_bind settings) (direct_native_port settings))
  | None =>
      address ← match serve_bind args with
        | Some address =>
            if is_loopback address
            then if bool_decide (relay = None) then Err (App_Text (lit "loopback Native binding requires a configured Relay"))
                 else Ok address
            else _ ← validate_private_ip address; Ok address
        | None => select_private_ip interfaces
        end;
      Ok (MkSocketAddr address (default DEFAULT_NATIVE_PORT (serve_port args)))
  end.

(** ** The world of a command *)

(** The files and draws, whether a running Host holds the lock, and what was printed. *)
Record HostWorld : Type := MkHostWorld {
  host_store : StoreWorld;
  host_running : bool;
  printed : list rstring
}.

Section commands.
Context `{Externals} `{RelayExternals} `{PairingJson} `{StoreLibrary} `{StoreDraws} `{DiskFaults} `{HostJson} `{AdminJson}.
Implicit Types (w : HostWorld) (paths : HostPaths).

Abbreviation commanding A := (act HostWorld AppError A).

Definition set_store v w : HostWorld := MkHostWorld v (host_running w) (printed w).
Definition on_store {A} (a : act StoreWorld PairingError A) : commanding A := λ w,
  let '(s, r) := a (host_store w) in (set_store s w, map_err App_Pairing r).
Definition on_files {A} (a : act Disk AppError A) : commanding A := λ w,
  let '(d, r) := a (disk (host_store w)) in (set_store (MkStoreWorld d (store_draws (host_store w))) w, r).
Definition say (line : rstring) : commanding unit := modify (λ w, MkHostWorld (host_store w) (host_running w) (printed w ++ [line])).
Definition refuse {A} (text : string) : commanding A := throw (App_Text (lit text)).

Definition ensure paths : commanding unit :=
  _ ← on_files (on_host (ensure_private_dir (data_dir paths)));
  on_files (on_host (ensure_private_dir (runtime_dir paths))).

(** *** The lock of a running Host *)

Definition acquire_serve_lock paths : commanding unit :=
  _ ← on_files (on_host (open_private_lock (lock_file paths)));
  running ← gets host_running;
  if running : bool then refuse "AgentPulse Host is already running" else mret ().

Definition acquire_stopped_lock paths : commanding unit := λ w,
  match acquire_serve_lock paths w with
  | (w', Ok _) => (w', Ok ())
  | (w', Err _) => (w', Err (App_Text (lit "stop AgentPulse Host before changing private configuration")))
  end.

(** *** Commands on the configuration *)

Definition initialize_command paths (name : rstring) : commanding unit :=
  identity ← on_store (PairingStore.initialize (credential_store paths) name);
  _ ← say (lit "Initialized AgentPulse Host '" ++ identity_host_name identity ++ lit "'");
  _ ← say (lit "Host ID: " ++ identity_host_id identity);
  say (lit "Next: agentpulse threads add <CODEX_THREAD_UUIDV7>").

Inductive ThreadsCommand : Type :=
| Threads_Add (thread_ids : list rstring)
| Threads_Remove (thread_ids : list rstring)
| Threads_List.

(** [BTreeSet<String>] in its order. *)
Definition in_order (s : gset rstring) : list rstring := merge_sort str_le (elements s).

(** The loop of [Remove]. *)
Fixpoint remove_threads (configured : gset rstring) (thread_ids : list rstring) : result AppError (gset rstring) :=
  match thread_ids with
  | [] => Ok configured
  | thread_id :: thread_ids' =>
      if bool_decide (thread_id ∈ configured) then remove_threads (configured ∖ {[thread_id]}) thread_ids'
      else Err (App_Text (lit "thread " ++ thread_id ++ lit " is not configured"))
  end.

Fixpoint say_all (lines : list rstring) : commanding unit :=
  match lines with [] => mret () | line :: lines' => _ ← say line; say_all lines' end.

Definition threads_command paths (command : ThreadsCommand) : commanding unit :=
  identity ← on_store (load_identity (credential_store paths));
  let configured : gset rstring := list_to_set (identity_thread_ids identity) in
  match command with
  | Threads_List =>
      if is_empty (identity_thread_ids identity) then say (lit "No Codex threads configured.")
      else say_all (identity_thread_ids identity)
  | Threads_Add ids =>
      if is_empty ids then refuse "at least one thread ID is required"
      else
        _ ← on_store (set_thread_ids (credential_store paths) (in_order (configured ∪ list_to_set ids)));
        say (lit "Updated the Codex thread set.")
  | Threads_Remove ids =>
      if is_empty ids then refuse "at least one thread ID is required"
      else
        configured ← lift (remove_threads configured ids);
        _ ← on_store (set_thread_ids (credential_store paths) (in_order configured));
        say (lit "Updated the Codex thread set.")
  end.

Inductive DevicesCommand : Type := Devices_List | Devices_Revoke (client_id : rstring).

Definition tab : rstring := [9%N].
Definition device_line (d : DeviceCredentialSummary) : rstring :=
  summary_client_id d ++ tab ++ summary_display_name d ++ tab ++ default (lit "-") (summary_version d) ++ tab
  ++ display_i64 (summary_paired_at d).

Definition devices_command paths (command : DevicesCommand) : commanding unit :=
  match command with
  | Devices_List =>
      devices ← on_store (list_devices (credential_store paths));
      if is_empty devices then say (lit "No paired devices.") else say_all (device_line <$> devices)
  | Devices_Revoke client_id =>
      _ ← on_store (revoke_device (credential_store paths) client_id);
      say (lit "Revoked device " ++ client_id ++ lit ".")
  end.

Definition credentials_command paths (confirm_revoke_all : bool) : commanding unit :=
  _ ← acquire_stopped_lock paths;
  if negb confirm_revoke_all then refuse "credential rotation requires --confirm-revoke-all"
  else
    identity ← on_store (rotate_credentials (credential_store paths));
    say (lit "Rotated credentials for '" ++ identity_host_name identity ++ lit "' and revoked every device.").

Inductive RelayCommand : Type :=
| Relay_Configure (endpoint : RelayEndpoint) (token_stdin : bool)
| Relay_Status
| Relay_Disable (confirm : bool).

(** [trim_end_matches(['\r', '\n'])] *)
Fixpoint trim_newlines_rev (s : rstring) : rstring :=
  match s with
  | c :: s' => if (c =? 13)%N || (c =? 10)%N then trim_newlines_rev s' else s
  | [] => []
  end.
Definition trim_newlines (s : rstring) : rstring := reverse (trim_newlines_rev (reverse s)).

(** [stdin]: the first 130 bytes of the standard input, as text. *)
Definition relay_command (stdin : result rstring rstring) paths (command : RelayCommand) : commanding unit :=
  identity ← on_store (load_identity (credential_store paths));
  match command with
  | Relay_Configure endpoint token_stdin =>
      _ ← acquire_stopped_lock paths;
      if negb token_stdin
      then refuse "Relay configuration requires --token-stdin; pipe the Token through standard input"
      else
        input ← lift (map_err App_Io stdin);
        let token := trim_newlines input in
        if (128 <? N.of_nat (byte_len token))%N || negb (bool_decide (trim token = token))
        then refuse "Relay enrollment Token is malformed"
        else
          _ ← lift (map_err App_Relay (RelayHostConnectionConfig_new endpoint (identity_host_id identity) token (Refine 1%N I)));
          _ ← on_files (save_relay_settings (relay_config paths) endpoint token);
          _ ← say (lit "Configured optional Relay endpoint " ++ authority endpoint ++ lit ".");
          say (lit "Restart `agentpulse serve` to enable the public path.")
  | Relay_Status =>
      settings ← on_files (load_relay_settings (relay_config paths) (identity_host_id identity));
      match settings with
      | Some settings => say (lit "Relay endpoint: " ++ authority (settings_endpoint settings))
      | None => say (lit "Relay is disabled.")
      end
  | Relay_Disable confirm =>
      _ ← acquire_stopped_lock paths;
      if negb confirm then refuse "disabling Relay requires --confirm"
      else
        removed ← (λ w, let '(w', r) := on_files (on_host (remove_file (relay_config paths))) w in (w', Ok r));
        match removed with
        | Ok _ => say (lit "Disabled the optional Relay path.")
        | Err (App_Io e) =>
            if bool_decide (e = not_found) then say (lit "Relay is already disabled.") else throw (App_Io e)
        | Err e => throw e
        end
  end.

Inductive DirectCommand : Type :=
| Direct_Configure (bind : IpAddr) (native_port pairing_port : u16) (native_endpoint pairing_endpoint : rstring)
| Direct_Status
| Direct_Disable.

Definition direct_command paths (command : DirectCommand) : commanding unit :=
  match command with
  | Direct_Configure bind native_port pairing_port native pairing =>
      _ ← on_files (direct_configure (direct_config paths) bind native_port pairing_port native pairing);
      say (lit "Direct settings saved. Restart agentpulse serve to apply them.")
  | Direct_Status =>
      settings ← on_files (direct_load (direct_config paths));
      match settings with
      | Some settings =>
          bytes ← lift (map_err App_Json (direct_to_vec settings));
          say (default [] (from_utf8 bytes))
      | None => say (lit "Direct pairing is disabled.")
      end
  | Direct_Disable =>
      _ ← on_files (direct_disable (direct_config paths));
      say (lit "Direct settings removed. Restart agentpulse serve to apply this change.")
  end.

(** *** Preparing to serve *)

(** What the adapters are built from; building the provider from its
    configuration is [CodexProvider_build] of the file on its configuration. *)
Record ServePlan : Type := MkPlan {
  plan_identity : HostIdentitySnapshot;
  plan_relay : option RelayHostSettings;
  plan_direct : option DirectSettings;
  plan_address : SocketAddr;
  plan_channel_id : ChannelId;
  plan_provider : CodexProviderConfig;
  plan_native : NativeChannelConfig
}.

(** The bytes of a path of the system. *)
Definition path_bytes (path : Path) : PathBuf := concat ((λ c, separator :: (byte_of_N <$> c)) <$> path).

Definition serve_plan paths (args : ServeArgs) (interfaces : result rstring (list IpAddr)) (current_dir : result rstring PathBuf)
    (host_run_id : rstring) (native_error_text : NativeChannelBuildError → rstring) : commanding ServePlan :=
  _ ← acquire_serve_lock paths;
  identity ← on_store (load_identity (credential_store paths));
  relay ← on_files (load_relay_settings (relay_config paths) (identity_host_id identity));
  if is_empty (identity_thread_ids identity) && negb (serve_discover_threads args)
  then refuse "no Codex threads configured; run `agentpulse threads add` first"
  else
    direct ← on_files (direct_load (direct_config paths));
    address ← lift (serve_address args direct relay interfaces);
    provider_id ← lift (map_err (App_Text ∘ domain_error_text) (id_from_str ProviderEntity (identity_provider_id identity)));
    channel_id ← lift (map_err (App_Text ∘ domain_error_text) (id_from_str ChannelEntity (identity_channel_id identity)));
    executable ← lift (map_err App_Io (resolve_codex_executable (serve_codex args)));
    let root := path_bytes (runtime_dir paths ++ [lit "codex"]) in
    provider ← lift (map_err (App_Text ∘ build_error_text)
      (if serve_discover_threads args then discovering current_dir provider_id root
       else CodexProviderConfig_new current_dir provider_id root (identity_thread_ids identity)));
    let constructor := match direct with Some _ => authenticated_public | None => authenticated_lan end in
    _ ← lift (map_err App_Pairing (tls_identity_of identity));
    native ← lift (map_err (App_Text ∘ native_error_text) (constructor channel_id host_run_id address));
    mret (MkPlan identity relay direct address channel_id (with_codex_executable executable provider) native).

(** The status before the first turn, whether the service is published on the
    local network, and the lines printed. *)
Definition serve_status (plan : ServePlan) (native_address : SocketAddr) (remote_uri : rstring) (provider : CodexProviderHealth)
    (native : NativeChannelHealth) (pid : N) : RuntimeStatus :=
  let identity := plan_identity plan in
  MkStatus (identity_host_id identity) (identity_host_name identity) (identity_server_name identity) native_address
    (Some (codex_executable (plan_provider plan))) remote_uri (health_name provider) (native_health_name native) (plan_direct plan)
    (authority ∘ settings_endpoint <$> plan_relay plan) (match plan_relay plan with Some _ => "starting" | None => "disabled" end)
    None [] pid.
Definition publishes_mdns (direct : option DirectSettings) (native_address : SocketAddr) : bool :=
  negb (match direct with Some _ => true | None => false end || is_loopback (socket_ip native_address)).
Definition ready_lines (plan : ServePlan) (native_address : SocketAddr) (remote_uri : rstring) : list rstring :=
  let identity := plan_identity plan in
  [lit "AgentPulse Host '" ++ identity_host_name identity ++ lit "' is ready.";
   lit "Native WSS: wss://" ++ identity_server_name identity ++ lit ":" ++ display_u64 (raw (socket_port native_address))
     ++ lit "/agentpulse/native/v3";
   lit "Codex: " ++ utf8_lossy (Byte.to_N <$> codex_executable (plan_provider plan)) ++ lit " --remote " ++ remote_uri;
   lit "Pair a phone in another terminal: agentpulse pair"].

(** *** The administration loop *)

Definition set_healths (provider native : string) (s : RuntimeStatus) : RuntimeStatus :=
  MkStatus (status_host_id s) (status_host_name s) (status_server_name s) (native_address s) (status_codex_executable s)
    (codex_remote_uri s) provider native (status_direct s) (status_relay_endpoint s) (status_relay_health s)
    (status_relay_last_error s) (relay_ready_routes s) (status_pid s).
Definition set_relay (r : RelayRuntimeSnapshot) (s : RuntimeStatus) : RuntimeStatus :=
  MkStatus (status_host_id s) (status_host_name s) (status_server_name s) (native_address s) (status_codex_executable s)
    (codex_remote_uri s) (provider_health s) (native_health s) (status_direct s) (status_relay_endpoint s) (relay_health r)
    (relay_last_error r) (ready_routes r) (status_pid s).

Definition write_status (path : Path) (status : RuntimeStatus) : act Disk AppError unit :=
  bytes ← lift (map_err App_Json (status_to_vec_pretty status));
  on_host (atomic_write_private path bytes).

(** The answer to a request, and whether the Host is to stop. *)
Definition admin_answer (remote_uri : rstring) (auth_token : option rstring) (status : RuntimeStatus)
    (request : result rstring AdminRequest) : bool * AdminResponse :=
  match request with
  | Ok Admin_Status => (false, MkResponse true (Some status) None None)
  | Ok Admin_CodexLaunch =>
      (false, MkResponse true None (Some (MkLaunch remote_uri auth_token (status_codex_executable status))) None)
  | Ok Admin_Stop => (true, MkResponse true (Some status) None None)
  | Err error => (false, MkResponse false None None (Some error))
  end.

(** [received]: the payload, or why there is none; [delivered]: whether it can
    be answered.  Returned: the flag, what was sent, and the outcome. *)
Definition handle_admin (remote_uri : rstring) (auth_token : option rstring) (status : RuntimeStatus)
    (received : result rstring (list Byte.byte)) (delivered : result rstring unit) (stop : bool) :
    bool * option (list Byte.byte) * result AppError unit :=
  match received with
  | Err e => (stop, None, Err (App_Io e))
  | Ok payload =>
      let '(stops, response) := admin_answer remote_uri auth_token status (admin_request_from_slice payload) in
      match admin_response_to_vec response, delivered with
      | Err e, _ => (stop || stops, None, Err (App_Json e))
      | Ok _, Err e => (stop || stops, None, Err (App_Io e))
      | Ok bytes, Ok _ => (stop || stops, Some bytes, Ok ())
      end
  end.

(** What a turn of the loop meets: a signal before it, the snapshots it takes of
    the adapters (health and last error, in the order they are taken) and of the
    relay, and a client. *)
Inductive AdminArrival : Type :=
| Arrival_None
| Arrival_Failed (error : rstring)
| Arrival_Client (received : result rstring (list Byte.byte)) (delivered : result rstring unit).
Record AdminTurn : Type := MkTurn {
  turn_signal : bool;
  turn_provider : nat → CodexProviderHealth * option rstring;
  turn_native : nat → NativeChannelHealth * option rstring;
  turn_relay : option RelayRuntimeSnapshot;
  turn_arrival : AdminArrival
}.

(** [answered]: what was sent to the clients. *)
Record AdminWorld : Type := MkAdmin {
  admin_disk : Disk;
  stop_requested : bool;
  admin_status : RuntimeStatus;
  answered : list (list Byte.byte)
}.

Definition refresh_status (t : AdminTurn) (s : RuntimeStatus) : RuntimeStatus :=
  let s := set_healths (health_name (turn_provider t 0).1) (native_health_name (turn_native t 0).1) s in
  match turn_relay t with Some r => set_relay r s | None => s end.

(** [None]: the loop goes on. *)
Definition admin_turn (status_path : Path) (remote_uri : rstring) (auth_token : option rstring) (t : AdminTurn) (a : AdminWorld) :
    AdminWorld * option (result AppError unit) :=
  let stop := stop_requested a || turn_signal t in
  if stop then (MkAdmin (admin_disk a) true (admin_status a) (answered a), Some (Ok ()))
  else
    let status := refresh_status t (admin_status a) in
    let '(d, written) := write_status status_path status (admin_disk a) in
    let a := MkAdmin d false status (answered a) in
    match written with
    | Err e => (a, Some (Err e))
    | Ok _ =>
        if bool_decide ((turn_provider t 1).1 = CodexSource.Health_Failed)
        then (a, Some (Err (App_Text (default (lit "Codex Provider failed") (turn_provider t 2).2))))
        else if bool_decide ((turn_native t 1).1 = Native.Health_Failed)
        then (a, Some (Err (App_Text (default (lit "Native Channel failed") (turn_native t 2).2))))
        else
          match turn_arrival t with
          | Arrival_None => (a, None)
          | Arrival_Failed error => (a, Some (Err (App_Io error)))
          | Arrival_Client received delivered =>
              let '(stop, sent, _) := handle_admin remote_uri auth_token status received delivered false in
              (MkAdmin d stop status (answered a ++ match sent with Some bytes => [bytes] | None => [] end), None)
          end
    end.

Fixpoint run_admin_loop (status_path : Path) (remote_uri : rstring) (auth_token : option rstring) (turns : list AdminTurn) (a : AdminWorld) :
    AdminWorld * option (result AppError unit) :=
  match turns with
  | [] => (a, None)
  | t :: turns' =>
      match admin_turn status_path remote_uri auth_token t a with
      | (a', None) => run_admin_loop status_path remote_uri auth_token turns' a'
      | (a', Some r) => (a', Some r)
      end
  end.

(** [StatusFileCleanup] *)
Definition cleanup_runtime_files paths (d : Disk) : Disk := (remove_file (status_file paths) d).1.

(** *** Requests to a running Host *)

(** [exchange]: connecting, sending the request and receiving the answer. *)
Definition request_admin (connected : result rstring unit) (exchange : list Byte.byte → result rstring (list Byte.byte))
    (request : AdminRequest) : result AppError AdminResponse :=
  _ ← map_err (λ e, App_Text (lit "cannot connect to AgentPulse Host: " ++ e)) connected;
  payload ← map_err App_Json (admin_request_to_vec request);
  bytes ← map_err App_Io (exchange payload);
  response ← map_err App_Json (admin_response_from_slice bytes);
  if response_ok response then Ok response
  else Err (App_Text (default (lit "admin request failed") (response_error response))).

Definition stop_command (connected : result rstring unit) (exchange : list Byte.byte → result rstring (list Byte.byte)) :
    commanding unit :=
  response ← lift (request_admin connected exchange Admin_Stop);
  if negb (response_ok response) then throw (App_Text (default (lit "stop failed") (response_error response)))
  else say (lit "AgentPulse Host is stopping.").

Definition direct_line (d : DirectSettings) : rstring :=
  lit "Direct pairing: " ++ direct_host (pairing_endpoint d) ++ lit ":" ++ display_u64 (raw (direct_port (pairing_endpoint d)))
  ++ lit "; Native: " ++ direct_host (native_endpoint d) ++ lit ":" ++ display_u64 (raw (direct_port (native_endpoint d))).

Definition status_lines (s : RuntimeStatus) : list rstring :=
  [lit "Host: " ++ status_host_name s ++ lit " (" ++ status_host_id s ++ lit ")";
   lit "Native: " ++ lit (native_health s) ++ lit " at " ++ display_socket (native_address s);
   lit "Provider: " ++ lit (provider_health s)]
  ++ match status_direct s with Some d => [direct_line d] | None => [] end
  ++ match status_relay_endpoint s with
     | Some endpoint =>
         (lit "Relay: " ++ lit (status_relay_health s) ++ lit " at " ++ endpoint)
         :: match status_relay_last_error s with Some e => [lit "Relay last error: " ++ e] | None => [] end
     | None => [lit "Relay: disabled"]
     end
  ++ [lit "Host PID: " ++ display_u64 (status_pid s)]
  ++ match status_codex_executable s with Some e => [lit "Codex executable: " ++ utf8_lossy (Byte.to_N <$> e)] | None => [] end
  ++ [lit "Codex remote: " ++ codex_remote_uri s].

Definition status_command (connected : result rstring unit) (exchange : list Byte.byte → result rstring (list Byte.byte)) :
    commanding unit :=
  match request_admin connected exchange Admin_Status with
  | Ok response =>
      status ← lift (ok_or (App_Text (lit "Host status was unavailable")) (response_status response));
      say_all (status_lines status)
  | Err _ => say (lit "AgentPulse Host is stopped.")
  end.

(** *** Codex *)

Definition CODEX_PROXY_TOKEN_ENV : rstring := lit "AGENTPULSE_CODEX_PROXY_TOKEN".

(** [Path] compares components: repeated separators and a [.] that is not the
    first component do not count. *)
Fixpoint path_pieces (path piece : PathBuf) : list PathBuf :=
  match path with
  | [] => [piece]
  | b :: path' => if bool_decide (b = separator) then piece :: path_pieces path' [] else path_pieces path' (piece ++ [b])
  end.
Definition path_components (path : PathBuf) : bool * list PathBuf :=
  let counts piece := negb (bool_decide (piece = [])) && negb (bool_decide (piece = as_bytes (lit "."))) in
  match path_pieces path [] with
  | [] => (false, [])
  | first :: pieces =>
      (is_absolute path, (if bool_decide (first = []) then [] else [first]) ++ List.filter counts pieces)
  end.
Definition same_path (a b : PathBuf) : bool := bool_decide (path_components a = path_components b).

(** The arguments and the additional environment of the launched process. *)
Record CodexInvocation : Type := MkInvocation {
  invocation_executable : PathBuf;
  invocation_arguments : list rstring;
  invocation_environment : list (rstring * rstring)
}.

Definition configure_codex_command (executable : PathBuf) (remote_uri : rstring) (auth_token : option rstring) (arguments : list rstring) :
    CodexInvocation :=
  MkInvocation executable
    ([lit "--remote"; remote_uri]
     ++ match auth_token with Some _ => [lit "--remote-auth-token-env"; CODEX_PROXY_TOKEN_ENV] | None => [] end ++ arguments)
    (match auth_token with Some token => [(CODEX_PROXY_TOKEN_ENV, token)] | None => [] end).

Definition codex_invocation (connected : result rstring unit) (exchange : list Byte.byte → result rstring (list Byte.byte))
    (codex : PathBuf) (arguments : list rstring) : result AppError CodexInvocation :=
  response ← request_admin connected exchange Admin_CodexLaunch;
  credentials ← ok_or (App_Text (lit "running Host did not return Codex launch credentials")) (response_codex_launch response);
  let executable := if same_path codex (as_bytes (lit "codex")) then default codex (launch_executable credentials) else codex in
  executable ← map_err App_Io (resolve_codex_executable executable);
  Ok (configure_codex_command executable (launch_remote_uri credentials) (launch_auth_token credentials) arguments).

(** [spawned]: the exit of the process, with its text if it was not successful. *)
Definition codex_command (connected : result rstring unit) (exchange : list Byte.byte → result rstring (list Byte.byte))
    (codex : PathBuf) (arguments : list rstring) (spawned : CodexInvocation → result rstring (option rstring)) : commanding unit :=
  invocation ← lift (codex_invocation connected exchange codex arguments);
  exit ← lift (map_err App_Io (spawned invocation));
  match exit with
  | None => mret ()
  | Some status => throw (App_Text (lit "Codex exited with " ++ status))
  end.

(** *** Pairing *)

(** [approve_device]: the prompt is shown, and a line is read. *)
Definition approve_device (flushed : bool) (answer : result rstring rstring) : bool :=
  if negb flushed then false
  else match answer with
       | Ok line =>
           let line := to_ascii_lowercase (trim line) in
           bool_decide (line = lit "y") || bool_decide (line = lit "yes")
       | Err _ => false
       end.

(** An attempt of the thread that publishes the pairing route: whether it was
    stopped before, whether it came to wait for a client, how it ended, and
    whether it was stopped after. *)
Record PairAttempt : Type := MkAttempt {
  attempt_stopped_before : bool;
  attempt_waited : bool;
  attempt_result : result RelayError unit;
  attempt_stopped_after : bool
}.

Definition pair_backoff : list N := [1; 2; 5]%N.

(** The channel holds one message: the first one sent is received.  Returned:
    that message, if any, and the delays slept. *)
Fixpoint pair_connector (attempts : list PairAttempt) (announced : bool) (backoff : nat) :
    option (result rstring unit) * list N :=
  match attempts with
  | [] => (None, [])
  | t :: attempts' =>
      if attempt_stopped_before t then (None, [])
      else if negb (attempt_waited t) && negb announced then
        (Some (Err (match attempt_result t with
                    | Ok _ => lit "Relay pairing route closed unexpectedly"
                    | Err e => relay_error_text e
                    end)), [])
      else
        let backoff := if attempt_waited t then 0 else backoff in
        if attempt_stopped_after t then (if attempt_waited t then Some (Ok ()) else None, [])
        else
          let '(message, delays) := pair_connector attempts' (announced || attempt_waited t) (Nat.min (backoff + 1) (length pair_backoff - 1)) in
          (if attempt_waited t then Some (Ok ()) else message, nth backoff pair_backoff 0%N :: delays)
  end.

(** What the command does with the message, or without one in fifteen seconds. *)
Definition pair_published (message : option (result rstring unit)) : result AppError unit :=
  match message with
  | Some (Ok _) => Ok ()
  | Some (Err error) => Err (App_Text (lit "could not publish QR pairing route: " ++ error))
  | None => Err (App_Text (lit "timed out publishing QR pairing route"))
  end.

(** The polls for the route of a new device: the time before each, and what the
    Host answers.  [None]: the polling goes on. *)
Fixpoint await_route (route : rstring) (deadline : N) (polls : list (N * result AppError AdminResponse)) : option (result PairingError unit) :=
  match polls with
  | [] => None
  | (now, answer) :: polls' =>
      if negb (now <? deadline)%N
      then Some (Err (Pairing_InvalidField "relay_route" (lit "timed out waiting for device route registration")))
      else if match answer with
              | Ok response => from_option (λ status, bool_decide (route ∈ relay_ready_routes status)) false (response_status response)
              | Err _ => false
              end
      then Some (Ok ())
      else await_route route deadline polls'
  end.

(** The route of a device token, as the [ready] callback derives it. *)
Definition device_route (token : rstring) (endpoint : RelayEndpoint) : result RelayError RouteRegistration :=
  route ← derive_route (device_root_from_token token) endpoint; Ok (registration route).

(** *** Threads of the Host *)

(** [sleep_until_stopped]: how often it sleeps for 100 ms; [flags]: the flag before each. *)
Fixpoint sleep_steps (flags : nat → bool) (from steps : nat) : nat :=
  match steps with
  | O => 0
  | S steps' => if flags from then 0 else S (sleep_steps flags (S from) steps')
  end.
Definition sleep_until_stopped (flags : nat → bool) (milliseconds : nat) : nat :=
  sleep_steps flags 0 ((milliseconds + 99) / 100).

(** [cancel_and_join]: the polls of the thread (finished, and the time then), and
    whether it panicked. *)
Fixpoint cancel_and_join (deadline : N) (polls : list (bool * N)) (panicked : bool) : option (result rstring unit) :=
  match polls with
  | [] => None
  | (finished, now) :: polls' =>
      if finished : bool
      then Some (if panicked then Err (lit "Relay connector thread terminated unexpectedly") else Ok ())
      else if (deadline <=? now)%N
      then Some (Err (lit "Relay connector did not stop before its deadline; detaching it"))
      else cancel_and_join deadline polls' panicked
  end.

(** *** The command line *)

(** [Serve] and [Pair] are given by what they do. *)
Inductive HostCommand : Type :=
| Command_Init (name : rstring)
| Command_Threads (command : ThreadsCommand)
| Command_Serve (serve : commanding unit)
| Command_Codex (codex : PathBuf) (arguments : list rstring)
| Command_Pair (pairing : commanding unit)
| Command_Devices (command : DevicesCommand)
| Command_Credentials (confirm_revoke_all : bool)
| Command_Relay (command : RelayCommand)
| Command_Direct (command : DirectCommand)
| Command_Status
| Command_Stop.

Definition run_command (stdin : result rstring rstring) (connected : result rstring unit)
    (exchange : list Byte.byte → result rstring (list Byte.byte)) (spawned : CodexInvocation → result rstring (option rstring))
    (override_dir project_dir : option Path) (command : HostCommand) : commanding unit :=
  paths ← lift (HostPaths_resolve override_dir project_dir);
  _ ← ensure paths;
  match command with
  | Command_Init name => initialize_command paths name
  | Command_Threads command => threads_command paths command
  | Command_Serve serve => serve
  | Command_Codex codex arguments => codex_command connected exchange codex arguments spawned
  | Command_Pair pairing => pairing
  | Command_Devices command => devices_command paths command
  | Command_Credentials confirm_revoke_all => credentials_command paths confirm_revoke_all
  | Command_Relay command => relay_command stdin paths command
  | Command_Direct command => direct_command paths command
  | Command_Status => status_command connected exchange
  | Command_Stop => stop_command connected exchange
  end.

(** *** Discovery on the local network *)

Record MdnsService : Type := MkMdns {
  mdns_type : rstring;
  mdns_instance : rstring;
  mdns_host : rstring;
  mdns_address : SocketAddr;
  mdns_properties : list (rstring * rstring)
}.

Fixpoint trim_dots_rev (s : rstring) : rstring :=
  match s with c :: s' => if (c =? 46)%N then trim_dots_rev s' else s | [] => [] end.

(** [None]: the slice of the identifier panics. *)
Definition mdns_service (host_id host_name server_name : rstring) (address : SocketAddr) : option MdnsService :=
  let bytes := as_bytes host_id in
  prefix ← (if (8 <=? length bytes)%nat then from_utf8 (take 8 bytes) else None);
  Some (MkMdns (lit "_agentpulse._tcp.local.") (lit "AgentPulse-" ++ prefix)
          (reverse (trim_dots_rev (reverse server_name)) ++ lit ".") address
          [(lit "host_id", host_id); (lit "host_name", host_name); (lit "protocol", lit "1"); (lit "server_name", server_name)]).
End commands.
