(* ===== verification/HostCommandsSpec.v ===== *)
(** * The commands of the Host: correctness

    Which files a command leaves alone, what the thread commands make of the
    stored set, which address is served, and how requests and the administration
    loop fit together. *)

From stdpp Require Import base strings numbers sorting gmap list.
From S2P Require Import Prelude Bytes Json Values Snapshots Capability Interaction Event Dto Net.
From S2P Require Import CodexMapper CodexProtocol CodexApproval CodexInteractions CodexControl CodexWorker CodexSource CodexConfig CodexProcess CodexProcessSpec.
From S2P Require Import Native RelayProtocol RelayClient Transport PairingProtocol Platform PairingStore PairingStoreSpec PairingServer NativeWorker HostRelay HostRelaySpec HostCommands.

Section commands_spec.
Context `{Externals} `{RelayExternals} `{PairingJson} `{StoreLibrary} `{StoreDraws} `{DiskFaults} `{HostJson} `{AdminJson}.
Implicit Types (w : HostWorld) (paths : HostPaths) (q : Path).

Abbreviation commanding A := (act HostWorld AppError A).

(** ** Files a command leaves alone *)

Definition file q w : option (list Byte.byte) := file_at q (disk (host_store w)).

Definition spares {A} q (a : commanding A) : Prop :=
  ∀ w, file q (a w).1 = file q w ∧ host_running (a w).1 = host_running w.
Definition store_spares {A} q (a : act StoreWorld PairingError A) : Prop := ∀ s, file_at q (disk (a s).1) = file_at q (disk s).

Lemma spares_bind {A B} q (a : commanding A) (f : A → commanding B) : spares q a → (∀ x, spares q (f x)) → spares q (x ← a; f x).
Proof.
  intros Ha Hf w. unfold mbind, act_bind. destruct (Ha w) as [E1 E2]. destruct (a w) as [w1 [x|e]]; [|done]. cbn [fst] in *.
  destruct (Hf x w1) as [-> ->]. done.
Qed.
Lemma spares_lift {A} q (m : result AppError A) : spares q (lift m).
Proof. by intros w. Qed.
Lemma spares_ret {A} q (x : A) : spares q (mret x).
Proof. by intros w. Qed.
Lemma spares_throw {A} q e : spares q (throw e : commanding A).
Proof. by intros w. Qed.
Lemma spares_gets {A} q (f : HostWorld → A) : spares q (gets f).
Proof. by intros w. Qed.
Lemma spares_say q line : spares q (say line).
Proof. by intros w. Qed.
Lemma spares_store {A} q (a : act StoreWorld PairingError A) : store_spares q a → spares q (on_store a).
Proof. intros Ha w. unfold on_store, file. specialize (Ha (host_store w)). by destruct (a (host_store w)). Qed.
Lemma spares_files {A} q (a : act Disk AppError A) : (∀ d, file_at q (a d).1 = file_at q d) → spares q (on_files a).
Proof. intros Ha w. unfold on_files, file. specialize (Ha (disk (host_store w))). by destruct (a _). Qed.
Lemma host_keeps {A} q (a : act Disk rstring A) d : keeps q a → file_at q (on_host a d).1 = file_at q d.
Proof. intros Ha. unfold on_host. specialize (Ha d). by destruct (a d). Qed.

(** *** The store *)

Lemma store_bind {A B} q (a : act StoreWorld PairingError A) (f : A → act StoreWorld PairingError B) :
  store_spares q a → (∀ x, store_spares q (f x)) → store_spares q (x ← a; f x).
Proof. intros Ha Hf s. unfold mbind, act_bind. specialize (Ha s). destruct (a s) as [s1 [x|e]]; [|done]. by rewrite Hf. Qed.
Lemma store_on_disk {A} q operation (a : act Disk rstring A) : keeps q a → store_spares q (on_disk operation a).
Proof. intros Ha s. unfold on_disk. specialize (Ha (disk s)). by destruct (a (disk s)). Qed.
Lemma store_pure {A} q (a : act StoreWorld PairingError A) : (∀ s, disk (a s).1 = disk s) → store_spares q a.
Proof. intros Ha s. by rewrite Ha. Qed.

Lemma store_load_unlocked q path : store_spares q (load_unlocked path).
Proof.
  unfold load_unlocked. apply store_bind; [apply store_on_disk, keeps_exists_path|]. intros present. destruct (negb present); [done|].
  apply store_bind; [apply store_on_disk, keeps_protect_file|]. intros _.
  apply store_bind; [apply store_on_disk, keeps_call; intros m; by destruct (m !! path) as [[]|]|].
  intros bytes s. unfold mbind, act_bind, lift. destruct (record_from_slice bytes); [|done]. cbn. by destruct (validate_record _).
Qed.

Lemma store_update q path op :
  q ≠ path → q ≠ lock_path path → (∀ n, q ≠ temporary_of (removelast path) n) → (∀ r, store_spares q (op r)) →
  store_spares q (update path op).
Proof.
  intros Hp Hl Ht Hop. unfold update, ensure_parent, open_lock, take_lock.
  apply store_bind; [destruct (parent path); [apply store_on_disk, keeps_ensure_private_dir|done]|intros _].
  apply store_bind; [by apply store_on_disk, keeps_open_private_lock|intros _].
  apply store_bind; [apply store_on_disk, keeps_readonly|intros _].
  apply store_bind; [apply store_load_unlocked|intros r]. apply store_bind; [apply Hop|intros r'].
  apply store_bind; [done|intros _]. apply store_bind; [|done]. unfold save_unlocked.
  apply store_bind; [done|intros bytes]. by apply store_on_disk, keeps_atomic_write.
Qed.

Lemma renew_leaf_disk r s : disk (renew_leaf r s).1 = disk s.
Proof.
  unfold renew_leaf, create_leaf, certificate, draw, mbind, act_bind, lift, mret, act_ret.
  repeat (case_match; simplify_eq/=; try done).
Qed.
Lemma store_load_identity q path :
  q ≠ path → q ≠ lock_path path → (∀ n, q ≠ temporary_of (removelast path) n) → store_spares q (load_identity path).
Proof.
  intros Hp Hl Ht. unfold load_identity. apply store_bind; [|done]. apply store_update; [done..|]. intros r.
  unfold now_unix_seconds. apply store_bind; [done|intros now]. destruct (_ <=? _)%Z; [|done]. apply store_pure, renew_leaf_disk.
Qed.

(** ** The paths of a Host *)

Lemma snoc_ne (dir : Path) (a b : rstring) : a ≠ b → dir ++ [a] ≠ dir ++ [b].
Proof. intros Hn E. apply (inj (app dir)) in E. by injection E. Qed.

Lemma credentials_path_lock dir : credential_store (paths_in dir) ≠ lock_path (credential_store (paths_in dir)).
Proof. unfold lock_path. cbn [paths_in credential_store]. rewrite removelast_last, last_snoc. by apply snoc_ne. Qed.
Lemma temporary_ne dir (name : rstring) n : head name ≠ Some 46%N → dir ++ [name] ≠ temporary_of dir n.
Proof. intros Hn. unfold temporary_of. apply snoc_ne. by intros ->. Qed.
Lemma credentials_path_temporary dir n : credential_store (paths_in dir) ≠ temporary_of (removelast (credential_store (paths_in dir))) n.
Proof. cbn [paths_in credential_store]. rewrite removelast_last. by apply temporary_ne. Qed.

(** The relay settings are a file of their own. *)
Lemma relay_path_apart dir :
  let paths := paths_in dir in
  relay_config paths ≠ credential_store paths ∧ relay_config paths ≠ lock_path (credential_store paths) ∧
  relay_config paths ≠ lock_file paths ∧ (∀ n, relay_config paths ≠ temporary_of (removelast (credential_store paths)) n).
Proof.
  cbn. split_and!.
  - by apply snoc_ne.
  - unfold lock_path. rewrite removelast_last, last_snoc. by apply snoc_ne.
  - intros E. apply (f_equal length) in E. rewrite !length_app in E. cbn in E. lia.
  - intros n. rewrite removelast_last. by apply temporary_ne.
Qed.

(** ** The lock *)

Lemma spares_serve_lock q paths : q ≠ lock_file paths → spares q (acquire_serve_lock paths).
Proof.
  intros Hq. unfold acquire_serve_lock. apply spares_bind; [apply spares_files; intros d; by apply host_keeps, keeps_open_private_lock|].
  intros _. apply spares_bind; [apply spares_gets|]. intros []; [apply spares_throw|apply spares_ret].
Qed.

Lemma serve_lock_running paths w w' r :
  acquire_serve_lock paths w = (w', r) → r = Ok () → host_running w = false.
Proof.
  intros E ->. unfold acquire_serve_lock in E. apply act_bind_Ok in E as (w1 & [] & E1 & E2).
  apply act_bind_Ok in E2 as (w2 & running & [= <- <-] & E2). destruct (host_running w1) eqn:Hr; [discriminate|]. rewrite <-Hr.
  unfold on_files in E1. destruct (on_host _ _) as [d [[]|]]; [|discriminate]. by injection E1 as <-.
Qed.

Lemma stopped_lock_running paths w : host_running w = true → ∃ w', acquire_stopped_lock paths w =
  (w', Err (App_Text (lit "stop AgentPulse Host before changing private configuration"))) ∧
  ∀ q, q ≠ lock_file paths → file q w' = file q w.
Proof.
  intros Hr. unfold acquire_stopped_lock. destruct (acquire_serve_lock paths w) as [w1 [[]|e]] eqn:E.
  - by rewrite (serve_lock_running paths w w1 _ E eq_refl) in Hr.
  - exists w1. split; [done|]. intros q Hq. destruct (spares_serve_lock q paths Hq w) as [Hs _]. by rewrite E in Hs.
Qed.

Lemma credentials_locked paths confirm w w' r :
  host_running w = true → credentials_command paths confirm w = (w', r) →
  is_ok r = false ∧ ∀ q, q ≠ lock_file paths → file q w' = file q w.
Proof.
  intros Hr E. unfold credentials_command, mbind, act_bind in E. destruct (stopped_lock_running paths w Hr) as (w1 & E1 & Hq).
  rewrite E1 in E. by injection E as <- <-.
Qed.

Lemma relay_locked stdin dir command w w' r :
  host_running w = true → command ≠ Relay_Status → relay_command stdin (paths_in dir) command w = (w', r) →
  is_ok r = false ∧ file (relay_config (paths_in dir)) w' = file (relay_config (paths_in dir)) w.
Proof.
  intros Hr Hc E. destruct (relay_path_apart dir) as (H1' & H2' & H3' & H4'). set (q := relay_config (paths_in dir)) in *.
  assert (spares q (on_store (load_identity (credential_store (paths_in dir))))) as Hl by (by apply spares_store, store_load_identity).
  destruct (Hl w) as [Hf Hrun]. unfold relay_command in E. unfold mbind at 1, act_bind in E.
  destruct (on_store (load_identity _) w) as [w1 [identity|e]]; cbn [fst] in *; [|by injection E as <- <-].
  assert (host_running w1 = true) as Hr1 by congruence. destruct (stopped_lock_running (paths_in dir) w1 Hr1) as (w2 & E1 & Hq).
  destruct command as [endpoint token| |confirm]; [|done|]; unfold mbind at 1, act_bind in E; rewrite E1 in E;
    injection E as <- <-; (split; [done|]); rewrite Hq by done; done.
Qed.
End commands_spec.

(** ** The thread set *)

Lemma in_order_spec (s : gset rstring) : NoDup (in_order s) ∧ StronglySorted str_le (in_order s) ∧ list_to_set (in_order s) = s.
Proof.
  unfold in_order. split_and!.
  - rewrite merge_sort_Permutation. apply NoDup_elements.
  - apply (StronglySorted_merge_sort _).
  - apply set_eq. intros x. rewrite elem_of_list_to_set, merge_sort_Permutation. apply elem_of_elements.
Qed.

Lemma remove_threads_spec (configured : gset rstring) ids s :
  remove_threads configured ids = Ok s ↔ NoDup ids ∧ list_to_set ids ⊆ configured ∧ s = configured ∖ list_to_set ids.
Proof.
  revert configured. induction ids as [|id ids IH]; intros configured; cbn [remove_threads].
  - split; [intros [= <-]; split_and!; [constructor|set_solver|set_solver]|]. intros (_ & _ & ->). f_equal. set_solver.
  - case_bool_decide as Hi.
    + rewrite IH, NoDup_cons. cbn [list_to_set foldr]. split.
      * intros (Hd & Hs & ->). split_and!; [set_solver|done|set_solver|set_solver].
      * intros ((Hn & Hd) & Hs & ->). split_and!; [done|set_solver|set_solver].
    + split; [done|]. intros (_ & Hs & _). cbn [list_to_set foldr] in Hs. set_solver.
Qed.

Section thread_commands.
Context `{Externals} `{RelayExternals} `{PairingJson} `{StoreLibrary} `{!StoreLibraryOk} `{StoreDraws} `{DiskFaults} `{HostJson} `{AdminJson}.
Context (dir : Path).
Abbreviation path := (credential_store (paths_in dir)).
Implicit Types (r : StoreRecord).

(** Records that differ in their certificates at most. *)
Definition same_record r r' : Prop :=
  identity_of r' = identity_of r ∧ thread_ids r' = thread_ids r ∧ devices r' = devices r.

Lemma update_saved op s s' res r :
  (∀ r, leaves path (op r)) → saved path s r → update path op s = (s', res) →
  ∃ r', saved path s' r' ∧ (r' = r ∨ ∃ s1 s2, op r s1 = (s2, Ok r')) ∧ (∀ x, res = Ok x → x = r' ∧ ∃ s1 s2, op r s1 = (s2, Ok r')).
Proof.
  intros Hop Hs Hu. apply (update_cases path (credentials_path_lock dir) (credentials_path_temporary dir)) in Hu as [[Hr Hc]|(r0 & r' & s1 & s2 & Hs0 & Ho & Hs' & Hres)]; [| |done].
  - exists r. split; [by eapply saved_same|]. split; [by left|]. intros x ->. done.
  - rewrite (saved_unique path _ _ _ Hs0 Hs) in Ho. exists r'. split; [done|]. split; [right; eauto|].
    intros x ->. destruct Hres as [[= ->]|?]; [|done]. eauto.
Qed.

Lemma load_identity_saved s s' res r :
  saved path s r → load_identity path s = (s', res) →
  ∃ r', saved path s' r' ∧ same_record r r' ∧ ∀ i, res = Ok i → snapshot r' = Ok i.
Proof.
  intros Hs. unfold load_identity. intros [(s1 & r1 & E1 & E2)|(e & E1 & ->)]%act_bind_inv.
  all: apply (update_saved _ _ _ _ r) in E1 as (r' & Hs' & Hr & Hok); [|apply leaves_identity_check|done].
  all: assert (same_record r r') as Hsame by
    (destruct Hr as [->|(s2 & s3 & Hop)]; [done|];
     apply act_bind_Ok in Hop as (s4 & now & _ & Hop); destruct (_ <=? _)%Z; [by apply renew_leaf_Ok in Hop as [c ->]|by injection Hop as <- <-]).
  - injection E2 as <- <-. exists r'. split_and!; [done|apply Hsame..|]. destruct (Hok r1 eq_refl) as [-> _]. done.
  - exists r'. done.
Qed.

Lemma set_thread_ids_saved ids s s' res r :
  saved path s r → set_thread_ids path ids s = (s', res) →
  ∃ r', saved path s' r' ∧ (r' = r ∨ r' = set_thread_list ids r) ∧ (res = Ok () → r' = set_thread_list ids r).
Proof.
  intros Hs. unfold set_thread_ids. intros [(s1 & [] & [= <- E1] & E)|(e & [= <- E1] & ->)]%act_bind_inv;
    [|exists r; split_and!; [done|by left|done]].
  apply act_bind_inv in E as [(s2 & r2 & E2 & E)|(e & E2 & ->)];
    (apply (update_saved _ _ _ _ r) in E2 as (r' & Hs' & Hr & Hok); [|intros r0; apply leaves_ret|done]); exists r'; (split; [|split]).
  - by injection E as <-.
  - destruct Hr as [->|(s3 & s4 & [= _ <-])]; auto.
  - intros _. destruct (Hok r2 eq_refl) as (_ & s3 & s4 & [= _ <-]). done.
  - done.
  - destruct Hr as [->|(s3 & s4 & [= _ <-])]; auto.
  - done.
Qed.

(** The set a command asks for. *)
Definition wanted (command : ThreadsCommand) (old : gset rstring) : option (gset rstring) :=
  match command with
  | Threads_Add ids => Some (old ∪ list_to_set ids)
  | Threads_Remove ids => if decide (NoDup ids ∧ list_to_set ids ⊆ old) then Some (old ∖ list_to_set ids) else None
  | Threads_List => None
  end.

Lemma snapshot_threads r i : snapshot r = Ok i → identity_thread_ids i = thread_ids r.
Proof. unfold snapshot. intros (? & _ & (? & _ & (? & _ & [= <-])%bind_Ok)%bind_Ok)%bind_Ok. done. Qed.

Lemma on_store_inv {A} (a : act StoreWorld PairingError A) (w w' : HostWorld) res :
  on_store a w = (w', res) → ∃ s x, a (host_store w) = (s, x) ∧ w' = set_store s w ∧ res = map_err App_Pairing x.
Proof. unfold on_store. destruct (a (host_store w)) as [s x]. intros [= <- <-]. eauto. Qed.

Lemma replace_threads (new : gset rstring) (line : rstring) (w w' : HostWorld) res r :
  saved path (host_store w) r →
  (_ ← on_store (set_thread_ids path (in_order new)); say line) w = (w', res) →
  ∃ r', saved path (host_store w') r' ∧ identity_of r' = identity_of r ∧ devices r' = devices r ∧
    (thread_ids r' = thread_ids r ∨ thread_ids r' = in_order new) ∧ (res = Ok () → thread_ids r' = in_order new).
Proof.
  intros Hs [(w1 & [] & E1 & [= <- <-])|(e & E1 & ->)]%act_bind_inv;
    apply on_store_inv in E1 as (s & x & E1 & -> & Hx); destruct (set_thread_ids_saved _ _ _ _ _ Hs E1) as (r' & Hs' & Hr & Hok);
    exists r'; (split; [done|]).
  - destruct x as [[]|]; [|done]. rewrite (Hok eq_refl). by split_and!; auto.
  - destruct Hr as [->| ->]; split_and!; auto; done.
Qed.

Lemma say_all_store lines (w w' : HostWorld) res : say_all lines w = (w', res) → host_store w' = host_store w.
Proof.
  revert w. induction lines as [|line lines IH]; intros w; cbn [say_all]; [by intros [= <- <-]|].
  by intros [(w1 & [] & [= <-] & ->%IH)|(e & [= ] & _)]%act_bind_inv.
Qed.

Lemma threads_command_spec command (w w' : HostWorld) res r :
  saved path (host_store w) r → threads_command (paths_in dir) command w = (w', res) →
  ∃ r', saved path (host_store w') r' ∧ identity_of r' = identity_of r ∧ devices r' = devices r ∧
    (thread_ids r' = thread_ids r ∨ ∃ new, wanted command (list_to_set (thread_ids r)) = Some new ∧ thread_ids r' = in_order new) ∧
    (res = Ok () → command = Threads_List ∧ thread_ids r' = thread_ids r ∨
       ∃ new, wanted command (list_to_set (thread_ids r)) = Some new ∧ thread_ids r' = in_order new).
Proof.
  intros Hs. unfold threads_command. intros [(w1 & i & E1 & E)|(e & E1 & ->)]%act_bind_inv;
    apply on_store_inv in E1 as (s & x & E1 & -> & Hx); destruct (load_identity_saved _ _ _ _ Hs E1) as (r1 & Hs1 & (Hi & Ht & Hd) & Hok).
  2:{ exists r1. split_and!; [done..|by left|done]. }
  destruct x as [i'|]; [|done]. injection Hx as ->. specialize (Hok i' eq_refl). rewrite (snapshot_threads _ _ Hok), Ht in E.
  destruct command as [ids|ids|].
  - destruct (is_empty ids); [injection E as <- <-; exists r1; split_and!; [done..|by left|done]|].
    destruct (replace_threads _ _ (set_store s w) _ _ r1 Hs1 E) as (r' & Hs' & Hi' & Hd' & Hr & Hres). rewrite Ht in Hr.
    exists r'. split_and!; [done|congruence|congruence| |].
    + destruct Hr as [?|?]; [by left|right; eauto].
    + intros Hr'. right. eauto.
  - destruct (is_empty ids); [injection E as <- <-; exists r1; split_and!; [done..|by left|done]|].
    apply act_bind_inv in E as [(w1 & new & [= <- Hnew] & E)|(e & [= <- _] & ->)];
      [|exists r1; split_and!; [done..|by left|done]].
    apply remove_threads_spec in Hnew as (Hnd & Hsub & ->).
    destruct (replace_threads _ _ (set_store s w) _ _ r1 Hs1 E) as (r' & Hs' & Hi' & Hd' & Hr & Hres). rewrite Ht in Hr.
    assert (wanted (Threads_Remove ids) (list_to_set (thread_ids r)) = Some (list_to_set (thread_ids r) ∖ list_to_set ids)) as Hw.
    { cbn [wanted]. by rewrite decide_True. }
    exists r'. split_and!; [done|congruence|congruence| |].
    + destruct Hr as [?|?]; [by left|right; eauto].
    + intros Hr'. right. eauto.
  - assert (saved path (host_store w') r1) as Hs'.
    { destruct (is_empty _); [by injection E as <- <-|]. by rewrite (say_all_store _ _ _ _ E). }
    exists r1. split_and!; [done..|by left|]. intros _. by left.
Qed.
End thread_commands.

(** ** Serving *)

Section serve_spec.
Context `{Externals} `{RelayExternals} `{PairingJson} `{StoreLibrary} `{StoreDraws} `{DiskFaults} `{HostJson} `{AdminJson}.

Lemma select_private_ip_valid interfaces address :
  select_private_ip interfaces = Ok address → validate_private_ip address = Ok ().
Proof.
  unfold select_private_ip. intros (l & _ & E)%bind_Ok. destruct (private_addresses l) as [|a [|b rest]] eqn:Ea; [done| |done].
  injection E as ->. assert (address ∈ private_addresses l) as Hin by (rewrite Ea; by apply list_elem_of_singleton). revert Hin.
  unfold private_addresses. rewrite merge_sort_Permutation, elem_of_remove_dups, list_elem_of_In, filter_In.
  intros [_ Hv]. by destruct (validate_private_ip address) as [[]|].
Qed.

(** A private or link-local address, or the loopback of a Host that has a relay. *)
Definition sheltered (relay : option RelayHostSettings) (address : IpAddr) : Prop :=
  validate_private_ip address = Ok () ∨ (is_loopback address = true ∧ relay ≠ None).

Lemma serve_address_spec args direct relay interfaces address :
  serve_address args direct relay interfaces = Ok address →
  match direct with
  | Some s => address = MkSocketAddr (direct_bind s) (direct_native_port s)
  | None => sheltered relay (socket_ip address)
  end.
Proof.
  unfold serve_address. destruct direct as [s|]; [destruct (_ || _); [done|]; by intros [= <-]|].
  intros (ip & E & [= <-])%bind_Ok. cbn [socket_ip]. destruct (serve_bind args) as [a|]; [|left; by eapply select_private_ip_valid].
  destruct (is_loopback a) eqn:El.
  - case_bool_decide; [done|]. injection E as <-. by right.
  - apply bind_Ok in E as ([] & E & [= <-]). by left.
Qed.

Lemma direct_load_valid path d d' s : direct_load path d = (d', Ok (Some s)) → DirectSettings_validate s = Ok ().
Proof.
  unfold direct_load. destruct (fs_read path d) as [d1 [bytes|e]]; [|by case_bool_decide].
  intros (d2 & s1 & E1 & (d3 & [] & E2 & [= <- <-])%act_bind_Ok)%act_bind_Ok. by injection E2 as _ ->.
Qed.

Lemma native_constructor cid run_id address c :
  (authenticated_lan cid run_id address = Ok c → bind_address c = address ∧ allow_public c = false) ∧
  (authenticated_public cid run_id address = Ok c → bind_address c = address ∧ allow_public c = true).
Proof.
  split; [by intros ([] & _ & [= <-])%bind_Ok|].
  by intros (c1 & ([] & _ & [= <-])%bind_Ok & [= <-])%bind_Ok.
Qed.

Lemma land_bit n mask value k : N.land n mask = value → N.testbit n k && N.testbit mask k = N.testbit value k.
Proof. intros <-. symmetry. apply N.land_spec. Qed.

Lemma private_unicast ip : validate_private_ip ip = Ok () → is_private_endpoint ip = true ∧ is_multicast ip = false.
Proof.
  unfold validate_private_ip, is_private_endpoint, is_multicast. destruct ip as [a b c d|segments].
  - destruct (ipv4_is_private a b || ipv4_is_link_local a b) eqn:Ev; [|done]. intros _. split; [rewrite <-orb_assoc, Ev; apply orb_true_r|].
    apply not_true_iff_false. intros [?%N.leb_le ?%N.leb_le]%andb_prop.
    apply orb_prop in Ev as [[[Ha|[[Ha _]%andb_prop _]%andb_prop]%orb_prop|[Ha _]%andb_prop]%orb_prop|[Ha _]%andb_prop];
      apply N.eqb_eq in Ha; lia.
  - destruct (ipv6_is_unique_local segments || ipv6_is_unicast_link_local segments) eqn:Ev; [|done]. intros _.
    split; [rewrite <-orb_assoc, Ev; apply orb_true_r|]. apply not_true_iff_false. intros Hm%N.eqb_eq.
    apply orb_prop in Ev as [Ev%N.eqb_eq|Ev%N.eqb_eq].
    + pose proof (land_bit _ _ _ 9 Hm) as H1'. pose proof (land_bit _ _ _ 9 Ev) as H2'. cbn in H1', H2'.
      rewrite andb_true_r in H1', H2'. congruence.
    + pose proof (land_bit _ _ _ 8 Hm) as H1'. pose proof (land_bit _ _ _ 8 Ev) as H2'. cbn in H1', H2'.
      rewrite andb_true_r in H1', H2'. congruence.
Qed.

Lemma sheltered_unicast relay ip : sheltered relay ip → is_private_endpoint ip = true ∧ is_multicast ip = false.
Proof.
  intros [Hv|[Hl _]]; [by apply private_unicast|]. unfold is_private_endpoint. rewrite Hl. split; [by destruct ip|].
  destruct ip as [a b c d|segments]; cbn in *; [apply N.eqb_eq in Hl as ->; done|]. apply bool_decide_eq_true in Hl as ->. done.
Qed.

(** The transport of the endpoint: the address, the boundary and the authorizer. *)
Definition transported (c : NativeChannelConfig) : Prop :=
  ∀ identity authorizer, ∃ tls, tls_transport_config identity authorizer c = Ok (Some tls) ∧ tls_bind_address tls = bind_address c ∧
    tls_allow_public tls = allow_public c ∧ tls_authorizer tls = Some authorizer ∧ tls_identity tls = identity ∧
    tls_max_message_bytes tls = raw (config_max_frame_bytes c).

Lemma native_valid cid run_id address c :
  (authenticated_lan cid run_id address = Ok c → config_validate c = Ok () ∧ Native.transport c = Transport_AuthenticatedLan) ∧
  (authenticated_public cid run_id address = Ok c → config_validate c = Ok () ∧ Native.transport c = Transport_AuthenticatedLan).
Proof.
  split; [by intros ([] & Hv & [= <-])%bind_Ok|]. intros (c1 & ([] & Hv & [= <-])%bind_Ok & [= <-])%bind_Ok. done.
Qed.

Lemma direct_unicast s : DirectSettings_validate s = Ok () → is_multicast (direct_bind s) = false.
Proof. unfold DirectSettings_validate. destruct (is_multicast (direct_bind s)); [|done]. by rewrite orb_true_r. Qed.

Lemma serve_plan_spec paths args interfaces cwd run_id texts (w w' : HostWorld) plan :
  serve_plan paths args interfaces cwd run_id texts w = (w', Ok plan) →
  host_running w = false ∧ bind_address (plan_native plan) = plan_address plan ∧
  (match plan_direct plan with
   | Some s => DirectSettings_validate s = Ok () ∧ plan_address plan = MkSocketAddr (direct_bind s) (direct_native_port s) ∧
       allow_public (plan_native plan) = true
   | None => sheltered (plan_relay plan) (socket_ip (plan_address plan)) ∧ allow_public (plan_native plan) = false
   end) ∧
  configured_well (plan_provider plan) ∧ codex_executable (plan_provider plan) = serve_codex args ∧
  config_discover_threads (plan_provider plan) = serve_discover_threads args ∧
  (if serve_discover_threads args then configured_threads (plan_provider plan) = []
   else thread_text <$> configured_threads (plan_provider plan) = identity_thread_ids (plan_identity plan) ∧
        identity_thread_ids (plan_identity plan) ≠ []) ∧
  transported (plan_native plan).
Proof.
  unfold serve_plan. intros (w1 & [] & E1 & E)%act_bind_Ok. split; [by eapply serve_lock_running|]. clear E1.
  apply act_bind_Ok in E as (w2 & identity & _ & E). apply act_bind_Ok in E as (w3 & relay & _ & E).
  destruct (_ && _); [done|]. apply act_bind_Ok in E as (w4 & direct & Ed & E).
  apply act_bind_Ok in E as (w5 & address & [= <- Ea] & E). apply act_bind_Ok in E as (w6 & pid & _ & E).
  apply act_bind_Ok in E as (w7 & cid & _ & E). apply act_bind_Ok in E as (w8 & executable & [= _ <-] & E).
  apply act_bind_Ok in E as (w9 & provider & [= _ Ep%map_err_Ok] & E). apply act_bind_Ok in E as (w9' & tls & _ & E).
  apply act_bind_Ok in E as (w10 & native & [= _ En%map_err_Ok] & E).
  injection E as _ <-. cbn [plan_native plan_address plan_direct plan_relay plan_provider plan_identity].
  apply serve_address_spec in Ea. split_and!.
  - destruct direct; by apply native_constructor in En as [? _].
  - destruct direct as [s|]; [split_and!; [|done|by apply native_constructor in En as [_ ?]]|split; [done|by apply native_constructor in En as [_ ?]]].
    unfold on_files in Ed. destruct (direct_load _ _) as [d x] eqn:E0. injection Ed as _ ->. by eapply direct_load_valid.
  - apply well_with_executable. destruct (serve_discover_threads args); [by apply discovering_spec in Ep as (? & _)|].
    by apply new_spec in Ep as (_ & _ & _ & _ & _ & ?).
  - done.
  - destruct (serve_discover_threads args); [by apply discovering_spec in Ep as (_ & _ & ?)|].
    pose proof (new_spec _ _ _ _ _ Ep) as (_ & _ & _ & _ & Hf & Hw).
    by destruct (finish_spec _ _ _ _ _ _ (proj1 (well_threads provider Hw)) (proj2 (well_threads provider Hw)) Hf) as (_ & _ & _ & _ & ? & _).
  - destruct (serve_discover_threads args); [by apply discovering_spec in Ep as (_ & ? & _)|].
    by apply new_spec in Ep as (? & _ & _ & ? & _ & _).
  - intros tls_identity authorizer. destruct direct as [s|].
    + pose proof (proj2 (native_constructor _ _ _ _) En) as [Hb Hpub]. destruct (proj2 (native_valid _ _ _ _) En) as [Hv Ht].
      apply tls_transport_total; [done|done| |by rewrite Hpub]. rewrite Hb, Ea. apply direct_unicast.
      unfold on_files in Ed. destruct (direct_load _ _) as [d x] eqn:E0. injection Ed as _ ->. by eapply direct_load_valid.
    + pose proof (proj1 (native_constructor _ _ _ _) En) as [Hb Hpub]. destruct (proj1 (native_valid _ _ _ _) En) as [Hv Ht].
      rewrite <-Hb in Ea. destruct (sheltered_unicast _ _ Ea) as [Hp Hm]. apply tls_transport_total; [done|done|done|].
      by rewrite Hp, orb_true_r.
Qed.
End serve_spec.

(** ** Administration *)

Section admin_spec.
Context `{Externals} `{RelayExternals} `{PairingJson} `{StoreLibrary} `{StoreDraws} `{DiskFaults} `{HostJson} `{AdminJson}.
Context (remote_uri : rstring) (auth_token : option rstring).
Implicit Types (t : AdminTurn) (a : AdminWorld) (s : RuntimeStatus).

(** The connection of a client to a Host that handles its request. *)
Definition host_exchange s (payload : list Byte.byte) : result rstring (list Byte.byte) :=
  ok_or (lit "closed") (handle_admin remote_uri auth_token s (Ok payload) (Ok ()) false).1.2.

Lemma request_answered `{!AdminJsonOk} s request response :
  request_admin (Ok ()) (host_exchange s) request = Ok response →
  response = (admin_answer remote_uri auth_token s (Ok request)).2.
Proof.
  unfold request_admin. intros (? & _ & (payload & Hp%map_err_Ok & (bytes & Hb%map_err_Ok & (r & Hr%map_err_Ok & E)%bind_Ok)%bind_Ok)%bind_Ok)%bind_Ok.
  apply ok_or_Ok in Hb. unfold handle_admin in Hb. rewrite (admin_request_json _ _ Hp) in Hb.
  destruct (admin_answer _ _ _ _) as [stops answer]. destruct (admin_response_to_vec answer) as [bytes'|] eqn:Ev; [|done].
  cbn in Hb. injection Hb as ->. rewrite (admin_response_json _ _ Ev) in Hr. injection Hr as <-.
  destruct (response_ok answer); [by injection E as <-|done].
Qed.

Lemma request_served `{!AdminJsonOk} s request payload bytes :
  admin_request_to_vec request = Ok payload →
  admin_response_to_vec (admin_answer remote_uri auth_token s (Ok request)).2 = Ok bytes →
  request_admin (Ok ()) (host_exchange s) request = Ok (admin_answer remote_uri auth_token s (Ok request)).2.
Proof.
  intros Hp Hb. unfold request_admin, host_exchange, handle_admin. cbn. rewrite Hp. cbn. rewrite (admin_request_json _ _ Hp).
  destruct (admin_answer _ _ _ _) as [stops answer] eqn:Ea. cbn [snd] in *. rewrite Hb. cbn. rewrite (admin_response_json _ _ Hb). cbn.
  destruct request; injection Ea as <- <-; done.
Qed.

(** Codex is started with the address of the Host, and its token is in the
    environment, not among the arguments. *)
Lemma codex_launched `{!AdminJsonOk} s codex arguments invocation :
  codex_invocation (Ok ()) (host_exchange s) codex arguments = Ok invocation →
  invocation_arguments invocation = [lit "--remote"; remote_uri] ++
    (if auth_token is Some _ then [lit "--remote-auth-token-env"; CODEX_PROXY_TOKEN_ENV] else []) ++ arguments ∧
  invocation_environment invocation = (if auth_token is Some token then [(CODEX_PROXY_TOKEN_ENV, token)] else []).
Proof.
  unfold codex_invocation. intros (response & Hr & (credentials & Hc%ok_or_Ok & (executable & _ & <-%Ok_inj)%bind_Ok)%bind_Ok)%bind_Ok.
  apply request_answered in Hr as ->. injection Hc as <-. done.
Qed.

(** *** A turn *)

(** A status that shows what the turn saw. *)
Definition current t s : Prop :=
  provider_health s = health_name (turn_provider t 0).1 ∧ native_health s = native_health_name (turn_native t 0).1 ∧
  ∀ r, turn_relay t = Some r →
    status_relay_health s = relay_health r ∧ status_relay_last_error s = relay_last_error r ∧ relay_ready_routes s = ready_routes r.

Definition same_host s s' : Prop :=
  status_host_id s' = status_host_id s ∧ status_host_name s' = status_host_name s ∧ status_server_name s' = status_server_name s ∧
  native_address s' = native_address s ∧ codex_remote_uri s' = codex_remote_uri s ∧ status_pid s' = status_pid s.

Definition request_of t : option (result rstring AdminRequest) :=
  match turn_arrival t with Arrival_Client (Ok payload) _ => Some (admin_request_from_slice payload) | _ => None end.

Lemma refresh_current t s : current t (refresh_status t s) ∧ same_host s (refresh_status t s).
Proof. unfold refresh_status, current, same_host. destruct (turn_relay t) as [r|]; cbn; split_and!; try done; by intros ? [= <-]. Qed.

(** What a turn that goes on has done. *)
Record went_on (path : Path) t a a' : Prop := {
  on_signal : stop_requested a = false ∧ turn_signal t = false;
  on_healthy : (turn_provider t 1).1 ≠ CodexSource.Health_Failed ∧ (turn_native t 1).1 ≠ Native.Health_Failed;
  on_status : admin_status a' = refresh_status t (admin_status a);
  on_written : ∃ bytes, status_to_vec_pretty (admin_status a') = Ok bytes ∧ file_at path (admin_disk a') = Some bytes;
  on_stop : stop_requested a' = true ↔ request_of t = Some (Ok Admin_Stop);
  on_answered : answered a' = answered a ∨ ∃ request bytes, request_of t = Some request ∧
    answered a' = answered a ++ [bytes] ∧
    admin_response_to_vec (admin_answer remote_uri auth_token (admin_status a') request).2 = Ok bytes
}.

Lemma write_status_file path s d d' :
  (∀ n, path ≠ temporary_of (removelast path) n) → write_status path s d = (d', Ok ()) →
  ∃ bytes, status_to_vec_pretty s = Ok bytes ∧ file_at path d' = Some bytes.
Proof.
  intros Hp (d1 & bytes & [= <- Hb%map_err_Ok] & E)%act_bind_Ok. exists bytes. split; [done|]. unfold on_host in E.
  destruct (atomic_write_private path bytes d) as [d1 x] eqn:Ew. injection E as <- Hx%map_err_Ok. subst x.
  destruct (atomic_write_cases path bytes d d1 (Ok ()) Hp Ew) as [[? _]|Hf]; [done|]. unfold file_at. by rewrite Hf.
Qed.

Lemma admin_turn_on path t a a' :
  (∀ n, path ≠ temporary_of (removelast path) n) →
  admin_turn path remote_uri auth_token t a = (a', None) → went_on path t a a'.
Proof.
  intros Hp. unfold admin_turn. destruct (stop_requested a) eqn:Es, (turn_signal t) eqn:Et; [done..|]. cbn [orb].
  destruct (write_status path _ (admin_disk a)) as [d [[]|e]] eqn:Ew; [|done].
  apply write_status_file in Ew as Hw; [|done]. do 2 (case_bool_decide; [done|]).
  destruct (turn_arrival t) as [|e|received delivered] eqn:Ea; [|done|].
  - intros [= <-]. split; cbn; unfold request_of; rewrite ?Ea; auto; naive_solver.
  - unfold handle_admin. destruct received as [payload|e].
    2:{ intros [= <-]. split; cbn; unfold request_of; rewrite ?Ea, ?app_nil_r; auto; naive_solver. }
    destruct (admin_answer _ _ _ _) as [stops response] eqn:Er.
    assert (stops = true ↔ admin_request_from_slice payload = Ok Admin_Stop) as Hst.
    { destruct (admin_request_from_slice payload) as [[]|]; injection Er as <- <-; naive_solver. }
    destruct (admin_response_to_vec response) as [bytes|] eqn:Eb; [destruct delivered as [[]|]|]; intros [= <-].
    all: split; cbn; unfold request_of; rewrite ?Ea, ?app_nil_r; auto.
    1,3,4: rewrite Hst; split; [by intros ->|by intros [= ->]].
    right. exists (admin_request_from_slice payload), bytes. by rewrite Er.
Qed.

Lemma admin_turn_end path t a a' r :
  admin_turn path remote_uri auth_token t a = (a', Some r) →
  same_host (admin_status a) (admin_status a') ∧ answered a' = answered a ∧
  (r = Ok () ↔ stop_requested a = true ∨ turn_signal t = true).
Proof.
  unfold admin_turn. destruct (stop_requested a || turn_signal t) eqn:Es.
  - apply orb_true_iff in Es. by intros [= <- <-].
  - apply orb_false_iff in Es as [-> ->]. pose proof (proj2 (refresh_current t (admin_status a))) as Hh.
    destruct (write_status _ _ _) as [d [[]|e]]; [|intros [= <- <-]; split_and!; [done|done|naive_solver]].
    do 2 (case_bool_decide; [intros [= <- <-]; split_and!; [done|done|naive_solver]|]).
    destruct (turn_arrival t) as [|e|received delivered]; [done|intros [= <- <-]; split_and!; [done|done|naive_solver]|].
    by destruct (handle_admin _ _ _ _ _ _) as [[]].
Qed.

(** *** The loop *)

Lemma same_host_trans s s' s'' : same_host s s' → same_host s' s'' → same_host s s''.
Proof. unfold same_host. intuition congruence. Qed.

(** An answer given in a turn: to its request, with a status of that turn. *)
Definition answer_of (host : RuntimeStatus) t (bytes : list Byte.byte) : Prop :=
  ∃ request s, request_of t = Some request ∧ current t s ∧ same_host host s ∧
    admin_response_to_vec (admin_answer remote_uri auth_token s request).2 = Ok bytes.

Lemma answer_of_host s s' t bytes : same_host s s' → answer_of s' t bytes → answer_of s t bytes.
Proof. intros Hs (request & s1 & ? & ? & ? & ?). exists request, s1. split_and!; [done|done|by eapply same_host_trans|done]. Qed.

Lemma went_on_answers path t a a' bytes :
  went_on path t a a' → bytes ∈ answered a' → bytes ∈ answered a ∨ answer_of (admin_status a) t bytes.
Proof.
  intros Hw Hin. destruct (refresh_current t (admin_status a)) as [Hc Hh].
  destruct (on_answered _ _ _ _ Hw) as [E|(request & b & Hr & E & Hb)]; rewrite E in Hin; [by left|].
  apply elem_of_app in Hin as [?|Heq%list_elem_of_singleton]; [by left|subst b; right]. rewrite (on_status _ _ _ _ Hw) in Hb.
  by exists request, (refresh_status t (admin_status a)).
Qed.

Lemma admin_loop_answers path turns a a' out bytes :
  (∀ n, path ≠ temporary_of (removelast path) n) →
  run_admin_loop path remote_uri auth_token turns a = (a', out) → bytes ∈ answered a' →
  bytes ∈ answered a ∨ ∃ t, t ∈ turns ∧ answer_of (admin_status a) t bytes.
Proof.
  intros Hp. revert a. induction turns as [|t turns IH]; intros a; cbn [run_admin_loop]; [intros [= <- <-]; by left|].
  destruct (admin_turn path remote_uri auth_token t a) as [a1 [r|]] eqn:Et.
  - apply admin_turn_end in Et as (_ & Ha & _). intros [= <- <-]. rewrite Ha. by left.
  - apply admin_turn_on in Et as Hw; [|done]. intros Hrun Hin. destruct (IH _ Hrun Hin) as [H1'|(t' & H1' & H2')].
    + destruct (went_on_answers _ _ _ _ _ Hw H1') as [?|?]; [by left|right]. exists t. split; [left|done].
    + right. exists t'. split; [by right|]. eapply answer_of_host; [|done].
      rewrite (on_status _ _ _ _ Hw). apply refresh_current.
Qed.

Lemma admin_loop_ends path turns a a' :
  (∀ n, path ≠ temporary_of (removelast path) n) →
  run_admin_loop path remote_uri auth_token turns a = (a', Some (Ok ())) →
  stop_requested a = true ∨ ∃ t, t ∈ turns ∧ (turn_signal t = true ∨ request_of t = Some (Ok Admin_Stop)).
Proof.
  intros Hp. revert a. induction turns as [|t turns IH]; intros a; cbn [run_admin_loop]; [done|].
  destruct (admin_turn path remote_uri auth_token t a) as [a1 [r|]] eqn:Et.
  - apply admin_turn_end in Et as (_ & _ & Hr). intros [= <- ->]. destruct (proj1 Hr eq_refl) as [?|?]; [by left|right].
    exists t. split; [left|by left].
  - apply admin_turn_on in Et as Hw; [|done]. intros [Hs|(t' & ? & ?)]%IH; right.
    + exists t. split; [left|right]. by apply (on_stop _ _ _ _ Hw).
    + exists t'. split; [by right|done].
Qed.

Lemma admin_loop_snoc path turns t a a' out :
  run_admin_loop path remote_uri auth_token (turns ++ [t]) a = (a', out) →
  (run_admin_loop path remote_uri auth_token turns a = (a', out) ∧ out ≠ None) ∨
  ∃ a1, run_admin_loop path remote_uri auth_token turns a = (a1, None) ∧ admin_turn path remote_uri auth_token t a1 = (a', out).
Proof.
  revert a. induction turns as [|t0 turns IH]; intros a; cbn [app run_admin_loop].
  - intros E. right. exists a. split; [done|]. by destruct (admin_turn path remote_uri auth_token t a) as [a1 [r|]].
  - destruct (admin_turn path remote_uri auth_token t0 a) as [a1 [r|]]; [intros [= <- <-]; by left|apply IH].
Qed.

Lemma admin_loop_none path turns a a' t :
  run_admin_loop path remote_uri auth_token turns a = (a', None) → t ∈ turns →
  ∃ a1 a2, admin_turn path remote_uri auth_token t a1 = (a2, None).
Proof.
  revert a. induction turns as [|t0 turns IH]; intros a; cbn [run_admin_loop]; [intros _ Hin; inversion Hin|].
  destruct (admin_turn path remote_uri auth_token t0 a) as [a1 [r|]] eqn:Et; [done|].
  intros Hrun [->|Hin]%elem_of_cons; [eauto|by eapply IH].
Qed.
End admin_spec.
