(* ===== verification/HostTheorems.v ===== *)
(** * Properties of the Host program

    The relay supervisor, the routes of paired devices and the saved settings,
    each with a run on which the hypotheses hold. *)

From stdpp Require Import base strings numbers sorting gmap list.
From S2P Require Import Prelude Bytes Json Values Dto Net Examples RelayProtocol RelaySpec RelayServer RelayClient RelayRuns.
From S2P Require Import Transport PairingProtocol Platform.
From S2P Require Import PairingStore PairingStoreSpec PairingServer PairingServerSpec PairingRuns HostRelay HostRelaySpec.
From S2P Require Import Native NativeWorker CodexSource CodexConfig CodexProcessSpec AdminSocket HostCommands HostCommandsSpec.

(** ** A Host *)

#[export] Instance RelayHostConfigRecord_eq_dec : EqDecision RelayHostConfigRecord.
Proof. solve_decision. Defined.
#[export] Instance DirectEndpoint_eq_dec : EqDecision DirectEndpoint.
Proof. solve_decision. Defined.
#[export] Instance DirectSettings_eq_dec : EqDecision DirectSettings.
Proof. solve_decision. Defined.

Definition test_endpoint : RelayEndpoint := MkEndpoint (lit "relay.example.com") (Refine 2333%N I).
Definition test_direct : DirectSettings :=
  MkDirectSettings (Refine 1%N I) (V4 192 168 1 20) (Refine 49320%N I) (Refine 49321%N I)
    (MkDirectEndpoint (lit "host.example.com") (Refine 443%N I)) (MkDirectEndpoint (lit "203.0.113.7") (Refine 8443%N I)).

#[export] Instance host_json : HostJson := {|
  relay_config_to_vec := entry_to_vec [MkRelayConfig (Refine 1%N I) test_endpoint (lit "enroll")];
  relay_config_from_slice := entry_from_slice [MkRelayConfig (Refine 1%N I) test_endpoint (lit "enroll")];
  direct_to_vec := entry_to_vec [test_direct];
  direct_from_slice := entry_from_slice [test_direct];
  app_error_text := λ _, lit "error";
  relay_error_text := λ _, lit "relay error"
|}.

#[export] Instance host_json_ok : HostJsonOk.
Proof. split; intros r bytes Hr; by apply entry_json in Hr as [_ Hr]. Qed.

Definition settings_path : Path := [lit "home"; lit "agentpulse"; lit "relay.json"].
Lemma settings_path_temporary n : settings_path ≠ temporary_of (removelast settings_path) n.
Proof. discriminate. Qed.

Definition started : RelaySupervisor :=
  supervisor_start "starting" (MkRelaySettings test_endpoint (lit "enroll")) host_id_text (Refine 49320%N I).

(** One device: its worker is started, connects and is announced. *)
Definition test_route : RouteRegistration := MkRoute (lit "route") (lit "key").
Definition supervisor_actions : list SupervisorAction :=
  [Act_Scan (Ok [test_route]); Act_Supervise; Act_Supervise; Act_Supervise; Act_Supervise; Act_Supervise;
   Act_Work (lit "route") Connect_Waiting; Act_Work (lit "route") Connect_Waiting; Act_Work (lit "route") Connect_Waiting].
Definition announced : RelaySupervisor := default started (supervisor_run supervisor_actions started).

Example announced_ready : bool_decide (ready_routes (runtime announced) = [lit "route"]) = true.
Proof. vm_compute. reflexivity. Qed.
Example announced_run : is_Some (supervisor_run supervisor_actions started).
Proof. apply (bool_decide_eq_true (is_Some _)). vm_compute. reflexivity. Qed.
Lemma announced_reached : supervisor_run supervisor_actions started = Some announced.
Proof. unfold announced. destruct announced_run as [s Hs]. by rewrite Hs. Qed.

(** ** The supervisor *)

(** C14: however the supervisor, its workers and the relay interleave: a route is
    reported as ready once, and only from the relay's confirmation of the present
    connection of its worker to the worker's next step after that connection
    ended; at most 32 workers exist, each for the route it is filed under and with a
    backoff inside its table; after a scan the workers of missing routes are told
    to stop; a stopped supervisor reports nothing. *)
Theorem relay_supervisor_invariant `{Externals} `{RelayExternals} `{HostJson} health settings host_id port actions s :
  supervisor_run actions (supervisor_start health settings host_id port) = Some s →
  NoDup (ready_routes (runtime s)) ∧
  (∀ id, id ∈ ready_routes (runtime s) → ∃ w, workers s !! id = Some w ∧ connected (worker_phase w) = true) ∧
  (size (workers s) ≤ MAX_WORKERS) ∧
  (∀ id w, workers s !! id = Some w →
     route_id (worker_route w) = id ∧ backoff_of (worker_phase w) < length backoff_seconds) ∧
  (∀ routes remaining id w, supervisor s = Sup_Starting routes remaining → workers s !! id = Some w →
     worker_stop w = true ∨ has_route id routes = true) ∧
  (supervisor s = Sup_Stopped → ready_routes (runtime s) = []).
Proof.
  intros Hrun. pose proof (supervised_run _ _ _ (supervised_started health settings host_id port) Hrun) as Hs.
  pose proof Hs as [[Hnd Hr] Hw Hb Hk]. split_and!; [done..| | |].
  - intros id w Hm. exact (Hw _ _ Hm).
  - intros routes remaining id w Hp Hm. rewrite Hp in Hk. by apply Hk.
  - by apply supervised_stopped.
Qed.

Lemma relay_supervisor_invariant_witness :
  ready_routes (runtime announced) = [lit "route"] ∧ ∃ w, workers announced !! lit "route" = Some w ∧ connected (worker_phase w) = true.
Proof.
  pose proof (proj1 (bool_decide_eq_true _) announced_ready) as Hr. split; [exact Hr|].
  destruct (relay_supervisor_invariant "starting" (MkRelaySettings test_endpoint (lit "enroll")) host_id_text (Refine 49320%N I)
    supervisor_actions announced announced_reached) as (_ & Hlive & _).
  apply Hlive. rewrite Hr. left.
Defined.

(** ** Routes *)

(** The Host registers exactly the routes of the credentials in its store; so a
    phone that holds an issued token finds the route it derives from it. *)
Theorem device_route_registered `{Externals} `{RelayExternals} `{PairingJson} `{StoreLibrary} `{StoreDraws} `{DiskFaults}
    path endpoint w r w' routes :
  path ≠ lock_path path → saved path w r → relay_routes path endpoint w = (w', Ok routes) →
  (∀ route, route ∈ routes ↔ ∃ device digest cred, device ∈ devices r ∧
     decode_hex_32 (token_sha256 device) = Some digest ∧ derive_route digest endpoint = Ok cred ∧ route = registration cred) ∧
  (∀ client token cred, credential r client = Some (sha256 (as_bytes token)) →
     derive_route (device_root_from_token token) endpoint = Ok cred → registration cred ∈ routes).
Proof.
  intros Hlock Hs Hr. pose proof (λ route, relay_routes_elem path endpoint w r w' routes route Hlock Hs Hr) as Helem.
  split; [exact Helem|]. intros client token cred (device & Hin & Hd)%credential_device Hc.
  apply Helem. by exists device, (sha256 (as_bytes token)), cred.
Qed.

Definition routes_run : StoreWorld * result AppError (list RouteRegistration) := relay_routes store_path test_endpoint issued_run.1.
Example routes_run_one : (match routes_run.2 with Ok routes => (length routes =? 1)%nat | Err _ => false end) = true.
Proof. vm_compute. reflexivity. Qed.

Lemma device_route_registered_witness :
  ∃ routes cred, routes_run.2 = Ok routes ∧ derive_route (device_root_from_token token_text) test_endpoint = Ok cred ∧
    registration cred ∈ routes.
Proof.
  pose proof routes_run_one as Hone. destruct routes_run as [w' [routes|]] eqn:E; [|discriminate Hone].
  destruct (derive_route (device_root_from_token token_text) test_endpoint) as [cred|] eqn:Ec.
  - exists routes, cred. split_and!; [reflexivity|reflexivity|].
    apply (proj2 (device_route_registered store_path test_endpoint issued_run.1 record_1 w' routes store_path_lock saved_1 E)
      phone token_text cred credential_1 Ec).
  - exfalso. assert (is_ok (derive_route (device_root_from_token token_text) test_endpoint) = true) as Hok by (vm_compute; reflexivity).
    rewrite Ec in Hok. discriminate Hok.
Defined.

(** ** Settings *)

(** Relay and direct settings that were saved are loaded as they were, if the
    files can be read; what is loaded is valid. *)
Theorem host_settings_roundtrip `{Externals} `{RelayExternals} `{PairingJson} `{DiskFaults} `{HostJson} `{!HostJsonOk} path d d' :
  (∀ n, path ≠ temporary_of (removelast path) n) → (∀ n, io_count d' ≤ n → fault n = None) →
  (∀ endpoint token host_id, save_relay_settings path endpoint token d = (d', Ok ()) →
     (load_relay_settings path host_id d').2 =
       match RelayHostConnectionConfig_new endpoint host_id token (Refine 1%N I) with
       | Ok _ => Ok (Some (MkRelaySettings endpoint token))
       | Err e => Err (App_Relay e)
       end) ∧
  (∀ bind np pp native pairing, direct_configure path bind np pp native pairing d = (d', Ok ()) →
     ∃ settings, (direct_load path d').2 = Ok (Some settings) ∧ DirectSettings_validate settings = Ok () ∧
       DirectEndpoint_parse native = Ok (native_endpoint settings) ∧ DirectEndpoint_parse pairing = Ok (pairing_endpoint settings) ∧
       direct_bind settings = bind ∧ direct_native_port settings = np ∧ direct_pairing_port settings = pp).
Proof.
  intros Hpath Hf. split.
  - intros endpoint token host_id Hsave. by apply (relay_settings_round_trip path endpoint token host_id d).
  - intros bind np pp native pairing Hc. by apply (direct_settings_round_trip path bind np pp native pairing d).
Qed.

Definition direct_run : Disk * result AppError unit :=
  direct_configure settings_path (V4 192 168 1 20) (Refine 49320%N I) (Refine 49321%N I) (lit "Host.example.com:443")
    (lit "203.0.113.7:8443") (disk store_0).
Example direct_run_ok : is_ok direct_run.2 = true.
Proof. vm_compute. reflexivity. Qed.

Lemma host_settings_roundtrip_witness :
  ∃ settings, (direct_load settings_path direct_run.1).2 = Ok (Some settings) ∧ direct_bind settings = V4 192 168 1 20.
Proof.
  destruct (proj2 (host_settings_roundtrip settings_path (disk store_0) direct_run.1 settings_path_temporary (λ _ _, eq_refl))
    (V4 192 168 1 20) (Refine 49320%N I) (Refine 49321%N I) (lit "Host.example.com:443") (lit "203.0.113.7:8443"))
    as (settings & Hl & _ & _ & _ & Hb & _).
  - change (direct_run = (direct_run.1, Ok ())). pose proof direct_run_ok as Hok. destruct direct_run as [d [[]|]]; [reflexivity|discriminate Hok].
  - exists settings. split; [exact Hl|exact Hb].
Defined.

(** ** Commands *)

(** C15: what `serve` starts: no other Host runs; the endpoint is bound at the
    address chosen, which is the one of the valid direct settings, where it
    accepts public addresses, or a private or link-local address, or the loopback
    of a Host with a relay, and the TLS transport accepts it, with every
    connection checked by the authorizer; the provider is configured within its bounds, with
    the executable asked for, and with exactly the stored threads or with none
    where it discovers them. *)
Theorem serve_plan_safe `{Externals} `{RelayExternals} `{PairingJson} `{StoreLibrary} `{StoreDraws} `{DiskFaults} `{HostJson} `{AdminJson}
    paths args interfaces cwd run_id texts (w w' : HostWorld) plan :
  serve_plan paths args interfaces cwd run_id texts w = (w', Ok plan) →
  host_running w = false ∧ bind_address (plan_native plan) = plan_address plan ∧
  (match plan_direct plan with
   | Some s => DirectSettings_validate s = Ok () ∧ plan_address plan = MkSocketAddr (direct_bind s) (direct_native_port s) ∧
       allow_public (plan_native plan) = true
   | None => sheltered (plan_relay plan) (socket_ip (plan_address plan)) ∧ allow_public (plan_native plan) = false
   end) ∧
  configured_well (plan_provider plan) ∧ codex_executable (plan_provider plan) = serve_codex args ∧
  config_discover_threads (plan_provider plan) = serve_discover_threads args ∧
  (if serve_discover_threads args then configured_threads (plan_provider plan) = []
   else thread_text <$> configured_threads (plan_provider plan) = identity_thread_ids (plan_identity plan) ∧
        identity_thread_ids (plan_identity plan) ≠ []) ∧
  (∀ identity authorizer, ∃ tls, tls_transport_config identity authorizer (plan_native plan) = Ok (Some tls) ∧
     tls_bind_address tls = bind_address (plan_native plan) ∧ tls_allow_public tls = allow_public (plan_native plan) ∧
     tls_authorizer tls = Some authorizer ∧ tls_identity tls = identity ∧
     tls_max_message_bytes tls = raw (config_max_frame_bytes (plan_native plan))).
Proof. intros Hplan. by eapply serve_plan_spec. Qed.

(** While a Host runs, the credentials cannot be rotated and the relay cannot be
    configured or disabled: the commands fail, and the rotation leaves every file
    but the lock as it was, the relay commands the relay settings. *)
Theorem private_configuration_locked
    `{Externals} `{RelayExternals} `{PairingJson} `{StoreLibrary} `{StoreDraws} `{DiskFaults} `{HostJson} `{AdminJson}
    dir stdin (w : HostWorld) :
  host_running w = true →
  (∀ confirm w' r, credentials_command (paths_in dir) confirm w = (w', r) →
     is_ok r = false ∧ ∀ q, q ≠ lock_file (paths_in dir) → file q w' = file q w) ∧
  (∀ command w' r, command ≠ Relay_Status → relay_command stdin (paths_in dir) command w = (w', r) →
     is_ok r = false ∧ file (relay_config (paths_in dir)) w' = file (relay_config (paths_in dir)) w).
Proof.
  intros Hr. split.
  - intros confirm w' r E. by eapply credentials_locked.
  - intros command w' r Hc E. by eapply relay_locked.
Qed.

(** C12: the thread commands keep the stored record: whatever fails, the identity and
    the devices stay, and the threads are the old ones or those the command asks
    for (the union with, or the difference by, the identifiers given, sorted and
    without repetition); after a success they are the latter. *)
Theorem threads_commands
    `{Externals} `{RelayExternals} `{PairingJson} `{StoreLibrary} `{!StoreLibraryOk} `{StoreDraws} `{DiskFaults} `{HostJson} `{AdminJson}
    dir command (w w' : HostWorld) res r :
  let path := credential_store (paths_in dir) in
  saved path (host_store w) r → threads_command (paths_in dir) command w = (w', res) →
  ∃ r', saved path (host_store w') r' ∧ identity_of r' = identity_of r ∧ devices r' = devices r ∧
    (thread_ids r' = thread_ids r ∨
       ∃ new, wanted command (list_to_set (thread_ids r)) = Some new ∧ thread_ids r' = in_order new) ∧
    (res = Ok () → command = Threads_List ∧ thread_ids r' = thread_ids r ∨
       ∃ new, wanted command (list_to_set (thread_ids r)) = Some new ∧ thread_ids r' = in_order new) ∧
    (∀ new : gset rstring, NoDup (in_order new) ∧ StronglySorted str_le (in_order new) ∧ list_to_set (in_order new) = new).
Proof.
  intros path Hs E. destruct (threads_command_spec dir command w w' res r Hs E) as (r' & ? & ? & ? & ? & ?).
  exists r'. split_and!; [done..|]. exact in_order_spec.
Qed.

(** C17: the administration of a running Host.  A request that is answered is answered
    with what the Host replies to that request, and it is answered if the
    messages can be encoded; Codex is started with the address of the Host among
    its arguments and the token in its environment only.  The loop ends without an error only by a signal or
    a request to stop, and after that request at the next turn; while it goes on
    no adapter has failed and the status file holds the status of the last turn;
    every answer is to a request of a turn, with a status taken in that turn. *)
Theorem admin_protocol
    `{Externals} `{RelayExternals} `{PairingJson} `{StoreLibrary} `{StoreDraws} `{DiskFaults} `{HostJson} `{AdminJson} `{!AdminJsonOk}
    remote_uri auth_token path :
  (∀ n, path ≠ temporary_of (removelast path) n) →
  (∀ s request response, request_admin (Ok ()) (host_exchange remote_uri auth_token s) request = Ok response →
     response = (admin_answer remote_uri auth_token s (Ok request)).2) ∧
  (∀ s request payload bytes, admin_request_to_vec request = Ok payload →
     admin_response_to_vec (admin_answer remote_uri auth_token s (Ok request)).2 = Ok bytes →
     is_ok (request_admin (Ok ()) (host_exchange remote_uri auth_token s) request) = true) ∧
  (∀ s codex arguments invocation,
     codex_invocation (Ok ()) (host_exchange remote_uri auth_token s) codex arguments = Ok invocation →
     invocation_arguments invocation = [lit "--remote"; remote_uri] ++
       (if auth_token is Some _ then [lit "--remote-auth-token-env"; CODEX_PROXY_TOKEN_ENV] else []) ++ arguments ∧
     invocation_environment invocation = (if auth_token is Some token then [(CODEX_PROXY_TOKEN_ENV, token)] else [])) ∧
  (∀ turns a a', run_admin_loop path remote_uri auth_token turns a = (a', Some (Ok ())) →
     stop_requested a = true ∨ ∃ t, t ∈ turns ∧ (turn_signal t = true ∨ request_of t = Some (Ok Admin_Stop))) ∧
  (∀ turns t a a', run_admin_loop path remote_uri auth_token (turns ++ [t]) a = (a', None) →
     (∀ t', t' ∈ turns ++ [t] → (turn_provider t' 1).1 ≠ CodexSource.Health_Failed ∧ (turn_native t' 1).1 ≠ Native.Health_Failed) ∧
     current t (admin_status a') ∧
     (∃ bytes, status_to_vec_pretty (admin_status a') = Ok bytes ∧ file_at path (admin_disk a') = Some bytes) ∧
     (request_of t = Some (Ok Admin_Stop) → ∀ t', (admin_turn path remote_uri auth_token t' a').2 = Some (Ok ()))) ∧
  (∀ turns a a' out bytes, run_admin_loop path remote_uri auth_token turns a = (a', out) → bytes ∈ answered a' →
     bytes ∈ answered a ∨ ∃ t, t ∈ turns ∧ answer_of remote_uri auth_token (admin_status a) t bytes).
Proof.
  intros Hp. split_and!.
  - intros s request response E. exact (request_answered _ _ _ _ _ E).
  - intros s request payload bytes Hreq Hres. by rewrite (request_served _ _ _ _ _ _ Hreq Hres).
  - intros s codex arguments invocation E. exact (codex_launched _ _ _ _ _ _ E).
  - intros turns a a'. by apply admin_loop_ends.
  - intros turns t a a' Hrun. destruct (admin_loop_snoc _ _ _ _ _ _ _ _ Hrun) as [[_ ?]|(a1 & _ & Et)]; [done|].
    destruct (admin_turn_on _ _ _ _ _ _ Hp Et) as [_ _ Hs Hw Hstop _]. split_and!.
    + intros t' Hin. destruct (admin_loop_none _ _ _ _ _ _ _ Hrun Hin) as (a2 & a3 & Et').
      by destruct (admin_turn_on _ _ _ _ _ _ Hp Et').
    + rewrite Hs. apply refresh_current.
    + done.
    + intros Hr t'. unfold admin_turn. by rewrite (proj2 Hstop Hr).
  - intros turns a a' out bytes. by apply admin_loop_answers.
Qed.

(** Messages on the administration socket.  A message that was sent was
    written completely and is at most 64 KiB long, and one that failed was
    written in part at most; the peer that reads the bytes written to their end
    gets exactly the message, and gets it if its calls succeed in time; no more
    than the bound is ever received; both loops end once the clock has reached
    their deadline. *)
Theorem admin_messages deadline shutdown turns bytes written out :
  admin_send deadline shutdown turns bytes = (written, out) →
  written `prefix_of` bytes ∧
  (out = Some (Ok ()) → written = bytes ∧ length bytes ≤ MAX_ADMIN_MESSAGE) ∧
  (∀ deadline' turns' received, admin_receive deadline' turns' [] = Some (Ok received) →
     length received ≤ MAX_ADMIN_MESSAGE ∧ (out = Some (Ok ()) → arrived turns' = written → received = bytes)) ∧
  (∀ deadline' turns', out = Some (Ok ()) → arrived turns' = written → Forall (in_time deadline') turns' →
     (∃ t, t ∈ turns' ∧ receive_call t = Ok []) → admin_receive deadline' turns' [] = Some (Ok bytes)) ∧
  ((∃ t, t ∈ turns ∧ (deadline ≤ send_now t)%N) → out ≠ None) ∧
  (∀ deadline' turns', (∃ t, t ∈ turns' ∧ (deadline' ≤ receive_now t)%N) → admin_receive deadline' turns' [] ≠ None).
Proof.
  intros E. assert (written `prefix_of` bytes ∧ (out = Some (Ok ()) → written = bytes ∧ length bytes ≤ MAX_ADMIN_MESSAGE) ∧
    ((∃ t, t ∈ turns ∧ (deadline ≤ send_now t)%N) → out ≠ None)) as (Hpre & Hok & Hend).
  { unfold admin_send in E. destruct (Nat.ltb_spec MAX_ADMIN_MESSAGE (length bytes)) as [|Hl].
    - injection E as <- <-. split_and!; [apply prefix_nil|done|done].
    - apply send_loop_spec in E as Hs. destruct Hs as (_ & Hp & Hs). split_and!; [done|intros Ho; split; [by apply Hs|done]|].
      intros Hlate. pose proof (send_loop_ends _ shutdown _ bytes [] Hlate) as Hn. by rewrite E in Hn. }
  split_and!; [done|done| | |done|].
  - intros deadline' turns' received Hr. apply admin_receive_spec in Hr as [-> Hl]; [|cbn; lia]. split; [done|].
    intros Ho ->. by destruct (Hok Ho).
  - intros deadline' turns' Ho Ha Hall Hclose. destruct (Hok Ho) as [Hw Hl]. rewrite admin_receive_complete; [cbn [app]; congruence|done|done|].
    cbn [length]. rewrite Ha, Hw. lia.
  - intros deadline' turns'. apply admin_receive_ends.
Qed.

(** Binding the administration socket changes the content of no file, succeeds
    only with a socket of its own in place, and takes over no endpoint at which a
    Host answered, unless the system failed to report it. *)
Theorem admin_endpoint `{DiskFaults} path is_socket probe nonblocking d d' r :
  admin_bind path is_socket probe nonblocking d = (d', r) →
  (∀ q, file_at q d' = file_at q d) ∧ (r = Ok () → entries d' !! path = Some Fs_Other) ∧
  (r = Ok () → entries d !! path = Some Fs_Other → probe ≠ Probe_Connected ∨ fault (io_count d) ≠ None).
Proof. apply admin_bind_spec. Qed.

(** *** Witnesses *)

Definition host_dir : Path := [lit "home"; lit "agentpulse"].
Definition host_world (record : Byte.byte) (running : bool) : HostWorld :=
  MkHostWorld
    (MkStoreWorld
      (MkDisk {[ [lit "home"] := Fs_Dir 493; host_dir := Fs_Dir private_dir_mode;
                 runtime_dir (paths_in host_dir) := Fs_Dir private_dir_mode;
                 credential_store (paths_in host_dir) := Fs_File [record] private_file_mode ]} 0) 0) running [].

Lemma host_world_saved running : saved (credential_store (paths_in host_dir)) (host_store (host_world Byte.x00 running)) record_0.
Proof. split; [exists [Byte.x00]; split; reflexivity|reflexivity]. Qed.

Definition example_status : RuntimeStatus :=
  MkStatus host_id_text (lit "Studio") (lit "studio.agentpulse.local") (MkSocketAddr (V4 192 168 1 20) (Refine 49320%N I)) None
    (lit "unix:///run/codex") "running" "listening" None None "disabled" None [] 1.

#[export] Instance RuntimeStatus_eq_dec : EqDecision RuntimeStatus.
Proof. solve_decision. Defined.
#[export] Instance CodexLaunchCredentials_eq_dec : EqDecision CodexLaunchCredentials.
Proof. solve_decision. Defined.
#[export] Instance AdminResponse_eq_dec : EqDecision AdminResponse.
Proof. solve_decision. Defined.
#[export] Instance AdminRequest_eq_dec : EqDecision AdminRequest.
Proof. solve_decision. Defined.

Definition example_uri : rstring := lit "unix:///run/codex".
Definition example_answers : list AdminResponse :=
  (λ request, (admin_answer example_uri (Some (lit "token")) example_status (Ok request)).2) <$> [Admin_Status; Admin_CodexLaunch].

#[export] Instance admin_json : AdminJson := {|
  admin_request_to_vec := entry_to_vec [Admin_Status; Admin_CodexLaunch; Admin_Stop];
  admin_request_from_slice := entry_from_slice [Admin_Status; Admin_CodexLaunch; Admin_Stop];
  admin_response_to_vec := entry_to_vec example_answers;
  admin_response_from_slice := entry_from_slice example_answers;
  status_to_vec_pretty := λ _, Ok [Byte.x7b; Byte.x7d];
  build_error_text := λ _, lit "build error";
  domain_error_text := λ _, lit "domain error"
|}.

#[export] Instance admin_json_ok : AdminJsonOk.
Proof. split; intros x bytes Hx; by apply entry_json in Hx as [_ Hx]. Qed.

Definition serve_run : HostWorld * result AppError ServePlan :=
  serve_plan (paths_in host_dir) (MkServeArgs (Some (V4 192 168 1 20)) None (as_bytes (lit "codex")) false) (Err []) (Err []) [v7 9]
    (λ _, lit "native error") (host_world Byte.x02 false).
Example serve_run_ok : is_ok serve_run.2 = true.
Proof. vm_compute. reflexivity. Qed.

Lemma serve_plan_safe_witness : ∃ plan, serve_run.2 = Ok plan ∧ bind_address (plan_native plan) = plan_address plan.
Proof.
  pose proof serve_run_ok as Hok. destruct serve_run as [w' [plan|]] eqn:E; [|discriminate Hok]. exists plan. split; [reflexivity|].
  apply (serve_plan_safe _ _ _ _ _ _ _ _ _ E).
Defined.

Lemma private_configuration_locked_witness :
  is_ok (credentials_command (paths_in host_dir) true (host_world Byte.x00 true)).2 = false.
Proof.
  destruct (private_configuration_locked host_dir (Ok []) (host_world Byte.x00 true) eq_refl) as [Hc _].
  destruct (credentials_command _ _ _) as [w' r] eqn:E. apply (Hc _ _ _ E).
Defined.

Definition threads_run : HostWorld * result AppError unit :=
  threads_command (paths_in host_dir) (Threads_Add [[v7 4]]) (host_world Byte.x00 false).
Example threads_run_ok : is_ok threads_run.2 = true.
Proof. vm_compute. reflexivity. Qed.

Lemma threads_commands_witness :
  ∃ r', saved (credential_store (paths_in host_dir)) (host_store threads_run.1) r' ∧ [v7 4] ∈ thread_ids r'.
Proof.
  pose proof threads_run_ok as Hok. destruct threads_run as [w' [[]|]] eqn:E; [|discriminate Hok].
  destruct (threads_commands host_dir (Threads_Add [[v7 4]]) (host_world Byte.x00 false) w' (Ok ()) record_0 (host_world_saved false) E) as (r' & Hs & _ & _ & _ & Hn & Ho).
  exists r'. split; [exact Hs|]. destruct (Hn eq_refl) as [[Hl _]|(new & Hw & ->)]; [discriminate Hl|].
  apply (elem_of_list_to_set (C := gset rstring)). rewrite (proj2 (proj2 (Ho new))). injection Hw as <-. set_solver.
Defined.

Lemma status_path_temporary n : status_file (paths_in host_dir) ≠ temporary_of (removelast (status_file (paths_in host_dir))) n.
Proof. discriminate. Qed.

Definition stop_turn : AdminTurn :=
  MkTurn false (λ _, (CodexSource.Health_Running, None)) (λ _, (Native.Health_Listening, None)) None (Arrival_Client (Ok [Byte.x02]) (Ok ())).
Definition admin_run : AdminWorld * option (result AppError unit) :=
  run_admin_loop (status_file (paths_in host_dir)) example_uri (Some (lit "token")) [stop_turn]
    (MkAdmin (disk (host_store (host_world Byte.x00 true))) false example_status []).
Example admin_run_on : (match admin_run.2 with None => true | Some _ => false end) = true.
Proof. vm_compute. reflexivity. Qed.

Lemma admin_protocol_witness :
  is_ok (request_admin (Ok ()) (host_exchange example_uri (Some (lit "token")) example_status) Admin_CodexLaunch) = true ∧
  (admin_turn (status_file (paths_in host_dir)) example_uri (Some (lit "token")) stop_turn admin_run.1).2 = Some (Ok ()).
Proof.
  destruct (admin_protocol example_uri (Some (lit "token")) (status_file (paths_in host_dir)) status_path_temporary)
    as (_ & Hserved & _ & _ & Hon & _). split.
  - apply (Hserved _ _ [Byte.x01] [Byte.x01]); vm_compute; reflexivity.
  - pose proof admin_run_on as Hn. destruct admin_run as [a' [|]] eqn:E; [discriminate Hn|].
    apply (Hon [] stop_turn _ _ E). vm_compute. reflexivity.
Defined.

Lemma admin_messages_witness :
  admin_receive 10 [MkReceiveTurn 1 (Ok ()) (Ok [Byte.x01]); MkReceiveTurn 2 (Ok ()) (Err Call_Interrupted);
                    MkReceiveTurn 3 (Ok ()) (Ok [Byte.x02]); MkReceiveTurn 4 (Ok ()) (Ok [])] [] = Some (Ok [Byte.x01; Byte.x02]).
Proof.
  apply (admin_messages 10 (Ok ()) [MkSendTurn 1 (Ok ()) (Ok 2)] [Byte.x01; Byte.x02] [Byte.x01; Byte.x02] (Some (Ok ())));
    [reflexivity..|repeat constructor; discriminate|].
  eexists. split; [do 3 right; left|reflexivity].
Defined.

Lemma admin_endpoint_witness :
  is_ok (admin_bind (admin_socket (paths_in host_dir)) false Probe_Gone (Ok ()) (disk (host_store (host_world Byte.x00 false)))).2 = true ∧
  ∀ q, file_at q (admin_bind (admin_socket (paths_in host_dir)) false Probe_Gone (Ok ()) (disk (host_store (host_world Byte.x00 false)))).1 =
    file_at q (disk (host_store (host_world Byte.x00 false))).
Proof.
  split; [vm_compute; reflexivity|].
  destruct (admin_bind _ _ _ _ _) as [d' r] eqn:E. apply (admin_endpoint _ _ _ _ _ _ _ E).
Defined.
